(* ===== verification/_CoqProject ===== *)
-Q . S2P
Prelude.v
MyBuf.v
Encrypt.v
PacketProcess.v
PacketHeader.v
LuaApi.v
LuaRefs.v
LuaTable.v
TableChain.v
TableMap.v
TableCount.v
TableResize.v
TableWalk.v
TableProps.v
LuaString.v
StringCorrect.v
StringProps.v
DataFormat.v
WireFormat.v
FormatCorrect.v
TableFormat.v
Protocol.v
ProtocolCorrect.v
ProtocolRuns.v
Binding.v
EvBuffer.v
BufferEvent.v
SocketManager.v
SocketCorrect.v
SocketCreate.v
SocketProps.v
AppFuncs.v
MinHeap.v
EventBase.v
EventCorrect.v
EventTimeouts.v
EventLoop.v
EventProps.v
EventLife.v
EvSignal.v
SignalCorrect.v
SignalProps.v
Epoll.v
EpollCorrect.v
EpollProps.v
EvTag.v
TagCorrect.v
Dns.v
DnsName.v
DnsWrite.v
DnsMessage.v
DnsReply.v
DnsProps.v
DnsClient.v
DnsQueue.v
DnsServers.v
DnsLife.v
DnsSearch.v
DnsFinish.v
DnsEvents.v
DnsSettings.v
DnsClientProps.v
