(* ===== verification/Prelude.v ===== *)
(** * Verification of simple-module

    The repository holds the modules of a small network program in C and C++,
    and the libraries they are built on:

    - encrypt/ and packet/: a stream cipher, a receive buffer, and two ways of
      cutting a byte stream into packets;
    - protocol/: remote calls between two programs scripted in Lua. Protocol
      files describe the arguments of a call; a call made in one program is
      marshalled to bytes, and the bytes received are dispatched to a handler
      of the other program's script;
    - socket/: a registry of listening sockets, client sockets and connections
      on top of libevent's buffered events;
    - client.cpp and server.cpp with client_func.h and server_func.h: the
      programs, whose handlers put the packet layer on a connection;
    - socket/3rd/libevent-1.4.12-stable and protocol/3rd/lua-5.1.4: the vendored
      libraries. Of libevent the byte buffers, buffered events, time-out heap,
      event base, signals, epoll back end, tagged data, DNS messages and the DNS
      client are modelled, of Lua the tables, the strings and the C API the protocol layer
      calls.

    Data flows through them as follows: the kernel reports a descriptor to the
    back end ([epoll_dispatch]), which activates its event; the event base
    ([event_base_loop]) calls a bufferevent's callback, this fills an [evbuffer] and calls the connection
    ([clsPeerPoint::OnRead]), which asks [SocketManager] for the packet handler
    of the socket and hands it the bytes; the handler decrypts them
    ([clsPacketDecrypt]) into a [MyBuf] and takes packets out; a program with
    scripts gives such bytes to [proto_manager::unpack_data].

    ** Files

    - [Prelude]: faults and the result monad of C code, machine integers, bytes,
      memory blocks, tactics and hints, shared lemmas.
    - [MyBuf] (encrypt/mybuf.cpp, include/mybuf.h; packet/mybuf.* is the same
      text): the receive buffer, with the size really allocated.
    - [Encrypt] (encrypt/include/encrypt.h): the interface [clsEncrypt] as a
      class with laws and [SimpleXOR] as its instance.
    - [PacketProcess] (encrypt/packet_process.cpp): [clsPacketEncrypt] and
      [clsPacketDecrypt] over any cipher with these laws.
    - [PacketHeader] (packet/PacketProcess.cpp): [PacketHeaderProcess], its
      object modelled byte by byte.
    - [LuaApi], [LuaRefs] (lapi.c, lauxlib.c): the stack, tables as the API
      shows them, conversions, argument checks and registry references.
    - [LuaTable] (ltable.c): tables as they are stored, an array part and a hash
      part with chains through its free slots; [TableChain] the invariant of the
      chains, [TableMap] the map a table stores, [TableCount] the choice of the
      array size, [TableResize] growth and assignment, [TableWalk] traversal and
      the length operator, [TableProps] the results.
    - [LuaString], [StringCorrect], [StringProps] (lstring.c, lgc.c): the table
      of strings, and what the collector does to strings while the program makes
      them.
    - [DataFormat], [WireFormat], [FormatCorrect] (protocol/data_format.cpp):
      pack and unpack of every argument class, the wire format as a pair of pure
      functions, and the refinement between the two.
    - [TableFormat] (protocol/data_format.cpp): the registry of formats and the
      reading of table descriptions from Lua tables.
    - [Protocol], [ProtocolCorrect], [ProtocolRuns] (protocol/protocol.cpp):
      [net_protocol] and [proto_manager] with every operation, their
      correctness, and the run of the repository's test program.
    - [Binding] (protocol/protocol.cpp): [InitProtocolLib], [GetProtoObj] and
      the methods scripts call.
    - [EvBuffer] (buffer.c), [BufferEvent] (evbuffer.c): buffers and buffered
      events.
    - [SocketManager], [SocketCorrect], [SocketCreate], [SocketProps]
      (socket/*.cpp): the registry with its objects in an explicit store, so
      that deleted objects are visible, its invariant, the creation paths and
      the properties.
    - [AppFuncs] (client_func.h, server_func.h): the handlers of the programs,
      composed with the packet layer and the registry.
    - [MinHeap] (min_heap.h, the time macros of evutil.h): the time-out heap.
    - [EventBase], [EventCorrect], [EventTimeouts], [EventLoop], [EventProps],
      [EventLife] (event.c): events, queues, counters, time-outs, the loop,
      creation and release of a base, one-time events.
    - [EvSignal], [SignalCorrect], [SignalProps] (signal.c, evsignal.h):
      counting signals in the handler, delivering them from the loop, saving and
      restoring handlers.
    - [Epoll], [EpollCorrect], [EpollProps] (epoll.c, [event_reinit] of event.c):
      the table of registered events, its agreement with the kernel's list, and
      [event_add], [event_del] and waiting run over it.
    - [EvTag], [TagCorrect] (event_tagging.c): tagged data in buffers.
    - [Dns] (evdns.c): building and parsing DNS messages, requests, responses
      and names with their compression; [DnsName] names as a relation on the
      bytes of a message and their parser, [DnsWrite] their writer and its table
      of labels, [DnsMessage] headers, questions and records, [DnsReply] what a
      server and a client make of each other's messages, [DnsProps] the results.
    - [DnsClient] (evdns.c): requests in flight and waiting, name servers with
      their time-outs and probes, search domains, replies and the callbacks of the
      program; [DnsQueue] its invariant and the rules for its monad, [DnsServers]
      picking, failing and sending, [DnsLife] creating and promoting requests,
      [DnsSearch] searches, [DnsFinish] replies and the end of requests,
      [DnsEvents] what the event base calls, [DnsSettings] servers, options and
      suspension, [DnsClientProps] the results.

    ** How code is modelled

    A C or C++ function is a Rocq function over explicit state. Its result is in
    [cres]: [Ok] of a value, or [UB] of the fault reached (an access outside a
    block, a use after free, an uninitialised value, a failed assertion, a signed
    overflow, a cast that does not fit, a missing return, or no termination). Lua
    code has a third outcome, a Lua error. Layers with a large state use a state
    monad over it: [lua] and [proto] for the protocol layer, [sm] for the socket
    layer, [em] for the event base, [dm] for the DNS client.

    Integers are Z with their width written out. Signed arithmetic is checked
    ([chk_int], [chk_long]) where its operands are sizes, counters or times;
    it wraps where the code computes hashes and seeds ([SetSeed],
    [calc_hashnr]), where a received number is negated ([number_unpack], for
    INT_MIN) and where a tag of 2^31 or more is put together
    ([decode_tag_loop], whose shift by 28 reaches the sign bit), as the
    compilers used do although C leaves these undefined. Counters of attempts
    (probes and time-outs of a DNS server) are not bounded.
    [size_t] and [unsigned] wrap around. Heap blocks are lists of cells, an
    unset cell being [None].

    Parameters stand for what is outside the code: the allocator, [random], the
    clock, the results of system calls, the back end of the event base, user
    callbacks, and for Lua the files it runs, the functions a script defines,
    [strtod], [sprintf], the addresses and bits that tables hash, and the border
    [luaH_getn] finds. What is assumed of them is a class or a hypothesis of the
    theorem ([LuaEnvOk], [TableEnvOk], [CipherLaws], [PacketLaws],
    [CallbackLaws], [DeallocLaws], [SigKernelOk], [EpollKernelOk],
    [DnsEnvOk], [alloc_sane]), always with an instance that satisfies it. Some parameters of
    one layer are other layers: that [luaH_getn] finds a border, which
    [LuaEnvOk] asks for, is proved of the tables of [LuaTable]
    ([table_lengths_are_borders]); what the back end answers to [event_add] and
    [event_del] is computed by [Epoll] in [EpollProps].

    Signals interrupt the program at any point: [evsignal_process] takes the
    signals that arrive before and after each of its readings as arguments. Every
    other operation is atomic.

    ** Fuel

    Loops that are not structural carry fuel, and the theorems show it suffices:
    [double_fuel] (32 doublings of an [int]), [bag_fuel] (the bytes buffered),
    [expand_fuel] (64 doublings of a [size_t]; beyond them the code really does
    not end, see [evbuffer_expand_never_returns]), [shift_fuel] (33 levels of a
    heap with 32-bit indices), [nibble_fuel] (9 nibbles), the heap size plus one
    for expiring time-outs, two rounds for printing to a buffer, [newkey_fuel]
    (a second insertion after a rehash always finds room), one round per node
    for chains and free slots, one per string for the chains of strings, 28
    slices of the array part, 32 doublings and halvings of an index, 32 doublings
    of the descriptor table, [name_fuel] for names in DNS messages (labels fill
    the output and at most as many pointers as the message is long are
    followed), the transaction ids drawn in a row ([DnsEnvOk] asks for a usable one
    among [e_draws]), one round per server for picking one, one per request that
    waits for promoting them, and the number of active events for the loop over them, which is below 2^29 by the
    invariant. [event_base_loop] runs over the list of turns that happen: the
    loop itself is meant to run for ever.

    ** What the theorems show

    - Packets: over an encrypted stream, cut so that each chunk fits the buffer,
      the receiver hands out exactly the packets sent, in order
      ([packets_delivered_in_order], [BagProcess_is_parse],
      [SimpleXOR_stream_roundtrip], [MyBuf_refines_queue]); a lemma covers the
      cipher on every length ([SimpleXOR_total]), another the header reader, which
      is right for the first packet ([PacketHeader_first_packet]).
    - Remote calls: packing and unpacking implement the wire format and are
      inverse ([pack_refines_encode], [unpack_refines_decode],
      [pack_unpack_roundtrip], [pack_never_overruns], [add_table_args_correct]);
      a call reaches the handler once, with its data ([remote_call_delivered]);
      received bytes never fault the dispatcher, though a handler's own error may
      leave it ([unpack_data_never_faults]);
      scripts reach the manager they name ([script_objects]).
    - Lua tables: assignments refine updates of a finite map, whatever the array
      and hash parts look like ([table_refines_map]); a resize picks the largest
      array that is more than half full (lemma [array_part_largest]); lengths are
      borders ([table_lengths_are_borders]).
    - Lua strings: there is one object for every text ([strings_interned]), which
      is why the models above may compare strings by their bytes where the code
      compares addresses; a collection takes the unreachable strings and no
      others ([collection_exact]).
    - Sockets: the registry's invariant in every reachable state
      ([registry_sound]), delivery of incoming data ([incoming_data_delivered]),
      creation and closing on every outcome ([create_server_outcomes], lemma
      [close_removes_only]), and the programs' handlers end to end
      ([app_messages_received]).
    - libevent: buffers refine a byte queue ([evbuffer_refines_queue],
      [evbuffer_find_first]), buffered events keep the streams
      ([bufferevent_streams]), the heap refines a priority queue
      ([min_heap_refines_pq]), the event base keeps its invariant and its loop
      returns ([event_base_sound], [event_loop_sound],
      [timeouts_fire_in_order], [event_add_all_or_nothing],
      [event_base_free_releases], lemma [clock_jump_corrected]), tagged data
      round-trips ([tagged_stream_roundtrip]) and arbitrary bytes are refused
      without harm (lemma [evtag_unmarshal_on_any_bytes]).
    - DNS: the answers a server gives to a client's request are the answers the
      client reports, through both parsers and name compression
      ([dns_exchange]); no datagram makes the parsers loop or write outside
      their blocks, and they read beyond a message only near its end
      ([dns_any_datagram]). In the use that [op_ok] and [DnsEnvOk] describe,
      the client's calls and events never fault, its queues and counts are exact
      and every callback is called once ([resolver_safe]), and what is in flight
      or down has a time-out that will come ([no_request_forgotten]); examples
      there show what happens outside that use.
    - Signals and polling: no signal is lost between the handler and the loop
      ([signals_delivered]) and the program's own handlers come back
      ([signal_handlers_restored]); the base, the epoll table and the kernel
      agree as long as no two events want the same direction of a descriptor
      ([epoll_in_step]; for [event_reinit] of a base without signals, taken over
      the inserted events as they are when it starts, lemma
      [event_reinit_registers]), reports activate exactly
      the events they concern ([epoll_wait_activates]), and the time waited is
      right up to 24 days ([epoll_wait_time]).
    - Faults the code can reach are proved too, each with the condition that
      leads to it: [InsertData_after_growth_overruns],
      [handler_error_escapes], [connection_error_uses_freed],
      [del_server_uses_freed], [break_leaves_dangling_counter],
      [refused_signal_dangles] and others.

    ** Not modelled

    - Lua: the interpreter, compiler, what the collector marks and how it frees
      objects other than strings, metatables of tables,
      coroutines and stack limits; what a script computes is a parameter, and a
      handler called by the dispatcher does not call back into the manager it
      is called from.
    - libevent: the back ends other than epoll, logging, HTTP and RPC, which the
      program does not use, and of the DNS part the reading of resolv.conf and of
      addresses, the text and flags of [evdns_set_option], and the ports of a
      server with the replies that wait for them. The theorems on the event base
      with epoll are for events on descriptors and time-outs; those on signals
      record the calls made to the base. The loop takes its back end as a
      parameter.
    - The mains and test drivers (glue around the modelled objects), the class
      in struct_sock.h, which nothing uses, failure of [new], and threads. *)
From stdpp Require Export base list gmap strings.
From coqutil Require Export Byte.
From coqutil Require Export Word.LittleEndianList.
From Stdlib Require Export Lia ZArith.

Declare Scope cmodel_scope.
Delimit Scope cmodel_scope with cm.
Open Scope Z_scope.

(** * Faults and the result monad of the C and C++ code *)

(** What a run of the C++ code can do instead of returning: the undefined
    behaviours and aborts that the modelled statements can reach. *)
Inductive fault : Type :=
| OutOfBounds      (* access outside the allocated block or array *)
| NullDeref        (* access through a null pointer *)
| UseAfterFree     (* access to an object or node already released *)
| WildPointer      (* access through an overwritten pointer *)
| BadFree          (* free/realloc of a pointer malloc did not return *)
| Uninitialised    (* a value read before it is written *)
| AssertFailed     (* assert() aborts, or event_errx ends the program *)
| SignedOverflow   (* signed arithmetic outside its type *)
| BadCast          (* a floating value cast to an integer type that cannot hold it *)
| MissingReturn    (* a value-returning function falls off its end *)
| Diverges         (* the loop's fuel is exhausted *).

#[export] Instance fault_eq_dec : EqDecision fault.
Proof. solve_decision. Defined.

Inductive cres (A : Type) : Type :=
| Ok (a : A)
| UB (f : fault).
Arguments Ok {A} a.
Arguments UB {A} f.

#[export] Instance cres_ret : MRet cres := fun A a => Ok a.
#[export] Instance cres_bind : MBind cres := fun A B k m =>
  match m with Ok a => k a | UB f => UB f end.

#[export] Instance cres_eq_dec {A} `{EqDecision A} : EqDecision (cres A).
Proof. solve_decision. Defined.

Definition require (b : bool) (f : fault) : cres unit :=
  if b then Ok () else UB f.

Definition of_option {A} (f : fault) (o : option A) : cres A :=
  match o with Some a => Ok a | None => UB f end.

Definition is_ok {A} (r : cres A) : bool :=
  match r with Ok _ => true | UB _ => false end.

Lemma bind_Ok {A B} (k : A -> cres B) (a : A) : (Ok a ≫= k) = k a.
Proof. reflexivity. Qed.

Lemma bind_UB {A B} (k : A -> cres B) f : (UB f ≫= k) = UB f.
Proof. reflexivity. Qed.

Lemma bind_Ok_inv {A B} (m : cres A) (k : A -> cres B) b :
  (m ≫= k) = Ok b -> exists a, m = Ok a /\ k a = Ok b.
Proof. destruct m; [eauto | discriminate]. Qed.

(** * Machine integers *)

Definition INT_MAX : Z := 2147483647.
Definition INT_MIN : Z := -2147483648.

(** Two's complement reduction to 32 bits, signed and unsigned. *)
Definition wrap32 (z : Z) : Z := (z + 2 ^ 31) mod 2 ^ 32 - 2 ^ 31.
Definition uwrap32 (z : Z) : Z := z mod 2 ^ 32.
Definition wrap16 (z : Z) : Z := (z + 2 ^ 15) mod 2 ^ 16 - 2 ^ 15.

Definition in_int (z : Z) : bool := (INT_MIN <=? z) && (z <=? INT_MAX).

(** Signed [int] arithmetic that the C++ standard leaves undefined outside
    the type's range. *)
Definition chk_int (z : Z) : cres Z :=
  if in_int z then Ok z else UB SignedOverflow.

Lemma wrap32_range z : INT_MIN <= wrap32 z <= INT_MAX.
Proof. unfold wrap32, INT_MIN, INT_MAX. pose proof (Z.mod_pos_bound (z + 2^31) (2^32)). lia. Qed.

Lemma wrap32_small z : INT_MIN <= z <= INT_MAX -> wrap32 z = z.
Proof. unfold wrap32, INT_MIN, INT_MAX. intros. rewrite Z.mod_small; lia. Qed.

Lemma uwrap32_range z : 0 <= uwrap32 z < 2 ^ 32.
Proof. apply Z.mod_pos_bound. lia. Qed.

Lemma uwrap32_small z : 0 <= z < 2 ^ 32 -> uwrap32 z = z.
Proof. apply Z.mod_small. Qed.

Lemma wrap32_uwrap32 z : wrap32 (uwrap32 z) = wrap32 z.
Proof. unfold wrap32, uwrap32. rewrite Z.add_mod_idemp_l by lia. done. Qed.

Lemma uwrap32_wrap32 z : uwrap32 (wrap32 z) = uwrap32 z.
Proof.
  unfold wrap32, uwrap32. rewrite Zminus_mod_idemp_l. f_equal. lia.
Qed.

Lemma wrap16_small z : - 2 ^ 15 <= z < 2 ^ 15 -> wrap16 z = z.
Proof. unfold wrap16. intros. rewrite Z.mod_small; lia. Qed.

Lemma chk_int_ok z : INT_MIN <= z <= INT_MAX -> chk_int z = Ok z.
Proof.
  unfold chk_int, in_int. intros [H1 H2].
  apply Z.leb_le in H1, H2. rewrite H1, H2. done.
Qed.

Lemma chk_int_inv z r : chk_int z = Ok r -> r = z /\ INT_MIN <= z <= INT_MAX.
Proof.
  unfold chk_int, in_int. destruct ((INT_MIN <=? z) && _) eqn:E; intros H; [|done].
  apply andb_true_iff in E as [E1%Z.leb_le E2%Z.leb_le]. by simplify_eq.
Qed.

Lemma gtb_eq a b c d : (b < a <-> d < c) -> (a >? b) = (c >? d).
Proof. intros H. rewrite !Z.gtb_ltb. apply Bool.eq_iff_eq_true. by rewrite !Z.ltb_lt. Qed.

(** * Bytes *)

#[export] Instance byte_eq_dec' : EqDecision Init.Byte.byte := Byte.byte_eq_dec.
#[export] Instance byte_inhabited : Inhabited Init.Byte.byte := populate Byte.x00.

#[export] Instance byte_countable : Countable Init.Byte.byte :=
  inj_countable' byte.unsigned byte.of_Z byte.of_Z_unsigned.

Abbreviation u8 := byte.of_Z.
Definition zbytes (zs : list Z) : list byte := byte.of_Z <$> zs.

(** The object representation of a 32-bit integer on the little-endian
    targets, as [memcpy(p, &i, 4)] copies it. *)
Definition int_bytes (z : Z) : list byte := le_split 4 z.
(** [*(int * )p] and the same bits read as [unsigned int]. *)
Definition int_of_bytes (bs : list byte) : Z := wrap32 (le_combine bs).
Definition uint_of_bytes (bs : list byte) : Z := le_combine bs.

#[global] Arguments int_bytes : simpl never.
#[global] Arguments wrap32 : simpl never.
#[global] Arguments uwrap32 : simpl never.

Lemma length_int_bytes z : length (int_bytes z) = 4%nat.
Proof. apply length_le_split. Qed.

Lemma uint_of_int_bytes z : uint_of_bytes (int_bytes z) = uwrap32 z.
Proof. unfold uint_of_bytes, int_bytes. rewrite le_combine_split. done. Qed.

Lemma int_of_int_bytes z : INT_MIN <= z <= INT_MAX -> int_of_bytes (int_bytes z) = z.
Proof.
  intros Hz. unfold int_of_bytes, int_bytes. rewrite le_combine_split.
  change (2 ^ (Z.of_nat 4 * 8)) with (2 ^ 32).
  fold (uwrap32 z). rewrite wrap32_uwrap32. by apply wrap32_small.
Qed.

(** * Memory blocks *)

(** A cell of a heap block: [None] is an indeterminate byte. *)
Abbreviation cell := (option byte).

Definition blen {A} (m : list A) : Z := Z.of_nat (length m).

(** [malloc(n)]: [ok] tells whether the allocator has the memory; a negative
    [int] converts to a [size_t] no allocator can serve. *)
Definition malloc (ok : bool) (n : Z) : option (list cell) :=
  if ok && (0 <=? n) then Some (replicate (Z.to_nat n) None) else None.

(** The block [realloc] returns: the common prefix is kept. *)
Definition realloc_block (m : list cell) (n : Z) : list cell :=
  resize (Z.to_nat n) None m.

(** [len] cells read from offset [off]. *)
Definition read_cells {A} (m : list A) (off len : Z) : cres (list A) :=
  if (0 <=? off) && (0 <=? len) && (off + len <=? blen m)
  then Ok (take (Z.to_nat len) (drop (Z.to_nat off) m))
  else UB OutOfBounds.

(** Reading the cells as values needs all of them initialised. *)
Definition load (m : list cell) (off len : Z) : cres (list byte) :=
  cs ← read_cells m off len; of_option Uninitialised (mapM id cs).

(** Overwrites the cells from [off] on. *)
Definition write_cells {A} (m : list A) (off : Z) (cs : list A) : cres (list A) :=
  if (0 <=? off) && (off + blen cs <=? blen m)
  then Ok (take (Z.to_nat off) m ++ cs ++ drop (Z.to_nat off + length cs) m)
  else UB OutOfBounds.

#[global] Arguments blen : simpl never.

Lemma blen_nonneg {A} (m : list A) : 0 <= blen m.
Proof. unfold blen. lia. Qed.

Lemma blen_app {A} (a b : list A) : blen (a ++ b) = blen a + blen b.
Proof. unfold blen. rewrite length_app. lia. Qed.

Lemma blen_cons {A} (x : A) l : blen (x :: l) = 1 + blen l.
Proof. unfold blen. simpl length. lia. Qed.

Lemma blen_nil {A} : blen (@nil A) = 0.
Proof. done. Qed.

Lemma blen_nil_inv {A} (l : list A) : blen l = 0 -> l = [].
Proof. destruct l; [done|]. rewrite blen_cons. pose proof (blen_nonneg l). lia. Qed.

Lemma blen_take {A} n (l : list A) : 0 <= n <= blen l -> blen (take (Z.to_nat n) l) = n.
Proof. unfold blen. intros. rewrite length_take. lia. Qed.

Lemma blen_drop {A} n (l : list A) : 0 <= n <= blen l -> blen (drop (Z.to_nat n) l) = blen l - n.
Proof. unfold blen. intros. rewrite length_drop. lia. Qed.

Lemma blen_fmap {A B} (f : A -> B) (l : list A) : blen (f <$> l) = blen l.
Proof. unfold blen. by rewrite length_fmap. Qed.

Lemma blen_le_split n z : blen (le_split n z) = Z.of_nat n.
Proof. unfold blen. by rewrite length_le_split. Qed.

Lemma take_blen_app {A} (l k : list A) : take (Z.to_nat (blen l)) (l ++ k) = l.
Proof. unfold blen. by rewrite Nat2Z.id, take_app_length. Qed.

Lemma drop_blen_app {A} (l k : list A) : drop (Z.to_nat (blen l)) (l ++ k) = k.
Proof. unfold blen. by rewrite Nat2Z.id, drop_app_length. Qed.

Lemma read_cells_ok {A} (m : list A) off len :
  0 <= off -> 0 <= len -> off + len <= blen m ->
  read_cells m off len = Ok (take (Z.to_nat len) (drop (Z.to_nat off) m)).
Proof.
  intros H1 H2 H3. unfold read_cells.
  apply Z.leb_le in H1, H2, H3. rewrite H1, H2, H3. done.
Qed.

Lemma write_cells_ok {A} (m : list A) off cs :
  0 <= off -> off + blen cs <= blen m ->
  write_cells m off cs =
    Ok (take (Z.to_nat off) m ++ cs ++ drop (Z.to_nat off + length cs) m).
Proof.
  intros H1 H2. unfold write_cells. apply Z.leb_le in H1, H2. rewrite H1, H2. done.
Qed.

Lemma write_cells_oob {A} (m : list A) off cs :
  blen m < off + blen cs -> write_cells m off cs = UB OutOfBounds.
Proof.
  intros H. unfold write_cells.
  assert ((off + blen cs <=? blen m) = false) as -> by (apply Z.leb_gt; lia).
  by rewrite andb_false_r.
Qed.

Lemma write_cells_length {A} (m m' : list A) off cs :
  write_cells m off cs = Ok m' -> length m' = length m.
Proof.
  unfold write_cells, blen. intros H. case_match eqn:E; [|done].
  apply andb_true_iff in E as [E1%Z.leb_le E2%Z.leb_le]. simplify_eq.
  rewrite !length_app, length_take, length_drop. lia.
Qed.

(** Reading and overwriting one of several parts laid out one after the other. *)
Lemma read_cells_mid {A} (a b c : list A) :
  read_cells (a ++ b ++ c) (blen a) (blen b) = Ok b.
Proof.
  pose proof (blen_nonneg a). pose proof (blen_nonneg b). pose proof (blen_nonneg c).
  rewrite read_cells_ok by (rewrite ?blen_app; lia). unfold blen.
  rewrite !Nat2Z.id, drop_app_length, take_app_length. done.
Qed.

Lemma write_cells_mid {A} (a b b' c : list A) :
  length b' = length b -> write_cells (a ++ b ++ c) (blen a) b' = Ok (a ++ b' ++ c).
Proof.
  intros Hl. pose proof (blen_nonneg a). pose proof (blen_nonneg c).
  rewrite write_cells_ok by (rewrite ?blen_app; unfold blen in *; lia).
  unfold blen. rewrite Nat2Z.id, take_app_length, <- drop_drop, drop_app_length, Hl, drop_app_length.
  done.
Qed.

Lemma write_cells_front {A} (b b' c : list A) :
  length b' = length b -> write_cells (b ++ c) 0 b' = Ok (b' ++ c).
Proof. apply (write_cells_mid []). Qed.

Lemma load_mid (a : list cell) (b : list byte) c :
  load (a ++ (Some <$> b) ++ c) (blen a) (blen b) = Ok b.
Proof.
  unfold load. rewrite <- (blen_fmap Some b), read_cells_mid, bind_Ok.
  assert (mapM id (Some <$> b) = Some b) as -> by (apply mapM_Some; induction b; simpl; auto). done.
Qed.

Lemma mapM_id_Some (q : list byte) : mapM id (Some <$> q) = Some q.
Proof. apply mapM_Some. induction q; simpl; auto. Qed.

(** * List facts the components share *)

Lemma take_drop_split {A} (i j : nat) (l : list A) :
  take (i + j) l = take i l ++ take j (drop i l).
Proof.
  revert l; induction i as [|i IH]; intros [|x l]; simpl; auto.
  - by rewrite take_nil.
  - by rewrite IH.
Qed.

Lemma take_firstn_app_drop {A} (i : nat) (l k : list A) :
  length l = i -> take i (l ++ k) = l /\ drop i (l ++ k) = k.
Proof. intros <-. by rewrite take_app_length, drop_app_length. Qed.

(** * Sums over a memory of objects *)

Definition msum {V} (f : V -> Z) (m : gmap Z V) : Z := map_fold (fun _ v n => f v + n) 0 m.

Section Sums.
Context {V : Type} (f : V -> Z).
Implicit Types m : gmap Z V.

Lemma msum_empty : msum f ∅ = 0.
Proof. apply map_fold_empty. Qed.

Lemma msum_new m x v : m !! x = None -> msum f (<[x := v]> m) = f v + msum f m.
Proof. intros Hx. unfold msum. rewrite map_fold_insert_L; [done| |done]. intros. lia. Qed.

Lemma msum_delete m x v : m !! x = Some v -> msum f (delete x m) = msum f m - f v.
Proof. intros Hx. rewrite <- (insert_delete_id m x v Hx) at 2. rewrite msum_new by apply lookup_delete_eq. lia. Qed.

Lemma msum_insert m x v v' : m !! x = Some v -> msum f (<[x := v']> m) = msum f m - f v + f v'.
Proof.
  intros Hx. rewrite <- (insert_delete_eq m x v'), msum_new by apply lookup_delete_eq. rewrite (msum_delete m x v Hx). lia.
Qed.

Lemma msum_nonneg m : (forall v, 0 <= f v) -> 0 <= msum f m.
Proof.
  intros Hf. induction m as [|x v m Hx IH] using map_ind; [by rewrite msum_empty|].
  rewrite msum_new by done. specialize (Hf v). lia.
Qed.

Lemma msum_ge m x v : (forall v, 0 <= f v) -> m !! x = Some v -> f v <= msum f m.
Proof. intros Hf Hx. pose proof (msum_nonneg (delete x m) Hf). rewrite (msum_delete m x v Hx) in *. lia. Qed.

Lemma msum_pos m : (forall v, 0 <= f v) -> 0 < msum f m -> exists x v, m !! x = Some v /\ 0 < f v.
Proof.
  intros Hf. induction m as [|x v m Hx IH] using map_ind.
  - rewrite msum_empty. lia.
  - rewrite msum_new by done. intros Hs. destruct (decide (0 < f v)).
    + exists x, v. by rewrite lookup_insert_eq.
    + specialize (Hf v). destruct IH as (y & v' & Hy & Hp); [lia|]. exists y, v'.
      rewrite lookup_insert_ne; [done|]. by intros ->; simplify_eq.
Qed.

Lemma msum_zero m : (forall v, 0 <= f v) -> (forall x v, m !! x = Some v -> f v = 0) -> msum f m = 0.
Proof.
  intros Hf H0. pose proof (msum_nonneg m Hf). destruct (decide (0 < msum f m)) as [Hp|]; [|lia].
  apply msum_pos in Hp as (x & v & Hx & Hv); [|done]. specialize (H0 x v Hx). lia.
Qed.

Lemma msum_ext m1 : forall m2, (forall x, f <$> m1 !! x = f <$> m2 !! x) -> msum f m1 = msum f m2.
Proof.
  induction m1 as [|x v m Hx IH] using map_ind; intros m2 Hm.
  - assert (m2 = ∅) as ->; [|done]. apply map_empty. intros y. specialize (Hm y). rewrite lookup_empty in Hm. by destruct (m2 !! y).
  - pose proof (Hm x) as Hv. rewrite lookup_insert_eq in Hv. destruct (m2 !! x) as [v2|] eqn:Hx2; [|done]. injection Hv as Hv.
    rewrite <- (insert_delete_id m2 x v2 Hx2), !msum_new by (done || apply lookup_delete_eq). rewrite Hv. f_equal. apply IH. intros y. specialize (Hm y).
    destruct (decide (y = x)) as [->|Hne]; [by rewrite lookup_delete_eq, Hx|]. by rewrite lookup_insert_ne, lookup_delete_ne in * by done.
Qed.
End Sums.

Lemma alter_insert {V} (f : V -> V) x (m : gmap Z V) v : m !! x = Some v -> alter f x m = <[x := f v]> m.
Proof.
  intros H. apply map_eq. intros y. destruct (decide (y = x)) as [->|Hne].
  - by rewrite lookup_alter_eq, lookup_insert_eq, H.
  - by rewrite lookup_alter_ne, lookup_insert_ne.
Qed.

(** * Automation *)

Create HintDb cmodel discriminated.
#[export] Hint Resolve blen_nonneg wrap32_range uwrap32_range : cmodel.
#[export] Hint Rewrite @blen_app @blen_cons @blen_nil blen_le_split @blen_fmap : blen.

(** Turns the boolean tests of the hypotheses into propositions. *)
Ltac bool_props :=
  repeat match goal with
  | H : (_ && _) = true |- _ => apply andb_true_iff in H as [? ?]
  | H : (_ || _) = false |- _ => apply orb_false_iff in H as [? ?]
  | H : negb _ = true |- _ => apply negb_true_iff in H
  | H : negb _ = false |- _ => apply negb_false_iff in H
  | H : (_ <=? _) = true |- _ => apply Z.leb_le in H
  | H : (_ <=? _) = false |- _ => apply Z.leb_gt in H
  | H : (_ <? _) = true |- _ => apply Z.ltb_lt in H
  | H : (_ <? _) = false |- _ => apply Z.ltb_ge in H
  | H : (_ >? _) = true |- _ => rewrite Z.gtb_ltb in H; apply Z.ltb_lt in H
  | H : (_ >? _) = false |- _ => rewrite Z.gtb_ltb in H; apply Z.ltb_ge in H
  | H : (_ =? _) = true |- _ => apply Z.eqb_eq in H
  | H : (_ =? _) = false |- _ => apply Z.eqb_neq in H
  end.

(** One step of inversion of a successful run of the result monad. *)
Ltac inv_ok :=
  match goal with
  | H : (_ ≫= _) = Ok _ |- _ =>
      let a := fresh "r" in let E := fresh "E" in
      apply bind_Ok_inv in H as [a [E H]]
  | H : Ok _ = Ok _ |- _ => injection H as H
  | H : UB _ = Ok _ |- _ => discriminate H
  end.

(** Evaluates the comparisons of the goal that linear arithmetic decides. *)
Ltac zdecide :=
  rewrite ?Z.gtb_ltb, ?Z.geb_leb;
  repeat match goal with
  | |- context [?a <=? ?b] =>
      first [rewrite (proj2 (Z.leb_le a b)) by lia | rewrite (proj2 (Z.leb_gt a b)) by lia]
  | |- context [?a <? ?b] =>
      first [rewrite (proj2 (Z.ltb_lt a b)) by lia | rewrite (proj2 (Z.ltb_ge a b)) by lia]
  | |- context [?a =? ?b] =>
      first [rewrite (proj2 (Z.eqb_eq a b)) by lia | rewrite (proj2 (Z.eqb_neq a b)) by lia]
  end; cbn [andb orb negb]; cbv iota.
