(* ===== verification/MyBuf.v ===== *)
(** The receive buffer [MyBuf] (encrypt/mybuf.cpp and include/mybuf.h; the
    files of packet/ are the same text): its state, its operations on one heap
    block, and its refinement of a queue of bytes. *)
From S2P Require Import Prelude.

(** * State *)

(** The three pointers are kept as the block [_Buf] points to ([None] is the
    null pointer) and the offsets of [_Head] and [_Tail] from it. *)
Record MyBuf := mkMyBuf {
  _BufSize : Z;
  _Buf : option (list cell);
  _Head : Z;
  _Tail : Z
}.

Definition GetBufLen (b : MyBuf) : Z := _Tail b - _Head b.
Definition GetRemainLen (b : MyBuf) : Z := _BufSize b - GetBufLen b.
Definition GetTailLen (b : MyBuf) : Z := _BufSize b - _Tail b.

(** * Operations *)

(** The constructor [MyBuf::MyBuf(int BufSize)]. *)
Definition MyBuf_new (ok : bool) (BufSize : Z) : MyBuf :=
  mkMyBuf BufSize (malloc ok BufSize) 0 0.

(** [memmove(_Buf, _Head, BufLen)] and the two pointer updates after it. *)
Definition compact (b : MyBuf) : cres MyBuf :=
  let BufLen := GetBufLen b in
  m ← of_option NullDeref (_Buf b);
  cs ← read_cells m (_Head b) BufLen;
  m' ← write_cells m 0 cs;
  Ok (mkMyBuf (_BufSize b) (Some m') 0 BufLen).

(** [while (_BufSize < NeedLen) _BufSize = _BufSize * 2;] *)
Fixpoint double_size (fuel : nat) (size need : Z) : cres Z :=
  if size <? need then
    match fuel with
    | O => UB Diverges
    | S fuel => size' ← chk_int (size * 2); double_size fuel size' need
    end
  else Ok size.

(** A positive [int] can be doubled at most 31 times. *)
Definition double_fuel : nat := 32.

(** The branch that grows the block: [realloc(_Head, NeedLen)], with [ok]
    the allocator's answer. Returns the buffer and [RealLen]. *)
Definition grow (ok : bool) (b : MyBuf) (InputLen : Z) : cres (MyBuf * Z) :=
  let BufLen := GetBufLen b in
  NeedLen ← chk_int (BufLen + InputLen);
  size ← double_size double_fuel (_BufSize b) NeedLen;
  _ ← require (_Head b =? 0) BadFree;
  let old := default [] (_Buf b) in
  if ok
  then Ok (mkMyBuf size (Some (realloc_block old NeedLen)) 0 BufLen, InputLen)
  else Ok (mkMyBuf size None 0 BufLen, 0).

(** [void MyBuf::InsertData(char* Input, int InputLen, int& RealLen)]. *)
Definition InsertData (ok : bool) (b : MyBuf) (Input : list byte) (InputLen : Z)
  : cres (MyBuf * Z) :=
  b1 ← (if InputLen >? GetTailLen b
        then (if negb (_Head b =? 0) then compact b else Ok b)
        else Ok b);
  '(b2, RealLen) ← (if InputLen >? GetRemainLen b1
                    then grow ok b1 InputLen
                    else Ok (b1, InputLen));
  if negb (RealLen =? 0) then
    src ← read_cells Input 0 RealLen;
    m ← of_option NullDeref (_Buf b2);
    m' ← write_cells m (_Tail b2) (Some <$> src);
    Ok (mkMyBuf (_BufSize b2) (Some m') (_Head b2) (_Tail b2 + RealLen), RealLen)
  else Ok (b2, RealLen).

(** [char* MyBuf::GetBufData(int DataLen, int& RealLen)]: the returned pointer
    is the offset of the old [_Head]. *)
Definition GetBufData (b : MyBuf) (DataLen : Z) : MyBuf * Z * Z :=
  let RealLen := if DataLen >? GetBufLen b then GetBufLen b else DataLen in
  (mkMyBuf (_BufSize b) (_Buf b) (_Head b + RealLen) (_Tail b), _Head b, RealLen).

(** [char* MyBuf::GetBufHead(int& BufLen)]. *)
Definition GetBufHead (b : MyBuf) : Z * Z := (_Head b, GetBufLen b).

(** The bytes behind a pointer into the block. *)
Definition deref (b : MyBuf) (ptr len : Z) : cres (list byte) :=
  m ← of_option NullDeref (_Buf b); load m ptr len.

#[global] Arguments InsertData : simpl never.
#[global] Arguments GetBufData : simpl never.
#[global] Arguments deref : simpl never.

(** * Abstraction: a queue of bytes *)

(** [rep b q]: [b] is a live buffer that holds the bytes [q]. *)
Definition rep (b : MyBuf) (q : list byte) : Prop :=
  exists m, _Buf b = Some m /\
    0 <= _Head b <= _Tail b /\ _Tail b <= blen m <= _BufSize b /\
    0 < _BufSize b <= INT_MAX /\
    take (Z.to_nat (_Tail b - _Head b)) (drop (Z.to_nat (_Head b)) m) = Some <$> q.

(** The bytes really allocated. *)
Definition capacity (b : MyBuf) : Z := blen (default [] (_Buf b)).

(** The block is as large as [_BufSize] says. *)
Definition exact_size (b : MyBuf) : Prop := capacity b = _BufSize b.

(** Where [InsertData] is going to copy [n] bytes to, when it does not grow. *)
Definition insert_at (b : MyBuf) (n : Z) : Z :=
  if n >? GetTailLen b then GetBufLen b else _Tail b.

(** The copy stays inside the block: it either grows first or has room. *)
Definition insert_fits (b : MyBuf) (n : Z) : bool :=
  (n >? GetRemainLen b) || (insert_at b n + n <=? capacity b) || (n =? 0).

Lemma rep_len b q : rep b q -> GetBufLen b = blen q.
Proof.
  intros (m & HB & H1 & H2 & H3 & Hq). apply (f_equal length) in Hq.
  rewrite length_take, length_drop, length_fmap in Hq.
  unfold GetBufLen, blen in *. lia.
Qed.

Lemma rep_new n : 0 < n <= INT_MAX -> rep (MyBuf_new true n) [] /\ exact_size (MyBuf_new true n).
Proof.
  intros Hn. unfold MyBuf_new, malloc, exact_size, capacity, rep. simpl.
  assert ((0 <=? n) = true) as -> by (apply Z.leb_le; lia). simpl.
  assert (blen (replicate (Z.to_nat n) (@None byte)) = n) as Hlen
    by (unfold blen; rewrite length_replicate; lia).
  split; [|done]. eexists; split; [done|].
  repeat split; try lia.
Qed.

Lemma rep_deref b q n :
  rep b q -> 0 <= n <= blen q ->
  deref b (_Head b) n = Ok (take (Z.to_nat n) q).
Proof.
  intros Hr Hn. pose proof (rep_len _ _ Hr) as HL.
  destruct Hr as (m & HB & H1 & H2 & H3 & Hq). unfold GetBufLen in HL.
  unfold deref, load. rewrite HB. simpl. rewrite read_cells_ok by lia. simpl.
  assert (take (Z.to_nat n) (drop (Z.to_nat (_Head b)) m) = Some <$> take (Z.to_nat n) q) as ->.
  { rewrite fmap_take, <- Hq, take_take. f_equal. lia. }
  by rewrite mapM_id_Some.
Qed.

(** [GetBufData] takes a prefix off the queue and leaves it readable behind
    the returned pointer. *)
Lemma GetBufData_rep b q n :
  rep b q -> 0 <= n ->
  let '(b', ptr, RealLen) := GetBufData b n in
  RealLen = Z.min n (blen q) /\
  deref b' ptr RealLen = Ok (take (Z.to_nat n) q) /\
  rep b' (drop (Z.to_nat n) q) /\ capacity b' = capacity b /\ _BufSize b' = _BufSize b.
Proof.
  intros Hr Hn. pose proof (rep_len _ _ Hr) as HL.
  assert (Hmin : (if n >? GetBufLen b then GetBufLen b else n) = Z.min n (blen q))
    by (rewrite HL; case_match; bool_props; lia).
  unfold GetBufData. cbv zeta. rewrite Hmin. pose proof (blen_nonneg q).
  split; [done|]. split; [|split; [|done]].
  - change (deref b (_Head b) (Z.min n (blen q)) = Ok (take (Z.to_nat n) q)).
    rewrite (rep_deref b q) by (done || lia).
    f_equal. unfold blen. destruct (Z.le_gt_cases n (Z.of_nat (length q))).
    + f_equal. lia.
    + rewrite !take_ge; [done|lia|lia].
  - destruct Hr as (m & HB & H1 & H2 & H3 & Hq). unfold GetBufLen in HL.
    exists m; simpl. repeat split; try done; try lia.
    rewrite fmap_drop, <- Hq.
    rewrite skipn_firstn_comm, drop_drop.
    destruct (Z.le_gt_cases n (blen q)).
    + f_equal; [lia|]. f_equal. lia.
    + replace (_ - _)%nat with 0%nat by lia. rewrite take_0.
      replace (Z.to_nat (_ - _)) with 0%nat by lia. by rewrite take_0.
Qed.

(** * The doubling loop *)

Lemma double_size_ok fuel size need :
  0 < size <= INT_MAX -> need <= 2 ^ 30 -> need <= size * 2 ^ Z.of_nat fuel ->
  exists size', double_size fuel size need = Ok size' /\
    size <= size' <= INT_MAX /\ need <= size'.
Proof.
  revert size. induction fuel as [|fuel IH]; intros size Hs Hn Hf; simpl.
  - change (2 ^ Z.of_nat 0) with 1 in Hf.
    destruct (Z.ltb_spec size need); [lia|]. eauto with lia.
  - rewrite Nat2Z.inj_succ, Z.pow_succ_r in Hf by lia.
    destruct (Z.ltb_spec size need); [|eauto with lia].
    unfold INT_MAX in *. rewrite chk_int_ok by (unfold INT_MIN, INT_MAX; lia). simpl.
    destruct (IH (size * 2)) as (s & Hd & ? & ?); [lia|lia|lia|].
    exists s. split; [done|lia].
Qed.

Lemma double_size_terminates fuel size need :
  0 < size -> need <= size * 2 ^ Z.of_nat fuel ->
  double_size fuel size need ≠ UB Diverges.
Proof.
  revert size. induction fuel as [|fuel IH]; intros size Hs Hf; simpl.
  - change (2 ^ Z.of_nat 0) with 1 in Hf.
    destruct (Z.ltb_spec size need); [lia|done].
  - rewrite Nat2Z.inj_succ, Z.pow_succ_r in Hf by lia.
    destruct (Z.ltb_spec size need); [|done].
    unfold chk_int. destruct (in_int _); [|done]. apply IH; lia.
Qed.

#[global] Arguments double_size : simpl never.

(** * The phases of [InsertData] *)

Lemma compact_rep b q :
  rep b q ->
  exists b', compact b = Ok b' /\ rep b' q /\ _Head b' = 0 /\ _Tail b' = blen q /\
    capacity b' = capacity b /\ _BufSize b' = _BufSize b.
Proof.
  intros Hr. pose proof (rep_len _ _ Hr) as HL.
  destruct Hr as (m & HB & H1 & H2 & H3 & Hq).
  unfold compact. rewrite HB. simpl. unfold GetBufLen in *.
  rewrite read_cells_ok by lia. simpl. rewrite Hq.
  rewrite write_cells_ok by (rewrite ?blen_fmap; lia). simpl.
  set (m' := (Some <$> q) ++ drop _ m).
  assert (blen m' = blen m) as Hm'.
  { unfold m', blen in *. rewrite length_app, length_drop, length_fmap. lia. }
  eexists; split; [done|]. rewrite HL.
  split; [|repeat split; try done; unfold capacity; simpl; by rewrite HB].
  exists m'; simpl. rewrite Hm'. repeat split; try done; try lia.
  rewrite drop_0. unfold m'. apply take_app_length'.
  rewrite length_fmap. unfold blen. lia.
Qed.

Lemma grow_rep b q n :
  rep b q -> _Head b = 0 -> GetRemainLen b < n -> blen q + n <= 2 ^ 30 ->
  exists b', grow true b n = Ok (b', n) /\ rep b' q /\ _Head b' = 0 /\
    _Tail b' = _Tail b /\ capacity b' = blen q + n.
Proof.
  intros Hr H0 Hn Hneed. pose proof (rep_len _ _ Hr) as HL.
  destruct Hr as (m & HB & H1 & H2 & H3 & Hq).
  unfold grow, GetRemainLen in *. rewrite HB, HL in *. pose proof (blen_nonneg q).
  rewrite chk_int_ok by (unfold INT_MIN, INT_MAX; lia). simpl.
  destruct (double_size_ok double_fuel (_BufSize b) (blen q + n)) as (s & -> & ? & ?);
    [lia|lia|change (2 ^ Z.of_nat double_fuel) with (2 ^ 32); lia|].
  simpl. rewrite H0. simpl. eexists; split; [done|].
  assert (Hlen : blen (realloc_block m (blen q + n)) = blen q + n).
  { unfold realloc_block, blen at 1. rewrite length_resize. lia. }
  unfold GetBufLen in HL. unfold capacity. simpl. rewrite Hlen.
  split; [|repeat split; lia].
  exists (realloc_block m (blen q + n)); simpl. rewrite Hlen.
  repeat split; try done; try lia.
  rewrite drop_0. rewrite H0, Z.sub_0_r, drop_0 in Hq. rewrite <- Hq.
  replace (_ - 0) with (_Tail b) by lia.
  unfold realloc_block. rewrite take_resize_le by lia.
  rewrite resize_le; [done|]. unfold blen in *. lia.
Qed.

(** Copying behind [_Tail] into a block with room. *)
Lemma copy_rep b q m Input :
  rep b q -> _Buf b = Some m -> _Tail b + blen Input <= blen m ->
  exists m', write_cells m (_Tail b) (Some <$> Input) = Ok m' /\
    rep (mkMyBuf (_BufSize b) (Some m') (_Head b) (_Tail b + blen Input)) (q ++ Input) /\
    blen m' = blen m.
Proof.
  intros Hr HB Hfit. pose proof (rep_len _ _ Hr) as HL.
  destruct Hr as (m0 & HB0 & H1 & H2 & H3 & Hq). simplify_eq.
  rewrite write_cells_ok by (rewrite ?blen_fmap; lia).
  eexists; split; [done|]. pose proof (blen_nonneg Input).
  set (m' := take _ m0 ++ _).
  assert (blen m' = blen m0) as Hm'.
  { unfold m', blen in *. rewrite !length_app, length_take, length_drop, length_fmap. lia. }
  split; [|done]. exists m'; simpl. rewrite Hm'. repeat split; try done; try lia.
  unfold GetBufLen in HL. unfold m'.
  rewrite drop_app_le by (rewrite length_take; unfold blen in *; lia).
  rewrite fmap_app, <- Hq, skipn_firstn_comm.
  replace (Z.to_nat (_Tail b) - Z.to_nat (_Head b))%nat with (Z.to_nat (_Tail b - _Head b)) by lia.
  set (pre := take _ (drop _ m0)).
  assert (length pre = Z.to_nat (_Tail b - _Head b)) as Hpre.
  { unfold pre. rewrite length_take, length_drop. unfold blen in *. lia. }
  rewrite app_assoc. apply take_app_length'.
  rewrite length_app, length_fmap, Hpre. unfold blen. lia.
Qed.

(** The state before the copy: the queue is untouched and [_Tail] is the copy's
    destination. *)
Lemma make_room_rep b q n :
  rep b q ->
  exists b1, (if n >? GetTailLen b
              then (if negb (_Head b =? 0) then compact b else Ok b)
              else Ok b) = Ok b1 /\
    rep b1 q /\ _Tail b1 = insert_at b n /\
    (GetTailLen b < n -> _Head b1 = 0) /\
    capacity b1 = capacity b /\ _BufSize b1 = _BufSize b.
Proof.
  intros Hr. unfold insert_at. pose proof (rep_len _ _ Hr) as HL.
  destruct (n >? GetTailLen b) eqn:E1; bool_props.
  - destruct (_Head b =? 0) eqn:E2; bool_props; simpl.
    + exists b. unfold GetBufLen. repeat split; try done; lia.
    + destruct (compact_rep b q Hr) as (b' & ? & ? & ? & ? & ? & ?).
      exists b'. repeat split; try done. congruence.
  - exists b. repeat split; try done; lia.
Qed.

Lemma insert_at_remain b q n :
  rep b q -> GetRemainLen b < n -> GetTailLen b < n.
Proof.
  intros (m & _ & H1 & _). unfold GetRemainLen, GetTailLen, GetBufLen in *. lia.
Qed.

(** * [InsertData] refines appending to the queue *)

Lemma grow_fits b q n :
  rep b q -> GetRemainLen b < n -> insert_fits b n = true.
Proof. intros _ H. unfold insert_fits. rewrite Z.gtb_ltb, (proj2 (Z.ltb_lt _ _) H). done. Qed.

(** Inside the block the bytes are appended; [capacity] is kept when the buffer
    does not grow and becomes exactly the bytes held when it does. *)
Lemma InsertData_fits b q Input :
  rep b q -> blen q + blen Input <= 2 ^ 30 ->
  insert_fits b (blen Input) = true ->
  exists b', InsertData true b Input (blen Input) = Ok (b', blen Input) /\
    rep b' (q ++ Input) /\
    (blen Input <= GetRemainLen b -> capacity b' = capacity b /\ _BufSize b' = _BufSize b) /\
    (GetRemainLen b < blen Input -> capacity b' = blen (q ++ Input)).
Proof.
  intros Hr Hsz Hfit. unfold InsertData.
  destruct (make_room_rep b q (blen Input) Hr) as (b1 & -> & Hr1 & HT1 & HH1 & Hc1 & Hs1).
  rewrite bind_Ok. pose proof (rep_len _ _ Hr) as HL. pose proof (rep_len _ _ Hr1) as HL1.
  assert (GetRemainLen b1 = GetRemainLen b) as HR by (unfold GetRemainLen; congruence).
  assert (exists b2, (if blen Input >? GetRemainLen b1 then grow true b1 (blen Input)
                      else Ok (b1, blen Input)) = Ok (b2, blen Input) /\
     rep b2 q /\ (blen Input = 0 \/ _Tail b2 + blen Input <= capacity b2) /\
     (blen Input <= GetRemainLen b -> capacity b2 = capacity b /\ _BufSize b2 = _BufSize b) /\
     (GetRemainLen b < blen Input -> capacity b2 = blen q + blen Input)) as (b2 & -> & Hr2 & Hroom & Hk & Hg).
  { rewrite HR. destruct (blen Input >? GetRemainLen b) eqn:E; bool_props.
    - pose proof (insert_at_remain _ _ _ Hr E). destruct (grow_rep b1 q (blen Input))
        as (b2 & ? & ? & ? & HT2 & Hc2); [done|auto|lia|lia|].
      exists b2. repeat split; try done; try lia. right. rewrite HT2, Hc2.
      specialize (HH1 H). unfold GetBufLen in HL1. lia.
    - exists b1. repeat split; try done; try lia.
      unfold insert_fits in Hfit. apply orb_true_iff in Hfit as [Hfit|Hfit]; bool_props; [|by left].
      apply orb_true_iff in Hfit as [Hfit|Hfit]; bool_props; [lia|]. right. rewrite HT1, Hc1. done. }
  rewrite bind_Ok. cbv iota beta. destruct (blen Input =? 0) eqn:E0; bool_props; simpl.
  - exists b2. assert (Input = []) as -> by (destruct Input; [done|]; unfold blen in E0; simpl in E0; lia).
    rewrite app_nil_r. repeat split; try done; try apply Hk; try done.
    intros Hlt. rewrite (Hg Hlt). change (blen []) with 0. lia.
  - destruct Hroom as [?|Hroom]; [lia|].
    rewrite read_cells_ok by (pose proof (blen_nonneg Input); lia). simpl.
    rewrite drop_0, take_ge by (unfold blen; lia).
    destruct Hr2 as (m & HB2 & Hrest) eqn:Er. clear Er.
    assert (capacity b2 = blen m) as Hcm by (unfold capacity; by rewrite HB2).
    destruct (copy_rep b2 q m Input) as (m' & Hw & Hrep & Hlen); [by exists m|done|lia|].
    rewrite HB2. simpl. rewrite Hw. simpl. eexists; split; [done|]. split; [done|].
    assert (capacity (mkMyBuf (_BufSize b2) (Some m') (_Head b2) (_Tail b2 + blen Input)) = blen m) as ->
      by (unfold capacity; simpl; lia).
    rewrite <- Hcm. split; [exact Hk|]. intros Hlt. rewrite (Hg Hlt), blen_app. done.
Qed.

(** Otherwise the copy runs past the end of the block. *)
Lemma InsertData_overruns b q Input :
  rep b q -> insert_fits b (blen Input) = false ->
  InsertData true b Input (blen Input) = UB OutOfBounds.
Proof.
  intros Hr Hfit. unfold insert_fits in Hfit. bool_props.
  unfold InsertData.
  destruct (make_room_rep b q (blen Input) Hr) as (b1 & -> & Hr1 & HT1 & HH1 & Hc1 & Hs1).
  rewrite bind_Ok. pose proof (rep_len _ _ Hr) as HL. pose proof (rep_len _ _ Hr1) as HL1.
  assert (GetRemainLen b1 = GetRemainLen b) as -> by (unfold GetRemainLen; congruence).
  assert ((blen Input >? GetRemainLen b) = false) as ->
    by (rewrite Z.gtb_ltb; apply Z.ltb_ge; lia).
  rewrite bind_Ok. cbv iota beta. rewrite (proj2 (Z.eqb_neq _ _)) by done. simpl.
  rewrite read_cells_ok by (pose proof (blen_nonneg Input); lia). simpl.
  rewrite drop_0, take_ge by (unfold blen; lia).
  destruct Hr1 as (m & HB1 & _). rewrite HB1. simpl.
  rewrite write_cells_oob; [done|]. rewrite blen_fmap, HT1.
  unfold capacity in *. rewrite HB1 in Hc1. simpl in Hc1. lia.
Qed.

Lemma exact_size_fits b q n : rep b q -> exact_size b -> insert_fits b n = true.
Proof.
  intros Hr Hex. pose proof (rep_len _ _ Hr) as HL. destruct Hr as (m & HB & H1 & _).
  unfold insert_fits, insert_at, exact_size, GetRemainLen, GetTailLen in *.
  destruct (n >? _BufSize b - GetBufLen b) eqn:E1; [done|].
  destruct (n =? 0) eqn:E0; [by rewrite orb_true_r|]. rewrite orb_false_r. simpl.
  apply Z.leb_le. bool_props. rewrite Hex. unfold GetBufLen in *.
  destruct (n >? _BufSize b - _Tail b) eqn:E2; bool_props; lia.
Qed.

(** A live buffer whose block is whole and not outgrown keeps these properties. *)
Lemma InsertData_within b q Input :
  rep b q -> exact_size b -> blen q + blen Input <= _BufSize b -> _BufSize b <= 2 ^ 30 ->
  exists b', InsertData true b Input (blen Input) = Ok (b', blen Input) /\
    rep b' (q ++ Input) /\ exact_size b' /\ _BufSize b' = _BufSize b.
Proof.
  intros Hr Hex Hlen Hsz.
  destruct (InsertData_fits b q Input) as (b' & ? & ? & Hk & _);
    [done|lia|by eapply exact_size_fits|].
  destruct Hk as [Hc Hs]; [unfold GetRemainLen; rewrite (rep_len _ _ Hr); lia|].
  exists b'. repeat split; try done. unfold exact_size in *. congruence.
Qed.

(** [InsertData] looks at the first [InputLen] bytes of its input only. *)
Lemma InsertData_prefix ok b Input n :
  0 <= n <= blen Input -> InsertData ok b Input n = InsertData ok b (take (Z.to_nat n) Input) n.
Proof.
  intros Hn. unfold InsertData.
  destruct (if n >? GetTailLen b then _ else _) as [b1|]; [|done]. rewrite !bind_Ok.
  destruct (if n >? GetRemainLen b1 then _ else _) as [[b2 r]|] eqn:E; [|done]. rewrite !bind_Ok.
  assert (r = n \/ r = 0) as Hr.
  { case_match; [|left; congruence]. unfold grow in E. repeat inv_ok.
    case_match; injection E; auto. }
  destruct (r =? 0) eqn:E0; bool_props; [done|]. destruct Hr as [->|?]; [|done]. cbn [negb].
  rewrite !read_cells_ok by (rewrite ?blen_take; lia). rewrite !drop_0, take_take, Nat.min_id. done.
Qed.

(** * Runs of operations against the queue *)

Inductive buf_op : Type :=
| OpInsert (bs : list byte)
| OpTake (n : Z).

Definition op_spec (q : list byte) (o : buf_op) : list byte * list byte :=
  match o with
  | OpInsert bs => (q ++ bs, [])
  | OpTake n => (drop (Z.to_nat n) q, take (Z.to_nat n) q)
  end.

Definition op_impl (b : MyBuf) (o : buf_op) : cres (MyBuf * list byte) :=
  match o with
  | OpInsert bs => '(b', _) ← InsertData true b bs (blen bs); Ok (b', [])
  | OpTake n =>
      let '(b', ptr, RealLen) := GetBufData b n in
      out ← deref b' ptr RealLen; Ok (b', out)
  end.

Fixpoint run_spec (q : list byte) (os : list buf_op) : list byte * list (list byte) :=
  match os with
  | [] => (q, [])
  | o :: os => let '(q', out) := op_spec q o in
               let '(q'', outs) := run_spec q' os in (q'', out :: outs)
  end.

Fixpoint run_impl (b : MyBuf) (os : list buf_op) : cres (MyBuf * list (list byte)) :=
  match os with
  | [] => Ok (b, [])
  | o :: os => '(b', out) ← op_impl b o;
               '(b'', outs) ← run_impl b' os; Ok (b'', out :: outs)
  end.

(** The operation asks for no negative length and keeps at most [S] bytes. *)
Definition op_within (S : Z) (q : list byte) (o : buf_op) : bool :=
  match o with OpInsert bs => blen q + blen bs <=? S | OpTake n => 0 <=? n end.

Fixpoint within (S : Z) (q : list byte) (os : list buf_op) : bool :=
  match os with
  | [] => true
  | o :: os => op_within S q o && within S (op_spec q o).1 os
  end.

Lemma op_refines S o b q :
  rep b q -> exact_size b -> _BufSize b = S -> S <= 2 ^ 30 -> op_within S q o = true ->
  exists b', op_impl b o = Ok (b', (op_spec q o).2) /\ rep b' (op_spec q o).1 /\
    exact_size b' /\ _BufSize b' = S.
Proof.
  intros Hr Hex HS Hsz Hw. destruct o as [bs|n]; cbn [op_within op_impl op_spec fst snd] in *; bool_props.
  - destruct (InsertData_within b q bs) as (b1 & Hi & Hr1 & Hex1 & Hs1); [done|done|lia|lia|].
    rewrite Hi. exists b1. repeat split; try done. lia.
  - pose proof (GetBufData_rep b q n Hr) as Hg. destruct (GetBufData b n) as [[b1 ptr] rl].
    destruct Hg as (_ & Hd & Hr1 & Hc & Hs1); [done|]. rewrite Hd.
    exists b1. repeat split; try done; [unfold exact_size in *; congruence|lia].
Qed.

Lemma run_refines S os b q :
  rep b q -> exact_size b -> _BufSize b = S -> S <= 2 ^ 30 -> within S q os = true ->
  exists b', run_impl b os = Ok (b', (run_spec q os).2) /\ rep b' (run_spec q os).1.
Proof.
  revert b q. induction os as [|o os IH]; intros b q Hr Hex HS Hsz Hw; [simpl; eauto|].
  cbn [within run_impl run_spec] in *. bool_props.
  destruct (op_refines S o b q) as (b1 & -> & Hr1 & Hex1 & Hs1); try done.
  destruct (op_spec q o) as [q' out]; cbn [fst snd] in *. rewrite bind_Ok.
  destruct (IH b1 q') as (b' & -> & Hr'); try done.
  destruct (run_spec q' os). rewrite bind_Ok. eauto.
Qed.

(** * Theorems *)

(** C35: a [MyBuf] created with [BufSize] bytes implements a first-in first-out
    byte queue: any sequence of [InsertData] and [GetBufData] calls during which
    at most [BufSize] bytes are pending runs without an error, hands out exactly
    the bytes the queue hands out, and leaves the same bytes pending. *)
Theorem MyBuf_refines_queue (BufSize : Z) (os : list buf_op) :
  0 < BufSize <= 2 ^ 30 -> within BufSize [] os = true ->
  exists b', run_impl (MyBuf_new true BufSize) os = Ok (b', (run_spec [] os).2) /\
    rep b' (run_spec [] os).1.
Proof.
  intros HS Hw. destruct (rep_new BufSize) as [Hr Hex]; [unfold INT_MAX; lia|].
  apply (run_refines BufSize); try done; lia.
Qed.

Lemma MyBuf_refines_queue_witness :
  exists b', run_impl (MyBuf_new true 4)
    [OpInsert (zbytes [1; 2; 3]); OpTake 2; OpInsert (zbytes [4; 5; 6]); OpTake 9] =
    Ok (b', [[]; zbytes [1; 2]; []; zbytes [3; 4; 5; 6]]) /\ rep b' [].
Proof.
  exact (MyBuf_refines_queue 4
    [OpInsert (zbytes [1; 2; 3]); OpTake 2; OpInsert (zbytes [4; 5; 6]); OpTake 9]
    ltac:(lia) ltac:(reflexivity)).
Defined.

(** The exact behaviour of [InsertData] on a live buffer, growth included:
    when the copy fits the allocated block (or the block is grown first) the
    bytes are appended and [RealLen] is the whole length; in every other case
    the [memcpy] writes outside the block. *)
Theorem InsertData_exact (b : MyBuf) (q Input : list byte) :
  rep b q -> blen q + blen Input <= 2 ^ 30 ->
  if insert_fits b (blen Input)
  then exists b', InsertData true b Input (blen Input) = Ok (b', blen Input) /\ rep b' (q ++ Input)
  else InsertData true b Input (blen Input) = UB OutOfBounds.
Proof.
  intros Hr Hsz. destruct (insert_fits b (blen Input)) eqn:E.
  - destruct (InsertData_fits b q Input Hr Hsz E) as (b' & ? & ? & _). eauto.
  - by apply InsertData_overruns with q.
Qed.

Lemma InsertData_exact_witness :
  exists b', InsertData true (MyBuf_new true 4) (zbytes [1; 2; 3; 4; 5; 6]) 6 = Ok (b', 6) /\
    rep b' (zbytes [1; 2; 3; 4; 5; 6]).
Proof.
  exact (InsertData_exact (MyBuf_new true 4) [] (zbytes [1; 2; 3; 4; 5; 6])
    (proj1 (rep_new 4 ltac:(unfold INT_MAX; lia))) ltac:(vm_compute; discriminate)).
Defined.

(** Growing leaves a block smaller than [_BufSize] (the code doubles
    [_BufSize] and reallocates only [NeedLen] bytes): the next insertion that
    the doubled size seems to have room for is written past the end of the
    block, for every first input that needs growth to a size that is not
    reached exactly. *)
Theorem InsertData_after_growth_overruns (b b' : MyBuf) (q first second : list byte) :
  rep b q -> blen q + blen first <= 2 ^ 30 ->
  GetRemainLen b < blen first ->
  InsertData true b first (blen first) = Ok (b', blen first) ->
  0 < blen second <= GetRemainLen b' ->
  InsertData true b' second (blen second) = UB OutOfBounds.
Proof.
  intros Hr Hsz Hgrow Hins Hsec.
  destruct (InsertData_fits b q first) as (b1 & Hi & Hr1 & _ & Hg); [done|done|by eapply grow_fits|].
  rewrite Hins in Hi. injection Hi as <-. specialize (Hg Hgrow).
  apply InsertData_overruns with (q ++ first); [done|].
  pose proof (rep_len _ _ Hr1) as HL. destruct Hr1 as (m & HB & H1 & H2 & _).
  assert (capacity b' = blen m) as Hcm by (unfold capacity; by rewrite HB).
  unfold insert_fits, insert_at. unfold GetRemainLen, GetTailLen, GetBufLen in *.
  repeat (apply orb_false_iff; split).
  - rewrite Z.gtb_ltb. apply Z.ltb_ge. lia.
  - apply Z.leb_gt. case_match; lia.
  - apply Z.eqb_neq. lia.
Qed.

Lemma InsertData_after_growth_overruns_witness :
  InsertData true (mkMyBuf 8 (Some (Some <$> zbytes [1; 2; 3; 4; 5])) 0 5) (zbytes [6]) 1 = UB OutOfBounds.
Proof.
  apply (InsertData_after_growth_overruns (MyBuf_new true 4)
    (mkMyBuf 8 (Some (Some <$> zbytes [1; 2; 3; 4; 5])) 0 5) [] (zbytes [1; 2; 3; 4; 5]) (zbytes [6])
    (proj1 (rep_new 4 ltac:(unfold INT_MAX; lia)))); [vm_compute; discriminate|reflexivity|reflexivity|].
  split; [reflexivity|vm_compute; discriminate].
Defined.

(** When [realloc] fails, [InsertData] reports [RealLen = 0] and the bytes
    that were pending can no longer be read: the buffer's pointer is null while
    [GetBufLen] still counts them. *)
Theorem InsertData_alloc_failure (b : MyBuf) (q Input : list byte) :
  rep b q -> blen q + blen Input <= 2 ^ 30 -> GetRemainLen b < blen Input ->
  exists b', InsertData false b Input (blen Input) = Ok (b', 0) /\
    GetBufLen b' = blen q /\
    forall ptr len, deref b' ptr len = UB NullDeref.
Proof.
  intros Hr Hsz Hgrow. unfold InsertData.
  destruct (make_room_rep b q (blen Input) Hr) as (b1 & -> & Hr1 & HT1 & HH1 & Hc1 & Hs1).
  rewrite bind_Ok. pose proof (rep_len _ _ Hr) as HL. pose proof (rep_len _ _ Hr1) as HL1.
  assert (GetRemainLen b1 = GetRemainLen b) as -> by (unfold GetRemainLen; congruence).
  rewrite Z.gtb_ltb, (proj2 (Z.ltb_lt _ _) Hgrow).
  pose proof (insert_at_remain _ _ _ Hr Hgrow) as Ht. specialize (HH1 Ht).
  destruct Hr1 as (m & HB & H1 & H2 & H3 & _).
  unfold grow. rewrite HL1. pose proof (blen_nonneg q). pose proof (blen_nonneg Input).
  rewrite chk_int_ok by (unfold INT_MIN, INT_MAX; lia). rewrite bind_Ok.
  destruct (double_size_ok double_fuel (_BufSize b1) (blen q + blen Input)) as (s & -> & ? & ?);
    [lia|lia|change (2 ^ Z.of_nat double_fuel) with (2 ^ 32); lia|].
  rewrite HH1. simpl. eexists. split; [done|]. unfold GetBufLen; simpl. split; [lia|done].
Qed.

Lemma InsertData_alloc_failure_witness :
  exists b', InsertData false (MyBuf_new true 4) (zbytes [1; 2; 3; 4; 5]) 5 = Ok (b', 0) /\
    GetBufLen b' = 0 /\ forall ptr len, deref b' ptr len = UB NullDeref.
Proof.
  exact (InsertData_alloc_failure (MyBuf_new true 4) [] (zbytes [1; 2; 3; 4; 5])
    (proj1 (rep_new 4 ltac:(unfold INT_MAX; lia))) ltac:(vm_compute; discriminate) ltac:(reflexivity)).
Defined.

(** The size-doubling loop ends for every positive [_BufSize] and every
    [int] request, within the fuel the model gives it. *)
Theorem double_size_never_diverges (size need : Z) :
  0 < size -> need <= INT_MAX -> double_size double_fuel size need ≠ UB Diverges.
Proof.
  intros Hs Hn. apply double_size_terminates; [done|].
  change (2 ^ Z.of_nat double_fuel) with (2 ^ 32). unfold INT_MAX in Hn. lia.
Qed.

Lemma double_size_never_diverges_witness : double_size double_fuel 1 INT_MAX ≠ UB Diverges.
Proof. apply (double_size_never_diverges 1 INT_MAX); unfold INT_MAX; lia. Defined.
