(* ===== verification/Encrypt.v ===== *)
(** The cipher interface [clsEncrypt] and its implementation [SimpleXOR]
    (encrypt/include/encrypt.h). A [(char* Input, int InputLen)] pair is a
    [list byte]; [random()] is an argument. *)
From S2P Require Import Prelude.

(** * The interface *)

(** [class clsEncrypt]: [Encrypt] is given the value [random()] would return;
    [Decrypt] answers [None] for the null pointer with [OutputLen = 0]. *)
Class clsEncrypt (S : Type) := {
  Encrypt : Z -> S -> list byte -> cres (S * list byte);
  Decrypt : S -> list byte -> cres (S * option (list byte))
}.

(** What the packet layer relies on. [synced e d w p]: after the encryptor's
    state [e] has sent everything and while [w] is still on the wire to the
    decryptor's state [d], [d] will recover the bytes [p] from [w]. [ready d n]:
    [d] can take a chunk of [n] bytes. *)
Class CipherLaws (S : Type) `{!clsEncrypt S} := {
  ready : S -> Z -> bool;
  synced : S -> S -> list byte -> list byte -> Prop;
  encrypt_synced r e d w p m e' c :
    synced e d w p -> Encrypt r e m = Ok (e', c) -> synced e' d (w ++ c) (p ++ m);
  encrypt_total r e d w p m :
    synced e d w p -> blen m <= INT_MAX - 4 -> exists e' c, Encrypt r e m = Ok (e', c);
  decrypt_synced e d w1 w2 p :
    synced e d (w1 ++ w2) p -> ready d (blen w1) = true ->
    exists d' p1 p2, Decrypt d w1 = Ok (d', Some p1) /\ p = p1 ++ p2 /\
      blen p1 <= blen w1 /\ synced e d' w2 p2;
  synced_drained e d p : synced e d [] p -> p = []
}.

(** * [SimpleXOR] *)

Definition DIC_SIZE : Z := 256.

(** [dic_i] and [_Seed] are not set by the constructor. *)
Record SimpleXOR := mkXOR {
  dic_i : option Z;
  dic : list byte;
  SeedFlag : bool;
  _Seed : option Z
}.

Definition SimpleXOR_new : SimpleXOR :=
  mkXOR None (replicate (Z.to_nat DIC_SIZE) Byte.x00) false None.

(** [++dic_i; return dic[dic_i]^c;] with [dic_i] an [unsigned char]. *)
Definition xmake (s : SimpleXOR) (c : byte) : cres (SimpleXOR * byte) :=
  i ← of_option Uninitialised (dic_i s);
  let i' := (i + 1) mod 256 in
  k ← of_option OutOfBounds (dic s !! Z.to_nat i');
  Ok (mkXOR (Some i') (dic s) (SeedFlag s) (_Seed s), byte.xor k c).

(** [Seed = (Seed<<3)+(Seed>>3)+Seed;], each operation reduced to the 32-bit
    two's complement [int] the compiled code keeps. *)
Definition next_seed (Seed : Z) : Z :=
  wrap32 (wrap32 (wrap32 (Z.shiftl Seed 3) + Z.shiftr Seed 3) + Seed).

(** The loop of [SetSeed] from some index on, [n] rounds left. *)
Fixpoint fill_dic (n : nat) (Seed : Z) : list byte :=
  match n with
  | O => []
  | S n => byte.of_Z (Z.rem Seed 256) :: fill_dic n (next_seed Seed)
  end.

Definition SetSeed (Seed : Z) : SimpleXOR :=
  mkXOR (Some 0) (fill_dic 256 Seed) true (Some Seed).

Definition GetSeed (s : SimpleXOR) : cres Z := of_option Uninitialised (_Seed s).

Definition GetDic (s : SimpleXOR) : list byte := dic s.

(** The loops over [Input]. *)
Fixpoint xmake_all (s : SimpleXOR) (Input : list byte) : cres (SimpleXOR * list byte) :=
  match Input with
  | [] => Ok (s, [])
  | c :: Input =>
      '(s1, o) ← xmake s c;
      '(s2, os) ← xmake_all s1 Input;
      Ok (s2, o :: os)
  end.

(** [OutputLen = InputLen + SeedLen] is a sum of [int]s. *)
Definition XOR_Encrypt (random : Z) (s : SimpleXOR) (Input : list byte)
  : cres (SimpleXOR * list byte) :=
  if negb (SeedFlag s) then
    let RandomSeed := wrap32 random in
    _ ← chk_int (blen Input + 4);
    '(s', Output) ← xmake_all (SetSeed RandomSeed) Input;
    Ok (s', int_bytes RandomSeed ++ Output)
  else xmake_all s Input.

Definition XOR_Decrypt (s : SimpleXOR) (Input : list byte)
  : cres (SimpleXOR * option (list byte)) :=
  if negb (SeedFlag s) then
    if blen Input <? 4 then Ok (s, None)
    else
      let Seed := int_of_bytes (take 4 Input) in
      '(s', Output) ← xmake_all (SetSeed Seed) (drop 4 Input);
      Ok (s', Some Output)
  else
    '(s', Output) ← xmake_all s Input;
    Ok (s', Some Output).

#[export] Instance SimpleXOR_clsEncrypt : clsEncrypt SimpleXOR := {
  Encrypt := XOR_Encrypt;
  Decrypt := XOR_Decrypt
}.

#[global] Arguments fill_dic : simpl never.
#[global] Arguments xmake : simpl never.

(** * The key stream *)

(** [Input] combined with the dictionary [d] from index [i] on. *)
Fixpoint xor_stream (d : list byte) (i : Z) (Input : list byte) : list byte :=
  match Input with
  | [] => []
  | c :: Input =>
      byte.xor (d !!! Z.to_nat ((i + 1) mod 256)) c :: xor_stream d ((i + 1) mod 256) Input
  end.

Definition advance (s : SimpleXOR) (i : Z) : SimpleXOR :=
  mkXOR (Some i) (dic s) (SeedFlag s) (_Seed s).

Lemma length_fill_dic n Seed : length (fill_dic n Seed) = n.
Proof. revert Seed. induction n as [|n IH]; intros; [done|]. change (S (length (fill_dic n (next_seed Seed))) = S n). by rewrite IH. Qed.

Lemma length_xor_stream d i Input : length (xor_stream d i Input) = length Input.
Proof. revert i. induction Input; intros; simpl; auto. Qed.

Lemma byte_xor_cancel k c : byte.xor k (byte.xor k c) = c.
Proof.
  apply byte.unsigned_inj. unfold byte.xor. rewrite !byte.unsigned_of_Z.
  pose proof (byte.unsigned_range k). pose proof (byte.unsigned_range c).
  unfold byte.wrap.
  assert (Hb : forall x y, 0 <= x < 2 ^ 8 -> 0 <= y < 2 ^ 8 -> Z.lxor x y mod 2 ^ 8 = Z.lxor x y).
  { intros x y Hx Hy. rewrite <- Z.land_ones by lia. apply Z.bits_inj'. intros n Hn.
    rewrite Z.land_spec, Z.lxor_spec, Z.testbit_ones_nonneg by lia.
    destruct (Z.ltb_spec n 8); [by rewrite andb_true_r|].
    rewrite <- (Z.mod_small x (2 ^ 8)), <- (Z.mod_small y (2 ^ 8)) by lia.
    by rewrite !Z.mod_pow2_bits_high by lia. }
  rewrite (Hb _ (byte.unsigned c)) by done.
  rewrite <- Z.lxor_assoc, Z.lxor_nilpotent, Z.lxor_0_l by lia.
  apply Z.mod_small. done.
Qed.

(** Combining twice with the same key stream is the identity. *)
Lemma xor_stream_involutive d i Input : xor_stream d i (xor_stream d i Input) = Input.
Proof. revert i. induction Input as [|c x IH]; intros; simpl; [done|]. by rewrite byte_xor_cancel, IH. Qed.

Lemma xor_stream_app d i x y :
  0 <= i < 256 ->
  xor_stream d i (x ++ y) = xor_stream d i x ++ xor_stream d ((i + blen x) mod 256) y.
Proof.
  revert i. induction x as [|c x IH]; intros i Hi; simpl.
  - change (blen []) with 0. rewrite Z.add_0_r, Z.mod_small by lia. done.
  - rewrite IH by (apply Z.mod_pos_bound; lia). do 2 f_equal. f_equal.
    rewrite Z.add_mod_idemp_l, blen_cons by lia. f_equal. lia.
Qed.

(** The loop over [xmake] computes the key stream combination and never leaves
    the dictionary. *)
Lemma xmake_all_spec s i Input :
  dic_i s = Some i -> 0 <= i < 256 -> length (dic s) = 256%nat ->
  xmake_all s Input = Ok (advance s ((i + blen Input) mod 256), xor_stream (dic s) i Input).
Proof.
  revert s i. induction Input as [|c x IH]; intros s i Hi Hr Hd; simpl.
  - change (blen []) with 0. rewrite Z.add_0_r, Z.mod_small by lia.
    unfold advance. rewrite <- Hi. by destruct s.
  - unfold xmake. rewrite Hi. simpl. pose proof (Z.mod_pos_bound (i + 1) 256).
    destruct (lookup_lt_is_Some_2 (dic s) (Z.to_nat ((i + 1) mod 256))) as [k Hk]; [lia|].
    rewrite Hk. simpl. erewrite IH by (simpl; done || lia). simpl.
    rewrite (list_lookup_total_correct _ _ _ Hk). unfold advance. simpl.
    rewrite Z.add_mod_idemp_l by lia.
    rewrite blen_cons. do 5 f_equal. lia.
Qed.

(** * The type invariant *)

(** A seeded cipher has its index set; the dictionary always has 256 entries. *)
Definition XOR_wf (s : SimpleXOR) : Prop :=
  length (dic s) = 256%nat /\
  (SeedFlag s = true -> exists i, dic_i s = Some i /\ 0 <= i < 256).

Lemma SetSeed_wf Seed : XOR_wf (SetSeed Seed).
Proof. split; [apply length_fill_dic|]. intros _. exists 0. split; [done|lia]. Qed.

Lemma advance_wf s i : XOR_wf s -> 0 <= i < 256 -> XOR_wf (advance s i).
Proof. intros [Hd _] Hi. split; [done|]. intros _. by exists i. Qed.

#[export] Hint Resolve SetSeed_wf advance_wf : cmodel.

Lemma index_range n : 0 <= n mod 256 < 256.
Proof. apply Z.mod_pos_bound. lia. Qed.

#[export] Hint Resolve index_range : cmodel.

Lemma xmake_all_SetSeed Seed Input :
  xmake_all (SetSeed Seed) Input =
  Ok (advance (SetSeed Seed) (blen Input mod 256), xor_stream (fill_dic 256 Seed) 0 Input).
Proof. erewrite (xmake_all_spec (SetSeed Seed) 0); [done|done|lia|apply length_fill_dic]. Qed.

Lemma Encrypt_unseeded r s m :
  SeedFlag s = false ->
  XOR_Encrypt r s m =
  if blen m <=? INT_MAX - 4 then
    Ok (advance (SetSeed (wrap32 r)) (blen m mod 256),
        int_bytes (wrap32 r) ++ xor_stream (fill_dic 256 (wrap32 r)) 0 m)
  else UB SignedOverflow.
Proof.
  intros Hf. unfold XOR_Encrypt. rewrite Hf. cbn [negb]. pose proof (blen_nonneg m). unfold chk_int, in_int.
  destruct (Z.leb_spec (blen m) (INT_MAX - 4)).
  - rewrite (proj2 (Z.leb_le INT_MIN _)), (proj2 (Z.leb_le _ INT_MAX)) by (unfold INT_MIN, INT_MAX in *; lia).
    cbn [andb]. rewrite bind_Ok, xmake_all_SetSeed. done.
  - by rewrite (proj2 (Z.leb_gt _ INT_MAX)), andb_false_r by (unfold INT_MAX in *; lia).
Qed.

Lemma Encrypt_seeded r s i m :
  SeedFlag s = true -> dic_i s = Some i -> 0 <= i < 256 -> length (dic s) = 256%nat ->
  XOR_Encrypt r s m = Ok (advance s ((i + blen m) mod 256), xor_stream (dic s) i m).
Proof. intros Hf ???. unfold XOR_Encrypt. rewrite Hf. simpl. by apply xmake_all_spec. Qed.

Lemma Decrypt_unseeded s Seed w :
  SeedFlag s = false -> INT_MIN <= Seed <= INT_MAX ->
  XOR_Decrypt s (int_bytes Seed ++ w) =
  Ok (advance (SetSeed Seed) (blen w mod 256), Some (xor_stream (fill_dic 256 Seed) 0 w)).
Proof.
  intros Hf HS. unfold XOR_Decrypt. rewrite Hf. cbn [negb].
  assert (Hlen : length (int_bytes Seed) = 4%nat) by apply length_int_bytes.
  assert ((blen (int_bytes Seed ++ w) <? 4) = false) as ->.
  { apply Z.ltb_ge. rewrite blen_app. unfold blen at 1. rewrite Hlen. pose proof (blen_nonneg w). lia. }
  destruct (take_firstn_app_drop 4 (int_bytes Seed) w Hlen) as [-> ->].
  rewrite int_of_int_bytes by done. by rewrite xmake_all_SetSeed.
Qed.

Lemma Decrypt_seeded s i w :
  SeedFlag s = true -> dic_i s = Some i -> 0 <= i < 256 -> length (dic s) = 256%nat ->
  XOR_Decrypt s w = Ok (advance s ((i + blen w) mod 256), Some (xor_stream (dic s) i w)).
Proof.
  intros Hf ???. unfold XOR_Decrypt. rewrite Hf. simpl. by erewrite xmake_all_spec.
Qed.

(** * [SimpleXOR] satisfies the interface's laws *)

Definition XOR_ready (d : SimpleXOR) (n : Z) : bool := SeedFlag d || (4 <=? n).

(** Nothing sent yet; the seed still on the wire; both sides seeded. *)
Inductive XOR_synced : SimpleXOR -> SimpleXOR -> list byte -> list byte -> Prop :=
| synced_idle e d :
    SeedFlag e = false -> SeedFlag d = false -> XOR_synced e d [] []
| synced_seed e d Seed p :
    e = advance (SetSeed Seed) (blen p mod 256) -> SeedFlag d = false ->
    INT_MIN <= Seed <= INT_MAX ->
    XOR_synced e d (int_bytes Seed ++ xor_stream (fill_dic 256 Seed) 0 p) p
| synced_both e d i p :
    SeedFlag e = true -> SeedFlag d = true -> dic e = dic d -> length (dic d) = 256%nat ->
    dic_i d = Some i -> 0 <= i < 256 -> dic_i e = Some ((i + blen p) mod 256) ->
    XOR_synced e d (xor_stream (dic d) i p) p.

Lemma XOR_encrypt_synced r e d w p m e' c :
  XOR_synced e d w p -> XOR_Encrypt r e m = Ok (e', c) -> XOR_synced e' d (w ++ c) (p ++ m).
Proof.
  destruct 1 as [e d He Hd|e d Seed p -> Hd HS|e d i p He Hd Hdic Hlen Hi Hr Hei]; intros Hrun.
  - rewrite Encrypt_unseeded in Hrun by done. case_match; [|done]. injection Hrun as <- <-. simpl.
    constructor; [done|done|apply wrap32_range].
  - erewrite Encrypt_seeded in Hrun; [|done|done|apply index_range|apply length_fill_dic].
    injection Hrun as <- <-. rewrite <- app_assoc. simpl.
    rewrite Z.add_mod_idemp_l, <- blen_app by lia.
    rewrite <- (Z.add_0_l (blen p)), <- xor_stream_app by lia. by constructor.
  - erewrite Encrypt_seeded in Hrun; [|done|done|apply index_range|congruence].
    injection Hrun as <- <-. rewrite Hdic, <- xor_stream_app by done.
    constructor; try done. simpl. by rewrite Z.add_mod_idemp_l, blen_app, Z.add_assoc by lia.
Qed.

Lemma XOR_encrypt_total r e d w p m :
  XOR_synced e d w p -> blen m <= INT_MAX - 4 -> exists e' c, XOR_Encrypt r e m = Ok (e', c).
Proof.
  intros Hs Hm. destruct Hs as [e d He Hd|e d Seed p -> Hd HS|e d i p He Hd Hdic Hlen Hi Hr Hei].
  - rewrite Encrypt_unseeded by done. rewrite (proj2 (Z.leb_le _ _)) by done. eauto.
  - erewrite Encrypt_seeded; [eauto|done|done|apply index_range|apply length_fill_dic].
  - erewrite Encrypt_seeded; [eauto|done|done|apply index_range|congruence].
Qed.

Lemma xor_stream_split d i p w1 w2 :
  0 <= i < 256 -> xor_stream d i p = w1 ++ w2 ->
  xor_stream d i w1 ++ xor_stream d ((i + blen w1) mod 256) w2 = p /\
  xor_stream d ((i + blen w1) mod 256) (xor_stream d ((i + blen w1) mod 256) w2) = w2.
Proof.
  intros Hi Hw. rewrite <- xor_stream_app, <- Hw, !xor_stream_involutive by done. done.
Qed.

Lemma blen_xor_stream d i p : blen (xor_stream d i p) = blen p.
Proof. unfold blen. by rewrite length_xor_stream. Qed.

Lemma XOR_decrypt_synced e d w1 w2 p :
  XOR_synced e d (w1 ++ w2) p -> XOR_ready d (blen w1) = true ->
  exists d' p1 p2, XOR_Decrypt d w1 = Ok (d', Some p1) /\ p = p1 ++ p2 /\
    blen p1 <= blen w1 /\ XOR_synced e d' w2 p2.
Proof.
  intros Hs Hrdy. unfold XOR_ready in Hrdy. remember (w1 ++ w2) as w eqn:Hw.
  destruct Hs as [e d He Hd|e d Seed p -> Hd HS|e d i p He Hd Hdic Hlen Hi Hr Hei].
  - symmetry in Hw. apply app_eq_nil in Hw as [-> ->]. by rewrite Hd in Hrdy.
  - rewrite Hd in Hrdy. simpl in Hrdy. bool_props.
    assert (Hl4 : length (int_bytes Seed) = 4%nat) by apply length_int_bytes.
    assert (exists v1, w1 = int_bytes Seed ++ v1) as [v1 ->].
    { exists (drop 4 w1). rewrite <- (take_drop 4 w1) at 1. f_equal.
      apply (f_equal (take 4)) in Hw. rewrite take_app_length' in Hw by done.
      rewrite take_app_le in Hw by (unfold blen in *; lia). done. }
    rewrite <- app_assoc in Hw. apply app_inv_head in Hw.
    rewrite Decrypt_unseeded by done.
    destruct (xor_stream_split (fill_dic 256 Seed) 0 p v1 w2) as [Hp Hv2]; [lia|exact Hw|].
    do 3 eexists; split; [done|]. split; [symmetry; exact Hp|].
    rewrite blen_xor_stream, blen_app. pose proof (blen_nonneg (int_bytes Seed)). split; [lia|].
    rewrite Z.add_0_l in Hv2. rewrite <- Hv2 at 1. rewrite Z.add_0_l.
    econstructor; simpl; try done; [apply index_range|].
    rewrite <- Hp, blen_app, !blen_xor_stream, Z.add_mod_idemp_l by lia. done.
  - erewrite Decrypt_seeded by done.
    destruct (xor_stream_split (dic d) i p w1 w2) as [Hp Hw2]; [done|exact Hw|].
    do 3 eexists; split; [done|]. split; [symmetry; exact Hp|]. rewrite blen_xor_stream.
    split; [lia|]. rewrite <- Hw2 at 1.
    apply (synced_both e (advance d ((i + blen w1) mod 256)) ((i + blen w1) mod 256));
      simpl; try done; [apply index_range|].
    rewrite Hei, <- Hp, blen_app, !blen_xor_stream, Z.add_mod_idemp_l, Z.add_assoc by lia. done.
Qed.

Lemma XOR_synced_drained e d p : XOR_synced e d [] p -> p = [].
Proof.
  intros Hs. remember [] as w eqn:Hw in Hs.
  destruct Hs as [|e d Seed p ? ? ?|e d i p ? ? ? ? ? ? ?]; [done| |].
  - apply app_eq_nil in Hw as [Hw _]. apply (f_equal length) in Hw.
    by rewrite length_int_bytes in Hw.
  - apply (f_equal length) in Hw. rewrite length_xor_stream in Hw. by apply nil_length_inv.
Qed.

#[export] Instance SimpleXOR_laws : CipherLaws SimpleXOR := {
  ready := XOR_ready;
  synced := XOR_synced;
  encrypt_synced := XOR_encrypt_synced;
  encrypt_total := XOR_encrypt_total;
  decrypt_synced := XOR_decrypt_synced;
  synced_drained := XOR_synced_drained
}.

(** * Theorems *)

(** Encrypting a list of inputs one after the other. *)
Fixpoint encrypt_all (random : nat -> Z) (k : nat) (s : SimpleXOR) (ms : list (list byte))
  : cres (SimpleXOR * list byte) :=
  match ms with
  | [] => Ok (s, [])
  | m :: ms =>
      '(s1, c) ← XOR_Encrypt (random k) s m;
      '(s2, cs) ← encrypt_all random (S k) s1 ms;
      Ok (s2, c ++ cs)
  end.

(** Decrypting the chunks of a stream as they arrive. *)
Fixpoint decrypt_all (s : SimpleXOR) (ws : list (list byte)) : cres (SimpleXOR * list byte) :=
  match ws with
  | [] => Ok (s, [])
  | w :: ws =>
      '(s1, p) ← XOR_Decrypt s w;
      '(s2, ps) ← decrypt_all s1 ws;
      Ok (s2, default [] p ++ ps)
  end.

Lemma encrypt_all_synced random ms : forall k e d w p,
  XOR_synced e d w p -> Forall (fun m => blen m <= INT_MAX - 4) ms ->
  exists e' c, encrypt_all random k e ms = Ok (e', c) /\ XOR_synced e' d (w ++ c) (p ++ concat ms).
Proof.
  induction ms as [|m ms IH]; intros k e d w p Hs Hms; simpl.
  - exists e, []. by rewrite !app_nil_r.
  - apply Forall_cons in Hms as [Hm Hms]. destruct (XOR_encrypt_total (random k) _ _ _ _ m Hs Hm) as (e1 & c & He).
    pose proof (XOR_encrypt_synced _ _ _ _ _ _ _ _ Hs He) as Hs1. rewrite He. simpl.
    destruct (IH (S k) e1 d _ _ Hs1 Hms) as (e' & cs & -> & Hs'). simpl.
    exists e', (c ++ cs). by rewrite !app_assoc.
Qed.

Lemma xmake_all_flag w : forall s s' o, xmake_all s w = Ok (s', o) -> SeedFlag s' = SeedFlag s.
Proof.
  induction w as [|c w IH]; intros s s' o H; simpl in H; [by simplify_eq|].
  apply bind_Ok_inv in H as [[s1 o1] [H1 H]]. apply bind_Ok_inv in H as [[s2 os] [H2 H]].
  apply IH in H2. injection H as -> _. rewrite H2. unfold xmake in H1.
  repeat (apply bind_Ok_inv in H1 as [? [_ H1]]). by simplify_eq.
Qed.

Lemma xmake_all_length w : forall s s' o, xmake_all s w = Ok (s', o) -> blen o = blen w.
Proof.
  induction w as [|c w IH]; intros s s' o H; simpl in H; [by simplify_eq|].
  inv_ok. destruct r as [s1 o1]. inv_ok. destruct r as [s2 os]. simplify_eq.
  rewrite !blen_cons. by erewrite IH.
Qed.

Lemma Encrypt_length r s m s' o : XOR_Encrypt r s m = Ok (s', o) ->
  blen o = blen m + (if SeedFlag s then 0 else 4) /\ SeedFlag s' = true.
Proof.
  unfold XOR_Encrypt. intros H. destruct (SeedFlag s) eqn:Hf; cbn [negb] in H.
  - split; [rewrite (xmake_all_length _ _ _ _ H); lia|]. by rewrite (xmake_all_flag _ _ _ _ H).
  - apply bind_Ok_inv in H as [n [_ H]]. apply bind_Ok_inv in H as [[s1 o1] [H1 H]]. injection H as <- <-.
    split.
    + change (blen (int_bytes (wrap32 r) ++ o1) = blen m + 4). rewrite blen_app, (xmake_all_length _ _ _ _ H1).
      unfold blen at 1. rewrite length_int_bytes. lia.
    + by rewrite (xmake_all_flag _ _ _ _ H1).
Qed.

Lemma Decrypt_sets_flag d w d' p : XOR_Decrypt d w = Ok (d', Some p) -> SeedFlag d' = true.
Proof.
  unfold XOR_Decrypt. destruct (SeedFlag d) eqn:Hf; cbn [negb]; [|case_match; [done|]];
    intros Hr; apply bind_Ok_inv in Hr as [[s' o] [Hx Hr]]; apply xmake_all_flag in Hx;
    simplify_eq; by rewrite Hx.
Qed.

Lemma decrypt_all_synced ws : forall e d p,
  XOR_synced e d (concat ws) p ->
  match ws with w :: _ => XOR_ready d (blen w) = true | [] => True end ->
  exists d', decrypt_all d ws = Ok (d', p).
Proof.
  induction ws as [|w ws IH]; intros e d p Hs Hr; simpl in *.
  - apply XOR_synced_drained in Hs as ->. eauto.
  - destruct (XOR_decrypt_synced _ _ _ _ _ Hs Hr) as (d1 & p1 & p2 & Hd & -> & _ & Hs1).
    rewrite Hd. simpl. destruct (IH e d1 p2 Hs1) as (d' & ->); simpl; [|eauto].
    apply Decrypt_sets_flag in Hd. destruct ws; [done|]. unfold XOR_ready. by rewrite Hd.
Qed.

(** C37: whatever [random()] returns, the receiver's [SimpleXOR] recovers exactly
    the bytes the sender's [SimpleXOR] was given, however the byte stream is cut
    into chunks, when the first chunk holds the four seed bytes. The inputs are
    at most [INT_MAX - 4] bytes long, so that the [int] length of an output does
    not overflow. *)
Theorem SimpleXOR_stream_roundtrip (random : nat -> Z) (ms : list (list byte)) :
  Forall (fun m => blen m <= INT_MAX - 4) ms ->
  exists e' stream, encrypt_all random 0 SimpleXOR_new ms = Ok (e', stream) /\
    forall chunks, concat chunks = stream ->
      match chunks with c :: _ => 4 <= blen c | [] => True end ->
      exists d', decrypt_all SimpleXOR_new chunks = Ok (d', concat ms).
Proof.
  intros Hms. destruct (encrypt_all_synced random ms 0 SimpleXOR_new SimpleXOR_new [] [])
    as (e' & c & He & Hs); [by constructor|done|].
  exists e', c. split; [done|]. intros chunks <- Hfirst.
  apply (decrypt_all_synced chunks e'); [exact Hs|].
  destruct chunks; [done|]. unfold XOR_ready. apply orb_true_iff. right. by apply Z.leb_le.
Qed.

Lemma SimpleXOR_stream_roundtrip_witness :
  exists e' stream, encrypt_all (fun _ => 7) 0 SimpleXOR_new [zbytes [1; 2]; zbytes [3]] = Ok (e', stream) /\
    exists d', decrypt_all SimpleXOR_new [take 5 stream; drop 5 stream] = Ok (d', zbytes [1; 2; 3]).
Proof.
  destruct (SimpleXOR_stream_roundtrip (fun _ => 7) [zbytes [1; 2]; zbytes [3]]) as (e' & stream & He & Hd).
  - repeat constructor; vm_compute; discriminate.
  - exists e', stream. split; [exact He|]. apply (Hd [take 5 stream; drop 5 stream]).
    + cbn [concat]. rewrite app_nil_r. apply take_drop.
    + vm_compute in He. injection He as _ <-. vm_compute. discriminate.
Defined.

(** The cipher never reads an unset index or leaves its dictionary. From a
    well-formed state, [Encrypt] returns for every input, with an output as long
    as the input, and four bytes longer when the cipher has no seed yet, except
    that this sum of [int]s overflows when there is no seed and the input is
    longer than [INT_MAX - 4]; [Decrypt] returns for every input, with an output
    as long as the input, or without the four bytes of the seed when there is
    none yet. The state they leave is well formed again. *)
Theorem SimpleXOR_total (random : Z) (s : SimpleXOR) (Input : list byte) :
  XOR_wf s ->
  (if negb (SeedFlag s) && (INT_MAX - 4 <? blen Input)
   then XOR_Encrypt random s Input = UB SignedOverflow
   else exists s' Output, XOR_Encrypt random s Input = Ok (s', Output) /\ XOR_wf s' /\ SeedFlag s' = true /\
     blen Output = blen Input + (if SeedFlag s then 0 else 4)) /\
  (exists s' Output, XOR_Decrypt s Input = Ok (s', Output) /\ XOR_wf s' /\
     blen (default [] Output) =
       (if SeedFlag s then blen Input else Z.max 0 (blen Input - 4))).
Proof.
  intros Hwf. pose proof Hwf as [Hd Hi]. destruct (SeedFlag s) eqn:Hf; cbn [negb andb].
  - destruct (Hi eq_refl) as (i & Hi1 & Hi2). split.
    + erewrite Encrypt_seeded by done. do 2 eexists; split; [done|].
      rewrite blen_xor_stream. split; [auto with cmodel|]. split; [done|lia].
    + erewrite Decrypt_seeded by done. do 2 eexists; split; [done|]. simpl.
      rewrite blen_xor_stream. auto with cmodel.
  - split.
    + rewrite Encrypt_unseeded by done. rewrite Z.ltb_antisym. destruct (_ <=? _); cbn [negb]; [|done].
      do 2 eexists; split; [done|]. split; [auto with cmodel|]. split; [done|].
      rewrite blen_app, blen_xor_stream. unfold blen at 1. rewrite length_int_bytes. lia.
    + unfold XOR_Decrypt. rewrite Hf. cbn [negb]. destruct (blen Input <? 4) eqn:E; bool_props.
      * do 2 eexists; split; [done|]. simpl. split; [done|]. rewrite blen_nil. lia.
      * rewrite xmake_all_SetSeed. simpl. do 2 eexists; split; [done|]. split; [auto with cmodel|].
        simpl. rewrite blen_xor_stream. change 4%nat with (Z.to_nat 4).
        rewrite blen_drop by lia. lia.
Qed.

Lemma SimpleXOR_total_witness :
  XOR_wf SimpleXOR_new /\
  exists s' Output, XOR_Encrypt 7 SimpleXOR_new (zbytes [1; 2]) = Ok (s', Output) /\ blen Output = 6.
Proof.
  assert (H : XOR_wf SimpleXOR_new) by (split; [reflexivity|discriminate]).
  split; [exact H|].
  destruct (SimpleXOR_total 7 SimpleXOR_new (zbytes [1; 2]) H) as [(s' & o & H1 & _ & _ & H2) _].
  exists s', o. split; [exact H1|exact H2].
Defined.

(** A first chunk of fewer than four bytes is dropped: [Decrypt] answers
    nothing and keeps no trace of it, so the bytes of the seed it carried are
    lost and the next chunk is taken for the start of the stream. *)
Theorem SimpleXOR_short_chunk_lost (s : SimpleXOR) (c : list byte) (rest : list (list byte)) :
  SeedFlag s = false -> blen c < 4 ->
  decrypt_all s (c :: rest) = decrypt_all s rest.
Proof.
  intros Hf Hc. simpl. unfold XOR_Decrypt at 1. rewrite Hf. cbn [negb].
  rewrite (proj2 (Z.ltb_lt _ _)) by done. rewrite bind_Ok.
  destruct (decrypt_all s rest) as [[s2 ps]|]; done.
Qed.

Lemma SimpleXOR_short_chunk_lost_witness :
  decrypt_all SimpleXOR_new [zbytes [1; 0]; zbytes [0; 0; 42]] =
  decrypt_all SimpleXOR_new [zbytes [0; 0; 42]].
Proof.
  apply (SimpleXOR_short_chunk_lost SimpleXOR_new (zbytes [1; 0]) [zbytes [0; 0; 42]]);
    [reflexivity|vm_compute; reflexivity].
Defined.
