(* ===== verification/PacketProcess.v ===== *)
(** The packet layer [clsPacketEncrypt] / [clsPacketDecrypt]
    (encrypt/packet_process.cpp, include/packet_process.h): packets are framed
    with a four-byte length and pass through a cipher; the receiving side
    collects the decrypted stream in a [MyBuf] and cuts it back into packets. *)
From S2P Require Import Prelude MyBuf Encrypt.

(** * The frame format, abstractly *)

(** A packet on the stream: its length as an [int], then its bytes. *)
Definition frame (m : list byte) : list byte := int_bytes (blen m) ++ m.

Definition frames (ms : list (list byte)) : list byte := concat (frame <$> ms).

(** The first whole packet of a stream and what follows it. *)
Definition next_bag (p : list byte) : option (list byte * list byte) :=
  if blen p <? 4 then None
  else
    let n := uint_of_bytes (take 4 p) in
    if blen p - 4 <? n then None
    else Some (take (Z.to_nat n) (drop 4 p), drop (Z.to_nat n) (drop 4 p)).

Fixpoint parse_n (fuel : nat) (p : list byte) : list (list byte) * list byte :=
  match fuel with
  | O => ([], p)
  | S fuel =>
      match next_bag p with
      | None => ([], p)
      | Some (bag, rest) => let '(bags, r) := parse_n fuel rest in (bag :: bags, r)
      end
  end.

(** All whole packets of a stream, and the bytes of the last, incomplete one. *)
Definition parse (p : list byte) : list (list byte) * list byte := parse_n (length p) p.

(** * The code *)

Section PacketProcess.
Context {C : Type} `{!clsEncrypt C}.

(** The only field of [clsPacketEncrypt] is its cipher, [None] for the null
    pointer the constructor accepts. *)
Record clsPacketEncrypt := mkPacketEncrypt { _EncryptClass : option C }.

(** [char* EncryptPacket(int Vfd, char* Buf, int BufLen, int& RealLen)]; the
    descriptor is not used. *)
Definition EncryptPacket (random : Z) (e : clsPacketEncrypt) (Buf : list byte)
  : cres (clsPacketEncrypt * list byte) :=
  _ ← chk_int (4 + blen Buf);
  let tmp := int_bytes (blen Buf) ++ Buf in
  match _EncryptClass e with
  | Some c => '(c', OutBuf) ← Encrypt random c tmp; Ok (mkPacketEncrypt (Some c'), OutBuf)
  | None => Ok (e, tmp)
  end.

(** [_BagLen] is an [unsigned int] the constructor does not set. *)
Record clsPacketDecrypt := mkPacketDecrypt {
  _DecryptBuf : MyBuf;
  _BagLen : option Z;
  _BagFlag : bool;
  _DecryptClass : option C
}.

Definition PacketDecrypt_new (ok : bool) (c : option C) : clsPacketDecrypt :=
  mkPacketDecrypt (MyBuf_new ok 1024) None false c.

(** The bytes the packet loop prints: [for (int i=0;i<RealLen;i++)]. *)
Definition read_bag (b : MyBuf) (ptr RealLen : Z) : cres (list byte) :=
  if RealLen <=? 0 then Ok [] else deref b ptr RealLen.

(** [void clsPacketDecrypt::BagProcess(int Vfd)]: returns the packets it hands
    out, in order. The comparison with [_BagLen] is made in [unsigned int]. *)
Fixpoint BagProcess (fuel : nat) (d : clsPacketDecrypt)
  : cres (clsPacketDecrypt * list (list byte)) :=
  match fuel with
  | O => UB Diverges
  | S fuel =>
      if negb (_BagFlag d) then
        let '(Head, BufLen) := GetBufHead (_DecryptBuf d) in
        if BufLen <? 4 then Ok (d, [])
        else
          hdr ← deref (_DecryptBuf d) Head 4;
          let '(buf', _, _) := GetBufData (_DecryptBuf d) 4 in
          BagProcess fuel (mkPacketDecrypt buf' (Some (uint_of_bytes hdr)) true (_DecryptClass d))
      else
        BagLen ← of_option Uninitialised (_BagLen d);
        if uwrap32 (GetBufLen (_DecryptBuf d)) <? BagLen then Ok (d, [])
        else
          let '(buf', BagBuf, RealLen) := GetBufData (_DecryptBuf d) (wrap32 BagLen) in
          bag ← read_bag buf' BagBuf RealLen;
          '(d', bags) ← BagProcess fuel (mkPacketDecrypt buf' (_BagLen d) false (_DecryptClass d));
          Ok (d', bag :: bags)
  end.

(** Every second round takes at least the four bytes of a length. *)
Definition bag_fuel (d : clsPacketDecrypt) : nat :=
  (2 * Z.to_nat (GetBufLen (_DecryptBuf d)) + 2)%nat.

(** [void clsPacketDecrypt::DecryptPacket(int Vfd, char* Buf, int BufLen)]; [ok]
    is the allocator's answer should the buffer have to grow. *)
Definition DecryptPacket (ok : bool) (d : clsPacketDecrypt) (Buf : list byte)
  : cres (clsPacketDecrypt * list (list byte)) :=
  '(c', DecryptBuf) ←
    match _DecryptClass d with
    | Some c => '(c', o) ← Decrypt c Buf; Ok (Some c', default [] o)
    | None => Ok (None, Buf)
    end;
  buf' ← (if blen DecryptBuf >? 0
          then '(b, _) ← InsertData ok (_DecryptBuf d) DecryptBuf (blen DecryptBuf); Ok b
          else Ok (_DecryptBuf d));
  let d' := mkPacketDecrypt buf' (_BagLen d) (_BagFlag d) c' in
  BagProcess (bag_fuel d') d'.

End PacketProcess.
Arguments clsPacketEncrypt C : clear implicits.
Arguments clsPacketDecrypt C : clear implicits.

Lemma frames_cons m ms : frames (m :: ms) = frame m ++ frames ms.
Proof. done. Qed.

Lemma frames_app ms ns : frames (ms ++ ns) = frames ms ++ frames ns.
Proof. unfold frames. by rewrite fmap_app, concat_app. Qed.

(** * Facts about the frame format *)

Lemma blen_frame m : blen (frame m) = 4 + blen m.
Proof. unfold frame. rewrite blen_app. unfold blen at 1. by rewrite length_int_bytes. Qed.

Lemma int_bytes_uint (h : list byte) : length h = 4%nat -> int_bytes (uint_of_bytes h) = h.
Proof. intros Hh. unfold int_bytes, uint_of_bytes. by apply split_le_combine'. Qed.

Lemma uint_of_bytes_range (h : list byte) : length h = 4%nat -> 0 <= uint_of_bytes h < 2 ^ 32.
Proof.
  intros Hh. pose proof (le_combine_bound h) as Hb. rewrite Hh in Hb. exact Hb.
Qed.

Lemma next_bag_Some p bag rest :
  next_bag p = Some (bag, rest) -> p = frame bag ++ rest /\ blen bag < 2 ^ 32 /\ (length rest < length p)%nat.
Proof.
  unfold next_bag. intros H. repeat case_match; [done|done|]. bool_props. simplify_eq.
  set (n := uint_of_bytes (take 4 p)) in *.
  assert (Hh : length (take 4 p) = 4%nat) by (rewrite length_take; unfold blen in *; lia).
  pose proof (uint_of_bytes_range _ Hh) as Hn. fold n in Hn.
  assert (Hd : blen (drop 4 p) = blen p - 4) by (unfold blen in *; rewrite length_drop; lia).
  assert (Hb : blen (take (Z.to_nat n) (drop 4 p)) = n) by (apply blen_take; lia).
  split; [|split].
  - unfold frame. rewrite Hb. unfold n. rewrite int_bytes_uint by done.
    rewrite <- app_assoc, take_drop, take_drop. done.
  - lia.
  - rewrite !length_drop. unfold blen in *. lia.
Qed.

Lemma next_bag_frame bag rest : blen bag < 2 ^ 32 -> next_bag (frame bag ++ rest) = Some (bag, rest).
Proof.
  intros Hb. pose proof (blen_nonneg bag). pose proof (blen_nonneg rest). unfold next_bag.
  rewrite blen_app, blen_frame. rewrite (proj2 (Z.ltb_ge _ _)) by lia.
  unfold frame. rewrite <- app_assoc.
  destruct (take_firstn_app_drop 4 (int_bytes (blen bag)) (bag ++ rest) (length_int_bytes _)) as [-> ->].
  rewrite uint_of_int_bytes, uwrap32_small by lia. rewrite (proj2 (Z.ltb_ge _ _)) by lia.
  unfold blen. rewrite Nat2Z.id, take_app_length, drop_app_length. done.
Qed.

Lemma next_bag_app p s bag rest :
  next_bag p = Some (bag, rest) -> next_bag (p ++ s) = Some (bag, rest ++ s).
Proof.
  intros (-> & Hb & _)%next_bag_Some. rewrite <- app_assoc. by apply next_bag_frame.
Qed.

Lemma parse_n_fuel f1 f2 p :
  (length p <= f1)%nat -> (length p <= f2)%nat -> parse_n f1 p = parse_n f2 p.
Proof.
  revert f2 p. induction f1 as [|f1 IH]; intros [|f2] p H1 H2; simpl; try done.
  - apply Nat.le_0_r, nil_length_inv in H1 as ->. done.
  - apply Nat.le_0_r, nil_length_inv in H2 as ->. done.
  - destruct (next_bag p) as [[bag rest]|] eqn:E; [|done].
    apply next_bag_Some in E as (_ & _ & Hlt). rewrite (IH f2) by lia. done.
Qed.

Lemma parse_unfold p :
  parse p = match next_bag p with
            | None => ([], p)
            | Some (bag, rest) => let '(bags, r) := parse rest in (bag :: bags, r)
            end.
Proof.
  unfold parse. destruct p as [|b p]; [done|].
  change (parse_n (length (b :: p)) (b :: p)) with
    (match next_bag (b :: p) with None => ([], b :: p)
     | Some (bag, rest) => let '(bags, r) := parse_n (length p) rest in (bag :: bags, r) end).
  destruct (next_bag (b :: p)) as [[bag rest]|] eqn:E; [|done].
  apply next_bag_Some in E as (_ & _ & Hlt). simpl in Hlt.
  by rewrite (parse_n_fuel (length p) (length rest)) by lia.
Qed.

(** Parsing does not depend on where the stream is cut. *)
Lemma parse_app p s :
  parse (p ++ s) = let '(b1, r1) := parse p in let '(b2, r2) := parse (r1 ++ s) in (b1 ++ b2, r2).
Proof.
  remember (length p) as n eqn:Hn. revert p Hn.
  induction (lt_wf n) as [n _ IH]. intros p ->.
  rewrite (parse_unfold p). destruct (next_bag p) as [[bag rest]|] eqn:E.
  - rewrite parse_unfold, (next_bag_app _ s _ _ E).
    apply next_bag_Some in E as (_ & _ & Hlt). rewrite (IH (length rest)) by done.
    destruct (parse rest) as [b1 r1]. destruct (parse (r1 ++ s)) as [b2 r2]. done.
  - by destruct (parse (p ++ s)).
Qed.

Lemma parse_rest p bags r :
  parse p = (bags, r) -> p = frames bags ++ r /\ parse r = ([], r).
Proof.
  remember (length p) as n eqn:Hn. revert p bags r Hn.
  induction (lt_wf n) as [n _ IH]. intros p bags r -> Hp.
  rewrite parse_unfold in Hp. destruct (next_bag p) as [[bag rest]|] eqn:E.
  - pose proof E as (Hpe & _ & Hlt)%next_bag_Some.
    destruct (parse rest) as [bs r'] eqn:E'. injection Hp as <- <-.
    destruct (IH (length rest) Hlt rest bs r' eq_refl E') as [Hr Hr'].
    split; [|done]. rewrite frames_cons, <- app_assoc, <- Hr. done.
  - injection Hp as <- <-. split; [done|]. by rewrite parse_unfold, E.
Qed.

Lemma parse_frames ms r :
  Forall (fun m => blen m < 2 ^ 32) ms ->
  parse (frames ms ++ r) = (ms ++ (parse r).1, (parse r).2).
Proof.
  induction 1 as [|m ms Hm _ IH].
  - unfold frames. simpl. by destruct (parse r).
  - rewrite frames_cons, <- app_assoc, parse_unfold, next_bag_frame by done.
    rewrite IH. done.
Qed.

(** * [BagProcess] refines [parse] *)

Section Refinement.
Context {C : Type} `{!clsEncrypt C}.
Implicit Types d : clsPacketDecrypt C.

(** The stream bytes received and not yet handed out: the length already taken
    off the buffer, put back in front of what the buffer holds. *)
Definition pending d (q : list byte) : list byte :=
  (if _BagFlag d then int_bytes (default 0 (_BagLen d)) else []) ++ q.

(** The decoder's invariant: its buffer is live, of full size and not larger
    than the streams considered, and a taken length is known. *)
Definition dec_inv d (q : list byte) : Prop :=
  rep (_DecryptBuf d) q /\
  (_BagFlag d = true -> exists n, _BagLen d = Some n /\ 0 <= n < 2 ^ 32).

Definition buf_measure d : nat :=
  (2 * Z.to_nat (GetBufLen (_DecryptBuf d)) + (if _BagFlag d then 1 else 0))%nat.

(** The unsigned comparison and the two conversions do what they would on
    unbounded integers, because a buffer is shorter than [2^31] bytes. *)
Lemma rep_blen_int b q : rep b q -> 0 <= blen q <= INT_MAX.
Proof.
  intros Hr. pose proof (rep_len _ _ Hr) as HL. destruct Hr as (m & _ & H1 & H2 & H3 & _).
  unfold GetBufLen in HL. pose proof (blen_nonneg q). lia.
Qed.

Lemma read_bag_rep b q n b' ptr RealLen :
  rep b q -> 0 <= n <= blen q -> GetBufData b n = (b', ptr, RealLen) ->
  read_bag b' ptr RealLen = Ok (take (Z.to_nat n) q) /\ rep b' (drop (Z.to_nat n) q) /\
  GetBufLen b' = blen q - n /\ capacity b' = capacity b /\ _BufSize b' = _BufSize b.
Proof.
  intros Hr Hn Hg. pose proof (GetBufData_rep b q n Hr) as H. rewrite Hg in H.
  destruct H as (HRL & Hd & Hr' & Hc & Hs); [lia|].
  rewrite (rep_len _ _ Hr'), blen_drop by lia. repeat split; try done.
  unfold read_bag. rewrite HRL, Z.min_l in * by lia.
  destruct (n <=? 0) eqn:E; bool_props; [|done]. by replace n with 0 by lia.
Qed.

Lemma BagProcess_refines fuel d q :
  dec_inv d q -> (buf_measure d < fuel)%nat ->
  exists d' q', BagProcess fuel d = Ok (d', (parse (pending d q)).1) /\
    dec_inv d' q' /\ pending d' q' = (parse (pending d q)).2 /\
    capacity (_DecryptBuf d') = capacity (_DecryptBuf d) /\
    _BufSize (_DecryptBuf d') = _BufSize (_DecryptBuf d) /\ _DecryptClass d' = _DecryptClass d.
Proof.
  revert d q. induction fuel as [|fuel IH]; intros d q [Hr Hn] Hf; [lia|].
  pose proof (rep_len _ _ Hr) as HL. pose proof (rep_blen_int _ _ Hr) as Hint.
  unfold buf_measure in Hf. rewrite HL in Hf. unfold INT_MAX in Hint.
  cbn [BagProcess]. destruct (_BagFlag d) eqn:Hflag; cbn [negb].
  - destruct (Hn eq_refl) as (n & Hbl & Hrange). rewrite Hbl, HL. cbn [of_option].
    rewrite bind_Ok, uwrap32_small by lia.
    assert (Hpend : pending d q = int_bytes n ++ q) by (unfold pending; by rewrite Hflag, Hbl).
    assert (Hlen4 : blen (int_bytes n ++ q) = 4 + blen q)
      by (rewrite blen_app; unfold blen at 1; by rewrite length_int_bytes).
    destruct (take_firstn_app_drop 4 (int_bytes n) q (length_int_bytes n)) as [Ht Hd].
    assert (Hnb : next_bag (pending d q) =
      if blen q <? n then None else Some (take (Z.to_nat n) q, drop (Z.to_nat n) q)).
    { unfold next_bag. rewrite Hpend, Hlen4, Ht, Hd, uint_of_int_bytes, uwrap32_small by lia.
      rewrite (proj2 (Z.ltb_ge _ _)) by lia. replace (4 + blen q - 4) with (blen q) by lia. done. }
    rewrite parse_unfold, Hnb. destruct (blen q <? n) eqn:E; bool_props.
    + exists d, q. repeat split; try done. by rewrite Hflag.
    + destruct (GetBufData (_DecryptBuf d) (wrap32 n)) as [[b' ptr] RealLen] eqn:Hg.
      rewrite wrap32_small in Hg by (unfold INT_MIN, INT_MAX; lia).
      destruct (read_bag_rep _ q n _ _ _ Hr ltac:(lia) Hg) as (-> & Hr' & HL' & Hc & Hs).
      rewrite bind_Ok.
      destruct (IH (mkPacketDecrypt b' (Some n) false (_DecryptClass d)) (drop (Z.to_nat n) q))
        as (d' & q' & Hrun & Hinv & Hpe & Hc' & Hs' & Hcl).
      { split; [done|discriminate]. }
      { unfold buf_measure. simpl. rewrite HL'. lia. }
      change (pending (mkPacketDecrypt b' (Some n) false (_DecryptClass d)) (drop (Z.to_nat n) q))
        with (drop (Z.to_nat n) q) in Hrun, Hpe. rewrite Hrun.
      destruct (parse (drop (Z.to_nat n) q)) as [bags r]. exists d', q'.
      simpl in *. repeat split; try done; try apply Hinv; congruence.
  - cbn [GetBufHead]. unfold GetBufHead. rewrite HL.
    assert (Hpend : pending d q = q) by (unfold pending; by rewrite Hflag).
    rewrite Hpend. destruct (blen q <? 4) eqn:E; bool_props.
    + rewrite parse_unfold. unfold next_bag. rewrite (proj2 (Z.ltb_lt _ _)) by lia.
      exists d, q. repeat split; try done. by rewrite Hflag.
    + rewrite (rep_deref _ q 4) by (done || lia). rewrite bind_Ok.
      destruct (GetBufData (_DecryptBuf d) 4) as [[b' ptr] RealLen] eqn:Hg.
      destruct (read_bag_rep _ q 4 _ _ _ Hr ltac:(lia) Hg) as (_ & Hr' & HL' & Hc & Hs).
      assert (Hh : length (take (Z.to_nat 4) q) = 4%nat) by (rewrite length_take; unfold blen in *; lia).
      destruct (IH (mkPacketDecrypt b' (Some (uint_of_bytes (take (Z.to_nat 4) q))) true (_DecryptClass d))
        (drop (Z.to_nat 4) q)) as (d' & q' & Hrun & Hinv & Hpe & Hc' & Hs' & Hcl).
      { split; [done|]. intros _. eexists; split; [done|]. by apply uint_of_bytes_range. }
      { unfold buf_measure. simpl _BagFlag. simpl _DecryptBuf. rewrite HL'. lia. }
      assert (Hp : pending (mkPacketDecrypt b' (Some (uint_of_bytes (take (Z.to_nat 4) q))) true
        (_DecryptClass d)) (drop (Z.to_nat 4) q) = q)
        by (change (int_bytes (uint_of_bytes (take (Z.to_nat 4) q)) ++ drop (Z.to_nat 4) q = q);
            by rewrite int_bytes_uint, take_drop).
      rewrite Hp in Hrun, Hpe.
      exists d', q'. simpl in *. repeat split; try done; try apply Hinv; congruence.
Qed.

(** [DecryptPacket] on bytes its cipher turns into [t]. *)
Lemma DecryptPacket_refines d q Buf t c' :
  dec_inv d q -> exact_size (_DecryptBuf d) -> _BufSize (_DecryptBuf d) = 1024 ->
  blen q + blen t <= 1024 ->
  match _DecryptClass d with
  | Some c => '(c1, o) ← Decrypt c Buf; Ok (Some c1, default [] o)
  | None => Ok (None, Buf)
  end = Ok (c', t) ->
  exists d' q', DecryptPacket true d Buf = Ok (d', (parse (pending d q ++ t)).1) /\
    dec_inv d' q' /\ pending d' q' = (parse (pending d q ++ t)).2 /\
    exact_size (_DecryptBuf d') /\ _BufSize (_DecryptBuf d') = 1024 /\ _DecryptClass d' = c'.
Proof.
  intros [Hr Hn] Hex Hsz Hfit Hdec. unfold DecryptPacket. rewrite Hdec, bind_Ok. cbv iota beta.
  assert (exists b', (if blen t >? 0
      then '(b, _) ← InsertData true (_DecryptBuf d) t (blen t); Ok b else Ok (_DecryptBuf d)) = Ok b' /\
      rep b' (q ++ t) /\ exact_size b' /\ _BufSize b' = 1024) as (b' & -> & Hr' & Hex' & Hsz').
  { destruct (blen t >? 0) eqn:E; bool_props.
    - destruct (InsertData_within (_DecryptBuf d) q t) as (b' & -> & ? & ? & ?); [done|done|lia|lia|].
      exists b'. repeat split; try done. lia.
    - assert (t = []) as -> by (apply blen_nil_inv; pose proof (blen_nonneg t); lia).
      rewrite app_nil_r. eauto. }
  rewrite bind_Ok. cbv zeta.
  destruct (BagProcess_refines (bag_fuel (mkPacketDecrypt b' (_BagLen d) (_BagFlag d) c'))
    (mkPacketDecrypt b' (_BagLen d) (_BagFlag d) c') (q ++ t))
    as (d' & q' & Hrun & Hinv & Hpe & Hc & Hs & Hcl); [done| |].
  { unfold buf_measure, bag_fuel. simpl. destruct (_BagFlag d); lia. }
  exists d', q'. rewrite Hrun.
  assert (pending (mkPacketDecrypt b' (_BagLen d) (_BagFlag d) c') (q ++ t) = pending d q ++ t) as Hp
    by (unfold pending; simpl; by rewrite app_assoc).
  rewrite Hp in *. simpl in *. repeat split; try done; try apply Hinv.
  - unfold exact_size in *. congruence.
  - congruence.
Qed.

End Refinement.

(** * A sender and a receiver joined by a byte stream *)

Section Channel.
Context {C : Type} `{!clsEncrypt C, !CipherLaws C}.

(** The sender's and the receiver's packet objects, the bytes between them, the
    packets given to the sender and the packets the receiver handed out. *)
Record channel := mkChannel {
  ch_enc : C;
  ch_dec : clsPacketDecrypt C;
  ch_wire : list byte;
  ch_sent : list (list byte);
  ch_recv : list (list byte)
}.

Definition channel_new (e d : C) : channel :=
  mkChannel e (PacketDecrypt_new true (Some d)) [] [] [].

(** The receiver's cipher can take a chunk of this size. *)
Definition dec_ready (d : clsPacketDecrypt C) (n : Z) : Prop :=
  match _DecryptClass d with Some c => ready c n = true | None => False end.

(** A step is one [EncryptPacket], whose output joins the stream, or one
    [DecryptPacket] on a chunk of any size taken from the stream's front. *)
Inductive chan_step : channel -> channel -> Prop :=
| step_send r s m e' out :
    EncryptPacket r (mkPacketEncrypt (Some (ch_enc s))) m = Ok (mkPacketEncrypt (Some e'), out) ->
    chan_step s (mkChannel e' (ch_dec s) (ch_wire s ++ out) (ch_sent s ++ [m]) (ch_recv s))
| step_recv s chunk rest d' bags :
    ch_wire s = chunk ++ rest -> dec_ready (ch_dec s) (blen chunk) ->
    GetBufLen (_DecryptBuf (ch_dec s)) + blen chunk <= 1024 ->
    DecryptPacket true (ch_dec s) chunk = Ok (d', bags) ->
    chan_step s (mkChannel (ch_enc s) d' rest (ch_sent s) (ch_recv s ++ bags)).

Inductive reachable (e d : C) : channel -> Prop :=
| reach_init : reachable e d (channel_new e d)
| reach_step s s' : reachable e d s -> chan_step s s' -> reachable e d s'.

(** Everything sent and not handed out is, in order, the receiver's pending
    bytes followed by what the cipher will recover from the stream. *)
Definition chan_inv (s : channel) : Prop :=
  exists c q p und,
    _DecryptClass (ch_dec s) = Some c /\ synced (ch_enc s) c (ch_wire s) p /\
    dec_inv (ch_dec s) q /\ exact_size (_DecryptBuf (ch_dec s)) /\
    _BufSize (_DecryptBuf (ch_dec s)) = 1024 /\
    parse (pending (ch_dec s) q) = ([], pending (ch_dec s) q) /\
    ch_sent s = ch_recv s ++ und /\ pending (ch_dec s) q ++ p = frames und /\
    Forall (fun m => blen m < 2 ^ 32) und.

Lemma chan_inv_init e d : synced e d [] [] -> chan_inv (channel_new e d).
Proof.
  intros Hs. destruct (rep_new 1024) as [Hr Hex]; [unfold INT_MAX; lia|].
  exists d, [], [], []. unfold channel_new, PacketDecrypt_new. simpl.
  repeat split; try done.
Qed.

Lemma EncryptPacket_inv r (e : C) m e' out :
  EncryptPacket r (mkPacketEncrypt (Some e)) m = Ok (mkPacketEncrypt (Some e'), out) ->
  Encrypt r e (frame m) = Ok (e', out) /\ blen m < 2 ^ 32.
Proof.
  unfold EncryptPacket. intros H. apply bind_Ok_inv in H as [n [Hn H]].
  cbn [_EncryptClass] in H. change (int_bytes (blen m) ++ m) with (frame m) in H.
  apply bind_Ok_inv in H as [[e1 o] [He H]]. simplify_eq.
  split; [done|]. unfold chk_int, in_int in Hn. case_match; [|done].
  bool_props. unfold INT_MAX in *. lia.
Qed.

(** What one reception does to the invariant. *)
Lemma recv_inv s chunk rest :
  chan_inv s -> ch_wire s = chunk ++ rest -> dec_ready (ch_dec s) (blen chunk) ->
  GetBufLen (_DecryptBuf (ch_dec s)) + blen chunk <= 1024 ->
  exists d' bags, DecryptPacket true (ch_dec s) chunk = Ok (d', bags) /\
    chan_inv (mkChannel (ch_enc s) d' rest (ch_sent s) (ch_recv s ++ bags)).
Proof.
  intros (c & q & p & und & Hc & Hsy & Hinv & Hex & Hsz & Hpar & Hsent & Hund & Hall) Hw Hrdy Hfit.
  unfold dec_ready in Hrdy. rewrite Hc in Hrdy. rewrite Hw in Hsy.
  destruct (decrypt_synced _ _ _ _ _ Hsy Hrdy) as (c' & p1 & p2 & Hdec & -> & Hle & Hsy').
  destruct (DecryptPacket_refines (ch_dec s) q chunk p1 (Some c')) as
    (d' & q' & Hrun & Hinv' & Hpe & Hex' & Hsz' & Hcl'); [done|done|done| |by rewrite Hc, Hdec|].
  { destruct Hinv as [Hr _]. rewrite (rep_len _ _ Hr) in Hfit. lia. }
  destruct (parse (pending (ch_dec s) q ++ p1)) as [b1 r1] eqn:E1. cbn [fst snd] in *.
  exists d', b1. split; [done|].
  pose proof (parse_frames und [] Hall) as Hpf. rewrite app_nil_r in Hpf.
  rewrite <- Hund, app_assoc, parse_app, E1 in Hpf.
  destruct (parse (r1 ++ p2)) as [b2 r2] eqn:E2. simpl in Hpf. rewrite app_nil_r in Hpf.
  injection Hpf as Hb Hr2. apply parse_rest in E2 as [E2 _]. apply parse_rest in E1 as [_ E1].
  subst und. apply Forall_app in Hall as [_ Hall].
  exists c', q', p2, b2. cbn [ch_dec ch_enc ch_wire ch_sent ch_recv].
  rewrite Hpe, E2, Hr2, app_nil_r. repeat split; try done; try apply Hinv'.
  by rewrite <- app_assoc.
Qed.

Lemma chan_inv_step s s' : chan_inv s -> chan_step s s' -> chan_inv s'.
Proof.
  intros Hi Hst. destruct Hst as [r s m e' out He|s chunk rest d' bags Hw Hrdy Hfit Hd].
  - destruct Hi as (c & q & p & und & Hc & Hsy & Hinv & Hex & Hsz & Hpar & Hsent & Hund & Hall).
    apply EncryptPacket_inv in He as [He Hm].
    pose proof (encrypt_synced r _ _ _ _ (frame m) _ _ Hsy He) as Hsy'.
    exists c, q, (p ++ frame m), (und ++ [m]).
    cbn [ch_dec ch_enc ch_wire ch_sent ch_recv]. repeat split; try done; try apply Hinv.
    + by rewrite Hsent, app_assoc.
    + rewrite frames_app, <- Hund, app_assoc. f_equal. unfold frames. simpl fmap. by rewrite concat_cons, app_nil_r.
    + apply Forall_app. split; [done|by repeat constructor].
  - destruct (recv_inv s chunk rest Hi Hw Hrdy Hfit) as (d1 & b1 & Hd1 & Hi').
    rewrite Hd in Hd1. by injection Hd1 as <- <-.
Qed.

Lemma reachable_inv e d s : synced e d [] [] -> reachable e d s -> chan_inv s.
Proof.
  intros Hs. induction 1 as [|s s' _ IH Hst]; [by apply chan_inv_init|].
  by eapply chan_inv_step.
Qed.

(** Once the stream is drained, everything sent has been handed out. *)
Lemma drained_delivered s : chan_inv s -> ch_wire s = [] -> ch_recv s = ch_sent s.
Proof.
  intros (c & q & p & und & Hc & Hsy & _ & _ & _ & Hpar & Hsent & Hund & Hall) Hw.
  rewrite Hw in Hsy. apply synced_drained in Hsy as ->.
  rewrite app_nil_r in Hund. rewrite Hund in Hpar.
  pose proof (parse_frames und [] Hall) as Hpf. rewrite app_nil_r, Hpar in Hpf.
  injection Hpf as Hu _. rewrite Hsent. destruct und; [|done]. by rewrite app_nil_r.
Qed.

End Channel.
Arguments channel C : clear implicits.

(** * Theorems *)

(** Packets whose frame the cipher can take are sent. *)
Lemma EncryptPacket_total (s : channel SimpleXOR) r m : chan_inv s -> blen m <= INT_MAX - 8 ->
  exists e' out, EncryptPacket r (mkPacketEncrypt (Some (ch_enc s))) m = Ok (mkPacketEncrypt (Some e'), out).
Proof.
  intros (c & q & p & und & _ & Hsy & _) Hm. pose proof (blen_nonneg m).
  destruct (encrypt_total r _ _ _ _ (frame m) Hsy) as (e' & out & He); [rewrite blen_frame; lia|].
  exists e', out. unfold EncryptPacket. rewrite chk_int_ok by (unfold INT_MIN, INT_MAX in *; lia).
  rewrite bind_Ok. cbn [_EncryptClass]. fold (frame m). by rewrite He.
Qed.

(** C2: over an encrypted byte stream the receiver hands out exactly the packets
    sent, in order, none twice and none altered, and once the stream is drained
    it has handed out all of them, for any interleaving of sends and receptions
    and any cut of the stream into chunks, under two conditions: the first chunk
    holds at least the four bytes of the seed, and a chunk and what the receiver
    still keeps of an incomplete packet are together at most the 1024 bytes of
    its buffer. Under these conditions it goes on: every packet of at most
    [INT_MAX - 8] bytes can be sent, and [DecryptPacket] returns for every such
    chunk. Beyond the buffer it can write out of bounds
    ([DecryptPacket_large_packet_overruns]), and a shorter first chunk is lost
    ([SimpleXOR_short_chunk_lost]). *)
Theorem packets_delivered_in_order (s : channel SimpleXOR) :
  reachable SimpleXOR_new SimpleXOR_new s ->
  (exists und, ch_sent s = ch_recv s ++ und) /\
  (ch_wire s = [] -> ch_recv s = ch_sent s) /\
  (forall r m, blen m <= INT_MAX - 8 -> exists e' out,
     EncryptPacket r (mkPacketEncrypt (Some (ch_enc s))) m = Ok (mkPacketEncrypt (Some e'), out) /\
     reachable SimpleXOR_new SimpleXOR_new (mkChannel e' (ch_dec s) (ch_wire s ++ out) (ch_sent s ++ [m]) (ch_recv s))) /\
  (forall chunk rest, ch_wire s = chunk ++ rest -> dec_ready (ch_dec s) (blen chunk) ->
     GetBufLen (_DecryptBuf (ch_dec s)) + blen chunk <= 1024 ->
     exists d' bags, DecryptPacket true (ch_dec s) chunk = Ok (d', bags) /\
       reachable SimpleXOR_new SimpleXOR_new (mkChannel (ch_enc s) d' rest (ch_sent s) (ch_recv s ++ bags))).
Proof.
  intros Hr. pose proof Hr as Hi. apply reachable_inv in Hi; [|by constructor].
  split; [|split; [by apply drained_delivered|split]].
  - destruct Hi as (c & q & p & und & _ & _ & _ & _ & _ & _ & Hsent & _). by exists und.
  - intros r m Hm. destruct (EncryptPacket_total s r m Hi Hm) as (e' & out & He). exists e', out. split; [done|].
    eapply reach_step; [done|]. by econstructor.
  - intros chunk rest Hw Hrdy Hfit. destruct (recv_inv s chunk rest Hi Hw Hrdy Hfit) as (d' & bags & Hd & _).
    exists d', bags. split; [done|]. eapply reach_step; [done|]. by econstructor.
Qed.

(** A packet of two bytes sent and received whole. *)
Definition demo_sent : channel SimpleXOR :=
  match EncryptPacket 7 (mkPacketEncrypt (Some SimpleXOR_new)) (zbytes [1; 2]) with
  | Ok (mkPacketEncrypt (Some e'), out) =>
      mkChannel e' (PacketDecrypt_new true (Some SimpleXOR_new)) out [zbytes [1; 2]] []
  | _ => channel_new SimpleXOR_new SimpleXOR_new
  end.

Definition demo_received : channel SimpleXOR :=
  match DecryptPacket true (ch_dec demo_sent) (ch_wire demo_sent) with
  | Ok (d', bags) => mkChannel (ch_enc demo_sent) d' [] (ch_sent demo_sent) bags
  | _ => demo_sent
  end.

Lemma demo_sent_reachable : reachable SimpleXOR_new SimpleXOR_new demo_sent.
Proof.
  eapply reach_step; [apply reach_init|].
  refine (step_send 7 (channel_new SimpleXOR_new SimpleXOR_new) (zbytes [1; 2])
    (ch_enc demo_sent) (ch_wire demo_sent) _). vm_compute. reflexivity.
Qed.

Lemma demo_received_reachable : reachable SimpleXOR_new SimpleXOR_new demo_received.
Proof.
  eapply reach_step; [apply demo_sent_reachable|].
  refine (step_recv demo_sent (ch_wire demo_sent) [] (ch_dec demo_received) (ch_recv demo_received)
    _ _ _ _); vm_compute; [reflexivity|reflexivity|discriminate|reflexivity].
Qed.

Lemma packets_delivered_in_order_witness :
  ch_recv demo_received = [zbytes [1; 2]] /\ ch_recv demo_received = ch_sent demo_received.
Proof.
  split; [vm_compute; reflexivity|].
  exact (proj1 (proj2 (packets_delivered_in_order demo_received demo_received_reachable))
    ltac:(vm_compute; reflexivity)).
Defined.

(** C29: [BagProcess] is the optimised, incremental form of [parse]: run with
    the fuel the model gives it on any live buffer, it ends, hands out the whole
    packets of the bytes received so far and keeps exactly the incomplete rest. *)
Theorem BagProcess_is_parse {C : Type} (d : clsPacketDecrypt C) (q : list byte) :
  dec_inv d q ->
  exists d' q', BagProcess (bag_fuel d) d = Ok (d', (parse (pending d q)).1) /\
    dec_inv d' q' /\ pending d' q' = (parse (pending d q)).2.
Proof.
  intros Hinv. destruct (BagProcess_refines (bag_fuel d) d q Hinv) as (d' & q' & ? & ? & ? & _).
  - unfold bag_fuel, buf_measure. destruct (_BagFlag d); lia.
  - eauto.
Qed.

Lemma BagProcess_is_parse_witness :
  exists d' q', BagProcess 2 (PacketDecrypt_new true (@None SimpleXOR)) = Ok (d', []) /\
    dec_inv d' q' /\ pending d' q' = [].
Proof.
  refine (BagProcess_is_parse (PacketDecrypt_new true (@None SimpleXOR)) [] _).
  split; [exact (proj1 (rep_new 1024 ltac:(unfold INT_MAX; lia)))|discriminate].
Defined.

(** A sender that frames packets and a receiver that parses the stream
    agree: the concatenated frames of any packets parse to these packets with
    nothing left over, wherever the stream was cut before. *)
Theorem frames_roundtrip (ms : list (list byte)) (cut : nat) :
  Forall (fun m => blen m < 2 ^ 32) ms ->
  let '(first, r) := parse (take cut (frames ms)) in
  let '(second, r') := parse (r ++ drop cut (frames ms)) in
  first ++ second = ms /\ r' = [].
Proof.
  intros Hall. pose proof (parse_frames ms [] Hall) as Hp.
  rewrite app_nil_r, <- (take_drop cut (frames ms)), parse_app in Hp.
  destruct (parse (take cut (frames ms))) as [first r].
  destruct (parse (r ++ drop cut (frames ms))) as [second r']. simpl in Hp.
  rewrite app_nil_r in Hp. by injection Hp as -> ->.
Qed.

Lemma frames_roundtrip_witness :
  let ms := [zbytes [1; 2]; []; zbytes [3]] in
  let '(first, r) := parse (take 7 (frames ms)) in
  let '(second, r') := parse (r ++ drop 7 (frames ms)) in
  first ++ second = ms /\ r' = [].
Proof.
  apply (frames_roundtrip [zbytes [1; 2]; []; zbytes [3]] 7). repeat constructor.
Defined.

(** The receive buffer's growth fault reaches the packet layer: without a
    cipher, a packet larger than the 1024-byte buffer that arrives in two chunks
    makes [DecryptPacket] write outside its buffer on the second chunk. *)
Theorem DecryptPacket_large_packet_overruns :
  let packet := frame (replicate 2000 Byte.x41) in
  let d0 := PacketDecrypt_new true (@None SimpleXOR) in
  exists d1, DecryptPacket true d0 (take 1030 packet) = Ok (d1, []) /\
    DecryptPacket true d1 (take 10 (drop 1030 packet)) = UB OutOfBounds.
Proof.
  cbv zeta.
  exists (match DecryptPacket true (PacketDecrypt_new true (@None SimpleXOR))
                  (take 1030 (frame (replicate 2000 Byte.x41))) with
          | Ok (d, _) => d | UB _ => PacketDecrypt_new true None end).
  split; vm_compute; reflexivity.
Qed.
