(* ===== verification/PacketHeader.v ===== *)
(** The length-prefixed reader [PacketHeaderProcess] (packet/PacketProcess.cpp).
    [ReadOnceData] copies header bytes to [&_Header + (4 - _NeedBufLen)], an
    address computed in units of [int], so the object's memory is modelled byte
    by byte. *)
From S2P Require Import Prelude MyBuf.

(** * State *)

Definition HEADER : Z := 1.
Definition BODY : Z := 2.
Definition PACKET_MAX_LEN : Z := 4096.

(** The object: four [int] members at offsets 0, 4, 8 and 12, then the eight
    bytes of the pointer [_VfdBuf]; beside it, the [MyBuf] that pointer was made
    to point to and its address. *)
Record PacketHeaderProcess := mkPHP {
  obj : list cell;
  vfdbuf_addr : Z;
  VfdBuf : MyBuf
}.

Definition off_status : Z := 0.
Definition off_NeedBufLen : Z := 4.
Definition off_Header : Z := 8.
Definition off_ProcessVfd : Z := 12.
Definition off_VfdBuf : Z := 16.

Definition get_int (m : list cell) (off : Z) : cres Z :=
  bs ← load m off 4; Ok (int_of_bytes bs).
Definition put_int (m : list cell) (off v : Z) : cres (list cell) :=
  write_cells m off (Some <$> int_bytes v).

(** The object [_VfdBuf] points to, if its bytes are still the address. *)
Definition vfdbuf (p : PacketHeaderProcess) : cres MyBuf :=
  bs ← load (obj p) off_VfdBuf 8;
  if decide (bs = le_split 8 (vfdbuf_addr p)) then Ok (VfdBuf p) else UB WildPointer.

(** * Operations *)

(** The constructor: [_Header] is not set. *)
Definition PHP_new (ok : bool) (addr : Z) : cres PacketHeaderProcess :=
  let m := replicate 24 None in
  m ← put_int m off_status HEADER;
  m ← put_int m off_NeedBufLen 4;
  m ← put_int m off_ProcessVfd (-1);
  m ← write_cells m off_VfdBuf (Some <$> le_split 8 addr);
  Ok (mkPHP m addr (MyBuf_new ok PACKET_MAX_LEN)).

(** [int ReadOnceData(int Vfd, char* Buf, int BufLen)]: the object afterwards,
    the bytes used, and the packet [(Data, TotalLen)] when one is complete. *)
Definition ReadOnceData (ok : bool) (p : PacketHeaderProcess) (Vfd : Z) (Buf : list byte)
  : cres (PacketHeaderProcess * Z * option (list byte)) :=
  let BufLen := blen Buf in
  status ← get_int (obj p) off_status;
  NeedBufLen ← get_int (obj p) off_NeedBufLen;
  let ProcessDataLen := if BufLen >? NeedBufLen then NeedBufLen else BufLen in
  if status =? HEADER then
    m ← put_int (obj p) off_ProcessVfd Vfd;
    src ← read_cells Buf 0 ProcessDataLen;
    m ← write_cells m (off_Header + 4 * (4 - NeedBufLen)) (Some <$> src);
    if NeedBufLen <=? BufLen then
      m ← put_int m off_status BODY;
      Header ← get_int m off_Header;
      m ← put_int m off_NeedBufLen Header;
      Ok (mkPHP m (vfdbuf_addr p) (VfdBuf p), ProcessDataLen, None)
    else
      m ← put_int m off_NeedBufLen (NeedBufLen - BufLen);
      Ok (mkPHP m (vfdbuf_addr p) (VfdBuf p), ProcessDataLen, None)
  else
    ProcessVfd ← get_int (obj p) off_ProcessVfd;
    _ ← require (Vfd =? ProcessVfd) AssertFailed;
    b ← vfdbuf p;
    '(b', RealLen) ← InsertData ok b Buf ProcessDataLen;
    _ ← require (RealLen =? ProcessDataLen) AssertFailed;
    if NeedBufLen <=? BufLen then
      let '(Data, TotalLen) := GetBufHead b' in
      packet ← deref b' Data TotalLen;
      m ← put_int (obj p) off_status HEADER;
      m ← put_int m off_NeedBufLen 4;
      m ← put_int m off_ProcessVfd (-1);
      Ok (mkPHP m (vfdbuf_addr p) b', ProcessDataLen, Some packet)
    else
      m ← put_int (obj p) off_NeedBufLen (NeedBufLen - BufLen);
      Ok (mkPHP m (vfdbuf_addr p) b', ProcessDataLen, None).

(** [void ReadData(int Vfd, char* Buf, int BufLen)]: the packets completed. *)
Fixpoint ReadData_loop (fuel : nat) (ok : bool) (p : PacketHeaderProcess) (Vfd : Z) (TmpBuf : list byte)
  : cres (PacketHeaderProcess * list (list byte)) :=
  match TmpBuf with
  | [] => Ok (p, [])
  | _ :: _ =>
      match fuel with
      | O => UB Diverges
      | S fuel =>
          '(p', RetLen, packet) ← ReadOnceData ok p Vfd TmpBuf;
          '(p'', packets) ← ReadData_loop fuel ok p' Vfd (drop (Z.to_nat RetLen) TmpBuf);
          Ok (p'', option_list packet ++ packets)
      end
  end.

(** A round uses no byte only when it completes an empty packet. *)
Definition ReadData (ok : bool) (p : PacketHeaderProcess) (Vfd : Z) (Buf : list byte)
  : cres (PacketHeaderProcess * list (list byte)) :=
  ReadData_loop (2 * length Buf + 1) ok p Vfd Buf.

(** [char* WriteData(int Vfd, char* Buf, int BufLen)], with a [malloc] that
    succeeds: the block it returns. *)
Definition WriteData (Buf : list byte) : cres (list cell) :=
  NewBufLen ← chk_int (blen Buf + 4);
  let SendData := replicate (Z.to_nat NewBufLen) None in
  SendData ← write_cells SendData 0 (Some <$> int_bytes (blen Buf));
  write_cells SendData 4 (Some <$> Buf).

(** * The object's layout *)

Definition layout (status need : Z) (hdr : list cell) (vfd addr : Z) : list cell :=
  (Some <$> int_bytes status) ++ (Some <$> int_bytes need) ++ hdr ++
  (Some <$> int_bytes vfd) ++ (Some <$> le_split 8 addr).

Lemma blen_int_cells z : blen (Some <$> int_bytes z) = 4.
Proof. rewrite blen_fmap. unfold blen. by rewrite length_int_bytes. Qed.

Lemma length_int_cells z : length (Some <$> int_bytes z) = 4%nat.
Proof. by rewrite length_fmap, length_int_bytes. Qed.

Lemma get_int_mid (a : list cell) v c off :
  blen a = off -> INT_MIN <= v <= INT_MAX ->
  get_int (a ++ (Some <$> int_bytes v) ++ c) off = Ok v.
Proof.
  intros <- Hv. unfold get_int.
  replace 4 with (blen (int_bytes v)) by (unfold blen; by rewrite length_int_bytes).
  rewrite load_mid, bind_Ok, int_of_int_bytes by done. done.
Qed.

Lemma put_int_mid (a b c : list cell) v off :
  blen a = off -> length b = 4%nat ->
  put_int (a ++ b ++ c) off v = Ok (a ++ (Some <$> int_bytes v) ++ c).
Proof. intros <- Hb. apply write_cells_mid. by rewrite length_int_cells. Qed.

Section Layout.
Variables (status need vfd addr : Z) (hdr : list cell).
Hypothesis Hhdr : length hdr = 4%nat.

Lemma get_status : INT_MIN <= status <= INT_MAX ->
  get_int (layout status need hdr vfd addr) off_status = Ok status.
Proof. intros H. by apply (get_int_mid []). Qed.

Lemma get_NeedBufLen : INT_MIN <= need <= INT_MAX ->
  get_int (layout status need hdr vfd addr) off_NeedBufLen = Ok need.
Proof. intros H. apply get_int_mid; [apply blen_int_cells|done]. Qed.

Lemma get_ProcessVfd : INT_MIN <= vfd <= INT_MAX ->
  get_int (layout status need hdr vfd addr) off_ProcessVfd = Ok vfd.
Proof.
  intros H. unfold layout. rewrite (app_assoc (Some <$> int_bytes need)), (app_assoc (Some <$> int_bytes status)).
  apply get_int_mid; [|done]. rewrite !blen_app, !blen_int_cells. unfold blen. by rewrite Hhdr.
Qed.

Lemma put_status v :
  put_int (layout status need hdr vfd addr) off_status v = Ok (layout v need hdr vfd addr).
Proof. apply (put_int_mid []); [done|apply length_int_cells]. Qed.

Lemma put_NeedBufLen v :
  put_int (layout status need hdr vfd addr) off_NeedBufLen v = Ok (layout status v hdr vfd addr).
Proof. apply put_int_mid; [apply blen_int_cells|apply length_int_cells]. Qed.

Lemma put_ProcessVfd v :
  put_int (layout status need hdr vfd addr) off_ProcessVfd v = Ok (layout status need hdr v addr).
Proof.
  unfold layout. rewrite !(app_assoc (Some <$> int_bytes need)), !(app_assoc (Some <$> int_bytes status)).
  apply put_int_mid; [|apply length_int_cells].
  rewrite !blen_app, !blen_int_cells. unfold blen. by rewrite Hhdr.
Qed.

Lemma put_Header bs :
  length bs = 4%nat ->
  write_cells (layout status need hdr vfd addr) off_Header bs = Ok (layout status need bs vfd addr).
Proof.
  intros Hb. unfold layout. rewrite !(app_assoc (Some <$> int_bytes status)).
  replace off_Header with (blen ((Some <$> int_bytes status) ++ (Some <$> int_bytes need)))
    by (by rewrite blen_app, !blen_int_cells).
  apply write_cells_mid. congruence.
Qed.

Lemma get_Header v :
  INT_MIN <= v <= INT_MAX -> hdr = Some <$> int_bytes v ->
  get_int (layout status need hdr vfd addr) off_Header = Ok v.
Proof.
  intros Hv ->. unfold layout. rewrite (app_assoc (Some <$> int_bytes status)).
  apply get_int_mid; [|done]. by rewrite blen_app, !blen_int_cells.
Qed.

Lemma load_VfdBuf : load (layout status need hdr vfd addr) off_VfdBuf 8 = Ok (le_split 8 addr).
Proof.
  unfold layout. rewrite 3!app_assoc.
  rewrite <- (app_nil_r (Some <$> le_split 8 addr)).
  replace off_VfdBuf with (blen ((((Some <$> int_bytes status) ++ (Some <$> int_bytes need)) ++ hdr) ++ (Some <$> int_bytes vfd)))
    by (rewrite !blen_app, !blen_int_cells; unfold blen; by rewrite Hhdr).
  replace 8 with (blen (le_split 8 addr)) at 2 by (unfold blen; by rewrite length_le_split).
  apply load_mid.
Qed.

End Layout.

(** * What a round of [ReadOnceData] does *)

(** The object between two packets, and inside a packet of which [need] bytes
    are missing; [q] is what its buffer holds. *)
Definition at_header (p : PacketHeaderProcess) (q : list byte) : Prop :=
  exists hdr vfd, length hdr = 4%nat /\ obj p = layout HEADER 4 hdr vfd (vfdbuf_addr p) /\
    rep (VfdBuf p) q /\ exact_size (VfdBuf p) /\ _BufSize (VfdBuf p) = PACKET_MAX_LEN.

Definition in_body (p : PacketHeaderProcess) (q : list byte) (Vfd need : Z) : Prop :=
  exists hdr, length hdr = 4%nat /\ obj p = layout BODY need hdr Vfd (vfdbuf_addr p) /\
    rep (VfdBuf p) q /\ exact_size (VfdBuf p) /\ _BufSize (VfdBuf p) = PACKET_MAX_LEN.

Lemma read_header p q Vfd n rest :
  at_header p q -> 0 <= n <= INT_MAX ->
  exists p', ReadOnceData true p Vfd (int_bytes n ++ rest) = Ok (p', 4, None) /\ in_body p' q Vfd n.
Proof.
  intros (hdr & vfd & Hh & Ho & Hr & Hex & Hsz) Hn. unfold ReadOnceData. rewrite Ho.
  rewrite get_status by (unfold HEADER, INT_MIN, INT_MAX; lia).
  rewrite bind_Ok, get_NeedBufLen, bind_Ok by (unfold INT_MIN, INT_MAX; lia).
  assert (Hlen : blen (int_bytes n ++ rest) = 4 + blen rest)
    by (rewrite blen_app; unfold blen at 1; by rewrite length_int_bytes).
  pose proof (blen_nonneg rest). cbv zeta. rewrite Hlen.
  assert ((if 4 + blen rest >? 4 then 4 else 4 + blen rest) = 4) as -> by (case_match; bool_props; lia).
  rewrite Z.eqb_refl, put_ProcessVfd, bind_Ok by done.
  assert (read_cells (int_bytes n ++ rest) 0 4 = Ok (int_bytes n)) as ->.
  { rewrite <- (read_cells_mid [] (int_bytes n) rest). unfold blen at 2. by rewrite length_int_bytes. }
  rewrite bind_Ok.
  change (off_Header + 4 * (4 - 4)) with off_Header.
  rewrite put_Header, bind_Ok by (try done; apply length_int_cells).
  rewrite (proj2 (Z.leb_le _ _)) by lia.
  rewrite put_status, bind_Ok by apply length_int_cells.
  rewrite (get_Header _ _ _ _ _ (length_int_cells n) n), bind_Ok by (try done; unfold INT_MIN; lia).
  rewrite put_NeedBufLen, bind_Ok by apply length_int_cells.
  eexists; split; [done|]. eexists; split; [|by repeat split]. apply length_int_cells.
Qed.

Lemma read_body p q Vfd need Buf :
  in_body p q Vfd need -> 0 <= need -> INT_MIN <= Vfd <= INT_MAX ->
  blen q + need <= PACKET_MAX_LEN ->
  let used := Z.min need (blen Buf) in
  exists p' out, ReadOnceData true p Vfd Buf = Ok (p', used, out) /\
    let q' := q ++ take (Z.to_nat used) Buf in
    if need <=? blen Buf
    then out = Some q' /\ at_header p' q'
    else out = None /\ in_body p' q' Vfd (need - blen Buf).
Proof.
  intros (hdr & Hh & Ho & Hr & Hex & Hsz) Hneed HV Hfit. cbv zeta. unfold ReadOnceData.
  pose proof (blen_nonneg q). pose proof (blen_nonneg Buf). unfold PACKET_MAX_LEN in *.
  rewrite Ho. rewrite get_status by (unfold BODY, INT_MIN, INT_MAX; lia).
  rewrite bind_Ok, get_NeedBufLen, bind_Ok by (unfold INT_MIN, INT_MAX; lia). cbv zeta.
  assert ((if blen Buf >? need then need else blen Buf) = Z.min need (blen Buf)) as ->
    by (case_match; bool_props; lia).
  set (used := Z.min need (blen Buf)).
  change (BODY =? HEADER) with false. cbv iota.
  rewrite get_ProcessVfd, bind_Ok, Z.eqb_refl by done.
  unfold vfdbuf. rewrite Ho, load_VfdBuf by done. rewrite !bind_Ok, decide_True, bind_Ok by done.
  assert (Hb : blen (take (Z.to_nat used) Buf) = used) by (apply blen_take; lia).
  destruct (InsertData_within (VfdBuf p) q (take (Z.to_nat used) Buf))
    as (b' & Hi & Hr' & Hex' & Hsz'); [done|done|lia|lia|].
  rewrite (InsertData_prefix true _ Buf used) by lia. rewrite Hb in Hi.
  rewrite Hi, bind_Ok, Z.eqb_refl. cbn [require]. rewrite bind_Ok.
  destruct (need <=? blen Buf) eqn:E; bool_props.
  - unfold GetBufHead. rewrite (rep_deref b' _ _ Hr') by (rewrite (rep_len _ _ Hr'); auto with cmodel lia).
    rewrite bind_Ok, (rep_len _ _ Hr'). unfold blen at 1. rewrite Nat2Z.id, firstn_all.
    rewrite put_status, !bind_Ok, put_NeedBufLen, !bind_Ok, put_ProcessVfd, !bind_Ok by done.
    do 2 eexists; split; [done|]. split; [done|].
    exists hdr, (-1). repeat split; try done. simpl. by rewrite Hsz'.
  - rewrite put_NeedBufLen, bind_Ok by done.
    do 2 eexists; split; [done|]. split; [done|].
    exists hdr. repeat split; try done. simpl. by rewrite Hsz'.
Qed.

(** * Runs of [ReadData] *)

(** What the object hands out for packets received one after the other: its
    buffer is never emptied, so each packet comes with all earlier ones in front. *)
Fixpoint accumulated (q : list byte) (ms : list (list byte)) : list (list byte) :=
  match ms with
  | [] => []
  | m :: ms => (q ++ m) :: accumulated (q ++ m) ms
  end.

Definition wire (m : list byte) : list byte := int_bytes (blen m) ++ m.

Lemma PHP_new_at_header addr :
  exists p, PHP_new true addr = Ok p /\ at_header p [].
Proof.
  destruct (rep_new PACKET_MAX_LEN) as [Hr Hex]; [unfold PACKET_MAX_LEN, INT_MAX; lia|].
  exists (mkPHP (layout HEADER 4 (replicate 4 None) (-1) addr) addr (MyBuf_new true PACKET_MAX_LEN)).
  split; [reflexivity|]. exists (replicate 4 None), (-1). by repeat split.
Qed.

Lemma ReadData_loop_step fuel p Vfd Buf :
  Buf ≠ [] ->
  ReadData_loop (S fuel) true p Vfd Buf =
  ('(p', RetLen, packet) ← ReadOnceData true p Vfd Buf;
   '(p'', packets) ← ReadData_loop fuel true p' Vfd (drop (Z.to_nat RetLen) Buf);
   Ok (p'', option_list packet ++ packets)).
Proof. by destruct Buf. Qed.

(** A whole packet at the front of the input takes two rounds. *)
Lemma ReadData_packet fuel p q Vfd m rest :
  at_header p q -> INT_MIN <= Vfd <= INT_MAX -> m ≠ [] ->
  blen q + blen m <= PACKET_MAX_LEN ->
  exists p', at_header p' (q ++ m) /\
    ReadData_loop (S (S fuel)) true p Vfd (wire m ++ rest) =
    ('(p'', packets) ← ReadData_loop fuel true p' Vfd rest; Ok (p'', (q ++ m) :: packets)).
Proof.
  intros Hh HV Hm Hfit. pose proof (blen_nonneg q). pose proof (blen_nonneg rest).
  destruct (read_header p q Vfd (blen m) (m ++ rest) Hh) as (p1 & H1 & Hb1).
  { unfold PACKET_MAX_LEN, INT_MAX in *. pose proof (blen_nonneg m). lia. }
  destruct (read_body p1 q Vfd (blen m) (m ++ rest) Hb1) as (p2 & out & H2 & Hout); [auto with cmodel|done|done|].
  rewrite blen_app, Z.min_l, (proj2 (Z.leb_le _ _)) in * by lia.
  rewrite take_blen_app in Hout. destruct Hout as [-> Hh2].
  exists p2. split; [done|]. unfold wire. rewrite <- app_assoc.
  rewrite ReadData_loop_step by (intros [Hnil _]%app_eq_nil; apply (f_equal length) in Hnil; by rewrite length_int_bytes in Hnil).
  rewrite H1, bind_Ok. change (Z.to_nat 4) with 4%nat.
  rewrite drop_app_length' by (by rewrite length_int_bytes).
  rewrite ReadData_loop_step by (by destruct m).
  rewrite H2, bind_Ok, drop_blen_app.
  destruct (ReadData_loop fuel true p2 Vfd rest) as [[p'' ps]|]; done.
Qed.

Lemma ReadData_packets ms : forall fuel p q Vfd,
  at_header p q -> INT_MIN <= Vfd <= INT_MAX -> Forall (fun m => m ≠ []) ms ->
  blen q + blen (concat ms) <= PACKET_MAX_LEN -> (2 * length ms <= fuel)%nat ->
  exists p', ReadData_loop fuel true p Vfd (concat (wire <$> ms)) = Ok (p', accumulated q ms) /\
    at_header p' (q ++ concat ms).
Proof.
  induction ms as [|m ms IH]; intros fuel p q Vfd Hh HV Hall Hfit Hf.
  - exists p. rewrite app_nil_r. split; [|done]. by destruct fuel.
  - apply Forall_cons in Hall as [Hm Hall]. rewrite concat_cons, blen_app in Hfit.
    simpl length in Hf. destruct fuel as [|[|fuel]]; [lia|lia|].
    pose proof (blen_nonneg (concat ms)).
    destruct (ReadData_packet fuel p q Vfd m (concat (wire <$> ms))) as (p1 & Hh1 & Hrun); [done|done|done|lia|].
    destruct (IH fuel p1 (q ++ m) Vfd) as (p' & Hrest & Hh'); [done|done|done|rewrite blen_app; lia|lia|].
    exists p'. rewrite concat_cons, app_assoc. split; [|done].
    change (concat (wire <$> m :: ms)) with (wire m ++ concat (wire <$> ms)). by rewrite Hrun, Hrest.
Qed.

(** The chunks of a stream read one after the other. *)
Fixpoint ReadChunks (p : PacketHeaderProcess) (Vfd : Z) (chunks : list (list byte))
  : cres (PacketHeaderProcess * list (list byte)) :=
  match chunks with
  | [] => Ok (p, [])
  | c :: chunks =>
      '(p', ps) ← ReadData true p Vfd c;
      '(p'', ps') ← ReadChunks p' Vfd chunks;
      Ok (p'', ps ++ ps')
  end.

Lemma ReadChunks_cons p Vfd c chunks :
  ReadChunks p Vfd (c :: chunks) =
  ('(p', ps) ← ReadData true p Vfd c; '(p'', ps') ← ReadChunks p' Vfd chunks; Ok (p'', ps ++ ps')).
Proof. done. Qed.

Lemma ReadData_nil p Vfd : ReadData true p Vfd [] = Ok (p, []).
Proof. done. Qed.

Lemma ReadChunks_empty p Vfd chunks : concat chunks = [] -> ReadChunks p Vfd chunks = Ok (p, []).
Proof.
  induction chunks as [|c chunks IH]; [done|]. rewrite concat_cons. intros [-> Hc]%app_eq_nil.
  rewrite ReadChunks_cons, ReadData_nil, bind_Ok, (IH Hc). done.
Qed.

(** A chunk that brings no more than the body's missing bytes. *)
Lemma ReadData_body_chunk fuel p q Vfd need c :
  in_body p q Vfd need -> 0 < need -> INT_MIN <= Vfd <= INT_MAX ->
  blen q + need <= PACKET_MAX_LEN -> c ≠ [] -> blen c <= need ->
  exists p', ReadData_loop (S fuel) true p Vfd c =
      Ok (p', if need <=? blen c then [q ++ c] else []) /\
    if need <=? blen c then at_header p' (q ++ c) else in_body p' (q ++ c) Vfd (need - blen c).
Proof.
  intros Hb Hneed HV Hfit Hc Hle.
  destruct (read_body p q Vfd need c Hb) as (p' & out & Hr & Hout); [lia|done|done|].
  rewrite Z.min_r in * by lia.
  pose proof (take_blen_app c []) as Ht. rewrite app_nil_r in Ht. rewrite Ht in Hout.
  rewrite ReadData_loop_step, Hr, bind_Ok by done.
  pose proof (drop_blen_app c []) as Hd. rewrite app_nil_r in Hd. rewrite Hd.
  exists p'. destruct (need <=? blen c); destruct Hout as [-> Hst]; (split; [|done]); by destruct fuel.
Qed.

Lemma ReadChunks_body chunks : forall p q Vfd need,
  in_body p q Vfd need -> 0 < need -> INT_MIN <= Vfd <= INT_MAX ->
  blen q + need <= PACKET_MAX_LEN -> blen (concat chunks) = need ->
  exists p', ReadChunks p Vfd chunks = Ok (p', [q ++ concat chunks]).
Proof.
  induction chunks as [|c chunks IH]; intros p q Vfd need Hb Hneed HV Hfit Hlen.
  - change (blen (concat [])) with 0 in Hlen. lia.
  - rewrite concat_cons in *. rewrite blen_app in Hlen. pose proof (blen_nonneg (concat chunks)).
    rewrite ReadChunks_cons. destruct (decide (c = [])) as [->|Hc].
    + rewrite ReadData_nil, bind_Ok, blen_nil in *.
      destruct (IH p q Vfd need) as (p' & ->); try done; try lia. eauto.
    + unfold ReadData. rewrite Nat.add_1_r.
      destruct (ReadData_body_chunk (2 * length c) p q Vfd need c) as (p1 & -> & Hst); try done; [lia|].
      rewrite bind_Ok. destruct (need <=? blen c) eqn:E; bool_props.
      * assert (Hnil : concat chunks = []) by (apply blen_nil_inv; lia).
        rewrite (ReadChunks_empty _ _ _ Hnil), Hnil, app_nil_r. eauto.
      * assert (0 < blen c).
        { destruct c; [done|]. rewrite blen_cons. pose proof (blen_nonneg c). lia. }
        destruct (IH p1 (q ++ c) Vfd (need - blen c)) as (p' & ->); try done; try lia.
        { rewrite blen_app. lia. }
        rewrite app_assoc. eauto.
Qed.

(** * Theorems *)

(** [WriteData] lays a packet out as its length and its bytes, and a fresh
    [PacketHeaderProcess] recovers the packet from them when the first chunk
    brings the whole header, however the body is cut into further chunks. *)
Theorem PacketHeader_first_packet (addr Vfd : Z) (m body : list byte) (chunks : list (list byte)) :
  INT_MIN <= Vfd <= INT_MAX -> m ≠ [] -> blen m <= PACKET_MAX_LEN ->
  body ++ concat chunks = m -> body ≠ [] ->
  WriteData m = Ok (Some <$> wire m) /\
  exists p p', PHP_new true addr = Ok p /\
    ReadChunks p Vfd ((int_bytes (blen m) ++ body) :: chunks) = Ok (p', [m]).
Proof.
  intros HV Hm Hlen Hbody Hne. pose proof (blen_nonneg m). unfold PACKET_MAX_LEN in Hlen. split.
  { unfold WriteData. rewrite chk_int_ok by (unfold INT_MIN, INT_MAX; lia). rewrite bind_Ok. cbv zeta.
    replace (Z.to_nat (blen m + 4)) with (4 + length m)%nat by (unfold blen; lia).
    rewrite replicate_add, write_cells_front, bind_Ok by (by rewrite length_int_cells).
    rewrite <- (app_nil_r (replicate (length m) None)).
    rewrite <- (blen_int_cells (blen m)), write_cells_mid
      by (by rewrite length_fmap, length_replicate). unfold wire. by rewrite fmap_app, app_nil_r. }
  destruct (PHP_new_at_header addr) as (p & Hp & Hh). exists p.
  destruct (read_header p [] Vfd (blen m) body Hh) as (p1 & H1 & Hb1); [unfold INT_MAX; lia|].
  assert (Hc : exists fuel, (2 * length (int_bytes (blen m) ++ body) + 1)%nat = S (S (S fuel))).
  { rewrite length_app, length_int_bytes. eexists (2 * (2 + length body) + 2)%nat. lia. }
  destruct Hc as [fuel Hfuel]. rewrite ReadChunks_cons. unfold ReadData at 1. rewrite Hfuel.
  rewrite ReadData_loop_step by (intros [Hnil _]%app_eq_nil; apply (f_equal length) in Hnil; by rewrite length_int_bytes in Hnil).
  rewrite H1, bind_Ok. change (Z.to_nat 4) with 4%nat. rewrite drop_app_length' by (by rewrite length_int_bytes).
  assert (Hbl : blen body + blen (concat chunks) = blen m) by (rewrite <- blen_app, Hbody; done).
  pose proof (blen_nonneg (concat chunks)). assert (0 < blen body).
  { destruct body; [done|]. rewrite blen_cons. pose proof (blen_nonneg body). lia. }
  destruct (ReadData_body_chunk (S fuel) p1 [] Vfd (blen m) body) as (p2 & -> & Hst); try done; try lia.
  rewrite !bind_Ok. destruct (blen m <=? blen body) eqn:E; bool_props.
  - assert (Hnil : concat chunks = []) by (apply blen_nil_inv; lia).
    rewrite (ReadChunks_empty _ _ _ Hnil), <- Hbody, Hnil, app_nil_r. eauto.
  - destruct (ReadChunks_body chunks p2 ([] ++ body) Vfd (blen m - blen body)) as (p' & ->); try done; try lia.
    { unfold PACKET_MAX_LEN. rewrite blen_app, blen_nil. lia. }
    rewrite <- Hbody. simpl. eauto.
Qed.

Lemma PacketHeader_first_packet_witness :
  WriteData (zbytes [72; 105]) = Ok (Some <$> wire (zbytes [72; 105])) /\
  exists p p', PHP_new true 4096 = Ok p /\
    ReadChunks p 5 [int_bytes 2 ++ zbytes [72]; []; zbytes [105]] = Ok (p', [zbytes [72; 105]]).
Proof.
  apply (PacketHeader_first_packet 4096 5 (zbytes [72; 105]) (zbytes [72]) [[]; zbytes [105]]);
    try discriminate; [unfold INT_MIN, INT_MAX; lia|reflexivity].
Defined.

(** The buffer is read with [GetBufHead] and never emptied, so the second
    and later packets are handed out with all earlier packets in front of them. *)
Theorem PacketHeader_packets_accumulate (addr Vfd : Z) (ms : list (list byte)) :
  INT_MIN <= Vfd <= INT_MAX -> Forall (fun m => m ≠ []) ms ->
  blen (concat ms) <= PACKET_MAX_LEN ->
  exists p p', PHP_new true addr = Ok p /\
    ReadData true p Vfd (concat (wire <$> ms)) = Ok (p', accumulated [] ms).
Proof.
  intros HV Hall Hlen. destruct (PHP_new_at_header addr) as (p & Hp & Hh). exists p.
  destruct (ReadData_packets ms (2 * length (concat (wire <$> ms)) + 1) p [] Vfd)
    as (p' & Hrun & _); try done; [|eauto].
  enough (length ms <= length (concat (wire <$> ms)))%nat by lia.
  clear. induction ms as [|m ms IH]; [done|].
  change (concat (wire <$> m :: ms)) with (wire m ++ concat (wire <$> ms)).
  unfold wire at 1. rewrite !length_app, length_int_bytes. simpl length. lia.
Qed.

Lemma PacketHeader_packets_accumulate_witness :
  exists p p', PHP_new true 4096 = Ok p /\
    ReadData true p 5 (concat (wire <$> [zbytes [1]; zbytes [2]])) = Ok (p', [zbytes [1]; zbytes [1; 2]]).
Proof.
  apply (PacketHeader_packets_accumulate 4096 5 [zbytes [1]; zbytes [2]]);
    [unfold INT_MIN, INT_MAX; lia|repeat constructor; discriminate|vm_compute; discriminate].
Defined.

(** A header that arrives in two pieces is not put together: the second
    piece is copied to [&_Header + k] in units of [int], over the members behind
    [_Header], and the length is then read from bytes that were never written. *)
Theorem PacketHeader_split_header (addr Vfd : Z) (k : nat) (h : list byte) :
  length h = 4%nat -> (0 < k < 4)%nat -> INT_MIN <= Vfd <= INT_MAX ->
  exists p p1, PHP_new true addr = Ok p /\
    ReadData true p Vfd (take k h) = Ok (p1, []) /\
    ReadData true p1 Vfd (drop k h) = UB Uninitialised.
Proof.
  intros Hh Hk HV. destruct h as [|h0 [|h1 [|h2 [|h3 [|]]]]]; try done.
  assert (k = 1 \/ k = 2 \/ k = 3)%nat as [->| [->| ->]] by lia;
    (eexists _, _; split; [reflexivity|]; split; [reflexivity|reflexivity]).
Qed.

Lemma PacketHeader_split_header_witness :
  exists p p1, PHP_new true 4096 = Ok p /\
    ReadData true p 5 (take 1 (int_bytes 300)) = Ok (p1, []) /\
    ReadData true p1 5 (drop 1 (int_bytes 300)) = UB Uninitialised.
Proof.
  apply (PacketHeader_split_header 4096 5 1 (int_bytes 300));
    [reflexivity|lia|unfold INT_MIN, INT_MAX; lia].
Defined.
