(* ===== verification/LuaApi.v ===== *)
(** The part of the Lua 5.1.4 C API that the protocol layer uses
    (protocol/3rd/lua-5.1.4/src/lapi.c and lauxlib.c): values, the stack of the
    running C function, tables in a heap, the registry and its references.
    Tables are modelled by their contents in traversal order; metatables are not
    modelled, so table access is raw access. *)
From S2P Require Import Prelude.

(** * Values *)

(** A [lua_Number], a C [double]: an integer, a number [(2m+1)/2^e] with a
    fractional part, an infinity, or not a number. The two zeros are one. *)
Inductive lua_Number : Type :=
| NInt (z : Z)
| NFrac (m : Z) (e : positive)
| NInf (negative : bool)
| NNaN.

#[export] Instance lua_Number_eq_dec : EqDecision lua_Number.
Proof. solve_decision. Defined.

(** Truncation towards zero; [None] for what has no integral part. *)
Definition trunc (n : lua_Number) : option Z :=
  match n with
  | NInt z => Some z
  | NFrac m e => Some (Z.quot (2 * m + 1) (2 ^ Zpos e))
  | NInf _ | NNaN => None
  end.

(** [lua_number2int(i,d)]: [(i)=(int)(d)]. *)
Definition lua_number2int (n : lua_Number) : cres Z :=
  match trunc n with
  | Some z => if in_int z then Ok z else UB BadCast
  | None => UB BadCast
  end.

(** Tables are locations in the heap; functions are the script's closures or
    the closure of [net_protocol::pack] with its light userdata upvalue. *)
Inductive lua_value : Type :=
| LNil
| LBool (b : bool)
| LLight (p : Z)
| LNumber (n : lua_Number)
| LString (s : list byte)
| LTable (l : positive)
| LFunction (id : Z)
| LPackClosure (self : Z).

#[export] Instance lua_value_eq_dec : EqDecision lua_value.
Proof. solve_decision. Defined.

Definition LUA_TNONE : Z := -1.
Definition LUA_TNIL : Z := 0.
Definition LUA_TBOOLEAN : Z := 1.
Definition LUA_TLIGHTUSERDATA : Z := 2.
Definition LUA_TNUMBER : Z := 3.
Definition LUA_TSTRING : Z := 4.
Definition LUA_TTABLE : Z := 5.
Definition LUA_TFUNCTION : Z := 6.

Definition ttype (v : lua_value) : Z :=
  match v with
  | LNil => LUA_TNIL
  | LBool _ => LUA_TBOOLEAN
  | LLight _ => LUA_TLIGHTUSERDATA
  | LNumber _ => LUA_TNUMBER
  | LString _ => LUA_TSTRING
  | LTable _ => LUA_TTABLE
  | LFunction _ | LPackClosure _ => LUA_TFUNCTION
  end.

(** * Tables *)

(** Keys and values in traversal order; no value is nil. *)
Abbreviation ltable := (list (lua_value * lua_value)).

(** [luaO_rawequalObj]: not-a-number differs from itself. *)
Definition raweq (a b : lua_value) : bool :=
  match a with LNumber NNaN => false | _ => bool_decide (a = b) end.

Fixpoint luaH_get (t : ltable) (k : lua_value) : lua_value :=
  match t with
  | [] => LNil
  | (k', v) :: t => if raweq k k' then v else luaH_get t k
  end.

Definition luaH_getnum (t : ltable) (n : Z) : lua_value := luaH_get t (LNumber (NInt n)).

(** An existing key keeps its place; assigning nil removes it. *)
Fixpoint luaH_set (t : ltable) (k v : lua_value) : ltable :=
  match t with
  | [] => if decide (v = LNil) then [] else [(k, v)]
  | (k', v') :: t =>
      if raweq k k' then (if decide (v = LNil) then t else (k', v) :: t)
      else (k', v') :: luaH_set t k v
  end.

(** * State and monad *)

(** [stack] is the frame of the running C function, its top first; the registry
    and the globals are tables of the heap. *)
Record lua_State := mkLua {
  stack : list lua_value;
  heap : gmap positive ltable;
  registry : positive;
  globals : positive
}.

(** A C function returns, raises a Lua error with [longjmp], or faults. *)
Inductive lres (A : Type) : Type :=
| LOk (a : A) (L : lua_State)
| LErr (msg : lua_value) (L : lua_State)
| LUB (f : fault).
Arguments LOk {A} a L.
Arguments LErr {A} msg L.
Arguments LUB {A} f.

Definition lua (A : Type) : Type := lua_State -> lres A.

#[export] Instance lua_ret : MRet lua := fun A a L => LOk a L.
#[export] Instance lua_bind : MBind lua := fun A B k m L =>
  match m L with LOk a L' => k a L' | LErr e L' => LErr e L' | LUB f => LUB f end.

Definition lift {A} (r : cres A) : lua A := fun L =>
  match r with Ok a => LOk a L | UB f => LUB f end.
Definition get_state : lua lua_State := fun L => LOk L L.
Definition set_stack (s : list lua_value) : lua unit := fun L =>
  LOk () (mkLua s (heap L) (registry L) (globals L)).
Definition set_heap (h : gmap positive ltable) : lua unit := fun L =>
  LOk () (mkLua (stack L) h (registry L) (globals L)).
Definition lua_throw {A} (msg : lua_value) : lua A := fun L => LErr msg L.

(** What the C library and the hidden layout of tables decide: [strtod] behind
    [luaO_str2d], [sprintf] of a number, and which border [luaH_getn] finds. *)
Class LuaEnv := {
  luaO_str2d : list byte -> option lua_Number;
  number2str : lua_Number -> list byte;
  luaH_getn : positive -> ltable -> Z
}.

(** The border property of [luaH_getn] the Lua manual documents: the entry
    there is not nil (or it is 0) and the next one is nil. *)
Class LuaEnvOk `{!LuaEnv} := {
  luaH_getn_nonneg l t : 0 <= luaH_getn l t;
  luaH_getn_present l t : 0 < luaH_getn l t -> luaH_getnum t (luaH_getn l t) ≠ LNil;
  luaH_getn_next l t : luaH_getnum t (luaH_getn l t + 1) = LNil
}.

(** * The API *)

Definition LUA_REGISTRYINDEX : Z := -10000.
Definition LUA_GLOBALSINDEX : Z := -10002.

Definition top_of (L : lua_State) : Z := blen (stack L).

(** The place in [stack] of a stack index. *)
Definition slot (L : lua_State) (idx : Z) : option nat :=
  if 0 <? idx then (if idx <=? top_of L then Some (Z.to_nat (top_of L - idx)) else None)
  else Some (Z.to_nat (- idx - 1)).

(** [index2adr]: [None] is [luaO_nilobject], the value above the top. *)
Definition index2adr (idx : Z) : lua (option lua_value) := fun L =>
  if 0 <? idx then LOk (slot L idx ≫= fun i => stack L !! i) L
  else if LUA_REGISTRYINDEX <? idx then
    match stack L !! Z.to_nat (- idx - 1) with
    | Some v => if idx =? 0 then LUB OutOfBounds else LOk (Some v) L
    | None => LUB OutOfBounds
    end
  else if idx =? LUA_REGISTRYINDEX then LOk (Some (LTable (registry L))) L
  else if idx =? LUA_GLOBALSINDEX then LOk (Some (LTable (globals L))) L
  else LUB OutOfBounds.

Definition lua_gettop : lua Z := fun L => LOk (top_of L) L.

Definition lua_settop (idx : Z) : lua unit := fun L =>
  let s := stack L in
  if 0 <=? idx then
    if idx <=? top_of L then set_stack (drop (Z.to_nat (top_of L - idx)) s) L
    else set_stack (replicate (Z.to_nat (idx - top_of L)) LNil ++ s) L
  else if - (idx + 1) <=? top_of L then set_stack (drop (Z.to_nat (- (idx + 1))) s) L
  else LUB OutOfBounds.

Definition lua_pop (n : Z) : lua unit := lua_settop (- n - 1).

Definition push (v : lua_value) : lua unit := fun L => set_stack (v :: stack L) L.

Definition lua_remove (idx : Z) : lua unit := fun L =>
  match slot L idx with
  | Some i => if bool_decide (i < length (stack L))%nat && negb (idx =? 0)
              then set_stack (delete i (stack L)) L else LUB OutOfBounds
  | None => LUB OutOfBounds
  end.

Definition lua_pushnil : lua unit := push LNil.
Definition lua_pushnumber (n : Z) : lua unit := push (LNumber (NInt n)).
Definition lua_pushinteger (n : Z) : lua unit := push (LNumber (NInt n)).
Definition lua_pushlstring (s : list byte) : lua unit := push (LString s).
Definition lua_pushboolean (b : bool) : lua unit := push (LBool b).
Definition lua_pushlightuserdata (p : Z) : lua unit := push (LLight p).

Definition lua_pushvalue (idx : Z) : lua unit :=
  v ← index2adr idx; push (default LNil v).

Definition lua_type (idx : Z) : lua Z :=
  v ← index2adr idx; mret (match v with None => LUA_TNONE | Some v => ttype v end).

Definition lua_istable (idx : Z) : lua bool := t ← lua_type idx; mret (t =? LUA_TTABLE).
Definition lua_isfunction (idx : Z) : lua bool := t ← lua_type idx; mret (t =? LUA_TFUNCTION).
Definition lua_isnil (idx : Z) : lua bool := t ← lua_type idx; mret (t =? LUA_TNIL).

Definition lua_isstring (idx : Z) : lua bool :=
  t ← lua_type idx; mret ((t =? LUA_TSTRING) || (t =? LUA_TNUMBER)).

(** The table behind a value, for the raw accesses. *)
Definition table_at (idx : Z) : lua (positive * ltable) :=
  v ← index2adr idx;
  L ← get_state;
  match v with
  | Some (LTable l) => match heap L !! l with Some t => mret (l, t) | None => lift (UB UseAfterFree) end
  | _ => lift (UB WildPointer)
  end.

Definition set_table (l : positive) (t : ltable) : lua unit :=
  L ← get_state; set_heap (<[l := t]> (heap L)).

(** Pops the top value. *)
Definition pop_value : lua lua_value := fun L =>
  match stack L with
  | v :: s => LOk v (mkLua s (heap L) (registry L) (globals L))
  | [] => LUB OutOfBounds
  end.

Definition lua_rawget (idx : Z) : lua unit :=
  '(_, t) ← table_at idx; k ← pop_value; push (luaH_get t k).

Definition lua_rawgeti (idx n : Z) : lua unit :=
  '(_, t) ← table_at idx; push (luaH_getnum t n).

(** [luaH_set] refuses nil and not-a-number as new keys. *)
Definition checked_set (t : ltable) (k v : lua_value) : lua ltable :=
  match k with
  | LNil | LNumber NNaN => lua_throw LNil
  | _ => mret (luaH_set t k v)
  end.

Definition lua_rawset (idx : Z) : lua unit :=
  '(l, t) ← table_at idx;
  v ← pop_value; k ← pop_value;
  t' ← checked_set t k v; set_table l t'.

Definition lua_rawseti (idx n : Z) : lua unit :=
  '(l, t) ← table_at idx;
  v ← pop_value; set_table l (luaH_set t (LNumber (NInt n)) v).

(** [lua_settable] and [lua_gettable] on a value without metatable: an error
    when it is not a table. *)
Definition lua_settable (idx : Z) : lua unit :=
  b ← lua_istable idx; if b : bool then lua_rawset idx else lua_throw LNil.
Definition lua_gettable (idx : Z) : lua unit :=
  b ← lua_istable idx; if b : bool then lua_rawget idx else lua_throw LNil.

Definition lua_newtable : lua positive :=
  L ← get_state;
  let l := fresh (dom (heap L)) in
  _ ← set_heap (<[l := []]> (heap L)); _ ← push (LTable l); mret l.

Definition lua_getglobal (name : list byte) : lua unit :=
  _ ← push (LString name); lua_rawget LUA_GLOBALSINDEX.
Definition lua_setglobal (name : list byte) : lua unit :=
  '(l, t) ← table_at LUA_GLOBALSINDEX;
  v ← pop_value; set_table l (luaH_set t (LString name) v).

Create HintDb lua discriminated.

Section Conversions.
Context `{!LuaEnv}.

(** [tonumber]: numbers and numeric strings. *)
Definition tonumber (v : lua_value) : option lua_Number :=
  match v with
  | LNumber n => Some n
  | LString s => luaO_str2d s
  | _ => None
  end.

Definition lua_isnumber (idx : Z) : lua bool :=
  v ← index2adr idx; mret (bool_decide (is_Some (v ≫= tonumber))).

Definition lua_tonumber (idx : Z) : lua lua_Number :=
  v ← index2adr idx; mret (default (NInt 0) (v ≫= tonumber)).

(** Overwrites a stack slot. *)
Definition set_slot (idx : Z) (v : lua_value) : lua unit := fun L =>
  match slot L idx with
  | Some i => set_stack (<[i := v]> (stack L)) L
  | None => LUB OutOfBounds
  end.

(** [lua_tolstring]: a number in the slot is replaced by its string. *)
Definition lua_tolstring (idx : Z) : lua (option (list byte)) :=
  v ← index2adr idx;
  match v with
  | Some (LString s) => mret (Some s)
  | Some (LNumber n) => _ ← set_slot idx (LString (number2str n)); mret (Some (number2str n))
  | _ => mret None
  end.

Definition lua_objlen (idx : Z) : lua Z :=
  v ← index2adr idx;
  match v with
  | Some (LString s) => mret (blen s)
  | Some (LTable l) => '(l, t) ← table_at idx; mret (luaH_getn l t)
  | Some (LNumber n) => _ ← set_slot idx (LString (number2str n)); mret (blen (number2str n))
  | _ => mret 0
  end.

(** * The auxiliary library *)

Definition luaL_typerror {A} (narg : Z) : lua A := lua_throw LNil.

Definition luaL_checktype (narg t : Z) : lua unit :=
  ty ← lua_type narg; if ty =? t then mret () else luaL_typerror narg.

Definition luaL_checklstring (narg : Z) : lua (list byte) :=
  s ← lua_tolstring narg;
  match s with Some s => mret s | None => luaL_typerror narg end.

Definition luaL_checknumber (narg : Z) : lua lua_Number :=
  v ← index2adr narg;
  match v ≫= tonumber with Some n => mret n | None => luaL_typerror narg end.

Definition LUA_NOREF : Z := -2.
Definition LUA_REFNIL : Z := -1.
Definition FREELIST_REF : Z := 0.

(** [luaL_ref(L, LUA_REGISTRYINDEX)]. *)
Definition lua_ref : lua Z :=
  isnil ← lua_isnil (-1);
  if isnil : bool then _ ← lua_pop 1; mret LUA_REFNIL
  else
    _ ← lua_rawgeti LUA_REGISTRYINDEX FREELIST_REF;
    n ← lua_tonumber (-1);
    ref ← lift (lua_number2int n);
    _ ← lua_pop 1;
    ref ← (if negb (ref =? 0)
           then _ ← lua_rawgeti LUA_REGISTRYINDEX ref;
                _ ← lua_rawseti LUA_REGISTRYINDEX FREELIST_REF; mret ref
           else n ← lua_objlen LUA_REGISTRYINDEX; lift (chk_int (wrap32 n + 1)));
    _ ← lua_rawseti LUA_REGISTRYINDEX ref;
    mret ref.

Definition lua_unref (ref : Z) : lua unit :=
  if 0 <=? ref then
    _ ← lua_rawgeti LUA_REGISTRYINDEX FREELIST_REF;
    _ ← lua_rawseti LUA_REGISTRYINDEX ref;
    _ ← lua_pushinteger ref;
    lua_rawseti LUA_REGISTRYINDEX FREELIST_REF
  else mret ().

Definition lua_getref (ref : Z) : lua unit := lua_rawgeti LUA_REGISTRYINDEX ref.

End Conversions.

(** * Rules of the API *)

Lemma lua_bind_ok {A B} (m : lua A) (k : A -> lua B) L a L' :
  m L = LOk a L' -> (m ≫= k) L = k a L'.
Proof. intros H. unfold mbind, lua_bind. by rewrite H. Qed.

Lemma lua_bind_err {A B} (m : lua A) (k : A -> lua B) L e L' :
  m L = LErr e L' -> (m ≫= k) L = LErr e L'.
Proof. intros H. unfold mbind, lua_bind. by rewrite H. Qed.

Lemma lua_bind_ub {A B} (m : lua A) (k : A -> lua B) L f :
  m L = LUB f -> (m ≫= k) L = LUB f.
Proof. intros H. unfold mbind, lua_bind. by rewrite H. Qed.

Lemma lift_ok {A} (r : cres A) a L : r = Ok a -> lift r L = LOk a L.
Proof. by intros ->. Qed.

(** A key that [luaH_set] accepts and [raweq] recognises. *)
Definition good_key (k : lua_value) : bool :=
  match k with LNil | LNumber NNaN => false | _ => true end.

(** [idx] designates the value [v] in slot [i] of the stack [s]. *)
Definition stack_index (s : list lua_value) (idx : Z) (i : nat) (v : lua_value) : Prop :=
  s !! i = Some v /\
  (0 < idx /\ i = Z.to_nat (blen s - idx) /\ idx <= blen s
   \/ idx < 0 /\ LUA_REGISTRYINDEX < idx /\ i = Z.to_nat (- idx - 1)).

Lemma raweq_refl k : good_key k = true -> raweq k k = true.
Proof. destruct k as [| | | [] | | | |]; simpl; try done; intros; by apply bool_decide_eq_true. Qed.

Lemma raweq_true a b : raweq a b = true -> a = b.
Proof. destruct a as [| | | [] | | | |]; simpl; try done; intros H; by apply bool_decide_eq_true in H. Qed.

Lemma raweq_neq a b : a ≠ b -> raweq a b = false.
Proof. intros H. destruct (raweq a b) eqn:E; [|done]. by apply raweq_true in E. Qed.

Lemma raweq_num a b : raweq (LNumber (NInt a)) (LNumber (NInt b)) = (a =? b).
Proof.
  simpl. destruct (Z.eqb_spec a b) as [->|]; [by apply bool_decide_eq_true|].
  apply bool_decide_eq_false. congruence.
Qed.

Lemma luaH_get_notin t k : k ∉ t.*1 -> luaH_get t k = LNil.
Proof.
  induction t as [|[k' v] t IH]; simpl; [done|]. intros [H1 H2]%not_elem_of_cons.
  rewrite raweq_neq by done. auto.
Qed.

Lemma luaH_set_notin t k v : k ∉ t.*1 -> v ≠ LNil -> luaH_set t k v = t ++ [(k, v)].
Proof.
  intros H Hv. induction t as [|[k' v'] t IH]; simpl; [by rewrite decide_False|].
  apply not_elem_of_cons in H as [H1 H2]. rewrite raweq_neq by done. by rewrite IH.
Qed.

Lemma luaH_get_app_l t t' k : k ∉ t'.*1 -> luaH_get (t ++ t') k = luaH_get t k.
Proof.
  intros H. induction t as [|[k' v'] t IH]; simpl; [by apply luaH_get_notin|].
  destruct (raweq k k'); auto.
Qed.

Lemma luaH_get_in t k v : NoDup t.*1 -> good_key k = true -> (k, v) ∈ t -> luaH_get t k = v.
Proof.
  intros Hnd Hk. induction t as [|[k' v'] t IH]; simpl; [by intros ?%elem_of_nil|].
  apply NoDup_cons in Hnd as [Hnot Hnd]. intros [[= -> ->] | H]%elem_of_cons.
  - by rewrite raweq_refl.
  - rewrite raweq_neq; [auto|]. intros ->. apply Hnot. by apply (list_elem_of_fmap_2 fst _ _ H).
Qed.

Section Rules.
Context (s : list lua_value) (h : gmap positive ltable) (r g : positive).

Lemma rule_settop x : lua_settop (blen s) (mkLua (x ++ s) h r g) = LOk () (mkLua s h r g).
Proof.
  unfold lua_settop, top_of. cbn [stack].
  pose proof (blen_nonneg s). pose proof (blen_nonneg x). rewrite blen_app.
  rewrite (proj2 (Z.leb_le 0 _)) by lia. rewrite (proj2 (Z.leb_le _ _)) by lia.
  replace (blen x + blen s - blen s) with (blen x) by lia.
  rewrite drop_blen_app. done.
Qed.

Lemma rule_settop_same : lua_settop (blen s) (mkLua s h r g) = LOk () (mkLua s h r g).
Proof. apply (rule_settop []). Qed.

Lemma rule_settop_1 v : lua_settop (blen s) (mkLua (v :: s) h r g) = LOk () (mkLua s h r g).
Proof. apply (rule_settop [v]). Qed.

Lemma rule_gettop : lua_gettop (mkLua s h r g) = LOk (blen s) (mkLua s h r g).
Proof. reflexivity. Qed.

Lemma rule_pop v : lua_pop 1 (mkLua (v :: s) h r g) = LOk () (mkLua s h r g).
Proof.
  unfold lua_pop, lua_settop, top_of. cbn [stack].
  pose proof (blen_nonneg s). rewrite blen_cons.
  change (0 <=? - (1) - 1) with false. change (- (- (1) - 1 + 1)) with 1. cbv iota.
  rewrite (proj2 (Z.leb_le _ _)) by lia. done.
Qed.

Lemma rule_istable v : lua_istable (-1) (mkLua (v :: s) h r g)
  = LOk (ttype v =? LUA_TTABLE) (mkLua (v :: s) h r g).
Proof. reflexivity. Qed.

Lemma rule_getref rt ref : h !! r = Some rt ->
  lua_getref ref (mkLua s h r g) = LOk () (mkLua (luaH_getnum rt ref :: s) h r g).
Proof.
  intros H. unfold lua_getref, lua_rawgeti, table_at.
  unfold mbind, lua_bind, index2adr, LUA_REGISTRYINDEX. simpl. rewrite H. done.
Qed.

Lemma rule_rawget l t k : h !! l = Some t ->
  lua_rawget (-2) (mkLua (k :: LTable l :: s) h r g)
  = LOk () (mkLua (luaH_get t k :: LTable l :: s) h r g).
Proof.
  intros H. unfold lua_rawget, table_at. unfold mbind, lua_bind, index2adr. simpl. rewrite H. done.
Qed.

Lemma rule_newtable : lua_newtable (mkLua s h r g)
  = LOk (fresh (dom h)) (mkLua (LTable (fresh (dom h)) :: s) (<[fresh (dom h) := []]> h) r g).
Proof. reflexivity. Qed.

Lemma rule_settable l t k v : h !! l = Some t -> good_key k = true ->
  lua_settable (-3) (mkLua (v :: k :: LTable l :: s) h r g)
  = LOk () (mkLua (LTable l :: s) (<[l := luaH_set t k v]> h) r g).
Proof.
  intros H Hk. unfold lua_settable, lua_rawset, table_at, mbind, lua_bind, index2adr. simpl.
  rewrite H. destruct k as [| | | [] | | | |]; done.
Qed.

Lemma rule_rawset l t k v : h !! l = Some t -> good_key k = true ->
  lua_rawset (blen s + 1) (mkLua (v :: k :: LTable l :: s) h r g)
  = LOk () (mkLua (LTable l :: s) (<[l := luaH_set t k v]> h) r g).
Proof.
  intros H Hk. unfold lua_rawset, table_at, mbind, lua_bind, index2adr, slot, top_of. cbn [stack].
  pose proof (blen_nonneg s). rewrite (proj2 (Z.ltb_lt 0 _)) by lia. rewrite !blen_cons.
  rewrite (proj2 (Z.leb_le _ _)) by lia.
  replace (Z.to_nat (1 + (1 + (1 + blen s)) - (blen s + 1))) with 2%nat by lia. simpl.
  rewrite H. destruct k as [| | | [] | | | |]; done.
Qed.

Lemma rule_index idx i v : stack_index s idx i v ->
  index2adr idx (mkLua s h r g) = LOk (Some v) (mkLua s h r g).
Proof.
  intros [Hv [(H1 & -> & H3) | (H1 & H2 & ->)]]; unfold index2adr, slot, top_of; cbn [stack].
  - rewrite (proj2 (Z.ltb_lt 0 _)) by lia. rewrite (proj2 (Z.leb_le _ _)) by lia. simpl. by rewrite Hv.
  - rewrite (proj2 (Z.ltb_ge 0 _)) by lia. rewrite (proj2 (Z.ltb_lt _ _)) by lia.
    rewrite Hv. rewrite (proj2 (Z.eqb_neq _ _)) by lia. done.
Qed.

Lemma rule_slot idx i v : stack_index s idx i v -> slot (mkLua s h r g) idx = Some i.
Proof.
  intros [Hv [(H1 & -> & H3) | (H1 & H2 & ->)]]; unfold slot, top_of; cbn [stack].
  - rewrite (proj2 (Z.ltb_lt 0 _)) by lia. by rewrite (proj2 (Z.leb_le _ _)) by lia.
  - by rewrite (proj2 (Z.ltb_ge 0 _)) by lia.
Qed.

Lemma stack_index_top v : stack_index (v :: s) (-1) 0 v.
Proof. split; [done|]. right. unfold LUA_REGISTRYINDEX. lia. Qed.

Lemma stack_index_gettop v : stack_index (v :: s) (blen (v :: s)) 0 v.
Proof. split; [done|]. left. rewrite blen_cons. pose proof (blen_nonneg s). lia. Qed.

End Rules.

#[export] Hint Resolve lift_ok stack_index_top stack_index_gettop rule_settop_same rule_settop_1 rule_gettop
  rule_pop rule_istable rule_getref rule_rawget rule_newtable rule_settable rule_rawset : lua.

(** Executes the first call of a sequence whose outcome a rule gives. *)
Ltac lua_prim := first [solve [eauto with lua nocore] | solve [eauto with lua] | reflexivity].
Ltac lstep :=
  match goal with
  | |- context [@mbind lua lua_bind ?A ?B ?k ?m ?L] =>
      erewrite (@lua_bind_ok A B m k L) by lua_prim; cbn beta
  end.

(** * A concrete environment *)

(** The first border, found by trying 0, 1, 2, ... *)
Fixpoint first_border (fuel : nat) (t : ltable) (n : Z) : Z :=
  match fuel with
  | O => n
  | S fuel => if decide (luaH_getnum t (n + 1) = LNil) then n else first_border fuel t (n + 1)
  end.

Definition plain_env : LuaEnv := {|
  luaO_str2d _ := None;
  number2str _ := [];
  luaH_getn _ t := first_border (S (length t)) t 0
|}.

Lemma luaH_get_elem (t : ltable) k : luaH_get t k ≠ LNil -> k ∈ t.*1.
Proof.
  induction t as [|[k' v] t IH]; simpl; [done|]. destruct (raweq k k') eqn:E; intros H.
  - apply raweq_true in E as ->. left.
  - right. auto.
Qed.

Lemma first_border_spec fuel t n :
  n <= first_border fuel t n <= n + Z.of_nat fuel /\
  (forall i, n < i <= first_border fuel t n -> luaH_getnum t i ≠ LNil) /\
  (first_border fuel t n < n + Z.of_nat fuel -> luaH_getnum t (first_border fuel t n + 1) = LNil).
Proof.
  revert n. induction fuel as [|fuel IH]; intros n; cbn [first_border]; [split; [lia|]; split; intros; lia|].
  case_decide as E; [split; [lia|]; split; intros; [lia|done]|].
  destruct (IH (n + 1)) as (H1 & H2 & H3). split; [lia|]. split.
  - intros i Hi. destruct (decide (i = n + 1)) as [->|]; [done|]. apply H2. lia.
  - intros Hlt. apply H3. lia.
Qed.

(** More entries than the table has cannot all be present. *)
Lemma first_border_stops t : first_border (S (length t)) t 0 <= Z.of_nat (length t).
Proof.
  destruct (first_border_spec (S (length t)) t 0) as (H1 & H2 & _).
  destruct (Z.le_gt_cases (first_border (S (length t)) t 0) (Z.of_nat (length t))) as [|Hgt]; [done|exfalso].
  set (ks := (fun i => LNumber (NInt (Z.of_nat i))) <$> seq 1 (S (length t))).
  assert (NoDup ks) as Hnd.
  { apply NoDup_fmap_2; [intros i j [= H]; lia|apply NoDup_seq]. }
  assert (forall k, k ∈ ks -> k ∈ t.*1) as Hsub.
  { intros k (i & -> & Hi)%list_elem_of_fmap. apply elem_of_seq in Hi. apply luaH_get_elem, H2. lia. }
  pose proof (submseteq_length _ _ (NoDup_submseteq _ _ Hnd Hsub)) as Hlen.
  unfold ks in *. rewrite !length_fmap, length_seq in *. lia.
Qed.

Lemma plain_env_ok : @LuaEnvOk plain_env.
Proof.
  split; intros l t; cbn [luaH_getn plain_env];
    destruct (first_border_spec (S (length t)) t 0) as (H1 & H2 & H3); pose proof (first_border_stops t).
  - lia.
  - intros Hp. apply H2. lia.
  - apply H3. lia.
Qed.
