(* ===== verification/LuaRefs.v ===== *)
(** References into the Lua registry ([luaL_ref], [luaL_unref] of
    lauxlib.c) as an allocator: the live references are a finite map, the free
    ones a list threaded through the registry itself from its entry 0. *)
From S2P Require Import Prelude LuaApi.

(** * Facts on table updates *)

Lemma luaH_set_keys t k v k' : k' ∈ (luaH_set t k v).*1 -> k' = k \/ k' ∈ t.*1.
Proof.
  induction t as [|[k0 v0] t IH]; simpl.
  - case_decide; [by intros []%elem_of_nil|]. intros Hin%list_elem_of_singleton. by left.
  - destruct (raweq k k0) eqn:E.
    + case_decide; [by right; right|]. simpl. intros [-> | Hin]%elem_of_cons; right; [left|by right].
    + simpl. intros [-> | Hin]%elem_of_cons; [right; left|]. destruct (IH Hin); [by left|right; by right].
Qed.

Lemma luaH_set_nodup t k v : good_key k = true -> NoDup t.*1 -> NoDup (luaH_set t k v).*1.
Proof.
  intros Hk. induction t as [|[k0 v0] t IH]; simpl; [intros; case_decide; [constructor|apply NoDup_singleton]|].
  intros [Hn Hnd]%NoDup_cons. destruct (raweq k k0) eqn:E.
  - case_decide; [done|]. by constructor.
  - simpl. constructor; [|auto]. intros [-> | H]%luaH_set_keys; [|done]. by rewrite raweq_refl in E.
Qed.

Lemma luaH_get_set_same t k v : good_key k = true -> NoDup t.*1 -> luaH_get (luaH_set t k v) k = v.
Proof.
  intros Hk. induction t as [|[k0 v0] t IH]; simpl; intros Hnd.
  - case_decide; [done|]. simpl. by rewrite raweq_refl.
  - apply NoDup_cons in Hnd as [Hn Hnd]. destruct (raweq k k0) eqn:E; [|simpl; rewrite E; auto].
    case_decide; [|simpl; by rewrite E]. apply raweq_true in E as ->. subst. by apply luaH_get_notin.
Qed.

Lemma luaH_get_set_other t k k' v : k ≠ k' -> luaH_get (luaH_set t k v) k' = luaH_get t k'.
Proof.
  intros Hk. induction t as [|[k0 v0] t IH]; simpl.
  - case_decide; [done|]. simpl. by rewrite raweq_neq.
  - destruct (raweq k k0) eqn:E.
    + apply raweq_true in E as ->. case_decide; simpl; rewrite (raweq_neq k' k0) by done; done.
    + simpl. by rewrite IH.
Qed.

Abbreviation num n := (LNumber (NInt n)).

Lemma getnum_set_same t n v : NoDup t.*1 -> luaH_getnum (luaH_set t (num n) v) n = v.
Proof. intros. by apply luaH_get_set_same. Qed.

Lemma getnum_set_other t n m v : n ≠ m -> luaH_getnum (luaH_set t (num n) v) m = luaH_getnum t m.
Proof. intros. apply luaH_get_set_other. congruence. Qed.

(** * The allocator *)

(** The free references, threaded from the value [v]. *)
Inductive free_chain (rt : ltable) : lua_value -> list Z -> Prop :=
| fc_end : free_chain rt LNil []
| fc_next x fl : free_chain rt (luaH_getnum rt x) fl -> free_chain rt (num x) (x :: fl).

Lemma free_chain_ext rt rt' v fl :
  free_chain rt v fl -> (forall x, x ∈ fl -> luaH_getnum rt' x = luaH_getnum rt x) -> free_chain rt' v fl.
Proof.
  induction 1 as [|x fl H IH]; intros Hext; [constructor|]. constructor.
  rewrite Hext by left. apply IH. intros y Hy. apply Hext. by right.
Qed.

(** The registry [rt] holds the live references [lv]; its integer keys are
    at most [B]. *)
Record reg_inv (rt : ltable) (lv : gmap Z lua_value) (B : Z) : Prop := {
  ri_nodup : NoDup rt.*1;
  ri_live ref k : lv !! ref = Some k -> 0 < ref /\ luaH_getnum rt ref = k /\ k ≠ LNil;
  ri_free : exists fl, free_chain rt (luaH_getnum rt FREELIST_REF) fl /\ NoDup fl /\
    forall x, x ∈ fl -> 0 < x <= B /\ lv !! x = None;
  ri_bound n : num n ∈ rt.*1 -> n <= B;
  ri_nonneg : 0 <= B
}.

Section References.
Context {Env : LuaEnv}.

Lemma rule_rawgeti_reg s h r g rt n : h !! r = Some rt ->
  lua_rawgeti LUA_REGISTRYINDEX n (mkLua s h r g) = LOk () (mkLua (luaH_getnum rt n :: s) h r g).
Proof. intros H. apply (rule_getref s h r g rt n H). Qed.

Lemma rule_rawseti_reg s h r g rt n v : h !! r = Some rt ->
  lua_rawseti LUA_REGISTRYINDEX n (mkLua (v :: s) h r g)
  = LOk () (mkLua s (<[r := luaH_set rt (num n) v]> h) r g).
Proof.
  intros H. unfold lua_rawseti, table_at, mbind, lua_bind, index2adr, LUA_REGISTRYINDEX.
  simpl. rewrite H. done.
Qed.

Lemma rule_objlen_reg s h r g rt : h !! r = Some rt ->
  lua_objlen LUA_REGISTRYINDEX (mkLua s h r g) = LOk (luaH_getn r rt) (mkLua s h r g).
Proof.
  intros H. unfold lua_objlen, table_at, mbind, lua_bind, index2adr, LUA_REGISTRYINDEX.
  simpl. rewrite H. done.
Qed.

Lemma rule_isnil s h r g v :
  lua_isnil (-1) (mkLua (v :: s) h r g) = LOk (ttype v =? LUA_TNIL) (mkLua (v :: s) h r g).
Proof. reflexivity. Qed.

Lemma rule_tonumber_top s h r g v :
  lua_tonumber (-1) (mkLua (v :: s) h r g) = LOk (default (NInt 0) (tonumber v)) (mkLua (v :: s) h r g).
Proof. reflexivity. Qed.

Lemma ref_prologue s h r g rt v : h !! r = Some rt -> v ≠ LNil ->
  forall n ref, tonumber (luaH_getnum rt FREELIST_REF) = n -> lua_number2int (default (NInt 0) n) = Ok ref ->
  lua_ref (mkLua (v :: s) h r g) =
  (ref ← (if negb (ref =? 0)
          then _ ← lua_rawgeti LUA_REGISTRYINDEX ref;
               _ ← lua_rawseti LUA_REGISTRYINDEX FREELIST_REF; mret ref
          else n ← lua_objlen LUA_REGISTRYINDEX; lift (chk_int (wrap32 n + 1)));
   _ ← lua_rawseti LUA_REGISTRYINDEX ref;
   mret ref) (mkLua (v :: s) h r g).
Proof.
  intros Hr Hv n ref Hn Href. unfold lua_ref.
  erewrite lua_bind_ok by apply rule_isnil.
  assert ((ttype v =? LUA_TNIL) = false) as -> by (by destruct v).
  erewrite lua_bind_ok by (by apply rule_rawgeti_reg).
  erewrite lua_bind_ok by apply rule_tonumber_top. rewrite Hn.
  erewrite lua_bind_ok by (by apply lift_ok).
  by erewrite lua_bind_ok by apply rule_pop.
Qed.

Lemma chk_int_number2int x : INT_MIN <= x <= INT_MAX -> lua_number2int (NInt x) = Ok x.
Proof. intros H. unfold lua_number2int, in_int. simpl. by zdecide. Qed.

(** A reference is fresh, holds the value, and leaves the others alone. *)
(** The registry after a reference behind the border, and after the first free
    one, was taken. *)
Lemma getn_below `{!LuaEnvOk} rt lv B r : reg_inv rt lv B -> 0 <= luaH_getn r rt <= B.
Proof.
  intros [_ _ _ Hbound HB]. pose proof (luaH_getn_nonneg r rt) as H0.
  destruct (Z.eq_dec (luaH_getn r rt) 0) as [E|E]; [lia|]. split; [lia|].
  apply Hbound, luaH_get_elem, luaH_getn_present. lia.
Qed.

Lemma reg_inv_append rt lv B ref v : reg_inv rt lv B -> 0 < ref <= B + 1 -> luaH_getnum rt ref = LNil ->
  luaH_getnum rt FREELIST_REF = LNil -> v ≠ LNil ->
  lv !! ref = None /\ reg_inv (luaH_set rt (num ref) v) (<[ref := v]> lv) (B + 1).
Proof.
  intros [Hnd Hlive _ Hbound HB] Hpos Hfree Hnil Hv.
  assert (lv !! ref = None) as Hfresh.
  { destruct (lv !! ref) as [k|] eqn:E; [|done]. destruct (Hlive _ _ E) as (_ & Hk & Hk'). congruence. }
  split; [done|]. split.
  - by apply luaH_set_nodup.
  - intros ref' k [[<- <-] | [Hne Hk]]%lookup_insert_Some; [split; [lia|]; by rewrite getnum_set_same|].
    rewrite getnum_set_other by done. auto.
  - exists []. rewrite getnum_set_other by (unfold FREELIST_REF; lia). rewrite Hnil.
    split; [constructor|]. split; [constructor|]. intros x []%elem_of_nil.
  - intros n [[= ->] | Hn]%luaH_set_keys; [lia|]. specialize (Hbound n Hn). lia.
  - lia.
Qed.

Lemma reg_inv_reuse rt lv B x fl v : reg_inv rt lv B -> free_chain rt (luaH_getnum rt x) fl -> NoDup (x :: fl) ->
  (forall y, y ∈ x :: fl -> 0 < y <= B /\ lv !! y = None) -> v ≠ LNil ->
  reg_inv (luaH_set (luaH_set rt (num FREELIST_REF) (luaH_getnum rt x)) (num x) v) (<[x := v]> lv) (B + 1).
Proof.
  intros [Hnd Hlive _ Hbound HB] Hch Hfnd Hfl Hv. set (rt1 := luaH_set rt _ _).
  destruct (Hfl x ltac:(left)) as [Hxr Hxl]. apply NoDup_cons in Hfnd as [Hxfl Hfnd].
  assert (NoDup rt1.*1) as Hnd1 by (by apply luaH_set_nodup).
  assert (forall y, y ≠ x -> y ≠ 0 -> luaH_getnum (luaH_set rt1 (num x) v) y = luaH_getnum rt y) as Hother.
  { intros y H1 H2. rewrite getnum_set_other by done. unfold rt1. by rewrite getnum_set_other by done. }
  split.
  - by apply luaH_set_nodup.
  - intros ref' k [[<- <-] | [Hne Hk]]%lookup_insert_Some; [split; [lia|]; by rewrite getnum_set_same|].
    destruct (Hlive _ _ Hk) as (H1 & H2 & H3). rewrite Hother by lia. done.
  - exists fl. rewrite getnum_set_other by (unfold FREELIST_REF; lia). unfold rt1 at 2.
    rewrite getnum_set_same by done. split; [|split; [done|]].
    + eapply free_chain_ext; [exact Hch|]. intros y Hy. apply Hother; [congruence|].
      destruct (Hfl y) as [Hy' _]; [by right|]. lia.
    + intros y Hy. destruct (Hfl y) as [Hy' Hyl]; [by right|]. split; [lia|].
      rewrite lookup_insert_ne by congruence. done.
  - intros n [[= ->] | [[= ->] | Hn]%luaH_set_keys]%luaH_set_keys; [lia|unfold FREELIST_REF; lia|].
    specialize (Hbound n Hn). lia.
  - lia.
Qed.

Lemma rule_ref `{!LuaEnvOk} s h r g rt lv B v :
  h !! r = Some rt -> reg_inv rt lv B -> v ≠ LNil -> B < INT_MAX ->
  exists ref rt', lua_ref (mkLua (v :: s) h r g) = LOk ref (mkLua s (<[r := rt']> h) r g) /\
    0 < ref /\ lv !! ref = None /\ reg_inv rt' (<[ref := v]> lv) (B + 1).
Proof.
  intros Hr Hinv Hv HBmax. pose proof Hinv as [Hnd Hlive (fl & Hch & Hfnd & Hfl) Hbound HB].
  inversion Hch as [Hnil|x fl' Hch' Hx]; subst.
  - (* no free reference: the one after the border *)
    erewrite (ref_prologue s h r g rt v Hr Hv None 0) by (rewrite <- ?Hnil; done).
    change (negb (0 =? 0)) with false. cbv iota. pose proof (getn_below rt lv B r Hinv) as Hle.
    erewrite (lua_bind_ok (_ ← _; _)).
    2:{ erewrite lua_bind_ok by (by apply rule_objlen_reg). apply lift_ok.
        rewrite wrap32_small by (unfold INT_MIN; lia). apply chk_int_ok. unfold INT_MIN. lia. }
    exists (luaH_getn r rt + 1), (luaH_set rt (num (luaH_getn r rt + 1)) v).
    erewrite lua_bind_ok by (by apply rule_rawseti_reg). split; [done|]. split; [lia|].
    apply reg_inv_append; try done; [lia|apply luaH_getn_next].
  - (* the first free reference *)
    destruct (Hfl x) as [Hxr Hxl]; [left|].
    erewrite (ref_prologue s h r g rt v Hr Hv (Some (NInt x)) x);
      [|by rewrite <- Hx|apply chk_int_number2int; unfold INT_MIN; lia].
    rewrite (proj2 (Z.eqb_neq x 0)) by lia. cbn [negb].
    erewrite (lua_bind_ok (_ ← _; _)).
    2:{ erewrite lua_bind_ok by (by apply rule_rawgeti_reg).
        erewrite lua_bind_ok by (by apply rule_rawseti_reg). reflexivity. }
    exists x, (luaH_set (luaH_set rt (num FREELIST_REF) (luaH_getnum rt x)) (num x) v).
    erewrite lua_bind_ok by (apply rule_rawseti_reg; by rewrite lookup_insert_eq).
    rewrite insert_insert_eq. split; [done|]. split; [lia|]. split; [done|]. by apply (reg_inv_reuse rt lv B x fl').
Qed.

(** Releasing a live reference. *)
Lemma rule_unref s h r g rt lv B ref k :
  h !! r = Some rt -> reg_inv rt lv B -> lv !! ref = Some k -> ref <= B ->
  exists rt', lua_unref ref (mkLua s h r g) = LOk () (mkLua s (<[r := rt']> h) r g) /\
    reg_inv rt' (delete ref lv) B.
Proof.
  intros Hr [Hnd Hlive (fl & Hch & Hfnd & Hfl) Hbound HB] Hk HrefB.
  destruct (Hlive _ _ Hk) as (Hpos & Hget & Hnil). unfold lua_unref. zdecide.
  erewrite lua_bind_ok by (by apply rule_rawgeti_reg).
  erewrite lua_bind_ok by (by apply rule_rawseti_reg).
  erewrite lua_bind_ok by reflexivity. cbn [stack heap registry globals].
  set (rt1 := luaH_set rt (num ref) (luaH_getnum rt FREELIST_REF)).
  assert (NoDup rt1.*1) as Hnd1 by (by apply luaH_set_nodup).
  exists (luaH_set rt1 (num FREELIST_REF) (num ref)).
  rewrite (rule_rawseti_reg _ _ _ _ rt1) by (by rewrite lookup_insert_eq). rewrite insert_insert_eq.
  split; [done|].
  assert (forall y, y ≠ ref -> y ≠ 0 ->
    luaH_getnum (luaH_set rt1 (num FREELIST_REF) (num ref)) y = luaH_getnum rt y) as Hother.
  { intros y H1 H2. rewrite getnum_set_other by (unfold FREELIST_REF; lia). unfold rt1.
    by rewrite getnum_set_other by done. }
  assert (ref ∉ fl) as Hnotin by (intros [_ H]%Hfl; congruence).
  split; [by apply luaH_set_nodup| | | |done].
  - intros ref' k' [Hne Hk']%lookup_delete_Some. destruct (Hlive _ _ Hk') as (H1 & H2 & H3).
    rewrite Hother by lia. done.
  - exists (ref :: fl). rewrite getnum_set_same by done. split; [|split].
    + constructor. rewrite getnum_set_other by (unfold FREELIST_REF; lia). unfold rt1 at 2.
      rewrite getnum_set_same by done. eapply free_chain_ext; [exact Hch|].
      intros y Hy. apply Hother; [congruence|]. destruct (Hfl y Hy). lia.
    + by constructor.
    + intros y [-> | Hy]%elem_of_cons; [split; [lia|apply lookup_delete_eq]|].
      destruct (Hfl y Hy) as [H1 H2]. split; [done|]. rewrite lookup_delete_ne by congruence. done.
  - intros n [[= ->] | [[= ->] | Hn]%luaH_set_keys]%luaH_set_keys; [unfold FREELIST_REF; lia|lia|auto].
Qed.

End References.

(** A registry without references, as [lua_newstate] leaves it. *)
Lemma reg_inv_empty : reg_inv [] ∅ 0.
Proof.
  split; [constructor|done| |by intros n []%elem_of_nil|lia].
  exists []. split; [constructor|]. split; [constructor|]. intros x []%elem_of_nil.
Qed.
