(* ===== verification/LuaTable.v ===== *)
(** Lua tables as they are laid out (ltable.c, the hash of lstring.c, the
    logarithm of lobject.c): an array part for the keys 1..[sizearray] and a
    hash part, a chained scatter table with Brent's variation in one vector of
    nodes. [LuaApi] uses tables through their contents only; [TableChain],
    [TableResize] and [TableProps] show that this layout implements them. *)
From S2P Require Import Prelude LuaApi.

Module Table.

(** * Outcomes *)

(** The errors [luaG_runerror] raises here. *)
Inductive table_error : Type :=
| TableOverflow
| IndexIsNil
| IndexIsNaN
| InvalidKeyToNext.

Inductive tres (A : Type) : Type :=
| TRet (a : A)
| TErr (e : table_error)
| TUB (f : fault).
Arguments TRet {A} a.
Arguments TErr {A} e.
Arguments TUB {A} f.

#[export] Instance tres_ret : MRet tres := fun A a => TRet a.
#[export] Instance tres_bind : MBind tres := fun A B k m =>
  match m with TRet a => k a | TErr e => TErr e | TUB f => TUB f end.

Definition tlift {A} (r : cres A) : tres A :=
  match r with Ok a => TRet a | UB f => TUB f end.

(** * Data *)

(** A key of a node; the collector marks the keys of empty entries dead, which
    keeps the object's address. *)
Inductive tkey : Type :=
| KVal (v : lua_value)
| KDead (v : lua_value).

#[export] Instance tkey_eq_dec : EqDecision tkey.
Proof. solve_decision. Defined.

(** [next] is the place of the next node of the chain. *)
Record Node := mkNode {
  i_val : lua_value;
  i_key : tkey;
  next : option nat
}.

Definition dummynode_ : Node := mkNode LNil (KVal LNil) None.

(** [is_dummy] says that [node] points to the common [dummynode]; [lastfree]
    is a place in the node vector, and the place before the first one when the
    search for a free place has failed. [array] is the allocated block. *)
Record Table := mkTable {
  sizearray : Z;
  array : list lua_value;
  lsizenode : Z;
  node : list Node;
  is_dummy : bool;
  lastfree : Z
}.

(** Pointers to values that the search functions return. *)
Inductive tslot : Type :=
| SNilObject
| SArray (i : nat)
| SNode (i : nat).

#[export] Instance tslot_eq_dec : EqDecision tslot.
Proof. solve_decision. Defined.

Definition MAXBITS : Z := 26.
Definition MAXASIZE : Z := 2 ^ MAXBITS.

Definition twoto (x : Z) : Z := Z.shiftl 1 x.
Definition sizenode (t : Table) : Z := twoto (lsizenode t).

Definition isnil (v : lua_value) : bool := bool_decide (v = LNil).

Definition set_array (t : Table) (size : Z) (a : list lua_value) : Table :=
  mkTable size a (lsizenode t) (node t) (is_dummy t) (lastfree t).
Definition set_node (t : Table) (ns : list Node) : Table :=
  mkTable (sizearray t) (array t) (lsizenode t) ns (is_dummy t) (lastfree t).
Definition set_lastfree (t : Table) (lf : Z) : Table :=
  mkTable (sizearray t) (array t) (lsizenode t) (node t) (is_dummy t) lf.

Definition set_key (k : tkey) (n : Node) : Node := mkNode (i_val n) k (next n).
Definition set_val (v : lua_value) (n : Node) : Node := mkNode v (i_key n) (next n).
Definition set_next (m : option nat) (n : Node) : Node := mkNode (i_val n) (i_key n) m.

(** Reading and writing through the pointers. *)
Definition gnode (t : Table) (i : nat) : cres Node := of_option OutOfBounds (node t !! i).

Definition read_slot (t : Table) (s : tslot) : cres lua_value :=
  match s with
  | SNilObject => Ok LNil
  | SArray i => of_option OutOfBounds (array t !! i)
  | SNode i => n ← gnode t i; Ok (i_val n)
  end.

(** [luaO_nilobject] and [dummynode] are constants. *)
Definition write_slot (t : Table) (s : tslot) (v : lua_value) : cres Table :=
  match s with
  | SNilObject => UB WildPointer
  | SArray i => _ ← of_option OutOfBounds (array t !! i);
                Ok (set_array t (sizearray t) (<[i := v]> (array t)))
  | SNode i => if is_dummy t then UB WildPointer else
               _ ← gnode t i; Ok (set_node t (alter (set_val v) i (node t)))
  end.

(** * Logarithms (lobject.c) *)

(** The table of [luaO_log2]: 0, 1, twice 2, four times 3, ... *)
Definition log_2 : list Z :=
  0 :: concat ((fun i : nat => replicate (2 ^ i) (Z.of_nat i + 1)) <$> seq 0 8).

Fixpoint luaO_log2_loop (fuel : nat) (l x : Z) : cres Z :=
  match fuel with
  | O => UB Diverges
  | S fuel => if 256 <=? x then luaO_log2_loop fuel (l + 8) (Z.shiftr x 8)
              else n ← of_option OutOfBounds (log_2 !! Z.to_nat x); Ok (l + n)
  end.

Definition luaO_log2 (x : Z) : cres Z := luaO_log2_loop 4 (-1) x.

Definition ceillog2 (x : Z) : cres Z := l ← luaO_log2 (x - 1); Ok (l + 1).

(** * Hash functions *)

(** The hash [luaS_newlstr] gives a string: from its end, at most 32 of its
    characters. *)
Fixpoint str_hash_loop (fuel : nat) (str : list byte) (step l1 h : Z) : Z :=
  match fuel with
  | O => h
  | S fuel =>
      if step <=? l1 then
        let c := default 0 (byte.unsigned <$> str !! Z.to_nat (l1 - 1)) in
        str_hash_loop fuel str step (l1 - step)
          (Z.lxor h (uwrap32 (uwrap32 (Z.shiftl h 5) + Z.shiftr h 2 + c)))
      else h
  end.

Definition str_hash (str : list byte) : Z :=
  str_hash_loop (length str) str (Z.shiftr (blen str) 5 + 1) (blen str) (uwrap32 (blen str)).

(** What the machine decides: [lua_number2int], the sum of the [int]s that a
    [double] consists of, and the addresses of collectable objects. *)
Class TableEnv := {
  number2int : lua_Number -> Z;
  number_words : lua_Number -> Z;
  gcvalue : lua_value -> Z
}.

(** luaconf.h asks of [lua_number2int] that it converts to [int], with any
    rounding method. *)
Class TableEnvOk `{!TableEnv} := {
  number2int_range n : in_int (number2int n) = true;
  number2int_exact z : in_int z = true -> number2int (NInt z) = z
}.

Section Operations.
Context `{!TableEnv}.

Definition luai_numeq (a b : lua_Number) : bool :=
  match a with NNaN => false | _ => bool_decide (a = b) end.

Definition hashpow2 (t : Table) (n : Z) : nat := Z.to_nat (Z.land n (sizenode t - 1)).
Definition hashmod (t : Table) (n : Z) : nat :=
  Z.to_nat (uwrap32 n mod Z.lor (sizenode t - 1) 1).

Definition hashnum (t : Table) (n : lua_Number) : nat :=
  if luai_numeq n (NInt 0) then 0%nat else hashmod t (number_words n).

Definition hashpointer (t : Table) (p : Z) : nat := hashmod t p.

Definition mainposition (t : Table) (key : lua_value) : nat :=
  match key with
  | LNumber n => hashnum t n
  | LString s => hashpow2 t (str_hash s)
  | LBool b => hashpow2 t (if b then 1 else 0)
  | LLight p => hashpointer t p
  | _ => hashpointer t (gcvalue key)
  end.

(** The same for the key of a node; a dead key is hashed by its address. *)
Definition mainposition_of (t : Table) (k : tkey) : nat :=
  match k with KVal v => mainposition t v | KDead v => hashpointer t (gcvalue v) end.

(** * Searching *)

(** [luaO_rawequalObj(key2tval(n), key)]: a dead key has a type of its own. *)
Definition key_is (key : lua_value) (n : Node) : bool :=
  match i_key n with KVal k => raweq k key | KDead _ => false end.

(** The search loop: from node [n] along the chain. *)
Fixpoint chain_find (fuel : nat) (ns : list Node) (p : Node -> bool) (n : nat) : cres (option nat) :=
  match fuel with
  | O => UB Diverges
  | S fuel =>
      nd ← of_option OutOfBounds (ns !! n);
      if (p nd : bool) then Ok (Some n)
      else match next nd with Some m => chain_find fuel ns p m | None => Ok None end
  end.

Definition find_slot (t : Table) (p : Node -> bool) (n : nat) : cres tslot :=
  r ← chain_find (length (node t)) (node t) p n;
  Ok (match r with Some i => SNode i | None => SNilObject end).

Definition key_is_num (nk : lua_Number) (n : Node) : bool :=
  match i_key n with KVal (LNumber m) => luai_numeq m nk | _ => false end.

Definition luaH_getnum (t : Table) (key : Z) : cres tslot :=
  if uwrap32 (key - 1) <? uwrap32 (sizearray t) then Ok (SArray (Z.to_nat (key - 1)))
  else find_slot t (key_is_num (NInt key)) (hashnum t (NInt key)).

Definition key_is_str (s : list byte) (n : Node) : bool :=
  match i_key n with KVal (LString s') => bool_decide (s' = s) | _ => false end.

Definition luaH_getstr (t : Table) (key : list byte) : cres tslot :=
  find_slot t (key_is_str key) (hashpow2 t (str_hash key)).

Definition luaH_get (t : Table) (key : lua_value) : cres tslot :=
  match key with
  | LNil => Ok SNilObject
  | LString s => luaH_getstr t s
  | LNumber n =>
      let k := number2int n in
      if luai_numeq (NInt k) n then luaH_getnum t k
      else find_slot t (key_is key) (mainposition t key)
  | _ => find_slot t (key_is key) (mainposition t key)
  end.

(** * Counting keys for a rehash *)

Definition arrayindex (key : lua_value) : Z :=
  match key with
  | LNumber n => let k := number2int n in if luai_numeq (NInt k) n then k else -1
  | _ => -1
  end.

(** [nums[i] += c] *)
Definition bump (nums : list Z) (i c : Z) : cres (list Z) :=
  n ← of_option OutOfBounds (nums !! Z.to_nat i); Ok (<[Z.to_nat i := n + c]> nums).

Definition countint (key : lua_value) (nums : list Z) : cres (Z * list Z) :=
  let k := arrayindex key in
  if (0 <? k) && (k <=? MAXASIZE) then
    i ← ceillog2 k; nums ← bump nums i 1; Ok (1, nums)
  else Ok (0, nums).

(** The inner loop of [numusearray]: [k] rounds from [i] on. *)
Fixpoint count_slice (k : nat) (a : list lua_value) (i lc : Z) : cres Z :=
  match k with
  | O => Ok lc
  | S k => v ← of_option OutOfBounds (a !! Z.to_nat (i - 1));
           count_slice k a (i + 1) (if isnil v then lc else lc + 1)
  end.

Fixpoint numusearray_loop (fuel : nat) (t : Table) (nums : list Z) (lg ttlg ause i : Z) :
  cres (Z * list Z) :=
  match fuel with
  | O => UB Diverges
  | S fuel =>
      if lg <=? MAXBITS then
        if (sizearray t <? ttlg) && (sizearray t <? i) then Ok (ause, nums)
        else
          let lim := if sizearray t <? ttlg then sizearray t else ttlg in
          lc ← count_slice (Z.to_nat (lim + 1 - i)) (array t) i 0;
          nums ← bump nums lg lc;
          numusearray_loop fuel t nums (lg + 1) (ttlg * 2) (ause + lc) (Z.max i (lim + 1))
      else Ok (ause, nums)
  end.

Definition numusearray (t : Table) (nums : list Z) : cres (Z * list Z) :=
  numusearray_loop 28 t nums 0 1 0 1.

(** [key2tval]; a node with a value has no dead key. *)
Definition key2tval (n : Node) : lua_value :=
  match i_key n with KVal v => v | KDead _ => LNil end.

(** [while (i--)]: the nodes from the last one on, given here reversed. *)
Fixpoint numusehash_loop (ns : list Node) (nums : list Z) (totaluse ause : Z) :
  cres (Z * Z * list Z) :=
  match ns with
  | [] => Ok (totaluse, ause, nums)
  | n :: ns =>
      if isnil (i_val n) then numusehash_loop ns nums totaluse ause
      else '(c, nums) ← countint (key2tval n) nums;
           numusehash_loop ns nums (totaluse + 1) (ause + c)
  end.

(** Total use, new [*pnasize], [nums]. *)
Definition numusehash (t : Table) (nums : list Z) (nasize : Z) : cres (Z * Z * list Z) :=
  '(totaluse, ause, nums) ← numusehash_loop (reverse (node t)) nums 0 0;
  Ok (totaluse, nasize + ause, nums).

Fixpoint computesizes_loop (fuel : nat) (nums : list Z) (narray i twotoi a na n : Z) : cres (Z * Z) :=
  match fuel with
  | O => UB Diverges
  | S fuel =>
      if twotoi / 2 <? narray then
        c ← of_option OutOfBounds (nums !! Z.to_nat i);
        let '(a, na, n) :=
          if 0 <? c then
            if twotoi / 2 <? a + c then (a + c, a + c, twotoi) else (a + c, na, n)
          else (a, na, n) in
        if a =? narray then Ok (na, n)
        else computesizes_loop fuel nums narray (i + 1) (twotoi * 2) a na n
      else Ok (na, n)
  end.

(** The number of elements of the array part and its size [*narray]. *)
Definition computesizes (nums : list Z) (narray : Z) : cres (Z * Z) :=
  computesizes_loop 28 nums narray 0 1 0 0 0.

(** * Allocation of the two parts *)

Definition setarrayvector (t : Table) (size : Z) : Table :=
  set_array t size (resize (Z.to_nat size) LNil (take (Z.to_nat (sizearray t)) (array t))).

Definition setnodevector (t : Table) (size : Z) : tres Table :=
  if size =? 0 then
    mret (mkTable (sizearray t) (array t) 0 [dummynode_] true 0)
  else
    lsize ← tlift (ceillog2 size);
    if MAXBITS <? lsize then TErr TableOverflow
    else mret (mkTable (sizearray t) (array t) lsize
                 (replicate (Z.to_nat (twoto lsize)) (mkNode LNil (KVal LNil) None))
                 false (twoto lsize)).

Definition luaH_new (narray nhash : Z) : tres Table :=
  setnodevector (setarrayvector (mkTable 0 [] 0 [dummynode_] true 0) narray) nhash.

(** * Insertion *)

Fixpoint getfreepos_loop (fuel : nat) (ns : list Node) (lf : Z) : cres (option nat * Z) :=
  match fuel with
  | O => UB Diverges
  | S fuel =>
      if 0 <? lf then
        nd ← of_option OutOfBounds (ns !! Z.to_nat (lf - 1));
        if bool_decide (i_key nd = KVal LNil) then Ok (Some (Z.to_nat (lf - 1)), lf - 1)
        else getfreepos_loop fuel ns (lf - 1)
      else Ok (None, lf - 1)
  end.

Definition getfreepos (t : Table) : cres (option nat * Table) :=
  '(r, lf) ← getfreepos_loop (S (length (node t))) (node t) (lastfree t);
  Ok (r, set_lastfree t lf).

(** [while (gnext(othern) != mp) othern = gnext(othern)] *)
Fixpoint find_previous (fuel : nat) (ns : list Node) (othern mp : nat) : cres nat :=
  match fuel with
  | O => UB Diverges
  | S fuel =>
      nd ← of_option OutOfBounds (ns !! othern);
      match next nd with
      | Some m => if bool_decide (m = mp) then Ok othern else find_previous fuel ns m mp
      | None => UB NullDeref
      end
  end.

(** The recursion of [newkey] through [rehash] and [resize] is tied below;
    here [nk] stands for [newkey]. *)
Section Open.
Variable nk : Table -> lua_value -> tres (tslot * Table).

Definition luaH_set_with (t : Table) (key : lua_value) : tres (tslot * Table) :=
  p ← tlift (luaH_get t key);
  if bool_decide (p = SNilObject) then
    match key with
    | LNil => TErr IndexIsNil
    | LNumber NNaN => TErr IndexIsNaN
    | _ => nk t key
    end
  else mret (p, t).

Definition luaH_setnum_with (t : Table) (key : Z) : tres (tslot * Table) :=
  p ← tlift (luaH_getnum t key);
  if bool_decide (p = SNilObject) then nk t (LNumber (NInt key)) else mret (p, t).

(** The slice that vanishes from the array part, from index [i] on. *)
Fixpoint reinsert_slice (vs : list lua_value) (i : Z) (t : Table) : tres Table :=
  match vs with
  | [] => mret t
  | v :: vs =>
      if isnil v then reinsert_slice vs (i + 1) t
      else '(s, t) ← luaH_setnum_with t (i + 1);
           t ← tlift (write_slot t s v);
           reinsert_slice vs (i + 1) t
  end.

(** The old nodes, from the last one on (given here reversed). *)
Fixpoint reinsert_nodes (ns : list Node) (t : Table) : tres Table :=
  match ns with
  | [] => mret t
  | n :: ns =>
      if isnil (i_val n) then reinsert_nodes ns t
      else '(s, t) ← luaH_set_with t (key2tval n);
           t ← tlift (write_slot t s (i_val n));
           reinsert_nodes ns t
  end.

Definition resize_with (t : Table) (nasize nhsize : Z) : tres Table :=
  let oldasize := sizearray t in
  let nold := node t in
  let t := if oldasize <? nasize then setarrayvector t nasize else t in
  t ← setnodevector t nhsize;
  t ← (if nasize <? oldasize then
         let t := set_array t nasize (array t) in
         t ← reinsert_slice (take (Z.to_nat (oldasize - nasize)) (drop (Z.to_nat nasize) (array t)))
               nasize t;
         mret (set_array t (sizearray t) (take (Z.to_nat nasize) (array t)))
       else mret t);
  reinsert_nodes (reverse nold) t.

Definition rehash_with (t : Table) (ek : lua_value) : tres Table :=
  let nums := replicate (Z.to_nat (MAXBITS + 1)) 0 in
  '(nasize, nums) ← tlift (numusearray t nums);
  '(use, nasize', nums) ← tlift (numusehash t nums nasize);
  '(c, nums) ← tlift (countint ek nums);
  '(na, n) ← tlift (computesizes nums (nasize' + c));
  resize_with t n (nasize + use + 1 - na).

Definition newkey_with (t : Table) (key : lua_value) : tres (tslot * Table) :=
  let mp := mainposition t key in
  nd ← tlift (gnode t mp);
  if negb (isnil (i_val nd)) || is_dummy t then
    '(r, t) ← tlift (getfreepos t);
    match r with
    | None => t ← rehash_with t key; luaH_set_with t key
    | Some n =>
        let othern := mainposition_of t (i_key nd) in
        if bool_decide (othern ≠ mp) then
          prev ← tlift (find_previous (length (node t)) (node t) othern mp);
          let ns := alter (set_next (Some n)) prev (node t) in
          let ns := match ns !! mp with Some x => <[n := x]> ns | None => ns end in
          let ns := alter (fun x => set_key (KVal key) (set_val LNil (set_next None x))) mp ns in
          mret (SNode mp, set_node t ns)
        else
          let ns := alter (set_next (next nd)) n (node t) in
          let ns := alter (set_next (Some n)) mp ns in
          let ns := alter (set_key (KVal key)) n ns in
          mret (SNode n, set_node t ns)
    end
  else mret (SNode mp, set_node t (alter (set_key (KVal key)) mp (node t))).

End Open.

(** [newkey] calls itself through [rehash]: at most once, as [TableResize]
    shows, after which there is room. *)
Fixpoint newkey (fuel : nat) (t : Table) (key : lua_value) : tres (tslot * Table) :=
  match fuel with
  | O => TUB Diverges
  | S fuel => newkey_with (newkey fuel) t key
  end.

Definition newkey_fuel : nat := 2.

Definition luaH_set (t : Table) (key : lua_value) : tres (tslot * Table) :=
  luaH_set_with (newkey newkey_fuel) t key.

Definition luaH_setnum (t : Table) (key : Z) : tres (tslot * Table) :=
  luaH_setnum_with (newkey newkey_fuel) t key.

Definition luaH_setstr (t : Table) (key : list byte) : tres (tslot * Table) :=
  p ← tlift (luaH_getstr t key);
  if bool_decide (p = SNilObject) then newkey newkey_fuel t (LString key) else mret (p, t).

Definition luaH_resizearray (t : Table) (nasize : Z) : tres Table :=
  let nsize := if is_dummy t then 0 else sizenode t in
  resize_with (newkey newkey_fuel) t nasize nsize.

(** [t[k] = v] as [lua_rawset] and the interpreter do it: find or make the slot,
    then store. *)
Definition table_store (t : Table) (k v : lua_value) : tres Table :=
  '(s, t) ← luaH_set t k; tlift (write_slot t s v).

(** [t[k]] as [lua_rawget] reads it. *)
Definition table_load (t : Table) (k : lua_value) : cres lua_value :=
  s ← luaH_get t k; read_slot t s.

(** * Traversal *)

(** [iscollectable] *)
Definition iscollectable (v : lua_value) : bool := LUA_TSTRING <=? ttype v.

(** A dead key is compared by the identity of its object. *)
Definition next_key_is (key : lua_value) (n : Node) : bool :=
  key_is key n ||
  match i_key n with
  | KDead k => iscollectable key && bool_decide (k = key)
  | KVal _ => false
  end.

Definition findindex (t : Table) (key : lua_value) : tres Z :=
  if isnil key then mret (-1)
  else
    let i := arrayindex key in
    if (0 <? i) && (i <=? sizearray t) then mret (i - 1)
    else
      r ← tlift (chain_find (length (node t)) (node t) (next_key_is key) (mainposition t key));
      match r with
      | Some i => mret (Z.of_nat i + sizearray t)
      | None => TErr InvalidKeyToNext
      end.

(** The two loops of [luaH_next]. *)
Fixpoint next_in_array (vs : list lua_value) (i : Z) : option (lua_value * lua_value) :=
  match vs with
  | [] => None
  | v :: vs => if isnil v then next_in_array vs (i + 1) else Some (LNumber (NInt (i + 1)), v)
  end.

Fixpoint next_in_nodes (ns : list Node) : option (lua_value * lua_value) :=
  match ns with
  | [] => None
  | n :: ns => if isnil (i_val n) then next_in_nodes ns else Some (key2tval n, i_val n)
  end.

Definition luaH_next (t : Table) (key : lua_value) : tres (option (lua_value * lua_value)) :=
  i ← findindex t key;
  let i := i + 1 in
  match next_in_array (drop (Z.to_nat i) (take (Z.to_nat (sizearray t)) (array t))) i with
  | Some e => mret (Some e)
  | None => mret (next_in_nodes (drop (Z.to_nat (Z.max i (sizearray t) - sizearray t)) (node t)))
  end.

(** * Length *)

Definition is_absent (t : Table) (j : Z) : cres bool :=
  s ← luaH_getnum t (wrap32 j); v ← read_slot t s; Ok (isnil v).

Fixpoint linear_search (fuel : nat) (t : Table) (i : Z) : cres Z :=
  match fuel with
  | O => UB Diverges
  | S fuel => b ← is_absent t i;
              if b : bool then Ok (uwrap32 (i - 1)) else linear_search fuel t (uwrap32 (i + 1))
  end.

(** The binary search of [unbound_search] and of [luaH_getn], over the test
    that index [m] is absent. *)
Fixpoint binary_search (fuel : nat) (absent : Z -> cres bool) (i j : Z) : cres Z :=
  match fuel with
  | O => UB Diverges
  | S fuel =>
      if 1 <? uwrap32 (j - i) then
        let m := uwrap32 (i + j) / 2 in
        b ← absent m;
        if b : bool then binary_search fuel absent i m else binary_search fuel absent m j
      else Ok i
  end.

(** At most as many rounds as there are entries. *)
Definition linear_fuel (t : Table) : nat := 2 + length (array t) + length (node t).

Fixpoint doubling_search (fuel : nat) (t : Table) (i j : Z) : cres Z :=
  match fuel with
  | O => UB Diverges
  | S fuel =>
      b ← is_absent t j;
      if b : bool then binary_search 32 (is_absent t) i j
      else
        let i := j in
        let j := uwrap32 (j * 2) in
        if INT_MAX <? j then linear_search (linear_fuel t) t 1
        else doubling_search fuel t i j
  end.

Definition unbound_search (t : Table) (j : Z) : cres Z :=
  doubling_search 32 t j (uwrap32 (j + 1)).

Definition luaH_getn (t : Table) : cres Z :=
  let j := sizearray t in
  last_nil ← (if 0 <? j then v ← of_option OutOfBounds (array t !! Z.to_nat (j - 1)); Ok (isnil v)
              else Ok false);
  if last_nil : bool then
    binary_search 32
      (fun m => v ← of_option OutOfBounds (array t !! Z.to_nat (m - 1)); Ok (isnil v)) 0 j
  else if is_dummy t then Ok j
  else unbound_search t j.

End Operations.

(** * The collector's part (lgc.c) *)

(** An empty entry whose key is an object gets a dead key. *)
Definition removeentry (n : Node) : Node :=
  match i_key n with
  | KVal k => if (LUA_TSTRING <=? ttype k) then set_key (KDead k) n else n
  | KDead _ => n
  end.

(** [traversetable] on the entries of a table that hold nil. *)
Definition clear_dead_keys (t : Table) : Table :=
  set_node t ((fun n => if isnil (i_val n) then removeentry n else n) <$> node t).

End Table.
