(* ===== verification/TableChain.v ===== *)
(** The hash part of a Lua table (ltable.c): the invariant of its chains, that
    the search loops end and find every key, and that each of the three ways in
    which [newkey] places a key keeps the invariant. *)
From S2P Require Import Prelude LuaApi LuaTable.
Import Table.

(** * The chains *)

Definition key_of (ns : list Node) (i : nat) : option tkey := i_key <$> ns !! i.
Definition val_of (ns : list Node) (i : nat) : option lua_value := i_val <$> ns !! i.
Definition next_of (ns : list Node) (i : nat) : option nat := ns !! i ≫= next.

Definition step (ns : list Node) (i j : nat) : Prop := next_of ns i = Some j.

(** A free node has the key nil; it is in no chain. *)
Abbreviation free_key := (KVal LNil).

(** The object a key was made from. *)
Definition kv (k : tkey) : lua_value := match k with KVal v | KDead v => v end.

(** [mpos] gives the main position of a key. [ci_reach] is what the searches
    need; [ci_main] is the main invariant in the comment of ltable.c, which
    also holds for dead keys; by [ci_order] a key that was removed, marked dead
    and stored again is met before its dead copy. *)
Record chain_inv (mpos : lua_value -> nat) (ns : list Node) : Prop := {
  ci_next i j : step ns i j -> exists k, key_of ns j = Some k /\ k ≠ free_key;
  ci_inj i j k : step ns i k -> step ns j k -> i = j;
  ci_acyclic : exists rank : nat -> nat, forall i j, step ns i j -> (rank j < rank i)%nat;
  ci_free i : key_of ns i = Some free_key -> next_of ns i = None /\ val_of ns i = Some LNil;
  ci_dead i k : key_of ns i = Some (KDead k) -> val_of ns i = Some LNil;
  ci_nan i : key_of ns i ≠ Some (KVal (LNumber NNaN));
  ci_uniq i j k : k ≠ LNil -> key_of ns i = Some (KVal k) -> key_of ns j = Some (KVal k) -> i = j;
  ci_reach i k : key_of ns i = Some k -> k ≠ free_key -> rtc (step ns) (mpos (kv k)) i;
  ci_main i k : key_of ns i = Some k -> k ≠ free_key ->
    exists k', key_of ns (mpos (kv k)) = Some k' /\ k' ≠ free_key /\ mpos (kv k') = mpos (kv k);
  ci_order i j k : key_of ns i = Some (KDead k) -> key_of ns j = Some (KVal k) -> ~ tc (step ns) i j
}.

Lemma key_of_lt ns i k : key_of ns i = Some k -> (i < length ns)%nat.
Proof. unfold key_of. intros (nd & H & _)%fmap_Some. by eapply lookup_lt_Some. Qed.

Lemma key_of_is_Some ns i : (i < length ns)%nat -> exists k, key_of ns i = Some k.
Proof. intros [nd H]%lookup_lt_is_Some. unfold key_of. rewrite H. by eexists. Qed.

Lemma next_of_lt ns i j : step ns i j -> (i < length ns)%nat.
Proof. unfold step, next_of. intros (nd & H & _)%bind_Some. by eapply lookup_lt_Some. Qed.

Lemma ci_reach_val mpos ns i k : chain_inv mpos ns -> k ≠ LNil -> key_of ns i = Some (KVal k) ->
  rtc (step ns) (mpos k) i.
Proof. intros C Hk Hi. apply (ci_reach _ _ C i (KVal k) Hi). congruence. Qed.

Lemma acyclic_tc mpos ns i : chain_inv mpos ns -> ~ tc (step ns) i i.
Proof.
  intros C. destruct (ci_acyclic _ _ C) as [rank Hr].
  cut (forall j, tc (step ns) i j -> (rank j < rank i)%nat).
  { intros H Hi. specialize (H _ Hi). lia. }
  intros j. induction 1 as [i j H|i x j H _ IH]; [by apply Hr|]. specialize (Hr _ _ H). lia.
Qed.

(** * Walking a chain *)

Section Walk.
Context (mpos : lua_value -> nat) (ns : list Node) (C : chain_inv mpos ns).

(** Fuel for one round per node is enough, since a chain visits no node twice. *)
Lemma walk_ind (P : nat -> nat -> Prop) :
  (forall f i, (i < length ns)%nat -> (forall j, step ns i j -> P f j) -> P (S f) i) ->
  forall i, (i < length ns)%nat -> P (length ns) i.
Proof.
  intros Hs. destruct (ci_acyclic _ _ C) as [rank Hr].
  cut (forall f i vis, (i < length ns)%nat -> NoDup vis ->
         Forall (fun v => (v < length ns /\ rank i < rank v)%nat) vis ->
         (length vis + f = length ns)%nat -> P f i).
  { intros H i Hi. apply (H _ i []); [done| constructor | constructor | done]. }
  induction f as [|f IH]; intros i vis Hi Hn Hv Hl.
  - exfalso. assert (NoDup (i :: vis)) as Hn'.
    { constructor; [|done]. intros Hin. rewrite Forall_forall in Hv. specialize (Hv _ Hin). lia. }
    assert (i :: vis ⊆ seq 0 (length ns)) as Hs'.
    { intros x [->|Hx]%elem_of_cons; apply elem_of_seq; [lia|].
      rewrite Forall_forall in Hv. specialize (Hv _ Hx). lia. }
    pose proof (submseteq_length _ _ (NoDup_submseteq _ _ Hn' Hs')) as Hlen.
    rewrite length_seq in Hlen. simpl in Hlen. lia.
  - apply Hs; [done|]. intros j Hj. apply (IH j (i :: vis)).
    + destruct (ci_next _ _ C _ _ Hj) as (k & Hk & _). by eapply key_of_lt.
    + constructor; [|done]. intros Hin. rewrite Forall_forall in Hv. specialize (Hv _ Hin). lia.
    + pose proof (Hr _ _ Hj). constructor; [lia|].
      eapply Forall_impl; [exact Hv|]. simpl. lia.
    + simpl. lia.
Qed.

(** The search ends, with the first node of the chain that passes the test. *)
Lemma chain_find_spec p i : (i < length ns)%nat ->
  exists r, chain_find (length ns) ns p i = Ok r /\
    match r with
    | Some j => rtc (step ns) i j /\ (exists nd, ns !! j = Some nd /\ p nd = true) /\
        forall j' nd, rtc (step ns) i j' -> tc (step ns) j' j -> ns !! j' = Some nd -> p nd = false
    | None => forall j nd, rtc (step ns) i j -> ns !! j = Some nd -> p nd = false
    end.
Proof.
  revert i. apply (walk_ind (fun f i => exists r, chain_find f ns p i = Ok r /\
    match r with
    | Some j => rtc (step ns) i j /\ (exists nd, ns !! j = Some nd /\ p nd = true) /\
        forall j' nd, rtc (step ns) i j' -> tc (step ns) j' j -> ns !! j' = Some nd -> p nd = false
    | None => forall j nd, rtc (step ns) i j -> ns !! j = Some nd -> p nd = false
    end)). intros f i Hi IH.
  destruct (lookup_lt_is_Some_2 ns i Hi) as [nd Hnd]. cbn [chain_find]. rewrite Hnd.
  cbn [of_option mbind cres_bind]. destruct (p nd) eqn:Hp.
  { eexists; split; [done|]. split_and!; [done|eauto|]. intros j' nd' H1 H2 _.
    destruct (acyclic_tc _ _ i C). by eapply tc_rtc_l. }
  assert (next_of ns i = next nd) as Hnx by (unfold next_of; by rewrite Hnd).
  destruct (next nd) as [m|] eqn:Hm.
  - destruct (IH m) as (r & -> & Hr); [done|]. exists r. split; [done|].
    destruct r as [j|].
    + destruct Hr as (Hr & Hnd' & Hbefore). split_and!; [by eapply rtc_l|done|].
      intros j' nd' [->|(y & Hy & Hyj)]%rtc_inv H2 Hj'; [by simplify_eq|].
      unfold step in Hy. simplify_eq. eauto.
    + intros j nd' [->|(y & Hy & Hyj)]%rtc_inv Hj; [by simplify_eq|].
      unfold step in Hy. simplify_eq. eauto.
  - exists None. split; [done|]. intros j nd' [->|(y & Hy & _)]%rtc_inv Hj; [by simplify_eq|].
    unfold step in Hy. congruence.
Qed.

(** A node has one successor, so the nodes reached from it are in line. *)
Lemma chain_linear i a b : rtc (step ns) i a -> rtc (step ns) i b -> rtc (step ns) a b \/ rtc (step ns) b a.
Proof.
  intros Ha. revert b. induction Ha as [|i x a Hx Hxa IH]; intros b Hb; [by left|].
  destruct (rtc_inv _ _ Hb) as [->|(y & Hy & Hyb)]; [right; by eapply rtc_l|].
  unfold step in Hx, Hy. simplify_eq. by apply IH.
Qed.

(** The node before [mp] in the chain is found. *)
Lemma find_previous_spec mp i : (i < length ns)%nat -> rtc (step ns) i mp -> i ≠ mp ->
  exists prev, find_previous (length ns) ns i mp = Ok prev /\ step ns prev mp.
Proof.
  revert i. apply (walk_ind (fun f i => rtc (step ns) i mp -> i ≠ mp ->
    exists prev, find_previous f ns i mp = Ok prev /\ step ns prev mp)).
  intros f i Hi IH Hr Hne. destruct (rtc_inv _ _ Hr) as [->|(j & Hj & Hr')]; [done|].
  destruct (lookup_lt_is_Some_2 ns i Hi) as [nd Hnd].
  assert (next nd = Some j) as Hnx by (unfold step, next_of in Hj; by rewrite Hnd in Hj).
  cbn [find_previous]. rewrite Hnd. cbn [of_option mbind cres_bind]. rewrite Hnx.
  case_bool_decide; [subst; eauto|]. by apply IH.
Qed.

End Walk.

(** * Free places *)

(** Nodes that hold a key, even one whose value is nil by now. *)
Definition used (ns : list Node) : nat :=
  length (filter (fun i => key_of ns i ≠ Some free_key) (seq 0 (length ns))).

Lemma filter_all {A} (P : A -> Prop) `{!forall x, Decision (P x)} l :
  Forall P l -> filter P l = l.
Proof. induction 1; [done|]. rewrite filter_cons_True by done. by f_equal. Qed.

Lemma filter_none {A} (P : A -> Prop) `{!forall x, Decision (P x)} l :
  Forall (fun x => ~ P x) l -> filter P l = [].
Proof. induction 1; [done|]. by rewrite filter_cons_False. Qed.

Lemma filter_length_S {A} (P Q : A -> Prop) `{!forall x, Decision (P x), !forall x, Decision (Q x)}
    (a : A) (l : list A) : NoDup l -> (forall x, x ∈ l -> Q x -> P x \/ x = a) ->
  (length (filter Q l) <= S (length (filter P l)))%nat.
Proof.
  intros Hn Hl. change (S (length (filter P l))) with (length (a :: filter P l)).
  apply submseteq_length, NoDup_submseteq; [by apply NoDup_filter|].
  intros x [Hx Hin]%list_elem_of_filter. apply elem_of_cons.
  destruct (Hl x Hin Hx); [right; by apply list_elem_of_filter | by left].
Qed.

Lemma used_room ns : (used ns < length ns)%nat -> exists i, key_of ns i = Some free_key.
Proof.
  intros H. destruct (decide (Exists (fun i => key_of ns i = Some free_key) (seq 0 (length ns)))) as [E|E].
  - apply Exists_exists in E as (i & _ & Hi). eauto.
  - exfalso. apply not_Exists_Forall in E; [|intros ?; apply _].
    unfold used in H. rewrite filter_all in H by done. rewrite length_seq in H. lia.
Qed.

Lemma used_le ns ns' n : length ns' = length ns ->
  (forall i, i ≠ n -> key_of ns' i ≠ Some free_key -> key_of ns i ≠ Some free_key) ->
  (used ns' <= S (used ns))%nat.
Proof.
  intros Hl H. unfold used. rewrite Hl. apply filter_length_S with (a := n); [apply NoDup_seq|].
  intros i _ Hi. destruct (decide (i = n)); [by right|left; by apply H].
Qed.

Lemma used_replicate n : used (replicate n dummynode_) = 0%nat.
Proof.
  unfold used. rewrite filter_none; [done|]. apply Forall_forall.
  intros i Hi. rewrite length_replicate in Hi. apply elem_of_seq in Hi.
  unfold key_of. rewrite lookup_replicate_2 by lia. auto.
Qed.

(** From [lf] downwards the last free place is found, if there is one. *)
Lemma getfreepos_loop_spec ns fuel lf : (Z.to_nat lf < fuel)%nat -> lf <= blen ns ->
  exists r lf', getfreepos_loop fuel ns lf = Ok (r, lf') /\ lf' < lf /\
    match r with
    | Some n => Z.of_nat n = lf' /\ key_of ns n = Some free_key /\
        forall i, lf' < Z.of_nat i < lf -> key_of ns i ≠ Some free_key
    | None => lf' < 0 /\ forall i, Z.of_nat i < lf -> key_of ns i ≠ Some free_key
    end.
Proof.
  revert lf. induction fuel as [|fuel IH]; intros lf Hf Hl; [lia|].
  cbn [getfreepos_loop]. destruct (Z.ltb_spec 0 lf) as [H0|H0].
  - assert (Z.to_nat (lf - 1) < length ns)%nat as Hlt by (unfold blen in Hl; lia).
    destruct (lookup_lt_is_Some_2 _ _ Hlt) as [nd Hnd]. rewrite Hnd.
    cbn [of_option mbind cres_bind].
    assert (key_of ns (Z.to_nat (lf - 1)) = Some (i_key nd)) as Hk by (unfold key_of; by rewrite Hnd).
    case_bool_decide as Hkey.
    + eexists _, _; split; [done|]. split; [lia|]. rewrite Hkey in Hk.
      split_and!; [lia|done|lia].
    + destruct (IH (lf - 1)) as (r & lf' & -> & Hlf & Hr); [lia|lia|].
      exists r, lf'. split; [done|]. split; [lia|].
      assert (forall i, Z.of_nat i = lf - 1 -> key_of ns i ≠ Some free_key) as Hthis.
      { intros i Hi. replace i with (Z.to_nat (lf - 1)) by lia. congruence. }
      destruct r as [n|].
      * destruct Hr as (H1 & H2 & H3). split_and!; [done..|]. intros i Hi.
        destruct (Z.eq_dec (Z.of_nat i) (lf - 1)); [auto | apply H3; lia].
      * destruct Hr as (H1 & H3). split; [done|]. intros i Hi.
        destruct (Z.eq_dec (Z.of_nat i) (lf - 1)); [auto | apply H3; lia].
  - eexists _, _; split; [done|]. split; [lia|]. split; [lia|]. intros i Hi. lia.
Qed.

(** * Placing a key *)

Lemma key_of_alter f ns i j :
  key_of (alter f i ns) j = if decide (j = i) then (fun n => i_key (f n)) <$> ns !! i else key_of ns j.
Proof.
  unfold key_of. case_decide; subst.
  - rewrite list_lookup_alter_eq. by destruct (ns !! i).
  - by rewrite list_lookup_alter_ne.
Qed.

Lemma val_of_alter f ns i j :
  val_of (alter f i ns) j = if decide (j = i) then (fun n => i_val (f n)) <$> ns !! i else val_of ns j.
Proof.
  unfold val_of. case_decide; subst.
  - rewrite list_lookup_alter_eq. by destruct (ns !! i).
  - by rewrite list_lookup_alter_ne.
Qed.

Lemma next_of_alter f ns i j :
  next_of (alter f i ns) j = if decide (j = i) then ns !! i ≫= (fun n => next (f n)) else next_of ns j.
Proof.
  unfold next_of. case_decide; subst.
  - rewrite list_lookup_alter_eq. by destruct (ns !! i).
  - by rewrite list_lookup_alter_ne.
Qed.

Section Place.
Context (mpos : lua_value -> nat) (ns : list Node) (C : chain_inv mpos ns).
Context (key : lua_value) (Hnil : key ≠ LNil) (Hnan : key ≠ LNumber NNaN).
Context (Hfresh : forall i, key_of ns i ≠ Some (KVal key)).

(** What a placement does to keys, values and chains, seen as functions. *)
Context (ns' : list Node).

(** The main position holds no value: the key goes there, into whatever chain
    the node is in. *)
Lemma chain_overwrite mp : mpos key = mp -> val_of ns mp = Some LNil ->
  (forall i, key_of ns' i = if decide (i = mp) then Some (KVal key) else key_of ns i) ->
  (forall i, val_of ns' i = val_of ns i) -> (forall i, next_of ns' i = next_of ns i) ->
  chain_inv mpos ns'.
Proof.
  intros Hmp Hv HK HV HN.
  assert (forall i j, step ns' i j <-> step ns i j) as HS by (intros; unfold step; by rewrite HN).
  assert (forall i j, rtc (step ns) i j -> rtc (step ns') i j) as HR.
  { intros i j. apply (rtc_congruence id). intros; by apply HS. }
  split.
  - intros i j Hij%HS. rewrite HK. case_decide; [eexists; split; [done|congruence]|].
    by eapply ci_next.
  - intros i j k ?%HS ?%HS. by eapply ci_inj.
  - destruct (ci_acyclic _ _ C) as [r Hr]. exists r. intros i j ?%HS. auto.
  - intros i. rewrite HK, HN, HV. case_decide; [congruence|]. by eapply ci_free.
  - intros i k. rewrite HK, HV. case_decide; [congruence|]. by eapply ci_dead.
  - intros i. rewrite HK. case_decide; [congruence|]. by eapply ci_nan.
  - intros i j k Hk. rewrite !HK. case_decide; case_decide; [congruence|..].
    + intros [= ->] Hj. by destruct (Hfresh j).
    + intros Hi [= ->]. by destruct (Hfresh i).
    + by eapply ci_uniq.
  - intros i k. rewrite HK. case_decide; [intros [= <-] _; simpl; by subst|].
    intros Hi Hk. by eapply HR, ci_reach.
  - intros i k Hi Hk. destruct (decide (mpos (kv k) = mp)) as [Hq|Hq].
    + exists (KVal key). rewrite HK, decide_True by done. simpl. split_and!; congruence.
    + rewrite HK, decide_False by done. rewrite HK in Hi. case_decide; [|by eapply ci_main].
      simplify_eq.
  - intros i j k. rewrite !HK. case_decide; [done|]. intros Hi Hj Htc.
    apply (tc_congruence id (step ns)) in Htc; [|intros; by apply HS].
    case_decide; [|by eapply ci_order]. simplify_eq. eapply (acyclic_tc _ _ i C), tc_rtc_r; [done|].
    apply (ci_reach _ _ C i _ Hi). done.
Qed.

(** The colliding node is in its main position: the key goes to the free place
    [n], chained after it. *)
Section Append.
Context (mp n : nat) (k0 : lua_value).
Context (Hmp : mpos key = mp) (Hk0 : key_of ns mp = Some (KVal k0)) (Hm0 : mpos k0 = mp).
Context (Hk0n : k0 ≠ LNil) (Hn : key_of ns n = Some free_key).
Context (HK : forall i, key_of ns' i = if decide (i = n) then Some (KVal key) else key_of ns i).
Context (HV : forall i, val_of ns' i = val_of ns i).
Context (HN : forall i, next_of ns' i = if decide (i = n) then next_of ns mp
                        else if decide (i = mp) then Some n else next_of ns i).

Lemma append_step_inv i j : step ns' i j ->
  (i = n /\ step ns mp j) \/ (i = mp /\ j = n) \/ (i ≠ n /\ i ≠ mp /\ step ns i j).
Proof. unfold step. rewrite HN. repeat case_decide; subst; naive_solver. Qed.

Lemma append_not_into i : ~ step ns i n.
Proof. intros Hi. destruct (ci_next _ _ C _ _ Hi) as (k & Hk & Hf). congruence. Qed.

Lemma append_reach i j : rtc (step ns) i j -> rtc (step ns') i j.
Proof.
  destruct (ci_free _ _ C _ Hn) as [Hnn _]. induction 1 as [|i x j Hx _ IH]; [done|]. trans x; [|done].
  destruct (decide (i = mp)) as [->|].
  - eapply rtc_l; [|eapply rtc_once]; unfold step; rewrite HN; [by rewrite decide_False, decide_True by congruence|].
    by rewrite decide_True.
  - apply rtc_once. unfold step. rewrite HN, !decide_False; [done|done|].
    intros ->. unfold step in Hx. congruence.
Qed.

(** Seen with [n] merged into [mp], the chains are the old ones. *)
Lemma append_merge i j : rtc (step ns') i j ->
  rtc (step ns) (if decide (i = n) then mp else i) (if decide (j = n) then mp else j).
Proof.
  induction 1 as [|i x j Hx _ IH]; [done|]. etrans; [|exact IH].
  destruct (append_step_inv _ _ Hx) as [[-> H1]|[[-> ->]|(? & ? & H1)]];
    repeat case_decide; subst; try done; try (by destruct (append_not_into _ H1)); by apply rtc_once.
Qed.

Lemma chain_append : chain_inv mpos ns'.
Proof.
  assert (n ≠ mp) as Hne by congruence. pose proof append_not_into as Hin. pose proof append_step_inv as HS.
  split.
  - intros i j Hij. rewrite HK. case_decide; [eexists; split; [done|congruence]|].
    destruct (HS _ _ Hij) as [[_ H1]|[[_ ?]|[_ [_ H1]]]]; [|done|]; by eapply ci_next.
  - intros i j k Hi Hj. pose proof (HS _ _ Hi) as Hi'. pose proof (HS _ _ Hj) as Hj'.
    destruct Hi' as [[-> H1]|[[-> ->]|(? & ? & H1)]], Hj' as [[-> H2]|[[-> H2]|(? & ? & H2)]];
      subst; try done; try (by destruct (Hin _ H1)); try (by destruct (Hin _ H2)).
    all: pose proof (ci_inj _ _ C _ _ _ H1 H2); congruence.
  - destruct (ci_acyclic _ _ C) as [r Hr].
    exists (fun i => if decide (i = n) then 2 * r mp else 2 * r i + 1)%nat. intros i j Hij.
    destruct (HS _ _ Hij) as [[-> H1]|[[-> ->]|(? & ? & H1)]].
    all: repeat case_decide; subst; try done; try (by destruct (Hin _ H1));
      try (pose proof (Hr _ _ H1)); lia.
  - intros i. rewrite HK, HV, HN. case_decide; [congruence|]. intros Hi.
    rewrite decide_False by congruence. by eapply ci_free.
  - intros i k. rewrite HK, HV. case_decide; [congruence|]. by eapply ci_dead.
  - intros i. rewrite HK. case_decide; [congruence|]. by eapply ci_nan.
  - intros i j k Hk. rewrite !HK. case_decide; case_decide; [congruence|..].
    + intros [= ->] Hj. by destruct (Hfresh j).
    + intros Hi [= ->]. by destruct (Hfresh i).
    + by eapply ci_uniq.
  - intros i k. rewrite HK. case_decide as Hd; [intros [= <-] _; subst i|].
    + simpl. rewrite Hmp. apply rtc_once. unfold step. by rewrite HN, decide_False, decide_True.
    + intros Hi Hk. by eapply append_reach, ci_reach.
  - intros i k Hi Hk. destruct (decide (k = KVal key)) as [->|Hkk].
    + simpl. rewrite Hmp. exists (KVal k0). rewrite HK, decide_False by done. split_and!; simpl; congruence.
    + rewrite HK in Hi. case_decide; [congruence|].
      destruct (ci_main _ _ C _ _ Hi Hk) as (k' & H1 & H2 & H3).
      exists k'. rewrite HK. rewrite decide_False by congruence. done.
  - intros i j k. rewrite !HK. case_decide as Hi; [done|]. intros HKi HKj Htc%tc_rtc.
    apply append_merge in Htc. rewrite (decide_False (P := i = n)) in Htc by done.
    apply rtc_tc in Htc as [Hr|Hr]; case_decide; try congruence; [|by eapply ci_order].
    simplify_eq. eapply (acyclic_tc _ _ i C), tc_rtc_r; [exact Hr|]. by apply (ci_reach _ _ C i _ HKi).
Qed.

End Append.

(** The colliding node is not in its main position: it moves to the free place
    [n], its chain goes through [n], and the key takes its main position. *)
Section Move.
Context (mp n prev : nat) (k0 : lua_value).
Context (Hmp : mpos key = mp) (Hk0 : key_of ns mp = Some (KVal k0)) (Hk0n : k0 ≠ LNil).
Context (Hm0 : mpos k0 ≠ mp) (Hprev : step ns prev mp) (Hn : key_of ns n = Some free_key).
Context (HK : forall i, key_of ns' i = if decide (i = mp) then Some (KVal key)
                        else if decide (i = n) then Some (KVal k0) else key_of ns i).
Context (HV : forall i, val_of ns' i = if decide (i = mp) then Some LNil
                        else if decide (i = n) then val_of ns mp else val_of ns i).
Context (HN : forall i, next_of ns' i = if decide (i = mp) then None
                        else if decide (i = n) then next_of ns mp
                        else if decide (i = prev) then Some n else next_of ns i).

(** The chains are the old ones with [mp] renamed to [n], and back. *)
Definition rename (i : nat) : nat := if decide (i = mp) then n else i.
Definition unname (i : nat) : nat := if decide (i = n) then mp else i.

Lemma rename_other i : i ≠ mp -> rename i = i.
Proof. unfold rename. intros. by rewrite decide_False. Qed.

Lemma rename_mp : rename mp = n.
Proof. unfold rename. by rewrite decide_True. Qed.

Lemma step_not_free i j : step ns i j -> i ≠ n /\ j ≠ n.
Proof.
  intros Hij. destruct (ci_free _ _ C _ Hn) as [Hnn _]. split; intros ->.
  - unfold step in Hij. congruence.
  - destruct (ci_next _ _ C _ _ Hij) as (k & Hk & Hf). congruence.
Qed.

Lemma step_irrefl i : ~ step ns i i.
Proof. intros H. destruct (ci_acyclic _ _ C) as [r Hr]. specialize (Hr _ _ H). lia. Qed.

Lemma move_step i j : step ns i j -> step ns' (rename i) (rename j).
Proof.
  intros Hij. destruct (step_not_free _ _ Hij) as [Hi Hj]. unfold step. rewrite HN.
  destruct (decide (i = mp)) as [->|Him].
  - rewrite rename_mp, decide_False by congruence. rewrite decide_True by done.
    rewrite rename_other; [done|]. intros ->. by eapply step_irrefl.
  - rewrite (rename_other i), !decide_False by done. destruct (decide (i = prev)) as [->|].
    + assert (j = mp) as -> by (unfold step in *; congruence). by rewrite rename_mp.
    + rewrite rename_other; [done|]. intros ->. by apply (ci_inj _ _ C i prev) in Hprev.
Qed.

Lemma move_step_inv i j : step ns' i j ->
  i ≠ mp /\ j ≠ mp /\ i = rename (unname i) /\ j = rename (unname j) /\ step ns (unname i) (unname j).
Proof.
  assert (n ≠ mp) as Hne by congruence.
  assert (forall x, x ≠ mp -> x = rename (unname x)) as Hru.
  { intros x Hx. unfold rename, unname. repeat case_decide; congruence. }
  unfold step. rewrite HN. destruct (decide (i = mp)) as [|Him]; [done|]. intros H.
  assert (j ≠ mp /\ step ns (unname i) (unname j)) as [Hj Hst].
  { unfold unname. destruct (decide (i = n)) as [->|Hin].
    - assert (j ≠ mp) by (intros ->; by eapply step_irrefl). split; [done|].
      rewrite decide_False by (by eapply step_not_free). done.
    - destruct (decide (i = prev)) as [->|].
      + assert (j = n) as -> by congruence. by rewrite decide_True.
      + assert (j ≠ mp) by (intros ->; by apply (ci_inj _ _ C i prev) in Hprev). split; [done|].
        rewrite decide_False by (by eapply step_not_free). done. }
  split_and!; auto.
Qed.

Lemma move_reach i k : k ≠ free_key -> key_of ns i = Some k -> rtc (step ns') (mpos (kv k)) (rename i).
Proof.
  intros Hk Hi. rewrite <- (rename_other (mpos (kv k))).
  - eapply (rtc_congruence rename); [exact move_step|]. by eapply ci_reach.
  - intros Hq. destruct (ci_main _ _ C _ _ Hi Hk) as (x & Hx & _ & Hx'). rewrite Hq in Hx.
    apply Hm0. rewrite <- Hq, <- Hx'. simplify_eq. done.
Qed.

Lemma move_uniq i j k : k ≠ LNil -> key_of ns' i = Some (KVal k) -> key_of ns' j = Some (KVal k) -> i = j.
Proof.
  intros Hk. rewrite !HK. intros Hi Hj.
  repeat case_decide; subst; try done; try congruence; try (by eapply (ci_uniq _ _ C));
    exfalso; simplify_eq; try (by eapply Hfresh);
    match goal with
    | H : key_of ns ?x = Some (KVal ?a), H2 : key_of ns ?y = Some (KVal ?a), H' : ?x ≠ ?y |- _ =>
        apply H'; by eapply (ci_uniq _ _ C)
    end.
Qed.

Lemma chain_move : chain_inv mpos ns'.
Proof.
  assert (n ≠ mp) as Hne by congruence.
  split.
  - intros i j Hij. destruct (move_step_inv _ _ Hij) as (_ & Hj & _ & _ & H1). rewrite HK.
    rewrite decide_False by done. case_decide as Hd; [eexists; split; [done|congruence]|].
    unfold unname in H1. rewrite (decide_False (P := j = n)) in H1 by done. by eapply ci_next.
  - intros i j k Hi Hj. destruct (move_step_inv _ _ Hi) as (_ & _ & Ei & _ & H1).
    destruct (move_step_inv _ _ Hj) as (_ & _ & Ej & _ & H2).
    rewrite Ei, Ej. f_equal. by eapply ci_inj.
  - destruct (ci_acyclic _ _ C) as [r Hr]. exists (fun i => r (unname i)). intros i j Hij.
    by apply Hr, move_step_inv.
  - intros i. rewrite HK, HV, HN. repeat case_decide; try congruence; [|by eapply ci_free].
    intros Hi. exfalso. subst. destruct (ci_free _ _ C _ Hi) as [H1 _]. unfold step in Hprev. congruence.
  - intros i k. rewrite HK, HV. repeat case_decide; try congruence. by eapply ci_dead.
  - intros i. rewrite HK. repeat case_decide; [congruence| |by eapply ci_nan].
    rewrite <- Hk0. by eapply ci_nan.
  - exact move_uniq.
  - intros i k. rewrite HK. case_decide as H1; [intros [= <-] _; simpl; by subst|]. case_decide as H2.
    + intros [= <-] ?. subst i. rewrite <- rename_mp. by apply move_reach.
    + intros Hi Hk. rewrite <- (rename_other i) by done. by apply move_reach.
  - intros i k Hi Hk. destruct (decide (k = KVal key)) as [->|Hkk].
    { exists (KVal key). simpl. rewrite HK, decide_True by done. split_and!; congruence. }
    assert (exists i', key_of ns i' = Some k) as [i' Hi'].
    { rewrite HK in Hi. repeat case_decide; simplify_eq; eauto. }
    destruct (ci_main _ _ C _ _ Hi' Hk) as (k' & H1 & H2 & H3).
    assert (mpos (kv k) ≠ mp) as Hq.
    { intros Hq. rewrite Hq in H1. apply Hm0. rewrite <- Hq, <- H3. simplify_eq. done. }
    exists k'. rewrite HK, !decide_False by congruence. done.
  - intros i j k HKi HKj Htc. rewrite HK in HKi. rewrite HK in HKj.
    destruct (decide (i = mp)) as [|Hi]; [done|]. destruct (decide (i = n)) as [|Hi']; [done|].
    destruct (decide (j = mp)) as [Hj|Hj].
    { revert Hj. apply tc_ind_r with (P := fun j => j ≠ mp) in Htc; [done| |]; intros; by eapply move_step_inv. }
    apply (tc_congruence unname (step ns)) in Htc; [|apply move_step_inv]. unfold unname in Htc.
    rewrite (decide_False (P := i = n)) in Htc by done. case_decide; simplify_eq; by eapply ci_order.
Qed.

End Move.

End Place.
