(* ===== verification/TableMap.v ===== *)
(** A Lua table as a map (ltable.c): the invariant of the whole table, the value
    [tval] of a key, that [luaH_get] finds it, and that storing through a slot
    and placing a key change nothing else. *)
From S2P Require Import Prelude LuaApi LuaTable TableChain.
Import Table.

Definition array_index (t : Table) (k : lua_value) : option nat :=
  match k with
  | LNumber (NInt z) => if (1 <=? z) && (z <=? sizearray t) then Some (Z.to_nat (z - 1)) else None
  | _ => None
  end.

(** A key that can be stored. *)
Definition valid_key (k : lua_value) : Prop := k ≠ LNil /\ k ≠ LNumber NNaN.

Section Map.
Context {TE : TableEnv} {TEok : TableEnvOk}.

Record table_inv (t : Table) : Prop := {
  ti_array : 0 <= sizearray t <= blen (array t);
  ti_asize : sizearray t <= MAXASIZE;
  ti_lsize : 0 <= lsizenode t <= MAXBITS;
  ti_nodes : blen (node t) = 2 ^ lsizenode t;
  ti_dummy : is_dummy t = true -> node t = [dummynode_];
  ti_chain : chain_inv (mainposition t) (node t);
  ti_last : lastfree t <= if is_dummy t then 0 else blen (node t);
  ti_above i : is_dummy t = false -> lastfree t <= Z.of_nat i -> key_of (node t) i ≠ Some free_key;
  ti_hash i k : key_of (node t) i = Some (KVal k) -> array_index t k = None
}.

(** * Main positions *)

Lemma hash_sizes s : 0 <= s <= MAXBITS -> twoto s = 2 ^ s /\ 0 < Z.lor (2 ^ s - 1) 1 <= 2 ^ s.
Proof.
  intros Hs. split; [unfold twoto; rewrite Z.shiftl_1_l; lia|].
  assert (forallb (fun s : nat => (0 <? Z.lor (2 ^ Z.of_nat s - 1) 1) &&
    (Z.lor (2 ^ Z.of_nat s - 1) 1 <=? 2 ^ Z.of_nat s)) (seq 0 27) = true) as Hall by (vm_compute; done).
  unfold MAXBITS in Hs. rewrite forallb_forall in Hall. specialize (Hall (Z.to_nat s)).
  rewrite Z2Nat.id in Hall by lia. rewrite andb_true_iff, Z.ltb_lt, Z.leb_le in Hall.
  apply Hall, in_seq. lia.
Qed.

Lemma hashpow2_lt t n : 0 <= lsizenode t <= MAXBITS -> (hashpow2 t n < Z.to_nat (2 ^ lsizenode t))%nat.
Proof.
  intros Hs. unfold hashpow2, sizenode. destruct (hash_sizes _ Hs) as [-> _].
  rewrite Z.sub_1_r, <- Z.ones_equiv, Z.land_ones by lia.
  pose proof (Z.mod_pos_bound n (2 ^ lsizenode t) ltac:(lia)). lia.
Qed.

Lemma hashmod_lt t n : 0 <= lsizenode t <= MAXBITS -> (hashmod t n < Z.to_nat (2 ^ lsizenode t))%nat.
Proof.
  intros Hs. unfold hashmod, sizenode. destruct (hash_sizes _ Hs) as [-> H].
  pose proof (Z.mod_pos_bound (uwrap32 n) _ (proj1 H)). lia.
Qed.

Lemma mainposition_lt t k : table_inv t -> (mainposition t k < length (node t))%nat.
Proof.
  intros I. pose proof (ti_lsize _ I) as Hs. pose proof (ti_nodes _ I) as Hn. unfold blen in Hn.
  assert (Z.to_nat (2 ^ lsizenode t) = length (node t)) as <- by lia.
  destruct k; simpl; unfold hashnum, hashpointer; try case_match; auto using hashpow2_lt, hashmod_lt.
  pose proof (Z.pow_pos_nonneg 2 (lsizenode t)). lia.
Qed.

(** * The slot of a key *)

Inductive slot_for (t : Table) (k : lua_value) : tslot -> Prop :=
| slot_array i : array_index t k = Some i -> slot_for t k (SArray i)
| slot_node i : array_index t k = None -> k ≠ LNil ->
    key_of (node t) i = Some (KVal k) -> slot_for t k (SNode i)
| slot_none : array_index t k = None ->
    (k ≠ LNil -> forall i, key_of (node t) i ≠ Some (KVal k)) -> slot_for t k SNilObject.

Lemma slot_for_det t k s s' : table_inv t -> slot_for t k s -> slot_for t k s' -> s = s'.
Proof.
  intros I. destruct 1 as [|i ? ? Hi|? Hn], 1 as [|j ? ? Hj|? Hn']; try congruence.
  - f_equal. by eapply ci_uniq; [apply ti_chain|..].
  - by destruct (Hn' ltac:(done) i).
  - by destruct (Hn ltac:(done) j).
Qed.

Lemma find_slot_spec t k p : table_inv t -> k ≠ LNil -> array_index t k = None ->
  (forall nd, p nd = true <-> i_key nd = KVal k /\ k ≠ LNumber NNaN) ->
  exists s, find_slot t p (mainposition t k) = Ok s /\ slot_for t k s.
Proof.
  intros I Hk Ha Hp. pose proof (ti_chain _ I) as C. unfold find_slot.
  destruct (chain_find_spec _ _ C p (mainposition t k)) as (r & -> & Hr);
    [by apply mainposition_lt|].
  eexists; split; [done|]. destruct r as [i|].
  - destruct Hr as (_ & (nd & Hnd & [Hkey _]%Hp) & _). constructor; [done..|].
    unfold key_of. by rewrite Hnd, <- Hkey.
  - constructor; [done|]. intros _ i Hi. pose proof Hi as Hi'.
    unfold key_of in Hi'. destruct (node t !! i) as [nd|] eqn:Hnd; [|done]. simplify_eq/=.
    assert (p nd = false) as Hf by (eapply Hr; [apply (ci_reach_val _ _ _ _ C Hk Hi) | done]).
    assert (k ≠ LNumber NNaN) by (intros ->; by eapply ci_nan).
    assert (p nd = true) by (apply Hp; split; congruence). congruence.
Qed.

Lemma luai_numeq_true a b : luai_numeq a b = true <-> a = b /\ b ≠ NNaN.
Proof.
  unfold luai_numeq. destruct a; try (rewrite bool_decide_eq_true; naive_solver). naive_solver.
Qed.

Lemma key_is_true k nd : key_is k nd = true <-> i_key nd = KVal k /\ k ≠ LNumber NNaN.
Proof.
  unfold key_is, raweq. destruct (i_key nd) as [v|v]; [|naive_solver].
  destruct v as [| | |[]| | | |]; rewrite ?bool_decide_eq_true; naive_solver.
Qed.

Lemma key_is_num_true z nd : key_is_num (NInt z) nd = true <-> i_key nd = KVal (LNumber (NInt z)).
Proof.
  unfold key_is_num. destruct (i_key nd) as [[]|]; try naive_solver.
  rewrite luai_numeq_true. naive_solver.
Qed.

Lemma key_is_str_true s nd : key_is_str s nd = true <-> i_key nd = KVal (LString s).
Proof.
  unfold key_is_str. destruct (i_key nd) as [[]|]; try naive_solver.
  rewrite bool_decide_eq_true. naive_solver.
Qed.

Lemma in_int_iff z : in_int z = true <-> INT_MIN <= z <= INT_MAX.
Proof. unfold in_int. rewrite andb_true_iff, !Z.leb_le. done. Qed.

(** An [int] key: the unsigned comparison is the range test. *)
Lemma luaH_getnum_spec t z : table_inv t -> in_int z = true ->
  exists s, luaH_getnum t z = Ok s /\ slot_for t (LNumber (NInt z)) s.
Proof.
  intros I Hz%in_int_iff. unfold INT_MIN, INT_MAX in Hz.
  pose proof (ti_array _ I). pose proof (ti_asize _ I) as Ha. unfold MAXASIZE, MAXBITS in Ha.
  unfold luaH_getnum. rewrite (uwrap32_small (sizearray t)) by lia.
  assert ((uwrap32 (z - 1) <? sizearray t) = (1 <=? z) && (z <=? sizearray t)) as ->.
  { apply Bool.eq_iff_eq_true. rewrite andb_true_iff, Z.ltb_lt, !Z.leb_le.
    destruct (Z.le_gt_cases 1 z).
    - rewrite uwrap32_small by lia. lia.
    - split; [|lia]. unfold uwrap32. intros Hm.
      rewrite <- (Z.mod_unique (z - 1) (2 ^ 32) (-1) (z - 1 + 2 ^ 32)) in Hm; lia. }
  assert (array_index t (LNumber (NInt z)) =
    if (1 <=? z) && (z <=? sizearray t) then Some (Z.to_nat (z - 1)) else None) as Hai by done.
  destruct ((1 <=? z) && (z <=? sizearray t)).
  - eexists; split; [done|]. by constructor.
  - apply (find_slot_spec t (LNumber (NInt z))); [done..|]. intros nd. rewrite key_is_num_true. naive_solver.
Qed.

(** The main search function finds the slot of every key. *)
Lemma luaH_get_spec t k : table_inv t -> exists s, luaH_get t k = Ok s /\ slot_for t k s.
Proof.
  intros I.
  assert (forall k', k' ≠ LNil -> array_index t k' = None -> exists s,
    find_slot t (key_is k') (mainposition t k') = Ok s /\ slot_for t k' s) as Hgen.
  { intros k' Hk' Ha. apply find_slot_spec; [done..|]. apply key_is_true. }
  destruct k as [| | |n|s| | |]; try by apply Hgen.
  - eexists; split; [done|]. by constructor.
  - cbn [luaH_get]. destruct (luai_numeq (NInt (number2int n)) n) eqn:E.
    + apply luai_numeq_true in E as [E _].
      destruct (luaH_getnum_spec t (number2int n)) as (s & Hg & Hs); [done|apply number2int_range|].
      exists s. by rewrite E in Hs.
    + apply Hgen; [done|]. destruct n as [z| | |]; try done. simpl.
      case_match eqn:Hr; [|done]. exfalso.
      apply andb_true_iff in Hr as [Hr1%Z.leb_le Hr2%Z.leb_le].
      pose proof (ti_asize _ I) as Ha. unfold MAXASIZE, MAXBITS in Ha.
      rewrite number2int_exact in E by (apply in_int_iff; unfold INT_MIN, INT_MAX; lia).
      unfold luai_numeq in E. by rewrite bool_decide_true in E.
  - apply (find_slot_spec t (LString s)); [done..|]. intros nd. rewrite key_is_str_true. naive_solver.
Qed.

(** * Values *)

Definition slot_val (t : Table) (s : tslot) : lua_value :=
  match read_slot t s with Ok v => v | UB _ => LNil end.

Definition tval (t : Table) (k : lua_value) : lua_value :=
  match table_load t k with Ok v => v | UB _ => LNil end.

Lemma array_index_lt t k i : table_inv t -> array_index t k = Some i -> (i < length (array t))%nat.
Proof.
  intros I H. pose proof (ti_array _ I) as Ha. unfold blen in Ha.
  destruct k as [| | |[z| | |]| | | |]; try done. simpl in H. case_match eqn:E; [|done].
  apply andb_true_iff in E as [E1%Z.leb_le E2%Z.leb_le]. simplify_eq. lia.
Qed.

Lemma read_slot_ok t k s : table_inv t -> slot_for t k s -> read_slot t s = Ok (slot_val t s).
Proof.
  intros I Hs. unfold slot_val. destruct Hs as [i Hi|i _ _ Hi|]; [| |done]; simpl.
  - destruct (lookup_lt_is_Some_2 _ _ (array_index_lt _ _ _ I Hi)) as [v Hv]. by rewrite Hv.
  - unfold gnode. unfold key_of in Hi. by destruct (node t !! i).
Qed.

Lemma tval_slot t k s : table_inv t -> slot_for t k s -> tval t k = slot_val t s.
Proof.
  intros I Hs. unfold tval, table_load. destruct (luaH_get_spec t k I) as (s' & -> & Hs').
  rewrite (slot_for_det _ _ _ _ I Hs Hs'). done.
Qed.

Lemma table_load_ok t k : table_inv t -> table_load t k = Ok (tval t k).
Proof.
  intros I. unfold tval, table_load. destruct (luaH_get_spec t k I) as (s & -> & Hs).
  rewrite bind_Ok, (read_slot_ok _ _ _ I Hs). done.
Qed.

Lemma tval_nil t : table_inv t -> tval t LNil = LNil.
Proof. intros I. rewrite (tval_slot t LNil SNilObject I); [done|]. by constructor. Qed.

Lemma tval_array t k i v : table_inv t -> array_index t k = Some i -> array t !! i = Some v ->
  tval t k = v.
Proof.
  intros I Hi Hv. rewrite (tval_slot t k (SArray i) I) by (by constructor).
  unfold slot_val. simpl. by rewrite Hv.
Qed.

(** The entries of the hash part that have a value. *)
Definition live (ns : list Node) (k v : lua_value) : Prop :=
  exists i, key_of ns i = Some (KVal k) /\ val_of ns i = Some v /\ k ≠ LNil /\ v ≠ LNil.

Lemma tval_hash t k v : table_inv t -> array_index t k = None -> v ≠ LNil ->
  tval t k = v <-> live (node t) k v.
Proof.
  intros I Ha Hv. destruct (luaH_get_spec t k I) as (s & _ & Hs).
  rewrite (tval_slot _ _ _ I Hs). unfold slot_val. destruct Hs as [i Hi|i _ Hk Hi|_ Hn]; simpl.
  - congruence.
  - unfold gnode, live. destruct (node t !! i) as [nd|] eqn:Hnd; [|unfold key_of in Hi; by rewrite Hnd in Hi].
    simpl. split.
    + intros <-. exists i. split_and!; try done. unfold val_of. by rewrite Hnd.
    + intros (j & Hj & Hvj & _). assert (j = i) as -> by (by eapply (ci_uniq _ _ (ti_chain _ I))).
      unfold val_of in Hvj. rewrite Hnd in Hvj. by simplify_eq/=.
  - split; [by intros <-|]. intros (j & Hj & _ & Hk & _). by destruct (Hn Hk j).
Qed.

Lemma tval_eq_live t t' : table_inv t -> table_inv t' ->
  (forall k, array_index t' k = array_index t k) ->
  (forall k i, array_index t k = Some i -> array t' !! i = array t !! i) ->
  (forall k v, live (node t') k v <-> live (node t) k v) -> forall k, tval t' k = tval t k.
Proof.
  intros I I' Hi Ha Hl k. destruct (array_index t k) as [i|] eqn:E.
  - destruct (lookup_lt_is_Some_2 _ _ (array_index_lt _ _ _ I E)) as [v Hv].
    rewrite (tval_array t k i v), (tval_array t' k i v); try done; rewrite ?Hi; [done|].
    by rewrite (Ha _ _ E).
  - destruct (decide (tval t k = LNil)) as [H0|H0].
    + destruct (decide (tval t' k = LNil)) as [H1|H1]; [congruence|].
      symmetry. apply tval_hash; [done..|]. apply Hl, tval_hash; [done| |done|done]. by rewrite Hi.
    + apply tval_hash; [done| |done|]; [by rewrite Hi|]. by apply Hl, tval_hash.
Qed.

(** * Storing through a slot *)

(** What neither storing nor placing a key changes. *)
Record same_shape (t t' : Table) : Prop := {
  sh_size : sizearray t' = sizearray t;
  sh_array : length (array t') = length (array t);
  sh_lsize : lsizenode t' = lsizenode t;
  sh_dummy : is_dummy t' = is_dummy t;
  sh_node : length (node t') = length (node t)
}.

Lemma same_shape_trans t1 t2 t3 : same_shape t1 t2 -> same_shape t2 t3 -> same_shape t1 t3.
Proof. intros [] []. split; congruence. Qed.

Lemma same_shape_index t t' k : same_shape t t' -> array_index t' k = array_index t k.
Proof. intros S. unfold array_index. by rewrite (sh_size _ _ S). Qed.

Lemma array_index_inj t k k' i : array_index t k = Some i -> array_index t k' = Some i -> k' = k.
Proof.
  unfold array_index. intros Hk Hk'.
  destruct k as [| | |[z| | |]| | | |]; try done. destruct k' as [| | |[z'| | |]| | | |]; try done.
  repeat case_match; try done. simplify_eq.
  repeat match goal with H : _ && _ = true |- _ => apply andb_true_iff in H as [?%Z.leb_le ?%Z.leb_le] end.
  do 2 f_equal. lia.
Qed.

Lemma val_of_set_val ns i k v : key_of ns i = Some k ->
  forall j, val_of (alter (set_val v) i ns) j = if decide (j = i) then Some v else val_of ns j.
Proof.
  intros Hi j. rewrite val_of_alter. case_decide; [|done]. unfold key_of in Hi.
  by destruct (ns !! i).
Qed.

Lemma key_of_set_val ns i v j : key_of (alter (set_val v) i ns) j = key_of ns j.
Proof. rewrite key_of_alter. case_decide; [|done]. subst. unfold key_of. by destruct (ns !! _). Qed.

Lemma next_of_set_val ns i v j : next_of (alter (set_val v) i ns) j = next_of ns j.
Proof. rewrite next_of_alter. case_decide; [|done]. subst. unfold next_of. by destruct (ns !! _). Qed.

Lemma chain_set_val mpos ns i k v : chain_inv mpos ns -> k ≠ LNil -> key_of ns i = Some (KVal k) ->
  chain_inv mpos (alter (set_val v) i ns).
Proof.
  intros C Hk Hi. pose proof (val_of_set_val ns i _ v Hi) as HV.
  assert (forall a b, step (alter (set_val v) i ns) a b <-> step ns a b) as HS
    by (intros; unfold step; by rewrite next_of_set_val).
  split.
  - intros a b Hab%HS. rewrite key_of_set_val. by eapply ci_next.
  - intros a b c ?%HS ?%HS. by eapply ci_inj.
  - destruct (ci_acyclic _ _ C) as [r Hr]. exists r. intros a b ?%HS. auto.
  - intros a. rewrite key_of_set_val, next_of_set_val, HV. intros Ha.
    rewrite decide_False by congruence. by eapply ci_free.
  - intros a k'. rewrite key_of_set_val, HV. intros Ha.
    rewrite decide_False by congruence. by eapply ci_dead.
  - intros a. rewrite key_of_set_val. by eapply ci_nan.
  - intros a b k'. rewrite !key_of_set_val. by eapply ci_uniq.
  - intros a k'. rewrite key_of_set_val. intros Ha Hk'.
    eapply (rtc_congruence id), (ci_reach _ _ C _ _ Ha Hk'). intros; by apply HS.
  - intros a k'. rewrite key_of_set_val. setoid_rewrite key_of_set_val. by apply ci_main.
  - intros a b k'. rewrite !key_of_set_val. intros H1 H2 H3. eapply (ci_order _ _ C a b k' H1 H2).
    apply (tc_congruence id (step ns)) in H3; [done|]. intros; by apply HS.
Qed.

Lemma used_ext ns ns' : length ns' = length ns -> (forall i, key_of ns' i = key_of ns i) ->
  used ns' = used ns.
Proof.
  intros Hl Hk. unfold used. rewrite Hl. f_equal. apply list_filter_iff. intros i. by rewrite Hk.
Qed.

(** What storing [v] under [k] does. *)
Record stored (t : Table) (k v : lua_value) (t' : Table) : Prop := {
  st_inv : table_inv t';
  st_shape : same_shape t t';
  st_used : used (node t') = used (node t);
  st_array : array_index t k = None -> array t' = array t;
  st_val k' : tval t' k' = if decide (k' = k) then v else tval t k'
}.

Lemma write_array_spec t k i v : table_inv t -> array_index t k = Some i ->
  exists t', write_slot t (SArray i) v = Ok t' /\ stored t k v t'.
Proof.
  intros I Hi. unfold write_slot.
  pose proof (array_index_lt _ _ _ I Hi) as Hlt.
  destruct (lookup_lt_is_Some_2 _ _ Hlt) as [v0 Hv0]. rewrite Hv0.
  cbn [of_option mbind cres_bind]. set (t' := set_array _ _ _).
  assert (same_shape t t') as Sh by (split; try done; simpl; by rewrite length_insert).
  assert (table_inv t') as I'.
  { destruct I. split; try done. simpl. unfold blen. by rewrite length_insert. }
  exists t'. split; [done|]. split; try done; [congruence|]. intros k'. case_decide as Hd.
  + subst k'. apply (tval_array _ _ i); [done|by rewrite (same_shape_index t)|].
    simpl. by rewrite list_lookup_insert_eq.
  + destruct (array_index t k') as [j|] eqn:Hj.
    * assert (i ≠ j) by (intros ->; apply Hd; by eapply array_index_inj).
      destruct (lookup_lt_is_Some_2 _ _ (array_index_lt _ _ _ I Hj)) as [w Hw].
      rewrite (tval_array t k' j w), (tval_array t' k' j w); try done.
      simpl. by rewrite list_lookup_insert_ne.
    * destruct (luaH_get_spec t k' I) as (s & _ & Hs). rewrite (tval_slot _ _ _ I Hs).
      rewrite (tval_slot t' k' s I'); destruct Hs; try congruence; try done; by constructor.
Qed.

Lemma write_node_spec t k i v : table_inv t -> array_index t k = None -> k ≠ LNil ->
  key_of (node t) i = Some (KVal k) -> exists t', write_slot t (SNode i) v = Ok t' /\ stored t k v t'.
Proof.
  intros I Ha Hk Hi. unfold write_slot.
  assert (is_dummy t = false) as Hnd.
  { destruct (is_dummy t) eqn:E; [|done]. rewrite (ti_dummy _ I E) in Hi.
    destruct i; unfold key_of in Hi; simpl in Hi; congruence. }
  rewrite Hnd. unfold gnode. destruct (node t !! i) as [nd|] eqn:Hndi;
    [|unfold key_of in Hi; by rewrite Hndi in Hi].
  cbn [of_option mbind cres_bind]. set (t' := set_node _ _).
  assert (same_shape t t') as Sh by (split; try done; simpl; by rewrite length_alter).
  assert (table_inv t') as I'.
  { destruct I. split; try done; simpl; unfold blen; rewrite ?length_alter; try done.
    - intros Hd. congruence.
    - by eapply chain_set_val.
    - intros j. rewrite key_of_set_val. auto.
    - intros j k'. rewrite key_of_set_val. eauto. }
  exists t'. split; [done|]. split; try done.
  { apply used_ext; simpl; [by rewrite length_alter | intros; apply key_of_set_val]. }
  intros k'. destruct (luaH_get_spec t k' I) as (s & _ & Hs).
  assert (slot_for t' k' s) as Hs'.
  { destruct Hs as [j Hj|j ? ? Hj|? Hj];
      [by apply slot_array | apply slot_node; try done | apply slot_none; try done];
      simpl; intros; rewrite key_of_set_val; auto. }
  rewrite (tval_slot t' k' s I' Hs'), (tval_slot t k' s I Hs). unfold slot_val.
  destruct Hs as [j Hj|j Haj Hk' Hj|Haj Hj]; simpl.
  + by rewrite decide_False by congruence.
  + unfold gnode. simpl. destruct (decide (j = i)) as [->|].
    * rewrite list_lookup_alter_eq, Hndi. simpl. by rewrite decide_True by congruence.
    * rewrite list_lookup_alter_ne by done. rewrite decide_False; [done|].
      intros ->. by apply (ci_uniq _ _ (ti_chain _ I) j i) in Hi.
  + rewrite decide_False; [done|]. intros ->. by eapply Hj.
Qed.

(** Storing a value changes the value of that key alone. *)
Lemma write_slot_spec t k s v : table_inv t -> slot_for t k s -> s ≠ SNilObject ->
  exists t', write_slot t s v = Ok t' /\ stored t k v t'.
Proof.
  intros I Hs Hn. destruct Hs; [by apply write_array_spec | by apply write_node_spec | done].
Qed.

(** * Placing a new key *)

(** The key has got a node, and nothing else has changed. *)
Record placed (t : Table) (key : lua_value) (s : tslot) (t' : Table) : Prop := {
  pl_inv : table_inv t';
  pl_slot : slot_for t' key s;
  pl_found : s ≠ SNilObject;
  pl_shape : same_shape t t';
  pl_array : array t' = array t;
  pl_val k : tval t' k = tval t k;
  pl_used : (used (node t') <= S (used (node t)))%nat
}.

(** From the new nodes: the invariant of the chains, the place of the key, the
    old entries. *)
Lemma place_intro t key n lf ns' : table_inv t -> valid_key key -> array_index t key = None ->
  is_dummy t = false ->
  lf <= lastfree t -> (forall i, lf <= Z.of_nat i -> key_of ns' i ≠ Some free_key) ->
  chain_inv (mainposition t) ns' -> length ns' = length (node t) ->
  key_of ns' n = Some (KVal key) ->
  (forall i k, key_of ns' i = Some (KVal k) -> k = key \/ exists j, key_of (node t) j = Some (KVal k)) ->
  (exists m, forall i, i ≠ m -> key_of ns' i ≠ Some free_key -> key_of (node t) i ≠ Some free_key) ->
  (forall k v, live ns' k v <-> live (node t) k v) ->
  placed t key (SNode n) (set_node (set_lastfree t lf) ns').
Proof.
  intros I [Hk Hkn] Ha Hd Hlf Hab C Hl Hn Hkeys [m Hm] Hlive. set (t' := set_node _ _).
  assert (table_inv t') as I'.
  { pose proof I as I0. destruct I0. split; try done; simpl; unfold blen; rewrite ?Hl; try done.
    - congruence.
    - pose proof (ti_last _ I) as Hlast. rewrite Hd in Hlast |- *. unfold blen in Hlast. lia.
    - intros i _. auto.
    - intros i k Hi. change (array_index t' k) with (array_index t k).
      destruct (Hkeys i k Hi) as [->|[j Hj]]; [done|]. by eapply ti_hash. }
  split; try done.
  - by constructor.
  - intros k. apply tval_eq_live; done.
  - simpl. by apply used_le with m.
Qed.

Lemma node_views ns i nd : ns !! i = Some nd ->
  key_of ns i = Some (i_key nd) /\ val_of ns i = Some (i_val nd) /\ next_of ns i = next nd.
Proof. intros H. unfold key_of, val_of, next_of. by rewrite H. Qed.

Section NewKey.
Context (t : Table) (I : table_inv t) (key : lua_value) (Hv : valid_key key).
Context (Hs : slot_for t key SNilObject) (Hd : is_dummy t = false).

Lemma no_slot : array_index t key = None /\ forall i, key_of (node t) i ≠ Some (KVal key).
Proof. inversion Hs as [| |Ha Hk]; subst. destruct Hv. auto. Qed.

(** The main position has no value. *)
Lemma place_overwrite nd : node t !! mainposition t key = Some nd -> i_val nd = LNil ->
  placed t key (SNode (mainposition t key))
    (set_node t (alter (set_key (KVal key)) (mainposition t key) (node t))).
Proof.
  intros Hnd Hval. set (mp := mainposition t key) in *. set (ns' := alter _ _ _).
  destruct (node_views _ _ _ Hnd) as (HKm & HVm & _). rewrite Hval in HVm.
  destruct no_slot as [Ha Hf]. destruct Hv as [Hk Hkn].
  assert (forall i, key_of ns' i = if decide (i = mp) then Some (KVal key) else key_of (node t) i) as HK.
  { intros i. unfold ns'. rewrite key_of_alter. by rewrite Hnd. }
  assert (forall i, val_of ns' i = val_of (node t) i) as HV.
  { intros i. unfold ns'. rewrite val_of_alter. case_decide; [|done]. subst.
    unfold val_of. by destruct (node t !! _). }
  assert (forall i, next_of ns' i = next_of (node t) i) as HN.
  { intros i. unfold ns'. rewrite next_of_alter. case_decide; [|done]. subst.
    unfold next_of. by destruct (node t !! _). }
  replace (set_node t ns') with (set_node (set_lastfree t (lastfree t)) ns') by (by destruct t).
  apply place_intro; try done.
  - intros i Hi. rewrite HK. case_decide; [congruence|]. by eapply ti_above.
  - by eapply (chain_overwrite _ _ (ti_chain _ I) key).
  - unfold ns'. by rewrite length_alter.
  - by rewrite HK, decide_True.
  - intros i k. rewrite HK. case_decide; [intros [= <-]; by left | eauto].
  - exists mp. intros i Hi. by rewrite HK, decide_False.
  - intros k v. split; intros (i & H1 & H2 & H3); exists i; rewrite HV in *.
    + rewrite HK in H1. case_decide; [|done]. subst. naive_solver.
    + rewrite HK. rewrite decide_False; [done|]. intros ->. naive_solver.
Qed.

(** A free place [n] for a collision: facts shared by the two cases. *)
Context (nd : Node) (n : nat) (lf : Z).
Context (Hnd : node t !! mainposition t key = Some nd) (Hval : i_val nd ≠ LNil).
Context (Hn : key_of (node t) n = Some free_key) (Hlf : Z.of_nat n = lf) (Hlast : lf <= lastfree t).
Context (Hab : forall i, lf < Z.of_nat i < lastfree t -> key_of (node t) i ≠ Some free_key).

Lemma colliding_key : exists k0, i_key nd = KVal k0 /\ k0 ≠ LNil /\
  key_of (node t) (mainposition t key) = Some (KVal k0).
Proof.
  destruct (node_views _ _ _ Hnd) as (HKm & HVm & _). pose proof (ti_chain _ I) as C.
  destruct (i_key nd) as [k0|k0] eqn:E.
  - exists k0. split_and!; try done. intros ->. apply (ci_free _ _ C) in HKm as [_ H]. congruence.
  - apply (ci_dead _ _ C) in HKm. congruence.
Qed.

Lemma above_free i : lf <= Z.of_nat i -> i ≠ n -> key_of (node t) i ≠ Some free_key.
Proof.
  intros Hi Hne. destruct (Z.le_gt_cases (lastfree t) (Z.of_nat i)); [by eapply ti_above|].
  apply Hab. lia.
Qed.

Lemma place_append k0 : i_key nd = KVal k0 -> mainposition t k0 = mainposition t key ->
  let mp := mainposition t key in
  placed t key (SNode n) (set_node (set_lastfree t lf)
    (alter (set_key (KVal key)) n (alter (set_next (Some n)) mp
       (alter (set_next (next nd)) n (node t))))).
Proof.
  intros Hk0 Hm0 mp. set (ns' := alter _ _ _). pose proof (ti_chain _ I) as C.
  destruct colliding_key as (k0' & Hk0' & Hk0n & HKm). assert (k0' = k0) as -> by congruence.
  destruct (node_views _ _ _ Hnd) as (_ & HVm & HNm). fold mp in Hnd, HKm, HVm, HNm, Hm0.
  destruct no_slot as [Ha Hf]. destruct Hv as [Hk Hkn].
  assert (n ≠ mp) as Hne by congruence.
  destruct (node t !! n) as [x|] eqn:Hx; [|unfold key_of in Hn; by rewrite Hx in Hn].
  destruct (ci_free _ _ C _ Hn) as [_ Hnv].
  assert (forall i, ns' !! i = if decide (i = n) then Some (mkNode (i_val x) (KVal key) (next nd))
    else if decide (i = mp) then Some (set_next (Some n) nd) else node t !! i) as HL.
  { intros i. unfold ns'. repeat case_decide; subst.
    - rewrite list_lookup_alter_eq, list_lookup_alter_ne, list_lookup_alter_eq, Hx by done. done.
    - rewrite list_lookup_alter_ne, list_lookup_alter_eq, list_lookup_alter_ne, Hnd by done. done.
    - rewrite !list_lookup_alter_ne by done. done. }
  assert (forall i, key_of ns' i = if decide (i = n) then Some (KVal key) else key_of (node t) i) as HK.
  { intros i. unfold key_of. rewrite HL. repeat case_decide; subst; simpl; try done. by rewrite Hnd. }
  assert (forall i, val_of ns' i = val_of (node t) i) as HV.
  { intros i. unfold val_of. rewrite HL. repeat case_decide; subst; simpl; by rewrite ?Hx, ?Hnd. }
  assert (forall i, next_of ns' i = if decide (i = n) then next_of (node t) mp
    else if decide (i = mp) then Some n else next_of (node t) i) as HN.
  { intros i. rewrite HNm. unfold next_of. rewrite HL. by repeat case_decide. }
  apply place_intro; try done.
  - intros i Hi. rewrite HK. case_decide; [congruence|]. by apply above_free.
  - by apply (chain_append _ _ C key Hk Hkn Hf ns' mp n k0).
  - unfold ns'. by rewrite !length_alter.
  - by rewrite HK, decide_True.
  - intros i k. rewrite HK. case_decide; [intros [= <-]; by left | eauto].
  - exists n. intros i Hi. by rewrite HK, decide_False.
  - intros k v. split; intros (i & H1 & H2 & H3); exists i; rewrite HV in *.
    + rewrite HK in H1. case_decide; [|done]. subst. naive_solver.
    + rewrite HK. rewrite decide_False; [done|]. intros ->. naive_solver.
Qed.

(** The node vector after the three assignments of the move. *)
Lemma moved_lookup (ns : list Node) mp m prev x k : ns !! mp = Some x -> m ≠ mp -> prev ≠ mp -> prev ≠ m ->
  (m < length ns)%nat -> let ns1 := alter (set_next (Some m)) prev ns in
  forall i, alter (fun y => set_key (KVal k) (set_val LNil (set_next None y))) mp
      match ns1 !! mp with Some y => <[m := y]> ns1 | None => ns1 end !! i =
    if decide (i = mp) then Some (mkNode LNil (KVal k) None) else if decide (i = m) then Some x
    else if decide (i = prev) then set_next (Some m) <$> ns !! prev else ns !! i.
Proof.
  intros Hx H1 H2 H3 Hl ns1 i. unfold ns1. rewrite (list_lookup_alter_ne _ ns prev mp) by done. rewrite Hx.
  repeat case_decide; subst.
  - rewrite list_lookup_alter_eq, list_lookup_insert_ne, list_lookup_alter_ne, Hx by done. done.
  - rewrite list_lookup_alter_ne, list_lookup_insert_eq by (rewrite ?length_alter; done). done.
  - rewrite list_lookup_alter_ne, list_lookup_insert_ne, list_lookup_alter_eq by done. done.
  - rewrite list_lookup_alter_ne, list_lookup_insert_ne, list_lookup_alter_ne by done. done.
Qed.

Lemma place_move k0 prev : i_key nd = KVal k0 ->
  mainposition t k0 ≠ mainposition t key -> step (node t) prev (mainposition t key) ->
  let mp := mainposition t key in
  let ns := alter (set_next (Some n)) prev (node t) in
  placed t key (SNode mp) (set_node (set_lastfree t lf)
    (alter (fun x => set_key (KVal key) (set_val LNil (set_next None x))) mp
       match ns !! mp with Some x => <[n := x]> ns | None => ns end)).
Proof.
  intros Hk0 Hm0 Hprev mp ns. set (ns' := alter _ _ _). pose proof (ti_chain _ I) as C.
  destruct colliding_key as (k0' & Hk0' & Hk0n & HKm). assert (k0' = k0) as -> by congruence.
  destruct (node_views _ _ _ Hnd) as (_ & HVm & HNm). fold mp in Hnd, HKm, HVm, HNm, Hm0, Hprev.
  destruct no_slot as [Ha Hf]. destruct Hv as [Hk Hkn].
  assert (n ≠ mp) as Hne by congruence.
  assert (prev ≠ mp) as Hpm.
  { destruct (ci_acyclic _ _ C) as [r Hr]. intros ->. specialize (Hr _ _ Hprev). lia. }
  destruct (ci_free _ _ C _ Hn) as [Hnn Hnv].
  assert (prev ≠ n) as Hpn by (unfold step in Hprev; congruence).
  assert (forall i, ns' !! i = if decide (i = mp) then Some (mkNode LNil (KVal key) None)
    else if decide (i = n) then Some nd
    else if decide (i = prev) then set_next (Some n) <$> node t !! prev else node t !! i) as HL.
  { apply moved_lookup; try done. by eapply key_of_lt. }
  assert (forall i, key_of ns' i = if decide (i = mp) then Some (KVal key)
    else if decide (i = n) then Some (KVal k0) else key_of (node t) i) as HK.
  { intros i. unfold key_of. rewrite HL. repeat case_decide; subst; simpl; try congruence.
    by destruct (node t !! prev). }
  assert (forall i, val_of ns' i = if decide (i = mp) then Some LNil
    else if decide (i = n) then val_of (node t) mp else val_of (node t) i) as HV.
  { intros i. rewrite HVm. unfold val_of. rewrite HL. repeat case_decide; subst; simpl; try done.
    by destruct (node t !! prev). }
  assert (forall i, next_of ns' i = if decide (i = mp) then None
    else if decide (i = n) then next_of (node t) mp
    else if decide (i = prev) then Some n else next_of (node t) i) as HN.
  { intros i. rewrite HNm. unfold next_of. rewrite HL. repeat case_decide; subst; simpl; try done.
    unfold step, next_of in Hprev. by destruct (node t !! prev). }
  apply place_intro; try done.
  - intros i Hi. rewrite HK. repeat case_decide; try congruence. by apply above_free.
  - by apply (chain_move _ _ C key Hk Hkn Hf ns' mp n prev k0).
  - unfold ns'. rewrite length_alter. case_match; rewrite ?length_insert; unfold ns; by rewrite length_alter.
  - by rewrite HK, decide_True.
  - intros i k. rewrite HK. repeat case_decide; [intros [= <-]; by left | intros [= <-]; eauto | eauto].
  - exists n. intros i Hi. rewrite HK. rewrite (decide_False (P := i = n)) by done.
    case_decide; [subst; congruence | done].
  - intros k v. split; intros (i & H1 & H2 & H3).
    + rewrite HK in H1. rewrite HV in H2. repeat case_decide; subst; [naive_solver| |].
      * exists mp. naive_solver.
      * exists i. naive_solver.
    + destruct (decide (i = mp)) as [->|]; [exists n | exists i]; rewrite HK, HV.
      * rewrite !(decide_False (P := n = mp)), !decide_True by done. naive_solver.
      * rewrite !decide_False by (done || intros ->; naive_solver). naive_solver.
Qed.

End NewKey.

Lemma table_inv_lastfree t lf : table_inv t -> lf < lastfree t ->
  (is_dummy t = false -> forall i, lf <= Z.of_nat i -> key_of (node t) i ≠ Some free_key) ->
  table_inv (set_lastfree t lf).
Proof.
  intros I Hlf Ha. pose proof I as []. split; try done; simpl; [lia|]. intros i Hd. by apply Ha.
Qed.

(** [newkey] places the key, or finds no free place and rehashes. *)
Lemma newkey_cases nk t key : table_inv t -> valid_key key -> slot_for t key SNilObject ->
  (exists s t', newkey_with nk t key = TRet (s, t') /\ placed t key s t' /\ is_dummy t = false) \/
  (exists lf, table_inv (set_lastfree t lf) /\
     newkey_with nk t key =
       (t' ← rehash_with nk (set_lastfree t lf) key; luaH_set_with nk t' key) /\
     (is_dummy t = false -> forall i, key_of (node t) i ≠ Some free_key)).
Proof.
  intros I Hv Hs. pose proof (ti_chain _ I) as C.
  destruct (lookup_lt_is_Some_2 _ _ (mainposition_lt t key I)) as [nd Hnd].
  unfold newkey_with, gnode. rewrite Hnd. cbn [of_option tlift mbind tres_bind].
  destruct (negb (isnil (i_val nd)) || is_dummy t) eqn:Hb.
  2:{ apply orb_false_iff in Hb as [Hb Hd]. apply negb_false_iff in Hb. unfold isnil in Hb.
      apply bool_decide_eq_true in Hb. left. eexists _, _. split_and!; [done| |done].
      by eapply place_overwrite. }
  unfold getfreepos. pose proof (ti_last _ I) as Hlast.
  destruct (getfreepos_loop_spec (node t) (S (length (node t))) (lastfree t)) as (r & lf & -> & Hlf & Hr).
  { destruct (is_dummy t); unfold blen in *; lia. }
  { pose proof (blen_nonneg (node t)). destruct (is_dummy t); lia. }
  cbn [mbind cres_bind tlift tres_bind]. destruct r as [n|].
  2:{ destruct Hr as [Hlf0 Hr]. right. exists lf. split_and!; [|done|].
      - apply table_inv_lastfree; [done..|]. intros Hd i _.
        destruct (Z.le_gt_cases (lastfree t) (Z.of_nat i)); [by eapply ti_above|]. apply Hr. lia.
      - intros Hd i. destruct (Z.le_gt_cases (lastfree t) (Z.of_nat i)); [by eapply ti_above|].
        apply Hr. lia. }
  destruct Hr as (Hn1 & Hn2 & Hn3). left.
  assert (is_dummy t = false) as Hd by (destruct (is_dummy t); [lia|done]).
  rewrite Hd, orb_false_r in Hb. apply negb_true_iff in Hb. unfold isnil in Hb.
  apply bool_decide_eq_false in Hb.
  destruct (colliding_key t I key nd Hnd Hb) as (k0 & Hk0 & Hk0n & HKm). rewrite Hk0.
  cbn [mainposition_of node set_lastfree].
  change (mainposition (set_lastfree t lf)) with (mainposition t).
  case_bool_decide as Hm.
  - destruct (find_previous_spec _ _ C (mainposition t key) (mainposition t k0)) as (prev & -> & Hprev);
      [by apply mainposition_lt | by apply ci_reach_val | done |].
    cbn [tlift mbind tres_bind]. eexists _, _. split_and!; [done| |done].
    eapply (place_move t I key Hv Hs Hd nd n lf); done || lia.
  - eexists _, _. split_and!; [done| |done].
    eapply (place_append t I key Hv Hs Hd nd n lf); done || lia.
Qed.

Lemma newkey_room nk t key : table_inv t -> valid_key key -> slot_for t key SNilObject ->
  is_dummy t = false -> (used (node t) < length (node t))%nat ->
  exists s t', newkey_with nk t key = TRet (s, t') /\ placed t key s t'.
Proof.
  intros I Hv Hs Hd Hu. destruct (newkey_cases nk t key I Hv Hs) as [(s & t' & ? & ? & _)|(lf & _ & _ & Hf)].
  - eauto.
  - destruct (used_room _ Hu) as [i Hi]. by destruct (Hf Hd i).
Qed.

(** [luaH_set] where no rehash is needed. *)
Lemma luaH_set_room nk t key : table_inv t -> valid_key key ->
  (forall s, slot_for t key s -> s = SNilObject ->
     is_dummy t = false /\ (used (node t) < length (node t))%nat) ->
  exists s t', luaH_set_with (newkey_with nk) t key = TRet (s, t') /\ placed t key s t' /\
    (array_index t key ≠ None -> t' = t).
Proof.
  intros I Hv Hroom. unfold luaH_set_with. destruct (luaH_get_spec t key I) as (p & -> & Hp).
  cbn [tlift mbind tres_bind]. case_bool_decide as Hnil.
  - subst p. destruct (Hroom _ Hp eq_refl) as [Hd Hu].
    destruct (newkey_room nk t key I Hv Hp Hd Hu) as (s & t' & Hnk & Hpl).
    exists s, t'. split_and!; [|done|].
    + destruct Hv. destruct key as [| | |[]| | | |]; done.
    + inversion Hp; congruence.
  - exists p, t. split_and!; [done| |done]. split; try done. lia.
Qed.

End Map.
