(* ===== verification/TableCount.v ===== *)
(** The sizes a rehash chooses (ltable.c [numusearray], [numusehash],
    [countint], [computesizes]; lobject.c [luaO_log2]): the counts are the
    numbers of integer keys in each slice, and the array part gets the largest
    size of which more than half is in use. *)
From S2P Require Import Prelude LuaApi LuaTable TableChain TableMap.
Import Table.

(** * Logarithms *)

Lemma log_2_spec x : 0 <= x < 256 ->
  log_2 !! Z.to_nat x = Some (if x =? 0 then 0 else Z.log2 x + 1).
Proof.
  intros Hx.
  assert (forallb (fun i : nat => bool_decide (log_2 !! i =
    Some (if Z.of_nat i =? 0 then 0 else Z.log2 (Z.of_nat i) + 1))) (seq 0 256) = true) as Hall
    by (vm_compute; done).
  rewrite forallb_forall in Hall. specialize (Hall (Z.to_nat x)).
  rewrite Z2Nat.id, bool_decide_eq_true in Hall by lia. apply Hall, in_seq. lia.
Qed.

Lemma luaO_log2_loop_spec fuel l x : 0 < x < 2 ^ (8 * Z.of_nat fuel) ->
  luaO_log2_loop fuel l x = Ok (l + 1 + Z.log2 x).
Proof.
  revert l x. induction fuel as [|fuel IH]; intros l x Hx; [simpl in Hx; lia|].
  cbn [luaO_log2_loop]. destruct (Z.leb_spec 256 x).
  - rewrite Z.shiftr_div_pow2 by lia. assert (0 < x / 2 ^ 8) by (apply Z.div_str_pos; lia).
    assert (Z.log2 (x / 2 ^ 8) = Z.log2 x - 8) as Hlog.
    { rewrite <- Z.shiftr_div_pow2, Z.log2_shiftr by lia.
      assert (8 <= Z.log2 x) by (apply Z.log2_le_pow2; lia). lia. }
    rewrite IH; [rewrite Hlog; f_equal; lia|]. split; [done|].
    apply Z.div_lt_upper_bound; [lia|]. rewrite <- Z.pow_add_r by lia.
    replace (8 + 8 * Z.of_nat fuel) with (8 * Z.of_nat (S fuel)) by lia. lia.
  - rewrite log_2_spec by lia. destruct (Z.eqb_spec x 0); [lia|]. simpl. f_equal. lia.
Qed.

(** The table-driven logarithm is the logarithm. *)
Lemma ceillog2_spec k : 1 <= k <= 2 ^ 32 -> ceillog2 k = Ok (Z.log2_up k).
Proof.
  intros Hk. unfold ceillog2, luaO_log2. destruct (Z.eq_dec k 1) as [->|]; [done|].
  rewrite luaO_log2_loop_spec by (simpl; lia). cbn [mbind cres_bind]. f_equal.
  rewrite Z.log2_up_eqn by lia. rewrite <- Z.sub_1_r. lia.
Qed.

Lemma pow2_half lg : 0 < lg -> 2 ^ lg = 2 * 2 ^ (lg - 1).
Proof. intros H. rewrite <- (Z.pow_succ_r 2 (lg - 1)) by lia. f_equal. lia. Qed.

Lemma pow2_div2 lg : 0 < lg -> 2 ^ lg / 2 = 2 ^ (lg - 1).
Proof. intros H. rewrite (pow2_half lg H), Z.mul_comm, Z.div_mul by lia. done. Qed.

Lemma log2_up_iff z lg : 1 <= z -> 0 <= lg -> Z.log2_up z = lg <-> 2 ^ lg / 2 < z <= 2 ^ lg.
Proof.
  intros Hz Hl. destruct (Z.eq_dec z 1) as [->|Hz1].
  - destruct (Z.eq_dec lg 0) as [->|]; [done|].
    rewrite pow2_div2 by lia. change (Z.log2_up 1) with 0.
    assert (1 <= 2 ^ (lg - 1)) by (apply Z.pow_le_mono_r with (b := 0); lia). lia.
  - destruct (Z.eq_dec lg 0) as [->|].
    { split; [|simpl; lia]. intros H. pose proof (Z.log2_up_pos z). lia. }
    rewrite pow2_div2 by lia. split.
    + intros <-. pose proof (Z.log2_up_spec z ltac:(lia)) as H. by rewrite <- Z.sub_1_r in H.
    + intros [H1 H2]. apply Z.log2_up_unique; rewrite <- ?Z.sub_1_r; lia.
Qed.

(** * Counting *)

(** Keys in the slice [(2^(lg-1), 2^lg]], and keys up to [m]. *)
Definition cnt (lg : Z) (zs : list Z) : Z := blen (filter (fun z => Z.log2_up z = lg) zs).
Definition upto (m : Z) (zs : list Z) : Z := blen (filter (fun z => z <= m) zs).

Lemma cnt_app lg a b : cnt lg (a ++ b) = cnt lg a + cnt lg b.
Proof. unfold cnt. by rewrite filter_app, blen_app. Qed.

Lemma cnt_single lg z : cnt lg [z] = if decide (Z.log2_up z = lg) then 1 else 0.
Proof. unfold cnt. rewrite filter_cons. by case_decide. Qed.

Lemma upto_app m a b : upto m (a ++ b) = upto m a + upto m b.
Proof. unfold upto. by rewrite filter_app, blen_app. Qed.

Lemma cnt_nonneg lg zs : 0 <= cnt lg zs.
Proof. apply blen_nonneg. Qed.

Lemma upto_nonneg m zs : 0 <= upto m zs.
Proof. apply blen_nonneg. Qed.

Lemma blen_filter_le {A} (P : A -> Prop) `{!forall x, Decision (P x)} l : blen (filter P l) <= blen l.
Proof. unfold blen. pose proof (length_filter P l). lia. Qed.

Lemma upto_step lg zs : 0 <= lg -> Forall (fun z => 1 <= z) zs ->
  upto (2 ^ lg) zs = upto (2 ^ lg / 2) zs + cnt lg zs.
Proof.
  intros Hl. induction 1 as [|z zs Hz _ IH]; [done|].
  unfold upto, cnt in *. rewrite !filter_cons. pose proof (log2_up_iff z lg Hz Hl) as H.
  assert (2 ^ lg / 2 <= 2 ^ lg) by (apply Z.div_le_upper_bound; lia).
  repeat case_decide; rewrite ?blen_cons; lia.
Qed.

Lemma upto_all m zs : Forall (fun z => z <= m) zs -> upto m zs = blen zs.
Proof. intros H. unfold upto. by rewrite filter_all. Qed.

Lemma upto_le m zs : upto m zs <= blen zs.
Proof. apply blen_filter_le. Qed.

(** Distinct positive integers: at most [m] of them are up to [m]. *)
Lemma upto_bound m zs : 0 <= m -> NoDup zs -> Forall (fun z => 1 <= z) zs -> upto m zs <= m.
Proof.
  intros Hm Hn Hz. unfold upto.
  assert (filter (fun z => z <= m) zs ⊆+ seqZ 1 m) as Hs.
  { apply NoDup_submseteq; [by apply NoDup_filter|]. intros z [H1 H2]%list_elem_of_filter.
    rewrite Forall_forall in Hz. specialize (Hz _ H2). apply elem_of_seqZ. lia. }
  apply submseteq_length in Hs. rewrite length_seqZ in Hs. unfold blen. lia.
Qed.

(** [nums] counts the keys [zs]. *)
Definition counts (nums : list Z) (zs : list Z) : Prop :=
  length nums = 27%nat /\ forall lg : nat, (lg < 27)%nat -> nums !! lg = Some (cnt (Z.of_nat lg) zs).

Lemma bump_spec nums i c : 0 <= i < 27 -> length nums = 27%nat -> exists n,
  nums !! Z.to_nat i = Some n /\ bump nums i c = Ok (<[Z.to_nat i := n + c]> nums).
Proof.
  intros Hi Hl. destruct (lookup_lt_is_Some_2 nums (Z.to_nat i)) as [n Hn]; [lia|].
  exists n. split; [done|]. unfold bump. by rewrite Hn.
Qed.

Section Counts.
Context {TE : TableEnv} {TEok : TableEnvOk}.

(** The integer keys that a rehash counts. *)
Definition cand (k : lua_value) : option Z :=
  let z := arrayindex k in if (0 <? z) && (z <=? MAXASIZE) then Some z else None.

Lemma cand_range k z : cand k = Some z -> 1 <= z <= MAXASIZE.
Proof.
  unfold cand. case_match eqn:E; [|done]. intros [= <-].
  apply andb_true_iff in E as [?%Z.ltb_lt ?%Z.leb_le]. lia.
Qed.

Lemma cand_key k z : cand k = Some z -> k = LNumber (NInt z).
Proof.
  unfold cand, arrayindex. destruct k as [| | |n| | | |]; try done.
  destruct (luai_numeq (NInt (number2int n)) n) eqn:E; [|done].
  apply luai_numeq_true in E as [E _]. case_match; [|done]. intros [= <-]. by rewrite E.
Qed.

Lemma cand_num z : 1 <= z <= MAXASIZE -> cand (LNumber (NInt z)) = Some z.
Proof.
  intros Hz. unfold cand, arrayindex. unfold MAXASIZE, MAXBITS in *.
  rewrite number2int_exact by (apply in_int_iff; unfold INT_MIN, INT_MAX; lia).
  unfold luai_numeq. rewrite bool_decide_true by done. cbv zeta.
  rewrite (proj2 (Z.ltb_lt 0 z)), (proj2 (Z.leb_le z (2 ^ 26))) by lia. done.
Qed.

Lemma countint_spec k nums zs : counts nums zs -> exists nums',
  countint k nums = Ok (blen (option_list (cand k)), nums') /\ counts nums' (zs ++ option_list (cand k)).
Proof.
  intros [Hl Hc]. unfold countint. pose proof (cand_range k) as Hr. unfold cand in *.
  destruct ((0 <? arrayindex k) && (arrayindex k <=? MAXASIZE)).
  2:{ eexists; split; [done|]. simpl. by rewrite app_nil_r. }
  specialize (Hr _ eq_refl). set (z := arrayindex k) in *. unfold MAXASIZE, MAXBITS in Hr.
  rewrite ceillog2_spec by lia. cbn [mbind cres_bind].
  assert (0 <= Z.log2_up z <= 26) as Hlg.
  { split; [apply Z.log2_up_nonneg|]. rewrite <- (Z.log2_up_pow2 26) by lia. apply Z.log2_up_le_mono. lia. }
  destruct (bump_spec nums (Z.log2_up z) 1) as (n & Hn & ->); [lia|done|].
  cbn [mbind cres_bind]. eexists; split; [done|]. split; [by rewrite length_insert|].
  intros lg Hlt. rewrite cnt_app. destruct (decide (lg = Z.to_nat (Z.log2_up z))) as [->|Hne].
  - rewrite list_lookup_insert_eq by lia. rewrite Hc in Hn by lia. simplify_eq.
    change (option_list (Some z)) with [z]. rewrite cnt_single, decide_True by lia. done.
  - rewrite list_lookup_insert_ne, Hc by done. change (option_list (Some z)) with [z].
    rewrite cnt_single, decide_False by lia. f_equal. lia.
Qed.

(** The keys of the nodes that hold a value. *)
Definition live_keys (ns : list Node) : list lua_value :=
  omap (fun n => if isnil (i_val n) then None else Some (key2tval n)) ns.

Lemma live_keys_cons n ns :
  live_keys (n :: ns) = if isnil (i_val n) then live_keys ns else key2tval n :: live_keys ns.
Proof. unfold live_keys. simpl. by destruct (isnil (i_val n)). Qed.

Lemma numusehash_loop_spec ns nums zs tot ause : counts nums zs -> exists nums',
  numusehash_loop ns nums tot ause =
    Ok (tot + blen (live_keys ns), ause + blen (omap cand (live_keys ns)), nums') /\
  counts nums' (zs ++ omap cand (live_keys ns)).
Proof.
  revert nums zs tot ause. induction ns as [|n ns IH]; intros nums zs tot ause Hc; simpl.
  { exists nums. rewrite blen_nil, !Z.add_0_r, app_nil_r. done. }
  destruct (isnil (i_val n)); [by apply IH|].
  destruct (countint_spec (key2tval n) nums zs Hc) as (nums1 & -> & Hc1). cbn [mbind cres_bind].
  destruct (IH _ _ (tot + 1) (ause + blen (option_list (cand (key2tval n)))) Hc1) as (nums2 & -> & Hc2).
  exists nums2. change (live_keys (n :: ns)) with (omap (fun n => if isnil (i_val n) then None else Some (key2tval n)) (n :: ns)).
  simpl. fold (live_keys ns). rewrite blen_cons.
  destruct (cand (key2tval n)) as [z|]; simpl in *;
    change (list_omap _ _ cand (live_keys ns)) with (omap cand (live_keys ns)).
  - rewrite !blen_cons, blen_nil. rewrite <- app_assoc in Hc2. simpl in Hc2.
    split; [|done]. do 3 f_equal; lia.
  - rewrite blen_nil. rewrite app_nil_r in Hc2. split; [|done]. do 3 f_equal; lia.
Qed.

(** * The array part *)

Definition present (a : list lua_value) (z : Z) : Prop := a !! Z.to_nat (z - 1) ≠ Some LNil.

(** The present keys among [lo], ..., [lo + n - 1]. *)
Definition akeys (a : list lua_value) (lo n : Z) : list Z := filter (present a) (seqZ lo n).

Lemma akeys_app a lo n m : 0 <= n -> 0 <= m -> akeys a lo (n + m) = akeys a lo n ++ akeys a (lo + n) m.
Proof. intros Hn Hm. unfold akeys. by rewrite seqZ_app, filter_app. Qed.

Lemma akeys_elem a lo n z : z ∈ akeys a lo n -> lo <= z < lo + n.
Proof. unfold akeys. intros [_ H]%list_elem_of_filter. by apply elem_of_seqZ in H. Qed.

Lemma akeys_cnt a lo n lg : (forall z, lo <= z < lo + n -> Z.log2_up z = lg) ->
  cnt lg (akeys a lo n) = blen (akeys a lo n).
Proof.
  intros H. unfold cnt. rewrite filter_all; [done|]. apply Forall_forall.
  intros z Hz%akeys_elem. by apply H.
Qed.

Lemma akeys_cnt_0 a lo n lg : (forall z, lo <= z < lo + n -> Z.log2_up z ≠ lg) ->
  cnt lg (akeys a lo n) = 0.
Proof.
  intros H. unfold cnt. rewrite filter_none; [done|]. apply Forall_forall.
  intros z Hz%akeys_elem. by apply H.
Qed.

Lemma count_slice_spec a k i lc : 1 <= i -> i - 1 + Z.of_nat k <= blen a ->
  count_slice k a i lc = Ok (lc + blen (akeys a i (Z.of_nat k))).
Proof.
  revert i lc. induction k as [|k IH]; intros i lc Hi Hl.
  { simpl. unfold akeys. rewrite seqZ_nil, filter_nil, blen_nil by lia. f_equal. lia. }
  cbn [count_slice]. destruct (lookup_lt_is_Some_2 a (Z.to_nat (i - 1))) as [v Hv]; [unfold blen in Hl; lia|].
  rewrite Hv. cbn [of_option mbind cres_bind]. rewrite IH by lia. f_equal.
  unfold akeys. rewrite (seqZ_cons i) by lia. rewrite Nat2Z.inj_succ, Z.pred_succ, <- Z.add_1_r.
  rewrite filter_cons. unfold isnil, present. rewrite Hv.
  case_bool_decide; subst; case_decide; try congruence; rewrite ?blen_cons; lia.
Qed.

(** Where the slice of [lg] begins. *)
Definition slice_start (sz lg : Z) : Z := Z.min (2 ^ lg / 2) sz + 1.

Lemma pow2_double lg : 0 <= lg -> 2 ^ (lg + 1) = 2 ^ lg * 2 /\ 2 ^ (lg + 1) / 2 = 2 ^ lg.
Proof. intros H. rewrite Z.pow_add_r by lia. split; [done|]. by rewrite Z.div_mul. Qed.

Lemma pow2_half_le lg : 0 <= lg -> 0 <= 2 ^ lg / 2 < 2 ^ lg.
Proof.
  intros H. pose proof (Z.pow_pos_nonneg 2 lg ltac:(lia) H).
  split; [apply Z.div_pos; lia | apply Z.div_lt_upper_bound; lia].
Qed.

(** The keys of the slice are those the inner loop sees. *)
Lemma cnt_slice a sz lg : 0 <= lg -> slice_start sz lg <= sz -> let lim := Z.min (2 ^ lg) sz in
  cnt lg (akeys a 1 sz) = blen (akeys a (slice_start sz lg) (lim + 1 - slice_start sz lg)).
Proof.
  intros Hlg Hs lim. pose proof (pow2_half_le lg Hlg). unfold slice_start in *.
  set (st := Z.min (2 ^ lg / 2) sz) in *.
  replace sz with (st + ((lim - st) + (sz - lim))) at 1 by lia.
  rewrite !akeys_app, !cnt_app by lia.
  assert (forall z, 1 <= z -> Z.log2_up z = lg <-> 2 ^ lg / 2 < z <= 2 ^ lg) as Hz
    by (intros; by apply log2_up_iff).
  rewrite akeys_cnt_0 by (intros z ?; rewrite Hz; lia).
  rewrite (akeys_cnt_0 _ (1 + st + (lim - st))) by (intros z ?; rewrite Hz; lia).
  rewrite akeys_cnt by (intros z ?; apply Hz; lia).
  replace (1 + st) with (st + 1) by lia. replace (lim + 1 - (st + 1)) with (lim - st) by lia. lia.
Qed.

(** When all keys are seen the remaining slices are empty. *)
Lemma slices_done a sz lg j : 0 <= lg <= j -> slice_start sz lg = sz + 1 -> cnt j (akeys a 1 sz) = 0.
Proof.
  intros Hj Hs. apply akeys_cnt_0. intros z Hz. rewrite log2_up_iff by lia. unfold slice_start in Hs.
  assert (2 ^ lg <= 2 ^ j) as Hp by (apply Z.pow_le_mono_r; lia).
  apply (Z.div_le_mono _ _ 2 ltac:(lia)) in Hp. lia.
Qed.

Lemma numusearray_loop_spec t fuel nums lg : table_inv t -> 0 <= lg <= 27 ->
  Z.of_nat fuel = 28 - lg -> length nums = 27%nat ->
  (forall j : nat, (j < 27)%nat -> Z.of_nat j < lg ->
     nums !! j = Some (cnt (Z.of_nat j) (akeys (array t) 1 (sizearray t)))) ->
  (forall j : nat, (j < 27)%nat -> lg <= Z.of_nat j -> nums !! j = Some 0) ->
  let i := slice_start (sizearray t) lg in
  exists nums', numusearray_loop fuel t nums lg (2 ^ lg) (blen (akeys (array t) 1 (i - 1))) i =
      Ok (blen (akeys (array t) 1 (sizearray t)), nums') /\
    counts nums' (akeys (array t) 1 (sizearray t)).
Proof.
  intros I. set (sz := sizearray t) in *. set (ks := akeys (array t) 1 sz).
  pose proof (ti_array _ I) as Ha. pose proof (ti_asize _ I) as Hm. unfold MAXASIZE, MAXBITS in Hm. fold sz in Ha, Hm.
  revert nums lg. induction fuel as [|fuel IH]; intros nums lg Hlg Hf Hl Hlo Hhi i; [lia|].
  pose proof (pow2_half_le lg ltac:(lia)) as Hh.
  assert (i = sz + 1 -> Ok (blen (akeys (array t) 1 (i - 1)), nums) = Ok (blen ks, nums) /\ counts nums ks) as Hend.
  { intros Hi. split; [do 2 f_equal; unfold ks; by replace (i - 1) with sz by lia|].
    split; [done|]. intros j Hj. destruct (Z.lt_ge_cases (Z.of_nat j) lg) as [|Hge]; [auto|].
    rewrite Hhi by done. f_equal. symmetry. apply slices_done with lg; [lia|done]. }
  cbn [numusearray_loop]. fold sz. unfold MAXBITS. destruct (Z.leb_spec lg 26) as [Hlg'|Hlg'].
  2:{ assert (i = sz + 1) as Hi.
      { assert (lg = 27) as E by lia. unfold i, slice_start. rewrite E. change (2 ^ 27 / 2) with (2 ^ 26). lia. }
      destruct (Hend Hi) as [-> ?]. eauto. }
  destruct ((sz <? 2 ^ lg) && (sz <? i)) eqn:Hbr.
  { apply andb_true_iff in Hbr as [_ Hbr%Z.ltb_lt].
    destruct (Hend ltac:(unfold i, slice_start in *; lia)) as [-> ?]. eauto. }
  assert (i <= sz) as Hi.
  { apply andb_false_iff in Hbr. rewrite !Z.ltb_ge in Hbr. unfold i, slice_start in *. lia. }
  assert ((if sz <? 2 ^ lg then sz else 2 ^ lg) = Z.min (2 ^ lg) sz) as ->.
  { destruct (Z.ltb_spec sz (2 ^ lg)); lia. }
  set (lim := Z.min (2 ^ lg) sz).
  assert (i <= lim) as Hil by (unfold i, slice_start, lim in *; lia).
  assert (1 <= i) as Hi1 by (unfold i, slice_start; lia).
  rewrite count_slice_spec by lia. cbn [mbind cres_bind]. rewrite Z2Nat.id, Z.add_0_l by lia.
  pose proof (cnt_slice (array t) sz lg ltac:(lia) Hi) as Hc. cbv zeta in Hc. fold i lim ks in Hc.
  rewrite <- Hc. destruct (bump_spec nums lg (cnt lg ks)) as (n & Hn & ->); [lia|done|].
  rewrite Hhi in Hn by lia. injection Hn as <-. cbn [mbind cres_bind].
  destruct (pow2_double lg ltac:(lia)) as [Hd Hd2].
  replace (Z.max i (lim + 1)) with (slice_start sz (lg + 1))
    by (unfold slice_start; rewrite Hd2; unfold lim; lia).
  replace (blen (akeys (array t) 1 (i - 1)) + cnt lg ks)
    with (blen (akeys (array t) 1 (slice_start sz (lg + 1) - 1))).
  2:{ rewrite Hc. unfold slice_start. rewrite Hd2. fold lim.
      replace (lim + 1 - 1) with ((i - 1) + (lim + 1 - i)) by lia.
      rewrite akeys_app, blen_app by lia. by replace (1 + (i - 1)) with i by lia. }
  rewrite <- Hd. apply IH; try lia.
  - by rewrite length_insert.
  - intros j Hj Hjl. destruct (decide (j = Z.to_nat lg)) as [->|].
    + rewrite list_lookup_insert_eq by lia. by rewrite Z2Nat.id, Z.add_0_l by lia.
    + rewrite list_lookup_insert_ne by done. apply Hlo; lia.
  - intros j Hj Hjl. rewrite list_lookup_insert_ne by lia. apply Hhi; lia.
Qed.

Lemma numusearray_spec t : table_inv t -> exists nums',
  numusearray t (replicate 27 0) = Ok (blen (akeys (array t) 1 (sizearray t)), nums') /\
  counts nums' (akeys (array t) 1 (sizearray t)).
Proof.
  intros I. pose proof (ti_array _ I).
  assert (slice_start (sizearray t) 0 = 1) as Hs.
  { unfold slice_start. change (2 ^ 0 / 2) with 0. lia. }
  pose proof (numusearray_loop_spec t 28 (replicate 27 0) 0 I) as H1. cbv zeta in H1.
  rewrite Hs in H1.
  assert (akeys (array t) 1 (1 - 1) = []) as He by (unfold akeys; by rewrite seqZ_nil by lia).
  rewrite He in H1.
  apply H1; try done; try lia. intros j Hj _. by apply lookup_replicate_2.
Qed.

End Counts.

(** * The size of the array part *)

(** [n] is 0 or a power of two of which more than half is used, by [na] keys. *)
Definition half_used (zs : list Z) (na n : Z) : Prop :=
  na = upto n zs /\ (n = 0 \/ exists j, 0 <= j <= 26 /\ n = 2 ^ j /\ n / 2 < na).

Section Sizes.
Context (zs : list Z) (Hpos : Forall (fun z => 1 <= z <= MAXASIZE) zs) (Hdup : NoDup zs).

Lemma zs_pos : Forall (fun z => 1 <= z) zs.
Proof. eapply Forall_impl; [exact Hpos|]. simpl. lia. Qed.

(** Above a size that holds all keys no size is more than half used. *)
Lemma too_large m j : 0 <= j -> blen zs <= m -> m <= 2 ^ j / 2 -> ~ 2 ^ j / 2 < upto (2 ^ j) zs.
Proof. intros Hj Hm Hle. pose proof (upto_le (2 ^ j) zs). lia. Qed.

Lemma computesizes_loop_spec nums fuel i na n : counts nums zs -> 0 <= i <= 27 ->
  Z.of_nat fuel = 28 - i -> (i = 0 \/ upto (2 ^ i / 2) zs ≠ blen zs) ->
  half_used zs na n ->
  (forall j, 0 <= j < i -> 2 ^ j / 2 < upto (2 ^ j) zs -> 2 ^ j <= n) ->
  exists na' n', computesizes_loop fuel nums (blen zs) i (2 ^ i) (upto (2 ^ i / 2) zs) na n = Ok (na', n') /\
    half_used zs na' n' /\
    forall j, 0 <= j <= 26 -> 2 ^ j / 2 < upto (2 ^ j) zs -> 2 ^ j <= n'.
Proof.
  intros [Hl Hc]. revert i na n. induction fuel as [|fuel IH]; intros i na n Hi Hf Hne Hh Hbest; [lia|].
  pose proof (pow2_half_le i ltac:(lia)) as Hp. cbn [computesizes_loop].
  destruct (Z.ltb_spec (2 ^ i / 2) (blen zs)) as [Hlt|Hge].
  2:{ exists na, n. split_and!; [done..|]. intros j Hj Hju.
      destruct (Z.lt_ge_cases j i) as [|Hji]; [apply Hbest; [lia|done]|]. exfalso. revert Hju.
      apply (too_large (2 ^ i / 2)); [lia..|]. apply Z.div_le_mono; [lia|]. apply Z.pow_le_mono_r; lia. }
  assert (i <= 26) as Hi26.
  { destruct (Z.eq_dec i 27) as [->|]; [|lia]. exfalso. destruct Hne as [|Hne]; [done|]. apply Hne.
    change (2 ^ 27 / 2) with MAXASIZE. apply upto_all. eapply Forall_impl; [exact Hpos|]. simpl. lia. }
  rewrite Hc by lia. cbn [of_option mbind cres_bind]. rewrite Z2Nat.id by lia.
  pose proof (upto_step i zs ltac:(lia) zs_pos) as Hs. pose proof (cnt_nonneg i zs) as Hc0.
  (* the three updates of a, na and n as one *)
  assert (exists na1 n1, (if 0 <? cnt i zs then
      if 2 ^ i / 2 <? upto (2 ^ i / 2) zs + cnt i zs
      then (upto (2 ^ i / 2) zs + cnt i zs, upto (2 ^ i / 2) zs + cnt i zs, 2 ^ i)
      else (upto (2 ^ i / 2) zs + cnt i zs, na, n)
    else (upto (2 ^ i / 2) zs, na, n)) = (upto (2 ^ i) zs, na1, n1) /\ half_used zs na1 n1 /\
    forall j, 0 <= j < i + 1 -> 2 ^ j / 2 < upto (2 ^ j) zs -> 2 ^ j <= n1) as (na1 & n1 & -> & Hh1 & Hb1).
  { rewrite <- Hs. destruct (Z.ltb_spec 0 (cnt i zs)) as [Hcp|Hcn].
    - destruct (Z.ltb_spec (2 ^ i / 2) (upto (2 ^ i) zs)) as [Hu|Hu].
      + eexists _, _; split_and!; [done| |].
        * split; [done|]. right. exists i. split_and!; [lia|lia|done|done].
        * intros j Hj _. apply Z.pow_le_mono_r; lia.
      + eexists _, _; split_and!; [done..|]. intros j Hj Hju.
        destruct (Z.eq_dec j i) as [->|]; [lia|]. apply Hbest; [lia|done].
    - replace (cnt i zs) with 0 in Hs by lia. rewrite Z.add_0_r in Hs. rewrite <- Hs.
      eexists _, _; split_and!; [done..|]. intros j Hj Hju.
      destruct (Z.eq_dec j i) as [->|]; [|apply Hbest; [lia|done]].
      pose proof (upto_bound (2 ^ i / 2) zs ltac:(lia) Hdup zs_pos). lia. }
  destruct (Z.eqb_spec (upto (2 ^ i) zs) (blen zs)) as [He|He].
  - exists na1, n1. split_and!; [done..|]. intros j Hj Hju.
    destruct (Z.lt_ge_cases j (i + 1)) as [|Hji]; [apply Hb1; [lia|done]|]. exfalso. revert Hju.
    apply (too_large (2 ^ i)); [lia| |].
    + rewrite <- He. apply upto_bound; [lia|done|apply zs_pos].
    + rewrite <- (proj2 (pow2_double i ltac:(lia))). apply Z.div_le_mono; [lia|]. apply Z.pow_le_mono_r; lia.
  - destruct (pow2_double i ltac:(lia)) as [Hd Hd2]. rewrite <- Hd.
    replace (upto (2 ^ i) zs) with (upto (2 ^ (i + 1) / 2) zs) by (by rewrite Hd2).
    rewrite <- Hd2 in He. apply IH; done || lia || by right.
Qed.

Lemma computesizes_spec nums : counts nums zs -> exists na n,
  computesizes nums (blen zs) = Ok (na, n) /\ half_used zs na n /\
  forall j, 0 <= j <= 26 -> 2 ^ j / 2 < upto (2 ^ j) zs -> 2 ^ j <= n.
Proof.
  intros Hc. unfold computesizes.
  assert (upto 0 zs = 0) as H0.
  { unfold upto. rewrite filter_none; [done|]. eapply Forall_impl; [exact zs_pos|]. simpl. lia. }
  pose proof (computesizes_loop_spec nums 28 0 0 0 Hc ltac:(lia) eq_refl (or_introl eq_refl)) as Hloop.
  change (2 ^ 0 / 2) with 0 in Hloop. rewrite H0 in Hloop. apply Hloop; [|lia].
  split; [done|]. by left.
Qed.

End Sizes.
