(* ===== verification/TableResize.v ===== *)
(** Growing a Lua table (ltable.c [resize], [rehash], [luaH_set]): a resize keeps
    every entry, a rehash makes room for the key it is called for, and so
    [luaH_set] always returns, after at most one rehash. *)
From S2P Require Import Prelude LuaApi LuaTable TableChain TableMap TableCount.
Import Table.

(** A key that has no place in an array part of size [n]. *)
Definition outside (n : Z) (k : lua_value) : Prop :=
  match k with LNumber (NInt z) => ~ (1 <= z <= n) | _ => True end.

#[export] Instance outside_dec n k : Decision (outside n k).
Proof. unfold outside. destruct k as [| | |[]| | | |]; apply _. Defined.

Lemma outside_index t k : outside (sizearray t) k <-> array_index t k = None.
Proof.
  unfold outside, array_index. destruct k as [| | |[z| | |]| | | |]; try done.
  destruct (Z.leb_spec 1 z), (Z.leb_spec z (sizearray t)); simpl; split; (lia || done).
Qed.

Abbreviation LInt z := (LNumber (NInt z)).

Section Resize.
Context {TE : TableEnv} {TEok : TableEnvOk}.

(** [array] is exactly as long as [sizearray] says, outside of [resize]. *)
Definition table_ok (t : Table) : Prop := table_inv t /\ blen (array t) = sizearray t.

(** * New parts *)

Lemma key_of_fresh n i k : key_of (replicate n dummynode_) i = Some k -> k = free_key.
Proof.
  unfold key_of. destruct (replicate n dummynode_ !! i) eqn:E; [|done].
  apply lookup_replicate in E as [-> _]. by intros [= <-].
Qed.

Lemma chain_fresh mpos n : chain_inv mpos (replicate n dummynode_).
Proof.
  assert (forall i, next_of (replicate n dummynode_) i = None) as HN.
  { intros i. unfold next_of. destruct (_ !! i) eqn:E; [|done]. by apply lookup_replicate in E as [-> _]. }
  split; unfold step; intros; rewrite ?HN in *; try done.
  - exists (fun _ => 0%nat). intros i j. by rewrite HN.
  - split; [done|]. unfold key_of, val_of in *. destruct (_ !! i) eqn:E; [|done].
    by apply lookup_replicate in E as [-> _].
  - by apply key_of_fresh in H.
  - intros H%key_of_fresh. done.
  - apply key_of_fresh in H0. congruence.
  - by apply key_of_fresh in H.
  - by apply key_of_fresh in H.
  - by apply key_of_fresh in H.
Qed.

Lemma fresh_inv sz a ls d : 0 <= sz <= blen a -> sz <= MAXASIZE -> 0 <= ls <= MAXBITS ->
  (d = true -> ls = 0) ->
  table_inv (mkTable sz a ls (replicate (Z.to_nat (2 ^ ls)) dummynode_) d (if d then 0 else 2 ^ ls)).
Proof.
  intros Ha Hm Hl Hd. assert (0 < 2 ^ ls) by (apply Z.pow_pos_nonneg; lia).
  split; simpl; try done.
  - unfold blen. rewrite length_replicate. lia.
  - intros ->. by rewrite Hd.
  - apply chain_fresh.
  - unfold blen. rewrite length_replicate. destruct d; lia.
  - intros i -> Hi Hk. apply key_of_lt in Hk. rewrite length_replicate in Hk. lia.
  - intros i k Hk. apply key_of_fresh in Hk. by simplify_eq.
Qed.

Lemma fresh_val t n k : table_inv t -> node t = replicate n dummynode_ -> array_index t k = None ->
  tval t k = LNil.
Proof.
  intros I Hn Ha. rewrite (tval_slot t k SNilObject I); [done|]. constructor; [done|].
  intros Hk i. rewrite Hn. intros Hi%key_of_fresh. congruence.
Qed.

(** The new node vector holds at least [size] keys. *)
Lemma setnodevector_spec size : 0 <= size <= 2 ^ 26 -> exists ls d,
  (forall t, setnodevector t size = TRet (mkTable (sizearray t) (array t) ls
    (replicate (Z.to_nat (2 ^ ls)) dummynode_) d (if d then 0 else 2 ^ ls))) /\
  0 <= ls <= MAXBITS /\ (d = true -> ls = 0) /\ (0 < size -> d = false /\ size <= 2 ^ ls).
Proof.
  intros Hs. unfold setnodevector. destruct (Z.eqb_spec size 0).
  { exists 0, true. split_and!; try done. lia. }
  rewrite ceillog2_spec by lia. cbn [tlift mbind tres_bind].
  assert (0 <= Z.log2_up size <= 26) as Hl.
  { split; [apply Z.log2_up_nonneg|]. rewrite <- (Z.log2_up_pow2 26) by lia. apply Z.log2_up_le_mono. lia. }
  unfold MAXBITS. destruct (Z.ltb_spec 26 (Z.log2_up size)); [lia|].
  assert (twoto (Z.log2_up size) = 2 ^ Z.log2_up size) as -> by (unfold twoto; apply Z.shiftl_1_l).
  exists (Z.log2_up size), false. split_and!; try done; try lia.
  intros _. split; [done|]. apply (log2_up_iff size (Z.log2_up size)); lia.
Qed.

(** * Storing a list of entries *)

Section Store.
Variable nk : Table -> lua_value -> tres (tslot * Table).

Fixpoint store_all (l : list (lua_value * lua_value)) (t : Table) : tres Table :=
  match l with
  | [] => mret t
  | (k, v) :: l =>
      '(s, t) ← luaH_set_with nk t k; t ← tlift (write_slot t s v); store_all l t
  end.

Lemma store_all_app l l' t : store_all (l ++ l') t = (t' ← store_all l t; store_all l' t').
Proof.
  revert t. induction l as [|[k v] l IH]; intros t; [done|]. simpl.
  destruct (luaH_set_with nk t k) as [[s t1]| |]; [|done|done]. simpl.
  destruct (tlift (write_slot t1 s v)) as [t2| |]; [|done|done]. apply IH.
Qed.

Definition node_entries (ns : list Node) : list (lua_value * lua_value) :=
  omap (fun n => if isnil (i_val n) then None else Some (key2tval n, i_val n)) ns.

Lemma reinsert_nodes_store ns t : reinsert_nodes nk ns t = store_all (node_entries ns) t.
Proof.
  revert t. induction ns as [|n ns IH]; intros t; [done|].
  change (node_entries (n :: ns)) with (omap (fun n => if isnil (i_val n) then None else Some (key2tval n, i_val n)) (n :: ns)).
  simpl. destruct (isnil (i_val n)); [apply IH|]. simpl.
  destruct (luaH_set_with nk t (key2tval n)) as [[s t1]| |]; [|done|done]. simpl.
  destruct (tlift (write_slot t1 s (i_val n))) as [t2| |]; [|done|done]. apply IH.
Qed.

Lemma luaH_setnum_set t z : in_int z = true -> luaH_setnum_with nk t z = luaH_set_with nk t (LInt z).
Proof.
  intros Hz. unfold luaH_setnum_with, luaH_set_with, luaH_get. rewrite number2int_exact by done.
  unfold luai_numeq. by rewrite bool_decide_true.
Qed.

Fixpoint slice_entries (vs : list lua_value) (i : Z) : list (lua_value * lua_value) :=
  match vs with
  | [] => []
  | v :: vs => if isnil v then slice_entries vs (i + 1) else (LInt (i + 1), v) :: slice_entries vs (i + 1)
  end.

Lemma reinsert_slice_store vs i t : 0 <= i -> i + blen vs <= MAXASIZE ->
  reinsert_slice nk vs i t = store_all (slice_entries vs i) t.
Proof.
  revert i t. induction vs as [|v vs IH]; intros i t Hi Hl; [done|]. simpl. rewrite blen_cons in Hl.
  destruct (isnil v); [apply IH; lia|]. pose proof (blen_nonneg vs). unfold MAXASIZE, MAXBITS in *.
  rewrite luaH_setnum_set by (apply in_int_iff; unfold INT_MIN, INT_MAX; lia). simpl.
  destruct (luaH_set_with nk t (LInt (i + 1))) as [[s t1]| |]; [|done|done]. simpl.
  destruct (tlift (write_slot t1 s v)) as [t2| |]; [|done|done]. apply IH; lia.
Qed.

End Store.

(** The entries that need a node. *)
Definition hashn (n : Z) (ks : list lua_value) : nat := length (filter (outside n) ks).

Lemma store_all_spec nk l t : table_inv t -> Forall valid_key l.*1 -> NoDup l.*1 ->
  (0 < hashn (sizearray t) l.*1 -> is_dummy t = false /\
     used (node t) + hashn (sizearray t) l.*1 <= length (node t))%nat ->
  exists t', store_all (newkey_with nk) l t = TRet t' /\ table_inv t' /\ same_shape t t' /\
    (used (node t') <= used (node t) + hashn (sizearray t) l.*1)%nat /\
    (Forall (outside (sizearray t)) l.*1 -> array t' = array t) /\
    (forall k v, (k, v) ∈ l -> tval t' k = v) /\ (forall k, k ∉ l.*1 -> tval t' k = tval t k).
Proof.
  revert t. induction l as [|[k v] l IH]; intros t I Hv Hn Hroom.
  { exists t. split_and!; try done; [lia|]. intros k v H. by apply not_elem_of_nil in H. }
  apply Forall_cons in Hv as [Hk Hv]. apply NoDup_cons in Hn as [Hkl Hn].
  change (((k, v) :: l).*1) with (k :: l.*1) in *. unfold hashn in *. rewrite filter_cons in *.
  destruct (luaH_set_room nk t k I Hk) as (s & t1 & Hset & Hpl & Hsame).
  { intros s Hs ->. inversion Hs; subst. rewrite decide_True in Hroom by (by apply outside_index).
    simpl in Hroom. destruct Hroom; [lia|]. split; [done|lia]. }
  destruct (write_slot_spec t1 k s v) as (t2 & Hw & [I2 Sh2 Hu2 Ha2 Hv2]);
    [apply Hpl|apply Hpl|apply Hpl|].
  pose proof (same_shape_trans _ _ _ (pl_shape _ _ _ _ Hpl) Sh2) as Sh.
  pose proof (sh_size _ _ Sh) as Hsz.
  destruct (IH t2 I2 Hv Hn) as (t' & Hst & I' & Sh' & Hu' & Ha' & Hin & Hout).
  { rewrite Hsz, (sh_dummy _ _ Sh), (sh_node _ _ Sh), Hu2. intros H0. pose proof (pl_used _ _ _ _ Hpl).
    case_decide as Hd; simpl in Hroom.
    - destruct Hroom as [? ?]; [lia|]. split; [done|lia].
    - assert (t1 = t) as -> by (apply Hsame; by rewrite <- outside_index). by apply Hroom. }
  exists t'. simpl. rewrite Hset. cbn [mbind tres_bind]. rewrite Hw. cbn [tlift mbind tres_bind].
  split_and!; try done.
  - by eapply same_shape_trans.
  - rewrite Hsz, Hu2 in Hu'. pose proof (pl_used _ _ _ _ Hpl). case_decide as Hd; simpl; [lia|].
    assert (t1 = t) as -> by (apply Hsame; by rewrite <- outside_index). lia.
  - intros [Hko Hlo]%Forall_cons. rewrite Hsz in Ha'. rewrite (Ha' Hlo), Ha2, (pl_array _ _ _ _ Hpl); [done|].
    rewrite (same_shape_index t); [by apply outside_index|]. apply Hpl.
  - intros k' v' [[= -> ->]|Hl]%elem_of_cons; [|auto].
    rewrite Hout by done. rewrite Hv2, decide_True by done. done.
  - intros k' Hk'. apply not_elem_of_cons in Hk' as [Hne Hk'].
    rewrite Hout, Hv2, decide_False by done. by apply Hpl.
Qed.

(** * The entries of a table *)

(** The keys that have a value: those of the array part, then those of the
    nodes in the order in which a rehash sees them. *)
Definition all_keys (t : Table) : list lua_value :=
  ((fun z => LInt z) <$> akeys (array t) 1 (sizearray t)) ++ live_keys (reverse (node t)).

Lemma node_entries_keys ns : (node_entries ns).*1 = live_keys ns.
Proof.
  induction ns as [|n ns IH]; [done|]. unfold node_entries, live_keys in *. simpl.
  destruct (isnil (i_val n)); [apply IH|]. simpl. f_equal. apply IH.
Qed.

Lemma node_entries_elem ns k v : (k, v) ∈ node_entries ns <->
  exists i nd, ns !! i = Some nd /\ k = key2tval nd /\ v = i_val nd /\ v ≠ LNil.
Proof.
  unfold node_entries. rewrite list_elem_of_omap. split.
  - intros (nd & Hnd & H). unfold isnil in H. case_bool_decide; [done|]. simplify_eq.
    apply list_elem_of_lookup in Hnd as [i Hi]. eauto 10.
  - intros (i & nd & Hi & -> & -> & Hv). exists nd. split; [by eapply list_elem_of_lookup_2|].
    unfold isnil. by rewrite bool_decide_false.
Qed.

(** In a well-formed table the entries of the nodes are its live entries. *)
Lemma node_entries_live t k v : table_inv t -> (k, v) ∈ node_entries (reverse (node t)) <-> live (node t) k v.
Proof.
  intros I. pose proof (ti_chain _ I) as C.
  assert ((k, v) ∈ node_entries (reverse (node t)) <-> exists i nd, node t !! i = Some nd /\
    k = key2tval nd /\ v = i_val nd /\ v ≠ LNil) as ->.
  { rewrite node_entries_elem. split; intros (i & nd & Hi & H).
    - apply list_elem_of_lookup_2 in Hi. rewrite elem_of_reverse in Hi.
      apply list_elem_of_lookup in Hi as [j Hj]. eauto.
    - apply list_elem_of_lookup_2 in Hi. rewrite <- elem_of_reverse in Hi.
      apply list_elem_of_lookup in Hi as [j Hj]. eauto. }
  unfold live. split.
  - intros (i & nd & Hi & -> & -> & Hv). exists i. destruct (node_views _ _ _ Hi) as (HK & HV & _).
    unfold key2tval. destruct (i_key nd) as [k|k] eqn:E.
    + split_and!; try done. intros ->. apply (ci_free _ _ C) in HK as [_ H]. congruence.
    + apply (ci_dead _ _ C) in HK. congruence.
  - intros (i & HK & HV & Hk & Hv). destruct (node t !! i) as [nd|] eqn:Hi;
      [|unfold key_of in HK; by rewrite Hi in HK].
    destruct (node_views _ _ _ Hi) as (HK' & HV' & _). exists i, nd.
    split_and!; try done; [|congruence]. unfold key2tval. by replace (i_key nd) with (KVal k) by congruence.
Qed.

Lemma live_keys_live t k : table_inv t -> k ∈ live_keys (reverse (node t)) <-> exists v, live (node t) k v.
Proof.
  intros I. rewrite <- node_entries_keys, list_elem_of_fmap. split.
  - intros ([k' v] & -> & H). exists v. by apply node_entries_live.
  - intros [v H]. exists (k, v). split; [done|]. by apply node_entries_live.
Qed.

Lemma live_valid t k v : table_inv t -> live (node t) k v -> valid_key k /\ array_index t k = None.
Proof.
  intros I (i & HK & _ & Hk & _). split; [|by eapply ti_hash]. split; [done|].
  intros ->. by eapply (ci_nan _ _ (ti_chain _ I)).
Qed.

Lemma live_keys_NoDup t : table_inv t -> NoDup (live_keys (reverse (node t))).
Proof.
  intros I. pose proof (ti_chain _ I) as C.
  assert (forall ns, (forall i j a b, ns !! i = Some a -> ns !! j = Some b -> i_val a ≠ LNil ->
    i_val b ≠ LNil -> key2tval a = key2tval b -> i = j) -> NoDup (live_keys ns)) as Hgen.
  { induction ns as [|n ns IH]; intros H; [constructor|]. unfold live_keys. simpl.
    assert (NoDup (live_keys ns)) as Hns.
    { apply IH. intros i j a b Hi Hj ? ? ?. assert (S i = S j); [by eapply H|]. lia. }
    unfold isnil at 1. case_bool_decide as Hn; [done|]. constructor; [|done].
    fold (live_keys ns). unfold live_keys. rewrite list_elem_of_omap. intros (m & Hm & He).
    unfold isnil in He. case_bool_decide as Hvm; [done|]. apply list_elem_of_lookup in Hm as [j Hj].
    assert (0 = S j)%nat; [|lia]. eapply (H 0 (S j))%nat; [done..|]. congruence. }
  apply Hgen. intros i j a b Hi Hj Ha Hb He.
  assert (forall i a, reverse (node t) !! i = Some a -> i_val a ≠ LNil ->
    exists k, key_of (node t) (length (node t) - S i) = Some (KVal k) /\ k ≠ LNil /\ key2tval a = k /\
      (i < length (node t))%nat) as Hkey.
  { intros i' a' Hi' Ha'. apply reverse_lookup_Some in Hi' as [Hi' Hlt].
    destruct (node_views _ _ _ Hi') as (HK & HV & _). unfold key2tval.
    destruct (i_key a') as [k|k] eqn:E; [|apply (ci_dead _ _ C) in HK; congruence].
    exists k. split_and!; try done. intros ->. apply (ci_free _ _ C) in HK as [_ H]. congruence. }
  destruct (Hkey i a Hi Ha) as (k & H1 & H2 & H3 & H4). destruct (Hkey j b Hj Hb) as (k' & H1' & _ & H3' & H4').
  assert (k' = k) as -> by congruence. pose proof (ci_uniq _ _ C _ _ _ H2 H1 H1'). lia.
Qed.

(** The vanishing slice of the array part. *)
Lemma slice_entries_keys a lo n : 0 <= lo -> 0 <= n -> lo + n <= blen a ->
  (slice_entries (take (Z.to_nat n) (drop (Z.to_nat lo) a)) lo).*1 =
    (fun z => LInt z) <$> akeys a (lo + 1) n.
Proof.
  intros Hlo Hn. rewrite <- (Z2Nat.id n Hn). generalize (Z.to_nat n) as m. clear n Hn. intros m.
  rewrite Nat2Z.id. revert lo Hlo. induction m as [|m IH]; intros lo Hlo Hl.
  { unfold akeys. rewrite seqZ_nil by lia. by rewrite take_0. }
  destruct (lookup_lt_is_Some_2 a (Z.to_nat lo)) as [v Hv]; [unfold blen in Hl; lia|].
  rewrite (drop_S _ v) by done. cbn [take slice_entries].
  replace (S (Z.to_nat lo)) with (Z.to_nat (lo + 1)) by lia.
  unfold akeys. rewrite seqZ_cons, filter_cons by lia.
  rewrite Nat2Z.inj_succ, Z.pred_succ, <- Z.add_1_r. fold (akeys a (lo + 1 + 1) (Z.of_nat m)).
  assert (present a (lo + 1) <-> v ≠ LNil) as Hp.
  { unfold present. replace (lo + 1 - 1) with lo by lia. rewrite Hv. naive_solver. }
  unfold isnil. case_bool_decide; case_decide; try tauto; simpl; by rewrite <- IH by lia.
Qed.

Lemma slice_entries_elem a lo n k v : 0 <= lo -> 0 <= n -> lo + n <= blen a ->
  (k, v) ∈ slice_entries (take (Z.to_nat n) (drop (Z.to_nat lo) a)) lo ->
  exists z, k = LInt z /\ lo < z <= lo + n /\ a !! Z.to_nat (z - 1) = Some v.
Proof.
  intros Hlo Hn. rewrite <- (Z2Nat.id n Hn). generalize (Z.to_nat n) as m. clear n Hn. intros m.
  rewrite Nat2Z.id. revert lo Hlo. induction m as [|m IH]; intros lo Hlo Hl Hin.
  { rewrite take_0 in Hin. by apply not_elem_of_nil in Hin. }
  destruct (lookup_lt_is_Some_2 a (Z.to_nat lo)) as [w Hw]; [unfold blen in Hl; lia|].
  rewrite (drop_S _ w) in Hin by done. cbn [take slice_entries] in Hin.
  replace (S (Z.to_nat lo)) with (Z.to_nat (lo + 1)) in Hin by lia.
  assert ((k, v) = (LInt (lo + 1), w) \/
    (k, v) ∈ slice_entries (take m (drop (Z.to_nat (lo + 1)) a)) (lo + 1)) as [[= -> ->]|Hin'].
  { destruct (isnil w); [by right|]. by apply elem_of_cons in Hin. }
  - exists (lo + 1). replace (lo + 1 - 1) with lo by lia. split_and!; done || lia.
  - destruct (IH (lo + 1)) as (z & -> & Hz & Hv); [lia|lia|done|]. exists z. split_and!; done || lia.
Qed.

(** * Resizing *)

(** Giving back the end of the array block. *)
Definition truncate (t : Table) : Table :=
  set_array t (sizearray t) (take (Z.to_nat (sizearray t)) (array t)).

Lemma truncate_ok t : table_inv t -> table_ok (truncate t) /\ forall k, tval (truncate t) k = tval t k.
Proof.
  intros I. pose proof (ti_array _ I) as Ha.
  assert (table_inv (truncate t)) as I'.
  { pose proof I as []. split; try done. simpl. rewrite blen_take by lia. lia. }
  split; [split; [done|]; simpl; by rewrite blen_take by lia|].
  apply tval_eq_live; try done. intros k i Hi. simpl. apply lookup_take_lt.
  destruct k as [| | |[z| | |]| | | |]; try done. simpl in Hi. case_match eqn:E; [|done].
  apply andb_true_iff in E as [E1%Z.leb_le E2%Z.leb_le]. simplify_eq. lia.
Qed.

(** Filling a table with fresh nodes: first the slice [l1] of the old array part,
    then the old nodes [l2]. *)
Lemma fill_ok nk t l1 l2 n : table_inv t -> node t = replicate n dummynode_ ->
  Forall valid_key l1.*1 -> Forall valid_key l2.*1 -> NoDup l1.*1 -> NoDup l2.*1 ->
  Forall (outside (sizearray t)) l1.*1 ->
  let need := (hashn (sizearray t) l1.*1 + hashn (sizearray t) l2.*1)%nat in
  (0 < need -> is_dummy t = false /\ need <= n)%nat ->
  exists t4 t', store_all (newkey_with nk) l1 t = TRet t4 /\ sizearray t4 = sizearray t /\
    (l1 = [] -> t4 = t) /\ store_all (newkey_with nk) l2 (truncate t4) = TRet t' /\ table_ok t' /\
    sizearray t' = sizearray t /\ is_dummy t' = is_dummy t /\ length (node t') = n /\
    (used (node t') <= need)%nat /\
    (forall k v, (k, v) ∈ l2 -> tval t' k = v) /\
    (forall k v, (k, v) ∈ l1 -> k ∉ l2.*1 -> tval t' k = v) /\
    (forall k, k ∉ l1.*1 -> k ∉ l2.*1 -> tval t' k = tval t k).
Proof.
  intros I Hn Hv1 Hv2 Hn1 Hn2 Ho need Hroom.
  assert (used (node t) = 0%nat) as Hu0 by (rewrite Hn; apply used_replicate).
  assert (length (node t) = n) as Hlen by (by rewrite Hn, length_replicate).
  destruct (store_all_spec nk l1 t I Hv1 Hn1) as (t4 & Hs4 & I4 & Sh4 & Hu4 & Ha4 & Hin4 & Hout4).
  { rewrite Hu0, Hlen. intros H. destruct Hroom; [unfold need; lia|]. split; [done|]. unfold need in *. lia. }
  destruct (truncate_ok t4 I4) as [[I5 Hex] Hval]. pose proof (sh_size _ _ Sh4) as Hsz4.
  assert (sizearray (truncate t4) = sizearray t) as Hsz5 by done.
  destruct (store_all_spec nk l2 (truncate t4) I5 Hv2 Hn2) as (t' & Hs' & I' & Sh' & Hu' & Ha' & Hin' & Hout').
  { rewrite Hsz5. change (node (truncate t4)) with (node t4). change (is_dummy (truncate t4)) with (is_dummy t4).
    rewrite (sh_dummy _ _ Sh4), (sh_node _ _ Sh4), Hlen. intros H.
    destruct Hroom; [unfold need; lia|]. split; [done|]. unfold need in *. lia. }
  exists t4, t'. change (node (truncate t4)) with (node t4) in Hu'. rewrite Hsz5 in Hu'.
  split_and!; try done.
  - intros ->. simpl in Hs4. by injection Hs4.
  - pose proof (sh_array _ _ Sh') as Hla. split; [done|]. unfold blen in *. rewrite Hla, Hex.
    by rewrite (sh_size _ _ Sh').
  - by rewrite (sh_size _ _ Sh'), Hsz5.
  - by rewrite (sh_dummy _ _ Sh'), <- (sh_dummy _ _ Sh4).
  - rewrite (sh_node _ _ Sh'). change (node (truncate t4)) with (node t4). by rewrite (sh_node _ _ Sh4).
  - unfold need. lia.
  - intros k v H1 H2. rewrite Hout', Hval by done. by apply Hin4.
  - intros k H1 H2. rewrite Hout', Hval by done. by apply Hout4.
Qed.

(** The table [resize] fills: the new array part and fresh nodes. *)
Definition grown_array (t : Table) (n : Z) : list lua_value :=
  if sizearray t <? n then array (setarrayvector t n) else array t.

Lemma grown_array_lookup t n i v : table_ok t -> array t !! i = Some v -> grown_array t n !! i = Some v.
Proof.
  intros [I Hex] Hi. unfold grown_array. destruct (Z.ltb_spec (sizearray t) n); [|done]. simpl.
  apply lookup_lt_Some in Hi as Hlt. unfold blen in Hex. rewrite take_ge by lia.
  rewrite lookup_resize by lia. done.
Qed.

Lemma grown_array_new t n i : table_ok t -> sizearray t <= Z.of_nat i < n -> grown_array t n !! i = Some LNil.
Proof.
  intros [I Hex] Hi. unfold grown_array. destruct (Z.ltb_spec (sizearray t) n); [|lia]. simpl.
  unfold blen in Hex. rewrite take_ge by lia. by rewrite lookup_resize_new by lia.
Qed.

Lemma grown_array_length t n : table_ok t -> 0 <= n -> blen (grown_array t n) = Z.max (sizearray t) n.
Proof.
  intros [I Hex] Hn. unfold grown_array. destruct (Z.ltb_spec (sizearray t) n); [|lia]. simpl.
  unfold blen. rewrite length_resize. lia.
Qed.

Definition lost_slice (t : Table) (n : Z) : list (lua_value * lua_value) :=
  slice_entries (take (Z.to_nat (sizearray t - n)) (drop (Z.to_nat n) (array t))) n.

Lemma lost_slice_none t n : sizearray t <= n -> lost_slice t n = [].
Proof. intros H. unfold lost_slice. by replace (Z.to_nat (sizearray t - n)) with 0%nat by lia. Qed.

Lemma resize_steps nk t n ls d nh : table_ok t -> 0 <= n -> sizearray t <= MAXASIZE ->
  (forall t, setnodevector t nh = TRet (mkTable (sizearray t) (array t) ls
     (replicate (Z.to_nat (2 ^ ls)) dummynode_) d (if d then 0 else 2 ^ ls))) ->
  let start := mkTable n (grown_array t n) ls (replicate (Z.to_nat (2 ^ ls)) dummynode_) d (if d then 0 else 2 ^ ls) in
  forall t4, store_all nk (lost_slice t n) start = TRet t4 -> sizearray t4 = n ->
  (lost_slice t n = [] -> t4 = start) ->
  resize_with nk t n nh = store_all nk (node_entries (reverse (node t))) (truncate t4).
Proof.
  intros Hok Hn Hm Hset start t4 Hs4 Hsz4 Hsame. pose proof Hok as [I Hex]. pose proof (ti_array _ I) as Ha.
  set (t1 := if sizearray t <? n then setarrayvector t n else t).
  assert (array t1 = grown_array t n) as Hg by (unfold t1, grown_array; by destruct (sizearray t <? n)).
  unfold resize_with. fold t1.
  rewrite Hset, Hg.
  cbn [mbind tres_bind]. destruct (Z.ltb_spec n (sizearray t)) as [Hlt|Hge].
  - rewrite reinsert_slice_store.
    2: done. 2:{ unfold blen. rewrite length_take, length_drop. lia. }
    assert (grown_array t n = array t) as Hga by (unfold grown_array; by destruct (Z.ltb_spec (sizearray t) n); [lia|]).
    unfold set_array. simpl. fold (lost_slice t n). rewrite Hga. unfold start in Hs4. rewrite Hga in Hs4.
    fold (lost_slice t n). rewrite Hs4. simpl. rewrite reinsert_nodes_store. unfold truncate. by rewrite Hsz4.
  - simpl. rewrite reinsert_nodes_store, (Hsame (lost_slice_none t n Hge)). f_equal. unfold truncate, start, set_array. simpl.
    assert (sizearray t1 = n) as ->.
    { unfold t1. destruct (Z.ltb_spec (sizearray t) n); [done|lia]. }
    rewrite take_ge; [done|]. pose proof (grown_array_length t n Hok Hn). unfold blen in *. lia.
Qed.

Lemma array_index_LInt t z : 1 <= z <= sizearray t -> array_index t (LInt z) = Some (Z.to_nat (z - 1)).
Proof. intros H. simpl. by rewrite (proj2 (Z.leb_le 1 z)), (proj2 (Z.leb_le z (sizearray t))) by lia. Qed.

Lemma array_index_Some t k i : array_index t k = Some i ->
  exists z, k = LInt z /\ 1 <= z <= sizearray t /\ i = Z.to_nat (z - 1).
Proof.
  destruct k as [| | |[z| | |]| | | |]; try done. simpl. case_match eqn:E; [|done].
  apply andb_true_iff in E as [E1%Z.leb_le E2%Z.leb_le]. intros [= <-]. eauto.
Qed.

Lemma akeys_outside a n lo m : n < lo -> Forall (outside n) ((fun z => LInt z) <$> akeys a lo m).
Proof. intros H. apply Forall_fmap, Forall_forall. intros z Hz%akeys_elem. simpl. lia. Qed.

Lemma hashn_inside a n lo m : 1 <= lo -> lo + m - 1 <= n -> hashn n ((fun z => LInt z) <$> akeys a lo m) = 0%nat.
Proof.
  intros H1 H2. unfold hashn. rewrite filter_none; [done|]. apply Forall_fmap, Forall_forall.
  intros z Hz%akeys_elem. simpl. lia.
Qed.

Lemma lost_slice_keys t n : table_ok t -> 0 <= n <= sizearray t ->
  (lost_slice t n).*1 = (fun z => LInt z) <$> akeys (array t) (n + 1) (sizearray t - n).
Proof. intros [I Hex] Hn. unfold lost_slice. apply slice_entries_keys; lia. Qed.

(** The keys that need a node after the resize are those outside the new array
    part. *)
Lemma hashn_split t n : table_ok t -> 0 <= n ->
  (hashn n (lost_slice t n).*1 + hashn n (live_keys (reverse (node t))) = hashn n (all_keys t))%nat.
Proof.
  intros Hok Hn. unfold all_keys, hashn at 3. rewrite filter_app, length_app. f_equal.
  fold (hashn n ((fun z => LInt z) <$> akeys (array t) 1 (sizearray t))).
  destruct (Z.le_gt_cases n (sizearray t)) as [Hle|Hgt].
  - rewrite lost_slice_keys by (done || lia).
    assert (akeys (array t) 1 (sizearray t) =
      akeys (array t) 1 n ++ akeys (array t) (n + 1) (sizearray t - n)) as ->.
    { rewrite (Z.add_comm n 1), <- akeys_app by lia. f_equal. lia. }
    rewrite fmap_app. unfold hashn. rewrite filter_app, length_app.
    fold (hashn n ((fun z => LInt z) <$> akeys (array t) 1 n)). by rewrite hashn_inside by lia.
  - rewrite lost_slice_none by lia. rewrite hashn_inside; [done|lia|lia].
Qed.

Lemma lost_slice_elem t n k v : table_ok t -> 0 <= n -> (k, v) ∈ lost_slice t n ->
  exists z, k = LInt z /\ n < z <= sizearray t /\ array t !! Z.to_nat (z - 1) = Some v.
Proof.
  intros [I Hex] Hn Hin. destruct (Z.le_gt_cases n (sizearray t)) as [Hle|Hgt].
  - apply slice_entries_elem in Hin as (z & ? & ? & ?); [exists z|..]; try lia. split_and!; done || lia.
  - rewrite lost_slice_none in Hin by lia. by apply not_elem_of_nil in Hin.
Qed.

Lemma lost_slice_complete t n z v : table_ok t -> 0 <= n < z -> z <= sizearray t ->
  array t !! Z.to_nat (z - 1) = Some v -> v ≠ LNil -> LInt z ∈ (lost_slice t n).*1.
Proof.
  intros Hok Hz Hle Hv Hne. rewrite lost_slice_keys by (done || lia).
  apply list_elem_of_fmap. exists z. split; [done|]. apply list_elem_of_filter.
  split; [unfold present; congruence|]. apply elem_of_seqZ. lia.
Qed.

(** A filled table has the values of the old one. *)
Lemma filled_values t n start m t' : table_ok t -> 0 <= n -> table_inv start ->
  sizearray start = n -> array start = grown_array t n -> node start = replicate m dummynode_ ->
  (forall k v, (k, v) ∈ node_entries (reverse (node t)) -> tval t' k = v) ->
  (forall k v, (k, v) ∈ lost_slice t n -> k ∉ live_keys (reverse (node t)) -> tval t' k = v) ->
  (forall k, k ∉ (lost_slice t n).*1 -> k ∉ live_keys (reverse (node t)) -> tval t' k = tval start k) ->
  forall k, tval t' k = tval t k.
Proof.
  intros Hok Hn Is Hsz Harr Hnode Hin2 Hin1 Hout k. pose proof Hok as [I Hex].
  destruct (array_index t k) as [i|] eqn:Hi.
  - destruct (array_index_Some _ _ _ Hi) as (z & -> & Hz & ->).
    destruct (lookup_lt_is_Some_2 _ _ (array_index_lt _ _ _ I Hi)) as [v Hv].
    rewrite (tval_array t _ _ v I Hi Hv).
    assert (LInt z ∉ live_keys (reverse (node t))) as Hnl.
    { intros [w Hw]%live_keys_live; [|done]. apply live_valid in Hw as [_ ?]; [|done]. congruence. }
    destruct (decide (LInt z ∈ (lost_slice t n).*1)) as [Hin|Hnin].
    + apply list_elem_of_fmap in Hin as ([k' w] & Hk & Hin). simpl in Hk. subst k'.
      rewrite (Hin1 _ w Hin Hnl). apply lost_slice_elem in Hin as (z' & [= <-] & _ & Hw); [congruence|done|lia].
    + rewrite Hout by done. destruct (Z.le_gt_cases z n) as [Hzn|Hzn].
      * apply (tval_array start _ (Z.to_nat (z - 1))); [done|apply array_index_LInt; lia|].
        rewrite Harr. by apply grown_array_lookup.
      * rewrite (fresh_val start m); [|done|done|apply outside_index; simpl; lia].
        destruct (decide (v = LNil)); [done|]. exfalso. apply Hnin.
        eapply lost_slice_complete; done || lia.
  - assert (k ∉ (lost_slice t n).*1) as Hns.
    { intros [[k' w] [-> H]]%list_elem_of_fmap. apply lost_slice_elem in H as (z & -> & Hz & _); [|done|lia].
      apply outside_index in Hi. simpl in Hi. lia. }
    destruct (decide (tval t k = LNil)) as [Hnil|Hlive].
    + rewrite Hout; [|done|].
      2:{ intros [w Hw]%live_keys_live; [|done]. pose proof Hw as (? & _ & _ & _ & ?).
          apply tval_hash in Hw; [congruence|done..]. }
      rewrite Hnil. destruct (array_index start k) as [i|] eqn:Hsi; [|by eapply fresh_val].
      destruct (array_index_Some _ _ _ Hsi) as (z & -> & Hz & ->).
      apply (tval_array start _ (Z.to_nat (z - 1))); [done..|]. rewrite Harr.
      apply outside_index in Hi. simpl in Hi. apply grown_array_new; [done|lia].
    + apply Hin2, node_entries_live; [done|]. by apply tval_hash.
Qed.

(** A resize keeps all entries, if the new parts have room for them. *)
Lemma resize_ok nk t n nh : table_ok t -> 0 <= n <= MAXASIZE -> 0 <= nh <= 2 ^ 26 ->
  Z.of_nat (hashn n (all_keys t)) <= nh ->
  exists t', resize_with (newkey_with nk) t n nh = TRet t' /\ table_ok t' /\ sizearray t' = n /\
    (used (node t') <= hashn n (all_keys t))%nat /\
    (0 < nh -> is_dummy t' = false /\ nh <= blen (node t')) /\
    forall k, tval t' k = tval t k.
Proof.
  intros Hok Hn Hnh Hroom. pose proof Hok as [I Hex]. pose proof (ti_array _ I) as Ha.
  destruct (setnodevector_spec nh Hnh) as (ls & d & Hset & Hls & Hd & Hcap).
  set (start := mkTable n (grown_array t n) ls (replicate (Z.to_nat (2 ^ ls)) dummynode_) d (if d then 0 else 2 ^ ls)).
  assert (table_inv start) as Is.
  { apply fresh_inv; try done; [|lia]. rewrite grown_array_length by (done || lia). lia. }
  pose proof (hashn_split t n Hok ltac:(lia)) as Hneed.
  destruct (fill_ok nk start (lost_slice t n) (node_entries (reverse (node t))) (Z.to_nat (2 ^ ls)))
    as (t4 & t' & Hs4 & Hsz4 & Hsame & Hs' & Hok' & Hsz' & Hd' & Hlen' & Hu' & Hin2 & Hin1 & Hout); try done.
  { apply Forall_forall. intros k [[k' v] [-> H]]%list_elem_of_fmap.
    apply lost_slice_elem in H as (z & -> & _); [done|done|lia]. }
  { rewrite node_entries_keys. apply Forall_forall. intros k [v H]%live_keys_live; [|done].
    by apply (live_valid t k v). }
  { destruct (Z.le_gt_cases n (sizearray t)); [|rewrite lost_slice_none by lia; constructor].
    rewrite lost_slice_keys by (done || lia). apply NoDup_fmap_2; [by intros ?? [=]|].
    apply NoDup_filter, NoDup_seqZ. }
  { rewrite node_entries_keys. by apply live_keys_NoDup. }
  { simpl. destruct (Z.le_gt_cases n (sizearray t)); [|rewrite lost_slice_none by lia; constructor].
    rewrite lost_slice_keys by (done || lia). apply akeys_outside. lia. }
  { simpl. rewrite node_entries_keys, Hneed. intros H0. destruct Hcap as [? ?]; [lia|]. split; [done|lia]. }
  exists t'. simpl in Hu'. rewrite node_entries_keys, Hneed in Hu'. rewrite node_entries_keys in Hin1, Hout.
  split_and!; try done.
  - rewrite (resize_steps (newkey_with nk) t n ls d nh) with (t4 := t4); try done; [lia|].
    pose proof (ti_asize _ I). lia.
  - intros H0. destruct (Hcap H0) as [-> ?]. split; [done|]. unfold blen. rewrite Hlen'. lia.
  - apply (filled_values t n start (Z.to_nat (2 ^ ls))); done || lia.
Qed.

(** * Rehashing *)

(** Every key is outside the array part or one of the keys counted for it. *)
Lemma hashn_upto n ks : 0 <= n <= MAXASIZE ->
  Z.of_nat (hashn n ks) + upto n (omap cand ks) = blen ks.
Proof.
  intros Hn. induction ks as [|k ks IH]; [done|]. unfold hashn in *. rewrite filter_cons, blen_cons.
  change (omap cand (k :: ks)) with (match cand k with Some z => z :: omap cand ks | None => omap cand ks end).
  destruct (cand k) as [z|] eqn:Hc.
  - pose proof (cand_range _ _ Hc). rewrite (cand_key _ _ Hc). unfold upto in *. rewrite filter_cons.
    case_decide as H1; case_decide as H2; simpl in H1; rewrite ?blen_cons; simpl; lia.
  - rewrite decide_True; [simpl; lia|]. unfold outside. destruct k as [| | |[z| | |]| | | |]; try done.
    intros Hz. rewrite cand_num in Hc by lia. done.
Qed.

Lemma omap_cand_NoDup ks : NoDup ks -> NoDup (omap cand ks).
Proof.
  induction 1 as [|k ks Hk _ IH]; [constructor|].
  change (omap cand (k :: ks)) with (match cand k with Some z => z :: omap cand ks | None => omap cand ks end).
  destruct (cand k) as [z|] eqn:Hc; [|done]. constructor; [|done].
  intros (k' & Hk' & Hc')%list_elem_of_omap. apply cand_key in Hc, Hc'. congruence.
Qed.

Lemma omap_cand_app a b : omap cand (a ++ b) = omap cand a ++ omap cand b.
Proof.
  induction a as [|k a IH]; [done|].
  change (omap cand ((k :: a) ++ b)) with (match cand k with Some z => z :: omap cand (a ++ b) | None => omap cand (a ++ b) end).
  change (omap cand (k :: a)) with (match cand k with Some z => z :: omap cand a | None => omap cand a end).
  rewrite IH. by destruct (cand k).
Qed.

Lemma omap_cand_ints zs : Forall (fun z => 1 <= z <= MAXASIZE) zs ->
  omap cand ((fun z => LInt z) <$> zs) = zs.
Proof.
  induction 1 as [|z zs Hz _ IH]; [done|]. rewrite fmap_cons.
  change (omap cand (LInt z :: ((fun z => LInt z) <$> zs))) with
    (match cand (LInt z) with Some z => z :: omap cand ((fun z => LInt z) <$> zs)
     | None => omap cand ((fun z => LInt z) <$> zs) end).
  by rewrite cand_num, IH.
Qed.

Lemma all_keys_NoDup t : table_inv t -> NoDup (all_keys t).
Proof.
  intros I. unfold all_keys. apply NoDup_app. split_and!.
  - apply NoDup_fmap_2; [by intros ?? [=]|]. apply NoDup_filter, NoDup_seqZ.
  - intros k (z & -> & Hz%akeys_elem)%list_elem_of_fmap [v Hv]%live_keys_live; [|done].
    apply live_valid in Hv as [_ Hv]; [|done]. apply outside_index in Hv. simpl in Hv. lia.
  - by apply live_keys_NoDup.
Qed.

Lemma all_keys_elem t k : table_ok t -> k ∈ all_keys t <-> tval t k ≠ LNil.
Proof.
  intros [I Hex]. unfold all_keys. rewrite elem_of_app, list_elem_of_fmap.
  destruct (array_index t k) as [i|] eqn:Hi.
  - destruct (array_index_Some _ _ _ Hi) as (z & -> & Hz & ->).
    destruct (lookup_lt_is_Some_2 _ _ (array_index_lt _ _ _ I Hi)) as [v Hv].
    rewrite (tval_array t _ _ v I Hi Hv). split.
    + intros [(z' & [= <-] & [Hp _]%list_elem_of_filter)|[w Hw]%live_keys_live]; [|..|done].
      * unfold present in Hp. congruence.
      * apply live_valid in Hw as [_ ?]; [|done]. congruence.
    + intros Hne. left. exists z. split; [done|]. apply list_elem_of_filter.
      split; [unfold present; congruence|]. apply elem_of_seqZ. lia.
  - rewrite live_keys_live by done. split.
    + intros [(z & -> & Hz%akeys_elem)|[v Hv]].
      * apply outside_index in Hi. simpl in Hi. lia.
      * pose proof Hv as (? & _ & _ & _ & ?). apply tval_hash in Hv; [congruence|done..].
    + intros Hne. right. exists (tval t k). by apply tval_hash.
Qed.

Lemma rehash_ok nk t ek : table_ok t -> valid_key ek -> tval t ek = LNil ->
  blen (all_keys t) < 2 ^ 26 -> exists t', rehash_with (newkey_with nk) t ek = TRet t' /\
    table_ok t' /\ (forall k, tval t' k = tval t k) /\
    (array_index t' ek = None -> is_dummy t' = false /\ (used (node t') < length (node t'))%nat).
Proof.
  intros Hok Hv Hnil Hsize. pose proof Hok as [I Hex]. pose proof (ti_asize _ I) as Hm.
  unfold rehash_with. change (Z.to_nat (MAXBITS + 1)) with 27%nat.
  destruct (numusearray_spec t I) as (nums1 & -> & Hc1). cbn [tlift mbind tres_bind].
  set (ak := akeys (array t) 1 (sizearray t)) in *. set (lk := live_keys (reverse (node t))).
  assert (Forall (fun z => 1 <= z <= MAXASIZE) ak) as Hak.
  { apply Forall_forall. intros z Hz%akeys_elem. lia. }
  unfold numusehash. destruct (numusehash_loop_spec (reverse (node t)) nums1 ak 0 0 Hc1) as (nums2 & -> & Hc2).
  cbn [mbind cres_bind tlift tres_bind]. fold lk in Hc2 |- *.
  destruct (countint_spec ek nums2 _ Hc2) as (nums3 & -> & Hc3). cbn [tlift mbind tres_bind].
  assert ((ak ++ omap cand lk) ++ option_list (cand ek) = omap cand (all_keys t ++ [ek])) as Hzs.
  { rewrite omap_cand_app. unfold all_keys. fold ak lk. rewrite omap_cand_app, omap_cand_ints by done.
    f_equal; simpl; by destruct (cand ek). }
  rewrite Hzs in Hc3. set (zs := omap cand (all_keys t ++ [ek])) in *.
  assert (blen ak + (0 + blen (omap cand lk)) + blen (option_list (cand ek)) = blen zs) as ->.
  { rewrite <- Hzs, !blen_app. lia. }
  assert (ek ∉ all_keys t) as Hnin by (rewrite all_keys_elem by done; congruence).
  destruct (computesizes_spec zs) with (nums := nums3) as (na & n & -> & [Hna Hn] & _); [| |done|].
  { apply Forall_forall. intros z (k & _ & Hk)%list_elem_of_omap. by apply cand_range in Hk. }
  { apply omap_cand_NoDup, NoDup_app. split_and!; [by apply all_keys_NoDup| |apply NoDup_singleton].
    by intros k Hk ->%list_elem_of_singleton. }
  cbn [tlift mbind tres_bind].
  assert (0 <= n <= MAXASIZE) as Hnr.
  { destruct Hn as [->|(j & Hj & -> & _)]; [done|]. unfold MAXASIZE, MAXBITS. split; [lia|].
    apply Z.pow_le_mono_r; lia. }
  pose proof (hashn_upto n (all_keys t ++ [ek]) Hnr) as Hcount. fold zs in Hcount. rewrite <- Hna in Hcount.
  rewrite blen_app in Hcount. unfold hashn in Hcount. rewrite filter_app, length_app in Hcount.
  fold (hashn n (all_keys t)) in Hcount.
  assert (blen ak + (0 + blen lk) = blen (all_keys t)) as -> .
  { unfold all_keys. fold ak lk. rewrite blen_app, blen_fmap. lia. }
  change (blen [ek]) with 1 in Hcount.
  pose proof (upto_nonneg n zs). pose proof (blen_filter_le (outside n) (all_keys t)).
  destruct (resize_ok nk t n (blen (all_keys t) + 1 - na) Hok Hnr) as (t' & -> & Hok' & Hsz & Hu & Hcap & Hval);
    [lia..|].
  exists t'. split_and!; try done. intros Ha%outside_index. rewrite Hsz in Ha.
  rewrite filter_cons_True in Hcount by done. simpl in Hcount.
  destruct Hcap as [? ?]; [lia|]. split; [done|]. unfold blen in *. lia.
Qed.

(** * Storing *)

(** [luaH_set] returns the slot of the key: nothing else has changed. *)
Lemma luaH_set_ok t k : table_ok t -> valid_key k -> blen (all_keys t) < 2 ^ 26 ->
  exists s t', luaH_set t k = TRet (s, t') /\ table_ok t' /\ slot_for t' k s /\ s ≠ SNilObject /\
    forall k', tval t' k' = tval t k'.
Proof.
  intros Hok Hv Hsize. pose proof Hok as [I Hex]. unfold luaH_set, luaH_set_with.
  destruct (luaH_get_spec t k I) as (p & -> & Hp). cbn [tlift mbind tres_bind].
  case_bool_decide as Hnil.
  2:{ exists p, t. by split_and!. }
  subst p. assert (tval t k = LNil) as Hk by (by rewrite (tval_slot t k _ I Hp)).
  assert (forall X, match k with LNil => TErr IndexIsNil | LNumber NNaN => TErr IndexIsNaN | _ => X end = X :> tres (tslot * Table)) as ->.
  { intros X. destruct Hv. destruct k as [| | |[]| | | |]; done. }
  change (newkey newkey_fuel t k) with (newkey_with (newkey 1) t k).
  destruct (newkey_cases (newkey 1) t k I Hv Hp) as [(s & t' & -> & Hpl & _)|(lf & I1 & -> & _)].
  { exists s, t'. pose proof (pl_shape _ _ _ _ Hpl) as Sh. split_and!; try apply Hpl; [done|].
    split; [apply Hpl|]. rewrite (pl_array _ _ _ _ Hpl), (sh_size _ _ Sh). done. }
  set (t1 := set_lastfree t lf) in *.
  assert (forall k', tval t1 k' = tval t k') as Hv1 by (apply tval_eq_live; done).
  destruct (rehash_ok (newkey 0) t1 k) as (t2 & Hre & [I2 Hex2] & Hv2 & Hroom); [done..|by rewrite Hv1|done|].
  change (newkey 1) with (newkey_with (newkey 0)). rewrite Hre. cbn [mbind tres_bind].
  destruct (luaH_set_room (newkey 0) t2 k I2 Hv) as (s & t3 & -> & Hpl & _).
  { intros s Hs ->. inversion Hs; subst. by apply Hroom. }
  exists s, t3. pose proof (pl_shape _ _ _ _ Hpl) as Sh. split_and!; try apply Hpl; [done| |].
  - split; [apply Hpl|]. by rewrite (pl_array _ _ _ _ Hpl), (sh_size _ _ Sh).
  - intros k'. rewrite (pl_val _ _ _ _ Hpl), Hv2. apply Hv1.
Qed.

(** [t[k] = v] *)
Lemma table_store_ok t k v : table_ok t -> valid_key k -> blen (all_keys t) < 2 ^ 26 ->
  exists t', table_store t k v = TRet t' /\ table_ok t' /\
    forall k', tval t' k' = if decide (k' = k) then v else tval t k'.
Proof.
  intros Hok Hv Hsize. destruct (luaH_set_ok t k Hok Hv Hsize) as (s & t1 & Hset & [I1 Hex1] & Hs & Hne & Hv1).
  unfold table_store. rewrite Hset. cbn [mbind tres_bind].
  destruct (write_slot_spec t1 k s v I1 Hs Hne) as (t2 & -> & [I2 Sh _ _ Hv2]).
  exists t2. split_and!; [done| |].
  - split; [done|]. unfold blen in *. by rewrite (sh_array _ _ Sh), (sh_size _ _ Sh).
  - intros k'. rewrite Hv2. case_decide; [done|]. apply Hv1.
Qed.

End Resize.
