(* ===== verification/TableWalk.v ===== *)
(** Traversal and length of Lua tables (ltable.c [luaH_next], [luaH_getn]):
    stepping with [luaH_next] from nil visits every entry once, and [luaH_getn]
    ends with a border. *)
From S2P Require Import Prelude LuaApi LuaTable TableChain TableMap TableCount TableResize.
Import Table.

#[export] Instance blen_perm {A} : Proper ((≡ₚ) ==> (=)) (@blen A).
Proof. intros l l' H. unfold blen. by rewrite H. Qed.

Section Walk.
Context {TE : TableEnv} {TEok : TableEnvOk}.

(** * Traversal *)

(** The entries from place [i] on: the array part, then the nodes. *)
Definition entries_from (t : Table) (i : nat) : list (lua_value * lua_value) :=
  let sz := Z.to_nat (sizearray t) in
  slice_entries (drop i (take sz (array t))) (Z.of_nat i) ++ node_entries (drop (i - sz) (node t)).

Definition contents (t : Table) : list (lua_value * lua_value) := entries_from t 0.

Lemma next_in_array_head vs i : next_in_array vs i = head (slice_entries vs i).
Proof. revert i. induction vs as [|v vs IH]; intros i; [done|]. simpl. destruct (isnil v); [apply IH|done]. Qed.

Lemma next_in_nodes_head ns : next_in_nodes ns = head (node_entries ns).
Proof.
  induction ns as [|n ns IH]; [done|]. unfold node_entries. simpl.
  destruct (isnil (i_val n)); [apply IH|done].
Qed.

(** What is at a place. *)
Definition entry_at (t : Table) (i : nat) : option (lua_value * lua_value) :=
  let sz := Z.to_nat (sizearray t) in
  if decide (i < sz)%nat then v ← array t !! i; if isnil v then None else Some (LInt (Z.of_nat i + 1), v)
  else n ← node t !! (i - sz)%nat; if isnil (i_val n) then None else Some (key2tval n, i_val n).

Lemma entries_from_step t i : table_inv t -> (i < Z.to_nat (sizearray t) + length (node t))%nat ->
  entries_from t i = option_list (entry_at t i) ++ entries_from t (S i).
Proof.
  intros I Hi. pose proof (ti_array _ I) as Ha. unfold blen in Ha.
  unfold entries_from, entry_at. set (sz := Z.to_nat (sizearray t)) in *. case_decide as Hd.
  - destruct (lookup_lt_is_Some_2 (array t) i) as [v Hv]; [lia|]. rewrite Hv. simpl mbind.
    assert (take sz (array t) !! i = Some v) as Ht by (by rewrite lookup_take_lt).
    rewrite (drop_S _ v) by done. replace (i - sz)%nat with 0%nat by lia. replace (S i - sz)%nat with 0%nat by lia.
    replace (Z.of_nat (S i)) with (Z.of_nat i + 1) by lia. cbn [slice_entries]. by destruct (isnil v).
  - rewrite !(drop_ge (take sz (array t))) by (rewrite length_take; lia). simpl slice_entries.
    destruct (lookup_lt_is_Some_2 (node t) (i - sz)) as [n Hn]; [lia|]. rewrite Hn. simpl mbind.
    rewrite (drop_S _ n) by done. replace (S i - sz)%nat with (S (i - sz)) by lia.
    unfold node_entries. simpl. by destruct (isnil (i_val n)).
Qed.

Lemma entries_from_end t i : (Z.to_nat (sizearray t) + length (node t) <= i)%nat -> entries_from t i = [].
Proof.
  intros Hi. unfold entries_from. rewrite !drop_ge; [done|lia|rewrite length_take; lia].
Qed.

Lemma arrayindex_outside t k : table_inv t -> array_index t k = None ->
  (0 <? arrayindex k) && (arrayindex k <=? sizearray t) = false.
Proof.
  intros I Hk. apply outside_index in Hk. unfold arrayindex. destruct k as [| | |n| | | |]; try done.
  destruct (luai_numeq (NInt (number2int n)) n) eqn:E; [|done].
  apply luai_numeq_true in E as [E _]. rewrite <- E in Hk. simpl in Hk.
  destruct (Z.ltb_spec 0 (number2int n)), (Z.leb_spec (number2int n) (sizearray t)); simpl; lia || done.
Qed.

Lemma arrayindex_inside t z : table_inv t -> 1 <= z <= sizearray t -> arrayindex (LInt z) = z.
Proof.
  intros I Hz. pose proof (ti_asize _ I) as Hm. pose proof (cand_num z ltac:(lia)) as H. unfold cand in H.
  case_match; by simplify_eq.
Qed.

(** The node of a stored key is the first one in the chain that [findindex]
    accepts, dead keys included. *)
Lemma findindex_node t k i : table_inv t -> k ≠ LNil -> key_of (node t) i = Some (KVal k) ->
  findindex t k = TRet (Z.of_nat i + sizearray t).
Proof.
  intros I Hk Hi. pose proof (ti_chain _ I) as C. unfold findindex, isnil.
  rewrite bool_decide_false by done.
  rewrite arrayindex_outside by (done || by eapply ti_hash).
  destruct (chain_find_spec _ _ C (next_key_is k) (mainposition t k)) as (r & -> & Hr);
    [by apply mainposition_lt|].
  cbn [tlift mbind tres_bind].
  pose proof (ci_reach_val _ _ _ _ C Hk Hi) as Hreach.
  assert (k ≠ LNumber NNaN) as Hnan by (intros ->; by eapply ci_nan).
  assert (forall nd, i_key nd = KVal k -> next_key_is k nd = true) as Hyes.
  { intros nd Hnd. unfold next_key_is. apply orb_true_iff. left. by apply key_is_true. }
  destruct r as [j|].
  2:{ exfalso. destruct (node t !! i) as [nd|] eqn:Hnd; [|unfold key_of in Hi; by rewrite Hnd in Hi].
      destruct (node_views _ _ _ Hnd) as (HK & _). pose proof (Hr i nd Hreach Hnd) as Hno.
      rewrite Hyes in Hno; congruence. }
  destruct Hr as (Hrj & (nd & Hnd & Hp) & Hbefore). destruct (node_views _ _ _ Hnd) as (HK & _).
  unfold next_key_is in Hp. apply orb_true_iff in Hp as [Hp|Hp].
  - apply key_is_true in Hp as [Hp _]. rewrite Hp in HK. by rewrite (ci_uniq _ _ C i j k Hk Hi HK).
  - exfalso. destruct (i_key nd) as [v|v] eqn:Hv; [done|].
    apply andb_true_iff in Hp as [_ ->%bool_decide_eq_true].
    destruct (chain_linear _ _ _ _ Hreach Hrj) as [Hij|Hji].
    + apply rtc_tc in Hij as [->|Hij]; [congruence|].
      destruct (node t !! i) as [ndi|] eqn:Hndi; [|unfold key_of in Hi; by rewrite Hndi in Hi].
      destruct (node_views _ _ _ Hndi) as (HKi & _). pose proof (Hbefore i ndi Hreach Hij Hndi) as Hno.
      rewrite Hyes in Hno; congruence.
    + apply rtc_tc in Hji as [->|Hji]; [congruence|]. by eapply (ci_order _ _ C).
Qed.


(** A key is found at its place, and the step goes on from there. *)
Lemma luaH_next_from t k i : findindex t k = TRet (Z.of_nat i - 1) -> table_inv t ->
  luaH_next t k = TRet (head (entries_from t i)).
Proof.
  intros Hf I. pose proof (ti_array _ I) as Ha. unfold luaH_next. rewrite Hf. cbn [mbind tres_bind].
  replace (Z.of_nat i - 1 + 1) with (Z.of_nat i) by lia. rewrite Nat2Z.id, next_in_array_head.
  unfold entries_from.
  destruct (slice_entries (drop i (take (Z.to_nat (sizearray t)) (array t))) (Z.of_nat i)) as [|e es]; [|done].
  simpl. rewrite next_in_nodes_head.
  replace (Z.to_nat (Z.max (Z.of_nat i) (sizearray t) - sizearray t)) with (i - Z.to_nat (sizearray t))%nat by lia.
  done.
Qed.

Lemma findindex_entry t i k v : table_inv t -> entry_at t i = Some (k, v) ->
  findindex t k = TRet (Z.of_nat i).
Proof.
  intros I. pose proof (ti_array _ I) as Ha. unfold entry_at. case_decide as Hd.
  - destruct (array t !! i) as [w|]; [|done]. simpl. destruct (isnil w); [done|]. intros [= <- <-].
    unfold findindex. simpl isnil. rewrite (arrayindex_inside t) by (done || lia).
    rewrite (proj2 (Z.ltb_lt 0 _)), (proj2 (Z.leb_le _ (sizearray t))) by lia. simpl.
    unfold mret, tres_ret. f_equal. lia.
  - destruct (node t !! (i - Z.to_nat (sizearray t))%nat) as [n|] eqn:Hn; [|done]. simpl.
    unfold isnil. case_bool_decide as Hv; [done|]. intros [= <- <-].
    destruct (node_views _ _ _ Hn) as (HK & HV & _). pose proof (ti_chain _ I) as C. unfold key2tval.
    destruct (i_key n) as [k|k] eqn:E; [|apply (ci_dead _ _ C) in HK; congruence].
    assert (k ≠ LNil) by (intros ->; apply (ci_free _ _ C) in HK as [_ H]; congruence).
    rewrite (findindex_node t k (i - Z.to_nat (sizearray t))) by done. f_equal. lia.
Qed.

(** Stepping with [luaH_next], as [pairs] does. *)
Fixpoint traverse (fuel : nat) (t : Table) (k : lua_value) : tres (list (lua_value * lua_value)) :=
  match fuel with
  | O => TUB Diverges
  | S fuel =>
      e ← luaH_next t k;
      match e with
      | None => mret []
      | Some (k', v) => es ← traverse fuel t k'; mret ((k', v) :: es)
      end
  end.

Lemma traverse_from t fuel i k : table_inv t -> findindex t k = TRet (Z.of_nat i - 1) ->
  (length (entries_from t i) < fuel)%nat -> traverse fuel t k = TRet (entries_from t i).
Proof.
  intros I. revert i k. induction fuel as [|fuel IH]; intros i k Hf Hl; [lia|].
  cbn [traverse]. rewrite (luaH_next_from t k i Hf I). cbn [mbind tres_bind].
  assert (forall m i, (Z.to_nat (sizearray t) + length (node t) - i <= m)%nat ->
    match entries_from t i with
    | [] => True
    | e :: es => exists j, (i <= j)%nat /\ entry_at t j = Some e /\ entries_from t (S j) = es
    end) as Hpos.
  { induction m as [|m IHm]; intros a Hm.
    - by rewrite entries_from_end by lia.
    - destruct (decide (a < Z.to_nat (sizearray t) + length (node t))%nat) as [Hlt|]; [|by rewrite entries_from_end by lia].
      rewrite entries_from_step by done. destruct (entry_at t a) as [e|] eqn:He; simpl; [by exists a|].
      specialize (IHm (S a) ltac:(lia)). destruct (entries_from t (S a)); [done|].
      destruct IHm as (j & ? & ? & ?). exists j. split_and!; done || lia. }
  specialize (Hpos _ i (Nat.le_refl _)). destruct (entries_from t i) as [|[k' v] es] eqn:E; [done|].
  destruct Hpos as (j & Hj & He & Hes). simpl in Hl |- *.
  rewrite (IH (S j) k'), Hes; [done| |rewrite Hes; lia].
  rewrite (findindex_entry t j k' v I He). f_equal. lia.
Qed.

(** The traversal from nil ends and yields every entry once. *)
Lemma traverse_contents t : table_inv t -> traverse (S (length (contents t))) t LNil = TRet (contents t).
Proof. intros I. apply traverse_from; [done..|]. unfold contents. lia. Qed.

(** * The contents *)

Lemma contents_keys t : table_ok t -> (contents t).*1 =
  ((fun z => LInt z) <$> akeys (array t) 1 (sizearray t)) ++ live_keys (node t).
Proof.
  intros [I Hex]. pose proof (ti_array _ I). unfold contents, entries_from.
  rewrite fmap_app, node_entries_keys. f_equal.
  change (drop 0 (take (Z.to_nat (sizearray t)) (array t))) with (take (Z.to_nat (sizearray t)) (array t)).
  apply (slice_entries_keys (array t) 0 (sizearray t)); lia.
Qed.

Lemma live_keys_reverse ns : live_keys (reverse ns) ≡ₚ live_keys ns.
Proof.
  unfold live_keys. induction ns as [|n ns IH]; [done|]. rewrite reverse_cons.
  assert (forall a b : list Node, omap (fun n => if isnil (i_val n) then None else Some (key2tval n)) (a ++ b) =
    omap (fun n => if isnil (i_val n) then None else Some (key2tval n)) a ++
    omap (fun n => if isnil (i_val n) then None else Some (key2tval n)) b) as Happ.
  { induction a as [|x a IHa]; intros b; [done|]. simpl. rewrite IHa. by destruct (isnil (i_val x)). }
  rewrite Happ, IH. simpl. destruct (isnil (i_val n)); [by rewrite app_nil_r|].
  symmetry. apply Permutation_cons_append.
Qed.

Lemma contents_all_keys t : table_ok t -> (contents t).*1 ≡ₚ all_keys t.
Proof. intros Hok. rewrite contents_keys by done. unfold all_keys. by rewrite live_keys_reverse. Qed.

Lemma contents_val t k v : table_ok t -> (k, v) ∈ contents t -> tval t k = v.
Proof.
  intros [I Hex]. pose proof (ti_array _ I) as Ha. unfold contents, entries_from.
  intros [Hin|Hin]%elem_of_app.
  - apply (slice_entries_elem (array t) 0 (sizearray t)) in Hin as (z & -> & Hz & Hv); [|lia..].
    eapply tval_array; [done|by apply array_index_LInt; lia|done].
  - assert (live (node t) k v) as Hlive.
    { apply node_entries_live; [done|]. apply node_entries_elem in Hin as (i & nd & Hi & H).
      apply node_entries_elem. apply list_elem_of_lookup_2 in Hi. simpl in Hi.
      rewrite drop_0, <- elem_of_reverse in Hi. apply list_elem_of_lookup in Hi as [j Hj]. eauto. }
    pose proof Hlive as (? & _ & _ & _ & ?). apply tval_hash; [done| |done|done]. by eapply live_valid.
Qed.

Lemma contents_elem t k v : table_ok t -> (k, v) ∈ contents t <-> tval t k = v /\ v ≠ LNil.
Proof.
  intros Hok. assert (k ∈ (contents t).*1 <-> tval t k ≠ LNil) as Hkeys.
  { rewrite contents_all_keys by done. by apply all_keys_elem. }
  split.
  - intros Hin. pose proof (contents_val t k v Hok Hin) as Hv. split; [done|].
    rewrite <- Hv. apply Hkeys, list_elem_of_fmap. by exists (k, v).
  - intros [<- Hne]. apply Hkeys, list_elem_of_fmap in Hne as ([k' w] & -> & Hin).
    simpl. by rewrite (contents_val _ _ _ Hok Hin).
Qed.

Lemma contents_NoDup t : table_ok t -> NoDup (contents t).*1.
Proof. intros Hok. rewrite contents_all_keys by done. apply all_keys_NoDup, Hok. Qed.

(** * Length *)

Abbreviation absent t z := (isnil (tval t (LInt z))).

Lemma is_absent_ok t z : table_inv t -> 0 <= z <= INT_MAX -> is_absent t z = Ok (absent t z).
Proof.
  intros I Hz. unfold is_absent. assert (INT_MIN <= z <= INT_MAX) as Hz' by (unfold INT_MIN; lia).
  rewrite wrap32_small by done.
  destruct (luaH_getnum_spec t z I) as (s & -> & Hs); [by apply in_int_iff|]. rewrite bind_Ok.
  rewrite (read_slot_ok _ _ _ I Hs), bind_Ok. by rewrite (tval_slot _ _ _ I Hs).
Qed.

(** Between a present index (or 0) and an absent one the search ends at a
    border, with the interval halved in each round. *)
Lemma binary_search_ok (f : Z -> bool) test fuel i j :
  (forall m, i < m < j -> test m = Ok (f m)) -> 0 <= i < j -> j <= INT_MAX ->
  j - i <= 2 ^ (Z.of_nat fuel - 1) -> (0 < i -> f i = false) -> f j = true ->
  exists r, binary_search fuel test i j = Ok r /\ i <= r < j /\ (0 < r -> f r = false) /\ f (r + 1) = true.
Proof.
  unfold INT_MAX. revert i j. induction fuel as [|fuel IH]; intros i j Ht Hij Hj Hf Hi Hjt.
  { change (2 ^ (Z.of_nat 0 - 1)) with 0 in Hf. lia. }
  cbn [binary_search]. rewrite (uwrap32_small (j - i)) by lia. destruct (Z.ltb_spec 1 (j - i)) as [Hgt|Hle].
  2:{ exists i. split_and!; [done|lia|lia|done|]. by replace (i + 1) with j by lia. }
  rewrite (uwrap32_small (i + j)) by lia. set (m := (i + j) / 2).
  assert (i < m < j) as Hm.
  { unfold m. pose proof (Z.div_mod (i + j) 2 ltac:(lia)). pose proof (Z.mod_pos_bound (i + j) 2 ltac:(lia)). lia. }
  assert (2 ^ (Z.of_nat (S fuel) - 1) = 2 * 2 ^ (Z.of_nat fuel - 1)) as Hpow.
  { destruct fuel; [simpl in Hf; lia|]. rewrite pow2_half by lia. do 2 f_equal. lia. }
  assert (m - i <= 2 ^ (Z.of_nat fuel - 1) /\ j - m <= 2 ^ (Z.of_nat fuel - 1)) as [H1 H2].
  { unfold m in *. pose proof (Z.div_mod (i + j) 2 ltac:(lia)). pose proof (Z.mod_pos_bound (i + j) 2 ltac:(lia)). lia. }
  rewrite Ht by done. rewrite bind_Ok. destruct (f m) eqn:Hfm.
  - destruct (IH i m) as (r & -> & Hr & Hr2); try done; try lia; [intros; apply Ht; lia|].
    exists r. split_and!; try done; try lia; apply Hr2.
  - destruct (IH m j) as (r & -> & Hr & Hr2); try done; try lia; [intros; apply Ht; lia|].
    exists r. split_and!; try done; try lia; apply Hr2.
Qed.

Lemma all_keys_length t : table_ok t -> blen (all_keys t) <= sizearray t + blen (node t).
Proof.
  intros [I Hex]. pose proof (ti_array _ I). unfold all_keys. rewrite blen_app, blen_fmap.
  assert (blen (akeys (array t) 1 (sizearray t)) <= sizearray t).
  { unfold akeys. pose proof (blen_filter_le (present (array t)) (seqZ 1 (sizearray t))) as H'.
    unfold blen in H' at 2. rewrite length_seqZ in H'. lia. }
  assert (blen (live_keys (reverse (node t))) <= blen (node t)).
  { rewrite live_keys_reverse. induction (node t) as [|n ns IH]; [done|]. rewrite live_keys_cons.
    destruct (isnil (i_val n)); rewrite ?blen_cons; lia. }
  lia.
Qed.

(** The linear search ends: the keys 1, ..., i - 1 are all entries. *)
Lemma linear_search_ok t fuel i : table_ok t -> 1 <= i -> blen (all_keys t) + 2 <= Z.of_nat fuel + i ->
  (forall z, 1 <= z < i -> absent t z = false) ->
  exists r, linear_search fuel t i = Ok r /\ 0 <= r <= blen (all_keys t) /\
    (0 < r -> absent t r = false) /\ absent t (r + 1) = true.
Proof.
  intros Hok. pose proof Hok as [I Hex]. pose proof (ti_asize _ I) as Hm. pose proof (all_keys_length t Hok) as Hlen.
  pose proof (ti_nodes _ I) as Hn. pose proof (ti_lsize _ I) as Hls.
  assert (2 ^ lsizenode t <= 2 ^ 26) by (apply Z.pow_le_mono_r; unfold MAXBITS in Hls; lia).
  unfold MAXASIZE, MAXBITS in Hm.
  revert i. induction fuel as [|fuel IH]; intros i Hi Hf Hpre.
  all: assert (i - 1 <= blen (all_keys t)) as Hcount by
    (assert ((fun z => LInt z) <$> seqZ 1 (i - 1) ⊆+ all_keys t) as Hsub;
     [apply NoDup_submseteq; [apply NoDup_fmap_2; [by intros ?? [=] | apply NoDup_seqZ] |];
      intros k (z & -> & Hz%elem_of_seqZ)%list_elem_of_fmap; rewrite all_keys_elem by done;
      specialize (Hpre z ltac:(lia)); unfold isnil in Hpre; by apply bool_decide_eq_false in Hpre
     | apply submseteq_length in Hsub; rewrite length_fmap, length_seqZ in Hsub; unfold blen; lia]).
  { lia. }
  cbn [linear_search]. rewrite is_absent_ok by (done || unfold INT_MAX; lia). rewrite bind_Ok.
  destruct (absent t i) eqn:Ha.
  - exists (i - 1). rewrite uwrap32_small by lia. split_and!; [done|lia|lia| |].
    + intros ?. apply Hpre. lia.
    + by replace (i - 1 + 1) with i by lia.
  - rewrite uwrap32_small by lia. apply IH; [lia|lia|]. intros z Hz.
    destruct (Z.eq_dec z i) as [->|]; [done|]. apply Hpre. lia.
Qed.

Lemma doubling_search_ok t fuel i j : table_ok t -> 0 <= i < j -> j <= INT_MAX ->
  INT_MAX < j * 2 ^ Z.of_nat fuel -> (0 < i -> absent t i = false) ->
  exists r, doubling_search fuel t i j = Ok r /\ 0 <= r <= INT_MAX /\
    (0 < r -> absent t r = false) /\ absent t (r + 1) = true.
Proof.
  intros Hok. pose proof Hok as [I Hex]. revert i j. induction fuel as [|fuel IH]; intros i j Hij Hj Hf Hi.
  { change (2 ^ Z.of_nat 0) with 1 in Hf. lia. }
  cbn [doubling_search]. rewrite is_absent_ok by (done || lia). rewrite bind_Ok. destruct (absent t j) eqn:Ha.
  - destruct (binary_search_ok (fun z => absent t z) (is_absent t) 32 i j) as (r & -> & Hr & H1 & H2); try done.
    + intros m Hm. apply is_absent_ok; [done|lia].
    + unfold INT_MAX in Hj. change (2 ^ (Z.of_nat 32 - 1)) with (2 ^ 31). lia.
    + exists r. split_and!; try done; lia.
  - unfold INT_MAX in *. rewrite (uwrap32_small (j * 2)) by lia. cbv zeta.
    destruct (Z.ltb_spec 2147483647 (j * 2)) as [Hov|Hno].
    + pose proof (all_keys_length t Hok) as Hlen. pose proof (ti_asize _ I) as Hm. unfold MAXASIZE, MAXBITS in Hm.
      pose proof (ti_nodes _ I) as Hn. pose proof (ti_lsize _ I) as Hls.
      assert (2 ^ lsizenode t <= 2 ^ 26) by (apply Z.pow_le_mono_r; unfold MAXBITS in Hls; lia).
      destruct (linear_search_ok t (linear_fuel t) 1) as (r & -> & Hr & H1 & H2); try done; [|lia|].
      * unfold linear_fuel. unfold blen in *. lia.
      * exists r. split_and!; try done; lia.
    + apply IH; try lia; [|done]. rewrite <- Z.mul_assoc, <- Z.pow_succ_r by lia.
      replace (Z.succ (Z.of_nat fuel)) with (Z.of_nat (S fuel)) by lia. done.
Qed.

(** [luaH_getn] returns a border of the table. *)
Lemma luaH_getn_ok t : table_ok t -> exists n, luaH_getn t = Ok n /\ 0 <= n <= INT_MAX /\
  (0 < n -> tval t (LInt n) ≠ LNil) /\ tval t (LInt (n + 1)) = LNil.
Proof.
  intros Hok. pose proof Hok as [I Hex]. pose proof (ti_asize _ I) as Hm. pose proof (ti_array _ I) as Ha.
  unfold MAXASIZE, MAXBITS in Hm.
  cut (exists n, luaH_getn t = Ok n /\ 0 <= n <= INT_MAX /\ (0 < n -> absent t n = false) /\ absent t (n + 1) = true).
  { intros (n & H1 & H2 & H3 & H4). exists n. unfold isnil in *. rewrite bool_decide_eq_true in H4.
    split_and!; try done; try lia. intros H0. by apply bool_decide_eq_false in H3. }
  assert (forall m, 1 <= m <= sizearray t -> exists v, array t !! Z.to_nat (m - 1) = Some v /\
    isnil v = absent t m) as Harr.
  { intros m Hmr. destruct (lookup_lt_is_Some_2 (array t) (Z.to_nat (m - 1))) as [v Hv]; [unfold blen in Hex; lia|].
    exists v. split; [done|]. by rewrite (tval_array t _ _ v I (array_index_LInt t m Hmr) Hv). }
  assert (exists b, (if 0 <? sizearray t then
      v ← of_option OutOfBounds (array t !! Z.to_nat (sizearray t - 1)); Ok (isnil v) else Ok false) = Ok b /\
    (b = true -> 0 < sizearray t /\ absent t (sizearray t) = true) /\
    (b = false -> 0 < sizearray t -> absent t (sizearray t) = false)) as (b & Hb & Hb1 & Hb2).
  { destruct (Z.ltb_spec 0 (sizearray t)).
    - destruct (Harr (sizearray t)) as (v & -> & Hv); [lia|]. exists (isnil v). split; [done|]. by rewrite Hv.
    - exists false. split_and!; [done|done|lia]. }
  unfold luaH_getn. rewrite Hb, bind_Ok. destruct b.
  - destruct (Hb1 eq_refl) as [Hpos Habs].
    destruct (binary_search_ok (fun z => absent t z)
      (fun m => v ← of_option OutOfBounds (array t !! Z.to_nat (m - 1)); Ok (isnil v)) 32 0 (sizearray t))
      as (r & -> & Hr & H1 & H2); try done; try (unfold INT_MAX; lia).
    + intros m Hmr. destruct (Harr m) as (v & -> & Hv); [lia|]. simpl. by rewrite <- Hv.
    + exists r. split_and!; try done; unfold INT_MAX; lia.
  - destruct (is_dummy t) eqn:Hd.
    + exists (sizearray t). split_and!; [done|lia|unfold INT_MAX; lia|by apply Hb2|].
      rewrite (fresh_val t 1); [done|done|by rewrite (ti_dummy _ I Hd)|]. apply outside_index. simpl. lia.
    + unfold unbound_search. rewrite uwrap32_small by lia.
      apply doubling_search_ok; try done; try (unfold INT_MAX; lia).
      by apply Hb2.
Qed.

End Walk.
