(* ===== verification/TableProps.v ===== *)
(** What the tables of ltable.c promise: they implement the maps that [LuaApi]
    takes tables to be, through growth and collection, and the length operator
    on them has the border property that [LuaEnvOk] asks for. *)
From S2P Require Import Prelude LuaApi LuaRefs LuaTable TableChain TableMap TableCount TableResize TableWalk.
Import Table.

(** * Runs of operations *)

(** Stores through the three setters; the growth of a table constructor (lvm.c,
    [OP_SETLIST]); the collector marking the keys of empty entries. *)
Inductive table_op : Type :=
| Store (k v : lua_value)
| StoreNum (z : Z) (v : lua_value)
| StoreStr (s : list byte) (v : lua_value)
| Grow (last : Z)
| Collect.

Section Runs.
Context {TE : TableEnv} {TEok : TableEnvOk}.

Definition run_op (t : Table) (op : table_op) : tres Table :=
  match op with
  | Store k v => table_store t k v
  | StoreNum z v => '(s, t) ← luaH_setnum t z; tlift (write_slot t s v)
  | StoreStr str v => '(s, t) ← luaH_setstr t str; tlift (write_slot t s v)
  | Grow last => if sizearray t <? last then luaH_resizearray t last else mret t
  | Collect => mret (clear_dead_keys t)
  end.

Fixpoint run_ops (ops : list table_op) (t : Table) : tres Table :=
  match ops with
  | [] => mret t
  | op :: ops => t ← run_op t op; run_ops ops t
  end.

(** The same on the contents. *)
Definition abs_op (l : ltable) (op : table_op) : ltable :=
  match op with
  | Store k v => LuaApi.luaH_set l k v
  | StoreNum z v => LuaApi.luaH_set l (LInt z) v
  | StoreStr s v => LuaApi.luaH_set l (LString s) v
  | Grow _ | Collect => l
  end.

Definition op_ok (op : table_op) : Prop :=
  match op with
  | Store k _ => valid_key k
  | StoreNum z _ => in_int z = true
  | StoreStr _ _ => True
  | Grow last => last <= MAXASIZE
  | Collect => True
  end.

(** * Each operation *)

Lemma luaH_new_ok narray nhash : 0 <= narray <= MAXASIZE -> 0 <= nhash <= 2 ^ 26 ->
  exists t, luaH_new narray nhash = TRet t /\ table_ok t /\ forall k, tval t k = LNil.
Proof.
  intros Ha Hh. unfold luaH_new. destruct (setnodevector_spec nhash Hh) as (ls & d & -> & Hls & Hd & _).
  eexists. split; [done|]. simpl. rewrite resize_nil. set (a := replicate _ _).
  assert (blen a = narray) as Hl by (unfold blen, a; rewrite length_replicate; lia).
  pose proof (fresh_inv narray a ls d ltac:(lia) ltac:(lia) Hls Hd) as I. set (t := mkTable _ _ _ _ _ _) in *.
  split; [by split|]. intros k. destruct (array_index t k) as [i|] eqn:Hi; [|by eapply fresh_val].
  eapply tval_array; [done..|]. pose proof (array_index_lt _ _ _ I Hi) as Hlt. simpl in Hlt |- *.
  unfold a in *. rewrite length_replicate in Hlt. by apply lookup_replicate_2.
Qed.

Lemma luaH_setstr_set t s : luaH_setstr t s = luaH_set t (LString s).
Proof. done. Qed.

Lemma run_store t op k v : op_ok op ->
  (op = Store k v \/ (exists z, k = LInt z /\ op = StoreNum z v) \/
   (exists s, k = LString s /\ op = StoreStr s v)) ->
  run_op t op = table_store t k v /\ valid_key k /\ forall l, abs_op l op = LuaApi.luaH_set l k v.
Proof.
  intros Hok [->|[(z & -> & ->)|(s & -> & ->)]]; [done| |].
  - split_and!; [|done|done]. simpl. unfold luaH_setnum, table_store, luaH_set.
    by rewrite luaH_setnum_set.
  - by split_and!.
Qed.

Lemma resizearray_ok t n : table_ok t -> sizearray t < n <= MAXASIZE ->
  exists t', luaH_resizearray t n = TRet t' /\ table_ok t' /\ forall k, tval t' k = tval t k.
Proof.
  intros Hok Hn. pose proof Hok as [I Hex]. pose proof (ti_array _ I) as Ha.
  pose proof (ti_nodes _ I) as Hnodes. pose proof (ti_lsize _ I) as Hls.
  assert (sizenode t = blen (node t)) as Hsz by (unfold sizenode; rewrite Hnodes; by apply hash_sizes).
  assert (2 ^ lsizenode t <= 2 ^ 26) by (apply Z.pow_le_mono_r; unfold MAXBITS in Hls; lia).
  assert (Z.of_nat (hashn n (all_keys t)) <= if is_dummy t then 0 else sizenode t) as Hroom.
  { unfold all_keys, hashn. rewrite filter_app, length_app.
    fold (hashn n ((fun z => LInt z) <$> akeys (array t) 1 (sizearray t))). rewrite hashn_inside by lia.
    pose proof (blen_filter_le (outside n) (live_keys (reverse (node t)))) as H1.
    assert (blen (live_keys (reverse (node t))) <= if is_dummy t then 0 else sizenode t); [|unfold blen in *; lia].
    rewrite live_keys_reverse. destruct (is_dummy t) eqn:Hd; [by rewrite (ti_dummy _ I Hd)|].
    rewrite Hsz. clear. induction (node t) as [|x ns IH]; [done|].
    rewrite live_keys_cons. destruct (isnil (i_val x)); rewrite ?blen_cons; lia. }
  destruct (resize_ok (newkey 1) t n (if is_dummy t then 0 else sizenode t)) as (t' & Ht' & Hok' & _ & _ & _ & Hv);
    [done|lia| |done|].
  { pose proof (blen_nonneg (node t)). destruct (is_dummy t); lia. }
  by exists t'.
Qed.

(** Marking the keys of empty entries dead changes no value and no chain. *)
Definition marked (ns ns' : list Node) : Prop := forall i,
  next_of ns' i = next_of ns i /\ val_of ns' i = val_of ns i /\
  (key_of ns' i = key_of ns i \/
   exists k, key_of ns i = Some (KVal k) /\ key_of ns' i = Some (KDead k) /\ val_of ns i = Some LNil /\ k ≠ LNil).

Lemma clear_marked t : marked (node t) (node (clear_dead_keys t)).
Proof.
  intros i. unfold next_of, val_of, key_of, clear_dead_keys. simpl. rewrite list_lookup_fmap.
  destruct (node t !! i) as [n|]; simpl; [|by split_and!; try left]. unfold isnil.
  case_bool_decide as Hv; [|by split_and!; try left]. unfold removeentry.
  destruct (i_key n) as [k|k] eqn:Hk; [|by split_and!; try (left; rewrite Hk)].
  destruct (LUA_TSTRING <=? ttype k) eqn:Hc; [|by split_and!; try (left; rewrite Hk)].
  split_and!; try done. right. exists k. rewrite Hv. split_and!; try done. by intros ->.
Qed.

Section Marked.
Context (ns ns' : list Node) (M : marked ns ns').

Lemma marked_step i j : step ns' i j <-> step ns i j.
Proof. unfold step. by rewrite (proj1 (M i)). Qed.

Lemma marked_val i k : key_of ns' i = Some (KVal k) -> key_of ns i = Some (KVal k).
Proof. intros Hi. destruct (M i) as (_ & _ & [<-|(k' & _ & H & _)]); congruence. Qed.

Lemma marked_key i k : key_of ns' i = Some k ->
  exists k', key_of ns i = Some k' /\ kv k' = kv k /\ (k = free_key <-> k' = free_key).
Proof.
  intros Hi. destruct (M i) as (_ & _ & [<-|(k' & H1 & H2 & H3 & H4)]); [by exists k|].
  exists (KVal k'). rewrite H2 in Hi. simplify_eq. split_and!; [done..|]. naive_solver.
Qed.

Lemma marked_key' i k : key_of ns i = Some k ->
  exists k', key_of ns' i = Some k' /\ kv k' = kv k /\ (k = free_key <-> k' = free_key).
Proof.
  intros Hi. destruct (M i) as (_ & _ & [->|(k' & H1 & H2 & H3 & H4)]); [by exists k|].
  exists (KDead k'). rewrite H1 in Hi. simplify_eq. split_and!; [done..|]. naive_solver.
Qed.

Lemma chain_marked mpos : chain_inv mpos ns -> chain_inv mpos ns'.
Proof.
  intros C. split.
  - intros i j Hij%marked_step. destruct (ci_next _ _ C _ _ Hij) as (k & Hk & Hf).
    destruct (marked_key' _ _ Hk) as (k' & Hk' & _ & Hiff). exists k'. split; [done|]. tauto.
  - intros i j k ?%marked_step ?%marked_step. by eapply ci_inj.
  - destruct (ci_acyclic _ _ C) as [r Hr]. exists r. intros i j ?%marked_step. auto.
  - intros i Hi. rewrite (proj1 (M i)), (proj1 (proj2 (M i))).
    destruct (marked_key _ _ Hi) as (k' & Hk' & _ & [H _]). rewrite H in Hk' by done. by eapply ci_free.
  - intros i k Hi. destruct (M i) as (_ & -> & [HK|(k' & H1 & H2 & H3 & H4)]); [|done].
    rewrite HK in Hi. by eapply ci_dead.
  - intros i Hi%marked_val. by eapply ci_nan.
  - intros i j k Hk Hi%marked_val Hj%marked_val. by eapply ci_uniq.
  - intros i k Hi Hk. destruct (marked_key _ _ Hi) as (k' & Hk' & <- & Hiff).
    eapply (rtc_congruence id), (ci_reach _ _ C _ _ Hk'); [|tauto]. intros; by apply marked_step.
  - intros i k Hi Hk. destruct (marked_key _ _ Hi) as (k' & Hk' & <- & Hiff).
    destruct (ci_main _ _ C _ _ Hk') as (m & Hm & Hmf & Hmp); [tauto|].
    destruct (marked_key' _ _ Hm) as (m' & Hm' & Hkv & Hiff'). exists m'. split_and!; [done|tauto|].
    by rewrite Hkv.
  - intros i j k Hi Hj%marked_val Htc. apply (tc_congruence id (step ns)) in Htc; [|intros; by apply marked_step].
    destruct (M i) as (_ & _ & [HK|(k' & H1 & H2 & _ & H4)]).
    + rewrite HK in Hi. by eapply ci_order.
    + rewrite H2 in Hi. simplify_eq. rewrite (ci_uniq _ _ C i j k H4 H1 Hj) in Htc. by eapply acyclic_tc.
Qed.

Lemma marked_live k v : live ns' k v <-> live ns k v.
Proof.
  split; intros (i & H1 & H2 & H3 & H4); exists i.
  - rewrite (proj1 (proj2 (M i))) in H2. apply marked_val in H1. done.
  - rewrite (proj1 (proj2 (M i))). destruct (M i) as (_ & _ & [->|(k' & _ & _ & H5 & _)]); [done|congruence].
Qed.

End Marked.

Lemma clear_dead_keys_ok t : table_ok t ->
  table_ok (clear_dead_keys t) /\ forall k, tval (clear_dead_keys t) k = tval t k.
Proof.
  intros [I Hex]. pose proof (clear_marked t) as M. pose proof I as [].
  assert (length (node (clear_dead_keys t)) = length (node t)) as Hl by (simpl; by rewrite length_fmap).
  assert (table_inv (clear_dead_keys t)) as I'.
  { split; try done; unfold blen; rewrite ?Hl; try done.
    - intros Hd. change (node (clear_dead_keys t)) with
        ((fun n => if isnil (i_val n) then removeentry n else n) <$> node t).
      by rewrite (ti_dummy Hd).
    - by apply (chain_marked (node t)).
    - intros i Hd Hi Hk. destruct (marked_key _ _ M _ _ Hk) as (k' & Hk' & _ & [H _]).
      rewrite H in Hk' by done. by eapply ti_above.
    - intros i k Hi%(marked_val _ _ M). by eapply ti_hash. }
  split; [by split|]. apply tval_eq_live; try done. apply (marked_live _ _ M).
Qed.

(** * Representation *)

(** A table and the contents it stands for. *)
Definition represents (t : Table) (l : ltable) : Prop :=
  table_ok t /\ forall k, tval t k = LuaApi.luaH_get l k.

(** Distinct keys that can be stored, no nil. *)
Definition ltable_ok (l : ltable) : Prop :=
  NoDup l.*1 /\ Forall (fun e => valid_key e.1 /\ e.2 ≠ LNil) l.

Lemma valid_good k : valid_key k <-> good_key k = true.
Proof. unfold valid_key, good_key. destruct k as [| | |[]| | | |]; naive_solver. Qed.

Lemma luaH_set_ltable_ok l k v : valid_key k -> ltable_ok l -> ltable_ok (LuaApi.luaH_set l k v).
Proof.
  intros Hk [Hn Hf]. split; [apply luaH_set_nodup; [by apply valid_good|done]|].
  clear Hn. induction Hf as [|[k' v'] l [Hk' Hv'] Hf IH]; simpl.
  - case_decide; constructor; try done.
  - destruct (raweq k k'); [case_decide; [done|]; by constructor|]. by constructor.
Qed.

Lemma luaH_set_length l k v : blen (LuaApi.luaH_set l k v) <= blen l + 1.
Proof.
  induction l as [|[k' v'] l IH]; simpl; [case_decide; done|].
  destruct (raweq k k'); [case_decide|]; rewrite !blen_cons in *; lia.
Qed.

Lemma represents_size t l : represents t l -> blen (all_keys t) <= blen l.
Proof.
  intros [Hok Hv].
  assert (all_keys t ⊆+ l.*1) as Hs.
  { apply NoDup_submseteq; [apply all_keys_NoDup, Hok|]. intros k Hk. apply all_keys_elem in Hk; [|done].
    apply luaH_get_elem. by rewrite <- Hv. }
  apply submseteq_length in Hs. rewrite length_fmap in Hs. unfold blen. lia.
Qed.

Lemma run_op_ok t l op : represents t l -> ltable_ok l -> op_ok op -> blen l < 2 ^ 26 ->
  exists t', run_op t op = TRet t' /\ represents t' (abs_op l op) /\ ltable_ok (abs_op l op) /\
    blen (abs_op l op) <= blen l + 1.
Proof.
  intros R Hl Hop Hsize. pose proof R as [Hok Hv]. pose proof (represents_size _ _ R) as Hks.
  assert (forall k v, run_op t op = table_store t k v -> valid_key k ->
    (forall l, abs_op l op = LuaApi.luaH_set l k v) -> exists t', run_op t op = TRet t' /\
    represents t' (abs_op l op) /\ ltable_ok (abs_op l op) /\ blen (abs_op l op) <= blen l + 1) as Hstore.
  { intros k v -> Hk ->. destruct (table_store_ok t k v Hok Hk) as (t' & -> & Hok' & Hv'); [lia|].
    exists t'. split_and!; [done| |by apply luaH_set_ltable_ok|apply luaH_set_length].
    split; [done|]. intros k'. rewrite Hv'. case_decide as Hd.
    - subst. symmetry. apply luaH_get_set_same; [by apply valid_good|apply Hl].
    - rewrite luaH_get_set_other by done. apply Hv. }
  destruct op as [k v|z v|s v|last|].
  - destruct (run_store t (Store k v) k v Hop) as (? & ? & ?); eauto.
  - destruct (run_store t (StoreNum z v) (LInt z) v Hop) as (? & ? & ?); eauto 10.
  - destruct (run_store t (StoreStr s v) (LString s) v Hop) as (? & ? & ?); eauto 10.
  - simpl in *. destruct (Z.ltb_spec (sizearray t) last) as [Hlt|].
    + destruct (resizearray_ok t last Hok) as (t' & -> & Hok' & Hv'); [lia|].
      exists t'. split_and!; try done; [|lia]. split; [done|]. intros k. by rewrite Hv'.
    + exists t. split_and!; try done. lia.
  - destruct (clear_dead_keys_ok t Hok) as [Hok' Hv']. eexists. split_and!; try done; [|simpl; lia].
    split; [done|]. intros k. by rewrite Hv'.
Qed.

Lemma run_ops_ok ops t l : represents t l -> ltable_ok l -> Forall op_ok ops -> blen l + blen ops < 2 ^ 26 ->
  exists t', run_ops ops t = TRet t' /\ represents t' (foldl abs_op l ops) /\ ltable_ok (foldl abs_op l ops).
Proof.
  revert t l. induction ops as [|op ops IH]; intros t l R Hl Hops Hsize; [by exists t|].
  apply Forall_cons in Hops as [Hop Hops]. rewrite blen_cons in Hsize. pose proof (blen_nonneg ops).
  destruct (run_op_ok t l op R Hl Hop) as (t' & Ht' & R' & Hl' & Hb); [lia|]. simpl. rewrite Ht'. simpl.
  apply IH; try done. lia.
Qed.

(** The traversal yields the contents, in some order. *)
Lemma represents_contents t l : represents t l -> ltable_ok l -> contents t ≡ₚ l.
Proof.
  intros [Hok Hv] [Hn Hf]. apply NoDup_Permutation.
  - eapply NoDup_fmap_1, contents_NoDup, Hok.
  - by eapply NoDup_fmap_1.
  - intros [k v]. rewrite contents_elem by done. rewrite Hv. split.
    + intros [Hget Hne]. assert (k ∈ l.*1) as Hk by (apply luaH_get_elem; congruence).
      apply list_elem_of_fmap in Hk as ([k' w] & -> & Hin).
      rewrite Forall_forall in Hf. destruct (Hf _ Hin) as [Hkey _]. simpl in *.
      rewrite (luaH_get_in l k' w Hn) in Hget; [by subst|by apply valid_good|done].
    + intros Hin. rewrite Forall_forall in Hf. destruct (Hf _ Hin) as [Hkey Hne]. simpl in *.
      split; [|done]. apply luaH_get_in; [done|by apply valid_good|done].
Qed.

(** * Properties *)

(** C8: a Lua table implements the map its contents are: after any run of
    stores through [luaH_set], [luaH_setnum] and [luaH_setstr], growths of the
    array part and marking of dead keys by the collector, every operation has
    returned, each key loads the value last stored under it, stepping through
    the table with [luaH_next] yields each entry once, and [luaH_getn] is a
    border. *)
Theorem table_refines_map narray nhash ops :
  0 <= narray <= MAXASIZE -> 0 <= nhash <= 2 ^ 26 -> Forall op_ok ops -> blen ops < 2 ^ 26 ->
  let l := foldl abs_op [] ops in
  exists t, (t0 ← luaH_new narray nhash; run_ops ops t0) = TRet t /\
    (forall k, table_load t k = Ok (LuaApi.luaH_get l k)) /\
    (exists es, traverse (S (length l)) t LNil = TRet es /\ es ≡ₚ l) /\
    (exists n, luaH_getn t = Ok n /\ 0 <= n /\
       (0 < n -> LuaApi.luaH_getnum l n ≠ LNil) /\ LuaApi.luaH_getnum l (n + 1) = LNil).
Proof.
  intros Ha Hh Hops Hlen l. destruct (luaH_new_ok narray nhash Ha Hh) as (t0 & -> & Hok0 & Hv0).
  destruct (run_ops_ok ops t0 []) as (t & Ht & R & Hl); [by split|split; constructor|done|done|].
  exists t. pose proof R as [Hok Hv]. pose proof (represents_contents t l R Hl) as Hperm. split_and!.
  - done.
  - intros k. rewrite table_load_ok, Hv by apply Hok. done.
  - exists (contents t). split; [|done]. rewrite <- (Permutation_length Hperm). apply traverse_contents, Hok.
  - destruct (luaH_getn_ok t Hok) as (n & Hn & Hr & Hp & Hnx). exists n. unfold LuaApi.luaH_getnum.
    rewrite <- !Hv. split_and!; done || lia.
Qed.

(** The array part a rehash chooses: [computesizes] returns the largest
    power of two of which more than half is used by integer keys (0 if there is
    none), and the number of keys that go there. *)
Theorem array_part_largest zs nums : Forall (fun z => 1 <= z <= MAXASIZE) zs -> NoDup zs -> counts nums zs ->
  exists na n, computesizes nums (blen zs) = Ok (na, n) /\ na = upto n zs /\
    (n = 0 \/ exists j, 0 <= j <= 26 /\ n = 2 ^ j /\ n / 2 < na) /\
    forall j, 0 <= j <= 26 -> 2 ^ j / 2 < upto (2 ^ j) zs -> 2 ^ j <= n.
Proof.
  intros Hr Hn Hc. destruct (computesizes_spec zs Hr Hn nums Hc) as (na & n & H1 & [H2 H3] & H4).
  by exists na, n.
Qed.

(** Keys that no table takes leave it as it is; a hash part of more than
    [2^MAXBITS] nodes is refused. *)
Lemma table_errors t narray nhash : 2 ^ 26 < nhash <= 2 ^ 31 ->
  luaH_set t LNil = TErr IndexIsNil /\
  (table_ok t -> luaH_set t (LNumber NNaN) = TErr IndexIsNaN) /\
  luaH_new narray nhash = TErr TableOverflow.
Proof.
  intros Hh. split_and!; [done| |].
  - intros [I _]. unfold luaH_set, luaH_set_with.
    destruct (luaH_get_spec t (LNumber NNaN) I) as (s & -> & Hs).
    inversion Hs as [|i Ha Hk Hi|]; subst; [done| |done].
    by destruct (ci_nan _ _ (ti_chain _ I) i).
  - unfold luaH_new, setnodevector. destruct (Z.eqb_spec nhash 0); [lia|].
    rewrite ceillog2_spec by lia. simpl. unfold MAXBITS.
    assert (26 < Z.log2_up nhash) as Hl by (apply Z.log2_up_lt_pow2; lia).
    by rewrite (proj2 (Z.ltb_lt 26 _) Hl).
Qed.

End Runs.

(** * Lengths of tables in the C API *)

Section Layout.
Context {TE : TableEnv} {TEok : TableEnvOk}.
Context (base : LuaEnv) (lay : positive -> ltable -> option Table).

(** [LuaApi] with the lengths of the tables that hold the contents; contents
    that no table can hold do not matter. *)
Definition layout_env : LuaEnv := {|
  luaO_str2d := @luaO_str2d base;
  number2str := @number2str base;
  LuaApi.luaH_getn l c :=
    match lay l c with
    | Some t => match luaH_getn t with Ok n => n | UB _ => 0 end
    | None => first_border (S (length c)) c 0
    end
|}.

(** C19: the border property that the protocol layer's theorems assume of
    [luaH_getn] ([LuaEnvOk]) holds when lengths are computed by [luaH_getn] of
    ltable.c on any tables that represent the contents. *)
Theorem table_lengths_are_borders :
  (forall l c t, lay l c = Some t -> represents t c) -> @LuaEnvOk layout_env.
Proof.
  intros Hlay.
  assert (forall l c, exists n, @LuaApi.luaH_getn layout_env l c = n /\ 0 <= n /\
    (0 < n -> LuaApi.luaH_getnum c n ≠ LNil) /\ LuaApi.luaH_getnum c (n + 1) = LNil) as H.
  { intros l c. simpl. destruct (lay l c) as [t|] eqn:E.
    - destruct (Hlay _ _ _ E) as [Hok Hv]. destruct (luaH_getn_ok t Hok) as (n & -> & Hn & H1 & H2).
      exists n. unfold LuaApi.luaH_getnum. rewrite <- !Hv. split_and!; done || lia.
    - exists (first_border (S (length c)) c 0).
      destruct (first_border_spec (S (length c)) c 0) as (H1 & H2 & H3). pose proof (first_border_stops c).
      split_and!; [done|lia| |]; intros; [apply H2|apply H3]; lia. }
  split; intros l c; by destruct (H l c) as (n & -> & ? & ? & ?).
Qed.

End Layout.

(** Tables built by storing the contents one by one. *)
Section Build.
Context {TE : TableEnv} {TEok : TableEnvOk}.

#[export] Instance valid_key_dec k : Decision (valid_key k).
Proof. unfold valid_key. apply _. Defined.
#[export] Instance ltable_ok_dec l : Decision (ltable_ok l).
Proof. unfold ltable_ok. apply _. Defined.

Definition build (c : ltable) : option Table :=
  if decide (ltable_ok c /\ blen c < 2 ^ 26) then
    match (t ← luaH_new 0 0; run_ops ((fun e => Store e.1 e.2) <$> c) t) with TRet t => Some t | _ => None end
  else None.

Lemma build_represents c t : build c = Some t -> represents t c.
Proof.
  unfold build. case_decide as Hd; [|done]. destruct Hd as [[Hn Hf] Hlen].
  destruct (luaH_new_ok 0 0) as (t0 & -> & Hok0 & Hv0); [done|done|]. simpl.
  assert (forall c l, NoDup (l ++ c).*1 -> Forall (fun e => valid_key e.1 /\ e.2 ≠ LNil) c ->
    foldl abs_op l ((fun e => Store e.1 e.2) <$> c) = l ++ c) as Hfold.
  { clear. induction c as [|[k v] c IH]; intros l Hn Hf; simpl; [by rewrite app_nil_r|].
    apply Forall_cons in Hf as [[_ Hv] Hf]. simpl in Hv.
    rewrite fmap_app, fmap_cons in Hn. simpl in Hn. apply NoDup_app in Hn as Hn'.
    rewrite luaH_set_notin; [|intros Hk; destruct Hn' as (_ & Hd & _); apply (Hd k Hk); left|done].
    rewrite IH; [by rewrite <- app_assoc|rewrite <- app_assoc; by rewrite fmap_app|done]. }
  destruct (run_ops_ok ((fun e => Store e.1 e.2) <$> c) t0 []) as (t' & -> & R & _);
    [by split|split; constructor| |by rewrite blen_fmap|].
  { apply Forall_fmap. eapply Forall_impl; [exact Hf|]. intros e [? _]. done. }
  rewrite Hfold in R by done. intros [= <-]. done.
Qed.

End Build.

(** * Examples *)

Module TableDemo.

#[export] Instance demo_tenv : TableEnv := {|
  number2int n := match n with NInt z => if in_int z then z else INT_MIN | _ => 0 end;
  number_words n := match n with NInt z => z * 2654435761 | _ => 5 end;
  gcvalue v := match v with LTable l => Zpos l * 16 | LFunction id => id * 8 | _ => 0 end
|}.

Lemma demo_tenv_ok : TableEnvOk.
Proof.
  split; [|intros z H; simpl; by rewrite H].
  intros [z| | |]; simpl; try done. by destruct (in_int z) eqn:E.
Qed.

Definition demo_ops : list table_op :=
  ((fun i : nat => StoreNum (Z.of_nat i) (LBool true)) <$> seq 1 9) ++
  [StoreStr [Byte.x61] (LBool true); Store (LTable 3) (LBool false); Store (LInt 100) (LInt 7);
   StoreStr [Byte.x61] LNil; Collect; Store (LBool true) (LInt 1); StoreStr [Byte.x61] (LInt 2);
   StoreNum 9 LNil; Grow 20; Store (LNumber (NFrac 0 1)) (LString [])].

(** The last store has rehashed the table of the example: its array part has
    shrunk to the eight keys in use. *)
Example demo_run : exists t, (t0 ← luaH_new 0 0; run_ops demo_ops t0) = TRet t /\ sizearray t = 8 /\
  length (node t) = 8%nat /\ luaH_getn t = Ok 8 /\
  table_load t (LString [Byte.x61]) = Ok (LInt 2) /\ table_load t (LInt 9) = Ok LNil.
Proof. eexists. split; [vm_compute; reflexivity|]. by vm_compute. Qed.

Lemma demo_ops_ok : Forall op_ok demo_ops.
Proof. repeat constructor; done. Qed.

Lemma table_refines_map_witness : Forall op_ok demo_ops /\
  exists t, (t0 ← luaH_new 0 4; run_ops demo_ops t0) = TRet t /\
    forall k, table_load t k = Ok (LuaApi.luaH_get (foldl abs_op [] demo_ops) k).
Proof.
  split; [exact demo_ops_ok|].
  destruct (@table_refines_map demo_tenv demo_tenv_ok 0 4 demo_ops) as (t & H1 & H2 & _).
  - done.
  - done.
  - exact demo_ops_ok.
  - done.
  - exists t. split; [exact H1|exact H2].
Defined.

Lemma array_part_largest_witness :
  exists na n, computesizes ([1; 1; 2; 1] ++ replicate 23 0) (blen [1; 2; 3; 4; 7]) = Ok (na, n) /\ na = 5 /\ n = 8.
Proof.
  destruct (array_part_largest [1; 2; 3; 4; 7] ([1; 1; 2; 1] ++ replicate 23 0)) as (na & n & H1 & _).
  - repeat constructor; done.
  - apply (bool_decide_unpack _). vm_compute. exact I.
  - split; [done|]. intros lg Hlg. do 27 (destruct lg as [|lg]; [done|]). exfalso. lia.
  - exists na, n. assert (computesizes ([1; 1; 2; 1] ++ replicate 23 0) (blen [1; 2; 3; 4; 7]) = Ok (5, 8)) as H2
      by (vm_compute; reflexivity).
    rewrite H1 in H2. injection H2 as -> ->. split; [exact H1|]. split; reflexivity.
Defined.

Lemma table_lengths_are_borders_witness :
  (exists t, build [(LInt 1, LBool true); (LInt 2, LBool true); (LInt 4, LBool true)] = Some t /\ luaH_getn t = Ok 4) /\
  @LuaEnvOk (layout_env plain_env (fun _ c => build c)).
Proof.
  split; [eexists; split; [vm_compute; reflexivity|vm_compute; reflexivity]|].
  apply (@table_lengths_are_borders demo_tenv demo_tenv_ok). intros l c t.
  apply (@build_represents demo_tenv demo_tenv_ok).
Defined.

End TableDemo.
