(* ===== verification/LuaString.v ===== *)
(** Lua's strings: [lstring.c], and the part of the collector that sweeps them
    ([lgc.c] of [protocol/3rd/lua-5.1.4]). Every string is kept once, in a hash
    table of chains linked through the string objects; the models of the API and
    of the tables compare strings by their bytes, where the code compares
    addresses. *)
From S2P Require Import Prelude.
From S2P Require Import LuaApi LuaTable.
Import Table.

(** * Data *)

(** [TString] with its characters; [marked] holds the collector's bits. *)
Record TString := mkTString {
  ts_next : option Z;
  ts_marked : Z;
  ts_hash : Z;
  ts_str : list byte
}.

#[export] Instance TString_eq_dec : EqDecision TString.
Proof. solve_decision. Defined.

Definition WHITEBITS : Z := 3.
Definition BLACKMASK : Z := 4.
Definition FIXEDMASK : Z := 32.
Definition SFIXEDMASK : Z := 64.

Inductive gc_state : Type :=
| GCSpause
| GCSpropagate
| GCSsweepstring
| GCSsweep
| GCSfinalize.

#[export] Instance gc_state_eq_dec : EqDecision gc_state.
Proof. solve_decision. Defined.

(** [struct stringtable]; [size] is the length of the array. *)
Record stringtable := mkStrt {
  st_hash : list (option Z);
  st_nuse : Z
}.

(** The members of [global_State] the strings use, with the string objects by
    address; addresses below [sg_fresh] have been given out. *)
Record strings := mkStrings {
  sg_mem : gmap Z TString;
  sg_fresh : Z;
  strt : stringtable;
  gcstate : gc_state;
  currentwhite : Z;
  sweepstrgc : Z
}.

Definition set_strings (f : gmap Z TString -> gmap Z TString) (g : strings) : strings :=
  mkStrings (f (sg_mem g)) (sg_fresh g) (strt g) (gcstate g) (currentwhite g) (sweepstrgc g).
Definition set_strt (t : stringtable) (g : strings) : strings :=
  mkStrings (sg_mem g) (sg_fresh g) t (gcstate g) (currentwhite g) (sweepstrgc g).

Definition with_next (n : option Z) (t : TString) : TString :=
  mkTString n (ts_marked t) (ts_hash t) (ts_str t).
Definition with_marked (m : Z) (t : TString) : TString :=
  mkTString (ts_next t) m (ts_hash t) (ts_str t).

Definition st_size (t : stringtable) : Z := blen (st_hash t).

Definition lmod (h size : Z) : Z := Z.land h (size - 1).

Definition otherwhite (g : strings) : Z := Z.lxor (currentwhite g) WHITEBITS.
Definition luaC_white (g : strings) : Z := Z.land (currentwhite g) WHITEBITS.
Definition isdead (g : strings) (t : TString) : bool :=
  negb (Z.land (Z.land (ts_marked t) (otherwhite g)) WHITEBITS =? 0).
Definition changewhite (t : TString) : TString := with_marked (Z.lxor (ts_marked t) WHITEBITS) t.
Definition maskmarks : Z := Z.land 255 (Z.lnot (Z.lor BLACKMASK WHITEBITS)).
Definition makewhite (g : strings) (t : TString) : TString :=
  with_marked (Z.land 255 (Z.lor (Z.land (ts_marked t) maskmarks) (luaC_white g))) t.

Definition load_ts (M : gmap Z TString) (p : Z) : cres TString := of_option UseAfterFree (M !! p).

Definition bucket (h : list (option Z)) (i : Z) : cres (option Z) :=
  require (0 <=? i) OutOfBounds;; of_option OutOfBounds (h !! Z.to_nat i).

(** * The table *)

(** The chain from [p] is moved to the new array, each string in front of its
    new chain. *)
Fixpoint rehash_chain (fuel : nat) (p : option Z) (newhash : list (option Z)) (M : gmap Z TString)
  : cres (list (option Z) * gmap Z TString) :=
  match fuel with
  | O => UB Diverges
  | S fuel =>
      match p with
      | None => Ok (newhash, M)
      | Some c =>
          t ← load_ts M c;
          let h1 := lmod (ts_hash t) (blen newhash) in
          b ← bucket newhash h1;
          rehash_chain fuel (ts_next t) (<[Z.to_nat h1 := Some c]> newhash) (<[c := with_next b t]> M)
      end
  end.

Fixpoint rehash_all (fuel : nat) (old : list (option Z)) (newhash : list (option Z)) (M : gmap Z TString)
  : cres (list (option Z) * gmap Z TString) :=
  match old with
  | [] => Ok (newhash, M)
  | p :: old => '(newhash, M) ← rehash_chain fuel p newhash M; rehash_all fuel old newhash M
  end.

(** Every walk ends within the number of strings. *)
Definition chain_fuel (g : strings) : nat := S (size (sg_mem g)).

(** Memory errors are the second result. *)
Definition luaS_resize (alloc : bool) (newsize : Z) (g : strings) : cres (bool * strings) :=
  if decide (gcstate g = GCSsweepstring) then Ok (true, g)
  else if negb alloc then Ok (false, g)
  else
    '(h, M) ← rehash_all (chain_fuel g) (st_hash (strt g)) (replicate (Z.to_nat newsize) None) (sg_mem g);
    Ok (true, set_strt (mkStrt h (st_nuse (strt g))) (set_strings (fun _ => M) g)).

(** [sizeof(TString)] on a 64-bit machine. *)
Definition sizeof_TString : Z := 24.

Definition newlstr (alloc alloc_table : bool) (str : list byte) (h : Z) (g : strings) : cres (option Z * strings) :=
  if blen str + 1 >? 2 ^ 64 - 3 - sizeof_TString then Ok (None, g)
  else if negb alloc then Ok (None, g)
  else
    let ts := sg_fresh g in
    let tb := strt g in
    let h1 := lmod h (st_size tb) in
    b ← bucket (st_hash tb) h1;
    let g := mkStrings (<[ts := mkTString b (luaC_white g) h str]> (sg_mem g)) (ts + 1)
               (mkStrt (<[Z.to_nat h1 := Some ts]> (st_hash tb)) (uwrap32 (st_nuse tb + 1)))
               (gcstate g) (currentwhite g) (sweepstrgc g) in
    if (st_nuse (strt g) >? st_size tb) && (st_size tb <=? INT_MAX / 2) then
      '(ok, g) ← luaS_resize alloc_table (st_size tb * 2) g;
      Ok (if ok : bool then Some ts else None, g)
    else Ok (Some ts, g).

(** The search along one chain. *)
Fixpoint find_str (fuel : nat) (M : gmap Z TString) (o : option Z) (str : list byte) : cres (option Z) :=
  match fuel with
  | O => UB Diverges
  | S fuel =>
      match o with
      | None => Ok None
      | Some c => t ← load_ts M c; if bool_decide (ts_str t = str) then Ok (Some c) else find_str fuel M (ts_next t) str
      end
  end.

(** The string, or a memory error. *)
Definition luaS_newlstr (alloc alloc_table : bool) (str : list byte) (g : strings) : cres (option Z * strings) :=
  let h := str_hash str in
  b ← bucket (st_hash (strt g)) (lmod h (st_size (strt g)));
  found ← find_str (chain_fuel g) (sg_mem g) b str;
  match found with
  | Some c =>
      t ← load_ts (sg_mem g) c;
      Ok (Some c, if isdead g t then set_strings <[c := changewhite t]> g else g)
  | None => newlstr alloc alloc_table str h g
  end.

(** * Collecting *)

(** [luaS_fix]. *)
Definition luaS_fix (p : Z) (g : strings) : cres strings :=
  t ← load_ts (sg_mem g) p;
  Ok (set_strings <[p := with_marked (Z.lor (ts_marked t) FIXEDMASK) t]> g).

(** [stringmark]. *)
Definition stringmark (p : Z) (g : strings) : cres strings :=
  t ← load_ts (sg_mem g) p;
  Ok (set_strings <[p := with_marked (Z.land (ts_marked t) (Z.lnot WHITEBITS)) t]> g).

(** The end of the mark phase: the other white is current. *)
Definition flip_white (g : strings) : strings :=
  mkStrings (sg_mem g) (sg_fresh g) (strt g) GCSsweepstring (otherwhite g) 0.

(** The link [p] of [sweeplist] points to. *)
Inductive link : Type :=
| AtBucket (i : Z)
| AtNext (c : Z).

Definition read_place (p : link) (g : strings) : cres (option Z) :=
  match p with
  | AtBucket i => bucket (st_hash (strt g)) i
  | AtNext c => t ← load_ts (sg_mem g) c; Ok (ts_next t)
  end.

Definition write_place (p : link) (v : option Z) (g : strings) : cres strings :=
  match p with
  | AtBucket i => bucket (st_hash (strt g)) i;;
                  Ok (set_strt (mkStrt (<[Z.to_nat i := v]> (st_hash (strt g))) (st_nuse (strt g))) g)
  | AtNext c => t ← load_ts (sg_mem g) c; Ok (set_strings <[c := with_next v t]> g)
  end.

(** The case of strings in [freeobj]. *)
Definition free_string (c : Z) (g : strings) : strings :=
  set_strt (mkStrt (st_hash (strt g)) (uwrap32 (st_nuse (strt g) - 1))) (set_strings (delete c) g).

(** [sweepwholelist] on a chain of strings. *)
Fixpoint sweeplist (fuel : nat) (p : link) (g : strings) : cres strings :=
  match fuel with
  | O => UB Diverges
  | S fuel =>
      curr ← read_place p g;
      match curr with
      | None => Ok g
      | Some c =>
          t ← load_ts (sg_mem g) c;
          if negb (Z.land (Z.lxor (ts_marked t) WHITEBITS) (otherwhite g) =? 0) then
            sweeplist fuel (AtNext c) (set_strings <[c := makewhite g t]> g)
          else
            g ← write_place p (ts_next t) g;
            sweeplist fuel p (free_string c g)
      end
  end.

(** The step of [singlestep] that sweeps strings. *)
Definition sweep_step (g : strings) : cres strings :=
  let i := sweepstrgc g in
  g ← sweeplist (chain_fuel g) (AtBucket i)
        (mkStrings (sg_mem g) (sg_fresh g) (strt g) (gcstate g) (currentwhite g) (i + 1));
  Ok (if sweepstrgc g >=? st_size (strt g)
      then mkStrings (sg_mem g) (sg_fresh g) (strt g) GCSsweep (currentwhite g) (sweepstrgc g) else g).

(** [luaC_fullgc] before it finishes the sweep: a collection that is marking is
    given up, all strings are to be swept, with the same white. *)
Definition restart_sweep (g : strings) : strings :=
  match gcstate g with
  | GCSpause | GCSpropagate => mkStrings (sg_mem g) (sg_fresh g) (strt g) GCSsweepstring (currentwhite g) 0
  | _ => g
  end.

(** The strings in [luaC_freeall], called when the state is closed. *)
Fixpoint freeall_loop (i : Z) (h : list (option Z)) (g : strings) : cres strings :=
  match h with
  | [] => Ok g
  | _ :: h => g ← sweeplist (chain_fuel g) (AtBucket i) g; freeall_loop (i + 1) h g
  end.

Definition freeall (g : strings) : cres strings :=
  freeall_loop 0 (st_hash (strt g))
    (mkStrings (sg_mem g) (sg_fresh g) (strt g) (gcstate g) (Z.lor WHITEBITS SFIXEDMASK) (sweepstrgc g)).

Definition MINSTRTABSIZE : Z := 32.

(** The part of [checkSizes] on the string table. *)
Definition check_sizes (alloc : bool) (g : strings) : cres (bool * strings) :=
  if (st_nuse (strt g) <? st_size (strt g) / 4) && (st_size (strt g) >? MINSTRTABSIZE * 2)
  then luaS_resize alloc (st_size (strt g) / 2) g
  else Ok (true, g).
