(* ===== verification/StringCorrect.v ===== *)
(** Lua keeps every string once: the chains of the string table, their moves when
    the table grows or shrinks, and their sweep. *)
From S2P Require Import Prelude.
From S2P Require Import LuaApi LuaTable LuaString.
Import Table.

Implicit Types (M : gmap Z TString) (l : list Z).

(** * Chains *)

Inductive chain M : option Z -> list Z -> Prop :=
| chain_nil : chain M None []
| chain_cons c t l : M !! c = Some t -> chain M (ts_next t) l -> chain M (Some c) (c :: l).

(** What a move of a string does not change. *)
Definition body (t : TString) : Z * Z * list byte := (ts_marked t, ts_hash t, ts_str t).

Definition same_bodies M M' : Prop := forall q, body <$> M' !! q = body <$> M !! q.

#[export] Instance same_bodies_refl : Reflexive same_bodies.
Proof. by intros M q. Qed.

#[export] Instance same_bodies_trans : Transitive same_bodies.
Proof. intros M1 M2 M3 H1 H2 q. by rewrite H2, H1. Qed.

Lemma same_bodies_lookup M M' q t' : same_bodies M M' -> M' !! q = Some t' ->
  exists t, M !! q = Some t /\ body t' = body t.
Proof.
  intros H Hq. specialize (H q). rewrite Hq in H. destruct (M !! q) as [t|]; [|done].
  exists t. split; [done|]. change (Some (body t') = Some (body t)) in H. congruence.
Qed.

Lemma same_bodies_is_Some M M' q : same_bodies M M' -> is_Some (M' !! q) <-> is_Some (M !! q).
Proof. intros H. specialize (H q). by destruct (M !! q), (M' !! q). Qed.

Lemma chain_is_Some M b l c : chain M b l -> c ∈ l -> is_Some (M !! c).
Proof. induction 1; intros Hc; [by apply elem_of_nil in Hc|]. apply elem_of_cons in Hc as [->|Hc]; eauto. Qed.

Lemma chain_insert M b l c t : chain M b l -> c ∉ l -> chain (<[c := t]> M) b l.
Proof.
  induction 1 as [|d u l Hd _ IH]; intros Hc; [constructor|]. apply not_elem_of_cons in Hc as [Hcd Hc].
  apply (chain_cons _ _ u); [by rewrite lookup_insert_ne|by apply IH].
Qed.

Lemma chain_delete M b l c : chain M b l -> c ∉ l -> chain (delete c M) b l.
Proof.
  induction 1 as [|d u l Hd _ IH]; intros Hc; [constructor|]. apply not_elem_of_cons in Hc as [Hcd Hc].
  apply (chain_cons _ _ u); [by rewrite lookup_delete_ne|by apply IH].
Qed.

(** A string of a chain changed, but for its link. *)
Lemma chain_update M b l c t t' : chain M b l -> M !! c = Some t -> ts_next t' = ts_next t -> chain (<[c := t']> M) b l.
Proof.
  intros Hch Hc Hn. induction Hch as [|d u l Hd _ IH]; [constructor|]. destruct (decide (d = c)) as [->|Hne].
  - apply (chain_cons _ _ t'); [apply lookup_insert_eq|]. rewrite Hn. by simplify_eq.
  - apply (chain_cons _ _ u); [by rewrite lookup_insert_ne|done].
Qed.

Lemma chain_inv_cons M b c l : chain M b (c :: l) -> exists t, b = Some c /\ M !! c = Some t /\ chain M (ts_next t) l.
Proof. inversion 1; subst. eauto. Qed.

Lemma chain_fun M b l : chain M b l -> forall l', chain M b l' -> l = l'.
Proof.
  induction 1 as [|c t l Hc _ IH]; intros l' Hl'; inversion Hl'; subst; [done|]. simplify_eq. f_equal. by apply IH.
Qed.

(** * Whole tables *)

(** The chains hold the strings where their hashes belong. *)
Record tabled M (h : list (option Z)) (ls : list (list Z)) : Prop := {
  tb_chains : Forall2 (chain M) h ls;
  tb_home : forall i l c t, ls !! i = Some l -> c ∈ l -> M !! c = Some t -> Z.of_nat i = lmod (ts_hash t) (blen h);
  tb_once : NoDup (concat ls)
}.

Lemma lmod_pow2 h k : 0 <= k -> lmod h (2 ^ k) = h mod 2 ^ k.
Proof. intros Hk. unfold lmod. rewrite <- Z.land_ones by done. f_equal. by rewrite Z.ones_equiv, <- Z.sub_1_r. Qed.

Lemma lmod_range h k : 0 <= k -> 0 <= lmod h (2 ^ k) < 2 ^ k.
Proof. intros Hk. rewrite lmod_pow2 by done. apply Z.mod_pos_bound. apply Z.pow_pos_nonneg; lia. Qed.

Lemma bucket_ok (h : list (option Z)) i : 0 <= i < blen h -> exists b, bucket h i = Ok b /\ h !! Z.to_nat i = Some b.
Proof.
  intros Hi. destruct (lookup_lt_is_Some_2 h (Z.to_nat i)) as [b Hb]; [unfold blen in Hi; lia|].
  exists b. unfold bucket. rewrite (proj2 (Z.leb_le 0 i)) by lia. cbn. by rewrite Hb.
Qed.

Lemma concat_insert_perm (ls : list (list Z)) i l l' k : ls !! i = Some l -> l' ≡ₚ k ++ l ->
  concat (<[i := l']> ls) ≡ₚ k ++ concat ls.
Proof.
  revert i. induction ls as [|l0 ls IH]; intros [|i] Hi Hp; try done; cbn in *.
  - injection Hi as ->. by rewrite Hp, app_assoc.
  - rewrite (IH i Hi Hp). rewrite !app_assoc. f_equiv. apply Permutation_app_comm.
Qed.

Lemma elem_of_concat (ls : list (list Z)) c : c ∈ concat ls <-> exists i l, ls !! i = Some l /\ c ∈ l.
Proof.
  rewrite list_elem_of_In, in_concat. split.
  - intros (l & Hl & Hc). apply list_elem_of_In, list_elem_of_lookup in Hl as [i Hi]. exists i, l.
    split; [done|]. by apply list_elem_of_In.
  - intros (i & l & Hi & Hc). exists l. split; apply list_elem_of_In; [|done]. by eapply list_elem_of_lookup_2.
Qed.

Lemma nodup_concat_lookup (ls : list (list Z)) i k : NoDup (concat ls) -> ls !! i = Some k -> NoDup k.
Proof.
  revert i. induction ls as [|l ls IH]; intros [|i] Hnd Hi; try done; cbn in *; apply NoDup_app in Hnd as (Hl & _ & Hnd).
  - by injection Hi as <-.
  - by apply (IH i).
Qed.

Lemma nodup_concat_disjoint (ls : list (list Z)) i j k l c : NoDup (concat ls) -> ls !! i = Some k -> ls !! j = Some l ->
  c ∈ k -> c ∈ l -> i = j.
Proof.
  revert i j. induction ls as [|m ls IH]; intros [|i] [|j] Hnd Hi Hj Hk Hl; try done; cbn in *;
    apply NoDup_app in Hnd as (_ & Hdis & Hnd).
  - injection Hi as <-. destruct (Hdis c Hk). apply elem_of_concat. eauto.
  - injection Hj as <-. destruct (Hdis c Hl). apply elem_of_concat. eauto.
  - f_equal. by apply (IH i j).
Qed.

(** A string in front of a chain. *)
Lemma tabled_push M h ls c t i b : tabled M h ls -> c ∉ concat ls -> h !! i = Some b ->
  Z.of_nat i = lmod (ts_hash t) (blen h) ->
  exists l, ls !! i = Some l /\ tabled (<[c := with_next b t]> M) (<[i := Some c]> h) (<[i := c :: l]> ls).
Proof.
  intros [Hch Hhome Hnd] Hc Hb Hi. destruct (Forall2_lookup_l _ _ _ _ _ Hch Hb) as (l & Hl & Hchl).
  exists l. split; [done|]. assert (forall j k, ls !! j = Some k -> c ∉ k) as Hno.
  { intros j k Hj Hin. apply Hc, elem_of_concat. eauto. }
  split.
  - apply Forall2_insert.
    + apply Forall2_same_length_lookup. split; [by eapply Forall2_length|]. intros j x y Hx Hy.
      apply chain_insert; [|by eapply Hno]. by eapply Forall2_lookup_lr.
    + apply (chain_cons _ _ (with_next b t)); [apply lookup_insert_eq|]. cbn. apply chain_insert; [done|by eapply Hno].
  - unfold blen. rewrite length_insert. intros j k d u Hj Hd Hu. destruct (decide (d = c)) as [->|Hne].
    + rewrite lookup_insert_eq in Hu. injection Hu as <-. cbn. destruct (decide (j = i)) as [->|Hji]; [done|].
      rewrite list_lookup_insert_ne in Hj by done. by destruct (Hno j k).
    + rewrite lookup_insert_ne in Hu by done. destruct (decide (j = i)) as [->|Hji].
      * rewrite list_lookup_insert_eq in Hj by (by eapply lookup_lt_Some). injection Hj as <-.
        apply elem_of_cons in Hd as [->|Hd]; [done|]. by apply (Hhome i l d u).
      * rewrite list_lookup_insert_ne in Hj by done. by apply (Hhome j k d u).
  - rewrite (concat_insert_perm ls i l (c :: l) [c]); [|done|done]. by constructor.
Qed.

(** * Moving *)

Lemma rehash_chain_ok k fuel : 0 <= k -> forall l p h M ls, blen h = 2 ^ k -> (length l < fuel)%nat ->
  tabled M h ls -> chain M p l -> NoDup (concat ls ++ l) ->
  exists h' M' ls', rehash_chain fuel p h M = Ok (h', M') /\ blen h' = 2 ^ k /\ tabled M' h' ls' /\
    concat ls' ≡ₚ concat ls ++ l /\ same_bodies M M' /\ forall q, q ∉ l -> M' !! q = M !! q.
Proof.
  intros Hk. induction fuel as [|fuel IH]; intros l p h M ls Hlen Hf Ht Hp Hnd; [lia|]. cbn [rehash_chain].
  destruct p as [c|].
  - inversion Hp as [|? t l0 Hc Hch]; subst. unfold load_ts. rewrite Hc. cbn [of_option]. rewrite bind_Ok, Hlen.
    pose proof (lmod_range (ts_hash t) k Hk) as Hr.
    destruct (bucket_ok h (lmod (ts_hash t) (2 ^ k))) as (b & -> & Hb); [lia|]. rewrite bind_Ok.
    assert (c ∉ concat ls /\ c ∉ l0 /\ NoDup (concat ls ++ l0)) as (Hc1 & Hc2 & Hnd').
    { rewrite <- Permutation_middle in Hnd. apply NoDup_cons in Hnd as [Hn Hnd]. split; [|split; [|done]]; set_solver. }
    destruct (tabled_push M h ls c t _ b Ht Hc1 Hb) as (lh & Hlh & Ht1); [rewrite Hlen; lia|].
    set (M1 := <[c := with_next b t]> M) in *. set (ls1 := <[_ := c :: lh]> ls) in *.
    assert (concat ls1 ≡ₚ c :: concat ls) as Hperm by (apply (concat_insert_perm ls _ lh (c :: lh) [c]); done).
    destruct (IH l0 (ts_next t) (<[Z.to_nat (lmod (ts_hash t) (2 ^ k)) := Some c]> h) M1 ls1)
      as (h' & M' & ls' & -> & Hl' & Ht' & Hp' & Hs' & Ho').
    + unfold blen in *. by rewrite length_insert.
    + cbn in Hf. lia.
    + done.
    + by apply chain_insert.
    + rewrite Hperm. cbn. constructor; [set_solver|done].
    + exists h', M', ls'. split; [done|]. split; [done|]. split; [done|]. split.
      { rewrite Hp', Hperm. cbn. by rewrite Permutation_middle. }
      split.
      * transitivity M1; [|done]. intros q. unfold M1. destruct (decide (q = c)) as [->|Hne].
        -- by rewrite lookup_insert_eq, Hc.
        -- by rewrite lookup_insert_ne.
      * intros q Hq. rewrite Ho' by set_solver. unfold M1. rewrite lookup_insert_ne; [done|set_solver].
  - inversion Hp; subst. exists h, M, ls. split; [done|]. split; [done|]. split; [done|].
    split; [by rewrite app_nil_r|]. done.
Qed.

Lemma rehash_all_ok k fuel : 0 <= k -> forall old ols h M ls, blen h = 2 ^ k -> (length (concat ols) < fuel)%nat ->
  tabled M h ls -> Forall2 (chain M) old ols -> NoDup (concat ls ++ concat ols) ->
  exists h' M' ls', rehash_all fuel old h M = Ok (h', M') /\ blen h' = 2 ^ k /\ tabled M' h' ls' /\
    concat ls' ≡ₚ concat ls ++ concat ols /\ same_bodies M M'.
Proof.
  intros Hk. induction old as [|p old IH]; intros ols h M ls Hlen Hf Ht Hch Hnd; cbn [rehash_all].
  - inversion Hch; subst. exists h, M, ls. do 3 (split; [done|]). split; [by rewrite app_nil_r|done].
  - inversion Hch as [|? l0 ? ols' Hp Hrest]; subst. cbn in Hnd, Hf. rewrite app_assoc in Hnd. rewrite length_app in Hf.
    pose proof Hnd as (Hnd1 & Hdis & Hnd2)%NoDup_app.
    destruct (rehash_chain_ok k fuel Hk l0 p h M ls Hlen ltac:(lia) Ht Hp Hnd1)
      as (h1 & M1 & ls1 & -> & Hl1 & Ht1 & Hp1 & Hs1 & Ho1). rewrite bind_Ok.
    destruct (IH ols' h1 M1 ls1 Hl1 ltac:(lia) Ht1) as (h' & M' & ls' & -> & Hl' & Ht' & Hp' & Hs').
    + apply Forall2_same_length_lookup. split; [by eapply Forall2_length|]. intros j x y Hx Hy.
      assert (chain M x y) as Hxy by (by eapply Forall2_lookup_lr).
      assert (forall q, q ∈ y -> M1 !! q = M !! q) as Hsame.
      { intros q Hq. apply Ho1. intros Hq0. apply (Hdis q); [set_solver|]. apply elem_of_concat. eauto. }
      clear -Hxy Hsame. induction Hxy as [|c t l Hc _ IH]; [constructor|].
      apply (chain_cons _ _ t); [rewrite Hsame by left; done|]. apply IH. intros q Hq. apply Hsame. by right.
    + by rewrite Hp1.
    + exists h', M', ls'. split; [done|]. split; [done|]. split; [done|]. split; [|by transitivity M1].
      rewrite Hp', Hp1. cbn. by rewrite app_assoc.
Qed.

(** * The invariant *)

(** Marks are bytes with at most one white bit, without the bit of the main
    thread. *)
Definition mark_ok (m : Z) : Prop := 0 <= m < 256 /\ Z.land m WHITEBITS <> WHITEBITS /\ Z.land m SFIXEDMASK = 0.

Definition dead_mark (white m : Z) : bool := negb (Z.land (Z.land m (Z.lxor white WHITEBITS)) WHITEBITS =? 0).

(** [sweeplist] keeps a string with this mark. *)
Definition kept_mark (white m : Z) : bool := negb (Z.land (Z.lxor m WHITEBITS) (Z.lxor white WHITEBITS) =? 0).

Definition white_ok (white : Z) : Prop := white = 33 \/ white = 34.

Record strings_inv (g : strings) (ls : list (list Z)) : Prop := {
  iv_table : tabled (sg_mem g) (st_hash (strt g)) ls;
  iv_all : forall p, p ∈ concat ls <-> is_Some (sg_mem g !! p);
  iv_size : exists k, 0 <= k <= 30 /\ st_size (strt g) = 2 ^ k;
  iv_nuse : st_nuse (strt g) = Z.of_nat (size (sg_mem g)) /\ Z.of_nat (size (sg_mem g)) < 2 ^ 32;
  iv_string : forall p t, sg_mem g !! p = Some t -> ts_hash t = str_hash (ts_str t) /\ mark_ok (ts_marked t);
  iv_unique : forall p q t u, sg_mem g !! p = Some t -> sg_mem g !! q = Some u -> ts_str t = ts_str u -> p = q;
  iv_fresh : forall p, is_Some (sg_mem g !! p) -> p < sg_fresh g;
  iv_white : white_ok (currentwhite g);
  iv_sweep : gcstate g = GCSsweepstring -> 0 <= sweepstrgc g < st_size (strt g)
}.

(** What is checked for every mark. *)
Lemma marks_checked (P : Z -> bool) : forallb P (seqZ 0 256) = true -> forall m, 0 <= m < 256 -> P m = true.
Proof. intros H m Hm. rewrite forallb_forall in H. apply H, list_elem_of_In, elem_of_seqZ. lia. Qed.

(** The string is the same, and fixed if it was. *)
Definition same_string (t t' : TString) : Prop :=
  ts_str t' = ts_str t /\ Z.land (ts_marked t') FIXEDMASK = Z.land (ts_marked t) FIXEDMASK.

(** A mark made from [m] for a string that is to stay. *)
Definition stays (white m m' : Z) : Prop :=
  mark_ok m' /\ dead_mark white m' = false /\ Z.land m' FIXEDMASK = Z.land m FIXEDMASK.

Lemma mark_facts white m : white_ok white -> mark_ok m ->
  (dead_mark white m = true -> stays white m (Z.lxor m WHITEBITS)) /\
  stays white m (Z.land m (Z.lnot WHITEBITS)) /\
  stays white m (Z.land 255 (Z.lor (Z.land m maskmarks) (Z.land white WHITEBITS))) /\
  (mark_ok (Z.lor m FIXEDMASK) /\ dead_mark white (Z.lor m FIXEDMASK) = dead_mark white m /\ Z.land (Z.lor m FIXEDMASK) FIXEDMASK <> 0) /\
  kept_mark white m = negb (dead_mark white m) || negb (Z.land m FIXEDMASK =? 0).
Proof.
  intros Hw (Hm & Hb & Hsf).
  set (okm m := (0 <=? m) && (m <? 256) && negb (Z.land m 3 =? 3) && (Z.land m SFIXEDMASK =? 0)).
  set (okw white m m' := okm m' && negb (dead_mark white m') && (Z.land m' FIXEDMASK =? Z.land m FIXEDMASK)).
  set (P white m := implb (negb (Z.land m 3 =? 3) && (Z.land m SFIXEDMASK =? 0)) (
    implb (dead_mark white m) (okw white m (Z.lxor m 3)) && okw white m (Z.land m (Z.lnot 3)) &&
    okw white m (Z.land 255 (Z.lor (Z.land m maskmarks) (Z.land white 3))) &&
    (okm (Z.lor m FIXEDMASK) && Bool.eqb (dead_mark white (Z.lor m FIXEDMASK)) (dead_mark white m) &&
      negb (Z.land (Z.lor m FIXEDMASK) FIXEDMASK =? 0)) &&
    Bool.eqb (kept_mark white m) (negb (dead_mark white m) || negb (Z.land m FIXEDMASK =? 0)))).
  assert (P white m = true) as HP by (destruct Hw as [-> | ->]; apply marks_checked; [reflexivity|done|reflexivity|done]).
  assert (forall m', okw white m m' = true -> stays white m m') as Hokw
    by (unfold okw, okm; intros m' Ho; bool_props; split; [split; [lia|done]|done]).
  unfold P, okm, WHITEBITS in *. rewrite (proj2 (Z.eqb_neq (Z.land m 3) 3)), (proj2 (Z.eqb_eq _ _) Hsf) in HP by done. cbn [negb andb implb] in HP.
  rewrite !andb_true_iff in HP. destruct HP as [[[[H1 H2] H3] [[H4 H5] H6]] H7].
  apply Bool.eqb_prop in H5, H7. apply negb_true_iff, Z.eqb_neq in H6.
  split; [|split; [|split; [|split; [|done]]]]; [|by apply Hokw|by apply Hokw|].
  2:{ destruct H4 as [[[H4 H4'] H4''] H4''']. bool_props. split; [split; [lia|done]|done]. }
  intros Hd. rewrite Hd in H1. by apply Hokw.
Qed.

Lemma strings_count g ls : strings_inv g ls -> size (sg_mem g) = length (concat ls).
Proof.
  intros H. rewrite <- (size_dom (D := gset Z)), <- (size_list_to_set (C := gset Z)) by apply (tb_once _ _ _ (iv_table _ _ H)).
  apply set_size_proper. intros p. rewrite elem_of_dom, elem_of_list_to_set. symmetry. apply (iv_all _ _ H).
Qed.

Lemma chain_bound g ls i l : strings_inv g ls -> ls !! i = Some l -> (length l < chain_fuel g)%nat.
Proof.
  intros H Hi. unfold chain_fuel. rewrite (strings_count g ls H).
  enough (length l <= length (concat ls))%nat by lia. clear H. revert i Hi.
  induction ls as [|l0 ls IH]; intros [|i] Hi; cbn in *; try done; rewrite length_app.
  - injection Hi as ->. lia.
  - specialize (IH i Hi). lia.
Qed.

Lemma same_bodies_dom M M' : same_bodies M M' -> size M' = size M.
Proof.
  intros H. rewrite <- !(size_dom (D := gset Z)). apply set_size_proper. intros p.
  rewrite !elem_of_dom. by apply same_bodies_is_Some.
Qed.

(** The invariant after the strings were moved. *)
Lemma strings_inv_moved g ls M h ls' k : strings_inv g ls -> same_bodies (sg_mem g) M -> tabled M h ls' ->
  concat ls' ≡ₚ concat ls -> 0 <= k <= 30 -> blen h = 2 ^ k -> gcstate g <> GCSsweepstring ->
  strings_inv (set_strt (mkStrt h (st_nuse (strt g))) (set_strings (fun _ => M) g)) ls'.
Proof.
  intros [Ht Ha Hs Hn Hst Hu Hf Hw Hsw] Hb Ht' Hp Hk Hlen Hgc. split; cbn; try done.
  - intros p. rewrite Hp, Ha. symmetry. by apply same_bodies_is_Some.
  - by exists k.
  - by rewrite (same_bodies_dom _ _ Hb).
  - intros p t' Hp'. destruct (same_bodies_lookup _ _ _ _ Hb Hp') as (t & Hpt & [= -> -> ->]). by apply (Hst p).
  - intros p q t u Hp' Hq'. destruct (same_bodies_lookup _ _ _ _ Hb Hp') as (t0 & Hpt & [= _ _ ->]).
    destruct (same_bodies_lookup _ _ _ _ Hb Hq') as (u0 & Hqu & [= _ _ ->]). by apply Hu.
  - intros p Hp'. apply Hf. by apply (same_bodies_is_Some _ _ _ Hb).
Qed.

(** What an operation on the table leaves alone. *)
Record strings_frame (g g' : strings) : Prop := {
  fr_gcstate : gcstate g' = gcstate g;
  fr_white : currentwhite g' = currentwhite g;
  fr_sweep : sweepstrgc g' = sweepstrgc g
}.

Lemma tabled_empty M n : tabled M (replicate n None) (replicate n []).
Proof.
  split.
  - apply Forall2_replicate. constructor.
  - intros i l c t Hl Hc. apply lookup_replicate_1 in Hl as [-> _]. by apply elem_of_nil in Hc.
  - induction n; cbn; [constructor|done].
Qed.

Lemma concat_replicate_nil {A} n : concat (replicate n (@nil A)) = [].
Proof. by induction n. Qed.

Lemma luaS_resize_ok alloc g ls k : strings_inv g ls -> 0 <= k <= 30 ->
  exists r g' ls', luaS_resize alloc (2 ^ k) g = Ok (r, g') /\ strings_inv g' ls' /\ strings_frame g g' /\
    sg_fresh g' = sg_fresh g /\ same_bodies (sg_mem g) (sg_mem g') /\ (alloc = true -> r = true).
Proof.
  intros H Hk. unfold luaS_resize. case_decide as Hgc; [by exists true, g, ls|]. destruct alloc; cbn [negb].
  2:{ by exists false, g, ls. }
  pose proof (iv_table _ _ H) as [Hch Hhome Hnd].
  assert (blen (replicate (Z.to_nat (2 ^ k)) (@None Z)) = 2 ^ k) as Hlen.
  { unfold blen. rewrite length_replicate. pose proof (Z.pow_pos_nonneg 2 k). lia. }
  destruct (rehash_all_ok k (chain_fuel g) ltac:(lia) (st_hash (strt g)) ls (replicate (Z.to_nat (2 ^ k)) None) (sg_mem g)
    (replicate (Z.to_nat (2 ^ k)) [])) as (h' & M' & ls' & -> & Hl' & Ht' & Hp' & Hs'); [done| |by apply tabled_empty|done| |].
  - unfold chain_fuel. rewrite (strings_count g ls H). lia.
  - by rewrite concat_replicate_nil.
  - rewrite concat_replicate_nil in Hp'. rewrite bind_Ok. eexists true, _, ls'. split; [reflexivity|].
    split; [by apply (strings_inv_moved g ls M' h' ls' k)|]. by repeat split.
Qed.

(** * Finding and making strings *)

Lemma find_str_ok M str fuel : forall l b, chain M b l -> (length l < fuel)%nat ->
  exists r, find_str fuel M b str = Ok r /\
    match r with
    | Some c => exists t, c ∈ l /\ M !! c = Some t /\ ts_str t = str
    | None => forall c t, c ∈ l -> M !! c = Some t -> ts_str t <> str
    end.
Proof.
  induction fuel as [|fuel IH]; intros l b Hch Hf; [lia|]. cbn [find_str]. destruct b as [c|].
  - inversion Hch as [|? t l0 Hc Hl]; subst. unfold load_ts. rewrite Hc. cbn [of_option]. rewrite bind_Ok.
    case_bool_decide as Heq.
    + exists (Some c). split; [done|]. exists t. split; [left|done].
    + destruct (IH l0 (ts_next t) Hl) as (r & -> & Hr); [cbn in Hf; lia|]. exists r. split; [done|]. destruct r as [d|].
      * destruct Hr as (u & Hd & Hu). exists u. split; [by right|done].
      * intros d u [->|Hd]%elem_of_cons Hu; [congruence|by apply (Hr d)].
  - inversion Hch; subst. exists None. split; [done|]. intros c t Hc. by apply elem_of_nil in Hc.
Qed.

(** The chain where a string belongs. *)
Lemma home_chain g ls h : strings_inv g ls -> exists b l, bucket (st_hash (strt g)) (lmod h (st_size (strt g))) = Ok b /\
  st_hash (strt g) !! Z.to_nat (lmod h (st_size (strt g))) = Some b /\
  ls !! Z.to_nat (lmod h (st_size (strt g))) = Some l /\ chain (sg_mem g) b l /\
  Z.of_nat (Z.to_nat (lmod h (st_size (strt g)))) = lmod h (st_size (strt g)).
Proof.
  intros H. destruct (iv_size _ _ H) as (k & Hk & Hs). pose proof (lmod_range h k ltac:(lia)) as Hr. rewrite Hs.
  destruct (bucket_ok (st_hash (strt g)) (lmod h (2 ^ k))) as (b & Hb & Hl); [unfold st_size in Hs; lia|].
  destruct (Forall2_lookup_l _ _ _ _ _ (tb_chains _ _ _ (iv_table _ _ H)) Hl) as (l & Hll & Hch).
  exists b, l. do 4 (split; [done|]). lia.
Qed.

(** The string table after a new string was put in front of its chain. *)
Definition pushed (str : list byte) (b : option Z) (g : strings) : strings :=
  let h1 := lmod (str_hash str) (st_size (strt g)) in
  mkStrings (<[sg_fresh g := mkTString b (luaC_white g) (str_hash str) str]> (sg_mem g)) (sg_fresh g + 1)
    (mkStrt (<[Z.to_nat h1 := Some (sg_fresh g)]> (st_hash (strt g))) (uwrap32 (st_nuse (strt g) + 1)))
    (gcstate g) (currentwhite g) (sweepstrgc g).

Lemma pushed_lookup str b g q u : sg_mem (pushed str b g) !! q = Some u ->
  q = sg_fresh g /\ u = mkTString b (luaC_white g) (str_hash str) str \/ q <> sg_fresh g /\ sg_mem g !! q = Some u.
Proof.
  cbn. destruct (decide (q = sg_fresh g)) as [->|Hne]; [rewrite lookup_insert_eq|rewrite lookup_insert_ne by done]; naive_solver.
Qed.

Lemma pushed_ok str b g ls : strings_inv g ls -> (forall p t, sg_mem g !! p = Some t -> ts_str t <> str) ->
  Z.of_nat (size (sg_mem g)) + 1 < 2 ^ 32 ->
  st_hash (strt g) !! Z.to_nat (lmod (str_hash str) (st_size (strt g))) = Some b ->
  exists ls', strings_inv (pushed str b g) ls' /\ sg_mem g !! sg_fresh g = None.
Proof.
  intros H Hnew Hroom Hb. destruct (home_chain g ls (str_hash str) H) as (b' & l & _ & Hb' & Hl & Hch & Hi).
  rewrite Hb in Hb'. injection Hb' as <-. set (i := Z.to_nat (lmod (str_hash str) (st_size (strt g)))) in *.
  set (p := sg_fresh g). assert (sg_mem g !! p = None) as Hp.
  { destruct (sg_mem g !! p) eqn:Hp; [|done]. assert (p < sg_fresh g) by (apply (iv_fresh _ _ H); eauto). unfold p in *. lia. }
  assert (p ∉ concat ls) as Hpn. { rewrite (iv_all _ _ H), Hp. by intros []. }
  set (t := mkTString b (luaC_white g) (str_hash str) str).
  destruct (tabled_push (sg_mem g) (st_hash (strt g)) ls p t i b (iv_table _ _ H) Hpn Hb Hi) as (l' & Hl' & Ht).
  rewrite Hl in Hl'. injection Hl' as <-. change (with_next b t) with t in Ht.
  exists (<[i := p :: l]> ls). split; [|done]. destruct (iv_nuse _ _ H) as [Hnu Hnb].
  assert (concat (<[i := p :: l]> ls) ≡ₚ p :: concat ls) as Hperm by (apply (concat_insert_perm ls i l (p :: l) [p]); done).
  split.
  - done.
  - intros q. rewrite Hperm, elem_of_cons, (iv_all _ _ H). cbn. fold p. destruct (decide (q = p)) as [->|Hne].
    + rewrite lookup_insert_eq. split; [eauto|by left].
    + rewrite lookup_insert_ne by done. naive_solver.
  - unfold st_size, blen. cbn. rewrite length_insert. apply (iv_size _ _ H).
  - cbn. rewrite Hnu, uwrap32_small, map_size_insert_None by (done || lia). lia.
  - intros q u [[-> ->]|[_ Hu]]%pushed_lookup; [|by apply (iv_string _ _ H q)]. cbn. split; [done|].
    unfold luaC_white, mark_ok. by destruct (iv_white _ _ H) as [-> | ->].
  - intros q r u v [[-> ->]|[Hq Hu]]%pushed_lookup [[-> ->]|[Hr Hv]]%pushed_lookup Heq;
      [done|by destruct (Hnew r v Hv)|by destruct (Hnew q u Hu)|by apply (iv_unique _ _ H q r u v)].
  - intros q [u [[-> ->]|[_ Hu]]%pushed_lookup]; cbn; [lia|].
    assert (q < sg_fresh g) by (apply (iv_fresh _ _ H); eauto). lia.
  - apply (iv_white _ _ H).
  - unfold st_size, blen. cbn. rewrite length_insert. apply (iv_sweep _ _ H).
Qed.

(** What [newlstr] does: the new string with its address, or a memory error; the
    strings that were there keep all but their links. *)
Record string_made (str : list byte) (r : option Z) (g g' : strings) : Prop := {
  sm_frame : strings_frame g g';
  sm_old : forall q, is_Some (sg_mem g !! q) -> body <$> sg_mem g' !! q = body <$> sg_mem g !! q;
  sm_only : forall q, is_Some (sg_mem g' !! q) -> is_Some (sg_mem g !! q) \/ q = sg_fresh g;
  sm_result : forall p, r = Some p -> p = sg_fresh g /\ body <$> sg_mem g' !! p = Some (luaC_white g, str_hash str, str)
}.

Lemma newlstr_ok alloc alloc_table str g ls : strings_inv g ls ->
  (forall p t, sg_mem g !! p = Some t -> ts_str t <> str) -> Z.of_nat (size (sg_mem g)) + 1 < 2 ^ 32 ->
  exists r g' ls', newlstr alloc alloc_table str (str_hash str) g = Ok (r, g') /\ strings_inv g' ls' /\
    string_made str r g g' /\ (alloc && alloc_table = true -> blen str < 2 ^ 63 -> is_Some r).
Proof.
  intros H Hnew Hroom. unfold newlstr.
  destruct (blen str + 1 >? 2 ^ 64 - 3 - sizeof_TString) eqn:Hbig.
  { exists None, g, ls. split; [done|]. split; [done|]. split; [split; [done|done|by left|done]|].
    intros _ Hl. unfold sizeof_TString in Hbig. rewrite Z.gtb_ltb in Hbig. apply Z.ltb_lt in Hbig. lia. }
  destruct alloc; cbn [negb]; [|by exists None, g, ls; split; [|split; [|split; [split; [|done|left|done]|]]]].
  destruct (home_chain g ls (str_hash str) H) as (b & l & -> & Hb & _). rewrite bind_Ok.
  destruct (pushed_ok str b g ls H Hnew Hroom Hb) as (ls1 & H1 & Hp). fold (pushed str b g). set (g1 := pushed str b g) in *.
  assert (string_made str (Some (sg_fresh g)) g g1) as Hmade.
  { split; [done| | |].
    - intros q [u Hq]. cbn. rewrite lookup_insert_ne; [done|]. congruence.
    - intros q [u [[-> _]|[_ Hu]]%pushed_lookup]; [by right|]. left. eauto.
    - intros p [= <-]. split; [done|]. cbn. by rewrite lookup_insert_eq. }
  case_match eqn:Hcrowd; [|by eexists _, g1, ls1; split; [reflexivity|split; [|split; [|eauto]]]].
  destruct (iv_size _ _ H) as (k & Hk & Hs). rewrite Hs in Hcrowd |- *.
  replace (2 ^ k * 2) with (2 ^ (k + 1)) by (rewrite Z.pow_add_r; lia).
  assert (k < 30) as Hk30.
  { apply andb_true_iff in Hcrowd as [_ Hc%Z.leb_le]. destruct (decide (k = 30)) as [->|]; [|lia]. by vm_compute in Hc. }
  destruct (luaS_resize_ok alloc_table g1 _ (k + 1) H1 ltac:(lia)) as (r & g' & ls' & -> & H' & F & _ & Hbod & Hal).
  rewrite bind_Ok. eexists _, g', ls'. split; [reflexivity|]. split; [done|]. destruct Hmade as [M1 M2 M3 M4]. split.
  - split; [by destruct M1, F; split; congruence| | |].
    + intros q Hq. by rewrite Hbod, M2.
    + intros q Hq. apply M3. by apply (same_bodies_is_Some _ _ _ Hbod).
    + destruct r; [|done]. intros q [= <-]. split; [done|]. rewrite Hbod. by apply M4.
  - cbn. intros Hat _. rewrite (Hal Hat). eauto.
Qed.

(** A string changed in its mark. *)
Lemma strings_inv_mark g ls c t m : strings_inv g ls -> sg_mem g !! c = Some t -> mark_ok m ->
  strings_inv (set_strings <[c := with_marked m t]> g) ls.
Proof.
  intros H Hc Hm. pose proof H as [[Hch Hhome Hnd] Ha Hs Hn Hst Hu Hf Hw Hsw].
  assert (forall q u, <[c := with_marked m t]> (sg_mem g) !! q = Some u ->
    exists v, sg_mem g !! q = Some v /\ ts_hash u = ts_hash v /\ ts_str u = ts_str v /\ (mark_ok (ts_marked v) -> mark_ok (ts_marked u)))
    as Hlook.
  { intros q u. destruct (decide (q = c)) as [->|Hne]; [rewrite lookup_insert_eq|rewrite lookup_insert_ne by done].
    - intros [= <-]. by exists t.
    - intros Hu'. by exists u. }
  split; cbn [set_strings sg_mem strt sg_fresh currentwhite gcstate sweepstrgc]; try done.
  - split; [|intros i l d u Hi Hd Hu'; destruct (Hlook d u Hu') as (v & Hv & -> & _); by apply (Hhome i l d v)|done].
    apply Forall2_same_length_lookup. split; [by eapply Forall2_length|]. intros j x y Hx Hy.
    apply (chain_update _ _ _ c t); [|done|done]. by eapply Forall2_lookup_lr.
  - intros p. rewrite Ha. destruct (decide (p = c)) as [->|Hne]; [rewrite lookup_insert_eq, Hc; split; eauto|].
    by rewrite lookup_insert_ne.
  - by rewrite map_size_insert_Some by eauto.
  - intros p u Hu'. destruct (Hlook p u Hu') as (v & Hv & -> & -> & Hmk). split; [by apply (Hst p)|]. apply Hmk. by apply (Hst p).
  - intros p q u v Hu' Hv'. destruct (Hlook p u Hu') as (u0 & Hu0 & _ & -> & _).
    destruct (Hlook q v Hv') as (v0 & Hv0 & _ & -> & _). by apply Hu.
  - intros p [u Hu']. destruct (Hlook p u Hu') as (v & Hv & _). eauto.
Qed.

(** What [luaS_newlstr] promises: a string with these characters that is not dead,
    the one that was there if there was one; every other string stays. *)
Lemma luaS_newlstr_ok alloc alloc_table str g ls : strings_inv g ls -> Z.of_nat (size (sg_mem g)) + 1 < 2 ^ 32 ->
  exists r g' ls', luaS_newlstr alloc alloc_table str g = Ok (r, g') /\ strings_inv g' ls' /\ strings_frame g g' /\
    (forall q u, sg_mem g !! q = Some u -> exists u', sg_mem g' !! q = Some u' /\ same_string u u' /\
      (isdead g u = false -> isdead g' u' = false)) /\
    (forall q, is_Some (sg_mem g' !! q) -> is_Some (sg_mem g !! q) \/ q = sg_fresh g) /\
    (forall p, r = Some p -> exists t, sg_mem g' !! p = Some t /\ ts_str t = str /\ isdead g' t = false /\
      forall q u, sg_mem g !! q = Some u -> ts_str u = str -> q = p) /\
    (alloc && alloc_table = true -> blen str < 2 ^ 63 -> is_Some r).
Proof.
  intros H Hroom. unfold luaS_newlstr. destruct (home_chain g ls (str_hash str) H) as (b & l & -> & Hb & Hl & Hch & Hi).
  rewrite bind_Ok. destruct (find_str_ok (sg_mem g) str (chain_fuel g) l b Hch (chain_bound g ls _ l H Hl)) as (r & -> & Hr).
  rewrite bind_Ok. destruct r as [c|].
  - destruct Hr as (t & Hcl & Hc & Hstr). unfold load_ts. rewrite Hc. cbn [of_option]. rewrite bind_Ok.
    destruct (iv_string _ _ H c t Hc) as [_ Hm].
    destruct (mark_facts (currentwhite g) (ts_marked t) (iv_white _ _ H) Hm) as (Hflip & _).
    assert (forall q u, sg_mem g !! q = Some u -> ts_str u = str -> q = c) as Huniq
      by (intros q u Hq Hqs; apply (iv_unique _ _ H q c u t); congruence).
    destruct (isdead g t) eqn:Hd.
    + destruct (Hflip Hd) as (Hm' & Hd' & Hfx). eexists (Some c), _, ls. split; [reflexivity|].
      split; [by apply strings_inv_mark|]. split; [done|]. cbn [set_strings sg_mem]. split; [|split; [|split]].
      * intros q u Hq. destruct (decide (q = c)) as [->|Hne].
        -- rewrite lookup_insert_eq. simplify_eq. eexists. split; [reflexivity|]. by split.
        -- rewrite lookup_insert_ne by done. by exists u.
      * intros q. destruct (decide (q = c)) as [->|Hne]; [left; eauto|]. rewrite lookup_insert_ne by done. by left.
      * intros p [= <-]. rewrite lookup_insert_eq. eexists. split; [reflexivity|]. done.
      * eauto.
    + eexists (Some c), g, ls. split; [reflexivity|]. split; [done|]. split; [done|]. split; [|split; [by left|split]].
      * intros q u Hq. by exists u.
      * intros p [= <-]. by exists t.
      * eauto.
  - assert (forall p t, sg_mem g !! p = Some t -> ts_str t <> str) as Hnew.
    { intros p t Hp Hs. assert (p ∈ concat ls) as Hin by (apply (iv_all _ _ H); eauto).
      apply elem_of_concat in Hin as (j & k & Hj & Hpk).
      assert (Z.of_nat j = lmod (ts_hash t) (st_size (strt g))) as Hjh by (by apply (tb_home _ _ _ (iv_table _ _ H) j k p t)).
      rewrite (proj1 (iv_string _ _ H p t Hp)), Hs, <- Hi in Hjh. apply Nat2Z.inj in Hjh. subst j.
      rewrite Hl in Hj. injection Hj as <-. by apply (Hr p t). }
    destruct (newlstr_ok alloc alloc_table str g ls H Hnew Hroom) as (r & g' & ls' & -> & H' & [F Hold Honly Hres] & Htot).
    exists r, g', ls'. split; [done|]. split; [done|]. split; [done|]. pose proof F as [_ Fw _]. split; [|split; [done|split; [|done]]].
    + intros q u Hq. specialize (Hold q ltac:(eauto)). rewrite Hq in Hold. apply fmap_Some in Hold as (u' & Hu' & [= Hm _ Hst]).
      exists u'. split; [done|]. split; [split; congruence|]. unfold isdead, otherwhite. by rewrite Fw, Hm.
    + intros p Hp. destruct (Hres p Hp) as [-> Hb']. apply fmap_Some in Hb' as (t & Ht & [= Hm _ Hst]). exists t. split; [done|].
      split; [done|]. split; [|intros q u Hq Hqs; by destruct (Hnew q u Hq)].
      unfold isdead, otherwhite. rewrite Fw, <- Hm. unfold luaC_white. by destruct (iv_white _ _ H) as [-> | ->].
Qed.

(** * Sweeping *)

Lemma chains_update M M' h ls i b l : Forall2 (chain M) h ls -> (i < length ls)%nat ->
  (forall j x k, j <> i -> ls !! j = Some k -> chain M x k -> chain M' x k) -> chain M' b l ->
  Forall2 (chain M') (<[i := b]> h) (<[i := l]> ls).
Proof.
  intros Hch Hi Hfr Hl. pose proof (Forall2_length _ _ _ Hch) as Hlen. apply Forall2_same_length_lookup.
  split; [by rewrite !length_insert|]. intros j x y Hx Hy. destruct (decide (j = i)) as [->|Hne].
  - rewrite list_lookup_insert_eq in Hx by lia. rewrite list_lookup_insert_eq in Hy by lia. by simplify_eq.
  - rewrite list_lookup_insert_ne in Hx by done. rewrite list_lookup_insert_ne in Hy by done. apply (Hfr j); [done|done|]. by eapply Forall2_lookup_lr.
Qed.

(** The link that holds the rest of a chain, after [pre]. *)
Definition place_of (i : nat) (pre : list Z) : link :=
  match last pre with None => AtBucket (Z.of_nat i) | Some c => AtNext c end.

Lemma chain_snoc M b pre c l : chain M b ((pre ++ [c]) ++ l) -> exists t, M !! c = Some t /\ chain M (ts_next t) l.
Proof.
  revert b. induction pre as [|d pre IH]; intros b Hch; cbn in Hch.
  - apply chain_inv_cons in Hch as (t & _ & Hc & Hl). eauto.
  - apply chain_inv_cons in Hch as (t & _ & _ & Hl). by apply (IH (ts_next t)).
Qed.

Lemma inv_chain g ls i l : strings_inv g ls -> ls !! i = Some l ->
  exists b, st_hash (strt g) !! i = Some b /\ bucket (st_hash (strt g)) (Z.of_nat i) = Ok b /\ chain (sg_mem g) b l.
Proof.
  intros H Hi. destruct (Forall2_lookup_r _ _ _ _ _ (tb_chains _ _ _ (iv_table _ _ H)) Hi) as (b & Hb & Hch).
  exists b. split; [done|]. split; [|done]. unfold bucket. rewrite (proj2 (Z.leb_le 0 (Z.of_nat i))) by lia. cbn.
  by rewrite Nat2Z.id, Hb.
Qed.

Lemma read_place_ok g ls i pre l : strings_inv g ls -> ls !! i = Some (pre ++ l) ->
  exists b, read_place (place_of i pre) g = Ok b /\ chain (sg_mem g) b l.
Proof.
  intros H Hi. destruct (inv_chain g ls i _ H Hi) as (b & _ & Hb & Hch). unfold place_of.
  destruct pre as [|c pre _] using rev_ind; cbn [last]; [by exists b|]. rewrite last_snoc. cbn [read_place].
  destruct (chain_snoc _ _ _ _ _ Hch) as (t & Hc & Hl). exists (ts_next t). unfold load_ts. by rewrite Hc.
Qed.

(** A string taken out of its chain. *)
Lemma chain_unlink M b pre c0 c t0 t l : chain M b ((pre ++ [c0]) ++ c :: l) -> NoDup ((pre ++ [c0]) ++ c :: l) ->
  M !! c0 = Some t0 -> M !! c = Some t ->
  chain (delete c (<[c0 := with_next (ts_next t) t0]> M)) b ((pre ++ [c0]) ++ l).
Proof.
  revert b. induction pre as [|d pre IH]; intros b Hch Hnd Hc0 Hc; cbn in *.
  - apply chain_inv_cons in Hch as (t0' & -> & Hc0' & Hch). simplify_eq. apply chain_inv_cons in Hch as (t' & _ & Hc' & Hch).
    simplify_eq. apply NoDup_cons in Hnd as [Hn0 Hnd]. apply NoDup_cons in Hnd as [Hn Hnd].
    apply (chain_cons _ _ (with_next (ts_next t') t0')); [rewrite lookup_delete_ne by set_solver; apply lookup_insert_eq|].
    cbn. apply chain_delete; [|done]. apply chain_insert; [done|set_solver].
  - apply chain_inv_cons in Hch as (u & -> & Hd & Hch). apply NoDup_cons in Hnd as [Hn Hnd].
    apply (chain_cons _ _ u); [|by apply IH]. rewrite lookup_delete_ne, lookup_insert_ne by set_solver. done.
Qed.

Definition unlinked (g : strings) (i : nat) (pre : list Z) (c : Z) (t : TString) (g1 : strings) : Prop :=
  match last pre with
  | None => g1 = set_strt (mkStrt (<[i := ts_next t]> (st_hash (strt g))) (st_nuse (strt g))) g
  | Some c0 => exists t0, sg_mem g !! c0 = Some t0 /\ g1 = set_strings <[c0 := with_next (ts_next t) t0]> g
  end.

Lemma write_place_ok g ls i pre c l t : strings_inv g ls -> ls !! i = Some (pre ++ c :: l) ->
  exists g1, write_place (place_of i pre) (ts_next t) g = Ok g1 /\ unlinked g i pre c t g1.
Proof.
  intros H Hi. destruct (inv_chain g ls i _ H Hi) as (b & _ & Hb & Hch). unfold place_of, unlinked.
  destruct pre as [|c0 pre _] using rev_ind; cbn [last].
  - cbn [write_place]. rewrite Hb, bind_Ok, Nat2Z.id. eauto.
  - rewrite last_snoc. cbn [write_place]. destruct (chain_snoc _ _ _ _ _ Hch) as (t0 & Hc0 & _).
    unfold load_ts. rewrite Hc0. cbn [of_option]. rewrite bind_Ok. eauto.
Qed.

Lemma unlinked_chain g ls i pre c l t g1 : strings_inv g ls -> ls !! i = Some (pre ++ c :: l) -> sg_mem g !! c = Some t ->
  unlinked g i pre c t g1 ->
  tabled (delete c (sg_mem g1)) (st_hash (strt g1)) (<[i := pre ++ l]> ls) /\ blen (st_hash (strt g1)) = blen (st_hash (strt g)) /\
  same_bodies (sg_mem g) (sg_mem g1) /\ st_nuse (strt g1) = st_nuse (strt g) /\ sg_fresh g1 = sg_fresh g /\ strings_frame g g1.
Proof.
  intros H Hi Hc Hun. pose proof (iv_table _ _ H) as [Hch Hhome Hnd]. destruct (inv_chain g ls i _ H Hi) as (b & Hb & _ & Hchi).
  assert (concat ls ≡ₚ c :: concat (<[i := pre ++ l]> ls)) as Hperm.
  { rewrite <- (list_insert_id ls i _ Hi) at 1. rewrite <- (list_insert_insert_eq ls i (pre ++ c :: l) (pre ++ l)).
    apply (concat_insert_perm (<[i := pre ++ l]> ls) i (pre ++ l) (pre ++ c :: l) [c]); [|symmetry; exact (Permutation_middle pre l c)].
    apply list_lookup_insert_eq. by eapply lookup_lt_Some. }
  pose proof (nodup_concat_lookup ls i _ Hnd Hi) as Hndi.
  assert (forall j k, j <> i -> ls !! j = Some k -> forall d, d ∈ pre ++ c :: l -> d ∉ k) as Hdis.
  { intros j k Hj Hk d Hd Hdk. apply Hj. by apply (nodup_concat_disjoint ls j i k (pre ++ c :: l) d). }
  assert (NoDup (concat (<[i := pre ++ l]> ls))) as Hnd' by (rewrite Hperm in Hnd; by apply NoDup_cons in Hnd as [_ ?]).
  assert (forall M, same_bodies (sg_mem g) M -> forall j k d u, <[i := pre ++ l]> ls !! j = Some k -> d ∈ k ->
    delete c M !! d = Some u -> Z.of_nat j = lmod (ts_hash u) (blen (st_hash (strt g)))) as Hhome'.
  { intros M HM j k d u Hj Hd [_ Hu]%lookup_delete_Some. destruct (same_bodies_lookup _ _ _ _ HM Hu) as (v & Hv & [= _ -> _]).
    destruct (decide (j = i)) as [->|Hji].
    - rewrite list_lookup_insert_eq in Hj by (by eapply lookup_lt_Some). injection Hj as <-.
      apply (Hhome i (pre ++ c :: l) d v); [done|set_solver|done].
    - rewrite list_lookup_insert_ne in Hj by done. by apply (Hhome j k d v). }
  unfold unlinked in Hun. destruct pre as [|c0 pre _] using rev_ind; cbn [last] in Hun.
  - subst g1. cbn [set_strt strt st_hash sg_mem st_nuse sg_fresh]. cbn [app] in *.
    apply chain_inv_cons in Hchi as (t' & _ & Hc' & Hl). simplify_eq.
    split; [split|split; [unfold blen; by rewrite length_insert|done]].
    + apply (chains_update (sg_mem g)); [done|by eapply lookup_lt_Some| |].
      * intros j x k Hj Hk Hx. apply chain_delete; [done|]. apply (Hdis j k Hj Hk). left.
      * apply chain_delete; [done|]. by apply NoDup_cons in Hndi as [? _].
    + unfold blen. rewrite length_insert. by apply Hhome'.
    + done.
  - rewrite last_snoc in Hun. destruct Hun as (t0 & Hc0 & ->). cbn [set_strings strt st_hash sg_mem st_nuse sg_fresh].
    assert (same_bodies (sg_mem g) (<[c0 := with_next (ts_next t) t0]> (sg_mem g))) as Hsb.
    { intros q. destruct (decide (q = c0)) as [->|Hne]; [by rewrite lookup_insert_eq, Hc0|by rewrite lookup_insert_ne]. }
    split; [split|done].
    + rewrite <- (list_insert_id _ _ _ Hb). apply (chains_update (sg_mem g)); [done|by eapply lookup_lt_Some| |].
      * intros j x k Hj Hk Hx. apply chain_delete; [apply chain_insert; [done|]|]; apply (Hdis j k Hj Hk); set_solver.
      * by apply chain_unlink.
    + by apply Hhome'.
    + done.
Qed.

Lemma free_ok g ls i pre c l t g1 : strings_inv g ls -> ls !! i = Some (pre ++ c :: l) -> sg_mem g !! c = Some t ->
  unlinked g i pre c t g1 ->
  strings_inv (free_string c g1) (<[i := pre ++ l]> ls) /\ strings_frame g (free_string c g1) /\
  sg_fresh (free_string c g1) = sg_fresh g /\ same_bodies (delete c (sg_mem g)) (sg_mem (free_string c g1)).
Proof.
  intros H Hi Hc Hun. destruct (unlinked_chain g ls i pre c l t g1 H Hi Hc Hun) as (Ht & Hlen & Hsb & Hn & Hfr & [F1 F2 F3]).
  pose proof H as [_ Ha Hs Hnu Hst Hu Hf Hw Hsw].
  assert (same_bodies (delete c (sg_mem g)) (delete c (sg_mem g1))) as Hsb'.
  { intros q. destruct (decide (q = c)) as [->|Hne]; [by rewrite !lookup_delete_eq|]. rewrite !lookup_delete_ne by done. apply Hsb. }
  assert (forall q u, delete c (sg_mem g1) !! q = Some u -> exists v, sg_mem g !! q = Some v /\ body u = body v) as Hlook.
  { intros q u Hq. destruct (same_bodies_lookup _ _ _ _ Hsb' Hq) as (v & [_ Hv]%lookup_delete_Some & Hb). eauto. }
  assert (size (delete c (sg_mem g1)) = (size (sg_mem g) - 1)%nat) as Hsz.
  { rewrite (same_bodies_dom _ _ Hsb'). rewrite map_size_delete, Hc. lia. }
  assert (0 < size (sg_mem g))%nat as Hpos. { rewrite (strings_count g ls H). assert (c ∈ concat ls) as Hin by (apply Ha; eauto).
    destruct (concat ls); [by apply elem_of_nil in Hin|cbn; lia]. }
  split; [|split; [done|split; [done|done]]].
  split; cbn [free_string set_strt set_strings sg_mem strt st_hash st_nuse sg_fresh currentwhite gcstate sweepstrgc]; unfold st_size;
    cbn [st_hash]; rewrite ?F1, ?F2, ?F3, ?Hfr, ?Hlen; try done.
  - intros p. rewrite (same_bodies_is_Some _ _ p Hsb'). split.
    + intros Hp. assert (p ∈ concat ls /\ p <> c) as [Hp1 Hp2].
      { apply elem_of_concat in Hp as (j & k & Hj & Hk). destruct (decide (j = i)) as [->|Hji].
        - rewrite list_lookup_insert_eq in Hj by (by eapply lookup_lt_Some). injection Hj as <-. split.
          + apply elem_of_concat. exists i, (pre ++ c :: l). split; [done|set_solver].
          + intros ->. pose proof (nodup_concat_lookup ls i _ (tb_once _ _ _ (iv_table _ _ H)) Hi) as Hnd.
            rewrite <- (Permutation_middle pre l c) in Hnd. by apply NoDup_cons in Hnd as [? _].
        - rewrite list_lookup_insert_ne in Hj by done. split; [apply elem_of_concat; eauto|]. intros ->.
          apply Hji. apply (nodup_concat_disjoint ls j i k (pre ++ c :: l) c); [apply (iv_table _ _ H)|done|done|done|set_solver]. }
      rewrite lookup_delete_ne by done. by apply Ha.
    + intros [u [Hne Hp]%lookup_delete_Some]. assert (p ∈ concat ls) as Hin by (apply Ha; eauto).
      apply elem_of_concat in Hin as (j & k & Hj & Hk). apply elem_of_concat. destruct (decide (j = i)) as [->|Hji].
      * exists i, (pre ++ l). split; [apply list_lookup_insert_eq; by eapply lookup_lt_Some|]. simplify_eq. set_solver.
      * exists j, k. by rewrite list_lookup_insert_ne.
  - rewrite Hn, Hsz, (proj1 Hnu). destruct Hnu as [_ Hb]. rewrite uwrap32_small by lia. lia.
  - intros p u Hp. destruct (Hlook p u Hp) as (v & Hv & [= -> -> ->]). by apply (Hst p).
  - intros p q u v Hp Hq. destruct (Hlook p u Hp) as (u0 & Hu0 & [= _ _ ->]).
    destruct (Hlook q v Hq) as (v0 & Hv0 & [= _ _ ->]). by apply Hu.
  - intros p [u Hp]. destruct (Hlook p u Hp) as (v & Hv & _). eauto.
Qed.

(** What sweeping a chain from a link on does: strings that are dead and not
    fixed go, the others get the current white. *)
Record swept (l : list Z) (g g' : strings) : Prop := {
  sw_frame : strings_frame g g' /\ sg_fresh g' = sg_fresh g;
  sw_other : forall q, q ∉ l -> body <$> sg_mem g' !! q = body <$> sg_mem g !! q;
  sw_listed : forall q u, q ∈ l -> sg_mem g !! q = Some u ->
    if kept_mark (currentwhite g) (ts_marked u)
    then exists u', sg_mem g' !! q = Some u' /\ same_string u u' /\ isdead g' u' = false
    else sg_mem g' !! q = None
}.

Lemma sweeplist_ok i l : forall fuel pre g ls, strings_inv g ls -> ls !! i = Some (pre ++ l) -> (length l < fuel)%nat ->
  exists g' l', sweeplist fuel (place_of i pre) g = Ok g' /\ strings_inv g' (<[i := pre ++ l']> ls) /\ swept l g g'.
Proof.
  induction l as [|c l IH]; intros fuel pre g ls H Hi Hf; (destruct fuel as [|fuel]; [cbn in Hf; lia|]); cbn [sweeplist];
    destruct (read_place_ok g ls i pre _ H Hi) as (b & -> & Hch); rewrite bind_Ok.
  { inversion Hch; subst. exists g, []. split; [done|]. split; [by rewrite list_insert_id|].
    split; [done|done|]. intros q u Hq. by apply elem_of_nil in Hq. }
  apply chain_inv_cons in Hch as (t & -> & Hc & Hl). unfold load_ts. rewrite Hc. cbn [of_option]. rewrite bind_Ok.
  pose proof (nodup_concat_lookup ls i _ (tb_once _ _ _ (iv_table _ _ H)) Hi) as Hnd.
  rewrite <- (Permutation_middle pre l c) in Hnd. apply NoDup_cons in Hnd as [Hcn _].
  destruct (iv_string _ _ H c t Hc) as [_ Hm]. destruct (mark_facts (currentwhite g) _ (iv_white _ _ H) Hm) as (_ & _ & (Hm' & Hd' & Hfx) & _).
  change (negb _) with (kept_mark (currentwhite g) (ts_marked t)). destruct (kept_mark (currentwhite g) (ts_marked t)) eqn:Hk.
  - set (g1 := set_strings _ g). assert (strings_inv g1 ls) as H1 by (by apply strings_inv_mark).
    replace (AtNext c) with (place_of i (pre ++ [c])) by (unfold place_of; by rewrite last_snoc).
    destruct (IH fuel (pre ++ [c]) g1 ls H1) as (g' & l' & -> & H' & [[F Fr] Ho Hli]); [by rewrite <- app_assoc|cbn in Hf; lia|].
    exists g', (c :: l'). split; [done|]. split; [by rewrite <- app_assoc in H'|]. pose proof F as [F1 F2 F3].
    assert (forall q, q <> c -> sg_mem g1 !! q = sg_mem g !! q) as Hne by (intros q Hq; cbn; by rewrite lookup_insert_ne).
    split; [done| |].
    + intros q Hq. rewrite Ho by set_solver. rewrite Hne; [done|set_solver].
    + intros q u Hq Hu. destruct (decide (q = c)) as [->|Hqc].
      * simplify_eq. rewrite Hk. specialize (Ho c ltac:(set_solver)). cbn [g1 set_strings sg_mem] in Ho.
        rewrite lookup_insert_eq in Ho. apply fmap_Some in Ho as (u' & Hu' & [= Hmk _ Hs]). exists u'. split; [done|].
        split; [split; [done|by rewrite <- Hmk]|]. unfold isdead, otherwhite. rewrite F2, <- Hmk. exact Hd'.
      * apply Hli; [set_solver|]. by rewrite Hne.
  - destruct (write_place_ok g ls i pre c l t H Hi) as (g1 & -> & Hun). rewrite bind_Ok.
    destruct (free_ok g ls i pre c l t g1 H Hi Hc Hun) as (H1 & [F1 F2 F3] & Hfr & Hsb).
    destruct (IH fuel pre (free_string c g1) _ H1) as (g' & l' & -> & H' & [[[F1' F2' F3'] Fr] Ho Hli]);
      [apply list_lookup_insert_eq; by eapply lookup_lt_Some|cbn in Hf; lia|].
    exists g', l'. split; [done|]. split; [by rewrite list_insert_insert_eq in H'|].
    assert (forall q, q <> c -> body <$> sg_mem (free_string c g1) !! q = body <$> sg_mem g !! q) as Hne
      by (intros q Hq; rewrite Hsb; by rewrite lookup_delete_ne).
    split; [split; [split|]; congruence| |].
    + intros q Hq. rewrite Ho by set_solver. apply Hne. set_solver.
    + intros q u Hq Hu. destruct (decide (q = c)) as [->|Hqc].
      * simplify_eq. rewrite Hk. specialize (Ho c ltac:(set_solver)). rewrite Hsb, lookup_delete_eq in Ho.
        by destruct (sg_mem g' !! c).
      * specialize (Hne q Hqc). rewrite Hu in Hne. apply fmap_Some in Hne as (u1 & Hu1 & [= Hmk _ Hs]).
        specialize (Hli q u1 ltac:(set_solver) Hu1). unfold same_string in *. rewrite F2, <- Hmk, <- Hs in Hli. exact Hli.
Qed.
