(* ===== verification/StringProps.v ===== *)
(** Strings over the life of a state: the program makes strings while the
    collector marks, sweeps and resizes. *)
From stdpp Require Import relations.
From S2P Require Import Prelude.
From S2P Require Import LuaApi LuaTable LuaString StringCorrect.
Import Table.

(** The strings of a new state: [lua_newstate] and the first [luaS_resize] of
    [f_luaopen]. *)
Definition first_strings : strings := mkStrings ∅ 0 (mkStrt [] 0) GCSpause 33 0.

(** The calls, with the answers of the allocator; marking and the other phases
    are the collector's decisions. *)
Inductive str_op : Type :=
| SNew (alloc alloc_table : bool) (str : list byte)
| SMark (p : Z)
| SFix (p : Z)
| SFlip
| SSweep
| SCheck (alloc : bool)
| SRestart
| SPhase (s : gc_state).

Definition set_phase (s : gc_state) (g : strings) : strings :=
  mkStrings (sg_mem g) (sg_fresh g) (strt g) s (currentwhite g) (sweepstrgc g).

Definition run_str_op (op : str_op) (g : strings) : cres strings :=
  match op with
  | SNew alloc alloc_table str => '(_, g) ← luaS_newlstr alloc alloc_table str g; Ok g
  | SMark p => stringmark p g
  | SFix p => luaS_fix p g
  | SFlip => Ok (flip_white g)
  | SSweep => sweep_step g
  | SCheck alloc => '(_, g) ← check_sizes alloc g; Ok g
  | SRestart => Ok (restart_sweep g)
  | SPhase s => Ok (set_phase s g)
  end.

(** When they happen: there are fewer strings than an [lu_int32] counts, strings
    that exist are marked, the white is flipped at the end of marking, sweeping
    goes on until the last chain. *)
Definition enabled_str (op : str_op) (g : strings) : Prop :=
  match op with
  | SNew _ _ _ => Z.of_nat (size (sg_mem g)) + 1 < 2 ^ 32
  | SMark p | SFix p => is_Some (sg_mem g !! p)
  | SFlip => gcstate g = GCSpropagate
  | SSweep => gcstate g = GCSsweepstring
  | SCheck _ => gcstate g = GCSsweep
  | SRestart => True
  | SPhase s => gcstate g <> GCSsweepstring /\ s <> GCSsweepstring
  end.

Definition str_step (g g' : strings) : Prop := exists op, enabled_str op g /\ run_str_op op g = Ok g'.

Definition strings_ok (g : strings) : Prop := exists ls, strings_inv g ls.

Definition fixed (t : TString) : Prop := Z.land (ts_marked t) FIXEDMASK <> 0.

(** Strings that are not dead stay so, fixed strings stay, with their characters. *)
Definition preserves (g g' : strings) : Prop := forall p t, sg_mem g !! p = Some t -> isdead g t = false \/ fixed t ->
  exists t', sg_mem g' !! p = Some t' /\ ts_str t' = ts_str t /\ (isdead g t = false -> isdead g' t' = false) /\ (fixed t -> fixed t').

Lemma first_strings_ok g : luaS_resize true MINSTRTABSIZE first_strings = Ok (true, g) -> strings_ok g.
Proof.
  intros [= <-]. exists (replicate 32 []). split; cbn.
  - apply (tabled_empty ∅ 32).
  - intros p. rewrite lookup_empty. split; [intros Hp; set_solver|by intros []].
  - exists 5. done.
  - done.
  - by intros p t [=].
  - by intros p q t u [=].
  - by intros p [t [=]].
  - by left.
  - done.
Qed.

Lemma isdead_same g g' t t' : currentwhite g' = currentwhite g -> ts_marked t' = ts_marked t -> isdead g' t' = isdead g t.
Proof. unfold isdead, otherwhite. by intros -> ->. Qed.

Lemma bodies_preserve g g' : same_bodies (sg_mem g) (sg_mem g') -> currentwhite g' = currentwhite g -> preserves g g'.
Proof.
  intros Hb Hw p t Hp _. specialize (Hb p). rewrite Hp in Hb. apply fmap_Some in Hb as (t' & Ht' & [= Hm _ Hs]).
  exists t'. rewrite (isdead_same g g' t t') by done. unfold fixed. rewrite Hm. done.
Qed.

(** The collector's members do not matter for the table, and sweeping does not
    look at the phase. *)
Definition collecting (s : gc_state) (w i : Z) (g : strings) : strings :=
  mkStrings (sg_mem g) (sg_fresh g) (strt g) s w i.

#[local] Abbreviation retimed s i g := (collecting s (currentwhite g) i g).

Lemma write_place_collecting s w i p v g :
  write_place p v (collecting s w i g) = (g' ← write_place p v g; Ok (collecting s w i g')).
Proof.
  destruct p as [j|c]; cbn [write_place collecting strt sg_mem].
  - by destruct (bucket _ _).
  - by destruct (load_ts _ _).
Qed.

Lemma sweeplist_collecting s w i fuel : forall p g, currentwhite g = w ->
  sweeplist fuel p (collecting s w i g) = (g' ← sweeplist fuel p g; Ok (collecting s w i g')).
Proof.
  induction fuel as [|fuel IH]; intros p g <-; [done|]. cbn [sweeplist].
  change (read_place p (retimed s i g)) with (read_place p g). destruct (read_place p g) as [[c|]|]; [|done|done].
  rewrite !bind_Ok. change (sg_mem (retimed s i g)) with (sg_mem g). destruct (load_ts (sg_mem g) c) as [t|]; [|done].
  rewrite !bind_Ok. change (otherwhite (retimed s i g)) with (otherwhite g). destruct (negb _).
  - by rewrite <- IH.
  - rewrite write_place_collecting. destruct (write_place p (ts_next t) g) as [g1|] eqn:Hw; [|done]. rewrite !bind_Ok, <- IH; [done|].
    destruct p; cbn in Hw; [destruct (bucket _ _)|destruct (load_ts _ _)]; try done; by injection Hw as <-.
Qed.

(** The chain a string is in. *)
Definition home (g : strings) (t : TString) : Z := lmod (str_hash (ts_str t)) (st_size (strt g)).

Lemma home_iff g ls i l p t : strings_inv g ls -> ls !! i = Some l -> sg_mem g !! p = Some t ->
  p ∈ l <-> home g t = Z.of_nat i.
Proof.
  intros H Hi Hp. assert (forall j k, ls !! j = Some k -> p ∈ k -> Z.of_nat j = home g t) as Hh.
  { intros j k Hj Hk. unfold home. rewrite <- (proj1 (iv_string _ _ H p t Hp)). by apply (tb_home _ _ _ (iv_table _ _ H) j k p t). }
  split; [intros Hl; symmetry; by apply (Hh i l)|]. intros Heq. assert (p ∈ concat ls) as Hin by (apply (iv_all _ _ H); eauto).
  apply elem_of_concat in Hin as (j & k & Hj & Hk). specialize (Hh j k Hj Hk). rewrite Heq in Hh. apply Nat2Z.inj in Hh. by simplify_eq.
Qed.

(** What becomes of a string when its chain is swept. *)
Definition judged (g g' : strings) (p : Z) (t : TString) : Prop :=
  if kept_mark (currentwhite g) (ts_marked t)
  then exists t', sg_mem g' !! p = Some t' /\ same_string t t' /\ isdead g' t' = false
  else sg_mem g' !! p = None.

(** One step of sweeping: the chain whose turn it is. *)
Record sweep_stepped (g g' : strings) : Prop := {
  ss_white : currentwhite g' = currentwhite g;
  ss_size : st_size (strt g') = st_size (strt g);
  ss_next : sweepstrgc g' = sweepstrgc g + 1;
  ss_state : gcstate g' = if sweepstrgc g + 1 >=? st_size (strt g) then GCSsweep else GCSsweepstring;
  ss_none : forall p, is_Some (sg_mem g' !! p) -> is_Some (sg_mem g !! p);
  ss_other : forall p t, sg_mem g !! p = Some t -> home g t <> sweepstrgc g -> body <$> sg_mem g' !! p = Some (body t);
  ss_swept : forall p t, sg_mem g !! p = Some t -> home g t = sweepstrgc g -> judged g g' p t
}.

Lemma sweep_step_ok g : strings_ok g -> gcstate g = GCSsweepstring ->
  exists g', sweep_step g = Ok g' /\ strings_ok g' /\ sweep_stepped g g'.
Proof.
  intros [ls H] Hgc. pose proof (iv_sweep _ _ H Hgc) as Hi. unfold sweep_step. set (i := Z.to_nat (sweepstrgc g)).
  assert (sweepstrgc g = Z.of_nat i) as Hin by (unfold i; lia).
  pose proof (Forall2_length _ _ _ (tb_chains _ _ _ (iv_table _ _ H))) as Hlen.
  destruct (lookup_lt_is_Some_2 ls i) as [l Hl]; [unfold st_size, blen in Hi; lia|].
  set (g0 := retimed GCSpause 0 g). assert (strings_inv g0 ls) as H0 by (destruct H; by split).
  destruct (sweeplist_ok i l (chain_fuel g) [] g0 ls H0 Hl (chain_bound g ls i l H Hl)) as (g1 & l' & Hrun & H1 & [[[_ Fw _] _] Ho Hli]).
  assert (st_size (strt g1) = st_size (strt g)) as Hsz.
  { pose proof (Forall2_length _ _ _ (tb_chains _ _ _ (iv_table _ _ H1))) as Hl1. rewrite length_insert in Hl1.
    unfold st_size, blen. congruence. }
  change (mkStrings (sg_mem g) _ _ _ _ (sweepstrgc g + 1)) with (retimed (gcstate g) (sweepstrgc g + 1) g0).
  change (place_of i []) with (AtBucket (Z.of_nat i)) in Hrun. cbn zeta.
  assert (AtBucket (sweepstrgc g) = AtBucket (Z.of_nat i)) as -> by (by rewrite <- Hin). change (currentwhite g) with (currentwhite g0).
  rewrite sweeplist_collecting, Hrun, !bind_Ok, <- Fw by done.
  cbn [collecting sweepstrgc strt]. rewrite Hsz. eexists. split; [reflexivity|].
  assert (forall s, (s = GCSsweepstring -> sweepstrgc g + 1 < st_size (strt g)) -> strings_ok (retimed s (sweepstrgc g + 1) g1)) as Hre.
  { intros s Hs. exists (<[i := l']> ls). destruct H1. split; try done. cbn. intros Hss. rewrite Hsz. specialize (Hs Hss). lia. }
  assert (forall s, s = (if sweepstrgc g + 1 >=? st_size (strt g) then GCSsweep else GCSsweepstring) ->
    strings_ok (retimed s (sweepstrgc g + 1) g1) /\ sweep_stepped g (retimed s (sweepstrgc g + 1) g1)) as Hend.
  { intros s Hs. split; [|split; try done].
    - apply Hre. intros ->. destruct (Z.geb_spec (sweepstrgc g + 1) (st_size (strt g))); [done|lia].
    - intros p Hp. destruct (decide (p ∈ l)) as [Hpl|Hpl].
      + apply (iv_all _ _ H), elem_of_concat. eauto.
      + specialize (Ho p Hpl). destruct Hp as [u Hp]. cbn in Hp. rewrite Hp in Ho. symmetry in Ho.
        apply fmap_Some in Ho as (v & Hv & _). eauto.
    - intros p t Hp Hh. cbn. rewrite Ho; [cbn; by rewrite Hp|]. rewrite (home_iff g ls i l p t H Hl Hp). lia.
    - intros p t Hp Hh. apply (Hli p t); [|done]. apply (home_iff g ls i l p t H Hl Hp). lia. }
  destruct (_ >=? _); [by apply (Hend GCSsweep)|]. rewrite Hgc. by apply (Hend GCSsweepstring).
Qed.

(** The string phase of a collection: steps while there are chains to sweep. *)
Fixpoint sweep_strings (fuel : nat) (g : strings) : cres strings :=
  if decide (gcstate g = GCSsweepstring) then
    match fuel with O => UB Diverges | S fuel => g ← sweep_step g; sweep_strings fuel g end
  else Ok g.

Record all_swept (g g' : strings) : Prop := {
  as_state : gcstate g' = GCSsweep;
  as_white : currentwhite g' = currentwhite g;
  as_none : forall p, is_Some (sg_mem g' !! p) -> is_Some (sg_mem g !! p);
  as_done : forall p t, sg_mem g !! p = Some t -> home g t < sweepstrgc g -> body <$> sg_mem g' !! p = Some (body t);
  as_swept : forall p t, sg_mem g !! p = Some t -> sweepstrgc g <= home g t -> judged g g' p t
}.

Lemma judged_done g g1 g' p t : judged g g1 p t -> currentwhite g' = currentwhite g1 ->
  (forall p, is_Some (sg_mem g' !! p) -> is_Some (sg_mem g1 !! p)) ->
  (forall t1, sg_mem g1 !! p = Some t1 -> ts_str t1 = ts_str t -> body <$> sg_mem g' !! p = Some (body t1)) -> judged g g' p t.
Proof.
  unfold judged. intros Hj Hw Hn Hd. destruct (kept_mark _ _).
  - destruct Hj as (t1 & H1 & Hs & Hdead). specialize (Hd t1 H1 (proj1 Hs)). apply fmap_Some in Hd as (t' & Ht' & [= Hm _ Hst]).
    exists t'. split; [done|]. split; [unfold same_string in *; by rewrite <- Hm, <- Hst|].
    by rewrite (isdead_same g1 g' t1 t').
  - destruct (sg_mem g' !! p) eqn:Hp; [|done]. destruct (Hn p) as [x Hx]; [eauto|]. congruence.
Qed.

Lemma judged_later g g1 g' p t t1 : body t1 = body t -> currentwhite g1 = currentwhite g -> judged g1 g' p t1 -> judged g g' p t.
Proof. unfold judged, same_string. intros [= -> _ ->] ->. done. Qed.

Lemma home_range g t : strings_ok g -> 0 <= home g t < st_size (strt g).
Proof. intros [ls H]. destruct (iv_size _ _ H) as (k & Hk & Hs). unfold home. rewrite Hs. apply lmod_range. lia. Qed.

Lemma sweep_strings_ok n : forall g, strings_ok g -> gcstate g = GCSsweepstring -> st_size (strt g) - sweepstrgc g <= Z.of_nat n ->
  exists g', sweep_strings n g = Ok g' /\ strings_ok g' /\ all_swept g g'.
Proof.
  induction n as [|n IH]; intros g H Hgc Hn.
  { destruct H as [ls H]. pose proof (iv_sweep _ _ H Hgc). lia. }
  cbn [sweep_strings]. rewrite decide_True by done. destruct (sweep_step_ok g H Hgc) as (g1 & -> & H1 & [Sw Ss Sn Sst Snone So Sj]).
  rewrite bind_Ok. assert (forall t t', ts_str t' = ts_str t -> home g1 t' = home g t) as Hhome by (unfold home; intros t t' ->; by rewrite Ss).
  destruct (Z.geb_spec (sweepstrgc g + 1) (st_size (strt g))) as [Hlast|Hmore].
  - exists g1. split; [destruct n; cbn [sweep_strings]; by rewrite decide_False by (by rewrite Sst)|].
    split; [done|]. split; try done; intros p t Hp Hh.
    + apply (So p); [done|lia].
    + pose proof (home_range g t H). apply Sj; [done|lia].
  - destruct (IH g1 H1 Sst ltac:(lia)) as (g' & -> & H' & [Aw As An Ad Aj]). exists g'. split; [done|]. split; [done|].
    assert (forall p t, sg_mem g !! p = Some t -> home g t <> sweepstrgc g ->
      exists t1, sg_mem g1 !! p = Some t1 /\ body t1 = body t /\ home g1 t1 = home g t) as Hkeep.
    { intros p t Hp Hh. specialize (So p t Hp Hh). apply fmap_Some in So as (t1 & Ht1 & Hb). exists t1. split; [done|].
      split; [done|]. apply Hhome. by injection Hb. }
    split; [done|congruence|eauto| |].
    + intros p t Hp Hh. destruct (Hkeep p t Hp ltac:(lia)) as (t1 & Ht1 & <- & Hh1). apply (Ad p t1); [done|lia].
    + intros p t Hp Hh. destruct (decide (home g t = sweepstrgc g)) as [Heq|Hne].
      * apply (judged_done g g1); [by apply Sj|done|done|]. intros t1 Ht1 Hs. apply (Ad p t1); [done|]. rewrite (Hhome t t1 Hs). lia.
      * destruct (Hkeep p t Hp Hne) as (t1 & Ht1 & Hb & Hh1). apply (judged_later g g1 _ _ _ t1); [done|done|]. apply Aj; [done|lia].
Qed.

(** * One operation *)

(** A string that exists changed in its mark: nothing else is lost. *)
Lemma remark_ok g p t m : strings_ok g -> sg_mem g !! p = Some t -> mark_ok m ->
  (isdead g t = false -> dead_mark (currentwhite g) m = false) -> (fixed t -> Z.land m FIXEDMASK <> 0) ->
  strings_ok (set_strings <[p := with_marked m t]> g) /\ preserves g (set_strings <[p := with_marked m t]> g).
Proof.
  intros [ls H] Hp Hm Hd Hf. split; [exists ls; by apply strings_inv_mark|]. intros q u Hq _. cbn.
  destruct (decide (q = p)) as [->|Hne].
  - rewrite lookup_insert_eq. simplify_eq. eexists. by split.
  - rewrite lookup_insert_ne by done. by exists u.
Qed.

Lemma stringmark_preserves g p : strings_ok g -> is_Some (sg_mem g !! p) ->
  exists g', stringmark p g = Ok g' /\ strings_ok g' /\ preserves g g'.
Proof.
  intros H [t Hp]. unfold stringmark, load_ts. rewrite Hp. cbn [of_option]. rewrite bind_Ok. eexists. split; [reflexivity|].
  pose proof H as [ls Hi]. destruct (iv_string _ _ Hi p t Hp) as [_ Hm].
  destruct (mark_facts (currentwhite g) _ (iv_white _ _ Hi) Hm) as (_ & (H1 & H2 & H3) & _).
  apply remark_ok; try done. unfold fixed. by rewrite H3.
Qed.

Lemma luaS_fix_preserves g p : strings_ok g -> is_Some (sg_mem g !! p) ->
  exists g', luaS_fix p g = Ok g' /\ strings_ok g' /\ preserves g g'.
Proof.
  intros H [t Hp]. unfold luaS_fix, load_ts. rewrite Hp. cbn [of_option]. rewrite bind_Ok. eexists. split; [reflexivity|].
  pose proof H as [ls Hi]. destruct (iv_string _ _ Hi p t Hp) as [_ Hm].
  destruct (mark_facts (currentwhite g) _ (iv_white _ _ Hi) Hm) as (_ & _ & _ & (H1 & H2 & H3) & _).
  apply remark_ok; try done. by rewrite H2.
Qed.

Lemma flip_white_ok g : strings_ok g -> strings_ok (flip_white g).
Proof.
  intros [ls H]. exists ls. destruct (iv_size _ _ H) as (k & Hk & Hs). destruct H. split; try done.
  - cbn. unfold otherwhite. by destruct iv_white as [-> | ->]; [right|left].
  - cbn. intros _. rewrite Hs. pose proof (Z.pow_pos_nonneg 2 k). lia.
Qed.

Lemma restart_sweep_ok g : strings_ok g -> strings_ok (restart_sweep g).
Proof.
  intros [ls H]. exists ls. destruct (iv_size _ _ H) as (k & Hk & Hs). pose proof (Z.pow_pos_nonneg 2 k) as Hp.
  unfold restart_sweep. destruct (gcstate g); try done; destruct H; split; try done; intros _; cbn; lia.
Qed.

Lemma sweep_step_preserves g : strings_ok g -> gcstate g = GCSsweepstring ->
  exists g', sweep_step g = Ok g' /\ strings_ok g' /\ preserves g g'.
Proof.
  intros H Hgc. destruct (sweep_step_ok g H Hgc) as (g' & Hrun & H' & [Sw _ _ _ _ So Sj]). exists g'. split; [done|]. split; [done|].
  intros p t Hp Hsafe. destruct (decide (home g t = sweepstrgc g)) as [Hh|Hh].
  - specialize (Sj p t Hp Hh). unfold judged in Sj. destruct H as [ls H]. destruct (iv_string _ _ H p t Hp) as [_ Hm].
    destruct (mark_facts (currentwhite g) _ (iv_white _ _ H) Hm) as (_ & _ & _ & _ & Hk). rewrite Hk in Sj.
    assert (negb (dead_mark (currentwhite g) (ts_marked t)) || negb (Z.land (ts_marked t) FIXEDMASK =? 0) = true) as Hkept.
    { apply orb_true_iff. destruct Hsafe as [Hd|Hf]; [left|right].
      - change (isdead g t) with (dead_mark (currentwhite g) (ts_marked t)) in Hd. by rewrite Hd.
      - apply negb_true_iff, Z.eqb_neq, Hf. }
    rewrite Hkept in Sj. destruct Sj as (t' & Ht' & [Hs Hfx] & Hd). exists t'. split; [done|]. split; [done|].
    split; [done|]. unfold fixed. by rewrite Hfx.
  - specialize (So p t Hp Hh). apply fmap_Some in So as (t' & Ht' & [= Hm _ Hs]). exists t'. split; [done|]. split; [done|].
    rewrite (isdead_same g g' t t') by done. unfold fixed. by rewrite Hm.
Qed.

Lemma check_sizes_preserves alloc g : strings_ok g -> exists r g', check_sizes alloc g = Ok (r, g') /\ strings_ok g' /\ preserves g g'.
Proof.
  intros [ls H]. unfold check_sizes. case_match eqn:Hbig; [|exists true, g; split; [done|]; split; [by exists ls|by apply bodies_preserve]].
  destruct (iv_size _ _ H) as (k & Hk & Hs). rewrite Hs in Hbig |- *. apply andb_true_iff in Hbig as [_ Hbig].
  rewrite Z.gtb_ltb in Hbig. apply Z.ltb_lt in Hbig. unfold MINSTRTABSIZE in Hbig.
  assert (1 <= k) as Hk1. { destruct (decide (k = 0)) as [->|]; [cbn in Hbig; lia|lia]. }
  replace (2 ^ k / 2) with (2 ^ (k - 1)) by (rewrite Z.pow_sub_r by lia; done).
  destruct (luaS_resize_ok alloc g ls (k - 1) H ltac:(lia)) as (r & g' & ls' & -> & H' & [_ Fw _] & _ & Hb & _).
  exists r, g'. split; [done|]. split; [by exists ls'|by apply bodies_preserve].
Qed.

Lemma str_op_ok op g : strings_ok g -> enabled_str op g ->
  exists g', run_str_op op g = Ok g' /\ strings_ok g' /\ (op <> SFlip -> preserves g g').
Proof.
  intros H Hen. destruct op as [a b str|p|p| | |a| |s]; cbn [run_str_op enabled_str] in *.
  - destruct H as [ls H]. destruct (luaS_newlstr_ok a b str g ls H Hen) as (r & g' & ls' & -> & H' & _ & Hold & _).
    exists g'. split; [done|]. split; [by exists ls'|]. intros _ p t Hp _. destruct (Hold p t Hp) as (t' & Ht' & [Hs Hf] & Hd).
    exists t'. split; [done|]. split; [done|]. split; [done|]. unfold fixed. by rewrite Hf.
  - destruct (stringmark_preserves g p H Hen) as (g' & ? & ? & ?). by exists g'.
  - destruct (luaS_fix_preserves g p H Hen) as (g' & ? & ? & ?). by exists g'.
  - eexists. split; [done|]. split; [by apply flip_white_ok|done].
  - destruct (sweep_step_preserves g H Hen) as (g' & ? & ? & ?). by exists g'.
  - destruct (check_sizes_preserves a g H) as (r & g' & -> & ? & ?). by exists g'.
  - eexists. split; [done|]. split; [by apply restart_sweep_ok|]. intros _. unfold restart_sweep.
    destruct (gcstate g); by apply bodies_preserve.
  - eexists. split; [done|]. split; [|intros _; by apply bodies_preserve].
    destruct H as [ls H]. exists ls. destruct H. split; try done. cbn. intros Hs. by destruct Hen.
Qed.

(** * Whole runs *)

#[export] Instance preserves_refl : Reflexive preserves.
Proof. intros g p t Hp _. by exists t. Qed.

#[export] Instance preserves_trans : Transitive preserves.
Proof.
  intros g1 g2 g3 H12 H23 p t Hp Hsafe. destruct (H12 p t Hp Hsafe) as (t2 & Hp2 & Hs2 & Hd2 & Hf2).
  destruct (H23 p t2 Hp2) as (t3 & Hp3 & Hs3 & Hd3 & Hf3); [tauto|]. exists t3. split; [done|]. split; [congruence|]. tauto.
Qed.

(** States a Lua state's strings can reach. *)
Definition reached (g : strings) : Prop :=
  exists g0, luaS_resize true MINSTRTABSIZE first_strings = Ok (true, g0) /\ rtc str_step g0 g.

Lemma steps_ok g g' : strings_ok g -> rtc str_step g g' -> strings_ok g'.
Proof.
  intros H Hs. revert H. induction Hs as [|g g1 g' (op & Hen & Hrun) _ IH]; intros H; [done|]. apply IH.
  destruct (str_op_ok op g H Hen) as (g2 & Hrun' & H2 & _). rewrite Hrun in Hrun'. by injection Hrun' as ->.
Qed.

Lemma reached_ok g : reached g -> strings_ok g.
Proof. intros (g0 & H0 & Hs). by apply (steps_ok g0); [apply first_strings_ok|]. Qed.

(** Steps between two flips of the white. *)
Definition quiet_step (g g' : strings) : Prop := exists op, op <> SFlip /\ enabled_str op g /\ run_str_op op g = Ok g'.

Lemma quiet_preserves g g' : strings_ok g -> rtc quiet_step g g' -> preserves g g'.
Proof.
  intros H Hs. revert H. induction Hs as [|g g1 g' (op & Hop & Hen & Hrun) _ IH]; intros H; [done|].
  destruct (str_op_ok op g H Hen) as (g2 & Hrun' & H2 & Hpr). rewrite Hrun in Hrun'. injection Hrun' as <-.
  transitivity g1; [by apply Hpr|by apply IH].
Qed.

(** The collector found the string, or it is fixed. *)
Definition wanted (g : strings) (t : TString) : bool :=
  (Z.land (Z.land (ts_marked t) (currentwhite g)) WHITEBITS =? 0) || negb (Z.land (ts_marked t) FIXEDMASK =? 0).

Lemma flipped_dead g t : isdead (flip_white g) t = negb (Z.land (Z.land (ts_marked t) (currentwhite g)) WHITEBITS =? 0).
Proof.
  unfold isdead, flip_white, otherwhite. cbn [currentwhite]. unfold otherwhite.
  by rewrite Z.lxor_assoc, Z.lxor_nilpotent, Z.lxor_0_r.
Qed.

(** * Closing *)

Definition dying : Z := Z.lor WHITEBITS SFIXEDMASK.

(** Nothing is kept when the state is closed. *)
Lemma dying_kept m : mark_ok m -> kept_mark dying m = false.
Proof.
  intros (Hm & _ & Hs).
  assert (implb (Z.land m SFIXEDMASK =? 0) (negb (kept_mark dying m)) = true) as H.
  { apply (marks_checked (fun m => implb (Z.land m SFIXEDMASK =? 0) (negb (kept_mark dying m)))); [reflexivity|done]. }
  rewrite Hs in H. by apply negb_true_iff in H.
Qed.

(** The state with the members of the collector that the invariant asks for. *)
Abbreviation quiescent g := (collecting GCSpause 33 0 g).

Lemma dying_sweep i l : forall fuel g ls, strings_inv (quiescent g) ls -> currentwhite g = dying -> ls !! i = Some l ->
  (length l < fuel)%nat ->
  exists g', sweeplist fuel (AtBucket (Z.of_nat i)) g = Ok g' /\ strings_inv (quiescent g') (<[i := []]> ls) /\
    currentwhite g' = dying /\ blen (st_hash (strt g')) = blen (st_hash (strt g)).
Proof.
  induction l as [|c l IH]; intros fuel g ls H Hw Hi Hf; (destruct fuel as [|fuel]; [cbn in Hf; lia|]); cbn [sweeplist];
    change (AtBucket (Z.of_nat i)) with (place_of i []); change (read_place _ g) with (read_place (place_of i []) (quiescent g));
    destruct (read_place_ok (quiescent g) ls i [] _ H Hi) as (b & -> & Hch); rewrite bind_Ok.
  { inversion Hch; subst. exists g. by rewrite list_insert_id. }
  apply chain_inv_cons in Hch as (t & -> & Hc & _). unfold load_ts. cbn in Hc. rewrite Hc. cbn [of_option]. rewrite bind_Ok.
  change (negb _) with (kept_mark (currentwhite g) (ts_marked t)). rewrite Hw, dying_kept by apply (iv_string _ _ H c t Hc).
  destruct (write_place_ok (quiescent g) ls i [] c l t H Hi) as (q1 & Hq1 & Hun).
  destruct (free_ok (quiescent g) ls i [] c l t q1 H Hi Hc Hun) as (H1 & [F1 F2 F3] & _ & _).
  pose proof (proj1 (proj2 (unlinked_chain (quiescent g) ls i [] c l t q1 H Hi Hc Hun))) as Hlen.
  rewrite write_place_collecting in Hq1. destruct (write_place (place_of i []) (ts_next t) g) as [g1|] eqn:Hg1; [|done].
  rewrite bind_Ok in Hq1. injection Hq1 as <-. rewrite bind_Ok.
  assert (currentwhite g1 = dying) as Hw1.
  { cbn in Hg1. destruct (bucket _ _); [|done]. by injection Hg1 as <-. }
  destruct (IH fuel (free_string c g1) _ H1 Hw1) as (g' & Hrun & H' & Hw' & Hl');
    [apply list_lookup_insert_eq; by eapply lookup_lt_Some|cbn in Hf; lia|].
  exists g'. split; [done|]. split; [by rewrite list_insert_insert_eq in H'|]. split; [done|]. rewrite Hl'. exact Hlen.
Qed.

Lemma freeall_loop_ok h : forall i g ls, strings_inv (quiescent g) ls -> currentwhite g = dying ->
  (length ls = i + length h)%nat -> Forall (fun l => l = []) (take i ls) ->
  exists g', freeall_loop (Z.of_nat i) h g = Ok g' /\ exists ls', strings_inv (quiescent g') ls' /\ concat ls' = [].
Proof.
  induction h as [|b h IH]; intros i g ls H Hw Hlen Hdone; cbn [freeall_loop].
  - exists g. split; [done|]. exists ls. split; [done|]. rewrite take_ge in Hdone by (cbn in Hlen; lia).
    clear -Hdone. by induction Hdone as [|l ls -> _ IH].
  - cbn in Hlen. destruct (lookup_lt_is_Some_2 ls i) as [l Hl]; [lia|].
    destruct (dying_sweep i l (chain_fuel g) g ls H Hw Hl (chain_bound _ ls i l H Hl)) as (g1 & -> & H1 & Hw1 & _).
    rewrite bind_Ok. replace (Z.of_nat i + 1) with (Z.of_nat (S i)) by lia. apply (IH (S i) g1 _ H1 Hw1).
    + rewrite length_insert. lia.
    + rewrite (take_S_r _ _ []) by (apply list_lookup_insert_eq; lia). apply Forall_app. split; [|by repeat constructor].
      by rewrite take_insert_ge.
Qed.

Lemma freeall_ok g : strings_ok g -> exists g', freeall g = Ok g' /\ sg_mem g' = ∅ /\ st_nuse (strt g') = 0.
Proof.
  intros [ls H]. unfold freeall. set (g0 := mkStrings _ _ _ _ _ _). assert (strings_inv (quiescent g0) ls) as H0.
  { destruct H. split; try done. by left. }
  pose proof (Forall2_length _ _ _ (tb_chains _ _ _ (iv_table _ _ H))) as Hlen.
  destruct (freeall_loop_ok (st_hash (strt g)) 0 g0 ls H0 eq_refl) as (g' & Hrun & ls' & H' & Hnil); [cbn; lia|constructor|].
  exists g'. split; [done|]. assert (sg_mem g' = ∅) as Hm.
  { apply map_empty. intros p. destruct (sg_mem g' !! p) eqn:Hp; [|done].
    assert (p ∈ concat ls') as Hin by (apply (iv_all _ _ H'); cbn; eauto). rewrite Hnil in Hin. by apply elem_of_nil in Hin. }
  split; [done|]. pose proof (proj1 (iv_nuse _ _ H')) as Hn. cbn in Hn. by rewrite Hm in Hn.
Qed.

(** C18: Lua keeps every string once. In whatever order strings are made, marked,
    fixed, swept and the table resized, with memory failing at any of them, two
    string objects are the same object exactly when they have the same
    characters, so that comparing strings by address (as [luaO_rawequalObj] and
    the tables do) compares their characters; no step faults; and [luaS_newlstr]
    gives the object with these characters when there is one, even if the
    collector had condemned it, or a new one, which will not be collected in this
    cycle. It fails only when memory does. *)
Theorem strings_interned (g : strings) : reached g ->
  (forall p q t u, sg_mem g !! p = Some t -> sg_mem g !! q = Some u -> (p = q <-> ts_str t = ts_str u)) /\
  (forall op, enabled_str op g -> exists g', run_str_op op g = Ok g') /\
  (forall alloc alloc_table str, Z.of_nat (size (sg_mem g)) + 1 < 2 ^ 32 ->
    exists r g', luaS_newlstr alloc alloc_table str g = Ok (r, g') /\
      (alloc && alloc_table = true -> blen str < 2 ^ 63 -> is_Some r) /\
      (forall p, r = Some p -> exists t, sg_mem g' !! p = Some t /\ ts_str t = str /\ isdead g' t = false /\
        forall q u, sg_mem g !! q = Some u -> ts_str u = str -> q = p)).
Proof.
  intros Hr. pose proof (reached_ok g Hr) as H. pose proof H as [ls Hi]. split; [|split].
  - intros p q t u Hp Hq. split; [intros ->; congruence|by apply (iv_unique _ _ Hi)].
  - intros op Hen. destruct (str_op_ok op g H Hen) as (g' & Hrun & _). eauto.
  - intros a b str Hroom. destruct (luaS_newlstr_ok a b str g ls Hi Hroom) as (r & g' & ls' & Hrun & _ & _ & _ & _ & Hres & Htot).
    by exists r, g'.
Qed.

(** C23: A collection frees the strings that the program cannot reach, and no
    others. Let the white be flipped with the strings that were found marked: as
    long as it is not flipped again, every marked or fixed string stays at its
    address with its characters, whatever strings the program makes meanwhile,
    whenever the sweep goes on and even if a full collection restarts it; and
    when the sweep of the strings runs to its end (it takes one step for each
    chain), a string is left exactly if it was marked or fixed, and none is left
    that was not there. Closing the state frees every string, fixed ones too, and
    the count of strings is 0 again, as [close_state] asserts. *)
Theorem collection_exact (g : strings) : reached g ->
  (gcstate g = GCSpropagate ->
    (forall g', rtc quiet_step (flip_white g) g' -> forall p t, sg_mem g !! p = Some t -> wanted g t = true ->
      exists t', sg_mem g' !! p = Some t' /\ ts_str t' = ts_str t) /\
    (exists g', sweep_strings (Z.to_nat (st_size (strt g))) (flip_white g) = Ok g' /\ gcstate g' = GCSsweep /\
      (forall p t, sg_mem g !! p = Some t ->
        if wanted g t then exists t', sg_mem g' !! p = Some t' /\ ts_str t' = ts_str t /\ isdead g' t' = false
        else sg_mem g' !! p = None) /\
      (forall p, is_Some (sg_mem g' !! p) -> is_Some (sg_mem g !! p)))) /\
  (exists g', freeall g = Ok g' /\ sg_mem g' = ∅ /\ st_nuse (strt g') = 0).
Proof.
  intros Hr. pose proof (reached_ok g Hr) as H. pose proof (flip_white_ok g H) as Hf.
  split; [intros Hgc; split|by apply freeall_ok].
  - intros g' Hq p t Hp Hw. destruct (quiet_preserves _ _ Hf Hq p t Hp) as (t' & Ht' & Hs & _); [|eauto].
    rewrite (flipped_dead g t). unfold wanted in Hw. apply orb_true_iff in Hw as [Hw|Hw]; [left; by rewrite Hw|right].
    by apply negb_true_iff, Z.eqb_neq in Hw.
  - destruct (sweep_strings_ok (Z.to_nat (st_size (strt g))) (flip_white g) Hf eq_refl) as (g' & Hrun & _ & [As _ An _ Aj]).
    { cbn. lia. }
    exists g'. split; [done|]. split; [done|]. split; [|done]. intros p t Hp.
    specialize (Aj p t Hp (proj1 (home_range _ t Hf))). unfold judged in Aj. pose proof Hf as [ls Hi].
    destruct (iv_string _ _ Hi p t Hp) as [_ Hm]. destruct (mark_facts _ _ (iv_white _ _ Hi) Hm) as (_ & _ & _ & _ & Hk).
    rewrite Hk in Aj. change (dead_mark _ (ts_marked t)) with (isdead (flip_white g) t) in Aj.
    rewrite (flipped_dead g t), negb_involutive in Aj.
    fold (wanted g t) in Aj. destruct (wanted g t); [|done]. destruct Aj as (t' & Ht' & [Hs _] & Hd). eauto.
Qed.

(** * Examples *)

Module StringDemo.

(** [ab] and [cd] are made, [ab] is found by the collector. *)
Definition ab : list byte := [Byte.x61; Byte.x62].
Definition cd : list byte := [Byte.x63; Byte.x64].

Definition start : strings := mkStrings ∅ 0 (mkStrt (replicate 32 None) 0) GCSpause 33 0.

Definition after (op : str_op) (g : strings) : strings := match run_str_op op g with Ok g' => g' | UB _ => g end.

Definition made : strings := after (SNew true true cd) (after (SNew true true ab) start).
Definition found : strings := after (SMark 0) (after (SPhase GCSpropagate) made).

Lemma reached_step op g : reached g -> enabled_str op g -> run_str_op op g = Ok (after op g) -> reached (after op g).
Proof.
  intros (g0 & H0 & Hs) Hen Hrun. exists g0. split; [done|]. eapply rtc_r; [done|]. by exists op.
Qed.

Lemma made_reached : reached made.
Proof.
  apply reached_step; [apply reached_step|..]; [|done|vm_compute; reflexivity|done|vm_compute; reflexivity].
  exists start. split; [reflexivity|done].
Qed.

Lemma found_reached : reached found.
Proof.
  apply reached_step; [apply reached_step|..]; [apply made_reached|by split|vm_compute; reflexivity| |vm_compute; reflexivity].
  vm_compute. eauto.
Qed.

(** The name [cd] is asked for again: its object is found. *)
Lemma strings_interned_witness : exists g', luaS_newlstr true true cd made = Ok (Some 1, g').
Proof.
  destruct (strings_interned made made_reached) as (_ & _ & Hnew).
  destruct (Hnew true true cd) as (r & g' & Hrun & Htot & Hres); [done|]. exists g'. rewrite Hrun.
  destruct Htot as [p Hp]; [done|done|]. rewrite Hp. destruct (Hres p Hp) as (_ & _ & _ & _ & Huniq).
  destruct (sg_mem made !! 1) as [u|] eqn:Hu; [|vm_compute in Hu; discriminate].
  assert (ts_str <$> sg_mem made !! 1 = Some cd) as Hs by (vm_compute; reflexivity). rewrite Hu in Hs.
  injection Hs as Hs. by rewrite (Huniq 1 u Hu Hs).
Defined.

(** [ab] outlives the collection, [cd] does not. *)
Lemma collection_exact_witness : exists g', sweep_strings 32 (flip_white found) = Ok g' /\
  ts_str <$> sg_mem g' !! 0 = Some ab /\ sg_mem g' !! 1 = None.
Proof.
  destruct (proj1 (collection_exact found found_reached) eq_refl) as (_ & g' & Hrun & _ & Hall & _). exists g'. split; [exact Hrun|].
  split.
  - destruct (sg_mem found !! 0) as [t|] eqn:Ht; [|vm_compute in Ht; discriminate]. specialize (Hall 0 t Ht).
    assert (wanted found <$> sg_mem found !! 0 = Some true /\ ts_str <$> sg_mem found !! 0 = Some ab) as [Hw Hs]
      by (split; vm_compute; reflexivity). rewrite Ht in Hw, Hs. injection Hw as Hw. injection Hs as Hs. rewrite Hw in Hall.
    destruct Hall as (t' & -> & Hs' & _). cbn. by rewrite Hs', Hs.
  - destruct (sg_mem found !! 1) as [t|] eqn:Ht; [|vm_compute in Ht; discriminate]. specialize (Hall 1 t Ht).
    assert (wanted found <$> sg_mem found !! 1 = Some false) as Hw by (vm_compute; reflexivity).
    rewrite Ht in Hw. injection Hw as Hw. by rewrite Hw in Hall.
Defined.

(** A condemned string that is asked for comes back alive. *)
Example condemned_revived : exists g', luaS_newlstr true true cd (flip_white found) = Ok (Some 1, g') /\
  isdead (flip_white found) <$> sg_mem (flip_white found) !! 1 = Some true /\ isdead g' <$> sg_mem g' !! 1 = Some false.
Proof. eexists. split; [vm_compute; reflexivity|]. split; vm_compute; reflexivity. Qed.

End StringDemo.
