(* ===== verification/DataFormat.v ===== *)
(** The argument formats of remote calls (protocol/data_format.cpp and .h):
    each [fcall_*_arg] class packs a Lua value into bytes and unpacks bytes
    into a Lua value.

    [fcall_arg] is the class hierarchy, [pack] and [unpack] its virtual
    functions. The buffer is the whole block the caller owns with an offset, so
    an access outside it is a fault. [fmt], [encode] and [decode] are the
    specification: the wire format of a value, without Lua stack or registry.
    [denotes] relates a format object to the wire format it stands for. *)
From S2P Require Import Prelude LuaApi.

Abbreviation cstr s := (String.list_byte_of_string s%string).

(** A [char *] ends at the first zero byte. *)
Fixpoint c_str (s : list byte) : list byte :=
  match s with
  | [] => []
  | c :: s => if decide (c = Byte.x00) then [] else c :: c_str s
  end.

(** * Format objects *)

Inductive tb_op_code : Type := tb_begin | tb_end | push_value.

Record table_opcode (A : Type) : Type := mkOp {
  op : tb_op_code;
  key_ref : Z;
  value_arg : option A
}.
Arguments mkOp {A}.
Arguments op {A}.
Arguments key_ref {A}.
Arguments value_arg {A}.

(** The objects behind [fcall_base_arg *]. They are never modified once
    constructed, and a table format can only refer to formats constructed
    before it, so the pointers between them form trees. *)
Inductive fcall_arg : Type :=
| fcall_number_arg
| fcall_byte_arg
| fcall_word_arg
| fcall_dword_arg
| fcall_string_arg
| fcall_table_arg (type hashstr : list byte) (opcodes : list (table_opcode fcall_arg))
| fcall_array_arg (hashstr : list byte) (base_packer : fcall_arg) (size : Z).

Definition get_type (a : fcall_arg) : list byte :=
  match a with
  | fcall_number_arg => cstr "number"
  | fcall_byte_arg => cstr "byte"
  | fcall_word_arg => cstr "word"
  | fcall_dword_arg => cstr "dword"
  | fcall_string_arg => cstr "string"
  | fcall_table_arg type _ _ => type
  | fcall_array_arg _ _ _ => cstr "array"
  end.

Definition get_hashstr (a : fcall_arg) : list byte :=
  match a with
  | fcall_table_arg _ hashstr _ => hashstr
  | fcall_array_arg hashstr _ _ => hashstr
  | a => get_type a
  end.

Definition check_type (a : fcall_arg) (type_name : list byte) : bool :=
  bool_decide (get_type a = type_name).

Section Formats.
Context `{!LuaEnv}.

(** * Scalars *)

(** [struct number_type]: the sign in the low bit, the length above it. *)
Definition number_type (is_negative : bool) (len : Z) : byte :=
  byte.of_Z (Z.b2z is_negative + 2 * len).

(** The number of bytes a magnitude takes, 0 when it is not supported. *)
Definition number_len (data : Z) : Z :=
  if data <=? 0xff then 1 else if data <=? 0xffff then 2
  else if data <=? 0xffffff then 3 else if data <=? 0xffffffff then 4 else 0.

(** The magnitude of a signed number; the negation wraps at [INT_MIN]. *)
Definition number_magnitude (num : Z) : Z :=
  if num <? 0 then uwrap32 (wrap32 (- num)) else uwrap32 num.

(** [pack] takes the caller's block and the offset of [buf] in it. *)
Definition packer : Type := Z -> list byte -> Z -> Z -> lua (list byte * Z).
Definition unpacker : Type := list byte -> Z -> Z -> lua Z.

Definition number_pack : packer := fun data_in buf off buf_len =>
  _ ← luaL_checktype data_in LUA_TNUMBER;
  n ← lua_tonumber data_in;
  num ← lift (lua_number2int n);
  let data := number_magnitude num in
  let is_negative := num <? 0 in
  let len := number_len data in
  if len =? 0 then mret (buf, 0) else
  let used_len := 1 + len in
  if used_len >? buf_len then mret (buf, 0) else
  buf ← lift (write_cells buf off [number_type is_negative len]);
  buf ← lift (write_cells buf (off + 1) (le_split (Z.to_nat len) data));
  mret (buf, used_len).

Definition number_unpack : unpacker := fun buf off buf_len =>
  if 1 >? buf_len then mret 0 else
  b ← lift (read_cells buf off 1);
  let data_t := le_combine b in
  let is_negative := Z.testbit data_t 0 in
  let len := Z.shiftr data_t 1 in
  if (len <=? 0) || (len >=? 5) then mret 0 else
  let readed_len := 1 + len in
  if readed_len >? buf_len then mret 0 else
  b ← lift (read_cells buf (off + 1) len);
  let data := wrap32 (le_combine b) in
  let data := if is_negative then wrap32 (- data) else data in
  _ ← lua_pushnumber data;
  mret readed_len.

(** [pack] of the fixed-size integers: the low [n] bytes of the [int]. *)
Definition fixed_pack (used_len : Z) : packer := fun data_in buf off buf_len =>
  _ ← luaL_checktype data_in LUA_TNUMBER;
  n ← lua_tonumber data_in;
  num ← lift (lua_number2int n);
  if used_len >? buf_len then mret (buf, 0) else
  buf ← lift (write_cells buf off (le_split (Z.to_nat used_len) num));
  mret (buf, used_len).

Definition byte_pack : packer := fixed_pack 1.
Definition word_pack : packer := fixed_pack 2.
Definition dword_pack : packer := fixed_pack 4.

Definition fixed_unpack (readed_len : Z) (value : list byte -> Z) : unpacker := fun buf off buf_len =>
  if readed_len >? buf_len then mret 0 else
  b ← lift (read_cells buf off readed_len);
  _ ← lua_pushnumber (value b);
  mret readed_len.

Definition byte_unpack : unpacker := fixed_unpack 1 le_combine.
Definition word_unpack : unpacker := fixed_unpack 2 (fun b => wrap16 (le_combine b)).
Definition dword_unpack : unpacker := fixed_unpack 4 int_of_bytes.

(** The length of a Lua string is a 64-bit [size_t]; the casts to [int] are
    those of the source. *)
Definition string_pack : packer := fun data_in buf off buf_len =>
  data ← luaL_checklstring data_in;
  let str_len := blen data in
  str_id ← lift (chk_int (wrap32 str_len + 1));
  if str_id <=? 0xff then
    let used_len := wrap32 (str_len + 1) in
    if used_len >? buf_len then mret (buf, 0) else
    buf ← lift (write_cells buf off (le_split 1 str_id));
    buf ← lift (write_cells buf (off + 1) data);
    mret (buf, used_len)
  else if str_id <=? 0xffff then
    let used_len := wrap32 (str_len + 3) in
    if used_len >? buf_len then mret (buf, 0) else
    buf ← lift (write_cells buf off [Byte.x00]);
    buf ← lift (write_cells buf (off + 1) (le_split 2 str_id));
    buf ← lift (write_cells buf (off + 3) data);
    mret (buf, used_len)
  else mret (buf, 0).

Definition string_unpack : unpacker := fun buf off buf_len =>
  if 1 >? buf_len then mret 0 else
  b ← lift (read_cells buf off 1);
  let str_id := le_combine b in
  if str_id >? 0 then
    let str_len := str_id - 1 in
    if str_len =? 0 then _ ← lua_pushlstring []; mret 1 else
    let readed_len := 1 + str_len in
    if readed_len >? buf_len then mret 0 else
    s ← lift (read_cells buf (off + 1) str_len);
    _ ← lua_pushlstring s;
    mret readed_len
  else
    _ ← lift (require (str_id =? 0) AssertFailed);
    if 3 >? buf_len then mret 0 else
    b ← lift (read_cells buf (off + 1) 2);
    let str_len := le_combine b - 1 in
    if str_len <? 0 then mret 0 else
    let readed_len := 3 + str_len in
    if readed_len >? buf_len then mret 0 else
    s ← lift (read_cells buf (off + 3) str_len);
    _ ← lua_pushlstring s;
    mret readed_len.

(** * Tables and arrays *)

(** The loop of [fcall_table_arg::pack] from one opcode on. *)
Definition table_pack_loop (pack : fcall_arg -> packer) (top : Z) (off buf_len : Z) :=
  fix loop (ops : list (table_opcode fcall_arg)) (buf : list byte) (used_len : Z)
    : lua (list byte * Z) :=
  match ops with
  | [] => _ ← lua_settop top; mret (buf, used_len)
  | opcode :: ops =>
      match opcode.(op) with
      | tb_begin =>
          _ ← lift (require (0 <? opcode.(key_ref)) AssertFailed);
          _ ← lua_getref opcode.(key_ref);
          _ ← lua_rawget (-2);
          istable ← lua_istable (-1);
          if istable : bool then loop ops buf used_len
          else _ ← lua_settop top; luaL_typerror (-1)
      | push_value =>
          _ ← lift (require (negb (opcode.(key_ref) =? LUA_NOREF)) AssertFailed);
          _ ← lua_getref opcode.(key_ref);
          _ ← lua_rawget (-2);
          match opcode.(value_arg) with
          | None => _ ← lua_settop top; mret (buf, 0)
          | Some arg =>
              data_in ← lua_gettop;
              '(buf, cur_used) ← pack arg data_in buf (off + used_len) (buf_len - used_len);
              if cur_used =? 0 then _ ← lua_settop top; mret (buf, 0) else
              _ ← lua_pop 1;
              loop ops buf (used_len + cur_used)
          end
      | tb_end => _ ← lua_pop 1; loop ops buf used_len
      end
  end.

Definition table_pack (pack : fcall_arg -> packer) (opcodes : list (table_opcode fcall_arg)) : packer :=
  fun data_in buf off buf_len =>
  top ← lua_gettop;
  istable ← lua_istable data_in;
  if istable : bool then
    _ ← lua_pushvalue data_in;
    table_pack_loop pack top off buf_len opcodes buf 0
  else luaL_typerror data_in.

(** The loop of [fcall_table_arg::unpack]; the last opcode is not executed. *)
Definition table_unpack_loop (unpack : fcall_arg -> unpacker) (top : Z) (buf : list byte) (off buf_len : Z) :=
  fix loop (ops : list (table_opcode fcall_arg)) (readed_len : Z) : lua Z :=
  match ops with
  | [] => lift (UB OutOfBounds)
  | opcode :: ops =>
      match ops with
      | [] => mret readed_len
      | _ :: _ =>
          match opcode.(op) with
          | tb_begin =>
              _ ← lift (require (negb (opcode.(key_ref) =? LUA_NOREF)) AssertFailed);
              _ ← lua_getref opcode.(key_ref);
              _ ← lua_newtable;
              loop ops readed_len
          | push_value =>
              match opcode.(value_arg) with
              | None => lift (UB AssertFailed)
              | Some arg =>
                  _ ← lift (require (negb (opcode.(key_ref) =? LUA_NOREF)) AssertFailed);
                  _ ← lua_getref opcode.(key_ref);
                  cur_readed ← unpack arg buf (off + readed_len) (buf_len - readed_len);
                  if cur_readed =? 0 then _ ← lua_settop top; mret 0 else
                  _ ← lua_settable (-3);
                  loop ops (readed_len + cur_readed)
              end
          | tb_end => _ ← lua_settable (-3); loop ops readed_len
          end
      end
  end.

Definition table_unpack (unpack : fcall_arg -> unpacker) (opcodes : list (table_opcode fcall_arg)) : unpacker :=
  fun buf off buf_len =>
  top ← lua_gettop;
  _ ← lua_newtable;
  table_unpack_loop unpack top buf off buf_len opcodes 0.

(** The element loop of [fcall_array_arg::pack], [n] elements left. *)
Fixpoint array_pack_loop (pack : packer) (top data_in off buf_len : Z) (n : nat) (i : Z)
    (buf : list byte) (used_len : Z) : lua (list byte * Z) :=
  match n with
  | O => mret (buf, used_len)
  | S n =>
      _ ← lua_rawgeti data_in i;
      '(buf, cur_used) ← pack (-1) buf (off + used_len) (buf_len - used_len);
      if cur_used =? 0 then _ ← lua_settop top; mret (buf, 0) else
      _ ← lua_pop 1;
      array_pack_loop pack top data_in off buf_len n (i + 1) buf (used_len + cur_used)
  end.

Definition array_pack (pack : packer) (size : Z) : packer := fun data_in buf off buf_len =>
  top ← lua_gettop;
  istable ← lua_istable data_in;
  if istable : bool then
    if size =? 0 then
      n ← lua_objlen data_in;
      let array_len := wrap32 n in
      if 1 >? buf_len then mret (buf, 0) else
      buf ← lift (write_cells buf off [byte.of_Z array_len]);
      if array_len >? 512 then mret (buf, 0) else
      array_pack_loop pack top data_in off buf_len (Z.to_nat array_len) 1 buf 1
    else if size >? 512 then mret (buf, 0) else
      array_pack_loop pack top data_in off buf_len (Z.to_nat size) 1 buf 0
  else luaL_typerror data_in.

Fixpoint array_unpack_loop (unpack : unpacker) (top data_i : Z) (buf : list byte) (off buf_len : Z)
    (n : nat) (i readed_len : Z) : lua Z :=
  match n with
  | O =>
      t ← lua_gettop;
      _ ← lift (require (t =? data_i) AssertFailed);
      mret readed_len
  | S n =>
      _ ← lua_pushnumber (i + 1);
      cur_readed ← unpack buf (off + readed_len) (buf_len - readed_len);
      if cur_readed =? 0 then _ ← lua_settop top; mret 0 else
      _ ← lua_rawset data_i;
      array_unpack_loop unpack top data_i buf off buf_len n (i + 1) (readed_len + cur_readed)
  end.

Definition array_unpack (unpack : unpacker) (size : Z) : unpacker := fun buf off buf_len =>
  top ← lua_gettop;
  _ ← lua_newtable;
  let data_i := top + 1 in
  if size =? 0 then
    if 1 >? buf_len then mret 0 else
    b ← lift (read_cells buf off 1);
    array_unpack_loop unpack top data_i buf off buf_len (Z.to_nat (le_combine b)) 0 1
  else array_unpack_loop unpack top data_i buf off buf_len (Z.to_nat size) 0 0.

(** * The virtual functions *)

Fixpoint pack (a : fcall_arg) : packer :=
  match a with
  | fcall_number_arg => number_pack
  | fcall_byte_arg => byte_pack
  | fcall_word_arg => word_pack
  | fcall_dword_arg => dword_pack
  | fcall_string_arg => string_pack
  | fcall_table_arg _ _ opcodes => table_pack pack opcodes
  | fcall_array_arg _ base_packer size => array_pack (pack base_packer) size
  end.

Fixpoint unpack (a : fcall_arg) : unpacker :=
  match a with
  | fcall_number_arg => number_unpack
  | fcall_byte_arg => byte_unpack
  | fcall_word_arg => word_unpack
  | fcall_dword_arg => dword_unpack
  | fcall_string_arg => string_unpack
  | fcall_table_arg _ _ opcodes => table_unpack unpack opcodes
  | fcall_array_arg _ base_packer size => array_unpack (unpack base_packer) size
  end.

End Formats.
