(* ===== verification/WireFormat.v ===== *)
(** The wire format of remote call arguments and the correctness of
    [DataFormat.pack] and [DataFormat.unpack] with respect to it. *)
From S2P Require Import Prelude LuaApi DataFormat.

(** * Formats and data *)

(** A field of a table format: its key, whether it is a table written inline
    in the description (an opcode [tb_begin]) or a registered format, and the
    format. *)
Inductive fmt : Type :=
| Fnumber | Fbyte | Fword | Fdword | Fstring
| Ftable (fields : list (lua_value * bool * fmt))
| Farray (size : Z) (base : fmt).

Inductive data : Type :=
| DNum (z : Z)
| DStr (s : list byte)
| DTable (ds : list data)
| DArray (ds : list data).

Abbreviation field := (lua_value * bool * fmt)%type.
Definition keys (fs : list field) : list lua_value := (fun x => x.1.1) <$> fs.

Section fmt_induction.
Context (P : fmt -> Prop)
  (Hnum : P Fnumber) (Hbyte : P Fbyte) (Hword : P Fword) (Hdword : P Fdword) (Hstr : P Fstring)
  (Htab : forall fs, Forall (fun x : field => P x.2) fs -> P (Ftable fs))
  (Harr : forall size base, P base -> P (Farray size base)).

Fixpoint fmt_ind' (f : fmt) : P f :=
  match f with
  | Fnumber => Hnum | Fbyte => Hbyte | Fword => Hword | Fdword => Hdword | Fstring => Hstr
  | Ftable fs => Htab fs
      ((fix go fs : Forall (fun x : field => P x.2) fs :=
          match fs with
          | [] => Forall_nil_2 _
          | (k, b, f) :: fs => Forall_cons_2 _ (k, b, f) fs (fmt_ind' f) (go fs)
          end) fs)
  | Farray size base => Harr size base (fmt_ind' base)
  end.
End fmt_induction.

(** * Encoding *)

Definition number_bytes (z : Z) : list byte :=
  let data := number_magnitude z in
  let len := number_len data in
  number_type (z <? 0) len :: le_split (Z.to_nat len) data.

Definition string_bytes (s : list byte) : option (list byte) :=
  let str_id := blen s + 1 in
  if str_id <=? 0xff then Some (le_split 1 str_id ++ s)
  else if str_id <=? 0xffff then Some (Byte.x00 :: le_split 2 str_id ++ s)
  else None.

Definition encode_fields (encode : fmt -> data -> option (list byte)) :=
  fix go (fs : list field) (ds : list data) : option (list byte) :=
  match fs, ds with
  | [], [] => Some []
  | (_, inline, f) :: fs, d :: ds =>
      b ← encode f d;
      if negb inline && bool_decide (b = []) then None else
      bs ← go fs ds; Some (b ++ bs)
  | _, _ => None
  end.

Definition encode_elements (encode : data -> option (list byte)) :=
  fix go (ds : list data) : option (list byte) :=
  match ds with
  | [] => Some []
  | d :: ds =>
      b ← encode d;
      if bool_decide (b = []) then None else
      bs ← go ds; Some (b ++ bs)
  end.

Fixpoint encode (f : fmt) (d : data) : option (list byte) :=
  match f, d with
  | Fnumber, DNum z => Some (number_bytes z)
  | Fbyte, DNum z => Some (le_split 1 z)
  | Fword, DNum z => Some (le_split 2 z)
  | Fdword, DNum z => Some (le_split 4 z)
  | Fstring, DStr s => string_bytes s
  | Ftable fs, DTable ds => encode_fields encode fs ds
  | Farray size base, DArray ds =>
      if blen ds >? 512 then None else
      bs ← encode_elements (encode base) ds;
      Some ((if size =? 0 then [byte.of_Z (blen ds)] else []) ++ bs)
  | _, _ => None
  end.

(** * Decoding *)

Definition decode_number (bs : list byte) : option (Z * list byte) :=
  match bs with
  | [] => None
  | b :: bs =>
      let data_t := le_combine [b] in
      let len := Z.shiftr data_t 1 in
      if (len <=? 0) || (len >=? 5) || (len >? blen bs) then None else
      let data := wrap32 (le_combine (take (Z.to_nat len) bs)) in
      Some (if Z.testbit data_t 0 then wrap32 (- data) else data, drop (Z.to_nat len) bs)
  end.

Definition decode_fixed (n : Z) (value : list byte -> Z) (bs : list byte) : option (Z * list byte) :=
  if n >? blen bs then None else Some (value (take (Z.to_nat n) bs), drop (Z.to_nat n) bs).

Definition decode_string (bs : list byte) : option (list byte * list byte) :=
  match bs with
  | [] => None
  | b :: bs =>
      let str_id := le_combine [b] in
      if str_id >? 0 then
        let len := str_id - 1 in
        if len >? blen bs then None else Some (take (Z.to_nat len) bs, drop (Z.to_nat len) bs)
      else if 2 >? blen bs then None else
        let len := le_combine (take 2 bs) - 1 in
        let bs := drop 2 bs in
        if (len <? 0) || (len >? blen bs) then None
        else Some (take (Z.to_nat len) bs, drop (Z.to_nat len) bs)
  end.

(** A registered format or an array element that takes no byte is an error. *)
Definition consumed (bs bs' : list byte) : bool := negb (blen bs =? blen bs').

Definition decode_fields (decode : fmt -> list byte -> option (data * list byte)) :=
  fix go (fs : list field) (bs : list byte) : option (list data * list byte) :=
  match fs with
  | [] => Some ([], bs)
  | (_, inline, f) :: fs =>
      '(d, bs') ← decode f bs;
      if inline || consumed bs bs' then
        '(ds, bs'') ← go fs bs'; Some (d :: ds, bs'')
      else None
  end.

Definition decode_elements (decode : list byte -> option (data * list byte)) :=
  fix go (n : nat) (bs : list byte) : option (list data * list byte) :=
  match n with
  | O => Some ([], bs)
  | S n =>
      '(d, bs') ← decode bs;
      if consumed bs bs' then '(ds, bs'') ← go n bs'; Some (d :: ds, bs'') else None
  end.

Fixpoint decode (f : fmt) (bs : list byte) : option (data * list byte) :=
  match f with
  | Fnumber => prod_map DNum id <$> decode_number bs
  | Fbyte => prod_map DNum id <$> decode_fixed 1 le_combine bs
  | Fword => prod_map DNum id <$> decode_fixed 2 (fun b => wrap16 (le_combine b)) bs
  | Fdword => prod_map DNum id <$> decode_fixed 4 int_of_bytes bs
  | Fstring => prod_map DStr id <$> decode_string bs
  | Ftable fs => prod_map DTable id <$> decode_fields decode fs bs
  | Farray size base =>
      if size =? 0 then
        match bs with
        | [] => None
        | b :: bs => prod_map DArray id <$> decode_elements (decode base) (Z.to_nat (le_combine [b])) bs
        end
      else prod_map DArray id <$> decode_elements (decode base) (Z.to_nat size) bs
  end.

(** What the receiver gets for the datum the sender packed. *)
Fixpoint received (f : fmt) (d : data) : data :=
  match f, d with
  | Fbyte, DNum z => DNum (z mod 2 ^ 8)
  | Fword, DNum z => DNum (wrap16 z)
  | Ftable fs, DTable ds =>
      DTable ((fix go (fs : list field) (ds : list data) :=
                 match fs, ds with
                 | (_, _, f) :: fs, d :: ds => received f d :: go fs ds
                 | _, _ => []
                 end) fs ds)
  | Farray _ base, DArray ds => DArray (received base <$> ds)
  | _, d => d
  end.

(** Numbers are C [int]s, and an array of variable length has at most 255
    elements, one of fixed length exactly as many as declared. *)
Fixpoint sendable (f : fmt) (d : data) : bool :=
  match f, d with
  | (Fnumber | Fbyte | Fword | Fdword), DNum z => in_int z
  | Fstring, DStr _ => true
  | Ftable fs, DTable ds =>
      (fix go (fs : list field) (ds : list data) :=
         match fs, ds with
         | [], [] => true
         | (_, _, f) :: fs, d :: ds => sendable f d && go fs ds
         | _, _ => false
         end) fs ds
  | Farray size base, DArray ds =>
      (if size =? 0 then blen ds <=? 255 else size =? blen ds) && forallb (sendable base) ds
  | _, _ => false
  end.

(** * Round trips of the codec *)

Lemma number_magnitude_abs z : in_int z = true -> number_magnitude z = Z.abs z.
Proof.
  unfold in_int, number_magnitude. intros. bool_props. unfold INT_MIN, INT_MAX in *.
  destruct (Z.ltb_spec z 0).
  - rewrite uwrap32_wrap32, uwrap32_small by lia. lia.
  - rewrite uwrap32_small by lia. lia.
Qed.

Lemma number_len_spec m : 0 <= m <= 0xffffffff ->
  1 <= number_len m <= 4 /\ m < 2 ^ (8 * number_len m).
Proof.
  intros H. unfold number_len.
  repeat match goal with |- context [?a <=? ?b] => destruct (Z.leb_spec a b) end; lia.
Qed.

Lemma le_combine_small n z : 0 <= z < 2 ^ (8 * Z.of_nat n) -> le_combine (le_split n z) = z.
Proof. intros H. rewrite le_combine_split, (Z.mul_comm _ 8). by apply Z.mod_small. Qed.

Lemma le_combine_byte z : le_combine [byte.of_Z z] = z mod 2 ^ 8.
Proof. change (le_combine (le_split 1 z) = z mod 2 ^ 8). rewrite le_combine_split. done. Qed.

Lemma shiftr1_number_type neg len : Z.shiftr (Z.b2z neg + 2 * len) 1 = len.
Proof.
  rewrite Z.shiftr_div_pow2 by lia. change (2 ^ 1) with 2.
  assert (0 <= Z.b2z neg < 2) by (destruct neg; cbn [Z.b2z]; lia).
  symmetry. apply (Z.div_unique _ _ _ (Z.b2z neg)); lia.
Qed.

Lemma testbit0_number_type neg len : Z.testbit (Z.b2z neg + 2 * len) 0 = neg.
Proof. rewrite Z.add_comm. apply Z.testbit_0_r. Qed.

Lemma wrap32_opp_abs z : in_int z = true ->
  (if z <? 0 then wrap32 (- wrap32 (Z.abs z)) else wrap32 (Z.abs z)) = z.
Proof.
  unfold in_int. intros. bool_props. unfold INT_MIN, INT_MAX in *.
  destruct (Z.ltb_spec z 0); unfold wrap32; [|rewrite Z.mod_small; lia].
  destruct (decide (z = - 2 ^ 31)) as [->|]; [done|].
  rewrite (Z.mod_small (Z.abs z + _)) by lia. rewrite Z.mod_small; lia.
Qed.

Lemma decode_number_bytes z rest : in_int z = true ->
  decode_number (number_bytes z ++ rest) = Some (z, rest).
Proof.
  intros Hz. unfold number_bytes, decode_number. rewrite (number_magnitude_abs z Hz).
  assert (0 <= Z.abs z <= 0xffffffff) as Habs.
  { unfold in_int in Hz. bool_props. unfold INT_MIN, INT_MAX in *. lia. }
  destruct (number_len_spec _ Habs) as [Hlen Hm]. set (len := number_len (Z.abs z)) in *.
  cbn [app]. unfold number_type. rewrite le_combine_byte.
  rewrite Z.mod_small by (destruct (z <? 0); cbn [Z.b2z]; lia).
  rewrite shiftr1_number_type, testbit0_number_type.
  assert (length (le_split (Z.to_nat len) (Z.abs z)) = Z.to_nat len) as Hl by apply length_le_split.
  destruct (take_firstn_app_drop _ _ rest Hl) as [Ht Hd].
  rewrite Ht, Hd, le_combine_small by (rewrite Z2Nat.id; lia).
  rewrite blen_app. pose proof (blen_nonneg rest). unfold blen at 1. rewrite Hl.
  rewrite wrap32_opp_abs by done. by zdecide.
Qed.

Lemma decode_fixed_split n value z rest :
  decode_fixed (Z.of_nat n) value (le_split n z ++ rest) = Some (value (le_split n z), rest).
Proof.
  unfold decode_fixed. rewrite Nat2Z.id.
  destruct (take_firstn_app_drop n (le_split n z) rest (length_le_split _ _)) as [-> ->].
  rewrite blen_app. unfold blen at 1. rewrite length_le_split.
  pose proof (blen_nonneg rest). by zdecide.
Qed.

Lemma decode_string_bytes s bs rest :
  string_bytes s = Some bs -> decode_string (bs ++ rest) = Some (s, rest).
Proof.
  unfold string_bytes. pose proof (blen_nonneg s). pose proof (blen_nonneg rest).
  assert (blen (s ++ rest) = blen s + blen rest) as Hb by apply blen_app.
  repeat case_match; intros; bool_props; simplify_eq; unfold decode_string.
  - change (le_split 1 (blen s + 1)) with [byte.of_Z (blen s + 1)]. cbn [app].
    rewrite le_combine_byte, Z.mod_small by lia.
    replace (blen s + 1 - 1) with (blen s) by lia. rewrite take_blen_app, drop_blen_app. by zdecide.
  - cbn [app]. change (le_combine [Byte.x00]) with 0. change (0 >? 0) with false. cbv iota.
    assert (length (le_split 2 (blen s + 1)) = 2%nat) as Hl by apply length_le_split.
    rewrite <- app_assoc. destruct (take_firstn_app_drop _ _ (s ++ rest) Hl) as [-> ->].
    rewrite le_combine_small by lia. replace (blen s + 1 - 1) with (blen s) by lia.
    rewrite take_blen_app, drop_blen_app, blen_app. unfold blen at 1. rewrite Hl. by zdecide.
Qed.

Lemma consumed_app b rest : consumed (b ++ rest) rest = negb (bool_decide (b = [])).
Proof.
  unfold consumed. rewrite blen_app. destruct b as [|x b]; simpl.
  - by rewrite Z.eqb_refl.
  - rewrite blen_cons. pose proof (blen_nonneg b). by zdecide.
Qed.

Definition roundtrips (f : fmt) : Prop := forall d bs rest,
  encode f d = Some bs -> sendable f d = true ->
  decode f (bs ++ rest) = Some (received f d, rest).

Lemma decode_encode_elements base ds bs rest : roundtrips base ->
  encode_elements (encode base) ds = Some bs -> forallb (sendable base) ds = true ->
  decode_elements (decode base) (length ds) (bs ++ rest) = Some (received base <$> ds, rest).
Proof.
  intros IH. revert bs. induction ds as [|d ds IHds]; intros bs He Hs; simpl in *; [by simplify_eq|].
  destruct (encode base d) as [b|] eqn:E; simpl in He; [|done].
  case_bool_decide as Hb; [done|].
  destruct (encode_elements _ ds) as [bs'|] eqn:E'; simplify_eq/=. bool_props.
  rewrite <- app_assoc, (IH d) by done. simpl.
  rewrite consumed_app, bool_decide_false by done. simpl.
  by rewrite IHds.
Qed.

Lemma decode_encode_fields fs ds bs rest : Forall (fun x : field => roundtrips x.2) fs ->
  encode_fields encode fs ds = Some bs -> sendable (Ftable fs) (DTable ds) = true ->
  prod_map DTable id <$> decode_fields decode fs (bs ++ rest) = Some (received (Ftable fs) (DTable ds), rest).
Proof.
  intros IH. revert ds bs. induction IH as [|[[k inl] f] fs Hf _ IHfs]; intros [|d ds] bs He Hs; simpl in *; simplify_eq; [done|].
  destruct (encode f d) as [b|] eqn:E; simpl in He; [|done].
  destruct (negb inl && bool_decide (b = [])) eqn:Hb; [done|].
  destruct (encode_fields encode fs ds) as [bs'|] eqn:E'; simplify_eq/=.
  apply andb_true_iff in Hs as [Hs1 Hs2].
  rewrite <- app_assoc, (Hf d) by done. simpl. rewrite consumed_app.
  assert (inl || negb (bool_decide (b = [])) = true) as -> by (by destruct inl, (bool_decide (b = []))).
  specialize (IHfs ds bs' E' Hs2). destruct (decode_fields decode fs (bs' ++ rest)) as [[ds' r']|]; simplify_eq/=.
  simplify_eq. done.
Qed.

Lemma decode_encode f : roundtrips f.
Proof.
  induction f as [| | | | |fs IH|size base IH] using fmt_ind'; intros [z|s|ds|ds] bs rest He Hs;
    cbn [encode decode received sendable] in *; simplify_eq.
  - by rewrite decode_number_bytes.
  - rewrite (decode_fixed_split 1), le_combine_split. done.
  - rewrite (decode_fixed_split 2). cbn [fmap option_fmap option_map prod_map id fst snd]. do 3 f_equal. rewrite le_combine_split.
    unfold wrap16. by rewrite Z.add_mod_idemp_l by lia.
  - rewrite (decode_fixed_split 4). cbn [fmap option_fmap option_map prod_map id fst snd]. do 3 f_equal.
    unfold in_int in Hs. bool_props. by apply int_of_int_bytes.
  - by rewrite (decode_string_bytes s bs).
  - by apply decode_encode_fields.
  - destruct (blen ds >? 512) eqn:H512; [done|].
    destruct (encode_elements _ ds) as [bs'|] eqn:E; cbn [mbind option_bind] in He; simplify_eq. bool_props.
    destruct (Z.eqb_spec size 0); bool_props; subst; cbn [app].
    + rewrite le_combine_byte, Z.mod_small by (pose proof (blen_nonneg ds); lia).
      unfold blen. rewrite Nat2Z.id. by rewrite decode_encode_elements.
    + unfold blen. rewrite Nat2Z.id. by rewrite decode_encode_elements.
Qed.

(** An array of 256 elements or more: the length byte is taken modulo 256. *)
Lemma encode_elements_split (enc : data -> option (list byte)) ds1 ds2 bs :
  encode_elements enc (ds1 ++ ds2) = Some bs ->
  exists bs1 bs2, encode_elements enc ds1 = Some bs1 /\ encode_elements enc ds2 = Some bs2 /\ bs = bs1 ++ bs2.
Proof.
  revert bs. induction ds1 as [|d ds1 IH]; intros bs He; cbn [app encode_elements] in *; [by exists [], bs|].
  destruct (enc d) as [b|]; cbn [mbind option_bind] in *; [|done]. case_bool_decide; [done|].
  destruct (encode_elements enc (ds1 ++ ds2)) as [bs'|]; cbn [mbind option_bind] in *; [|done].
  simplify_eq. destruct (IH bs' eq_refl) as (bs1 & bs2 & -> & -> & ->).
  exists (b ++ bs1), bs2. by rewrite app_assoc.
Qed.

Lemma encode_elements_nonempty (enc : data -> option (list byte)) d ds bs :
  encode_elements enc (d :: ds) = Some bs -> 0 < blen bs.
Proof.
  cbn [encode_elements]. destruct (enc d) as [b|]; cbn [mbind option_bind]; [|done]. case_bool_decide; [done|].
  destruct (encode_elements enc ds) as [bs'|]; cbn [mbind option_bind]; [|done]. intros [= <-].
  destruct b as [|x b]; [done|]. rewrite blen_app, blen_cons.
  pose proof (blen_nonneg b). pose proof (blen_nonneg bs'). lia.
Qed.

Lemma decode_truncated f ds bs : 256 <= blen ds <= 512 -> forallb (sendable f) ds = true ->
  encode (Farray 0 f) (DArray ds) = Some bs ->
  exists rest, decode (Farray 0 f) bs
    = Some (DArray (received f <$> take (Z.to_nat (blen ds mod 256)) ds), rest) /\ 0 < blen rest.
Proof.
  intros Hlen Hs He. cbn [encode] in He. destruct (blen ds >? 512); [done|].
  destruct (encode_elements (encode f) ds) as [bs0|] eqn:E; [|done].
  change (0 =? 0) with true in He. cbn [mbind option_bind app] in He. simplify_eq.
  set (m := Z.to_nat (blen ds mod 256)).
  pose proof (Z.mod_pos_bound (blen ds) 256 ltac:(lia)) as Hmod.
  assert (length (take m ds) = m) as Hm by (rewrite length_take; unfold blen in *; lia).
  rewrite <- (take_drop m ds) in E, Hs. rewrite forallb_app in Hs. apply andb_true_iff in Hs as [Hs _].
  apply encode_elements_split in E as (bs1 & bs2 & E1 & E2 & ->). exists bs2. split.
  - cbn [decode]. change (0 =? 0) with true. cbv iota. rewrite le_combine_byte. change (2 ^ 8) with 256. fold m.
    rewrite <- Hm at 1. by rewrite (decode_encode_elements f _ bs1 bs2 (decode_encode f)).
  - destruct (drop m ds) as [|d ds'] eqn:Ed; [|by eapply encode_elements_nonempty].
    apply (f_equal length) in Ed. rewrite length_drop in Ed. simpl in Ed. unfold blen in *. lia.
Qed.

(** * Lua values and data *)

Section Values.
Context `{!LuaEnv}.

Definition has_fields (has : fmt -> lua_value -> data -> Prop) (t : ltable) :=
  fix go (fs : list field) (ds : list data) : Prop :=
  match fs, ds with
  | [], [] => True
  | (k, _, f) :: fs, d :: ds => has f (luaH_get t k) d /\ go fs ds
  | _, _ => False
  end.

(** In the heap [h] the value [v] holds the datum [d] of format [f]: what
    [pack] will find in it. A table may have other entries. *)
Fixpoint has (h : gmap positive ltable) (f : fmt) (v : lua_value) (d : data) : Prop :=
  match f, d with
  | (Fnumber | Fbyte | Fword | Fdword), DNum z =>
      exists n, v = LNumber n /\ lua_number2int n = Ok z
  | Fstring, DStr s =>
      (v = LString s \/ exists n, v = LNumber n /\ s = number2str n) /\ blen s < INT_MAX
  | Ftable fs, DTable ds =>
      exists l t, v = LTable l /\ h !! l = Some t /\ has_fields (has h) t fs ds
  | Farray size base, DArray ds =>
      exists l t, v = LTable l /\ h !! l = Some t /\
        (if size =? 0 then luaH_getn l t = blen ds /\ blen ds <= INT_MAX else size = blen ds) /\
        forall i d, ds !! i = Some d -> has h base (luaH_getnum t (Z.of_nat i + 1)) d
  | _, _ => False
  end.

Definition built_fields (built : fmt -> lua_value -> data -> Prop) :=
  fix go (fs : list field) (vs : list lua_value) (ds : list data) : Prop :=
  match fs, vs, ds with
  | [], [], [] => True
  | (_, _, f) :: fs, v :: vs, d :: ds => built f v d /\ go fs vs ds
  | _, _, _ => False
  end.

(** The entries of an array, from index [i] on. *)
Fixpoint array_entries (i : Z) (vs : list lua_value) : ltable :=
  match vs with [] => [] | v :: vs => (LNumber (NInt i), v) :: array_entries (i + 1) vs end.

(** The value [v] is what [unpack] builds for [d]: tables have exactly the
    entries of the format. *)
Fixpoint built (h : gmap positive ltable) (f : fmt) (v : lua_value) (d : data) : Prop :=
  match f, d with
  | (Fnumber | Fbyte | Fword | Fdword), DNum z => v = LNumber (NInt z) /\ in_int z = true
  | Fstring, DStr s => v = LString s /\ blen s < INT_MAX
  | Ftable fs, DTable ds =>
      exists l vs, v = LTable l /\ h !! l = Some (zip (keys fs) vs) /\
        built_fields (built h) fs vs ds
  | Farray size base, DArray ds =>
      exists l vs, v = LTable l /\ h !! l = Some (array_entries 1 vs) /\
        (if size =? 0 then blen ds <= 255 else size = blen ds \/ size < 0 /\ ds = []) /\ Forall2 (built h base) vs ds
  | _, _ => False
  end.

End Values.

(** The wire format a format object stands for, given the registry [rt] that
    holds its keys. *)
Inductive denotes (rt : ltable) : fcall_arg -> fmt -> Prop :=
| dn_number : denotes rt fcall_number_arg Fnumber
| dn_byte : denotes rt fcall_byte_arg Fbyte
| dn_word : denotes rt fcall_word_arg Fword
| dn_dword : denotes rt fcall_dword_arg Fdword
| dn_string : denotes rt fcall_string_arg Fstring
| dn_table ty hs ops e fs :
    denotes_ops rt ops fs -> e.(op) = tb_end -> NoDup (keys fs) ->
    denotes rt (fcall_table_arg ty hs (ops ++ [e])) (Ftable fs)
| dn_array hs base size f :
    denotes rt base f -> denotes rt (fcall_array_arg hs base size) (Farray size f)
with denotes_ops (rt : ltable) : list (table_opcode fcall_arg) -> list field -> Prop :=
| dn_nil : denotes_ops rt [] []
| dn_value ref a f ops fs :
    0 < ref -> good_key (luaH_getnum rt ref) = true -> denotes rt a f -> denotes_ops rt ops fs ->
    denotes_ops rt (mkOp push_value ref (Some a) :: ops) ((luaH_getnum rt ref, false, f) :: fs)
| dn_sub ref va sub e fs' ops fs :
    0 < ref -> good_key (luaH_getnum rt ref) = true -> denotes_ops rt sub fs' ->
    e.(op) = tb_end -> NoDup (keys fs') -> denotes_ops rt ops fs ->
    denotes_ops rt (mkOp tb_begin ref va :: sub ++ e :: ops)
      ((luaH_getnum rt ref, true, Ftable fs') :: fs).

Scheme denotes_mind := Minimality for denotes Sort Prop
  with denotes_ops_mind := Minimality for denotes_ops Sort Prop.
Combined Scheme denotes_mutind from denotes_mind, denotes_ops_mind.

(** * Writing into the caller's buffer *)

Definition put (buf : list byte) (off : Z) (bs : list byte) : list byte :=
  take (Z.to_nat off) buf ++ bs ++ drop (Z.to_nat off + length bs) buf.

(** The two buffers differ at most in [len] bytes from [off] on. *)
Definition same_outside (off len : Z) (buf buf' : list byte) : Prop :=
  length buf' = length buf /\ take (Z.to_nat off) buf' = take (Z.to_nat off) buf /\
  drop (Z.to_nat (off + len)) buf' = drop (Z.to_nat (off + len)) buf.

Lemma write_put buf off bs : 0 <= off -> off + blen bs <= blen buf ->
  write_cells buf off bs = Ok (put buf off bs).
Proof. intros. by rewrite write_cells_ok. Qed.

Lemma put_nil buf off : put buf off [] = buf.
Proof. unfold put. simpl. by rewrite Nat.add_0_r, take_drop. Qed.

Lemma blen_put buf off bs : 0 <= off -> off + blen bs <= blen buf -> blen (put buf off bs) = blen buf.
Proof.
  unfold put, blen. intros. rewrite !length_app, length_take, length_drop. lia.
Qed.

(** Linear arithmetic on the lengths of buffers. *)
Ltac lens := first [lia | rewrite blen_put; lens | progress autorewrite with blen; lens].

Lemma put_put buf off a b : 0 <= off -> off + blen a + blen b <= blen buf ->
  put (put buf off a) (off + blen a) b = put buf off (a ++ b).
Proof.
  intros H1 H2. unfold put, blen in *.
  assert (length (take (Z.to_nat off) buf) = Z.to_nat off) as Hl by (rewrite length_take; lia).
  replace (Z.to_nat (off + Z.of_nat (length a))) with (length (take (Z.to_nat off) buf ++ a))
    by (rewrite length_app; lia).
  rewrite (app_assoc _ a), take_app_length, <- drop_drop, drop_app_length, drop_drop.
  by rewrite length_app, <- !app_assoc, Nat.add_assoc.
Qed.

Lemma same_outside_refl off len buf : same_outside off len buf buf.
Proof. done. Qed.

Lemma same_outside_trans off len a b c :
  same_outside off len a b -> same_outside off len b c -> same_outside off len a c.
Proof. intros (H1 & H2 & H3) (G1 & G2 & G3). repeat split; congruence. Qed.

Lemma same_outside_weaken off len off' len' a b :
  0 <= off' <= off -> 0 <= len -> off + len <= off' + len' ->
  same_outside off len a b -> same_outside off' len' a b.
Proof.
  intros Ho Hl Hs (H1 & H2 & H3). split; [done|]. split.
  - apply (f_equal (take (Z.to_nat off'))) in H2. rewrite !take_take in H2.
    by rewrite Nat.min_l in H2 by lia.
  - apply (f_equal (drop (Z.to_nat (off' + len') - Z.to_nat (off + len)))) in H3.
    rewrite !drop_drop in H3.
    by replace (Z.to_nat (off + len) + (Z.to_nat (off' + len') - Z.to_nat (off + len)))%nat
      with (Z.to_nat (off' + len')) in H3 by lia.
Qed.

Lemma same_outside_put buf off bs len : 0 <= off -> blen bs <= len -> off + len <= blen buf ->
  same_outside off len buf (put buf off bs).
Proof.
  intros Ho Hl Hb. pose proof (blen_nonneg bs).
  apply (same_outside_weaken off (blen bs)); [lia..|]. unfold put, same_outside, blen in *.
  assert (length (take (Z.to_nat off) buf) = Z.to_nat off) as Ht by (rewrite length_take; lia).
  repeat split.
  - rewrite !length_app, Ht, length_drop. lia.
  - by rewrite take_app_le, take_take, Nat.min_id by lia.
  - replace (Z.to_nat (off + Z.of_nat (length bs))) with (Z.to_nat off + length bs)%nat by lia.
    rewrite app_assoc, drop_app_length'; [done|]. rewrite length_app. lia.
Qed.

(** * What decoding leaves *)

Lemma decode_elements_suffix (dec : list byte -> option (data * list byte)) n bs ds bs' :
  (forall bs d bs', dec bs = Some (d, bs') -> bs' `suffix_of` bs) ->
  decode_elements dec n bs = Some (ds, bs') -> bs' `suffix_of` bs.
Proof.
  intros Hd. revert bs ds. induction n as [|n IH]; intros bs ds H; simpl in H; [by simplify_eq|].
  destruct (dec bs) as [[d b1]|] eqn:E; simpl in H; [|done]. destruct (consumed bs b1); [|done].
  destruct (decode_elements dec n b1) as [[ds' b2]|] eqn:E'; simplify_eq/=.
  etrans; [by eapply IH|by eapply Hd].
Qed.

Lemma suffix_drop {A} n (l : list A) : drop n l `suffix_of` l.
Proof. exists (take n l). by rewrite take_drop. Qed.

Lemma decode_suffix f bs d bs' : decode f bs = Some (d, bs') -> bs' `suffix_of` bs.
Proof.
  revert bs d bs'. induction f as [| | | | |fs IH|size base IH] using fmt_ind'; intros bs d bs' H;
    cbn [decode] in H.
  - destruct bs as [|b bs]; cbn [decode_number] in H; [done|]. case_match; [done|]. simplify_eq/=.
    apply suffix_cons_r, suffix_drop.
  - unfold decode_fixed in H. case_match; [done|]. simplify_eq/=. apply suffix_drop.
  - unfold decode_fixed in H. case_match; [done|]. simplify_eq/=. apply suffix_drop.
  - unfold decode_fixed in H. case_match; [done|]. simplify_eq/=. apply suffix_drop.
  - destruct bs as [|b bs]; unfold decode_string in H; [done|].
    repeat (case_match; try done); simplify_eq/=; apply suffix_cons_r; [apply suffix_drop|].
    rewrite drop_drop. apply suffix_drop.
  - destruct (decode_fields decode fs bs) as [[ds b1]|] eqn:E; simplify_eq/=.
    revert bs ds E. induction IH as [|[[k inl] f] fs Hf _ IHfs]; intros bs ds E; simpl in E; [by simplify_eq|].
    destruct (decode f bs) as [[d b1]|] eqn:E1; simpl in E; [|done].
    destruct (inl || consumed bs b1); [|done].
    destruct (decode_fields decode fs b1) as [[ds' b2]|] eqn:E2; simplify_eq/=.
    etrans; [by eapply IHfs|by eapply Hf].
  - destruct (size =? 0).
    + destruct bs as [|b bs]; [done|].
      destruct (decode_elements (decode base) _ bs) as [[ds b1]|] eqn:E; simplify_eq/=.
      apply suffix_cons_r. by eapply decode_elements_suffix.
    + destruct (decode_elements (decode base) _ bs) as [[ds b1]|] eqn:E; simplify_eq/=.
      by eapply decode_elements_suffix.
Qed.

Lemma suffix_blen {A} (l k : list A) : l `suffix_of` k -> blen l <= blen k.
Proof. intros [x ->]. rewrite blen_app. pose proof (blen_nonneg x). lia. Qed.

(** * Built values in larger heaps *)

Lemma built_mono h h' f v d : h ⊆ h' -> built h f v d -> built h' f v d.
Proof.
  intros Hh. revert v d. induction f as [| | | | |fs IH|size base IH] using fmt_ind'; intros v [z|s|ds|ds]; try done.
  - intros (l & vs & -> & Hl & Hf). exists l, vs. split; [done|]. split; [by eapply lookup_weaken|].
    clear Hl. revert vs ds Hf. induction IH as [|[[k inl] f] fs Hf _ IHfs]; intros [|v vs] [|d ds]; simpl; try done.
    intros [H1 H2]. eauto.
  - intros (l & vs & -> & Hl & Hn & Hf). exists l, vs. split; [done|]. split; [by eapply lookup_weaken|].
    split; [done|]. eapply Forall2_impl; [done|]. eauto.
Qed.

Lemma built_not_nil h f v d : built h f v d -> v ≠ LNil.
Proof. destruct f, d; simpl; try done; naive_solver. Qed.

Lemma built_fields_mono h h' fs vs ds : h ⊆ h' ->
  built_fields (built h) fs vs ds -> built_fields (built h') fs vs ds.
Proof.
  intros Hh. revert vs ds. induction fs as [|[[k inl] f] fs IH]; intros [|v vs] [|d ds]; simpl; try done.
  intros [H1 H2]. split; [by eapply built_mono|auto].
Qed.
