(* ===== verification/FormatCorrect.v ===== *)
(** [DataFormat.pack] and [DataFormat.unpack] implement the wire format of
    [WireFormat]: refinement, safety on arbitrary input, and round trips
    between two Lua states. *)
From S2P Require Import Prelude LuaApi DataFormat WireFormat.

Section Refinement.
Context {Env : LuaEnv}.

(** * Rules for the argument checks *)

Section ArgumentRules.
Context (s : list lua_value) (h : gmap positive ltable) (r g : positive).
Abbreviation L := (mkLua s h r g).

Lemma rule_type idx i v : stack_index s idx i v -> lua_type idx L = LOk (ttype v) L.
Proof. intros H. unfold lua_type. by rewrite (lua_bind_ok _ _ _ _ _ (rule_index s h r g idx i v H)). Qed.

Lemma rule_checktype idx i v t : stack_index s idx i v -> ttype v = t -> luaL_checktype idx t L = LOk () L.
Proof.
  intros H <-. unfold luaL_checktype. rewrite (lua_bind_ok _ _ _ _ _ (rule_type idx i v H)).
  by rewrite Z.eqb_refl.
Qed.

Lemma rule_tonumber idx i n : stack_index s idx i (LNumber n) -> lua_tonumber idx L = LOk n L.
Proof. intros H. unfold lua_tonumber. by rewrite (lua_bind_ok _ _ _ _ _ (rule_index s h r g idx i _ H)). Qed.

Lemma rule_istable_at idx i v : stack_index s idx i v ->
  lua_istable idx L = LOk (ttype v =? LUA_TTABLE) L.
Proof. intros H. unfold lua_istable. by rewrite (lua_bind_ok _ _ _ _ _ (rule_type idx i v H)). Qed.

Lemma rule_pushvalue idx i v : stack_index s idx i v ->
  lua_pushvalue idx L = LOk () (mkLua (v :: s) h r g).
Proof. intros H. unfold lua_pushvalue. by rewrite (lua_bind_ok _ _ _ _ _ (rule_index s h r g idx i v H)). Qed.

Lemma rule_table_at idx i l t : stack_index s idx i (LTable l) -> h !! l = Some t ->
  table_at idx L = LOk (l, t) L.
Proof.
  intros H Hl. unfold table_at. rewrite (lua_bind_ok _ _ _ _ _ (rule_index s h r g idx i _ H)).
  unfold get_state, mbind, lua_bind. cbn [heap]. by rewrite Hl.
Qed.

Lemma rule_rawgeti idx i l t n : stack_index s idx i (LTable l) -> h !! l = Some t ->
  lua_rawgeti idx n L = LOk () (mkLua (luaH_getnum t n :: s) h r g).
Proof.
  intros H Hl. unfold lua_rawgeti. by rewrite (lua_bind_ok _ _ _ _ _ (rule_table_at idx i l t H Hl)).
Qed.

Lemma rule_objlen idx i l t : stack_index s idx i (LTable l) -> h !! l = Some t ->
  lua_objlen idx L = LOk (luaH_getn l t) L.
Proof.
  intros H Hl. unfold lua_objlen. rewrite (lua_bind_ok _ _ _ _ _ (rule_index s h r g idx i _ H)).
  by rewrite (lua_bind_ok _ _ _ _ _ (rule_table_at idx i l t H Hl)).
Qed.

(** A number given for a string is replaced in its slot. *)
Lemma rule_checklstring idx i v str : stack_index s idx i v ->
  v = LString str \/ (exists n, v = LNumber n /\ str = number2str n) ->
  luaL_checklstring idx L = LOk str (mkLua (<[i := LString str]> s) h r g).
Proof.
  intros H Hv. unfold luaL_checklstring, lua_tolstring, mbind, lua_bind.
  rewrite (rule_index s h r g idx i v H). destruct Hv as [-> | (n & -> & ->)].
  - rewrite list_insert_id; [done|]. by destruct H.
  - unfold set_slot. by rewrite (rule_slot s h r g idx i _ H).
Qed.

End ArgumentRules.

#[local] Hint Resolve rule_checktype rule_tonumber rule_istable_at rule_pushvalue rule_rawgeti
  rule_objlen rule_checklstring write_put : lua.

(** * Packing *)

(** What [pack] leaves in the buffer and returns when the encoding is [obs]:
    the bytes and their number when they fit, 0 otherwise. *)
Definition pack_post (buf : list byte) (off buf_len : Z) (obs : option (list byte))
    (buf' : list byte) (n : Z) : Prop :=
  match obs with
  | Some bs =>
      if blen bs <=? buf_len then buf' = put buf off bs /\ n = blen bs
      else n = 0 /\ same_outside off buf_len buf buf'
  | None => n = 0 /\ same_outside off buf_len buf buf'
  end.

Definition pack_spec (p : packer) (h : gmap positive ltable) (r : positive) (v : lua_value)
    (obs : option (list byte)) : Prop :=
  forall s g idx i buf off buf_len, stack_index s idx i v ->
  0 <= off -> 0 <= buf_len <= INT_MAX -> off + buf_len <= blen buf ->
  exists buf' n v', p idx buf off buf_len (mkLua s h r g)
      = LOk (buf', n) (mkLua (<[i := v']> s) h r g) /\ pack_post buf off buf_len obs buf' n.

Lemma stack_insert_same s idx i v : stack_index s idx i v -> <[i := v]> s = s.
Proof. intros [H _]. by apply list_insert_id. Qed.

Lemma pack_post_fits buf off buf_len bs n : n = blen bs -> blen bs <= buf_len ->
  pack_post buf off buf_len (Some bs) (put buf off bs) n.
Proof. intros -> H. unfold pack_post. by zdecide. Qed.

Lemma pack_post_short buf off buf_len bs : buf_len < blen bs ->
  pack_post buf off buf_len (Some bs) buf 0.
Proof. intros H. unfold pack_post. by zdecide. Qed.

Lemma fixed_pack_spec h r (k : nat) n z : lua_number2int n = Ok z ->
  pack_spec (fixed_pack (Z.of_nat k)) h r (LNumber n) (Some (le_split k z)).
Proof.
  intros Hn s g idx i buf off buf_len Hi Ho Hl Hb. unfold fixed_pack. do 3 lstep.
  destruct (Z.gtb_spec (Z.of_nat k) buf_len).
  - exists buf, 0, (LNumber n). rewrite (stack_insert_same _ _ _ _ Hi). split; [done|].
    apply pack_post_short. lens.
  - rewrite Nat2Z.id. erewrite lua_bind_ok by (apply lift_ok, write_put; lens).
    eexists _, _, (LNumber n). rewrite (stack_insert_same _ _ _ _ Hi). split; [reflexivity|].
    apply pack_post_fits; lens.
Qed.

Lemma number_pack_spec h r n z : lua_number2int n = Ok z ->
  pack_spec number_pack h r (LNumber n) (Some (number_bytes z)).
Proof.
  intros Hn s g idx i buf off buf_len Hi Ho Hl Hb. unfold number_pack. do 3 lstep.
  assert (in_int z = true) as Hz.
  { unfold lua_number2int in Hn. repeat case_match; by simplify_eq. }
  unfold number_bytes. rewrite (number_magnitude_abs z Hz).
  destruct (number_len_spec (Z.abs z)) as [Hlen _].
  { unfold in_int in Hz. bool_props. unfold INT_MIN, INT_MAX in *. lia. }
  set (len := number_len (Z.abs z)) in *. set (b := number_type _ _).
  rewrite (proj2 (Z.eqb_neq _ _)) by lia.
  destruct (Z.gtb_spec (1 + len) buf_len).
  - exists buf, 0, (LNumber n). rewrite (stack_insert_same _ _ _ _ Hi). split; [done|].
    apply pack_post_short. lens.
  - erewrite lua_bind_ok by (apply lift_ok, write_put; lens).
    erewrite lua_bind_ok by (apply lift_ok, write_put; lens).
    eexists _, _, (LNumber n). rewrite (stack_insert_same _ _ _ _ Hi). split; [reflexivity|].
    change (off + 1) with (off + blen [b]). rewrite put_put by lens. cbn [app].
    apply pack_post_fits; lens.
Qed.

Lemma string_pack_spec h r v str :
  v = LString str \/ (exists n, v = LNumber n /\ str = number2str n) -> blen str < INT_MAX ->
  pack_spec string_pack h r v (string_bytes str).
Proof.
  intros Hv Hstr s g idx i buf off buf_len Hi Ho Hl Hb. unfold string_pack.
  lstep. pose proof (blen_nonneg str). unfold INT_MAX in *.
  rewrite (wrap32_small (blen str)) by (unfold INT_MIN, INT_MAX; lia).
  rewrite chk_int_ok by (unfold INT_MIN, INT_MAX; lia). lstep.
  unfold string_bytes. set (id := blen str + 1) in *.
  destruct (Z.leb_spec id 255); [|destruct (Z.leb_spec id 65535)].
  - rewrite wrap32_small by (unfold INT_MIN, INT_MAX; lia).
    destruct (Z.gtb_spec id buf_len); eexists _, _, _.
    + split; [reflexivity|]. apply pack_post_short. lens.
    + do 2 erewrite lua_bind_ok by (apply lift_ok, write_put; lens). split; [reflexivity|].
      change (off + 1) with (off + blen (le_split 1 id)). rewrite put_put by lens.
      apply pack_post_fits; lens.
  - rewrite wrap32_small by (unfold INT_MIN, INT_MAX; lia).
    destruct (Z.gtb_spec (blen str + 3) buf_len); eexists _, _, _.
    + split; [reflexivity|]. apply pack_post_short. lens.
    + do 3 erewrite lua_bind_ok by (apply lift_ok, write_put; lens). split; [reflexivity|].
      change (off + 3) with (off + blen ([Byte.x00] ++ le_split 2 id)).
      change (off + 1) with (off + blen [Byte.x00]).
      rewrite !put_put by lens. rewrite <- app_assoc. cbn [app].
      apply pack_post_fits; lens.
  - eexists _, _, _. split; [reflexivity|]. done.
Qed.

Section PackTables.
Context (pk : fcall_arg -> packer) (top off buf_len : Z).
Abbreviation loop := (table_pack_loop pk top off buf_len).

Lemma pack_loop_begin ref va ops buf used :
  loop (mkOp tb_begin ref va :: ops) buf used =
  (_ ← lift (require (0 <? ref) AssertFailed);
   _ ← lua_getref ref;
   _ ← lua_rawget (-2);
   istable ← lua_istable (-1);
   if istable : bool then loop ops buf used else _ ← lua_settop top; luaL_typerror (-1)).
Proof. reflexivity. Qed.

Lemma pack_loop_value ref a ops buf used :
  loop (mkOp push_value ref (Some a) :: ops) buf used =
  (_ ← lift (require (negb (ref =? LUA_NOREF)) AssertFailed);
   _ ← lua_getref ref;
   _ ← lua_rawget (-2);
   data_in ← lua_gettop;
   '(buf, cur_used) ← pk a data_in buf (off + used) (buf_len - used);
   if cur_used =? 0 then _ ← lua_settop top; mret (buf, 0) else
   _ ← lua_pop 1; loop ops buf (used + cur_used)).
Proof. reflexivity. Qed.

Lemma pack_loop_end e ops buf used : e.(op) = tb_end ->
  loop (e :: ops) buf used = (_ ← lua_pop 1; loop ops buf used).
Proof. destruct e. simpl. by intros ->. Qed.

End PackTables.

(** The loop over the opcodes of the fields encoded by [obs]: it goes on to
    the remaining opcodes with the bytes written, or it gives up. *)
Definition pack_loop_post (rest : list (table_opcode fcall_arg)) (obs : option (list byte))
    (ops : list (table_opcode fcall_arg)) (s : list lua_value) (st : lua_State)
    (buf : list byte) (off buf_len used : Z) : Prop :=
  let loop := table_pack_loop pack (blen s) off buf_len in
  let fails := exists buf', loop (ops ++ rest) buf used st
                 = LOk (buf', 0) (mkLua s (heap st) (registry st) (globals st))
                 /\ same_outside (off + used) (buf_len - used) buf buf' in
  match obs with
  | Some bs =>
      if used + blen bs <=? buf_len
      then loop (ops ++ rest) buf used st = loop rest (put buf (off + used) bs) (used + blen bs) st
      else fails
  | None => fails
  end.

Definition packs_ops (rt : ltable) (ops : list (table_opcode fcall_arg)) (fs : list field) : Prop :=
  forall h r g s x l t ds rest buf off buf_len used,
  h !! r = Some rt -> h !! l = Some t -> has_fields (has h) t fs ds ->
  0 <= off -> 0 <= used <= buf_len -> buf_len <= INT_MAX -> off + buf_len <= blen buf ->
  pack_loop_post rest (encode_fields encode fs ds) ops s (mkLua (LTable l :: x ++ s) h r g)
    buf off buf_len used.

Definition packs_arg (rt : ltable) (a : fcall_arg) (f : fmt) : Prop :=
  forall h r v d, h !! r = Some rt -> has h f v d -> pack_spec (pack a) h r v (encode f d).

(** Fields that take the bytes [bs1], then the remaining ones. *)
Lemma pack_loop_seq rest obs ops ops' s st buf off buf_len used bs1 :
  0 <= off -> 0 <= used -> used + blen bs1 <= buf_len -> off + buf_len <= blen buf ->
  (let loop := table_pack_loop pack (blen s) off buf_len in
   loop (ops ++ rest) buf used st = loop (ops' ++ rest) (put buf (off + used) bs1) (used + blen bs1) st) ->
  pack_loop_post rest obs ops' s st (put buf (off + used) bs1) off buf_len (used + blen bs1) ->
  pack_loop_post rest (bs ← obs; Some (bs1 ++ bs)) ops s st buf off buf_len used.
Proof.
  intros Ho Hu Hf Hb Heq Hp. unfold pack_loop_post in *. rewrite Heq. clear Heq.
  pose proof (blen_nonneg bs1) as Hbs1.
  assert (same_outside (off + used) (buf_len - used) buf (put buf (off + used) bs1)) as Hso
    by (apply same_outside_put; lia).
  assert (forall buf', same_outside (off + (used + blen bs1)) (buf_len - (used + blen bs1))
            (put buf (off + used) bs1) buf' -> same_outside (off + used) (buf_len - used) buf buf') as Hlift.
  { intros buf' H. eapply same_outside_trans; [exact Hso|]. eapply same_outside_weaken; [..|exact H]; lia. }
  destruct obs as [bs2|]; cbn [mbind option_bind].
  - rewrite blen_app. pose proof (blen_nonneg bs2).
    replace (used + (blen bs1 + blen bs2)) with (used + blen bs1 + blen bs2) by lia.
    destruct (Z.leb_spec (used + blen bs1 + blen bs2) buf_len).
    + rewrite Hp. replace (off + (used + blen bs1)) with (off + used + blen bs1) by lia.
      by rewrite put_put by lens.
    + destruct Hp as (buf' & He & Hs'). eauto.
  - destruct Hp as (buf' & He & Hs'). eauto.
Qed.

(** Fields that do not fit or cannot be encoded. *)
Lemma pack_loop_fails rest obs ops s st buf buf' off buf_len used :
  table_pack_loop pack (blen s) off buf_len (ops ++ rest) buf used st
    = LOk (buf', 0) (mkLua s (heap st) (registry st) (globals st)) ->
  same_outside (off + used) (buf_len - used) buf buf' ->
  (forall bs, obs = Some bs -> buf_len < used + blen bs) ->
  pack_loop_post rest obs ops s st buf off buf_len used.
Proof.
  intros He Hs Hl. unfold pack_loop_post. destruct obs as [bs|]; [|eauto].
  specialize (Hl bs eq_refl). zdecide. eauto.
Qed.

Lemma packs_value rt ref a f ops fs :
  0 < ref -> packs_arg rt a f -> packs_ops rt ops fs ->
  packs_ops rt (mkOp push_value ref (Some a) :: ops) ((luaH_getnum rt ref, false, f) :: fs).
Proof.
  intros Href IHa IHops h r g s x l t [|d ds] rest buf off buf_len used Hr Hl Hh Ho Hu Hi Hb; [done|].
  destruct Hh as [Hv Hh]. cbn [encode_fields]. set (k := luaH_getnum rt ref) in *.
  destruct (IHa h r _ d Hr Hv (luaH_get t k :: LTable l :: x ++ s) g _ 0%nat buf (off + used)
    (buf_len - used) (stack_index_gettop _ _)) as (buf' & n & v' & Hp & Hpost); [lia..|].
  assert (table_pack_loop pack (blen s) off buf_len ((mkOp push_value ref (Some a) :: ops) ++ rest) buf used
      (mkLua (LTable l :: x ++ s) h r g) =
    (if n =? 0 then LOk (buf', 0) (mkLua s h r g)
     else table_pack_loop pack (blen s) off buf_len (ops ++ rest) buf' (used + n)
       (mkLua (LTable l :: x ++ s) h r g))) as Heq.
  { cbn [app]. rewrite pack_loop_value. unfold LUA_NOREF. rewrite (proj2 (Z.eqb_neq ref (-2))) by lia. do 4 lstep.
    erewrite lua_bind_ok by exact Hp. cbn [insert list_insert].
    destruct (n =? 0); [|by lstep].
    change (v' :: LTable l :: x ++ s) with (([v'; LTable l] ++ x) ++ s).
    by erewrite lua_bind_ok by apply rule_settop. }
  destruct (encode f d) as [bs|]; cbn [mbind option_bind negb andb]; cbn [pack_post] in Hpost.
  - pose proof (blen_nonneg bs). destruct (Z.leb_spec (blen bs) (buf_len - used)).
    + destruct Hpost as [-> ->]. destruct bs as [|b0 bs].
      * rewrite bool_decide_true by done. eapply pack_loop_fails; [exact Heq| |done].
        rewrite put_nil. apply same_outside_refl.
      * rewrite bool_decide_false by done. eapply pack_loop_seq; [lia..| |].
        -- rewrite (proj2 (Z.eqb_neq _ _)) in Heq by (rewrite blen_cons; pose proof (blen_nonneg bs); lia).
           exact Heq.
        -- apply IHops with t; auto; try lia; lens.
    + destruct Hpost as [-> Hs]. case_bool_decide; subst; [rewrite blen_nil in *; lia|].
      eapply pack_loop_fails; [exact Heq|exact Hs|].
      intros bs' Hbs'. destruct (encode_fields _ fs ds) as [bs2|]; simplify_eq/=.
      rewrite blen_app. pose proof (blen_nonneg bs2). lia.
  - destruct Hpost as [-> Hs]. eapply pack_loop_fails; [exact Heq|exact Hs|done].
Qed.

Lemma packs_sub rt ref va sub e fs' ops fs :
  0 < ref -> packs_ops rt sub fs' -> e.(op) = tb_end -> packs_ops rt ops fs ->
  packs_ops rt (mkOp tb_begin ref va :: sub ++ e :: ops) ((luaH_getnum rt ref, true, Ftable fs') :: fs).
Proof.
  intros Href IHsub He IHops h r g s x l t [|d ds] rest buf off buf_len used Hr Hl Hh Ho Hu Hi Hb; [done|].
  destruct Hh as [Hv Hh]. cbn [encode_fields]. set (k := luaH_getnum rt ref) in *.
  destruct d as [| |ds'|]; try done. destruct Hv as (l' & t' & Hk & Hl' & Hsub).
  change (encode (Ftable fs') (DTable ds')) with (encode_fields encode fs' ds').
  cbn [negb andb].
  assert (forall ops', table_pack_loop pack (blen s) off buf_len (mkOp tb_begin ref va :: ops') buf used
      (mkLua (LTable l :: x ++ s) h r g) =
    table_pack_loop pack (blen s) off buf_len ops' buf used
      (mkLua (LTable l' :: (LTable l :: x) ++ s) h r g)) as Heq.
  { intros ops'. rewrite pack_loop_begin. rewrite (proj2 (Z.ltb_lt 0 ref)) by lia. do 3 lstep.
    fold k. rewrite Hk. by lstep. }
  assert ((mkOp tb_begin ref va :: sub ++ e :: ops) ++ rest
    = mkOp tb_begin ref va :: sub ++ e :: ops ++ rest) as Happ by (simpl; by rewrite <- app_assoc).
  specialize (IHsub h r g s (LTable l :: x) l' t' ds' (e :: ops ++ rest) buf off buf_len used
    Hr Hl' Hsub Ho Hu Hi Hb).
  unfold pack_loop_post in IHsub. cbn zeta in IHsub. rewrite <- Heq, <- Happ in IHsub.
  destruct (encode_fields encode fs' ds') as [bs|]; cbn [mbind option_bind].
  - pose proof (blen_nonneg bs). destruct (Z.leb_spec (used + blen bs) buf_len).
    + eapply pack_loop_seq; [lia..| |apply IHops with t; auto; lens].
      cbn zeta. rewrite IHsub, pack_loop_end by done. by lstep.
    + destruct IHsub as (buf' & Hp & Hs). eapply pack_loop_fails; [exact Hp|exact Hs|].
      intros bs' Hbs'. destruct (encode_fields _ fs ds) as [bs2|]; simplify_eq/=.
      rewrite blen_app. pose proof (blen_nonneg bs2). lia.
  - destruct IHsub as (buf' & Hp & Hs). eapply pack_loop_fails; [exact Hp|exact Hs|done].
Qed.

Lemma packs_nil rt : packs_ops rt [] [].
Proof.
  intros h r g s x l t [|d ds] rest buf off buf_len used Hr Hl Hh Ho Hu Hi Hb; [|done].
  unfold pack_loop_post. cbn [encode_fields app]. rewrite blen_nil, Z.add_0_r, put_nil. by zdecide.
Qed.

Lemma packs_table rt ty hs ops e fs :
  packs_ops rt ops fs -> e.(op) = tb_end ->
  packs_arg rt (fcall_table_arg ty hs (ops ++ [e])) (Ftable fs).
Proof.
  intros IH He h r v d Hr Hh s g idx i buf off buf_len Hi Ho Hl Hb.
  destruct d as [| |ds|]; try done. destruct Hh as (l & t & -> & Hlt & Hf).
  change (pack (fcall_table_arg ty hs (ops ++ [e]))) with (table_pack pack (ops ++ [e])).
  unfold table_pack. do 2 lstep. cbn [ttype]. change (LUA_TTABLE =? LUA_TTABLE) with true. cbv iota.
  lstep.
  specialize (IH h r g s [] l t ds [e] buf off buf_len 0 Hr Hlt Hf Ho).
  unfold pack_loop_post in IH. cbn zeta in IH. rewrite Z.add_0_r, Z.sub_0_r in IH.
  cbn [app] in IH.
  change (encode (Ftable fs) (DTable ds)) with (encode_fields encode fs ds).
  assert (forall bs, table_pack_loop pack (blen s) off buf_len [e] (put buf off bs) (blen bs)
     (mkLua (LTable l :: s) h r g) = LOk (put buf off bs, blen bs) (mkLua s h r g)) as Hend.
  { intros bs. rewrite pack_loop_end by done. lstep.
    change (table_pack_loop pack (blen s) off buf_len [] (put buf off bs) (blen bs))
      with (_ ← lua_settop (blen s); mret (M := lua) (put buf off bs, blen bs)). by lstep. }
  unfold pack_post.
  destruct (encode_fields encode fs ds) as [bs|].
  - rewrite Z.add_0_l in IH. destruct (Z.leb_spec (blen bs) buf_len).
    + rewrite IH, Hend by lia. eexists _, _, (LTable l). by rewrite (stack_insert_same _ _ _ _ Hi).
    + destruct IH as (buf' & Hp & Hs); [lia..|]. eexists _, _, (LTable l).
      rewrite (stack_insert_same _ _ _ _ Hi). split; [exact Hp|done].
  - destruct IH as (buf' & Hp & Hs); [lia..|]. eexists _, _, (LTable l).
    rewrite (stack_insert_same _ _ _ _ Hi). split; [exact Hp|done].
Qed.

(** The elements encoded by [obs] are packed after [used] bytes. *)
Definition array_loop_post (run : lres (list byte * Z)) (obs : option (list byte)) (L : lua_State)
    (buf : list byte) (off buf_len used : Z) : Prop :=
  let fails := exists buf', run = LOk (buf', 0) L /\ same_outside (off + used) (buf_len - used) buf buf' in
  match obs with
  | Some bs =>
      if used + blen bs <=? buf_len then run = LOk (put buf (off + used) bs, used + blen bs) L else fails
  | None => fails
  end.

Lemma array_loop_seq run obs L buf off buf_len used bs1 :
  0 <= off -> 0 <= used -> used + blen bs1 <= buf_len -> off + buf_len <= blen buf ->
  array_loop_post run obs L (put buf (off + used) bs1) off buf_len (used + blen bs1) ->
  array_loop_post run (bs ← obs; Some (bs1 ++ bs)) L buf off buf_len used.
Proof.
  intros Ho Hu Hf Hb Hp. unfold array_loop_post in *. pose proof (blen_nonneg bs1) as Hbs1.
  assert (forall buf', same_outside (off + (used + blen bs1)) (buf_len - (used + blen bs1))
            (put buf (off + used) bs1) buf' -> same_outside (off + used) (buf_len - used) buf buf') as Hlift.
  { intros buf' H. eapply same_outside_trans; [apply same_outside_put with (bs := bs1); lia|].
    eapply same_outside_weaken; [..|exact H]; lia. }
  destruct obs as [bs2|]; cbn [mbind option_bind]; [|destruct Hp as (buf' & He & Hs'); eauto].
  rewrite blen_app. pose proof (blen_nonneg bs2).
  replace (used + (blen bs1 + blen bs2)) with (used + blen bs1 + blen bs2) by lia.
  destruct (Z.leb_spec (used + blen bs1 + blen bs2) buf_len); [|destruct Hp as (buf' & He & Hs'); eauto].
  rewrite Hp. replace (off + (used + blen bs1)) with (off + used + blen bs1) by lia.
  by rewrite put_put by lens.
Qed.

Lemma array_loop_fails run obs L buf buf' off buf_len used :
  run = LOk (buf', 0) L -> same_outside (off + used) (buf_len - used) buf buf' ->
  (forall bs, obs = Some bs -> buf_len < used + blen bs) ->
  array_loop_post run obs L buf off buf_len used.
Proof.
  intros He Hs Hl. unfold array_loop_post. destruct obs as [bs|]; [|eauto].
  specialize (Hl bs eq_refl). zdecide. eauto.
Qed.

Lemma packs_elements p f h r g s idx k l t off buf_len :
  (forall v d, has h f v d -> pack_spec p h r v (encode f d)) ->
  stack_index s idx k (LTable l) -> h !! l = Some t -> 0 <= off -> buf_len <= INT_MAX ->
  forall ds i buf used, (forall j d, ds !! j = Some d -> has h f (luaH_getnum t (i + Z.of_nat j)) d) ->
  0 <= used <= buf_len -> off + buf_len <= blen buf ->
  array_loop_post (array_pack_loop p (blen s) idx off buf_len (length ds) i buf used (mkLua s h r g))
    (encode_elements (encode f) ds) (mkLua s h r g) buf off buf_len used.
Proof.
  intros Hp Hi Hl Ho Hm ds. induction ds as [|d ds IH]; intros i buf used Hd Hu Hb.
  { unfold array_loop_post. cbn [encode_elements]. rewrite blen_nil, Z.add_0_r, put_nil. by zdecide. }
  assert (has h f (luaH_getnum t i) d) as Hv by (rewrite <- (Z.add_0_r i); apply (Hd 0%nat); done).
  destruct (Hp _ _ Hv (luaH_getnum t i :: s) g (-1) 0%nat buf (off + used) (buf_len - used)
    (stack_index_top _ _)) as (buf' & n & v' & Hrun & Hpost); [lia..|].
  cbn [array_pack_loop length].
  erewrite lua_bind_ok by (eapply rule_rawgeti; eauto).
  erewrite lua_bind_ok by exact Hrun. cbn [insert list_insert].
  assert (forall i buf used, _ -> _ -> _ -> _) as IH' by exact IH. clear IH.
  cbn [encode_elements]. destruct (encode f d) as [bs|]; cbn [mbind option_bind]; cbn [pack_post] in Hpost.
  - pose proof (blen_nonneg bs). destruct (Z.leb_spec (blen bs) (buf_len - used)).
    + destruct Hpost as [-> ->]. destruct bs as [|b0 bs].
      * rewrite bool_decide_true by done. change (blen [] =? 0) with true. cbv iota. lstep.
        eapply array_loop_fails; [reflexivity| |done]. rewrite put_nil. apply same_outside_refl.
      * rewrite bool_decide_false by done.
        rewrite (proj2 (Z.eqb_neq _ _)) by (rewrite blen_cons; pose proof (blen_nonneg bs); lia).
        lstep. eapply array_loop_seq; [lia..|]. apply IH'; [|lia|lens].
        intros j d' Hj. replace (i + 1 + Z.of_nat j) with (i + Z.of_nat (S j)) by lia. by apply Hd.
    + destruct Hpost as [-> Hs]. case_bool_decide; subst; [rewrite blen_nil in *; lia|].
      cbv iota. change (0 =? 0) with true. cbv iota. lstep. eapply array_loop_fails; [reflexivity|exact Hs|].
      intros bs' Hbs'. destruct (encode_elements _ ds) as [bs2|]; simplify_eq/=.
      rewrite blen_app. pose proof (blen_nonneg bs2). lia.
  - destruct Hpost as [-> Hs]. change (0 =? 0) with true. cbv iota. lstep.
    eapply array_loop_fails; [reflexivity|exact Hs|done].
Qed.

Lemma array_post_pack run obs s idx i v h r g buf off buf_len :
  stack_index s idx i v -> array_loop_post run obs (mkLua s h r g) buf off buf_len 0 ->
  exists buf' n v', run = LOk (buf', n) (mkLua (<[i := v']> s) h r g) /\ pack_post buf off buf_len obs buf' n.
Proof.
  intros Hi Hp. unfold array_loop_post in Hp. rewrite Z.add_0_r, Z.sub_0_r in Hp. unfold pack_post.
  destruct obs as [bs|]; [rewrite Z.add_0_l in Hp; destruct (blen bs <=? buf_len)|];
    try destruct Hp as (buf' & Hp & Hs); eexists _, _, v; rewrite (stack_insert_same _ _ _ _ Hi); eauto.
Qed.

Lemma packs_array rt hs base size f :
  packs_arg rt base f -> packs_arg rt (fcall_array_arg hs base size) (Farray size f).
Proof.
  intros IH h r v d Hr Hh s g idx i buf off buf_len Hi Ho Hl Hb.
  destruct d as [| | |ds]; try done. destruct Hh as (l & t & -> & Hlt & Hn & Hel).
  change (pack (fcall_array_arg hs base size)) with (array_pack (pack base) size).
  unfold array_pack. do 2 lstep. change (ttype (LTable l) =? LUA_TTABLE) with true. cbv iota.
  assert (forall j d, ds !! j = Some d -> has h f (luaH_getnum t (1 + Z.of_nat j)) d) as Hel'.
  { intros j d Hj. rewrite Z.add_comm. by apply Hel. }
  pose proof (blen_nonneg ds).
  assert (forall buf0 used, off + buf_len <= blen buf0 -> 0 <= used <= buf_len ->
    array_loop_post (array_pack_loop (pack base) (blen s) idx off buf_len (length ds) 1 buf0 used (mkLua s h r g))
      (encode_elements (encode f) ds) (mkLua s h r g) buf0 off buf_len used) as Hloop.
  { intros buf0 used Hb0 Hu. eapply packs_elements; eauto; lia. }
  cbn [encode]. fold (blen ds).
  destruct (Z.eqb_spec size 0) as [->|Hsize].
  - destruct Hn as [Hn Hmax].
    lstep. rewrite Hn, wrap32_small by (unfold INT_MIN, INT_MAX in *; lia).
    destruct (Z.gtb_spec 1 buf_len).
    { exists buf, 0, (LTable l). rewrite (stack_insert_same _ _ _ _ Hi). split; [done|].
      unfold pack_post. repeat case_match; try done. destruct (encode_elements _ _) as [bs|]; simplify_eq/=.
      bool_props. rewrite blen_cons in *. pose proof (blen_nonneg bs). lia. }
    erewrite lua_bind_ok by (apply lift_ok, write_put; lens).
    set (b := byte.of_Z (blen ds)).
    destruct (Z.gtb_spec (blen ds) 512) as [H512|H512].
    { exists (put buf off [b]), 0, (LTable l). rewrite (stack_insert_same _ _ _ _ Hi). split; [done|].
      split; [done|]. apply same_outside_put; lens. }
    assert (Z.to_nat (blen ds) = length ds) as -> by (unfold blen; lia).
    assert (off + buf_len <= blen (put buf off [b])) as Hb' by lens.
    apply (array_post_pack _ _ _ idx _ (LTable l)); [done|].
    apply (array_loop_seq _ _ _ buf off buf_len 0 [b]); [lens..|].
    rewrite Z.add_0_r. by apply Hloop.
  - subst size. destruct (Z.gtb_spec (blen ds) 512) as [H512|H512].
    { exists buf, 0, (LTable l). by rewrite (stack_insert_same _ _ _ _ Hi). }
    assert (Z.to_nat (blen ds) = length ds) as -> by (unfold blen; lia).
    apply (array_post_pack _ _ _ idx _ (LTable l)); [done|].
    apply (array_loop_seq _ _ _ buf off buf_len 0 []); [lens..|].
    rewrite put_nil. apply Hloop; lens.
Qed.

Lemma pack_implements rt a f : denotes rt a f -> packs_arg rt a f.
Proof.
  intros H. eapply (denotes_mind rt (packs_arg rt) (packs_ops rt)); [..|exact H]; clear H a f; try done;
    try (intros h r v [z|str|ds|ds] Hr Hh; try done).
  - destruct Hh as (n & -> & Hn). by apply number_pack_spec.
  - destruct Hh as (n & -> & Hn). by apply (fixed_pack_spec h r 1).
  - destruct Hh as (n & -> & Hn). by apply (fixed_pack_spec h r 2).
  - destruct Hh as (n & -> & Hn). by apply (fixed_pack_spec h r 4).
  - destruct Hh as [Hv Hs]. by apply string_pack_spec.
  - intros ty hs ops e fs _ IH He _. by apply packs_table.
  - intros hs base size f _ IH. by apply packs_array.
  - apply packs_nil.
  - intros ref a f ops fs Href _ _ IHa _ IHops. by apply packs_value.
  - intros ref va sub e fs' ops fs Href _ _ IHsub He _ _ IHops. by apply packs_sub.
Qed.

(** * Unpacking *)

(** The bytes an [unpack] call may read. *)
Definition window (buf : list byte) (off len : Z) : list byte :=
  take (Z.to_nat len) (drop (Z.to_nat off) buf).

Lemma blen_window buf off len : 0 <= off -> 0 <= len -> off + len <= blen buf -> blen (window buf off len) = len.
Proof. intros. unfold window, blen in *. rewrite length_take, length_drop. lia. Qed.

Lemma take_window buf off len k : 0 <= k <= len -> take (Z.to_nat k) (window buf off len) = window buf off k.
Proof. intros. unfold window. rewrite take_take. f_equal. lia. Qed.

Lemma drop_window buf off len k : 0 <= k <= len -> 0 <= off ->
  drop (Z.to_nat k) (window buf off len) = window buf (off + k) (len - k).
Proof.
  intros. unfold window. rewrite skipn_firstn_comm, drop_drop. f_equal; [lia|f_equal; lia].
Qed.

Lemma window_suffix buf off len bs : 0 <= off -> 0 <= len -> off + len <= blen buf ->
  bs `suffix_of` window buf off len ->
  bs = window buf (off + (len - blen bs)) (blen bs) /\ 0 <= blen bs <= len.
Proof.
  intros Ho Hl Hb [x Hx]. assert (len = blen x + blen bs) as Hlen.
  { rewrite <- blen_app, <- Hx. by rewrite blen_window. }
  pose proof (blen_nonneg x). pose proof (blen_nonneg bs). split; [|lia].
  pose proof (drop_window buf off len (blen x) ltac:(lia) Ho) as Hd.
  rewrite Hx, drop_blen_app in Hd. rewrite Hd at 1. f_equal; lia.
Qed.

(** [u] unpacks the format [f]: it pushes the value it decoded and returns
    the number of bytes read, or returns 0 and leaves values to be dropped.
    Existing tables are not touched. *)
Definition unpack_post (run : lres Z) (s : list lua_value) (h : gmap positive ltable) (r g : positive)
    (f : fmt) (bs : list byte) : Prop :=
  match decode f bs with
  | Some (d, bs') => exists h' v,
      run = LOk (blen bs - blen bs') (mkLua (v :: s) h' r g) /\ h ⊆ h' /\ built (h' ∖ h) f v d
  | None => exists x h', run = LOk 0 (mkLua (x ++ s) h' r g) /\ h ⊆ h'
  end.

Definition unpacks_arg (rt : ltable) (a : fcall_arg) (f : fmt) : Prop :=
  forall s h r g buf off buf_len, h !! r = Some rt -> 0 <= off -> 0 <= buf_len ->
  off + buf_len <= blen buf ->
  unpack_post (unpack a buf off buf_len (mkLua s h r g)) s h r g f (window buf off buf_len).

Lemma read_window buf off len : 0 <= off -> 0 <= len -> off + len <= blen buf ->
  read_cells buf off len = Ok (window buf off len).
Proof. intros. by rewrite read_cells_ok. Qed.

Lemma window_empty buf off : window buf off 0 = [].
Proof. done. Qed.

Lemma window_cons buf off len : 0 <= off -> 0 < len -> off + len <= blen buf ->
  exists b, window buf off 1 = [b] /\ window buf off len = b :: window buf (off + 1) (len - 1).
Proof.
  intros Ho Hl Hb. pose proof (blen_window buf off 1 Ho ltac:(lia) ltac:(lia)) as H1.
  destruct (window buf off 1) as [|b [|b' w]] eqn:E; [done| |exfalso].
  - exists b. split; [done|]. rewrite <- (take_drop (Z.to_nat 1) (window buf off len)).
    rewrite take_window, drop_window, E by lia. done.
  - rewrite !blen_cons in H1. pose proof (blen_nonneg w). lia.
Qed.

Lemma fixed_unpack_spec (k : nat) value f s h r g buf off buf_len :
  0 <= off -> 0 <= buf_len -> off + buf_len <= blen buf ->
  (forall bs, length bs = k -> in_int (value bs) = true) ->
  (forall bs, decode f bs = prod_map DNum id <$> decode_fixed (Z.of_nat k) value bs) ->
  (forall h v z, built h f v (DNum z) <-> v = LNumber (NInt z) /\ in_int z = true) ->
  unpack_post (fixed_unpack (Z.of_nat k) value buf off buf_len (mkLua s h r g)) s h r g f (window buf off buf_len).
Proof.
  intros Ho Hl Hb Hv Hd Hbuilt. unfold unpack_post, fixed_unpack. rewrite Hd. unfold decode_fixed.
  rewrite blen_window by done. destruct (Z.gtb_spec (Z.of_nat k) buf_len); cbn [fmap option_fmap option_map prod_map fst snd id].
  { by exists [], h. }
  erewrite lua_bind_ok by (apply lift_ok, read_window; lia). lstep.
  rewrite take_window, drop_window by lia. rewrite blen_window by lia.
  eexists h, _. split; [do 2 f_equal; lia|]. split; [done|]. rewrite Hbuilt. split; [done|].
  apply Hv. pose proof (blen_window buf off (Z.of_nat k) Ho ltac:(lia) ltac:(lia)). unfold blen in *. lia.
Qed.

Lemma number_unpack_spec s h r g buf off buf_len : 0 <= off -> 0 <= buf_len -> off + buf_len <= blen buf ->
  unpack_post (number_unpack buf off buf_len (mkLua s h r g)) s h r g Fnumber (window buf off buf_len).
Proof.
  intros Ho Hl Hb. unfold unpack_post, number_unpack. cbn [decode].
  destruct (Z.gtb_spec 1 buf_len).
  { assert (buf_len = 0) as -> by lia. rewrite window_empty. cbn. by exists [], h. }
  destruct (window_cons buf off buf_len Ho ltac:(lia) Hb) as (b & Hb1 & Hw).
  erewrite lua_bind_ok by (apply lift_ok, read_window; lia). rewrite Hb1, Hw. unfold decode_number.
  set (len := Z.shiftr (le_combine [b]) 1). rewrite blen_window by lia.
  destruct ((len <=? 0) || (len >=? 5)) eqn:Hc; cbn [orb fmap option_fmap option_map].
  { by exists [], h. }
  apply orb_false_iff in Hc as [Hc1%Z.leb_gt Hc2]. rewrite Z.geb_leb in Hc2. apply Z.leb_gt in Hc2.
  assert ((len >? buf_len - 1) = (1 + len >? buf_len)) as -> by (apply gtb_eq; lia).
  destruct (Z.gtb_spec (1 + len) buf_len); cbn [fmap option_fmap option_map prod_map fst snd id].
  { by exists [], h. }
  erewrite lua_bind_ok by (apply lift_ok, read_window; lia). lstep.
  rewrite take_window, drop_window by lia.
  rewrite blen_cons, !blen_window by lia.
  eexists h, _. split; [do 2 f_equal; lia|]. split; [done|]. split; [done|].
  match goal with |- in_int ?z = true => assert (INT_MIN <= z <= INT_MAX) as Hr end.
  { destruct (Z.testbit _ _); apply wrap32_range. }
  unfold in_int. by zdecide.
Qed.

Lemma string_unpack_spec s h r g buf off buf_len : 0 <= off -> 0 <= buf_len -> off + buf_len <= blen buf ->
  unpack_post (string_unpack buf off buf_len (mkLua s h r g)) s h r g Fstring (window buf off buf_len).
Proof.
  intros Ho Hl Hb. unfold unpack_post, string_unpack. cbn [decode].
  destruct (Z.gtb_spec 1 buf_len).
  { assert (buf_len = 0) as -> by lia. rewrite window_empty. cbn. by exists [], h. }
  destruct (window_cons buf off buf_len Ho ltac:(lia) Hb) as (b & Hb1 & Hw).
  erewrite lua_bind_ok by (apply lift_ok, read_window; lia). rewrite Hb1, Hw. unfold decode_string.
  pose proof (le_combine_bound [b]) as Hbound. change (2 ^ (8 * Z.of_nat (length [b]))) with 256 in Hbound.
  set (sid := le_combine [b]) in *. rewrite blen_window by lia.
  destruct (Z.gtb_spec sid 0).
  - destruct (Z.eqb_spec (sid - 1) 0) as [E|E].
    { rewrite E, take_window, drop_window by lia. zdecide. lstep.
      cbn [fmap option_fmap option_map prod_map fst snd]. rewrite blen_cons. unfold id.
      rewrite !blen_window by lia. eexists h, _. split; [do 2 f_equal; lia|]. done. }
    assert ((sid - 1 >? buf_len - 1) = (1 + (sid - 1) >? buf_len)) as -> by (apply gtb_eq; lia).
    destruct (Z.gtb_spec (1 + (sid - 1)) buf_len); cbn [fmap option_fmap option_map prod_map fst snd].
    { by exists [], h. }
    erewrite lua_bind_ok by (apply lift_ok, read_window; lia). lstep.
    rewrite take_window, drop_window by lia. rewrite blen_cons. unfold id. rewrite !blen_window by lia.
    eexists h, _. split; [do 2 f_equal; lia|]. split; [done|]. split; [done|].
    rewrite blen_window by lia. unfold INT_MAX. lia.
  - assert (sid = 0) as -> by lia. lstep.
    assert ((2 >? buf_len - 1) = (3 >? buf_len)) as -> by (apply gtb_eq; lia).
    destruct (Z.gtb_spec 3 buf_len); cbn [fmap option_fmap option_map prod_map fst snd].
    { by exists [], h. }
    erewrite lua_bind_ok by (apply lift_ok, read_window; lia).
    change 2%nat with (Z.to_nat 2). rewrite take_window, drop_window by lia.
    pose proof (le_combine_bound (window buf (off + 1) 2)) as Hb2.
    assert (Z.of_nat (length (window buf (off + 1) 2)) = 2) as Hl2 by (apply (blen_window buf (off + 1) 2); lia).
    rewrite Hl2 in Hb2. set (len := le_combine (window buf (off + 1) 2) - 1) in *.
    rewrite blen_window by lia.
    destruct (Z.ltb_spec len 0); cbn [orb].
    { by exists [], h. }
    assert ((len >? buf_len - 1 - 2) = (3 + len >? buf_len)) as -> by (apply gtb_eq; lia).
    destruct (Z.gtb_spec (3 + len) buf_len); cbn [fmap option_fmap option_map prod_map fst snd].
    { by exists [], h. }
    erewrite lua_bind_ok by (apply lift_ok, read_window; lia). lstep.
    rewrite take_window, drop_window by lia. rewrite blen_cons. unfold id. rewrite !blen_window by lia.
    replace (off + 1 + 2) with (off + 3) by lia.
    eexists h, _. split; [do 2 f_equal; lia|]. split; [done|]. split; [done|].
    rewrite blen_window by lia. unfold INT_MAX. lia.
Qed.

Section UnpackTables.
Context (up : fcall_arg -> unpacker) (top : Z) (buf : list byte) (off buf_len : Z).
Abbreviation loop := (table_unpack_loop up top buf off buf_len).

Lemma unpack_loop_last e readed : loop [e] readed = mret readed.
Proof. reflexivity. Qed.

Lemma unpack_loop_begin ref va ops readed : ops ≠ [] ->
  loop (mkOp tb_begin ref va :: ops) readed =
  (_ ← lift (require (negb (ref =? LUA_NOREF)) AssertFailed);
   _ ← lua_getref ref;
   _ ← lua_newtable;
   loop ops readed).
Proof. by destruct ops. Qed.

Lemma unpack_loop_value ref a ops readed : ops ≠ [] ->
  loop (mkOp push_value ref (Some a) :: ops) readed =
  (_ ← lift (require (negb (ref =? LUA_NOREF)) AssertFailed);
   _ ← lua_getref ref;
   cur_readed ← up a buf (off + readed) (buf_len - readed);
   if cur_readed =? 0 then _ ← lua_settop top; mret 0 else
   _ ← lua_settable (-3);
   loop ops (readed + cur_readed)).
Proof. by destruct ops. Qed.

Lemma unpack_loop_end e ops readed : e.(op) = tb_end -> ops ≠ [] ->
  loop (e :: ops) readed = (_ ← lua_settable (-3); loop ops readed).
Proof. destruct e. simpl. intros -> H. by destruct ops. Qed.

End UnpackTables.

(** The loop over the opcodes of the fields [fs] fills the table [l], which
    holds [t] so far, and goes on; or it gives up. *)
Definition unpack_loop_post (rest ops : list (table_opcode fcall_arg)) (fs : list field)
    (s x : list lua_value) (h : gmap positive ltable) (r g l : positive) (t : ltable)
    (buf : list byte) (off buf_len readed : Z) : Prop :=
  let loop := table_unpack_loop unpack (blen s) buf off buf_len in
  let run := loop (ops ++ rest) readed (mkLua (LTable l :: x ++ s) h r g) in
  match decode_fields decode fs (window buf (off + readed) (buf_len - readed)) with
  | Some (ds, bs') => exists h' vs,
      run = loop rest (buf_len - blen bs') (mkLua (LTable l :: x ++ s) h' r g) /\
      h' !! l = Some (t ++ zip (keys fs) vs) /\ delete l h ⊆ h' /\ built_fields (built (h' ∖ h)) fs vs ds
  | None => exists h', run = LOk 0 (mkLua s h' r g) /\ delete l h ⊆ h'
  end.

Definition unpacks_ops (rt : ltable) (ops : list (table_opcode fcall_arg)) (fs : list field) : Prop :=
  forall rest s x h r g l t buf off buf_len readed,
  rest ≠ [] -> h !! r = Some rt -> l ≠ r -> h !! l = Some t ->
  NoDup (keys fs) -> (forall k, k ∈ keys fs -> k ∉ t.*1) ->
  0 <= off -> 0 <= readed <= buf_len -> off + buf_len <= blen buf ->
  unpack_loop_post rest ops fs s x h r g l t buf off buf_len readed.

Lemma unpacks_nil rt : unpacks_ops rt [] [].
Proof.
  intros rest s x h r g l t buf off buf_len readed Hrest Hr Hlr Hl Hnd Hk Ho Hu Hb.
  unfold unpack_loop_post. cbn [decode_fields app]. exists h, []. rewrite blen_window by lia.
  replace (buf_len - (buf_len - readed)) with readed by lia. split; [done|]. cbn. rewrite app_nil_r.
  split; [done|]. split; [apply delete_subseteq|done].
Qed.

Lemma difference_mono {V} (h h1 h2 h' : gmap positive V) :
  (forall i v, h1 !! i = Some v -> h !! i = None -> h2 !! i = Some v) ->
  (forall i, h' !! i = None -> h !! i = None) -> h1 ∖ h' ⊆ h2 ∖ h.
Proof.
  intros H1 H2. apply map_subseteq_spec. intros i v Hi.
  apply lookup_difference_Some in Hi as [Hi Hn]. apply lookup_difference_Some. split; [|by apply H2].
  apply H1; [done|by apply H2].
Qed.

(** One field: the value [v] has been built for the key [k] in the heap [h1];
    after it is stored the remaining fields are unpacked. *)
Lemma unpack_loop_field rest ops ops' k inl f fs s x h h1 r g l t v d buf off buf_len readed bs' :
  decode f (window buf (off + readed) (buf_len - readed)) = Some (d, bs') ->
  inl || consumed (window buf (off + readed) (buf_len - readed)) bs' = true ->
  0 <= off -> 0 <= readed <= buf_len -> off + buf_len <= blen buf ->
  h !! l = Some t -> h ⊆ h1 -> built (h1 ∖ h) f v d -> k ∉ t.*1 ->
  (let loop := table_unpack_loop unpack (blen s) buf off buf_len in
   loop (ops ++ rest) readed (mkLua (LTable l :: x ++ s) h r g)
   = loop (ops' ++ rest) (buf_len - blen bs')
       (mkLua (LTable l :: x ++ s) (<[l := luaH_set t k v]> h1) r g)) ->
  unpack_loop_post rest ops' fs s x (<[l := luaH_set t k v]> h1) r g l (luaH_set t k v)
    buf off buf_len (buf_len - blen bs') ->
  unpack_loop_post rest ops ((k, inl, f) :: fs) s x h r g l t buf off buf_len readed.
Proof.
  intros Hd Hc Ho Hu Hb Hl Hh Hv Hk Hrun Hp. unfold unpack_loop_post in *. cbn zeta in *.
  cbn [decode_fields]. rewrite Hd. cbn [mbind option_bind]. rewrite Hc, Hrun.
  destruct (window_suffix buf (off + readed) (buf_len - readed) bs') as [Hbs Hbl];
    [lia..|by eapply decode_suffix|].
  replace (off + (buf_len - blen bs')) with (off + readed + (buf_len - readed - blen bs')) in Hp by lia.
  replace (buf_len - (buf_len - blen bs')) with (blen bs') in Hp by lia. rewrite <- Hbs in Hp.
  assert (delete l h ⊆ delete l (<[l := luaH_set t k v]> h1)) as Hsub.
  { rewrite delete_insert_eq. by apply delete_mono. }
  destruct (decode_fields decode fs bs') as [[ds bs'']|]; cbn [mbind option_bind].
  - destruct Hp as (h' & vs & Hrun' & Hl' & Hh' & Hvs). exists h', (v :: vs).
    split; [done|]. split; [|split].
    + rewrite Hl'. rewrite luaH_set_notin by (try done; by eapply built_not_nil). simpl. by rewrite <- app_assoc.
    + by etrans.
    + split.
      * eapply built_mono; [|done]. apply difference_mono; [|done]. intros i w Hi Hn.
        eapply lookup_weaken; [|exact Hh']. rewrite delete_insert_eq, lookup_delete_ne; [done|]. congruence.
      * eapply built_fields_mono; [|done]. apply difference_mono; [done|]. intros i Hi.
        apply lookup_insert_None in Hi as [Hi _]. by eapply lookup_weaken_None.
  - destruct Hp as (h' & Hrun' & Hh'). exists h'. split; [done|]. by etrans.
Qed.

Lemma keys_disjoint_set k inl f fs (t : ltable) v :
  NoDup (keys ((k, inl, f) :: fs)) -> (forall k', k' ∈ keys ((k, inl, f) :: fs) -> k' ∉ t.*1) -> v ≠ LNil ->
  NoDup (keys fs) /\ k ∉ t.*1 /\ (forall k', k' ∈ keys fs -> k' ∉ (luaH_set t k v).*1).
Proof.
  unfold keys. cbn [fmap list_fmap fst]. intros [Hk Hnd]%NoDup_cons Hd Hv.
  assert (k ∉ t.*1) as Hkt by (apply Hd; left). repeat split; [done..|].
  intros k' Hk'. rewrite luaH_set_notin by done. rewrite fmap_app. simpl.
  intros [H | H%list_elem_of_singleton]%elem_of_app; [|congruence].
  revert H. apply Hd. by right.
Qed.

Lemma unpacks_value rt ref a f ops fs :
  0 < ref -> good_key (luaH_getnum rt ref) = true -> unpacks_arg rt a f -> unpacks_ops rt ops fs ->
  unpacks_ops rt (mkOp push_value ref (Some a) :: ops) ((luaH_getnum rt ref, false, f) :: fs).
Proof.
  intros Href Hgood IHa IHops rest s x h r g l t buf off buf_len readed Hrest Hr Hlr Hl Hnd Hdisj Ho Hu Hb.
  set (k := luaH_getnum rt ref) in *.
  pose proof (IHa (k :: LTable l :: x ++ s) h r g buf (off + readed) (buf_len - readed) Hr
    ltac:(lia) ltac:(lia) ltac:(lia)) as Ha. unfold unpack_post in Ha.
  assert (forall n w h1, unpack a buf (off + readed) (buf_len - readed) (mkLua (k :: LTable l :: x ++ s) h r g)
      = LOk n (mkLua (w ++ k :: LTable l :: x ++ s) h1 r g) ->
    table_unpack_loop unpack (blen s) buf off buf_len ((mkOp push_value ref (Some a) :: ops) ++ rest) readed
      (mkLua (LTable l :: x ++ s) h r g) =
    (if n =? 0 then LOk 0 (mkLua s h1 r g)
     else (_ ← lua_settable (-3); table_unpack_loop unpack (blen s) buf off buf_len (ops ++ rest) (readed + n))
       (mkLua (w ++ k :: LTable l :: x ++ s) h1 r g))) as Hrun.
  { intros n w h1 Hrun. cbn [app]. rewrite unpack_loop_value by (by destruct ops).
    unfold LUA_NOREF. rewrite (proj2 (Z.eqb_neq ref (-2))) by lia. do 2 lstep.
    erewrite lua_bind_ok by exact Hrun. destruct (n =? 0); [|done].
    replace (w ++ k :: LTable l :: x ++ s) with ((w ++ k :: LTable l :: x) ++ s) by (by rewrite <- app_assoc).
    by erewrite lua_bind_ok by apply rule_settop. }
  set (w := window buf (off + readed) (buf_len - readed)) in *.
  assert (blen w = buf_len - readed) as Hw by (apply blen_window; lia).
  destruct (decode f w) as [[d bs']|] eqn:Hd.
  - destruct Ha as (h1 & v & Hu1 & Hh1 & Hv). apply (Hrun _ [v]) in Hu1. cbn [app] in Hu1.
    pose proof (suffix_blen _ _ (decode_suffix _ _ _ _ Hd)) as Hsb.
    destruct (keys_disjoint_set k false f fs t v) as (Hnd' & Hkt & Hdisj'); [done..|by eapply built_not_nil|].
    destruct (Z.eqb_spec (blen w - blen bs') 0).
    + unfold unpack_loop_post. cbn zeta. cbn [app]. rewrite Hu1. fold w. cbn [decode_fields]. rewrite Hd. cbn [mbind option_bind].
      unfold consumed. rewrite (proj2 (Z.eqb_eq _ _)) by lia. cbn [negb orb].
      exists h1. split; [done|]. etrans; [apply delete_subseteq|done].
    + eapply unpack_loop_field; [exact Hd| |done..| |].
      * fold w. unfold consumed. cbn [orb]. by rewrite (proj2 (Z.eqb_neq _ _)) by lia.
      * cbn zeta. cbn [app] in Hu1 |- *. rewrite Hu1.
        assert (h1 !! l = Some t) by (by eapply lookup_weaken). lstep. by replace (readed + (blen w - blen bs')) with (buf_len - blen bs') by lia.
      * assert (h1 !! r = Some rt) by (by eapply lookup_weaken).
        pose proof (blen_nonneg bs'). apply IHops; try done; try lia;
          [by rewrite lookup_insert_ne|by rewrite lookup_insert_eq].
  - destruct Ha as (y & h1 & Hu1 & Hh1). apply (Hrun _ y) in Hu1.
    unfold unpack_loop_post. cbn zeta. rewrite Hu1. fold w. cbn [decode_fields]. rewrite Hd. cbn [mbind option_bind].
    exists h1. split; [done|]. etrans; [apply delete_subseteq|done].
Qed.

Lemma unpacks_sub rt ref va sub e fs' ops fs :
  0 < ref -> good_key (luaH_getnum rt ref) = true -> unpacks_ops rt sub fs' -> e.(op) = tb_end ->
  NoDup (keys fs') -> unpacks_ops rt ops fs ->
  unpacks_ops rt (mkOp tb_begin ref va :: sub ++ e :: ops) ((luaH_getnum rt ref, true, Ftable fs') :: fs).
Proof.
  intros Href Hgood IHsub He Hnd0 IHops rest s x h r g l t buf off buf_len readed Hrest Hr Hlr Hl Hnd Hdisj Ho Hu Hb.
  set (k := luaH_getnum rt ref) in *. set (l' := fresh (dom h)).
  assert (h !! l' = None) as Hfresh by (apply not_elem_of_dom, is_fresh).
  assert (l' ≠ l) as Hll by congruence. assert (l' ≠ r) as Hlr' by congruence.
  destruct (keys_disjoint_set k true (Ftable fs') fs t (LTable l')) as (Hnd' & Hkt & Hdisj'); [done..|].
  pose proof (IHsub (e :: ops ++ rest) s (k :: LTable l :: x) (<[l' := []]> h) r g l' [] buf off buf_len readed) as Hsub.
  rewrite lookup_insert_ne, lookup_insert_eq in Hsub by done.
  specialize (Hsub ltac:(done) Hr Hlr' eq_refl Hnd0 ltac:(set_solver) Ho Hu Hb).
  unfold unpack_loop_post in Hsub. cbn zeta in Hsub.
  assert (table_unpack_loop unpack (blen s) buf off buf_len ((mkOp tb_begin ref va :: sub ++ e :: ops) ++ rest)
      readed (mkLua (LTable l :: x ++ s) h r g)
    = table_unpack_loop unpack (blen s) buf off buf_len (sub ++ e :: ops ++ rest) readed
      (mkLua (LTable l' :: (k :: LTable l :: x) ++ s) (<[l' := []]> h) r g)) as Hrun.
  { simpl app. rewrite <- app_assoc. simpl app. rewrite unpack_loop_begin by (by destruct sub).
    unfold LUA_NOREF. rewrite (proj2 (Z.eqb_neq ref (-2))) by lia. by do 3 lstep. }
  rewrite <- Hrun in Hsub. rewrite delete_insert_id in Hsub by done. clear Hrun.
  set (w := window buf (off + readed) (buf_len - readed)) in *.
  destruct (decode_fields decode fs' w) as [[ds bs']|] eqn:Hd.
  - destruct Hsub as (h1 & vs & Hrun & Hl1 & Hh1 & Hvs).
    assert (decode (Ftable fs') w = Some (DTable ds, bs')) as Hd' by (cbn [decode]; by rewrite Hd).
    eapply (unpack_loop_field rest _ ops k true (Ftable fs') fs s x h h1 r g l t (LTable l'));
      [exact Hd'|done|done..| | |done| |].
    + exact Hh1.
    + exists l', vs. split; [done|]. split; [by apply lookup_difference_Some|].
      eapply built_fields_mono; [|exact Hvs]. apply difference_mono; [done|].
      intros i Hi. by apply lookup_insert_None in Hi as [Hi _].
    + cbn zeta. rewrite Hrun. rewrite unpack_loop_end by (try done; by destruct ops). cbn [app].
      assert (h1 !! l = Some t) by (by eapply lookup_weaken). by lstep.
    + assert (h1 !! r = Some rt) by (by eapply lookup_weaken).
      pose proof (blen_nonneg bs'). pose proof (suffix_blen _ _ (decode_suffix _ _ _ _ Hd')) as Hsb.
      assert (blen w = buf_len - readed) as Hw by (apply blen_window; lia).
      apply IHops; try done; try lia; [by rewrite lookup_insert_ne|by rewrite lookup_insert_eq].
  - destruct Hsub as (h1 & Hrun & Hh1). unfold unpack_loop_post. cbn zeta. rewrite Hrun. fold w.
    cbn [decode_fields decode]. rewrite Hd. exists h1. split; [done|]. etrans; [apply delete_subseteq|done].
Qed.

Lemma unpacks_table rt ty hs ops e fs : NoDup (keys fs) ->
  unpacks_ops rt ops fs -> unpacks_arg rt (fcall_table_arg ty hs (ops ++ [e])) (Ftable fs).
Proof.
  intros Hnd IH s h r g buf off buf_len Hr Ho Hl Hb.
  change (unpack (fcall_table_arg ty hs (ops ++ [e]))) with (table_unpack unpack (ops ++ [e])).
  unfold table_unpack, unpack_post. do 2 lstep. set (l := fresh (dom h)).
  assert (h !! l = None) as Hfresh by (apply not_elem_of_dom, is_fresh).
  pose proof (IH [e] s [] (<[l := []]> h) r g l [] buf off buf_len 0) as H.
  rewrite lookup_insert_ne, lookup_insert_eq in H by congruence.
  specialize (H ltac:(done) Hr ltac:(congruence) eq_refl Hnd ltac:(set_solver) Ho ltac:(lia) Hb).
  unfold unpack_loop_post in H. cbn zeta in H. cbn [app] in H. rewrite Z.add_0_r, Z.sub_0_r in H.
  rewrite delete_insert_id in H by done. cbn [decode].
  destruct (decode_fields decode fs (window buf off buf_len)) as [[ds bs']|] eqn:Hd;
    cbn [fmap option_fmap option_map prod_map fst snd].
  - destruct H as (h' & vs & Hrun & Hl' & Hh & Hvs). exists h', (LTable l). rewrite Hrun.
    rewrite unpack_loop_last, blen_window by lia. split; [done|]. split; [done|].
    exists l, vs. split; [done|]. split; [by apply lookup_difference_Some|].
    eapply built_fields_mono; [|exact Hvs]. apply difference_mono; [done|].
    intros i Hi. by apply lookup_insert_None in Hi as [Hi _].
  - destruct H as (h' & Hrun & Hh). by exists [], h'.
Qed.

(** Arrays: the entries are stored under 1, 2, ... *)
Definition elements_post (run : lres Z) (f : fmt) (n : nat) (bs : list byte) (s : list lua_value)
    (h : gmap positive ltable) (r g l : positive) (t : ltable) (i buf_len : Z) : Prop :=
  match decode_elements (decode f) n bs with
  | Some (ds, bs') => exists h' vs, run = LOk (buf_len - blen bs') (mkLua (LTable l :: s) h' r g) /\
      h' !! l = Some (t ++ array_entries (i + 1) vs) /\ delete l h ⊆ h' /\ Forall2 (built (h' ∖ h) f) vs ds
  | None => exists h', run = LOk 0 (mkLua s h' r g) /\ delete l h ⊆ h'
  end.

(** The keys stored so far. *)
Definition keys_upto (t : ltable) (i : Z) : Prop :=
  forall k v, (k, v) ∈ t -> exists j, k = LNumber (NInt j) /\ j <= i.

Lemma keys_upto_fresh t i : keys_upto t i -> LNumber (NInt (i + 1)) ∉ t.*1.
Proof.
  intros Ht [[k' v'] [Hk' Hin]]%list_elem_of_fmap. simpl in Hk'. subst k'.
  destruct (Ht _ _ Hin) as (j & [= Hj] & Hle). lia.
Qed.

Lemma keys_upto_snoc t i v : keys_upto t i -> keys_upto (t ++ [(LNumber (NInt (i + 1)), v)]) (i + 1).
Proof.
  intros Ht k' v' [Hin | [= -> ->]%list_elem_of_singleton]%elem_of_app.
  - destruct (Ht _ _ Hin) as (j & -> & Hle). exists j. split; [done|lia].
  - exists (i + 1). split; [done|lia].
Qed.

Lemma elements_post_cons run f n bs bs' s h h1 r g l t i v d buf_len :
  decode f bs = Some (d, bs') -> consumed bs bs' = true ->
  h !! l = Some t -> h ⊆ h1 -> built (h1 ∖ h) f v d ->
  elements_post run f n bs' s (<[l := t ++ [(LNumber (NInt (i + 1)), v)]]> h1) r g l
    (t ++ [(LNumber (NInt (i + 1)), v)]) (i + 1) buf_len ->
  elements_post run f (S n) bs s h r g l t i buf_len.
Proof.
  intros Hd Hc Hl Hh1 Hv Hp. unfold elements_post in *. cbn [decode_elements]. rewrite Hd.
  cbn [mbind option_bind]. rewrite Hc. set (k := LNumber (NInt (i + 1))) in *.
  assert (delete l h ⊆ delete l (<[l := t ++ [(k, v)]]> h1)) as Hsub.
  { rewrite delete_insert_eq. by apply delete_mono. }
  destruct (decode_elements (decode f) n bs') as [[ds bs'']|]; cbn [mbind option_bind].
  - destruct Hp as (h' & vs & Hrun & Hl' & Hh' & Hvs).
    exists h', (v :: vs). split; [exact Hrun|]. split; [|split; [by etrans|constructor]].
    + rewrite Hl'. cbn [array_entries]. by rewrite <- app_assoc.
    + eapply built_mono; [|done]. apply difference_mono; [|done]. intros j u Hj Hn.
      eapply lookup_weaken; [|exact Hh']. rewrite delete_insert_eq, lookup_delete_ne; [done|]. congruence.
    + eapply Forall2_impl; [exact Hvs|]. intros u d' Hu'. eapply built_mono; [|exact Hu'].
      apply difference_mono; [done|]. intros j Hj.
      apply lookup_insert_None in Hj as [Hj _]. by eapply lookup_weaken_None.
  - destruct Hp as (h' & Hrun & Hh'). exists h'. split; [done|]. by etrans.
Qed.

Lemma elements_post_fail run f n bs s h h1 r g l t i buf_len :
  decode_elements (decode f) n bs = None -> run = LOk 0 (mkLua s h1 r g) -> h ⊆ h1 ->
  elements_post run f n bs s h r g l t i buf_len.
Proof.
  intros Hd Hrun Hh. unfold elements_post. rewrite Hd. exists h1. split; [done|].
  etrans; [apply delete_subseteq|done].
Qed.

Lemma unpacks_elements rt a f s r g l top buf off buf_len : unpacks_arg rt a f -> l ≠ r -> top = blen s ->
  0 <= off -> off + buf_len <= blen buf ->
  forall n i h t readed, h !! r = Some rt -> h !! l = Some t -> 0 <= readed <= buf_len -> keys_upto t i ->
  elements_post (array_unpack_loop (unpack a) top (top + 1) buf off buf_len n i readed (mkLua (LTable l :: s) h r g))
    f n (window buf (off + readed) (buf_len - readed)) s h r g l t i buf_len.
Proof.
  intros IHa Hlr -> Ho Hb n. induction n as [|n IH]; intros i h t readed Hr Hl Hu Ht.
  { unfold elements_post. cbn [decode_elements array_unpack_loop]. exists h, []. lstep. rewrite blen_cons.
    replace (1 + blen s =? blen s + 1) with true by (symmetry; apply Z.eqb_eq; lia). lstep.
    rewrite blen_window, app_nil_r by lia. replace (buf_len - (buf_len - readed)) with readed by lia.
    split; [done|]. split; [done|]. split; [apply delete_subseteq|done]. }
  set (k := LNumber (NInt (i + 1))).
  pose proof (IHa (k :: LTable l :: s) h r g buf (off + readed) (buf_len - readed) Hr
    ltac:(lia) ltac:(lia) ltac:(lia)) as Ha. unfold unpack_post in Ha.
  set (w := window buf (off + readed) (buf_len - readed)) in *.
  assert (blen w = buf_len - readed) as Hw by (apply blen_window; lia).
  set (run := array_unpack_loop _ _ _ _ _ _ _ _ _ _).
  assert (forall m x h1, unpack a buf (off + readed) (buf_len - readed) (mkLua (k :: LTable l :: s) h r g)
      = LOk m (mkLua (x ++ k :: LTable l :: s) h1 r g) ->
    run = (if m =? 0 then LOk 0 (mkLua s h1 r g)
           else (_ ← lua_rawset (blen s + 1);
                 array_unpack_loop (unpack a) (blen s) (blen s + 1) buf off buf_len n (i + 1) (readed + m))
                (mkLua (x ++ k :: LTable l :: s) h1 r g))) as Hrun.
  { intros m x h1 Hm. unfold run. cbn [array_unpack_loop]. lstep.
    erewrite lua_bind_ok by exact Hm. destruct (m =? 0); [|done].
    replace (x ++ k :: LTable l :: s) with ((x ++ [k; LTable l]) ++ s) by (by rewrite <- app_assoc).
    by erewrite lua_bind_ok by apply rule_settop. }
  destruct (decode f w) as [[d bs']|] eqn:Hd.
  - destruct Ha as (h1 & v & Hm & Hh1 & Hv). apply (Hrun _ [v]) in Hm. cbn [app] in Hm.
    destruct (window_suffix buf (off + readed) (buf_len - readed) bs') as [Hbs Hbl];
      [lia..|by eapply decode_suffix|].
    destruct (Z.eqb_spec (blen w - blen bs') 0).
    { eapply elements_post_fail; [|exact Hm|done]. cbn [decode_elements]. rewrite Hd. cbn [mbind option_bind].
      unfold consumed. by rewrite (proj2 (Z.eqb_eq _ _)) by lia. }
    assert (h1 !! l = Some t) as Hl1 by (by eapply lookup_weaken).
    rewrite (lua_bind_ok _ _ _ _ _ (rule_rawset s h1 r g l t k v Hl1 eq_refl)) in Hm.
    rewrite luaH_set_notin in Hm by (try (by eapply built_not_nil); by apply keys_upto_fresh).
    eapply (elements_post_cons run f n w bs' s h h1 r g l t i v d); try done.
    { unfold consumed. by rewrite (proj2 (Z.eqb_neq _ _)) by lia. }
    rewrite Hm. replace (readed + (blen w - blen bs')) with (buf_len - blen bs') by lia.
    rewrite Hbs at 2. replace (off + readed + (buf_len - readed - blen bs')) with (off + (buf_len - blen bs')) by lia.
    replace (blen bs') with (buf_len - (buf_len - blen bs')) at 3 by lia.
    apply IH; [rewrite lookup_insert_ne by done; by eapply lookup_weaken|by rewrite lookup_insert_eq|lia|by apply keys_upto_snoc].
  - destruct Ha as (x & h1 & Hm & Hh1). apply (Hrun _ x) in Hm.
    eapply elements_post_fail; [|exact Hm|done]. cbn [decode_elements]. by rewrite Hd.
Qed.

Lemma decode_elements_length dec n bs ds bs' : decode_elements dec n bs = Some (ds, bs') -> length ds = n.
Proof.
  revert bs ds. induction n as [|n IH]; intros bs ds; cbn [decode_elements]; [by intros [= <- _]|].
  destruct (dec bs) as [[d b1]|]; cbn [mbind option_bind]; [|done]. destruct (consumed bs b1); [|done].
  destruct (decode_elements dec n b1) as [[ds' b2]|] eqn:E; cbn [mbind option_bind]; [|done].
  intros [= <- ->]. simpl. f_equal. by eapply IH.
Qed.

Lemma array_post_unpack run f size n bs0 bs s h r g l : h !! l = None ->
  elements_post run f n bs s (<[l := []]> h) r g l [] 0 (blen bs0) ->
  (if size =? 0 then Z.of_nat n <= 255 else size = Z.of_nat n \/ size < 0 /\ n = 0%nat) ->
  decode (Farray size f) bs0 = prod_map DArray id <$> decode_elements (decode f) n bs ->
  unpack_post run s h r g (Farray size f) bs0.
Proof.
  intros Hl Hp Hn Hd. unfold elements_post in Hp. unfold unpack_post. rewrite Hd.
  rewrite delete_insert_id in Hp by done.
  destruct (decode_elements (decode f) n bs) as [[ds bs']|] eqn:E; cbn [fmap option_fmap option_map prod_map fst snd].
  - destruct Hp as (h' & vs & -> & Hl' & Hh & Hvs). exists h', (LTable l). split; [done|]. split; [done|].
    exists l, vs. split; [done|]. split; [by apply lookup_difference_Some|].
    apply decode_elements_length in E. split.
    { unfold blen. rewrite E. destruct (size =? 0); [done|]. destruct Hn as [Hn | [Hn ->]]; [by left|right].
      destruct ds; [done|discriminate]. }
    eapply Forall2_impl; [exact Hvs|]. intros u d Hu. eapply built_mono; [|exact Hu].
    apply difference_mono; [done|]. intros i Hi. by apply lookup_insert_None in Hi as [Hi _].
  - destruct Hp as (h' & -> & Hh). by exists [], h'.
Qed.

Lemma unpacks_array rt hs base size f :
  unpacks_arg rt base f -> unpacks_arg rt (fcall_array_arg hs base size) (Farray size f).
Proof.
  intros IH s h r g buf off buf_len Hr Ho Hl Hb.
  change (unpack (fcall_array_arg hs base size)) with (array_unpack (unpack base) size).
  unfold array_unpack. do 2 lstep. set (l := fresh (dom h)).
  assert (h !! l = None) as Hfresh by (apply not_elem_of_dom, is_fresh).
  assert (forall n readed, 0 <= readed <= buf_len ->
    elements_post (array_unpack_loop (unpack base) (blen s) (blen s + 1) buf off buf_len n 0 readed
      (mkLua (LTable l :: s) (<[l := []]> h) r g)) f n (window buf (off + readed) (buf_len - readed))
      s (<[l := []]> h) r g l [] 0 buf_len) as Hloop.
  { intros n readed Hu. eapply unpacks_elements; eauto; try congruence.
    - rewrite lookup_insert_ne by congruence. exact Hr.
    - by rewrite lookup_insert_eq.
    - intros k v []%elem_of_nil. }
  destruct (Z.eqb_spec size 0) as [->|Hsize].
  - destruct (Z.gtb_spec 1 buf_len).
    { assert (buf_len = 0) as -> by lia. unfold unpack_post. rewrite window_empty. cbn.
      exists [LTable l], (<[l := []]> h). split; [done|]. by apply insert_subseteq. }
    destruct (window_cons buf off buf_len Ho ltac:(lia) Hb) as (b & Hb1 & Hw).
    erewrite lua_bind_ok by (apply lift_ok, read_window; lia). rewrite Hb1, Hw.
    pose proof (le_combine_bound [b]) as Hbound. change (2 ^ (8 * Z.of_nat (length [b]))) with 256 in Hbound.
    eapply (array_post_unpack _ f 0 (Z.to_nat (le_combine [b])) _ (window buf (off + 1) (buf_len - 1))); [done| | |done].
    + rewrite blen_cons, blen_window by lia. replace (1 + (buf_len - 1)) with buf_len by lia. apply Hloop. lia.
    + change (0 =? 0) with true. cbv iota. lia.
  - eapply (array_post_unpack _ f size (Z.to_nat size) _ (window buf off buf_len)); [done| | |].
    + rewrite blen_window by lia. specialize (Hloop (Z.to_nat size) 0 ltac:(lia)).
      by rewrite Z.add_0_r, Z.sub_0_r in Hloop.
    + rewrite (proj2 (Z.eqb_neq _ _)) by done. lia.
    + cbn [decode]. by rewrite (proj2 (Z.eqb_neq _ _)) by done.
Qed.

Lemma unpack_implements rt a f : denotes rt a f -> unpacks_arg rt a f.
Proof.
  intros H. eapply (denotes_mind rt (unpacks_arg rt) (unpacks_ops rt)); [..|exact H]; clear H a f.
  - intros s h r g buf off buf_len _. apply number_unpack_spec.
  - intros s h r g buf off buf_len _ Ho Hl Hb. apply (fixed_unpack_spec 1 le_combine); try done.
    intros bs Hbs. pose proof (le_combine_bound bs) as H. rewrite Hbs in H.
    unfold in_int, INT_MIN, INT_MAX. by zdecide.
  - intros s h r g buf off buf_len _ Ho Hl Hb.
    apply (fixed_unpack_spec 2 (fun b => wrap16 (le_combine b))); try done.
    intros bs _. unfold in_int, INT_MIN, INT_MAX, wrap16.
    pose proof (Z.mod_pos_bound (le_combine bs + 2 ^ 15) (2 ^ 16)). by zdecide.
  - intros s h r g buf off buf_len _ Ho Hl Hb. apply (fixed_unpack_spec 4 int_of_bytes); try done.
    intros bs _. unfold in_int, int_of_bytes. pose proof (wrap32_range (le_combine bs)). by zdecide.
  - intros s h r g buf off buf_len _. apply string_unpack_spec.
  - intros ty hs ops e fs _ IH He Hnd. by apply unpacks_table.
  - intros hs base size f _ IH. by apply unpacks_array.
  - apply unpacks_nil.
  - intros ref a f ops fs Href Hk _ IHa _ IHops. by apply unpacks_value.
  - intros ref va sub e fs' ops fs Href Hk _ IHsub He Hnd _ IHops. by apply unpacks_sub.
Qed.

Lemma window_put buf off bs : 0 <= off -> off + blen bs <= blen buf ->
  window (put buf off bs) off (blen bs) = bs.
Proof.
  intros. unfold window, put. rewrite drop_app_length' by (rewrite length_take; unfold blen in *; lia).
  by rewrite take_blen_app.
Qed.

(** * Packing arbitrary Lua values *)

(** Tables exist and strings, numbers written as strings and array lengths
    are within a C [int]. *)
Definition ok_val (h : gmap positive ltable) (v : lua_value) : Prop :=
  match v with
  | LTable l => is_Some (h !! l)
  | LString s => blen s < INT_MAX
  | LNumber n => blen (number2str n) < INT_MAX
  | _ => True
  end.

Definition ok_heap (h : gmap positive ltable) : Prop :=
  forall l t, h !! l = Some t ->
  0 <= luaH_getn l t <= INT_MAX /\ forall k v, (k, v) ∈ t -> ok_val h v.

Lemma ok_get h l t k : ok_heap h -> h !! l = Some t -> ok_val h (luaH_get t k).
Proof.
  intros Hh Hl. destruct (Hh l t Hl) as [_ Ht]. clear Hl. induction t as [|[k' v] t IH]; simpl; [done|].
  destruct (raweq k k'); [apply (Ht k' v); left|]. apply IH. intros k0 v0 Hin. eapply Ht. by right.
Qed.

(** A successful [pack] stays in its part of the buffer; it can fail with a
    Lua error; its only fault is the cast of a number that no [int] holds. *)
Definition pack_safe_post (run : lres (list byte * Z)) (s : list lua_value) (i : nat)
    (h : gmap positive ltable) (r g : positive) (buf : list byte) (off buf_len : Z) : Prop :=
  match run with
  | LOk (buf', n) L' => 0 <= n <= buf_len /\ same_outside off buf_len buf buf' /\
      exists v', L' = mkLua (<[i := v']> s) h r g
  | LErr _ _ => True
  | LUB f => f = BadCast
  end.

Definition pack_safe (p : packer) (h : gmap positive ltable) (r : positive) : Prop :=
  forall s g idx i v buf off buf_len, stack_index s idx i v -> ok_val h v ->
  0 <= off -> 0 <= buf_len <= INT_MAX -> off + buf_len <= blen buf ->
  pack_safe_post (p idx buf off buf_len (mkLua s h r g)) s i h r g buf off buf_len.

(** A value the scalar specifications cover. *)
Lemma pack_safe_spec p h r v obs s g idx i buf off buf_len :
  pack_spec p h r v obs -> stack_index s idx i v ->
  0 <= off -> 0 <= buf_len <= INT_MAX -> off + buf_len <= blen buf ->
  pack_safe_post (p idx buf off buf_len (mkLua s h r g)) s i h r g buf off buf_len.
Proof.
  intros Hp Hi Ho Hl Hb. destruct (Hp s g idx i buf off buf_len Hi Ho Hl Hb) as (buf' & n & v' & -> & Hpost).
  unfold pack_safe_post. unfold pack_post in Hpost.
  destruct obs as [bs|]; [destruct (Z.leb_spec (blen bs) buf_len)|]; destruct Hpost as [H1 H2]; subst;
    (split; [|split]); eauto with cmodel; try lia; try (by apply same_outside_put; lia).
Qed.

Lemma fixed_pack_safe h r (k : nat) : pack_safe (fixed_pack (Z.of_nat k)) h r.
Proof.
  intros s g idx i v buf off buf_len Hi Hv Ho Hl Hb.
  destruct v as [| | |n| | | |];
    try (unfold fixed_pack, luaL_checktype; erewrite lua_bind_err; [done|];
         by erewrite lua_bind_ok by (by eapply rule_type)).
  destruct (lua_number2int n) as [z|f] eqn:En.
  - by eapply pack_safe_spec; [apply fixed_pack_spec|..].
  - unfold fixed_pack. do 2 lstep. rewrite En. cbn. unfold lua_number2int in En. repeat case_match; by simplify_eq.
Qed.

Lemma number_pack_safe h r : pack_safe number_pack h r.
Proof.
  intros s g idx i v buf off buf_len Hi Hv Ho Hl Hb.
  destruct v as [| | |n| | | |];
    try (unfold number_pack, luaL_checktype; erewrite lua_bind_err; [done|];
         by erewrite lua_bind_ok by (by eapply rule_type)).
  destruct (lua_number2int n) as [z|f] eqn:En.
  - eapply pack_safe_spec; [apply number_pack_spec; exact En|done..].
  - unfold number_pack. do 2 lstep. rewrite En. cbn. unfold lua_number2int in En. repeat case_match; by simplify_eq.
Qed.

Lemma string_pack_safe h r : pack_safe string_pack h r.
Proof.
  intros s g idx i v buf off buf_len Hi Hv Ho Hl Hb.
  destruct v as [| | |n|str| | |];
    try (unfold string_pack, luaL_checklstring, lua_tolstring; erewrite lua_bind_err; [done|];
         unfold mbind, lua_bind; by erewrite rule_index by eassumption).
  - eapply pack_safe_spec; [apply (string_pack_spec h r _ (number2str n)); eauto|done..].
  - eapply pack_safe_spec; [apply (string_pack_spec h r _ str); eauto|done..].
Qed.

(** The loops over fields and elements: [L] is the state they end in. *)
Definition loop_safe (run : lres (list byte * Z)) (L : lua_State) (buf0 : list byte) (off buf_len : Z) : Prop :=
  match run with
  | LOk (buf', n) L' => 0 <= n <= buf_len /\ same_outside off buf_len buf0 buf' /\ L' = L
  | LErr _ _ => True
  | LUB f => f = BadCast
  end.

Definition safe_arg (rt : ltable) (a : fcall_arg) : Prop :=
  forall h r, ok_heap h -> h !! r = Some rt -> pack_safe (pack a) h r.

Definition safe_ops (rt : ltable) (ops : list (table_opcode fcall_arg)) : Prop :=
  forall h r g s x l t rest buf0 off buf_len, ok_heap h -> h !! r = Some rt -> h !! l = Some t ->
  0 <= off -> 0 <= buf_len <= INT_MAX -> off + buf_len <= blen buf0 ->
  let loop ops buf used := table_pack_loop pack (blen s) off buf_len ops buf used (mkLua (LTable l :: x ++ s) h r g) in
  (forall buf used, same_outside off buf_len buf0 buf -> 0 <= used <= buf_len ->
     loop_safe (loop rest buf used) (mkLua s h r g) buf0 off buf_len) ->
  forall buf used, same_outside off buf_len buf0 buf -> 0 <= used <= buf_len ->
    loop_safe (loop (ops ++ rest) buf used) (mkLua s h r g) buf0 off buf_len.

(** One packed value inside a loop, and what follows it. *)
Lemma loop_safe_step {p h r s v g idx buf0 buf off buf_len used L} {k : list byte * Z -> lua (list byte * Z)} :
  pack_safe p h r -> ok_val h v -> stack_index (v :: s) idx 0 v ->
  0 <= off -> 0 <= buf_len <= INT_MAX -> off + buf_len <= blen buf0 ->
  same_outside off buf_len buf0 buf -> 0 <= used <= buf_len ->
  (forall buf' n v', 0 <= n <= buf_len - used -> same_outside off buf_len buf0 buf' ->
     loop_safe (k (buf', n) (mkLua (v' :: s) h r g)) L buf0 off buf_len) ->
  loop_safe ((p idx buf (off + used) (buf_len - used) ≫= k) (mkLua (v :: s) h r g)) L buf0 off buf_len.
Proof.
  intros Hp Hv Hi Ho Hl Hb Hs Hu Hk.
  assert (blen buf = blen buf0) as Hlen by (destruct Hs as [Hs _]; unfold blen; by rewrite Hs).
  specialize (Hp (v :: s) g idx 0%nat v buf (off + used) (buf_len - used) Hi Hv ltac:(lia) ltac:(lia) ltac:(lia)).
  unfold pack_safe_post in Hp. unfold mbind, lua_bind.
  destruct (p idx buf (off + used) (buf_len - used) _) as [[buf' n] L'|e L'|f]; [|done|exact Hp].
  destruct Hp as (Hn & Hs' & v' & ->). apply Hk; [lia|]. eapply same_outside_trans; [exact Hs|].
  eapply same_outside_weaken; [..|exact Hs']; lia.
Qed.

Lemma loop_safe_pack run s idx i v h r g buf off buf_len : stack_index s idx i v ->
  loop_safe run (mkLua s h r g) buf off buf_len -> pack_safe_post run s i h r g buf off buf_len.
Proof.
  intros Hi Hs. unfold loop_safe, pack_safe_post in *. destruct run as [[buf' n] L'|? ?|?]; [|done..].
  destruct Hs as (Hn & Hs & ->). split; [done|]. split; [done|].
  exists v. by rewrite (stack_insert_same _ _ _ _ Hi).
Qed.

Lemma safe_value rt ref a ops : 0 < ref -> safe_arg rt a -> safe_ops rt ops ->
  safe_ops rt (mkOp push_value ref (Some a) :: ops).
Proof.
  intros Href IHa IHops h r g s x l t rest buf0 off buf_len Hh Hr Hl Ho Hbl Hb loop Hrest buf used Hs Hu.
  unfold loop. cbn [app]. rewrite pack_loop_value.
  unfold LUA_NOREF. rewrite (proj2 (Z.eqb_neq ref (-2))) by lia. do 4 lstep.
  eapply loop_safe_step; [by apply IHa|by eapply ok_get|apply stack_index_gettop|done..|].
  intros buf' n v' Hn Hs'. destruct (Z.eqb_spec n 0).
  - change (v' :: LTable l :: x ++ s) with (([v'; LTable l] ++ x) ++ s).
    erewrite lua_bind_ok by apply rule_settop. split; [lia|]. by split.
  - lstep. eapply IHops; eauto. lia.
Qed.

Lemma safe_sub rt ref va sub e ops : 0 < ref -> safe_ops rt sub -> e.(op) = tb_end -> safe_ops rt ops ->
  safe_ops rt (mkOp tb_begin ref va :: sub ++ e :: ops).
Proof.
  intros Href IHsub He IHops h r g s x l t rest buf0 off buf_len Hh Hr Hl Ho Hbl Hb loop Hrest buf used Hs Hu.
  unfold loop. cbn [app]. rewrite <- app_assoc. cbn [app]. rewrite pack_loop_begin.
  rewrite (proj2 (Z.ltb_lt 0 ref)) by lia. do 4 lstep.
  pose proof (ok_get h l t (luaH_getnum rt ref) Hh Hl) as Hv.
  destruct (luaH_get t (luaH_getnum rt ref)) as [| | | | |l' | |] eqn:El;
    try (simpl (_ =? _); cbv iota; change (?a :: ?b :: x ++ s) with (([a; b] ++ x) ++ s);
         erewrite lua_bind_ok by apply (rule_settop s h r g ([_; _] ++ x)); done).
  change (ttype (LTable l') =? LUA_TTABLE) with true. cbv iota. destruct Hv as [t' Hl'].
  apply (IHsub h r g s (LTable l :: x) l' t' (e :: ops ++ rest) buf0 off buf_len Hh Hr Hl' Ho Hbl Hb); [|done..].
  intros buf1 used1 Hs1 Hu1. rewrite pack_loop_end by done. cbn [app]. lstep. eapply IHops; eauto.
Qed.

Lemma safe_table rt ty hs ops e : safe_ops rt ops -> e.(op) = tb_end ->
  safe_arg rt (fcall_table_arg ty hs (ops ++ [e])).
Proof.
  intros IH He h r Hh Hr s g idx i v buf off buf_len Hi Hv Ho Hl Hb.
  change (pack (fcall_table_arg ty hs (ops ++ [e]))) with (table_pack pack (ops ++ [e])).
  unfold table_pack. do 2 lstep. destruct v as [| | | | |l| |]; try done.
  change (ttype (LTable l) =? LUA_TTABLE) with true. cbv iota. lstep. destruct Hv as [t Hlt].
  assert (loop_safe (table_pack_loop pack (blen s) off buf_len (ops ++ [e]) buf 0 (mkLua (LTable l :: [] ++ s) h r g))
    (mkLua s h r g) buf off buf_len) as Hsafe.
  { eapply IH; eauto using same_outside_refl; [|lia]. intros buf1 used1 Hs1 Hu1. rewrite pack_loop_end by done. cbn [app]. lstep.
    change (table_pack_loop pack (blen s) off buf_len [] buf1 used1)
      with (_ ← lua_settop (blen s); mret (M := lua) (buf1, used1)). lstep. by split. }
  by apply (loop_safe_pack _ _ idx _ (LTable l)).
Qed.

Lemma safe_elements p h r g s idx k l t buf0 off buf_len n : ok_heap h -> pack_safe p h r ->
  stack_index s idx k (LTable l) -> h !! l = Some t ->
  0 <= off -> 0 <= buf_len <= INT_MAX -> off + buf_len <= blen buf0 ->
  forall i buf used, same_outside off buf_len buf0 buf -> 0 <= used <= buf_len ->
  loop_safe (array_pack_loop p (blen s) idx off buf_len n i buf used (mkLua s h r g)) (mkLua s h r g) buf0 off buf_len.
Proof.
  intros Hh Hp Hi Hl Ho Hbl Hb. induction n as [|n IH]; intros i buf used Hs Hu; [by split|].
  cbn [array_pack_loop]. erewrite lua_bind_ok by (eapply rule_rawgeti; eauto).
  eapply loop_safe_step; [done|by eapply ok_get|apply stack_index_top|done..|].
  intros buf' m v' Hm Hs'. destruct (Z.eqb_spec m 0).
  - lstep. split; [lia|]. by split.
  - lstep. apply IH; [done|lia].
Qed.

Lemma safe_array rt hs base size : safe_arg rt base -> safe_arg rt (fcall_array_arg hs base size).
Proof.
  intros IH h r Hh Hr s g idx i v buf off buf_len Hi Hv Ho Hl Hb.
  change (pack (fcall_array_arg hs base size)) with (array_pack (pack base) size).
  unfold array_pack. do 2 lstep. destruct v as [| | | | |l| |]; try done.
  change (ttype (LTable l) =? LUA_TTABLE) with true. cbv iota. destruct Hv as [t Hlt].
  apply (loop_safe_pack _ _ idx _ (LTable l)); [done|].
  destruct (Z.eqb_spec size 0).
  - lstep. destruct (Z.gtb_spec 1 buf_len); [by split; [lia|]|].
    erewrite lua_bind_ok by (apply lift_ok, write_put; lens).
    assert (same_outside off buf_len buf (put buf off [byte.of_Z (wrap32 (luaH_getn l t))])) as Hs
      by (apply same_outside_put; lens).
    case_match; [by split; [lia|]|]. eapply safe_elements; eauto. lia.
  - case_match; [by split; [lia|]|]. eapply safe_elements; eauto; [apply same_outside_refl|lia].
Qed.

Lemma pack_is_safe rt a f : denotes rt a f -> safe_arg rt a.
Proof.
  intros H. eapply (denotes_mind rt (fun a _ => safe_arg rt a) (fun ops _ => safe_ops rt ops)); [..|exact H]; clear H a f.
  - intros h r _ _. apply number_pack_safe.
  - intros h r _ _. apply (fixed_pack_safe h r 1).
  - intros h r _ _. apply (fixed_pack_safe h r 2).
  - intros h r _ _. apply (fixed_pack_safe h r 4).
  - intros h r _ _. apply string_pack_safe.
  - intros ty hs ops e fs _ IH He _. by apply safe_table.
  - intros hs base size f _ IH. by apply safe_array.
  - intros h r g s x l t rest buf0 off buf_len _ _ _ _ _ _ loop Hrest. exact Hrest.
  - intros ref a f ops fs Href _ _ IHa _ IHops. by apply safe_value.
  - intros ref va sub e fs' ops fs Href _ _ IHsub He _ _ IHops. by apply safe_sub.
Qed.

(** * Unpacked values can be packed again *)

Inductive wf_fmt : fmt -> Prop :=
| wf_number : wf_fmt Fnumber
| wf_byte : wf_fmt Fbyte
| wf_word : wf_fmt Fword
| wf_dword : wf_fmt Fdword
| wf_string : wf_fmt Fstring
| wf_table fs : NoDup (keys fs) -> Forall (fun k => good_key k = true) (keys fs) ->
    Forall (fun x : field => wf_fmt x.2) fs -> wf_fmt (Ftable fs)
| wf_array size f : 0 <= size -> wf_fmt f -> wf_fmt (Farray size f).

Lemma array_entries_get vs i j :
  luaH_getnum (array_entries i vs) j = if i <=? j then default LNil (vs !! Z.to_nat (j - i)) else LNil.
Proof.
  unfold luaH_getnum. revert i. induction vs as [|v vs IH]; intros i; cbn [array_entries luaH_get].
  { by destruct (i <=? j). }
  rewrite raweq_num, IH. destruct (Z.eqb_spec j i) as [->|].
  - rewrite Z.leb_refl, Z.sub_diag. done.
  - destruct (Z.leb_spec i j); zdecide; [|done].
    replace (Z.to_nat (j - i)) with (S (Z.to_nat (j - (i + 1)))) by lia. done.
Qed.

Lemma border_array `{!LuaEnvOk} l vs : Forall (fun v => v ≠ LNil) vs -> luaH_getn l (array_entries 1 vs) = blen vs.
Proof.
  intros Hvs. pose proof (luaH_getn_nonneg l (array_entries 1 vs)) as H0.
  pose proof (luaH_getn_present l (array_entries 1 vs)) as H1.
  pose proof (luaH_getn_next l (array_entries 1 vs)) as H2.
  set (n := luaH_getn _ _) in *. rewrite array_entries_get in *.
  assert (blen vs <= n) as Hle.
  { destruct (Z.le_gt_cases (blen vs) n) as [|Hlt]; [done|exfalso]. rewrite (proj2 (Z.leb_le _ _)) in H2 by lia.
    replace (Z.to_nat (n + 1 - 1)) with (Z.to_nat n) in H2 by lia.
    destruct (lookup_lt_is_Some_2 vs (Z.to_nat n)) as [v Hv]; [unfold blen in Hlt; lia|].
    rewrite Hv in H2. simpl in H2. eapply Forall_lookup_1 in Hv; [|exact Hvs]. done. }
  destruct (Z.le_gt_cases n (blen vs)) as [|Hgt]; [lia|exfalso].
  pose proof (blen_nonneg vs). apply H1; [lia|]. zdecide.
  by rewrite lookup_ge_None_2 by (unfold blen in Hgt; lia).
Qed.

Lemma built_fields_length B fs vs ds : built_fields B fs vs ds -> length vs = length fs.
Proof.
  revert vs ds. induction fs as [|[[k inl] f] fs IH]; intros [|v vs] [|d ds]; simpl; try done.
  intros [_ H]. f_equal. eauto.
Qed.

Lemma built_fields_has h (t : ltable) fs vs ds : NoDup t.*1 ->
  (forall k v, (k, v) ∈ zip (keys fs) vs -> (k, v) ∈ t) -> Forall (fun k => good_key k = true) (keys fs) ->
  Forall (fun x : field => forall v d, built h x.2 v d -> has h x.2 v d) fs ->
  built_fields (built h) fs vs ds -> has_fields (has h) t fs ds.
Proof.
  intros Hnd. revert vs ds. induction fs as [|[[k inl] f] fs IH]; intros [|v vs] [|d ds] Hin Hgood Hall; simpl; try done.
  intros [H1 H2]. apply Forall_cons in Hall as [Ha Hall]. unfold keys in *. cbn [fmap list_fmap fst] in *.
  apply Forall_cons in Hgood as [Hg Hgood]. split.
  - rewrite (luaH_get_in t k v); [by apply Ha|done|done|]. apply Hin. left.
  - apply (IH vs); auto. intros k' v' H. apply Hin. by right.
Qed.

Lemma built_has `{!LuaEnvOk} h f v d : wf_fmt f -> built h f v d -> has h f v d.
Proof.
  intros Hwf. revert v d. induction f as [| | | | |fs IH|size base IH] using fmt_ind';
    intros v [z|str|ds|ds] Hb; try done; inversion_clear Hwf as [| | | | |? Hnd Hgood Hfs|? ? Hsize Hbase].
  1-4: destruct Hb as [-> Hz]; exists (NInt z); split; [done|]; unfold lua_number2int; simpl; by rewrite Hz.
  - destruct Hb as [-> Hs]. split; [by left|done].
  - destruct Hb as (l & vs & -> & Hl & Hf). exists l, (zip (keys fs) vs). split; [done|]. split; [done|].
    assert (length vs = length (keys fs)) as Hlen
      by (unfold keys; rewrite length_fmap; by eapply built_fields_length).
    assert ((zip (keys fs) vs).*1 = keys fs) as Hk by (apply fst_zip; lia).
    eapply built_fields_has; [by rewrite Hk|done|done| |exact Hf].
    rewrite Forall_forall in IH, Hfs. apply Forall_forall. intros x Hx. apply IH; [done|]. by apply Hfs.
  - destruct Hb as (l & vs & -> & Hl & Hn & Hf). exists l, (array_entries 1 vs). split; [done|]. split; [done|].
    assert (blen vs = blen ds) as Hlen by (unfold blen; f_equal; by eapply Forall2_length).
    split.
    + destruct (size =? 0) eqn:E; [|bool_props; destruct Hn as [? | [? ?]]; [done|lia]].
      rewrite border_array; [split; [lia|unfold INT_MAX; lia]|].
      apply Forall_lookup_2. intros i v Hi. destruct (Forall2_lookup_l _ _ _ _ _ Hf Hi) as (d & _ & Hd).
      by eapply built_not_nil.
    + intros i d Hi. destruct (Forall2_lookup_r _ _ _ _ _ Hf Hi) as (v & Hv & Hd).
      rewrite array_entries_get. zdecide. replace (Z.to_nat (Z.of_nat i + 1 - 1)) with i by lia.
      rewrite Hv. by apply IH.
Qed.

End Refinement.

(** * A concrete format *)

(** The description [{id = "number", who = {name = "string"}}] and a value of
    it, in a Lua state whose registry holds the keys. *)
Module Demo.

Definition rt : ltable :=
  [(LNumber (NInt 1), LString (cstr "id")); (LNumber (NInt 2), LString (cstr "who"));
   (LNumber (NInt 3), LString (cstr "name"))].

Definition arg : fcall_arg :=
  fcall_table_arg (cstr "user") (cstr "user")
    ([mkOp push_value 1 (Some fcall_number_arg); mkOp tb_begin 2 None;
      mkOp push_value 3 (Some fcall_string_arg); mkOp tb_end 3 None] ++ [mkOp tb_end 2 None]).

Definition format : fmt :=
  Ftable [(LString (cstr "id"), false, Fnumber);
          (LString (cstr "who"), true, Ftable [(LString (cstr "name"), false, Fstring)])].

Lemma keys_nodup : NoDup [LString (cstr "id"); LString (cstr "who")].
Proof. apply (bool_decide_unpack _). by vm_compute. Qed.

Lemma arg_denotes : denotes rt arg format.
Proof.
  apply dn_table; [|done|apply keys_nodup].
  apply (dn_value rt 1); [lia|done|constructor|].
  apply (dn_sub rt 2 None [mkOp push_value 3 (Some fcall_string_arg)] (mkOp tb_end 3 None)
    [(LString (cstr "name"), false, Fstring)] [] []); [lia|done| |done| |constructor].
  - apply (dn_value rt 3); [lia|done|constructor|constructor].
  - apply NoDup_singleton.
Qed.

(** The value [{id = 1985, who = {name = "zero"}, extra = true}]. *)
Definition heap : gmap positive ltable :=
  <[1%positive := rt]>
  (<[2%positive := [(LString (cstr "extra"), LBool true); (LString (cstr "who"), LTable 3);
                    (LString (cstr "id"), LNumber (NInt 1985))]]>
  (<[3%positive := [(LString (cstr "name"), LString (cstr "zero"))]]> ∅)).

Definition datum : data := DTable [DNum 1985; DTable [DStr (cstr "zero")]].

Lemma heap_has : @has plain_env heap format (LTable 2) datum.
Proof.
  exists 2%positive, [(LString (cstr "extra"), LBool true); (LString (cstr "who"), LTable 3);
                    (LString (cstr "id"), LNumber (NInt 1985))].
  split; [done|]. split; [done|]. split; [by exists (NInt 1985)|]. split; [|done].
  exists 3%positive, [(LString (cstr "name"), LString (cstr "zero"))]. split; [done|]. split; [done|].
  split; [|done]. split; [by left|done].
Qed.

Definition stack : list lua_value := [LTable 2].

Lemma stack_ok : stack_index stack 1 0 (LTable 2).
Proof. split; [done|]. left. done. Qed.

(** The bytes of the datum: those of the repository's test program. *)
Example datum_bytes : encode format datum = Some (zbytes [0x04; 0xc1; 0x07; 0x05; 0x7a; 0x65; 0x72; 0x6f]).
Proof. reflexivity. Qed.

End Demo.

(** * The theorems *)

Section Claims.
Context {Env : LuaEnv}.

(** C7: [pack] implements the wire format. For a format object that stands for
    [f] and a Lua value that holds the datum [d], it writes exactly the
    encoding of [d] at the given place of the buffer and returns its length
    when it fits in [buf_len]; it returns 0 and touches nothing outside its
    part of the buffer when the encoding does not fit or does not exist
    (strings above 65534 bytes, arrays above 512 elements). *)
Theorem pack_refines_encode rt a f h r v d s g idx i buf off buf_len :
  denotes rt a f -> h !! r = Some rt -> has h f v d -> stack_index s idx i v ->
  0 <= off -> 0 <= buf_len <= INT_MAX -> off + buf_len <= blen buf ->
  exists buf' n v',
    pack a idx buf off buf_len (mkLua s h r g) = LOk (buf', n) (mkLua (<[i := v']> s) h r g) /\
    match encode f d with
    | Some bs =>
        if blen bs <=? buf_len
        then buf' = take (Z.to_nat off) buf ++ bs ++ drop (Z.to_nat off + length bs) buf /\ n = blen bs
        else n = 0 /\ same_outside off buf_len buf buf'
    | None => n = 0 /\ same_outside off buf_len buf buf'
    end.
Proof. intros Hd Hr Hh Hi Ho Hl Hb. by apply (pack_implements rt a f Hd h r v d Hr Hh). Qed.

(** C6: [unpack] implements the wire format on arbitrary bytes. Whatever the
    bytes are, it neither faults nor raises a Lua error nor reads outside the
    given window: it pushes the decoded value and returns the number of bytes
    it consumed, or returns 0. Existing Lua tables are not modified. *)
Theorem unpack_refines_decode rt a f s h r g buf off buf_len :
  denotes rt a f -> h !! r = Some rt -> 0 <= off -> 0 <= buf_len -> off + buf_len <= blen buf ->
  let bs := take (Z.to_nat buf_len) (drop (Z.to_nat off) buf) in
  match decode f bs with
  | Some (d, bs') => exists h' v,
      unpack a buf off buf_len (mkLua s h r g) = LOk (blen bs - blen bs') (mkLua (v :: s) h' r g) /\
      h ⊆ h' /\ built (h' ∖ h) f v d
  | None => exists x h', unpack a buf off buf_len (mkLua s h r g) = LOk 0 (mkLua (x ++ s) h' r g) /\ h ⊆ h'
  end.
Proof. intros Hd Hr Ho Hl Hb. by apply (unpack_implements rt a f Hd). Qed.

(** C5: a value packed by one program and unpacked by another one, whose own
    format object stands for the same format, arrives if its arrays have at most
    255 elements ([sendable]; longer ones do not, [array_length_truncated]): the
    receiver reads
    exactly the bytes the sender wrote and gets the sent datum (numbers of
    [byte] and [word] fields reduced to their width), in fresh tables that hold
    just the fields of the format and that the receiver could pack again. *)
Theorem pack_unpack_roundtrip `{!LuaEnvOk} rt a rt2 a2 f h r v d bs s g idx i buf off buf_len s2 h2 r2 g2 :
  denotes rt a f -> h !! r = Some rt -> has h f v d -> stack_index s idx i v ->
  denotes rt2 a2 f -> h2 !! r2 = Some rt2 -> wf_fmt f ->
  encode f d = Some bs -> sendable f d = true -> blen bs <= buf_len ->
  0 <= off -> 0 <= buf_len <= INT_MAX -> off + buf_len <= blen buf ->
  exists buf' L' h2' v2,
    pack a idx buf off buf_len (mkLua s h r g) = LOk (buf', blen bs) L' /\
    unpack a2 buf' off (blen bs) (mkLua s2 h2 r2 g2) = LOk (blen bs) (mkLua (v2 :: s2) h2' r2 g2) /\
    h2 ⊆ h2' /\ built (h2' ∖ h2) f v2 (received f d) /\ has h2' f v2 (received f d).
Proof.
  intros Hd Hr Hh Hi Hd2 Hr2 Hwf He Hs Hfit Ho Hl Hb. pose proof (blen_nonneg bs).
  destruct (pack_implements rt a f Hd h r v d Hr Hh s g idx i buf off buf_len Hi Ho Hl Hb)
    as (buf' & n & v' & Hp & Hpost).
  rewrite He in Hpost. unfold pack_post in Hpost. rewrite (proj2 (Z.leb_le _ _)) in Hpost by lia.
  destruct Hpost as [-> ->].
  pose proof (unpack_implements rt2 a2 f Hd2 s2 h2 r2 g2 (put buf off bs) off (blen bs) Hr2 Ho
    ltac:(lia) ltac:(lens)) as Hu.
  unfold unpack_post in Hu. rewrite window_put in Hu by lia. pose proof (decode_encode f d bs [] He Hs) as Hdec.
  rewrite app_nil_r in Hdec. rewrite Hdec in Hu. destruct Hu as (h2' & v2 & Hrun & Hsub & Hbuilt).
  rewrite blen_nil, Z.sub_0_r in Hrun.
  eexists _, _, h2', v2. split; [exact Hp|]. split; [exact Hrun|]. split; [done|]. split; [done|].
  apply built_has; [done|]. eapply built_mono; [|exact Hbuilt].
  apply map_subseteq_spec. by intros j t [? ?]%lookup_difference_Some.
Qed.

(** C17: [pack] is memory safe on Lua values of the right type or not, as long as
    every string in them (and every number written as a string) has fewer than
    [INT_MAX] characters and every array length fits an [int] ([ok_val],
    [ok_heap]): it stays inside its part of the buffer, restores the stack and
    returns at most [buf_len], or it raises a Lua error, and its only fault is the
    undefined conversion of a number that no C [int] holds. For a longer string
    this is false: [string_pack_huge_overruns]. *)
Theorem pack_never_overruns rt a f h r v s g idx i buf off buf_len :
  denotes rt a f -> h !! r = Some rt -> ok_heap h -> ok_val h v -> stack_index s idx i v ->
  0 <= off -> 0 <= buf_len <= INT_MAX -> off + buf_len <= blen buf ->
  match pack a idx buf off buf_len (mkLua s h r g) with
  | LOk (buf', n) L' => 0 <= n <= buf_len /\ same_outside off buf_len buf buf' /\
      exists v', L' = mkLua (<[i := v']> s) h r g
  | LErr _ _ => True
  | LUB f => f = BadCast
  end.
Proof.
  intros Hd Hr Hh Hv Hi Ho Hl Hb. by apply (pack_is_safe rt a f Hd h r Hh Hr s g idx i v).
Qed.

(** The length of a variable-length array is written in one byte although
    up to 512 elements are accepted: for more than 255 elements the sender
    succeeds, and the receiver takes only the first [n mod 256] of them and
    leaves the other bytes to be read as the next argument. *)
Theorem array_length_truncated rt hs hs2 a rt2 a2 f h r v ds bs s g idx i buf off buf_len s2 h2 r2 g2 :
  denotes rt a f -> h !! r = Some rt -> has h (Farray 0 f) v (DArray ds) -> stack_index s idx i v ->
  denotes rt2 a2 f -> h2 !! r2 = Some rt2 ->
  256 <= blen ds <= 512 -> forallb (sendable f) ds = true ->
  encode (Farray 0 f) (DArray ds) = Some bs -> blen bs <= buf_len ->
  0 <= off -> 0 <= buf_len <= INT_MAX -> off + buf_len <= blen buf ->
  exists buf' L' n h2' v2,
    pack (fcall_array_arg hs a 0) idx buf off buf_len (mkLua s h r g) = LOk (buf', blen bs) L' /\
    unpack (fcall_array_arg hs2 a2 0) buf' off (blen bs) (mkLua s2 h2 r2 g2)
      = LOk n (mkLua (v2 :: s2) h2' r2 g2) /\ n < blen bs /\
    built (h2' ∖ h2) (Farray 0 f) v2
      (DArray (received f <$> take (Z.to_nat (blen ds mod 256)) ds)).
Proof.
  intros Hd Hr Hh Hi Hd2 Hr2 Hlen Hs He Hfit Ho Hl Hb. pose proof (blen_nonneg bs).
  destruct (pack_implements rt (fcall_array_arg hs a 0) (Farray 0 f) (dn_array _ _ _ _ _ Hd) h r v (DArray ds)
    Hr Hh s g idx i buf off buf_len Hi Ho Hl Hb) as (buf' & n & v' & Hp & Hpost).
  rewrite He in Hpost. unfold pack_post in Hpost. rewrite (proj2 (Z.leb_le _ _)) in Hpost by lia.
  destruct Hpost as [-> ->].
  pose proof (unpack_implements rt2 (fcall_array_arg hs2 a2 0) (Farray 0 f) (dn_array _ _ _ _ _ Hd2) s2 h2 r2 g2
    (put buf off bs) off (blen bs) Hr2 Ho ltac:(lia) ltac:(lens)) as Hu.
  unfold unpack_post in Hu. rewrite window_put in Hu by lia.
  destruct (decode_truncated f ds bs Hlen Hs He) as (rest & Hdec & Hrest). rewrite Hdec in Hu.
  destruct Hu as (h2' & v2 & Hrun & Hsub & Hbuilt).
  eexists _, _, _, h2', v2. split; [exact Hp|]. split; [exact Hrun|]. split; [lia|done].
Qed.

(** A string of 2 GiB or more makes [pack] write outside the buffer: its
    length is narrowed to a negative [int], which every capacity test passes. *)
Theorem string_pack_huge_overruns s h r g idx i str buf off buf_len :
  stack_index s idx i (LString str) -> 2 ^ 31 <= blen str < 2 ^ 32 ->
  0 <= off -> 0 <= buf_len -> blen buf <= INT_MAX ->
  pack fcall_string_arg idx buf off buf_len (mkLua s h r g) = LUB OutOfBounds.
Proof.
  intros Hi Hlen Ho Hl Hb. cbn [pack]. unfold string_pack.
  erewrite lua_bind_ok by (eapply rule_checklstring; eauto).
  assert (wrap32 (blen str) = blen str - 2 ^ 32) as ->.
  { unfold wrap32. replace (blen str + 2 ^ 31) with (blen str - 2 ^ 31 + 1 * 2 ^ 32) by lia.
    rewrite Z.mod_add, Z.mod_small by lia. lia. }
  assert (wrap32 (blen str + 1) = blen str + 1 - 2 ^ 32) as ->.
  { unfold wrap32. replace (blen str + 1 + 2 ^ 31) with (blen str + 1 - 2 ^ 31 + 1 * 2 ^ 32) by lia.
    rewrite Z.mod_add, Z.mod_small by lia. lia. }
  rewrite chk_int_ok by (unfold INT_MIN, INT_MAX; lia).
  erewrite lua_bind_ok by (by apply lift_ok). zdecide.
  destruct (write_cells buf off (le_split 1 (blen str - 2 ^ 32 + 1))) as [buf1|f] eqn:E.
  - erewrite lua_bind_ok by (by apply lift_ok). erewrite lua_bind_ub; [done|]. unfold lift.
    rewrite write_cells_oob; [done|]. apply write_cells_length in E. unfold blen, INT_MAX in *. lia.
  - erewrite lua_bind_ub; [done|]. unfold lift. unfold write_cells in E. case_match; [done|]. by simplify_eq.
Qed.

End Claims.

(** * Witnesses *)

Lemma demo_bounds : 0 <= 1 /\ 0 <= 12 <= INT_MAX /\ 1 + 12 <= blen (replicate 16 Byte.x00).
Proof. by vm_compute. Qed.

Lemma pack_refines_encode_witness :
  exists buf' v', @pack plain_env Demo.arg 1 (replicate 16 Byte.x00) 1 12 (mkLua Demo.stack Demo.heap 1 1)
    = LOk (buf', 8) (mkLua (<[0%nat := v']> Demo.stack) Demo.heap 1 1).
Proof.
  destruct demo_bounds as (H1 & H2 & H3).
  destruct (@pack_refines_encode plain_env Demo.rt Demo.arg Demo.format Demo.heap 1 (LTable 2) Demo.datum
    Demo.stack 1 1 0 (replicate 16 Byte.x00) 1 12 Demo.arg_denotes eq_refl Demo.heap_has Demo.stack_ok H1 H2 H3)
    as (buf' & n & v' & Hp & Hn).
  rewrite Demo.datum_bytes in Hn. destruct Hn as [_ ->]. exists buf', v'. exact Hp.
Defined.

Lemma unpack_refines_decode_witness :
  exists h' v, unpack Demo.arg (zbytes [0x04; 0xc1; 0x07; 0x05; 0x7a; 0x65; 0x72; 0x6f]) 0 8
      (mkLua [] Demo.heap 1 1) = LOk 8 (mkLua [v] h' 1 1).
Proof.
  destruct (unpack_refines_decode Demo.rt Demo.arg Demo.format [] Demo.heap 1 1
    (zbytes [0x04; 0xc1; 0x07; 0x05; 0x7a; 0x65; 0x72; 0x6f]) 0 8 Demo.arg_denotes eq_refl
    (Z.le_refl 0) ltac:(lia) ltac:(by vm_compute)) as (h' & v & H & _).
  by exists h', v.
Defined.

Lemma demo_wf : wf_fmt Demo.format.
Proof.
  constructor; [apply Demo.keys_nodup|by repeat constructor|].
  constructor; [constructor|]. constructor; [|constructor].
  constructor; [apply NoDup_singleton|by repeat constructor|by repeat constructor].
Qed.

Lemma pack_unpack_roundtrip_witness :
  exists buf' L' h2' v2,
    @pack plain_env Demo.arg 1 (replicate 16 Byte.x00) 1 12 (mkLua Demo.stack Demo.heap 1 1) = LOk (buf', 8) L' /\
    unpack Demo.arg buf' 1 8 (mkLua [] Demo.heap 1 1) = LOk 8 (mkLua [v2] h2' 1 1) /\
    @has plain_env h2' Demo.format v2 Demo.datum.
Proof.
  destruct demo_bounds as (H1 & H2 & H3).
  destruct (@pack_unpack_roundtrip plain_env plain_env_ok Demo.rt Demo.arg Demo.rt Demo.arg Demo.format Demo.heap 1
    (LTable 2) Demo.datum _ Demo.stack 1 1 0 (replicate 16 Byte.x00) 1 12 [] Demo.heap 1 1
    Demo.arg_denotes eq_refl Demo.heap_has Demo.stack_ok Demo.arg_denotes eq_refl demo_wf
    Demo.datum_bytes eq_refl ltac:(by vm_compute) H1 H2 H3)
    as (buf' & L' & h2' & v2 & Hp & Hu & _ & _ & Hh).
  exists buf', L', h2', v2. split; [exact Hp|]. split; [exact Hu|]. exact Hh.
Defined.

Lemma demo_heap_ok : @ok_heap plain_env Demo.heap.
Proof.
  intros l t Hl. unfold Demo.heap in Hl.
  apply lookup_insert_Some in Hl as [[<- <-]|[_ Hl]]; [|apply lookup_insert_Some in Hl as [[<- <-]|[_ Hl]];
    [|apply lookup_insert_Some in Hl as [[<- <-]|[_ Hl]]; [|done]]];
    (split; [by vm_compute|]); intros k v Hin;
    repeat (apply elem_of_cons in Hin as [[= -> ->] | Hin]; [first [by vm_compute | by eexists]|]); by apply elem_of_nil in Hin.
Qed.

Lemma pack_never_overruns_witness :
  match @pack plain_env Demo.arg 1 (replicate 16 Byte.x00) 1 12 (mkLua [LTable 3] Demo.heap 1 1) with
  | LOk (buf', n) L' => 0 <= n <= 12 /\ same_outside 1 12 (replicate 16 Byte.x00) buf' /\
      exists v', L' = mkLua (<[0%nat := v']> [LTable 3]) Demo.heap 1 1
  | LErr _ _ => True
  | LUB f => f = BadCast
  end.
Proof.
  destruct demo_bounds as (H1 & H2 & H3).
  apply (@pack_never_overruns plain_env Demo.rt Demo.arg Demo.format Demo.heap 1 (LTable 3));
    [apply Demo.arg_denotes|done|apply demo_heap_ok|by eexists|split; [done|by left]|done..].
Defined.

(** An array of 256 bytes in the heap location 2. *)
Definition big_array : list lua_value := replicate 256 (LNumber (NInt 7)).

Lemma big_array_has :
  @has plain_env (<[2%positive := array_entries 1 big_array]> (<[1%positive := []]> ∅)) (Farray 0 Fbyte) (LTable 2)
    (DArray (replicate 256 (DNum 7))).
Proof.
  exists 2%positive, (array_entries 1 big_array). split; [done|]. split; [done|]. split; [by vm_compute|].
  intros i d Hi. apply lookup_replicate in Hi as [-> Hlt]. exists (NInt 7). split; [|done].
  rewrite array_entries_get. zdecide. unfold big_array.
  replace (Z.to_nat (Z.of_nat i + 1 - 1)) with i by lia. by rewrite lookup_replicate_2.
Qed.

Lemma array_length_truncated_witness :
  exists buf' L' n h2' v2,
    @pack plain_env (fcall_array_arg [] fcall_byte_arg 0) 1 (replicate 300 Byte.x00) 0 300
      (mkLua [LTable 2] (<[2%positive := array_entries 1 big_array]> (<[1%positive := []]> ∅)) 1 1)
      = LOk (buf', 257) L' /\
    unpack (fcall_array_arg [] fcall_byte_arg 0) buf' 0 257 (mkLua [] (<[1%positive := []]> ∅) 1 1)
      = LOk n (mkLua [v2] h2' 1 1) /\ n < 257 /\
    built (h2' ∖ <[1%positive := []]> ∅) (Farray 0 Fbyte) v2 (DArray []).
Proof.
  apply (@array_length_truncated plain_env [] [] [] fcall_byte_arg [] fcall_byte_arg Fbyte
    (<[2%positive := array_entries 1 big_array]> (<[1%positive := []]> ∅)) 1 (LTable 2) (replicate 256 (DNum 7))
    (Byte.x00 :: replicate 256 Byte.x07) [LTable 2] 1 1 0 (replicate 300 Byte.x00) 0 300 [] (<[1%positive := []]> ∅) 1 1
    (dn_byte _)); [by vm_compute|apply big_array_has|split; [done|by left]|constructor|by vm_compute..].
Defined.

Lemma string_pack_huge_overruns_witness :
  @pack plain_env fcall_string_arg 1 [Byte.x00] 0 1
    (mkLua [LString (replicate (Z.to_nat (2 ^ 31)) Byte.x00)] ∅ 1 1) = LUB OutOfBounds.
Proof.
  apply (@string_pack_huge_overruns plain_env [LString (replicate (Z.to_nat (2 ^ 31)) Byte.x00)] ∅ 1 1 1 0
    (replicate (Z.to_nat (2 ^ 31)) Byte.x00)).
  - apply (stack_index_gettop []).
  - unfold blen. rewrite length_replicate. lia.
  - lia.
  - lia.
  - by vm_compute.
Defined.
