(* ===== verification/TableFormat.v ===== *)
(** How formats come to be (protocol/data_format.cpp): the registry of formats
    [fcall_arg_manager] and the construction of table formats from the Lua
    table a format file returns ([fcall_table_arg::_read_format] and
    [_travel_table]). *)
From S2P Require Import Prelude LuaApi LuaRefs DataFormat WireFormat FormatCorrect.

(** * Traversal of a Lua table *)

(** [luaH_next]: the entry after the key, the first one for nil;
    [None] is the error for a key that is not in the table. *)
Fixpoint luaH_next_after (t : ltable) (k : lua_value) : option (option (lua_value * lua_value)) :=
  match t with
  | [] => None
  | (k', _) :: t => if raweq k k' then Some (head t) else luaH_next_after t k
  end.

Definition luaH_next (t : ltable) (k : lua_value) : option (option (lua_value * lua_value)) :=
  match k with LNil => Some (head t) | _ => luaH_next_after t k end.

Definition lua_next (idx : Z) : lua bool :=
  '(_, t) ← table_at idx;
  k ← pop_value;
  match luaH_next t k with
  | None => lua_throw LNil
  | Some None => mret false
  | Some (Some (k', v')) => _ ← push k'; _ ← push v'; mret true
  end.

(** * The registry of formats *)

(** [fcall_arg_manager::_s_args], shared by all managers of the program. *)
Abbreviation s_args_t := (list fcall_arg).

Definition arg_init (s_args : s_args_t) : s_args_t :=
  s_args ++ [fcall_number_arg; fcall_byte_arg; fcall_word_arg; fcall_dword_arg; fcall_string_arg].

Definition arg_destruct (s_args : s_args_t) : s_args_t := [].

Definition add_arg (s_args : s_args_t) (arg : fcall_arg) : s_args_t := s_args ++ [arg].

Definition get_arg_id (s_args : s_args_t) (arg_id : Z) : option fcall_arg :=
  if (0 <=? arg_id) && (arg_id <? blen s_args) then s_args !! Z.to_nat arg_id else None.

Fixpoint get_arg (s_args : s_args_t) (type_name : list byte) : option fcall_arg :=
  match s_args with
  | [] => None
  | a :: s_args => if check_type a type_name then Some a else get_arg s_args type_name
  end.

(** * Table formats *)

Definition max_table_deep : Z := 10.
Definition PROTO_OK : Z := 0.
Definition PROTO_ERROR : Z := -1.

(** The members of a [fcall_table_arg] under construction. *)
Record table_obj := mkObj {
  o_type : list byte;
  o_hashstr : list byte;
  o_opcodes : list (table_opcode fcall_arg);
  o_cur_table_deep : Z
}.

Definition add_hash (o : table_obj) (s : list byte) : table_obj :=
  mkObj (o_type o) (o_hashstr o ++ s) (o_opcodes o) (o_cur_table_deep o).
Definition push_opcode (o : table_obj) (c : table_opcode fcall_arg) : table_obj :=
  mkObj (o_type o) (o_hashstr o) (o_opcodes o ++ [c]) (o_cur_table_deep o).

Section Construction.
Context {Env : LuaEnv}.
Context (s_args : s_args_t).

(** [lua_pushvalue(L, -2); key_ref = lua_ref(L, true); assert(...)]. *)
Definition ref_key : lua Z :=
  _ ← lua_pushvalue (-2);
  key_ref ← lua_ref;
  _ ← lift (require (negb (key_ref =? LUA_NOREF)) AssertFailed);
  mret key_ref.

(** The key of an entry: its reference and the new hash string. *)
Definition travel_key (o : table_obj) : lua (table_obj * Z) :=
  isnum ← lua_isnumber (-2);
  if isnum : bool then key_ref ← ref_key; mret (add_hash o (cstr "number"), key_ref) else
  isstr ← lua_isstring (-2);
  if isstr : bool then
    s ← luaL_checklstring (-2);
    key_ref ← ref_key; mret (add_hash o (c_str s), key_ref)
  else _ ← lua_unref LUA_NOREF; mret (o, LUA_NOREF).

(** A value that names a format. *)
Definition travel_arg (o : table_obj) (key_ref : Z) (value_arg : option fcall_arg)
    : lua (table_obj * option fcall_arg) :=
  match value_arg with
  | None => _ ← lua_unref key_ref; mret (o, value_arg)
  | Some _ =>
      _ ← lift (require (negb (key_ref =? LUA_NOREF)) AssertFailed);
      mret (push_opcode o (mkOp push_value key_ref value_arg), value_arg)
  end.

Definition travel_value (travel : Z -> table_obj -> lua table_obj) (o : table_obj) (key_ref : Z)
    : lua (table_obj * option fcall_arg) :=
  isnum ← lua_isnumber (-1);
  if isnum : bool then travel_arg (add_hash o (cstr "number")) key_ref (get_arg s_args (cstr "number")) else
  isstr ← lua_isstring (-1);
  if isstr : bool then
    s ← luaL_checklstring (-1);
    travel_arg (add_hash o (c_str s)) key_ref (get_arg s_args (c_str s))
  else
  istable ← lua_istable (-1);
  if istable : bool then
    o ← travel (-1) (push_opcode o (mkOp tb_begin key_ref None));
    mret (o, None)
  else _ ← lua_unref key_ref; mret (o, None).

(** The [while (lua_next(...))] loop; the fuel is one more than the number of
    entries. The results are those of the last iteration. *)
Fixpoint travel_loop (travel : Z -> table_obj -> lua table_obj) (fuel : nat) (table_i : Z)
    (o : table_obj) (key_ref : Z) (value_arg : option fcall_arg)
    : lua (table_obj * Z * option fcall_arg) :=
  match fuel with
  | O => lift (UB Diverges)
  | S fuel =>
      more ← lua_next table_i;
      if more : bool then
        '(o, key_ref) ← travel_key o;
        '(o, value_arg) ← travel_value travel o key_ref;
        _ ← lua_pop 1;
        travel_loop travel fuel table_i o key_ref value_arg
      else mret (o, key_ref, value_arg)
  end.

(** [depth] bounds the nesting of calls: every call increments
    [_cur_table_deep], which is never decremented, and returns at once above
    [max_table_deep]. *)
Fixpoint _travel_table (depth : nat) (table_i : Z) (o : table_obj) : lua table_obj :=
  match depth with
  | O => lift (UB Diverges)
  | S depth =>
      top ← lua_gettop;
      let o := mkObj (o_type o) (o_hashstr o) (o_opcodes o) (o_cur_table_deep o + 1) in
      if o_cur_table_deep o >? max_table_deep then _ ← lua_settop top; mret o else
      table_i ← (if table_i <? 0
                 then _ ← lift (require (top >=? - table_i) AssertFailed); mret (top + 1 + table_i)
                 else mret table_i);
      _ ← lua_pushnil;
      '(_, t) ← table_at table_i;
      '(o, key_ref, value_arg) ← travel_loop (_travel_table depth) (S (length t)) table_i o LUA_NOREF None;
      let o := push_opcode o (mkOp tb_end key_ref value_arg) in
      _ ← lua_settop top;
      mret o
  end.

(** What happens to a format file: the file system and the script it holds are
    parameters. *)
Inductive file_outcome : Type :=
| FileUnreadable                       (* [read_file] returns 0 *)
| LoadFails                            (* [luaL_loadbuffer] reports an error *)
| RunFails                             (* the script raises an error *)
| RunReturns (v1 v2 : lua_value) (h' : gmap positive ltable).

Context (run_file : list byte -> lua_State -> file_outcome).

(** [luaL_loadbuffer] pushes the chunk, [lua_setfenv] pops the fresh
    environment, and [lua_pcall(L, 0, 2, 0)] replaces the chunk by its two
    results. *)
Definition _read_format (o : table_obj) : lua (Z * table_obj) :=
  top ← lua_gettop;
  path ← luaL_checklstring (-1);
  L ← get_state;
  match run_file (c_str path) L with
  | FileUnreadable => mret (PROTO_ERROR, o)
  | LoadFails | RunFails => _ ← push LNil; _ ← lua_settop top; mret (PROTO_ERROR, o)
  | RunReturns v1 v2 h' =>
      _ ← set_heap h';
      _ ← push v1; _ ← push v2;
      s ← luaL_checklstring (-2);
      let o := mkObj (c_str s) (c_str s) (o_opcodes o) 0 in
      istable ← lua_istable (-1);
      if istable : bool then
        o ← _travel_table (S (Z.to_nat max_table_deep)) (-1) o;
        _ ← lua_settop top; mret (PROTO_OK, o)
      else _ ← lua_settop top; mret (PROTO_ERROR, o)
  end.

(** [new fcall_table_arg(L)]: the result of [_read_format] is ignored. *)
Definition new_table_arg : lua fcall_arg :=
  '(_, o) ← _read_format (mkObj (cstr "base") (cstr "base") [] 0);
  mret (fcall_table_arg (o_type o) (o_hashstr o) (o_opcodes o)).

Definition add_table_args : lua s_args_t :=
  arg ← new_table_arg; mret (add_arg s_args arg).

(** [new fcall_array_arg(base_type, size)]: the base format is used before
    it is checked. *)
Definition new_array_arg (base_type : list byte) (size : Z) : cres fcall_arg :=
  match get_arg s_args base_type with
  | None => UB NullDeref
  | Some base => Ok (fcall_array_arg (cstr "array" ++ base_type ++ get_hashstr base) base size)
  end.

End Construction.

(** * What a description means *)

(** The registry [rt] holds the references [lv]; a format object stands for a
    format whatever else the registry holds. *)
Definition holds_refs (rt : ltable) (lv : gmap Z lua_value) : Prop :=
  forall ref k, lv !! ref = Some k -> luaH_getnum rt ref = k.
Definition denotes_in (lv : gmap Z lua_value) (a : fcall_arg) (f : fmt) : Prop :=
  forall rt, holds_refs rt lv -> denotes rt a f.
Definition denotes_ops_in (lv : gmap Z lua_value) (ops : list (table_opcode fcall_arg)) (fs : list field) : Prop :=
  forall rt, holds_refs rt lv -> denotes_ops rt ops fs.

Lemma holds_refs_mono rt lv lv' : lv ⊆ lv' -> holds_refs rt lv' -> holds_refs rt lv.
Proof. intros Hs H ref k Hk. apply H. by eapply lookup_weaken. Qed.

Lemma denotes_in_mono lv lv' a f : lv ⊆ lv' -> denotes_in lv a f -> denotes_in lv' a f.
Proof. intros Hs H rt Hrt. apply H. by eapply holds_refs_mono. Qed.

Lemma denotes_ops_in_mono lv lv' ops fs : lv ⊆ lv' -> denotes_ops_in lv ops fs -> denotes_ops_in lv' ops fs.
Proof. intros Hs H rt Hrt. apply H. by eapply holds_refs_mono. Qed.

Lemma reg_inv_holds rt lv B : reg_inv rt lv B -> holds_refs rt lv.
Proof. intros Hr ref k Hk. by destruct (ri_live _ _ _ Hr ref k Hk) as (_ & H & _). Qed.

Lemma reg_inv_bound rt lv B ref k : reg_inv rt lv B -> lv !! ref = Some k -> 0 < ref <= B.
Proof.
  intros Hr Hk. destruct (ri_live _ _ _ Hr ref k Hk) as (H1 & H2 & H3). split; [done|].
  apply (ri_bound _ _ _ Hr), luaH_get_elem. unfold luaH_getnum in H2. by rewrite H2.
Qed.

Section Descriptions.
Context {Env : LuaEnv} (s_args : s_args_t).

(** What a key or a value adds to the hash string. *)
Definition entry_hash (v : lua_value) : list byte :=
  match tonumber v with
  | Some _ => cstr "number"
  | None => match v with LString s => c_str s | _ => [] end
  end.

(** The format a value of the description names. *)
Definition arg_of (v : lua_value) : option fcall_arg :=
  match tonumber v with
  | Some _ => get_arg s_args (cstr "number")
  | None => match v with LString s => get_arg s_args (c_str s) | _ => None end
  end.

(** Keys that can be given a reference. *)
Definition keyable (k : lua_value) : bool :=
  match k with LNumber NNaN => false | LNumber _ | LString _ => true | _ => false end.

(** [described hp r lv t fs n m hs]: the entries [t] describe the fields [fs],
    with [n] tables below them and [m] entries in all, and add [hs] to the
    hash string. Entries whose value names no format are skipped. *)
Inductive described (hp : gmap positive ltable) (r : positive) (lv : gmap Z lua_value)
    : ltable -> list field -> Z -> Z -> list byte -> Prop :=
| ds_nil : described hp r lv [] [] 0 0 []
| ds_value k v t a f fs n m hs :
    keyable k = true -> arg_of v = Some a -> denotes_in lv a f -> described hp r lv t fs n m hs ->
    described hp r lv ((k, v) :: t) ((k, false, f) :: fs) n (1 + m) (entry_hash k ++ entry_hash v ++ hs)
| ds_table k l t' fs' n' m' hs' t fs n m hs :
    keyable k = true -> l ≠ r -> hp !! l = Some t' -> NoDup t'.*1 ->
    described hp r lv t' fs' n' m' hs' -> described hp r lv t fs n m hs ->
    described hp r lv ((k, LTable l) :: t) ((k, true, Ftable fs') :: fs) (1 + n' + n) (1 + m' + m)
      (entry_hash k ++ hs' ++ hs)
| ds_skip k v t fs n m hs :
    keyable k = true -> ttype v ≠ LUA_TTABLE -> arg_of v = None -> described hp r lv t fs n m hs ->
    described hp r lv ((k, v) :: t) fs n (1 + m) (entry_hash k ++ entry_hash v ++ hs).

Lemma described_nonneg hp r lv t fs n m hs : described hp r lv t fs n m hs -> 0 <= n /\ 0 <= m.
Proof. induction 1; lia. Qed.

Lemma described_good hp r lv t fs n m hs : described hp r lv t fs n m hs ->
  Forall (fun k => good_key k = true) t.*1.
Proof. induction 1; simpl; constructor; auto; by destruct k as [| | | [] | | | |]. Qed.

Lemma described_keys hp r lv t fs n m hs : described hp r lv t fs n m hs -> keys fs `sublist_of` t.*1.
Proof. induction 1; simpl; unfold keys in *; simpl; by constructor. Qed.

(** References taken meanwhile change neither the tables nor what exists. *)
Lemma described_mono hp hp' r lv lv' t fs n m hs :
  (forall l, l ≠ r -> hp' !! l = hp !! l) -> lv ⊆ lv' ->
  described hp r lv t fs n m hs -> described hp' r lv' t fs n m hs.
Proof.
  intros HH Hlv. induction 1.
  - constructor.
  - econstructor; eauto using denotes_in_mono.
  - econstructor; eauto. by rewrite HH.
  - by constructor.
Qed.

(** * Traversing a description *)

Lemma stack_index_push s x idx i v : 0 < idx -> stack_index s idx i v ->
  stack_index (x ++ s) idx (length x + i) v.
Proof.
  intros Hpos [Hv [(_ & -> & Hle) | [Hneg _]]]; [|lia]. split.
  - rewrite lookup_app_r by lia. by replace (length x + Z.to_nat (blen s - idx) - length x)%nat
      with (Z.to_nat (blen s - idx)) by lia.
  - left. rewrite blen_app. unfold blen in *. lia.
Qed.

Lemma luaH_next_cons t1 k v t2 : k ∉ t1.*1 -> good_key k = true ->
  luaH_next (t1 ++ (k, v) :: t2) k = Some (head t2).
Proof.
  intros Hk Hg. assert (luaH_next_after (t1 ++ (k, v) :: t2) k = Some (head t2)) as hp.
  { induction t1 as [|[k' v'] t1 IH]; simpl; [by rewrite raweq_refl|].
    apply not_elem_of_cons in Hk as [H1 H2]. rewrite raweq_neq by done. auto. }
  by destruct k.
Qed.

(** The key on the stack while the entries [t1] have been visited. *)
Definition loop_key (t1 : ltable) : lua_value := default LNil (last t1.*1).

Lemma luaH_next_loop t1 t2 : NoDup (t1 ++ t2).*1 -> Forall (fun k => good_key k = true) (t1 ++ t2).*1 ->
  luaH_next (t1 ++ t2) (loop_key t1) = Some (head t2).
Proof.
  unfold loop_key. destruct t1 as [|[k v] t1] using rev_ind; [done|]. rewrite !fmap_app. simpl. rewrite last_snoc. simpl.
  intros Hnd Hg. rewrite <- app_assoc. simpl. apply luaH_next_cons.
  - rewrite <- app_assoc in Hnd. apply NoDup_app in Hnd as (_ & Hd & _). intros Hin. apply (Hd k Hin). left.
  - rewrite <- app_assoc in Hg. apply Forall_app in Hg as [_ Hg]. by inversion Hg.
Qed.

Lemma rule_next s hp r g idx i l t k o : stack_index (k :: s) idx i (LTable l) -> hp !! l = Some t ->
  luaH_next t k = Some o ->
  lua_next idx (mkLua (k :: s) hp r g) =
  match o with
  | None => LOk false (mkLua s hp r g)
  | Some (k', v') => LOk true (mkLua (v' :: k' :: s) hp r g)
  end.
Proof.
  intros Hi Hl Hn. unfold lua_next. erewrite lua_bind_ok by (eapply rule_table_at; eauto). cbv beta iota.
  erewrite lua_bind_ok by reflexivity. rewrite Hn. by destruct o as [[k' v']|].
Qed.

Lemma rule_tolstring_str s hp r g idx i str : stack_index s idx i (LString str) ->
  luaL_checklstring idx (mkLua s hp r g) = LOk str (mkLua s hp r g).
Proof.
  intros Hi. erewrite rule_checklstring by eauto. by rewrite (stack_insert_same _ _ _ _ Hi).
Qed.

Lemma rule_isnumber s hp r g idx i v : stack_index s idx i v ->
  lua_isnumber idx (mkLua s hp r g) = LOk (bool_decide (is_Some (tonumber v))) (mkLua s hp r g).
Proof. intros Hi. unfold lua_isnumber. by erewrite lua_bind_ok by (eapply rule_index; eauto). Qed.

Lemma rule_isstring s hp r g idx i v : stack_index s idx i v ->
  lua_isstring idx (mkLua s hp r g) = LOk ((ttype v =? LUA_TSTRING) || (ttype v =? LUA_TNUMBER)) (mkLua s hp r g).
Proof. intros Hi. unfold lua_isstring. by erewrite lua_bind_ok by (eapply rule_type; eauto). Qed.

Lemma stack_index_second s a b : stack_index (a :: b :: s) (-2) 1 b.
Proof. split; [done|]. right. unfold LUA_REGISTRYINDEX. lia. Qed.

Lemma rule_ref_key `{!LuaEnvOk} s hp r g rt lv B v k :
  hp !! r = Some rt -> reg_inv rt lv B -> k ≠ LNil -> B < INT_MAX ->
  exists ref rt', ref_key (mkLua (v :: k :: s) hp r g) = LOk ref (mkLua (v :: k :: s) (<[r := rt']> hp) r g) /\
    lv !! ref = None /\ reg_inv rt' (<[ref := k]> lv) (B + 1).
Proof.
  intros Hr Hinv Hk HB. unfold ref_key.
  erewrite lua_bind_ok by (eapply rule_pushvalue, stack_index_second).
  destruct (rule_ref (v :: k :: s) hp r g rt lv B k Hr Hinv Hk HB) as (ref & rt' & Href & Hpos & Hfresh & Hinv').
  erewrite lua_bind_ok by exact Href. exists ref, rt'.
  unfold LUA_NOREF. rewrite (proj2 (Z.eqb_neq ref (-2))) by lia.
  erewrite lua_bind_ok by reflexivity. done.
Qed.

Lemma rule_travel_key `{!LuaEnvOk} s hp r g rt lv B v k o :
  hp !! r = Some rt -> reg_inv rt lv B -> keyable k = true -> B < INT_MAX ->
  exists ref rt', travel_key o (mkLua (v :: k :: s) hp r g)
      = LOk (add_hash o (entry_hash k), ref) (mkLua (v :: k :: s) (<[r := rt']> hp) r g) /\
    lv !! ref = None /\ reg_inv rt' (<[ref := k]> lv) (B + 1).
Proof.
  intros Hr Hinv Hk HB. assert (k ≠ LNil) as Hnil by (by destruct k).
  destruct (rule_ref_key s hp r g rt lv B v k Hr Hinv Hnil HB) as (ref & rt' & Href & Hfresh & Hinv').
  exists ref, rt'. split; [|done]. unfold travel_key, entry_hash.
  erewrite lua_bind_ok by (eapply rule_isnumber, stack_index_second).
  destruct (tonumber k) as [x|] eqn:E.
  - rewrite bool_decide_true by eauto. by erewrite lua_bind_ok by exact Href.
  - rewrite bool_decide_false by (by intros []). destruct k as [| | |x|str| | |]; try done.
    erewrite lua_bind_ok by (eapply rule_isstring, stack_index_second). cbn [ttype]. simpl (_ || _). cbv iota.
    erewrite lua_bind_ok by (eapply rule_tolstring_str, stack_index_second).
    by erewrite lua_bind_ok by exact Href.
Qed.

(** What the traversal of a described table does: [ops] are appended. *)
Definition grow_obj (o : table_obj) (hs : list byte) (ops : list (table_opcode fcall_arg)) (n : Z) : table_obj :=
  mkObj (o_type o) (o_hashstr o ++ hs) (o_opcodes o ++ ops) (o_cur_table_deep o + n).

Lemma grow_obj_twice o hs ops n hs' ops' n' :
  grow_obj (grow_obj o hs ops n) hs' ops' n' = grow_obj o (hs ++ hs') (ops ++ ops') (n + n').
Proof. unfold grow_obj. simpl. by rewrite !app_assoc, Z.add_assoc. Qed.

Definition travels (travel : Z -> table_obj -> lua table_obj) (n0 : Z) : Prop :=
  forall hp r rt lv B l t fs n m hs s g o,
  hp !! r = Some rt -> reg_inv rt lv B -> described hp r lv t fs n m hs -> hp !! l = Some t -> l ≠ r ->
  NoDup t.*1 -> o_cur_table_deep o + 1 + n <= max_table_deep -> n < n0 -> B + m <= INT_MAX ->
  exists rt' lv' ops e, travel (-1) o (mkLua (LTable l :: s) hp r g)
      = LOk (grow_obj o hs (ops ++ [e]) (1 + n)) (mkLua (LTable l :: s) (<[r := rt']> hp) r g) /\
    e.(op) = tb_end /\ lv ⊆ lv' /\ reg_inv rt' lv' (B + m) /\ denotes_ops_in lv' ops fs.

(** A value that names a format. *)
Lemma rule_travel_arg hp r g s rt lv B k ref v o a travel :
  hp !! r = Some rt -> reg_inv rt (<[ref := k]> lv) B -> arg_of v = Some a ->
  travel_value s_args travel o ref (mkLua (v :: s) hp r g)
  = LOk (push_opcode (add_hash o (entry_hash v)) (mkOp push_value ref (Some a)), Some a) (mkLua (v :: s) hp r g).
Proof.
  intros Hr Hinv Ha. unfold travel_value, arg_of, entry_hash in *.
  destruct (reg_inv_bound _ _ _ ref k Hinv) as [Hpos _]; [apply lookup_insert_eq|].
  assert (forall o', travel_arg o' ref (Some a) (mkLua (v :: s) hp r g)
    = LOk (push_opcode o' (mkOp push_value ref (Some a)), Some a) (mkLua (v :: s) hp r g)) as Harg.
  { intros o'. unfold travel_arg, LUA_NOREF. rewrite (proj2 (Z.eqb_neq ref (-2))) by lia. done. }
  erewrite lua_bind_ok by (eapply rule_isnumber, stack_index_top).
  destruct (tonumber v) as [x|] eqn:E.
  - rewrite bool_decide_true by eauto. rewrite Ha. apply Harg.
  - rewrite bool_decide_false by (by intros []). destruct v as [| | |x|str| | |]; try done.
    erewrite lua_bind_ok by (eapply rule_isstring, stack_index_top). cbn [ttype]. simpl (_ || _). cbv iota.
    erewrite lua_bind_ok by (eapply rule_tolstring_str, stack_index_top). rewrite Ha. apply Harg.
Qed.

(** A value that names none: the key's reference is released. *)
Lemma rule_travel_skip hp r g s rt lv B k ref v o travel :
  hp !! r = Some rt -> reg_inv rt (<[ref := k]> lv) B -> lv !! ref = None ->
  ttype v ≠ LUA_TTABLE -> arg_of v = None ->
  exists rt', travel_value s_args travel o ref (mkLua (v :: s) hp r g)
    = LOk (add_hash o (entry_hash v), None) (mkLua (v :: s) (<[r := rt']> hp) r g) /\ reg_inv rt' lv B.
Proof.
  intros Hr Hinv Hfresh Htab Ha.
  destruct (reg_inv_bound _ _ _ ref k Hinv) as [Hpos Hle]; [apply lookup_insert_eq|].
  destruct (rule_unref (v :: s) hp r g rt _ B ref k Hr Hinv (lookup_insert_eq _ _ _) Hle) as (rt' & Hun & Hinv').
  rewrite delete_insert_id in Hinv' by done. exists rt'. split; [|done].
  unfold travel_value, arg_of, entry_hash in *.
  erewrite lua_bind_ok by (eapply rule_isnumber, stack_index_top).
  destruct (tonumber v) as [x|] eqn:E.
  - rewrite bool_decide_true by eauto. rewrite Ha. unfold travel_arg. by erewrite lua_bind_ok by exact Hun.
  - rewrite bool_decide_false by (by intros []).
    erewrite lua_bind_ok by (eapply rule_isstring, stack_index_top).
    destruct v as [| | |x|str| | |]; try done; simpl (_ || _); cbv iota.
    4:{ erewrite lua_bind_ok by (eapply rule_tolstring_str, stack_index_top). rewrite Ha.
        unfold travel_arg. by erewrite lua_bind_ok by exact Hun. }
    all: erewrite lua_bind_ok by (eapply rule_istable_at, stack_index_top); simpl (_ =? _); cbv iota;
      erewrite lua_bind_ok by exact Hun; unfold add_hash; rewrite app_nil_r; by destruct o.
Qed.

(** One subtable. *)
Lemma rule_travel_table hp r g s rt lv B k ref l t' fs n m hs o travel n0 :
  travels travel n0 -> hp !! r = Some rt -> reg_inv rt (<[ref := k]> lv) B -> lv !! ref = None ->
  l ≠ r -> hp !! l = Some t' -> NoDup t'.*1 -> described hp r lv t' fs n m hs ->
  o_cur_table_deep o + 1 + n <= max_table_deep -> n < n0 -> B + m <= INT_MAX ->
  exists rt' lv' sub e, travel_value s_args travel o ref (mkLua (LTable l :: s) hp r g)
    = LOk (grow_obj o hs (mkOp tb_begin ref None :: sub ++ [e]) (1 + n), None)
        (mkLua (LTable l :: s) (<[r := rt']> hp) r g) /\
    e.(op) = tb_end /\ <[ref := k]> lv ⊆ lv' /\ reg_inv rt' lv' (B + m) /\ denotes_ops_in lv' sub fs.
Proof.
  intros Htr Hr Hinv Hfresh Hlr Hl Hnd Hd Hdeep Hn HB.
  assert (lv ⊆ <[ref := k]> lv) as Hsub by (by apply insert_subseteq).
  destruct (Htr hp r rt _ B l t' fs n m hs s g (push_opcode o (mkOp tb_begin ref None)) Hr Hinv
    (described_mono _ _ _ _ _ _ _ _ _ _ (fun _ _ => eq_refl) Hsub Hd) Hl Hlr Hnd Hdeep Hn HB)
    as (rt' & lv' & ops & e & Hrun & He & Hlv & Hinv' & Hden).
  exists rt', lv', ops, e. split; [|done]. unfold travel_value.
  erewrite lua_bind_ok by (eapply rule_isnumber, stack_index_top). rewrite bool_decide_false by (by intros []).
  erewrite lua_bind_ok by (eapply rule_isstring, stack_index_top). simpl (_ || _). cbv iota.
  erewrite lua_bind_ok by (eapply rule_istable_at, stack_index_top). simpl (_ =? _). cbv iota.
  erewrite lua_bind_ok by exact Hrun. unfold grow_obj, push_opcode. simpl. by rewrite <- app_assoc.
Qed.

(** One entry: the object grows by [ops1] and [hs1], the entries [t2] with the
    fields [fs2] are left, and opcodes for those complete the opcodes for [fs]. *)
Definition entry_step (travel : Z -> table_obj -> lua table_obj) (hp : gmap positive ltable) (r g : positive)
    (lv : gmap Z lua_value) (B : Z) (s : list lua_value) (k v : lua_value) (t2 : ltable) (fs : list field)
    (n m : Z) (hs : list byte) (o : table_obj) : Prop :=
  exists rt1 lv1 B1 fs2 n1 n2 m2 hs1 hs2 ops1 ref va,
    ('(o, key_ref) ← travel_key o; '(o, value_arg) ← travel_value s_args travel o key_ref;
     mret (M := lua) (o, key_ref, value_arg)) (mkLua (v :: k :: s) hp r g)
      = LOk (grow_obj o hs1 ops1 n1, ref, va) (mkLua (v :: k :: s) (<[r := rt1]> hp) r g) /\
    reg_inv rt1 lv1 B1 /\ lv ⊆ lv1 /\ B1 + m2 = B + m /\ n1 + n2 = n /\ 0 <= n1 /\ hs = hs1 ++ hs2 /\
    described hp r lv t2 fs2 n2 m2 hs2 /\
    (forall lv2 ops2, lv1 ⊆ lv2 -> denotes_ops_in lv2 ops2 fs2 -> denotes_ops_in lv2 (ops1 ++ ops2) fs).

Lemma entry_step_ok `{!LuaEnvOk} travel n0 hp r g rt lv B s k v t2 fs n m hs o : travels travel n0 ->
  hp !! r = Some rt -> reg_inv rt lv B -> described hp r lv ((k, v) :: t2) fs n m hs ->
  o_cur_table_deep o + n <= max_table_deep -> n <= n0 -> B + m <= INT_MAX ->
  entry_step travel hp r g lv B s k v t2 fs n m hs o.
Proof.
  intros Htr Hr Hinv Hd Hdeep Hn HB. unfold entry_step.
  assert (keyable k = true /\ 1 <= m) as [Hk Hm].
  { inversion Hd; subst; (split; [done|]);
      repeat match goal with Hx : described _ _ _ _ _ _ _ _ |- _ => apply described_nonneg in Hx end; lia. }
  assert (good_key k = true) as Hgood by (by destruct k as [| | | [] | | | |]).
  destruct (rule_travel_key s hp r g rt lv B v k o Hr Hinv Hk ltac:(lia)) as (ref & rt1 & Hkey & Hfresh & Hinv1).
  assert (<[r := rt1]> hp !! r = Some rt1) as Hr1 by apply lookup_insert_eq.
  assert (lv ⊆ <[ref := k]> lv) as Hsub by (by apply insert_subseteq).
  inversion Hd as [|k' v' t' a f fs' n' m' hs' _ Ha Hf Hd'
                   |k' l' t' fs' n' m' hs' t'' fs'' n'' m'' hs'' _ Hlr' Hl' Hnd' Hd1 Hd2
                   |k' v' t' fs' n' m' hs' _ Htab Ha Hd']; subst.
  - exists rt1, (<[ref := k]> lv), (B + 1), fs', 0, n, m', (entry_hash k ++ entry_hash v), hs',
      [mkOp push_value ref (Some a)], ref, (Some a).
    split; [|split; [done|split; [done|split; [lia|split; [lia|split; [lia|split; [by rewrite app_assoc|split; [done|]]]]]]]].
    + erewrite lua_bind_ok by exact Hkey. cbv beta iota.
      erewrite lua_bind_ok by (eapply rule_travel_arg; eauto). unfold grow_obj, push_opcode, add_hash. simpl.
      by rewrite app_assoc, Z.add_0_r.
    + intros lv2 ops2 Hlv2 Hops2 rt2 Hrt2. assert (luaH_getnum rt2 ref = k) as Hget.
      { apply Hrt2. eapply lookup_weaken; [apply lookup_insert_eq|done]. }
      destruct (reg_inv_bound _ _ _ ref k Hinv1) as [Hpos _]; [apply lookup_insert_eq|].
      rewrite <- Hget. cbn [app]. apply dn_value; [done|by rewrite Hget| |by apply Hops2].
      apply Hf. eapply holds_refs_mono; [|exact Hrt2]. by etrans.
  - destruct (described_nonneg _ _ _ _ _ _ _ _ Hd1). destruct (described_nonneg _ _ _ _ _ _ _ _ Hd2).
    destruct (rule_travel_table (<[r := rt1]> hp) r g (k :: s) rt1 lv (B + 1) k ref l' t' fs' n' m' hs'
      (add_hash o (entry_hash k)) travel n0) as (rt2 & lv2 & sub & e & Hrun & He & Hlv & Hinv2 & Hden);
      try done; try (simpl; lia).
    { by rewrite lookup_insert_ne. }
    { eapply described_mono; [| |exact Hd1]; [|done]. intros l0 Hl0. by rewrite lookup_insert_ne. }
    rewrite insert_insert_eq in Hrun.
    exists rt2, lv2, (B + 1 + m'), fs'', (1 + n'), n'', m'', (entry_hash k ++ hs'), hs'',
      (mkOp tb_begin ref None :: sub ++ [e]), ref, None.
    split; [|split; [done|split; [by etrans|split; [lia|split; [lia|split; [lia|split; [by rewrite app_assoc|split; [done|]]]]]]]].
    + erewrite lua_bind_ok by exact Hkey. cbv beta iota.
      erewrite lua_bind_ok by exact Hrun. unfold grow_obj, add_hash. simpl. by rewrite app_assoc.
    + intros lv3 ops2 Hlv3 Hops2 rt3 Hrt3. assert (luaH_getnum rt3 ref = k) as Hget.
      { apply Hrt3. eapply lookup_weaken; [apply (lookup_insert_eq lv)|by etrans]. }
      destruct (reg_inv_bound _ _ _ ref k Hinv1) as [Hpos _]; [apply lookup_insert_eq|].
      rewrite <- Hget. cbn [app]. rewrite <- app_assoc. apply dn_sub; [done|by rewrite Hget| |done| |by apply Hops2].
      * apply Hden. by eapply holds_refs_mono.
      * eapply sublist_NoDup; [exact Hnd'|by eapply described_keys].
  - destruct (rule_travel_skip (<[r := rt1]> hp) r g (k :: s) rt1 lv (B + 1) k ref v (add_hash o (entry_hash k)) travel)
      as (rt2 & Hrun & Hinv2); try done. rewrite insert_insert_eq in Hrun.
    exists rt2, lv, (B + 1), fs, 0, n, m', (entry_hash k ++ entry_hash v), hs', [], ref, None.
    split; [|split; [done|split; [done|split; [lia|split; [lia|split; [lia|split; [by rewrite app_assoc|split; [done|]]]]]]]].
    + erewrite lua_bind_ok by exact Hkey. cbv beta iota.
      erewrite lua_bind_ok by exact Hrun. unfold grow_obj, add_hash. simpl. by rewrite app_assoc, app_nil_r, Z.add_0_r.
    + done.
Qed.

(** The loop over the entries [t2] that are left. *)
Lemma travel_loop_spec `{!LuaEnvOk} travel n0 l r g s idx i : travels travel n0 -> 0 < idx -> l ≠ r ->
  stack_index s idx i (LTable l) ->
  forall t2 t1 hp rt lv B fs n m hs o kr va,
  hp !! r = Some rt -> reg_inv rt lv B -> described hp r lv t2 fs n m hs -> hp !! l = Some (t1 ++ t2) ->
  NoDup (t1 ++ t2).*1 -> Forall (fun k => good_key k = true) (t1 ++ t2).*1 ->
  o_cur_table_deep o + n <= max_table_deep -> n <= n0 -> B + m <= INT_MAX ->
  exists rt' lv' ops kr' va',
    travel_loop s_args travel (S (length t2)) idx o kr va (mkLua (loop_key t1 :: s) hp r g)
      = LOk (grow_obj o hs ops n, kr', va') (mkLua s (<[r := rt']> hp) r g) /\
    lv ⊆ lv' /\ reg_inv rt' lv' (B + m) /\ denotes_ops_in lv' ops fs.
Proof.
  intros Htr Hpos Hlr Hi t2. induction t2 as [|[k v] t2 IH];
    intros t1 hp rt lv B fs n m hs o kr va Hr Hinv Hd Hl Hnd Hgood Hdeep Hn HB.
  all: assert (stack_index (loop_key t1 :: s) idx (S i) (LTable l)) as Hi' by (by apply (stack_index_push s [_])).
  all: pose proof (rule_next s hp r g idx _ l _ _ _ Hi' Hl (luaH_next_loop t1 _ Hnd Hgood)) as Hnext.
  - inversion Hd; subst. cbn [length travel_loop]. erewrite lua_bind_ok by exact Hnext. cbv beta iota.
    exists rt, lv, [], kr, va. split.
    { unfold grow_obj. rewrite !app_nil_r, Z.add_0_r, insert_id by done. by destruct o. }
    split; [done|]. rewrite Z.add_0_r. split; [done|]. intros rt' _. constructor.
  - destruct (entry_step_ok travel n0 hp r g rt lv B s k v t2 fs n m hs o)
      as (rt1 & lv1 & B1 & fs2 & n1 & n2 & m2 & hs1 & hs2 & ops1 & ref & va1 & Hrun & Hinv1 & Hlv & HB1 & Hn12
          & Hn1 & -> & Hd2 & Hops); [done..|].
    destruct (IH (t1 ++ [(k, v)]) (<[r := rt1]> hp) rt1 lv1 B1 fs2 n2 m2 hs2 (grow_obj o hs1 ops1 n1) ref va1)
      as (rt2 & lv2 & ops2 & kr2 & va2 & Hrun2 & Hlv2 & Hinv2 & Hops2); rewrite <- ?app_assoc; simpl; try done; try lia.
    { apply lookup_insert_eq. }
    { eapply described_mono; [| |exact Hd2]; [|done]. intros l0 Hl0. by rewrite lookup_insert_ne. }
    { by rewrite lookup_insert_ne. }
    exists rt2, lv2, (ops1 ++ ops2), kr2, va2.
    split; [|split; [by etrans|split; [by rewrite <- HB1|by apply Hops]]].
    rewrite grow_obj_twice, insert_insert_eq, Hn12 in Hrun2.
    assert (loop_key (t1 ++ [(k, v)]) = k) as Hlast by (unfold loop_key; rewrite fmap_app; simpl; by rewrite last_snoc).
    rewrite Hlast in Hrun2. rewrite <- Hrun2. clear Hrun2.
    cbn [length]. cbn [travel_loop]. erewrite lua_bind_ok by exact Hnext. cbv beta iota.
    unfold mbind, lua_bind in Hrun |- *.
    destruct (travel_key o _) as [[o1 ref1] L1|? ?|?]; [|done..].
    destruct (travel_value s_args travel o1 ref1 L1) as [[o2 va2'] L2|? ?|?]; [|done..].
    injection Hrun as -> -> -> ->. by rewrite rule_pop.
Qed.

(** The recursion ends because [_cur_table_deep] only grows. *)
Lemma travel_table_spec `{!LuaEnvOk} depth : travels (_travel_table s_args depth) (Z.of_nat depth).
Proof.
  induction depth as [|depth IH]; intros hp r rt lv B l t fs n m hs s g o Hr Hinv Hd Hl Hlr Hnd Hdeep Hn HB;
    destruct (described_nonneg _ _ _ _ _ _ _ _ Hd); [lia|].
  cbn [_travel_table]. lstep. unfold max_table_deep in *. cbn [o_cur_table_deep].
  rewrite Z.gtb_ltb, (proj2 (Z.ltb_ge _ _)) by lia.
  change (-1 <? 0) with true. cbv iota.
  erewrite (lua_bind_ok (_ ← _; _)).
  2:{ erewrite lua_bind_ok; [reflexivity|]. apply lift_ok. rewrite blen_cons. pose proof (blen_nonneg s).
      rewrite Z.geb_leb, (proj2 (Z.leb_le _ _)) by lia. done. }
  replace (blen (LTable l :: s) + 1 + -1) with (blen (LTable l :: s)) by lia.
  erewrite lua_bind_ok by reflexivity. cbn [stack heap registry globals].
  pose proof (stack_index_gettop s (LTable l)) as Hi.
  assert (0 < blen (LTable l :: s)) as Hpos by (rewrite blen_cons; pose proof (blen_nonneg s); lia).
  erewrite lua_bind_ok by (eapply rule_table_at; [by apply (stack_index_push _ [LNil])|done]). cbv beta iota.
  destruct (travel_loop_spec (_travel_table s_args depth) (Z.of_nat depth) l r g (LTable l :: s)
    (blen (LTable l :: s)) 0%nat IH Hpos Hlr Hi t [] hp rt lv B fs n m hs
    (mkObj (o_type o) (o_hashstr o) (o_opcodes o) (o_cur_table_deep o + 1)) LUA_NOREF None)
    as (rt' & lv' & ops & kr & va & Hrun & Hlv & Hinv' & Hops);
    try done; try (simpl; unfold max_table_deep; lia); [by eapply described_good|].
  exists rt', lv', ops, (mkOp tb_end kr va). split; [|done].
  erewrite lua_bind_ok by exact Hrun. cbv beta iota. erewrite lua_bind_ok by apply rule_settop_same.
  unfold grow_obj, push_opcode. simpl. by rewrite app_assoc, Z.add_assoc.
Qed.

End Descriptions.

(** * The theorems *)

Section Claims.
Context {Env : LuaEnv} (s_args : s_args_t) (run_file : list byte -> lua_State -> file_outcome).

Lemma add_table_args_read status o a L L' :
  _read_format s_args run_file (mkObj (cstr "base") (cstr "base") [] 0) L = LOk (status, o) L' ->
  a = fcall_table_arg (o_type o) (o_hashstr o) (o_opcodes o) ->
  add_table_args s_args run_file L = LOk (s_args ++ [a]) L'.
Proof.
  intros H ->. unfold add_table_args, new_table_arg, mbind, lua_bind. by rewrite H.
Qed.

(** C25: a format file whose script returns a name and a description with at
    most nine tables below the outermost one registers a format of that name
    which stands for exactly the described fields, in traversal order, with
    the hash string the description determines; the traversal terminates, the
    Lua stack is restored, no existing reference is disturbed, and the
    formats registered before keep their meaning. *)
Theorem add_table_args_correct `{!LuaEnvOk} path s h hp r g name l t fs n m hs rt lv B :
  run_file (c_str path) (mkLua (LString path :: s) h r g) = RunReturns (LString name) (LTable l) hp ->
  hp !! r = Some rt -> reg_inv rt lv B -> described s_args hp r lv t fs n m hs -> hp !! l = Some t -> l ≠ r ->
  NoDup t.*1 -> n <= 9 -> B + m <= INT_MAX ->
  exists rt' lv' a,
    add_table_args s_args run_file (mkLua (LString path :: s) h r g)
      = LOk (s_args ++ [a]) (mkLua (LString path :: s) (<[r := rt']> hp) r g) /\
    get_type a = c_str name /\ get_hashstr a = c_str name ++ hs /\ denotes rt' a (Ftable fs) /\
    reg_inv rt' lv' (B + m) /\ lv ⊆ lv' /\ (forall a' f, denotes_in lv a' f -> denotes rt' a' f).
Proof.
  intros Hfile Hr Hinv Hd Hl Hlr Hnd Hn HB.
  destruct (travel_table_spec s_args (S (Z.to_nat max_table_deep)) hp r rt lv B l t fs n m hs
    (LString name :: LString path :: s) g (mkObj (c_str name) (c_str name) [] 0))
    as (rt' & lv' & ops & e & Hrun & He & Hlv & Hinv' & Hops);
    try done; try (unfold max_table_deep; simpl; lia).
  exists rt', lv', (fcall_table_arg (c_str name) (c_str name ++ hs) (ops ++ [e])).
  assert (holds_refs rt' lv') as Hholds by (by eapply reg_inv_holds).
  split; [|split; [done|split; [done|split; [|split; [done|split; [done|]]]]]].
  - eapply add_table_args_read.
    2: instantiate (1 := grow_obj (mkObj (c_str name) (c_str name) [] 0) hs (ops ++ [e]) (1 + n)); done.
    unfold _read_format. lstep.
    erewrite lua_bind_ok by (eapply rule_tolstring_str, stack_index_top).
    erewrite lua_bind_ok by reflexivity. rewrite Hfile.
    do 3 erewrite lua_bind_ok by reflexivity. cbn [stack heap registry globals].
    erewrite lua_bind_ok by (eapply rule_tolstring_str, stack_index_second).
    erewrite lua_bind_ok by (eapply rule_istable_at, stack_index_top). simpl (_ =? _). cbv iota.
    erewrite lua_bind_ok by exact Hrun.
    by erewrite lua_bind_ok by apply (rule_settop (LString path :: s) _ _ _ [LTable l; LString name]).
  - apply dn_table; [by apply Hops|done|]. eapply sublist_NoDup; [exact Hnd|by eapply described_keys].
  - intros a' f Hf. apply Hf. by eapply holds_refs_mono.
Qed.

(** A format file whose script returns a name but no table is registered
    all the same, without opcodes, and receiving an argument of that format
    reads outside the empty opcode vector whatever the bytes are. *)
Theorem format_without_table_faults path s h hp r g name v buf off buf_len L :
  run_file (c_str path) (mkLua (LString path :: s) h r g) = RunReturns (LString name) v hp ->
  ttype v ≠ LUA_TTABLE ->
  exists a, add_table_args s_args run_file (mkLua (LString path :: s) h r g)
      = LOk (s_args ++ [a]) (mkLua (LString path :: s) hp r g) /\
    get_type a = c_str name /\ unpack a buf off buf_len L = LUB OutOfBounds.
Proof.
  intros Hfile Hv. exists (fcall_table_arg (c_str name) (c_str name) []). split; [|done].
  eapply add_table_args_read.
  2: instantiate (1 := mkObj (c_str name) (c_str name) [] 0); done.
  unfold _read_format. lstep.
  erewrite lua_bind_ok by (eapply rule_tolstring_str, stack_index_top).
  erewrite lua_bind_ok by reflexivity. rewrite Hfile.
  do 3 erewrite lua_bind_ok by reflexivity. cbn [stack heap registry globals].
  erewrite lua_bind_ok by (eapply rule_tolstring_str, stack_index_second).
  erewrite lua_bind_ok by (eapply rule_istable_at, stack_index_top).
  rewrite (proj2 (Z.eqb_neq _ _)) by done.
  by erewrite lua_bind_ok by apply (rule_settop (LString path :: s) _ _ _ [v; LString name]).
Qed.

End Claims.

(** * Examples *)

Module Example.

Definition args : s_args_t := arg_init [].
Definition path : list byte := cstr "fmt/user.lua".

(** The description [{id = "number", who = {name = "string"}}] in location 3,
    its inner table in location 4; the registry is location 1. *)
Definition inner : ltable := [(LString (cstr "name"), LString (cstr "string"))].
Definition outer : ltable := [(LString (cstr "id"), LString (cstr "number")); (LString (cstr "who"), LTable 4)].
Definition heap : gmap positive ltable :=
  <[1%positive := []]> (<[3%positive := outer]> (<[4%positive := inner]> ∅)).
Definition run_file (_ : list byte) (_ : lua_State) : file_outcome := RunReturns (LString (cstr "user")) (LTable 3) heap.

Lemma heap_described : @described plain_env args heap 1 ∅ outer
  [(LString (cstr "id"), false, Fnumber); (LString (cstr "who"), true, Ftable [(LString (cstr "name"), false, Fstring)])]
  1 3 (cstr "idnumberwhonamestring").
Proof.
  apply (@ds_value plain_env args heap 1 ∅ (LString (cstr "id")) (LString (cstr "number"))
    [(LString (cstr "who"), LTable 4)] fcall_number_arg Fnumber _ 1 2 (cstr "whonamestring")); [done|done| |].
  { intros rt _. constructor. }
  apply (@ds_table plain_env args heap 1 ∅ (LString (cstr "who")) 4 inner _ 0 1 (cstr "namestring") [] [] 0 0 []);
    [done|done|done|apply NoDup_singleton| |constructor].
  apply (@ds_value plain_env args heap 1 ∅ (LString (cstr "name")) (LString (cstr "string")) [] fcall_string_arg
    Fstring [] 0 0 []); [done|done| |constructor].
  intros rt _. constructor.
Qed.

(** Ten tables [{x = "byte"}] side by side under the keys 1 to 10: none is
    nested deeper than the second level. *)
Definition ten : ltable := (fun i => (num i, LTable (Z.to_pos (i + 10)))) <$> [1; 2; 3; 4; 5; 6; 7; 8; 9; 10].
Definition wide_heap : gmap positive ltable :=
  <[1%positive := []]> (<[3%positive := ten]>
    (foldr (fun i hp => <[Z.to_pos (i + 10) := [(LString (cstr "x"), LString (cstr "byte"))]]> hp) ∅
      [1; 2; 3; 4; 5; 6; 7; 8; 9; 10])).
Definition run_wide (_ : list byte) (_ : lua_State) : file_outcome :=
  RunReturns (LString (cstr "wide")) (LTable 3) wide_heap.

(** The object built for it, and the Lua state after that. *)
Definition wide : option (fcall_arg * lua_State) :=
  match @add_table_args plain_env args run_wide (mkLua [LString path] ∅ 1 2) with
  | LOk s_args' L => (fun a => (a, L)) <$> last s_args'
  | _ => None
  end.

End Example.

Lemma add_table_args_correct_witness :
  exists rt' lv' a,
    @add_table_args plain_env Example.args Example.run_file (mkLua [LString Example.path] ∅ 1 2)
      = LOk (Example.args ++ [a]) (mkLua [LString Example.path] (<[1%positive := rt']> Example.heap) 1 2) /\
    get_type a = cstr "user" /\ get_hashstr a = cstr "useridnumberwhonamestring" /\
    reg_inv rt' lv' 3.
Proof.
  destruct (@add_table_args_correct plain_env Example.args Example.run_file plain_env_ok Example.path [] ∅ Example.heap
    1 2 (cstr "user") 3 Example.outer _ 1 3 _ [] ∅ 0 eq_refl eq_refl reg_inv_empty Example.heap_described eq_refl
    ltac:(done) ltac:(apply (bool_decide_unpack _); by vm_compute) ltac:(lia) ltac:(unfold INT_MAX; lia))
    as (rt' & lv' & a & H1 & H2 & H3 & _ & H5 & _).
  exists rt', lv', a. split; [exact H1|]. split; [exact H2|]. split; [exact H3|]. exact H5.
Defined.

Lemma format_without_table_faults_witness :
  exists a, @add_table_args plain_env Example.args (fun _ _ => RunReturns (LString (cstr "user")) LNil ∅)
      (mkLua [LString Example.path] ∅ 1 2) = LOk (Example.args ++ [a]) (mkLua [LString Example.path] ∅ 1 2) /\
    get_type a = cstr "user" /\ unpack a (zbytes [1; 2; 3]) 0 3 (mkLua [] ∅ 1 2) = LUB OutOfBounds.
Proof.
  apply (@format_without_table_faults plain_env Example.args (fun _ _ => RunReturns (LString (cstr "user")) LNil ∅)
    Example.path [] ∅ ∅ 1 2 (cstr "user") LNil (zbytes [1; 2; 3]) 0 3 (mkLua [] ∅ 1 2)); done.
Defined.

(** The nesting limit of table formats counts all tables of a description,
    not their depth, and the table that reaches it is cut without error: for
    ten tables side by side (depth two, limit ten) the format built receives
    the nine bytes of the first nine tables and leaves three values on the Lua
    stack instead of one, with an empty table where the argument should be. *)
Theorem wide_description_truncated :
  exists a L x k l l0, Example.wide = Some (a, L) /\
    unpack a (zbytes [1; 2; 3; 4; 5; 6; 7; 8; 9; 10]) 0 10 (mkLua [] (heap L) 1 2)
      = LOk 9 x /\ stack x = [LTable l; k; LTable l0] /\ heap x !! l = Some [].
Proof.
  destruct Example.wide as [[a L]|] eqn:E; [|by vm_compute in E].
  vm_compute in E. injection E as <- <-.
  eexists _, _, _, _, _, _. split; [reflexivity|]. vm_compute. repeat split; reflexivity.
Qed.
