(* ===== verification/Protocol.v ===== *)
(** Remote calls (protocol/protocol.cpp and protocol.h): the protocols a program
    loads from description files, the functions that marshal a call and hand
    it to the network, and the dispatch of received bytes to Lua handlers.

    Objects that C++ code holds by pointer and deletes ([net_protocol],
    [proto_manager]) live in stores keyed by their address, so that a use
    after [delete] is a fault. *)
From S2P Require Import Prelude LuaApi LuaRefs DataFormat WireFormat FormatCorrect TableFormat.

(** * The check number of a string *)

(** A [char] of the source is signed. *)
Definition schar (c : byte) : Z := let z := byte.unsigned c in if z <? 128 then z else z - 256.

Definition hash_step (nr nr2 : Z) (c : byte) : Z :=
  wrap32 (Z.lxor nr (wrap32 ((Z.land nr 63 + nr2) * schar c + wrap32 (Z.shiftl nr 8)))).

Fixpoint calc_hashnr_from (key : list byte) (nr nr2 : Z) : Z :=
  match key with
  | [] => nr
  | c :: key => calc_hashnr_from key (hash_step nr nr2 c) (wrap32 (nr2 + 3))
  end.

Definition calc_hashnr (key : list byte) : Z := calc_hashnr_from key 1 4.

(** * State *)

Record net_protocol := mkProto {
  p_args : list fcall_arg;
  p_pack_func_name : list byte;
  p_unpack_ref : Z;
  p_id : Z;
  p_is_maker : bool;
  p_manager : Z;
  p_pack_count : Z;
  p_unpack_count : Z
}.

Record proto_manager := mkManager {
  m_for_maker : option (list byte);
  m_for_caller : option (list byte);
  m_protos : list Z;
  m_data_sender : Z;
  m_static_protocol_count : Z
}.

(** A call of the send hook: data, [ext], [ismulticast], [mcpayloadlen]. *)
Record message := mkMsg {
  msg_hook : Z;
  msg_data : list byte;
  msg_ext : Z;
  msg_ismulticast : bool;
  msg_mcpayloadlen : Z
}.

(** The globals of the program, the objects on its heap, and what it did:
    the messages handed to the hooks and the Lua handlers called. *)
Record world := mkWorld {
  w_args : s_args_t;
  w_protos : gmap Z net_protocol;
  w_managers : gmap Z proto_manager;
  w_map : gmap (list byte) Z;
  w_total_pack : Z;
  w_total_unpack : Z;
  w_next : Z;
  w_sent : list message;
  w_calls : list (lua_value * list lua_value)
}.

Inductive pres (A : Type) : Type :=
| POk (a : A) (w : world) (L : lua_State)
| PErr (msg : lua_value) (w : world) (L : lua_State)
| PUB (f : fault).
Arguments POk {A} a w L.
Arguments PErr {A} msg w L.
Arguments PUB {A} f.

Definition proto (A : Type) : Type := world -> lua_State -> pres A.

#[export] Instance proto_ret : MRet proto := fun A a w L => POk a w L.
#[export] Instance proto_bind : MBind proto := fun A B k m w L =>
  match m w L with POk a w' L' => k a w' L' | PErr e w' L' => PErr e w' L' | PUB f => PUB f end.

(** A call of the Lua API. *)
Definition api {A} (m : lua A) : proto A := fun w L =>
  match m L with LOk a L' => POk a w L' | LErr e L' => PErr e w L' | LUB f => PUB f end.
Definition pfault {A} (f : fault) : proto A := fun w L => PUB f.
Definition get_lua : proto lua_State := fun w L => POk L w L.
Definition get_world : proto world := fun w L => POk w w L.
Definition set_world (w : world) : proto unit := fun _ L => POk () w L.

Definition get_proto (p : Z) : proto net_protocol := fun w L =>
  match w_protos w !! p with Some x => POk x w L | None => PUB UseAfterFree end.
Definition set_proto (p : Z) (x : net_protocol) : proto unit := fun w L =>
  POk () (mkWorld (w_args w) (<[p := x]> (w_protos w)) (w_managers w) (w_map w) (w_total_pack w)
    (w_total_unpack w) (w_next w) (w_sent w) (w_calls w)) L.
Definition delete_proto (p : Z) : proto unit := fun w L =>
  POk () (mkWorld (w_args w) (delete p (w_protos w)) (w_managers w) (w_map w) (w_total_pack w)
    (w_total_unpack w) (w_next w) (w_sent w) (w_calls w)) L.
Definition get_manager (m : Z) : proto proto_manager := fun w L =>
  match w_managers w !! m with Some x => POk x w L | None => PUB UseAfterFree end.
Definition set_manager (m : Z) (x : proto_manager) : proto unit := fun w L =>
  POk () (mkWorld (w_args w) (w_protos w) (<[m := x]> (w_managers w)) (w_map w) (w_total_pack w)
    (w_total_unpack w) (w_next w) (w_sent w) (w_calls w)) L.
Definition set_args (a : s_args_t) : proto unit := fun w L =>
  POk () (mkWorld a (w_protos w) (w_managers w) (w_map w) (w_total_pack w)
    (w_total_unpack w) (w_next w) (w_sent w) (w_calls w)) L.
Definition set_map (m : gmap (list byte) Z) : proto unit := fun w L =>
  POk () (mkWorld (w_args w) (w_protos w) (w_managers w) m (w_total_pack w)
    (w_total_unpack w) (w_next w) (w_sent w) (w_calls w)) L.
Definition send (x : message) : proto unit := fun w L =>
  POk () (mkWorld (w_args w) (w_protos w) (w_managers w) (w_map w) (w_total_pack w)
    (w_total_unpack w) (w_next w) (w_sent w ++ [x]) (w_calls w)) L.
Definition log_call (f : lua_value) (vs : list lua_value) : proto unit := fun w L =>
  POk () (mkWorld (w_args w) (w_protos w) (w_managers w) (w_map w) (w_total_pack w)
    (w_total_unpack w) (w_next w) (w_sent w) (w_calls w ++ [(f, vs)])) L.
Definition count_pack : proto unit := fun w L =>
  POk () (mkWorld (w_args w) (w_protos w) (w_managers w) (w_map w) ((w_total_pack w + 1) mod 2 ^ 64)
    (w_total_unpack w) (w_next w) (w_sent w) (w_calls w)) L.
Definition count_unpack : proto unit := fun w L =>
  POk () (mkWorld (w_args w) (w_protos w) (w_managers w) (w_map w) (w_total_pack w)
    ((w_total_unpack w + 1) mod 2 ^ 64) (w_next w) (w_sent w) (w_calls w)) L.
(** A fresh address. *)
Definition new_address : proto Z := fun w L =>
  POk (w_next w) (mkWorld (w_args w) (w_protos w) (w_managers w) (w_map w) (w_total_pack w)
    (w_total_unpack w) (w_next w + 1) (w_sent w) (w_calls w)) L.

(** * Names *)

Definition npos : Z := 2 ^ 64 - 1.

(** [std::string::find_last_of] of one character. *)
Fixpoint find_last_of_from (c : byte) (s : list byte) (i found : Z) : Z :=
  match s with
  | [] => found
  | x :: s => find_last_of_from c s (i + 1) (if decide (x = c) then i else found)
  end.
Definition find_last_of (c : byte) (s : list byte) : Z := find_last_of_from c s 0 npos.

Definition substr (s : list byte) (pos n : Z) : list byte :=
  take (Z.to_nat n) (drop (Z.to_nat pos) s).

Definition client : list byte := cstr "client".
Definition server : list byte := cstr "server".

Section Protocols.
Context {Env : LuaEnv}.
(** [cur_char] says which side the program is. *)
Context (cur_char : list byte).
(** The format and protocol files, and the Lua functions called through
    [lua_pcall]. *)
Context (run_file : list byte -> lua_State -> file_outcome).

Inductive call_outcome : Type :=
| CallReturns (rets : list lua_value) (h' : gmap positive ltable)
| CallFails (msg : lua_value) (h' : gmap positive ltable).

Context (call : lua_value -> list lua_value -> lua_State -> call_outcome).

(** The uninitialised local buffers of the C++ functions. *)
Context (garbage : list byte).

(** [lua_pcall(L, nargs, nresults, 0)]: the status; on error the message is
    on the stack. *)
Definition pcall (nargs nresults : Z) : proto Z :=
  L ← get_lua;
  let args := take (Z.to_nat nargs) (stack L) in
  match drop (Z.to_nat nargs) (stack L) with
  | [] => pfault OutOfBounds
  | f :: s =>
      _ ← log_call f (rev args);
      match call f (rev args) L with
      | CallReturns rets h' =>
          _ ← api (set_heap h');
          _ ← api (set_stack (rev (resize (Z.to_nat nresults) LNil rets) ++ s)); mret 0
      | CallFails msg h' => _ ← api (set_heap h'); _ ← api (set_stack (msg :: s)); mret 2
      end
  end.

(** * Loading a protocol *)

(** The tests [begin_pos < 0] and [end_pos < 0] are on unsigned values, so the
    search for a backslash is never made and a missing character is the huge
    value [npos]. *)
Definition process_type (p : Z) (path : list byte) : proto Z :=
  let name := path in
  let begin_pos := find_last_of Byte.x2f name in
  let begin_pos := if begin_pos <? 0 then find_last_of Byte.x5c name else begin_pos in
  let end_pos := find_last_of Byte.x2e name in
  if (begin_pos <? 0) || (end_pos <? 0) || (begin_pos >=? end_pos) then mret PROTO_ERROR else
  let begin_pos := begin_pos + 1 in
  let func := substr name begin_pos (end_pos - begin_pos) in
  x ← get_proto p;
  let x := mkProto (p_args x) func (p_unpack_ref x) (p_id x) (p_is_maker x) (p_manager x)
             (p_pack_count x) (p_unpack_count x) in
  if decide (substr func 0 2 = cstr "c_") then
    _ ← set_proto p (mkProto (p_args x) func (p_unpack_ref x) (p_id x) (bool_decide (cur_char = client))
          (p_manager x) (p_pack_count x) (p_unpack_count x)); mret PROTO_OK
  else if decide (substr func 0 2 = cstr "s_") then
    _ ← set_proto p (mkProto (p_args x) func (p_unpack_ref x) (p_id x) (bool_decide (cur_char = server))
          (p_manager x) (p_pack_count x) (p_unpack_count x)); mret PROTO_OK
  else _ ← set_proto p x; mret PROTO_ERROR.

Definition set_unpack_ref (p : Z) (ref : Z) : proto unit :=
  x ← get_proto p;
  set_proto p (mkProto (p_args x) (p_pack_func_name x) ref (p_id x) (p_is_maker x) (p_manager x)
    (p_pack_count x) (p_unpack_count x)).

(** [if (_unpack_ref != LUA_NOREF) lua_unref(...); _unpack_ref = lua_ref(...)]. *)
Definition bind_handler (p : Z) (check_function : bool) : proto unit :=
  x ← get_proto p;
  _ ← (if p_unpack_ref x =? LUA_NOREF then mret () else api (lua_unref (p_unpack_ref x)));
  isfun ← api (lua_isfunction (-1));
  _ ← api (lift (require (negb check_function || isfun) AssertFailed));
  ref ← api lua_ref;
  _ ← set_unpack_ref p ref;
  api (lift (require (negb (ref =? LUA_NOREF)) AssertFailed)).

Definition proto_status (p : Z) : proto Z :=
  x ← get_proto p;
  mret (if p_unpack_ref x =? LUA_NOREF then PROTO_ERROR else PROTO_OK).

(** The label [use_tmpfunc]. *)
Definition use_tmpfunc (p : Z) (top : Z) : proto Z :=
  _ ← api (lua_getglobal (cstr "construc_default_rpcfunc"));
  isfun ← api (lua_isfunction (-1));
  _ ← (if isfun : bool then
         x ← get_proto p;
         _ ← api (lua_pushlstring (p_pack_func_name x));
         _ ← pcall 1 1;
         _ ← bind_handler p true;
         api (lua_settop top)
       else mret ());
  proto_status p.

Definition func_proc (p : Z) : proto Z :=
  top ← api lua_gettop;
  x ← get_proto p;
  m ← get_manager (p_manager x);
  if p_is_maker x then
    _ ← api (lua_pushlstring (default [] (m_for_maker m)));
    _ ← api (lua_rawget LUA_GLOBALSINDEX);
    istable ← api (lua_istable (-1));
    if negb istable then use_tmpfunc p top else
    _ ← api (lua_pushlstring (p_pack_func_name x));
    _ ← api (lua_rawget (-2));
    isfun ← api (lua_isfunction (-1));
    if negb isfun then use_tmpfunc p top else
    _ ← bind_handler p false;
    _ ← api (lua_settop top);
    proto_status p
  else
    let caller := default [] (m_for_caller m) in
    _ ← api (lua_pushlstring caller);
    _ ← api (lua_rawget LUA_GLOBALSINDEX);
    istable ← api (lua_istable (-1));
    _ ← (if istable : bool then mret () else
           _ ← api lua_newtable;
           _ ← api (lua_setglobal caller);
           _ ← api (lua_pushlstring caller);
           _ ← api (lua_rawget LUA_GLOBALSINDEX);
           istable ← api (lua_istable (-1));
           api (lift (require istable AssertFailed)));
    _ ← api (lua_pushlstring (p_pack_func_name x));
    _ ← api (push (LPackClosure p));
    _ ← api (lua_rawset (-3));
    _ ← api (lua_settop top);
    mret PROTO_OK.

(** The loop over the argument descriptions; [n] are left. The length of the
    list does not change during the loop. *)
Fixpoint arglist_loop (p : Z) (arg_list_i : Z) (n : nat) (i : Z) : proto Z :=
  match n with
  | O => mret PROTO_OK
  | S n =>
      _ ← api (lua_settop arg_list_i);
      _ ← api (lua_rawgeti arg_list_i i);
      istable ← api (lua_istable (-1));
      if negb istable then mret PROTO_ERROR else
      desc_i ← api lua_gettop;
      _ ← api (lua_rawgeti desc_i 2);
      s ← api (luaL_checklstring (-1));
      let arg_type := c_str s in
      _ ← api (lua_rawgeti desc_i 3);
      isnum ← api (lua_isnumber (-1));
      w ← get_world;
      arg ← (if isnum : bool then
               d ← api (lua_tonumber (-1));
               array_len ← api (lift (lua_number2int d));
               if (array_len <? 0) || (array_len >? 255) then mret None else
               a ← api (lift (new_array_arg (w_args w) arg_type array_len));
               _ ← set_args (add_arg (w_args w) a); mret (Some a)
             else mret (get_arg (w_args w) arg_type));
      match arg with
      | None => mret PROTO_ERROR
      | Some a =>
          x ← get_proto p;
          _ ← set_proto p (mkProto (p_args x ++ [a]) (p_pack_func_name x) (p_unpack_ref x) (p_id x)
                (p_is_maker x) (p_manager x) (p_pack_count x) (p_unpack_count x));
          arglist_loop p arg_list_i n (i + 1)
      end
  end.

Definition arglist_proc (p : Z) : proto Z :=
  _ ← api (lua_pushlstring (cstr "arg_list"));
  _ ← api (lua_rawget (-2));
  istable ← api (lua_istable (-1));
  if istable : bool then
    arg_list_i ← api lua_gettop;
    n ← api (lua_objlen arg_list_i);
    arglist_loop p arg_list_i (Z.to_nat (wrap32 n)) 1
  else mret PROTO_ERROR.

Definition convert_protocol (p : Z) : proto Z :=
  top ← api lua_gettop;
  istable ← api (lua_istable (-1));
  if negb istable then mret PROTO_ERROR else
  _ ← api (lua_pushlstring (cstr "func_name"));
  _ ← api (lua_rawget (-2));
  isstr ← api (lua_isstring (-1));
  _ ← (if isstr : bool then
         s ← api (lua_tolstring (-1));
         x ← get_proto p;
         set_proto p (mkProto (p_args x) (c_str (default [] s)) (p_unpack_ref x) (p_id x)
           (p_is_maker x) (p_manager x) (p_pack_count x) (p_unpack_count x))
       else mret ());
  _ ← api (lua_pop 1);
  rel ← func_proc p;
  if negb (rel =? PROTO_OK) then _ ← api (lua_settop top); mret rel else
  rel ← arglist_proc p;
  if negb (rel =? PROTO_OK) then _ ← api (lua_settop top); mret rel else
  _ ← api (lua_settop top);
  mret PROTO_OK.

Definition load (p : Z) : proto Z :=
  top ← api lua_gettop;
  path ← api (luaL_checklstring (-1));
  rel ← process_type p (c_str path);
  if rel =? PROTO_ERROR then mret PROTO_ERROR else
  file ← api (luaL_checklstring (-1));
  L ← get_lua;
  match run_file (c_str file) L with
  | FileUnreadable => mret PROTO_ERROR
  | LoadFails => _ ← api (push LNil); _ ← api (lua_settop (top + 1)); mret PROTO_ERROR
  | RunFails => _ ← api (push LNil); _ ← api (lua_settop top); mret PROTO_ERROR
  | RunReturns v _ h' =>
      _ ← api (set_heap h');
      _ ← api (push v);
      convert_protocol p
  end.

(** * Sending *)

Definition MAXTONETD : Z := 0x8000.
Definition VFD_NULL : Z := 0.

(** The arguments are at the stack positions 2, 3, ... *)
Fixpoint marshal_args (args : list fcall_arg) (i : Z) (buf : list byte) (buf_len used_len : Z)
    : lua (list byte * Z) :=
  match args with
  | [] => mret (buf, used_len)
  | a :: args =>
      '(buf, cur_used) ← pack a (i + 2) buf used_len (buf_len - used_len);
      if cur_used =? 0 then mret (buf, -1) else
      marshal_args args (i + 1) buf buf_len (used_len + cur_used)
  end.

Definition marshal (x : net_protocol) (buf : list byte) (buf_len : Z) : lua (list byte * Z) :=
  _ ← lift (require (negb (p_id x =? 0)) AssertFailed);
  if p_id x <? 256 then
    buf ← lift (write_cells buf 0 (le_split 1 (p_id x)));
    marshal_args (p_args x) 0 buf buf_len 1
  else
    buf ← lift (write_cells buf 0 [Byte.x00]);
    buf ← lift (write_cells buf 1 (le_split 2 (p_id x)));
    marshal_args (p_args x) 0 buf buf_len 3.

(** The conversion of a number to [VFD], an [unsigned int]. *)
Definition number2vfd (n : lua_Number) : cres Z :=
  match trunc n with
  | Some z => if (0 <=? z) && (z <? 2 ^ 32) then Ok z else UB BadCast
  | None => UB BadCast
  end.

(** The recipients of a multicast behind the payload: [n] entries left. *)
Fixpoint multicast_loop (n : nat) (i : Z) (buf : list byte) (beginp c t : Z) : lua (list byte * Z * Z) :=
  match n with
  | O => mret (buf, c, t)
  | S n =>
      _ ← lua_pushnumber (i + 1);
      _ ← lua_gettable 1;
      d ← luaL_checknumber (-1);
      to ← lift (number2vfd d);
      _ ← lua_remove (-1);
      if to >? VFD_NULL then
        if beginp + 4 <=? MAXTONETD then
          buf ← lift (write_cells buf beginp (le_split 4 to));
          multicast_loop n (i + 1) buf (beginp + 4) (c + 1) (t + 1)
        else multicast_loop n (i + 1) buf beginp c (t + 1)
      else multicast_loop n (i + 1) buf beginp c t
  end.

(** [net_protocol::pack], the Lua function [for_caller.name(vfd, ...)];
    [self] is its upvalue. *)
Definition net_pack (self : Z) : proto Z :=
  top ← api lua_gettop;
  _ ← count_pack;
  x ← get_proto self;
  let x := mkProto (p_args x) (p_pack_func_name x) (p_unpack_ref x) (p_id x) (p_is_maker x)
             (p_manager x) ((p_pack_count x + 1) mod 2 ^ 64) (p_unpack_count x) in
  _ ← set_proto self x;
  let buf := garbage in
  type ← api (lua_type 1);
  _ ← (if type =? LUA_TNUMBER then
         d ← api (lua_tonumber 1);
         z ← api (lift (lua_number2int d));
         let ext := uwrap32 z in
         if VFD_NULL >=? ext then mret () else
         '(buf, used_len) ← api (marshal x buf MAXTONETD);
         if used_len >? 0 then
           m ← get_manager (p_manager x);
           send (mkMsg (m_data_sender m) (take (Z.to_nat used_len) buf) ext false 0)
         else mret ()
       else if type =? LUA_TTABLE then
         s ← api (lua_objlen 1);
         if s >? 0 then
           '(buf, used_len) ← api (marshal x buf MAXTONETD);
           if used_len >? 0 then
             '(buf, c, _) ← api (multicast_loop (Z.to_nat s) 0 buf used_len 0 0);
             if c >? 0 then
               m ← get_manager (p_manager x);
               send (mkMsg (m_data_sender m) (take (Z.to_nat (used_len + c * 4)) buf) c true used_len)
             else mret ()
           else mret ()
         else mret ()
       else mret ());
  _ ← api (lua_settop top);
  mret 0.

(** * Receiving *)

Definition XYNET_ERROR_UNPACK_FORMAT : Z := -1.
Definition XYNET_ERROR_UNPACK_SCRIPT : Z := -2.

(** [None] when an argument cannot be unpacked. *)
Fixpoint unpack_args (args : list fcall_arg) (buf : list byte) (off buf_len readed_len : Z) : lua (option Z) :=
  match args with
  | [] => mret (Some readed_len)
  | a :: args =>
      cur_readed ← unpack a buf (off + readed_len) (buf_len - readed_len);
      if cur_readed =? 0 then mret None else
      unpack_args args buf off buf_len (readed_len + cur_readed)
  end.

Definition net_unpack (p : Z) (buf : list byte) (off buf_len ext : Z) : proto Z :=
  top ← api lua_gettop;
  x ← get_proto p;
  if p_unpack_ref x =? LUA_NOREF then mret XYNET_ERROR_UNPACK_FORMAT else
  _ ← count_unpack;
  _ ← set_proto p (mkProto (p_args x) (p_pack_func_name x) (p_unpack_ref x) (p_id x) (p_is_maker x)
        (p_manager x) (p_pack_count x) ((p_unpack_count x + 1) mod 2 ^ 64));
  _ ← api (lua_getref (p_unpack_ref x));
  isfun ← api (lua_isfunction (-1));
  _ ← api (lift (require isfun AssertFailed));
  _ ← api (lua_pushnumber ext);
  readed ← api (unpack_args (p_args x) buf off buf_len 0);
  match readed with
  | None => _ ← api (lua_settop top); mret XYNET_ERROR_UNPACK_FORMAT
  | Some readed_len =>
      status ← pcall (blen (p_args x) + 1) 0;
      if negb (status =? 0) then
        _ ← api (luaL_checklstring (-1));
        _ ← api (lua_settop top);
        mret XYNET_ERROR_UNPACK_SCRIPT
      else _ ← api (lua_settop top); mret readed_len
  end.

Definition unpack_data (mgr : Z) (buf : list byte) (buf_size ext : Z) : proto Z :=
  if 1 >? buf_size then mret 0 else
  b ← api (lift (read_cells buf 0 1));
  let proto_id := le_combine b in
  m ← get_manager mgr;
  let dispatch (proto_id readed_len : Z) : proto Z :=
    if proto_id >=? blen (m_protos m) then mret XYNET_ERROR_UNPACK_FORMAT else
    match m_protos m !! Z.to_nat proto_id with
    | None => pfault OutOfBounds
    | Some p =>
        cur_readed ← net_unpack p buf readed_len (buf_size - readed_len) ext;
        if cur_readed <? 0 then mret cur_readed else
        x ← get_proto p;
        if (cur_readed =? 0) && (blen (p_args x) >? 0) then mret XYNET_ERROR_UNPACK_FORMAT
        else mret (readed_len + cur_readed)
    end in
  if proto_id =? 0 then
    if 3 >? buf_size then mret 0 else
    b ← api (lift (read_cells buf 1 2));
    dispatch (le_combine b) 3
  else dispatch proto_id 1.

(** * Managers *)

Definition get_check_id (x : net_protocol) : Z :=
  calc_hashnr (foldl (fun buf a => buf ++ get_type a ++ get_hashstr a) (p_pack_func_name x) (p_args x)).

Definition net_protocol_new (id mgr : Z) : proto Z :=
  p ← new_address;
  _ ← set_proto p (mkProto [] [] LUA_NOREF id false mgr 0 0);
  mret p.

Definition proto_manager_new (func : Z) : proto Z :=
  mgr ← new_address;
  w ← get_world;
  _ ← set_args (arg_init (w_args w));
  p ← net_protocol_new 0 mgr;
  _ ← set_manager mgr (mkManager None None [p] func 0);
  mret mgr.

(** The destructor; the formats are shared with the other managers. *)
Definition proto_manager_delete (mgr : Z) : proto unit :=
  m ← get_manager mgr;
  _ ← foldr (fun p rest => _ ← delete_proto p; rest) (mret ()) (m_protos m);
  w ← get_world;
  _ ← set_args (arg_destruct (w_args w));
  w ← get_world;
  set_world (mkWorld (w_args w) (w_protos w) (delete mgr (w_managers w)) (w_map w) (w_total_pack w)
    (w_total_unpack w) (w_next w) (w_sent w) (w_calls w)).

Definition add_arg_type : proto Z :=
  w ← get_world;
  args ← api (add_table_args (w_args w) run_file);
  _ ← set_args args;
  mret 0.

Definition add_protocol (mgr : Z) : proto Z :=
  m ← get_manager mgr;
  _ ← api (lift (require (negb (blen (m_protos m) =? 0)) AssertFailed));
  let proto_id := uwrap32 (blen (m_protos m)) in
  p ← net_protocol_new (wrap32 proto_id) mgr;
  rel ← load p;
  if rel =? PROTO_OK then
    m ← get_manager mgr;
    _ ← set_manager mgr (mkManager (m_for_maker m) (m_for_caller m) (m_protos m ++ [p])
          (m_data_sender m) (m_static_protocol_count m));
    _ ← api (lua_pushnumber proto_id);
    mret 1
  else
    _ ← api (lua_pushlstring (cstr "load protocol failed!"));
    _ ← api (lua_pushboolean false);
    mret 2.

Definition add_static_protocol (mgr : Z) : proto Z :=
  ret ← add_protocol mgr;
  _ ← (if ret =? 1 then
         m ← get_manager mgr;
         set_manager mgr (mkManager (m_for_maker m) (m_for_caller m) (m_protos m)
           (m_data_sender m) (uwrap32 (m_static_protocol_count m + 1)))
       else mret ());
  mret ret.

Definition update_protocol (mgr : Z) : proto Z :=
  top ← api lua_gettop;
  ok ← (if 2 <=? top then
          isstr ← api (lua_isstring (-1));
          if isstr : bool then api (lua_isnumber (-2)) else mret false
        else mret false);
  if ok : bool then
    d ← api (lua_tonumber (-2));
    proto_id ← api (lift (number2vfd d));
    m ← get_manager mgr;
    if (0 <=? proto_id) && (proto_id <? blen (m_protos m)) then
      p ← net_protocol_new (wrap32 proto_id) mgr;
      rel ← load p;
      if rel =? PROTO_OK then
        m ← get_manager mgr;
        match m_protos m !! Z.to_nat proto_id with
        | None => pfault OutOfBounds
        | Some old =>
            _ ← delete_proto old;
            _ ← set_manager mgr (mkManager (m_for_maker m) (m_for_caller m)
                  (<[Z.to_nat proto_id := p]> (m_protos m)) (m_data_sender m) (m_static_protocol_count m));
            _ ← api (lua_pushnumber proto_id);
            mret 1
        end
      else
        _ ← delete_proto p;
        _ ← api (lua_pushlstring (cstr "update protocol failed!"));
        _ ← api (lua_pushboolean false);
        mret 2
    else mret 0
  else mret 0.

(** The tables [stat] returns to the script: the counters by protocol id. *)
Fixpoint stat_loop (protos : list Z) (count : net_protocol -> Z) : proto unit :=
  match protos with
  | [] => mret ()
  | p :: protos =>
      x ← get_proto p;
      _ ← api (lua_pushinteger (p_id x));
      _ ← api (lua_pushinteger (count x));
      _ ← api (lua_settable (-3));
      stat_loop protos count
  end.

Definition stat (mgr : Z) : proto Z :=
  m ← get_manager mgr;
  w ← get_world;
  _ ← api lua_newtable;
  _ ← api (lua_pushlstring (cstr "total_pack_count"));
  _ ← api (lua_pushinteger (w_total_pack w));
  _ ← api (lua_settable (-3));
  _ ← stat_loop (m_protos m) p_pack_count;
  _ ← api lua_newtable;
  _ ← api (lua_pushlstring (cstr "total_unpack_count"));
  _ ← api (lua_pushinteger (w_total_unpack w));
  _ ← api (lua_settable (-3));
  _ ← stat_loop (m_protos m) p_unpack_count;
  mret 2.

(** The check number over all protocols, from the array of their numbers. *)
Fixpoint check_ids (protos : list Z) : proto (list byte) :=
  match protos with
  | [] => mret []
  | p :: protos =>
      x ← get_proto p;
      rest ← check_ids protos;
      mret (int_bytes (get_check_id x) ++ rest)
  end.

Definition get_ptos_checkid (mgr : Z) : proto Z :=
  m ← get_manager mgr;
  buf ← check_ids (m_protos m);
  _ ← api (lua_pushnumber (calc_hashnr buf));
  mret 1.

Definition SetForMaker (mgr : Z) (ForMaker : list byte) : proto unit :=
  m ← get_manager mgr;
  set_manager mgr (mkManager (Some ForMaker) (m_for_caller m) (m_protos m)
    (m_data_sender m) (m_static_protocol_count m)).

Definition SetForCaller (mgr : Z) (ForCaller : list byte) : proto unit :=
  m ← get_manager mgr;
  set_manager mgr (mkManager (m_for_maker m) (Some ForCaller) (m_protos m)
    (m_data_sender m) (m_static_protocol_count m)).

(** [None] is the null pointer. *)
Definition CreateNewProtoManager (ProtoName ForMaker ForCaller : list byte) (func : Z) : proto (option Z) :=
  w ← get_world;
  match w_map w !! ProtoName with
  | Some _ => mret None
  | None =>
      pobj ← proto_manager_new func;
      _ ← SetForMaker pobj ForMaker;
      _ ← SetForCaller pobj ForCaller;
      w ← get_world;
      _ ← set_map (<[ProtoName := pobj]> (w_map w));
      TopIndex ← api lua_gettop;
      _ ← api (lua_getglobal ForMaker);
      _ ← api (lua_getglobal ForCaller);
      nil1 ← api (lua_isnil (-1));
      nil2 ← api (lua_isnil (-2));
      if negb (nil1 && nil2) then mret None else
      _ ← api lua_newtable;
      _ ← api (lua_setglobal ForMaker);
      _ ← api lua_newtable;
      _ ← api (lua_setglobal ForCaller);
      _ ← api (lua_settop TopIndex);
      mret (Some pobj)
  end.

Definition GetProtoManager (ProtoName : list byte) : proto (option Z) :=
  w ← get_world; mret (w_map w !! ProtoName).

End Protocols.
