(* ===== verification/ProtocolCorrect.v ===== *)
(** Correctness of remote calls: marshalling and dispatch implement the wire
    format, a call made in one program reaches the handler in the other, and
    received bytes never fault. *)
From S2P Require Import Prelude LuaApi LuaRefs DataFormat WireFormat FormatCorrect TableFormat Protocol.

(** * Rules *)

Lemma pbind_ok {A B} (m : proto A) (k : A -> proto B) w L a w' L' :
  m w L = POk a w' L' -> (m ≫= k) w L = k a w' L'.
Proof. intros H. unfold mbind, proto_bind. by rewrite H. Qed.

Lemma pbind_err {A B} (m : proto A) (k : A -> proto B) w L e w' L' :
  m w L = PErr e w' L' -> (m ≫= k) w L = PErr e w' L'.
Proof. intros H. unfold mbind, proto_bind. by rewrite H. Qed.

Lemma pbind_ub {A B} (m : proto A) (k : A -> proto B) w L f :
  m w L = PUB f -> (m ≫= k) w L = PUB f.
Proof. intros H. unfold mbind, proto_bind. by rewrite H. Qed.

Lemma api_ok {A} (m : lua A) w L a L' : m L = LOk a L' -> api m w L = POk a w L'.
Proof. intros H. unfold api. by rewrite H. Qed.

Lemma get_proto_ok p x w L : w_protos w !! p = Some x -> get_proto p w L = POk x w L.
Proof. intros H. unfold get_proto. by rewrite H. Qed.

Lemma get_manager_ok m x w L : w_managers w !! m = Some x -> get_manager m w L = POk x w L.
Proof. intros H. unfold get_manager. by rewrite H. Qed.

(** Executes the first call of a sequence with the given rule. *)
Tactic Notation "pstep" tactic3(t) := erewrite pbind_ok by t; cbv beta iota.
Tactic Notation "papi" tactic3(t) := erewrite pbind_ok by (apply api_ok; t); cbv beta iota.

(** * Argument lists *)

(** The arguments of a call as fields without keys. *)
Definition anon (fs : list fmt) : list field := (fun f => (LNil, false, f)) <$> fs.

Lemma encode_anon_cons f fs d ds :
  encode_fields encode (anon (f :: fs)) (d :: ds) =
  (b ← encode f d; if bool_decide (b = []) then None else bs ← encode_fields encode (anon fs) ds; Some (b ++ bs)).
Proof. reflexivity. Qed.

Lemma decode_anon_cons f fs bs :
  decode_fields decode (anon (f :: fs)) bs =
  ('(d, bs') ← decode f bs;
   if consumed bs bs' then '(ds, bs'') ← decode_fields decode (anon fs) bs'; Some (d :: ds, bs'') else None).
Proof. reflexivity. Qed.

Section Arguments.
Context {Env : LuaEnv}.

(** The values from stack position [pos] on hold the data [ds]. *)
Definition args_hold (h : gmap positive ltable) (s : list lua_value) (pos : Z) (fs : list fmt) (ds : list data) : Prop :=
  length fs = length ds /\
  forall j f d, fs !! j = Some f -> ds !! j = Some d ->
    exists i v, stack_index s (pos + Z.of_nat j) i v /\ has h f v d.

(** Positions below [pos] hold the same values in both stacks. *)
Definition same_below (pos : Z) (s s' : list lua_value) : Prop :=
  blen s' = blen s /\ forall idx i v, 0 < idx < pos -> stack_index s idx i v -> stack_index s' idx i v.

Lemma stack_index_insert s idx i v idx' i' v' w : 0 < idx -> 0 < idx' -> idx ≠ idx' ->
  stack_index s idx i v -> stack_index s idx' i' v' -> stack_index (<[i := w]> s) idx' i' v'.
Proof.
  intros H1 H2 Hne [Hv Hi] [Hv' Hi']. split.
  - rewrite list_lookup_insert_ne; [done|]. destruct Hi as [(?&?&?)|(?&?&?)], Hi' as [(?&?&?)|(?&?&?)]; lia.
  - unfold blen in *. by rewrite length_insert.
Qed.

Definition marshal_post (run : lres (list byte * Z)) (obs : option (list byte)) (s : list lua_value)
    (h : gmap positive ltable) (r g : positive) (pos : Z) (buf : list byte) (buf_len used : Z) : Prop :=
  exists s', same_below pos s s' /\
  match obs with
  | Some bs =>
      if used + blen bs <=? buf_len then run = LOk (put buf used bs, used + blen bs) (mkLua s' h r g)
      else exists buf', run = LOk (buf', -1) (mkLua s' h r g)
  | None => exists buf', run = LOk (buf', -1) (mkLua s' h r g)
  end.

Lemma marshal_args_spec rt h r g : h !! r = Some rt -> forall args fs, Forall2 (denotes rt) args fs ->
  forall ds s i buf buf_len used, args_hold h s (i + 2) fs ds -> 0 <= i ->
  0 <= used <= buf_len -> buf_len <= INT_MAX -> buf_len <= blen buf ->
  marshal_post (marshal_args args i buf buf_len used (mkLua s h r g)) (encode_fields encode (anon fs) ds)
    s h r g (i + 2) buf buf_len used.
Proof.
  intros Hr args fs Hden. induction Hden as [|a f args fs Ha Hden IH];
    intros [|d ds] s i buf buf_len used [Hlen Hargs] Hi Hu Hm Hb; try done.
  { exists s. split; [done|]. cbn. rewrite blen_nil, Z.add_0_r, put_nil. by zdecide. }
  destruct (Hargs 0%nat f d eq_refl eq_refl) as (j & v & Hj & Hv). rewrite Z.add_0_r in Hj.
  destruct (pack_implements rt a f Ha h r v d Hr Hv s g (i + 2) j buf used (buf_len - used) Hj)
    as (buf' & n & v' & Hp & Hpost); [lia..|].
  unfold marshal_post. cbn [marshal_args]. erewrite lua_bind_ok by exact Hp. cbv beta iota.
  assert (same_below (i + 2) s (<[j := v']> s)) as Hsame.
  { split; [unfold blen; by rewrite length_insert|]. intros idx k u Hidx Hk.
    eapply stack_index_insert; [..|exact Hj|exact Hk]; lia. }
  rewrite encode_anon_cons.
  unfold pack_post in Hpost.
  destruct (encode f d) as [bs|]; cbn [mbind option_bind];
    [|destruct Hpost as [-> _]; exists (<[j := v']> s); split; [done|]; by eexists].
  pose proof (blen_nonneg bs). destruct (Z.leb_spec (blen bs) (buf_len - used)).
  - destruct Hpost as [-> ->]. destruct bs as [|b0 bs].
    { rewrite bool_decide_true by done. exists (<[j := v']> s). split; [done|]. by eexists. }
    rewrite bool_decide_false by done.
    rewrite (proj2 (Z.eqb_neq _ _)) by (rewrite blen_cons; pose proof (blen_nonneg bs); lia).
    destruct (IH ds (<[j := v']> s) (i + 1) (put buf used (b0 :: bs)) buf_len (used + blen (b0 :: bs)))
      as (s' & Hs' & Hrun); [|lia..| |].
    { split; [by simplify_eq/=|]. intros k f' d' Hf' Hd'.
      destruct (Hargs (S k) f' d' Hf' Hd') as (i' & u & Hi' & Hu'). exists i', u. split; [|done].
      replace (i + 1 + 2 + Z.of_nat k) with (i + 2 + Z.of_nat (S k)) by lia.
      eapply stack_index_insert; [..|exact Hj|exact Hi']; lia. }
    { lens. }
    exists s'. split.
    { destruct Hsame as [H1 H2], Hs' as [H3 H4]. split; [congruence|]. intros idx k u Hidx Hk.
      apply H4; [lia|]. apply H2; [lia|done]. }
    destruct (encode_fields encode (anon fs) ds) as [bs2|]; cbn [mbind option_bind]; [|exact Hrun].
    rewrite blen_app. replace (used + (blen (b0 :: bs) + blen bs2)) with (used + blen (b0 :: bs) + blen bs2) by lia.
    destruct (Z.leb_spec (used + blen (b0 :: bs) + blen bs2) buf_len); [|exact Hrun].
    rewrite Hrun. pose proof (blen_nonneg bs2). by rewrite put_put by lens.
  - destruct Hpost as [-> _]. exists (<[j := v']> s). split; [done|].
    case_bool_decide as Hnil; [subst; rewrite blen_nil in *; lia|].
    destruct (encode_fields encode (anon fs) ds) as [bs2|]; cbn [mbind option_bind]; [|by eexists].
    rewrite blen_app. pose proof (blen_nonneg bs2). zdecide. by eexists.
Qed.

Lemma unpack_args_spec rt r g : forall args fs, Forall2 (denotes rt) args fs ->
  forall s h buf off buf_len readed, h !! r = Some rt -> 0 <= off -> 0 <= readed <= buf_len ->
  off + buf_len <= blen buf ->
  let run := unpack_args args buf off buf_len readed (mkLua s h r g) in
  match decode_fields decode (anon fs) (window buf (off + readed) (buf_len - readed)) with
  | Some (ds, bs') => exists h' vs, run = LOk (Some (buf_len - blen bs')) (mkLua (rev vs ++ s) h' r g) /\
      h ⊆ h' /\ built_fields (built (h' ∖ h)) (anon fs) vs ds
  | None => exists x h', run = LOk None (mkLua (x ++ s) h' r g) /\ h ⊆ h'
  end.
Proof.
  intros args fs Hden. induction Hden as [|a f args fs Ha Hden IH];
    intros s h buf off buf_len readed Hr Ho Hu Hb; cbn zeta.
  { cbn [decode_fields anon fmap list_fmap unpack_args]. rewrite blen_window by lia.
    exists h, []. split; [|done]. by replace (buf_len - (buf_len - readed)) with readed by lia. }
  rewrite decode_anon_cons. cbn [unpack_args].
  pose proof (unpack_implements rt a f Ha s h r g buf (off + readed) (buf_len - readed) Hr
    ltac:(lia) ltac:(lia) ltac:(lia)) as Hun. unfold unpack_post in Hun.
  set (w := window buf (off + readed) (buf_len - readed)) in *.
  assert (blen w = buf_len - readed) as Hw by (apply blen_window; lia).
  destruct (decode f w) as [[d bs']|] eqn:Hd; cbn [mbind option_bind].
  - destruct Hun as (h1 & v & Hrun & Hh1 & Hv).
    destruct (window_suffix buf (off + readed) (buf_len - readed) bs') as [Hbs Hbl];
      [lia..|by eapply decode_suffix|].
    unfold consumed. replace (blen w =? blen bs') with (blen w - blen bs' =? 0)
      by (apply Bool.eq_iff_eq_true; rewrite !Z.eqb_eq; lia).
    assert (forall k : Z -> lua (option Z), (unpack a buf (off + readed) (buf_len - readed) ≫= k) (mkLua s h r g)
      = k (blen w - blen bs') (mkLua (v :: s) h1 r g)) as Hstep by (intros k; by apply lua_bind_ok).
    rewrite Hstep. destruct (Z.eqb_spec (blen w - blen bs') 0); cbn [negb].
    { by exists [v], h1. }
    specialize (IH (v :: s) h1 buf off buf_len (buf_len - blen bs') ltac:(by eapply lookup_weaken) Ho
      ltac:(lia) Hb). cbn zeta in IH.
    replace (off + (buf_len - blen bs')) with (off + readed + (buf_len - readed - blen bs')) in IH by lia.
    replace (buf_len - (buf_len - blen bs')) with (blen bs') in IH by lia. rewrite <- Hbs in IH.
    replace (readed + (blen w - blen bs')) with (buf_len - blen bs') by lia.
    destruct (decode_fields decode (anon fs) bs') as [[ds bs'']|]; cbn [mbind option_bind].
    + destruct IH as (h2 & vs & Hrun2 & Hh2 & Hvs). exists h2, (v :: vs). split.
      { rewrite Hrun2. cbn [rev]. by rewrite <- app_assoc. }
      split; [by etrans|]. split.
      * eapply built_mono; [|exact Hv]. apply difference_mono; [|done]. intros. by eapply lookup_weaken.
      * eapply built_fields_mono; [|exact Hvs]. apply difference_mono; [done|]. intros. by eapply lookup_weaken_None.
    + destruct IH as (x & h2 & Hrun2 & Hh2). exists (x ++ [v]), h2. split; [|by etrans].
      rewrite Hrun2. by rewrite <- app_assoc.
  - destruct Hun as (x & h1 & Hrun & Hh1). erewrite lua_bind_ok by exact Hrun. by exists x, h1.
Qed.

(** The protocol number on the wire. *)
Definition id_bytes (id : Z) : list byte :=
  if id <? 256 then le_split 1 id else Byte.x00 :: le_split 2 id.

Lemma marshal_spec rt h r g x fs ds s buf buf_len : h !! r = Some rt -> Forall2 (denotes rt) (p_args x) fs ->
  args_hold h s 2 fs ds -> 0 < p_id x -> 3 <= buf_len -> buf_len <= INT_MAX -> buf_len <= blen buf ->
  exists s', same_below 2 s s' /\
  match encode_fields encode (anon fs) ds with
  | Some bs =>
      let m := id_bytes (p_id x) ++ bs in
      if blen m <=? buf_len then marshal x buf buf_len (mkLua s h r g) = LOk (put buf 0 m, blen m) (mkLua s' h r g)
      else exists buf', marshal x buf buf_len (mkLua s h r g) = LOk (buf', -1) (mkLua s' h r g)
  | None => exists buf', marshal x buf buf_len (mkLua s h r g) = LOk (buf', -1) (mkLua s' h r g)
  end.
Proof.
  intros Hr Hden Hargs Hid Hl Hm Hb. unfold marshal.
  assert (exists m0, m0 = id_bytes (p_id x) /\ blen m0 <= 3 /\ 0 <= blen m0) as (m0 & -> & Hm0 & Hm1).
  { eexists. split; [reflexivity|]. unfold id_bytes. destruct (p_id x <? 256); lens. }
  set (m0 := id_bytes (p_id x)) in *.
  assert (marshal x buf buf_len (mkLua s h r g)
    = marshal_args (p_args x) 0 (put buf 0 m0) buf_len (blen m0) (mkLua s h r g)) as Hrun.
  { unfold marshal, m0, id_bytes. rewrite (proj2 (Z.eqb_neq _ _)) by lia. erewrite lua_bind_ok by reflexivity.
    destruct (p_id x <? 256).
    - by erewrite lua_bind_ok by (apply lift_ok, write_put; lens).
    - erewrite lua_bind_ok by (apply lift_ok, write_put; lens).
      erewrite lua_bind_ok by (apply lift_ok, write_put; lens).
      change (Byte.x00 :: le_split 2 (p_id x)) with ([Byte.x00] ++ le_split 2 (p_id x)) at 1.
      by rewrite <- (put_put buf 0 [Byte.x00]) by lens. }
  unfold marshal in Hrun. rewrite Hrun.
  destruct (marshal_args_spec rt h r g Hr (p_args x) fs Hden ds s 0 (put buf 0 m0) buf_len (blen m0))
    as (s' & Hs' & Hpost); [done|lia..|lens|].
  exists s'. split; [done|]. destruct (encode_fields encode (anon fs) ds) as [bs|]; [|done].
  cbn zeta. rewrite blen_app. destruct (Z.leb_spec (blen m0 + blen bs) buf_len); [|done].
  rewrite Hpost. pose proof (blen_nonneg bs). change (blen m0) with (0 + blen m0) at 1. by rewrite put_put by lens.
Qed.

End Arguments.

(** * Dispatch *)

Section Dispatch.
Context {Env : LuaEnv} (call : lua_value -> list lua_value -> lua_State -> call_outcome).

(** The world after the counters of protocol [p] were incremented, and after
    a handler was called. *)
Definition counted (w : world) (p : Z) (x : net_protocol) : world :=
  mkWorld (w_args w)
    (<[p := mkProto (p_args x) (p_pack_func_name x) (p_unpack_ref x) (p_id x) (p_is_maker x)
              (p_manager x) (p_pack_count x) ((p_unpack_count x + 1) mod 2 ^ 64)]> (w_protos w))
    (w_managers w) (w_map w) (w_total_pack w) ((w_total_unpack w + 1) mod 2 ^ 64) (w_next w) (w_sent w) (w_calls w).
Definition logged (w : world) (f : lua_value) (vs : list lua_value) : world :=
  mkWorld (w_args w) (w_protos w) (w_managers w) (w_map w) (w_total_pack w) (w_total_unpack w)
    (w_next w) (w_sent w) (w_calls w ++ [(f, vs)]).

(** The protocol [x] is bound to the Lua function [fn] and its arguments have
    the formats [fs]. *)
Record bound (rt : ltable) (x : net_protocol) (fn : lua_value) (fs : list fmt) : Prop := {
  bd_ref : p_unpack_ref x ≠ LUA_NOREF;
  bd_handler : luaH_getnum rt (p_unpack_ref x) = fn;
  bd_function : ttype fn = LUA_TFUNCTION;
  bd_args : Forall2 (denotes rt) (p_args x) fs
}.

Lemma pcall_spec vs fn s h r g w n nres : n = blen vs ->
  pcall call n nres w (mkLua (rev vs ++ fn :: s) h r g) =
  match call fn vs (mkLua (rev vs ++ fn :: s) h r g) with
  | CallReturns rets h' => POk 0 (logged w fn vs) (mkLua (rev (resize (Z.to_nat nres) LNil rets) ++ s) h' r g)
  | CallFails msg h' => POk 2 (logged w fn vs) (mkLua (msg :: s) h' r g)
  end.
Proof.
  intros ->. unfold pcall. pstep reflexivity. cbn [stack].
  assert (blen vs = blen (rev vs)) as -> by (unfold blen; by rewrite length_rev).
  rewrite take_blen_app, drop_blen_app, rev_involutive.
  pstep reflexivity. destruct (call fn vs _); pstep reflexivity; pstep reflexivity; done.
Qed.

(** What [net_protocol::unpack] does with the bytes of its window. *)
Definition dispatch_post (run : pres Z) (w : world) (s : list lua_value) (h : gmap positive ltable) (r g : positive)
    (p : Z) (x : net_protocol) (fn : lua_value) (fs : list fmt) (ext : Z) (bs : list byte) : Prop :=
  match decode_fields decode (anon fs) bs with
  | None => exists h1, run = POk XYNET_ERROR_UNPACK_FORMAT (counted w p x) (mkLua s h1 r g) /\ h ⊆ h1
  | Some (ds, bs') => exists h1 vs, h ⊆ h1 /\ built_fields (built (h1 ∖ h)) (anon fs) vs ds /\
      match call fn (num ext :: vs) (mkLua (rev (num ext :: vs) ++ fn :: s) h1 r g) with
      | CallReturns _ h2 =>
          run = POk (blen bs - blen bs') (logged (counted w p x) fn (num ext :: vs)) (mkLua s h2 r g)
      | CallFails msg h2 =>
          match msg with
          | LString _ | LNumber _ =>
              run = POk XYNET_ERROR_UNPACK_SCRIPT (logged (counted w p x) fn (num ext :: vs)) (mkLua s h2 r g)
          | _ => exists L', run = PErr LNil (logged (counted w p x) fn (num ext :: vs)) L'
          end
      end
  end.

Lemma built_fields_len h fs vs ds : built_fields (built h) (anon fs) vs ds -> length vs = length fs.
Proof. intros H. apply built_fields_length in H. unfold anon in H. by rewrite length_fmap in H. Qed.

Lemma net_unpack_spec rt w s h r g p x fn fs buf off buf_len ext :
  w_protos w !! p = Some x -> h !! r = Some rt -> bound rt x fn fs ->
  0 <= off -> 0 <= buf_len -> off + buf_len <= blen buf ->
  dispatch_post (net_unpack call p buf off buf_len ext w (mkLua s h r g)) w s h r g p x fn fs ext (window buf off buf_len).
Proof.
  intros Hp Hrt [Href Hfn Hty Hargs] Ho Hl Hb. unfold dispatch_post.
  assert (forall v, (net_unpack call p buf off buf_len ext w (mkLua s h r g)) = v <->
    (readed ← api (unpack_args (p_args x) buf off buf_len 0);
     match readed with
     | None => _ ← api (lua_settop (blen s)); mret XYNET_ERROR_UNPACK_FORMAT
     | Some readed_len =>
         status ← pcall call (blen (p_args x) + 1) 0;
         if negb (status =? 0) then
           _ ← api (luaL_checklstring (-1));
           _ ← api (lua_settop (blen s));
           mret XYNET_ERROR_UNPACK_SCRIPT
         else _ ← api (lua_settop (blen s)); mret readed_len
     end) (counted w p x) (mkLua (num ext :: fn :: s) h r g) = v) as Heq.
  { intros v. unfold net_unpack. papi reflexivity. pstep (by apply get_proto_ok).
    rewrite (proj2 (Z.eqb_neq _ _)) by done. pstep reflexivity. pstep reflexivity.
    papi (by apply rule_getref). rewrite Hfn.
    assert (lua_isfunction (-1) (mkLua (fn :: s) h r g) = LOk true (mkLua (fn :: s) h r g)) as Hisf.
    { unfold lua_isfunction. erewrite lua_bind_ok by reflexivity. by rewrite Hty. }
    papi (exact Hisf). papi reflexivity. papi reflexivity. done. }
  pose proof (unpack_args_spec rt r g (p_args x) fs Hargs (num ext :: fn :: s) h buf off buf_len 0 Hrt Ho
    ltac:(lia) Hb) as Hun. cbn zeta in Hun. rewrite Z.add_0_r, Z.sub_0_r in Hun.
  destruct (decode_fields decode (anon fs) (window buf off buf_len)) as [[ds bs']|].
  - destruct Hun as (h1 & vs & Hrun & Hh1 & Hvs). exists h1, vs. split; [done|]. split; [done|].
    assert (blen (p_args x) + 1 = blen (num ext :: vs)) as Hlen.
    { rewrite blen_cons. unfold blen. rewrite (built_fields_len _ _ _ _ Hvs), (Forall2_length _ _ _ Hargs). lia. }
    pose proof (pcall_spec (num ext :: vs) fn s h1 r g (counted w p x) _ 0 Hlen) as Hcall.
    cbn [rev] in *. rewrite <- app_assoc in *. cbn [app] in *.
    rewrite blen_window by lia.
    destruct (call fn (num ext :: vs) _) as [rets h2|msg h2].
    + change (Z.to_nat 0) with 0%nat in Hcall. rewrite resize_0 in Hcall. cbn [rev app] in Hcall.
      apply Heq. papi (exact Hrun). pstep (exact Hcall). cbn [negb Z.eqb].
      papi (apply rule_settop_same). done.
    + destruct msg as [| | |nn|str| | |];
        try (eexists; apply Heq; papi (exact Hrun); pstep (exact Hcall); simpl (negb _); cbv iota;
             erewrite pbind_err; [reflexivity|reflexivity]).
      * apply Heq. papi (exact Hrun). pstep (exact Hcall). simpl (negb _). cbv iota.
        papi (eapply rule_checklstring; [apply stack_index_top|eauto]). cbn [insert list_insert].
        papi (apply rule_settop_1). done.
      * apply Heq. papi (exact Hrun). pstep (exact Hcall). simpl (negb _). cbv iota.
        papi (eapply rule_checklstring; [apply stack_index_top|eauto]). cbn [insert list_insert].
        papi (apply rule_settop_1). done.
  - destruct Hun as (y & h1 & Hrun & Hh1). exists h1. split; [|done]. apply Heq.
    papi (exact Hrun).
    replace (y ++ num ext :: fn :: s) with ((y ++ [num ext; fn]) ++ s) by (by rewrite <- app_assoc).
    papi (apply rule_settop). done.
Qed.

End Dispatch.

Lemma window_app a b : window (a ++ b) (blen a) (blen b) = b.
Proof. unfold window. rewrite drop_blen_app. unfold blen. by rewrite Nat2Z.id, firstn_all. Qed.

(** * The theorems *)

Section Claims.
Context {Env : LuaEnv} (call : lua_value -> list lua_value -> lua_State -> call_outcome).
Context (garbage : list byte).

(** The end of [unpack_data] once the protocol number is known. *)
Definition dispatch (m : proto_manager) (buf : list byte) (buf_size ext proto_id readed_len : Z) : proto Z :=
  if proto_id >=? blen (m_protos m) then mret XYNET_ERROR_UNPACK_FORMAT else
  match m_protos m !! Z.to_nat proto_id with
  | None => pfault OutOfBounds
  | Some p =>
      cur_readed ← net_unpack call p buf readed_len (buf_size - readed_len) ext;
      if cur_readed <? 0 then mret cur_readed else
      x ← get_proto p;
      if (cur_readed =? 0) && (blen (p_args x) >? 0) then mret XYNET_ERROR_UNPACK_FORMAT
      else mret (readed_len + cur_readed)
  end.

Lemma unpack_data_dispatch mgr m buf buf_size ext w L : w_managers w !! mgr = Some m ->
  0 < buf_size <= blen buf ->
  exists b, window buf 0 1 = [b] /\
  unpack_data call mgr buf buf_size ext w L =
  (if le_combine [b] =? 0 then
     if 3 >? buf_size then POk 0 w L
     else dispatch m buf buf_size ext (le_combine (window buf 1 2)) 3 w L
   else dispatch m buf buf_size ext (le_combine [b]) 1 w L).
Proof.
  intros Hm Hb. destruct (window_cons buf 0 buf_size ltac:(lia) ltac:(lia) ltac:(lia)) as (b & Hb1 & _).
  exists b. split; [done|]. unfold unpack_data. rewrite Z.gtb_ltb, (proj2 (Z.ltb_ge _ _)) by lia.
  papi (apply lift_ok, read_window; lia). pstep (by apply get_manager_ok). rewrite Hb1.
  destruct (le_combine [b] =? 0); [|done]. destruct (Z.gtb_spec 3 buf_size); [done|].
  by papi (apply lift_ok, read_window; lia).
Qed.

(** The protocols of a manager exist, and those that have a handler are bound
    to a function, with argument formats that mean something. *)
Definition manager_ok (w : world) (rt : ltable) (m : proto_manager) : Prop :=
  forall p, p ∈ m_protos m -> exists x, w_protos w !! p = Some x /\
    (p_unpack_ref x = LUA_NOREF \/ exists fn fs, bound rt x fn fs).

(** What a call of [unpack_data] may do. *)
Definition data_post (run : pres Z) (w : world) (s : list lua_value) (r g : positive) (buf_size : Z) : Prop :=
  match run with
  | POk n w' L' =>
      (n = XYNET_ERROR_UNPACK_FORMAT \/ n = XYNET_ERROR_UNPACK_SCRIPT \/ 0 <= n <= buf_size) /\
      (exists h', L' = mkLua s h' r g) /\ w_sent w' = w_sent w /\ w_managers w' = w_managers w
  | PErr _ w' _ => exists fn vs L1 msg h2, call fn vs L1 = CallFails msg h2 /\ w_calls w' = w_calls w ++ [(fn, vs)] /\
      (forall str, msg ≠ LString str) /\ (forall n, msg ≠ LNumber n)
  | PUB _ => False
  end.

Lemma dispatch_ok rt w s h r g m buf buf_size ext id readed : h !! r = Some rt -> manager_ok w rt m ->
  0 <= id -> 0 <= readed <= buf_size -> buf_size <= blen buf ->
  data_post (dispatch m buf buf_size ext id readed w (mkLua s h r g)) w s r g buf_size.
Proof.
  intros Hr Hok Hid Hre Hb. unfold dispatch. rewrite Z.geb_leb. destruct (Z.leb_spec (blen (m_protos m)) id).
  { split; [by left|]. split; [by eexists|done]. }
  destruct (lookup_lt_is_Some_2 (m_protos m) (Z.to_nat id)) as [p Hp]; [unfold blen in *; lia|].
  rewrite Hp. destruct (Hok p) as (x & Hx & Hcase); [by eapply list_elem_of_lookup_2|].
  destruct Hcase as [Hno | (fn & fs & Hbound)].
  { assert (net_unpack call p buf readed (buf_size - readed) ext w (mkLua s h r g)
      = POk XYNET_ERROR_UNPACK_FORMAT w (mkLua s h r g)) as Hn.
    { unfold net_unpack. papi reflexivity. pstep (by apply get_proto_ok). by rewrite Hno. }
    pstep (exact Hn). split; [by left|]. split; [by eexists|done]. }
  pose proof (net_unpack_spec call rt w s h r g p x fn fs buf readed (buf_size - readed) ext Hx Hr Hbound
    ltac:(lia) ltac:(lia) ltac:(lia)) as Hun. unfold dispatch_post in Hun.
  destruct (decode_fields decode (anon fs) _) as [[ds bs']|] eqn:Hd.
  - destruct Hun as (h1 & vs & _ & _ & Hun).
    destruct (call fn (num ext :: vs) _) as [rets h2|msg h2] eqn:Hc.
    + pstep (exact Hun). rewrite blen_window by lia.
      assert (blen bs' <= buf_size - readed) as Hle.
      { assert (decode (Ftable (anon fs)) (window buf readed (buf_size - readed)) = Some (DTable ds, bs')) as Hd'
          by (cbn [decode]; by rewrite Hd).
        apply decode_suffix, suffix_blen in Hd'. by rewrite blen_window in Hd' by lia. }
      rewrite (proj2 (Z.ltb_ge _ _)) by lia.
      pstep (apply get_proto_ok, lookup_insert_eq). cbn [p_args].
      pose proof (blen_nonneg bs').
      case_match; (split; [first [by left | right; right; lia]|]); (split; [by eexists|done]).
    + destruct msg as [| | |nn|str| | |].
      4,5: pstep (exact Hun); cbn; split; [by right; left|]; split; [by eexists|done].
      all: destruct Hun as [L' Hun]; erewrite pbind_err by exact Hun;
        eexists _, _, _, _, _; split; [exact Hc|done].
  - destruct Hun as (h1 & Hun & _). pstep (exact Hun). cbn. split; [by left|]. split; [by eexists|done].
Qed.

(** C3: received bytes never fault. Whatever bytes arrive at a manager whose
    protocols are bound to handlers, one of two things happens. [unpack_data]
    returns the number of bytes it consumed or an error code and has restored the
    Lua stack, sent nothing by itself and kept the managers; or a Lua error
    escapes from it, and then the one handler it called raised an error value that
    is neither a string nor a number ([handler_error_escapes] shows that this
    happens). Received numbers are negated as the compilers the code is built
    with negate them: for the bytes [09 00 00 00 80] that is -2147483648 again,
    which the C standard leaves undefined. *)
Theorem unpack_data_never_faults rt mgr m buf buf_size ext w s h r g :
  w_managers w !! mgr = Some m -> h !! r = Some rt -> manager_ok w rt m -> buf_size <= blen buf ->
  0 <= buf_size ->
  data_post (unpack_data call mgr buf buf_size ext w (mkLua s h r g)) w s r g buf_size.
Proof.
  intros Hm Hr Hok Hb H0. destruct (Z.eq_dec buf_size 0) as [->|Hne].
  { split; [right; right; lia|]. split; [by eexists|done]. }
  destruct (unpack_data_dispatch mgr m buf buf_size ext w (mkLua s h r g) Hm ltac:(lia)) as (b & _ & ->).
  pose proof (le_combine_bound [b]). destruct (le_combine [b] =? 0).
  - destruct (Z.gtb_spec 3 buf_size).
    { split; [right; right; lia|]. split; [by eexists|done]. }
    pose proof (le_combine_bound (window buf 1 2)). apply (dispatch_ok rt w s h); try done; lia.
  - apply (dispatch_ok rt w s h); try done; lia.
Qed.

(** Dispatch of the bytes a sender produced. *)
Lemma unpack_data_id mgr m id bs ext w L : w_managers w !! mgr = Some m -> 0 < id < 65536 ->
  unpack_data call mgr (id_bytes id ++ bs) (blen (id_bytes id ++ bs)) ext w L
  = dispatch m (id_bytes id ++ bs) (blen (id_bytes id ++ bs)) ext id (blen (id_bytes id)) w L.
Proof.
  intros Hm Hid. pose proof (blen_nonneg bs).
  assert (0 < blen (id_bytes id)) as Hpos by (unfold id_bytes; destruct (id <? 256); lens).
  destruct (unpack_data_dispatch mgr m (id_bytes id ++ bs) (blen (id_bytes id ++ bs)) ext w L Hm) as (b & Hb & ->).
  { rewrite blen_app. lia. }
  unfold id_bytes in *. destruct (Z.ltb_spec id 256).
  - change (window (le_split 1 id ++ bs) 0 1) with [byte.of_Z id] in Hb. injection Hb as <-.
    rewrite le_combine_byte, Z.mod_small by lia. by rewrite (proj2 (Z.eqb_neq _ _)) by lia.
  - change (window ((Byte.x00 :: le_split 2 id) ++ bs) 0 1) with [Byte.x00] in Hb. injection Hb as <-.
    change (le_combine [Byte.x00] =? 0) with true. cbv iota.
    assert (3 <= blen ((Byte.x00 :: le_split 2 id) ++ bs)) by lens.
    rewrite Z.gtb_ltb, (proj2 (Z.ltb_ge _ _)) by lia.
    change (window ((Byte.x00 :: le_split 2 id) ++ bs) 1 2) with (le_split 2 id).
    by rewrite le_combine_small by lia.
Qed.

(** The recipients that are written behind the payload: those that are not
    null, as many as the buffer has room for. *)
Definition recipients (tos : list Z) (used : Z) : list Z :=
  take (Z.to_nat ((MAXTONETD - used) / 4)) (filter (fun z => 0 < z) tos).

Lemma recipients_cons to tos used : 0 <= used <= MAXTONETD ->
  recipients (to :: tos) used =
  (if to >? 0 then if used + 4 <=? MAXTONETD then to :: recipients tos (used + 4) else recipients tos used
   else recipients tos used).
Proof.
  intros Hu. unfold recipients, MAXTONETD in *. rewrite filter_cons. rewrite Z.gtb_ltb.
  destruct (Z.ltb_spec 0 to); [rewrite decide_True by done|by rewrite decide_False by lia].
  destruct (Z.leb_spec (used + 4) 0x8000).
  - replace (Z.to_nat ((0x8000 - used) / 4)) with (S (Z.to_nat ((0x8000 - (used + 4)) / 4))); [done|].
    replace (0x8000 - used) with (0x8000 - (used + 4) + 1 * 4) by lia. rewrite Z.div_add by lia.
    pose proof (Z.div_pos (0x8000 - (used + 4)) 4). lia.
  - rewrite Z.div_small by lia. done.
Qed.

Definition vfd_bytes (tos : list Z) : list byte := concat (le_split 4 <$> tos).

Lemma blen_vfd_bytes tos : blen (vfd_bytes tos) = 4 * blen tos.
Proof.
  unfold vfd_bytes. induction tos as [|to tos IH]; [done|]. cbn [fmap list_fmap concat].
  rewrite blen_app, blen_cons, blen_le_split. change (list_fmap Z (list byte) (le_split 4) tos) with (le_split 4 <$> tos). lia.
Qed.

Lemma multicast_loop_spec s h r g i l t : stack_index s 1 i (LTable l) -> h !! l = Some t ->
  forall tos k buf used c q,
  (forall j to, tos !! j = Some to -> exists nb, luaH_getnum t (k + 1 + Z.of_nat j) = LNumber nb /\ number2vfd nb = Ok to) ->
  0 <= used <= MAXTONETD -> blen buf = MAXTONETD ->
  exists q', multicast_loop (length tos) k buf used c q (mkLua s h r g)
    = LOk (put buf used (vfd_bytes (recipients tos used)), c + blen (recipients tos used), q') (mkLua s h r g).
Proof.
  intros Hi Hl tos. induction tos as [|to tos IH]; intros k buf used c q Htos Hu Hb.
  { exists q. unfold recipients. rewrite filter_nil, take_nil. cbn [length multicast_loop]. unfold vfd_bytes. cbn [fmap list_fmap concat].
    rewrite put_nil, blen_nil, Z.add_0_r. done. }
  destruct (Htos 0%nat to eq_refl) as (nb & Hget & Hnb). rewrite Z.add_0_r in Hget.
  assert (forall j to', tos !! j = Some to' ->
    exists nb, luaH_getnum t (k + 1 + 1 + Z.of_nat j) = LNumber nb /\ number2vfd nb = Ok to') as Htos'.
  { intros j to' Hj. replace (k + 1 + 1 + Z.of_nat j) with (k + 1 + Z.of_nat (S j)) by lia. by apply Htos. }
  assert (lua_gettable 1 (mkLua (num (k + 1) :: s) h r g) = LOk () (mkLua (LNumber nb :: s) h r g)) as Hgt.
  { assert (stack_index (num (k + 1) :: s) 1 (S i) (LTable l)) as Hi' by (by apply (stack_index_push s [_])).
    unfold lua_gettable. erewrite lua_bind_ok by (eapply rule_istable_at; exact Hi'). cbn [ttype]. simpl (_ =? _). cbv iota.
    unfold lua_rawget. erewrite lua_bind_ok by (eapply rule_table_at; [exact Hi'|exact Hl]). cbv beta iota.
    erewrite lua_bind_ok by reflexivity. unfold luaH_getnum in Hget. by rewrite Hget. }
  assert (luaL_checknumber (-1) (mkLua (LNumber nb :: s) h r g) = LOk nb (mkLua (LNumber nb :: s) h r g)) as Hck
    by reflexivity.
  assert (lua_remove (-1) (mkLua (LNumber nb :: s) h r g) = LOk () (mkLua s h r g)) as Hrm by reflexivity.
  assert (multicast_loop (length (to :: tos)) k buf used c q (mkLua s h r g) =
    (if to >? VFD_NULL then
       if used + 4 <=? MAXTONETD then
         multicast_loop (length tos) (k + 1) (put buf used (le_split 4 to)) (used + 4) (c + 1) (q + 1) (mkLua s h r g)
       else multicast_loop (length tos) (k + 1) buf used c (q + 1) (mkLua s h r g)
     else multicast_loop (length tos) (k + 1) buf used c q (mkLua s h r g))) as ->.
  { cbn [length multicast_loop]. lstep.
    erewrite lua_bind_ok by exact Hgt. erewrite lua_bind_ok by exact Hck.
    erewrite lua_bind_ok by (apply lift_ok; exact Hnb). erewrite lua_bind_ok by exact Hrm.
    destruct (to >? VFD_NULL); [|done]. destruct (Z.leb_spec (used + 4) MAXTONETD); [|done].
    by erewrite lua_bind_ok by (apply lift_ok, write_put; lens). }
  rewrite recipients_cons by done. unfold VFD_NULL.
  destruct (to >? 0); [destruct (Z.leb_spec (used + 4) MAXTONETD)|].
  - destruct (IH (k + 1) (put buf used (le_split 4 to)) (used + 4) (c + 1) (q + 1) Htos' ltac:(lia) ltac:(lens)) as (q' & ->).
    exists q'. rewrite blen_cons, Z.add_assoc.
    assert (blen (vfd_bytes (recipients tos (used + 4))) <= MAXTONETD - (used + 4)) as Hroom.
    { rewrite blen_vfd_bytes. unfold recipients, blen at 1. rewrite length_take.
      pose proof (Z.mul_div_le (MAXTONETD - (used + 4)) 4). pose proof (Z.div_pos (MAXTONETD - (used + 4)) 4). lia. }
    change (used + 4) with (used + blen (le_split 4 to)) at 1. by rewrite put_put by lens.
  - destruct (IH (k + 1) buf used c (q + 1) Htos' Hu Hb) as (q' & ->). by exists q'.
  - destruct (IH (k + 1) buf used c q Htos' Hu Hb) as (q' & ->). by exists q'.
Qed.

(** The effect of a unicast call on the sender. *)
Lemma net_pack_unicast rt w s h r g self x m fs ds bs i n z :
  w_protos w !! self = Some x -> w_managers w !! p_manager x = Some m -> h !! r = Some rt ->
  Forall2 (denotes rt) (p_args x) fs -> args_hold h s 2 fs ds -> 0 < p_id x ->
  stack_index s 1 i (LNumber n) -> lua_number2int n = Ok z -> 0 < uwrap32 z ->
  blen garbage = MAXTONETD -> encode_fields encode (anon fs) ds = Some bs ->
  blen (id_bytes (p_id x) ++ bs) <= MAXTONETD ->
  exists w' s', net_pack garbage self w (mkLua s h r g) = POk 0 w' (mkLua s' h r g) /\ blen s' = blen s /\
    w_sent w' = w_sent w ++ [mkMsg (m_data_sender m) (id_bytes (p_id x) ++ bs) (uwrap32 z) false 0].
Proof.
  intros Hx Hm Hr Hden Hargs Hid Hi Hn Hz Hg He Hfit.
  set (x' := mkProto (p_args x) (p_pack_func_name x) (p_unpack_ref x) (p_id x) (p_is_maker x)
    (p_manager x) ((p_pack_count x + 1) mod 2 ^ 64) (p_unpack_count x)).
  destruct (marshal_spec rt h r g x' fs ds s garbage MAXTONETD Hr Hden Hargs Hid) as (s' & [Hlen _] & Hmar);
    [unfold MAXTONETD; lia|unfold MAXTONETD, INT_MAX; lia|lia|].
  rewrite He in Hmar. cbn zeta in Hmar. cbn [p_id x'] in Hmar. rewrite (proj2 (Z.leb_le _ _)) in Hmar by done.
  set (msg := id_bytes (p_id x) ++ bs) in *.
  assert (0 < blen msg) as Hpos.
  { unfold msg. rewrite blen_app. pose proof (blen_nonneg bs). unfold id_bytes. destruct (p_id x <? 256); lens. }
  unfold net_pack. papi reflexivity. pstep reflexivity. pstep (by apply get_proto_ok).
  pstep reflexivity. fold x'. papi (eapply rule_type; exact Hi). cbn [ttype].
  change (LUA_TNUMBER =? LUA_TNUMBER) with true. cbv iota.
  erewrite (pbind_ok (_ ← _; _)).
  2:{ papi (eapply rule_tonumber; exact Hi). papi (apply lift_ok; exact Hn). cbv zeta.
      unfold VFD_NULL. rewrite Z.geb_leb, (proj2 (Z.leb_gt _ _)) by lia.
      papi (exact Hmar). rewrite (proj2 (Z.gtb_lt _ _)) by lia.
      pstep (by apply get_manager_ok). reflexivity. }
  cbn [top_of]. replace (top_of (mkLua s h r g)) with (blen s') by (rewrite Hlen; done).
  papi (apply rule_settop_same). eexists _, s'. split; [reflexivity|]. split; [done|].
  cbn [w_sent set_proto]. do 3 f_equal. unfold put. rewrite take_0. cbn [app].
  by rewrite take_blen_app.
Qed.

(** C1: a remote call reaches its handler. When the script of one program
    calls [for_caller.name(vfd, ...)] with arguments that hold the data [ds]
    (whose arrays have at most 255 elements, [sendable]; [array_length_truncated]
    shows that longer ones do not arrive),
    exactly one message is handed to the network hook; when another program
    whose manager has a protocol with the same number and the same argument
    formats bound to a handler receives these bytes, [unpack_data] consumes all
    of them and calls that handler exactly once, with the connection number
    and values that hold the data sent (reduced to the width of [byte] and
    [word] arguments). *)
Theorem remote_call_delivered rt w s h r g self x m fs ds bs i n z mgr2 m2 p2 x2 fn rt2 w2 s2 h2 r2 g2 ext :
  w_protos w !! self = Some x -> w_managers w !! p_manager x = Some m -> h !! r = Some rt ->
  Forall2 (denotes rt) (p_args x) fs -> args_hold h s 2 fs ds ->
  stack_index s 1 i (LNumber n) -> lua_number2int n = Ok z -> 0 < uwrap32 z ->
  blen garbage = MAXTONETD -> 0 < p_id x < 65536 ->
  encode_fields encode (anon fs) ds = Some bs -> blen bs <= MAXTONETD - 3 ->
  sendable (Ftable (anon fs)) (DTable ds) = true ->
  w_managers w2 !! mgr2 = Some m2 -> m_protos m2 !! Z.to_nat (p_id x) = Some p2 ->
  w_protos w2 !! p2 = Some x2 -> h2 !! r2 = Some rt2 -> bound rt2 x2 fn fs ->
  (forall vs L, exists rets h', call fn vs L = CallReturns rets h') ->
  exists data w' s',
    net_pack garbage self w (mkLua s h r g) = POk 0 w' (mkLua s' h r g) /\
    w_sent w' = w_sent w ++ [mkMsg (m_data_sender m) data (uwrap32 z) false 0] /\
    exists w2' h2' h1 vs ds',
      unpack_data call mgr2 data (blen data) ext w2 (mkLua s2 h2 r2 g2)
        = POk (blen data) w2' (mkLua s2 h2' r2 g2) /\
      w_calls w2' = w_calls w2 ++ [(fn, num ext :: vs)] /\
      received (Ftable (anon fs)) (DTable ds) = DTable ds' /\
      h2 ⊆ h1 /\ built_fields (built (h1 ∖ h2)) (anon fs) vs ds'.
Proof.
  intros Hx Hm Hr Hden Hargs Hi Hn Hz Hg Hid He Hfit Hsend Hm2 Hp2 Hx2 Hr2 Hbound Hcall.
  assert (0 < blen (id_bytes (p_id x)) <= 3) as Hidl by (unfold id_bytes; destruct (p_id x <? 256); lens).
  destruct (net_pack_unicast rt w s h r g self x m fs ds bs i n z) as (w' & s' & Hrun & _ & Hsent); try done; try lia.
  { rewrite blen_app. lia. }
  exists (id_bytes (p_id x) ++ bs), w', s'. split; [done|]. split; [done|]. clear Hrun Hsent Hargs Hi.
  pose proof (blen_nonneg bs).
  pose proof (net_unpack_spec call rt2 w2 s2 h2 r2 g2 p2 x2 fn fs (id_bytes (p_id x) ++ bs) (blen (id_bytes (p_id x)))
    (blen bs) ext Hx2 Hr2 Hbound ltac:(lia) ltac:(lia) ltac:(rewrite blen_app; lia)) as Hun.
  rewrite window_app in Hun. unfold dispatch_post in Hun.
  pose proof (decode_encode (Ftable (anon fs)) (DTable ds) bs [] He Hsend) as Hdec.
  rewrite app_nil_r in Hdec. cbn [decode] in Hdec.
  destruct (decode_fields decode (anon fs) bs) as [[ds' bs']|] eqn:Hd; [|done].
  cbn [fmap option_fmap option_map prod_map fst snd] in Hdec. injection Hdec as Hds' Hbs'. unfold id in Hbs'. subst bs'.
  destruct Hun as (h1 & vs & Hh1 & Hvs & Hun).
  destruct (Hcall (num ext :: vs) (mkLua (rev (num ext :: vs) ++ fn :: s2) h1 r2 g2)) as (rets & h3 & Hc).
  rewrite Hc, blen_nil, Z.sub_0_r in Hun.
  rewrite (unpack_data_id mgr2 m2) by done. unfold dispatch.
  assert (p_id x < blen (m_protos m2)) as Hlt by (apply lookup_lt_Some in Hp2; unfold blen; lia).
  rewrite Z.geb_leb, (proj2 (Z.leb_gt _ _)) by lia. rewrite Hp2.
  eexists _, h3, h1, vs, ds'. split.
  { rewrite blen_app. replace (blen (id_bytes (p_id x)) + blen bs - blen (id_bytes (p_id x))) with (blen bs) by lia.
    pstep (exact Hun). rewrite (proj2 (Z.ltb_ge _ _)) by lia.
    pstep (apply get_proto_ok, lookup_insert_eq). cbn [p_args].
    destruct ((blen bs =? 0) && (blen (p_args x2) >? 0)) eqn:Hz0; [|reflexivity]. exfalso.
    apply andb_true_iff in Hz0 as [Hz0%Z.eqb_eq Hz1%Z.gtb_lt].
    apply blen_nil_inv in Hz0. subst bs. destruct fs as [|f fs].
    - destruct Hbound as [_ _ _ Hb2]. apply Forall2_nil_inv_r in Hb2. by rewrite Hb2 in Hz1.
    - destruct ds as [|d ds]; [done|]. rewrite encode_anon_cons in He.
      destruct (encode f d) as [b|]; [|done]. cbn [mbind option_bind] in He. case_bool_decide; [done|].
      destruct (encode_fields encode (anon fs) ds); [|done]. cbn [mbind option_bind] in He. by destruct b. }
  split; [done|]. split; [by rewrite Hds'|]. by split.
Qed.

(** C36: a multicast call hands one message to the network hook: the payload,
    the same as for a single recipient, followed by the recipients that are
    not null, in order, as many as fit in the 32768-byte buffer; the hook is
    told their number and the payload length. *)
Theorem multicast_sent_once rt w s h r g self x m fs ds bs i l t tos :
  w_protos w !! self = Some x -> w_managers w !! p_manager x = Some m -> h !! r = Some rt ->
  Forall2 (denotes rt) (p_args x) fs -> args_hold h s 2 fs ds -> 0 < p_id x ->
  stack_index s 1 i (LTable l) -> h !! l = Some t -> luaH_getn l t = blen tos -> 0 < blen tos ->
  (forall j to, tos !! j = Some to -> exists nb, luaH_getnum t (1 + Z.of_nat j) = LNumber nb /\ number2vfd nb = Ok to) ->
  blen garbage = MAXTONETD -> encode_fields encode (anon fs) ds = Some bs ->
  blen (id_bytes (p_id x) ++ bs) <= MAXTONETD ->
  let payload := id_bytes (p_id x) ++ bs in
  let rs := recipients tos (blen payload) in
  exists w' s', net_pack garbage self w (mkLua s h r g) = POk 0 w' (mkLua s' h r g) /\ blen s' = blen s /\
    w_sent w' = w_sent w ++
      (if blen rs >? 0
       then [mkMsg (m_data_sender m) (payload ++ vfd_bytes rs) (blen rs) true (blen payload)] else []).
Proof.
  intros Hx Hm Hr Hden Hargs Hid Hi Hl Hn Hnpos Htos Hg He Hfit payload rs.
  set (x' := mkProto (p_args x) (p_pack_func_name x) (p_unpack_ref x) (p_id x) (p_is_maker x)
    (p_manager x) ((p_pack_count x + 1) mod 2 ^ 64) (p_unpack_count x)).
  destruct (marshal_spec rt h r g x' fs ds s garbage MAXTONETD Hr Hden Hargs Hid) as (s' & [Hlen Hsame] & Hmar);
    [unfold MAXTONETD; lia|unfold MAXTONETD, INT_MAX; lia|lia|].
  rewrite He in Hmar. cbn zeta in Hmar. cbn [p_id x'] in Hmar. fold payload in Hmar, Hfit.
  rewrite (proj2 (Z.leb_le _ _)) in Hmar by done.
  assert (0 < blen payload) as Hpos.
  { unfold payload. rewrite blen_app. pose proof (blen_nonneg bs). unfold id_bytes. destruct (p_id x <? 256); lens. }
  assert (stack_index s' 1 i (LTable l)) as Hi' by (apply Hsame; [lia|done]).
  destruct (multicast_loop_spec s' h r g i l t Hi' Hl tos 0 (put garbage 0 payload) (blen payload) 0 0)
    as (q & Hloop); [done|lia|lens|]. fold rs in Hloop.
  assert (Z.to_nat (luaH_getn l t) = length tos) as Hcount by (rewrite Hn; unfold blen; lia).
  assert (exists w', (s0 ← api (lua_objlen 1);
       if s0 >? 0 then
         '(buf, used_len) ← api (marshal x' garbage MAXTONETD);
         if used_len >? 0 then
           '(buf, c, _) ← api (multicast_loop (Z.to_nat s0) 0 buf used_len 0 0);
           if c >? 0 then
             m ← get_manager (p_manager x');
             send (mkMsg (m_data_sender m) (take (Z.to_nat (used_len + c * 4)) buf) c true used_len)
           else mret ()
         else mret ()
       else mret ())
      (mkWorld (w_args w) (<[self := x']> (w_protos w)) (w_managers w) (w_map w) ((w_total_pack w + 1) mod 2 ^ 64)
        (w_total_unpack w) (w_next w) (w_sent w) (w_calls w)) (mkLua s h r g) = POk () w' (mkLua s' h r g) /\
     w_sent w' = w_sent w ++ (if blen rs >? 0
       then [mkMsg (m_data_sender m) (payload ++ vfd_bytes rs) (blen rs) true (blen payload)] else []))
    as (w' & Hbody & Hsent).
  { papi (eapply rule_objlen; [exact Hi|exact Hl]). rewrite Hcount, Hn. rewrite (proj2 (Z.gtb_lt _ _)) by lia.
    papi (exact Hmar). rewrite (proj2 (Z.gtb_lt _ _)) by lia. papi (exact Hloop). rewrite Z.add_0_l.
    destruct (Z.gtb_spec (blen rs) 0); [|eexists; split; [reflexivity|]; cbn; by rewrite app_nil_r].
    pstep (by apply get_manager_ok). eexists. split; [reflexivity|]. cbn [w_sent]. do 3 f_equal.
    pose proof (blen_nonneg rs).
    assert (blen payload + blen (vfd_bytes rs) <= MAXTONETD) as Hroom.
    { rewrite blen_vfd_bytes. unfold rs, recipients, blen at 2. rewrite length_take.
      pose proof (Z.mul_div_le (MAXTONETD - blen payload) 4). pose proof (Z.div_pos (MAXTONETD - blen payload) 4). lia. }
    pose proof (blen_nonneg (vfd_bytes rs)).
    change (blen payload) with (0 + blen payload) at 2. rewrite put_put by lia.
    replace (blen payload + blen rs * 4) with (blen (payload ++ vfd_bytes rs)) by (rewrite blen_app, blen_vfd_bytes; lia).
    unfold put. rewrite take_0. cbn [app]. by rewrite take_blen_app. }
  exists w', s'. split; [|done]. unfold net_pack. papi reflexivity. pstep reflexivity. pstep (by apply get_proto_ok).
  pstep reflexivity. fold x'. papi (eapply rule_type; exact Hi). cbn [ttype].
  change (LUA_TTABLE =? LUA_TNUMBER) with false. change (LUA_TTABLE =? LUA_TTABLE) with true. cbv iota.
  pstep (exact Hbody). replace (top_of (mkLua s h r g)) with (blen s') by (rewrite Hlen; done).
  papi (apply rule_settop_same). done.
Qed.

(** An error value that is not a string escapes the dispatcher. When the
    handler of a received message raises such a value, the error is caught by
    [lua_pcall] but raised again while its text is read, so [unpack_data] does
    not return the script error code: a Lua error leaves it. *)
Theorem handler_error_escapes rt mgr m id p x fn fs ds bs w s h r g ext :
  w_managers w !! mgr = Some m -> 0 < id < 65536 -> m_protos m !! Z.to_nat id = Some p ->
  w_protos w !! p = Some x -> h !! r = Some rt -> bound rt x fn fs ->
  encode_fields encode (anon fs) ds = Some bs -> sendable (Ftable (anon fs)) (DTable ds) = true ->
  (forall vs L, exists l h', call fn vs L = CallFails (LTable l) h') ->
  exists e w' L', unpack_data call mgr (id_bytes id ++ bs) (blen (id_bytes id ++ bs)) ext w (mkLua s h r g)
    = PErr e w' L'.
Proof.
  intros Hm Hid Hp Hx Hr Hbound He Hsend Hcall.
  assert (0 < blen (id_bytes id) <= 3) as Hidl by (unfold id_bytes; destruct (id <? 256); lens).
  pose proof (blen_nonneg bs).
  pose proof (net_unpack_spec call rt w s h r g p x fn fs (id_bytes id ++ bs) (blen (id_bytes id))
    (blen bs) ext Hx Hr Hbound ltac:(lia) ltac:(lia) ltac:(rewrite blen_app; lia)) as Hun.
  rewrite window_app in Hun. unfold dispatch_post in Hun.
  pose proof (decode_encode (Ftable (anon fs)) (DTable ds) bs [] He Hsend) as Hdec.
  rewrite app_nil_r in Hdec. cbn [decode] in Hdec.
  destruct (decode_fields decode (anon fs) bs) as [[ds' bs']|] eqn:Hd; [|done].
  destruct Hun as (h1 & vs & _ & _ & Hun).
  destruct (Hcall (num ext :: vs) (mkLua (rev (num ext :: vs) ++ fn :: s) h1 r g)) as (l & h2 & Hc).
  rewrite Hc in Hun. destruct Hun as [L' Hun].
  rewrite (unpack_data_id mgr m) by done. unfold dispatch.
  assert (id < blen (m_protos m)) as Hlt by (apply lookup_lt_Some in Hp; unfold blen; lia).
  rewrite Z.geb_leb, (proj2 (Z.leb_gt _ _)) by lia. rewrite Hp, blen_app.
  replace (blen (id_bytes id) + blen bs - blen (id_bytes id)) with (blen bs) by lia.
  erewrite pbind_err by exact Hun. eauto.
Qed.

End Claims.

(** * Protocol names *)

Lemma find_last_app c a b i found :
  find_last_of_from c (a ++ b) i found = find_last_of_from c b (i + blen a) (find_last_of_from c a i found).
Proof.
  revert i found. induction a as [|x a IH]; intros i found; simpl; [by rewrite blen_nil, Z.add_0_r|].
  rewrite IH, blen_cons. f_equal. lia.
Qed.

Lemma find_last_notin c s i found : c ∉ s -> find_last_of_from c s i found = found.
Proof.
  revert i found. induction s as [|x s IH]; intros i found; simpl; [done|].
  intros [H1 H2]%not_elem_of_cons. rewrite decide_False by done. auto.
Qed.

Lemma find_last_of_split c a b : c ∉ b -> find_last_of c (a ++ c :: b) = blen a.
Proof.
  intros H. unfold find_last_of. rewrite find_last_app. simpl. rewrite decide_True by done.
  by rewrite find_last_notin.
Qed.

(** The protocol with the name and role [process_type] gives it. *)
Definition named (x : net_protocol) (name : list byte) (maker : bool) : net_protocol :=
  mkProto (p_args x) name (p_unpack_ref x) (p_id x) maker (p_manager x) (p_pack_count x) (p_unpack_count x).

Definition with_proto (w : world) (p : Z) (x : net_protocol) : world :=
  mkWorld (w_args w) (<[p := x]> (w_protos w)) (w_managers w) (w_map w) (w_total_pack w)
    (w_total_unpack w) (w_next w) (w_sent w) (w_calls w).

(** The name of a protocol is the part of its path between the last slash
    and the last dot. A name with the prefix [c_] is served by the program when
    it is the client, one with [s_] when it is the server; any other name, and
    a path without slash, is refused. *)
Theorem process_type_names cur_char p x w L dir base ext :
  w_protos w !! p = Some x ->
  Byte.x2f ∉ base -> Byte.x2f ∉ ext -> Byte.x2e ∉ ext -> blen (dir ++ base ++ ext) < 2 ^ 62 ->
  process_type cur_char p (dir ++ Byte.x2f :: base ++ Byte.x2e :: ext) w L =
    (if decide (take 2 base = cstr "c_")
     then POk PROTO_OK (with_proto w p (named x base (bool_decide (cur_char = client)))) L
     else if decide (take 2 base = cstr "s_")
     then POk PROTO_OK (with_proto w p (named x base (bool_decide (cur_char = server)))) L
     else POk PROTO_ERROR (with_proto w p (named x base (p_is_maker x))) L) /\
  (forall path, Byte.x2f ∉ path -> blen path < 2 ^ 62 -> process_type cur_char p path w L = POk PROTO_ERROR w L).
Proof.
  intros Hp Hb He1 He2 Hlen. split.
  - unfold process_type.
    rewrite (find_last_of_split Byte.x2f dir) by (by intros [? | [? | ?]%elem_of_cons]%elem_of_app).
    replace (dir ++ Byte.x2f :: base ++ Byte.x2e :: ext) with ((dir ++ Byte.x2f :: base) ++ Byte.x2e :: ext)
      by (by rewrite <- app_assoc).
    rewrite find_last_of_split by done. pose proof (blen_nonneg dir). pose proof (blen_nonneg base).
    assert (blen (dir ++ Byte.x2f :: base) = blen dir + 1 + blen base) as -> by lens.
    rewrite (proj2 (Z.ltb_ge (blen dir) 0)), (proj2 (Z.ltb_ge (blen dir + 1 + blen base) 0)) by lia.
    rewrite Z.geb_leb, (proj2 (Z.leb_gt _ _)) by lia. cbn [orb]. cbv zeta iota.
    assert (substr ((dir ++ Byte.x2f :: base) ++ Byte.x2e :: ext) (blen dir + 1) (blen dir + 1 + blen base - (blen dir + 1))
      = base) as ->.
    { unfold substr. replace (blen dir + 1 + blen base - (blen dir + 1)) with (blen base) by lia.
      replace ((dir ++ Byte.x2f :: base) ++ Byte.x2e :: ext) with ((dir ++ [Byte.x2f]) ++ base ++ Byte.x2e :: ext)
        by (by rewrite <- !app_assoc).
      replace (blen dir + 1) with (blen (dir ++ [Byte.x2f])) by lens.
      by rewrite drop_blen_app, take_blen_app. }
    rewrite ?(proj2 (Z.ltb_ge (blen dir) 0)) by lia. cbn [orb]. cbv iota. pstep (by apply get_proto_ok). change (substr base 0 2) with (take 2 base).
    repeat case_decide; done.
  - intros path Hno Hl. unfold process_type, find_last_of. rewrite (find_last_notin Byte.x2f) by done.
    assert (find_last_of_from Byte.x2e path 0 npos <= npos) as Hle.
    { assert (forall q i f, i + blen q <= npos -> f <= npos -> find_last_of_from Byte.x2e q i f <= npos) as Hg.
      { induction q as [|c q IH]; intros i f Hi Hf; simpl; [done|]. rewrite blen_cons in Hi.
        pose proof (blen_nonneg q). apply IH; [lia|]. case_decide; lia. }
      apply Hg; [unfold npos; lia|done]. }
    rewrite (proj2 (Z.ltb_ge npos 0)) by (unfold npos; lia).
    rewrite (proj2 (Z.ltb_ge npos 0)) by (unfold npos; lia).
    rewrite (Z.geb_leb npos), (proj2 (Z.leb_le _ npos)) by done. by rewrite !orb_true_r.
Qed.
