(* ===== verification/ProtocolRuns.v ===== *)
(** Concrete runs of the protocol layer: the repository's test program
    (protocol/test.cpp with test.lua and pto/), the failure paths of protocol
    loading, and the witnesses of the theorems of [ProtocolCorrect]. *)
From S2P Require Import Prelude LuaApi LuaRefs DataFormat WireFormat FormatCorrect TableFormat Protocol ProtocolCorrect.

(** The result, the messages and the handler calls of a run that returns. *)
Definition observe (run : pres Z) : option (Z * list message * list (lua_value * list lua_value)) :=
  match run with POk n w _ => Some (n, w_sent w, w_calls w) | _ => None end.

(** * The test program *)

Module TestProgram.

(** A Lua state with empty registry (location 1) and globals (location 2). *)
Definition L0 : lua_State := mkLua [] (<[1%positive := []]> (<[2%positive := []]> ∅)) 1 2.
Definition w0 : world := mkWorld [] ∅ ∅ ∅ 0 0 1 [] [].

(** The files of pto/ all return
    [{arg_list = {{"id", "number"}, {"name", "string"}}}]; the script's tables
    are allocated at locations that are not in use. *)
Definition simple_pto (_ : list byte) (L : lua_State) : file_outcome :=
  RunReturns (LTable 100) LNil
    (<[100%positive := [(LString (cstr "arg_list"), LTable 101)]]>
    (<[101%positive := [(num 1, LTable 102); (num 2, LTable 103)]]>
    (<[102%positive := [(num 1, LString (cstr "id")); (num 2, LString (cstr "number"))]]>
    (<[103%positive := [(num 1, LString (cstr "name")); (num 2, LString (cstr "string"))]]> (heap L))))).

(** Handlers return normally. *)
Definition quiet (_ : lua_value) (_ : list lua_value) (L : lua_State) : call_outcome := CallReturns [] (heap L).

Definition buffer : list byte := replicate (Z.to_nat MAXTONETD) Byte.x00.

(** [for_maker.c_simple = function (vfd, Id, Name) ... end] of test.lua. *)
Definition define_handler : proto unit :=
  _ ← api (lua_getglobal (cstr "for_maker"));
  _ ← api (push (LString (cstr "c_simple")));
  _ ← api (push (LFunction 77));
  _ ← api (lua_settable (-3));
  api (lua_settop 0).

(** One call of a method of the manager from the script, in a fresh frame. *)
Definition script_call (args : list lua_value) (f : proto Z) : proto Z :=
  _ ← api (set_stack (rev args));
  n ← f;
  _ ← api (lua_settop 0);
  mret n.

(** The call [for_caller.name(...)] of a script. *)
Definition call_caller (name : list byte) (args : list lua_value) : proto Z :=
  _ ← api (lua_getglobal (cstr "for_caller"));
  _ ← api (push (LString name));
  _ ← api (lua_gettable (-2));
  v ← api (index2adr (-1));
  match v with
  | Some (LPackClosure self) => script_call args (@net_pack plain_env buffer self)
  | _ => pfault WildPointer
  end.

Definition c_simple_path : list byte := cstr "./pto/c_simple.pto".
Definition s_simple_path : list byte := cstr "./pto/s_simple.pto".

(** [main] of test.cpp up to the first [unpack_data], with the part of
    test.lua that concerns the first manager. *)
Definition main : proto Z :=
  pobj ← CreateNewProtoManager (cstr "cishi") (cstr "for_maker") (cstr "for_caller") 1;
  match pobj with
  | None => pfault NullDeref
  | Some mgr =>
      _ ← define_handler;
      _ ← script_call [LString c_simple_path] (@add_protocol plain_env client simple_pto quiet mgr);
      _ ← script_call [LString s_simple_path] (@add_protocol plain_env client simple_pto quiet mgr);
      _ ← call_caller (cstr "s_simple") [num 9999; num 1985; LString (cstr "zero")];
      @unpack_data plain_env quiet mgr (zbytes [0x01; 0x04; 0xc1; 0x07; 0x05; 0x7a; 0x65; 0x72; 0x6f]) 9 6666
  end.

End TestProgram.

(** The test program does what its comments and output expect: the client
    serves [c_simple] and can call [s_simple]; the call
    [for_caller.s_simple(9999, 1985, "zero")] sends protocol 2 with the two
    arguments to connection 9999, and the nine bytes of the test reach the
    handler of [c_simple] as (6666, 1985, "zero") and are consumed. *)
Theorem test_program_runs :
  exists w L, TestProgram.main TestProgram.w0 TestProgram.L0 = POk 9 w L /\
    w_sent w = [mkMsg 1 (zbytes [0x02; 0x04; 0xc1; 0x07; 0x05; 0x7a; 0x65; 0x72; 0x6f]) 9999 false 0] /\
    w_calls w = [(LFunction 77, [num 6666; num 1985; LString (cstr "zero")])].
Proof.
  assert (observe (TestProgram.main TestProgram.w0 TestProgram.L0) = Some (9,
    [mkMsg 1 (zbytes [0x02; 0x04; 0xc1; 0x07; 0x05; 0x7a; 0x65; 0x72; 0x6f]) 9999 false 0],
    [(LFunction 77, [num 6666; num 1985; LString (cstr "zero")])])) as H by (vm_compute; reflexivity).
  destruct (TestProgram.main TestProgram.w0 TestProgram.L0) as [n w L|? ? ?|?]; [|done..].
  cbn [observe] in H. injection H as -> Hs Hc. by exists w, L.
Qed.

(** * A failed update *)

Module FailedUpdate.
Import TestProgram.

(** The new version of the file names an unknown argument type. *)
Definition bad_pto (_ : list byte) (L : lua_State) : file_outcome :=
  RunReturns (LTable 200) LNil
    (<[200%positive := [(LString (cstr "arg_list"), LTable 201)]]>
    (<[201%positive := [(num 1, LTable 202)]]>
    (<[202%positive := [(num 1, LString (cstr "id")); (num 2, LString (cstr "nosuch"))]]> (heap L)))).

(** A server loads [c_simple], updates it from the new file, and calls the
    function again. *)
Definition main : proto Z :=
  pobj ← CreateNewProtoManager (cstr "cishi") (cstr "for_maker") (cstr "for_caller") 1;
  match pobj with
  | None => pfault NullDeref
  | Some mgr =>
      n ← script_call [LString c_simple_path] (@add_protocol plain_env server simple_pto quiet mgr);
      _ ← api (lift (require (n =? 1) AssertFailed));
      n ← script_call [num 1; LString c_simple_path] (@update_protocol plain_env server bad_pto quiet mgr);
      _ ← api (lift (require (n =? 2) AssertFailed));
      call_caller (cstr "c_simple") [num 9999; num 1985; LString (cstr "zero")]
  end.

(** The same without the update. *)
Definition main_without_update : proto Z :=
  pobj ← CreateNewProtoManager (cstr "cishi") (cstr "for_maker") (cstr "for_caller") 1;
  match pobj with
  | None => pfault NullDeref
  | Some mgr =>
      n ← script_call [LString c_simple_path] (@add_protocol plain_env server simple_pto quiet mgr);
      _ ← api (lift (require (n =? 1) AssertFailed));
      call_caller (cstr "c_simple") [num 9999; num 1985; LString (cstr "zero")]
  end.

End FailedUpdate.

(** A failed [update_protocol] leaves the script a function over a deleted
    object. The update rebinds [for_caller.c_simple] to the new protocol before
    it reads the argument list; when that fails (it reports the failure, as
    checked here) the new protocol is deleted, and the next call of the
    function, which worked before the update, uses freed memory. *)
Theorem failed_update_dangles :
  (exists w L, FailedUpdate.main_without_update TestProgram.w0 TestProgram.L0 = POk 0 w L) /\
  FailedUpdate.main TestProgram.w0 TestProgram.L0 = PUB UseAfterFree.
Proof.
  split; [|vm_compute; reflexivity].
  assert (fst <$> (fst <$> observe (FailedUpdate.main_without_update TestProgram.w0 TestProgram.L0)) = Some 0) as H
    by (vm_compute; reflexivity).
  destruct (FailedUpdate.main_without_update TestProgram.w0 TestProgram.L0) as [n w L|? ? ?|?]; [|done..].
  cbn in H. injection H as ->. by exists w, L.
Qed.

(** * Witnesses *)

Module Witness.
Import TestProgram.

Definition pto (id ref : Z) : net_protocol :=
  mkProto [fcall_number_arg; fcall_string_arg] (cstr "c_simple") ref id false 1 0 0.
Definition mgr : proto_manager := mkManager (Some (cstr "for_maker")) (Some (cstr "for_caller")) [2; 3] 5 0.
Definition rt : ltable := [(num 1, LFunction 77)].
Definition lheap : gmap positive ltable := <[1%positive := rt]> (<[4%positive := [(num 1, num 21); (num 2, num 0); (num 3, num 22)]]> ∅).
Definition w : world :=
  mkWorld (arg_init []) (<[3 := pto 1 1]> (<[2 := pto 0 (-2)]> ∅)) (<[1 := mgr]> ∅) ∅ 0 0 10 [] [].
Definition formats : list fmt := [Fnumber; Fstring].
Definition data : list WireFormat.data := [DNum 1985; DStr (cstr "zero")].
Definition payload : list byte := zbytes [0x04; 0xc1; 0x07; 0x05; 0x7a; 0x65; 0x72; 0x6f].

Lemma args_denote t : Forall2 (denotes t) [fcall_number_arg; fcall_string_arg] formats.
Proof. repeat constructor. Qed.

(** The frame of the call: the first argument [v], then the data. *)
Definition frame (v : lua_value) : list lua_value := [LString (cstr "zero"); num 1985; v].

Lemma frame_holds v : @args_hold plain_env lheap (frame v) 2 formats data.
Proof.
  split; [done|]. intros j f d Hf Hd. destruct j as [|[|[|j]]]; simplify_eq/=.
  - exists 1%nat, (num 1985). split; [split; [done|by left]|]. by exists (NInt 1985).
  - exists 0%nat, (LString (cstr "zero")). split; [split; [done|by left]|]. split; [by left|done].
Qed.

Lemma frame_first v : stack_index (frame v) 1 2 v.
Proof. split; [done|by left]. Qed.

Lemma buffer_len : blen buffer = MAXTONETD.
Proof. unfold blen, buffer. rewrite length_replicate. done. Qed.

Lemma pto_bound : bound rt (pto 1 1) (LFunction 77) formats.
Proof. split; [done|done|done|apply args_denote]. Qed.

Lemma mgr_ok : manager_ok w rt mgr.
Proof.
  intros p [-> | [-> | []%elem_of_nil]%elem_of_cons]%elem_of_cons.
  - exists (pto 0 (-2)). split; [done|by left].
  - exists (pto 1 1). split; [done|]. right. exists (LFunction 77), formats. apply pto_bound.
Qed.

End Witness.

Lemma unpack_data_never_faults_witness :
  data_post TestProgram.quiet
    (@unpack_data plain_env TestProgram.quiet 1 (zbytes [0x01; 0x0b; 0xff]) 3 6666 Witness.w (mkLua [] Witness.lheap 1 1))
    Witness.w [] 1 1 3.
Proof.
  apply (@unpack_data_never_faults plain_env TestProgram.quiet Witness.rt 1 Witness.mgr);
    [done|done|apply Witness.mgr_ok|by vm_compute|lia].
Defined.

Lemma remote_call_delivered_witness :
  exists data w' s', @net_pack plain_env TestProgram.buffer 3 Witness.w
      (mkLua (Witness.frame (num 9999)) Witness.lheap 1 1) = POk 0 w' (mkLua s' Witness.lheap 1 1) /\
    w_sent w' = [mkMsg 5 data 9999 false 0] /\
    exists w2' h2' vs, @unpack_data plain_env TestProgram.quiet 1 data (blen data) 6666 Witness.w (mkLua [] Witness.lheap 1 1)
      = POk (blen data) w2' (mkLua [] h2' 1 1) /\ w_calls w2' = [(LFunction 77, num 6666 :: vs)].
Proof.
  destruct (@remote_call_delivered plain_env TestProgram.quiet TestProgram.buffer Witness.rt Witness.w
    (Witness.frame (num 9999)) Witness.lheap 1 1 3 (Witness.pto 1 1) Witness.mgr Witness.formats Witness.data
    Witness.payload 2 (NInt 9999) 9999 1 Witness.mgr 3 (Witness.pto 1 1) (LFunction 77) Witness.rt Witness.w [] Witness.lheap
    1 1 6666 eq_refl eq_refl eq_refl (Witness.args_denote _) (Witness.frame_holds _) (Witness.frame_first _) eq_refl
    eq_refl Witness.buffer_len (conj eq_refl eq_refl) eq_refl ltac:(by vm_compute) eq_refl eq_refl eq_refl eq_refl eq_refl
    Witness.pto_bound) as (data & w' & s' & H1 & H2 & w2' & h2' & h1 & vs & ds' & H3 & H4 & _).
  - intros vs L. by eexists _, _.
  - exists data, w', s'. split; [exact H1|]. split; [exact H2|]. exists w2', h2', vs. split; [exact H3|exact H4].
Defined.

Lemma multicast_sent_once_witness :
  exists w' s', @net_pack plain_env TestProgram.buffer 3 Witness.w
      (mkLua (Witness.frame (LTable 4)) Witness.lheap 1 1) = POk 0 w' (mkLua s' Witness.lheap 1 1) /\ blen s' = 3 /\
    w_sent w' = [mkMsg 5 (zbytes [0x01; 0x04; 0xc1; 0x07; 0x05; 0x7a; 0x65; 0x72; 0x6f; 21; 0; 0; 0; 22; 0; 0; 0]) 2 true 9].
Proof.
  apply (@multicast_sent_once plain_env TestProgram.buffer Witness.rt Witness.w (Witness.frame (LTable 4)) Witness.lheap 1 1 3
    (Witness.pto 1 1) Witness.mgr Witness.formats Witness.data Witness.payload 2 4
    [(num 1, num 21); (num 2, num 0); (num 3, num 22)] [21; 0; 22] eq_refl eq_refl eq_refl (Witness.args_denote _)
    (Witness.frame_holds _) eq_refl (Witness.frame_first _) eq_refl eq_refl eq_refl); [|apply Witness.buffer_len|reflexivity|by vm_compute].
  intros j to Hj. destruct j as [|[|[|j]]]; simplify_eq/=; eexists; done.
Defined.

Lemma handler_error_escapes_witness :
  exists e w' L', @unpack_data plain_env (fun _ _ L => CallFails (LTable 9) (heap L)) 1
    (id_bytes 1 ++ Witness.payload) (blen (id_bytes 1 ++ Witness.payload)) 6666 Witness.w (mkLua [] Witness.lheap 1 1)
    = PErr e w' L'.
Proof.
  apply (@handler_error_escapes plain_env (fun _ _ L => CallFails (LTable 9) (heap L)) Witness.rt 1 Witness.mgr 1 3
    (Witness.pto 1 1) (LFunction 77) Witness.formats Witness.data Witness.payload);
    try (exact eq_refl); try (by vm_compute); [apply Witness.pto_bound|].
  intros vs L. by eexists _, _.
Defined.

Lemma process_type_names_witness :
  process_type client 3 (cstr "./pto/c_simple.pto") Witness.w (mkLua [] ∅ 1 1)
  = POk PROTO_OK (with_proto Witness.w 3 (named (Witness.pto 1 1) (cstr "c_simple") true)) (mkLua [] ∅ 1 1).
Proof.
  refine (proj1 (process_type_names client 3 (Witness.pto 1 1) Witness.w (mkLua [] ∅ 1 1) (cstr "./pto") (cstr "c_simple")
    (cstr "pto") eq_refl _ _ _ _)); try (by vm_compute);
    (intros H; repeat (apply elem_of_cons in H as [H|H]; [discriminate|]); by apply elem_of_nil in H).
Defined.
