(* ===== verification/Binding.v ===== *)
(** The Lua binding of the protocol library (protocol/protocol.cpp:
    [GetProtoObj], the methods [pto_*], [ProtoLib_f], [ProtoLib_m] and
    [InitProtocolLib]) over the part of Lua it uses beyond [LuaApi.v]: the
    metatable of the light userdata ([lapi.c], [lauxlib.c], [lvm.c]). *)
From S2P Require Import Prelude.
From S2P Require Import LuaApi LuaRefs DataFormat TableFormat Protocol.

(** * The metatable of light userdata *)

(** [G(L)->mt[LUA_TLIGHTUSERDATA]]: all light userdata share one metatable. *)
Abbreviation light_mt := (option positive).

Definition lib (A : Type) : Type := light_mt -> proto (A * light_mt).

#[export] Instance lib_ret : MRet lib := fun A a mt => mret (a, mt).
#[export] Instance lib_bind : MBind lib := fun A B k m mt => '(a, mt) ← m mt; k a mt.

Definition run_proto {A} (m : proto A) : lib A := fun mt => a ← m; mret (a, mt).
Definition run_api {A} (m : lua A) : lib A := run_proto (api m).
Definition get_light : lib light_mt := fun mt => mret (mt, mt).
Definition set_light (mt' : light_mt) : lib unit := fun _ => mret ((), mt').

(** On tables without metatable. *)
Definition lua_getfield (idx : Z) (k : list byte) : lua unit :=
  '(_, t) ← table_at idx; push (luaH_get t (LString k)).
Definition lua_setfield (idx : Z) (k : list byte) : lua unit :=
  '(l, t) ← table_at idx; v ← pop_value; set_table l (luaH_set t (LString k) v).

Definition lua_rawequal (i j : Z) : lua bool :=
  a ← index2adr i; b ← index2adr j;
  mret (match a, b with Some a, Some b => raweq a b | _, _ => false end).

(** The null pointer is 0. There are no full userdata. *)
Definition lua_touserdata (idx : Z) : lua Z :=
  v ← index2adr idx; mret (match v with Some (LLight p) => p | _ => 0 end).

(** For a light userdata. *)
Definition lua_getmetatable (objindex : Z) : lib bool :=
  v ← run_api (index2adr objindex);
  mt ← get_light;
  match v, mt with
  | Some (LLight _), Some l => run_api (push (LTable l));; mret true
  | _, _ => mret false
  end.

Definition lua_setmetatable (objindex : Z) : lib Z :=
  v ← run_api (index2adr objindex);
  top ← run_api pop_value;
  match v, top with
  | Some (LLight _), LTable l => set_light (Some l);; mret 1
  | Some (LLight _), LNil => set_light None;; mret 1
  | _, _ => run_proto (pfault WildPointer)
  end.

(** * The auxiliary library *)

Definition luaL_newmetatable (tname : list byte) : lua bool :=
  lua_getfield LUA_REGISTRYINDEX tname;;
  b ← lua_isnil (-1);
  if negb b then mret false
  else
    lua_pop 1;;
    lua_newtable;;
    lua_pushvalue (-1);;
    lua_setfield LUA_REGISTRYINDEX tname;;
    mret true.

Definition luaL_getmetatable (tname : list byte) : lua unit := lua_getfield LUA_REGISTRYINDEX tname.

Definition luaL_checkudata (ud : Z) (tname : list byte) : lib Z :=
  p ← run_api (lua_touserdata ud);
  if negb (p =? 0) then
    b ← lua_getmetatable ud;
    if b : bool then
      run_api (lua_getfield LUA_REGISTRYINDEX tname);;
      same ← run_api (lua_rawequal (-1) (-2));
      if same : bool then run_api (lua_pop 2);; mret p
      else run_api (luaL_typerror ud)
    else run_api (luaL_typerror ud)
  else run_api (luaL_typerror ud).

(** One part of a dotted name; [false] when it is there and not a table. *)
Definition findtable_part (part : list byte) : lua bool :=
  lua_pushlstring part;;
  lua_rawget (-2);;
  nil ← lua_isnil (-1);
  tab ← lua_istable (-1);
  if nil : bool then
    lua_pop 1;;
    lua_newtable;;
    lua_pushlstring part;;
    lua_pushvalue (-2);;
    lua_settable (-4);;
    lua_remove (-2);; mret true
  else if negb tab then lua_pop 2;; mret false
  else lua_remove (-2);; mret true.

Fixpoint findtable_loop (parts : list (list byte)) : lua bool :=
  match parts with
  | [] => mret true
  | p :: ps => ok ← findtable_part p; if ok : bool then findtable_loop ps else mret false
  end.

(** The parts of a name between its dots. *)
Fixpoint split_dots (s : list byte) : list (list byte) :=
  match s with
  | [] => [[]]
  | c :: s =>
      if decide (c = Byte.x2e) then [] :: split_dots s
      else match split_dots s with p :: ps => (c :: p) :: ps | [] => [[c]] end
  end.

(** [false] stands for the name of the part in conflict. *)
Definition luaL_findtable (idx : Z) (fname : list byte) : lua bool :=
  lua_pushvalue idx;; findtable_loop (split_dots fname).

Fixpoint set_funcs (l : list (list byte * lua_value)) : lua unit :=
  match l with
  | [] => mret ()
  | (name, func) :: l => push func;; lua_setfield (-2) name;; set_funcs l
  end.

(** [luaI_openlib] with no upvalues. *)
Definition luaL_register (libname : option (list byte)) (l : list (list byte * lua_value)) : lua unit :=
  match libname with
  | Some libname =>
      luaL_findtable LUA_REGISTRYINDEX (cstr "_LOADED");;
      lua_getfield (-1) libname;;
      tab ← lua_istable (-1);
      (if negb tab then
         lua_pop 1;;
         ok ← luaL_findtable LUA_GLOBALSINDEX libname;
         if negb ok then lua_throw LNil
         else lua_pushvalue (-1);; lua_setfield (-3) libname
       else mret ());;
      lua_remove (-2)
  | None => mret ()
  end;;
  set_funcs l.

(** * The binding *)

Definition meta : list byte := cstr "meta.pto.object".

Inductive method : Type :=
| pto_add_arg_type
| pto_add_protocol
| pto_update_protocol
| pto_add_static_protocol
| pto_get_ptos_checkid
| pto_stat.

#[export] Instance method_eq_dec : EqDecision method.
Proof. solve_decision. Defined.

(** [KeyStr(KeyName)]: up to the first zero. *)
Fixpoint c_part (s : list byte) : list byte :=
  match s with [] => [] | c :: s => if decide (c = Byte.x00) then [] else c :: c_part s end.

Section Binding.
Context {Env : LuaEnv}.
(** The addresses of the C functions; the side the program is, the files and the
    Lua functions called, as in [Protocol.v]. *)
Context (fid : method -> Z) (get_fid : Z).
Context (cur_char : list byte) (run_file : list byte -> lua_State -> file_outcome)
        (call : lua_value -> list lua_value -> lua_State -> call_outcome).

Definition GetProtoObj : lib Z :=
  KeyName ← run_api (luaL_checklstring 1);
  w ← run_proto get_world;
  match w_map w !! c_part KeyName with
  | None => mret 0
  | Some pobj =>
      run_api (lua_pushlightuserdata pobj);;
      run_api (luaL_getmetatable meta);;
      lua_setmetatable (-2);;
      mret 1
  end.

(** The operation of the manager behind each method. *)
Definition operation (f : method) (ProtoManager : Z) : proto Z :=
  match f with
  | pto_add_arg_type => add_arg_type run_file
  | pto_add_protocol => add_protocol cur_char run_file call ProtoManager
  | pto_update_protocol => update_protocol cur_char run_file call ProtoManager
  | pto_add_static_protocol => add_static_protocol cur_char run_file call ProtoManager
  | pto_get_ptos_checkid => get_ptos_checkid ProtoManager
  | pto_stat => stat ProtoManager
  end.

Definition pto_call (f : method) : lib Z :=
  ProtoManager ← luaL_checkudata 1 meta;
  run_proto (operation f ProtoManager).

Definition ProtoLib_f : list (list byte * lua_value) := [(cstr "GetProtoObj", LFunction get_fid)].

Definition ProtoLib_names : list (list byte * method) :=
  [(cstr "add_arg_type", pto_add_arg_type);
   (cstr "add_protocol", pto_add_protocol);
   (cstr "update_protocol", pto_update_protocol);
   (cstr "add_static_protocol", pto_add_static_protocol);
   (cstr "get_check_sum", pto_get_ptos_checkid);
   (cstr "stat", pto_stat)].

Definition ProtoLib_m : list (list byte * lua_value) :=
  (fun '(n, f) => (n, LFunction (fid f))) <$> ProtoLib_names.

Definition InitProtocolLib : lua bool :=
  luaL_newmetatable meta;;
  lua_pushvalue (-1);;
  lua_setfield (-2) (cstr "__index");;
  luaL_register None ProtoLib_m;;
  luaL_register (Some (cstr "pto.object")) ProtoLib_f;;
  mret true.

(** The C function at an address. *)
Definition method_at (id : Z) : option method :=
  List.find (fun f => bool_decide (fid f = id)) (snd <$> ProtoLib_names).

(** A call of a value from a script: a C function of the binding is entered, a
    value that is not a function is an error. *)
Definition call_value (v : lua_value) : lib Z :=
  match v with
  | LFunction id =>
      if decide (id = get_fid) then GetProtoObj
      else match method_at id with
      | Some f => pto_call f
      | None => run_proto (pfault WildPointer)
      end
  | _ => run_api (lua_throw LNil)
  end.

(** [luaV_gettable] for a light userdata whose metatable has a table as
    [__index]; [None] is the error "attempt to index". *)
Definition index_light (mt : light_mt) (L : lua_State) (key : list byte) : option lua_value :=
  l ← mt;
  m ← heap L !! l;
  match luaH_get m (LString (cstr "__index")) with
  | LTable i => t ← heap L !! i; Some (luaH_get t (LString key))
  | _ => None
  end.

(** [obj:key(...)] in a script, with the object and the arguments on the stack. *)
Definition self_call (key : list byte) : lib Z := fun mt w L =>
  match index_light mt L key with
  | Some v => call_value v mt w L
  | None => PErr LNil w L
  end.
End Binding.

(** * Rules *)

Section Rules.
Context (s : list lua_value) (h : gmap positive ltable) (r g : positive).

Lemma lib_bind_ok {A B} (m : lib A) (k : A -> lib B) mt w L a mt' w' L' :
  m mt w L = POk (a, mt') w' L' -> (m ≫= k) mt w L = k a mt' w' L'.
Proof. intros H. unfold mbind, lib_bind, mbind, proto_bind. by rewrite H. Qed.

Lemma lib_bind_err {A B} (m : lib A) (k : A -> lib B) mt w L e w' L' :
  m mt w L = PErr e w' L' -> (m ≫= k) mt w L = PErr e w' L'.
Proof. intros H. unfold mbind, lib_bind, mbind, proto_bind. by rewrite H. Qed.

Lemma run_api_ok {A} (m : lua A) mt w L a L' : m L = LOk a L' -> run_api m mt w L = POk (a, mt) w L'.
Proof. intros H. unfold run_api, run_proto, mbind, proto_bind, api. by rewrite H. Qed.

Lemma run_api_err {A} (m : lua A) mt w L e L' : m L = LErr e L' -> run_api m mt w L = PErr e w L'.
Proof. intros H. unfold run_api, run_proto, mbind, proto_bind, api. by rewrite H. Qed.

Lemma rule_getfield_reg k rt : h !! r = Some rt ->
  lua_getfield LUA_REGISTRYINDEX k (mkLua s h r g) = LOk () (mkLua (luaH_get rt (LString k) :: s) h r g).
Proof. intros H. unfold lua_getfield, table_at, mbind, lua_bind, index2adr. cbn. by rewrite H. Qed.

Lemma rule_setfield_reg k v rt : h !! r = Some rt ->
  lua_setfield LUA_REGISTRYINDEX k (mkLua (v :: s) h r g) =
    LOk () (mkLua s (<[r := luaH_set rt (LString k) v]> h) r g).
Proof. intros H. unfold lua_setfield, table_at, mbind, lua_bind, index2adr. cbn. by rewrite H. Qed.

Lemma rule_setfield k v l t : h !! l = Some t ->
  lua_setfield (-2) k (mkLua (v :: LTable l :: s) h r g) =
    LOk () (mkLua (LTable l :: s) (<[l := luaH_set t (LString k) v]> h) r g).
Proof. intros H. unfold lua_setfield, table_at, mbind, lua_bind, index2adr. simpl. rewrite H. done. Qed.

Lemma rule_new : exists l, h !! l = None /\
  lua_newtable (mkLua s h r g) = LOk l (mkLua (LTable l :: s) (<[l := []]> h) r g).
Proof.
  exists (fresh (dom h)). split; [|done]. apply not_elem_of_dom. apply is_fresh.
Qed.
End Rules.

Definition fill (t : ltable) (l : list (list byte * lua_value)) : ltable :=
  foldl (fun t '(n, v) => luaH_set t (LString n) v) t l.

Lemma set_funcs_ok l : forall s h r g p t, h !! p = Some t ->
  set_funcs l (mkLua (LTable p :: s) h r g) = LOk () (mkLua (LTable p :: s) (<[p := fill t l]> h) r g).
Proof.
  induction l as [|[n v] l IH]; intros s h r g p t Hp; cbn [set_funcs].
  - unfold fill. cbn. by rewrite insert_id.
  - rewrite (lua_bind_ok (push v) _ (mkLua (LTable p :: s) h r g) () (mkLua (v :: LTable p :: s) h r g) eq_refl).
    rewrite (lua_bind_ok _ _ _ _ _ (rule_setfield s h r g n v p t Hp)).
    rewrite (IH s _ r g p (luaH_set t (LString n) v)) by apply lookup_insert_eq. by rewrite insert_insert_eq.
Qed.

Lemma rule_remove s h r g a b : lua_remove (-2) (mkLua (a :: b :: s) h r g) = LOk () (mkLua (a :: s) h r g).
Proof. reflexivity. Qed.

Lemma rule_dup s h r g a : lua_pushvalue (-1) (mkLua (a :: s) h r g) = LOk () (mkLua (a :: a :: s) h r g).
Proof. reflexivity. Qed.

(** A part that is there, and one that is created. *)
Lemma findtable_part_found s h r g p t k q : h !! p = Some t -> luaH_get t (LString k) = LTable q ->
  findtable_part k (mkLua (LTable p :: s) h r g) = LOk true (mkLua (LTable q :: s) h r g).
Proof.
  intros Hp Hk. unfold findtable_part.
  rewrite (lua_bind_ok (lua_pushlstring k) _ (mkLua (LTable p :: s) h r g) ()
             (mkLua (LString k :: LTable p :: s) h r g) eq_refl).
  rewrite (lua_bind_ok _ _ _ _ _ (rule_rawget s h r g p t (LString k) Hp)), Hk.
  rewrite (lua_bind_ok _ _ _ _ _ (rule_isnil _ h r g _)), (lua_bind_ok _ _ _ _ _ (rule_istable _ h r g _)).
  change (ttype (LTable q) =? LUA_TNIL) with false. change (ttype (LTable q) =? LUA_TTABLE) with true. cbv iota. cbn [negb].
  rewrite (lua_bind_ok _ _ _ _ _ (rule_remove s h r g (LTable q) (LTable p))). done.
Qed.

Lemma findtable_part_new s h r g p t k : h !! p = Some t -> luaH_get t (LString k) = LNil ->
  exists q, h !! q = None /\ findtable_part k (mkLua (LTable p :: s) h r g) =
    LOk true (mkLua (LTable q :: s) (<[p := luaH_set t (LString k) (LTable q)]> (<[q := []]> h)) r g).
Proof.
  intros Hp Hk. destruct (rule_new (LTable p :: s) h r g) as (q & Hq & Hnew). exists q. split; [done|].
  assert (p <> q) by congruence.
  unfold findtable_part.
  rewrite (lua_bind_ok (lua_pushlstring k) _ (mkLua (LTable p :: s) h r g) ()
             (mkLua (LString k :: LTable p :: s) h r g) eq_refl).
  rewrite (lua_bind_ok _ _ _ _ _ (rule_rawget s h r g p t (LString k) Hp)), Hk.
  rewrite (lua_bind_ok _ _ _ _ _ (rule_isnil _ h r g _)), (lua_bind_ok _ _ _ _ _ (rule_istable _ h r g _)).
  change (ttype LNil =? LUA_TNIL) with true. cbv iota.
  rewrite (lua_bind_ok _ _ _ _ _ (rule_pop (LTable p :: s) h r g LNil)), (lua_bind_ok _ _ _ _ _ Hnew).
  rewrite (lua_bind_ok (lua_pushlstring k) _ (mkLua (LTable q :: LTable p :: s) (<[q := []]> h) r g) ()
             (mkLua (LString k :: LTable q :: LTable p :: s) (<[q := []]> h) r g) eq_refl).
  rewrite (lua_bind_ok (lua_pushvalue (-2)) _ (mkLua (LString k :: LTable q :: LTable p :: s) (<[q := []]> h) r g) ()
             (mkLua (LTable q :: LString k :: LTable q :: LTable p :: s) (<[q := []]> h) r g) eq_refl).
  assert (Hset : lua_settable (-4) (mkLua (LTable q :: LString k :: LTable q :: LTable p :: s) (<[q := []]> h) r g) =
    LOk () (mkLua (LTable q :: LTable p :: s) (<[p := luaH_set t (LString k) (LTable q)]> (<[q := []]> h)) r g)).
  { unfold lua_settable, lua_rawset, table_at, mbind, lua_bind, index2adr. simpl.
    rewrite lookup_insert_ne by done. rewrite Hp. done. }
  rewrite (lua_bind_ok _ _ _ _ _ Hset).
  rewrite (lua_bind_ok _ _ _ _ _ (rule_remove s _ r g (LTable q) (LTable p))). done.
Qed.

Lemma luaH_get_set_val t k v : good_key k = true -> v <> LNil -> luaH_get (luaH_set t k v) k = v.
Proof.
  intros Hk Hv. induction t as [|[k' v'] t IH]; cbn [luaH_set].
  - rewrite decide_False by done. cbn [luaH_get]. by rewrite raweq_refl.
  - destruct (raweq k k') eqn:E; [rewrite decide_False by done|]; cbn [luaH_get]; by rewrite E.
Qed.

(** * The library is installed *)

Section Installed.
Context {Env : LuaEnv} (fid : method -> Z) (get_fid : Z).
Context (cur_char : list byte) (run_file : list byte -> lua_State -> file_outcome)
        (call : lua_value -> list lua_value -> lua_State -> call_outcome).

(** A fresh Lua state with the package library: nothing of the binding is there. *)
Record bare (h : gmap positive ltable) (r g : positive) : Prop := {
  ba_tables : exists rt gt ld lt, h !! r = Some rt /\ h !! g = Some gt /\ h !! ld = Some lt /\
    r <> g /\ ld <> r /\ ld <> g /\
    luaH_get rt (LString meta) = LNil /\ luaH_get rt (LString (cstr "_LOADED")) = LTable ld /\
    luaH_get lt (LString (cstr "pto.object")) = LNil /\ luaH_get gt (LString (cstr "pto")) = LNil
}.

(** The metatable [m] of the registry has every method and is its own
    [__index]. *)
Record installed (h : gmap positive ltable) (r m : positive) : Prop := {
  in_registry : exists rt, h !! r = Some rt /\ luaH_get rt (LString meta) = LTable m;
  in_methods : exists t, h !! m = Some t /\ luaH_get t (LString (cstr "__index")) = LTable m /\
    forall n f, (n, f) ∈ ProtoLib_names -> luaH_get t (LString n) = LFunction (fid f)
}.

(** [pto.object.GetProtoObj]. *)
Definition exported (h : gmap positive ltable) (g : positive) : Prop :=
  exists gt po pt lo lt, h !! g = Some gt /\ luaH_get gt (LString (cstr "pto")) = LTable po /\
    h !! po = Some pt /\ luaH_get pt (LString (cstr "object")) = LTable lo /\
    h !! lo = Some lt /\ luaH_get lt (LString (cstr "GetProtoObj")) = LFunction get_fid.

Definition methods_table (m : positive) : ltable :=
  fill (luaH_set [] (LString (cstr "__index")) (LTable m)) (ProtoLib_m fid).

Lemma methods_table_ok m : luaH_get (methods_table m) (LString (cstr "__index")) = LTable m /\
  forall n f, (n, f) ∈ ProtoLib_names -> luaH_get (methods_table m) (LString n) = LFunction (fid f).
Proof.
  split; [reflexivity|]. intros n f Hin. unfold ProtoLib_names in Hin.
  repeat (apply elem_of_cons in Hin as [[= -> ->]|Hin]; [reflexivity|]). by apply elem_of_nil in Hin.
Qed.

(** The metatable: [luaL_newmetatable], [__index] and the methods. *)
Lemma init_meta s h r g rt : h !! r = Some rt -> luaH_get rt (LString meta) = LNil ->
  exists m, h !! m = None /\
    (luaL_newmetatable meta;; lua_pushvalue (-1);; lua_setfield (-2) (cstr "__index");;
     luaL_register None (ProtoLib_m fid)) (mkLua s h r g) =
    LOk () (mkLua (LTable m :: s) (<[m := methods_table m]> (<[r := luaH_set rt (LString meta) (LTable m)]> h)) r g).
Proof.
  intros Hr Hm. destruct (rule_new s h r g) as (m & Hnone & Hnew). exists m. split; [done|].
  assert (r <> m) by congruence. set (rt1 := luaH_set rt (LString meta) (LTable m)).
  assert (Hmeta : luaL_newmetatable meta (mkLua s h r g) =
    LOk true (mkLua (LTable m :: s) (<[r := rt1]> (<[m := []]> h)) r g)).
  { unfold luaL_newmetatable. rewrite (lua_bind_ok _ _ _ _ _ (rule_getfield_reg s h r g meta rt Hr)), Hm.
    rewrite (lua_bind_ok _ _ _ _ _ (rule_isnil s h r g LNil)). change (negb (ttype LNil =? LUA_TNIL)) with false. cbv iota.
    rewrite (lua_bind_ok _ _ _ _ _ (rule_pop s h r g LNil)), (lua_bind_ok _ _ _ _ _ Hnew).
    rewrite (lua_bind_ok _ _ _ _ _ (rule_dup s _ r g (LTable m))).
    rewrite (lua_bind_ok _ _ _ _ _ (rule_setfield_reg (LTable m :: s) _ r g meta (LTable m) rt
               ltac:(by rewrite lookup_insert_ne))). done. }
  rewrite (lua_bind_ok _ _ _ _ _ Hmeta), (lua_bind_ok _ _ _ _ _ (rule_dup s _ r g (LTable m))).
  rewrite (lua_bind_ok _ _ _ _ _ (rule_setfield s _ r g (cstr "__index") (LTable m) m []
             ltac:(by rewrite lookup_insert_ne, lookup_insert_eq))).
  unfold luaL_register. rewrite (lua_bind_ok (mret ()) _ _ () _ eq_refl).
  rewrite (set_funcs_ok (ProtoLib_m fid) s _ r g m _ ltac:(apply lookup_insert_eq)).
  rewrite insert_insert_eq. do 2 f_equal. rewrite (insert_insert_ne _ m r) by done. rewrite insert_insert_eq.
  by apply insert_insert_ne.
Qed.

Lemma findtable_loaded s h r g rt ld : h !! r = Some rt -> luaH_get rt (LString (cstr "_LOADED")) = LTable ld ->
  luaL_findtable LUA_REGISTRYINDEX (cstr "_LOADED") (mkLua s h r g) = LOk true (mkLua (LTable ld :: s) h r g).
Proof.
  intros Hr Hld. unfold luaL_findtable.
  rewrite (lua_bind_ok (lua_pushvalue LUA_REGISTRYINDEX) _ (mkLua s h r g) () (mkLua (LTable r :: s) h r g) eq_refl).
  change (split_dots (cstr "_LOADED")) with [cstr "_LOADED"]. cbn [findtable_loop].
  by rewrite (lua_bind_ok _ _ _ _ _ (findtable_part_found s h r g r rt _ ld Hr Hld)).
Qed.

(** The library table [pto.object], which is created. *)
Lemma findtable_pto s h r g gt : h !! g = Some gt -> luaH_get gt (LString (cstr "pto")) = LNil ->
  exists po lo, h !! po = None /\ h !! lo = None /\ po <> lo /\
    luaL_findtable LUA_GLOBALSINDEX (cstr "pto.object") (mkLua s h r g) =
    LOk true (mkLua (LTable lo :: s) (<[po := [(LString (cstr "object"), LTable lo)]]> (<[lo := []]>
      (<[g := luaH_set gt (LString (cstr "pto")) (LTable po)]> (<[po := []]> h)))) r g).
Proof.
  intros Hg Hpto. unfold luaL_findtable.
  rewrite (lua_bind_ok (lua_pushvalue LUA_GLOBALSINDEX) _ (mkLua s h r g) () (mkLua (LTable g :: s) h r g) eq_refl).
  change (split_dots (cstr "pto.object")) with [cstr "pto"; cstr "object"]. cbn [findtable_loop].
  destruct (findtable_part_new s h r g g gt _ Hg Hpto) as (po & Hpo & H1). assert (g <> po) by congruence.
  set (h1 := <[g := _]> _) in H1.
  destruct (findtable_part_new s h1 r g po [] (cstr "object")) as (lo & Hlo & H2);
    [by unfold h1; rewrite lookup_insert_ne, lookup_insert_eq|done|].
  apply lookup_insert_None in Hlo as [Hlo Hglo]. apply lookup_insert_None in Hlo as [Hlo Hpolo].
  exists po, lo. repeat (split; [done|]).
  rewrite (lua_bind_ok _ _ _ _ _ H1), (lua_bind_ok _ _ _ _ _ H2). done.
Qed.

(** [luaL_register] of the library under its name, with what it adds. *)
Lemma register_pto s h1 r g rt1 gt ld lt : h1 !! r = Some rt1 -> h1 !! g = Some gt -> h1 !! ld = Some lt ->
  luaH_get rt1 (LString (cstr "_LOADED")) = LTable ld -> luaH_get lt (LString (cstr "pto.object")) = LNil ->
  luaH_get gt (LString (cstr "pto")) = LNil -> ld <> g ->
  exists lo h', luaL_register (Some (cstr "pto.object")) (ProtoLib_f get_fid) (mkLua s h1 r g) =
      LOk () (mkLua (LTable lo :: s) h' r g) /\ exported h' g /\
    forall l, is_Some (h1 !! l) -> l <> g -> l <> ld -> h' !! l = h1 !! l.
Proof.
  intros R1 R3 R2 HL1 Hlib Hpto Hlg.
  destruct (findtable_pto (LTable ld :: s) h1 r g gt R3 Hpto) as (po & lo & Hpo & Hlo & Hne & Hfind).
  set (h2 := <[po := _]> _) in Hfind.
  assert (Hd : po <> ld /\ po <> g /\ lo <> ld /\ lo <> g) by (repeat split; congruence).
  destruct Hd as (D2 & D3 & D6 & D7).
  set (lt1 := luaH_set lt (LString (cstr "pto.object")) (LTable lo)).
  set (h' := <[lo := fill [] (ProtoLib_f get_fid)]> (<[ld := lt1]> h2)).
  exists lo, h'. split; [|split].
  - unfold luaL_register.
    rewrite (lua_bind_ok _ _ (mkLua s h1 r g) () (mkLua (LTable lo :: s) (<[ld := lt1]> h2) r g)).
    { rewrite (set_funcs_ok _ _ _ r g lo []); [done|]. unfold h2. by simplify_map_eq. }
    rewrite (lua_bind_ok _ _ _ _ _ (findtable_loaded _ h1 r g rt1 ld R1 HL1)).
    rewrite (lua_bind_ok (lua_getfield (-1) (cstr "pto.object")) _ (mkLua (LTable ld :: s) h1 r g) ()
               (mkLua (LNil :: LTable ld :: s) h1 r g)).
    2:{ unfold lua_getfield, table_at, mbind, lua_bind, index2adr. simpl. rewrite R2. by rewrite <- Hlib. }
    rewrite (lua_bind_ok _ _ _ _ _ (rule_istable _ h1 r g LNil)). change (negb (ttype LNil =? LUA_TTABLE)) with true. cbv iota.
    rewrite (lua_bind_ok _ _ _ () (mkLua (LTable lo :: LTable ld :: s) (<[ld := lt1]> h2) r g)); [apply rule_remove|].
    rewrite (lua_bind_ok _ _ _ _ _ (rule_pop _ h1 r g LNil)), (lua_bind_ok _ _ _ _ _ Hfind). cbn [negb].
    rewrite (lua_bind_ok _ _ _ _ _ (rule_dup _ h2 r g (LTable lo))).
    unfold lua_setfield, table_at, mbind, lua_bind, index2adr. simpl.
    unfold h2. rewrite !lookup_insert_ne by done. rewrite R2. done.
  - exists (luaH_set gt (LString (cstr "pto")) (LTable po)), po, [(LString (cstr "object"), LTable lo)], lo,
      (fill [] (ProtoLib_f get_fid)).
    split; [unfold h', h2; by simplify_map_eq|]. split; [by apply luaH_get_set_val|].
    split; [unfold h', h2; by simplify_map_eq|]. split; [reflexivity|]. split; [apply lookup_insert_eq|reflexivity].
  - intros l [t Hl] Hg Hld. assert (l <> po /\ l <> lo) as [] by (split; congruence).
    unfold h', h2. by rewrite !lookup_insert_ne.
Qed.

Lemma init_ok s h r g : bare h r g ->
  exists m lo h', InitProtocolLib fid get_fid (mkLua s h r g) = LOk true (mkLua (LTable lo :: LTable m :: s) h' r g) /\
    installed h' r m /\ exported h' g.
Proof.
  intros [(rt & gt & ld & lt & Hr & Hg & Hld & Hrg & Hlr & Hlg & Hm & HL & Hlib & Hpto)].
  destruct (init_meta s h r g rt Hr Hm) as (m & Hnm & Hinit). set (rt1 := luaH_set rt (LString meta) (LTable m)) in *.
  assert (m <> r /\ m <> g /\ m <> ld) as (Hmr & Hmg & Hml) by (repeat split; congruence).
  set (h1 := <[m := methods_table m]> _) in Hinit.
  assert (R1 : h1 !! r = Some rt1) by (unfold h1; by rewrite lookup_insert_ne, lookup_insert_eq).
  assert (R4 : h1 !! m = Some (methods_table m)) by (unfold h1; apply lookup_insert_eq).
  destruct (register_pto (LTable m :: s) h1 r g rt1 gt ld lt R1) as (lo & h' & Hreg & Hex & Hother); try done.
  { unfold h1. by rewrite !lookup_insert_ne. }
  { unfold h1. by rewrite !lookup_insert_ne. }
  { unfold rt1. by rewrite luaH_get_set_other. }
  exists m, lo, h'. split; [|split; [split|done]].
  - unfold InitProtocolLib. unfold mbind, lua_bind in Hinit |- *.
    destruct (luaL_newmetatable meta (mkLua s h r g)) as [b L1|e L1|f]; [|done|done].
    destruct (lua_pushvalue (-1) L1) as [u2 L2|e L2|f]; [|done|done].
    destruct (lua_setfield (-2) (cstr "__index") L2) as [u3 L3|e L3|f]; [|done|done].
    destruct (luaL_register None (ProtoLib_m fid) L3) as [u4 L4|e L4|f]; [|done|done].
    injection Hinit as -> ->. rewrite Hreg. done.
  - exists rt1. rewrite Hother by eauto. split; [done|]. by apply luaH_get_set_val.
  - exists (methods_table m). rewrite Hother by eauto. split; [done|]. apply methods_table_ok.
Qed.

(** * Calls from a script *)

(** A value that [luaL_checkudata] takes for a manager. *)
Lemma checkudata_light m h r g args p w : installed h r m -> p <> 0 -> 
  luaL_checkudata 1 meta (Some m) w (mkLua (args ++ [LLight p]) h r g) =
    POk (p, Some m) w (mkLua (args ++ [LLight p]) h r g).
Proof.
  intros [(rt & Hr & Hm) _] Hp. set (s := args ++ [LLight p]).
  assert (Hidx : index2adr 1 (mkLua s h r g) = LOk (Some (LLight p)) (mkLua s h r g)).
  { apply (rule_index s h r g 1 (length args)). split.
    - unfold s. by rewrite lookup_app_r, Nat.sub_diag.
    - left. unfold s. rewrite blen_app. unfold blen. cbn [length]. lia. }
  unfold luaL_checkudata.
  rewrite (lib_bind_ok _ _ _ _ _ p (Some m) w (mkLua s h r g)).
  2:{ apply run_api_ok. unfold lua_touserdata. by rewrite (lua_bind_ok _ _ _ _ _ Hidx). }
  rewrite (proj2 (Z.eqb_neq p 0)) by done. cbn [negb].
  rewrite (lib_bind_ok _ _ _ _ _ true (Some m) w (mkLua (LTable m :: s) h r g)).
  2:{ unfold lua_getmetatable. rewrite (lib_bind_ok _ _ _ _ _ _ _ _ _ (run_api_ok _ _ _ _ _ _ Hidx)).
      rewrite (lib_bind_ok get_light _ _ _ _ (Some m) (Some m) w (mkLua s h r g) eq_refl). done. }
  rewrite (lib_bind_ok _ _ _ _ _ _ _ _ _ (run_api_ok _ _ _ _ _ _ (rule_getfield_reg (LTable m :: s) h r g meta rt Hr))), Hm.
  rewrite (lib_bind_ok _ _ _ _ _ true (Some m) w (mkLua (LTable m :: LTable m :: s) h r g)).
  2:{ apply run_api_ok. unfold lua_rawequal, mbind, lua_bind, index2adr. simpl.
      unfold mret, lua_ret. f_equal. by apply bool_decide_eq_true. }
  rewrite (lib_bind_ok _ _ _ _ _ () (Some m) w (mkLua s h r g)); [done|].
  apply run_api_ok. unfold lua_pop, lua_settop, top_of. cbn [stack]. rewrite !blen_cons.
  change (0 <=? - (2) - 1) with false. change (- (- (2) - 1 + 1)) with 2. cbv iota.
  pose proof (blen_nonneg s). rewrite (proj2 (Z.leb_le _ _)) by lia. done.
Qed.

(** A first argument that is not a light userdata is refused. *)
Lemma checkudata_refused mt L w : (forall p, p <> 0 -> index2adr 1 L <> LOk (Some (LLight p)) L) ->
  luaL_checkudata 1 meta mt w L = PErr LNil w L.
Proof.
  intros Hno. unfold luaL_checkudata.
  assert (Hidx : exists v, index2adr 1 L = LOk v L) by (eexists; reflexivity). destruct Hidx as [v Hv].
  rewrite (lib_bind_ok _ _ _ _ _ 0 mt w L).
  - done.
  - apply run_api_ok. unfold lua_touserdata. rewrite (lua_bind_ok _ _ _ _ _ Hv). unfold mret, lua_ret. f_equal.
    destruct v as [[]|]; try done. destruct (decide (p = 0)) as [->|Hp]; [done|]. by apply Hno in Hp.
Qed.

Lemma GetProtoObj_found mt h r g m w name pobj : installed h r m -> w_map w !! c_part name = Some pobj ->
  GetProtoObj mt w (mkLua [LString name] h r g) = POk (1, Some m) w (mkLua [LLight pobj; LString name] h r g).
Proof.
  intros [(rt & Hr & Hm) _] Hmap. unfold GetProtoObj.
  rewrite (lib_bind_ok _ _ _ _ _ name mt w (mkLua [LString name] h r g)) by (by apply run_api_ok).
  rewrite (lib_bind_ok (run_proto get_world) _ mt w _ w mt w (mkLua [LString name] h r g) eq_refl), Hmap.
  rewrite (lib_bind_ok (run_api (lua_pushlightuserdata pobj)) _ mt w (mkLua [LString name] h r g) () mt w
             (mkLua [LLight pobj; LString name] h r g) eq_refl).
  rewrite (lib_bind_ok _ _ _ _ _ _ _ _ _ (run_api_ok _ mt w _ _ _
             (rule_getfield_reg [LLight pobj; LString name] h r g meta rt Hr))), Hm.
  rewrite (lib_bind_ok (lua_setmetatable (-2)) _ mt w (mkLua [LTable m; LLight pobj; LString name] h r g) 1 (Some m) w
             (mkLua [LLight pobj; LString name] h r g) eq_refl).
  done.
Qed.
End Installed.

(** Different C functions have different addresses. *)
Definition distinct_functions (fid : method -> Z) (get_fid : Z) : Prop :=
  NoDup (get_fid :: (fid <$> (snd <$> ProtoLib_names))).

Lemma method_at_fid fid get_fid f : distinct_functions fid get_fid -> method_at fid (fid f) = Some f /\ fid f <> get_fid.
Proof.
  intros [Hg Hnd]%NoDup_cons. assert (f ∈ (snd <$> ProtoLib_names)) as Hf by (destruct f; vm_compute; set_solver).
  split; [|intros <-; by apply Hg, list_elem_of_fmap_2].
  unfold method_at. revert Hf Hnd. generalize (snd <$> ProtoLib_names) as l. clear Hg.
  induction l as [|g l IH]; [by intros ?%elem_of_nil|]. rewrite fmap_cons. intros Hf [Hg Hnd]%NoDup_cons. cbn [List.find].
  case_bool_decide as Hd.
  - apply elem_of_cons in Hf as [->|Hf]; [done|]. destruct Hg. rewrite Hd. by apply list_elem_of_fmap_2.
  - apply elem_of_cons in Hf as [->|Hf]; [done|]. by apply IH.
Qed.

(** A method call on an object runs the method's body on the manager. *)
Lemma self_call_ok {Env : LuaEnv} fid get_fid cur_char run_file call h r g m n f w args p :
  distinct_functions fid get_fid -> installed fid h r m -> (n, f) ∈ ProtoLib_names -> p <> 0 ->
  self_call fid get_fid cur_char run_file call n (Some m) w (mkLua (args ++ [LLight p]) h r g) =
  run_proto (operation cur_char run_file call f p) (Some m) w (mkLua (args ++ [LLight p]) h r g).
Proof.
  intros Hd Hin Hnf Hp. destruct (method_at_fid fid get_fid f Hd) as [Hat Hne].
  unfold self_call, index_light, mbind, option_bind. cbn [heap].
  pose proof Hin as [_ (t & Ht & Hidx & Hm)]. rewrite Ht, Hidx, Ht, (Hm n f Hnf).
  unfold call_value. rewrite decide_False by done. rewrite Hat. unfold pto_call.
  by rewrite (lib_bind_ok _ _ _ _ _ _ _ _ _ (checkudata_light fid m h r g args p w Hin Hp)).
Qed.

(** C28: the protocol objects of a script. After [InitProtocolLib] on a state
    that has nothing of the library, [pto.object.GetProtoObj] is defined; called
    with the name of a protocol manager it returns an object for this manager,
    and for an unknown name nothing. A script's call of a method on an object
    reaches, through the shared metatable and the C function registered for the
    name, the member function of that name, on exactly this manager and with the
    stack the script passed: [add_arg_type], [add_protocol], [update_protocol],
    [add_static_protocol], [get_check_sum] (which is [get_ptos_checkid]) and
    [stat]. A method entered with a first argument that is not a non-null light
    userdata raises an error before the library does anything; but every non-null
    light userdata counts as an object, since they all share the metatable. *)
Theorem script_objects {Env : LuaEnv} (fid : method -> Z) (get_fid : Z) (cur_char : list byte)
    (run_file : list byte -> lua_State -> file_outcome) (call : lua_value -> list lua_value -> lua_State -> call_outcome)
    (s : list lua_value) (h : gmap positive ltable) (r g : positive) :
  distinct_functions fid get_fid -> bare h r g ->
  exists m lo h', InitProtocolLib fid get_fid (mkLua s h r g) = LOk true (mkLua (LTable lo :: LTable m :: s) h' r g) /\
    exported get_fid h' g /\
    (forall mt w name,
       call_value fid get_fid cur_char run_file call (LFunction get_fid) mt w (mkLua [LString name] h' r g) =
       match w_map w !! c_part name with
       | Some pobj => POk (1, Some m) w (mkLua [LLight pobj; LString name] h' r g)
       | None => POk (0, mt) w (mkLua [LString name] h' r g)
       end) /\
    (forall w args p, p <> 0 ->
       let L := mkLua (args ++ [LLight p]) h' r g in
       let script name (body : proto Z) :=
         self_call fid get_fid cur_char run_file call (cstr name) (Some m) w L = run_proto body (Some m) w L in
       script "add_arg_type" (add_arg_type run_file) /\
       script "add_protocol" (add_protocol cur_char run_file call p) /\
       script "update_protocol" (update_protocol cur_char run_file call p) /\
       script "add_static_protocol" (add_static_protocol cur_char run_file call p) /\
       script "get_check_sum" (get_ptos_checkid p) /\
       script "stat" (stat p)) /\
    (forall f mt w st, (forall p, p <> 0 -> last st <> Some (LLight p)) ->
       pto_call cur_char run_file call f mt w (mkLua st h' r g) = PErr LNil w (mkLua st h' r g)).
Proof.
  intros Hd Hb. destruct (init_ok fid get_fid s h r g Hb) as (m & lo & h' & Hi & Hin & Hex).
  exists m, lo, h'. split; [done|]. split; [done|]. split; [|split].
  - intros mt w name. unfold call_value. rewrite decide_True by done.
    destruct (w_map w !! c_part name) as [pobj|] eqn:Hmap; [by apply (GetProtoObj_found fid)|]. unfold GetProtoObj.
    rewrite (lib_bind_ok _ _ _ _ _ name mt w (mkLua [LString name] h' r g)) by (by apply run_api_ok).
    by rewrite (lib_bind_ok (run_proto get_world) _ mt w _ w mt w (mkLua [LString name] h' r g) eq_refl), Hmap.
  - intros w args p Hp. cbv zeta. pose proof (fun n f Hnf =>
      self_call_ok fid get_fid cur_char run_file call h' r g m n f w args p Hd Hin Hnf Hp) as Hc.
    split; [|split; [|split; [|split; [|split]]]].
    + apply (Hc _ pto_add_arg_type). vm_compute. repeat constructor.
    + apply (Hc _ pto_add_protocol). vm_compute. repeat constructor.
    + apply (Hc _ pto_update_protocol). vm_compute. repeat constructor.
    + apply (Hc _ pto_add_static_protocol). vm_compute. repeat constructor.
    + apply (Hc _ pto_get_ptos_checkid). vm_compute. repeat constructor.
    + apply (Hc _ pto_stat). vm_compute. repeat constructor.
  - intros f mt w st Hno. unfold pto_call. apply lib_bind_err, checkudata_refused.
    intros p Hp. unfold index2adr, slot, top_of. cbn [stack]. intros [= Hl]. apply (Hno p Hp).
    rewrite last_lookup. destruct (1 <=? blen st) eqn:E; [|done]. cbn in Hl.
    replace (pred (length st)) with (Z.to_nat (blen st - 1)) by (unfold blen; lia). done.
Qed.

Definition demo_bare : gmap positive ltable :=
  <[1%positive := [(LString (cstr "_LOADED"), LTable 3)]]> (<[2%positive := []]> (<[3%positive := []]> ∅)).

Definition demo_fid (f : method) : Z :=
  match f with
  | pto_add_arg_type => 1 | pto_add_protocol => 2 | pto_update_protocol => 3
  | pto_add_static_protocol => 4 | pto_get_ptos_checkid => 5 | pto_stat => 6
  end.

(** [update_protocol] is what a script's call of this name runs. *)
Lemma script_objects_witness :
  exists m h', InitProtocolLib demo_fid 9 (mkLua [] demo_bare 1 2)
      = LOk true (mkLua [LTable 6; LTable m] h' 1 2) /\
    forall w, self_call (Env := plain_env) demo_fid 9 client (fun _ _ => RunFails) (fun _ _ L => CallReturns [] (heap L))
        (cstr "update_protocol") (Some m) w (mkLua [LLight 77] h' 1 2) =
      run_proto (update_protocol (Env := plain_env) client (fun _ _ => RunFails) (fun _ _ L => CallReturns [] (heap L)) 77)
        (Some m) w (mkLua [LLight 77] h' 1 2).
Proof.
  destruct (@script_objects plain_env demo_fid 9 client
    (fun _ _ => RunFails) (fun _ _ L => CallReturns [] (heap L)) [] demo_bare 1 2) as (m & lo & h' & Hi & _ & _ & Hm & _).
  - apply (bool_decide_unpack _). vm_compute. exact I.
  - split. exists [(LString (cstr "_LOADED"), LTable 3)], [], 3%positive, [].
    split; [reflexivity|]. split; [reflexivity|]. split; [reflexivity|]. split; [done|]. split; [done|]. split; [done|].
    split; [reflexivity|]. split; [reflexivity|]. split; [reflexivity|reflexivity].
  - exists m, h'. split.
    + rewrite Hi. f_equal. clear Hm. vm_compute in Hi. injection Hi as <- <- <-. vm_compute. reflexivity.
    + intros w. destruct (Hm w [] 77) as (_ & _ & Hu & _); [discriminate|]. exact Hu.
Defined.
