(* ===== verification/EvBuffer.v ===== *)
(** The byte buffers of the event library the socket layer is built on
    (socket/3rd/libevent-1.4.12-stable/buffer.c, [struct evbuffer] of event.h):
    one growing block, consumed at its front and extended at its end. Sizes are
    [size_t] of 64 bits and wrap around. The allocator is a function that says
    which requests it serves. *)
From S2P Require Import Prelude.

(** * The code *)

Definition size_wrap (z : Z) : Z := z mod 2 ^ 64.
Definition PTRDIFF_MAX : Z := 2 ^ 63 - 1.

(** [buffer] is the distance of the pointer of that name from [orig_buffer],
    whose block is [None] for the null pointer; [cb] is the argument of the
    callback, when one is set. *)
Record evbuffer := mkEvbuffer {
  orig_buffer : option (list cell);
  buffer : Z;
  misalign : Z;
  totallen : Z;
  off : Z;
  cb : option Z
}.

(** [buf->cb(buf, old, now, cbarg)], the last thing the operations do. *)
Record note := mkNote { note_old : Z; note_now : Z; note_arg : Z }.

#[export] Instance note_eq_dec : EqDecision note.
Proof. solve_decision. Defined.

Definition notify (changed : bool) (b : evbuffer) (old : Z) : option note :=
  if changed then mkNote old (off b) <$> cb b else None.

Definition evbuffer_new (ok : bool) : option evbuffer :=
  if ok then Some (mkEvbuffer None 0 0 0 0 None) else None.

Definition evbuffer_setcb (b : evbuffer) (c : option Z) : evbuffer :=
  mkEvbuffer (orig_buffer b) (buffer b) (misalign b) (totallen b) (off b) c.

(** [memcpy] to and from the block; the calls with no bytes do nothing also
    where the block is the null pointer. *)
Definition get_bytes (b : evbuffer) (at_ len : Z) : cres (list byte) :=
  if len =? 0 then Ok []
  else match orig_buffer b with Some m => load m at_ len | None => UB NullDeref end.

Definition put_cells (b : evbuffer) (at_ : Z) (cs : list cell) : cres evbuffer :=
  if blen cs =? 0 then Ok b
  else match orig_buffer b with
       | Some m => m' ← write_cells m at_ cs;
                   Ok (mkEvbuffer (Some m') (buffer b) (misalign b) (totallen b) (off b) (cb b))
       | None => UB NullDeref
       end.

(** [memmove(orig_buffer, buffer, off)] and the two resets. *)
Definition evbuffer_align (b : evbuffer) : cres evbuffer :=
  m ← of_option NullDeref (orig_buffer b);
  cs ← read_cells m (buffer b) (off b);
  m' ← write_cells m 0 cs;
  Ok (mkEvbuffer (Some m') 0 0 (totallen b) (off b) (cb b)).

(** [while (length < need) length <<= 1;] *)
Fixpoint expand_length (fuel : nat) (length need : Z) : cres Z :=
  if length <? need then
    match fuel with
    | O => UB Diverges
    | S fuel => expand_length fuel (size_wrap (Z.shiftl length 1)) need
    end
  else Ok length.

(** A length of at least [256] has at most 56 doublings before it wraps. *)
Definition expand_fuel : nat := 64.

Definition evbuffer_realloc (alloc : Z -> bool) (b : evbuffer) (length : Z) : cres (evbuffer * Z) :=
  _ ← require (buffer b =? 0) BadFree;
  if alloc length
  then Ok (mkEvbuffer (Some (realloc_block (default [] (orig_buffer b)) length)) 0
             (misalign b) length (off b) (cb b), 0)
  else Ok (b, -1).

Definition evbuffer_expand (alloc : Z -> bool) (b : evbuffer) (datlen : Z) : cres (evbuffer * Z) :=
  let need := size_wrap (misalign b + off b + datlen) in
  if totallen b >=? need then Ok (b, 0)
  else if misalign b >=? datlen then b' ← evbuffer_align b; Ok (b', 0)
  else
    length ← expand_length expand_fuel (if totallen b <? 256 then 256 else totallen b) need;
    b' ← (if buffer b =? 0 then Ok b else evbuffer_align b);
    evbuffer_realloc alloc b' length.

Definition evbuffer_add (alloc : Z -> bool) (b : evbuffer) (data : list byte) (datlen : Z)
  : cres (evbuffer * Z * option note) :=
  let need := size_wrap (misalign b + off b + datlen) in
  let oldoff := off b in
  '(b, res) ← (if totallen b <? need then evbuffer_expand alloc b datlen else Ok (b, 0));
  if res =? -1 then Ok (b, -1, None)
  else
    src ← read_cells data 0 datlen;
    b ← put_cells b (buffer b + off b) (Some <$> src);
    let b := mkEvbuffer (orig_buffer b) (buffer b) (misalign b) (totallen b)
               (size_wrap (off b + datlen)) (cb b) in
    Ok (b, 0, notify (negb (datlen =? 0)) b oldoff).

Definition evbuffer_drain (b : evbuffer) (len : Z) : evbuffer * option note :=
  let oldoff := off b in
  let b' :=
    if len >=? off b then mkEvbuffer (orig_buffer b) 0 0 (totallen b) 0 (cb b)
    else mkEvbuffer (orig_buffer b) (buffer b + len) (size_wrap (misalign b + len)) (totallen b)
           (off b - len) (cb b) in
  (b', notify (negb (off b' =? oldoff)) b' oldoff).

(** [int evbuffer_remove(struct evbuffer *buf, void *data, size_t datlen)]: the
    bytes copied to [data] and the number returned, converted to [int]. *)
Definition evbuffer_remove (b : evbuffer) (datlen : Z)
  : cres (evbuffer * list byte * Z * option note) :=
  let nread := if datlen >=? off b then off b else datlen in
  data ← get_bytes b (buffer b) nread;
  let '(b', n) := evbuffer_drain b nread in
  Ok (b', data, wrap32 nread, n).

(** The buffers of [evbuffer_add_buffer] change places when [outbuf] is empty;
    the callbacks stay. *)
Definition swap_data (x y : evbuffer) : evbuffer :=
  mkEvbuffer (orig_buffer y) (buffer y) (misalign y) (totallen y) (off y) (cb x).

Definition evbuffer_add_buffer (alloc : Z -> bool) (outbuf inbuf : evbuffer)
  : cres (evbuffer * evbuffer * Z * list note) :=
  if off outbuf =? 0 then
    let oldoff := off inbuf in
    let outbuf' := swap_data outbuf inbuf in
    let inbuf' := swap_data inbuf outbuf in
    Ok (outbuf', inbuf', 0,
        option_list (notify (negb (off inbuf' =? oldoff)) inbuf' oldoff) ++
        option_list (mkNote 0 oldoff <$> (if oldoff =? 0 then None else cb outbuf')))
  else
    data ← get_bytes inbuf (buffer inbuf) (off inbuf);
    '(outbuf', res, n1) ← evbuffer_add alloc outbuf data (off inbuf);
    if res =? 0 then
      let '(inbuf', n2) := evbuffer_drain inbuf (off inbuf) in
      Ok (outbuf', inbuf', res, option_list n1 ++ option_list n2)
    else Ok (outbuf', inbuf, res, option_list n1).

(** [evutil_vsnprintf] (evutil.c): [text] is what the format prints, [None] for
    an encoding error. The last byte of the space is set in any case, which
    with no space at all is the byte before it. *)
Definition evutil_vsnprintf (b : evbuffer) (p buflen : Z) (text : option (list byte))
  : cres (evbuffer * Z) :=
  let '(out, r) :=
    match text with
    | Some s => (if buflen =? 0 then [] else take (Z.to_nat (buflen - 1)) s ++ [u8 0],
                 if blen s >? INT_MAX then -1 else blen s)
    | None => ([], -1)
    end in
  b ← put_cells b p (Some <$> out);
  b ← put_cells b (p + buflen - 1) [Some (u8 0)];
  Ok (b, r).

Fixpoint vprintf_loop (fuel : nat) (alloc : Z -> bool) (b : evbuffer) (oldoff : Z)
    (text : option (list byte)) : cres (evbuffer * Z * option note) :=
  match fuel with
  | O => UB Diverges
  | S fuel =>
      let used := size_wrap (misalign b + off b) in
      _ ← require (totallen b >=? used) AssertFailed;
      let space := totallen b - used in
      '(b, sz) ← evutil_vsnprintf b (buffer b + off b) space text;
      if sz <? 0 then Ok (b, -1, None)
      else if sz <? space then
        let b := mkEvbuffer (orig_buffer b) (buffer b) (misalign b) (totallen b)
                   (size_wrap (off b + sz)) (cb b) in
        Ok (b, sz, notify true b oldoff)
      else
        sz1 ← chk_int (sz + 1);
        '(b, res) ← evbuffer_expand alloc b sz1;
        if res =? -1 then Ok (b, -1, None) else vprintf_loop fuel alloc b oldoff text
  end.

(** The second round has the space the first one asked for. The result of the
    first [evbuffer_expand] is not looked at. *)
Definition evbuffer_add_vprintf (alloc : Z -> bool) (b : evbuffer) (text : option (list byte))
  : cres (evbuffer * Z * option note) :=
  let oldoff := off b in
  '(b, _) ← evbuffer_expand alloc b 64;
  vprintf_loop 2 alloc b oldoff text.

(** [evbuffer_add_printf] only collects the arguments. *)
Definition evbuffer_add_printf (alloc : Z -> bool) (b : evbuffer) (text : option (list byte))
  : cres (evbuffer * Z * option note) :=
  evbuffer_add_vprintf alloc b text.

Definition is_eol (c : byte) : bool :=
  (byte.unsigned c =? 13) || (byte.unsigned c =? 10).

(** The position of the first byte that satisfies [P], as the scanning loops
    and [memchr] find it. *)
Fixpoint scan (P : byte -> bool) (q : list byte) : option Z :=
  match q with
  | [] => None
  | c :: q => if P c then Some 0 else Z.succ <$> scan P q
  end.

(** [char *evbuffer_readline(struct evbuffer *buffer)]; [ok] is the answer of
    [malloc(i + 1)]. The counter [i] is an [unsigned int]. *)
Definition evbuffer_readline (ok : bool) (b : evbuffer)
  : cres (evbuffer * option (list byte) * option note) :=
  data ← get_bytes b (buffer b) (off b);
  let len := off b in
  match scan is_eol data with
  | None => if len <? 2 ^ 32 then Ok (b, None, None) else UB Diverges
  | Some i =>
      _ ← require (i <? 2 ^ 32) Diverges;
      if negb ok then let '(b', n) := evbuffer_drain b i in Ok (b', None, n)
      else
        line ← of_option NullDeref (malloc true (uwrap32 (i + 1)));
        line ← write_cells line 0 (Some <$> take (Z.to_nat i) data);
        line ← write_cells line i [Some (u8 0)];
        line ← of_option Uninitialised (mapM id line);
        let skip :=
          match data !! Z.to_nat i, data !! Z.to_nat (i + 1) with
          | Some fch, Some sch =>
              (i <? len - 1) && is_eol sch && negb (bool_decide (sch = fch))
          | _, _ => false
          end in
        let i := if skip then uwrap32 (i + 1) else i in
        let '(b', n) := evbuffer_drain b (uwrap32 (i + 1)) in
        Ok (b', Some line, n)
  end.

Definition EVBUFFER_MAX_READ : Z := 4096.

(** How much [evbuffer_read] asks for: [ioctl] is the result of the query for
    the number of bytes that wait, with that number. *)
Definition read_amount (b : evbuffer) (ioctl : Z * Z) (howmuch : Z) : Z :=
  let '(res, waiting) := ioctl in
  let n :=
    if (res =? -1) || (waiting =? 0) then EVBUFFER_MAX_READ
    else if (waiting >? EVBUFFER_MAX_READ) && (waiting >? howmuch) then
      let lim := size_wrap (Z.shiftl (totallen b) 2) in
      let n := if size_wrap waiting >? lim then wrap32 lim else waiting in
      if n <? EVBUFFER_MAX_READ then EVBUFFER_MAX_READ else n
    else waiting in
  if (howmuch <? 0) || (howmuch >? n) then n else howmuch.

(** [int evbuffer_read(struct evbuffer *buf, int fd, int howmuch)]; [fd_read]
    answers [read(fd, p, n)]: [None] for an error, else the bytes, none of them
    at the end of the stream. *)
Definition evbuffer_read (alloc : Z -> bool) (b : evbuffer) (ioctl : Z * Z)
    (fd_read : Z -> option (list byte)) (howmuch : Z) : cres (evbuffer * Z * option note) :=
  let oldoff := off b in
  let howmuch := read_amount b ioctl howmuch in
  '(b, res) ← evbuffer_expand alloc b (size_wrap howmuch);
  if res =? -1 then Ok (b, -1, None)
  else
    match fd_read howmuch with
    | None => Ok (b, -1, None)
    | Some bs =>
        b ← put_cells b (buffer b + off b) (Some <$> bs);
        let n := blen bs in
        if n =? 0 then Ok (b, 0, None)
        else
          let b := mkEvbuffer (orig_buffer b) (buffer b) (misalign b) (totallen b)
                     (size_wrap (off b + n)) (cb b) in
          Ok (b, n, notify (negb (off b =? oldoff)) b oldoff)
    end.

(** [int evbuffer_write(struct evbuffer *buffer, int fd)]; [fd_write] answers
    [write(fd, p, n)] with the number of bytes taken, [-1] for an error. The
    bytes taken are the second component. *)
Definition evbuffer_write (b : evbuffer) (fd_write : list byte -> Z)
  : cres (evbuffer * list byte * Z * option note) :=
  data ← get_bytes b (buffer b) (off b);
  let n := fd_write data in
  if n =? -1 then Ok (b, [], -1, None)
  else if n =? 0 then Ok (b, [], 0, None)
  else
    let '(b', note) := evbuffer_drain b (size_wrap n) in
    Ok (b', take (Z.to_nat n) data, n, note).

(** The loop of [evbuffer_find]: positions count from [buffer->buffer]. *)
Fixpoint find_loop (fuel : nat) (q what : list byte) (len search : Z) : cres (option Z) :=
  match fuel with
  | O => UB Diverges
  | S fuel =>
      if search <? blen q then
        c ← of_option OutOfBounds (what !! 0%nat);
        match scan (fun x => bool_decide (x = c)) (drop (Z.to_nat search) q) with
        | None => Ok None
        | Some k =>
            let p := search + k in
            if p + len >? blen q then Ok None
            else
              w ← read_cells what 0 len;
              if bool_decide (take (Z.to_nat len) (drop (Z.to_nat p) q) = w) then Ok (Some p)
              else find_loop fuel q what len (p + 1)
        end
      else Ok None
  end.

(** The search position grows with every round. *)
Definition evbuffer_find (b : evbuffer) (what : list byte) (len : Z) : cres (option Z) :=
  q ← get_bytes b (buffer b) (off b);
  find_loop (S (length q)) q what len 0.

(** * What a buffer holds *)

(** Block sizes are powers of two that start at [256]. *)
Definition good_size (t : Z) : Prop := t = 0 \/ exists k, 8 <= k <= 62 /\ t = 2 ^ k.

(** The buffer holds the bytes [q], between the drained front of its block and
    the unused end. *)
Definition evrep (b : evbuffer) (q : list byte) : Prop :=
  exists pre post,
    default [] (orig_buffer b) = pre ++ (Some <$> q) ++ post /\
    buffer b = blen pre /\ misalign b = blen pre /\ off b = blen q /\
    totallen b = blen pre + blen q + blen post /\ good_size (totallen b).

(** No allocator serves a request above [PTRDIFF_MAX]. *)
Definition alloc_sane (alloc : Z -> bool) : Prop := forall n, alloc n = true -> n <= PTRDIFF_MAX.

Lemma size_wrap_small z : 0 <= z < 2 ^ 64 -> size_wrap z = z.
Proof. apply Z.mod_small. Qed.

Lemma good_size_range t : good_size t -> 0 <= t <= 2 ^ 62.
Proof.
  intros [->|(k & Hk & ->)]; [lia|]. split; [apply Z.pow_nonneg; lia|].
  apply Z.pow_le_mono_r; lia.
Qed.

Lemma evrep_off b q : evrep b q -> off b = blen q.
Proof. by intros (? & ? & ? & ? & ? & ? & ?). Qed.

Lemma evrep_bounds b q :
  evrep b q -> 0 <= misalign b /\ 0 <= off b /\ misalign b + off b <= totallen b <= 2 ^ 62.
Proof.
  intros (pre & post & _ & _ & -> & -> & Ht & Hg). apply good_size_range in Hg.
  pose proof (blen_nonneg pre). pose proof (blen_nonneg q). pose proof (blen_nonneg post). lia.
Qed.

Lemma evrep_new b : evbuffer_new true = Some b -> evrep b [] /\ cb b = None.
Proof. intros [= <-]. split; [|done]. exists [], []. repeat split; try done. by left. Qed.

Lemma evrep_setcb b q c : evrep b q -> evrep (evbuffer_setcb b c) q.
Proof. intros (pre & post & ?). by exists pre, post. Qed.

Lemma evrep_get b q n :
  evrep b q -> 0 <= n <= off b -> get_bytes b (buffer b) n = Ok (take (Z.to_nat n) q).
Proof.
  intros (pre & post & Hm & Hb & _ & Ho & _) Hn. unfold get_bytes.
  destruct (n =? 0) eqn:E; bool_props; [by subst|].
  destruct (orig_buffer b) as [m|]; simpl in Hm; subst.
  - pose proof (load_mid pre (take (Z.to_nat n) q) ((Some <$> drop (Z.to_nat n) q) ++ post)) as HL.
    rewrite blen_take in HL by lia. rewrite <- HL, Hb. f_equal. f_equal.
    by rewrite app_assoc, <- fmap_app, take_drop.
  - destruct q; [unfold blen in *; simpl in *; lia|]. by destruct pre.
Qed.

Lemma evrep_get_all b q : evrep b q -> get_bytes b (buffer b) (off b) = Ok q.
Proof.
  intros Hr. pose proof (evrep_off _ _ Hr) as Ho. pose proof (blen_nonneg q).
  rewrite (evrep_get b q) by (done || lia). rewrite Ho. unfold blen.
  by rewrite Nat2Z.id, take_ge.
Qed.

(** Data placed after the last byte held. *)
Lemma evrep_put b q bs :
  evrep b q -> misalign b + off b + blen bs <= totallen b ->
  exists b', put_cells b (buffer b + off b) (Some <$> bs) = Ok b' /\
    off b' = off b /\ cb b' = cb b /\
    evrep (mkEvbuffer (orig_buffer b') (buffer b') (misalign b') (totallen b')
             (off b + blen bs) (cb b')) (q ++ bs).
Proof.
  intros (pre & post & Hm & Hb & Hmis & Ho & Ht & Hg) Hroom. unfold put_cells. rewrite blen_fmap.
  destruct (blen bs =? 0) eqn:E; bool_props.
  - apply blen_nil_inv in E as ->. exists b. repeat split; try done.
    exists pre, post. simpl. rewrite app_nil_r, blen_nil, Z.add_0_r. done.
  - destruct (orig_buffer b) as [m|]; simpl in Hm; subst.
    + assert (Hp : exists p1 p2, post = p1 ++ p2 /\ length p1 = length bs).
      { exists (take (length bs) post), (drop (length bs) post).
        rewrite take_drop, length_take. split; [done|]. unfold blen in *. lia. }
      destruct Hp as (p1 & p2 & -> & Hl).
      rewrite Hb, Ho, <- (blen_fmap Some q), <- blen_app, !app_assoc.
      rewrite <- (app_assoc _ p1 p2).
      rewrite (write_cells_mid (pre ++ (Some <$> q)) p1 (Some <$> bs) p2) by (by rewrite length_fmap).
      rewrite bind_Ok. eexists. repeat split; try done. simpl.
      exists pre, p2. cbn [orig_buffer default buffer misalign totallen off cb].
      rewrite fmap_app, <- !app_assoc. repeat split; try done.
      * rewrite !blen_app, ?blen_fmap. lia.
      * rewrite Ht, !blen_app. unfold blen. lia.
    + destruct pre, q, post; try done. unfold blen in *; simpl in *; lia.
Qed.

(** * Growing *)

Lemma expand_length_S fuel l need :
  expand_length (S fuel) l need =
    if l <? need then expand_length fuel (size_wrap (Z.shiftl l 1)) need else Ok l.
Proof. done. Qed.

Lemma shiftl_pow2 k : 0 <= k < 63 -> size_wrap (Z.shiftl (2 ^ k) 1) = 2 ^ (k + 1).
Proof.
  intros Hk. rewrite Z.shiftl_mul_pow2, <- Z.pow_add_r by lia. apply size_wrap_small.
  split; [apply Z.pow_nonneg; lia|]. apply Z.pow_lt_mono_r; lia.
Qed.

Lemma expand_length_pow2 fuel : forall k need,
  0 <= k -> 63 <= k + Z.of_nat fuel -> k <= 63 -> need <= 2 ^ 63 ->
  exists k', k <= k' <= 63 /\ expand_length fuel (2 ^ k) need = Ok (2 ^ k') /\ need <= 2 ^ k' <= Z.max (2 ^ k) (2 * need).
Proof.
  induction fuel as [|fuel IH]; intros k need H0 Hf Hk Hn.
  - assert (k = 63) as -> by lia. exists 63. split; [lia|]. split; [|lia].
    unfold expand_length. by rewrite (proj2 (Z.ltb_ge _ _)) by lia.
  - rewrite expand_length_S. destruct (2 ^ k <? need) eqn:E; bool_props.
    + assert (k <> 63) by (intros ->; lia). rewrite shiftl_pow2 by lia.
      destruct (IH (k + 1) need) as (k' & ? & ? & ?); try lia. exists k'. split; [lia|]. split; [done|].
      rewrite Z.pow_add_r in * by lia. lia.
    + exists k. split; [lia|]. split; [done|]. lia.
Qed.

(** Beyond [2^63] the doubling wraps to zero and never reaches the need. *)
Lemma expand_length_zero fuel need : 0 < need -> expand_length fuel 0 need = UB Diverges.
Proof.
  intros Hn. induction fuel as [|fuel IH]; [simpl; by rewrite (proj2 (Z.ltb_lt _ _)) by lia|].
  rewrite expand_length_S, (proj2 (Z.ltb_lt _ _)) by lia. exact IH.
Qed.

Lemma expand_length_diverges fuel : forall k need,
  0 <= k <= 63 -> 2 ^ 63 < need -> expand_length fuel (2 ^ k) need = UB Diverges.
Proof.
  induction fuel as [|fuel IH]; intros k need Hk Hn.
  - simpl. rewrite (proj2 (Z.ltb_lt _ _)); [done|].
    eapply Z.le_lt_trans; [apply (Z.pow_le_mono_r _ _ 63)|]; lia.
  - rewrite expand_length_S, (proj2 (Z.ltb_lt _ _)).
    2:{ eapply Z.le_lt_trans; [apply (Z.pow_le_mono_r _ _ 63)|]; lia. }
    destruct (decide (k = 63)) as [->|]; [apply expand_length_zero; lia|].
    rewrite shiftl_pow2 by lia. apply IH; lia.
Qed.

Lemma align_rep b q :
  evrep b q -> buffer b <> 0 ->
  exists b', evbuffer_align b = Ok b' /\ evrep b' q /\ buffer b' = 0 /\ misalign b' = 0 /\
    totallen b' = totallen b /\ cb b' = cb b.
Proof.
  intros (pre & post & Hm & Hb & Hmis & Ho & Ht & Hg) Hne. unfold evbuffer_align.
  destruct (orig_buffer b) as [m|]; simpl in Hm; subst.
  2:{ destruct pre; [rewrite blen_nil in Hb; lia|done]. }
  cbn [of_option]. rewrite bind_Ok, Hb, Ho, <- (blen_fmap Some q), read_cells_mid, bind_Ok.
  pose proof (blen_nonneg q). pose proof (blen_nonneg pre). pose proof (blen_nonneg post).
  rewrite write_cells_ok by (rewrite ?blen_app, ?blen_fmap; lia). rewrite bind_Ok.
  eexists. split; [done|]. split; [|done]. exists [].
  exists (drop (length q) (pre ++ (Some <$> q) ++ post)).
  cbn [orig_buffer default buffer misalign totallen off cb]. rewrite !length_fmap.
  change (Z.to_nat 0 + length q)%nat with (length q).
  repeat split; try done.
  - by rewrite blen_fmap.
  - rewrite Ht, blen_nil. unfold blen. rewrite length_drop, !length_app, length_fmap. lia.
Qed.

Lemma realloc_rep alloc b q k :
  alloc_sane alloc -> evrep b q -> buffer b = 0 -> 8 <= k <= 63 -> totallen b <= 2 ^ k ->
  exists b' res, evbuffer_realloc alloc b (2 ^ k) = Ok (b', res) /\ evrep b' q /\ cb b' = cb b /\
    misalign b' = 0 /\ (res = 0 /\ totallen b' = 2 ^ k \/ res = -1 /\ alloc (2 ^ k) = false).
Proof.
  intros Hs Hr Hb0 Hk Hle. unfold evbuffer_realloc. rewrite Hb0.
  change (require (0 =? 0) BadFree) with (Ok ()). rewrite bind_Ok.
  pose proof Hr as (pre & post & Hm & Hb & Hmis & Ho & Ht & Hg).
  assert (pre = []) as -> by (apply blen_nil_inv; lia).
  destruct (alloc (2 ^ k)) eqn:E.
  2:{ exists b, (-1). repeat split; try done. by right. }
  eexists _, 0. split; [done|]. split; [|split; [done|split; [done|by left]]].
  assert (k <> 63) by (intros ->; specialize (Hs _ E); unfold PTRDIFF_MAX in Hs; lia).
  exists [], (post ++ replicate (Z.to_nat (2 ^ k) - length ((Some <$> q) ++ post)) None).
  cbn [orig_buffer default buffer misalign totallen off cb]. unfold realloc_block.
  assert (Hl : (length (default [] (orig_buffer b)) <= Z.to_nat (2 ^ k))%nat).
  { rewrite Hm, !length_app, length_fmap. rewrite Ht in Hle. unfold blen in Hle. simpl length in *. lia. }
  rewrite resize_ge, Hm by done. rewrite Hm in Hl. simpl in Hl |- *.
  rewrite <- app_assoc. repeat split; try done.
  - rewrite !blen_app, blen_nil. unfold blen. rewrite length_replicate, length_app, length_fmap in *.
    pose proof (Z.pow_pos_nonneg 2 k). lia.
  - right. exists k. split; [lia|done].
Qed.

Lemma evbuffer_expand_rep alloc b q n :
  alloc_sane alloc -> evrep b q -> 0 <= n <= 2 ^ 62 ->
  exists b' res, evbuffer_expand alloc b n = Ok (b', res) /\ evrep b' q /\ cb b' = cb b /\
    (res = 0 /\ misalign b' + off b' + n <= totallen b' \/
     res = -1 /\ exists l, totallen b < l <= Z.max 256 (2 * (off b + 2 * n)) /\ alloc l = false).
Proof.
  intros Hs Hr Hn. pose proof (evrep_bounds _ _ Hr) as (B1 & B2 & B3).
  pose proof (evrep_off _ _ Hr) as Ho.
  unfold evbuffer_expand. rewrite size_wrap_small by lia. rewrite !Z.geb_leb.
  destruct (_ <=? totallen b) eqn:E1; bool_props.
  { exists b, 0. split_and!; try done. left. split; [done|lia]. }
  assert (Hbm : buffer b = misalign b) by (by destruct Hr as (? & ? & _ & -> & -> & _)).
  destruct (n <=? misalign b) eqn:E2; bool_props.
  { destruct (align_rep b q Hr) as (b' & -> & Hr' & Hb' & Hm' & Ht' & Hc'); [lia|].
    rewrite bind_Ok. exists b', 0. split_and!; try done. left. split; [done|].
    rewrite (evrep_off _ _ Hr'), Hm', Ht'. lia. }
  assert (Hk0 : exists k0, 8 <= k0 <= 62 /\
    (if totallen b <? 256 then 256 else totallen b) = 2 ^ k0 /\ totallen b <= 2 ^ k0 <= Z.max 256 (totallen b)).
  { destruct Hr as (? & ? & _ & _ & _ & _ & _ & [Ht|(k & Hk & Ht)]); rewrite Ht.
    - exists 8. done.
    - exists k. rewrite (proj2 (Z.ltb_ge _ _)); [split_and!; lia|].
      apply (Z.pow_le_mono_r 2 8 k); lia. }
  destruct Hk0 as (k0 & Hk0 & -> & Ht0).
  destruct (expand_length_pow2 expand_fuel k0 (misalign b + off b + n)) as (k & Hk & -> & Hneed & Hmax);
    [lia | unfold expand_fuel; lia | lia | lia |].
  rewrite bind_Ok.
  assert (Ha : exists b1, (if buffer b =? 0 then Ok b else evbuffer_align b) = Ok b1 /\
    evrep b1 q /\ buffer b1 = 0 /\ totallen b1 = totallen b /\ cb b1 = cb b).
  { destruct (buffer b =? 0) eqn:E; bool_props; [by exists b|].
    destruct (align_rep b q Hr E) as (b1 & ? & ? & ? & _ & ? & ?). by exists b1. }
  destruct Ha as (b1 & -> & Hr1 & Hb1 & Ht1 & Hc1). rewrite bind_Ok.
  destruct (realloc_rep alloc b1 q k) as (b' & res & -> & Hr' & Hc' & Hm' & Hres); try done; try lia.
  exists b', res. split_and!; try done; [congruence|].
  destruct Hres as [[-> Ht']|[-> Hl]]; [left|right; split; [done|exists (2 ^ k); split; [lia|done]]].
  split; [done|]. rewrite (evrep_off _ _ Hr'), Hm', Ht'. lia.
Qed.

(** * The operations on the bytes held *)

Lemma evbuffer_drain_rep b q n :
  evrep b q -> 0 <= n -> evrep (evbuffer_drain b n).1 (drop (Z.to_nat n) q).
Proof.
  intros (pre & post & Hm & Hb & Hmis & Ho & Ht & Hg) Hn. pose proof (blen_nonneg q).
  pose proof (blen_nonneg pre). pose proof (blen_nonneg post). pose proof (good_size_range _ Hg).
  unfold evbuffer_drain. rewrite Z.geb_leb. destruct (off b <=? n) eqn:E; bool_props.
  - rewrite drop_ge by (unfold blen in *; lia). exists [], (default [] (orig_buffer b)).
    cbn [orig_buffer buffer misalign totallen off cb fst]. repeat split; try done.
    rewrite Hm, !blen_app, blen_fmap. unfold blen at 1 2. simpl length. lia.
  - exists (pre ++ (Some <$> take (Z.to_nat n) q)), post.
    cbn [orig_buffer buffer misalign totallen off cb fst].
    rewrite blen_app, blen_fmap, blen_take, blen_drop by lia.
    rewrite size_wrap_small by lia. split_and!; try done; try lia.
    by rewrite Hm, <- app_assoc, (app_assoc (_ <$> take _ _)), <- fmap_app, take_drop.
Qed.

Lemma evbuffer_drain_cb b n : cb (evbuffer_drain b n).1 = cb b.
Proof. unfold evbuffer_drain. by destruct (n >=? off b). Qed.

(** Adding either appends the data or, refused by the allocator, leaves the
    bytes as they are. *)
Lemma evbuffer_add_rep alloc b q data :
  alloc_sane alloc -> evrep b q -> blen data <= 2 ^ 62 ->
  exists b' res nt, evbuffer_add alloc b data (blen data) = Ok (b', res, nt) /\ cb b' = cb b /\
    (res = 0 /\ evrep b' (q ++ data) \/
     res = -1 /\ evrep b' q /\ nt = None /\ exists l, totallen b < l <= Z.max 256 (2 * (off b + 2 * blen data)) /\ alloc l = false).
Proof.
  intros Hs Hr Hd. pose proof (blen_nonneg data). pose proof (evrep_bounds _ _ Hr) as (B1 & B2 & B3).
  unfold evbuffer_add. rewrite (size_wrap_small (misalign b + off b + blen data)) by lia.
  assert (Hx : exists b1 res, (if totallen b <? misalign b + off b + blen data
      then evbuffer_expand alloc b (blen data) else Ok (b, 0)) = Ok (b1, res) /\
      evrep b1 q /\ cb b1 = cb b /\
      (res = 0 /\ misalign b1 + off b1 + blen data <= totallen b1 \/
       res = -1 /\ exists l, totallen b < l <= Z.max 256 (2 * (off b + 2 * blen data)) /\ alloc l = false)).
  { destruct (_ <? _) eqn:E; bool_props; [by apply evbuffer_expand_rep|].
    exists b, 0. split_and!; try done. left. split; [done|lia]. }
  destruct Hx as (b1 & res & -> & Hr1 & Hc1 & Hres). rewrite bind_Ok.
  destruct Hres as [[-> Hroom]|[-> Hl]].
  2:{ exists b1, (-1), None. split_and!; try done. by right. }
  rewrite Z.eqb_compare. cbn [Z.compare]. rewrite read_cells_ok by lia. rewrite bind_Ok.
  assert (take (Z.to_nat (blen data)) (drop (Z.to_nat 0) data) = data) as ->.
  { unfold blen. rewrite Nat2Z.id. change (Z.to_nat 0) with 0%nat. by rewrite drop_0, take_ge. }
  destruct (evrep_put b1 q data Hr1 Hroom) as (b2 & -> & Ho2 & Hc2 & Hr2). rewrite bind_Ok.
  pose proof (evrep_bounds _ _ Hr1) as (B4 & B5 & B6).
  eexists _, 0, _. split; [done|]. cbn [cb]. split; [congruence|]. left. split; [done|].
  rewrite Ho2, size_wrap_small by lia. done.
Qed.

Lemma evbuffer_remove_rep b q n :
  evrep b q -> 0 <= n -> blen q <= INT_MAX ->
  exists b' nt, evbuffer_remove b n = Ok (b', take (Z.to_nat n) q, Z.min n (blen q), nt) /\
    evrep b' (drop (Z.to_nat n) q) /\ cb b' = cb b.
Proof.
  intros Hr Hn Hq. pose proof (evrep_off _ _ Hr) as Ho. unfold evbuffer_remove. rewrite Z.geb_leb.
  pose proof (blen_nonneg q).
  assert (Hmin : (if off b <=? n then off b else n) = Z.min n (blen q)).
  { destruct (off b <=? n) eqn:E; bool_props; lia. }
  rewrite Hmin, (evrep_get b q) by (done || lia). rewrite bind_Ok.
  pose proof (evbuffer_drain_rep b q (Z.min n (blen q)) Hr ltac:(lia)) as Hd.
  pose proof (evbuffer_drain_cb b (Z.min n (blen q))) as Hc.
  destruct (evbuffer_drain b _) as [b' nt]. cbn [fst] in Hd, Hc. exists b', nt.
  rewrite wrap32_small by (unfold INT_MIN, INT_MAX in *; lia).
  assert (Ht : take (Z.to_nat (Z.min n (blen q))) q = take (Z.to_nat n) q /\
               drop (Z.to_nat (Z.min n (blen q))) q = drop (Z.to_nat n) q).
  { destruct (Z.le_ge_cases n (blen q)); [by rewrite Z.min_l by lia|].
    rewrite Z.min_r by lia. unfold blen in *.
    by rewrite !take_ge, !drop_ge by lia. }
  destruct Ht as [-> Ht]. rewrite Ht in Hd. done.
Qed.

Lemma read_amount_range b ioctl howmuch :
  0 <= ioctl.2 <= INT_MAX -> howmuch <= INT_MAX -> 0 <= read_amount b ioctl howmuch <= INT_MAX.
Proof.
  destruct ioctl as [res waiting]. cbn [snd]. intros Hw Hh. unfold read_amount, EVBUFFER_MAX_READ.
  pose proof (wrap32_range (size_wrap (Z.shiftl (totallen b) 2))). unfold INT_MAX in *.
  repeat case_match; bool_props;
    repeat match goal with H : (_ || _) = true |- _ => apply orb_true_iff in H as [?|?] end;
    bool_props; lia.
Qed.

(** A read appends what the descriptor delivers, at most the amount asked for. *)
(** The bytes that the call of [read] in [evbuffer_read] hands over: none if
    there is no memory, because [read] is not called then. *)
Definition given_by_read (alloc : Z -> bool) (b : evbuffer) (ioctl : Z * Z) (fd_read : Z -> option (list byte)) (howmuch : Z) : list byte :=
  match evbuffer_expand alloc b (size_wrap (read_amount b ioctl howmuch)) with
  | Ok (_, res) => if res =? -1 then [] else default [] (fd_read (read_amount b ioctl howmuch))
  | UB _ => []
  end.

Lemma evbuffer_read_rep alloc b q ioctl fd_read howmuch :
  alloc_sane alloc -> evrep b q -> 0 <= ioctl.2 <= INT_MAX -> howmuch <= INT_MAX ->
  (forall n bs, 0 <= n -> fd_read n = Some bs -> blen bs <= n) ->
  exists b' res nt, evbuffer_read alloc b ioctl fd_read howmuch = Ok (b', res, nt) /\ cb b' = cb b /\
    (res = -1 /\ evrep b' q /\ nt = None /\ given_by_read alloc b ioctl fd_read howmuch = [] /\
       ((exists l, l <= Z.max 256 (2 * (off b + 2 * read_amount b ioctl howmuch)) /\ alloc l = false) \/ fd_read (read_amount b ioctl howmuch) = None) \/
     exists bs, fd_read (read_amount b ioctl howmuch) = Some bs /\ res = blen bs /\ evrep b' (q ++ bs) /\
       given_by_read alloc b ioctl fd_read howmuch = bs).
Proof.
  intros Hs Hr Hi Hh Hfd. pose proof (read_amount_range b ioctl howmuch Hi Hh) as Ha.
  unfold evbuffer_read, given_by_read. unfold INT_MAX in *.
  rewrite (size_wrap_small (read_amount _ _ _)) by lia.
  destruct (evbuffer_expand_rep alloc b q (read_amount b ioctl howmuch) Hs Hr ltac:(lia))
    as (b1 & res & -> & Hr1 & Hc1 & Hres). rewrite bind_Ok.
  destruct Hres as [[-> Hroom]|[-> (l & [_ Hlm] & Hl)]].
  2:{ exists b1, (-1), None. split_and!; try done. left. split_and!; try done. left. by exists l. }
  cbn [Z.eqb]. destruct (fd_read _) as [bs|] eqn:Ef.
  2:{ exists b1, (-1), None. split_and!; try done. left. split_and!; try done. by right. }
  specialize (Hfd _ _ (proj1 Ha) Ef). pose proof (blen_nonneg bs).
  destruct (evrep_put b1 q bs Hr1 ltac:(lia)) as (b2 & -> & Ho2 & Hc2 & Hr2). rewrite bind_Ok.
  pose proof (evrep_bounds _ _ Hr1) as (B4 & B5 & B6).
  destruct (blen bs =? 0) eqn:E; bool_props.
  - exists b2, 0, None. split_and!; try done; [congruence|]. right. exists bs. split_and!; try done.
    destruct b2. cbn in *. rewrite E, Z.add_0_r in Hr2. by subst.
  - eexists _, _, _. split; [done|]. cbn [cb]. split; [congruence|]. right. exists bs.
    split_and!; try done. rewrite Ho2, size_wrap_small by lia. done.
Qed.

Lemma evbuffer_write_rep b q fd_write :
  evrep b q -> blen q < 2 ^ 63 -> -1 <= fd_write q <= blen q ->
  exists b' nt, evbuffer_write b fd_write = Ok (b', take (Z.to_nat (fd_write q)) q, fd_write q, nt) /\
    evrep b' (drop (Z.to_nat (fd_write q)) q) /\ cb b' = cb b.
Proof.
  intros Hr Hq Hw. unfold evbuffer_write. rewrite (evrep_get_all b q Hr), bind_Ok.
  destruct (fd_write q =? -1) eqn:E1; bool_props; [rewrite E1; by exists b, None|].
  destruct (fd_write q =? 0) eqn:E2; bool_props; [rewrite E2; by exists b, None|].
  rewrite size_wrap_small by lia.
  pose proof (evbuffer_drain_rep b q (fd_write q) Hr ltac:(lia)) as Hd.
  pose proof (evbuffer_drain_cb b (fd_write q)) as Hc.
  destruct (evbuffer_drain b _) as [b' nt]. by exists b', nt.
Qed.

Lemma scan_Some P q i :
  scan P q = Some i ->
  exists l c r, q = l ++ c :: r /\ blen l = i /\ P c = true /\ Forall (fun x => P x = false) l.
Proof.
  revert i. induction q as [|c q IH]; intros i H; [done|]. simpl in H.
  destruct (P c) eqn:E; simplify_eq; [by exists [], c, q|].
  destruct (scan P q) as [j|]; simplify_eq/=.
  destruct (IH j eq_refl) as (l & c' & r & -> & Hl & HP & HF).
  exists (c :: l), c', r. split_and!; try done; [rewrite blen_cons; lia|by constructor].
Qed.

Lemma scan_None P q : scan P q = None -> Forall (fun x => P x = false) q.
Proof.
  induction q as [|c q IH]; intros H; [constructor|]. simpl in H.
  destruct (P c) eqn:E; [done|]. destruct (scan P q); [done|]. constructor; auto.
Qed.

(** The line at the front and what follows its end-of-line mark, one byte or
    two different ones. *)
Fixpoint cut_line (q : list byte) : option (list byte * list byte) :=
  match q with
  | [] => None
  | c :: r =>
      if is_eol c
      then Some ([], match r with
                     | c2 :: r2 => if is_eol c2 && negb (bool_decide (c2 = c)) then r2 else r
                     | [] => []
                     end)
      else '(line, rest) ← cut_line r; Some (c :: line, rest)
  end.

Lemma cut_line_none q : Forall (fun x => is_eol x = false) q -> cut_line q = None.
Proof. induction 1 as [|c q Hc _ IH]; [done|]. simpl. by rewrite Hc, IH. Qed.

Lemma cut_line_app l q :
  Forall (fun x => is_eol x = false) l ->
  cut_line (l ++ q) = '(line, rest) ← cut_line q; Some (l ++ line, rest).
Proof.
  induction 1 as [|c l Hc _ IH]; simpl; [by destruct (cut_line q) as [[]|]|].
  rewrite Hc, IH. by destruct (cut_line q) as [[]|].
Qed.

Lemma line_block l :
  exists m, write_cells (replicate (Z.to_nat (blen l + 1)) None) 0 (Some <$> l) = Ok m /\
    write_cells m (blen l) [Some (u8 0)] = Ok (Some <$> l ++ [u8 0]).
Proof.
  assert (replicate (Z.to_nat (blen l + 1)) None = replicate (length l) (@None byte) ++ [None]) as ->.
  { unfold blen. replace (Z.to_nat _) with (length l + 1)%nat by lia. by rewrite replicate_add. }
  eexists. split; [by rewrite write_cells_front by (by rewrite length_fmap, length_replicate)|].
  rewrite <- (blen_fmap Some l), <- (app_nil_r [None]).
  rewrite (write_cells_mid (Some <$> l) [None] [Some (u8 0)] []) by done.
  by rewrite app_nil_r, fmap_app.
Qed.

Lemma evbuffer_readline_rep b q :
  evrep b q -> blen q < 2 ^ 32 ->
  match cut_line q with
  | None => evbuffer_readline true b = Ok (b, None, None)
  | Some (line, rest) =>
      exists b' nt, evbuffer_readline true b = Ok (b', Some (line ++ [u8 0]), nt) /\
        evrep b' rest /\ cb b' = cb b
  end.
Proof.
  intros Hr Hq. pose proof (evrep_off _ _ Hr) as Ho. unfold evbuffer_readline.
  rewrite (evrep_get_all b q Hr), bind_Ok. destruct (scan is_eol q) as [i|] eqn:Es.
  2:{ apply scan_None in Es. rewrite cut_line_none by done. rewrite Ho. by zdecide. }
  destruct (scan_Some _ _ _ Es) as (l & c & r & -> & Hl & Hc & HF).
  pose proof (blen_nonneg l). pose proof (blen_nonneg r). rewrite blen_app, blen_cons in *.
  rewrite cut_line_app by done. simpl cut_line. rewrite Hc. cbn [mbind option_bind].
  rewrite <- Hl. cbn [negb]. unfold require, malloc. rewrite (uwrap32_small (blen l + 1)) by lia.
  rewrite Ho. rewrite (proj2 (Z.ltb_lt (blen l) (2 ^ 32))) by lia.
  rewrite (proj2 (Z.leb_le 0 (blen l + 1))) by lia.
  rewrite !bind_Ok. cbn [of_option andb]. rewrite bind_Ok, take_blen_app.
  destruct (line_block l) as (m & -> & Hm). rewrite bind_Ok, Hm, bind_Ok, mapM_id_Some.
  cbn [of_option]. rewrite bind_Ok.
  assert (Hi : (l ++ c :: r) !! Z.to_nat (blen l) = Some c).
  { unfold blen. by rewrite Nat2Z.id, list_lookup_middle. }
  assert (Hj : (l ++ c :: r) !! Z.to_nat (blen l + 1) = r !! 0%nat).
  { unfold blen. rewrite lookup_app_r by lia.
    by replace (Z.to_nat (Z.of_nat (length l) + 1) - length l)%nat with 1%nat by lia. }
  rewrite Hi, Hj. clear Hi Hj Hm m.
  assert (Hdrain : forall k rest, 0 <= k -> drop (Z.to_nat k) (l ++ c :: r) = rest ->
    exists b' nt, (let '(b', n) := evbuffer_drain b k in Ok (b', Some (l ++ [u8 0]), n)) =
      Ok (b', Some (l ++ [u8 0]), nt) /\ evrep b' rest /\ cb b' = cb b).
  { intros k rest Hk <-. pose proof (evbuffer_drain_rep b _ k Hr Hk) as Hd.
    pose proof (evbuffer_drain_cb b k) as Hcb. destruct (evbuffer_drain b k) as [b' nt].
    by exists b', nt. }
  assert (Hdrop : forall k, drop (Z.to_nat (blen l + 1 + Z.of_nat k)) (l ++ c :: r) = drop k r).
  { intros k. unfold blen. rewrite drop_app_ge by lia.
    by replace (Z.to_nat _ - length l)%nat with (S k) by lia. }
  rewrite app_nil_r. destruct r as [|c2 r]; cbn [lookup list_lookup].
  - rewrite (uwrap32_small (blen l + 1)) by lia. apply Hdrain; [lia|].
    specialize (Hdrop 0%nat). by rewrite Z.add_0_r in Hdrop.
  - rewrite blen_cons in *. pose proof (blen_nonneg r).
    rewrite (proj2 (Z.ltb_lt (blen l) _)) by lia. cbn [andb].
    destruct (is_eol c2 && negb (bool_decide (c2 = c))).
    + rewrite (uwrap32_small (blen l + 1 + 1)) by lia.
      apply Hdrain; [lia|]. exact (Hdrop 1%nat).
    + rewrite (uwrap32_small (blen l + 1)) by lia. apply Hdrain; [lia|].
      specialize (Hdrop 0%nat). by rewrite Z.add_0_r in Hdrop.
Qed.

(** * Searching *)

(** The first position at which [what] occurs. *)
Fixpoint find_first (q what : list byte) : option Z :=
  if bool_decide (take (length what) q = what) then Some 0
  else match q with [] => None | _ :: r => Z.succ <$> find_first r what end.

Lemma find_first_short q what : (length q < length what)%nat -> find_first q what = None.
Proof.
  induction q as [|c q IH]; intros Hl; cbn [find_first];
    rewrite bool_decide_eq_false_2 by (intros Ht; apply (f_equal length) in Ht;
      rewrite length_take in Ht; simpl in *; lia); [done|].
  by rewrite IH by (simpl in Hl; lia).
Qed.

Lemma find_first_skip l q c w :
  Forall (fun x => bool_decide (x = c) = false) l ->
  find_first (l ++ q) (c :: w) = Z.add (blen l) <$> find_first q (c :: w).
Proof.
  induction 1 as [|x l Hx _ IH].
  - rewrite blen_nil. simpl app. by destruct (find_first q _).
  - cbn [app find_first]. apply bool_decide_eq_false in Hx.
    rewrite bool_decide_eq_false_2 by (simpl; congruence). rewrite IH, blen_cons.
    destruct (find_first q _); simpl; [|done]. f_equal. lia.
Qed.

Lemma find_first_absent q c w :
  Forall (fun x => bool_decide (x = c) = false) q -> find_first q (c :: w) = None.
Proof. intros HF. rewrite <- (app_nil_r q), find_first_skip by done. done. Qed.

Lemma find_loop_spec c w q fuel : forall s r,
  q = s ++ r -> (length r < fuel)%nat ->
  find_loop fuel q (c :: w) (blen (c :: w)) (blen s) = Ok (Z.add (blen s) <$> find_first r (c :: w)).
Proof.
  induction fuel as [|fuel IH]; intros s r Hq Hf; [lia|].
  cbn [find_loop]. pose proof (blen_nonneg s). pose proof (blen_nonneg r).
  assert (Hbq : blen q = blen s + blen r) by (by rewrite Hq, blen_app).
  assert (Hds : drop (Z.to_nat (blen s)) q = r) by (rewrite Hq; apply drop_blen_app).
  rewrite Hds, Hbq. destruct (blen s <? blen s + blen r) eqn:E; bool_props.
  2:{ assert (r = []) as -> by (apply blen_nil_inv; lia). done. }
  cbn [lookup list_lookup of_option]. rewrite bind_Ok.
  destruct (scan _ r) as [k|] eqn:Es.
  2:{ by rewrite find_first_absent by (by apply scan_None in Es). }
  destruct (scan_Some _ _ _ Es) as (l & c' & r' & -> & <- & Hc & HF).
  apply bool_decide_eq_true in Hc as ->.
  rewrite find_first_skip by done. autorewrite with blen in *.
  pose proof (blen_nonneg l). pose proof (blen_nonneg r'). pose proof (blen_nonneg w).
  rewrite Z.gtb_ltb. destruct (_ <? blen s + blen l + (1 + blen w)) eqn:E2; bool_props.
  { rewrite find_first_short by (simpl; unfold blen in *; lia). done. }
  rewrite read_cells_ok by (rewrite ?blen_cons; lia). rewrite bind_Ok.
  change (Z.to_nat 0) with 0%nat. rewrite drop_0.
  assert (Hlen : Z.to_nat (1 + blen w) = length (c :: w)) by (unfold blen; simpl; lia).
  rewrite Hlen, firstn_all.
  assert (Hdp : drop (Z.to_nat (blen s + blen l)) q = c :: r').
  { rewrite Hq, <- blen_app, app_assoc. apply drop_blen_app. }
  rewrite Hdp. destruct (bool_decide (take _ (c :: r') = c :: w)) eqn:Em.
  - assert (find_first (c :: r') (c :: w) = Some 0) as -> by (cbn [find_first]; by rewrite Em).
    simpl. do 2 f_equal. lia.
  - assert (find_first (c :: r') (c :: w) = Z.succ <$> find_first r' (c :: w)) as ->
      by (cbn [find_first]; by rewrite Em).
    specialize (IH (s ++ l ++ [c]) r'). autorewrite with blen in IH.
    replace (blen s + blen l + 1) with (blen s + (blen l + (1 + 0))) by lia. rewrite IH.
    + destruct (find_first r' _); simpl; [|done]. do 2 f_equal. lia.
    + rewrite Hq, <- !app_assoc. done.
    + rewrite length_app in Hf. simpl in Hf. lia.
Qed.

(** * The buffer as a queue of bytes *)

(** [OpRead] has the answer of the query for waiting bytes, the amount asked
    for and what waits at the descriptor ([None]: an error); [OpWrite] the most
    the descriptor takes ([-1]: an error). *)
Inductive ev_op : Type :=
| OpAdd (data : list byte)
| OpDrain (n : Z)
| OpRemove (n : Z)
| OpRead (ioctl : Z * Z) (howmuch : Z) (avail : option (list byte))
| OpWrite (n : Z)
| OpReadline
| OpFind (what : list byte).

Inductive ev_obs : Type :=
| Ret (n : Z)
| Data (n : Z) (bs : list byte)
| Line (l : option (list byte))
| Pos (p : option Z).

Definition op_run (alloc : Z -> bool) (b : evbuffer) (o : ev_op) : cres (evbuffer * ev_obs) :=
  match o with
  | OpAdd data => '(b, res, _) ← evbuffer_add alloc b data (blen data); Ok (b, Ret res)
  | OpDrain n => Ok ((evbuffer_drain b n).1, Ret 0)
  | OpRemove n => '(b, data, res, _) ← evbuffer_remove b n; Ok (b, Data res data)
  | OpRead ioctl howmuch avail =>
      '(b, res, _) ← evbuffer_read alloc b ioctl (fun n => take (Z.to_nat n) <$> avail) howmuch;
      Ok (b, Ret res)
  | OpWrite n =>
      '(b, data, res, _) ← evbuffer_write b (fun q => Z.min n (blen q)); Ok (b, Data res data)
  | OpReadline => '(b, line, _) ← evbuffer_readline true b; Ok (b, Line line)
  | OpFind what => p ← evbuffer_find b what (blen what); Ok (b, Pos p)
  end.

Fixpoint ops_run (alloc : Z -> bool) (b : evbuffer) (os : list ev_op) : cres (evbuffer * list ev_obs) :=
  match os with
  | [] => Ok (b, [])
  | o :: os =>
      '(b, x) ← op_run alloc b o;
      '(b, xs) ← ops_run alloc b os;
      Ok (b, x :: xs)
  end.

(** The queue: what each operation may do to the bytes held and report.
    [refused] says that the allocator refuses some request of the sizes asked
    for. *)
Inductive q_step (refused : Prop) (q : list byte) : ev_op -> list byte -> ev_obs -> Prop :=
| QAdd data : q_step refused q (OpAdd data) (q ++ data) (Ret 0)
| QAddRefused data : refused -> q_step refused q (OpAdd data) q (Ret (-1))
| QDrain n : q_step refused q (OpDrain n) (drop (Z.to_nat n) q) (Ret 0)
| QRemove n :
    q_step refused q (OpRemove n) (drop (Z.to_nat n) q) (Data (Z.min n (blen q)) (take (Z.to_nat n) q))
| QRead ioctl howmuch bs rest :
    (bs = [] -> rest = [] \/ howmuch = 0) -> (0 <= howmuch -> blen bs <= howmuch) ->
    q_step refused q (OpRead ioctl howmuch (Some (bs ++ rest))) (q ++ bs) (Ret (blen bs))
| QReadError ioctl howmuch avail :
    refused \/ avail = None -> q_step refused q (OpRead ioctl howmuch avail) q (Ret (-1))
| QWrite n :
    q_step refused q (OpWrite n) (drop (Z.to_nat (Z.min n (blen q))) q)
      (Data (Z.min n (blen q)) (take (Z.to_nat (Z.min n (blen q))) q))
| QReadline :
    q_step refused q OpReadline (default q (snd <$> cut_line q))
      (Line ((fun lr => fst lr ++ [u8 0]) <$> cut_line q))
| QFind what : q_step refused q (OpFind what) q (Pos (find_first q what)).

Inductive q_run (refused : Prop) : list byte -> list ev_op -> list byte -> list ev_obs -> Prop :=
| QNil q : q_run refused q [] q []
| QCons q o q1 x os q2 xs :
    q_step refused q o q1 x -> q_run refused q1 os q2 xs -> q_run refused q (o :: os) q2 (x :: xs).

Definition op_ok (o : ev_op) : bool :=
  match o with
  | OpDrain n | OpRemove n => 0 <=? n
  | OpRead (_, waiting) howmuch _ =>
      (0 <=? waiting) && (waiting <=? INT_MAX) && (howmuch <=? INT_MAX)
  | OpWrite n => -1 <=? n
  | OpFind what => negb (blen what =? 0)
  | OpAdd _ | OpReadline => true
  end.

(** The bytes an operation can add. *)
Definition op_bytes (o : ev_op) : Z :=
  match o with
  | OpAdd data => blen data
  | OpRead _ _ avail => blen (default [] avail)
  | _ => 0
  end.

Definition ops_bytes (os : list ev_op) : Z := foldr (fun o n => op_bytes o + n) 0 os.

Lemma op_bytes_nonneg o : 0 <= op_bytes o.
Proof. destruct o; simpl; auto with cmodel; lia. Qed.

Lemma ops_bytes_nonneg os : 0 <= ops_bytes os.
Proof. induction os as [|o os IH]; simpl; [lia|]. pose proof (op_bytes_nonneg o). lia. Qed.

Lemma read_amount_pos b ioctl howmuch :
  0 <= ioctl.2 <= INT_MAX ->
  (read_amount b ioctl howmuch = 0 -> howmuch = 0) /\
  (0 <= howmuch -> read_amount b ioctl howmuch <= howmuch).
Proof.
  destruct ioctl as [res waiting]. cbn [snd]. intros Hw. unfold read_amount, EVBUFFER_MAX_READ.
  repeat case_match; bool_props;
    repeat match goal with H : (_ || _) = true |- _ => apply orb_true_iff in H as [?|?] end;
    bool_props; lia.
Qed.

Section Refinement.
Context (alloc : Z -> bool) (Hsane : alloc_sane alloc).
Implicit Types (b : evbuffer) (q : list byte).

(** A request of up to 16 GiB is refused. *)
Definition refuses : Prop := exists l, l <= 2 ^ 34 /\ alloc l = false.

(** One operation of the code is one step of the queue. *)
Definition op_sim b q (o : ev_op) : Prop :=
  exists b' x q', op_run alloc b o = Ok (b', x) /\ evrep b' q' /\ q_step refuses q o q' x.

Lemma add_sim b q data : evrep b q -> blen q <= INT_MAX -> blen data <= INT_MAX -> op_sim b q (OpAdd data).
Proof.
  intros Hr Hq Hd. pose proof (evrep_off _ _ Hr) as Ho. unfold op_sim, op_run, INT_MAX in *.
  destruct (evbuffer_add_rep alloc b q data Hsane Hr) as (b' & res & nt & -> & _ & Hres); [lia|].
  rewrite bind_Ok. destruct Hres as [[-> Hr']|(-> & Hr' & _ & l & [_ Hlm] & Hl)].
  - exists b', (Ret 0), (q ++ data). split_and!; try done. constructor.
  - exists b', (Ret (-1)), q. split_and!; try done. constructor. exists l. split; [lia|done].
Qed.

Lemma read_sim b q ioctl howmuch avail :
  evrep b q -> blen q <= INT_MAX -> op_ok (OpRead ioctl howmuch avail) = true -> op_sim b q (OpRead ioctl howmuch avail).
Proof.
  intros Hr Hq Hok. pose proof (evrep_off _ _ Hr) as Ho. unfold op_sim, op_run. destruct ioctl as [res waiting]. simpl in Hok. bool_props.
  set (fd := fun n => take (Z.to_nat n) <$> avail).
  assert (Hfd : forall n bs, 0 <= n -> fd n = Some bs -> blen bs <= n).
  { intros n bs Hn H'. unfold fd in H'. destruct avail; simplify_eq/=. unfold blen.
    rewrite length_take. lia. }
  destruct (evbuffer_read_rep alloc b q (res, waiting) fd howmuch) as (b' & n & nt & -> & _ & Hres);
    try done. rewrite bind_Ok.
  destruct Hres as [(-> & Hr' & _ & _ & Hwhy)|(bs & Hbs & -> & Hr' & _)].
  - exists b', (Ret (-1)), q. split_and!; try done. constructor.
    destruct Hwhy as [(l & Hlm & Hl)|Hn].
    { left. exists l. split; [|done].
      destruct (read_amount_range b (res, waiting) howmuch) as [_ Ha]; [done|done|].
      unfold INT_MAX in *. lia. }
    right. unfold fd in Hn. by destruct avail.
  - exists b', (Ret (blen bs)), (q ++ bs). split_and!; try done.
    destruct (read_amount_range b (res, waiting) howmuch) as [Ha _]; [done|done|].
    pose proof (Hfd _ _ Ha Hbs) as Hle.
    destruct (read_amount_pos b (res, waiting) howmuch) as [Hz Hm]; [done|].
    generalize dependent (read_amount b (res, waiting) howmuch). intros amount Hbs Ha Hle Hz Hm.
    unfold fd in Hbs. destruct avail as [av|]; simplify_eq/=.
    remember (Z.to_nat amount) as k eqn:Hk.
    rewrite <- (take_drop k av) at 1. constructor; [|lia].
    intros Hnil. destruct av as [|a av]; [left; by rewrite drop_nil|]. right. apply Hz.
    destruct k; [lia|done].
Qed.

Lemma readline_sim b q : evrep b q -> blen q <= INT_MAX -> op_sim b q OpReadline.
Proof.
  intros Hr Hq. unfold op_sim, op_run.
  pose proof (evbuffer_readline_rep b q Hr ltac:(unfold INT_MAX in *; lia)) as Hl.
  pose proof (QReadline refuses q) as HQ. destruct (cut_line q) as [[line rest]|].
  - destruct Hl as (b' & nt & -> & Hr' & _). by exists b', (Line (Some (line ++ [u8 0]))), rest.
  - rewrite Hl. by exists b, (Line None), q.
Qed.

Lemma op_refines_step b q o :
  evrep b q -> op_ok o = true -> blen q + op_bytes o <= INT_MAX -> op_sim b q o.
Proof.
  intros Hr Hok Hb. pose proof (blen_nonneg q).
  destruct o as [data|n|n|ioctl howmuch avail|n| |what]; simpl in Hb.
  - pose proof (blen_nonneg data). apply add_sim; [done|lia|lia].
  - exists (evbuffer_drain b n).1, (Ret 0), (drop (Z.to_nat n) q). simpl in Hok. bool_props.
    split_and!; [done| |constructor]. by apply evbuffer_drain_rep.
  - simpl in Hok. bool_props.
    destruct (evbuffer_remove_rep b q n Hr Hok ltac:(lia)) as (b' & nt & He & Hr' & _).
    unfold op_sim, op_run. rewrite He. eexists b', _, _. split_and!; [done|done|constructor].
  - apply read_sim; [done| |done]. pose proof (blen_nonneg (default [] avail)). lia.
  - simpl in Hok. bool_props. unfold INT_MAX in *.
    destruct (evbuffer_write_rep b q (fun q => Z.min n (blen q)) Hr ltac:(lia) ltac:(lia))
      as (b' & nt & He & Hr' & _).
    unfold op_sim, op_run. rewrite He. eexists b', _, _. split_and!; [done|done|constructor].
  - apply readline_sim; [done|lia].
  - unfold op_sim, op_run, evbuffer_find. rewrite (evrep_get_all b q Hr), bind_Ok.
    destruct what as [|c w]; [done|].
    pose proof (find_loop_spec c w q (S (length q)) [] q eq_refl ltac:(lia)) as Hf.
    rewrite blen_nil in Hf. rewrite Hf, bind_Ok.
    exists b, (Pos (find_first q (c :: w))), q. split_and!; [|done|constructor].
    by destruct (find_first q (c :: w)).
Qed.

Lemma q_step_bytes q o q' x : q_step refuses q o q' x -> blen q' <= blen q + op_bytes o.
Proof.
  pose proof (op_bytes_nonneg o).
  assert (Hd : forall n, blen (drop n q) <= blen q) by (intros n; unfold blen; rewrite length_drop; lia).
  intros Hs. destruct Hs; simpl in *; rewrite ?blen_app; try lia; try (specialize (Hd (Z.to_nat n)); lia).
  - pose proof (blen_nonneg rest). lia.
  - specialize (Hd (Z.to_nat (Z.min n (blen q)))). lia.
  - enough (forall l r, cut_line q = Some (l, r) -> blen r <= blen q).
    { destruct (cut_line q) as [[l r]|] eqn:E; simpl; [|lia]. specialize (H0 _ _ eq_refl). lia. }
    clear. induction q as [|c q IH]; intros l r E; [done|]. cbn [cut_line] in E. rewrite blen_cons.
    destruct (is_eol c).
    + simplify_eq. destruct q as [|c2 q]; [unfold blen; simpl; lia|].
      rewrite blen_cons. case_match; rewrite ?blen_cons; lia.
    + destruct (cut_line q) as [[l' r']|]; simplify_eq/=. specialize (IH _ _ eq_refl). lia.
Qed.

Lemma ops_refine os : forall b q,
  evrep b q -> forallb op_ok os = true -> blen q + ops_bytes os <= INT_MAX ->
  exists b' xs q', ops_run alloc b os = Ok (b', xs) /\ evrep b' q' /\ q_run refuses q os q' xs.
Proof.
  induction os as [|o os IH]; intros b q Hr Hok Hb.
  - exists b, [], q. split_and!; [done|done|constructor].
  - simpl in Hok, Hb. bool_props. pose proof (ops_bytes_nonneg os).
    destruct (op_refines_step b q o Hr) as (b1 & x & q1 & He & Hr1 & Hs); [done|lia|].
    pose proof (q_step_bytes _ _ _ _ Hs).
    destruct (IH b1 q1 Hr1) as (b2 & xs & q2 & He2 & Hr2 & Hs2); [done|lia|].
    exists b2, (x :: xs), q2. cbn [ops_run]. rewrite He, bind_Ok, He2, bind_Ok.
    split_and!; [done|done|]. by econstructor.
Qed.
End Refinement.

(** * The properties *)

(** C14: an event buffer is a queue of bytes. From an empty buffer, any sequence
    of add, drain, remove, read, write, readline and find (with less than 2 GiB
    added in all) runs without a fault whatever the allocator answers, and each
    result is the one of the queue; data is refused only where the allocator
    refuses a request of at most 16 GiB. *)
Theorem evbuffer_refines_queue (alloc : Z -> bool) (b0 : evbuffer) (os : list ev_op) :
  alloc_sane alloc -> evbuffer_new true = Some b0 -> forallb op_ok os = true ->
  ops_bytes os <= INT_MAX ->
  exists b xs q, ops_run alloc b0 os = Ok (b, xs) /\ evrep b q /\ q_run (refuses alloc) [] os q xs.
Proof.
  intros Hs Hn Hok Hb. apply evrep_new in Hn as [Hr _].
  destruct (ops_refine alloc Hs os b0 [] Hr Hok Hb) as (b & xs & q & ?). by exists b, xs, q.
Qed.

Definition demo_alloc (n : Z) : bool := n <=? 4096.

Definition demo_ops : list ev_op :=
  [OpAdd (zbytes [72; 105; 13; 10; 66]); OpReadline; OpRead (0, 3) (-1) (Some (zbytes [7; 8; 9]));
   OpFind (zbytes [8; 9]); OpWrite 2; OpRemove 5].

Lemma demo_alloc_sane : alloc_sane demo_alloc.
Proof. intros n Hn. apply Z.leb_le in Hn. unfold PTRDIFF_MAX. lia. Qed.

Lemma evbuffer_refines_queue_witness :
  exists b xs q, ops_run demo_alloc (mkEvbuffer None 0 0 0 0 None) demo_ops = Ok (b, xs) /\
    evrep b q /\ q_run (refuses demo_alloc) [] demo_ops q xs.
Proof.
  apply evbuffer_refines_queue; [apply demo_alloc_sane|reflexivity|reflexivity|vm_compute; discriminate].
Defined.

(** Evaluated: a line, the position of a byte string and the rest. *)
Example demo_ops_run :
  ('(_, xs) ← ops_run demo_alloc (mkEvbuffer None 0 0 0 0 None) demo_ops; Ok xs) =
  Ok [Ret 0; Line (Some (zbytes [72; 105; 0])); Ret 3; Pos (Some 2); Data 2 (zbytes [66; 7]);
      Data 2 (zbytes [8; 9])].
Proof. vm_compute. reflexivity. Qed.

Lemma find_first_Some q what p :
  find_first q what = Some p ->
  exists pre post, q = pre ++ what ++ post /\ blen pre = p /\
    forall pre' post', q = pre' ++ what ++ post' -> p <= blen pre'.
Proof.
  assert (Hhead : forall l, take (length what) l = what ->
    exists pre post, l = pre ++ what ++ post /\ blen pre = 0 /\
      forall pre' post', l = pre' ++ what ++ post' -> 0 <= blen pre').
  { intros l Ht. exists [], (drop (length what) l). simpl. rewrite <- Ht at 1.
    rewrite take_drop. split_and!; auto with cmodel. }
  revert p. induction q as [|c q IH]; intros p; cbn [find_first];
    (case_bool_decide as Ht; [intros [= <-]; by apply Hhead|]); [done|].
  destruct (find_first q what) as [p'|]; intros [= <-].
  destruct (IH p' eq_refl) as (pre & post & Hq & <- & Hmin). exists (c :: pre), post.
  split_and!; [by rewrite Hq|rewrite blen_cons; lia|]. intros [|c' pre'] post' Heq.
  - destruct Ht. simpl in Heq. by rewrite Heq, take_app_length.
  - injection Heq as _ Heq. specialize (Hmin pre' post' Heq). rewrite blen_cons. lia.
Qed.

Lemma find_first_None q what :
  find_first q what = None -> forall pre' post', q <> pre' ++ what ++ post'.
Proof.
  induction q as [|c q IH]; cbn [find_first]; case_bool_decide as Ht; try done.
  - intros _ pre' post' Heq. symmetry in Heq. apply app_nil in Heq as [_ [-> _]%app_nil]. done.
  - destruct (find_first q what); [done|]. intros _ [|c' pre'] post' Heq.
    + destruct Ht. simpl in Heq. rewrite Heq. by rewrite take_app_length.
    + simplify_eq/=. by eapply IH.
Qed.

(** C38: [evbuffer_find] returns the first position at which the searched bytes
    occur in the data held, and the null pointer when they do not occur. *)
Theorem evbuffer_find_first (b : evbuffer) (q what : list byte) :
  evrep b q -> what <> [] ->
  match evbuffer_find b what (blen what) with
  | Ok (Some p) => exists pre post, q = pre ++ what ++ post /\ blen pre = p /\
                     forall pre' post', q = pre' ++ what ++ post' -> p <= blen pre'
  | Ok None => forall pre' post', q <> pre' ++ what ++ post'
  | UB _ => False
  end.
Proof.
  intros Hr Hw. unfold evbuffer_find. rewrite (evrep_get_all b q Hr), bind_Ok.
  destruct what as [|c w]; [done|].
  pose proof (find_loop_spec c w q (S (length q)) [] q eq_refl ltac:(lia)) as Hf.
  rewrite blen_nil in Hf. rewrite Hf. destruct (find_first q (c :: w)) as [p|] eqn:E.
  - by apply find_first_Some in E.
  - cbn [fmap option_fmap option_map]. by apply find_first_None.
Qed.

Lemma evbuffer_find_first_witness :
  match evbuffer_find (mkEvbuffer (Some (Some <$> zbytes (replicate 256 7))) 250 250 256 6 None)
          (zbytes [7; 7]) 2 with
  | Ok (Some p) => exists pre post, zbytes (replicate 6 7) = pre ++ zbytes [7; 7] ++ post /\ blen pre = p /\
                     forall pre' post', zbytes (replicate 6 7) = pre' ++ zbytes [7; 7] ++ post' -> p <= blen pre'
  | Ok None => forall pre' post', zbytes (replicate 6 7) <> pre' ++ zbytes [7; 7] ++ post'
  | UB _ => False
  end.
Proof.
  apply (evbuffer_find_first _ (zbytes (replicate 6 7)) (zbytes [7; 7])); [|discriminate].
  exists (Some <$> zbytes (replicate 250 7)), [].
  split_and!; try reflexivity. right. exists 8. split; [lia|reflexivity].
Defined.

(** The size arithmetic of [evbuffer_expand] is not protected. A request
    that brings the need above [2^63] doubles the length until it wraps to zero,
    from where it doubles for ever: no number of rounds ends the loop. *)
Theorem evbuffer_expand_never_returns (fuel : nat) (b : evbuffer) (q : list byte) (datlen : Z) :
  evrep b q -> datlen < 2 ^ 64 - misalign b - off b -> 2 ^ 63 < misalign b + off b + datlen ->
  expand_length fuel (if totallen b <? 256 then 256 else totallen b)
    (size_wrap (misalign b + off b + datlen)) = UB Diverges /\
  (forall alloc, evbuffer_expand alloc b datlen = UB Diverges).
Proof.
  intros Hr Hd Hn. pose proof (evrep_bounds _ _ Hr) as (B1 & B2 & B3).
  rewrite size_wrap_small by lia.
  assert (Hx : forall f, expand_length f (if totallen b <? 256 then 256 else totallen b)
                 (misalign b + off b + datlen) = UB Diverges).
  { intros f. destruct Hr as (? & ? & _ & _ & _ & _ & _ & [Ht|(k & Hk & Ht)]); rewrite Ht.
    - apply (expand_length_diverges f 8); lia.
    - rewrite (proj2 (Z.ltb_ge _ _)); [apply expand_length_diverges; lia|].
      apply (Z.pow_le_mono_r 2 8 k); lia. }
  split; [apply Hx|]. intros alloc. unfold evbuffer_expand.
  rewrite size_wrap_small by lia. zdecide. by rewrite Hx.
Qed.

Lemma evbuffer_expand_never_returns_witness :
  expand_length 1000 256 (2 ^ 63 + 1) = UB Diverges.
Proof.
  apply (evbuffer_expand_never_returns 1000 (mkEvbuffer None 0 0 0 0 None) [] (2 ^ 63 + 1));
    [|simpl; lia|simpl; lia].
  apply evrep_new. reflexivity.
Defined.
