(* ===== verification/BufferEvent.v ===== *)
(** Buffered events (socket/3rd/libevent-1.4.12-stable/evbuffer.c, [struct
    bufferevent] of event.h): a descriptor with an input and an output buffer,
    filled and drained by the event loop, with water marks that stop and resume
    reading. The socket layer keeps one per connection. *)
From S2P Require Import Prelude EvBuffer.

(** * The code *)

Definition EV_TIMEOUT : Z := 1.
Definition EV_READ : Z := 2.
Definition EV_WRITE : Z := 4.

Definition EVBUFFER_READ : Z := 1.
Definition EVBUFFER_WRITE : Z := 2.
Definition EVBUFFER_EOF : Z := 16.
Definition EVBUFFER_ERROR : Z := 32.
Definition EVBUFFER_TIMEOUT : Z := 64.

(** [ev_read] and [ev_write] are events of the descriptor [ev_fd]; [pending]
    says that the event is added. The callbacks of this struct are those given
    to [bufferevent_new], [None] where the pointer is null, each called with
    [cbarg]; [errorcb] is never null. *)
Record bufferevent := mkBufferevent {
  ev_fd : Z;
  ev_read_pending : bool;
  ev_write_pending : bool;
  input : evbuffer;
  output : evbuffer;
  wm_read : Z * Z;
  wm_write : Z * Z;
  readcb : bool;
  writecb : bool;
  cbarg : Z;
  timeout_read : Z;
  timeout_write : Z;
  enabled : Z
}.

(** The call of a user callback that ends an operation. *)
Inductive action : Type :=
| NoCall
| CallRead
| CallWrite
| CallError (what : Z).

#[export] Instance action_eq_dec : EqDecision action.
Proof. solve_decision. Defined.

Definition has_flag (set flag : Z) : bool := negb (Z.land set flag =? 0).

Definition set_read (e : bufferevent) (p : bool) : bufferevent :=
  mkBufferevent (ev_fd e) p (ev_write_pending e) (input e) (output e) (wm_read e) (wm_write e)
    (readcb e) (writecb e) (cbarg e) (timeout_read e) (timeout_write e) (enabled e).
Definition set_write (e : bufferevent) (p : bool) : bufferevent :=
  mkBufferevent (ev_fd e) (ev_read_pending e) p (input e) (output e) (wm_read e) (wm_write e)
    (readcb e) (writecb e) (cbarg e) (timeout_read e) (timeout_write e) (enabled e).
Definition set_input (e : bufferevent) (b : evbuffer) : bufferevent :=
  mkBufferevent (ev_fd e) (ev_read_pending e) (ev_write_pending e) b (output e) (wm_read e)
    (wm_write e) (readcb e) (writecb e) (cbarg e) (timeout_read e) (timeout_write e) (enabled e).
Definition set_output (e : bufferevent) (b : evbuffer) : bufferevent :=
  mkBufferevent (ev_fd e) (ev_read_pending e) (ev_write_pending e) (input e) b (wm_read e)
    (wm_write e) (readcb e) (writecb e) (cbarg e) (timeout_read e) (timeout_write e) (enabled e).
Definition set_enabled (e : bufferevent) (n : Z) : bufferevent :=
  mkBufferevent (ev_fd e) (ev_read_pending e) (ev_write_pending e) (input e) (output e) (wm_read e)
    (wm_write e) (readcb e) (writecb e) (cbarg e) (timeout_read e) (timeout_write e) n.

(** [bufferevent_add(&bufev->ev_read, ...)] and the same for [ev_write]: [ok] is
    the answer of the event mechanism for an event that is not added yet. *)
Definition bufferevent_add_read (ok : bool) (e : bufferevent) : bufferevent * Z :=
  if ev_read_pending e || ok then (set_read e true, 0) else (e, -1).
Definition bufferevent_add_write (ok : bool) (e : bufferevent) : bufferevent * Z :=
  if ev_write_pending e || ok then (set_write e true, 0) else (e, -1).

(** The argument under which [bufferevent_read_pressure_cb] is installed on the
    input buffer. *)
Definition PRESSURE : Z := 0.

Definition bufferevent_read_pressure_cb (ok : bool) (e : bufferevent) (now : Z) : bufferevent :=
  let '(low, high) := wm_read e in
  if (high =? 0) || (now <? high) then
    let e := set_input e (evbuffer_setcb (input e) None) in
    if has_flag (enabled e) EV_READ then (bufferevent_add_read ok e).1 else e
  else e.

(** A change of the input buffer reported through its callback. *)
Definition input_changed (ok : bool) (e : bufferevent) (nt : option note) : bufferevent :=
  match nt with Some n => bufferevent_read_pressure_cb ok e (note_now n) | None => e end.

(** What the read system call answers: [errno] says whether to try again. *)
Record fd_input := mkFdInput {
  fi_ioctl : Z * Z;
  fi_read : Z -> option (list byte);
  fi_again : bool
}.

(** [event_del(&bufev->ev_read)] and the callback that resumes reading. *)
Definition stop_reading (e : bufferevent) : bufferevent :=
  set_input (set_read e false) (evbuffer_setcb (input e) (Some PRESSURE)).

(** [bufferevent_readcb]. The event is not persistent, so the loop has taken it
    out before the call. *)
Definition bufferevent_readcb (alloc : Z -> bool) (ok : bool) (e : bufferevent) (event : Z)
    (fd : fd_input) : cres (bufferevent * action) :=
  if event =? EV_TIMEOUT then Ok (e, CallError (Z.lor EVBUFFER_READ EVBUFFER_TIMEOUT))
  else
    let '(low, high) := wm_read e in
    let howmuch := if high =? 0 then -1 else wrap32 (size_wrap (high - off (input e))) in
    if negb (high =? 0) && (howmuch <=? 0) then Ok (stop_reading e, NoCall)
    else
      '(b, res, nt) ← evbuffer_read alloc (input e) (fi_ioctl fd) (fi_read fd) howmuch;
      let e := input_changed ok (set_input e b) nt in
      if res =? -1 then
        if fi_again fd then Ok ((bufferevent_add_read ok e).1, NoCall)
        else Ok (e, CallError (Z.lor EVBUFFER_READ EVBUFFER_ERROR))
      else if res =? 0 then Ok (e, CallError (Z.lor EVBUFFER_READ EVBUFFER_EOF))
      else
        let e := (bufferevent_add_read ok e).1 in
        let len := off (input e) in
        if negb (low =? 0) && (len <? low) then Ok (e, NoCall)
        else
          let e := if negb (high =? 0) && (len >=? high) then stop_reading e else e in
          Ok (e, if readcb e then CallRead else NoCall).

(** What the write system call answers. *)
Record fd_output := mkFdOutput {
  fo_write : list byte -> Z;
  fo_again : bool
}.

(** [bufferevent_writecb]: the bytes sent are the last component. *)
Definition bufferevent_writecb (ok : bool) (e : bufferevent) (event : Z) (fd : fd_output)
  : cres (bufferevent * action * list byte) :=
  if event =? EV_TIMEOUT then Ok (e, CallError (Z.lor EVBUFFER_WRITE EVBUFFER_TIMEOUT), [])
  else
    '(e, res, sent) ←
      (if negb (off (output e) =? 0) then
         '(b, sent, res, _) ← evbuffer_write (output e) (fo_write fd);
         Ok (set_output e b, res, sent)
       else Ok (e, 1, []));
    if (res =? -1) && fo_again fd then
      Ok (if negb (off (output e) =? 0) then (bufferevent_add_write ok e).1 else e, NoCall, sent)
    else if res =? -1 then Ok (e, CallError (Z.lor EVBUFFER_WRITE EVBUFFER_ERROR), sent)
    else if res =? 0 then Ok (e, CallError (Z.lor EVBUFFER_WRITE EVBUFFER_EOF), sent)
    else
      let e := if negb (off (output e) =? 0) then (bufferevent_add_write ok e).1 else e in
      Ok (e, if writecb e && (off (output e) <=? (wm_write e).1) then CallWrite else NoCall, sent).

(** [bufferevent_new]: [oks] are the answers of the three allocations. *)
Definition bufferevent_new (oks : bool * bool * bool) (fd : Z) (rcb wcb : bool) (arg : Z)
  : option bufferevent :=
  let '(ok1, ok2, ok3) := oks in
  if negb ok1 then None
  else
    i ← evbuffer_new ok2;
    o ← evbuffer_new ok3;
    Some (mkBufferevent fd false false i o (0, 0) (0, 0) rcb wcb arg 0 0 EV_WRITE).

Definition bufferevent_setcb (e : bufferevent) (rcb wcb : bool) (arg : Z) : bufferevent :=
  mkBufferevent (ev_fd e) (ev_read_pending e) (ev_write_pending e) (input e) (output e) (wm_read e)
    (wm_write e) rcb wcb arg (timeout_read e) (timeout_write e) (enabled e).

(** [event_set] on both events: they are no longer added. *)
Definition bufferevent_setfd (e : bufferevent) (fd : Z) : bufferevent :=
  mkBufferevent fd false false (input e) (output e) (wm_read e) (wm_write e) (readcb e) (writecb e)
    (cbarg e) (timeout_read e) (timeout_write e) (enabled e).

Definition bufferevent_write (alloc : Z -> bool) (ok : bool) (e : bufferevent) (data : list byte)
  : cres (bufferevent * Z) :=
  '(b, res, _) ← evbuffer_add alloc (output e) data (blen data);
  let e := set_output e b in
  if res =? -1 then Ok (e, res)
  else Ok (if (blen data >? 0) && has_flag (enabled e) EV_WRITE
           then (bufferevent_add_write ok e).1 else e, res).

(** [bufferevent_write_buffer] drains the source when its data is taken. *)
Definition bufferevent_write_buffer (alloc : Z -> bool) (ok : bool) (e : bufferevent) (buf : evbuffer)
  : cres (bufferevent * evbuffer * Z) :=
  data ← get_bytes buf (buffer buf) (off buf);
  '(e, res) ← bufferevent_write alloc ok e data;
  if negb (res =? -1) then Ok (e, (evbuffer_drain buf (off buf)).1, res) else Ok (e, buf, res).

(** [size_t bufferevent_read(struct bufferevent *bufev, void *data, size_t size)]
    returns the number of bytes it copies. *)
Definition bufferevent_read (ok : bool) (e : bufferevent) (size : Z)
  : cres (bufferevent * list byte) :=
  let size := if off (input e) <? size then off (input e) else size in
  data ← get_bytes (input e) (buffer (input e)) size;
  if size =? 0 then Ok (e, data)
  else
    let '(b, nt) := evbuffer_drain (input e) size in
    Ok (input_changed ok (set_input e b) nt, data).

Definition bufferevent_enable (ok : bool) (e : bufferevent) (event : Z) : bufferevent * Z :=
  let '(e, r1) := if has_flag event EV_READ then bufferevent_add_read ok e else (e, 0) in
  if r1 =? -1 then (e, -1)
  else
    let '(e, r2) := if has_flag event EV_WRITE then bufferevent_add_write ok e else (e, 0) in
    if r2 =? -1 then (e, -1) else (set_enabled e (Z.lor (enabled e) event), 0).

Definition bufferevent_disable (e : bufferevent) (event : Z) : bufferevent * Z :=
  let e := if has_flag event EV_READ then set_read e false else e in
  let e := if has_flag event EV_WRITE then set_write e false else e in
  (set_enabled e (Z.ldiff (enabled e) event), 0).

Definition bufferevent_settimeout (ok : bool) (e : bufferevent) (tr tw : Z) : bufferevent :=
  let e := mkBufferevent (ev_fd e) (ev_read_pending e) (ev_write_pending e) (input e) (output e)
             (wm_read e) (wm_write e) (readcb e) (writecb e) (cbarg e) tr tw (enabled e) in
  let e := if ev_read_pending e then (bufferevent_add_read ok e).1 else e in
  if ev_write_pending e then (bufferevent_add_write ok e).1 else e.

Definition bufferevent_setwatermark (ok : bool) (e : bufferevent) (events lowmark highmark : Z)
  : bufferevent :=
  let e := mkBufferevent (ev_fd e) (ev_read_pending e) (ev_write_pending e) (input e) (output e)
             (if has_flag events EV_READ then (lowmark, highmark) else wm_read e)
             (if has_flag events EV_WRITE then (lowmark, highmark) else wm_write e)
             (readcb e) (writecb e) (cbarg e) (timeout_read e) (timeout_write e) (enabled e) in
  bufferevent_read_pressure_cb ok e (off (input e)).

(** * The event flags *)

Lemma has_flag_testbit n k : 0 <= k -> has_flag n (2 ^ k) = Z.testbit n k.
Proof.
  intros Hk. unfold has_flag. destruct (Z.testbit n k) eqn:E.
  - apply negb_true_iff, Z.eqb_neq. intros H0. apply (f_equal (fun z => Z.testbit z k)) in H0.
    rewrite Z.land_spec, Z.pow2_bits_true, E, Z.bits_0 in H0 by done. done.
  - apply negb_false_iff, Z.eqb_eq. apply Z.bits_inj'. intros i Hi.
    rewrite Z.land_spec, Z.bits_0. destruct (decide (i = k)) as [->|Hne]; [by rewrite E|].
    by rewrite Z.pow2_bits_false, andb_false_r by done.
Qed.

Definition is_flag (f : Z) : Prop := f = EV_READ \/ f = EV_WRITE.

Lemma has_flag_lor a b f : is_flag f -> has_flag (Z.lor a b) f = has_flag a f || has_flag b f.
Proof.
  intros [-> | ->]; [change EV_READ with (2 ^ 1)|change EV_WRITE with (2 ^ 2)];
    rewrite !has_flag_testbit by lia; apply Z.lor_spec.
Qed.

Lemma has_flag_ldiff a b f : is_flag f -> has_flag (Z.ldiff a b) f = has_flag a f && negb (has_flag b f).
Proof.
  intros [-> | ->]; [change EV_READ with (2 ^ 1)|change EV_WRITE with (2 ^ 2)];
    rewrite !has_flag_testbit by lia; apply Z.ldiff_spec.
Qed.

(** * Reading and writing are always resumed *)

(** While reading is enabled, the read event waits, or the input has reached
    the high water mark and its next change resumes reading. *)
Definition reading (e : bufferevent) : Prop :=
  has_flag (enabled e) EV_READ = true ->
  ev_read_pending e = true \/
  cb (input e) = Some PRESSURE /\ (wm_read e).2 <> 0 /\ (wm_read e).2 <= off (input e).

(** While writing is enabled and there is output, the write event waits. *)
Definition writing (e : bufferevent) : Prop :=
  has_flag (enabled e) EV_WRITE = true -> off (output e) <> 0 -> ev_write_pending e = true.

(** The buffers hold [iq] and [oq], and nothing waits without being scheduled. *)
Record bev_inv (e : bufferevent) (iq oq : list byte) : Prop := {
  bi_input : evrep (input e) iq;
  bi_output : evrep (output e) oq;
  bi_wm : 0 <= (wm_read e).2 <= INT_MAX;
  bi_reading : reading e;
  bi_writing : writing e
}.

Lemma add_read_true e : bufferevent_add_read true e = (set_read e true, 0).
Proof. unfold bufferevent_add_read. by rewrite orb_true_r. Qed.

Lemma add_write_true e : bufferevent_add_write true e = (set_write e true, 0).
Proof. unfold bufferevent_add_write. by rewrite orb_true_r. Qed.

(** Reports of the input buffer keep everything but the schedule and the callback. *)
Lemma input_changed_frame ok e nt :
  let e' := input_changed ok e nt in
  ev_fd e' = ev_fd e /\ output e' = output e /\ ev_write_pending e' = ev_write_pending e /\
  wm_read e' = wm_read e /\ wm_write e' = wm_write e /\ enabled e' = enabled e /\ readcb e' = readcb e /\
  cbarg e' = cbarg e /\ off (input e') = off (input e) /\
  forall q, evrep (input e) q -> evrep (input e') q.
Proof.
  unfold input_changed, bufferevent_read_pressure_cb, bufferevent_add_read.
  destruct nt; cbn zeta; [|done].
  repeat case_match; cbn; split_and!; try done; intros; by apply evrep_setcb.
Qed.

(** What a report does to the schedule: below the mark reading resumes. *)
Lemma pressure_reading e :
  reading e \/ cb (input e) = Some PRESSURE ->
  reading (bufferevent_read_pressure_cb true e (off (input e))).
Proof.
  intros H. unfold bufferevent_read_pressure_cb. destruct (wm_read e) as [low high] eqn:Ew.
  destruct ((high =? 0) || _) eqn:E.
  - cbn [enabled set_input]. destruct (has_flag (enabled e) EV_READ) eqn:Ef.
    + rewrite add_read_true. intros _. by left.
    + intros Hf. cbn in Hf. congruence.
  - bool_props. destruct H as [H|H]; [done|]. intros _. right. by rewrite Ew.
Qed.

(** * One operation at a time *)

Lemma evrep_input_changed ok e nt q : evrep (input e) q -> evrep (input (input_changed ok e nt)) q.
Proof. intros H. by apply (input_changed_frame ok e nt). Qed.

Lemma bufferevent_read_inv e iq oq size :
  bev_inv e iq oq -> 0 <= size ->
  exists e', bufferevent_read true e size = Ok (e', take (Z.to_nat size) iq) /\
    bev_inv e' (drop (Z.to_nat size) iq) oq.
Proof.
  intros [Hi Ho Hwm Hrd Hwr] Hs. unfold bufferevent_read.
  pose proof (evrep_off _ _ Hi) as Hoff. pose proof (blen_nonneg iq).
  set (n := if off (input e) <? size then off (input e) else size).
  assert (Hn : 0 <= n <= off (input e)).
  { unfold n. destruct (off (input e) <? size) eqn:E; bool_props; lia. }
  assert (Htd : take (Z.to_nat n) iq = take (Z.to_nat size) iq /\
                drop (Z.to_nat n) iq = drop (Z.to_nat size) iq).
  { unfold n. destruct (off (input e) <? size) eqn:E; bool_props; [|done].
    unfold blen in *. by rewrite !take_ge, !drop_ge by lia. }
  destruct Htd as [<- <-]. rewrite (evrep_get _ _ n Hi Hn), bind_Ok.
  destruct (n =? 0) eqn:E; bool_props.
  { rewrite E. exists e. done. }
  pose proof (evbuffer_drain_rep _ _ n Hi ltac:(lia)) as Hd.
  pose proof (evbuffer_drain_cb (input e) n) as Hc.
  assert (Hnote : (evbuffer_drain (input e) n).2 =
    mkNote (off (input e)) (off (evbuffer_drain (input e) n).1) <$> cb (input e)).
  { unfold evbuffer_drain, notify. destruct (n >=? off (input e)); cbn [fst snd off cb]; by zdecide. }
  destruct (evbuffer_drain (input e) n) as [b nt]. cbn [fst snd] in *.
  eexists. split; [done|].
  destruct (input_changed_frame true (set_input e b) nt) as (_ & Fo & Fw & Fwm & _ & Fe & _ & _ & _ & Fi).
  split.
  - by apply Fi.
  - by rewrite Fo.
  - by rewrite Fwm.
  - subst nt. destruct (cb (input e)) as [a|] eqn:Ecb; cbn [fmap option_fmap option_map input_changed].
    + change (off b) with (off (input (set_input e b))). apply pressure_reading.
      destruct (has_flag (enabled e) EV_READ) eqn:Ef.
      * destruct (Hrd Ef) as [Hp|(Hp & _)]; [left; intros _; by left|]. right. cbn. congruence.
      * left. intros Hf. cbn in Hf. congruence.
    + intros Hf. destruct (Hrd Hf) as [Hp|(Hp & _)]; [by left|congruence].
  - intros Hf. rewrite Fo, Fw, Fe in *. by apply Hwr.
Qed.

Lemma bufferevent_write_inv alloc e iq oq data :
  alloc_sane alloc -> bev_inv e iq oq -> blen data <= 2 ^ 62 ->
  exists e' res, bufferevent_write alloc true e data = Ok (e', res) /\ input e' = input e /\
    (res = 0 /\ bev_inv e' iq (oq ++ data) \/ res = -1 /\ bev_inv e' iq oq /\ exists l, l <= Z.max 256 (2 * (blen oq + 2 * blen data)) /\ alloc l = false).
Proof.
  intros Hs [Hi Ho Hwm Hrd Hwr] Hd. unfold bufferevent_write.
  destruct (evbuffer_add_rep alloc _ _ data Hs Ho Hd) as (b & res & nt & -> & Hc & Hres).
  rewrite bind_Ok. pose proof (blen_nonneg data).
  destruct Hres as [[-> Hr]|(-> & Hr & _ & l & [_ Hlen] & Hl)].
  - change (0 =? -1) with false. cbv iota. rewrite add_write_true. cbn [fst].
    eexists _, 0. split; [done|]. split; [by case_match|]. left. split; [done|].
    destruct ((blen data >? 0) && _) eqn:E; split; try done.
    intros Hf Hne. cbn in *. apply andb_false_iff in E as [E|E]; [|cbn in E; congruence].
    bool_props. assert (data = []) as -> by (apply blen_nil_inv; lia).
    rewrite app_nil_r in Hr. apply Hwr; [done|]. by rewrite (evrep_off _ _ Ho), <- (evrep_off _ _ Hr).
  - change (-1 =? -1) with true. cbv iota. eexists _, (-1). split; [done|]. split; [done|]. right.
    split; [done|]. split; [|exists l; rewrite <- (evrep_off _ _ Ho); by split]. split; try done.
    intros Hf Hne. apply Hwr; [done|]. cbn in Hne. by rewrite (evrep_off _ _ Ho), <- (evrep_off _ _ Hr).
Qed.

Lemma bufferevent_enable_inv e iq oq event :
  bev_inv e iq oq ->
  exists e', bufferevent_enable true e event = (e', 0) /\ bev_inv e' iq oq.
Proof.
  intros [Hi Ho Hwm Hrd Hwr]. unfold bufferevent_enable. rewrite add_read_true.
  destruct (has_flag event EV_READ) eqn:E1; cbn [Z.eqb]; rewrite add_write_true;
    destruct (has_flag event EV_WRITE) eqn:E2; cbn [Z.eqb]; eexists; (split; [reflexivity|]);
    (split; try done; unfold reading, writing in *; cbn [set_enabled enabled set_read set_write
      ev_read_pending ev_write_pending input output wm_read] in *;
     rewrite has_flag_lor by (by (left + right)); rewrite ?E1, ?E2, ?orb_false_r; auto).
Qed.

Lemma bufferevent_disable_inv e iq oq event :
  bev_inv e iq oq -> bev_inv (bufferevent_disable e event).1 iq oq.
Proof.
  intros [Hi Ho Hwm Hrd Hwr]. unfold bufferevent_disable.
  destruct (has_flag event EV_READ) eqn:E1, (has_flag event EV_WRITE) eqn:E2; cbn [fst];
    (split; try done; unfold reading, writing in *; cbn [set_enabled enabled set_read set_write
      ev_read_pending ev_write_pending input output wm_read] in *;
     rewrite has_flag_ldiff by (by (left + right)); rewrite ?E1, ?E2, ?andb_false_r, ?andb_true_r;
     try done; auto).
Qed.

Lemma bufferevent_settimeout_inv e iq oq tr tw :
  bev_inv e iq oq -> bev_inv (bufferevent_settimeout true e tr tw) iq oq.
Proof.
  intros [Hi Ho Hwm Hrd Hwr]. unfold bufferevent_settimeout. rewrite add_read_true, add_write_true.
  cbn [ev_read_pending ev_write_pending]. destruct (ev_read_pending e) eqn:E1;
    cbn [fst set_read ev_write_pending]; destruct (ev_write_pending e) eqn:E2;
    split; try done; unfold reading, writing in *; cbn; rewrite ?E1, ?E2 in *; auto.
Qed.

Lemma bufferevent_setwatermark_inv e iq oq events low high :
  bev_inv e iq oq -> 0 <= high <= INT_MAX ->
  bev_inv (bufferevent_setwatermark true e events low high) iq oq.
Proof.
  intros [Hi Ho Hwm Hrd Hwr] Hh. unfold bufferevent_setwatermark.
  set (e1 := mkBufferevent _ _ _ _ _ _ _ _ _ _ _ _ _).
  assert (Hwm1 : 0 <= (wm_read e1).2 <= INT_MAX) by (unfold e1; cbn; by case_match).
  pose proof (input_changed_frame true e1 (Some (mkNote 0 (off (input e1)) 0)))
    as (_ & Fo & Fw & Fwm & _ & Fe & _ & _ & _ & Fi). cbn [input_changed note_now] in *.
  change (off (input e)) with (off (input e1)). split.
  - by apply Fi.
  - by rewrite Fo.
  - by rewrite Fwm.
  - apply pressure_reading. destruct (has_flag (enabled e) EV_READ) eqn:Ef.
    + destruct (Hrd Ef) as [Hp|(Hp & _)]; [left; intros _; by left|by right].
    + left. intros Hf. cbn in Hf. congruence.
  - intros Hf Hne. rewrite Fo, Fw, Fe in *. by apply Hwr.
Qed.

(** The number of bytes asked for under a high water mark. *)
Lemma howmuch_exact high len :
  0 <= high <= INT_MAX -> 0 <= len <= INT_MAX -> wrap32 (size_wrap (high - len)) = high - len.
Proof.
  intros Hh Hl. unfold size_wrap, wrap32, INT_MAX in *.
  assert (Hm : ((high - len) mod 2 ^ 64 + 2 ^ 31) mod 2 ^ 32 = (high - len + 2 ^ 31) mod 2 ^ 32).
  { rewrite <- Zplus_mod_idemp_l, <- (Zplus_mod_idemp_l (high - len)). f_equal. f_equal.
    apply Z.mod_mod_divide. by exists (2 ^ 32). }
  rewrite Hm, Z.mod_small; lia.
Qed.

(** The descriptor's side of a read: [avail] waits there. *)
Definition from_fd (ioctl : Z * Z) (avail : option (list byte)) (again : bool) : fd_input :=
  mkFdInput ioctl (fun n => take (Z.to_nat n) <$> avail) again.

Lemma stop_reading_inv e iq oq :
  evrep (input e) iq -> evrep (output e) oq -> 0 <= (wm_read e).2 <= INT_MAX -> writing e ->
  (wm_read e).2 <> 0 -> (wm_read e).2 <= blen iq -> bev_inv (stop_reading e) iq oq.
Proof.
  intros Hi Ho Hwm Hwr Hne Hle. split; [by apply evrep_setcb|done|done| |done].
  intros _. right. cbn. rewrite (evrep_off _ _ Hi). done.
Qed.

Lemma scheduled_inv e iq oq :
  evrep (input e) iq -> evrep (output e) oq -> 0 <= (wm_read e).2 <= INT_MAX -> writing e ->
  bev_inv (set_read e true) iq oq.
Proof. intros Hi Ho Hwm Hwr. split; try done. intros _. by left. Qed.

(** The end of [bufferevent_readcb], after data has come in. *)
Lemma readcb_tail_inv e iq oq :
  evrep (input e) iq -> evrep (output e) oq -> 0 <= (wm_read e).2 <= INT_MAX -> writing e ->
  let '(low, high) := wm_read e in
  bev_inv (set_read e true) iq oq /\
  (high <> 0 -> high <= off (input e) -> bev_inv (stop_reading (set_read e true)) iq oq).
Proof.
  intros Hi Ho Hwm Hwr. destruct (wm_read e) as [low high] eqn:Ew. split.
  - apply scheduled_inv; try done. by rewrite Ew.
  - intros Hne Hle. rewrite (evrep_off _ _ Hi) in Hle. apply stop_reading_inv; cbn; rewrite ?Ew; done.
Qed.

(** Reading appends what it takes from the descriptor, never above the high
    water mark, and leaves reading scheduled unless it reports an error. *)
(** The bytes that [read] hands over while the read callback runs: it is called
    once, unless a time-out is reported, the high water mark is reached, or there
    is no memory. *)
Definition given_to_readcb (alloc : Z -> bool) (e : bufferevent) (event : Z) (fd : fd_input) : list byte :=
  if event =? EV_TIMEOUT then []
  else
    let '(low, high) := wm_read e in
    let howmuch := if high =? 0 then -1 else wrap32 (size_wrap (high - off (input e))) in
    if negb (high =? 0) && (howmuch <=? 0) then []
    else given_by_read alloc (input e) (fi_ioctl fd) (fi_read fd) howmuch.

(** What a run of the read callback leaves: [got] was appended to the input, no
    more than the high water mark [high] allows. *)
Definition readcb_post (iq oq : list byte) (high : Z) (got : list byte) (r : cres (bufferevent * action)) : Prop :=
  exists e act, r = Ok (e, act) /\ evrep (input e) (iq ++ got) /\
    (high <> 0 -> blen got <= Z.max 0 (high - blen iq)) /\
    ((forall w, act <> CallError w) -> bev_inv e (iq ++ got) oq).

Lemma readcb_post_same iq oq high e act : evrep (input e) iq ->
  ((forall w, act <> CallError w) -> bev_inv e iq oq) -> readcb_post iq oq high [] (Ok (e, act)).
Proof. intros He Hc. exists e, act. rewrite app_nil_r. split_and!; try done. intros _. change (blen []) with 0. lia. Qed.

Lemma call_error_post {A : Prop} w : (forall w', CallError w <> CallError w') -> A.
Proof. intros Hw. by destruct (Hw w). Qed.

(** The descriptor hands out the front of what is available. *)
Lemma from_fd_bounds (avail : option (list byte)) n bs : 0 <= n -> take (Z.to_nat n) <$> avail = Some bs -> blen bs <= n.
Proof. intros Hn H'. destruct avail; simplify_eq/=. unfold blen. rewrite length_take. lia. Qed.

(** The part of the callback behind [evbuffer_read]. *)
Lemma readcb_after_read e1 iq oq low high again res got :
  wm_read e1 = (low, high) -> 0 <= high <= INT_MAX -> evrep (output e1) oq -> writing e1 ->
  (res = -1 /\ got = [] \/ res = blen got) ->
  evrep (input e1) (iq ++ got) ->
  (high <> 0 -> blen got <= Z.max 0 (high - blen iq)) ->
  readcb_post iq oq high got
    (if res =? -1 then
       if again : bool then Ok (set_read e1 true, NoCall) else Ok (e1, CallError (Z.lor EVBUFFER_READ EVBUFFER_ERROR))
     else if res =? 0 then Ok (e1, CallError (Z.lor EVBUFFER_READ EVBUFFER_EOF))
     else
       let e := set_read e1 true in
       let len := off (input e) in
       if negb (low =? 0) && (len <? low) then Ok (e, NoCall)
       else
         let e := if negb (high =? 0) && (len >=? high) then stop_reading e else e in
         Ok (e, if readcb e then CallRead else NoCall)).
Proof.
  intros Ew Hwm Ho1 Hw1 Hres Fi Hk. assert (Hwm1 : 0 <= (wm_read e1).2 <= INT_MAX) by (by rewrite Ew).
  destruct Hres as [[-> ->]| ->].
  { change (-1 =? -1) with true. cbv iota. rewrite app_nil_r in Fi.
    destruct again; apply readcb_post_same; try done; [intros _; by apply scheduled_inv|apply call_error_post]. }
  pose proof (blen_nonneg got). rewrite (proj2 (Z.eqb_neq _ (-1))) by lia.
  assert (Hgrow : forall e act, evrep (input e) (iq ++ got) ->
    ((forall w, act <> CallError w) -> bev_inv e (iq ++ got) oq) ->
    readcb_post iq oq high got (Ok (e, act))) by (intros e act He Hc; by exists e, act).
  destruct (blen _ =? 0); [apply Hgrow; [done|apply call_error_post]|].
  pose proof (readcb_tail_inv e1 _ oq Fi Ho1 Hwm1 Hw1) as Htail. rewrite Ew in Htail. destruct Htail as [Ht1 Ht2]. cbv zeta.
  destruct (negb (low =? 0) && _); [apply Hgrow; [exact Fi|intros _; exact Ht1]|]. rewrite Z.geb_leb.
  destruct (negb (high =? 0) && (high <=? _)) eqn:Eh; [|apply Hgrow; [exact Fi|intros _; exact Ht1]].
  bool_props. apply Hgrow; [by apply evrep_setcb|]. intros _. by apply Ht2.
Qed.

Lemma bufferevent_readcb_inv alloc e iq oq event ioctl avail again :
  alloc_sane alloc -> bev_inv e iq oq -> blen iq <= INT_MAX -> 0 <= ioctl.2 <= INT_MAX ->
  readcb_post iq oq (wm_read e).2 (given_to_readcb alloc e event (from_fd ioctl avail again))
    (bufferevent_readcb alloc true (set_read e false) event (from_fd ioctl avail again)).
Proof.
  intros Hs [Hi Ho Hwm Hrd Hwr] Hiq Hio. unfold bufferevent_readcb, given_to_readcb.
  pose proof (evrep_off _ _ Hi) as Hoff. pose proof (blen_nonneg iq).
  destruct (event =? EV_TIMEOUT); [apply readcb_post_same; [done|apply call_error_post]|].
  cbn [set_read wm_read input]. destruct (wm_read e) as [low high] eqn:Ew. cbn [snd] in *.
  assert (Hhow : (if high =? 0 then -1 else wrap32 (size_wrap (high - off (input e)))) =
                 if high =? 0 then -1 else high - blen iq).
  { destruct (high =? 0); [done|]. rewrite Hoff. by apply howmuch_exact. }
  rewrite Hhow. set (howmuch := if high =? 0 then -1 else high - blen iq).
  destruct (negb (high =? 0) && (howmuch <=? 0)) eqn:Estop.
  { unfold howmuch in Estop. destruct (high =? 0) eqn:E0; [done|]. cbn [negb andb] in Estop. bool_props.
    apply readcb_post_same; [by apply evrep_setcb|]. intros _. apply stop_reading_inv; cbn; rewrite ?Ew; try done.
    cbn. lia. }
  cbn [fi_ioctl fi_read fi_again from_fd]. set (fd := fun n => take (Z.to_nat n) <$> avail).
  assert (Hhm : howmuch <= INT_MAX) by (unfold howmuch, INT_MAX in *; destruct (high =? 0); lia).
  destruct (evbuffer_read_rep alloc (input e) iq ioctl fd howmuch Hs Hi Hio Hhm (from_fd_bounds avail))
    as (b & res & nt & -> & Hc & Hres). rewrite bind_Ok. cbv iota beta.
  set (e1 := input_changed true (set_input (set_read e false) b) nt).
  destruct (input_changed_frame true (set_input (set_read e false) b) nt)
    as (_ & Fo & Fw & Fwm & _ & Fe & _ & _ & Foff & Fi). fold e1 in Fo, Fw, Fwm, Fe, Foff, Fi.
  cbn in Fo, Fw, Fwm, Fe, Foff, Fi. rewrite add_read_true. cbn [fst].
  set (got := given_by_read alloc (input e) ioctl fd howmuch).
  assert (Hk : (res = -1 /\ got = [] \/ res = blen got) /\ evrep b (iq ++ got) /\ (high <> 0 -> blen got <= Z.max 0 (high - blen iq))).
  { unfold got. destruct Hres as [(-> & Hr & _ & -> & _)|(bs & Hbs & -> & Hr & ->)].
    - rewrite app_nil_r, blen_nil. split; [by left|]. split; [done|lia].
    - split; [by right|]. split; [done|].
      pose proof (read_amount_range (input e) ioctl howmuch Hio Hhm) as [Ha _].
      pose proof (from_fd_bounds avail _ _ Ha Hbs) as Hle.
      destruct (read_amount_pos (input e) ioctl howmuch Hio) as [_ Hm]. intros Hne. unfold howmuch in *.
      rewrite (proj2 (Z.eqb_neq high 0)) in * by done. bool_props. lia. }
  destruct Hk as (Hk1 & Hk2 & Hk3).
  apply (readcb_after_read e1 iq oq low high again res got); try done.
  - by rewrite Fwm, Ew.
  - by rewrite Fo.
  - unfold writing. by rewrite Fe, Fo, Fw.
  - by apply Fi.
Qed.

(** The bytes given are the front of what waits at the descriptor. *)
Lemma given_prefix alloc e event ioctl avail again :
  given_to_readcb alloc e event (from_fd ioctl avail again) `prefix_of` default [] avail.
Proof.
  unfold given_to_readcb, given_by_read. destruct (event =? EV_TIMEOUT); [apply prefix_nil|]. destruct (wm_read e) as [low high].
  destruct (_ && _); [apply prefix_nil|]. destruct (evbuffer_expand _ _ _) as [[? res]|]; [|apply prefix_nil].
  destruct (res =? -1); [apply prefix_nil|]. destruct avail as [av|]; [|apply prefix_nil]. apply prefix_take.
Qed.

(** Writing sends a prefix of the output and keeps the rest scheduled. *)
Lemma bufferevent_writecb_inv e iq oq event fd :
  bev_inv e iq oq -> blen oq < 2 ^ 63 -> -1 <= fo_write fd oq <= blen oq ->
  exists e' act k,
    bufferevent_writecb true (set_write e false) event fd = Ok (e', act, take k oq) /\
    evrep (output e') (drop k oq) /\
    ((forall w, act <> CallError w) -> bev_inv e' iq (drop k oq)).
Proof.
  intros [Hi Ho Hwm Hrd Hwr] Hoq Hfd. unfold bufferevent_writecb.
  pose proof (evrep_off _ _ Ho) as Hoff.
  destruct (event =? EV_TIMEOUT).
  { eexists _, _, 0%nat. split; [done|]. split; [done|]. intros Hw. by destruct (Hw _ eq_refl). }
  cbn [set_write output].
  assert (Hw : exists e1 res k, (if negb (off (output e) =? 0)
      then '(b, sent, res, _) ← evbuffer_write (output e) (fo_write fd);
           Ok (set_output (set_write e false) b, res, sent)
      else Ok (set_write e false, 1, [])) = Ok (e1, res, take k oq) /\
      evrep (input e1) iq /\ evrep (output e1) (drop k oq) /\ wm_read e1 = wm_read e /\ reading e1).
  { destruct (off (output e) =? 0) eqn:E; cbn [negb]; bool_props.
    - exists (set_write e false), 1, 0%nat. done.
    - destruct (evbuffer_write_rep _ _ (fo_write fd) Ho Hoq Hfd) as (b & nt & -> & Hr & _).
      rewrite bind_Ok. by eexists _, _, _. }
  destruct Hw as (e1 & res & k & -> & Hi1 & Ho1 & Hwm1 & Hrd1). rewrite bind_Ok, add_write_true.
  cbn [fst].
  assert (Hsched : bev_inv (if negb (off (output e1) =? 0) then set_write e1 true else e1) iq (drop k oq)).
  { destruct (off (output e1) =? 0) eqn:E; cbn [negb]; bool_props;
      (split; [done|done|cbn; by rewrite Hwm1|done|unfold writing; cbn; by intros]). }
  assert (Hout : evrep (output (if negb (off (output e1) =? 0) then set_write e1 true else e1)) (drop k oq))
    by apply Hsched.
  destruct ((res =? -1) && fo_again fd); [by eexists _, _, k|].
  destruct (res =? -1).
  { eexists _, _, k. split; [done|]. split; [done|]. intros Hw. by destruct (Hw _ eq_refl). }
  destruct (res =? 0).
  { eexists _, _, k. split; [done|]. split; [done|]. intros Hw. by destruct (Hw _ eq_refl). }
  by eexists _, _, k.
Qed.

(** The callbacks keep the argument they call the user with. *)
Lemma add_read_cbarg ok e : cbarg (bufferevent_add_read ok e).1 = cbarg e.
Proof. unfold bufferevent_add_read. by case_match. Qed.

Lemma add_write_cbarg ok e : cbarg (bufferevent_add_write ok e).1 = cbarg e.
Proof. unfold bufferevent_add_write. by case_match. Qed.

Lemma bufferevent_readcb_cbarg alloc ok e event fd e' act :
  bufferevent_readcb alloc ok e event fd = Ok (e', act) -> cbarg e' = cbarg e.
Proof.
  unfold bufferevent_readcb. intros H. destruct (event =? EV_TIMEOUT); [by simplify_eq|].
  destruct (wm_read e) as [low high]. destruct (negb (high =? 0) && _); [by simplify_eq|].
  inv_ok. destruct r as [[b res] nt].
  destruct (input_changed_frame ok (set_input e b) nt) as (_ & _ & _ & _ & _ & _ & _ & Hc & _).
  set (e1 := input_changed ok (set_input e b) nt) in *. cbn in Hc.
  pose proof (add_read_cbarg ok e1). repeat case_match; simplify_eq; cbn; congruence.
Qed.

Lemma bufferevent_writecb_cbarg ok e event fd e' act sent :
  bufferevent_writecb ok e event fd = Ok (e', act, sent) -> cbarg e' = cbarg e.
Proof.
  unfold bufferevent_writecb. intros H. destruct (event =? EV_TIMEOUT); [by simplify_eq|].
  inv_ok. destruct r as [[e1 res] bs].
  assert (cbarg e1 = cbarg e) as Hc.
  { destruct (negb _); [|by simplify_eq]. inv_ok. destruct r as [[[b s] r] nt]. by simplify_eq. }
  pose proof (add_write_cbarg ok e1). repeat case_match; simplify_eq; congruence.
Qed.

(** * A buffered event over its life *)

(** A buffered event with the bytes that came from the descriptor, that were
    handed to the user, that the user wrote and that went to the descriptor. *)
Record bconn := mkBconn {
  bc_ev : bufferevent;
  bc_received : list byte;
  bc_handed : list byte;
  bc_written : list byte;
  bc_sent : list byte
}.

(** The user's calls and the callbacks of the event loop that report no error.
    A callback runs when its event waits, which takes the event out. *)
Inductive bc_step (alloc : Z -> bool) : bconn -> bconn -> Prop :=
| BReadcb e rv hd wr sn event ioctl avail again e' act :
    ev_read_pending e = true -> off (input e) <= INT_MAX -> 0 <= ioctl.2 <= INT_MAX ->
    bufferevent_readcb alloc true (set_read e false) event (from_fd ioctl avail again) = Ok (e', act) ->
    (forall w, act <> CallError w) ->
    bc_step alloc (mkBconn e rv hd wr sn)
      (mkBconn e' (rv ++ given_to_readcb alloc e event (from_fd ioctl avail again)) hd wr sn)
| BWritecb e rv hd wr sn event fd e' act bs :
    ev_write_pending e = true -> off (output e) < 2 ^ 63 ->
    (forall q, -1 <= fo_write fd q <= blen q) ->
    bufferevent_writecb true (set_write e false) event fd = Ok (e', act, bs) ->
    (forall w, act <> CallError w) ->
    bc_step alloc (mkBconn e rv hd wr sn) (mkBconn e' rv hd wr (sn ++ bs))
| BTake e rv hd wr sn size e' bs :
    0 <= size -> bufferevent_read true e size = Ok (e', bs) ->
    bc_step alloc (mkBconn e rv hd wr sn) (mkBconn e' rv (hd ++ bs) wr sn)
| BPut e rv hd wr sn data e' res :
    blen data <= 2 ^ 62 -> bufferevent_write alloc true e data = Ok (e', res) ->
    bc_step alloc (mkBconn e rv hd wr sn)
      (mkBconn e' rv hd (wr ++ if res =? 0 then data else []) sn)
| BPutBuffer e rv hd wr sn buf q e' buf' res :
    evrep buf q -> bufferevent_write_buffer alloc true e buf = Ok (e', buf', res) ->
    bc_step alloc (mkBconn e rv hd wr sn)
      (mkBconn e' rv hd (wr ++ if res =? 0 then q else []) sn)
| BSetcb e rv hd wr sn rcb wcb arg :
    bc_step alloc (mkBconn e rv hd wr sn) (mkBconn (bufferevent_setcb e rcb wcb arg) rv hd wr sn)
| BEnable e rv hd wr sn event :
    bc_step alloc (mkBconn e rv hd wr sn) (mkBconn (bufferevent_enable true e event).1 rv hd wr sn)
| BDisable e rv hd wr sn event :
    bc_step alloc (mkBconn e rv hd wr sn) (mkBconn (bufferevent_disable e event).1 rv hd wr sn)
| BMark e rv hd wr sn events low high :
    0 <= high <= INT_MAX ->
    bc_step alloc (mkBconn e rv hd wr sn)
      (mkBconn (bufferevent_setwatermark true e events low high) rv hd wr sn)
| BTimeout e rv hd wr sn tr tw :
    bc_step alloc (mkBconn e rv hd wr sn) (mkBconn (bufferevent_settimeout true e tr tw) rv hd wr sn).

Definition bc_inv (c : bconn) : Prop :=
  exists iq oq, bev_inv (bc_ev c) iq oq /\
    bc_received c = bc_handed c ++ iq /\ bc_written c = bc_sent c ++ oq.

Lemma bc_inv_new oks fd rcb wcb arg e :
  bufferevent_new oks fd rcb wcb arg = Some e -> bc_inv (mkBconn e [] [] [] []).
Proof.
  destruct oks as [[[] []] []]; try done. intros [= <-]. exists [], []. split; [|done].
  destruct (evrep_new _ eq_refl) as [He _]. split; try done; cbn; intros Hf; by inversion Hf.
Qed.

(** What is written joins the output, or is refused as a whole. *)
Lemma bufferevent_write_queue alloc e iq oq data e' res : alloc_sane alloc -> bev_inv e iq oq -> blen data <= 2 ^ 62 ->
  bufferevent_write alloc true e data = Ok (e', res) ->
  exists oq', bev_inv e' iq oq' /\ oq ++ (if res =? 0 then data else []) = oq'.
Proof.
  intros Hs Hi Hd Hcb. destruct (bufferevent_write_inv alloc e iq oq data Hs Hi Hd) as (e1 & r & Hcb1 & _ & Hres).
  rewrite Hcb in Hcb1. injection Hcb1 as <- <-.
  destruct Hres as [[-> Hinv]|(-> & Hinv & _)]; [by exists (oq ++ data)|exists oq]. by rewrite app_nil_r.
Qed.

Lemma bc_inv_step alloc c c' : alloc_sane alloc -> bc_inv c -> bc_step alloc c c' -> bc_inv c'.
Proof.
  intros Hs (iq & oq & Hi & Hrv & Hwr) Hstep.
  destruct Hstep as [e rv hd wr sn event ioctl avail again e' act Hp Hlen Hio Hcb Hne
                    |e rv hd wr sn event fd e' act bs Hp Hlen Hfd Hcb Hne
                    |e rv hd wr sn size e' bs Hsz Hcb
                    |e rv hd wr sn data e' res Hd Hcb
                    |e rv hd wr sn buf q e' buf' res Hb Hcb|e rv hd wr sn rcb wcb arg
                    |e rv hd wr sn event|e rv hd wr sn event|e rv hd wr sn events low high Hh
                    |e rv hd wr sn tr tw]; cbn in *; subst.
  - rewrite (evrep_off _ _ (bi_input _ _ _ Hi)) in Hlen.
    destruct (bufferevent_readcb_inv alloc e iq oq event ioctl avail again Hs Hi Hlen Hio)
      as (e1 & act1 & Hcb1 & Hr & _ & Hinv). rewrite Hcb in Hcb1. injection Hcb1 as <- <-.
    eexists _, oq. split; [by apply Hinv|]. split; [|done]. cbn. by rewrite app_assoc.
  - pose proof (evrep_off _ _ (bi_output _ _ _ Hi)) as Ho. rewrite Ho in *.
    destruct (bufferevent_writecb_inv e iq oq event fd Hi Hlen (Hfd oq)) as (e1 & act1 & k & Hcb1 & _ & Hinv).
    rewrite Hcb in Hcb1. injection Hcb1 as <- <- ->.
    exists iq, (drop k oq). split; [by apply Hinv|]. split; [done|]. cbn.
    by rewrite <- app_assoc, take_drop.
  - destruct (bufferevent_read_inv e iq oq size Hi Hsz) as (e1 & Hcb1 & Hinv).
    rewrite Hcb in Hcb1. injection Hcb1 as <- ->. exists (drop (Z.to_nat size) iq), oq.
    split; [done|]. split; [|done]. cbn. by rewrite <- app_assoc, take_drop.
  - destruct (bufferevent_write_queue alloc e iq oq data e' res Hs Hi Hd Hcb) as (oq' & Hinv & Hq).
    exists iq, oq'. split; [done|]. split; [done|]. cbn. by rewrite <- app_assoc, Hq.
  - unfold bufferevent_write_buffer in Hcb. rewrite (evrep_get_all buf q Hb), bind_Ok in Hcb. inv_ok. destruct r as [e1 r].
    pose proof (evrep_bounds _ _ Hb) as (B1 & B2 & B3). rewrite (evrep_off _ _ Hb) in *.
    destruct (bufferevent_write_queue alloc e iq oq q e1 r Hs Hi ltac:(lia) E) as (oq' & Hinv & Hq).
    assert (e' = e1 /\ res = r) as [-> ->] by (destruct (negb _); by injection Hcb).
    exists iq, oq'. split; [done|]. split; [done|]. cbn. by rewrite <- app_assoc, Hq.
  - exists iq, oq. split; [|done]. by destruct Hi.
  - destruct (bufferevent_enable_inv e iq oq event Hi) as (e1 & -> & Hinv). by exists iq, oq.
  - exists iq, oq. split; [|done]. by apply bufferevent_disable_inv.
  - exists iq, oq. split; [|done]. by apply bufferevent_setwatermark_inv.
  - exists iq, oq. split; [|done]. by apply bufferevent_settimeout_inv.
Qed.

Lemma bc_inv_steps alloc c c' : alloc_sane alloc -> bc_inv c -> rtc (bc_step alloc) c c' -> bc_inv c'.
Proof. intros Hs Hi Hsteps. induction Hsteps; eauto using bc_inv_step. Qed.

(** * The properties *)

(** C15: a buffered event is two queues that never stall. Over any sequence of
    the calls [bufferevent_write], [_write_buffer], [_read], [_enable],
    [_disable], [_setcb], [_settimeout] and [_setwatermark] (with high marks of at
    most [INT_MAX]) and of read and write callbacks, up to the first one that
    reports an error, the end of the stream or a time-out: the bytes handed to the
    user are the front of all the bytes [read] gave, the bytes sent are the front
    of all the bytes written by calls that returned 0, and the next call of
    [bufferevent_read] hands out the next bytes that [read] gave. While reading is
    enabled the read event waits, or the input has reached the high water mark
    and its next change resumes reading; while writing is enabled and there is
    output the write event waits. Adding an event never fails. *)
Theorem bufferevent_streams (alloc : Z -> bool) (oks : bool * bool * bool) (fd arg : Z)
    (rcb wcb : bool) (e0 : bufferevent) (c : bconn) :
  alloc_sane alloc -> bufferevent_new oks fd rcb wcb arg = Some e0 ->
  rtc (bc_step alloc) (mkBconn e0 [] [] [] []) c ->
  bc_handed c `prefix_of` bc_received c /\ bc_sent c `prefix_of` bc_written c /\
  reading (bc_ev c) /\ writing (bc_ev c) /\
  forall size, 0 <= size ->
    exists e', bufferevent_read true (bc_ev c) size =
      Ok (e', take (Z.to_nat size) (drop (length (bc_handed c)) (bc_received c))).
Proof.
  intros Hs Hn Hsteps. apply bc_inv_new in Hn.
  destruct (bc_inv_steps _ _ _ Hs Hn Hsteps) as (iq & oq & Hi & Hrv & Hwr).
  rewrite Hrv, Hwr, drop_app_length. split_and!; [by exists iq|by exists oq|apply Hi|apply Hi|].
  intros size Hsz. destruct (bufferevent_read_inv _ _ _ size Hi Hsz) as (e' & ? & _). by exists e'.
Qed.

(** A buffered event with a high water mark of four bytes, sent ten. *)
Definition demo_bev : bufferevent :=
  mkBufferevent 5 false false (mkEvbuffer None 0 0 0 0 None) (mkEvbuffer None 0 0 0 0 None)
    (0, 0) (0, 0) true false 9 0 0 EV_WRITE.

Definition demo_marked : bufferevent :=
  bufferevent_setwatermark true (bufferevent_enable true demo_bev EV_READ).1 EV_READ 0 4.

Definition demo_fd : fd_input := from_fd (0, 10) (Some (zbytes [0; 1; 2; 3; 4; 5; 6; 7; 8; 9])) false.

Definition demo_full : cres (bufferevent * action) :=
  bufferevent_readcb demo_alloc true (set_read demo_marked false) EV_READ demo_fd.

Example demo_full_stops :
  match demo_full with
  | Ok (e, act) => act = CallRead /\ ev_read_pending e = false /\ off (input e) = 4
  | UB _ => False
  end.
Proof. vm_compute. done. Qed.

Definition demo_after : bufferevent :=
  match demo_full with Ok (e, _) => e | UB _ => demo_bev end.

Lemma demo_full_eq : demo_full = Ok (demo_after, CallRead).
Proof. vm_compute. reflexivity. Qed.

Lemma bufferevent_streams_witness :
  reading demo_after /\
  exists e', bufferevent_read true demo_after 3 = Ok (e', zbytes [0; 1; 2]).
Proof.
  destruct (bufferevent_streams demo_alloc (true, true, true) 5 9 true false demo_bev
    (mkBconn demo_after (zbytes [0; 1; 2; 3]) [] [] [])) as (_ & _ & Hr & _ & Hread).
  - apply demo_alloc_sane.
  - reflexivity.
  - eapply rtc_l; [apply (BEnable _ _ _ _ _ _ EV_READ)|].
    eapply rtc_l; [apply (BMark _ _ _ _ _ _ EV_READ 0 4); unfold INT_MAX; lia|].
    eapply rtc_l; [|apply rtc_refl].
    apply (BReadcb demo_alloc demo_marked [] [] [] [] EV_READ (0, 10)
      (Some (zbytes [0; 1; 2; 3; 4; 5; 6; 7; 8; 9])) false demo_after CallRead);
      [reflexivity|vm_compute; discriminate|unfold INT_MAX; simpl; lia|exact demo_full_eq|discriminate].
  - split; [exact Hr|]. apply (Hread 3). lia.
Defined.

(** [howmuch] is an [int]: with a high water mark that is [2^31] or more
    above an empty input, the callback reads nothing, takes the read event out
    and waits for a change of the input that no one can cause. *)
Theorem huge_watermark_stalls (alloc : Z -> bool) (ok : bool) (e : bufferevent) (fd : fd_input) :
  off (input e) = 0 -> 2 ^ 31 <= (wm_read e).2 < 2 ^ 32 ->
  exists e', bufferevent_readcb alloc ok (set_read e false) EV_READ fd = Ok (e', NoCall) /\
    ev_read_pending e' = false /\ off (input e') = 0 /\
    forall size, 0 <= size -> bufferevent_read ok e' size = Ok (e', []).
Proof.
  intros Hoff Hh. unfold bufferevent_readcb. change (EV_READ =? EV_TIMEOUT) with false.
  cbn [set_read wm_read input]. destruct (wm_read e) as [low high]. cbn [snd] in Hh.
  rewrite Hoff, Z.sub_0_r, size_wrap_small by lia.
  assert (wrap32 high = high - 2 ^ 32) as ->.
  { unfold wrap32. replace (high + 2 ^ 31) with (high - 2 ^ 31 + 1 * 2 ^ 32) by lia.
    rewrite Z.mod_add, Z.mod_small by lia. lia. }
  zdecide. eexists. split; [done|]. split; [done|]. split; [done|]. intros size Hsz.
  unfold bufferevent_read. cbn. rewrite Hoff.
  destruct (0 <? size) eqn:E; bool_props; [done|]. assert (size = 0) as -> by lia. done.
Qed.

Lemma huge_watermark_stalls_witness :
  exists e', bufferevent_readcb demo_alloc true
      (set_read (bufferevent_setwatermark true demo_bev EV_READ 0 (2 ^ 31)) false) EV_READ demo_fd =
        Ok (e', NoCall) /\
    ev_read_pending e' = false /\ off (input e') = 0 /\
    forall size, 0 <= size -> bufferevent_read true e' size = Ok (e', []).
Proof. apply huge_watermark_stalls; [reflexivity|vm_compute; split; [discriminate|reflexivity]]. Defined.
