(* ===== verification/SocketManager.v ===== *)
(** The socket layer (socket/socket_manager.cpp, server_socket.cpp,
    client_socket.cpp, peer_point.cpp, packet_interface.cpp,
    socket_exception.cpp and their headers): the registry of listening sockets,
    client sockets and connections, and the callbacks by which the event loop
    hands data to the packet handlers.

    Objects created with [new] live in stores keyed by their address, so that a
    use after [delete] is a fault. The answers of the system calls are
    arguments; the open descriptors are part of the state. *)
From stdpp Require Import pretty sorting.
From S2P Require Import Prelude EvBuffer BufferEvent.

(** * Objects and state *)

Definition SERVER_TYPE : Z := 1.
Definition CLIENT_TYPE : Z := 2.
Definition RECV_BLOCK_SIZE : Z := 1024.

(** [_Vfd] is set by [Start]; [_PacketClass] is the address of the packet
    handler, [None] for the null pointer the constructors accept. *)
Record clsServerSocket := mkServer {
  ss_Vfd : option Z;
  ss_Port : Z;
  ss_MaxNumber : Z;
  ss_PacketClass : option Z
}.

Record clsClientSocket := mkClient {
  cs_Ip : string;
  cs_Port : Z;
  cs_Vfd : Z;
  cs_PacketClass : option Z
}.

(** [_BuffEv] is the address of the buffered event. *)
Record clsPeerPoint := mkPeer {
  pp_Vfd : Z;
  pp_VfdType : Z;
  pp_BuffEv : Z;
  pp_Status : Z
}.

(** The five maps of [class SocketManager], from descriptors to addresses. *)
Record SocketManager := mkSocketManager {
  ServerObjList : gmap Z Z;
  ClientObjList : gmap Z Z;
  PeerObjList : gmap Z Z;
  PeerVfd2ServerObj : gmap Z Z;
  PeerVfd2ClientObj : gmap Z Z
}.

(** The global [Manager] and the heap. [listeners] are the events added for
    [NewConnect], with their argument; [fds] the open descriptors; [n_alloc]
    and [n_evadd] answer for the allocator and the event mechanism. *)
Record net (P : Type) := mkNet {
  Manager : SocketManager;
  servers : gmap Z clsServerSocket;
  clients : gmap Z clsClientSocket;
  peers : gmap Z clsPeerPoint;
  bevs : gmap Z bufferevent;
  packets : gmap Z P;
  next_addr : Z;
  listeners : list (Z * Z);
  fds : gset Z;
  stdout : list string;
  n_alloc : Z -> bool;
  n_evadd : bool
}.
Arguments mkNet {P}. Arguments Manager {P}. Arguments servers {P}. Arguments clients {P}.
Arguments peers {P}. Arguments bevs {P}. Arguments packets {P}. Arguments next_addr {P}.
Arguments listeners {P}. Arguments fds {P}. Arguments stdout {P}. Arguments n_alloc {P}.
Arguments n_evadd {P}.

(** [class SocketError]: the message is a pointer, [None] once what it points
    to is gone. *)
Record SocketError := mkSocketError {
  se_Vfd : Z;
  se_ErrNo : Z;
  se_ErrMsg : option string
}.

Definition SERVER_CREATE_ERR : Z := 0.
Definition CLIENT_CREATE_ERR : Z := 1.
Definition CONN_ERR : Z := 2.
Definition SERVER_CREATE_PEER_ERR : Z := 6.
Definition MAX_ERR_MSG : Z := 1024.

Definition ErrNo2Msg : list string :=
  ["Create Server Socket Err"; "Create Client Socket Err"; "Connect to Server Err"; "Read Data Err";
   "Write Data Err"; "Clear Data Err"; "Server Create Peer Conn Err"]%string.

(** [SocketError(int Vfd, int ErrNo, char* ErrMsg)] with a string literal. *)
Definition SocketError_literal (Vfd ErrNo : Z) (ErrMsg : string) : SocketError :=
  mkSocketError Vfd ErrNo (Some ErrMsg).

(** [SocketError(int Vfd, int ErrNo, string ErrMsg)] keeps [ErrMsg.c_str()] of
    its parameter, which is gone when the constructor has returned. *)
Definition SocketError_string (Vfd ErrNo : Z) (ErrMsg : string) : SocketError :=
  mkSocketError Vfd ErrNo None.

(** [char* SocketError::GetMsg()]; [ok] is the answer of [malloc(MAX_ERR_MSG)]. *)
Definition GetMsg (ok : bool) (e : SocketError) : cres string :=
  name ← of_option OutOfBounds (if se_ErrNo e <? 0 then None else ErrNo2Msg !! Z.to_nat (se_ErrNo e));
  msg ← of_option UseAfterFree (se_ErrMsg e);
  let out := ("Vfd=" +:+ pretty (se_Vfd e) +:+ "," +:+ name +:+ ":" +:+ msg)%string in
  _ ← require ok NullDeref;
  _ ← require (Z.of_nat (String.length out) + 1 <=? MAX_ERR_MSG) OutOfBounds;
  Ok out.

(** * Statements that can throw *)

Inductive res (A : Type) : Type :=
| Val (a : A)
| Throw (e : SocketError).
Arguments Val {A} a.
Arguments Throw {A} e.

Section Monad.
Context {P : Type}.

Definition sm (A : Type) : Type := net P -> cres (res A * net P).

#[export] Instance sm_ret : MRet sm := fun A a s => Ok (Val a, s).
#[export] Instance sm_bind : MBind sm := fun A B k m s =>
  match m s with
  | Ok (Val a, s') => k a s'
  | Ok (Throw e, s') => Ok (Throw e, s')
  | UB f => UB f
  end.

Definition throw {A} (e : SocketError) : sm A := fun s => Ok (Throw e, s).
Definition try_catch {A} (m : sm A) (h : SocketError -> sm A) : sm A := fun s =>
  match m s with
  | Ok (Throw e, s') => h e s'
  | r => r
  end.
Definition fail {A} (f : fault) : sm A := fun s => UB f.
Definition lift {A} (r : cres A) : sm A := fun s =>
  match r with Ok a => Ok (Val a, s) | UB f => UB f end.
Definition get : sm (net P) := fun s => Ok (Val s, s).
Definition modify (f : net P -> net P) : sm unit := fun s => Ok (Val (), f s).

Definition with_manager (f : SocketManager -> SocketManager) (s : net P) : net P :=
  mkNet (f (Manager s)) (servers s) (clients s) (peers s) (bevs s) (packets s) (next_addr s)
    (listeners s) (fds s) (stdout s) (n_alloc s) (n_evadd s).
Definition with_servers (f : gmap Z clsServerSocket -> gmap Z clsServerSocket) (s : net P) : net P :=
  mkNet (Manager s) (f (servers s)) (clients s) (peers s) (bevs s) (packets s) (next_addr s)
    (listeners s) (fds s) (stdout s) (n_alloc s) (n_evadd s).
Definition with_clients (f : gmap Z clsClientSocket -> gmap Z clsClientSocket) (s : net P) : net P :=
  mkNet (Manager s) (servers s) (f (clients s)) (peers s) (bevs s) (packets s) (next_addr s)
    (listeners s) (fds s) (stdout s) (n_alloc s) (n_evadd s).
Definition with_peers (f : gmap Z clsPeerPoint -> gmap Z clsPeerPoint) (s : net P) : net P :=
  mkNet (Manager s) (servers s) (clients s) (f (peers s)) (bevs s) (packets s) (next_addr s)
    (listeners s) (fds s) (stdout s) (n_alloc s) (n_evadd s).
Definition with_bevs (f : gmap Z bufferevent -> gmap Z bufferevent) (s : net P) : net P :=
  mkNet (Manager s) (servers s) (clients s) (peers s) (f (bevs s)) (packets s) (next_addr s)
    (listeners s) (fds s) (stdout s) (n_alloc s) (n_evadd s).
Definition with_packets (f : gmap Z P -> gmap Z P) (s : net P) : net P :=
  mkNet (Manager s) (servers s) (clients s) (peers s) (bevs s) (f (packets s)) (next_addr s)
    (listeners s) (fds s) (stdout s) (n_alloc s) (n_evadd s).
Definition with_listeners (f : list (Z * Z) -> list (Z * Z)) (s : net P) : net P :=
  mkNet (Manager s) (servers s) (clients s) (peers s) (bevs s) (packets s) (next_addr s)
    (f (listeners s)) (fds s) (stdout s) (n_alloc s) (n_evadd s).
Definition with_fds (f : gset Z -> gset Z) (s : net P) : net P :=
  mkNet (Manager s) (servers s) (clients s) (peers s) (bevs s) (packets s) (next_addr s)
    (listeners s) (f (fds s)) (stdout s) (n_alloc s) (n_evadd s).
Definition with_stdout (f : list string -> list string) (s : net P) : net P :=
  mkNet (Manager s) (servers s) (clients s) (peers s) (bevs s) (packets s) (next_addr s)
    (listeners s) (fds s) (f (stdout s)) (n_alloc s) (n_evadd s).

(** [new]: the address of the next object. *)
Definition new_addr : sm Z := fun s =>
  Ok (Val (next_addr s),
      mkNet (Manager s) (servers s) (clients s) (peers s) (bevs s) (packets s) (next_addr s + 1)
        (listeners s) (fds s) (stdout s) (n_alloc s) (n_evadd s)).

(** The object behind a pointer. *)
Definition deref_in {X} (store : net P -> gmap Z X) (a : Z) : sm X := fun s =>
  match store s !! a with Some x => Ok (Val x, s) | None => UB UseAfterFree end.

Definition close (fd : Z) : sm unit := modify (with_fds (fun F => F ∖ {[fd]})).
Definition open_fd (fd : Z) : sm unit := modify (with_fds (fun F => {[fd]} ∪ F)).
Definition cout (o : list string) : sm unit := modify (with_stdout (fun l => l ++ o)).

End Monad.
Arguments sm : clear implicits.

(** * The registry: socket_manager.cpp *)

Section Manager.
Context {P : Type}.

Definition set_ServerObjList (f : gmap Z Z -> gmap Z Z) (m : SocketManager) : SocketManager :=
  mkSocketManager (f (ServerObjList m)) (ClientObjList m) (PeerObjList m) (PeerVfd2ServerObj m)
    (PeerVfd2ClientObj m).
Definition set_ClientObjList (f : gmap Z Z -> gmap Z Z) (m : SocketManager) : SocketManager :=
  mkSocketManager (ServerObjList m) (f (ClientObjList m)) (PeerObjList m) (PeerVfd2ServerObj m)
    (PeerVfd2ClientObj m).
Definition set_PeerObjList (f : gmap Z Z -> gmap Z Z) (m : SocketManager) : SocketManager :=
  mkSocketManager (ServerObjList m) (ClientObjList m) (f (PeerObjList m)) (PeerVfd2ServerObj m)
    (PeerVfd2ClientObj m).
Definition set_PeerVfd2ServerObj (f : gmap Z Z -> gmap Z Z) (m : SocketManager) : SocketManager :=
  mkSocketManager (ServerObjList m) (ClientObjList m) (PeerObjList m) (f (PeerVfd2ServerObj m))
    (PeerVfd2ClientObj m).
Definition set_PeerVfd2ClientObj (f : gmap Z Z -> gmap Z Z) (m : SocketManager) : SocketManager :=
  mkSocketManager (ServerObjList m) (ClientObjList m) (PeerObjList m) (PeerVfd2ServerObj m)
    (f (PeerVfd2ClientObj m)).

(** [if (Map.count(k)) return false; Map[k] = v; return true;] *)
Definition add_new (field : SocketManager -> gmap Z Z)
    (set : (gmap Z Z -> gmap Z Z) -> SocketManager -> SocketManager) (k v : Z) : sm P bool :=
  s ← get;
  match field (Manager s) !! k with
  | Some _ => mret false
  | None => modify (with_manager (set <[k := v]>));; mret true
  end.

Definition AddPeerServerMap (PeerVfd ServerObj : Z) : sm P bool :=
  add_new PeerVfd2ServerObj set_PeerVfd2ServerObj PeerVfd ServerObj.
Definition AddPeerClientMap (PeerVfd ClientObj : Z) : sm P bool :=
  add_new PeerVfd2ClientObj set_PeerVfd2ClientObj PeerVfd ClientObj.
Definition AddServerObj (ServerVfd ServerObj : Z) : sm P bool :=
  add_new ServerObjList set_ServerObjList ServerVfd ServerObj.
Definition AddClientObj (ClientVfd ClientObj : Z) : sm P bool :=
  add_new ClientObjList set_ClientObjList ClientVfd ClientObj.
Definition AddPeerObj (PeerVfd PeerObj : Z) : sm P bool :=
  add_new PeerObjList set_PeerObjList PeerVfd PeerObj.

(** The keys of a [std::map], in the order of its iterators. *)
Definition keys (m : gmap Z Z) : list Z := merge_sort Z.le (map_to_list m).*1.

Definition show_peers_of (m : SocketManager) (ServerSock : Z) : list string :=
  flat_map (fun v => if bool_decide (PeerVfd2ServerObj m !! v = Some ServerSock)
                     then [pretty v; ","%string] else []) (keys (PeerVfd2ServerObj m)).

Definition show_keys (m : gmap Z Z) : list string :=
  ["{"%string] ++ flat_map (fun v => [pretty v; ","%string]) (keys m) ++ ["}"%string].

Definition ShowInfo : sm P unit :=
  s ← get;
  let m := Manager s in
  cout (["Server Vfd Info:"%string] ++
        flat_map (fun v => [pretty v; "={"%string] ++
                           match ServerObjList m !! v with
                           | Some ServerSock => show_peers_of m ServerSock
                           | None => []
                           end ++ ["},"%string]) (keys (ServerObjList m)) ++
        ["Client Vfd Info:"%string] ++ show_keys (ClientObjList m) ++
        ["Peer Vfd Info:"%string] ++ show_keys (PeerObjList m)).

(** [delete ClientObj]: the destructor closes [_Vfd]. *)
Definition delete_client (a : Z) : sm P unit :=
  c ← deref_in clients a;
  close (cs_Vfd c);;
  modify (with_clients (delete a)).

Definition delete_server (a : Z) : sm P unit :=
  _ ← deref_in servers a; modify (with_servers (delete a)).

Definition delete_peer (a : Z) : sm P unit :=
  _ ← deref_in peers a; modify (with_peers (delete a)).

Definition DelClientVfd (ClientVfd : Z) : sm P bool :=
  s ← get;
  match ClientObjList (Manager s) !! ClientVfd with
  | Some ClientObj =>
      delete_client ClientObj;;
      modify (with_manager (set_ClientObjList (delete ClientVfd)));;
      mret true
  | None => mret false
  end.

(** The result joins [OpPeer] with itself; [OpClient] is not used. *)
Definition DelPeerVfd (PeerVfd DelType : Z) : sm P bool :=
  s ← get;
  PeerObjExsit ←
    match PeerObjList (Manager s) !! PeerVfd with
    | Some PeerObj =>
        modify (with_manager (set_PeerObjList (delete PeerVfd)));;
        delete_peer PeerObj;;
        mret true
    | None => mret false
    end;
  s ← get;
  PeerVfdExsit ←
    (if DelType =? SERVER_TYPE then
       match PeerVfd2ServerObj (Manager s) !! PeerVfd with
       | Some _ => modify (with_manager (set_PeerVfd2ServerObj (delete PeerVfd)));; mret true
       | None => mret false
       end
     else
       match PeerVfd2ClientObj (Manager s) !! PeerVfd with
       | Some _ =>
           modify (with_manager (set_PeerVfd2ClientObj (delete PeerVfd)));;
           OpClient ← DelClientVfd PeerVfd;
           mret true
       | None => mret false
       end);
  let OpPeer := PeerVfdExsit && PeerObjExsit in
  mret (OpPeer && OpPeer).

(** The loop of [DelServerVfd]: the iterator stands on the node of each key in
    turn, and reading or erasing a node already erased is a fault. *)
Fixpoint DelServerVfd_loop (ServerVfd : Z) (todo : list Z) : sm P unit :=
  match todo with
  | [] => mret ()
  | PeerVfd :: todo =>
      s ← get;
      match PeerVfd2ServerObj (Manager s) !! PeerVfd with
      | None => fail UseAfterFree
      | Some a =>
          so ← deref_in servers a;
          Vfd ← lift (of_option Uninitialised (ss_Vfd so));
          (if Vfd =? ServerVfd then
             close PeerVfd;;
             DelPeerVfd PeerVfd SERVER_TYPE;;
             s ← get;
             match PeerVfd2ServerObj (Manager s) !! PeerVfd with
             | None => fail UseAfterFree
             | Some _ => modify (with_manager (set_PeerVfd2ServerObj (delete PeerVfd)))
             end
           else mret ());;
          DelServerVfd_loop ServerVfd todo
      end
  end.

Definition DelServerVfd (ServerVfd : Z) : sm P bool :=
  s ← get;
  DelServerVfd_loop ServerVfd (keys (PeerVfd2ServerObj (Manager s)));;
  s ← get;
  match ServerObjList (Manager s) !! ServerVfd with
  | Some ServerObj =>
      delete_server ServerObj;;
      modify (with_manager (set_ServerObjList (delete ServerVfd)));;
      mret true
  | None => mret true
  end.

(** [clsPeerPoint::WriteData]. *)
Definition WriteData (this : Z) (Buf : list byte) : sm P bool :=
  p ← deref_in peers this;
  if pp_Status p =? 0 then mret false
  else
    e ← deref_in bevs (pp_BuffEv p);
    s ← get;
    '(e', r) ← lift (bufferevent_write (n_alloc s) (n_evadd s) e Buf);
    modify (with_bevs <[pp_BuffEv p := e']>);;
    mret (r =? 0).

Definition PeerVfdOnWrite (ToVfd : Z) (Buf : list byte) : sm P bool :=
  s ← get;
  match PeerObjList (Manager s) !! ToVfd with
  | None => mret false
  | Some PeerObj => WriteData PeerObj Buf
  end.

(** [PacketInterface::PacketOnWrite]. *)
Definition PacketOnWrite (ToVfd : Z) (Buf : list byte) : sm P bool := PeerVfdOnWrite ToVfd Buf.

End Manager.

(** * Packet handlers and the callbacks *)

(** The virtual functions of [class PacketInterface], called on the object at
    an address. *)
Class PacketInterface (P : Type) := {
  PacketOnRead : Z -> Z -> list byte -> sm P bool;
  PacketOnError : Z -> Z -> sm P bool;
  PacketOnConnect : Z -> Z -> sm P bool
}.

Section Callbacks.
Context {P : Type} `{!PacketInterface P}.

(** The common shape of the three callbacks: the handler of the socket a
    connection belongs to, through the type recorded in the connection. *)
Inductive handler : Type :=
| NoPeer            (* the descriptor is in no map: [return false] *)
| NoSocket          (* its socket is in no map: [return false] *)
| NullHandler       (* the socket has a null [_PacketClass] *)
| BadType           (* the type is neither of the two *)
| Handler (a : Z).

Definition find_handler (PeerVfd : Z) : sm P handler :=
  s ← get;
  match PeerObjList (Manager s) !! PeerVfd with
  | None => mret NoPeer
  | Some p =>
      o ← deref_in peers p;
      if pp_VfdType o =? SERVER_TYPE then
        match PeerVfd2ServerObj (Manager s) !! PeerVfd with
        | None => mret NoSocket
        | Some a => so ← deref_in servers a;
                    mret (match ss_PacketClass so with Some h => Handler h | None => NullHandler end)
        end
      else if pp_VfdType o =? CLIENT_TYPE then
        match PeerVfd2ClientObj (Manager s) !! PeerVfd with
        | None => mret NoSocket
        | Some a => so ← deref_in clients a;
                    mret (match cs_PacketClass so with Some h => Handler h | None => NullHandler end)
        end
      else mret BadType
  end.

(** Without a handler the function ends without [return]. *)
Definition PeerVfdOnRead (PeerVfd : Z) (Buf : list byte) : sm P bool :=
  h ← find_handler PeerVfd;
  match h with
  | NoPeer | NoSocket => mret false
  | NullHandler | BadType => fail MissingReturn
  | Handler a => PacketOnRead a PeerVfd Buf
  end.

Definition PeerVfdOnConnect (Vfd : Z) : sm P bool :=
  h ← find_handler Vfd;
  match h with
  | NoPeer | NoSocket => mret false
  | NullHandler | BadType => fail MissingReturn
  | Handler a => PacketOnConnect a Vfd
  end.

Definition PeerVfdOnClose (PeerVfd : Z) : sm P bool :=
  s ← get;
  match PeerObjList (Manager s) !! PeerVfd with
  | None => mret false
  | Some p =>
      h ← find_handler PeerVfd;
      match h with
      | NoPeer | NoSocket => mret false
      | NullHandler | BadType =>
          o ← deref_in peers p; DelPeerVfd (pp_Vfd o) (pp_VfdType o)
      | Handler a =>
          PacketOnError a PeerVfd;;
          o ← deref_in peers p;
          DelPeerVfd (pp_Vfd o) (pp_VfdType o)
      end
  end.

(** * Connections: peer_point.cpp *)

(** [clsPeerPoint::clsPeerPoint]; [oks] are the allocations of
    [bufferevent_new], whose null result [bufferevent_enable] dereferences. *)
Definition clsPeerPoint_new (oks : bool * bool * bool) (Vfd VfdType : Z) : sm P Z :=
  this ← new_addr;
  ev ← new_addr;
  e ← lift (of_option NullDeref (bufferevent_new oks Vfd true false this));
  s ← get;
  modify (with_bevs <[ev := (bufferevent_enable (n_evadd s) e EV_READ).1]>);;
  modify (with_peers <[this := mkPeer Vfd VfdType ev 1]>);;
  mret this.

Definition OnConnect (Vfd : Z) : sm P unit :=
  PeerVfdOnConnect Vfd;; ShowInfo.

(** The loop of [clsPeerPoint::OnRead]. *)
Fixpoint OnRead_loop (fuel : nat) (this buf_ev : Z) : sm P unit :=
  match fuel with
  | O => fail Diverges
  | S fuel =>
      e ← deref_in bevs buf_ev;
      s ← get;
      '(e', buf) ← lift (bufferevent_read (n_evadd s) e RECV_BLOCK_SIZE);
      modify (with_bevs <[buf_ev := e']>);;
      if blen buf =? 0 then mret ()
      else
        p ← deref_in peers this;
        PeerVfdOnRead (pp_Vfd p) buf;;
        OnRead_loop fuel this buf_ev
  end.

(** Every round takes at least one byte of the input. *)
Definition OnRead (this buf_ev : Z) : sm P unit :=
  p ← deref_in peers this;
  if pp_Status p =? 0 then throw (SocketError_literal (pp_Vfd p) 1 "Try To Read Cleared vfd")
  else
    e ← deref_in bevs buf_ev;
    OnRead_loop (S (Z.to_nat (off (input e)))) this buf_ev.

(** [clsPeerPoint::OnError] reads [_Vfd] again after the manager has closed the
    connection. *)
Definition OnError (this : Z) : sm P unit :=
  p ← deref_in peers this;
  if pp_Status p =? 0 then mret ()
  else
    modify (with_peers <[this := mkPeer (pp_Vfd p) (pp_VfdType p) (pp_BuffEv p) 0]>);;
    PeerVfdOnClose (pp_Vfd p);;
    p ← deref_in peers this;
    close (pp_Vfd p);;
    ShowInfo.

(** The event loop's calls: the buffered event reads or writes, and its
    callback goes to the connection it was created with. *)
Definition dispatch (ev : Z) (e : bufferevent) (act : action) : sm P unit :=
  modify (with_bevs <[ev := e]>);;
  match act with
  | NoCall | CallWrite => mret ()
  | CallRead => OnRead (cbarg e) ev
  | CallError _ => OnError (cbarg e)
  end.

Definition event_read (ev : Z) (event : Z) (fd : fd_input) : sm P unit :=
  e ← deref_in bevs ev;
  s ← get;
  '(e, act) ← lift (bufferevent_readcb (n_alloc s) (n_evadd s) (set_read e false) event fd);
  dispatch ev e act.

Definition event_write (ev : Z) (event : Z) (fd : fd_output) : sm P (list byte) :=
  e ← deref_in bevs ev;
  s ← get;
  '(e, act, sent) ← lift (bufferevent_writecb (n_evadd s) (set_write e false) event fd);
  dispatch ev e act;;
  mret sent.

(** * Sockets: server_socket.cpp, client_socket.cpp *)

(** The answers of the system calls. *)
Record sys_accept := mkAccept {
  a_accept : Z;
  a_getfl : Z;
  a_setfl : Z;
  a_alloc : bool * bool * bool
}.

Definition NewConnect (listenfd ServerSock : Z) (y : sys_accept) : sm P unit :=
  let client_fd := a_accept y in
  if client_fd <? 0 then
    throw (SocketError_literal listenfd SERVER_CREATE_PEER_ERR "Accept Failed,Can not Create Client Vfd")
  else
    open_fd client_fd;;
    if (a_getfl y =? -1) || negb (a_setfl y =? 0) then
      close client_fd;;
      throw (SocketError_literal client_fd SERVER_CREATE_PEER_ERR "Set Non Block Failed")
    else
      PeerObj ← clsPeerPoint_new (a_alloc y) client_fd SERVER_TYPE;
      AddPeerObj client_fd PeerObj;;
      AddPeerServerMap client_fd ServerSock;;
      OnConnect client_fd.

Record sys_start := mkStart {
  st_socket : Z;
  st_setsockopt : Z;
  st_bind : Z;
  st_listen : Z;
  st_getfl : Z;
  st_setfl : Z;
  st_malloc : bool
}.

Definition close_throw (fd ErrNo : Z) (msg : string) : sm P unit :=
  close fd;; throw (SocketError_literal fd ErrNo msg).

Definition Start (this : Z) (y : sys_start) : sm P unit :=
  let socketfd := st_socket y in
  if socketfd <? 0 then throw (SocketError_literal socketfd SERVER_CREATE_ERR "Create Server Vfd Failed")
  else
    open_fd socketfd;;
    if st_setsockopt y =? -1 then close_throw socketfd SERVER_CREATE_ERR "Set ReUseAddr Failed"
    else if st_bind y <? 0 then close_throw socketfd SERVER_CREATE_ERR "Bind Failed"
    else if negb (st_listen y =? 0) then close_throw socketfd SERVER_CREATE_ERR "Listen Failed"
    else if (st_getfl y =? -1) || negb (st_setfl y =? 0) then
      close_throw socketfd SERVER_CREATE_ERR "Set Non Block Failed"
    else
      so ← deref_in servers this;
      modify (with_servers <[this := mkServer (Some socketfd) (ss_Port so) (ss_MaxNumber so)
                                       (ss_PacketClass so)]>);;
      lift (require (st_malloc y) NullDeref);;
      s ← get;
      modify (with_listeners (fun l => if n_evadd s then l ++ [(socketfd, this)] else l));;
      AddServerObj socketfd this;;
      mret ().

Record sys_connect := mkConnect {
  c_socket : Z;
  c_connect : Z;
  c_getfl : Z;
  c_setfl : Z;
  c_alloc : bool * bool * bool
}.

Definition Connect (this : Z) (y : sys_connect) : sm P unit :=
  c ← deref_in clients this;
  let ClientFd := c_socket y in
  let AimInfo := cs_Ip c in
  if ClientFd <? 0 then
    throw (SocketError_string ClientFd CLIENT_CREATE_ERR (AimInfo +:+ "Create File Describtion error!"))
  else
    open_fd ClientFd;;
    cout ["try to Connect Ip:"%string; cs_Ip c; " Port:"%string; pretty (cs_Port c)];;
    if c_connect y <? 0 then
      throw (SocketError_string ClientFd CONN_ERR (AimInfo +:+ " Connect Failed"))
    else if (c_getfl y =? -1) || negb (c_setfl y =? 0) then
      close ClientFd;;
      throw (SocketError_string ClientFd CLIENT_CREATE_ERR (AimInfo +:+ "Set NonBlock Failed"))
    else
      PeerObj ← clsPeerPoint_new (c_alloc y) ClientFd CLIENT_TYPE;
      AddPeerObj ClientFd PeerObj;;
      AddPeerClientMap ClientFd this;;
      AddClientObj ClientFd this;;
      OnConnect ClientFd.

(** [clsClientSocket::Close]. *)
Definition ClientSocket_Close (this : Z) : sm P unit :=
  c ← deref_in clients this; close (cs_Vfd c).

(** [None] is the null pointer; [ok] the allocation of the error message. *)
Definition CreateServerSocket (ok : bool) (Port : Z) (PacketClass : option Z) (y : sys_start)
  : sm P (option Z) :=
  ServerSock ← new_addr;
  modify (with_servers <[ServerSock := mkServer None Port 1024 PacketClass]>);;
  try_catch
    (Start ServerSock y;;
     cout ["Create Server At Port="%string; pretty Port];;
     mret (Some ServerSock))
    (fun e => msg ← lift (GetMsg ok e);
              cout [msg];;
              delete_server ServerSock;;
              mret None).

Definition CreateClientSocket (ok : bool) (Ip : string) (Port : Z) (PacketClass : option Z)
    (y : sys_connect) : sm P (option Z) :=
  ClientSock ← new_addr;
  modify (with_clients <[ClientSock := mkClient Ip Port (-1) PacketClass]>);;
  try_catch
    (Connect ClientSock y;;
     cout ["Create Client conn Ok,Ip="%string; Ip; ",Port="%string; pretty Port];;
     mret (Some ClientSock))
    (fun e => msg ← lift (GetMsg ok e);
              cout [msg];;
              delete_client ClientSock;;
              mret None).

End Callbacks.
