(* ===== verification/SocketCorrect.v ===== *)
(** Correctness of the socket layer: the registry's invariant and what the
    operations do under it, for every packet handler that keeps to its
    interface. *)
From S2P Require Import Prelude EvBuffer BufferEvent SocketManager.

(** * Rules for the statements *)

Section Rules.
Context {P : Type} (F : fault -> Prop).
Implicit Types s : net P.

(** The run from [s] ends in a state and with a result that satisfy [Q], or
    with a fault that [F] allows. *)
Definition post {A} (m : sm P A) (Q : res A -> net P -> Prop) s : Prop :=
  match m s with Ok (r, s') => Q r s' | UB f => F f end.

Lemma post_mono {A} (m : sm P A) (Q Q' : res A -> net P -> Prop) s :
  post m Q s -> (forall r s', Q r s' -> Q' r s') -> post m Q' s.
Proof. unfold post. intros H HQ. destruct (m s) as [[]|]; auto. Qed.

Lemma post_bind {A B} (m : sm P A) (k : A -> sm P B) (Q : res B -> net P -> Prop) s :
  post m (fun r s' => match r with Val a => post (k a) Q s' | Throw e => Q (Throw e) s' end) s ->
  post (m ≫= k) Q s.
Proof. unfold post, mbind, sm_bind. destruct (m s) as [[[]]|]; auto. Qed.

Lemma post_ret {A} (a : A) (Q : res A -> net P -> Prop) s : Q (Val a) s -> post (mret a) Q s.
Proof. done. Qed.

Lemma post_get (Q : res (net P) -> net P -> Prop) s : Q (Val s) s -> post get Q s.
Proof. done. Qed.

Lemma post_modify f (Q : res unit -> net P -> Prop) s : Q (Val ()) (f s) -> post (modify f) Q s.
Proof. done. Qed.

Lemma post_deref {X} (store : net P -> gmap Z X) a x (Q : res X -> net P -> Prop) s :
  store s !! a = Some x -> Q (Val x) s -> post (deref_in store a) Q s.
Proof. unfold post, deref_in. by intros ->. Qed.

Lemma post_lift {A} (r : cres A) (a : A) (Q : res A -> net P -> Prop) s :
  r = Ok a -> Q (Val a) s -> post (lift r) Q s.
Proof. by intros ->. Qed.

Lemma post_eq {A} (m : sm P A) (Q : res A -> net P -> Prop) s r s' :
  m s = Ok (r, s') -> Q r s' -> post m Q s.
Proof. unfold post. by intros ->. Qed.

End Rules.

(** One statement: runs it and goes to the rest. *)
Ltac sstep :=
  lazymatch goal with
  | |- post _ (get ≫= _) _ _ => apply post_bind; apply post_get; cbv beta iota
  | |- post _ (modify _ ≫= _) _ _ => apply post_bind; apply post_modify; cbv beta iota
  | |- post _ (deref_in _ _ ≫= _) _ _ =>
      apply post_bind; eapply post_deref; [eassumption|]; cbv beta iota
  | |- post _ (lift _ ≫= _) _ _ =>
      apply post_bind; eapply post_lift; [eassumption|]; cbv beta iota
  | |- post _ (mret _) _ _ => apply post_ret
  end.

(** * The invariant *)

Section Invariant.
Context {P : Type}.
Implicit Types (s : net P) (m : SocketManager).

(** The connection registered under a descriptor, with its type. *)
Definition peer_at s (v : Z) (o : clsPeerPoint) : Prop :=
  exists a, PeerObjList (Manager s) !! v = Some a /\ peers s !! a = Some o /\ pp_Vfd o = v.

(** The maps agree with each other and with the objects. *)
Record maps_ok s : Prop := {
  mo_peer : forall v a, PeerObjList (Manager s) !! v = Some a ->
    exists o, peers s !! a = Some o /\ pp_Vfd o = v /\
      (pp_VfdType o = SERVER_TYPE /\ is_Some (PeerVfd2ServerObj (Manager s) !! v) \/
       pp_VfdType o = CLIENT_TYPE /\ is_Some (PeerVfd2ClientObj (Manager s) !! v));
  mo_peer_server : forall v a, PeerVfd2ServerObj (Manager s) !! v = Some a ->
    (exists o, peer_at s v o /\ pp_VfdType o = SERVER_TYPE) /\
    exists so w, servers s !! a = Some so /\ ss_Vfd so = Some w /\ ServerObjList (Manager s) !! w = Some a;
  mo_peer_client : forall v a, PeerVfd2ClientObj (Manager s) !! v = Some a ->
    (exists o, peer_at s v o /\ pp_VfdType o = CLIENT_TYPE) /\
    ClientObjList (Manager s) !! v = Some a /\ is_Some (clients s !! a);
  mo_client : forall v a, ClientObjList (Manager s) !! v = Some a ->
    PeerVfd2ClientObj (Manager s) !! v = Some a;
  mo_client_inj : forall v v' a, ClientObjList (Manager s) !! v = Some a ->
    ClientObjList (Manager s) !! v' = Some a -> v = v';
  mo_server : forall v a, ServerObjList (Manager s) !! v = Some a ->
    exists so, servers s !! a = Some so /\ ss_Vfd so = Some v
}.

(** Addresses from [next_addr] on are unused, registered descriptors are open,
    and every connection that is not being closed has its own buffered event, in
    good order. *)
Record resources_ok s : Prop := {
  ro_servers : forall a, next_addr s <= a -> servers s !! a = None;
  ro_clients : forall a, next_addr s <= a -> clients s !! a = None;
  ro_peers : forall a, next_addr s <= a -> peers s !! a = None;
  ro_bevs : forall a, next_addr s <= a -> bevs s !! a = None;
  ro_open_peer : forall v, is_Some (PeerObjList (Manager s) !! v) -> v ∈ fds s /\ 0 <= v;
  ro_open_server : forall v, is_Some (ServerObjList (Manager s) !! v) -> v ∈ fds s /\ 0 <= v;
  ro_bev : forall a o, peers s !! a = Some o -> pp_Status o <> 0 ->
    exists e iq oq, bevs s !! pp_BuffEv o = Some e /\ bev_inv e iq oq /\ cbarg e = a;
  ro_server_handler : forall a so, servers s !! a = Some so ->
    exists h, ss_PacketClass so = Some h /\ is_Some (packets s !! h);
  ro_client_handler : forall a c, clients s !! a = Some c ->
    exists h, cs_PacketClass c = Some h /\ is_Some (packets s !! h);
  ro_client_vfd : forall a c, clients s !! a = Some c -> cs_Vfd c = -1;
  ro_listeners : forall v a, (v, a) ∈ listeners s ->
    ServerObjList (Manager s) !! v = Some a;
  ro_alloc : alloc_sane (n_alloc s);
  ro_evadd : n_evadd s = true
}.

Definition net_ok s : Prop := maps_ok s /\ resources_ok s.

(** What a handler may change: its objects, the output of the connections and
    what is printed. *)
Record hframe s s' : Prop := {
  fr_manager : Manager s' = Manager s;
  fr_servers : servers s' = servers s;
  fr_clients : clients s' = clients s;
  fr_peers : peers s' = peers s;
  fr_next : next_addr s' = next_addr s;
  fr_listeners : listeners s' = listeners s;
  fr_fds : fds s' = fds s;
  fr_alloc : n_alloc s' = n_alloc s;
  fr_evadd : n_evadd s' = n_evadd s;
  fr_packets : dom (packets s') = dom (packets s);
  fr_bev_none : forall a, bevs s !! a = None -> bevs s' !! a = None;
  fr_bev : forall a e, bevs s !! a = Some e ->
    exists e', bevs s' !! a = Some e' /\ input e' = input e /\ cbarg e' = cbarg e /\
      forall iq oq, bev_inv e iq oq -> exists more, bev_inv e' iq (oq ++ more)
}.

#[export] Instance frame_refl : Reflexive hframe.
Proof.
  intros s. split; try done. intros a e He. exists e. split_and!; try done.
  intros iq oq Hi. exists []. by rewrite app_nil_r.
Qed.

#[export] Instance frame_trans : Transitive hframe.
Proof.
  intros s1 s2 s3 [] []. split; try congruence; [by auto|].
  intros a e He. destruct (fr_bev0 a e He) as (e2 & He2 & Hi2 & Hc2 & Hb2).
  destruct (fr_bev1 a e2 He2) as (e3 & He3 & Hi3 & Hc3 & Hb3).
  exists e3. split_and!; try congruence. intros iq oq Hb.
  destruct (Hb2 _ _ Hb) as [m1 Hm1]. destruct (Hb3 _ _ Hm1) as [m2 Hm2].
  exists (m1 ++ m2). by rewrite app_assoc.
Qed.

Lemma frame_ok s s' : net_ok s -> hframe s s' -> net_ok s'.
Proof.
  intros [M R] Fr. destruct Fr. split.
  - destruct M. split; unfold peer_at in *; rewrite ?fr_manager0, ?fr_servers0, ?fr_clients0, ?fr_peers0; done.
  - destruct R. split; rewrite ?fr_manager0, ?fr_servers0, ?fr_clients0, ?fr_peers0, ?fr_next0, ?fr_listeners0,
      ?fr_fds0, ?fr_alloc0, ?fr_evadd0; auto.
    + intros a o Ho Hst. destruct (ro_bev0 a o Ho Hst) as (e & iq & oq & He & Hb & Hc).
      destruct (fr_bev0 _ _ He) as (e' & He' & _ & Hc' & Hb'). destruct (Hb' _ _ Hb) as [more Hm].
      exists e', iq, (oq ++ more). split_and!; try done. congruence.
    + intros a so Hso. destruct (ro_server_handler0 a so Hso) as (h & Hh & Hp). exists h. split; [done|].
      apply elem_of_dom. rewrite fr_packets0. by apply elem_of_dom.
    + intros a c Hc. destruct (ro_client_handler0 a c Hc) as (h & Hh & Hp). exists h. split; [done|].
      apply elem_of_dom. rewrite fr_packets0. by apply elem_of_dom.
Qed.

Lemma frame_stdout s f : hframe s (with_stdout f s).
Proof. destruct (frame_refl s). split; done. Qed.

End Invariant.

(** * What the manager relies on *)

(** A packet handler keeps to its interface: from a good state each function,
    called on a live object, returns and leaves a state that differs only where
    a handler may write, or ends with a fault that [F] allows. *)
Class PacketLaws (P : Type) `{!PacketInterface P} (F : fault -> Prop) := {
  on_read_frame : forall (s : net P) this v buf, net_ok s -> is_Some (packets s !! this) ->
    post F (PacketOnRead this v buf) (fun r s' => (exists b, r = Val b) /\ hframe s s') s;
  on_error_frame : forall (s : net P) this v, net_ok s -> is_Some (packets s !! this) ->
    post F (PacketOnError this v) (fun r s' => (exists b, r = Val b) /\ hframe s s') s;
  on_connect_frame : forall (s : net P) this v, net_ok s -> is_Some (packets s !! this) ->
    post F (PacketOnConnect this v) (fun r s' => (exists b, r = Val b) /\ hframe s s') s
}.

Section Operations.
Context {P : Type} `{!PacketInterface P} (F : fault -> Prop).
Implicit Types s : net P.

(** * Finding the handler *)

(** The handler of the socket a connection belongs to. *)
Definition owner s (v h : Z) : Prop :=
  (exists a so, PeerVfd2ServerObj (Manager s) !! v = Some a /\ servers s !! a = Some so /\
     ss_PacketClass so = Some h) \/
  (exists a c, PeerVfd2ClientObj (Manager s) !! v = Some a /\ clients s !! a = Some c /\
     cs_PacketClass c = Some h).

Lemma find_handler_unknown s v :
  PeerObjList (Manager s) !! v = None -> find_handler v s = Ok (Val NoPeer, s).
Proof. intros H. unfold find_handler, mbind, sm_bind, get. by rewrite H. Qed.

Lemma find_handler_known s v :
  net_ok s -> is_Some (PeerObjList (Manager s) !! v) ->
  exists h, find_handler v s = Ok (Val (Handler h), s) /\ owner s v h /\ is_Some (packets s !! h).
Proof.
  intros [M R] [p Hp]. destruct (mo_peer s M v p Hp) as (o & Ho & Hv & Ht).
  unfold find_handler, mbind, sm_bind, get, deref_in. rewrite Hp, Ho.
  destruct Ht as [[-> [a Ha]]|[-> [a Ha]]]; cbn [Z.eqb SERVER_TYPE CLIENT_TYPE Pos.eqb]; rewrite Ha.
  - destruct (mo_peer_server s M v a Ha) as (_ & so & w & Hso & _).
    destruct (ro_server_handler s R a so Hso) as (h & Hh & Hlive). rewrite Hso, Hh.
    exists h. split_and!; try done. left. by exists a, so.
  - destruct (mo_peer_client s M v a Ha) as (_ & _ & c & Hc).
    destruct (ro_client_handler s R a c Hc) as (h & Hh & Hlive). rewrite Hc, Hh.
    exists h. split_and!; try done. right. by exists a, c.
Qed.

(** * Writing *)

Lemma with_bev_frame s ev e e' :
  bevs s !! ev = Some e -> input e' = input e -> cbarg e' = cbarg e ->
  (forall iq oq, bev_inv e iq oq -> exists more, bev_inv e' iq (oq ++ more)) ->
  hframe s (with_bevs <[ev := e']> s).
Proof.
  intros He Hi Hc Hinv. destruct (frame_refl s). split; try done.
  - intros a Ha. cbn. rewrite lookup_insert_ne; [done|]. congruence.
  - intros a x Hx. cbn. destruct (decide (a = ev)) as [->|Hne].
    + rewrite lookup_insert_eq. assert (x = e) as -> by congruence. by exists e'.
    + rewrite lookup_insert_ne by done. auto.
Qed.

Lemma bufferevent_write_cbarg alloc ok e data e' r :
  bufferevent_write alloc ok e data = Ok (e', r) -> cbarg e' = cbarg e.
Proof.
  unfold bufferevent_write. intros H. inv_ok. destruct r0 as [[b res] nt].
  unfold bufferevent_add_write in H. repeat case_match; by simplify_eq.
Qed.

Lemma PacketOnWrite_frame s v buf :
  net_ok s -> blen buf <= 2 ^ 62 ->
  post F (PacketOnWrite v buf) (fun r s' => (exists b, r = Val b) /\ hframe s s') s.
Proof.
  intros [M R] Hb. unfold PacketOnWrite, PeerVfdOnWrite. sstep.
  destruct (PeerObjList (Manager s) !! v) as [p|] eqn:Hp; [|sstep; split; [eauto|reflexivity]].
  destruct (mo_peer s M v p Hp) as (o & Ho & _). unfold WriteData. sstep.
  destruct (pp_Status o =? 0) eqn:Est; [sstep; split; [eauto|reflexivity]|]. bool_props.
  destruct (ro_bev s R p o Ho Est) as (e & iq & oq & He & Hinv & Hc). sstep. sstep.
  rewrite (ro_evadd s R).
  destruct (bufferevent_write_inv (n_alloc s) e iq oq buf (ro_alloc s R) Hinv Hb)
    as (e' & r & Hw & Hi & _). sstep. sstep. sstep. split; [eauto|].
  apply (with_bev_frame s _ e); [done|done|by eapply bufferevent_write_cbarg|].
  intros iq' oq' Hinv'.
  destruct (bufferevent_write_inv (n_alloc s) e iq' oq' buf (ro_alloc s R) Hinv' Hb)
    as (e1 & r1 & Hw1 & _ & Hres). rewrite Hw in Hw1. injection Hw1 as <- <-.
  destruct Hres as [[_ ?]|(_ & ? & _)]; [by exists buf|exists []; by rewrite app_nil_r].
Qed.

(** * Closing a connection *)

Lemma delete_peer_eq s a o : peers s !! a = Some o -> delete_peer a s = Ok (Val (), with_peers (delete a) s).
Proof. intros H. unfold delete_peer, mbind, sm_bind, deref_in. by rewrite H. Qed.

(** The state once a connection is out of the registry: its object is gone, and
    for a connection this program opened also the client socket. *)
Definition drop_server_peer (v p : Z) s : net P :=
  with_manager (set_PeerVfd2ServerObj (delete v))
    (with_peers (delete p) (with_manager (set_PeerObjList (delete v)) s)).

Definition drop_client_peer (v p a : Z) s : net P :=
  with_manager (set_ClientObjList (delete v))
    (with_clients (delete a) (with_fds (fun G => G ∖ {[-1]})
      (with_manager (set_PeerVfd2ClientObj (delete v))
        (with_peers (delete p) (with_manager (set_PeerObjList (delete v)) s))))).

Lemma DelPeerVfd_server s v p o a :
  PeerObjList (Manager s) !! v = Some p -> peers s !! p = Some o ->
  PeerVfd2ServerObj (Manager s) !! v = Some a ->
  DelPeerVfd v SERVER_TYPE s = Ok (Val true, drop_server_peer v p s).
Proof.
  intros Hp Ho Ha. unfold DelPeerVfd, mbind, sm_bind, get, modify. rewrite Hp.
  rewrite (delete_peer_eq _ p o) by done. cbn. by rewrite Ha.
Qed.

Lemma DelPeerVfd_client s v p o a c :
  PeerObjList (Manager s) !! v = Some p -> peers s !! p = Some o ->
  PeerVfd2ClientObj (Manager s) !! v = Some a -> ClientObjList (Manager s) !! v = Some a ->
  clients s !! a = Some c -> cs_Vfd c = -1 ->
  DelPeerVfd v CLIENT_TYPE s = Ok (Val true, drop_client_peer v p a s).
Proof.
  intros Hp Ho Ha Hc Hcl Hv. unfold DelPeerVfd, mbind, sm_bind, get, modify. rewrite Hp.
  rewrite (delete_peer_eq _ p o) by done. cbn. rewrite Ha.
  unfold DelClientVfd, delete_client, mbind, sm_bind, get, modify, deref_in, close. cbn.
  rewrite Hc. cbn. rewrite Hcl, Hv. done.
Qed.

(** Two descriptors never share a connection object. *)
Lemma peer_addr_ne s v p v' p' :
  maps_ok s -> PeerObjList (Manager s) !! v = Some p -> PeerObjList (Manager s) !! v' = Some p' ->
  v' <> v -> p' <> p.
Proof.
  intros M Hp Hp' Hne ->. destruct (mo_peer s M _ _ Hp) as (o & Ho & Hv & _).
  destruct (mo_peer s M _ _ Hp') as (o' & Ho' & Hv' & _). congruence.
Qed.

Lemma peer_at_drop s s' v p v' o :
  maps_ok s -> PeerObjList (Manager s) !! v = Some p -> v' <> v ->
  PeerObjList (Manager s') = delete v (PeerObjList (Manager s)) -> peers s' = delete p (peers s) ->
  peer_at s v' o -> peer_at s' v' o.
Proof.
  intros M Hp Hne Hl Hs (a & Ha & Ho & Hv). exists a. rewrite Hl, Hs.
  pose proof (peer_addr_ne s v p v' a M Hp Ha Hne).
  rewrite !lookup_delete_ne by done. done.
Qed.

Lemma drop_server_maps s v p o :
  maps_ok s -> PeerObjList (Manager s) !! v = Some p -> peers s !! p = Some o ->
  pp_VfdType o = SERVER_TYPE -> maps_ok (drop_server_peer v p s).
Proof.
  intros M Hp Ho Ht.
  assert (Hno : PeerVfd2ClientObj (Manager s) !! v = None).
  { destruct (PeerVfd2ClientObj (Manager s) !! v) as [a|] eqn:E; [|done].
    destruct (mo_peer_client s M v a E) as ((o' & (a' & Ha' & Ho' & _) & Ht') & _). simplify_eq.
    unfold SERVER_TYPE, CLIENT_TYPE in *. congruence. }
  pose proof (fun v' o' Hne => peer_at_drop s (drop_server_peer v p s) v p v' o' M Hp Hne eq_refl eq_refl) as Hat.
  split; cbn -[peer_at].
  - intros v' a Ha. apply lookup_delete_Some in Ha as [Hne Ha].
    destruct (mo_peer s M v' a Ha) as (o' & Ho' & Hv' & Hty). exists o'.
    pose proof (peer_addr_ne s v p v' a M Hp Ha ltac:(done)). cbn. rewrite !lookup_delete_ne by done. done.
  - intros v' a Ha. apply lookup_delete_Some in Ha as [Hne Ha].
    destruct (mo_peer_server s M v' a Ha) as ((o' & Hat' & Hty) & Hs). split; [|done].
    exists o'. split; [|done]. by apply Hat.
  - intros v' a Ha. destruct (mo_peer_client s M v' a Ha) as ((o' & Hat' & Hty) & Hc).
    split; [|done]. exists o'. split; [|done]. apply Hat; [|done]. congruence.
  - apply (mo_client s M).
  - apply (mo_client_inj s M).
  - apply (mo_server s M).
Qed.

Lemma drop_client_maps s v p o a :
  maps_ok s -> PeerObjList (Manager s) !! v = Some p -> peers s !! p = Some o ->
  pp_VfdType o = CLIENT_TYPE -> PeerVfd2ClientObj (Manager s) !! v = Some a ->
  maps_ok (drop_client_peer v p a s).
Proof.
  intros M Hp Ho Ht Ha.
  assert (Hno : PeerVfd2ServerObj (Manager s) !! v = None).
  { destruct (PeerVfd2ServerObj (Manager s) !! v) as [b|] eqn:E; [|done].
    destruct (mo_peer_server s M v b E) as ((o' & (a' & Ha' & Ho' & _) & Ht') & _). simplify_eq.
    unfold SERVER_TYPE, CLIENT_TYPE in *. congruence. }
  pose proof (fun v' o' Hne => peer_at_drop s (drop_client_peer v p a s) v p v' o' M Hp Hne eq_refl eq_refl) as Hat.
  destruct (mo_peer_client s M v a Ha) as (_ & HaC & _).
  split; cbn -[peer_at].
  - intros v' a' Ha'. apply lookup_delete_Some in Ha' as [Hne Ha'].
    destruct (mo_peer s M v' a' Ha') as (o' & Ho' & Hv' & Hty). exists o'.
    pose proof (peer_addr_ne s v p v' a' M Hp Ha' ltac:(done)). cbn. rewrite !lookup_delete_ne by done. done.
  - intros v' a' Ha'. destruct (mo_peer_server s M v' a' Ha') as ((o' & Hat' & Hty) & Hs). split; [|done].
    exists o'. split; [|done]. apply Hat; [|done]. congruence.
  - intros v' a' Ha'. apply lookup_delete_Some in Ha' as [Hne Ha'].
    destruct (mo_peer_client s M v' a' Ha') as ((o' & Hat' & Hty) & HC & Hcl).
    assert (a' <> a) by (intros ->; by apply Hne, (mo_client_inj s M v v' a)).
    split; [exists o'; split; [by apply Hat|done]|]. cbn. rewrite !lookup_delete_ne by done. done.
  - intros v' a' Ha'. apply lookup_delete_Some in Ha' as [Hne Ha']. rewrite lookup_delete_ne by done.
    by apply (mo_client s M).
  - intros v1 v2 a' [_ H1]%lookup_delete_Some [_ H2]%lookup_delete_Some. by apply (mo_client_inj s M v1 v2 a').
  - apply (mo_server s M).
Qed.

(** A smaller state keeps its resources. *)
Lemma drop_resources s s' :
  resources_ok s -> next_addr s' = next_addr s -> bevs s' = bevs s -> packets s' = packets s ->
  listeners s' = listeners s -> n_alloc s' = n_alloc s -> n_evadd s' = n_evadd s ->
  servers s' = servers s -> clients s' ⊆ clients s -> peers s' ⊆ peers s ->
  ServerObjList (Manager s') = ServerObjList (Manager s) ->
  PeerObjList (Manager s') ⊆ PeerObjList (Manager s) ->
  (forall v, 0 <= v -> v ∈ fds s -> v ∈ fds s') -> resources_ok s'.
Proof.
  intros R En Eb Ep El Ea Ee Es Hc Hp ES HP Hf. destruct R.
  split; rewrite ?En, ?Eb, ?Ep, ?El, ?Ea, ?Ee, ?Es, ?ES; auto.
  - intros a Ha. eapply lookup_weaken_None; eauto.
  - intros a Ha. eapply lookup_weaken_None; eauto.
  - intros v [a Ha]. destruct (ro_open_peer0 v) as [? ?]; [|auto].
    exists a. eapply lookup_weaken; eauto.
  - intros v Hv. destruct (ro_open_server0 v Hv). auto.
  - intros a o Ho. apply (ro_bev0 a o). eapply lookup_weaken; eauto.
  - intros a c Hcl. apply (ro_client_handler0 a c). eapply lookup_weaken; eauto.
  - intros a c Hcl. apply (ro_client_vfd0 a c). eapply lookup_weaken; eauto.
Qed.

Lemma drop_server_ok s v p o :
  net_ok s -> PeerObjList (Manager s) !! v = Some p -> peers s !! p = Some o ->
  pp_VfdType o = SERVER_TYPE -> net_ok (drop_server_peer v p s).
Proof.
  intros [M R] Hp Ho Ht. split; [by eapply drop_server_maps|].
  eapply drop_resources; try exact R; try done; cbn; apply delete_subseteq.
Qed.

Lemma drop_client_ok s v p o a :
  net_ok s -> PeerObjList (Manager s) !! v = Some p -> peers s !! p = Some o ->
  pp_VfdType o = CLIENT_TYPE -> PeerVfd2ClientObj (Manager s) !! v = Some a ->
  net_ok (drop_client_peer v p a s).
Proof.
  intros [M R] Hp Ho Ht Ha. split; [by eapply drop_client_maps|].
  eapply drop_resources; try exact R; try done; cbn; try apply delete_subseteq.
  intros w Hw Hin. apply elem_of_difference. split; [done|]. rewrite elem_of_singleton. lia.
Qed.

(** * Reading *)

Lemma with_bev_ok s ev e e' iq oq :
  net_ok s -> bevs s !! ev = Some e -> cbarg e' = cbarg e -> bev_inv e' iq oq ->
  net_ok (with_bevs <[ev := e']> s).
Proof.
  intros [M R] He Hc Hinv. split; [by destruct M; split|]. destruct R. split; try done; cbn.
  - intros a Ha. rewrite lookup_insert_ne; [by apply ro_bevs0|]. intros ->.
    rewrite ro_bevs0 in He; done.
  - intros a o Ho Hst. destruct (ro_bev0 a o Ho Hst) as (e1 & iq1 & oq1 & He1 & Hi1 & Hc1).
    destruct (decide (pp_BuffEv o = ev)) as [Heq|Hne].
    + exists e', iq, oq. rewrite Heq, lookup_insert_eq. split_and!; try done. congruence.
    + exists e1, iq1, oq1. by rewrite lookup_insert_ne.
Qed.

Lemma bufferevent_read_cbarg ok e size e' bs :
  bufferevent_read ok e size = Ok (e', bs) -> cbarg e' = cbarg e.
Proof.
  unfold bufferevent_read. intros H. inv_ok. destruct (_ =? 0); [by simplify_eq|].
  destruct (evbuffer_drain _ _) as [b nt]. injection H as <- <-.
  by destruct (input_changed_frame ok (set_input e b) nt) as (_ & _ & _ & _ & _ & _ & _ & Hc & _).
Qed.

(** One round of the reading loop: a block is taken off the input. *)
Definition take_step (ev : Z) (chunk : list byte) s s1 : Prop :=
  exists e e', bevs s !! ev = Some e /\ bufferevent_read (n_evadd s) e RECV_BLOCK_SIZE = Ok (e', chunk) /\
    s1 = with_bevs <[ev := e']> s.

(** The handler [h] is given the blocks one after the other. *)
Inductive fed (h v ev : Z) : list (list byte) -> net P -> net P -> Prop :=
| fed_nil s : fed h v ev [] s s
| fed_cons s s1 s2 s3 chunk chunks b :
    take_step ev chunk s s1 -> PacketOnRead h v chunk s1 = Ok (Val b, s2) ->
    fed h v ev chunks s2 s3 -> fed h v ev (chunk :: chunks) s s3.

Lemma owner_same s s' v h :
  Manager s' = Manager s -> servers s' = servers s -> clients s' = clients s -> owner s v h -> owner s' v h.
Proof. unfold owner. by intros -> -> ->. Qed.

Lemma owner_unique s v h h' : maps_ok s -> owner s v h -> owner s v h' -> h = h'.
Proof.
  intros M. assert (Hx : forall a b, PeerVfd2ServerObj (Manager s) !! v = Some a ->
    PeerVfd2ClientObj (Manager s) !! v = Some b -> False).
  { intros a b Ha Hb. destruct (mo_peer_server s M v a Ha) as ((o & (p & Hp & Ho & _) & Ht) & _).
    destruct (mo_peer_client s M v b Hb) as ((o' & (p' & Hp' & Ho' & _) & Ht') & _).
    simplify_eq. unfold SERVER_TYPE, CLIENT_TYPE in *. congruence. }
  intros [(a & x & ? & ? & ?)|(a & x & ? & ? & ?)] [(b & y & ? & ? & ?)|(b & y & ? & ? & ?)];
    simplify_eq; try done; exfalso; eauto.
Qed.

Lemma with_bevs_id s ev e : bevs s !! ev = Some e -> with_bevs <[ev := e]> s = s.
Proof. intros He. destruct s. unfold with_bevs. cbn in *. by rewrite insert_id. Qed.

Section Laws.
Context `{!PacketLaws P F}.

(** A block read for a connection goes to the handler of its socket. *)
Lemma PeerVfdOnRead_owner s v buf :
  net_ok s -> is_Some (PeerObjList (Manager s) !! v) ->
  exists h, owner s v h /\ is_Some (packets s !! h) /\ PeerVfdOnRead v buf s = PacketOnRead h v buf s.
Proof.
  intros Hok Hv. destruct (find_handler_known s v Hok Hv) as (h & Hf & Ho & Hl). exists h.
  split_and!; try done. unfold PeerVfdOnRead, mbind, sm_bind. by rewrite Hf.
Qed.

(** Nothing is left in the input of a buffered event. *)
Definition input_empty s (ev : Z) : Prop := exists e, bevs s !! ev = Some e /\ evrep (input e) [].

Lemma OnRead_loop_feeds fuel : forall s this p e iq oq h,
  net_ok s -> peers s !! this = Some p -> PeerObjList (Manager s) !! pp_Vfd p = Some this ->
  bevs s !! pp_BuffEv p = Some e -> bev_inv e iq oq -> owner s (pp_Vfd p) h ->
  (length iq < fuel)%nat ->
  post F (OnRead_loop fuel this (pp_BuffEv p))
    (fun r s' => r = Val () /\ net_ok s' /\ exists chunks,
       fed h (pp_Vfd p) (pp_BuffEv p) chunks s s' /\ concat chunks = iq /\
       Forall (fun c => 0 < blen c <= RECV_BLOCK_SIZE) chunks /\ input_empty s' (pp_BuffEv p)) s.
Proof.
  induction fuel as [|fuel IH]; intros s this p e iq oq h Hok Hp Hreg He Hinv Hown Hf; [lia|].
  cbn [OnRead_loop]. sstep. sstep. pose proof Hok as [M R]. rewrite (ro_evadd s R).
  destruct (bufferevent_read_inv e iq oq RECV_BLOCK_SIZE Hinv) as (e' & Hr & Hinv');
    [unfold RECV_BLOCK_SIZE; lia|].
  pose proof (bufferevent_read_cbarg _ _ _ _ _ Hr) as Hc.
  set (chunk := take (Z.to_nat RECV_BLOCK_SIZE) iq) in *. sstep. sstep.
  destruct (blen chunk =? 0) eqn:E; bool_props.
  { apply blen_nil_inv in E.
    assert (iq = []) as -> by (destruct iq as [|x iq]; [done|discriminate E]).
    sstep. split; [done|]. split; [by eapply with_bev_ok|]. exists []. split_and!; [|done|constructor|].
    2:{ exists e'. split; [apply lookup_insert_eq|]. by apply (bi_input _ _ _ Hinv'). }
    assert (e' = e) as ->.
    { unfold bufferevent_read in Hr. pose proof (evrep_off _ _ (bi_input _ _ _ Hinv)) as Ho.
      rewrite blen_nil in Ho. rewrite Ho in Hr. cbn in Hr. by simplify_eq. }
    rewrite with_bevs_id by done. constructor. }
  pose proof (with_bev_ok s _ e e' _ _ Hok He Hc Hinv') as Hok1.
  set (s1 := with_bevs <[pp_BuffEv p := e']> s) in *.
  apply post_bind. eapply post_deref; [exact Hp|]. cbv beta iota.
  destruct (PeerVfdOnRead_owner s1 (pp_Vfd p) chunk Hok1 ltac:(by exists this))
    as (h' & Hown' & Hlive & Heq).
  assert (h' = h) as -> by (eapply (owner_unique s1); [apply Hok1|done|by apply (owner_same s s1)]).
  pose proof (on_read_frame s1 h (pp_Vfd p) chunk Hok1 Hlive) as Hlaw.
  apply post_bind. unfold post in Hlaw |- *. rewrite Heq.
  destruct (PacketOnRead h (pp_Vfd p) chunk s1) as [[r s2]|f] eqn:Ecall; [|exact Hlaw].
  destruct Hlaw as ((b & ->) & Hfr).
  assert (He1 : bevs s1 !! pp_BuffEv p = Some e') by (cbn; apply lookup_insert_eq).
  destruct (fr_bev s1 s2 Hfr _ _ He1) as (e2 & He2 & Hi2 & _ & Hb2).
  destruct (Hb2 _ _ Hinv') as [more Hinv2].
  assert (Hlen : (length (drop (Z.to_nat RECV_BLOCK_SIZE) iq) < fuel)%nat).
  { rewrite length_drop. assert (0 < length iq)%nat; [|unfold RECV_BLOCK_SIZE; lia].
    destruct iq; [|simpl; lia]. by destruct E. }
  assert (Hp2 : peers s2 !! this = Some p) by (by rewrite (fr_peers s1 s2 Hfr)).
  assert (Hreg2 : PeerObjList (Manager s2) !! pp_Vfd p = Some this) by (by rewrite (fr_manager s1 s2 Hfr)).
  assert (Hown2 : owner s2 (pp_Vfd p) h).
  { apply (owner_same s s2); [apply (fr_manager s1 s2 Hfr)|apply (fr_servers s1 s2 Hfr)|
      apply (fr_clients s1 s2 Hfr)|done]. }
  pose proof (IH s2 this p e2 _ _ h (frame_ok s1 s2 Hok1 Hfr) Hp2 Hreg2 He2 Hinv2 Hown2 Hlen) as Hrest.
  unfold post in Hrest. destruct (OnRead_loop fuel this (pp_BuffEv p) s2) as [[r' s3]|f]; [|done].
  destruct Hrest as (-> & Hok3 & chunks & Hfed & Hcat & Hall & Hempty).
  split; [done|]. split; [done|]. exists (chunk :: chunks). split_and!.
  - econstructor; [|exact Ecall|exact Hfed]. exists e, e'. split_and!; try done.
    by rewrite (ro_evadd s R).
  - simpl. rewrite Hcat. apply take_drop.
  - constructor; [|done]. pose proof (blen_nonneg chunk). split; [lia|].
    unfold chunk, blen, RECV_BLOCK_SIZE. rewrite length_take. lia.
  - done.
Qed.

Lemma OnRead_feeds s this p e iq oq :
  net_ok s -> peers s !! this = Some p -> PeerObjList (Manager s) !! pp_Vfd p = Some this ->
  pp_Status p <> 0 -> bevs s !! pp_BuffEv p = Some e -> bev_inv e iq oq ->
  post F (OnRead this (pp_BuffEv p))
    (fun r s' => r = Val () /\ net_ok s' /\ exists h chunks, owner s (pp_Vfd p) h /\
       fed h (pp_Vfd p) (pp_BuffEv p) chunks s s' /\ concat chunks = iq /\
       Forall (fun c => 0 < blen c <= RECV_BLOCK_SIZE) chunks /\ input_empty s' (pp_BuffEv p)) s.
Proof.
  intros Hok Hp Hreg Hst He Hinv. unfold OnRead. sstep.
  rewrite (proj2 (Z.eqb_neq _ _)) by done. sstep.
  destruct (find_handler_known s (pp_Vfd p) Hok ltac:(by exists this)) as (h & _ & Hown & _).
  eapply post_mono; [eapply (OnRead_loop_feeds _ s this p e iq oq h); try done|].
  - rewrite (evrep_off _ _ (bi_input _ _ _ Hinv)). unfold blen. lia.
  - intros r s' (-> & Hok' & chunks & ?). split; [done|]. split; [done|]. by exists h, chunks.
Qed.

(** * Closing *)

(** After the connection [v] with object [p] was closed. *)
Record closed (v p : Z) s s' : Prop := {
  cl_ok : net_ok s';
  cl_gone : PeerObjList (Manager s') = delete v (PeerObjList (Manager s));
  cl_server_gone : PeerVfd2ServerObj (Manager s') !! v = None;
  cl_client_gone : PeerVfd2ClientObj (Manager s') !! v = None /\ ClientObjList (Manager s') !! v = None;
  cl_freed : peers s' !! p = None;
  cl_others : forall v' o, v' <> v -> peer_at s v' o -> peer_at s' v' o;
  cl_servers : ServerObjList (Manager s') = ServerObjList (Manager s) /\ servers s' = servers s
}.

Lemma DelPeerVfd_closes s v p o :
  net_ok s -> PeerObjList (Manager s) !! v = Some p -> peers s !! p = Some o ->
  exists s', DelPeerVfd (pp_Vfd o) (pp_VfdType o) s = Ok (Val true, s') /\ closed v p s s'.
Proof.
  intros Hok Hp Ho. pose proof Hok as [M R].
  destruct (mo_peer s M v p Hp) as (o' & Ho' & Hv & Hty). assert (o' = o) as -> by congruence.
  rewrite Hv. destruct Hty as [[Ht [a Ha]]|[Ht [a Ha]]]; rewrite Ht.
  - exists (drop_server_peer v p s). rewrite (DelPeerVfd_server s v p o a) by done.
    split; [done|]. pose proof (drop_server_ok s v p o Hok Hp Ho Ht) as Hok'.
    assert (Hnc : PeerVfd2ClientObj (Manager s) !! v = None).
    { destruct (PeerVfd2ClientObj (Manager s) !! v) as [c|] eqn:E; [|done].
      destruct (mo_peer_client s M v c E) as ((o2 & (p2 & Hp2 & Ho2 & _) & Ht2) & _). simplify_eq.
      unfold SERVER_TYPE, CLIENT_TYPE in *. congruence. }
    split; try done; cbn; try apply lookup_delete_eq.
    + split; [done|]. destruct (ClientObjList (Manager s) !! v) as [c|] eqn:E; [|done].
      apply (mo_client s M) in E. congruence.
    + intros v' o2 Hne Hat. by apply (peer_at_drop s _ v p v' o2).
  - destruct (mo_peer_client s M v a Ha) as (_ & HaC & c & Hc).
    exists (drop_client_peer v p a s).
    rewrite (DelPeerVfd_client s v p o a c) by (done || by apply (ro_client_vfd s R a)).
    split; [done|]. pose proof (drop_client_ok s v p o a Hok Hp Ho Ht Ha) as Hok'.
    split; try done; cbn; try apply lookup_delete_eq.
    + destruct (PeerVfd2ServerObj (Manager s) !! v) as [b|] eqn:E; [|done].
      destruct (mo_peer_server s M v b E) as ((o2 & (p2 & Hp2 & Ho2 & _) & Ht2) & _). simplify_eq.
      unfold SERVER_TYPE, CLIENT_TYPE in *. congruence.
    + split; apply lookup_delete_eq.
    + intros v' o2 Hne Hat. by apply (peer_at_drop s _ v p v' o2).
Qed.

Lemma PeerVfdOnClose_closes s v p :
  net_ok s -> PeerObjList (Manager s) !! v = Some p ->
  post F (PeerVfdOnClose v) (fun r s' => r = Val true /\ closed v p s s') s.
Proof.
  intros Hok Hp. pose proof Hok as [M R]. destruct (mo_peer s M v p Hp) as (o & Ho & _).
  destruct (find_handler_known s v Hok ltac:(by exists p)) as (h & Hf & Hown & Hlive).
  unfold PeerVfdOnClose. sstep. rewrite Hp. apply post_bind. eapply post_eq; [exact Hf|]. cbv beta iota.
  apply post_bind. eapply post_mono; [by apply on_error_frame|].
  intros r s1 ((b & ->) & Hfr). pose proof (frame_ok s s1 Hok Hfr) as Hok1.
  assert (Ho1 : peers s1 !! p = Some o) by (by rewrite (fr_peers s s1 Hfr)).
  assert (Hp1 : PeerObjList (Manager s1) !! v = Some p) by (by rewrite (fr_manager s s1 Hfr)).
  sstep. destruct (DelPeerVfd_closes s1 v p o Hok1 Hp1 Ho1) as (s' & Hd & Hcl).
  eapply post_eq; [exact Hd|]. split; [done|].
  destruct Hcl as [H1 H2 H3 H4 H5 H6 [H7 H8]]. rewrite (fr_manager s s1 Hfr) in *. rewrite (fr_servers s s1 Hfr) in *.
  split; try done. intros v' o' Hne (a & Ha & Ho' & Hv'). apply H6; [done|]. exists a.
  rewrite (fr_manager s s1 Hfr), (fr_peers s s1 Hfr). done.
Qed.

(** A connection that is being closed keeps its registration, whatever becomes
    of its buffered event. *)
Lemma set_status_ok s this p bev' :
  net_ok s -> peers s !! this = Some p -> pp_Status p <> 0 ->
  (forall ev, ev <> pp_BuffEv p -> bev' !! ev = bevs s !! ev) ->
  (forall ev, next_addr s <= ev -> bev' !! ev = None) ->
  net_ok (with_peers <[this := mkPeer (pp_Vfd p) (pp_VfdType p) (pp_BuffEv p) 0]>
            (with_bevs (fun _ => bev') s)).
Proof.
  intros [M R] Hp Hst Hbev Hnext. set (p' := mkPeer _ _ _ 0).
  set (s' := with_peers _ _).
  assert (Hat : forall v o, peer_at s v o -> exists o', peer_at s' v o' /\ pp_VfdType o' = pp_VfdType o).
  { intros v o (a & Ha & Ho & Hv). destruct (decide (a = this)) as [->|Hne].
    - assert (o = p) as -> by congruence. exists p'. split; [|done]. exists this. cbn.
      by rewrite lookup_insert_eq.
    - exists o. split; [|done]. exists a. cbn. by rewrite lookup_insert_ne. }
  split.
  - destruct M. split; cbn -[peer_at]; try done.
    + intros v a Ha. destruct (mo_peer0 v a Ha) as (o & Ho & Hv & Hty).
      destruct (decide (a = this)) as [->|Hne].
      * exists p'. rewrite lookup_insert_eq. assert (o = p) as -> by congruence. done.
      * exists o. by rewrite lookup_insert_ne.
    + intros v a Ha. destruct (mo_peer_server0 v a Ha) as ((o & Ho & Ht) & Hs). split; [|done].
      destruct (Hat v o Ho) as (o' & ? & Ht'). exists o'. split; [done|congruence].
    + intros v a Ha. destruct (mo_peer_client0 v a Ha) as ((o & Ho & Ht) & Hs). split; [|done].
      destruct (Hat v o Ho) as (o' & ? & Ht'). exists o'. split; [done|congruence].
  - destruct (ro_bev s R this p Hp Hst) as (e0 & _ & _ & He0 & _ & Hc0).
    destruct R. split; cbn; try done.
    + intros a Ha. rewrite lookup_insert_ne; [by apply ro_peers0|]. intros ->. rewrite ro_peers0 in Hp; done.
    + intros a o Ho Hst'. apply lookup_insert_Some in Ho as [[<- <-]|[Hne Ho]]; [done|].
      destruct (ro_bev0 a o Ho Hst') as (e & iq & oq & He & Hi & Hc). exists e, iq, oq.
      split; [|done]. rewrite Hbev; [done|]. intros Heq. rewrite Heq in He. congruence.
Qed.

(** The connection deletes itself through the manager and then reads its own
    [_Vfd]. *)
Lemma OnError_uses_freed s this p :
  peers s !! this = Some p -> PeerObjList (Manager s) !! pp_Vfd p = Some this -> pp_Status p <> 0 ->
  net_ok (with_peers <[this := mkPeer (pp_Vfd p) (pp_VfdType p) (pp_BuffEv p) 0]> s) ->
  post (fun f => f = UseAfterFree \/ F f) (OnError this) (fun _ _ => False) s.
Proof.
  intros Hp Hreg Hst Hok1. unfold OnError. sstep. rewrite (proj2 (Z.eqb_neq _ _)) by done. sstep.
  set (s1 := with_peers _ s) in *. pose proof (PeerVfdOnClose_closes s1 (pp_Vfd p) this Hok1 Hreg) as Hcl.
  apply post_bind. unfold post in *. destruct (PeerVfdOnClose (pp_Vfd p) s1) as [[r s2]|f]; [|by right].
  destruct Hcl as [-> Hcl]. unfold mbind, sm_bind, deref_in. rewrite (cl_freed _ _ _ _ Hcl). by left.
Qed.

(** * Events *)

(** A connection whose object, registration and buffered event belong together. *)
Record connected s (this : Z) (p : clsPeerPoint) (e : bufferevent) (iq oq : list byte) : Prop := {
  co_ok : net_ok s;
  co_peer : peers s !! this = Some p;
  co_reg : PeerObjList (Manager s) !! pp_Vfd p = Some this;
  co_status : pp_Status p <> 0;
  co_ev : bevs s !! pp_BuffEv p = Some e;
  co_inv : bev_inv e iq oq
}.

Lemma connected_cbarg s this p e iq oq : connected s this p e iq oq -> cbarg e = this.
Proof.
  intros C. destruct (ro_bev s (proj2 (co_ok _ _ _ _ _ _ C)) this p (co_peer _ _ _ _ _ _ C)
    (co_status _ _ _ _ _ _ C)) as (e' & _ & _ & He' & _ & Hc). pose proof (co_ev _ _ _ _ _ _ C). congruence.
Qed.

(** Data that arrives on a connection goes to the handler of its socket: the
    bytes the input held and the ones read, in blocks, nothing left out. *)
Lemma event_read_feeds s this p e iq oq event ioctl avail again e' act :
  connected s this p e iq oq -> blen iq <= INT_MAX -> 0 <= ioctl.2 <= INT_MAX ->
  bufferevent_readcb (n_alloc s) true (set_read e false) event (from_fd ioctl avail again) = Ok (e', act) ->
  (forall w, act <> CallError w) ->
  post F (event_read (pp_BuffEv p) event (from_fd ioctl avail again))
    (fun r s' => r = Val () /\ net_ok s' /\
       (act = CallRead -> exists h chunks, owner s (pp_Vfd p) h /\
          fed h (pp_Vfd p) (pp_BuffEv p) chunks (with_bevs <[pp_BuffEv p := e']> s) s' /\
          concat chunks = iq ++ given_to_readcb (n_alloc s) e event (from_fd ioctl avail again) /\
          Forall (fun c => 0 < blen c <= RECV_BLOCK_SIZE) chunks /\ input_empty s' (pp_BuffEv p))) s.
Proof.
  intros C Hlen Hio Hcb Hne. pose proof (connected_cbarg _ _ _ _ _ _ C) as Harg.
  destruct C as [Hok Hp Hreg Hst He Hinv]. pose proof (ro_evadd s (proj2 Hok)) as Hev.
  destruct (bufferevent_readcb_inv (n_alloc s) e iq oq event ioctl avail again
    (ro_alloc s (proj2 Hok)) Hinv Hlen Hio) as (e1 & act1 & Hcb1 & _ & _ & Hinv').
  rewrite Hcb in Hcb1. injection Hcb1 as <- <-. specialize (Hinv' Hne).
  pose proof (bufferevent_readcb_cbarg _ _ _ _ _ _ _ Hcb) as Hc. cbn in Hc.
  pose proof (with_bev_ok s _ e e' _ _ Hok He Hc Hinv') as Hok1.
  unfold event_read. sstep. sstep. rewrite Hev. sstep. unfold dispatch. sstep.
  destruct act as [| | |w]; [sstep; split_and!; done| |sstep; split_and!; done|by destruct (Hne w)].
  rewrite Hc, Harg. set (s1 := with_bevs _ s) in *.
  eapply post_mono; [eapply (OnRead_feeds s1 this p e'); try done; cbn; apply lookup_insert_eq|].
  intros r s' (-> & Hok' & h & chunks & Hown & Hfed & Hcat & Hall & Hempty). split; [done|]. split; [done|].
  intros _. exists h, chunks. by split_and!.
Qed.

Lemma event_write_sends s this p e iq oq event fd e' act sent :
  connected s this p e iq oq -> blen oq < 2 ^ 63 -> -1 <= fo_write fd oq <= blen oq ->
  bufferevent_writecb true (set_write e false) event fd = Ok (e', act, sent) ->
  (forall w, act <> CallError w) ->
  post F (event_write (pp_BuffEv p) event fd)
    (fun r s' => r = Val sent /\ net_ok s' /\ sent `prefix_of` oq) s.
Proof.
  intros C Hlen Hfd Hcb Hne. destruct C as [Hok Hp Hreg Hst He Hinv].
  pose proof (ro_evadd s (proj2 Hok)) as Hev.
  destruct (bufferevent_writecb_inv e iq oq event fd Hinv Hlen Hfd) as (e1 & act1 & k & Hcb1 & _ & Hinv').
  rewrite Hcb in Hcb1. injection Hcb1 as <- <- ->. specialize (Hinv' Hne).
  pose proof (bufferevent_writecb_cbarg _ _ _ _ _ _ _ Hcb) as Hc. cbn in Hc.
  pose proof (with_bev_ok s _ e e' _ _ Hok He Hc Hinv') as Hok1.
  assert (Hnr : act <> CallRead).
  { unfold bufferevent_writecb in Hcb. destruct (event =? EV_TIMEOUT); [by simplify_eq|].
    inv_ok. destruct r as [[e2 res] bs]. repeat case_match; by simplify_eq. }
  unfold event_write. sstep. sstep. rewrite Hev. sstep. unfold dispatch. apply post_bind. sstep.
  destruct act as [| | |w]; [|done| |by destruct (Hne w)]; sstep; sstep; split_and!; try done;
    exists (drop k oq); by rewrite take_drop.
Qed.

(** An error or the end of the stream on a connection: the callback always ends
    in an access to the connection object it has deleted. *)
Lemma error_uses_freed s this p e iq oq e' w :
  connected s this p e iq oq -> cbarg e' = cbarg e ->
  post (fun f => f = UseAfterFree \/ F f) (dispatch (pp_BuffEv p) e' (CallError w)) (fun _ _ => False) s.
Proof.
  intros C Hc. pose proof (connected_cbarg _ _ _ _ _ _ C) as Harg. destruct C as [Hok Hp Hreg Hst He Hinv].
  unfold dispatch. sstep. rewrite Hc, Harg. apply (OnError_uses_freed _ this p); try done.
  apply (set_status_ok s this p (<[pp_BuffEv p := e']> (bevs s))); try done.
  - intros ev Hne. by rewrite lookup_insert_ne.
  - intros ev Hev. pose proof (ro_bevs s (proj2 Hok)) as Hb. rewrite lookup_insert_ne; [by apply Hb|].
    intros <-. rewrite Hb in He; done.
Qed.

(** * New connections *)

(** The fresh buffered event of a connection. *)
Definition fresh_bev (v this : Z) : bufferevent :=
  mkBufferevent v true false (mkEvbuffer None 0 0 0 0 None) (mkEvbuffer None 0 0 0 0 None)
    (0, 0) (0, 0) true false this 0 0 (Z.lor EV_WRITE EV_READ).

(** The state with one more connection: its object at the next address, its
    buffered event at the one after. *)
Definition add_conn (v ty : Z) (reg : SocketManager -> SocketManager) s : net P :=
  let this := next_addr s in
  mkNet (reg (set_PeerObjList <[v := this]> (Manager s))) (servers s) (clients s)
    (<[this := mkPeer v ty (this + 1) 1]> (peers s)) (<[this + 1 := fresh_bev v this]> (bevs s))
    (packets s) (this + 1 + 1) (listeners s) (fds s) (stdout s) (n_alloc s) (n_evadd s).

Lemma fresh_bev_inv v this : bev_inv (fresh_bev v this) [] [].
Proof.
  destruct (evrep_new _ eq_refl) as [He _].
  split; [done|done|by vm_compute|intros _; by left|by intros _ Hne].
Qed.

(** What every kind of connection adds to the resources. *)
Lemma add_conn_resources v ty reg s :
  resources_ok s -> v ∈ fds s -> 0 <= v ->
  (forall m, PeerObjList (reg m) = PeerObjList m) -> (forall m, ServerObjList (reg m) = ServerObjList m) ->
  resources_ok (add_conn v ty reg s).
Proof.
  intros R Hin Hv HP HS. destruct R. split; cbn; rewrite ?HP, ?HS; try done.
  - intros a Ha. apply ro_servers0. lia.
  - intros a Ha. apply ro_clients0. lia.
  - intros a Ha. rewrite lookup_insert_ne by lia. apply ro_peers0. lia.
  - intros a Ha. rewrite lookup_insert_ne by lia. apply ro_bevs0. lia.
  - intros w [a Ha]. cbn in Ha. apply lookup_insert_Some in Ha as [[<- _]|[_ Ha]]; [done|].
    apply ro_open_peer0. by exists a.
  - intros a o Ho Hst. apply lookup_insert_Some in Ho as [[<- <-]|[Hne Ho]].
    + exists (fresh_bev v (next_addr s)), [], []. cbn. rewrite lookup_insert_eq.
      split_and!; try done. apply fresh_bev_inv.
    + destruct (ro_bev0 a o Ho Hst) as (e & iq & oq & He & ?). exists e, iq, oq. split; [|done].
      rewrite lookup_insert_ne; [done|]. intros Heq. rewrite <- Heq, ro_bevs0 in He; [done|lia].
Qed.

Lemma peer_at_add v ty reg s v' o :
  resources_ok s -> (forall m, PeerObjList (reg m) = PeerObjList m) ->
  PeerObjList (Manager s) !! v = None -> peer_at s v' o -> peer_at (add_conn v ty reg s) v' o.
Proof.
  intros R HP Hv (a & Ha & Ho & Hvo). exists a. cbn. rewrite HP. cbn. rewrite lookup_insert_ne by congruence.
  rewrite lookup_insert_ne; [done|]. intros <-. rewrite (ro_peers s R) in Ho; [done|lia].
Qed.

Lemma add_server_conn_maps v a s :
  net_ok s -> PeerObjList (Manager s) !! v = None ->
  (exists so w, servers s !! a = Some so /\ ss_Vfd so = Some w /\ ServerObjList (Manager s) !! w = Some a) ->
  maps_ok (add_conn v SERVER_TYPE (set_PeerVfd2ServerObj <[v := a]>) s).
Proof.
  intros [M R] Hv Ha. set (s' := add_conn _ _ _ s).
  pose proof (fun v' o => peer_at_add v SERVER_TYPE (set_PeerVfd2ServerObj <[v := a]>) s v' o R
                (fun m => eq_refl) Hv) as Hat. fold s' in Hat.
  split; cbn -[peer_at].
  - intros v' p Hp. apply lookup_insert_Some in Hp as [[<- <-]|[Hne Hp]].
    + eexists. rewrite lookup_insert_eq. split; [done|]. split; [done|]. left. cbn.
      rewrite lookup_insert_eq. by split; [|eexists].
    + destruct (mo_peer s M v' p Hp) as (o & Ho & Hvo & Hty). exists o.
      rewrite lookup_insert_ne; [|intros <-; rewrite (ro_peers s R) in Ho; [done|lia]].
      by rewrite lookup_insert_ne.
  - intros v' b Hb. apply lookup_insert_Some in Hb as [[<- <-]|[Hne Hb]].
    + split; [|done]. exists (mkPeer v SERVER_TYPE (next_addr s + 1) 1). split; [|done].
      exists (next_addr s). cbn. by rewrite !lookup_insert_eq.
    + destruct (mo_peer_server s M v' b Hb) as ((o & Ho & Ht) & Hs). split; [|done].
      exists o. split; [by apply Hat|done].
  - intros v' b Hb. destruct (mo_peer_client s M v' b Hb) as ((o & Ho & Ht) & Hc). split; [|done].
    exists o. split; [by apply Hat|done].
  - apply (mo_client s M).
  - apply (mo_client_inj s M).
  - apply (mo_server s M).
Qed.

Lemma add_client_conn_maps v a s :
  net_ok s -> PeerObjList (Manager s) !! v = None -> is_Some (clients s !! a) ->
  (forall w, ClientObjList (Manager s) !! w <> Some a) ->
  maps_ok (add_conn v CLIENT_TYPE
    (fun m => set_ClientObjList <[v := a]> (set_PeerVfd2ClientObj <[v := a]> m)) s).
Proof.
  intros [M R] Hv Ha Hfresh. set (reg := fun m => _). set (s' := add_conn _ _ reg s).
  pose proof (fun v' o => peer_at_add v CLIENT_TYPE reg s v' o R (fun m => eq_refl) Hv) as Hat. fold s' in Hat.
  split; cbn -[peer_at].
  - intros v' p Hp. apply lookup_insert_Some in Hp as [[<- <-]|[Hne Hp]].
    + eexists. rewrite lookup_insert_eq. split; [done|]. split; [done|]. right. cbn.
      rewrite lookup_insert_eq. by split; [|eexists].
    + destruct (mo_peer s M v' p Hp) as (o & Ho & Hvo & Hty). exists o.
      rewrite lookup_insert_ne; [|intros <-; rewrite (ro_peers s R) in Ho; [done|lia]].
      by rewrite lookup_insert_ne.
  - intros v' b Hb. destruct (mo_peer_server s M v' b Hb) as ((o & Ho & Ht) & Hs). split; [|done].
    exists o. split; [by apply Hat|done].
  - intros v' b Hb. apply lookup_insert_Some in Hb as [[<- <-]|[Hne Hb]].
    + rewrite lookup_insert_eq. split; [|done]. exists (mkPeer v CLIENT_TYPE (next_addr s + 1) 1).
      split; [|done]. exists (next_addr s). cbn. by rewrite !lookup_insert_eq.
    + destruct (mo_peer_client s M v' b Hb) as ((o & Ho & Ht) & Hc). rewrite lookup_insert_ne by done.
      split; [|done]. exists o. split; [by apply Hat|done].
  - intros v' b Hb. apply lookup_insert_Some in Hb as [[<- <-]|[Hne Hb]].
    + by rewrite lookup_insert_eq.
    + rewrite lookup_insert_ne by done. by apply (mo_client s M).
  - intros v1 v2 b H1 H2. apply lookup_insert_Some in H1 as [[<- <-]|[Hn1 H1]];
      apply lookup_insert_Some in H2 as [[<- ?]|[Hn2 H2]]; try done.
    + by destruct (Hfresh v2).
    + subst. by destruct (Hfresh v1).
    + by apply (mo_client_inj s M v1 v2 b).
  - apply (mo_server s M).
Qed.
End Laws.
End Operations.
