(* ===== verification/SocketCreate.v ===== *)
(** Creating sockets and connections: what [CreateServerSocket],
    [CreateClientSocket] and [NewConnect] do to the registry and to the open
    descriptors on every outcome of the system calls. *)
From stdpp Require Import pretty.
From S2P Require Import Prelude EvBuffer BufferEvent SocketManager SocketCorrect.

(** * The length of an error message *)

Lemma pretty_N_go_length (k : nat) : forall (x : N) (s : string),
  (x < 10 ^ N.of_nat k)%N -> (String.length (pretty_N_go x s) <= k + String.length s)%nat.
Proof.
  induction k as [|k IH]; intros x s Hx.
  - change (10 ^ N.of_nat 0)%N with 1%N in Hx. assert (x = 0%N) as -> by lia. by rewrite pretty_N_go_0.
  - destruct (decide (x = 0%N)) as [->|Hne]; [rewrite pretty_N_go_0; lia|].
    rewrite pretty_N_go_step by lia. etransitivity; [apply IH|simpl; lia].
    apply N.Div0.div_lt_upper_bound. by rewrite <- N.pow_succ_r', <- Nat2N.inj_succ.
Qed.

Lemma string_length_app (a b : string) : String.length (a +:+ b) = (String.length a + String.length b)%nat.
Proof. induction a as [|c a IH]; simpl; [done|]. by rewrite IH. Qed.

(** A descriptor prints in at most eleven characters. *)
Lemma pretty_int_length (z : Z) :
  INT_MIN <= z <= INT_MAX -> (String.length (pretty z) <= 11)%nat.
Proof.
  assert (Hpos : forall p, (N.pos p < 10 ^ N.of_nat 10)%N -> (String.length (pretty (N.pos p)) <= 10)%nat).
  { intros p Hp. unfold pretty, pretty_N. case_decide; [done|].
    etransitivity; [by apply (pretty_N_go_length 10)|simpl; lia]. }
  assert (Hlim : (10 ^ N.of_nat 10 = 10000000000)%N) by reflexivity.
  unfold INT_MIN, INT_MAX. intros Hz. destruct z as [|p|p]; unfold pretty, pretty_Z.
  - simpl. lia.
  - apply (Nat.le_trans _ 10); [apply Hpos; lia|lia].
  - rewrite (string_length_app "-"). apply (Nat.add_le_mono 1 1 _ 10); [done|]. apply Hpos. lia.
Qed.

(** Every error thrown with a literal of at most 900 characters prints. *)
Lemma GetMsg_literal Vfd ErrNo name msg :
  INT_MIN <= Vfd <= INT_MAX -> 0 <= ErrNo -> ErrNo2Msg !! Z.to_nat ErrNo = Some name ->
  (String.length msg <= 900)%nat ->
  exists out, GetMsg true (SocketError_literal Vfd ErrNo msg) = Ok out.
Proof.
  intros Hv H0 Hn Hm. unfold GetMsg. cbn [se_ErrNo se_ErrMsg se_Vfd SocketError_literal].
  rewrite (proj2 (Z.ltb_ge _ _)) by done. rewrite Hn. cbn [of_option]. rewrite !bind_Ok.
  pose proof (pretty_int_length Vfd Hv).
  assert (String.length name <= 27)%nat.
  { assert (Forall (fun s => (String.length s <= 27)%nat) ErrNo2Msg) as HF.
    { repeat constructor; simpl; lia. }
    rewrite Forall_lookup in HF. eauto. }
  unfold require, MAX_ERR_MSG. rewrite (proj2 (Z.leb_le _ _)).
  - eexists. by rewrite !bind_Ok.
  - rewrite !string_length_app. simpl. lia.
Qed.

Section Create.
Context {P : Type} `{!PacketInterface P} (F : fault -> Prop) `{!PacketLaws P F}.
Implicit Types s : net P.

Lemma ShowInfo_frame s : post F (ShowInfo (P:=P)) (fun r s' => r = Val () /\ hframe s s') s.
Proof. unfold ShowInfo. sstep. unfold cout. split; [done|]. apply frame_stdout. Qed.

(** A new connection is announced to the handler of its socket. *)
Lemma OnConnect_frame s v :
  net_ok s -> is_Some (PeerObjList (Manager s) !! v) ->
  post F (OnConnect v) (fun r s' => r = Val () /\ hframe s s' /\
    exists h b s1, owner s v h /\ PacketOnConnect h v s = Ok (Val b, s1)) s.
Proof.
  intros Hok Hv. destruct (find_handler_known s v Hok Hv) as (h & Hf & Hown & Hlive).
  unfold OnConnect, PeerVfdOnConnect. apply post_bind, post_bind. eapply post_eq; [exact Hf|]. cbv beta iota.
  pose proof (on_connect_frame s h v Hok Hlive) as Hlaw. unfold post in Hlaw |- * at 1.
  destruct (PacketOnConnect h v s) as [[r s1]|f] eqn:E; [|done]. destruct Hlaw as ((b & ->) & Hfr).
  eapply post_mono; [apply ShowInfo_frame|]. intros r s2 [-> Hfr2]. split; [done|].
  split; [by transitivity s1|]. by exists h, b, s1.
Qed.

(** * Opening and closing descriptors *)

Lemma with_fds_ok s f :
  net_ok s -> (forall v, 0 <= v -> v ∈ fds s -> v ∈ f (fds s)) -> net_ok (with_fds f s).
Proof.
  intros [M R] Hf. split; [by destruct M; split|].
  pose proof (ro_open_peer s R) as Hp. pose proof (ro_open_server s R) as Hs.
  destruct R. split; try done; cbn.
  - intros v Hv. destruct (Hp v Hv). auto.
  - intros v Hv. destruct (Hs v Hv). auto.
Qed.

Lemma open_ok s v : net_ok s -> net_ok (with_fds (fun G => {[v]} ∪ G) s).
Proof. intros Hok. apply with_fds_ok; [done|]. set_solver. Qed.

Lemma close_open s v :
  v ∉ fds s -> with_fds (fun G => G ∖ {[v]}) (with_fds (fun G => {[v]} ∪ G) s) = s.
Proof.
  intros Hv. destruct s as [m sv cl pe be pa na li G so al ev]. unfold with_fds. cbn in Hv |- *.
  assert (({[v]} ∪ G) ∖ {[v]} = G) as -> by set_solver. done.
Qed.

(** More addresses used up and more printed. *)
Lemma bump_ok s n out :
  next_addr s <= n -> net_ok s ->
  net_ok (mkNet (Manager s) (servers s) (clients s) (peers s) (bevs s) (packets s) n (listeners s) (fds s)
            out (n_alloc s) (n_evadd s)).
Proof.
  intros Hn [M R]. split; [by destruct M; split|].
  pose proof (ro_servers s R). pose proof (ro_clients s R). pose proof (ro_peers s R).
  pose proof (ro_bevs s R). destruct R. split; cbn; auto with lia.
Qed.

Lemma unregistered s v :
  net_ok s -> v ∉ fds s -> PeerObjList (Manager s) !! v = None /\ ServerObjList (Manager s) !! v = None.
Proof.
  intros [_ R] Hv. split; apply eq_None_not_Some; intros Hs.
  - by destruct (ro_open_peer s R v Hs).
  - by destruct (ro_open_server s R v Hs).
Qed.

Lemma unregistered_peer s v :
  net_ok s -> v ∉ fds s ->
  PeerVfd2ServerObj (Manager s) !! v = None /\ PeerVfd2ClientObj (Manager s) !! v = None /\
  ClientObjList (Manager s) !! v = None.
Proof.
  intros Hok Hv. destruct (unregistered s v Hok Hv) as [Hp _]. pose proof Hok as [M _].
  assert (Hc : PeerVfd2ClientObj (Manager s) !! v = None).
  { apply eq_None_not_Some. intros [a Ha]. destruct (mo_peer_client s M v a Ha) as ((o & (p & Hp' & _) & _) & _).
    congruence. }
  split_and!; [|done|]; apply eq_None_not_Some; intros [a Ha].
  - destruct (mo_peer_server s M v a Ha) as ((o & (p & Hp' & _) & _) & _). congruence.
  - apply (mo_client s M) in Ha. congruence.
Qed.

(** * A connection is accepted *)

(** The answers of a system that has the memory and sets the descriptor up. *)
Definition accept_ok (v : Z) (y : sys_accept) : Prop :=
  a_accept y = v /\ 0 <= v /\ a_getfl y <> -1 /\ a_setfl y = 0 /\ a_alloc y = (true, true, true).

Definition accepted (v a : Z) s : net P :=
  add_conn v SERVER_TYPE (set_PeerVfd2ServerObj <[v := a]>) (with_fds (fun G => {[v]} ∪ G) s).

Lemma NewConnect_runs s w a v y :
  net_ok s -> v ∉ fds s -> accept_ok v y ->
  NewConnect w a y s = OnConnect v (accepted v a s).
Proof.
  intros Hok Hv (Hy & H0 & Hg & Hs & Ha). destruct (unregistered s v Hok Hv) as [Hp _].
  destruct (unregistered_peer s v Hok Hv) as (Hps & _). destruct Hok as [_ R].
  unfold NewConnect. rewrite Hy, Hs, Ha, (proj2 (Z.ltb_ge _ _)), (proj2 (Z.eqb_neq (a_getfl y) _)) by done.
  cbn [orb negb Z.eqb].
  unfold open_fd, clsPeerPoint_new, AddPeerObj, AddPeerServerMap, add_new, mbind, sm_bind, modify, get, lift, new_addr.
  cbn. rewrite Hp. cbn. rewrite Hps. cbn. unfold accepted, add_conn. cbn. by rewrite (ro_evadd s R).
Qed.

Lemma accepted_ok v a s :
  net_ok s -> v ∉ fds s -> 0 <= v ->
  (exists so w, servers s !! a = Some so /\ ss_Vfd so = Some w /\ ServerObjList (Manager s) !! w = Some a) ->
  net_ok (accepted v a s).
Proof.
  intros Hok Hv H0 Ha. pose proof (open_ok s v Hok) as Hok1. destruct (unregistered s v Hok Hv) as [Hp _].
  split; [by apply add_server_conn_maps|].
  apply add_conn_resources; try done; [apply Hok1|]. cbn. set_solver.
Qed.

Lemma listener_server s w a :
  net_ok s -> (w, a) ∈ listeners s ->
  exists so w', servers s !! a = Some so /\ ss_Vfd so = Some w' /\ ServerObjList (Manager s) !! w' = Some a.
Proof.
  intros [M R] Hl. pose proof (ro_listeners s R w a Hl) as Hs.
  destruct (mo_server s M w a Hs) as (so & Hso & Hw). by exists so, w.
Qed.

(** Accepting registers the connection with the listening socket and announces
    it; a failed [accept] or [fcntl] throws and leaves no descriptor open. *)
Lemma NewConnect_ok s w a y :
  net_ok s -> (w, a) ∈ listeners s -> a_accept y ∉ fds s -> a_alloc y = (true, true, true) ->
  post F (NewConnect w a y) (fun r s' => net_ok s' /\
    match r with
    | Val _ => peer_at s' (a_accept y) (mkPeer (a_accept y) SERVER_TYPE (next_addr s + 1) 1) /\
               PeerVfd2ServerObj (Manager s') = <[a_accept y := a]> (PeerVfd2ServerObj (Manager s)) /\
               fds s' = {[a_accept y]} ∪ fds s
    | Throw e => s' = s
    end) s.
Proof.
  intros Hok Hl Hv Hal. destruct (Z.ltb_spec (a_accept y) 0) as [Hneg|Hpos].
  { unfold NewConnect. rewrite (proj2 (Z.ltb_lt _ _)) by done. done. }
  destruct (decide (a_getfl y <> -1 /\ a_setfl y = 0)) as [[Hg Hs]|Hbad].
  - unfold post. rewrite (NewConnect_runs s w a (a_accept y)) by done.
    pose proof (accepted_ok (a_accept y) a s Hok Hv Hpos (listener_server s w a Hok Hl)) as Hok1.
    set (s1 := accepted (a_accept y) a s) in *.
    assert (Hreg : PeerObjList (Manager s1) !! a_accept y = Some (next_addr s))
      by (cbn; apply lookup_insert_eq).
    pose proof (OnConnect_frame s1 (a_accept y) Hok1 ltac:(by eexists)) as Hc. unfold post in Hc.
    destruct (OnConnect (a_accept y) s1) as [[r s2]|f]; [|done]. destruct Hc as (-> & Hfr & _).
    split; [by apply (frame_ok s1)|]. destruct Hfr. rewrite fr_manager, fr_fds. split_and!; [|done|done].
    exists (next_addr s). rewrite fr_manager, fr_peers. split_and!; try done. cbn. apply lookup_insert_eq.
  - unfold NewConnect. rewrite (proj2 (Z.ltb_ge _ _)) by done.
    assert ((a_getfl y =? -1) || negb (a_setfl y =? 0) = true) as ->.
    { apply orb_true_iff. destruct (decide (a_getfl y = -1)); [left; lia|right].
      apply negb_true_iff, Z.eqb_neq. intros ?. by apply Hbad. }
    unfold post, open_fd, close, throw, mbind, sm_bind, modify. cbv beta iota. by rewrite close_open.
Qed.

(** * A listening socket *)

Definition new_server (port h : Z) s : net P :=
  with_servers <[next_addr s := mkServer None port 1024 (Some h)]>
    (mkNet (Manager s) (servers s) (clients s) (peers s) (bevs s) (packets s) (next_addr s + 1)
       (listeners s) (fds s) (stdout s) (n_alloc s) (n_evadd s)).

Definition new_client (ip : string) (port h : Z) s : net P :=
  with_clients <[next_addr s := mkClient ip port (-1) (Some h)]>
    (mkNet (Manager s) (servers s) (clients s) (peers s) (bevs s) (packets s) (next_addr s + 1)
       (listeners s) (fds s) (stdout s) (n_alloc s) (n_evadd s)).

Lemma new_server_ok s port h :
  net_ok s -> is_Some (packets s !! h) -> net_ok (new_server port h s).
Proof.
  intros [M R] Hh. pose proof (ro_servers s R) as Hfr. split.
  - pose proof (mo_peer_server s M) as Hps. pose proof (mo_server s M) as Hs.
    destruct M. split; cbn -[peer_at]; try done.
    + intros v a Ha. destruct (Hps v a Ha) as (Ho & so & w & Hso & Hw). split; [done|].
      exists so, w. rewrite lookup_insert_ne; [done|]. intros <-. rewrite Hfr in Hso; [done|lia].
    + intros v a Ha. destruct (Hs v a Ha) as (so & Hso & Hw). exists so.
      rewrite lookup_insert_ne; [done|]. intros <-. rewrite Hfr in Hso; [done|lia].
  - pose proof (ro_clients s R). pose proof (ro_peers s R). pose proof (ro_bevs s R).
    pose proof (ro_server_handler s R) as Hsh. destruct R. split; cbn; try done; auto with lia.
    + intros a Ha. rewrite lookup_insert_ne by lia. apply Hfr. lia.
    + intros a so Ha. apply lookup_insert_Some in Ha as [[<- <-]|[_ Ha]]; [by exists h|by apply (Hsh a)].
Qed.

Lemma new_client_ok s ip port h :
  net_ok s -> is_Some (packets s !! h) -> net_ok (new_client ip port h s).
Proof.
  intros [M R] Hh. pose proof (ro_clients s R) as Hfr. split.
  - pose proof (mo_peer_client s M) as Hpc. destruct M. split; cbn -[peer_at]; try done.
    intros v a Ha. destruct (Hpc v a Ha) as (Ho & Hc & c & Hcl). split; [done|]. split; [done|]. exists c.
    rewrite lookup_insert_ne; [done|]. intros <-. rewrite Hfr in Hcl; [done|lia].
  - pose proof (ro_servers s R). pose proof (ro_peers s R). pose proof (ro_bevs s R).
    pose proof (ro_client_handler s R) as Hch. pose proof (ro_client_vfd s R) as Hcv.
    destruct R. split; cbn; try done; auto with lia.
    + intros a Ha. rewrite lookup_insert_ne by lia. apply Hfr. lia.
    + intros a c Ha. apply lookup_insert_Some in Ha as [[<- <-]|[_ Ha]]; [by exists h|by apply (Hch a)].
    + intros a c Ha. apply lookup_insert_Some in Ha as [[<- <-]|[_ Ha]]; [done|by apply (Hcv a)].
Qed.

(** The state of a listening socket that started. *)
Definition started (a fd port h : Z) s : net P :=
  with_manager (set_ServerObjList <[fd := a]>)
    (with_listeners (fun l => l ++ [(fd, a)])
      (with_servers <[a := mkServer (Some fd) port 1024 (Some h)]> (with_fds (fun G => {[fd]} ∪ G) s))).

Lemma started_ok s a fd port h :
  net_ok s -> fd ∉ fds s -> 0 <= fd -> a < next_addr s ->
  servers s !! a = Some (mkServer None port 1024 (Some h)) -> net_ok (started a fd port h s).
Proof.
  intros Hok Hfd H0 Hlt Ha. pose proof (open_ok s fd Hok) as Hok1.
  destruct (unregistered s fd Hok Hfd) as [_ Hsv]. destruct Hok as [M R]. destruct Hok1 as [_ R1]. split.
  - pose proof (mo_peer_server s M) as Hps. pose proof (mo_server s M) as Hs.
    destruct M. split; cbn -[peer_at]; try done.
    + intros v b Hb. destruct (Hps v b Hb) as (Ho & so & w & Hso & Hw & HS). split; [done|]. exists so, w.
      assert (b <> a) by (intros ->; simplify_eq). rewrite lookup_insert_ne by done.
      rewrite lookup_insert_ne by congruence. done.
    + intros v b Hb. apply lookup_insert_Some in Hb as [[<- <-]|[Hne Hb]].
      * eexists. by rewrite lookup_insert_eq.
      * destruct (Hs v b Hb) as (so & Hso & Hw). exists so.
        assert (b <> a) by (intros ->; simplify_eq). by rewrite lookup_insert_ne.
  - pose proof (ro_servers s R) as Hfr. pose proof (ro_server_handler s R) as Hsh.
    pose proof (ro_open_server _ R1) as Hop. pose proof (ro_listeners s R) as Hli.
    destruct R1. split; cbn; try done.
    + intros b Hb. rewrite lookup_insert_ne by lia. by apply Hfr.
    + intros v Hv. destruct (decide (v = fd)) as [->|Hne]; [split; [set_solver|done]|].
      rewrite lookup_insert_ne in Hv by done. by apply Hop.
    + intros b so Hb. apply lookup_insert_Some in Hb as [[<- <-]|[_ Hb]]; [|by apply (Hsh b)].
      by destruct (Hsh _ _ Ha) as (h' & [= <-] & ?); exists h.
    + intros v b Hb. apply elem_of_app in Hb as [Hb|Hb].
      * rewrite lookup_insert_ne; [by apply Hli|]. intros <-. apply Hli in Hb. congruence.
      * apply list_elem_of_singleton in Hb. simplify_eq. apply lookup_insert_eq.
Qed.

(** Whether one of the calls of [Start] fails. *)
Definition start_fails (y : sys_start) : bool :=
  (st_socket y <? 0) || (st_setsockopt y =? -1) || (st_bind y <? 0) || negb (st_listen y =? 0) ||
  (st_getfl y =? -1) || negb (st_setfl y =? 0).

Lemma Start_throws s a y :
  st_socket y ∉ fds s -> start_fails y = true ->
  exists msg, Start a y s = Ok (Throw (SocketError_literal (st_socket y) SERVER_CREATE_ERR msg), s) /\
    (String.length msg <= 900)%nat.
Proof.
  intros Hfd Hf.
  assert (Hct : forall msg, close_throw (st_socket y) SERVER_CREATE_ERR msg
      (with_fds (fun G => {[st_socket y]} ∪ G) s) =
    Ok (Throw (SocketError_literal (st_socket y) SERVER_CREATE_ERR msg), s)).
  { intros msg. unfold close_throw, close, throw, mbind, sm_bind, modify. cbv beta iota. by rewrite close_open. }
  unfold Start, start_fails in *. unfold open_fd, mbind, sm_bind, modify. cbv beta iota.
  destruct (st_socket y <? 0); [eexists; split; [done|simpl; lia]|].
  destruct (st_setsockopt y =? -1); [rewrite Hct; eexists; split; [done|simpl; lia]|].
  destruct (st_bind y <? 0); [rewrite Hct; eexists; split; [done|simpl; lia]|].
  destruct (negb (st_listen y =? 0)); [rewrite Hct; eexists; split; [done|simpl; lia]|].
  cbn [orb] in Hf. rewrite Hf, Hct. eexists; split; [done|simpl; lia].
Qed.

Lemma Start_starts s a y port h :
  net_ok s -> st_socket y ∉ fds s -> start_fails y = false -> st_malloc y = true ->
  servers s !! a = Some (mkServer None port 1024 (Some h)) ->
  Start a y s = Ok (Val (), started a (st_socket y) port h s).
Proof.
  intros Hok Hfd Hf Hm Ha. destruct (unregistered s _ Hok Hfd) as [_ Hs]. destruct Hok as [_ R].
  unfold Start, start_fails in *.
  repeat match goal with H : (_ || _) = false |- _ => apply orb_false_iff in H as [H ?] end.
  repeat match goal with H : _ = false |- _ => rewrite H; clear H end.
  unfold open_fd, deref_in, lift, AddServerObj, add_new, mbind, sm_bind, modify, get. cbn.
  rewrite Ha. cbn. rewrite Hm. cbn. rewrite Hs. unfold started. cbn. by rewrite (ro_evadd s R).
Qed.

(** [CreateServerSocket] either registers a listening socket, with one more
    open descriptor, or returns the null pointer and leaves the registry, the
    objects and the descriptors as they were. *)
Lemma CreateServerSocket_ok s port h y :
  net_ok s -> is_Some (packets s !! h) -> st_socket y ∉ fds s ->
  INT_MIN <= st_socket y <= INT_MAX -> st_malloc y = true ->
  post F (CreateServerSocket true port (Some h) y) (fun r s' => net_ok s' /\
    if start_fails y
    then r = Val None /\ Manager s' = Manager s /\ servers s' = servers s /\ fds s' = fds s /\
         listeners s' = listeners s
    else r = Val (Some (next_addr s)) /\
         ServerObjList (Manager s') = <[st_socket y := next_addr s]> (ServerObjList (Manager s)) /\
         fds s' = {[st_socket y]} ∪ fds s /\ listeners s' = listeners s ++ [(st_socket y, next_addr s)]) s.
Proof.
  intros Hok Hh Hfd Hint Hm. pose proof (new_server_ok s port h Hok Hh) as Hok1.
  assert (Hrun : CreateServerSocket true port (Some h) y s =
    try_catch (Start (next_addr s) y;; cout ["Create Server At Port="%string; pretty port];;
               mret (Some (next_addr s)))
      (fun e => msg ← lift (GetMsg true e); cout [msg];; delete_server (next_addr s);; mret None)
      (new_server port h s)) by done.
  unfold post. rewrite Hrun. set (s1 := new_server port h s) in *.
  assert (Ha : servers s1 !! next_addr s = Some (mkServer None port 1024 (Some h)))
    by (cbn; apply lookup_insert_eq).
  assert (Hfresh : servers s !! next_addr s = None) by (apply (ro_servers s); [apply Hok|lia]).
  unfold try_catch, mbind, sm_bind. destruct (start_fails y) eqn:Ef.
  - destruct (Start_throws s1 (next_addr s) y Hfd Ef) as (msg & -> & Hlen).
    destruct (GetMsg_literal (st_socket y) SERVER_CREATE_ERR _ msg Hint ltac:(done) eq_refl Hlen) as [out ->].
    unfold lift, cout, delete_server, modify, deref_in, mbind, sm_bind. cbn [with_stdout servers].
    rewrite Ha. cbv beta iota. unfold mret, sm_ret. cbn [Manager servers fds listeners with_servers with_stdout].
    assert (Hsv : delete (next_addr s) (servers s1) = servers s).
    { cbn. rewrite delete_insert_eq, delete_id by done. done. }
    split; [|by rewrite Hsv]. unfold with_servers, with_stdout. cbn [servers Manager clients peers bevs packets
      next_addr listeners fds stdout n_alloc n_evadd]. rewrite Hsv.
    exact (bump_ok s (next_addr s + 1) (stdout s ++ [out]) ltac:(lia) Hok).
  - rewrite (Start_starts s1 (next_addr s) y port h) by done. unfold cout, modify, mret, sm_ret. cbv beta iota.
    unfold start_fails in Ef. pose proof (started_ok s1 (next_addr s) (st_socket y) port h Hok1 Hfd) as Hok2.
    split; [|done]. eapply frame_ok; [|apply frame_stdout]. apply Hok2; [|cbn; lia|done].
    repeat match goal with H : (_ || _) = false |- _ => apply orb_false_iff in H as [H ?] end.
    by apply Z.ltb_ge.
Qed.

(** * A client socket *)

Definition connect_fails (y : sys_connect) : bool :=
  (c_socket y <? 0) || (c_connect y <? 0) || (c_getfl y =? -1) || negb (c_setfl y =? 0).

Definition connected_state (a fd : Z) s : net P :=
  add_conn fd CLIENT_TYPE (fun m => set_ClientObjList <[fd := a]> (set_PeerVfd2ClientObj <[fd := a]> m)) s.

Lemma Connect_runs s a c y :
  net_ok s -> c_socket y ∉ fds s -> connect_fails y = false -> c_alloc y = (true, true, true) ->
  clients s !! a = Some c ->
  exists out, Connect a y s = OnConnect (c_socket y) (connected_state a (c_socket y)
    (with_stdout (fun l => l ++ out) (with_fds (fun G => {[c_socket y]} ∪ G) s))).
Proof.
  intros Hok Hfd Hf Hal Ha. destruct (unregistered s _ Hok Hfd) as [Hp _].
  destruct (unregistered_peer s _ Hok Hfd) as (_ & Hpc & Hcl). destruct Hok as [_ R].
  eexists. unfold Connect, connect_fails in *.
  repeat match goal with H : (_ || _) = false |- _ => apply orb_false_iff in H as [H ?] end.
  unfold deref_in, mbind, sm_bind. rewrite Ha.
  repeat match goal with H : _ = false |- _ => rewrite H; clear H end. rewrite Hal. cbn [orb].
  unfold open_fd, cout, clsPeerPoint_new, AddPeerObj, AddPeerClientMap, AddClientObj, add_new, mbind, sm_bind,
    modify, get, lift, new_addr.
  cbn. rewrite Hp. cbn. rewrite Hpc. cbn. rewrite Hcl. cbn. unfold connected_state, add_conn. cbn.
  by rewrite (ro_evadd s R).
Qed.

(** Every failed call of [Connect] throws an error whose message is gone. *)
Lemma Connect_throws s a c y :
  connect_fails y = true -> clients s !! a = Some c ->
  exists ErrNo s', Connect a y s = Ok (Throw (mkSocketError (c_socket y) ErrNo None), s') /\
    (ErrNo = CLIENT_CREATE_ERR \/ ErrNo = CONN_ERR) /\
    (0 <= c_socket y -> c_connect y < 0 -> fds s' = {[c_socket y]} ∪ fds s).
Proof.
  intros Hf Ha. unfold Connect, connect_fails in *. unfold deref_in, mbind at 1, sm_bind at 1. rewrite Ha.
  destruct (c_socket y <? 0) eqn:E1; [eexists _, s; split; [done|]; split; [by left|bool_props; lia]|].
  unfold open_fd, cout, mbind, sm_bind, modify. cbv beta iota.
  destruct (c_connect y <? 0) eqn:E2; [eexists _, _; split; [done|]; split; [by right|done]|].
  cbn [orb] in Hf. rewrite Hf. eexists _, _; split; [done|]; split; [by left|bool_props; lia].
Qed.

Lemma connected_state_ok s a fd :
  net_ok s -> fd ∉ fds s -> 0 <= fd -> is_Some (clients s !! a) ->
  (forall w, ClientObjList (Manager s) !! w <> Some a) ->
  forall out, net_ok (connected_state a fd
    (with_stdout (fun l => l ++ out) (with_fds (fun G => {[fd]} ∪ G) s))).
Proof.
  intros Hok Hfd H0 Ha Hfresh out. destruct (unregistered s fd Hok Hfd) as [Hp _].
  assert (Hok1 : net_ok (with_stdout (fun l => l ++ out) (with_fds (fun G => {[fd]} ∪ G) s))).
  { eapply frame_ok; [by apply open_ok|apply frame_stdout]. }
  split; [by apply add_client_conn_maps|].
  apply add_conn_resources; try done; [apply Hok1|]. cbn. set_solver.
Qed.

(** A connection that comes up is registered with its client socket. *)
Lemma CreateClientSocket_connects s ip port h y :
  net_ok s -> is_Some (packets s !! h) -> c_socket y ∉ fds s -> connect_fails y = false ->
  c_alloc y = (true, true, true) ->
  post F (CreateClientSocket true ip port (Some h) y) (fun r s' => net_ok s' /\
    r = Val (Some (next_addr s)) /\ owner s' (c_socket y) h /\
    ClientObjList (Manager s') = <[c_socket y := next_addr s]> (ClientObjList (Manager s)) /\
    fds s' = {[c_socket y]} ∪ fds s) s.
Proof.
  intros Hok Hh Hfd Hf Hal. pose proof (new_client_ok s ip port h Hok Hh) as Hok1.
  assert (Hrun : CreateClientSocket true ip port (Some h) y s =
    try_catch (Connect (next_addr s) y;;
               cout ["Create Client conn Ok,Ip="%string; ip; ",Port="%string; pretty port];;
               mret (Some (next_addr s)))
      (fun e => msg ← lift (GetMsg true e); cout [msg];; delete_client (next_addr s);; mret None)
      (new_client ip port h s)) by done.
  unfold post. rewrite Hrun. clear Hrun. set (s1 := new_client ip port h s) in *.
  assert (Ha : clients s1 !! next_addr s = Some (mkClient ip port (-1) (Some h)))
    by (cbn; apply lookup_insert_eq).
  assert (Hpos : 0 <= c_socket y).
  { unfold connect_fails in Hf. repeat apply orb_false_iff in Hf as [Hf _]. by apply Z.ltb_ge. }
  assert (Hnone : forall w, ClientObjList (Manager s1) !! w <> Some (next_addr s)).
  { intros w Hw. pose proof Hok as [M R]. apply (mo_client s M) in Hw.
    destruct (mo_peer_client s M w _ Hw) as (_ & _ & c & Hc). rewrite (ro_clients s R) in Hc; [done|lia]. }
  unfold try_catch, mbind, sm_bind.
  destruct (Connect_runs s1 (next_addr s) _ y Hok1 Hfd Hf Hal Ha) as [out ->].
  pose proof (connected_state_ok s1 (next_addr s) (c_socket y) Hok1 Hfd Hpos ltac:(by eexists) Hnone out) as Hok2.
  set (s2 := connected_state _ _ _) in *.
  assert (Hreg : is_Some (PeerObjList (Manager s2) !! c_socket y)).
  { cbn. rewrite lookup_insert_eq. by eexists. }
  pose proof (OnConnect_frame s2 (c_socket y) Hok2 Hreg) as Hc. unfold post in Hc.
  destruct (OnConnect (c_socket y) s2) as [[r s3]|f]; [|done]. destruct Hc as (-> & Hfr & _).
  unfold cout, modify, mret, sm_ret. cbv beta iota. split.
  { eapply frame_ok; [|apply frame_stdout]. by eapply frame_ok. }
  destruct Hfr. cbn. rewrite fr_manager, fr_fds. split_and!; try done.
  right. exists (next_addr s). cbn. rewrite fr_manager, fr_clients. eexists.
  split; [apply lookup_insert_eq|]. split; [exact Ha|done].
Qed.
End Create.
