(* ===== verification/SocketProps.v ===== *)
(** The properties of the socket layer: reachable states, the way of the data
    and the errors, with the handlers of the example programs
    (socket/include/simple_server_func.h, simple_client_func.h). *)
From stdpp Require Import pretty sorting.
From S2P Require Import Prelude EvBuffer BufferEvent SocketManager SocketCorrect SocketCreate.

(** * The layer as a whole *)

Section Reachable.
Context {P : Type} `{!PacketInterface P}.
Implicit Types s : net P.

(** What can happen to the program: sockets are created, connections accepted,
    data arrives and leaves, handlers and others write, connections are closed
    and the kernel forgets a closed descriptor. The kernel never hands out an
    open descriptor. *)
Inductive net_step : net P -> net P -> Prop :=
| step_server s port h y r s' :
    is_Some (packets s !! h) -> st_socket y ∉ fds s -> INT_MIN <= st_socket y <= INT_MAX ->
    st_malloc y = true -> CreateServerSocket true port (Some h) y s = Ok (r, s') -> net_step s s'
| step_client s ip port h y r s' :
    is_Some (packets s !! h) -> c_socket y ∉ fds s -> c_alloc y = (true, true, true) ->
    CreateClientSocket true ip port (Some h) y s = Ok (r, s') -> net_step s s'
| step_accept s w a y r s' :
    (w, a) ∈ listeners s -> a_accept y ∉ fds s -> a_alloc y = (true, true, true) ->
    NewConnect w a y s = Ok (r, s') -> net_step s s'
| step_read s this p e iq oq event ioctl avail again r s' :
    connected s this p e iq oq -> blen iq <= INT_MAX -> 0 <= ioctl.2 <= INT_MAX ->
    event_read (pp_BuffEv p) event (from_fd ioctl avail again) s = Ok (r, s') -> net_step s s'
| step_write s this p e iq oq event fd r s' :
    connected s this p e iq oq -> blen oq < 2 ^ 63 -> -1 <= fo_write fd oq <= blen oq ->
    event_write (pp_BuffEv p) event fd s = Ok (r, s') -> net_step s s'
| step_send s v buf r s' :
    blen buf <= 2 ^ 62 -> PacketOnWrite v buf s = Ok (r, s') -> net_step s s'
| step_close s v r s' : PeerVfdOnClose v s = Ok (r, s') -> net_step s s'
| step_closed s v :
    PeerObjList (Manager s) !! v = None -> ServerObjList (Manager s) !! v = None ->
    net_step s (with_fds (fun G => G ∖ {[v]}) s).

Section Preserved.
Context (F : fault -> Prop) `{!PacketLaws P F}.

(** The outcome of a run that satisfies its postcondition. *)
Lemma post_Ok {A} (G : fault -> Prop) (m : sm P A) (Q : res A -> net P -> Prop) s r s' :
  post G m Q s -> m s = Ok (r, s') -> Q r s'.
Proof. unfold post. intros H Hr. by rewrite Hr in H. Qed.

Lemma event_read_ok s this p e iq oq event ioctl avail again r s' :
  connected s this p e iq oq -> blen iq <= INT_MAX -> 0 <= ioctl.2 <= INT_MAX ->
  event_read (pp_BuffEv p) event (from_fd ioctl avail again) s = Ok (r, s') -> net_ok s'.
Proof.
  intros C Hlen Hio Hrun. pose proof C as [Hok Hp Hreg Hst He Hinv].
  destruct (bufferevent_readcb_inv (n_alloc s) e iq oq event ioctl avail again
    (ro_alloc s (proj2 Hok)) Hinv Hlen Hio) as (e' & act & Hcb & _).
  assert (Herr : forall w, act <> CallError w).
  { intros w ->. pose proof (bufferevent_readcb_cbarg _ _ _ _ _ _ _ Hcb) as Hc.
    unfold event_read, mbind, sm_bind, deref_in, get, lift in Hrun. rewrite He in Hrun.
    rewrite (ro_evadd s (proj2 Hok)), Hcb in Hrun.
    exact (post_Ok _ _ _ _ _ _ (error_uses_freed F s this p e iq oq e' w C Hc) Hrun). }
  eapply (post_Ok F) in Hrun; [|by eapply event_read_feeds]. by destruct Hrun as (_ & ? & _).
Qed.

Lemma event_write_ok s this p e iq oq event fd r s' :
  connected s this p e iq oq -> blen oq < 2 ^ 63 -> -1 <= fo_write fd oq <= blen oq ->
  event_write (pp_BuffEv p) event fd s = Ok (r, s') -> net_ok s'.
Proof.
  intros C Hlen Hfd Hrun. pose proof C as [Hok Hp Hreg Hst He Hinv].
  destruct (bufferevent_writecb_inv e iq oq event fd Hinv Hlen Hfd) as (e' & act & k & Hcb & _).
  assert (Herr : forall w, act <> CallError w).
  { intros w ->. pose proof (bufferevent_writecb_cbarg _ _ _ _ _ _ _ Hcb) as Hc.
    unfold event_write, mbind, sm_bind, deref_in, get, lift in Hrun. rewrite He in Hrun.
    rewrite (ro_evadd s (proj2 Hok)), Hcb in Hrun.
    pose proof (error_uses_freed F s this p e iq oq e' w C Hc) as Hd. unfold post in Hd.
    by destruct (dispatch (pp_BuffEv p) e' (CallError w) s) as [[[]]|]. }
  eapply (post_Ok F) in Hrun; [|by eapply event_write_sends]. by destruct Hrun as (_ & ? & _).
Qed.

(** A failed [Connect] ends [CreateClientSocket] in the freed message. *)
Lemma CreateClientSocket_faults (ok : bool) s ip port h y :
  connect_fails y = true -> CreateClientSocket ok ip port h y s = UB UseAfterFree.
Proof.
  intros Hf. unfold CreateClientSocket, mbind at 1, sm_bind at 1, new_addr.
  unfold mbind at 1, sm_bind at 1, modify. unfold try_catch, mbind at 1, sm_bind at 1.
  destruct (Connect_throws (with_clients <[next_addr s := mkClient ip port (-1) h]>
      (mkNet (Manager s) (servers s) (clients s) (peers s) (bevs s) (packets s) (next_addr s + 1)
         (listeners s) (fds s) (stdout s) (n_alloc s) (n_evadd s))) (next_addr s)
      (mkClient ip port (-1) h) y Hf) as (ErrNo & s' & -> & Hno & _); [apply lookup_insert_eq|].
  unfold mbind, sm_bind, lift, GetMsg. by destruct Hno as [-> | ->].
Qed.

Lemma net_step_ok s s' : net_ok s -> net_step s s' -> net_ok s'.
Proof.
  intros Hok Hstep. destruct Hstep as
    [s port h y r s' Hh Hfd Hint Hm Hrun|s ip port h y r s' Hh Hfd Hal Hrun|s w a y r s' Hl Hfd Hal Hrun
    |s this p e iq oq event ioctl avail again r s' C Hlen Hio Hrun|s this p e iq oq event fd r s' C Hlen Hfd Hrun
    |s v buf r s' Hb Hrun|s v r s' Hrun|s v Hp Hs].
  - eapply (post_Ok F) in Hrun; [|by apply CreateServerSocket_ok]. apply Hrun.
  - destruct (connect_fails y) eqn:Ef; [by rewrite CreateClientSocket_faults in Hrun|].
    eapply (post_Ok F) in Hrun; [|by apply CreateClientSocket_connects]. apply Hrun.
  - eapply (post_Ok F) in Hrun; [|by apply NewConnect_ok]. apply Hrun.
  - by eapply event_read_ok.
  - by eapply event_write_ok.
  - eapply (post_Ok F) in Hrun; [|by apply PacketOnWrite_frame]. destruct Hrun as [_ Hfr]. by eapply frame_ok.
  - destruct (PeerObjList (Manager s) !! v) as [p|] eqn:Hp.
    + eapply (post_Ok F) in Hrun; [|by apply PeerVfdOnClose_closes]. apply Hrun.
    + unfold PeerVfdOnClose, mbind, sm_bind, get in Hrun. rewrite Hp in Hrun. by injection Hrun as _ <-.
  - destruct Hok as [M R]. split; [by destruct M; split|].
    pose proof (ro_open_peer s R) as Hop. pose proof (ro_open_server s R) as Hos.
    destruct R. split; try done; cbn.
    + intros v' Hv'. destruct (Hop v' Hv'). split; [|done]. apply elem_of_difference. split; [done|].
      rewrite elem_of_singleton. intros ->. by destruct Hv' as [? ?]; congruence.
    + intros v' Hv'. destruct (Hos v' Hv'). split; [|done]. apply elem_of_difference. split; [done|].
      rewrite elem_of_singleton. intros ->. by destruct Hv' as [? ?]; congruence.
Qed.

Lemma net_steps_ok s s' : net_ok s -> rtc net_step s s' -> net_ok s'.
Proof. intros Hok Hs. induction Hs; eauto using net_step_ok. Qed.
End Preserved.
End Reachable.

(** * The handlers of the example programs *)

(** The two classes have no fields. *)
Inductive simple_func : Type :=
| SimpleServerFunc
| SimplePacketFunc.

Definition text (s : string) : list byte := String.list_byte_of_string s.

Definition Simple_PacketOnRead (this Vfd : Z) (Buf : list byte) : sm simple_func bool :=
  o ← deref_in packets this;
  match o with
  | SimpleServerFunc => cout ["Get Vfd="%string; pretty Vfd; " Msg:"%string; String.string_of_list_byte Buf]
  | SimplePacketFunc => cout ["Vfd="%string; pretty Vfd; "Get Msg:"%string; String.string_of_list_byte Buf]
  end;;
  mret true.

Definition Simple_PacketOnError (this Vfd : Z) : sm simple_func bool :=
  o ← deref_in packets this;
  match o with
  | SimpleServerFunc => cout ["Close Vfd="%string; pretty Vfd]
  | SimplePacketFunc => cout ["Vfd="%string; pretty Vfd; " is Closed!"%string]
  end;;
  mret true.

Definition Simple_PacketOnConnect (this Vfd : Z) : sm simple_func bool :=
  o ← deref_in packets this;
  match o with
  | SimpleServerFunc =>
      cout ["Server Get Packet Connect!"%string];;
      sent ← PacketOnWrite Vfd (text "Hello World");
      if negb sent then cout ["Server Try Send Msg Error!"%string] else mret ()
  | SimplePacketFunc =>
      cout ["Connect OK!"%string; pretty Vfd];;
      sent ← PacketOnWrite Vfd (text "conn ok!");
      if negb sent then cout ["Client Send Msg Error!"%string] else mret ()
  end;;
  mret true.

#[export] Instance simple_interface : PacketInterface simple_func := {
  PacketOnRead := Simple_PacketOnRead;
  PacketOnError := Simple_PacketOnError;
  PacketOnConnect := Simple_PacketOnConnect
}.

Lemma cout_frame (F : fault -> Prop) (s : net simple_func) o :
  post F (cout o) (fun r s' => r = Val () /\ hframe s s') s.
Proof. split; [done|]. apply frame_stdout. Qed.

(** Printing, then [true]. *)
Lemma print_frame (F : fault -> Prop) (s s0 : net simple_func) o :
  hframe s0 s -> post F (cout o;; mret true) (fun r s' => (exists b, r = Val b) /\ hframe s0 s') s.
Proof.
  intros Hfr. apply post_bind. eapply post_mono; [apply cout_frame|]. intros r s' [-> Hs]. sstep.
  split; [eauto|]. by transitivity s.
Qed.

Lemma greet_frame (F : fault -> Prop) (s : net simple_func) o v msg err :
  net_ok s -> blen msg <= 2 ^ 62 ->
  post F (cout o;; sent ← PacketOnWrite v msg; if negb sent then cout err else mret ())
    (fun r s' => r = Val () /\ hframe s s') s.
Proof.
  intros Hok Hb. apply post_bind. eapply post_mono; [apply cout_frame|]. intros r s1 [-> Hs1].
  apply post_bind. eapply post_mono; [apply PacketOnWrite_frame; [by eapply frame_ok|done]|].
  intros r s2 ((b & ->) & Hs2). destruct b; cbn [negb].
  - sstep. split; [done|]. by transitivity s1.
  - eapply post_mono; [apply cout_frame|]. intros r s3 [-> Hs3]. split; [done|].
    transitivity s1; [done|]. by transitivity s2.
Qed.

(** The example handlers keep to the interface and never fault. *)
#[export] Instance simple_laws : PacketLaws simple_func (fun _ => False).
Proof.
  split.
  - intros s this v buf Hok [o Ho]. unfold PacketOnRead; cbn [simple_interface]. unfold Simple_PacketOnRead.
    sstep. destruct o; by apply print_frame.
  - intros s this v Hok [o Ho]. unfold PacketOnError; cbn [simple_interface]. unfold Simple_PacketOnError.
    sstep. destruct o; by apply print_frame.
  - intros s this v Hok [o Ho]. unfold PacketOnConnect; cbn [simple_interface]. unfold Simple_PacketOnConnect.
    sstep. destruct o; apply post_bind; (eapply post_mono; [by apply greet_frame|]);
      intros r s' [-> Hfr]; sstep; (split; [eauto|done]).
Qed.

(** * The properties *)

(** The program before it creates a socket: [Manager = new SocketManager()] and
    the handler objects. *)
Definition net_init {P : Type} (pk : gmap Z P) (start : Z) (G : gset Z) (alloc : Z -> bool) : net P :=
  mkNet (mkSocketManager ∅ ∅ ∅ ∅ ∅) ∅ ∅ ∅ ∅ pk start [] G [] alloc true.

Lemma net_init_ok {P : Type} (pk : gmap Z P) start G alloc :
  alloc_sane alloc -> net_ok (net_init pk start G alloc).
Proof.
  intros Hs. split; split; cbn; try done; intros; try (by apply lookup_empty);
    repeat match goal with
    | H : is_Some (∅ !! _) |- _ => destruct H as [? H]
    | H : ∅ !! _ = Some _ |- _ => by rewrite lookup_empty in H
    | H : _ ∈ [] |- _ => by apply not_elem_of_nil in H
    end.
Qed.

(** C4: in every state the program can reach, with any packet handler that keeps
    to its interface, each registered connection is a live object with the
    descriptor it is registered under, belongs to exactly one socket, and its
    data goes to the live handler of that socket. *)
Theorem registry_sound {P : Type} `{!PacketInterface P} (F : fault -> Prop) `{!PacketLaws P F}
    (pk : gmap Z P) (start : Z) (G : gset Z) (alloc : Z -> bool) (s : net P) :
  alloc_sane alloc -> rtc net_step (net_init pk start G alloc) s ->
  forall v p, PeerObjList (Manager s) !! v = Some p ->
  exists o h, peers s !! p = Some o /\ pp_Vfd o = v /\ v ∈ fds s /\
    owner s v h /\ (forall h', owner s v h' -> h' = h) /\ is_Some (packets s !! h) /\
    forall buf, PeerVfdOnRead v buf s = PacketOnRead h v buf s.
Proof.
  intros Hs Hsteps v p Hp.
  pose proof (net_steps_ok F _ _ (net_init_ok pk start G alloc Hs) Hsteps) as Hok.
  destruct (mo_peer s (proj1 Hok) v p Hp) as (o & Ho & Hv & _).
  destruct (find_handler_known s v Hok ltac:(by exists p)) as (h & Hf & Hown & Hlive).
  exists o, h. split_and!; try done.
  - apply (ro_open_peer s); [apply Hok|by exists p].
  - intros h' Hown'. by apply (owner_unique s v); [apply Hok| |].
  - intros buf. unfold PeerVfdOnRead, mbind, sm_bind. by rewrite Hf.
Qed.

(** A server with one connection. *)
Definition demo_start : sys_start := mkStart 3 0 0 0 0 0 true.
Definition demo_accept : sys_accept := mkAccept 4 0 0 (true, true, true).
Definition demo_net : net simple_func :=
  net_init {[ 1 := SimpleServerFunc ]} 10 ∅ demo_alloc.

Definition run {P A} (m : sm P A) (s : net P) : net P :=
  match m s with Ok (_, s') => s' | UB _ => s end.

Definition demo_listening : net simple_func :=
  run (CreateServerSocket true 6666 (Some 1) demo_start) demo_net.
Definition demo_conn : net simple_func := run (NewConnect 3 10 demo_accept) demo_listening.

Lemma demo_listening_ok :
  CreateServerSocket true 6666 (Some 1) demo_start demo_net = Ok (Val (Some 10), demo_listening).
Proof. vm_compute. reflexivity. Qed.

Lemma demo_conn_ok : NewConnect 3 10 demo_accept demo_listening = Ok (Val (), demo_conn).
Proof. vm_compute. reflexivity. Qed.

Lemma demo_conn_reachable : rtc net_step demo_net demo_conn.
Proof.
  eapply rtc_l; [eapply (step_server demo_net 6666 1 demo_start)|eapply rtc_l; [|apply rtc_refl]].
  - by exists SimpleServerFunc.
  - apply not_elem_of_empty.
  - vm_compute. split; discriminate.
  - reflexivity.
  - apply demo_listening_ok.
  - eapply (step_accept demo_listening 3 10 demo_accept); [|apply (bool_decide_unpack _); reflexivity|reflexivity|
      apply demo_conn_ok]. apply (bool_decide_unpack _). reflexivity.
Qed.

Lemma registry_sound_witness :
  exists o h, peers demo_conn !! 11 = Some o /\ pp_Vfd o = 4 /\ 4 ∈ fds demo_conn /\
    owner demo_conn 4 h /\ (forall h', owner demo_conn 4 h' -> h' = h) /\ is_Some (packets demo_conn !! h) /\
    forall buf, PeerVfdOnRead 4 buf demo_conn = PacketOnRead h 4 buf demo_conn.
Proof.
  apply (registry_sound (fun _ => False) {[ 1 := SimpleServerFunc ]} 10 ∅ demo_alloc demo_conn
    demo_alloc_sane demo_conn_reachable 4 11).
  reflexivity.
Defined.

Lemma demo_conn_net_ok : net_ok demo_conn.
Proof.
  eapply (net_steps_ok (fun _ => False)); [|exact demo_conn_reachable]. apply net_init_ok, demo_alloc_sane.
Qed.

Definition demo_peer : clsPeerPoint := mkPeer 4 SERVER_TYPE 12 1.
Definition demo_ev : bufferevent := default demo_bev (bevs demo_conn !! 12).

Lemma demo_connected : exists iq oq, connected demo_conn 11 demo_peer demo_ev iq oq /\ blen iq <= INT_MAX.
Proof.
  destruct (ro_bev demo_conn (proj2 demo_conn_net_ok) 11 demo_peer) as (e & iq & oq & He & Hi & _);
    [reflexivity|discriminate|].
  change (pp_BuffEv demo_peer) with 12 in He.
  assert (demo_ev = e) as Hev by (unfold demo_ev; by rewrite He).
  exists iq, oq. split.
  - rewrite Hev. split; [apply demo_conn_net_ok|vm_compute; reflexivity|vm_compute; reflexivity|discriminate|
      exact He|exact Hi].
  - rewrite <- (evrep_off _ _ (bi_input _ _ _ Hi)), <- Hev. vm_compute. discriminate.
Qed.

(** C16: data that arrives on a connection reaches the handler of the socket the
    connection belongs to. When the buffered event calls back for reading, the
    handler is called with blocks of at most 1024 bytes, none of them empty,
    which are together what the input buffer held before and all the bytes that
    [read] gave in this callback, in order; then the input buffer is empty, the
    callback has returned, and the registry is in order. A fault can only come
    from the handler itself. *)
Theorem incoming_data_delivered {P : Type} `{!PacketInterface P} (F : fault -> Prop) `{!PacketLaws P F}
    (s : net P) (this : Z) (p : clsPeerPoint) (e e' : bufferevent) (iq oq : list byte) (event : Z)
    (ioctl : Z * Z) (avail : option (list byte)) (again : bool) :
  connected s this p e iq oq -> blen iq <= INT_MAX -> 0 <= ioctl.2 <= INT_MAX ->
  bufferevent_readcb (n_alloc s) true (set_read e false) event (from_fd ioctl avail again) = Ok (e', CallRead) ->
  match event_read (pp_BuffEv p) event (from_fd ioctl avail again) s with
  | Ok (r, s') => r = Val () /\ net_ok s' /\ exists h chunks, owner s (pp_Vfd p) h /\
      fed h (pp_Vfd p) (pp_BuffEv p) chunks (with_bevs <[pp_BuffEv p := e']> s) s' /\
      concat chunks = iq ++ given_to_readcb (n_alloc s) e event (from_fd ioctl avail again) /\
      Forall (fun c => 0 < blen c <= RECV_BLOCK_SIZE) chunks /\ input_empty s' (pp_BuffEv p)
  | UB f => F f
  end.
Proof.
  intros C Hlen Hio Hcb.
  pose proof (event_read_feeds F s this p e iq oq event ioctl avail again e' CallRead C Hlen Hio Hcb
                ltac:(done)) as Hp. unfold post in Hp.
  destruct (event_read _ _ _ s) as [[r s']|f]; [|done]. destruct Hp as (-> & Hok & Hfed).
  split; [done|]. split; [done|]. by apply Hfed.
Qed.

Definition demo_read_fd : fd_input := from_fd (0, 3) (Some (text "abc")) false.
Definition demo_read_ev : bufferevent :=
  match bufferevent_readcb demo_alloc true (set_read demo_ev false) EV_READ demo_read_fd with
  | Ok (e, _) => e
  | UB _ => demo_bev
  end.

Lemma demo_connected_empty : exists oq, connected demo_conn 11 demo_peer demo_ev [] oq.
Proof.
  destruct demo_connected as (iq & oq & C & _). exists oq. assert (iq = []) as ->; [|done]. apply blen_nil_inv.
  rewrite <- (evrep_off _ _ (bi_input _ _ _ (co_inv _ _ _ _ _ _ C))). vm_compute. reflexivity.
Qed.

Lemma incoming_data_delivered_witness :
  match event_read 12 EV_READ demo_read_fd demo_conn with
  | Ok (r, s') => r = Val () /\ net_ok s' /\ exists h chunks, owner demo_conn 4 h /\
      fed h 4 12 chunks (with_bevs <[12 := demo_read_ev]> demo_conn) s' /\ concat chunks = text "abc" /\ input_empty s' 12
  | UB f => False
  end.
Proof.
  destruct demo_connected_empty as (oq & C).
  pose proof (incoming_data_delivered (fun _ => False) demo_conn 11 demo_peer demo_ev demo_read_ev [] oq EV_READ
    (0, 3) (Some (text "abc")) false C ltac:(vm_compute; discriminate) ltac:(unfold INT_MAX; simpl; lia)
    ltac:(vm_compute; reflexivity)) as H.
  change (pp_BuffEv demo_peer) with 12 in H. fold demo_read_fd in H.
  destruct (event_read 12 EV_READ demo_read_fd demo_conn) as [[r s']|f]; [|done].
  destruct H as (Hr & Hok & h & chunks & Ho & Hf & Hc & _ & He). split; [exact Hr|]. split; [exact Hok|].
  exists h, chunks. split; [exact Ho|]. split; [exact Hf|]. split; [|exact He]. rewrite Hc. vm_compute. reflexivity.
Defined.

(** Evaluated: the handler prints the three bytes. *)
Example demo_read_prints :
  match event_read 12 EV_READ demo_read_fd demo_conn with
  | Ok (_, s') => list.last (stdout s') = Some "abc"%string
  | UB _ => False
  end.
Proof. vm_compute. reflexivity. Qed.

(** C39: [CreateServerSocket] on every outcome of the system calls: it returns a
    listening socket that is registered, with one more open descriptor and its
    event added, or, if any call fails, the null pointer, with the registry,
    the objects, the events and the open descriptors as before. *)
Theorem create_server_outcomes {P : Type} `{!PacketInterface P} (F : fault -> Prop) `{!PacketLaws P F}
    (s : net P) (port h : Z) (y : sys_start) :
  net_ok s -> is_Some (packets s !! h) -> st_socket y ∉ fds s -> INT_MIN <= st_socket y <= INT_MAX ->
  st_malloc y = true ->
  match CreateServerSocket true port (Some h) y s with
  | Ok (r, s') => net_ok s' /\
      if start_fails y
      then r = Val None /\ Manager s' = Manager s /\ servers s' = servers s /\ fds s' = fds s /\
           listeners s' = listeners s
      else r = Val (Some (next_addr s)) /\
           ServerObjList (Manager s') = <[st_socket y := next_addr s]> (ServerObjList (Manager s)) /\
           fds s' = {[st_socket y]} ∪ fds s /\ listeners s' = listeners s ++ [(st_socket y, next_addr s)]
  | UB f => F f
  end.
Proof. intros. by apply CreateServerSocket_ok. Qed.

Lemma create_server_outcomes_witness :
  match CreateServerSocket true 6666 (Some 1) (mkStart 3 0 (-1) 0 0 0 true) demo_net with
  | Ok (r, s') => r = Val None /\ fds s' = ∅
  | UB f => False
  end.
Proof.
  pose proof (create_server_outcomes (fun _ => False) demo_net 6666 1 (mkStart 3 0 (-1) 0 0 0 true)
    (net_init_ok _ _ _ _ demo_alloc_sane) ltac:(by exists SimpleServerFunc) ltac:(apply not_elem_of_empty)
    ltac:(vm_compute; split; discriminate) eq_refl) as H.
  destruct (CreateServerSocket _ _ _ _ _) as [[r s']|f]; [|done].
  destruct H as (_ & H). cbn [start_fails st_bind st_socket st_setsockopt orb] in H.
  destruct H as (Hr & _ & _ & Hf & _). done.
Defined.

(** Closing a connection through the manager tells its handler, removes the
    connection from every map, deletes its object (and its client socket) and
    leaves all other connections and sockets registered and alive. *)
Theorem close_removes_only {P : Type} `{!PacketInterface P} (F : fault -> Prop) `{!PacketLaws P F}
    (s : net P) (v p : Z) :
  net_ok s -> PeerObjList (Manager s) !! v = Some p ->
  match PeerVfdOnClose v s with
  | Ok (r, s') => r = Val true /\ closed v p s s'
  | UB f => F f
  end.
Proof. intros. by apply PeerVfdOnClose_closes. Qed.

Lemma close_removes_only_witness :
  match PeerVfdOnClose 4 demo_conn with
  | Ok (r, s') => r = Val true /\ closed 4 11 demo_conn s'
  | UB f => False
  end.
Proof. apply (close_removes_only (fun _ => False)); [apply demo_conn_net_ok|reflexivity]. Defined.

(** An error or the end of the stream on a connection always ends in a use
    of freed memory: [OnError] lets the manager delete the connection and then
    reads [_Vfd] of the deleted object to close it. *)
Theorem connection_error_uses_freed {P : Type} `{!PacketInterface P} (F : fault -> Prop) `{!PacketLaws P F}
    (s : net P) (this : Z) (p : clsPeerPoint) (e e' : bufferevent) (iq oq : list byte) (event w : Z)
    (fd : fd_input) :
  connected s this p e iq oq ->
  bufferevent_readcb (n_alloc s) true (set_read e false) event fd = Ok (e', CallError w) ->
  match event_read (pp_BuffEv p) event fd s with
  | Ok _ => False
  | UB f => f = UseAfterFree \/ F f
  end.
Proof.
  intros C Hcb. pose proof (bufferevent_readcb_cbarg _ _ _ _ _ _ _ Hcb) as Hc.
  unfold event_read, mbind, sm_bind, deref_in, get, lift. rewrite (co_ev _ _ _ _ _ _ C).
  rewrite (ro_evadd s (proj2 (co_ok _ _ _ _ _ _ C))), Hcb.
  pose proof (error_uses_freed F s this p e iq oq e' w C Hc) as Hd. unfold post in Hd.
  by destruct (dispatch (pp_BuffEv p) e' (CallError w) s) as [[]|].
Qed.

(** The end of the stream: no bytes. *)
Definition demo_eof_fd : fd_input := from_fd (0, 0) (Some []) false.
Definition demo_eof_ev : bufferevent :=
  match bufferevent_readcb demo_alloc true (set_read demo_ev false) EV_READ demo_eof_fd with
  | Ok (e, _) => e
  | UB _ => demo_bev
  end.

Lemma connection_error_uses_freed_witness :
  match event_read 12 EV_READ demo_eof_fd demo_conn with
  | Ok _ => False
  | UB f => f = UseAfterFree \/ False
  end.
Proof.
  destruct demo_connected as (iq & oq & C & Hlen).
  apply (connection_error_uses_freed (fun _ => False) demo_conn 11 demo_peer demo_ev demo_eof_ev iq oq EV_READ
    (Z.lor EVBUFFER_READ EVBUFFER_EOF) demo_eof_fd C). vm_compute. reflexivity.
Defined.

(** When any call of [Connect] fails, [CreateClientSocket] does not report
    the error but uses freed memory: the exception keeps [c_str()] of a string
    that is gone, and the handler prints it. *)
Theorem client_failure_uses_freed {P : Type} `{!PacketInterface P} (ok : bool) (s : net P) (ip : string)
    (port : Z) (h : option Z) (y : sys_connect) :
  connect_fails y = true -> CreateClientSocket ok ip port h y s = UB UseAfterFree.
Proof. apply CreateClientSocket_faults. Qed.

Lemma client_failure_uses_freed_witness :
  CreateClientSocket true "192.168.10.48" 6666 (Some 1) (mkConnect 5 (-1) 0 0 (true, true, true)) demo_net =
    UB UseAfterFree.
Proof. apply client_failure_uses_freed. reflexivity. Defined.

(** A refused connection also leaves its descriptor open: [Connect] throws
    after [connect] without closing it, where the other failures do. *)
Theorem refused_connect_leaks {P : Type} `{!PacketInterface P} (s : net P) (a : Z) (c : clsClientSocket)
    (y : sys_connect) :
  clients s !! a = Some c -> 0 <= c_socket y -> c_connect y < 0 ->
  exists e s', Connect a y s = Ok (Throw e, s') /\ c_socket y ∈ fds s' /\ Manager s' = Manager s.
Proof.
  intros Ha H0 H1. unfold Connect, deref_in, mbind at 1, sm_bind at 1. rewrite Ha.
  rewrite (proj2 (Z.ltb_ge _ _)) by done.
  unfold open_fd, cout, mbind, sm_bind, modify. cbv beta iota. rewrite (proj2 (Z.ltb_lt _ _)) by done.
  eexists _, _. split; [done|]. split; [|done]. cbn. set_solver.
Qed.

Lemma refused_connect_leaks_witness :
  exists e s', Connect 10 (mkConnect 5 (-1) 0 0 (true, true, true))
      (with_clients <[10 := mkClient "192.168.10.48" 6666 (-1) (Some 1)]> demo_net) = Ok (Throw e, s') /\
    5 ∈ fds s' /\ Manager s' = Manager demo_net.
Proof.
  apply (refused_connect_leaks (with_clients <[10 := mkClient "192.168.10.48" 6666 (-1) (Some 1)]> demo_net)
    10 (mkClient "192.168.10.48" 6666 (-1) (Some 1)) (mkConnect 5 (-1) 0 0 (true, true, true)));
    [reflexivity|simpl; lia|simpl; lia].
Defined.

(** The loop of [DelServerVfd] changes nothing before it meets a connection of
    the socket, and faults there. *)
Lemma DelServerVfd_loop_faults {P : Type} (s : net P) (w : Z) (todo : list Z) :
  maps_ok s ->
  (forall k, k ∈ todo -> is_Some (PeerVfd2ServerObj (Manager s) !! k)) ->
  (exists v a so, v ∈ todo /\ PeerVfd2ServerObj (Manager s) !! v = Some a /\ servers s !! a = Some so /\
     ss_Vfd so = Some w) ->
  DelServerVfd_loop w todo s = UB UseAfterFree.
Proof.
  intros M. induction todo as [|k todo IH]; intros Hin (v & a & so & Hv & Hva & Hso & Hw).
  { by apply not_elem_of_nil in Hv. }
  cbn [DelServerVfd_loop]. unfold mbind at 1, sm_bind at 1, get.
  destruct (Hin k ltac:(by constructor)) as [b Hb]. rewrite Hb.
  destruct (mo_peer_server s M k b Hb) as ((o & (p & Hp & Ho & _) & _) & so' & w' & Hso' & Hw' & _).
  unfold mbind at 1, sm_bind at 1, deref_in. rewrite Hso'.
  unfold mbind at 1, sm_bind at 1, lift. rewrite Hw'. cbn [of_option].
  destruct (w' =? w) eqn:E; bool_props.
  - unfold mbind at 1, sm_bind at 1, close, modify. unfold mbind at 1, sm_bind at 1, mbind at 1, sm_bind at 1.
    rewrite (DelPeerVfd_server _ k p o b) by done. set (s2 := drop_server_peer k p _).
    assert (Hgone : PeerVfd2ServerObj (Manager s2) !! k = None) by (apply lookup_delete_eq).
    unfold mbind, sm_bind, get. by rewrite Hgone.
  - unfold mbind, sm_bind, mret, sm_ret. apply IH; [intros; apply Hin; by constructor|].
    exists v, a, so. split_and!; try done. apply elem_of_cons in Hv as [->|Hv]; [congruence|done].
Qed.

(** [DelServerVfd] cannot remove a listening socket that has connections:
    [DelPeerVfd] has erased the map's node when the iterator on it is advanced
    and erased again. *)
Theorem del_server_uses_freed {P : Type} (s : net P) (v a w : Z) (so : clsServerSocket) :
  net_ok s -> PeerVfd2ServerObj (Manager s) !! v = Some a -> servers s !! a = Some so ->
  ss_Vfd so = Some w -> DelServerVfd w s = UB UseAfterFree.
Proof.
  intros [M _] Hv Ha Hw. unfold DelServerVfd, mbind at 1, sm_bind at 1, get. unfold mbind at 1, sm_bind at 1.
  assert (Hk : forall k, k ∈ keys (PeerVfd2ServerObj (Manager s)) <-> is_Some (PeerVfd2ServerObj (Manager s) !! k)).
  { intros k. unfold keys. rewrite (merge_sort_Permutation Z.le), list_elem_of_fmap. split.
    - intros ((k' & x) & -> & Hx%elem_of_map_to_list). by exists x.
    - intros [x Hx]. exists (k, x). split; [done|]. by apply elem_of_map_to_list. }
  rewrite DelServerVfd_loop_faults; [done|done|intros k; apply Hk|].
  exists v, a, so. split_and!; try done. apply Hk. by exists a.
Qed.

Lemma del_server_uses_freed_witness : DelServerVfd 3 demo_conn = UB UseAfterFree.
Proof.
  apply (del_server_uses_freed demo_conn 4 10 3 (mkServer (Some 3) 6666 1024 (Some 1)));
    [apply demo_conn_net_ok|vm_compute; reflexivity|vm_compute; reflexivity|reflexivity].
Defined.

(** The default packet handler is the null pointer, and then the first
    callback of a connection falls off the end of a function that returns
    [bool]. *)
Theorem null_handler_no_return {P : Type} `{!PacketInterface P} (s : net P) (v p a : Z) (o : clsPeerPoint)
    (so : clsServerSocket) (buf : list byte) :
  PeerObjList (Manager s) !! v = Some p -> peers s !! p = Some o -> pp_VfdType o = SERVER_TYPE ->
  PeerVfd2ServerObj (Manager s) !! v = Some a -> servers s !! a = Some so -> ss_PacketClass so = None ->
  PeerVfdOnRead v buf s = UB MissingReturn /\ PeerVfdOnConnect v s = UB MissingReturn.
Proof.
  intros Hp Ho Ht Ha Hso Hn.
  unfold PeerVfdOnRead, PeerVfdOnConnect, find_handler, mbind, sm_bind, get, deref_in.
  by rewrite Hp, Ho, Ht, Ha; cbn; rewrite Hso, Hn.
Qed.

Lemma null_handler_no_return_witness :
  let s := run (CreateServerSocket true 6666 None demo_start) demo_net in
  PeerVfdOnRead 4 [] (accepted 4 10 s) = UB MissingReturn /\
  PeerVfdOnConnect 4 (accepted 4 10 s) = UB MissingReturn.
Proof.
  apply (null_handler_no_return _ 4 11 10 (mkPeer 4 SERVER_TYPE 12 1) (mkServer (Some 3) 6666 1024 None));
    vm_compute; reflexivity.
Defined.
