(* ===== verification/AppFuncs.v ===== *)
(** The packet handlers of the two main programs (client_func.h, server_func.h):
    every connection of a program goes through one handler object, which
    encrypts what it writes and decrypts and prints what it reads. *)
From stdpp Require Import pretty.
From S2P Require Import Prelude MyBuf Encrypt PacketProcess EvBuffer BufferEvent SocketManager SocketCorrect SocketCreate SocketProps.

(** * The code *)

(** [SimplePacketFunc] of client_func.h and [SimpleServerFunc] of server_func.h
    have the same fields; [app_client] tells them apart. [app_random] is what
    [random()] returns. *)
Record app := mkApp {
  app_client : bool;
  _EncryptObj : clsPacketEncrypt SimpleXOR;
  _DecryptObj : clsPacketDecrypt SimpleXOR;
  app_random : Z
}.

(** The constructors. *)
Definition app_new (client : bool) (random : Z) : app :=
  mkApp client (mkPacketEncrypt (Some SimpleXOR_new)) (PacketDecrypt_new true (Some SimpleXOR_new)) random.

(** The call of [EncryptPacket] and what it leaves in the object. *)
Definition app_encrypt (o : app) (Buf : list byte) : cres (app * list byte) :=
  '(e, Output) ← EncryptPacket (app_random o) (_EncryptObj o) Buf;
  Ok (mkApp (app_client o) e (_DecryptObj o) (app_random o), Output).

(** The call of [DecryptPacket], with the packets it prints. *)
Definition app_decrypt (o : app) (Buf : list byte) : cres (app * list (list byte)) :=
  '(d, bags) ← DecryptPacket true (_DecryptObj o) Buf;
  Ok (mkApp (app_client o) (_EncryptObj o) d (app_random o), bags).

(** [int WriteData(int Vfd, char* Buf, int BufLen)]: whether the data was taken
    is not looked at. *)
Definition App_WriteData (this Vfd : Z) (Buf : list byte) : sm app Z :=
  o ← deref_in packets this;
  '(o', Output) ← lift (app_encrypt o Buf);
  modify (with_packets <[this := o']>);;
  (if blen Output >? 0 then PacketOnWrite Vfd Output;; mret () else mret ());;
  mret (blen Output).

Definition App_PacketOnRead (this Vfd : Z) (Buf : list byte) : sm app bool :=
  o ← deref_in packets this;
  '(o', bags) ← lift (app_decrypt o Buf);
  modify (with_packets <[this := o']>);;
  cout (String.string_of_list_byte <$> bags);;
  mret true.

Definition App_PacketOnError (this Vfd : Z) : sm app bool :=
  o ← deref_in packets this;
  cout (if app_client o then ["Vfd="%string; pretty Vfd; " is Closed!"%string]
        else ["Close Vfd="%string; pretty Vfd]);;
  mret true.

(** The two messages each side sends when a connection comes up. *)
Definition greeting (client : bool) : list (list byte) :=
  String.list_byte_of_string <$>
    (if client then ["conn ok!"%string; "Try to Send two msg!"%string]
     else ["Hello World"%string; "another Msg!"%string]).

Definition App_PacketOnConnect (this Vfd : Z) : sm app bool :=
  o ← deref_in packets this;
  cout (if app_client o then [pretty Vfd; "Connect OK!"%string] else []);;
  match greeting (app_client o) with
  | [Buf; Buf1] => App_WriteData this Vfd Buf;; App_WriteData this Vfd Buf1;; mret true
  | _ => mret true
  end.

#[export] Instance app_interface : PacketInterface app := {
  PacketOnRead := App_PacketOnRead;
  PacketOnError := App_PacketOnError;
  PacketOnConnect := App_PacketOnConnect
}.

(** * The handlers keep to the interface *)

Lemma with_packet_frame (s : net app) this o o' :
  packets s !! this = Some o -> hframe s (with_packets <[this := o']> s).
Proof.
  intros Ho. destruct (frame_refl s). split; try done. cbn. rewrite dom_insert_L.
  apply elem_of_dom_2 in Ho. clear - Ho. set_solver.
Qed.

Definition any_fault : fault -> Prop := fun _ => True.

Lemma post_any_lift {A B} (r : cres A) (k : A -> sm app B) (Q : res B -> net app -> Prop) s :
  (forall a, r = Ok a -> post any_fault (k a) Q s) -> post any_fault (lift r ≫= k) Q s.
Proof. intros Hk. unfold post, mbind, sm_bind, lift. destruct r as [a|f]; [by apply Hk|done]. Qed.

(** A packet on the wire: the frame, after the seed on first use. *)
Lemma EncryptPacket_length r (c : SimpleXOR) Buf e out :
  EncryptPacket r (mkPacketEncrypt (Some c)) Buf = Ok (e, out) ->
  blen out = blen (frame Buf) + (if SeedFlag c then 0 else 4) /\ 4 + blen Buf <= INT_MAX /\
  exists c', e = mkPacketEncrypt (Some c') /\ SeedFlag c' = true.
Proof.
  unfold EncryptPacket. intros H. inv_ok. apply chk_int_inv in E as [-> Hi].
  cbn [_EncryptClass] in H. inv_ok. destruct r0 as [c' o]. rename E into E0. simplify_eq.
  destruct (Encrypt_length _ _ _ _ _ E0) as [-> Hf]. split; [done|]. split; [lia|]. by exists c'.
Qed.

Lemma app_encrypt_length o Buf o' out : app_encrypt o Buf = Ok (o', out) -> blen out <= 2 ^ 62.
Proof.
  unfold app_encrypt. intros H. inv_ok. destruct r as [e w]. simplify_eq.
  destruct (_EncryptObj o) as [[c|]].
  - destruct (EncryptPacket_length _ _ _ _ _ E) as (-> & Hb & _). rewrite blen_frame.
    unfold INT_MAX in *. case_match; lia.
  - unfold EncryptPacket in E. inv_ok. apply chk_int_inv in E0 as [-> Hi].
    cbn [_EncryptClass] in E. simplify_eq. rewrite !blen_cons. unfold INT_MAX in *. lia.
Qed.

Lemma App_WriteData_frame s this v Buf :
  net_ok s -> is_Some (packets s !! this) ->
  post any_fault (App_WriteData this v Buf) (fun r s' => (exists n, r = Val n) /\ hframe s s') s.
Proof.
  intros Hok [o Ho]. unfold App_WriteData. sstep. apply post_any_lift. intros [o' out] He.
  pose proof (with_packet_frame s this o o' Ho) as Hfr. sstep. set (s1 := with_packets _ s) in *.
  apply post_bind. destruct (blen out >? 0).
  - apply post_bind. eapply post_mono.
    + apply PacketOnWrite_frame; [by eapply frame_ok|by eapply app_encrypt_length].
    + intros r s2 ((b & ->) & Hs2). sstep. sstep. split; [eauto|]. by transitivity s1.
  - sstep. sstep. split; [eauto|done].
Qed.

#[export] Instance app_laws : PacketLaws app any_fault.
Proof.
  split.
  - intros s this v buf Hok [o Ho]. change (PacketOnRead this v buf) with (App_PacketOnRead this v buf).
    unfold App_PacketOnRead. sstep. apply post_any_lift. intros [o' bags] He. sstep.
    unfold cout. sstep. sstep. split; [eauto|].
    etransitivity; [by eapply with_packet_frame|apply frame_stdout].
  - intros s this v Hok [o Ho]. change (PacketOnError this v) with (App_PacketOnError this v).
    unfold App_PacketOnError. sstep. unfold cout. sstep. sstep. split; [eauto|]. apply frame_stdout.
  - intros s this v Hok [o Ho]. change (PacketOnConnect this v) with (App_PacketOnConnect this v).
    unfold App_PacketOnConnect. sstep. unfold cout at 1. sstep. set (s1 := with_stdout _ s).
    assert (Hs1 : hframe s s1) by apply frame_stdout.
    assert (Hlive : forall s2, hframe s s2 -> is_Some (packets s2 !! this)).
    { intros s2 H2. apply elem_of_dom. rewrite (fr_packets s s2 H2). by apply elem_of_dom_2 in Ho. }
    assert (Hgo : forall a b, post any_fault (App_WriteData this v a;; App_WriteData this v b;; mret true)
      (fun r s' => (exists b, r = Val b) /\ hframe s s') s1).
    { intros a b. apply post_bind. eapply post_mono.
      - apply App_WriteData_frame; [by eapply frame_ok|by apply Hlive].
      - intros r s2 ((n & ->) & Hs2). assert (hframe s s2) by (by transitivity s1). apply post_bind.
        eapply post_mono; [apply App_WriteData_frame; [by eapply frame_ok|by apply Hlive]|].
        intros r s3 ((n' & ->) & Hs3). sstep. split; [eauto|]. by transitivity s2. }
    destruct (app_client o); apply Hgo.
Qed.

(** * One connection *)

(** All messages of a list written by a handler object, and all chunks of a
    stream read by one. *)
Fixpoint write_all (o : app) (ms : list (list byte)) : cres (app * list byte) :=
  match ms with
  | [] => Ok (o, [])
  | m :: ms =>
      '(o, out) ← app_encrypt o m;
      '(o, rest) ← write_all o ms;
      Ok (o, out ++ rest)
  end.

Fixpoint read_all (o : app) (chunks : list (list byte)) : cres (app * list (list byte)) :=
  match chunks with
  | [] => Ok (o, [])
  | c :: chunks =>
      '(o, bags) ← app_decrypt o c;
      '(o, rest) ← read_all o chunks;
      Ok (o, bags ++ rest)
  end.

(** The bytes of the messages with their lengths. *)
Definition total (ms : list (list byte)) : Z := blen (frames ms).

Lemma fresh_synced : synced SimpleXOR_new SimpleXOR_new [] [].
Proof. by constructor. Qed.

(** Writing is a sequence of sends of the channel. *)
Lemma write_all_reach ms : forall o s,
  _EncryptObj o = mkPacketEncrypt (Some (ch_enc s)) -> reachable SimpleXOR_new SimpleXOR_new s ->
  Forall (fun m => blen m <= 1024) ms ->
  exists o' out s', write_all o ms = Ok (o', out) /\ reachable SimpleXOR_new SimpleXOR_new s' /\
    ch_dec s' = ch_dec s /\ ch_wire s' = ch_wire s ++ out /\ ch_sent s' = ch_sent s ++ ms /\
    ch_recv s' = ch_recv s /\ _EncryptObj o' = mkPacketEncrypt (Some (ch_enc s')).
Proof.
  induction ms as [|m ms IH]; intros o s Ho Hr Hms.
  - exists o, [], s. by rewrite !app_nil_r.
  - apply Forall_cons in Hms as [Hm Hms]. pose proof (blen_nonneg m).
    assert (He : exists e' out, EncryptPacket (app_random o) (mkPacketEncrypt (Some (ch_enc s))) m =
      Ok (mkPacketEncrypt (Some e'), out)).
    { apply EncryptPacket_total; [by apply (reachable_inv _ _ _ fresh_synced)|unfold INT_MAX; lia]. }
    destruct He as (e' & out & He).
    pose proof (reach_step _ _ _ _ Hr (PacketProcess.step_send _ _ _ _ _ He)) as Hr1.
    edestruct (IH (mkApp (app_client o) (mkPacketEncrypt (Some e')) (_DecryptObj o) (app_random o)))
      as (o' & out' & s' & Hw & Hr' & Hd & Hwire & Hsent & Hrecv & Henc); [|exact Hr1|exact Hms|]; [done|].
    cbn in Hd, Hwire, Hsent, Hrecv.
    exists o', (out ++ out'), s'. cbn [write_all]. unfold app_encrypt. rewrite Ho, He, !bind_Ok, Hw, bind_Ok.
    rewrite Hwire, Hsent, <- !app_assoc. done.
Qed.

(** What is left on the wire is as long as what will be recovered, plus the
    seed if the receiver has none yet. *)
Lemma synced_length e d w p : XOR_synced e d w p -> blen w <= blen p + (if SeedFlag d then 0 else 4).
Proof.
  intros Hs. destruct Hs as [e d _ ->|e d Seed p _ -> _|e d i p _ -> _ _ _ _ _].
  - rewrite !blen_nil. lia.
  - rewrite blen_app, blen_xor_stream. unfold blen at 1. rewrite length_int_bytes. lia.
  - rewrite blen_xor_stream. lia.
Qed.

Lemma frames_app_length a b : total (a ++ b) = total a + total b.
Proof. unfold total. by rewrite frames_app, blen_app. Qed.

(** One chunk of a stream of at most 1020 bytes of packets. *)
Lemma read_chunk s c rest :
  reachable SimpleXOR_new SimpleXOR_new s -> ch_wire s = c ++ rest -> total (ch_sent s) <= 1020 ->
  dec_ready (ch_dec s) (blen c) ->
  exists d' bags, DecryptPacket true (ch_dec s) c = Ok (d', bags) /\
    reachable SimpleXOR_new SimpleXOR_new (mkChannel (ch_enc s) d' rest (ch_sent s) (ch_recv s ++ bags)) /\
    exists x, _DecryptClass d' = Some x /\ SeedFlag x = true.
Proof.
  intros Hr Hw Ht Hrdy. pose proof (reachable_inv _ _ _ fresh_synced Hr) as Hi.
  assert (Hfit : GetBufLen (_DecryptBuf (ch_dec s)) + blen c <= 1024).
  { destruct Hi as (x & q & p & und & Hx & Hsy & [Hrep _] & _ & _ & _ & Hsent & Hund & _).
    rewrite (rep_len _ _ Hrep). apply synced_length in Hsy. rewrite Hw, blen_app in Hsy.
    rewrite Hsent, frames_app_length in Ht. pose proof (blen_nonneg (frames (ch_recv s))) as Hrv.
    change (blen (frames (ch_recv s))) with (total (ch_recv s)) in Hrv.
    assert (blen (pending (ch_dec s) q) + blen p = total und) by (unfold total; by rewrite <- Hund, blen_app).
    assert (blen q <= blen (pending (ch_dec s) q)).
    { unfold pending. rewrite blen_app. pose proof (blen_nonneg
        (if _BagFlag (ch_dec s) then int_bytes (default 0 (_BagLen (ch_dec s))) else [])). lia. }
    pose proof (blen_nonneg rest). destruct (SeedFlag x); lia. }
  destruct (recv_inv s c rest Hi Hw Hrdy Hfit) as (d' & bags & Hd & Hi').
  exists d', bags. split; [done|]. split; [eapply reach_step; [done|by econstructor]|].
  unfold dec_ready in Hrdy. destruct (_DecryptClass (ch_dec s)) as [x|] eqn:Hx; [|done].
  destruct Hi as (x' & q & p & und & Hx' & Hsy & Hdi & Hex & Hsz & _). rewrite Hx in Hx'. injection Hx' as <-.
  rewrite Hw in Hsy. destruct (decrypt_synced _ _ _ _ _ Hsy Hrdy) as (y & p1 & p2 & Hdec & _ & Hle & _).
  exists y. split; [|by eapply Decrypt_sets_flag].
  destruct (DecryptPacket_refines (ch_dec s) q c p1 (Some y)) as (d2 & q2 & Hd2 & _ & _ & _ & _ & Hcl); try done.
  { destruct Hdi as [Hrep _]. rewrite (rep_len _ _ Hrep) in Hfit. lia. }
  { by rewrite Hx, Hdec. }
  congruence.
Qed.

Lemma read_all_reach chunks : forall o s,
  _DecryptObj o = ch_dec s -> reachable SimpleXOR_new SimpleXOR_new s -> ch_wire s = concat chunks ->
  total (ch_sent s) <= 1020 ->
  match chunks with c :: _ => dec_ready (ch_dec s) (blen c) | [] => True end ->
  exists o' bags s', read_all o chunks = Ok (o', bags) /\ reachable SimpleXOR_new SimpleXOR_new s' /\
    ch_wire s' = [] /\ ch_sent s' = ch_sent s /\ ch_recv s' = ch_recv s ++ bags.
Proof.
  induction chunks as [|c chunks IH]; intros o s Ho Hr Hw Ht Hrdy.
  - exists o, [], s. by rewrite app_nil_r.
  - destruct (read_chunk s c (concat chunks) Hr Hw Ht Hrdy) as (d' & bags & Hd & Hr' & x & Hx & Hf).
    edestruct (IH (mkApp (app_client o) (_EncryptObj o) d' (app_random o)))
      as (o' & bags' & s' & Hrd & Hr2 & Hw2 & Hsent & Hrecv); [|exact Hr'|done|exact Ht| |]; [done| |].
    { destruct chunks; [done|]. cbn [ch_dec]. unfold dec_ready. rewrite Hx. cbn. unfold XOR_ready. by rewrite Hf. }
    exists o', (bags ++ bags'), s'. cbn [read_all]. unfold app_decrypt. rewrite Ho, Hd, !bind_Ok, Hrd, bind_Ok.
    cbn in Hsent, Hrecv. rewrite Hrecv, <- app_assoc. done.
Qed.

Lemma total_cons m ms : total (m :: ms) = 4 + blen m + total ms.
Proof. unfold total. by rewrite frames_cons, blen_app, blen_frame. Qed.

Lemma total_nonneg ms : 0 <= total ms.
Proof. apply blen_nonneg. Qed.

Lemma total_each ms n : total ms <= n -> Forall (fun m => blen m <= n) ms.
Proof.
  revert n. induction ms as [|m ms IH]; intros n Hn; [constructor|]. rewrite total_cons in Hn.
  pose proof (total_nonneg ms). pose proof (blen_nonneg m). constructor; [lia|]. apply IH. lia.
Qed.

Lemma write_all_length ms : forall o c,
  _EncryptObj o = mkPacketEncrypt (Some c) -> forall o' out, write_all o ms = Ok (o', out) ->
  blen out = total ms + (if SeedFlag c then 0 else match ms with [] => 0 | _ => 4 end) /\
  exists c', _EncryptObj o' = mkPacketEncrypt (Some c') /\ (ms <> [] -> SeedFlag c' = true).
Proof.
  induction ms as [|m ms IH]; intros o c Ho o' out H; cbn [write_all] in H.
  - simplify_eq. split; [by destruct (SeedFlag c)|]. by exists c.
  - inv_ok. destruct r as [o1 w]. inv_ok. destruct r as [o2 ws]. injection H as <- <-.
    unfold app_encrypt in E. rewrite Ho in E. inv_ok. destruct r as [e w']. injection E as <- <-.
    destruct (EncryptPacket_length _ _ _ _ _ E1) as (Hl & _ & c1 & -> & Hf).
    destruct (IH (mkApp (app_client o) (mkPacketEncrypt (Some c1)) (_DecryptObj o) (app_random o)) c1 eq_refl _ _ E0)
      as (Hl' & c2 & Hc2 & Hf2).
    rewrite total_cons, blen_app, Hl, Hl', Hf, blen_frame. split; [destruct (SeedFlag c); lia|].
    exists c2. split; [done|]. intros _. destruct ms; [|by apply Hf2].
    cbn in E0. simplify_eq. cbn in Hc2. by simplify_eq.
Qed.

(** A fresh decoder takes four bytes off the stream before it decrypts. *)
Lemma short_decrypt o w :
  _DecryptObj o = PacketDecrypt_new true (Some SimpleXOR_new) -> 4 <= blen w <= 1024 ->
  exists o' bags, read_all o [w] = Ok (o', bags) /\ total bags <= blen w - 4.
Proof.
  intros Ho Hw. destruct (rep_new 1024) as [Hrep Hex]; [unfold INT_MAX; lia|].
  set (d := PacketDecrypt_new true (Some SimpleXOR_new)) in *.
  set (seed := int_of_bytes (take 4 w)).
  assert (Hdec : XOR_Decrypt SimpleXOR_new w =
    Ok (advance (SetSeed seed) (blen (drop 4 w) mod 256), Some (xor_stream (fill_dic 256 seed) 0 (drop 4 w)))).
  { unfold XOR_Decrypt. cbn [SimpleXOR_new SeedFlag negb]. rewrite (proj2 (Z.ltb_ge _ _)) by lia.
    fold seed. by rewrite xmake_all_SetSeed. }
  set (plain := xor_stream (fill_dic 256 seed) 0 (drop 4 w)) in *.
  assert (Hpl : blen plain = blen w - 4).
  { unfold plain. rewrite blen_xor_stream. unfold blen. rewrite length_drop. unfold blen in Hw. lia. }
  destruct (DecryptPacket_refines d [] w plain (Some (advance (SetSeed seed) (blen (drop 4 w) mod 256))))
    as (d' & q' & Hd & _).
  - split; [exact Hrep|discriminate].
  - exact Hex.
  - reflexivity.
  - rewrite blen_nil. lia.
  - cbn [d PacketDecrypt_new _DecryptClass]. unfold Decrypt, SimpleXOR_clsEncrypt. by rewrite Hdec.
  - change (pending d [] ++ plain) with plain in Hd.
    eexists _, _. cbn [read_all]. unfold app_decrypt. rewrite Ho. rewrite Hd, !bind_Ok. split; [done|].
    destruct (parse plain) as [bags rest] eqn:Ep. cbn [fst]. rewrite app_nil_r.
    apply parse_rest in Ep as [Hp _]. rewrite <- Hpl, Hp, blen_app. unfold total.
    pose proof (blen_nonneg rest). lia.
Qed.

(** * The properties *)

(** What one handler object encrypts, the other decrypts, however it is cut. *)
Lemma write_read_all (client : bool) (r r' : Z) (ms : list (list byte)) :
  total ms <= 1020 ->
  exists o wire, write_all (app_new client r) ms = Ok (o, wire) /\ blen wire <= 1024 /\
    forall chunks, concat chunks = wire ->
      match chunks with c :: _ => 4 <= blen c | [] => True end ->
      exists o', read_all (app_new (negb client) r') chunks = Ok (o', ms).
Proof.
  intros Ht. destruct (write_all_reach ms (app_new client r) (channel_new SimpleXOR_new SimpleXOR_new))
    as (o & wire & s & Hw & Hr & Hd & Hwire & Hsent & Hrecv & _); [done|apply reach_init| |].
  { eapply Forall_impl; [by apply total_each|]. cbn. lia. }
  exists o, wire. split; [done|]. split.
  { destruct (write_all_length ms (app_new client r) _ eq_refl o wire Hw) as [-> _]. cbn. destruct ms; lia. }
  intros chunks Hc Hfirst.
  cbn in Hd, Hwire, Hsent, Hrecv.
  destruct (read_all_reach chunks (app_new (negb client) r') s) as (o' & bags & s' & Hrd & Hr' & Hw' & Hs' & Hb);
    [by rewrite Hd|done|by rewrite Hwire|by rewrite Hsent| |].
  { destruct chunks; [done|]. rewrite Hd. unfold dec_ready, ready. cbn. by apply Z.leb_le. }
  exists o'. rewrite Hrd. do 2 f_equal. rewrite Hrecv in Hb. cbn in Hb. rewrite <- Hb, <- Hsent, <- Hs'.
  apply drained_delivered; [|done]. by eapply reachable_inv; [apply fresh_synced|].
Qed.

(** Calls of [App_WriteData] one after the other, and of [App_PacketOnRead]. *)
Fixpoint write_messages (this Vfd : Z) (ms : list (list byte)) : sm app unit :=
  match ms with
  | [] => mret ()
  | m :: ms => App_WriteData this Vfd m;; write_messages this Vfd ms
  end.

Fixpoint read_chunks (this Vfd : Z) (chunks : list (list byte)) : sm app unit :=
  match chunks with
  | [] => mret ()
  | c :: chunks => App_PacketOnRead this Vfd c;; read_chunks this Vfd chunks
  end.

Lemma app_encrypt_nonempty o m o' out c : _EncryptObj o = mkPacketEncrypt (Some c) -> app_encrypt o m = Ok (o', out) -> 0 < blen out.
Proof.
  intros Ho H. unfold app_encrypt in H. rewrite Ho in H. inv_ok. destruct r as [e w]. injection H as <- <-.
  destruct (EncryptPacket_length _ _ _ _ _ E) as (Hl & _). rewrite Hl, blen_frame. pose proof (blen_nonneg m). case_match; lia.
Qed.

(** One message goes into the output buffer of the connection. *)
Lemma write_data_ok (s : net app) a p e iq oq this o m o' out : connected s a p e iq oq -> packets s !! this = Some o ->
  app_encrypt o m = Ok (o', out) -> 0 < blen out -> (forall n, n <= Z.max 256 (2 * (blen oq + 2 * blen out)) -> n_alloc s n = true) ->
  exists e' s', App_WriteData this (pp_Vfd p) m s = Ok (Val (blen out), s') /\ connected s' a p e' iq (oq ++ out) /\
    packets s' !! this = Some o' /\ n_alloc s' = n_alloc s.
Proof.
  intros [Hok Hp Hreg Hst He Hinv] Ho Henc Hpos Hal. pose proof (app_encrypt_length _ _ _ _ Henc) as Hlen.
  pose proof Hok as [M R]. destruct (bufferevent_write_inv (n_alloc s) e iq oq out (ro_alloc s R) Hinv Hlen) as (e' & r & Hw & Hi & Hres).
  destruct Hres as [[-> Hinv']|(_ & _ & l & Hl & Hf)]; [|rewrite (Hal l Hl) in Hf; discriminate].
  set (s1 := with_packets <[this := o']> s). set (s2 := with_bevs <[pp_BuffEv p := e']> s1). exists e', s2.
  assert (Hfr : hframe s s2).
  { transitivity s1; [by eapply with_packet_frame|]. apply (with_bev_frame s1 _ e); [done|done|by eapply bufferevent_write_cbarg|].
    intros iq' oq' Hinv2. destruct (bufferevent_write_inv (n_alloc s) e iq' oq' out (ro_alloc s R) Hinv2 Hlen) as (e1 & r1 & Hw1 & _ & Hres).
    rewrite Hw in Hw1. injection Hw1 as <- <-. destruct Hres as [[_ ?]|(? & _)]; [by exists out|done]. }
  split; [|split; [|split; [cbn; apply lookup_insert_eq|done]]].
  - unfold App_WriteData, PacketOnWrite, PeerVfdOnWrite, WriteData, mbind, sm_bind, mret, sm_ret, deref_in, lift, modify, get. rewrite Ho, Henc.
    rewrite (proj2 (Z.gtb_lt _ _)) by done. change (PeerObjList (Manager s1) !! pp_Vfd p) with (PeerObjList (Manager s) !! pp_Vfd p). fold s1.
    change (PeerObjList (Manager s1)) with (PeerObjList (Manager s)). rewrite Hreg. change (peers s1) with (peers s). rewrite Hp.
    rewrite (proj2 (Z.eqb_neq _ _)) by done. change (bevs s1) with (bevs s). rewrite He.
    change (n_alloc s1) with (n_alloc s). change (n_evadd s1) with (n_evadd s). by rewrite (ro_evadd s R), Hw.
  - split; [by eapply frame_ok|done|done|done|cbn; apply lookup_insert_eq|done].
Qed.

(** The messages of a list are written to the connection one after the other. *)
Lemma write_messages_ok ms : forall (s : net app) a p e iq oq this o c o' wire, connected s a p e iq oq -> packets s !! this = Some o ->
  _EncryptObj o = mkPacketEncrypt (Some c) -> write_all o ms = Ok (o', wire) ->
  (forall n, n <= 256 + 2 * (blen oq + 2 * blen wire) -> n_alloc s n = true) ->
  exists e' s', write_messages this (pp_Vfd p) ms s = Ok (Val (), s') /\ connected s' a p e' iq (oq ++ wire) /\ packets s' !! this = Some o'.
Proof.
  induction ms as [|m ms IH]; intros s a p e iq oq this o c o' wire C Ho Hc Hw Hal; cbn [write_all] in Hw.
  - injection Hw as <- <-. exists e, s. by rewrite app_nil_r.
  - inv_ok. destruct r as [o1 out]. inv_ok. destruct r as [o2 rest]. injection Hw as <- <-. rewrite blen_app in Hal.
    pose proof (app_encrypt_nonempty _ _ _ _ _ Hc E) as Hpos. pose proof (blen_nonneg oq). pose proof (blen_nonneg rest).
    destruct (write_data_ok s a p e iq oq this o m o1 out C Ho E Hpos) as (e1 & s1 & Hr1 & C1 & Ho1 & Hal1); [intros n Hn; apply Hal; lia|].
    assert (exists c1, _EncryptObj o1 = mkPacketEncrypt (Some c1)) as [c1 Hc1].
    { unfold app_encrypt in E. rewrite Hc in E. inv_ok. destruct r as [ee w]. injection E as <- <-.
      destruct (EncryptPacket_length _ _ _ _ _ E1) as (_ & _ & c1 & -> & _). by exists c1. }
    destruct (IH s1 a p e1 iq (oq ++ out) this o1 c1 o2 rest C1 Ho1 Hc1 E0) as (e2 & s2 & Hr2 & C2 & Ho2).
    { rewrite Hal1. intros n Hn. apply Hal. rewrite blen_app in Hn. lia. }
    exists e2, s2. rewrite app_assoc. split; [|done]. cbn [write_messages]. unfold mbind, sm_bind. by rewrite Hr1.
Qed.

(** The chunks of a stream are read, and what is found printed. *)
Lemma read_chunks_ok chunks : forall (s : net app) this v o o' bags, packets s !! this = Some o -> read_all o chunks = Ok (o', bags) ->
  exists s', read_chunks this v chunks s = Ok (Val (), s') /\ stdout s' = stdout s ++ (String.string_of_list_byte <$> bags) /\
    packets s' !! this = Some o'.
Proof.
  induction chunks as [|c chunks IH]; intros s this v o o' bags Ho Hr; cbn [read_all] in Hr.
  - injection Hr as <- <-. exists s. by rewrite app_nil_r.
  - inv_ok. destruct r as [o1 b1]. inv_ok. destruct r as [o2 rest]. injection Hr as <- <-.
    set (s1 := with_stdout (fun l => l ++ (String.string_of_list_byte <$> b1)) (with_packets <[this := o1]> s)).
    destruct (IH s1 this v o1 o2 rest) as (s2 & Hr2 & Hout & Ho2); [apply lookup_insert_eq|done|].
    exists s2. split; [|split; [|done]].
    + cbn [read_chunks]. unfold App_PacketOnRead, mbind, sm_bind, mret, sm_ret, deref_in, lift, modify, cout, get. by rewrite Ho, E.
    + rewrite Hout, fmap_app, app_assoc. done.
Qed.

(** C26: two programs over one connection. Messages that the handler of one of
    them, new and whatever [random()] returns, writes with [WriteData] to a
    connection go into the output buffer of this connection behind what is
    already there, and nothing else. When the bytes written are given to
    [PacketOnRead] of a new handler of the other program, cut into blocks in any
    way, the first of which has at least the four bytes of the seed, this prints
    exactly the messages, in order. The messages with their lengths take at most
    1020 bytes together, which is what is sure to fit the decoder's buffer, and
    there is memory for the output. *)
Theorem app_messages_received (client : bool) (r r' : Z) (ms : list (list byte)) (s s2 : net app) (a this that v : Z)
    (p : clsPeerPoint) (e : bufferevent) (iq oq : list byte) :
  total ms <= 1020 ->
  connected s a p e iq oq -> packets s !! this = Some (app_new client r) ->
  (forall n, n <= 256 + 2 * (blen oq + 2048) -> n_alloc s n = true) ->
  packets s2 !! that = Some (app_new (negb client) r') ->
  exists s' e' wire, write_messages this (pp_Vfd p) ms s = Ok (Val (), s') /\ connected s' a p e' iq (oq ++ wire) /\
    forall chunks, concat chunks = wire ->
      match chunks with c :: _ => 4 <= blen c | [] => True end ->
      exists s2', read_chunks that v chunks s2 = Ok (Val (), s2') /\
        stdout s2' = stdout s2 ++ (String.string_of_list_byte <$> ms).
Proof.
  intros Ht C Ho Hal Ho2. destruct (write_read_all client r r' ms Ht) as (o & wire & Hw & Hlen & Hrd).
  destruct (write_messages_ok ms s a p e iq oq this _ SimpleXOR_new o wire C Ho eq_refl Hw) as (e' & s' & Hrun & C' & _).
  { intros n Hn. apply Hal. lia. }
  exists s', e', wire. split; [done|]. split; [done|]. intros chunks Hc Hfirst. destruct (Hrd chunks Hc Hfirst) as (o' & Hr).
  destruct (read_chunks_ok chunks s2 that v _ o' ms Ho2 Hr) as (s2' & Hr2 & Hout & _). by exists s2'.
Qed.

(** A server with one connection, and two handlers nobody used yet. *)
Definition some_memory (n : Z) : bool := n <=? 65536.

Definition demo_app_net : net app :=
  net_init {[ 1 := app_new false 7; 2 := app_new true 77; 3 := app_new false 5 ]} 10 ∅ some_memory.
Definition demo_app_listening : net app := run (CreateServerSocket true 6666 (Some 1) demo_start) demo_app_net.
Definition demo_app : net app := run (NewConnect 3 10 demo_accept) demo_app_listening.

Lemma demo_app_reachable : rtc net_step demo_app_net demo_app.
Proof.
  eapply rtc_l; [eapply (step_server demo_app_net 6666 1 demo_start (Val (Some 10)) demo_app_listening)|
    eapply rtc_l; [eapply (step_accept demo_app_listening 3 10 demo_accept (Val ()) demo_app)|apply rtc_refl]].
  - by eexists.
  - apply not_elem_of_empty.
  - vm_compute. split; discriminate.
  - reflexivity.
  - vm_compute. reflexivity.
  - apply (bool_decide_unpack _). reflexivity.
  - apply (bool_decide_unpack _). reflexivity.
  - reflexivity.
  - vm_compute. reflexivity.
Qed.

Definition demo_app_peer : clsPeerPoint := mkPeer 4 SERVER_TYPE 12 1.

Lemma demo_app_connected : exists e iq oq, connected demo_app 11 demo_app_peer e iq oq /\ blen oq < 1024.
Proof.
  assert (net_ok demo_app) as Hok.
  { eapply (net_steps_ok any_fault); [|exact demo_app_reachable]. apply net_init_ok. intros n Hn%Z.leb_le. unfold PTRDIFF_MAX. lia. }
  destruct (ro_bev demo_app (proj2 Hok) 11 demo_app_peer) as (e & iq & oq & He & Hi & _); [vm_compute; reflexivity|discriminate|].
  exists e, iq, oq. split; [split; [done|vm_compute; reflexivity|vm_compute; reflexivity|discriminate|exact He|exact Hi]|].
  rewrite <- (evrep_off _ _ (bi_output _ _ _ Hi)). change (pp_BuffEv demo_app_peer) with 12 in He.
  assert (off (output (default demo_bev (bevs demo_app !! 12))) < 1024) as Hlt by (vm_compute; reflexivity). by rewrite He in Hlt.
Qed.

Lemma demo_app_memory : n_alloc demo_app = some_memory.
Proof. vm_compute. reflexivity. Qed.

Lemma app_messages_received_witness :
  exists s' e' iq oq wire, write_messages 2 4 (greeting true) demo_app = Ok (Val (), s') /\ connected s' 11 demo_app_peer e' iq (oq ++ wire) /\
    forall chunks, concat chunks = wire ->
      match chunks with c :: _ => 4 <= blen c | [] => True end ->
      exists s2', read_chunks 3 9 chunks demo_app = Ok (Val (), s2') /\
        stdout s2' = stdout demo_app ++ (String.string_of_list_byte <$> greeting true).
Proof.
  destruct demo_app_connected as (e & iq & oq & C & Hoq).
  destruct (app_messages_received true 77 5 (greeting true) demo_app demo_app 11 2 3 9 demo_app_peer e iq oq)
    as (s' & e' & wire & Hw & C' & Hr).
  - vm_compute. discriminate.
  - exact C.
  - vm_compute. reflexivity.
  - intros n Hn. rewrite demo_app_memory. apply Z.leb_le. lia.
  - vm_compute. reflexivity.
  - exists s', e', iq, oq, wire. split; [exact Hw|]. split; [exact C'|exact Hr].
Defined.

(** A handler object is shared by all connections of a server, and its
    cipher sends the seed only once. What it writes to a second connection
    starts in the middle of the key stream: the client there takes the first
    four bytes for the seed and never prints the messages it was sent. *)
Theorem second_client_unreadable (r r' : Z) (ms1 ms2 : list (list byte)) :
  ms1 <> [] -> ms2 <> [] -> total ms1 <= 1020 -> total ms2 <= 1020 ->
  exists o1 w1 o2 w2 o' bags, write_all (app_new false r) ms1 = Ok (o1, w1) /\
    write_all o1 ms2 = Ok (o2, w2) /\ read_all (app_new true r') [w2] = Ok (o', bags) /\ bags <> ms2.
Proof.
  intros Hn1 Hn2 Ht1 Ht2.
  assert (Hall : Forall (fun m => blen m <= 1024) ms1 /\ Forall (fun m => blen m <= 1024) ms2).
  { split; (eapply Forall_impl; [by apply total_each|]); cbn; lia. }
  destruct Hall as [Ha1 Ha2].
  destruct (write_all_reach ms1 (app_new false r) (channel_new SimpleXOR_new SimpleXOR_new))
    as (o1 & w1 & s1 & Hw1 & Hr1 & _ & _ & _ & _ & He1); [done|apply reach_init|done|].
  destruct (write_all_reach ms2 o1 s1 He1 Hr1 Ha2) as (o2 & w2 & _ & Hw2 & _).
  destruct (write_all_length ms1 (app_new false r) SimpleXOR_new eq_refl _ _ Hw1) as (_ & c1 & Hc1 & Hf1).
  destruct (write_all_length ms2 o1 c1 Hc1 _ _ Hw2) as (Hl2 & _). rewrite (Hf1 Hn1), Z.add_0_r in Hl2.
  assert (H4 : 4 <= total ms2).
  { destruct ms2 as [|m ms2]; [done|]. rewrite total_cons. pose proof (total_nonneg ms2).
    pose proof (blen_nonneg m). lia. }
  destruct (short_decrypt (app_new true r') w2) as (o' & bags & Hrd & Hb); [done|lia|].
  exists o1, w1, o2, w2, o', bags. split_and!; try done. intros ->. lia.
Qed.

Lemma second_client_unreadable_witness :
  exists o1 w1 o2 w2 o' bags, write_all (app_new false 77) (greeting false) = Ok (o1, w1) /\
    write_all o1 (greeting false) = Ok (o2, w2) /\ read_all (app_new true 5) [w2] = Ok (o', bags) /\
    bags <> greeting false.
Proof.
  apply (second_client_unreadable 77 5 (greeting false) (greeting false));
    [discriminate|discriminate|vm_compute; discriminate|vm_compute; discriminate].
Defined.
