(* ===== verification/MinHeap.v ===== *)
(** libevent's timeout heap: [min_heap.h] over the events of [event.h]
    ([socket/3rd/libevent-1.4.12-stable]). The heap is an array of event
    pointers with one slot per event; every event records its slot. *)
From Stdlib Require Import Sorted.
From S2P Require Import Prelude.

(** * Data *)

(** [struct timeval] and the comparison and arithmetic macros of [evutil.h]. *)
Record timeval := mkTv { tv_sec : Z; tv_usec : Z }.

#[export] Instance timeval_eq_dec : EqDecision timeval.
Proof. solve_decision. Defined.

Definition chk_long (z : Z) : cres Z :=
  if (- 2 ^ 63 <=? z) && (z <? 2 ^ 63) then Ok z else UB SignedOverflow.

Definition evutil_timercmp_gt (a b : timeval) : bool :=
  if tv_sec a =? tv_sec b then tv_usec a >? tv_usec b else tv_sec a >? tv_sec b.

Definition evutil_timercmp_le (a b : timeval) : bool :=
  if tv_sec a =? tv_sec b then tv_usec a <=? tv_usec b else tv_sec a <=? tv_sec b.

Definition evutil_timercmp_ge (a b : timeval) : bool :=
  if tv_sec a =? tv_sec b then tv_usec a >=? tv_usec b else tv_sec a >=? tv_sec b.

Definition evutil_timeradd (a b : timeval) : cres timeval :=
  sec ← chk_long (tv_sec a + tv_sec b);
  usec ← chk_long (tv_usec a + tv_usec b);
  if usec >=? 1000000
  then sec ← chk_long (sec + 1); Ok (mkTv sec (usec - 1000000))
  else Ok (mkTv sec usec).

Definition evutil_timersub (a b : timeval) : cres timeval :=
  sec ← chk_long (tv_sec a - tv_sec b);
  usec ← chk_long (tv_usec a - tv_usec b);
  if usec <? 0
  then sec ← chk_long (sec - 1); Ok (mkTv sec (usec + 1000000))
  else Ok (mkTv sec usec).

(** [struct event]. The list links are the queues of the event base;
    [ev_pncalls] is the null pointer or the identity of the call of
    [event_process_active] whose local counter it points at. *)
Record event := mkEvent {
  min_heap_idx : Z;
  ev_fd : Z;
  ev_events : Z;
  ev_ncalls : Z;
  ev_pncalls : option Z;
  ev_timeout : timeval;
  ev_pri : Z;
  ev_res : Z;
  ev_flags : Z
}.

#[export] Instance event_eq_dec : EqDecision event.
Proof. solve_decision. Defined.

Definition with_idx (o : event) (i : Z) : event :=
  mkEvent i (ev_fd o) (ev_events o) (ev_ncalls o) (ev_pncalls o) (ev_timeout o) (ev_pri o)
    (ev_res o) (ev_flags o).

Abbreviation events := (gmap Z event).

(** [struct min_heap]: [p] is the allocated block, of [a] slots; a slot that was
    never written is [None]. *)
Record min_heap := mkHeap { hp : list (option Z); hn : Z; ha : Z }.

(** [(unsigned int)-1]. *)
Definition NO_IDX : Z := uwrap32 (-1).

(** * Operations *)

Definition min_heap_ctor : min_heap := mkHeap [] 0 0.

Definition deref (E : events) (x : Z) : cres event := of_option UseAfterFree (E !! x).

Definition set_idx (E : events) (x i : Z) : cres events :=
  o ← deref E x; Ok (<[x := with_idx o i]> E).

Definition min_heap_elem_init (E : events) (x : Z) : cres events := set_idx E x NO_IDX.

(** [s->p[i]] as a value and as a place. *)
Definition get_slot (p : list (option Z)) (i : Z) : cres Z :=
  require (0 <=? i) OutOfBounds;;
  c ← of_option OutOfBounds (p !! Z.to_nat i);
  of_option Uninitialised c.

Definition put_slot (p : list (option Z)) (i x : Z) : cres (list (option Z)) :=
  require ((0 <=? i) && (i <? blen p)) OutOfBounds;;
  Ok (<[Z.to_nat i := Some x]> p).

(** [(s->p[i] = x)->min_heap_idx = i]. *)
Definition place (p : list (option Z)) (E : events) (i x : Z) : cres (list (option Z) * events) :=
  p ← put_slot p i x; E ← set_idx E x i; Ok (p, E).

Definition min_heap_elem_greater (E : events) (x y : Z) : cres bool :=
  a ← deref E x; b ← deref E y; Ok (evutil_timercmp_gt (ev_timeout a) (ev_timeout b)).

Definition min_heap_empty (s : min_heap) : bool := hn s =? 0.
Definition min_heap_size (s : min_heap) : Z := hn s.

Definition min_heap_top (s : min_heap) : cres (option Z) :=
  if hn s =? 0 then Ok None else x ← get_slot (hp s) 0; Ok (Some x).

(** The hole index is halved by every turn, so 33 turns are enough for a 32-bit
    index. *)
Definition shift_fuel : nat := 33.

Definition parent_of (hole : Z) : Z := uwrap32 (hole - 1) / 2.

Fixpoint shift_up_loop (fuel : nat) (p : list (option Z)) (E : events) (hole e : Z)
  : cres (list (option Z) * events) :=
  match fuel with
  | O => UB Diverges
  | S fuel =>
      if hole =? 0 then place p E hole e
      else
        x ← get_slot p (parent_of hole);
        up ← min_heap_elem_greater E x e;
        if up : bool then
          '(p, E) ← place p E hole x;
          shift_up_loop fuel p E (parent_of hole) e
        else place p E hole e
  end.

Definition min_heap_shift_up_ (s : min_heap) (E : events) (hole e : Z) : cres (min_heap * events) :=
  '(p, E) ← shift_up_loop shift_fuel (hp s) E hole e;
  Ok (mkHeap p (hn s) (ha s), E).

Definition child_of (hole : Z) : Z := uwrap32 (2 * uwrap32 (hole + 1)).

(** The smaller child of [hole], when [child_of hole <= n]. *)
Definition min_child (p : list (option Z)) (E : events) (n hole : Z) : cres Z :=
  let c := child_of hole in
  if c =? n then Ok (uwrap32 (c - 1))
  else
    x ← get_slot p c;
    y ← get_slot p (uwrap32 (c - 1));
    g ← min_heap_elem_greater E x y;
    Ok (if g : bool then uwrap32 (c - 1) else c).

Fixpoint shift_down_loop (fuel : nat) (p : list (option Z)) (E : events) (n hole e : Z)
  : cres (list (option Z) * events * Z) :=
  match fuel with
  | O => UB Diverges
  | S fuel =>
      if child_of hole <=? n then
        c ← min_child p E n hole;
        x ← get_slot p c;
        down ← min_heap_elem_greater E e x;
        if negb (down : bool) then Ok (p, E, hole)
        else
          '(p, E) ← place p E hole x;
          shift_down_loop fuel p E n c e
      else Ok (p, E, hole)
  end.

Definition min_heap_shift_down_ (s : min_heap) (E : events) (hole e : Z) : cres (min_heap * events) :=
  '(p, E, hole) ← shift_down_loop shift_fuel (hp s) E (hn s) hole e;
  min_heap_shift_up_ (mkHeap p (hn s) (ha s)) E hole e.

(** [alloc n] is whether a [realloc] to [n] bytes succeeds. *)
Definition min_heap_reserve (alloc : Z -> bool) (s : min_heap) (n : Z) : min_heap * Z :=
  if ha s <? n then
    let a := if ha s =? 0 then 8 else uwrap32 (ha s * 2) in
    let a := if a <? n then n else a in
    if alloc (a * 8)
    then (mkHeap (take (Z.to_nat a) (hp s) ++ replicate (Z.to_nat a - length (hp s)) None) (hn s) a, 0)
    else (s, -1)
  else (s, 0).

Definition min_heap_push (alloc : Z -> bool) (s : min_heap) (E : events) (e : Z)
  : cres (min_heap * events * Z) :=
  let '(s, r) := min_heap_reserve alloc s (uwrap32 (hn s + 1)) in
  if negb (r =? 0) then Ok (s, E, -1)
  else
    '(s, E) ← min_heap_shift_up_ (mkHeap (hp s) (uwrap32 (hn s + 1)) (ha s)) E (hn s) e;
    Ok (s, E, 0).

Definition min_heap_pop (s : min_heap) (E : events) : cres (min_heap * events * option Z) :=
  if hn s =? 0 then Ok (s, E, None)
  else
    e ← get_slot (hp s) 0;
    let s := mkHeap (hp s) (hn s - 1) (ha s) in
    last ← get_slot (hp s) (hn s);
    '(s, E) ← min_heap_shift_down_ s E 0 last;
    E ← set_idx E e NO_IDX;
    Ok (s, E, Some e).

Definition min_heap_erase (s : min_heap) (E : events) (e : Z) : cres (min_heap * events * Z) :=
  o ← deref E e;
  if min_heap_idx o =? NO_IDX then Ok (s, E, -1)
  else
    let s := mkHeap (hp s) (uwrap32 (hn s - 1)) (ha s) in
    last ← get_slot (hp s) (hn s);
    let i := min_heap_idx o in
    up ← (if i >? 0 then x ← get_slot (hp s) (parent_of i); min_heap_elem_greater E x last
          else Ok false);
    '(s, E) ← (if up : bool then min_heap_shift_up_ s E i last else min_heap_shift_down_ s E i last);
    E ← set_idx E e NO_IDX;
    Ok (s, E, 0).

(** * Times *)

Definition tle (a b : timeval) : Prop :=
  tv_sec a < tv_sec b \/ (tv_sec a = tv_sec b /\ tv_usec a <= tv_usec b).

Ltac times := unfold tle, evutil_timercmp_gt, evutil_timercmp_le, evutil_timercmp_ge in *.

#[export] Instance tle_refl : Reflexive tle.
Proof. intros a. times. lia. Qed.

#[export] Instance tle_trans : Transitive tle.
Proof. intros a b c. times. lia. Qed.

Lemma timercmp_gt_spec a b : if evutil_timercmp_gt a b then tle b a else tle a b.
Proof. times. destruct (Z.eqb_spec (tv_sec a) (tv_sec b)); rewrite Z.gtb_ltb; case_match; bool_props; lia. Qed.

Lemma timercmp_gt_false a b : tle a b -> evutil_timercmp_gt a b = false.
Proof. times. destruct (Z.eqb_spec (tv_sec a) (tv_sec b)); rewrite Z.gtb_ltb, Z.ltb_ge; lia. Qed.

(** * Slots and indices *)

Abbreviation at_slot p i := (p !! Z.to_nat i).

Definition time (E : events) (x : Z) : timeval := default (mkTv 0 0) (ev_timeout <$> E !! x).

(** Two event memories that differ at most in the recorded slots. *)
Definition same_but_idx (E E' : events) : Prop :=
  forall x, flip with_idx 0 <$> E !! x = flip with_idx 0 <$> E' !! x.

#[export] Instance same_but_idx_equiv : Equivalence same_but_idx.
Proof. split; unfold same_but_idx; [intros ?? | intros ?? Hs x; by rewrite Hs | intros ??? H1 H2 x; by rewrite H1, H2]; done. Qed.

Lemma get_slot_ok p i x : 0 <= i -> at_slot p i = Some (Some x) -> get_slot p i = Ok x.
Proof. intros Hi Hp. unfold get_slot. rewrite Hp. by zdecide. Qed.

Lemma deref_ok E x o : E !! x = Some o -> deref E x = Ok o.
Proof. unfold deref. by intros ->. Qed.

Lemma time_ok E x o : E !! x = Some o -> time E x = ev_timeout o.
Proof. unfold time. by intros ->. Qed.

Lemma greater_ok E x y : is_Some (E !! x) -> is_Some (E !! y) ->
  min_heap_elem_greater E x y = Ok (evutil_timercmp_gt (time E x) (time E y)).
Proof. intros [a Ha] [b Hb]. unfold min_heap_elem_greater, deref, time. by rewrite Ha, Hb. Qed.

Lemma with_idx_idx o i j : with_idx (with_idx o i) j = with_idx o j.
Proof. done. Qed.

Lemma same_lookup E E' x o : same_but_idx E E' -> E !! x = Some o ->
  exists o', E' !! x = Some o' /\ with_idx o 0 = with_idx o' 0.
Proof.
  intros HE Hx. specialize (HE x). rewrite Hx in HE. destruct (E' !! x) as [o'|]; [|done].
  exists o'. split; [done|]. by apply (inj Some) in HE.
Qed.

Lemma same_lookup_is_Some E E' x : same_but_idx E E' -> is_Some (E !! x) -> is_Some (E' !! x).
Proof. intros HE [o Ho]. destruct (same_lookup _ _ _ _ HE Ho) as (o' & -> & _). eauto. Qed.

Lemma same_time E E' x : same_but_idx E E' -> time E' x = time E x.
Proof.
  intros HE. unfold time. destruct (E !! x) as [o|] eqn:Hx.
  - destruct (same_lookup _ _ _ _ HE Hx) as (o' & -> & Ho). simpl. by injection Ho.
  - specialize (HE x). rewrite Hx in HE. by destruct (E' !! x).
Qed.

Lemma same_insert_idx E x o i : E !! x = Some o -> same_but_idx E (<[x := with_idx o i]> E).
Proof.
  intros Hx y. destruct (decide (y = x)) as [->|Hne].
  - by rewrite lookup_insert_eq, Hx.
  - by rewrite lookup_insert_ne.
Qed.

Lemma place_ok p E i x o : 0 <= i < blen p -> E !! x = Some o ->
  place p E i x = Ok (<[Z.to_nat i := Some x]> p, <[x := with_idx o i]> E).
Proof.
  intros Hi Hx. unfold place, put_slot, set_idx. rewrite (deref_ok E x o Hx).
  by zdecide.
Qed.

Lemma slot_insert_eq (p : list (option Z)) i c : 0 <= i < blen p -> at_slot (<[Z.to_nat i := c]> p) i = Some c.
Proof. unfold blen. intros. apply list_lookup_insert_eq. lia. Qed.

Lemma slot_insert_ne (p : list (option Z)) i j c : 0 <= i -> 0 <= j -> i <> j -> at_slot (<[Z.to_nat i := c]> p) j = at_slot p j.
Proof. intros. apply list_lookup_insert_ne. lia. Qed.

Lemma blen_insert {A} (p : list A) i c : blen (<[i := c]> p) = blen p.
Proof. unfold blen. by rewrite length_insert. Qed.

Definition par (i : Z) : Z := (i - 1) / 2.

Lemma par_bounds i : 0 < i -> 0 <= par i < i.
Proof. unfold par. intros. split; [apply Z.div_pos; lia|apply Z.div_lt_upper_bound; lia]. Qed.

Lemma par_children i h : 0 < i -> par i = h <-> i = 2 * h + 1 \/ i = 2 * h + 2.
Proof.
  intros Hi. unfold par. split.
  - intros <-. pose proof (Z.div_mod (i - 1) 2 ltac:(lia)). pose proof (Z.mod_pos_bound (i - 1) 2 ltac:(lia)). lia.
  - intros [-> | ->].
    + replace (2 * h + 1 - 1) with (h * 2) by lia. by rewrite Z.div_mul.
    + replace (2 * h + 2 - 1) with (1 + h * 2) by lia. rewrite Z.div_add by lia. done.
Qed.

Lemma parent_of_par i : 0 < i < 2 ^ 32 -> parent_of i = par i.
Proof. intros. unfold parent_of, par. by rewrite uwrap32_small by lia. Qed.

(** * The order with one slot to be filled *)

(** The heap of [n] slots with slot [h] open: the other slots hold the events of
    [S], each event records its slot, and the order holds between any two
    filled slots that are parent and child or grandparent and grandchild
    through the open one. *)
Record holed (p : list (option Z)) (E : events) (n h : Z) (S : gset Z) : Prop := {
  ho_bounds : 0 <= h < n /\ n <= blen p /\ n < 2 ^ 31;
  ho_slots : forall i, 0 <= i < n -> i <> h -> exists x o,
    at_slot p i = Some (Some x) /\ E !! x = Some o /\ min_heap_idx o = i /\ x ∈ S;
  ho_all : forall x, x ∈ S -> exists i, 0 <= i < n /\ i <> h /\ at_slot p i = Some (Some x);
  ho_order : forall i x y, 0 < i < n -> i <> h -> par i <> h ->
    at_slot p (par i) = Some (Some x) -> at_slot p i = Some (Some y) -> tle (time E x) (time E y);
  ho_skip : forall i x y, 0 < i < n -> 0 < h -> par i = h ->
    at_slot p (par h) = Some (Some x) -> at_slot p i = Some (Some y) -> tle (time E x) (time E y)
}.

Definition below (p : list (option Z)) (E : events) (n h e : Z) : Prop :=
  forall i y, 0 < i < n -> par i = h -> at_slot p i = Some (Some y) -> tle (time E e) (time E y).

Section Shift.
Context (S : gset Z).
Implicit Types (p : list (option Z)) (E : events).

(** What moving an event of [S] into the open slot leaves. *)
Lemma holed_slot p E n h i : holed p E n h S -> 0 <= i < n -> i <> h ->
  exists x o, at_slot p i = Some (Some x) /\ E !! x = Some o /\ min_heap_idx o = i /\ x ∈ S.
Proof. intros H. apply (ho_slots _ _ _ _ _ H). Qed.

(** Distinct filled slots hold distinct events. *)
Lemma holed_inj p E n h i j x : holed p E n h S -> 0 <= i < n -> i <> h -> 0 <= j < n -> j <> h ->
  at_slot p i = Some (Some x) -> at_slot p j = Some (Some x) -> i = j.
Proof.
  intros H Hi Hih Hj Hjh Hpi Hpj.
  destruct (ho_slots _ _ _ _ _ H i Hi Hih) as (y & o & Hy & Ho & <- & _).
  destruct (ho_slots _ _ _ _ _ H j Hj Hjh) as (z & o' & Hz & Ho' & <- & _). congruence.
Qed.

(** The part of the invariant that does not speak of the order survives moving
    the event of slot [g] into the open slot. *)
Lemma move_slots p E n h g x o : holed p E n h S -> 0 <= g < n -> g <> h ->
  at_slot p g = Some (Some x) -> E !! x = Some o ->
  (forall i, 0 <= i < n -> i <> g -> exists y o',
    at_slot (<[Z.to_nat h := Some x]> p) i = Some (Some y) /\ <[x := with_idx o h]> E !! y = Some o' /\
    min_heap_idx o' = i /\ y ∈ S) /\
  (forall y, y ∈ S -> exists i, 0 <= i < n /\ i <> g /\ at_slot (<[Z.to_nat h := Some x]> p) i = Some (Some y)).
Proof.
  intros H Hg Hgh Hpx Hx. pose proof (ho_bounds _ _ _ _ _ H) as (Hh & Hn & _).
  destruct (ho_slots _ _ _ _ _ H g Hg Hgh) as (x' & o0 & Hx' & Ho0 & _ & HxS). simplify_eq. split.
  - intros i Hi Hig. destruct (decide (i = h)) as [->|Hih].
    + exists x, (with_idx o h). rewrite slot_insert_eq by lia. by rewrite lookup_insert_eq.
    + destruct (ho_slots _ _ _ _ _ H i Hi Hih) as (y & o' & Hy & Ho' & Hi' & HyS).
      assert (x <> y) by (intros ->; by apply Hig, (holed_inj p E n h i g y H)).
      exists y, o'. rewrite slot_insert_ne, lookup_insert_ne by lia. done.
  - intros y Hy. destruct (ho_all _ _ _ _ _ H y Hy) as (i & Hi & Hih & Hpi).
    destruct (decide (i = g)) as [->|Hig].
    + simplify_eq. exists h. rewrite slot_insert_eq by lia. repeat split; try lia.
    + exists i. rewrite slot_insert_ne by lia. done.
Qed.

(** One turn of the upward loop. *)
Lemma up_step p E n h e x o : holed p E n h S -> 0 < h -> below p E n h e ->
  at_slot p (par h) = Some (Some x) -> E !! x = Some o -> tle (time E e) (time E x) ->
  holed (<[Z.to_nat h := Some x]> p) (<[x := with_idx o h]> E) n (par h) S /\
  below (<[Z.to_nat h := Some x]> p) (<[x := with_idx o h]> E) n (par h) e.
Proof.
  intros H Hh0 Hb Hpx Hx Hle. pose proof (ho_bounds _ _ _ _ _ H) as (Hh & Hn & Hn').
  pose proof (par_bounds h Hh0) as Hp.
  pose proof (same_insert_idx E x o h Hx) as HE.
  destruct (move_slots p E n h (par h) x o H ltac:(lia) ltac:(lia) Hpx Hx) as [Hs Ha].
  assert (Hk : forall i y, 0 < i < n -> par i = par h ->
    at_slot (<[Z.to_nat h := Some x]> p) i = Some (Some y) -> tle (time E x) (time E y)).
  { intros i y Hi Hpi Hy. destruct (decide (i = h)) as [->|Hne].
    - rewrite slot_insert_eq in Hy by lia. by simplify_eq.
    - rewrite slot_insert_ne in Hy by lia.
      apply (ho_order _ _ _ _ _ H i x y Hi Hne); [lia|congruence|done]. }
  split.
  - split.
    + rewrite blen_insert. lia.
    + exact Hs.
    + exact Ha.
    + intros i y z Hi Hih Hpi Hy Hz. rewrite !(same_time E _ _ HE).
      pose proof (par_bounds i ltac:(lia)).
      destruct (decide (i = h)) as [->|Hne]; [done|].
      rewrite slot_insert_ne in Hz by lia. destruct (decide (par i = h)) as [Hc|Hc].
      * rewrite Hc, slot_insert_eq in Hy by lia. injection Hy as <-.
        by apply (ho_skip _ _ _ _ _ H i x z Hi Hh0 Hc).
      * rewrite slot_insert_ne in Hy by lia. by apply (ho_order _ _ _ _ _ H i y z).
    + intros i y z Hi Hp0 Hpi Hy Hz. rewrite !(same_time E _ _ HE).
      pose proof (par_bounds (par h) Hp0).
      rewrite slot_insert_ne in Hy by lia.
      transitivity (time E x); [|by apply (Hk i)].
      apply (ho_order _ _ _ _ _ H (par h) y x); try done; lia.
  - intros i y Hi Hpi Hy. rewrite !(same_time E _ _ HE). transitivity (time E x); [done|by apply (Hk i)].
Qed.

(** One turn of the downward loop, for the smaller child [c] of the open slot. *)
Lemma down_step p E n h c x o : holed p E n h S -> 0 < c < n -> par c = h ->
  at_slot p c = Some (Some x) -> E !! x = Some o ->
  (forall i y, 0 < i < n -> par i = h -> at_slot p i = Some (Some y) -> tle (time E x) (time E y)) ->
  holed (<[Z.to_nat h := Some x]> p) (<[x := with_idx o h]> E) n c S.
Proof.
  intros H Hc Hpc Hpx Hx Hmin. pose proof (ho_bounds _ _ _ _ _ H) as (Hh & Hn & Hn').
  pose proof (par_bounds c ltac:(lia)) as Hp.
  pose proof (same_insert_idx E x o h Hx) as HE.
  destruct (move_slots p E n h c x o H ltac:(lia) ltac:(lia) Hpx Hx) as [Hs Ha].
  split; [rewrite blen_insert; lia|exact Hs|exact Ha| |].
  - intros i y z Hi Hih Hpi Hy Hz. rewrite !(same_time E _ _ HE).
    pose proof (par_bounds i ltac:(lia)).
    destruct (decide (i = h)) as [->|Hne].
    + rewrite slot_insert_eq in Hz by lia. injection Hz as <-. rewrite slot_insert_ne in Hy by lia.
      apply (ho_skip _ _ _ _ _ H c y x); (lia || done).
    + rewrite slot_insert_ne in Hz by lia. destruct (decide (par i = h)) as [Hq|Hq].
      * rewrite Hq, slot_insert_eq in Hy by lia. injection Hy as <-. by apply (Hmin i).
      * rewrite slot_insert_ne in Hy by lia. by apply (ho_order _ _ _ _ _ H i y z).
  - intros i y z Hi _ Hpi Hy Hz. rewrite !(same_time E _ _ HE). pose proof (par_bounds i ltac:(lia)).
    rewrite Hpc, slot_insert_eq in Hy by lia. injection Hy as <-. rewrite slot_insert_ne in Hz by lia.
    apply (ho_order _ _ _ _ _ H i x z); try done; try lia. by rewrite Hpi.
Qed.

End Shift.

(** * The heap *)

(** The first [n] slots of [p] hold the events of [S], in heap order. *)
Record ordered (p : list (option Z)) (E : events) (n : Z) (S : gset Z) : Prop := {
  or_bounds : 0 <= n <= blen p /\ n < 2 ^ 31;
  or_slots : forall i, 0 <= i < n -> exists x o,
    at_slot p i = Some (Some x) /\ E !! x = Some o /\ min_heap_idx o = i /\ x ∈ S;
  or_all : forall x, x ∈ S -> exists i, 0 <= i < n /\ at_slot p i = Some (Some x);
  or_order : forall i x y, 0 < i < n ->
    at_slot p (par i) = Some (Some x) -> at_slot p i = Some (Some y) -> tle (time E x) (time E y)
}.

(** Only the recorded slots of the events of [S] changed. *)
Definition touched (S : gset Z) (E E' : events) : Prop :=
  same_but_idx E E' /\ forall y, y ∉ S -> E' !! y = E !! y.

Lemma touched_refl S E : touched S E E.
Proof. by split. Qed.

Lemma touched_trans S E1 E2 E3 : touched S E1 E2 -> touched S E2 E3 -> touched S E1 E3.
Proof. intros [H1 F1] [H2 F2]. split; [by transitivity E2|]. intros y Hy. by rewrite F2, F1. Qed.

Lemma touched_insert (S : gset Z) E x o i : x ∈ S -> E !! x = Some o -> touched S E (<[x := with_idx o i]> E).
Proof.
  intros Hx Ho. split; [by apply same_insert_idx|]. intros y Hy. rewrite lookup_insert_ne; [done|].
  by intros ->.
Qed.

Lemma touched_mono (S S' : gset Z) E E' : S ⊆ S' -> touched S E E' -> touched S' E E'.
Proof. intros HS [H F]. split; [done|]. intros y Hy. apply F. set_solver. Qed.

Section Loops.
Implicit Types (p : list (option Z)) (E : events) (S : gset Z).

(** Filling the open slot with an event that is above its children and below
    its parent restores the heap. *)
Lemma fill p E n h e o S : holed p E n h S -> below p E n h e -> e ∉ S -> E !! e = Some o ->
  (forall x, 0 < h -> at_slot p (par h) = Some (Some x) -> tle (time E x) (time E e)) ->
  ordered (<[Z.to_nat h := Some e]> p) (<[e := with_idx o h]> E) n ({[e]} ∪ S).
Proof.
  intros H Hb HeS He Hup. pose proof (ho_bounds _ _ _ _ _ H) as (Hh & Hn & Hn').
  pose proof (same_insert_idx E e o h He) as HE. split.
  - rewrite blen_insert. lia.
  - intros i Hi. destruct (decide (i = h)) as [->|Hne].
    + exists e, (with_idx o h). rewrite slot_insert_eq, lookup_insert_eq by lia. set_solver.
    + destruct (ho_slots _ _ _ _ _ H i Hi Hne) as (x & o' & Hx & Ho' & Hi' & HxS).
      exists x, o'. rewrite slot_insert_ne, lookup_insert_ne by (lia || congruence). set_solver.
  - intros x [->%elem_of_singleton | HxS]%elem_of_union.
    + exists h. rewrite slot_insert_eq by lia. done.
    + destruct (ho_all _ _ _ _ _ H x HxS) as (i & Hi & Hih & Hpi).
      exists i. rewrite slot_insert_ne by lia. done.
  - intros i x y Hi Hx Hy. rewrite !(same_time E _ _ HE). pose proof (par_bounds i ltac:(lia)).
    destruct (decide (i = h)) as [->|Hne].
    + rewrite slot_insert_eq in Hy by lia. injection Hy as <-. rewrite slot_insert_ne in Hx by lia.
      apply Hup; [lia|done].
    + rewrite slot_insert_ne in Hy by lia. destruct (decide (par i = h)) as [Hq|Hq].
      * rewrite Hq, slot_insert_eq in Hx by lia. injection Hx as <-. by apply (Hb i).
      * rewrite slot_insert_ne in Hx by lia. by apply (ho_order _ _ _ _ _ H i x y).
Qed.

Lemma shift_up_loop_S k p E h e : shift_up_loop (Datatypes.S k) p E h e =
  if h =? 0 then place p E h e
  else
    x ← get_slot p (parent_of h);
    up ← min_heap_elem_greater E x e;
    if up : bool then '(p, E) ← place p E h x; shift_up_loop k p E (parent_of h) e
    else place p E h e.
Proof. done. Qed.

Lemma shift_up_loop_ok e o S n : e ∉ S -> forall k p E h,
  holed p E n h S -> below p E n h e -> E !! e = Some o -> h < 2 ^ Z.of_nat k ->
  exists p' E', shift_up_loop (Datatypes.S k) p E h e = Ok (p', E') /\
    ordered p' E' n ({[e]} ∪ S) /\ touched ({[e]} ∪ S) E E' /\ blen p' = blen p.
Proof.
  intros HeS. induction k as [|k IH]; intros p E h H Hb He Hk;
    pose proof (ho_bounds _ _ _ _ _ H) as (Hh & Hn & Hn').
  all: assert (Hdone : (forall x, 0 < h -> at_slot p (par h) = Some (Some x) -> tle (time E x) (time E e)) ->
    exists p' E', place p E h e = Ok (p', E') /\
      ordered p' E' n ({[e]} ∪ S) /\ touched ({[e]} ∪ S) E E' /\ blen p' = blen p)
    by (intros Hup; rewrite (place_ok p E h e o) by (lia || done); eexists _, _; split; [done|];
        split; [by apply fill|split; [apply touched_insert; set_solver|apply blen_insert]]).
  - rewrite shift_up_loop_S. replace h with 0 in * by lia. cbn. apply Hdone. lia.
  - rewrite shift_up_loop_S. destruct (Z.eqb_spec h 0) as [->|Hh0]; [apply Hdone; lia|].
    pose proof (par_bounds h ltac:(lia)) as Hp. rewrite parent_of_par by lia.
    destruct (ho_slots _ _ _ _ _ H (par h)) as (x & ox & Hx & Hox & _ & HxS); [lia..|].
    rewrite (get_slot_ok p (par h) x) by (lia || done). rewrite bind_Ok.
    rewrite greater_ok by eauto. rewrite bind_Ok.
    pose proof (timercmp_gt_spec (time E x) (time E e)) as Hgt.
    case_match; [|apply Hdone; intros y _ Hy; congruence].
    rewrite (place_ok p E h x ox) by (lia || done). rewrite bind_Ok. cbv beta iota.
    destruct (up_step S p E n h e x ox H ltac:(lia) Hb Hx Hox Hgt) as [H' Hb'].
    edestruct IH as (p' & E' & -> & Hord & Ht & Hl); [exact H'|exact Hb'| | |].
    + rewrite lookup_insert_ne; [done|]. by intros ->.
    + rewrite Nat2Z.inj_succ, Z.pow_succ_r in Hk by lia. unfold par. apply Z.div_lt_upper_bound; lia.
    + exists p', E'. split; [done|]. split; [done|]. rewrite Hl, blen_insert. split; [|done].
      eapply touched_trans; [|exact Ht]. apply touched_insert; set_solver.
Qed.

Lemma child_of_small h : 0 <= h < 2 ^ 31 - 1 -> child_of h = 2 * h + 2.
Proof. intros. unfold child_of. rewrite (uwrap32_small (h + 1)), uwrap32_small by lia. lia. Qed.

Lemma min_child_ok p E n h S : holed p E n h S -> child_of h <= n ->
  exists c x o, min_child p E n h = Ok c /\ 0 < c < n /\ par c = h /\ at_slot p c = Some (Some x) /\
    E !! x = Some o /\ x ∈ S /\
    forall i y, 0 < i < n -> par i = h -> at_slot p i = Some (Some y) -> tle (time E x) (time E y).
Proof.
  intros H Hc. pose proof (ho_bounds _ _ _ _ _ H) as (Hh & Hn & Hn').
  unfold min_child. rewrite child_of_small in * by lia. rewrite uwrap32_small by lia.
  replace (2 * h + 2 - 1) with (2 * h + 1) by lia.
  destruct (ho_slots _ _ _ _ _ H (2 * h + 1)) as (x & o & Hx & Ho & _ & HxS); [lia..|].
  assert (Hpar : par (2 * h + 1) = h) by (apply par_children; lia).
  destruct (Z.eqb_spec (2 * h + 2) n) as [Heq|Hne].
  - exists (2 * h + 1), x, o. repeat (split; [done || lia|]). intros i y Hi Hpi Hy.
    apply par_children in Hpi; [|lia]. assert (i = 2 * h + 1) as -> by lia. by simplify_eq.
  - destruct (ho_slots _ _ _ _ _ H (2 * h + 2)) as (z & oz & Hz & Hoz & _ & HzS); [lia..|].
    rewrite (get_slot_ok p (2 * h + 2) z), (get_slot_ok p (2 * h + 1) x), !bind_Ok by (lia || done).
    rewrite greater_ok, bind_Ok by eauto.
    pose proof (timercmp_gt_spec (time E z) (time E x)) as Hgt.
    assert (Hmin : forall i y, 0 < i < n -> par i = h -> at_slot p i = Some (Some y) ->
      y = x \/ y = z).
    { intros i y Hi Hpi Hy. apply par_children in Hpi as [-> | ->]; [| |lia]; simplify_eq; auto. }
    case_match.
    + exists (2 * h + 1), x, o. repeat (split; [done || lia|]).
      intros i y Hi Hpi Hy. by destruct (Hmin i y Hi Hpi Hy) as [-> | ->].
    + exists (2 * h + 2), z, oz. repeat (split; [done || lia || (apply par_children; lia)|]).
      intros i y Hi Hpi Hy. by destruct (Hmin i y Hi Hpi Hy) as [-> | ->].
Qed.

Lemma shift_down_loop_S k p E n h e : shift_down_loop (Datatypes.S k) p E n h e =
  if child_of h <=? n then
    c ← min_child p E n h;
    x ← get_slot p c;
    down ← min_heap_elem_greater E e x;
    if negb (down : bool) then Ok (p, E, h)
    else '(p, E) ← place p E h x; shift_down_loop k p E n c e
  else Ok (p, E, h).
Proof. done. Qed.

Lemma shift_down_loop_ok e o S n : e ∉ S -> forall k p E h,
  holed p E n h S -> E !! e = Some o -> n < (h + 1) * 2 ^ Z.of_nat k ->
  exists p' E' h', shift_down_loop k p E n h e = Ok (p', E', h') /\
    holed p' E' n h' S /\ below p' E' n h' e /\ touched S E E' /\ blen p' = blen p.
Proof.
  intros HeS. induction k as [|k IH]; intros p E h H He Hk;
    pose proof (ho_bounds _ _ _ _ _ H) as (Hh & Hn & Hn'); [lia|].
  rewrite shift_down_loop_S. destruct (Z.leb_spec (child_of h) n) as [Hc|Hc].
  - destruct (min_child_ok p E n h S H Hc) as (c & x & ox & -> & Hcn & Hpc & Hx & Hox & HxS & Hmin).
    rewrite bind_Ok, (get_slot_ok p c x), bind_Ok by (lia || done).
    rewrite greater_ok, bind_Ok by eauto.
    pose proof (timercmp_gt_spec (time E e) (time E x)) as Hgt. case_match; cbn [negb]; cbv iota.
    + rewrite (place_ok p E h x ox), bind_Ok by (lia || done). cbv beta iota.
      pose proof (down_step S p E n h c x ox H Hcn Hpc Hx Hox Hmin) as H'.
      edestruct IH as (p' & E' & h' & -> & Hh' & Hb & Ht & Hl); [exact H'| | |].
      * rewrite lookup_insert_ne; [done|]. by intros ->.
      * rewrite Nat2Z.inj_succ, Z.pow_succ_r in Hk by lia.
        apply par_children in Hpc; [|lia]. nia.
      * exists p', E', h'. rewrite Hl, blen_insert. repeat (split; [done|]). split; [|done].
        eapply touched_trans; [|exact Ht]. by apply touched_insert.
    + exists p, E, h. split; [done|]. split; [done|]. split; [|by split; [apply touched_refl|]].
      intros i y Hi Hpi Hy. transitivity (time E x); [done|by apply (Hmin i)].
  - exists p, E, h. split; [done|]. split; [done|]. split; [|by split; [apply touched_refl|]].
    intros i y Hi Hpi Hy. rewrite child_of_small in Hc by lia. apply par_children in Hpi; lia.
Qed.

Lemma min_heap_shift_up_ok s E h e o S : e ∉ S -> holed (hp s) E (hn s) h S ->
  below (hp s) E (hn s) h e -> E !! e = Some o ->
  exists p' E', min_heap_shift_up_ s E h e = Ok (mkHeap p' (hn s) (ha s), E') /\
    ordered p' E' (hn s) ({[e]} ∪ S) /\ touched ({[e]} ∪ S) E E' /\ blen p' = blen (hp s).
Proof.
  intros HeS H Hb He. pose proof (ho_bounds _ _ _ _ _ H) as (Hh & Hn & Hn').
  destruct (shift_up_loop_ok e o S (hn s) HeS 32 (hp s) E h H Hb He) as (p' & E' & Hl & Ho); [lia|].
  unfold min_heap_shift_up_, shift_fuel. rewrite Hl. by exists p', E'.
Qed.

Lemma min_heap_shift_down_ok s E h e o S : e ∉ S -> holed (hp s) E (hn s) h S -> E !! e = Some o ->
  exists p' E', min_heap_shift_down_ s E h e = Ok (mkHeap p' (hn s) (ha s), E') /\
    ordered p' E' (hn s) ({[e]} ∪ S) /\ touched ({[e]} ∪ S) E E' /\ blen p' = blen (hp s).
Proof.
  intros HeS H He. pose proof (ho_bounds _ _ _ _ _ H) as (Hh & Hn & Hn').
  destruct (shift_down_loop_ok e o S (hn s) HeS shift_fuel (hp s) E h H He)
    as (p1 & E1 & h1 & Hl & H1 & Hb1 & [Hs1 Hf1] & Hp1); [unfold shift_fuel; nia|].
  unfold min_heap_shift_down_. rewrite Hl, bind_Ok. cbv beta iota.
  destruct (min_heap_shift_up_ok (mkHeap p1 (hn s) (ha s)) E1 h1 e o S HeS H1 Hb1)
    as (p' & E' & -> & Hord & Ht & Hp); [by rewrite Hf1|].
  exists p', E'. split; [done|]. split; [done|]. split; [|cbn in Hp; congruence].
  eapply touched_trans; [|exact Ht]. apply (touched_mono S); [set_solver|done].
Qed.

End Loops.

(** The invariant of a timeout heap over the events of the program: it holds the
    events of [S], and the events outside it record no slot. *)
Record heap_ok (s : min_heap) (E : events) (S : gset Z) : Prop := {
  hk_ordered : ordered (hp s) E (hn s) S;
  hk_block : blen (hp s) = ha s /\ ha s < 2 ^ 32;
  hk_out : forall x o, E !! x = Some o -> x ∉ S -> min_heap_idx o = NO_IDX
}.

Section Operations.
Implicit Types (p : list (option Z)) (E : events) (S : gset Z) (s : min_heap).

Lemma ordered_inj p E n S i j x : ordered p E n S -> 0 <= i < n -> 0 <= j < n ->
  at_slot p i = Some (Some x) -> at_slot p j = Some (Some x) -> i = j.
Proof.
  intros H Hi Hj Hpi Hpj.
  destruct (or_slots _ _ _ _ H i Hi) as (y & o & Hy & Ho & <- & _).
  destruct (or_slots _ _ _ _ H j Hj) as (z & o' & Hz & Ho' & <- & _). congruence.
Qed.

Lemma ordered_idx p E n S x : ordered p E n S -> x ∈ S ->
  exists o, E !! x = Some o /\ 0 <= min_heap_idx o < n /\ at_slot p (min_heap_idx o) = Some (Some x).
Proof.
  intros H Hx. destruct (or_all _ _ _ _ H x Hx) as (i & Hi & Hpi).
  destruct (or_slots _ _ _ _ H i Hi) as (y & o & Hy & Ho & Hio & _). simplify_eq. eauto.
Qed.

Lemma ordered_frame p E E' n S : ordered p E n S -> (forall x, x ∈ S -> E' !! x = E !! x) -> ordered p E' n S.
Proof.
  intros H HE. split; [apply H| |apply H|].
  - intros i Hi. destruct (or_slots _ _ _ _ H i Hi) as (x & o & Hx & Ho & Hio & HxS).
    exists x, o. by rewrite HE.
  - intros i x y Hi Hx Hy. pose proof (par_bounds i ltac:(lia)).
    destruct (or_slots _ _ _ _ H i) as (? & ? & ? & _ & _ & HyS); [lia|].
    destruct (or_slots _ _ _ _ H (par i)) as (? & ? & ? & _ & _ & HxS); [lia|]. simplify_eq.
    unfold time. rewrite !HE by done. by apply (or_order _ _ _ _ H i x y).
Qed.

(** The event of the first slot is due first. *)
Lemma root_first p E n S x : ordered p E n S -> at_slot p 0 = Some (Some x) ->
  forall i y, 0 <= i < n -> at_slot p i = Some (Some y) -> tle (time E x) (time E y).
Proof.
  intros H Hx i. induction (Z.lt_wf 0 i) as [i _ IH]. intros y Hi Hy.
  destruct (decide (i = 0)) as [->|Hne]; [by simplify_eq|].
  pose proof (par_bounds i ltac:(lia)).
  destruct (or_slots _ _ _ _ H (par i)) as (z & oz & Hz & _); [lia|].
  transitivity (time E z); [apply (IH (par i)); (lia || done)|]. by apply (or_order _ _ _ _ H i z y); [lia| |].
Qed.

(** Taking the last event away, and opening another slot with it. *)
Lemma ordered_shrink p E n S x : ordered p E (n + 1) S -> 0 <= n -> at_slot p n = Some (Some x) ->
  ordered p E n (S ∖ {[x]}).
Proof.
  intros H Hn Hx. pose proof (or_bounds _ _ _ _ H) as Hb. split; [lia| | |].
  - intros i Hi. destruct (or_slots _ _ _ _ H i) as (y & o & Hy & Ho & Hio & HyS); [lia|].
    exists y, o. repeat (split; [done|]). apply elem_of_difference. split; [done|].
    intros ->%elem_of_singleton. pose proof (ordered_inj p E (n + 1) S i n x H ltac:(lia) ltac:(lia) Hy Hx). lia.
  - intros y [HyS Hne]%elem_of_difference. destruct (or_all _ _ _ _ H y HyS) as (i & Hi & Hpi).
    exists i. split; [|done]. assert (i <> n) by (intros ->; simplify_eq; set_solver). lia.
  - intros i y z Hi. apply (or_order _ _ _ _ H i y z). lia.
Qed.

Lemma open_slot p E n h S x last : ordered p E (n + 1) S -> 0 <= h < n ->
  at_slot p h = Some (Some x) -> at_slot p n = Some (Some last) ->
  holed p E n h (S ∖ {[x; last]}).
Proof.
  intros H Hh Hx Hlast. pose proof (or_bounds _ _ _ _ H) as Hb. split; [lia| | | |].
  - intros i Hi Hih. destruct (or_slots _ _ _ _ H i) as (y & o & Hy & Ho & Hio & HyS); [lia|].
    exists y, o. repeat (split; [done|]). apply elem_of_difference. split; [done|].
    pose proof (ordered_inj p E (n + 1) S i h y H ltac:(lia) ltac:(lia) Hy).
    pose proof (ordered_inj p E (n + 1) S i n y H ltac:(lia) ltac:(lia) Hy).
    intros [->%elem_of_singleton | ->%elem_of_singleton]%elem_of_union; [naive_solver|].
    specialize (H1 Hlast). lia.
  - intros y [HyS Hne]%elem_of_difference. destruct (or_all _ _ _ _ H y HyS) as (i & Hi & Hpi).
    exists i. assert (i <> n) by (intros ->; simplify_eq; set_solver).
    assert (i <> h) by (intros ->; simplify_eq; set_solver). repeat split; (lia || done).
  - intros i y z Hi _ _. apply (or_order _ _ _ _ H i y z). lia.
  - intros i y z Hi Hh0 Hpi Hy Hz. transitivity (time E x).
    + apply (or_order _ _ _ _ H h y x); [lia|done..].
    + apply (or_order _ _ _ _ H i x z); [lia| |done]. by rewrite Hpi.
Qed.

Lemma heap_ok_ctor E : (forall x o, E !! x = Some o -> min_heap_idx o = NO_IDX) -> heap_ok min_heap_ctor E ∅.
Proof. intros HE. split; [split; cbn; (lia || set_solver)|done|eauto]. Qed.

Lemma min_heap_top_ok s E S : heap_ok s E S ->
  (min_heap_top s = Ok None /\ S = ∅ /\ hn s = 0) \/
  (exists x o, min_heap_top s = Ok (Some x) /\ 0 < hn s /\ x ∈ S /\ E !! x = Some o /\
    at_slot (hp s) 0 = Some (Some x) /\ forall y, y ∈ S -> tle (time E x) (time E y)).
Proof.
  intros [H _ _]. pose proof (or_bounds _ _ _ _ H) as Hb. unfold min_heap_top.
  destruct (Z.eqb_spec (hn s) 0) as [H0|H0].
  - left. split; [done|]. split; [|done]. apply set_eq. intros x. split; [|set_solver].
    intros Hx. destruct (or_all _ _ _ _ H x Hx) as (i & Hi & _). lia.
  - right. destruct (or_slots _ _ _ _ H 0) as (x & o & Hx & Ho & _ & HxS); [lia|].
    exists x, o. rewrite (get_slot_ok _ 0 x) by (lia || done). split; [done|]. split; [lia|].
    repeat (split; [done|]). intros y HyS. destruct (or_all _ _ _ _ H y HyS) as (i & Hi & Hpi).
    by apply (root_first _ _ _ _ x H Hx i).
Qed.

Lemma min_heap_reserve_ok alloc s E S n : heap_ok s E S -> 0 <= n < 2 ^ 31 ->
  (min_heap_reserve alloc s n = (s, -1) /\ exists l, alloc l = false) \/
  (exists s', min_heap_reserve alloc s n = (s', 0) /\ heap_ok s' E S /\ hn s' = hn s /\ n <= ha s').
Proof.
  intros [H [Hl Ha] Ho] Hn. unfold min_heap_reserve. pose proof (or_bounds _ _ _ _ H) as Hb.
  destruct (Z.ltb_spec (ha s) n); [|right; exists s; by split; [|split; [split|split]]].
  set (a := if (if ha s =? 0 then 8 else uwrap32 (ha s * 2)) <? n then n
            else if ha s =? 0 then 8 else uwrap32 (ha s * 2)).
  assert (ha s <= a < 2 ^ 32 /\ n <= a) as Hab.
  { subst a. rewrite uwrap32_small by lia.
    destruct (Z.eqb_spec (ha s) 0); destruct (Z.ltb_spec n 8), (Z.ltb_spec (ha s * 2) n);
      repeat case_match; bool_props; lia. }
  destruct (alloc (a * 8)) eqn:Hal; [right|left; eauto].
  eexists. split; [done|]. cbn. split; [|lia].
  rewrite take_ge by (unfold blen in Hl; lia).
  assert (Hat : forall i, 0 <= i < hn s ->
    at_slot (hp s ++ replicate (Z.to_nat a - length (hp s)) None) i = at_slot (hp s) i).
  { intros i Hi. apply lookup_app_l. unfold blen in *. lia. }
  split; cbn; [split| |done].
  - rewrite blen_app. pose proof (blen_nonneg (replicate (Z.to_nat a - length (hp s)) (@None Z))). lia.
  - intros i Hi. rewrite Hat by done. by apply (or_slots _ _ _ _ H).
  - intros x Hx. destruct (or_all _ _ _ _ H x Hx) as (i & Hi & Hpi). exists i. by rewrite Hat.
  - intros i x y Hi. pose proof (par_bounds i ltac:(lia)). rewrite !Hat by lia. by apply (or_order _ _ _ _ H).
  - unfold blen in *. rewrite length_app, length_replicate. lia.
Qed.

(** Opening a slot behind the last one. *)
Lemma extend_slot p E n S : ordered p E n S -> n + 1 <= blen p -> n + 1 < 2 ^ 31 ->
  holed p E (n + 1) n S /\ forall e, below p E (n + 1) n e.
Proof.
  intros H Hn Hn'. pose proof (or_bounds _ _ _ _ H) as Hb.
  split; [split; [lia| | | |]|].
  - intros i Hi Hne. apply (or_slots _ _ _ _ H). lia.
  - intros x Hx. destruct (or_all _ _ _ _ H x Hx) as (i & Hi & Hpi). exists i. split; [lia|]. split; [lia|done].
  - intros i x y Hi Hne _. apply (or_order _ _ _ _ H). lia.
  - intros i x y Hi Hn0 Hpi. pose proof (par_bounds i ltac:(lia)). lia.
  - intros e i y Hi Hpi. pose proof (par_bounds i ltac:(lia)). lia.
Qed.

Lemma touched_heap_ok s E E' p n a S S' : heap_ok s E S -> ordered p E' n S' -> touched S' E E' ->
  S ⊆ S' -> blen p = a -> a < 2 ^ 32 -> heap_ok (mkHeap p n a) E' S'.
Proof.
  intros H Hord [_ Hf] HS Hl Ha. split; [done|done|]. intros x o Hx Hn. rewrite Hf in Hx by done.
  apply (hk_out _ _ _ H x o Hx). set_solver.
Qed.

(** A push into a heap with a spare slot. *)
Lemma min_heap_push_spare alloc s E S e o : heap_ok s E S -> E !! e = Some o -> e ∉ S ->
  hn s + 1 <= ha s -> hn s + 1 < 2 ^ 31 ->
  exists s' E', min_heap_push alloc s E e = Ok (s', E', 0) /\ heap_ok s' E' ({[e]} ∪ S) /\
    touched ({[e]} ∪ S) E E' /\ hn s' = hn s + 1 /\ ha s' = ha s.
Proof.
  intros H He HeS Ha Hn. pose proof (hk_ordered _ _ _ H) as Hord. pose proof (hk_block _ _ _ H) as [Hl Hm].
  pose proof (or_bounds _ _ _ _ Hord) as Hb.
  unfold min_heap_push, min_heap_reserve. rewrite uwrap32_small by lia.
  replace (ha s <? hn s + 1) with false by (symmetry; apply Z.ltb_ge; lia).
  cbn [negb Z.eqb]. cbv beta iota. rewrite uwrap32_small by lia.
  destruct (extend_slot _ _ _ _ Hord ltac:(lia) Hn) as [Hh Hbel].
  destruct (min_heap_shift_up_ok (mkHeap (hp s) (hn s + 1) (ha s)) E (hn s) e o S HeS Hh (Hbel e) He)
    as (p' & E' & -> & Hord' & Ht & Hl'). cbn in *.
  eexists _, E'. split; [done|]. split; [|done].
  apply (touched_heap_ok s E E' p' _ _ S _ H); (done || congruence || set_solver).
Qed.

Lemma min_heap_push_ok alloc s E S e o : heap_ok s E S -> E !! e = Some o -> e ∉ S -> hn s + 1 < 2 ^ 31 ->
  (min_heap_push alloc s E e = Ok (s, E, -1) /\ exists l, alloc l = false) \/
  (exists s' E', min_heap_push alloc s E e = Ok (s', E', 0) /\ heap_ok s' E' ({[e]} ∪ S) /\
    touched ({[e]} ∪ S) E E' /\ hn s' = hn s + 1).
Proof.
  intros H He HeS Hn. pose proof (or_bounds _ _ _ _ (hk_ordered _ _ _ H)) as Hb.
  unfold min_heap_push. rewrite uwrap32_small by lia.
  destruct (min_heap_reserve_ok alloc s E S (hn s + 1) H ltac:(lia)) as [[-> Hf]|(s1 & -> & H1 & Hn1 & Ha1)].
  - by left.
  - right. destruct (min_heap_push_spare alloc s1 E S e o H1 He HeS ltac:(lia) ltac:(lia))
      as (s' & E' & Hp & Hok & Ht & Hs' & _).
    unfold min_heap_push, min_heap_reserve in Hp. rewrite uwrap32_small in Hp by lia.
    replace (ha s1 <? hn s1 + 1) with false in Hp by (symmetry; apply Z.ltb_ge; lia).
    exists s', E'. split; [exact Hp|]. by rewrite <- Hn1.
Qed.

(** Clearing the recorded slot of the event that left. *)
Lemma leave s E E' p n S e : heap_ok s E S -> e ∈ S -> ordered p E' n (S ∖ {[e]}) -> touched S E E' ->
  blen p = ha s ->
  exists E2, set_idx E' e NO_IDX = Ok E2 /\ heap_ok (mkHeap p n (ha s)) E2 (S ∖ {[e]}) /\ touched S E E2.
Proof.
  intros H He Hord Ht Hl. destruct (ordered_idx _ _ _ _ e (hk_ordered _ _ _ H) He) as (o & Ho & _).
  destruct (same_lookup _ _ _ _ (proj1 Ht) Ho) as (o' & Ho' & _).
  unfold set_idx. rewrite (deref_ok _ _ _ Ho'), bind_Ok. eexists. split; [done|]. split.
  - split; cbn.
    + apply (ordered_frame p E'); [done|]. intros x Hx. rewrite lookup_insert_ne; [done|]. set_solver.
    + split; [done|apply (hk_block _ _ _ H)].
    + intros x ox. destruct (decide (x = e)) as [->|Hne].
      * rewrite lookup_insert_eq. by intros [= <-] _.
      * rewrite lookup_insert_ne by done. intros Hx Hn.
        assert (x ∉ S) by set_solver. rewrite (proj2 Ht) in Hx by done. by apply (hk_out _ _ _ H x).
  - eapply touched_trans; [exact Ht|]. by apply touched_insert.
Qed.

(** The last event of the heap, moved down from the slot behind the others. *)
Lemma shift_down_last s E e o : 0 <= hn s < blen (hp s) -> hn s < 2 ^ 31 - 1 -> E !! e = Some o ->
  (0 < hn s -> exists x, at_slot (hp s) (par (hn s)) = Some (Some x) /\ is_Some (E !! x) /\
    tle (time E x) (time E e)) ->
  min_heap_shift_down_ s E (hn s) e
  = Ok (mkHeap (<[Z.to_nat (hn s) := Some e]> (hp s)) (hn s) (ha s), <[e := with_idx o (hn s)]> E).
Proof.
  intros Hn Hm He Hup. unfold min_heap_shift_down_, shift_fuel.
  rewrite shift_down_loop_S, child_of_small by lia. zdecide. rewrite bind_Ok. cbv beta iota.
  unfold min_heap_shift_up_, shift_fuel. rewrite shift_up_loop_S. cbn [hp hn ha].
  destruct (Z.eqb_spec (hn s) 0) as [H0|H0].
  - by rewrite (place_ok _ _ _ _ o) by (lia || done).
  - destruct Hup as (x & Hx & HEx & Hle); [lia|]. pose proof (par_bounds (hn s) ltac:(lia)).
    rewrite parent_of_par, (get_slot_ok _ _ x), bind_Ok by (lia || done).
    rewrite greater_ok, bind_Ok, timercmp_gt_false by eauto.
    by rewrite (place_ok _ _ _ _ o) by (lia || done).
Qed.

Lemma union_last S e last : last ∈ S -> last <> e -> {[last]} ∪ S ∖ {[e; last]} = S ∖ {[e]}.
Proof.
  intros Hl Hne. apply set_eq. intros x. destruct (decide (x = last)) as [->|]; set_solver.
Qed.

(** Replacing the event of slot [h] by the last one. *)
Lemma replace_down s E S e h last : heap_ok s E S -> 0 < hn s -> 0 <= h < hn s ->
  at_slot (hp s) h = Some (Some e) -> at_slot (hp s) (hn s - 1) = Some (Some last) ->
  exists p' E', min_heap_shift_down_ (mkHeap (hp s) (hn s - 1) (ha s)) E h last
    = Ok (mkHeap p' (hn s - 1) (ha s), E') /\
    ordered p' E' (hn s - 1) (S ∖ {[e]}) /\ touched S E E' /\ blen p' = ha s.
Proof.
  intros [H [Hl Ha] Hout] Hn Hh He Hlast. pose proof (or_bounds _ _ _ _ H) as Hb.
  assert (ordered (hp s) E (hn s - 1 + 1) S) as H1 by (by replace (hn s - 1 + 1) with (hn s) by lia).
  destruct (or_slots _ _ _ _ H (hn s - 1)) as (l' & ol & Hl' & Hol & Hil & HlS); [lia|]. simplify_eq.
  destruct (decide (h = hn s - 1)) as [->|Hne].
  - simplify_eq. eexists _, _. split.
    + apply (shift_down_last (mkHeap (hp s) (hn s - 1) (ha s)) E e ol); cbn; try (lia || done).
      intros Hpos. pose proof (par_bounds (hn s - 1) ltac:(lia)).
      destruct (or_slots _ _ _ _ H (par (hn s - 1))) as (x & ox & Hx & Hox & _); [lia|].
      exists x. split; [done|]. split; [eauto|]. by apply (or_order _ _ _ _ H (hn s - 1)); [lia| |].
    + cbn. rewrite list_insert_id by done. split; [|split; [by apply touched_insert|done]].
      apply (ordered_frame _ E); [by apply ordered_shrink; [|lia|]|].
      intros x Hx. rewrite lookup_insert_ne; [done|set_solver].
  - pose proof (open_slot _ _ _ h S e last H1 ltac:(lia) He Hlast) as Hho.
    assert (last <> e) as Hdiff.
    { intros ->. apply Hne, (ordered_inj _ _ _ _ h (hn s - 1) e H); (lia || done). }
    destruct (min_heap_shift_down_ok (mkHeap (hp s) (hn s - 1) (ha s)) E h last ol (S ∖ {[e; last]})
                ltac:(set_solver) Hho Hol)
      as (p' & E' & -> & Ho & Ht & Hp). cbn in *. rewrite union_last in * by done.
    exists p', E'. repeat (split; [done|]). split; [|congruence].
    apply (touched_mono (S ∖ {[e]})); [set_solver|done].
Qed.

Lemma replace_up s E S e h last x : heap_ok s E S -> 0 < h < hn s ->
  at_slot (hp s) h = Some (Some e) -> at_slot (hp s) (hn s - 1) = Some (Some last) ->
  at_slot (hp s) (par h) = Some (Some x) -> evutil_timercmp_gt (time E x) (time E last) = true ->
  exists p' E', min_heap_shift_up_ (mkHeap (hp s) (hn s - 1) (ha s)) E h last
    = Ok (mkHeap p' (hn s - 1) (ha s), E') /\
    ordered p' E' (hn s - 1) (S ∖ {[e]}) /\ touched S E E' /\ blen p' = ha s.
Proof.
  intros [H [Hl Ha] Hout] Hh He Hlast Hx Hgt. pose proof (or_bounds _ _ _ _ H) as Hb.
  assert (ordered (hp s) E (hn s - 1 + 1) S) as H1 by (by replace (hn s - 1 + 1) with (hn s) by lia).
  destruct (or_slots _ _ _ _ H (hn s - 1)) as (l' & ol & Hl' & Hol & Hil & HlS); [lia|]. simplify_eq.
  pose proof (or_order _ _ _ _ H h x e ltac:(lia) Hx He) as Hxe.
  assert (h <> hn s - 1) as Hne.
  { intros ->. simplify_eq. by rewrite timercmp_gt_false in Hgt. }
  assert (last <> e) as Hdiff.
  { intros ->. apply Hne, (ordered_inj _ _ _ _ h (hn s - 1) e H); (lia || done). }
  pose proof (timercmp_gt_spec (time E x) (time E last)) as Hlx. rewrite Hgt in Hlx.
  destruct (min_heap_shift_up_ok (mkHeap (hp s) (hn s - 1) (ha s)) E h last ol (S ∖ {[e; last]})
              ltac:(set_solver)) as (p' & E' & -> & Ho & Ht & Hp); [| |done|].
  - cbn. apply open_slot; (lia || done).
  - intros i y Hi Hpi Hy. cbn in *. transitivity (time E x); [done|]. transitivity (time E e); [done|].
    apply (or_order _ _ _ _ H i e y); [lia| |done]. by rewrite Hpi.
  - cbn in *. rewrite union_last in * by done.
    exists p', E'. repeat (split; [done|]). split; [|congruence].
    apply (touched_mono (S ∖ {[e]})); [set_solver|done].
Qed.

Lemma min_heap_pop_ok s E S : heap_ok s E S ->
  (min_heap_pop s E = Ok (s, E, None) /\ S = ∅) \/
  (exists e s' E', min_heap_pop s E = Ok (s', E', Some e) /\ e ∈ S /\
    (forall y, y ∈ S -> tle (time E e) (time E y)) /\
    heap_ok s' E' (S ∖ {[e]}) /\ touched S E E' /\ hn s' = hn s - 1).
Proof.
  intros H. destruct (min_heap_top_ok s E S H) as [(_ & HS & Hn)|(e & o & _ & Hn & HeS & He & Hp & Hmin)].
  - left. unfold min_heap_pop. by rewrite Hn.
  - right. unfold min_heap_pop. replace (hn s =? 0) with false by (symmetry; apply Z.eqb_neq; lia).
    rewrite (get_slot_ok _ 0 e), bind_Ok by (lia || done). cbn [hp hn ha].
    destruct (or_slots _ _ _ _ (hk_ordered _ _ _ H) (hn s - 1)) as (last & ol & Hlast & _); [lia|].
    rewrite (get_slot_ok _ (hn s - 1) last), bind_Ok by (lia || done).
    destruct (replace_down s E S e 0 last H Hn ltac:(lia) Hp Hlast) as (p' & E' & -> & Ho & Ht & Hl).
    rewrite bind_Ok. cbv beta iota.
    destruct (leave s E E' p' _ S e H HeS Ho Ht Hl) as (E2 & -> & Hok & Ht2).
    rewrite bind_Ok. by eexists e, _, E2.
Qed.

Lemma min_heap_erase_out s E S e o : heap_ok s E S -> E !! e = Some o -> e ∉ S ->
  min_heap_erase s E e = Ok (s, E, -1).
Proof.
  intros H He HeS. unfold min_heap_erase. rewrite (deref_ok _ _ _ He), bind_Ok.
  by rewrite (hk_out _ _ _ H e o He HeS), Z.eqb_refl.
Qed.

Lemma min_heap_erase_ok s E S e : heap_ok s E S -> e ∈ S ->
  exists s' E', min_heap_erase s E e = Ok (s', E', 0) /\ heap_ok s' E' (S ∖ {[e]}) /\
    touched S E E' /\ hn s' = hn s - 1 /\ ha s' = ha s.
Proof.
  intros H HeS. pose proof (hk_ordered _ _ _ H) as Hord. pose proof (or_bounds _ _ _ _ Hord) as Hb.
  destruct (ordered_idx _ _ _ _ e Hord HeS) as (o & He & Hi & Hp). set (h := min_heap_idx o) in *.
  destruct (or_slots _ _ _ _ Hord (hn s - 1)) as (last & ol & Hlast & Hol & _); [lia|].
  assert (exists up p' E',
      (if h >? 0 then x ← get_slot (hp s) (parent_of h); min_heap_elem_greater E x last else Ok false) = Ok up /\
      (if up : bool then min_heap_shift_up_ (mkHeap (hp s) (hn s - 1) (ha s)) E h last
       else min_heap_shift_down_ (mkHeap (hp s) (hn s - 1) (ha s)) E h last)
      = Ok (mkHeap p' (hn s - 1) (ha s), E') /\
      ordered p' E' (hn s - 1) (S ∖ {[e]}) /\ touched S E E' /\ blen p' = ha s)
    as (up & p' & E' & Hup & Hrun & Ho & Ht & Hl).
  { rewrite Z.gtb_ltb. destruct (Z.ltb_spec 0 h) as [Hh|Hh].
    - pose proof (par_bounds h Hh). destruct (or_slots _ _ _ _ Hord (par h)) as (x & ox & Hx & Hox & _); [lia|].
      rewrite parent_of_par, (get_slot_ok _ _ x), bind_Ok, greater_ok by (lia || eauto).
      destruct (evutil_timercmp_gt (time E x) (time E last)) eqn:Hgt.
      + destruct (replace_up s E S e h last x) as (p' & E' & Hr); [done|lia|done..|]. by exists true, p', E'.
      + destruct (replace_down s E S e h last) as (p' & E' & Hr); [done|lia|lia|done..|]. by exists false, p', E'.
    - destruct (replace_down s E S e h last) as (p' & E' & Hr); [done|lia|lia|done..|]. by exists false, p', E'. }
  destruct (leave s E E' p' _ S e H HeS Ho Ht Hl) as (E2 & HE2 & Hok & Ht2).
  exists (mkHeap p' (hn s - 1) (ha s)), E2. split; [|done].
  unfold min_heap_erase. rewrite (deref_ok _ _ _ He), bind_Ok. fold h.
  replace (h =? NO_IDX) with false by (symmetry; apply Z.eqb_neq; change NO_IDX with (2 ^ 32 - 1); lia).
  rewrite uwrap32_small by lia. cbn [hp hn ha].
  rewrite (get_slot_ok _ (hn s - 1) last), bind_Ok, Hup, bind_Ok, Hrun, bind_Ok by (lia || done).
  cbv beta iota. by rewrite HE2.
Qed.

End Operations.

(** * The priority queue *)

Definition with_timeout (o : event) (tv : timeval) : event :=
  mkEvent (min_heap_idx o) (ev_fd o) (ev_events o) (ev_ncalls o) (ev_pncalls o) tv (ev_pri o)
    (ev_res o) (ev_flags o).

(** What the event loop does with its heap: it (re)schedules an event for a
    time, cancels an event, and looks at or takes the event due first. *)
Inductive heap_op : Type :=
| Schedule (e : Z) (tv : timeval)
| Cancel (e : Z)
| Top
| Pop.

Inductive heap_obs : Type :=
| Result (r : Z)
| Event (e : option Z).

Definition schedule (alloc : Z -> bool) (s : min_heap) (E : events) (e : Z) (tv : timeval)
  : cres (min_heap * events * Z) :=
  '(s, E, _) ← min_heap_erase s E e;
  o ← deref E e;
  min_heap_push alloc s (<[e := with_timeout o tv]> E) e.

Definition heap_run1 (alloc : Z -> bool) (s : min_heap) (E : events) (op : heap_op)
  : cres (min_heap * events * heap_obs) :=
  match op with
  | Schedule e tv => '(s, E, r) ← schedule alloc s E e tv; Ok (s, E, Result r)
  | Cancel e => '(s, E, r) ← min_heap_erase s E e; Ok (s, E, Result r)
  | Top => x ← min_heap_top s; Ok (s, E, Event x)
  | Pop => '(s, E, x) ← min_heap_pop s E; Ok (s, E, Event x)
  end.

Fixpoint heap_run (alloc : Z -> bool) (s : min_heap) (E : events) (ops : list heap_op)
  : cres (min_heap * events * list heap_obs) :=
  match ops with
  | [] => Ok (s, E, [])
  | op :: ops =>
      '(s, E, b) ← heap_run1 alloc s E op;
      '(s, E, bs) ← heap_run alloc s E ops;
      Ok (s, E, b :: bs)
  end.

(** The abstract queue: the scheduled events with the times they are due at.
    The event taken is one that is due first. *)
Abbreviation schedule_map := (gmap Z timeval).

Definition due_first (T : schedule_map) (x : option Z) : Prop :=
  match x with
  | None => T = ∅
  | Some e => exists tv, T !! e = Some tv /\ forall y tv', T !! y = Some tv' -> tle tv tv'
  end.

Inductive pq_step (refused : Prop) (T : schedule_map) : heap_op -> schedule_map -> heap_obs -> Prop :=
| pq_schedule e tv : pq_step refused T (Schedule e tv) (<[e := tv]> T) (Result 0)
| pq_refused e tv : refused -> pq_step refused T (Schedule e tv) (delete e T) (Result (-1))
| pq_cancel e : is_Some (T !! e) -> pq_step refused T (Cancel e) (delete e T) (Result 0)
| pq_cancel_none e : T !! e = None -> pq_step refused T (Cancel e) T (Result (-1))
| pq_top x : due_first T x -> pq_step refused T Top T (Event x)
| pq_pop_none : T = ∅ -> pq_step refused T Pop T (Event None)
| pq_pop e : due_first T (Some e) -> pq_step refused T Pop (delete e T) (Event (Some e)).

Inductive pq_run (refused : Prop) : schedule_map -> list heap_op -> schedule_map -> list heap_obs -> Prop :=
| pq_nil T : pq_run refused T [] T []
| pq_cons T op T1 b ops T2 bs : pq_step refused T op T1 b -> pq_run refused T1 ops T2 bs ->
    pq_run refused T (op :: ops) T2 (b :: bs).

Definition op_event (E : events) (op : heap_op) : Prop :=
  match op with Schedule e _ | Cancel e => is_Some (E !! e) | _ => True end.

(** The heap stands for the queue [T]. *)
Definition queue_of (s : min_heap) (E : events) (T : schedule_map) : Prop :=
  heap_ok s E (dom T) /\ forall x tv, T !! x = Some tv -> time E x = tv.

Section Queue.
Context (alloc : Z -> bool).
Implicit Types (s : min_heap) (E : events) (T : schedule_map).

Lemma queue_of_same s E E' s' T T' S : queue_of s E T -> touched S E E' -> heap_ok s' E' (dom T') ->
  T' ⊆ T -> queue_of s' E' T'.
Proof.
  intros [_ Ht] [Hs _] H Hsub. split; [done|]. intros x tv Hx.
  rewrite (same_time E E' x Hs). apply Ht. by eapply lookup_weaken.
Qed.

Lemma queue_erase s E T e o : queue_of s E T -> E !! e = Some o ->
  exists s' E' r, min_heap_erase s E e = Ok (s', E', r) /\ queue_of s' E' (delete e T) /\
    touched (dom T) E E' /\ hn s' <= hn s /\ r = if decide (is_Some (T !! e)) then 0 else -1.
Proof.
  intros [H Ht] He. case_decide as Hd.
  - destruct (min_heap_erase_ok s E (dom T) e H) as (s' & E' & Hr & Hok & Htt & Hn & _); [by apply elem_of_dom|].
    exists s', E', 0. split; [done|]. split; [|split; [done|lia]].
    apply (queue_of_same s E E' s' T _ (dom T)); [done|done|by rewrite dom_delete_L|apply delete_subseteq].
  - rewrite (min_heap_erase_out s E (dom T) e o H He) by (by rewrite elem_of_dom).
    exists s, E, (-1). rewrite delete_id by (by apply eq_None_not_Some).
    split; [done|]. split; [done|]. split; [apply touched_refl|lia].
Qed.

Lemma heap_ok_timeout s E S e o tv : heap_ok s E S -> E !! e = Some o -> e ∉ S ->
  heap_ok s (<[e := with_timeout o tv]> E) S.
Proof.
  intros H He Hn. split; [|apply (hk_block _ _ _ H)|].
  - apply (ordered_frame _ E); [apply (hk_ordered _ _ _ H)|].
    intros x Hx. rewrite lookup_insert_ne; [done|]. by intros ->.
  - intros x ox. destruct (decide (x = e)) as [->|Hne].
    + rewrite lookup_insert_eq. intros [= <-] _. by apply (hk_out _ _ _ H e o).
    + rewrite lookup_insert_ne by done. apply (hk_out _ _ _ H).
Qed.

Lemma queue_schedule s E T e o tv : queue_of s E T -> E !! e = Some o -> hn s + 1 < 2 ^ 31 ->
  exists s' E' r T', schedule alloc s E e tv = Ok (s', E', r) /\ queue_of s' E' T' /\ hn s' <= hn s + 1 /\
    dom E' = dom E /\ pq_step (exists l, alloc l = false) T (Schedule e tv) T' (Result r).
Proof.
  intros HT He Hn. destruct (queue_erase s E T e o HT He) as (s1 & E1 & r1 & Hr & H1 & Ht1 & Hn1 & _).
  destruct (same_lookup _ _ _ _ (proj1 Ht1) He) as (o1 & Ho1 & _).
  unfold schedule. rewrite Hr, bind_Ok. cbv beta iota. rewrite (deref_ok _ _ _ Ho1), bind_Ok.
  destruct H1 as [H1 Htime1].
  set (E2 := <[e := with_timeout o1 tv]> E1).
  assert (e ∉ dom (delete e T)) as Hout by set_solver.
  pose proof (heap_ok_timeout s1 E1 _ e o1 tv H1 Ho1 Hout) as H2. fold E2 in H2.
  assert (Hd : forall E3, same_but_idx E2 E3 -> dom E3 = dom E).
  { intros E3 H3. apply set_eq. intros x. rewrite !elem_of_dom.
    destruct Ht1 as [Hs1 _]. split; intros Hx.
    - apply (same_lookup_is_Some E3 E2) in Hx; [|by symmetry]. apply (same_lookup_is_Some E1 E); [by symmetry|].
      subst E2. destruct (decide (x = e)) as [->|Hne]; [eauto|]. by rewrite lookup_insert_ne in Hx.
    - apply (same_lookup_is_Some E2 E3); [done|]. subst E2.
      destruct (decide (x = e)) as [->|Hne]; [rewrite lookup_insert_eq; eauto|].
      rewrite lookup_insert_ne by done. by apply (same_lookup_is_Some E E1). }
  assert (Ht2 : forall x, x <> e -> time E2 x = time E1 x).
  { intros x Hx. unfold time, E2. by rewrite lookup_insert_ne. }
  destruct (min_heap_push_ok alloc s1 E2 _ e (with_timeout o1 tv) H2) as
      [[-> Hf]|(s' & E' & -> & Hok & [Hs' _] & Hn')]; [apply lookup_insert_eq|done|lia| |].
  - exists s1, E2, (-1), (delete e T). split; [done|]. split; [split; [done|]|].
    + intros x tv' [Hne Hx]%lookup_delete_Some. rewrite Ht2 by done. apply Htime1.
      by rewrite lookup_delete_ne.
    + split; [lia|]. split; [by apply Hd|]. by constructor.
  - exists s', E', 0, (<[e := tv]> T). split; [done|]. split; [split|].
    + replace (dom (<[e := tv]> T)) with ({[e]} ∪ dom (delete e T)); [done|].
      rewrite dom_insert_L, dom_delete_L. apply set_eq. intros x. destruct (decide (x = e)); set_solver.
    + intros x tv'. rewrite (same_time E2 E' x Hs'). destruct (decide (x = e)) as [->|Hne].
      * rewrite lookup_insert_eq. intros [= <-]. unfold time, E2. by rewrite lookup_insert_eq.
      * rewrite lookup_insert_ne by done. intros Hx. rewrite Ht2 by done. apply Htime1.
        by rewrite lookup_delete_ne.
    + split; [lia|]. split; [by apply Hd|]. constructor.
Qed.

Lemma due_first_top s E T x : queue_of s E T -> min_heap_top s = Ok x -> due_first T x.
Proof.
  intros [H Ht] Htop. destruct (min_heap_top_ok s E (dom T) H) as
    [(Hx & Hd & _)|(e & o & Hx & _ & He & _ & _ & Hmin)]; rewrite Htop in Hx; injection Hx as ->; cbn.
  - by apply dom_empty_inv_L in Hd.
  - apply elem_of_dom in He as [tv He]. exists tv. split; [done|]. intros y tv' Hy.
    rewrite <- (Ht e tv He), <- (Ht y tv' Hy). apply Hmin. by apply elem_of_dom.
Qed.

Lemma touched_dom S E E' : touched S E E' -> dom E' = dom E.
Proof.
  intros [Hs _]. apply set_eq. intros x. rewrite !elem_of_dom. split; apply same_lookup_is_Some; [by symmetry|done].
Qed.

Lemma heap_step s E T op : queue_of s E T -> op_event E op -> hn s + 1 < 2 ^ 31 ->
  exists s' E' b T', heap_run1 alloc s E op = Ok (s', E', b) /\ queue_of s' E' T' /\ hn s' <= hn s + 1 /\
    dom E' = dom E /\ pq_step (exists l, alloc l = false) T op T' b.
Proof.
  intros HT Hop Hn. destruct op as [e tv|e| |]; cbn [heap_run1 op_event] in *.
  - destruct Hop as [o Ho].
    destruct (queue_schedule s E T e o tv HT Ho Hn) as (s' & E' & r & T' & -> & Hq & Hn' & Hd & Hst).
    by eexists _, _, _, T'.
  - destruct Hop as [o Ho].
    destruct (queue_erase s E T e o HT Ho) as (s' & E' & r & -> & Hq & Ht & Hn' & ->).
    eexists _, _, _, (delete e T). split; [done|]. split; [done|]. split; [lia|].
    split; [by eapply touched_dom|]. case_decide as Hd; [by constructor|].
    apply eq_None_not_Some in Hd. rewrite delete_id by done. by constructor.
  - destruct (min_heap_top_ok s E (dom T) (proj1 HT)) as [(Hx & _)|(e & o & Hx & _)]; rewrite Hx;
      eexists s, E, _, T; (split; [done|]); (split; [done|]); (split; [lia|]); (split; [done|]);
      constructor; by eapply due_first_top.
  - pose proof (due_first_top s E T) as Hfirst.
    destruct (min_heap_pop_ok s E (dom T) (proj1 HT)) as [[-> Hd]|(e & s' & E' & -> & He & Hmin & Hok & Ht & Hn')].
    + eexists s, E, _, T. split; [done|]. split; [done|]. split; [lia|]. split; [done|].
      constructor. by apply dom_empty_inv_L in Hd.
    + eexists s', E', _, (delete e T). split; [done|]. split; [|split; [lia|]].
      * apply (queue_of_same s E E' s' T _ (dom T)); [done|done|by rewrite dom_delete_L|apply delete_subseteq].
      * split; [by eapply touched_dom|]. constructor. apply elem_of_dom in He as [tv He].
        exists tv. split; [done|]. intros y tv' Hy. destruct HT as [_ Htime].
        rewrite <- (Htime e tv He), <- (Htime y tv' Hy). apply Hmin. by apply elem_of_dom.
Qed.

Lemma heap_steps ops : forall s E T, queue_of s E T -> Forall (op_event E) ops ->
  hn s + blen ops < 2 ^ 31 ->
  exists s' E' bs T', heap_run alloc s E ops = Ok (s', E', bs) /\ queue_of s' E' T' /\
    pq_run (exists l, alloc l = false) T ops T' bs.
Proof.
  induction ops as [|op ops IH]; intros s E T HT Hops Hn; cbn [heap_run].
  - exists s, E, [], T. split; [done|]. split; [done|constructor].
  - inversion Hops as [|? ? Hop Hrest]; subst. rewrite blen_cons in Hn. pose proof (blen_nonneg ops).
    destruct (heap_step s E T op HT Hop ltac:(lia)) as (s1 & E1 & b & T1 & -> & H1 & Hn1 & Hd & Hst).
    rewrite bind_Ok. cbv beta iota.
    destruct (IH s1 E1 T1 H1) as (s' & E' & bs & T' & -> & H' & Hrun); [|lia|].
    + eapply Forall_impl; [exact Hrest|]. intros [e tv|e| |]; cbn; try done; by rewrite <- !elem_of_dom, Hd.
    + eexists s', E', (b :: bs), T'. split; [done|]. split; [done|]. by econstructor.
Qed.
End Queue.

Lemma StronglySorted_impl {A} (R R' : A -> A -> Prop) l : (forall x y, R x y -> R' x y) ->
  StronglySorted R l -> StronglySorted R' l.
Proof. intros HR. induction 1; constructor; [done|]. eapply Forall_impl; eauto. Qed.

(** Taking [k] events. *)
Fixpoint drain (k : nat) (s : min_heap) (E : events) : cres (min_heap * events * list Z) :=
  match k with
  | O => Ok (s, E, [])
  | Datatypes.S k =>
      '(s, E, x) ← min_heap_pop s E;
      '(s, E, l) ← drain k s E;
      Ok (s, E, option_list x ++ l)
  end.

Lemma drain_sorted k : forall s E (S : gset Z), heap_ok s E S -> hn s = Z.of_nat k ->
  exists s' E' l, drain k s E = Ok (s', E', l) /\ hn s' = 0 /\ l ≡ₚ elements S /\
    StronglySorted (fun x y => tle (time E x) (time E y)) l.
Proof.
  induction k as [|k IH]; intros s E S H Hn; cbn [drain].
  - exists s, E, []. split; [done|]. split; [done|].
    destruct (min_heap_top_ok s E S H) as [(_ & -> & _)|(? & ? & _ & ? & _)]; [|lia].
    rewrite elements_empty. split; [done|constructor].
  - destruct (min_heap_pop_ok s E S H) as [[_ ->]|(e & s1 & E1 & -> & He & Hmin & H1 & [Hs _] & Hn1)].
    { destruct (min_heap_top_ok s E ∅ H) as [(_ & _ & ?)|(? & ? & _ & _ & Hin & _)]; [lia|set_solver]. }
    rewrite bind_Ok. cbv beta iota.
    destruct (IH s1 E1 (S ∖ {[e]}) H1 ltac:(lia)) as (s' & E' & l & -> & Hn' & Hl & Hsort).
    exists s', E', (e :: l). split; [done|]. split; [done|]. split.
    + rewrite Hl. rewrite <- elements_union_singleton by set_solver. f_equiv.
      intros x. destruct (decide (x = e)); set_solver.
    + constructor.
      * apply (StronglySorted_impl (fun x y => tle (time E1 x) (time E1 y))); [|exact Hsort].
        intros x y. by rewrite !(same_time E E1 _ Hs).
      * apply Forall_forall. intros y Hy. rewrite Hl in Hy. apply Hmin. set_solver.
Qed.

(** * Results *)

(** C24: the timeout heap is a priority queue. Whatever events are scheduled,
    re-scheduled, cancelled and taken, in any order, from an empty heap the
    operations never leave the allocated slots nor follow a wrong slot number,
    the heap order and the slot numbers stay consistent ([queue_of]), and every
    answer is the one of a map from events to due times: the event looked at or
    taken is one due first, cancelling reports whether the event was scheduled,
    and scheduling fails only when [realloc] does, the event then being
    unscheduled. *)
Theorem min_heap_refines_pq (alloc : Z -> bool) (E : events) (ops : list heap_op) :
  (forall x o, E !! x = Some o -> min_heap_idx o = NO_IDX) ->
  Forall (op_event E) ops -> blen ops < 2 ^ 31 ->
  exists s' E' bs T', heap_run alloc min_heap_ctor E ops = Ok (s', E', bs) /\ queue_of s' E' T' /\
    pq_run (exists l, alloc l = false) ∅ ops T' bs.
Proof.
  intros HE Hops Hn. apply heap_steps; [|done|done]. split; [|by intros].
  rewrite dom_empty_L. by apply heap_ok_ctor.
Qed.

Definition demo_event (sec : Z) : event := mkEvent NO_IDX 0 0 0 None (mkTv sec 0) 0 0 0.

Definition demo_events : events :=
  list_to_map ((fun x => (x, demo_event 0)) <$> [1; 2; 3; 4; 5; 6; 7; 8; 9; 10]).

Definition demo_schedule : list heap_op :=
  (fun xt => Schedule (fst xt) (mkTv (snd xt) 0)) <$>
    [(1, 50); (2, 40); (3, 90); (4, 10); (5, 70); (6, 20); (7, 60); (8, 30); (9, 80); (10, 5)].

Lemma min_heap_refines_pq_witness :
  exists s' E' bs T',
    heap_run (fun _ => true) min_heap_ctor demo_events
      (demo_schedule ++ [Schedule 4 (mkTv 100 0); Cancel 2; Cancel 2; Top; Pop; Pop]) = Ok (s', E', bs) /\
    drop 10 bs = [Result 0; Result 0; Result (-1); Event (Some 10); Event (Some 10); Event (Some 6)] /\
    queue_of s' E' T'.
Proof.
  destruct (min_heap_refines_pq (fun _ => true) demo_events
    (demo_schedule ++ [Schedule 4 (mkTv 100 0); Cancel 2; Cancel 2; Top; Pop; Pop]))
    as (s' & E' & bs & T' & Hr & Hq & _).
  - intros x o Hx. apply elem_of_list_to_map_2 in Hx.
    apply list_elem_of_fmap in Hx as (y & [= -> ->] & _). reflexivity.
  - repeat (constructor; [try exact I; eexists; vm_compute; reflexivity|]). constructor.
  - vm_compute. reflexivity.
  - exists s', E', bs, T'. split; [exact Hr|]. split; [|exact Hq].
    vm_compute in Hr. injection Hr as _ _ <-. reflexivity.
Defined.

(** The heap hands its events out in the order they are due: taking as many
    events as the heap holds gives all of them, sorted by time, and leaves the
    heap empty. *)
Theorem min_heap_drains_sorted s E (S : gset Z) : heap_ok s E S ->
  exists s' E' l, drain (Z.to_nat (min_heap_size s)) s E = Ok (s', E', l) /\ min_heap_empty s' = true /\
    l ≡ₚ elements S /\ StronglySorted (fun x y => tle (time E x) (time E y)) l.
Proof.
  intros H. pose proof (or_bounds _ _ _ _ (hk_ordered _ _ _ H)).
  destruct (drain_sorted (Z.to_nat (hn s)) s E S H) as (s' & E' & l & Hd & Hn & Hl & Hs); [lia|].
  exists s', E', l. unfold min_heap_empty. by rewrite Hn.
Qed.

Lemma min_heap_drains_sorted_witness :
  exists s E bs, heap_run (fun _ => true) min_heap_ctor demo_events demo_schedule = Ok (s, E, bs) /\
    exists s' E', drain 10 s E = Ok (s', E', [10; 4; 6; 8; 2; 1; 7; 5; 9; 3]) /\ min_heap_empty s' = true.
Proof.
  destruct (heap_steps (fun _ => true) demo_schedule min_heap_ctor demo_events ∅)
    as (s & E & bs & T & Hr & [Hq _] & _).
  - split; [|by intros]. rewrite dom_empty_L. apply heap_ok_ctor. intros x o Hx.
    apply elem_of_list_to_map_2 in Hx. apply list_elem_of_fmap in Hx as (y & [= -> ->] & _). reflexivity.
  - repeat (constructor; [eexists; vm_compute; reflexivity|]). constructor.
  - vm_compute. reflexivity.
  - exists s, E, bs. split; [exact Hr|].
    destruct (min_heap_drains_sorted s E (dom T) Hq) as (s' & E' & l & Hd & He & _).
    exists s', E'. split; [|exact He]. clear Hq. vm_compute in Hr. injection Hr as <- <- _.
    vm_compute in Hd. injection Hd as <- <- <-. vm_compute. reflexivity.
Defined.
