(* ===== verification/EventBase.v ===== *)
(** libevent's event base: [event.c] of [socket/3rd/libevent-1.4.12-stable] over
    the timeout heap of [MinHeap.v]. Events live in a memory keyed by address;
    the answers of the clock, the allocator and the polling back end are
    arguments. *)
From S2P Require Import Prelude.
From S2P Require Import BufferEvent MinHeap.

(** * Data *)

Definition EVLIST_TIMEOUT : Z := 1.
Definition EVLIST_INSERTED : Z := 2.
Definition EVLIST_SIGNAL : Z := 4.
Definition EVLIST_ACTIVE : Z := 8.
Definition EVLIST_INTERNAL : Z := 16.
Definition EVLIST_INIT : Z := 128.
Definition EVLIST_ALL : Z := Z.lor 61440 159.

Definition EV_SIGNAL : Z := 8.
Definition EV_PERSIST : Z := 16.
Definition EVLOOP_ONCE : Z := 1.
Definition EVLOOP_NONBLOCK : Z := 2.

(** [struct event_base], without the back end and the signal state. The
    priority queues are lists of event addresses; [nactivequeues] is their
    number. *)
Record event_base := mkBase {
  event_count : Z;
  event_count_active : Z;
  event_gotterm : bool;
  event_break : bool;
  activequeues : list (list Z);
  eventqueue : list Z;
  event_tv : timeval;
  timeheap : min_heap;
  tv_cache : timeval
}.

(** The base, the memory of events, the signal flag [event_gotsig], whether the
    clock is monotonic, and the local counters of the running calls of
    [event_process_active], by call. *)
Record eworld := mkWorld {
  w_base : event_base;
  w_mem : events;
  w_gotsig : bool;
  w_monotonic : bool;
  w_calls : gmap Z Z
}.

(** The answers of the outside: the clock (no answer when the call fails), the
    wall clock, [realloc], and the [add] and [del] functions of the back end. *)
Record answers := mkAnswers {
  an_clock : option timeval;
  an_day : timeval;
  an_alloc : Z -> bool;
  an_add : Z -> Z;
  an_del : Z -> Z
}.

Definition em (A : Type) : Type := eworld -> cres (A * eworld).

#[export] Instance em_ret : MRet em := fun A a w => Ok (a, w).
#[export] Instance em_bind : MBind em := fun A B k m w =>
  match m w with
  | Ok (a, w) => k a w
  | UB f => UB f
  end.

Definition elift {A} (r : cres A) : em A := fun w =>
  match r with Ok a => Ok (a, w) | UB f => UB f end.
Definition efail {A} (f : fault) : em A := fun w => UB f.
Definition eget : em eworld := fun w => Ok (w, w).
Definition eput (w : eworld) : em unit := fun _ => Ok (tt, w).
Definition emodify (f : eworld -> eworld) : em unit := fun w => Ok (tt, f w).

Definition set_base (f : event_base -> event_base) (w : eworld) : eworld :=
  mkWorld (f (w_base w)) (w_mem w) (w_gotsig w) (w_monotonic w) (w_calls w).
Definition set_mem (f : events -> events) (w : eworld) : eworld :=
  mkWorld (w_base w) (f (w_mem w)) (w_gotsig w) (w_monotonic w) (w_calls w).
Definition set_calls (f : gmap Z Z -> gmap Z Z) (w : eworld) : eworld :=
  mkWorld (w_base w) (w_mem w) (w_gotsig w) (w_monotonic w) (f (w_calls w)).
Definition set_gotsig (g : bool) (w : eworld) : eworld :=
  mkWorld (w_base w) (w_mem w) g (w_monotonic w) (w_calls w).

Definition set_counts (n na : Z) (b : event_base) : event_base :=
  mkBase n na (event_gotterm b) (event_break b) (activequeues b) (eventqueue b) (event_tv b)
    (timeheap b) (tv_cache b).
Definition set_stops (gotterm brk : bool) (b : event_base) : event_base :=
  mkBase (event_count b) (event_count_active b) gotterm brk (activequeues b) (eventqueue b)
    (event_tv b) (timeheap b) (tv_cache b).
Definition set_activequeues (q : list (list Z)) (b : event_base) : event_base :=
  mkBase (event_count b) (event_count_active b) (event_gotterm b) (event_break b) q (eventqueue b)
    (event_tv b) (timeheap b) (tv_cache b).
Definition set_eventqueue (q : list Z) (b : event_base) : event_base :=
  mkBase (event_count b) (event_count_active b) (event_gotterm b) (event_break b) (activequeues b) q
    (event_tv b) (timeheap b) (tv_cache b).
Definition set_timeheap (h : min_heap) (b : event_base) : event_base :=
  mkBase (event_count b) (event_count_active b) (event_gotterm b) (event_break b) (activequeues b)
    (eventqueue b) (event_tv b) h (tv_cache b).
Definition set_times (tv cache : timeval) (b : event_base) : event_base :=
  mkBase (event_count b) (event_count_active b) (event_gotterm b) (event_break b) (activequeues b)
    (eventqueue b) tv (timeheap b) cache.

Definition with_flags (flags : Z) (o : event) : event :=
  mkEvent (min_heap_idx o) (ev_fd o) (ev_events o) (ev_ncalls o) (ev_pncalls o) (ev_timeout o)
    (ev_pri o) (ev_res o) flags.
Definition with_pri (pri : Z) (o : event) : event :=
  mkEvent (min_heap_idx o) (ev_fd o) (ev_events o) (ev_ncalls o) (ev_pncalls o) (ev_timeout o)
    pri (ev_res o) (ev_flags o).
Definition with_res (res : Z) (o : event) : event :=
  mkEvent (min_heap_idx o) (ev_fd o) (ev_events o) (ev_ncalls o) (ev_pncalls o) (ev_timeout o)
    (ev_pri o) res (ev_flags o).
Definition with_calls (ncalls : Z) (pncalls : option Z) (o : event) : event :=
  mkEvent (min_heap_idx o) (ev_fd o) (ev_events o) ncalls pncalls (ev_timeout o)
    (ev_pri o) (ev_res o) (ev_flags o).

(** [ev->...] and assignments to members of an event. *)
Definition load_ev (x : Z) : em event := fun w => 
  match w_mem w !! x with Some o => Ok (o, w) | None => UB UseAfterFree end.
Definition update_ev (x : Z) (f : event -> event) : em unit :=
  load_ev x ≫= fun _ => emodify (set_mem (alter f x)).

(** * Clock *)

(** [gettime]; [None] is its error result. *)
Definition gettime (a : option timeval) (b : event_base) : option timeval :=
  if negb (tv_sec (tv_cache b) =? 0) then Some (tv_cache b) else a.

(** A call of [gettime] whose result is not looked at: on failure the time
    variable stays unset. *)
Definition gettime_now (a : answers) : em timeval :=
  w ← eget; elift (of_option Uninitialised (gettime (an_clock a) (w_base w))).

(** * Queues *)

Definition tailq_remove (x : Z) (q : list Z) : cres (list Z) :=
  if decide (x ∈ q) then Ok (filter (fun y => y <> x) q) else UB WildPointer.

Definition active_queue (b : event_base) (pri : Z) : cres (list Z) :=
  require (0 <=? pri) OutOfBounds;;
  of_option OutOfBounds (activequeues b !! Z.to_nat pri).

Definition put_active (b : event_base) (pri : Z) (q : list Z) : event_base :=
  set_activequeues (<[Z.to_nat pri := q]> (activequeues b)) b.

Definition count_total (o : event) (d : Z) : em unit :=
  if has_flag (Z.lnot (ev_flags o)) EVLIST_INTERNAL then
    w ← eget;
    n ← elift (chk_int (event_count (w_base w) + d));
    emodify (set_base (set_counts n (event_count_active (w_base w))))
  else mret tt.

Definition event_queue_remove (x queue : Z) : em unit :=
  o ← load_ev x;
  if negb (has_flag (ev_flags o) queue) then efail AssertFailed
  else
    count_total o (-1);;
    update_ev x (with_flags (Z.land (ev_flags o) (Z.lnot queue)));;
    w ← eget;
    let b := w_base w in
    if queue =? EVLIST_INSERTED then
      q ← elift (tailq_remove x (eventqueue b));
      emodify (set_base (set_eventqueue q))
    else if queue =? EVLIST_ACTIVE then
      na ← elift (chk_int (event_count_active b - 1));
      q ← elift (active_queue b (ev_pri o));
      q ← elift (tailq_remove x q);
      emodify (set_base (fun b => put_active (set_counts (event_count b) na b) (ev_pri o) q))
    else if queue =? EVLIST_TIMEOUT then
      '(h, E, _) ← elift (min_heap_erase (timeheap b) (w_mem w) x);
      emodify (fun w => set_mem (fun _ => E) (set_base (set_timeheap h) w))
    else efail AssertFailed.

Definition event_queue_insert (alloc : Z -> bool) (x queue : Z) : em unit :=
  o ← load_ev x;
  if has_flag (ev_flags o) queue then
    if has_flag queue EVLIST_ACTIVE then mret tt else efail AssertFailed
  else
    count_total o 1;;
    update_ev x (with_flags (Z.lor (ev_flags o) queue));;
    w ← eget;
    let b := w_base w in
    if queue =? EVLIST_INSERTED then
      emodify (set_base (set_eventqueue (eventqueue b ++ [x])))
    else if queue =? EVLIST_ACTIVE then
      na ← elift (chk_int (event_count_active b + 1));
      q ← elift (active_queue b (ev_pri o));
      emodify (set_base (fun b => put_active (set_counts (event_count b) na b) (ev_pri o) (q ++ [x])))
    else if queue =? EVLIST_TIMEOUT then
      '(h, E, _) ← elift (min_heap_push alloc (timeheap b) (w_mem w) x);
      emodify (fun w => set_mem (fun _ => E) (set_base (set_timeheap h) w))
    else efail AssertFailed.

(** * Events *)

(** [event_set] on a base that is current; the time-out member is not written. *)
Definition event_set (x fd events : Z) : em unit :=
  emodify (fun w =>
    let old := default (mkTv 0 0) (ev_timeout <$> w_mem w !! x) in
    set_mem <[x := mkEvent NO_IDX fd events 0 None old (blen (activequeues (w_base w)) / 2) 0 EVLIST_INIT]> w).

Definition event_priority_set (x pri : Z) : em Z :=
  o ← load_ev x;
  w ← eget;
  if has_flag (ev_flags o) EVLIST_ACTIVE then mret (-1)
  else if (pri <? 0) || (pri >=? blen (activequeues (w_base w))) then mret (-1)
  else update_ev x (with_pri pri);; mret 0.

(** The result and, when asked for and pending, the remaining time as a time of
    day. *)
Definition event_pending (a : answers) (x event : Z) (tv : bool) : em (Z * option timeval) :=
  o ← load_ev x;
  let flags := if has_flag (ev_flags o) EVLIST_INSERTED
               then Z.land (ev_events o) (Z.lor EV_READ (Z.lor EV_WRITE EV_SIGNAL)) else 0 in
  let flags := if has_flag (ev_flags o) EVLIST_ACTIVE then Z.lor flags (ev_res o) else flags in
  let flags := if has_flag (ev_flags o) EVLIST_TIMEOUT then Z.lor flags EV_TIMEOUT else flags in
  let event := Z.land event (Z.lor EV_TIMEOUT (Z.lor EV_READ (Z.lor EV_WRITE EV_SIGNAL))) in
  if tv && has_flag (Z.land flags event) EV_TIMEOUT then
    now ← gettime_now a;
    res ← elift (evutil_timersub (ev_timeout o) now);
    t ← elift (evutil_timeradd (an_day a) res);
    mret (Z.land flags event, Some t)
  else mret (Z.land flags event, None).

(** [*ev->ev_pncalls = 0] when the event is being called: the counter is a local
    variable of a call that may have returned. *)
Definition abort_calls (o : event) : em unit :=
  match ev_pncalls o with
  | Some f =>
      if negb (ev_ncalls o =? 0) then
        w ← eget;
        match w_calls w !! f with
        | Some _ => emodify (set_calls <[f := 0]>)
        | None => efail UseAfterFree
        end
      else mret tt
  | None => mret tt
  end.

Definition assert_flags (o : event) : em unit :=
  if Z.land (ev_flags o) (Z.lnot EVLIST_ALL) =? 0 then mret tt else efail AssertFailed.

(** The I/O part of [event_add]: [evsel->add] and the list of inserted events. *)
Definition add_io (a : answers) (x : Z) : em Z :=
  o ← load_ev x;
  if has_flag (ev_events o) (Z.lor EV_READ (Z.lor EV_WRITE EV_SIGNAL)) &&
     negb (has_flag (ev_flags o) (Z.lor EVLIST_INSERTED EVLIST_ACTIVE)) then
    let res := an_add a x in
    if negb (res =? -1) then event_queue_insert (an_alloc a) x EVLIST_INSERTED;; mret res
    else mret res
  else mret 0.

(** The time-out part of [event_add]. *)
Definition add_timeout (a : answers) (x : Z) (tv : timeval) : em unit :=
  o ← load_ev x;
  (if has_flag (ev_flags o) EVLIST_TIMEOUT then event_queue_remove x EVLIST_TIMEOUT else mret tt);;
  o ← load_ev x;
  (if has_flag (ev_flags o) EVLIST_ACTIVE && has_flag (ev_res o) EV_TIMEOUT then
     abort_calls o;; event_queue_remove x EVLIST_ACTIVE
   else mret tt);;
  now ← gettime_now a;
  due ← elift (evutil_timeradd now tv);
  update_ev x (flip with_timeout due);;
  event_queue_insert (an_alloc a) x EVLIST_TIMEOUT.

(** [tv != NULL]. *)
Definition given {A} (o : option A) : bool := match o with Some _ => true | None => false end.

Definition event_add (a : answers) (x : Z) (tv : option timeval) : em Z :=
  o ← load_ev x;
  assert_flags o;;
  w ← eget;
  let '(h, r) := if given tv && negb (has_flag (ev_flags o) EVLIST_TIMEOUT)
                 then min_heap_reserve (an_alloc a) (timeheap (w_base w))
                        (uwrap32 (1 + min_heap_size (timeheap (w_base w))))
                 else (timeheap (w_base w), 0) in
  if r =? -1 then mret (-1)
  else
    emodify (set_base (set_timeheap h));;
    res ← add_io a x;
    match tv with
    | Some tv => if negb (res =? -1) then add_timeout a x tv;; mret res else mret res
    | None => mret res
    end.

Definition event_del (a : answers) (x : Z) : em Z :=
  o ← load_ev x;
  assert_flags o;;
  abort_calls o;;
  (if has_flag (ev_flags o) EVLIST_TIMEOUT then event_queue_remove x EVLIST_TIMEOUT else mret tt);;
  o ← load_ev x;
  (if has_flag (ev_flags o) EVLIST_ACTIVE then event_queue_remove x EVLIST_ACTIVE else mret tt);;
  o ← load_ev x;
  if has_flag (ev_flags o) EVLIST_INSERTED
  then event_queue_remove x EVLIST_INSERTED;; mret (an_del a x)
  else mret 0.

Definition event_active (x res ncalls : Z) : em unit :=
  o ← load_ev x;
  if has_flag (ev_flags o) EVLIST_ACTIVE then update_ev x (with_res (Z.lor (ev_res o) res))
  else
    update_ev x (fun o => with_calls ncalls None (with_res res o));;
    event_queue_insert (fun _ => false) x EVLIST_ACTIVE.

Definition event_base_set (x : Z) : em Z :=
  o ← load_ev x;
  if negb (ev_flags o =? EVLIST_INIT) then mret (-1)
  else w ← eget; update_ev x (with_pri (blen (activequeues (w_base w)) / 2));; mret 0.

(** [event_base_priority_init] for a base whose queues are idle; its allocations
    end the program when they fail. *)
Definition event_base_priority_init (n : Z) : em Z :=
  w ← eget;
  if negb (event_count_active (w_base w) =? 0) then mret (-1)
  else emodify (set_base (set_activequeues (replicate (Z.to_nat n) [])));; mret 0.

Definition event_haveevents (b : event_base) : bool := event_count b >? 0.

(** * Time-outs *)

(** The time to wait: no limit, or what the variable [tv] of the loop holds
    ([None] while it is unset). *)
Inductive wait : Type :=
| Forever
| For (tv : option timeval).

Definition timeout_next (a : answers) (tv : option timeval) : em (wait * Z) :=
  w ← eget;
  top ← elift (min_heap_top (timeheap (w_base w)));
  match top with
  | None => mret (Forever, 0)
  | Some x =>
      match gettime (an_clock a) (w_base w) with
      | None => mret (For tv, -1)
      | Some now =>
          o ← load_ev x;
          if evutil_timercmp_le (ev_timeout o) now then mret (For (Some (mkTv 0 0)), 0)
          else
            tv ← elift (evutil_timersub (ev_timeout o) now);
            if (tv_sec tv >=? 0) && (tv_usec tv >=? 0) then mret (For (Some tv), 0) else efail AssertFailed
      end
  end.

(** The correction of every pending time-out by [off]. *)
Fixpoint correct_loop (off : timeval) (p : list (option Z)) (E : events) : cres events :=
  match p with
  | [] => Ok E
  | c :: p =>
      x ← of_option Uninitialised c;
      o ← deref E x;
      tv ← evutil_timersub (ev_timeout o) off;
      correct_loop off p (<[x := with_timeout o tv]> E)
  end.

(** The result is what [*tv] holds afterwards. *)
Definition timeout_correct (a : answers) : em (option timeval) :=
  w ← eget;
  if w_monotonic w then mret None
  else
    tv ← gettime_now a;
    let b := w_base w in
    if evutil_timercmp_ge tv (event_tv b) then
      emodify (set_base (set_times tv (tv_cache b)));; mret (Some tv)
    else
      off ← elift (evutil_timersub (event_tv b) tv);
      let h := timeheap b in
      E ← elift (require (hn h <=? blen (hp h)) OutOfBounds;;
                 correct_loop off (take (Z.to_nat (hn h)) (hp h)) (w_mem w));
      emodify (set_mem (fun _ => E));;
      emodify (set_base (set_times tv (tv_cache b)));; mret (Some tv).

(** Every turn takes one event off the heap. *)
Fixpoint timeout_loop (fuel : nat) (a : answers) (now : timeval) : em unit :=
  match fuel with
  | O => efail Diverges
  | S fuel =>
      w ← eget;
      top ← elift (min_heap_top (timeheap (w_base w)));
      match top with
      | None => mret tt
      | Some x =>
          o ← load_ev x;
          if evutil_timercmp_gt (ev_timeout o) now then mret tt
          else
            event_del a x;;
            event_active x EV_TIMEOUT 1;;
            timeout_loop fuel a now
      end
  end.

Definition timeout_process (a : answers) : em unit :=
  w ← eget;
  if min_heap_empty (timeheap (w_base w)) then mret tt
  else
    now ← gettime_now a;
    timeout_loop (S (Z.to_nat (hn (timeheap (w_base w))))) a now.

(** * Running the active events *)

(** The callbacks are state transformers; they do not change the number of
    priorities while the queues are being worked off. *)

Section Callbacks.
(** The user's callbacks, by event: [cb x fd res]. *)
Context (cb : Z -> Z -> Z -> em unit).

Definition stopped : em bool := w ← eget; mret (w_gotsig w || event_break (w_base w)).

Definition read_counter (f : Z) : em Z := fun w =>
  match w_calls w !! f with Some n => Ok (n, w) | None => UB UseAfterFree end.

(** The calls of one event; [true] when the function is to be left. *)
Fixpoint call_loop (fuel : nat) (f x : Z) : em bool :=
  match fuel with
  | O => efail Diverges
  | S fuel =>
      n ← read_counter f;
      if n =? 0 then mret false
      else
        emodify (set_calls <[f := wrap16 (n - 1)]>);;
        update_ev x (fun o => with_calls (wrap16 (n - 1)) (ev_pncalls o) o);;
        o ← load_ev x;
        cb x (ev_fd o) (ev_res o);;
        stop ← stopped;
        if stop : bool then mret true else call_loop fuel f x
  end.

(** One turn of the loop over an active queue. *)
Definition process_one (a : answers) (f x : Z) : em bool :=
  o ← load_ev x;
  (if has_flag (ev_events o) EV_PERSIST then event_queue_remove x EVLIST_ACTIVE
   else event_del a x;; mret tt);;
  o ← load_ev x;
  emodify (set_calls <[f := ev_ncalls o]>);;
  update_ev x (fun o => with_calls (ev_ncalls o) (Some f) o);;
  call_loop (S (Z.to_nat (ev_ncalls o mod 2 ^ 16))) f x.

Fixpoint process_loop (fuel : nat) (a : answers) (f pri : Z) : em unit :=
  match fuel with
  | O => efail Diverges
  | S fuel =>
      w ← eget;
      q ← elift (active_queue (w_base w) pri);
      match q with
      | [] => mret tt
      | x :: _ =>
          stop ← process_one a f x;
          if stop : bool then mret tt else process_loop fuel a f pri
      end
  end.

(** The first queue that is not empty. *)
Fixpoint first_active (qs : list (list Z)) (i : Z) : option Z :=
  match qs with
  | [] => None
  | [] :: qs => first_active qs (i + 1)
  | (_ :: _) :: _ => Some i
  end.

(** [f] is the identity of the call: its counter lives until it returns. *)
Definition event_process_active (fuel : nat) (a : answers) (f : Z) : em unit :=
  w ← eget;
  match first_active (activequeues (w_base w)) 0 with
  | None => efail AssertFailed
  | Some pri =>
      process_loop fuel a f pri;;
      emodify (set_calls (delete f))
  end.

(** * The loop *)

Definition event_loopexit_cb : em unit := emodify (set_base (fun b => set_stops true (event_break b) b)).
Definition event_base_loopbreak : em Z := emodify (set_base (fun b => set_stops (event_gotterm b) true b));; mret 0.

(** The answers of one turn, in the order of the calls of [gettime], and what
    the back end's [dispatch] does. *)
Record turn := mkTurn {
  t_correct : answers;
  t_next : answers;
  t_before : option timeval;
  t_dispatch : wait -> em Z;
  t_after : option timeval;
  t_run : answers;
  t_call : Z
}.

Inductive loop_result : Type :=
| Again
| Return (r : Z)
| Leave.

Definition set_cache (cache : timeval) (b : event_base) : event_base := set_times (event_tv b) cache b.

(** [base->tv_cache.tv_sec = 0]. *)
Definition clear_cache (b : event_base) : event_base := set_cache (mkTv 0 (tv_usec (tv_cache b))) b.

(** One turn of [event_base_loop], with no [event_sigcb] installed. *)
Definition loop_turn (fuel : nat) (flags : Z) (t : turn) : em loop_result :=
  w ← eget;
  if event_gotterm (w_base w) then
    emodify (set_base (fun b => set_stops false (event_break b) b));; mret Leave
  else if event_break (w_base w) then
    emodify (set_base (fun b => set_stops (event_gotterm b) false b));; mret Leave
  else
    emodify (set_gotsig false);;
    tv ← timeout_correct (t_correct t);
    w ← eget;
    tv_p ← (if (event_count_active (w_base w) =? 0) && negb (has_flag flags EVLOOP_NONBLOCK)
            then r ← timeout_next (t_next t) tv; mret (fst r)
            else mret (For (Some (mkTv 0 0))));
    w ← eget;
    if negb (event_haveevents (w_base w)) then mret (Return 1)
    else
      emodify (set_base (fun b =>
        clear_cache (set_times (default (event_tv b) (gettime (t_before t) b)) (tv_cache b) b)));;
      res ← t_dispatch t tv_p;
      if res =? -1 then mret (Return (-1))
      else
        emodify (set_base (fun b => set_cache (default (tv_cache b) (gettime (t_after t) b)) b));;
        timeout_process (t_run t);;
        w ← eget;
        if negb (event_count_active (w_base w) =? 0) then
          event_process_active fuel (t_run t) (t_call t);;
          w ← eget;
          mret (if (event_count_active (w_base w) =? 0) && has_flag flags EVLOOP_ONCE then Leave else Again)
        else mret (if has_flag flags EVLOOP_NONBLOCK then Leave else Again).

(** The loop over the turns that happen. *)
Fixpoint loop_turns (fuel : nat) (flags : Z) (ts : list turn) : em (option Z) :=
  match ts with
  | [] => mret None
  | t :: ts =>
      r ← loop_turn fuel flags t;
      match r with
      | Again => loop_turns fuel flags ts
      | Return r => mret (Some r)
      | Leave => emodify (set_base clear_cache);; mret (Some 0)
      end
  end.

Definition event_base_loop (fuel : nat) (flags : Z) (ts : list turn) : em (option Z) :=
  emodify (set_base clear_cache);;
  loop_turns fuel flags ts.

End Callbacks.
