(* ===== verification/EventCorrect.v ===== *)
(** Correctness of the event base: the invariant of [event.c] and its
    preservation by every operation. *)
From S2P Require Import Prelude.
From S2P Require Import BufferEvent MinHeap EventBase.

(** * Flags *)

(** The single flags of the queues and of internal events. *)
Definition single (q : Z) : Prop :=
  q = EVLIST_TIMEOUT \/ q = EVLIST_INSERTED \/ q = EVLIST_ACTIVE \/ q = EVLIST_INTERNAL.

Lemma single_pow q : single q -> exists i, 0 <= i /\ q = 2 ^ i.
Proof. intros [-> |[-> |[-> | ->]]]; [exists 0|exists 1|exists 3|exists 4]; done. Qed.

Lemma pow_eqb i j : 0 <= i -> 0 <= j -> (2 ^ i =? 2 ^ j) = (i =? j).
Proof.
  intros Hi Hj. destruct (Z.eqb_spec i j) as [->|Hne]; [apply Z.eqb_refl|].
  apply Z.eqb_neq. intros H. apply Hne. by apply (Z.pow_inj_r 2).
Qed.

Lemma has_flag_set a q k : single q -> single k -> has_flag (Z.lor a q) k = has_flag a k || (q =? k).
Proof.
  intros (i & Hi & ->)%single_pow (j & Hj & ->)%single_pow.
  rewrite !has_flag_testbit, Z.lor_spec, Z.pow2_bits_eqb, pow_eqb by done. done.
Qed.

Lemma has_flag_clear a q k : single q -> single k ->
  has_flag (Z.land a (Z.lnot q)) k = has_flag a k && negb (q =? k).
Proof.
  intros (i & Hi & ->)%single_pow (j & Hj & ->)%single_pow.
  rewrite !has_flag_testbit, Z.land_spec, Z.lnot_spec, Z.pow2_bits_eqb, pow_eqb by done. done.
Qed.

Lemma has_flag_lnot a k : single k -> has_flag (Z.lnot a) k = negb (has_flag a k).
Proof.
  intros (j & Hj & ->)%single_pow. by rewrite !has_flag_testbit, Z.lnot_spec by done.
Qed.

(** Switching one flag. *)
Definition switch (on : bool) (q flags : Z) : Z :=
  if on then Z.lor flags q else Z.land flags (Z.lnot q).

Lemma has_flag_switch on a q k : single q -> single k ->
  has_flag (switch on q a) k = if q =? k then on else has_flag a k.
Proof.
  intros Hq Hk. unfold switch. destruct on; [rewrite has_flag_set by done|rewrite has_flag_clear by done];
    destruct (q =? k), (has_flag a k); done.
Qed.

Definition within_all (flags : Z) : Prop := Z.land flags (Z.lnot EVLIST_ALL) = 0.

Lemma within_switch on q flags : single q -> within_all flags -> within_all (switch on q flags).
Proof.
  unfold within_all, switch. intros Hq Hf. destruct on.
  - rewrite Z.land_lor_distr_l, Hf. destruct Hq as [-> |[-> |[-> | ->]]]; done.
  - rewrite <- Z.land_assoc, (Z.land_comm (Z.lnot q)), Z.land_assoc, Hf. done.
Qed.

(** * Sums over the events *)

Definition wsum : (event -> Z) -> events -> Z := msum.

Section Sums.
Context (f : event -> Z).
Implicit Types E : events.

Lemma wsum_empty : wsum f ∅ = 0.
Proof. apply msum_empty. Qed.

Lemma wsum_new E x o : E !! x = None -> wsum f (<[x := o]> E) = f o + wsum f E.
Proof. apply msum_new. Qed.

Lemma wsum_insert E x o o' : E !! x = Some o -> wsum f (<[x := o']> E) = wsum f E - f o + f o'.
Proof. apply msum_insert. Qed.

Lemma wsum_same E E' : (forall o i, f (with_idx o i) = f o) -> same_but_idx E E' -> wsum f E = wsum f E'.
Proof.
  intros Hf. revert E'. induction E as [|x o E Hx IH] using map_ind; intros E' HE.
  - assert (E' = ∅) as ->; [|done]. apply map_empty. intros y. specialize (HE y).
    rewrite lookup_empty in HE. by destruct (E' !! y).
  - destruct (same_lookup _ _ x o HE (lookup_insert_eq _ _ _)) as (o' & Ho' & Heq).
    rewrite <- (insert_delete_id E' x o' Ho'), !wsum_new by (done || apply lookup_delete_eq).
    assert (f o = f o') as -> by (rewrite <- (Hf o 0), <- (Hf o' 0); by f_equal).
    rewrite (IH (delete x E')); [done|]. intros y. specialize (HE y).
    destruct (decide (y = x)) as [->|Hne]; [by rewrite lookup_delete_eq, Hx|].
    by rewrite lookup_delete_ne, lookup_insert_ne in * by done.
Qed.

Lemma wsum_bounds c E : (forall o, 0 <= f o <= c) -> 0 <= wsum f E <= c * Z.of_nat (size E).
Proof.
  intros Hf. induction E as [|x o E Hx IH] using map_ind.
  - rewrite wsum_empty, map_size_empty. lia.
  - rewrite wsum_new, map_size_insert_None by done. specialize (Hf o). lia.
Qed.

Lemma wsum_pos E : (forall o, 0 <= f o) -> 0 < wsum f E -> exists x o, E !! x = Some o /\ 0 < f o.
Proof. intros Hf. apply msum_pos, Hf. Qed.
End Sums.

(** * The invariant *)

Abbreviation flag o k := (has_flag (ev_flags o) k).

Definition b2z (b : bool) : Z := if b then 1 else 0.

(** What an event adds to [event_count] and to [event_count_active]. *)
Definition weight (o : event) : Z :=
  if flag o EVLIST_INTERNAL then 0
  else b2z (flag o EVLIST_INSERTED) + b2z (flag o EVLIST_ACTIVE) + b2z (flag o EVLIST_TIMEOUT).

Definition active_weight (o : event) : Z := b2z (flag o EVLIST_ACTIVE).

(** The events with a pending time-out. *)
Definition timers (E : events) : gset Z := dom (filter (fun xo => flag (snd xo) EVLIST_TIMEOUT = true) E).

Definition flagged (E : events) (x k : Z) : Prop := exists o, E !! x = Some o /\ flag o k = true.

Lemma elem_of_timers E x : x ∈ timers E <-> flagged E x EVLIST_TIMEOUT.
Proof.
  unfold timers, flagged. rewrite elem_of_dom. split.
  - intros [o [Ho Hf]%map_lookup_filter_Some]. eauto.
  - intros (o & Ho & Hf). exists o. by apply map_lookup_filter_Some.
Qed.

Lemma flagged_same E E' x k : same_but_idx E E' -> flagged E x k <-> flagged E' x k.
Proof.
  intros HE. split; intros (o & Ho & Hk).
  - destruct (same_lookup _ _ _ _ HE Ho) as (o' & Ho' & Heq). exists o'. split; [done|].
    injection Heq as _ _ _ _ _ _ _ Hf. by rewrite <- Hf.
  - symmetry in HE. destruct (same_lookup _ _ _ _ HE Ho) as (o' & Ho' & Heq). exists o'. split; [done|].
    injection Heq as _ _ _ _ _ _ _ Hf. by rewrite <- Hf.
Qed.

Lemma timers_same E E' : same_but_idx E E' -> timers E = timers E'.
Proof. intros HE. apply set_eq. intros x. rewrite !elem_of_timers. by apply flagged_same. Qed.

Lemma flagged_insert E x o y k :
  flagged (<[x := o]> E) y k <-> (y = x /\ flag o k = true) \/ (y <> x /\ flagged E y k).
Proof.
  unfold flagged. destruct (decide (y = x)) as [->|Hne].
  - rewrite lookup_insert_eq. naive_solver.
  - rewrite lookup_insert_ne by done. naive_solver.
Qed.

Lemma flagged_lookup E x o k : E !! x = Some o -> flagged E x k <-> flag o k = true.
Proof. intros Ho. unfold flagged. rewrite Ho. split; [by intros (? & [= <-] & ?)|eauto]. Qed.

Lemma split_eq {X} (x : X) (A B : Prop) : A <-> (x = x /\ A) \/ (x <> x /\ B).
Proof. tauto. Qed.

Lemma split_ne {X} (x y : X) (A B : Prop) : y <> x -> B <-> (y = x /\ A) \/ (y <> x /\ B).
Proof. tauto. Qed.

(** The invariant of the base: the queues and the heap hold exactly the events
    with the corresponding flag, the counters count them, flags and priorities
    are in range, and no event is in the middle of several calls. *)
Record base_inv (w : eworld) : Prop := {
  bv_queues : 0 < blen (activequeues (w_base w));
  bv_size : Z.of_nat (size (w_mem w)) < 2 ^ 29;
  bv_heap : heap_ok (timeheap (w_base w)) (w_mem w) (timers (w_mem w));
  bv_inserted : NoDup (eventqueue (w_base w)) /\
    forall x, x ∈ eventqueue (w_base w) <-> flagged (w_mem w) x EVLIST_INSERTED;
  bv_active : forall i q, activequeues (w_base w) !! i = Some q -> NoDup q /\
    forall x, x ∈ q <-> exists o, w_mem w !! x = Some o /\ ev_pri o = Z.of_nat i /\ flag o EVLIST_ACTIVE = true;
  bv_count : event_count (w_base w) = wsum weight (w_mem w);
  bv_count_active : event_count_active (w_base w) = wsum active_weight (w_mem w);
  bv_event : forall x o, w_mem w !! x = Some o -> 0 <= ev_pri o < blen (activequeues (w_base w)) /\
    within_all (ev_flags o) /\ (ev_ncalls o = 0 \/ ev_ncalls o = 1 /\ ev_pncalls o = None)
}.

Lemma ordered_size p E n (S : gset Z) : ordered p E n S -> n = Z.of_nat (size S).
Proof.
  remember (Z.to_nat n) as k eqn:Hk. revert n S Hk. induction k as [|k IH]; intros n S Hk H;
    pose proof (or_bounds _ _ _ _ H) as Hb.
  - assert (S = ∅) as ->; [|rewrite size_empty; lia].
    apply set_eq. intros x. split; [|set_solver]. intros Hx.
    destruct (or_all _ _ _ _ H x Hx) as (i & Hi & _). lia.
  - destruct (or_slots _ _ _ _ H (n - 1)) as (x & o & Hx & _ & _ & HxS); [lia|].
    replace n with (n - 1 + 1) in H by lia.
    pose proof (ordered_shrink p E (n - 1) S x H ltac:(lia) Hx) as H'.
    apply IH in H'; [|lia]. rewrite size_difference, size_singleton in H' by set_solver.
    assert (size S <> 0%nat) by (rewrite size_empty_iff; set_solver). lia.
Qed.

Section Invariant.
Implicit Types w : eworld.

Lemma timers_bound w : base_inv w -> hn (timeheap (w_base w)) + 1 < 2 ^ 31.
Proof.
  intros H. rewrite (ordered_size _ _ _ _ (hk_ordered _ _ _ (bv_heap _ H))).
  pose proof (bv_size _ H) as Hs. rewrite <- (size_dom (D := gset Z)) in Hs.
  enough (size (timers (w_mem w)) <= size (dom (w_mem w)))%nat by lia.
  apply subseteq_size. apply dom_filter_subseteq.
Qed.

Lemma weight_bounds o : 0 <= weight o <= 3.
Proof. unfold weight, b2z. repeat case_match; lia. Qed.

Lemma active_weight_bounds o : 0 <= active_weight o <= 1.
Proof. unfold active_weight, b2z. case_match; lia. Qed.

Lemma counts_bounds w : base_inv w ->
  0 <= event_count (w_base w) < 2 ^ 31 - 2 ^ 29 /\ 0 <= event_count_active (w_base w) < 2 ^ 29.
Proof.
  intros H. rewrite (bv_count _ H), (bv_count_active _ H). pose proof (bv_size _ H).
  pose proof (wsum_bounds weight 3 (w_mem w) weight_bounds).
  pose proof (wsum_bounds active_weight 1 (w_mem w) active_weight_bounds). lia.
Qed.

Lemma weight_switch on q o : single q -> q <> EVLIST_INTERNAL -> flag o q = negb on ->
  weight (with_flags (switch on q (ev_flags o)) o)
  = weight o + (if flag o EVLIST_INTERNAL then 0 else if on then 1 else -1).
Proof.
  intros Hq Hi Hf. unfold weight. cbn [with_flags ev_flags].
  assert (single EVLIST_TIMEOUT) by (by left). assert (single EVLIST_INSERTED) by (right; by left).
  assert (single EVLIST_ACTIVE) by (do 2 right; by left). assert (single EVLIST_INTERNAL) by (by do 3 right).
  rewrite !has_flag_switch by done.
  replace (q =? EVLIST_INTERNAL) with false by (symmetry; by apply Z.eqb_neq).
  destruct (has_flag (ev_flags o) EVLIST_INTERNAL); [done|].
  destruct Hq as [-> |[-> |[-> | ->]]]; [..|done]; cbn; rewrite Hf; destruct on; cbn; lia.
Qed.

(** What an event of a memory is when only [x] was replaced. *)
Lemma replaced_lookup (E E' : events) x o1 y o' : same_but_idx (<[x := o1]> E) E' -> is_Some (E !! x) ->
  E' !! y = Some o' -> exists o0, E !! y = Some o0 /\ with_idx o' 0 = with_idx (if decide (y = x) then o1 else o0) 0.
Proof.
  intros HE [o Ho] Hy. symmetry in HE. destruct (same_lookup _ _ _ _ HE Hy) as (o2 & Ho2 & Heq).
  rewrite Heq. case_decide as Hd.
  - subst y. rewrite lookup_insert_eq in Ho2. injection Ho2 as <-. eauto.
  - rewrite lookup_insert_ne in Ho2 by done. eauto.
Qed.

Lemma replaced_active (E E' : events) x o o1 y i : same_but_idx (<[x := o1]> E) E' -> E !! x = Some o ->
  ev_pri o1 = ev_pri o ->
  (exists o', E' !! y = Some o' /\ ev_pri o' = i /\ flag o' EVLIST_ACTIVE = true) <->
  exists o0, E !! y = Some o0 /\ ev_pri o0 = i /\ flag (if decide (y = x) then o1 else o0) EVLIST_ACTIVE = true.
Proof.
  intros HE Ho Hpri. split.
  - intros (o' & Hy & Hp & Hfl). destruct (replaced_lookup E E' x o1 y o' HE ltac:(eauto) Hy) as (o0 & Hy0 & Heq).
    exists o0. split; [done|]. injection Heq as _ _ _ _ _ Hp' _ Hf'. rewrite <- Hf', <- Hp. split; [|done].
    rewrite Hp'. case_decide; [|done]. subst y. rewrite Ho in Hy0; injection Hy0 as <-. done.
  - intros (o0 & Hy & Hp & Hfl).
    assert (exists o', E' !! y = Some o') as [o' Hy'].
    { apply (same_lookup_is_Some _ _ _ HE). apply lookup_insert_is_Some'. right. eauto. }
    exists o'. split; [done|]. destruct (replaced_lookup E E' x o1 y o' HE ltac:(eauto) Hy') as (o2 & Hy2 & Heq).
    rewrite Hy in Hy2. injection Hy2 as <-. injection Heq as _ _ _ _ _ Hp' _ Hf'. rewrite Hf', Hp'. split; [|done].
    case_decide; [|done]. subst y. rewrite Ho in Hy; injection Hy as <-. congruence.
Qed.

(** Switching one flag of one event, with its queue. *)
Lemma base_inv_switch w w' x o on q :
  base_inv w -> w_mem w !! x = Some o -> single q -> q <> EVLIST_INTERNAL -> flag o q = negb on ->
  same_but_idx (<[x := with_flags (switch on q (ev_flags o)) o]> (w_mem w)) (w_mem w') ->
  event_count (w_base w') = event_count (w_base w)
    + (if flag o EVLIST_INTERNAL then 0 else if on then 1 else -1) ->
  event_count_active (w_base w') = event_count_active (w_base w)
    + (if q =? EVLIST_ACTIVE then if on then 1 else -1 else 0) ->
  heap_ok (timeheap (w_base w')) (w_mem w') (timers (w_mem w')) ->
  NoDup (eventqueue (w_base w')) ->
  (forall y, y ∈ eventqueue (w_base w') <->
    if decide (y = x) then (if q =? EVLIST_INSERTED then on = true else y ∈ eventqueue (w_base w))
    else y ∈ eventqueue (w_base w)) ->
  blen (activequeues (w_base w')) = blen (activequeues (w_base w)) ->
  (forall i q1, activequeues (w_base w') !! i = Some q1 -> exists q0, activequeues (w_base w) !! i = Some q0 /\
    NoDup q1 /\ forall y, y ∈ q1 <->
    if decide (y = x) then (if q =? EVLIST_ACTIVE then on = true /\ ev_pri o = Z.of_nat i else y ∈ q0)
    else y ∈ q0) ->
  base_inv w'.
Proof.
  intros H Ho Hq Hqi Hf HE Hc Hca Hh Hni Hi Hl Ha. set (o1 := with_flags _ o) in *.
  assert (Hw1 : forall k, single k -> flag o1 k = if q =? k then on else flag o k).
  { intros k Hk. subst o1. cbn. by apply has_flag_switch. }
  assert (Hev : forall y o', w_mem w' !! y = Some o' -> exists o0, w_mem w !! y = Some o0 /\
    with_idx o' 0 = with_idx (if decide (y = x) then o1 else o0) 0) by (intros; eapply replaced_lookup; eauto).
  split.
  - rewrite Hl. apply (bv_queues _ H).
  - replace (size (w_mem w')) with (size (w_mem w)); [apply (bv_size _ H)|].
    rewrite <- !(size_dom (D := gset Z)). f_equal. apply (set_eq (dom (w_mem w))). intros y.
    rewrite !elem_of_dom. split.
    + intros Hy. apply (same_lookup_is_Some _ _ _ HE). by apply lookup_insert_is_Some'; right.
    + intros [o' Hy]. destruct (Hev y o' Hy) as (o0 & -> & _). eauto.
  - exact Hh.
  - split; [done|]. intros y. rewrite Hi, <- (flagged_same _ _ _ _ HE), flagged_insert, Hw1 by (right; by left).
    pose proof (proj2 (bv_inserted _ H)) as Hin. case_decide as Hd; [subst y|rewrite Hin; by apply split_ne].
    destruct (q =? EVLIST_INSERTED); [apply split_eq|]. rewrite Hin, (flagged_lookup _ x o) by done. apply split_eq.
  - intros i q1 Hq1. destruct (Ha i q1 Hq1) as (q0 & Hq0 & Hn & Hin). split; [done|]. intros y.
    destruct (bv_active _ H i q0 Hq0) as [_ Hin0]. rewrite Hin. clear Hin.
    rewrite (replaced_active (w_mem w) (w_mem w') x o o1 y (Z.of_nat i) HE Ho eq_refl).
    case_decide as Hd; [subst y|by rewrite Hin0]. setoid_rewrite Hw1; [|do 2 right; by left].
    destruct (q =? EVLIST_ACTIVE).
    2:{ rewrite Hin0, Ho. split; intros (? & [= <-] & ? & ?); eauto. }
    rewrite Ho. split.
    + intros [-> ?]. eauto.
    + intros (? & [= <-] & ? & ?). done.
  - rewrite Hc, (bv_count _ H), <- (wsum_same weight _ _ ltac:(done) HE), (wsum_insert weight _ x o) by done.
    subst o1. rewrite weight_switch by done. lia.
  - rewrite Hca, (bv_count_active _ H), <- (wsum_same active_weight _ _ ltac:(done) HE).
    rewrite (wsum_insert active_weight _ x o) by done. unfold active_weight.
    rewrite Hw1 by (do 2 right; by left). destruct (Z.eqb_spec q EVLIST_ACTIVE) as [->|]; [|lia].
    rewrite Hf. destruct on; cbn; lia.
  - intros y o' Hy. destruct (Hev y o' Hy) as (o0 & Hy0 & Heq).
    destruct (bv_event _ H y o0 Hy0) as (Hp & Hw & Hn). rewrite Hl.
    injection Heq as _ _ Hnc Hpn _ Hp' _ Hf'. rewrite Hp', Hf', Hnc, Hpn.
    case_decide as Hd; [|done]. subst y. rewrite Ho in Hy0. injection Hy0 as <-.
    split; [done|]. split; [|done]. subst o1. cbn. by apply within_switch.
Qed.

(** * Frames *)

(** What no queue operation changes. *)
Record eframe w w' : Prop := {
  ef_calls : w_calls w' = w_calls w;
  ef_gotsig : w_gotsig w' = w_gotsig w;
  ef_monotonic : w_monotonic w' = w_monotonic w;
  ef_gotterm : event_gotterm (w_base w') = event_gotterm (w_base w);
  ef_break : event_break (w_base w') = event_break (w_base w);
  ef_tv : event_tv (w_base w') = event_tv (w_base w);
  ef_cache : tv_cache (w_base w') = tv_cache (w_base w);
  ef_queues : blen (activequeues (w_base w')) = blen (activequeues (w_base w))
}.

#[export] Instance eframe_refl : Reflexive eframe.
Proof. by split. Qed.

#[export] Instance eframe_trans : Transitive eframe.
Proof. intros w1 w2 w3 [] []. split; congruence. Qed.

(** Only event [x] changed, by [f], and the recorded heap slots. *)
Definition edited (f : event -> event) (x : Z) w w' : Prop :=
  same_but_idx (alter f x (w_mem w)) (w_mem w').

Definition idx_free (f : event -> event) : Prop := forall o i, f (with_idx o i) = with_idx (f o) i.

Lemma same_alter f x E E' : idx_free f -> same_but_idx E E' -> same_but_idx (alter f x E) (alter f x E').
Proof.
  intros Hf HE y. destruct (decide (y = x)) as [->|Hne]; [|by rewrite !lookup_alter_ne].
  rewrite !lookup_alter_eq. destruct (E !! x) as [o|] eqn:Hx.
  - destruct (same_lookup _ _ _ _ HE Hx) as (o' & -> & Heq). simpl. f_equal. unfold flip.
    by rewrite <- !Hf, Heq.
  - specialize (HE x). rewrite Hx in HE. by destruct (E' !! x).
Qed.

Lemma edited_id w w' x : same_but_idx (w_mem w) (w_mem w') -> edited id x w w'.
Proof.
  unfold edited. intros HE. replace (alter id x (w_mem w)) with (w_mem w); [done|].
  symmetry. by apply alter_id.
Qed.

Lemma edited_trans f g x w w1 w2 : idx_free g -> edited f x w w1 -> edited g x w1 w2 ->
  edited (fun o => g (f o)) x w w2.
Proof.
  unfold edited. intros Hg H1 H2. rewrite <- H2. apply (same_alter g x) in H1; [|done].
  rewrite <- H1. by rewrite alter_alter_eq.
Qed.

Lemma edited_lookup f x w w' o : edited f x w w' -> w_mem w !! x = Some o ->
  exists i, w_mem w' !! x = Some (with_idx (f o) i).
Proof.
  intros HE Hx. destruct (same_lookup _ _ x (f o) HE) as (o' & Ho' & Heq); [by rewrite lookup_alter_eq, Hx|].
  exists (min_heap_idx o'). rewrite Ho'. f_equal.
  change (with_idx (f o) (min_heap_idx o')) with (with_idx (with_idx (f o) 0) (min_heap_idx o')).
  rewrite Heq. by destruct o'.
Qed.

Lemma edited_lookup_ne f x w w' y o : edited f x w w' -> y <> x -> w_mem w !! y = Some o ->
  exists i, w_mem w' !! y = Some (with_idx o i).
Proof.
  intros HE Hne Hy. destruct (same_lookup _ _ y o HE) as (o' & Ho' & Heq); [by rewrite lookup_alter_ne|].
  exists (min_heap_idx o'). rewrite Ho'. f_equal.
  change (with_idx o (min_heap_idx o')) with (with_idx (with_idx o 0) (min_heap_idx o')).
  rewrite Heq. by destruct o'.
Qed.

Lemma heap_ok_edit s E S x o o' : heap_ok s E S -> E !! x = Some o ->
  min_heap_idx o' = min_heap_idx o -> ev_timeout o' = ev_timeout o -> heap_ok s (<[x := o']> E) S.
Proof.
  intros H Hx Hi Ht. assert (Htm : forall y, time (<[x := o']> E) y = time E y).
  { intros y. unfold time. destruct (decide (y = x)) as [->|].
    - rewrite lookup_insert_eq, Hx. by cbn; rewrite Ht.
    - by rewrite lookup_insert_ne. }
  split; [split|apply (hk_block _ _ _ H)|].
  - apply (or_bounds _ _ _ _ (hk_ordered _ _ _ H)).
  - intros i Hin. destruct (or_slots _ _ _ _ (hk_ordered _ _ _ H) i Hin) as (y & oy & Hy & Hoy & Hiy & HyS).
    destruct (decide (y = x)) as [->|Hne].
    + exists x, o'. rewrite lookup_insert_eq. simplify_eq. eauto.
    + exists y, oy. by rewrite lookup_insert_ne.
  - apply (or_all _ _ _ _ (hk_ordered _ _ _ H)).
  - intros i y z. rewrite !Htm. apply (or_order _ _ _ _ (hk_ordered _ _ _ H)).
  - intros y oy. destruct (decide (y = x)) as [->|Hne].
    + rewrite lookup_insert_eq. intros [= <-] Hn. rewrite Hi. by apply (hk_out _ _ _ H x o).
    + rewrite lookup_insert_ne by done. apply (hk_out _ _ _ H).
Qed.

Lemma timers_insert E x o : timers (<[x := o]> E)
  = if flag o EVLIST_TIMEOUT then {[x]} ∪ timers E else timers E ∖ {[x]}.
Proof.
  apply set_eq. intros y. rewrite elem_of_timers, flagged_insert.
  destruct (flag o EVLIST_TIMEOUT); rewrite ?elem_of_union, ?elem_of_difference, elem_of_singleton, elem_of_timers;
    destruct (decide (y = x)); naive_solver.
Qed.

(** * The queues *)

Definition qset (on : bool) (q : Z) (o : event) : event := with_flags (switch on q (ev_flags o)) o.

(** Event [x] was put on or taken off the queue [q]. *)
Record moved (on : bool) (q x pri : Z) w w' : Prop := {
  mv_inv : base_inv w';
  mv_frame : eframe w w';
  mv_edit : edited (qset on q) x w w';
  mv_inserted : eventqueue (w_base w') = if q =? EVLIST_INSERTED
    then (if on then eventqueue (w_base w) ++ [x] else filter (fun y => y <> x) (eventqueue (w_base w)))
    else eventqueue (w_base w);
  mv_active : activequeues (w_base w') = if q =? EVLIST_ACTIVE
    then alter (fun l => if on then l ++ [x] else filter (fun y => y <> x) l) (Z.to_nat pri) (activequeues (w_base w))
    else activequeues (w_base w);
  mv_spare : ha (timeheap (w_base w')) = ha (timeheap (w_base w)) /\
    hn (timeheap (w_base w')) = hn (timeheap (w_base w))
      + (if q =? EVLIST_TIMEOUT then if on then 1 else -1 else 0);
  mv_heap : q <> EVLIST_TIMEOUT -> timeheap (w_base w') = timeheap (w_base w)
}.

(** The first part of both operations. *)
Definition counted (on : bool) (q x : Z) (o : event) w : eworld :=
  set_mem (alter (with_flags (switch on q (ev_flags o))) x)
    (set_base (fun b => set_counts (event_count b + if flag o EVLIST_INTERNAL then 0 else if on then 1 else -1)
                          (event_count_active b) b) w).

Lemma counted_ok on q x o w : base_inv w -> w_mem w !! x = Some o ->
  (count_total o (if on then 1 else -1);;
   update_ev x (with_flags (switch on q (ev_flags o)))) w = Ok (tt, counted on q x o w).
Proof.
  intros H Ho. pose proof (counts_bounds w H) as [Hc _]. unfold count_total.
  rewrite has_flag_lnot by (by do 3 right). unfold counted.
  destruct (has_flag (ev_flags o) EVLIST_INTERNAL) eqn:Hi; cbn [negb]; cbv iota.
  - unfold mbind, em_bind, mret, em_ret, update_ev, load_ev, mbind, em_bind, emodify. rewrite Ho.
    destruct w as [[] ? ? ? ?]. unfold set_base, set_counts. cbn. by rewrite Z.add_0_r.
  - unfold mbind, em_bind, eget, elift, update_ev, load_ev, mbind, em_bind, emodify.
    rewrite chk_int_ok by (unfold INT_MIN, INT_MAX; destruct on; lia). cbn. by rewrite Ho.
Qed.

Lemma with_flags_edit on q x o w : w_mem w !! x = Some o ->
  w_mem (counted on q x o w) = <[x := qset on q o]> (w_mem w).
Proof. intros Ho. unfold counted. cbn. by rewrite (alter_insert _ x _ o). Qed.

Lemma counted_edited on q x o w w' : w_mem w !! x = Some o ->
  same_but_idx (w_mem (counted on q x o w)) (w_mem w') -> edited (qset on q) x w w'.
Proof.
  intros Ho HE. unfold edited. rewrite <- HE, with_flags_edit by done. by rewrite (alter_insert _ x _ o).
Qed.

(** The heap does not change when another flag than the time-out flag does. *)
Lemma counted_heap on q x o w : base_inv w -> w_mem w !! x = Some o -> single q -> q <> EVLIST_TIMEOUT ->
  heap_ok (timeheap (w_base w)) (w_mem (counted on q x o w)) (timers (w_mem (counted on q x o w))).
Proof.
  intros H Ho Hq Hne. rewrite with_flags_edit by done.
  replace (timers (<[x := qset on q o]> (w_mem w))) with (timers (w_mem w)).
  - by apply (heap_ok_edit _ _ _ x o); [apply (bv_heap _ H)| | |].
  - rewrite timers_insert. cbn. rewrite has_flag_switch by (done || by left).
    replace (q =? EVLIST_TIMEOUT) with false by (symmetry; by apply Z.eqb_neq).
    pose proof (elem_of_timers (w_mem w) x) as Hin. rewrite (flagged_lookup _ x o) in Hin by done.
    apply set_eq. intros y. destruct (has_flag (ev_flags o) EVLIST_TIMEOUT);
      destruct (decide (y = x)) as [->|]; set_solver.
Qed.

Lemma active_queue_ok w x o : base_inv w -> w_mem w !! x = Some o ->
  exists l, activequeues (w_base w) !! Z.to_nat (ev_pri o) = Some l /\ 0 <= ev_pri o /\
    active_queue (w_base w) (ev_pri o) = Ok l /\ NoDup l /\ (x ∈ l <-> flag o EVLIST_ACTIVE = true).
Proof.
  intros H Ho. destruct (bv_event _ H x o Ho) as [[Hp Hb] _]. unfold blen in Hb.
  destruct (lookup_lt_is_Some_2 (activequeues (w_base w)) (Z.to_nat (ev_pri o))) as [l Hl]; [lia|].
  exists l. split; [done|]. split; [done|]. split.
  - unfold active_queue. zdecide. by rewrite Hl.
  - destruct (bv_active _ H _ _ Hl) as [Hn Hin]. split; [done|]. rewrite Hin, Ho. split.
    + by intros (? & [= <-] & _ & ?).
    + intros ?. exists o. rewrite Z2Nat.id by done. done.
Qed.

Lemma em_bind_Ok {A B} (m : em A) (k : A -> em B) w a w1 : m w = Ok (a, w1) -> (m ≫= k) w = k a w1.
Proof. unfold mbind, em_bind. by intros ->. Qed.

Lemma em_assoc {A B C} (m : em A) (k : em B) (l : em C) w : (m;; k;; l) w = ((m;; k);; l) w.
Proof. unfold mbind, em_bind. by destruct (m w) as [[]|]. Qed.

Lemma eget_bind {A} (k : eworld -> em A) w : (eget ≫= k) w = k w w.
Proof. done. Qed.

Lemma load_ev_ok x o w : w_mem w !! x = Some o -> load_ev x w = Ok (o, w).
Proof. unfold load_ev. by intros ->. Qed.

Lemma elift_Ok {A B} (a : A) (k : A -> em B) w : (elift (Ok a) ≫= k) w = k a w.
Proof. done. Qed.

Lemma tailq_remove_ok x l : x ∈ l -> tailq_remove x l = Ok (filter (fun y => y <> x) l).
Proof. unfold tailq_remove. intros. by rewrite decide_True. Qed.

Lemma queue_single q : q = EVLIST_INSERTED \/ q = EVLIST_ACTIVE \/ q = EVLIST_TIMEOUT ->
  single q /\ q <> EVLIST_INTERNAL.
Proof. unfold single. intros [-> |[-> | ->]]; split; (done || auto). Qed.

(** The invariant after the last part of an operation on the list of inserted
    events. *)
Lemma moved_inserted w x o on eq' : base_inv w -> w_mem w !! x = Some o ->
  flag o EVLIST_INSERTED = negb on ->
  eq' = (if on then eventqueue (w_base w) ++ [x] else filter (fun y => y <> x) (eventqueue (w_base w))) ->
  moved on EVLIST_INSERTED x (ev_pri o) w (set_base (set_eventqueue eq') (counted on EVLIST_INSERTED x o w)).
Proof.
  intros H Ho Hf Heq. destruct (bv_inserted _ H) as [Hnd Hin].
  assert (x ∈ eventqueue (w_base w) <-> on = false) as Hx.
  { rewrite Hin, (flagged_lookup _ x o), Hf by done. by destruct on. }
  split; [|by split|by apply (counted_edited _ _ _ o)|done|done|cbn; lia|done].
  apply (base_inv_switch w _ x o on EVLIST_INSERTED); try done.
  - right. by left.
  - cbn [set_base w_mem]. by rewrite with_flags_edit.
  - cbn. lia.
  - exact (counted_heap on EVLIST_INSERTED x o w H Ho ltac:(right; by left) ltac:(done)).
  - cbn. subst eq'. destruct on.
    + apply NoDup_app. split; [done|]. split; [|apply NoDup_singleton].
      intros y Hy ->%list_elem_of_singleton. by apply Hx in Hy.
    + by apply NoDup_filter.
  - cbn. intros y. subst eq'. destruct on.
    + rewrite elem_of_app, list_elem_of_singleton. case_decide; [by split; [|right]|tauto].
    + rewrite list_elem_of_filter. case_decide; intuition congruence.
  - cbn. intros i l Hl. exists l. split; [done|]. destruct (bv_active _ H i l Hl) as [Hn Hl']. split; [done|].
    intros y. by case_decide.
Qed.

Lemma moved_active w x o on na : base_inv w -> w_mem w !! x = Some o -> flag o EVLIST_ACTIVE = negb on ->
  na = event_count_active (w_base w) + (if on then 1 else -1) ->
  forall l, activequeues (w_base w) !! Z.to_nat (ev_pri o) = Some l ->
  moved on EVLIST_ACTIVE x (ev_pri o) w
    (set_base (fun b => put_active (set_counts (event_count b) na b) (ev_pri o)
                          (if on then l ++ [x] else filter (fun y => y <> x) l))
       (counted on EVLIST_ACTIVE x o w)).
Proof.
  intros H Ho Hf Hna l Hl. destruct (active_queue_ok w x o H Ho) as (l' & Hl' & Hp & _ & Hnd & Hx).
  rewrite Hl in Hl'. injection Hl' as <-. rewrite Hf in Hx.
  assert (single EVLIST_ACTIVE) as Hs by (do 2 right; by left).
  split; [|split; try done; cbn; apply blen_insert|by apply (counted_edited _ _ _ o)|done| |cbn; lia|done].
  2:{ cbn. apply list_eq. intros i. destruct (decide (i = Z.to_nat (ev_pri o))) as [->|Hne].
      - rewrite list_lookup_insert_eq by (by eapply lookup_lt_Some). by rewrite list_lookup_alter_eq, Hl.
      - by rewrite list_lookup_insert_ne, list_lookup_alter_ne. }
  apply (base_inv_switch w _ x o on EVLIST_ACTIVE); try done.
  - cbn [set_base w_mem]. by rewrite with_flags_edit.
  - exact (counted_heap on EVLIST_ACTIVE x o w H Ho Hs ltac:(done)).
  - cbn. apply (bv_inserted _ H).
  - cbn. intros y. by case_decide.
  - cbn. apply blen_insert.
  - cbn. intros i q1 Hq1. destruct (decide (i = Z.to_nat (ev_pri o))) as [->|Hne].
    + rewrite list_lookup_insert_eq in Hq1 by (by eapply lookup_lt_Some). injection Hq1 as <-.
      exists l. split; [done|]. split.
      * destruct on; [|by apply NoDup_filter]. apply NoDup_app. split; [done|]. split; [|apply NoDup_singleton].
        intros y Hy ->%list_elem_of_singleton. by apply Hx in Hy.
      * intros y. destruct on.
        -- rewrite elem_of_app, list_elem_of_singleton. case_decide; [|tauto].
           split; [|by right]. intros _. rewrite Z2Nat.id by done. done.
        -- rewrite list_elem_of_filter. case_decide; intuition congruence.
    + rewrite list_lookup_insert_ne in Hq1 by done. exists q1. split; [done|].
      destruct (bv_active _ H i q1 Hq1) as [Hn Hin]. split; [done|]. intros y. case_decide; [|done]. subst y.
      rewrite Hin, Ho. split.
      * intros (? & [= <-] & Hpi & _). lia.
      * intros [_ Hpi]. lia.
Qed.

Lemma moved_timeout w x o on h E' : base_inv w -> w_mem w !! x = Some o -> flag o EVLIST_TIMEOUT = negb on ->
  heap_ok h E' (if on then {[x]} ∪ timers (w_mem w) else timers (w_mem w) ∖ {[x]}) ->
  same_but_idx (w_mem (counted on EVLIST_TIMEOUT x o w)) E' ->
  ha h = ha (timeheap (w_base w)) ->
  hn h = hn (timeheap (w_base w)) + (if on then 1 else -1) ->
  moved on EVLIST_TIMEOUT x (ev_pri o) w
    (set_mem (fun _ => E') (set_base (set_timeheap h) (counted on EVLIST_TIMEOUT x o w))).
Proof.
  intros H Ho Hf Hh HE Ha Hn. assert (single EVLIST_TIMEOUT) as Hs by (by left).
  split; [|by split|by apply (counted_edited _ _ _ o)|done|done|done|done].
  apply (base_inv_switch w _ x o on EVLIST_TIMEOUT); try done.
  - rewrite with_flags_edit in HE by done. exact HE.
  - cbn. lia.
  - cbn [set_mem w_mem w_base set_base set_timeheap timeheap].
    replace (timers E') with (if on then {[x]} ∪ timers (w_mem w) else timers (w_mem w) ∖ {[x]}); [done|].
    rewrite <- (timers_same _ _ HE), with_flags_edit, timers_insert by done. cbn [qset with_flags ev_flags].
    by rewrite has_flag_switch, Z.eqb_refl by done.
  - apply (bv_inserted _ H).
  - cbn. intros y. by case_decide.
  - cbn. intros i l Hl. exists l. split; [done|]. destruct (bv_active _ H i l Hl) as [Hd Hl']. split; [done|].
    intros y. by case_decide.
Qed.

Lemma event_queue_remove_ok w x o q : base_inv w -> w_mem w !! x = Some o ->
  q = EVLIST_INSERTED \/ q = EVLIST_ACTIVE \/ q = EVLIST_TIMEOUT -> flag o q = true ->
  exists w', event_queue_remove x q w = Ok (tt, w') /\ moved false q x (ev_pri o) w w'.
Proof.
  intros H Ho Hq Hf. unfold event_queue_remove.
  rewrite (em_bind_Ok _ _ _ _ _ (load_ev_ok x o w Ho)), Hf. cbn [negb]. cbv iota.
  rewrite em_assoc, (em_bind_Ok _ _ _ _ _ (counted_ok false q x o w H Ho)), eget_bind. cbv zeta.
  destruct Hq as [-> |[-> | ->]].
  - change (EVLIST_INSERTED =? EVLIST_INSERTED) with true. cbv iota.
    rewrite tailq_remove_ok, elift_Ok.
    2:{ apply (bv_inserted _ H). exists o. done. }
    eexists. split; [reflexivity|]. by apply moved_inserted.
  - change (EVLIST_ACTIVE =? EVLIST_INSERTED) with false. change (EVLIST_ACTIVE =? EVLIST_ACTIVE) with true.
    cbv iota. pose proof (counts_bounds w H) as [_ Hc].
    destruct (active_queue_ok w x o H Ho) as (l & Hl & Hp & Hal & Hnd & Hin).
    change (event_count_active (w_base (counted false EVLIST_ACTIVE x o w))) with (event_count_active (w_base w)).
    rewrite chk_int_ok, elift_Ok by (unfold INT_MIN, INT_MAX; lia).
    change (active_queue (w_base (counted false EVLIST_ACTIVE x o w)) (ev_pri o))
      with (active_queue (w_base w) (ev_pri o)).
    rewrite Hal, elift_Ok, tailq_remove_ok, elift_Ok by (by apply Hin).
    eexists. split; [reflexivity|]. by apply (moved_active w x o false); [..|apply Hl].
  - change (EVLIST_TIMEOUT =? EVLIST_INSERTED) with false. change (EVLIST_TIMEOUT =? EVLIST_ACTIVE) with false.
    change (EVLIST_TIMEOUT =? EVLIST_TIMEOUT) with true. cbv iota.
    change (timeheap (w_base (counted false EVLIST_TIMEOUT x o w))) with (timeheap (w_base w)).
    assert (Hx : x ∈ timers (w_mem w)) by (apply elem_of_timers; by exists o).
    pose proof (bv_heap _ H) as Hh. apply (heap_ok_edit _ _ _ x o (qset false EVLIST_TIMEOUT o)) in Hh; [|done..].
    rewrite <- with_flags_edit in Hh by done.
    destruct (min_heap_erase_ok _ _ _ x Hh Hx) as (h & E' & -> & Hok & [Hs _] & Hn & Ha).
    rewrite elift_Ok. cbv beta iota. eexists. split; [reflexivity|]. by apply moved_timeout.
Qed.

Lemma event_queue_insert_ok alloc w x o q : base_inv w -> w_mem w !! x = Some o ->
  q = EVLIST_INSERTED \/ q = EVLIST_ACTIVE \/ q = EVLIST_TIMEOUT -> flag o q = false ->
  (q = EVLIST_TIMEOUT -> hn (timeheap (w_base w)) + 1 <= ha (timeheap (w_base w))) ->
  exists w', event_queue_insert alloc x q w = Ok (tt, w') /\ moved true q x (ev_pri o) w w'.
Proof.
  intros H Ho Hq Hf Hsp. unfold event_queue_insert.
  rewrite (em_bind_Ok _ _ _ _ _ (load_ev_ok x o w Ho)), Hf. cbv iota.
  rewrite em_assoc, (em_bind_Ok _ _ _ _ _ (counted_ok true q x o w H Ho)), eget_bind. cbv zeta.
  destruct Hq as [-> |[-> | ->]].
  - change (EVLIST_INSERTED =? EVLIST_INSERTED) with true. cbv iota.
    eexists. split; [reflexivity|]. by apply moved_inserted.
  - change (EVLIST_ACTIVE =? EVLIST_INSERTED) with false. change (EVLIST_ACTIVE =? EVLIST_ACTIVE) with true.
    cbv iota. pose proof (counts_bounds w H) as [_ Hc].
    destruct (active_queue_ok w x o H Ho) as (l & Hl & Hp & Hal & Hnd & Hin).
    change (event_count_active (w_base (counted true EVLIST_ACTIVE x o w))) with (event_count_active (w_base w)).
    rewrite chk_int_ok, elift_Ok by (unfold INT_MIN, INT_MAX; lia).
    change (active_queue (w_base (counted true EVLIST_ACTIVE x o w)) (ev_pri o))
      with (active_queue (w_base w) (ev_pri o)).
    rewrite Hal, elift_Ok.
    eexists. split; [reflexivity|]. by apply (moved_active w x o true); [..|apply Hl].
  - change (EVLIST_TIMEOUT =? EVLIST_INSERTED) with false. change (EVLIST_TIMEOUT =? EVLIST_ACTIVE) with false.
    change (EVLIST_TIMEOUT =? EVLIST_TIMEOUT) with true. cbv iota.
    change (timeheap (w_base (counted true EVLIST_TIMEOUT x o w))) with (timeheap (w_base w)).
    assert (Hx : x ∉ timers (w_mem w)) by (rewrite elem_of_timers, (flagged_lookup _ x o), Hf by done; done).
    pose proof (bv_heap _ H) as Hh. apply (heap_ok_edit _ _ _ x o (qset true EVLIST_TIMEOUT o)) in Hh; [|done..].
    rewrite <- with_flags_edit in Hh by done.
    destruct (min_heap_push_spare alloc _ _ _ x (qset true EVLIST_TIMEOUT o) Hh)
      as (h & E' & -> & Hok & [Hs _] & Hn & Ha).
    + rewrite with_flags_edit by done. apply lookup_insert_eq.
    + done.
    + by apply Hsp.
    + by apply timers_bound.
    + rewrite elift_Ok. cbv beta iota. eexists. split; [reflexivity|]. by apply moved_timeout.
Qed.

(** * Assignments to members *)

(** Changing members that no queue depends on. *)
Lemma base_inv_edit w x o f : base_inv w -> w_mem w !! x = Some o ->
  ev_flags (f o) = ev_flags o -> min_heap_idx (f o) = min_heap_idx o ->
  (flag o EVLIST_ACTIVE = true -> ev_pri (f o) = ev_pri o) ->
  (flag o EVLIST_TIMEOUT = true -> ev_timeout (f o) = ev_timeout o) ->
  0 <= ev_pri (f o) < blen (activequeues (w_base w)) ->
  (ev_ncalls (f o) = 0 \/ ev_ncalls (f o) = 1 /\ ev_pncalls (f o) = None) ->
  base_inv (set_mem (alter f x) w).
Proof.
  intros H Ho Hfl Hi Hp Ht Hpr Hn.
  assert (Hm : w_mem (set_mem (alter f x) w) = <[x := f o]> (w_mem w)) by (cbn; by apply alter_insert).
  assert (Hfg : forall y k, flagged (<[x := f o]> (w_mem w)) y k <-> flagged (w_mem w) y k).
  { intros y k. rewrite flagged_insert, Hfl. destruct (decide (y = x)) as [->|Hne].
    - rewrite (flagged_lookup _ x o) by done. symmetry. apply split_eq.
    - symmetry. by apply split_ne. }
  assert (Hts : timers (<[x := f o]> (w_mem w)) = timers (w_mem w)).
  { apply set_eq. intros y. by rewrite !elem_of_timers. }
  split; rewrite ?Hm; cbn [set_mem w_base].
  - apply (bv_queues _ H).
  - rewrite map_size_insert_Some by eauto. apply (bv_size _ H).
  - rewrite Hts. destruct (has_flag (ev_flags o) EVLIST_TIMEOUT) eqn:Htf.
    + apply (heap_ok_edit _ _ _ x o); [apply (bv_heap _ H)|done|done|by apply Ht].
    + assert (x ∉ timers (w_mem w)) by (rewrite elem_of_timers, (flagged_lookup _ x o), Htf by done; done).
      pose proof (heap_ok_timeout _ _ _ x o (ev_timeout (f o)) (bv_heap _ H) Ho ltac:(done)) as Hh.
      apply (heap_ok_edit _ _ _ x (with_timeout o (ev_timeout (f o))) (f o)) in Hh;
        [|apply lookup_insert_eq|done|done]. by rewrite insert_insert_eq in Hh.
  - destruct (bv_inserted _ H) as [Hd Hin]. split; [done|]. intros y. by rewrite Hin, Hfg.
  - intros i q Hq. destruct (bv_active _ H i q Hq) as [Hd Hin]. split; [done|]. intros y. rewrite Hin.
    destruct (decide (y = x)) as [->|Hne]; [|by rewrite lookup_insert_ne].
    rewrite lookup_insert_eq, Ho. split.
    + intros (? & [= <-] & Hpi & Ha). exists (f o). by rewrite Hfl, Hp.
    + intros (? & [= <-] & Hpi & Ha). rewrite Hfl in Ha. exists o. by rewrite <- Hp.
  - rewrite (wsum_insert weight _ x o), (bv_count _ H) by done. unfold weight. rewrite Hfl. lia.
  - rewrite (wsum_insert active_weight _ x o), (bv_count_active _ H) by done.
    unfold active_weight. rewrite Hfl. lia.
  - intros y oy. destruct (decide (y = x)) as [->|Hne].
    + rewrite lookup_insert_eq. intros [= <-]. split; [done|]. rewrite Hfl. by destruct (bv_event _ H x o Ho) as (_ & ? & _).
    + rewrite lookup_insert_ne by done. apply (bv_event _ H).
Qed.

Lemma update_ev_ok x f w o : w_mem w !! x = Some o -> update_ev x f w = Ok (tt, set_mem (alter f x) w).
Proof. intros Ho. unfold update_ev. by rewrite (em_bind_Ok _ _ _ _ _ (load_ev_ok x o w Ho)). Qed.

Lemma switch_same on q f : single q -> has_flag f q = on -> switch on q f = f.
Proof.
  intros (i & Hi & ->)%single_pow Hf. rewrite has_flag_testbit in Hf by done. unfold switch.
  apply Z.bits_inj'. intros j Hj. destruct on.
  - rewrite Z.lor_spec, Z.pow2_bits_eqb by done. destruct (Z.eqb_spec i j) as [->|]; [by rewrite Hf|].
    by rewrite orb_false_r.
  - rewrite Z.land_spec, Z.lnot_spec, Z.pow2_bits_eqb by done.
    destruct (Z.eqb_spec i j) as [->|]; [by rewrite Hf|]. by rewrite andb_true_r.
Qed.

Lemma qset_same on q o : single q -> flag o q = on -> qset on q o = o.
Proof. intros Hq Hf. unfold qset. rewrite switch_same by done. by destruct o. Qed.

Lemma qset_idx_free on q : idx_free (qset on q).
Proof. by intros o i. Qed.

Lemma filter_not_in (x : Z) (l : list Z) : x ∉ l -> filter (fun y => y <> x) l = l.
Proof.
  induction l as [|y l IH]; intros Hx; [done|]. rewrite not_elem_of_cons in Hx. destruct Hx as [Hy Hl].
  rewrite filter_cons_True by congruence. by rewrite IH.
Qed.

(** Event [x] is off the queue [q], whether it was on it or not. *)
Record taken_off (q x pri : Z) w w' : Prop := {
  to_inv : base_inv w';
  to_frame : eframe w w';
  to_edit : edited (qset false q) x w w';
  to_inserted : eventqueue (w_base w') = if q =? EVLIST_INSERTED
    then filter (fun y => y <> x) (eventqueue (w_base w)) else eventqueue (w_base w);
  to_active : activequeues (w_base w') = if q =? EVLIST_ACTIVE
    then alter (filter (fun y => y <> x)) (Z.to_nat pri) (activequeues (w_base w)) else activequeues (w_base w);
  to_spare : ha (timeheap (w_base w')) = ha (timeheap (w_base w)) /\
    hn (timeheap (w_base w')) <= hn (timeheap (w_base w))
}.

Lemma take_off w x o q : base_inv w -> w_mem w !! x = Some o ->
  q = EVLIST_INSERTED \/ q = EVLIST_ACTIVE \/ q = EVLIST_TIMEOUT ->
  exists w', (if flag o q then event_queue_remove x q else mret tt) w = Ok (tt, w') /\
    taken_off q x (ev_pri o) w w'.
Proof.
  intros H Ho Hq. destruct (has_flag (ev_flags o) q) eqn:Hf.
  - destruct (event_queue_remove_ok w x o q H Ho Hq Hf) as (w' & Hr & [Hi Hfr He Hin Ha [Hs Hn] _]).
    exists w'. split; [done|]. split; try done. split; [done|]. rewrite Hn. case_match; lia.
  - exists w. split; [done|]. destruct (queue_single q Hq) as [Hs _]. split; try done.
    + unfold edited. rewrite alter_id; [done|]. intros o' Ho'. rewrite Ho in Ho'. injection Ho' as <-.
      by apply qset_same.
    + destruct (Z.eqb_spec q EVLIST_INSERTED) as [->|]; [|done]. rewrite filter_not_in; [done|].
      rewrite (proj2 (bv_inserted _ H)), (flagged_lookup _ x o), Hf by done. done.
    + destruct (Z.eqb_spec q EVLIST_ACTIVE) as [->|]; [|done].
      destruct (active_queue_ok w x o H Ho) as (l & Hl & _ & _ & _ & Hin).
      apply list_eq. intros j. destruct (decide (j = Z.to_nat (ev_pri o))) as [->|Hne].
      * rewrite list_lookup_alter_eq, Hl. cbn. rewrite filter_not_in; [done|]. rewrite Hin, Hf. done.
      * by rewrite list_lookup_alter_ne.
Qed.

(** * The operations on events *)

Definition cleared (o : event) : event :=
  qset false EVLIST_INSERTED (qset false EVLIST_ACTIVE (qset false EVLIST_TIMEOUT o)).

Lemma cleared_flags o k : k = EVLIST_INSERTED \/ k = EVLIST_ACTIVE \/ k = EVLIST_TIMEOUT ->
  flag (cleared o) k = false.
Proof.
  intros Hk. unfold cleared, qset. cbn [with_flags ev_flags]. destruct Hk as [-> |[-> | ->]];
    rewrite !has_flag_switch by (unfold single; auto); done.
Qed.

(** Event [x] is on no queue; nothing else changed. *)
Record deleted (x pri : Z) w w' : Prop := {
  dl_inv : base_inv w';
  dl_frame : eframe w w';
  dl_edit : edited cleared x w w';
  dl_inserted : eventqueue (w_base w') = filter (fun y => y <> x) (eventqueue (w_base w));
  dl_active : activequeues (w_base w')
    = alter (filter (fun y => y <> x)) (Z.to_nat pri) (activequeues (w_base w));
  dl_spare : ha (timeheap (w_base w')) = ha (timeheap (w_base w)) /\
    hn (timeheap (w_base w')) <= hn (timeheap (w_base w))
}.

Lemma assert_flags_ok w x o : base_inv w -> w_mem w !! x = Some o -> assert_flags o w = Ok (tt, w).
Proof.
  intros H Ho. destruct (bv_event _ H x o Ho) as (_ & Hw & _). unfold assert_flags.
  by rewrite Hw.
Qed.

(** No event of a sound base is inside several calls, so nothing is aborted. *)
Lemma abort_calls_ok w x o : base_inv w -> w_mem w !! x = Some o -> abort_calls o w = Ok (tt, w).
Proof.
  intros H Ho. destruct (bv_event _ H x o Ho) as (_ & _ & [Hn|[_ Hn]]); unfold abort_calls; rewrite Hn.
  - by destruct (ev_pncalls o).
  - done.
Qed.

Lemma event_del_ok a w x o : base_inv w -> w_mem w !! x = Some o ->
  exists w', event_del a x w = Ok (if flag o EVLIST_INSERTED then an_del a x else 0, w') /\
    deleted x (ev_pri o) w w'.
Proof.
  intros H Ho. unfold event_del.
  rewrite (em_bind_Ok _ _ _ _ _ (load_ev_ok x o w Ho)).
  rewrite (em_bind_Ok _ _ _ _ _ (assert_flags_ok w x o H Ho)), (em_bind_Ok _ _ _ _ _ (abort_calls_ok w x o H Ho)).
  destruct (take_off w x o EVLIST_TIMEOUT H Ho) as (w1 & Hr1 & [H1 F1 E1 I1 A1 S1]); [auto|].
  rewrite (em_bind_Ok _ _ _ _ _ Hr1). destruct (edited_lookup _ _ _ _ o E1 Ho) as [i1 Ho1].
  rewrite (em_bind_Ok _ _ _ _ _ (load_ev_ok x _ w1 Ho1)).
  destruct (take_off w1 x _ EVLIST_ACTIVE H1 Ho1) as (w2 & Hr2 & [H2 F2 E2 I2 A2 S2]); [auto|].
  rewrite (em_bind_Ok _ _ _ _ _ Hr2). destruct (edited_lookup _ _ _ _ _ E2 Ho1) as [i2 Ho2].
  rewrite (em_bind_Ok _ _ _ _ _ (load_ev_ok x _ w2 Ho2)).
  destruct (take_off w2 x _ EVLIST_INSERTED H2 Ho2) as (w3 & Hr3 & [H3 F3 E3 I3 A3 S3]); [auto|].
  set (o2 := with_idx _ i2) in *.
  assert (flag o2 EVLIST_INSERTED = flag o EVLIST_INSERTED) as Hfl.
  { subst o2. unfold qset. cbn [with_idx with_flags ev_flags].
    rewrite !has_flag_switch by (unfold single; auto). done. }
  exists w3. split.
  - rewrite <- Hfl. destruct (has_flag (ev_flags o2) EVLIST_INSERTED).
    + by rewrite (em_bind_Ok _ _ _ _ _ Hr3).
    + cbn in Hr3. injection Hr3 as <-. done.
  - split; [done|by transitivity w2; [transitivity w1|]| | | |].
    + change cleared with (fun o => qset false EVLIST_INSERTED
        ((fun o => qset false EVLIST_ACTIVE (qset false EVLIST_TIMEOUT o)) o)).
      eapply edited_trans; [apply qset_idx_free| |exact E3].
      eapply edited_trans; [apply qset_idx_free|exact E1|exact E2].
    + rewrite I3, I2, I1. done.
    + rewrite A3, A2, A1. done.
    + destruct S1, S2, S3. split; [congruence|lia].
Qed.

(** Putting an event on the active queues. *)
Definition activated (res : Z) (o : event) : event :=
  qset true EVLIST_ACTIVE (with_calls 1 None (with_res res o)).

Lemma with_calls_res_free n p r : idx_free (fun o => with_calls n p (with_res r o)).
Proof. by intros o i. Qed.

Lemma set_mem_edited f x w : edited f x w (set_mem (alter f x) w).
Proof. unfold edited. done. Qed.

Lemma set_mem_frame f w : eframe w (set_mem f w).
Proof. by split. Qed.

Lemma event_active_new w x o res : base_inv w -> w_mem w !! x = Some o -> flag o EVLIST_ACTIVE = false ->
  exists w', event_active x res 1 w = Ok (tt, w') /\ base_inv w' /\ eframe w w' /\
    edited (activated res) x w w' /\ eventqueue (w_base w') = eventqueue (w_base w) /\
    activequeues (w_base w') = alter (fun l => l ++ [x]) (Z.to_nat (ev_pri o)) (activequeues (w_base w)) /\
    timeheap (w_base w') = timeheap (w_base w).
Proof.
  intros H Ho Hf. unfold event_active. rewrite (em_bind_Ok _ _ _ _ _ (load_ev_ok x o w Ho)), Hf. cbv iota.
  rewrite (em_bind_Ok _ _ _ _ _ (update_ev_ok x _ w o Ho)).
  set (f := fun o => with_calls 1 None (with_res res o)).
  destruct (bv_event _ H x o Ho) as [Hp _].
  assert (base_inv (set_mem (alter f x) w)) as H1 by (apply (base_inv_edit w x o); try done; by right).
  assert (w_mem (set_mem (alter f x) w) !! x = Some (f o)) as Ho1 by (cbn; by rewrite lookup_alter_eq, Ho).
  destruct (event_queue_insert_ok (fun _ => false) (set_mem (alter f x) w) x (f o) EVLIST_ACTIVE H1 Ho1)
    as (w' & Hr & M); [auto|done|done|].
  exists w'. split; [done|]. destruct M as [Hi Hfr He Hin Ha _ Hh]. split; [done|].
  split; [by transitivity (set_mem (alter f x) w)|]. split; [|by rewrite Hh].
  change (activated res) with (fun o => qset true EVLIST_ACTIVE (f o)).
  eapply edited_trans; [apply qset_idx_free|apply set_mem_edited|exact He].
Qed.

Lemma event_active_again w x o res : base_inv w -> w_mem w !! x = Some o -> flag o EVLIST_ACTIVE = true ->
  exists w', event_active x res 1 w = Ok (tt, w') /\ base_inv w' /\ eframe w w' /\
    edited (fun o => with_res (Z.lor (ev_res o) res) o) x w w' /\ w_base w' = w_base w.
Proof.
  intros H Ho Hf. unfold event_active. rewrite (em_bind_Ok _ _ _ _ _ (load_ev_ok x o w Ho)), Hf. cbv iota.
  rewrite (update_ev_ok x _ w o Ho). eexists. split; [done|].
  destruct (bv_event _ H x o Ho) as (Hp & _ & Hn).
  split; [by apply (base_inv_edit w x o)|]. split; [apply set_mem_frame|]. split; [|done].
  unfold edited. cbn. rewrite !(alter_insert _ x _ o) by done. done.
Qed.

Lemma has_flag_or f a b : has_flag f (Z.lor a b) = has_flag f a || has_flag f b.
Proof.
  unfold has_flag. rewrite Z.land_lor_distr_r.
  destruct (Z.eqb_spec (Z.land f a) 0) as [Ha|Ha], (Z.eqb_spec (Z.land f b) 0) as [Hb|Hb];
    (destruct (Z.eqb_spec (Z.lor (Z.land f a) (Z.land f b)) 0) as [Hc|Hc];
      [apply Z.lor_eq_0_iff in Hc|]); cbn; try tauto.
  by rewrite Ha, Hb in Hc.
Qed.

Lemma gettime_frame a w w' : eframe w w' -> gettime a (w_base w') = gettime a (w_base w).
Proof. intros [_ _ _ _ _ _ Hc _]. unfold gettime. by rewrite Hc. Qed.

Lemma gettime_now_ok {B} a w now (k : timeval -> em B) : gettime (an_clock a) (w_base w) = Some now ->
  (gettime_now a ≫= k) w = k now w.
Proof. intros Hg. unfold gettime_now, mbind, em_bind, eget, elift. by rewrite Hg. Qed.

Lemma heap_bound w : base_inv w -> hn (timeheap (w_base w)) <= ha (timeheap (w_base w)).
Proof.
  intros H. pose proof (or_bounds _ _ _ _ (hk_ordered _ _ _ (bv_heap _ H))).
  pose proof (hk_block _ _ _ (bv_heap _ H)). lia.
Qed.

(** An expired event that is scheduled again is no longer active. *)
Definition unexpire (o : event) : event :=
  if flag o EVLIST_ACTIVE && has_flag (ev_res o) EV_TIMEOUT then qset false EVLIST_ACTIVE o else o.

Definition rescheduled (due : timeval) (o : event) : event :=
  qset true EVLIST_TIMEOUT (with_timeout (unexpire (qset false EVLIST_TIMEOUT o)) due).

Lemma unexpire_idx_free : idx_free unexpire.
Proof. intros o i. unfold unexpire. cbn [with_idx ev_flags ev_res]. by destruct (_ && _). Qed.

Lemma with_timeout_idx_free due : idx_free (flip with_timeout due).
Proof. by intros o i. Qed.

Lemma unexpire_ok w x o : base_inv w -> w_mem w !! x = Some o ->
  exists w', (if flag o EVLIST_ACTIVE && has_flag (ev_res o) EV_TIMEOUT
              then abort_calls o;; event_queue_remove x EVLIST_ACTIVE else mret tt) w = Ok (tt, w') /\
    base_inv w' /\ eframe w w' /\ edited unexpire x w w' /\ timeheap (w_base w') = timeheap (w_base w).
Proof.
  intros H Ho. destruct (flag o EVLIST_ACTIVE && has_flag (ev_res o) EV_TIMEOUT) eqn:Hc.
  - rewrite (em_bind_Ok _ _ _ _ _ (abort_calls_ok w x o H Ho)).
    pose proof Hc as [Hf _]%andb_true_iff.
    destruct (event_queue_remove_ok w x o EVLIST_ACTIVE H Ho ltac:(auto) Hf) as (w' & Hr & [Hi Hfr He _ _ _ Hh]).
    exists w'. split; [done|]. split; [done|]. split; [done|]. split; [|by apply Hh].
    unfold edited in *. rewrite (alter_insert _ x _ o) in He by done.
    rewrite (alter_insert _ x _ o) by done. unfold unexpire. by rewrite Hc.
  - exists w. split; [done|]. split; [done|]. split; [done|]. split; [|done].
    unfold edited. rewrite alter_id; [done|]. intros o'. rewrite Ho. intros [= <-]. unfold unexpire. by rewrite Hc.
Qed.

Lemma add_timeout_ok a w x o tv now due : base_inv w -> w_mem w !! x = Some o ->
  gettime (an_clock a) (w_base w) = Some now -> evutil_timeradd now tv = Ok due ->
  (flag o EVLIST_TIMEOUT = false -> hn (timeheap (w_base w)) + 1 <= ha (timeheap (w_base w))) ->
  exists w', add_timeout a x tv w = Ok (tt, w') /\ base_inv w' /\ eframe w w' /\ edited (rescheduled due) x w w'.
Proof.
  intros H Ho Hg Hd Hsp. unfold add_timeout.
  rewrite (em_bind_Ok _ _ _ _ _ (load_ev_ok x o w Ho)).
  assert (exists w1, (if flag o EVLIST_TIMEOUT then event_queue_remove x EVLIST_TIMEOUT else mret tt) w
      = Ok (tt, w1) /\ base_inv w1 /\ eframe w w1 /\ edited (qset false EVLIST_TIMEOUT) x w w1 /\
      hn (timeheap (w_base w1)) + 1 <= ha (timeheap (w_base w1))) as (w1 & Hr1 & H1 & F1 & E1 & S1).
  { destruct (has_flag (ev_flags o) EVLIST_TIMEOUT) eqn:Hf.
    - destruct (event_queue_remove_ok w x o EVLIST_TIMEOUT H Ho ltac:(auto) Hf) as (w1 & Hr & [? ? ? _ _ [Ha Hn] _]).
      exists w1. repeat (split; [done|]). cbn in Hn. pose proof (heap_bound w H). lia.
    - destruct (take_off w x o EVLIST_TIMEOUT H Ho) as (w1 & Hr & [? ? ? _ _ [Ha Hn]]); [auto|].
      rewrite Hf in Hr. exists w1. repeat (split; [done|]). specialize (Hsp eq_refl). lia. }
  rewrite (em_bind_Ok _ _ _ _ _ Hr1). destruct (edited_lookup _ _ _ _ o E1 Ho) as [i1 Ho1].
  rewrite (em_bind_Ok _ _ _ _ _ (load_ev_ok x _ w1 Ho1)).
  destruct (unexpire_ok w1 x _ H1 Ho1) as (w2 & Hr2 & H2 & F2 & E2 & S2).
  rewrite (em_bind_Ok _ _ _ _ _ Hr2). destruct (edited_lookup _ _ _ _ _ E2 Ho1) as [i2 Ho2].
  rewrite (gettime_now_ok a w2 now) by (by rewrite (gettime_frame _ w1), (gettime_frame _ w)).
  rewrite Hd, elift_Ok, (em_bind_Ok _ _ _ _ _ (update_ev_ok x _ w2 _ Ho2)).
  set (o1 := with_idx (qset false EVLIST_TIMEOUT o) i1) in *. set (o2 := with_idx (unexpire o1) i2) in *.
  assert (flag o2 EVLIST_TIMEOUT = false) as Hf2.
  { subst o2 o1. unfold unexpire. cbn [with_idx ev_flags ev_res]. destruct (_ && _); unfold qset;
      cbn [with_idx with_flags ev_flags]; rewrite !has_flag_switch by (unfold single; auto); done. }
  set (w3 := set_mem (alter (flip with_timeout due) x) w2).
  destruct (bv_event _ H2 x _ Ho2) as (Hp & _ & Hn).
  assert (base_inv w3) as H3 by (apply (base_inv_edit w2 x o2); try done; by rewrite Hf2).
  assert (w_mem w3 !! x = Some (with_timeout o2 due)) as Ho3 by (cbn; by rewrite lookup_alter_eq, Ho2).
  destruct (event_queue_insert_ok (an_alloc a) w3 x (with_timeout o2 due) EVLIST_TIMEOUT H3 Ho3)
    as (w' & Hr & [Hi Hfr He _ _ _ _]); [auto|done|cbn; rewrite S2; lia|].
  exists w'. split; [done|]. split; [done|]. split.
  - transitivity w1; [done|]. transitivity w2; [done|]. by transitivity w3; [apply set_mem_frame|].
  - change (rescheduled due) with (fun o => qset true EVLIST_TIMEOUT
      ((fun o => flip with_timeout due ((fun o => unexpire (qset false EVLIST_TIMEOUT o)) o)) o)).
    eapply edited_trans; [apply qset_idx_free| |exact He].
    eapply edited_trans; [apply with_timeout_idx_free| |apply set_mem_edited].
    eapply edited_trans; [apply unexpire_idx_free|exact E1|exact E2].
Qed.

Definition wants_io (o : event) : bool :=
  has_flag (ev_events o) (Z.lor EV_READ (Z.lor EV_WRITE EV_SIGNAL)) &&
  negb (has_flag (ev_flags o) (Z.lor EVLIST_INSERTED EVLIST_ACTIVE)).

Definition io_added (o : event) : event := if wants_io o then qset true EVLIST_INSERTED o else o.

Lemma io_added_idx_free : idx_free io_added.
Proof. intros o i. unfold io_added, wants_io. cbn [with_idx ev_flags ev_events]. by destruct (_ && _). Qed.

Lemma add_io_ok a w x o : base_inv w -> w_mem w !! x = Some o ->
  exists w', add_io a x w = Ok (if wants_io o then an_add a x else 0, w') /\ base_inv w' /\ eframe w w' /\
    timeheap (w_base w') = timeheap (w_base w) /\
    (if wants_io o && (an_add a x =? -1) then w' = w else edited io_added x w w').
Proof.
  intros H Ho. unfold add_io. rewrite (em_bind_Ok _ _ _ _ _ (load_ev_ok x o w Ho)). fold (wants_io o).
  destruct (wants_io o) eqn:Hw; cbn [andb]; cbv iota.
  - destruct (Z.eqb_spec (an_add a x) (-1)) as [Hr|Hr]; cbn [negb]; cbv iota; [by exists w|].
    assert (flag o EVLIST_INSERTED = false) as Hf.
    { unfold wants_io in Hw. bool_props. rewrite has_flag_or in *. by bool_props. }
    destruct (event_queue_insert_ok (an_alloc a) w x o EVLIST_INSERTED H Ho) as (w' & Hrun & [Hi Hfr He _ _ _ Hh]);
      [auto|done|done|].
    exists w'. split; [by rewrite (em_bind_Ok _ _ _ _ _ Hrun)|]. split; [done|]. split; [done|].
    split; [by apply Hh|]. unfold edited in *. rewrite (alter_insert _ x _ o) in He by done.
    rewrite (alter_insert _ x _ o) by done. unfold io_added. by rewrite Hw.
  - exists w. repeat (split; [done|]). unfold edited. rewrite alter_id; [done|].
    intros o'. rewrite Ho. intros [= <-]. unfold io_added. by rewrite Hw.
Qed.

Lemma base_inv_heap w h : base_inv w -> heap_ok h (w_mem w) (timers (w_mem w)) ->
  base_inv (set_base (set_timeheap h) w).
Proof. intros [? ? _ ? ? ? ? ?] Hh. by split. Qed.

Definition added (due : option timeval) (o : event) : event :=
  match due with Some due => rescheduled due (io_added o) | None => io_added o end.

(** The reservation at the start of [event_add]. *)
Lemma reserve_ok a w o (tv : option timeval) : base_inv w ->
  exists h r, (if given tv && negb (flag o EVLIST_TIMEOUT)
     then min_heap_reserve (an_alloc a) (timeheap (w_base w)) (uwrap32 (1 + min_heap_size (timeheap (w_base w))))
     else (timeheap (w_base w), 0)) = (h, r) /\
    base_inv (set_base (set_timeheap h) w) /\ hn h = hn (timeheap (w_base w)) /\
    (r = -1 \/ r = 0 /\ (is_Some tv -> flag o EVLIST_TIMEOUT = false -> hn h + 1 <= ha h)).
Proof.
  intros H. pose proof (or_bounds _ _ _ _ (hk_ordered _ _ _ (bv_heap _ H))) as Hb.
  pose proof (timers_bound w H) as Ht.
  destruct tv as [tv|]; cbn [given andb].
  2:{ exists (timeheap (w_base w)), 0. split; [done|]. split; [apply base_inv_heap; [done|apply H]|].
      split; [done|]. right. split; [done|]. by intros [? [=]]. }
  destruct (has_flag (ev_flags o) EVLIST_TIMEOUT) eqn:Hf; cbn [negb]; cbv iota.
  - exists (timeheap (w_base w)), 0. split; [done|]. split; [apply base_inv_heap; [done|apply H]|].
    split; [done|]. right. split; [done|]. congruence.
  - unfold min_heap_size. rewrite uwrap32_small by lia.
    destruct (min_heap_reserve_ok (an_alloc a) _ _ _ (1 + hn (timeheap (w_base w))) (bv_heap _ H) ltac:(lia))
      as [[Hr _]|(s' & Hr & Hok & Hn & Ha)]; eexists _, _; (split; [exact Hr|]).
    + split; [apply base_inv_heap; [done|apply H]|]. split; [done|]. by left.
    + split; [by apply base_inv_heap|]. split; [done|]. right. split; [done|]. intros _ _. lia.
Qed.

(** [event_add] either refuses and leaves the queues and all events as they
    were, or puts the event on the queues asked for. *)
Lemma event_add_ok a w x o tv due : base_inv w -> w_mem w !! x = Some o ->
  match tv, due with
  | Some tv, Some due => exists now, gettime (an_clock a) (w_base w) = Some now /\ evutil_timeradd now tv = Ok due
  | None, None => True
  | _, _ => False
  end ->
  exists w' r, event_add a x tv w = Ok (r, w') /\ base_inv w' /\ eframe w w' /\
    (if decide (r = -1) then exists h, w' = set_base (set_timeheap h) w /\ hn h = hn (timeheap (w_base w))
     else edited (added due) x w w').
Proof.
  intros H Ho Htv. unfold event_add. rewrite (em_bind_Ok _ _ _ _ _ (load_ev_ok x o w Ho)).
  rewrite (em_bind_Ok _ _ _ _ _ (assert_flags_ok w x o H Ho)), eget_bind.
  destruct (reserve_ok a w o tv H) as (h & r & -> & H1 & Hn & Hr).
  destruct (Z.eqb_spec r (-1)) as [->|Hr1].
  { exists w, (-1). split; [done|]. split; [done|]. split; [done|]. rewrite decide_True by done.
    exists (timeheap (w_base w)). split; [|done]. by destruct w as [[] ? ? ? ?]. }
  destruct Hr as [?|[-> Hsp]]; [done|].
  rewrite (em_bind_Ok (emodify _) _ w tt (set_base (set_timeheap h) w) eq_refl).
  set (w1 := set_base (set_timeheap h) w) in *.
  destruct (add_io_ok a w1 x o H1 Ho) as (w2 & Hr2 & H2 & F2 & Hh2 & E2).
  rewrite (em_bind_Ok _ _ _ _ _ Hr2).
  assert (F1 : eframe w w1) by done.
  destruct (wants_io o && (an_add a x =? -1)) eqn:Hfail.
  { subst w2. apply andb_true_iff in Hfail as [-> ->%Z.eqb_eq].
    exists w1, (-1). rewrite decide_True by done. split; [by destruct tv|].
    split; [done|split; [done|by exists h]]. }
  set (res := if wants_io o then an_add a x else 0).
  assert (res <> -1) as Hres.
  { subst res. destruct (wants_io o); [|done]. cbn in Hfail. by apply Z.eqb_neq. }
  destruct (edited_lookup _ _ _ _ o E2 Ho) as [i2 Ho2].
  destruct tv as [tv|], due as [due|]; try done.
  - destruct Htv as (now & Hg & Hd). rewrite (proj2 (Z.eqb_neq res (-1))) by done. cbn [negb]; cbv iota.
    destruct (add_timeout_ok a w2 x _ tv now due H2 Ho2) as (w3 & Hr3 & H3 & F3 & E3); [|done| |].
    + by rewrite (gettime_frame _ w1), (gettime_frame _ w).
    + rewrite Hh2. cbn [w1 set_base w_base set_timeheap timeheap]. intros Hf. apply Hsp; [eauto|].
      revert Hf. unfold io_added. cbn [with_idx ev_flags]. destruct (wants_io o); [|done].
      unfold qset. cbn [with_flags ev_flags]. by rewrite has_flag_switch by (unfold single; auto).
    + exists w3, res. rewrite decide_False by done. rewrite (em_bind_Ok _ _ _ _ _ Hr3). split; [done|].
      split; [done|]. split; [transitivity w1; [done|by transitivity w2]|].
      change (added (Some due)) with (fun o => rescheduled due (io_added o)).
      eapply edited_trans; [|exact E2|exact E3].
      intros o' i. unfold rescheduled. rewrite (qset_idx_free _ _ o' i), unexpire_idx_free. done.
  - exists w2, res. rewrite decide_False by done. split; [done|]. split; [done|].
    split; [by transitivity w1|]. exact E2.
Qed.
End Invariant.
