(* ===== verification/EventTimeouts.v ===== *)
(** The time-outs of the event base: waiting for the next one, correcting them
    when the clock runs backwards, and activating those that are due. *)
From Stdlib Require Import Sorted.
From S2P Require Import Prelude.
From S2P Require Import BufferEvent MinHeap EventBase EventCorrect.

(** * Times *)

Lemma timercmp_gt_iff a b : evutil_timercmp_gt a b = false <-> tle a b.
Proof.
  times. destruct (Z.eqb_spec (tv_sec a) (tv_sec b)); rewrite Z.gtb_ltb, Z.ltb_ge; lia.
Qed.

Lemma timercmp_le_iff a b : evutil_timercmp_le a b = true <-> tle a b.
Proof. times. destruct (Z.eqb_spec (tv_sec a) (tv_sec b)); rewrite Z.leb_le; lia. Qed.

Lemma timercmp_ge_iff a b : evutil_timercmp_ge a b = true <-> tle b a.
Proof. times. destruct (Z.eqb_spec (tv_sec a) (tv_sec b)); rewrite Z.geb_leb, Z.leb_le; lia. Qed.

#[export] Instance tle_dec a b : Decision (tle a b).
Proof. unfold tle. apply _. Defined.

(** A normalised time, far from the bounds of [time_t]. *)
Definition tv_valid (t : timeval) : Prop := - 2 ^ 60 <= tv_sec t < 2 ^ 60 /\ 0 <= tv_usec t < 1000000.

(** A time in microseconds. *)
Definition usecs (t : timeval) : Z := tv_sec t * 1000000 + tv_usec t.

Lemma tle_usecs a b : tv_valid a -> tv_valid b -> tle a b <-> usecs a <= usecs b.
Proof. unfold tv_valid, tle, usecs. intros. nia. Qed.

Lemma chk_long_ok z : - 2 ^ 63 <= z < 2 ^ 63 -> chk_long z = Ok z.
Proof. intros Hz. unfold chk_long. by zdecide. Qed.

Lemma timersub_ok a b : tv_valid a -> tv_valid b ->
  exists c, evutil_timersub a b = Ok c /\ usecs c = usecs a - usecs b /\ 0 <= tv_usec c < 1000000 /\
    - 2 ^ 62 <= tv_sec c <= 2 ^ 62.
Proof.
  unfold tv_valid, usecs, evutil_timersub. intros Ha Hb.
  rewrite (chk_long_ok (tv_sec a - tv_sec b)), bind_Ok by lia.
  rewrite (chk_long_ok (tv_usec a - tv_usec b)), bind_Ok by lia.
  destruct (Z.ltb_spec (tv_usec a - tv_usec b) 0).
  - rewrite chk_long_ok, bind_Ok by lia. eexists. split; [done|]. cbn. lia.
  - eexists. split; [done|]. cbn. lia.
Qed.

Lemma timeradd_ok a b : tv_valid a -> tv_valid b ->
  exists c, evutil_timeradd a b = Ok c /\ usecs c = usecs a + usecs b /\ 0 <= tv_usec c < 1000000.
Proof.
  unfold tv_valid, usecs, evutil_timeradd. intros Ha Hb.
  rewrite (chk_long_ok (tv_sec a + tv_sec b)), bind_Ok by lia.
  rewrite (chk_long_ok (tv_usec a + tv_usec b)), bind_Ok by lia.
  rewrite Z.geb_leb. destruct (Z.leb_spec 1000000 (tv_usec a + tv_usec b)).
  - rewrite chk_long_ok, bind_Ok by lia. eexists. split; [done|]. cbn. lia.
  - eexists. split; [done|]. cbn. lia.
Qed.

(** * Waiting *)

Lemma filter_ext_in {A} (P Q : A -> Prop) `{!forall x, Decision (P x), !forall x, Decision (Q x)} (l : list A) :
  (forall x, x ∈ l -> P x <-> Q x) -> filter P l = filter Q l.
Proof.
  induction l as [|x l IH]; intros Hl; [done|]. rewrite !filter_cons, IH by (intros; apply Hl; by constructor).
  rewrite (decide_ext (P x) (Q x)) by (apply Hl; constructor). done.
Qed.

Lemma filter_all_in {A} (P : A -> Prop) `{!forall x, Decision (P x)} (l : list A) :
  (forall x, x ∈ l -> P x) -> filter P l = l.
Proof.
  induction l as [|x l IH]; intros Hl; [done|].
  rewrite filter_cons_True, IH by (intros; apply Hl; by constructor). done.
Qed.

Lemma list_alter_alter {A} (f g : A -> A) i (l : list A) : alter f i (alter g i l) = alter (fun x => f (g x)) i l.
Proof.
  apply list_eq. intros j. destruct (decide (i = j)) as [->|Hne].
  - rewrite !list_lookup_alter_eq. by destruct (l !! j).
  - by rewrite !list_lookup_alter_ne.
Qed.

Section Timeouts.
Implicit Types w : eworld.

(** The wait until the first time-out: none without timers, no time when it is
    due, and otherwise exactly the difference. *)
Lemma timeout_next_ok a w tv now : base_inv w -> gettime (an_clock a) (w_base w) = Some now -> tv_valid now ->
  (forall x o, w_mem w !! x = Some o -> flag o EVLIST_TIMEOUT = true -> tv_valid (ev_timeout o)) ->
  exists r, timeout_next a tv w = Ok (r, 0, w) /\
    match r with
    | Forever => forall x, ~ flagged (w_mem w) x EVLIST_TIMEOUT
    | For None => False
    | For (Some t) => 0 <= usecs t /\
        (forall x o, w_mem w !! x = Some o -> flag o EVLIST_TIMEOUT = true ->
           usecs now + usecs t <= Z.max (usecs now) (usecs (ev_timeout o))) /\
        exists x o, w_mem w !! x = Some o /\ flag o EVLIST_TIMEOUT = true /\
          usecs now + usecs t = Z.max (usecs now) (usecs (ev_timeout o))
    end.
Proof.
  intros H Hg Hv Hev. unfold timeout_next. rewrite eget_bind.
  destruct (min_heap_top_ok _ _ _ (bv_heap _ H)) as [(-> & HS & _)|(x & o & -> & _ & Hx & Ho & _ & Hmin)];
    rewrite elift_Ok.
  - exists Forever. split; [done|]. intros x Hx%elem_of_timers. rewrite HS in Hx. set_solver.
  - rewrite Hg. rewrite (em_bind_Ok _ _ _ _ _ (load_ev_ok x o w Ho)).
    apply elem_of_timers, (flagged_lookup _ x o) in Hx; [|done].
    assert (Hfirst : forall y oy, w_mem w !! y = Some oy -> flag oy EVLIST_TIMEOUT = true ->
      usecs (ev_timeout o) <= usecs (ev_timeout oy)).
    { intros y oy Hy Hf. apply tle_usecs; [by eapply Hev..|].
      rewrite <- (time_ok _ _ _ Ho), <- (time_ok _ _ _ Hy). apply Hmin, elem_of_timers. by exists oy. }
    pose proof (Hev x o Ho Hx) as Hvo.
    destruct (evutil_timercmp_le (ev_timeout o) now) eqn:Hle.
    + apply timercmp_le_iff, tle_usecs in Hle; [|done..]. eexists. split; [done|]. cbn beta iota.
      change (usecs (mkTv 0 0)) with 0. split; [done|].
      split; [intros y oy Hy Hf; lia|]. exists x, o. split; [done|]. split; [done|]. lia.
    + assert (~ usecs (ev_timeout o) <= usecs now) as Hlt.
      { rewrite <- tle_usecs by done. rewrite <- timercmp_le_iff. by rewrite Hle. }
      destruct (timersub_ok (ev_timeout o) now Hvo Hv) as (c & -> & Hc & Hcu & Hcs). rewrite elift_Ok.
      assert (0 <= tv_sec c) by (unfold usecs in *; lia).
      replace ((tv_sec c >=? 0) && (tv_usec c >=? 0)) with true by (by zdecide).
      eexists. split; [done|]. cbn. split; [lia|]. split.
      * intros y oy Hy Hf. specialize (Hfirst y oy Hy Hf). lia.
      * exists x, o. split; [done|]. split; [done|]. lia.
Qed.

(** * Activating what is due *)

(** What becomes of an event whose time has come. *)
Definition expire (o : event) : event := activated EV_TIMEOUT (cleared o).

Definition due (now : timeval) (E : events) (x : Z) : Prop :=
  exists o, E !! x = Some o /\ flag o EVLIST_TIMEOUT = true /\ tle (ev_timeout o) now.

(** The events of [l] expired, in this order. *)
Record expired (now : timeval) (l : list Z) w w' : Prop := {
  ex_list : NoDup l /\ (forall x, x ∈ l <-> due now (w_mem w) x) /\
    StronglySorted (fun x y => tle (time (w_mem w) x) (time (w_mem w) y)) l;
  ex_mem : forall x o, w_mem w !! x = Some o ->
    exists i, w_mem w' !! x = Some (with_idx (if decide (x ∈ l) then expire o else o) i);
  ex_dom : dom (w_mem w') = dom (w_mem w);
  ex_queues : forall i q, activequeues (w_base w) !! i = Some q ->
    activequeues (w_base w') !! i = Some (filter (fun x => x ∉ l) q ++
      filter (fun x => ev_pri <$> w_mem w !! x = Some (Z.of_nat i)) l)
}.

Lemma expire_flag o : flag (expire o) EVLIST_TIMEOUT = false.
Proof.
  unfold expire, activated, qset. cbn [with_flags with_calls with_res ev_flags].
  rewrite has_flag_switch by (unfold single; auto). cbn. apply cleared_flags. auto.
Qed.

(** Taking one due event off every queue and activating it. *)
Lemma expire_one a w x o : base_inv w -> w_mem w !! x = Some o -> flag o EVLIST_TIMEOUT = true ->
  exists w2, (forall B (k : em B), (event_del a x;; event_active x EV_TIMEOUT 1;; k) w = k w2) /\
    base_inv w2 /\ eframe w w2 /\ edited expire x w w2 /\
    activequeues (w_base w2) = alter (fun l => filter (fun y => y <> x) l ++ [x]) (Z.to_nat (ev_pri o))
                                 (activequeues (w_base w)) /\
    hn (timeheap (w_base w2)) < hn (timeheap (w_base w)).
Proof.
  intros H Ho Hf. destruct (event_del_ok a w x o H Ho) as (w1 & Hr1 & [H1 F1 E1 _ A1 _]).
  destruct (edited_lookup _ _ _ _ o E1 Ho) as [i1 Ho1].
  destruct (event_active_new w1 x _ EV_TIMEOUT H1 Ho1) as (w2 & Hr2 & H2 & F2 & E2 & _ & A2 & _).
  { apply (cleared_flags o). auto. }
  assert (E12 : edited expire x w w2).
  { change expire with (fun o => activated EV_TIMEOUT (cleared o)).
    eapply edited_trans; [|exact E1|exact E2]. by intros ? ?. }
  exists w2. split.
  { intros B k. by rewrite (em_bind_Ok _ _ _ _ _ Hr1), (em_bind_Ok _ _ _ _ _ Hr2). }
  split; [done|]. split; [by transitivity w1|]. split; [done|]. split.
  - rewrite A2, A1. cbn. by rewrite list_alter_alter.
  - rewrite (ordered_size _ _ _ _ (hk_ordered _ _ _ (bv_heap _ H))).
    rewrite (ordered_size _ _ _ _ (hk_ordered _ _ _ (bv_heap _ H2))).
    unfold edited in E12. rewrite <- (timers_same _ _ E12), (alter_insert _ x _ o), timers_insert by done.
    rewrite expire_flag. assert (x ∈ timers (w_mem w)) by (apply elem_of_timers; by exists o).
    enough (size (timers (w_mem w) ∖ {[x]}) < size (timers (w_mem w)))%nat by lia.
    apply subset_size. set_solver.
Qed.

Lemma edited_expire_time x w w2 : edited expire x w w2 -> forall y, time (w_mem w2) y = time (w_mem w) y.
Proof.
  intros HE y. rewrite (same_time _ _ y HE). unfold time. destruct (decide (y = x)) as [->|].
  - rewrite lookup_alter_eq. by destruct (w_mem w !! x).
  - by rewrite lookup_alter_ne.
Qed.

Lemma edited_expire_due now x w w2 y : edited expire x w w2 -> is_Some (w_mem w !! x) ->
  due now (w_mem w2) y <-> due now (w_mem w) y /\ y <> x.
Proof.
  intros HE [o Ho]. unfold due. destruct (decide (y = x)) as [->|Hne].
  - destruct (edited_lookup _ _ _ _ o HE Ho) as [i ->]. split; [|tauto]. intros (o' & [= <-] & Hf & _).
    cbn [with_idx ev_flags] in Hf. by rewrite expire_flag in Hf.
  - split.
    + intros (o' & Hy & Hf & Ht). split; [|done].
      destruct (w_mem w !! y) as [oy|] eqn:Hwy.
      * destruct (edited_lookup_ne _ _ _ _ y oy HE Hne Hwy) as [i Hi]. rewrite Hi in Hy. injection Hy as <-. eauto.
      * specialize (HE y). rewrite lookup_alter_ne, Hwy, Hy in HE by done. done.
    + intros [(oy & Hy & Hf & Ht) _]. destruct (edited_lookup_ne _ _ _ _ y oy HE Hne Hy) as [i ->]. eauto.
Qed.

Lemma edited_expire_dom f x w w2 : edited f x w w2 -> dom (w_mem w2) = dom (w_mem w).
Proof.
  unfold edited. intros HE. apply set_eq. intros y. rewrite !elem_of_dom. split; intros Hy.
  - symmetry in HE. apply (same_lookup_is_Some _ _ y HE) in Hy. by apply lookup_alter_is_Some in Hy.
  - apply (same_lookup_is_Some _ _ y HE). by apply lookup_alter_is_Some.
Qed.

Lemma expired_cons now l x o w w2 w' : base_inv w -> w_mem w !! x = Some o -> due now (w_mem w) x ->
  (forall y, y ∈ timers (w_mem w) -> tle (time (w_mem w) x) (time (w_mem w) y)) ->
  edited expire x w w2 ->
  activequeues (w_base w2) = alter (fun l => filter (fun y => y <> x) l ++ [x]) (Z.to_nat (ev_pri o))
                               (activequeues (w_base w)) ->
  expired now l w2 w' -> expired now (x :: l) w w'.
Proof.
  intros H Ho Hdue Hmin HE HA [(Hnd & Hl & Hs) Hm Hd Hq].
  assert (Hin : forall y, y ∈ l <-> due now (w_mem w) y /\ y <> x).
  { intros y. rewrite Hl. apply (edited_expire_due now x w w2); eauto. }
  assert (x ∉ l) as Hxl by (rewrite Hin; tauto).
  split.
  - split; [by constructor|]. split.
    + intros y. rewrite elem_of_cons, Hin. destruct (decide (y = x)) as [->|]; tauto.
    + constructor.
      * apply (StronglySorted_impl (fun y z => tle (time (w_mem w2) y) (time (w_mem w2) z))); [|done].
        intros y z. by rewrite !(edited_expire_time x w w2).
      * apply Forall_forall. intros y Hy. apply Hmin, elem_of_timers.
        apply Hin in Hy as [(oy & Hoy & Hf & _) _]. by exists oy.
  - intros y oy Hy. destruct (decide (y = x)) as [->|Hne].
    + rewrite Ho in Hy. injection Hy as <-. destruct (edited_lookup _ _ _ _ o HE Ho) as [i Hi].
      destruct (Hm x _ Hi) as [j Hj]. exists j. rewrite Hj, decide_False, decide_True by set_solver. done.
    + destruct (edited_lookup_ne _ _ _ _ y oy HE Hne Hy) as [i Hi]. destruct (Hm y _ Hi) as [j Hj].
      exists j. rewrite Hj. rewrite (decide_ext (y ∈ x :: l) (y ∈ l)) by set_solver. by case_decide.
  - by rewrite Hd, (edited_expire_dom expire x w w2).
  - intros i q Hqi.
    assert (Hpri : filter (fun y => ev_pri <$> w_mem w2 !! y = Some (Z.of_nat i)) l
                   = filter (fun y => ev_pri <$> w_mem w !! y = Some (Z.of_nat i)) l).
    { apply filter_ext_in. intros y Hy. assert (y <> x) as Hne by (by intros ->).
      apply Hin in Hy as [(oy & Hoy & _) _].
      destruct (edited_lookup_ne _ _ _ _ y oy HE Hne Hoy) as [j ->]. by rewrite Hoy. }
    assert (Hpx : 0 <= ev_pri o) by apply (bv_event _ H x o Ho).
    destruct (decide (i = Z.to_nat (ev_pri o))) as [->|Hne].
    + rewrite (Hq _ (filter (fun y => y <> x) q ++ [x])) by (by rewrite HA, list_lookup_alter_eq, Hqi).
      rewrite filter_app, filter_cons_True, filter_nil by done. rewrite list_filter_filter, Hpri.
      rewrite (filter_cons_True _ x l) by (by rewrite Ho, Z2Nat.id). rewrite <- app_assoc. cbn. do 2 f_equal.
      apply filter_ext_in. intros y _. set_solver.
    + rewrite (Hq _ q) by (by rewrite HA, list_lookup_alter_ne).
      rewrite Hpri, (filter_cons_False _ x l).
      2:{ rewrite Ho. cbn. intros [= He]. apply Hne. lia. }
      do 2 f_equal. apply filter_ext_in. intros y Hy.
      assert (y <> x); [|set_solver]. intros ->. destruct (bv_active _ H i q Hqi) as [_ Hact].
      apply Hact in Hy as (o' & Ho' & Hpi & _). rewrite Ho in Ho'. injection Ho' as <-. lia.
Qed.

Lemma timeout_loop_ok a now : forall fuel w, base_inv w -> hn (timeheap (w_base w)) < Z.of_nat fuel ->
  exists w' l, timeout_loop fuel a now w = Ok (tt, w') /\ base_inv w' /\ eframe w w' /\ expired now l w w'.
Proof.
  induction fuel as [|fuel IH]; intros w H Hn; pose proof (or_bounds _ _ _ _ (hk_ordered _ _ _ (bv_heap _ H))); [lia|].
  cbn [timeout_loop]. rewrite eget_bind.
  assert (Hnone : (forall y, ~ due now (w_mem w) y) -> expired now [] w w).
  { intros Hno. split.
    - split; [constructor|]. split; [|constructor]. intros y. split; [set_solver|]. by intros ?%Hno.
    - intros x o Ho. exists (min_heap_idx o). rewrite Ho, decide_False by set_solver. by destruct o.
    - done.
    - intros i q Hq. rewrite Hq, filter_nil, app_nil_r. f_equal. symmetry.
      apply filter_all_in. set_solver. }
  destruct (min_heap_top_ok _ _ _ (bv_heap _ H)) as [(-> & HS & _)|(x & o & -> & _ & Hx & Ho & _ & Hmin)];
    rewrite elift_Ok.
  - exists w, []. split; [done|]. split; [done|]. split; [done|]. apply Hnone.
    intros y (oy & Hy & Hf & _). assert (y ∈ timers (w_mem w)) by (apply elem_of_timers; by exists oy). set_solver.
  - rewrite (em_bind_Ok _ _ _ _ _ (load_ev_ok x o w Ho)).
    apply elem_of_timers, (flagged_lookup _ x o) in Hx; [|done].
    destruct (evutil_timercmp_gt (ev_timeout o) now) eqn:Hgt.
    + exists w, []. split; [done|]. split; [done|]. split; [done|]. apply Hnone. intros y (oy & Hy & Hf & Ht).
      assert (evutil_timercmp_gt (ev_timeout o) now = false); [|congruence]. apply timercmp_gt_iff.
      transitivity (ev_timeout oy); [|done]. rewrite <- (time_ok _ _ _ Ho), <- (time_ok _ _ _ Hy).
      apply Hmin, elem_of_timers. by exists oy.
    + destruct (expire_one a w x o H Ho Hx) as (w2 & Hr & H2 & F2 & E2 & A2 & Hn2). rewrite Hr.
      destruct (IH w2 H2 ltac:(lia)) as (w' & l & Hl & H' & F' & Hex).
      exists w', (x :: l). split; [done|]. split; [done|]. split; [by transitivity w2|].
      apply (expired_cons now l x o w w2 w'); try done. exists o. apply timercmp_gt_iff in Hgt. done.
Qed.

Lemma timeout_process_ok a w now : base_inv w -> gettime (an_clock a) (w_base w) = Some now ->
  exists w' l, timeout_process a w = Ok (tt, w') /\ base_inv w' /\ eframe w w' /\ expired now l w w'.
Proof.
  intros H Hg. unfold timeout_process. rewrite eget_bind. unfold min_heap_empty.
  pose proof (or_bounds _ _ _ _ (hk_ordered _ _ _ (bv_heap _ H))) as Hb.
  destruct (Z.eqb_spec (hn (timeheap (w_base w))) 0) as [H0|H0].
  - destruct (timeout_loop_ok a now 1 w H ltac:(lia)) as (w' & l & Hr & H' & F' & Hex).
    cbn [timeout_loop] in Hr. rewrite eget_bind in Hr. unfold min_heap_top in Hr. rewrite H0 in Hr.
    cbn [Z.eqb] in Hr. rewrite elift_Ok in Hr. injection Hr as <-. by exists w, l.
  - rewrite (gettime_now_ok a w now) by done. apply timeout_loop_ok; [done|lia].
Qed.

(** * A clock that runs backwards *)

(** The difference of two times, where [evutil_timersub] does not overflow. *)
Definition tsub (a b : timeval) : timeval :=
  match evutil_timersub a b with Ok c => c | UB _ => a end.

Definition shifted (off : timeval) (o : event) : event := with_timeout o (tsub (ev_timeout o) off).

Lemma correct_loop_ok off : tv_valid off -> forall l E, NoDup l ->
  (forall x, x ∈ l -> exists o, E !! x = Some o /\ tv_valid (ev_timeout o)) ->
  exists E', correct_loop off (Some <$> l) E = Ok E' /\
    forall x, E' !! x = (if decide (x ∈ l) then shifted off else id) <$> E !! x.
Proof.
  intros Hoff. induction l as [|x l IH]; intros E Hnd Hl; cbn [fmap list_fmap correct_loop].
  - exists E. split; [done|]. intros x. rewrite decide_False by set_solver. by rewrite option_fmap_id.
  - inversion Hnd as [|? ? Hx Hnd']; subst.
    destruct (Hl x) as (o & Ho & Hv); [by constructor|]. cbn [of_option]. rewrite bind_Ok.
    rewrite (deref_ok _ _ _ Ho), bind_Ok. destruct (timersub_ok _ _ Hv Hoff) as (c & Hc & _). rewrite Hc, bind_Ok.
    destruct (IH (<[x := with_timeout o c]> E) Hnd') as (E' & -> & HE').
    { intros y Hy. rewrite lookup_insert_ne by (by intros ->). apply Hl. by constructor. }
    exists E'. split; [done|]. intros y. rewrite HE'. destruct (decide (y = x)) as [->|Hne].
    + rewrite lookup_insert_eq, Ho, decide_False, decide_True by set_solver. cbn. unfold shifted, tsub. by rewrite Hc.
    + rewrite lookup_insert_ne by done. rewrite (decide_ext (y ∈ x :: l) (y ∈ l)) by set_solver. by case_decide.
Qed.

(** The slots in use as a list of events. *)
Lemma ordered_list p E n S : ordered p E n S ->
  exists l, take (Z.to_nat n) p = Some <$> l /\ NoDup l /\ forall x, x ∈ l <-> x ∈ S.
Proof.
  intros H. pose proof (or_bounds _ _ _ _ H) as Hb. unfold blen in Hb.
  exists ((fun i => default 0 (mjoin (p !! i))) <$> seq 0 (Z.to_nat n)).
  assert (Hat : forall i, (i < Z.to_nat n)%nat -> p !! i = Some (Some (default 0 (mjoin (p !! i))))).
  { intros i Hi. destruct (or_slots _ _ _ _ H (Z.of_nat i)) as (x & o & Hx & _); [lia|].
    rewrite Nat2Z.id in Hx. by rewrite Hx. }
  split; [|split].
  - apply list_eq. intros i. rewrite !list_lookup_fmap. destruct (decide (i < Z.to_nat n)%nat) as [Hi|Hi].
    + rewrite lookup_take_lt, lookup_seq_lt by lia. cbn. by apply Hat.
    + rewrite lookup_take_ge, lookup_seq_ge by lia. done.
  - apply NoDup_fmap_2_strong; [|apply NoDup_seq]. intros i j Hi Hj Heq.
    apply elem_of_seq in Hi, Hj.
    pose proof (ordered_inj p E n S (Z.of_nat i) (Z.of_nat j) (default 0 (mjoin (p !! i))) H) as Hinj.
    rewrite !Nat2Z.id in Hinj. specialize (Hinj ltac:(lia) ltac:(lia) (Hat i ltac:(lia))).
    rewrite Heq in Hinj. specialize (Hinj (Hat j ltac:(lia))). lia.
  - intros x. rewrite list_elem_of_fmap. split.
    + intros (i & -> & Hi%elem_of_seq). destruct (or_slots _ _ _ _ H (Z.of_nat i)) as (y & o & Hy & _ & _ & HyS); [lia|].
      rewrite Nat2Z.id in Hy. by rewrite Hy.
    + intros Hx. destruct (or_all _ _ _ _ H x Hx) as (i & Hi & Hpi). exists (Z.to_nat i). rewrite Hpi.
      split; [done|]. apply elem_of_seq. lia.
Qed.

Lemma wsum_ext f (E E' : events) : (forall x, f <$> E !! x = f <$> E' !! x) -> wsum f E = wsum f E'.
Proof.
  revert E'. induction E as [|x o E Hx IH] using map_ind; intros E' HE.
  - assert (E' = ∅) as ->; [|done]. apply map_empty. intros y. specialize (HE y).
    rewrite lookup_empty in HE. by destruct (E' !! y).
  - pose proof (HE x) as Hx'. rewrite lookup_insert_eq in Hx'. destruct (E' !! x) as [o'|] eqn:Ho'; [|done].
    injection Hx' as Hf. rewrite <- (insert_delete_id E' x o' Ho'), !wsum_new, Hf by (done || apply lookup_delete_eq).
    rewrite (IH (delete x E')); [done|]. intros y. specialize (HE y).
    destruct (decide (y = x)) as [->|Hne]; [by rewrite lookup_delete_eq, Hx|].
    by rewrite lookup_delete_ne, lookup_insert_ne in * by done.
Qed.

(** The members the invariant speaks of. *)
Definition signature (o : event) : Z * Z * Z * option Z := (ev_flags o, ev_pri o, ev_ncalls o, ev_pncalls o).

Lemma base_inv_pointwise w w' : base_inv w ->
  event_count (w_base w') = event_count (w_base w) ->
  event_count_active (w_base w') = event_count_active (w_base w) ->
  activequeues (w_base w') = activequeues (w_base w) -> eventqueue (w_base w') = eventqueue (w_base w) ->
  (forall x, signature <$> w_mem w' !! x = signature <$> w_mem w !! x) ->
  heap_ok (timeheap (w_base w')) (w_mem w') (timers (w_mem w')) -> base_inv w'.
Proof.
  intros H Hc Hca Ha Hi HE Hh.
  assert (Hbw : forall x o', w_mem w' !! x = Some o' -> exists o, w_mem w !! x = Some o /\ signature o = signature o').
  { intros x o' Hx. specialize (HE x). rewrite Hx in HE. destruct (w_mem w !! x) as [o|]; [|done].
    apply (inj Some) in HE. eauto. }
  assert (Hfw : forall x o, w_mem w !! x = Some o -> exists o', w_mem w' !! x = Some o' /\ signature o = signature o').
  { intros x o Hx. specialize (HE x). rewrite Hx in HE. destruct (w_mem w' !! x) as [o'|]; [|done].
    apply (inj Some) in HE. eauto. }
  assert (Hws : forall f, (forall o o', signature o = signature o' -> f o = f o') ->
    wsum f (w_mem w') = wsum f (w_mem w)).
  { intros f Hf. apply wsum_ext. intros x. destruct (w_mem w !! x) as [o|] eqn:Hx.
    - destruct (Hfw x o Hx) as (o' & -> & Hs). cbn. f_equal. by apply Hf.
    - specialize (HE x). rewrite Hx in HE. by destruct (w_mem w' !! x). }
  split.
  - rewrite Ha. apply (bv_queues _ H).
  - replace (size (w_mem w')) with (size (w_mem w)); [apply (bv_size _ H)|].
    rewrite <- !(size_dom (D := gset Z)). f_equal. apply (set_eq (dom (w_mem w))). intros x.
    rewrite !elem_of_dom. split; [intros [o Hx]; destruct (Hfw x o Hx) as (? & -> & _); eauto|].
    intros [o Hx]. destruct (Hbw x o Hx) as (? & -> & _). eauto.
  - done.
  - rewrite Hi. destruct (bv_inserted _ H) as [Hnd Hin]. split; [done|]. intros x. rewrite Hin. split.
    + intros (o & Hx & Hf). destruct (Hfw x o Hx) as (o' & Hx' & [= Hs]). exists o'. by rewrite <- Hs.
    + intros (o' & Hx & Hf). destruct (Hbw x o' Hx) as (o & Hx' & [= Hs]). exists o. by rewrite Hs.
  - rewrite Ha. intros i q Hq. destruct (bv_active _ H i q Hq) as [Hnd Hin]. split; [done|].
    intros x. rewrite Hin. split.
    + intros (o & Hx & Hp & Hf). destruct (Hfw x o Hx) as (o' & Hx' & [= Hs Hs2]). exists o'.
      by rewrite <- Hs, <- Hs2.
    + intros (o' & Hx & Hp & Hf). destruct (Hbw x o' Hx) as (o & Hx' & [= Hs Hs2]). exists o.
      by rewrite Hs, Hs2.
  - rewrite Hc, (bv_count _ H). symmetry. apply Hws. intros o o' [= Hs]. unfold weight. by rewrite Hs.
  - rewrite Hca, (bv_count_active _ H). symmetry. apply Hws. intros o o' [= Hs]. unfold active_weight. by rewrite Hs.
  - intros x o' Hx. destruct (Hbw x o' Hx) as (o & Hx' & [= Hs1 Hs2 Hs3 Hs4]).
    rewrite Ha, <- Hs1, <- Hs2, <- Hs3, <- Hs4. by apply (bv_event _ H x).
Qed.

(** Shifting all times of a heap by the same amount keeps its order. *)
Lemma heap_ok_shift off s E E' (S : gset Z) : heap_ok s E S -> tv_valid off ->
  (forall x o, x ∈ S -> E !! x = Some o -> tv_valid (ev_timeout o)) ->
  (forall x, E' !! x = (if decide (x ∈ S) then shifted off else id) <$> E !! x) -> heap_ok s E' S.
Proof.
  intros H Hoff Hv HE. pose proof (hk_ordered _ _ _ H) as Hord.
  split; [split; [apply (or_bounds _ _ _ _ Hord)| |apply (or_all _ _ _ _ Hord)|]|apply (hk_block _ _ _ H)|].
  - intros i Hi. destruct (or_slots _ _ _ _ Hord i Hi) as (x & o & Hx & Ho & Hio & HxS).
    exists x, (shifted off o). by rewrite HE, decide_True, Ho.
  - intros i x y Hi Hx Hy. pose proof (par_bounds i ltac:(lia)).
    destruct (or_slots _ _ _ _ Hord i) as (y' & oy & Hy' & Hoy & _ & HyS); [lia|].
    destruct (or_slots _ _ _ _ Hord (par i)) as (x' & ox & Hx' & Hox & _ & HxS); [lia|]. simplify_eq.
    pose proof (or_order _ _ _ _ Hord i x y Hi Hx Hy) as Hle.
    rewrite (time_ok _ _ _ Hox), (time_ok _ _ _ Hoy) in Hle.
    rewrite (time_ok E' x (shifted off ox)), (time_ok E' y (shifted off oy)) by (by rewrite HE, decide_True, ?Hox, ?Hoy).
    pose proof (Hv x ox HxS Hox) as Hvx. pose proof (Hv y oy HyS Hoy) as Hvy. cbn. unfold tsub.
    destruct (timersub_ok _ _ Hvx Hoff) as (cx & -> & Hcx & Hux & _).
    destruct (timersub_ok _ _ Hvy Hoff) as (cy & -> & Hcy & Huy & _).
    apply tle_usecs in Hle; [|done..]. unfold tle, usecs in *. nia.
  - intros x o' Hx Hn. rewrite HE, decide_False in Hx by done. rewrite option_fmap_id in Hx.
    by apply (hk_out _ _ _ H x).
Qed.

(** Every pending time-out moves by the jump of the clock. *)
Definition corrected (w w' : eworld) (tv : timeval) : Prop :=
  forall x o, w_mem w !! x = Some o -> exists o', w_mem w' !! x = Some o' /\
    if has_flag (ev_flags o) EVLIST_TIMEOUT
    then o' = with_timeout o (ev_timeout o') /\
         usecs (ev_timeout o') - usecs tv = usecs (ev_timeout o) - usecs (event_tv (w_base w))
    else o' = o.

Lemma timeout_correct_ok a w tv : base_inv w -> w_monotonic w = false ->
  gettime (an_clock a) (w_base w) = Some tv -> tv_valid tv -> tv_valid (event_tv (w_base w)) ->
  usecs (event_tv (w_base w)) - usecs tv < 2 ^ 60 ->
  (forall x o, w_mem w !! x = Some o -> flag o EVLIST_TIMEOUT = true -> tv_valid (ev_timeout o)) ->
  exists w', timeout_correct a w = Ok (Some tv, w') /\ base_inv w' /\ event_tv (w_base w') = tv /\
    (if decide (tle (event_tv (w_base w)) tv) then w_mem w' = w_mem w else corrected w w' tv).
Proof.
  intros H Hm Hg Hv Hve Hjump Hev. unfold timeout_correct. rewrite eget_bind, Hm.
  rewrite (gettime_now_ok a w tv) by done. cbv zeta.
  pose proof (timercmp_ge_iff tv (event_tv (w_base w))) as Hge.
  destruct (evutil_timercmp_ge tv (event_tv (w_base w))).
  - eexists. split; [reflexivity|]. rewrite decide_True by (by apply Hge). split; [|done].
    apply (base_inv_pointwise w); try done. apply (bv_heap _ H).
  - destruct (timersub_ok _ _ Hve Hv) as (off & -> & Ho & Hou & Hos). rewrite elift_Ok.
    assert (usecs tv < usecs (event_tv (w_base w))).
    { destruct (decide (usecs (event_tv (w_base w)) <= usecs tv)) as [Hle|]; [|lia].
      apply tle_usecs in Hle; [|done..]. by apply Hge in Hle. }
    assert (tv_valid off) as Hvo by (unfold tv_valid, usecs in *; lia).
    pose proof (bv_heap _ H) as Hh. pose proof (or_bounds _ _ _ _ (hk_ordered _ _ _ Hh)) as Hb.
    destruct (ordered_list _ _ _ _ (hk_ordered _ _ _ Hh)) as (l & Hl & Hnd & Hin).
    destruct (correct_loop_ok off Hvo l (w_mem w) Hnd) as (E' & HE & HE').
    { intros x Hx. apply Hin, elem_of_timers in Hx as (o & Hx & Hf). eauto. }
    replace (hn (timeheap (w_base w)) <=? blen (hp (timeheap (w_base w)))) with true by (by zdecide).
    rewrite Hl. cbn [require]. rewrite bind_Ok, HE, elift_Ok.
    assert (HE2 : forall x, E' !! x = (if decide (x ∈ timers (w_mem w)) then shifted off else id) <$> w_mem w !! x).
    { intros x. rewrite HE'. by rewrite (decide_ext (x ∈ l) (x ∈ timers (w_mem w))) by apply Hin. }
    assert (Hsig : forall x, signature <$> E' !! x = signature <$> w_mem w !! x).
    { intros x. rewrite HE2. case_decide; by destruct (w_mem w !! x). }
    eexists. split; [reflexivity|]. rewrite decide_False by (rewrite <- Hge; done). split; [|split; [done|]].
    + apply (base_inv_pointwise w); try done. cbn.
      replace (timers E') with (timers (w_mem w)).
      * apply (heap_ok_shift off _ (w_mem w)); try done. intros x o Hx Hxo.
        apply (Hev x o Hxo). by apply elem_of_timers, (flagged_lookup _ x o) in Hx.
      * apply set_eq. intros x. rewrite !elem_of_timers. unfold flagged. specialize (Hsig x).
        destruct (w_mem w !! x) as [o|], (E' !! x) as [o'|]; try done.
        cbn in Hsig. injection Hsig as Hs _ _ _. split; intros (? & [= <-] & Hf); eexists; (split; [done|]); congruence.
    + intros x o Hx. cbn. rewrite HE2, Hx. eexists. split; [reflexivity|].
      pose proof (elem_of_timers (w_mem w) x) as Hxt. rewrite (flagged_lookup _ x o) in Hxt by done.
      destruct (has_flag (ev_flags o) EVLIST_TIMEOUT) eqn:Hf.
      * rewrite decide_True by (by apply Hxt). split; [done|]. cbn. unfold tsub.
        destruct (timersub_ok (ev_timeout o) off) as (c & -> & Hc & _); [by eapply Hev|done|]. lia.
      * rewrite decide_False; [done|]. by rewrite Hxt.
Qed.
End Timeouts.
