(* ===== verification/EventLoop.v ===== *)
(** The event loop: running the active events, and the turns of
    [event_base_loop], over callbacks and a back end that keep the base sound. *)
From Stdlib Require Import Sorted.
From S2P Require Import Prelude.
From S2P Require Import BufferEvent MinHeap EventBase EventCorrect EventTimeouts.

(** The base is sound and the pending times are ordinary ones. *)
Definition cache_ok (b : event_base) : Prop := tv_sec (tv_cache b) = 0 \/ tv_valid (tv_cache b).

Definition times_ok (w : eworld) : Prop :=
  cache_ok (w_base w) /\
  forall x o, w_mem w !! x = Some o -> flag o EVLIST_TIMEOUT = true -> tv_valid (ev_timeout o).

Definition loop_inv (w : eworld) : Prop := base_inv w /\ times_ok w.

(** What the loop relies on while user code runs. *)
Record kept (w w' : eworld) : Prop := {
  kp_calls : w_calls w' = w_calls w;
  kp_monotonic : w_monotonic w' = w_monotonic w;
  kp_queues : blen (activequeues (w_base w')) = blen (activequeues (w_base w))
}.

#[export] Instance kept_refl : Reflexive kept.
Proof. by split. Qed.

#[export] Instance kept_trans : Transitive kept.
Proof. intros w1 w2 w3 [] []. split; congruence. Qed.

Lemma eframe_kept w w' : eframe w w' -> kept w w'.
Proof. by intros []. Qed.

(** No event became active. *)
Definition calmer (w w' : eworld) : Prop :=
  forall i q', activequeues (w_base w') !! i = Some q' -> exists q, activequeues (w_base w) !! i = Some q /\ q' ⊆ q.

#[export] Instance calmer_refl : Reflexive calmer.
Proof. intros w i q Hq. by exists q. Qed.

#[export] Instance calmer_trans : Transitive calmer.
Proof.
  intros w1 w2 w3 H1 H2 i q3 Hq3. destruct (H2 i q3 Hq3) as (q2 & Hq2 & Hs2).
  destruct (H1 i q2 Hq2) as (q1 & Hq1 & Hs1). exists q1. split; [done|]. by transitivity q2.
Qed.

(** Callbacks return, keep the base sound and activate nothing by hand. *)
Class CallbackLaws (cb : Z -> Z -> Z -> em unit) : Prop :=
  cb_sound : forall x fd res w, loop_inv w ->
    exists w', cb x fd res w = Ok (tt, w') /\ loop_inv w' /\ kept w w' /\ calmer w w'.

Section Process.
Context (cb : Z -> Z -> Z -> em unit) `{!CallbackLaws cb}.
Implicit Types w : eworld.

Lemma edited_times_ok f x w w' : times_ok w -> tv_cache (w_base w') = tv_cache (w_base w) -> edited f x w w' ->
  (forall o, w_mem w !! x = Some o -> flag (f o) EVLIST_TIMEOUT = true -> tv_valid (ev_timeout (f o))) -> times_ok w'.
Proof.
  intros [Hc Ht] Hcache HE Hf. split; [unfold cache_ok; by rewrite Hcache|].
  intros y o' Hy Hfl. unfold edited in HE. symmetry in HE.
  destruct (same_lookup _ _ _ _ HE Hy) as (o & Ho & Heq). injection Heq as _ _ _ _ Htm _ _ Hfg.
  rewrite Htm. rewrite Hfg in Hfl. destruct (decide (y = x)) as [->|Hne].
  - rewrite lookup_alter_eq in Ho. destruct (w_mem w !! x) as [ox|]; [|done]. injection Ho as <-. by apply Hf.
  - rewrite lookup_alter_ne in Ho by done. by apply (Ht y o).
Qed.

Lemma qset_clear_times w q x o : times_ok w -> w_mem w !! x = Some o ->
  q = EVLIST_INSERTED \/ q = EVLIST_ACTIVE \/ q = EVLIST_TIMEOUT ->
  flag (qset false q o) EVLIST_TIMEOUT = true -> tv_valid (ev_timeout (qset false q o)).
Proof.
  intros [_ Ht] Ho Hq. unfold qset. cbn [with_flags ev_flags ev_timeout].
  destruct (queue_single q Hq) as [Hs _].
  rewrite has_flag_switch by (done || by left). case_match; [done|]. by apply (Ht x).
Qed.

(** Taking an active event off before it is called. *)
Lemma unqueue_ok a w x o pri : loop_inv w -> w_mem w !! x = Some o -> flag o EVLIST_ACTIVE = true ->
  ev_pri o = pri ->
  exists w1 o1, (if has_flag (ev_events o) EV_PERSIST then event_queue_remove x EVLIST_ACTIVE
                 else event_del a x;; mret tt) w = Ok (tt, w1) /\
    loop_inv w1 /\ eframe w w1 /\ w_mem w1 !! x = Some o1 /\ ev_ncalls o1 = ev_ncalls o /\
    activequeues (w_base w1) = alter (filter (fun y => y <> x)) (Z.to_nat pri) (activequeues (w_base w)).
Proof.
  intros [H Ht] Ho Hf <-. destruct (has_flag (ev_events o) EV_PERSIST).
  - destruct (event_queue_remove_ok w x o EVLIST_ACTIVE H Ho ltac:(auto) Hf) as (w1 & Hr & [Hi Hfr He _ Ha _ _]).
    destruct (edited_lookup _ _ _ _ o He Ho) as [i Ho1]. eexists w1, _. split; [done|]. split.
    + split; [done|]. apply (edited_times_ok _ _ _ _ Ht (ef_cache _ _ Hfr) He). intros o' Ho'.
      by apply (qset_clear_times w EVLIST_ACTIVE x o' Ht Ho' ltac:(auto)).
    + split; [done|]. by split.
  - destruct (event_del_ok a w x o H Ho) as (w1 & Hr & [Hi Hfr He _ Ha _]).
    destruct (edited_lookup _ _ _ _ o He Ho) as [i Ho1]. eexists w1, _.
    split; [by rewrite (em_bind_Ok _ _ _ _ _ Hr)|]. split.
    + split; [done|]. apply (edited_times_ok _ _ _ _ Ht (ef_cache _ _ Hfr) He). intros o' Ho' Hfl.
      by rewrite (cleared_flags o' EVLIST_TIMEOUT) in Hfl by auto.
    + split; [done|]. by split.
Qed.

Lemma filter_calmer w w1 x pri :
  activequeues (w_base w1) = alter (filter (fun y => y <> x)) (Z.to_nat pri) (activequeues (w_base w)) ->
  calmer w w1.
Proof.
  intros Ha i q' Hq'. rewrite Ha in Hq'. destruct (decide (i = Z.to_nat pri)) as [->|Hne].
  - rewrite list_lookup_alter_eq in Hq'. apply fmap_Some in Hq' as (q & Hq & ->). exists q. split; [done|].
    intros y. by rewrite list_elem_of_filter; intros [].
  - rewrite list_lookup_alter_ne in Hq' by done. by exists q'.
Qed.

(** The calls of one event that is off the queues. *)
Lemma call_event_ok f w x o : loop_inv w -> w_mem w !! x = Some o ->
  let w1 := set_mem (alter (fun o => with_calls (ev_ncalls o) (Some f) o) x)
              (set_calls <[f := ev_ncalls o]> w) in
  exists w' stop, call_loop cb (S (Z.to_nat (ev_ncalls o mod 2 ^ 16))) f x w1 = Ok (stop, w') /\
    loop_inv w' /\ w_calls w' = <[f := 0]> (w_calls w) /\ w_monotonic w' = w_monotonic w /\
    blen (activequeues (w_base w')) = blen (activequeues (w_base w)) /\ calmer w w' /\
    (stop = true -> w_gotsig w' = true \/ event_break (w_base w') = true).
Proof.
  intros [H Ht] Ho w1. destruct (bv_event _ H x o Ho) as (Hp & _ & Hn).
  set (g := fun o => with_calls 0 (Some f) o).
  set (w2 := set_mem (alter g x) (set_calls <[f := 0]> w)).
  assert (loop_inv w2) as H2.
  { split.
    - assert (base_inv (set_mem (alter g x) w)) as [] by (apply (base_inv_edit w x o); try done; by left). by split.
    - apply (edited_times_ok g x w w2 Ht); [done|done|]. intros o' Ho'. by apply (proj2 Ht x o'). }
  destruct Hn as [Hn|[Hn _]].
  - exists w2, false. assert (w1 = w2) as ->.
    { unfold w1, w2, set_mem, set_calls. cbn. rewrite Hn. f_equal. rewrite !(alter_insert _ x _ o) by done.
      by rewrite Hn. }
    rewrite Hn. cbn [Z.modulo Z.to_nat call_loop].
    rewrite (em_bind_Ok (read_counter f) _ w2 0 w2); [|unfold read_counter; cbn; by rewrite lookup_insert_eq].
    split; [done|]. repeat (split; [done|]). split; [exact (calmer_refl w)|done].
  - rewrite Hn. change (Z.to_nat (1 mod 2 ^ 16)) with 1%nat. cbn [call_loop].
    rewrite (em_bind_Ok (read_counter f) _ w1 1 w1);
      [|unfold read_counter; cbn; by rewrite Hn, lookup_insert_eq].
    cbn [Z.eqb]. change (wrap16 (1 - 1)) with 0.
    rewrite (em_bind_Ok (emodify _) _ w1 tt (set_calls <[f := 0]> w1) eq_refl).
    set (w1' := set_calls <[f := 0]> w1).
    assert (w_mem w1' !! x = Some (with_calls 1 (Some f) o)) as Ho1.
    { cbn. by rewrite lookup_alter_eq, Ho, <- Hn. }
    rewrite (em_bind_Ok _ _ _ _ _ (update_ev_ok x _ w1' _ Ho1)).
    set (w1'' := set_mem _ w1'). assert (w1'' = w2) as ->.
    { unfold w1'', w2, w1', w1, set_mem, set_calls. cbn. rewrite insert_insert_eq. f_equal.
      rewrite alter_alter_eq, !(alter_insert _ x _ o) by done. done. }
    assert (w_mem w2 !! x = Some (g o)) as Ho2 by (cbn; by rewrite lookup_alter_eq, Ho).
    rewrite (em_bind_Ok _ _ _ _ _ (load_ev_ok x _ w2 Ho2)).
    destruct (cb_sound x (ev_fd (g o)) (ev_res (g o)) w2 H2) as (w3 & Hr3 & H3 & [K1 K2 K3] & C3).
    rewrite (em_bind_Ok _ _ _ _ _ Hr3).
    rewrite (em_bind_Ok stopped _ w3 (w_gotsig w3 || event_break (w_base w3)) w3 eq_refl).
    destruct (w_gotsig w3 || event_break (w_base w3)) eqn:Hst.
    + exists w3, true. split; [done|]. repeat (split; [done|]). intros _. by apply orb_true_iff in Hst.
    + rewrite (em_bind_Ok (read_counter f) _ w3 0 w3);
        [|unfold read_counter; rewrite K1; cbn; by rewrite lookup_insert_eq].
      exists w3, false. split; [done|]. by repeat (split; [done|]).
Qed.

Lemma process_one_ok a f w x pri q : loop_inv w -> 0 <= pri ->
  activequeues (w_base w) !! Z.to_nat pri = Some (x :: q) ->
  exists w' stop q', process_one cb a f x w = Ok (stop, w') /\ loop_inv w' /\
    w_calls w' = <[f := 0]> (w_calls w) /\ w_monotonic w' = w_monotonic w /\
    blen (activequeues (w_base w')) = blen (activequeues (w_base w)) /\
    activequeues (w_base w') !! Z.to_nat pri = Some q' /\ (length q' <= length q)%nat /\
    (stop = true -> w_gotsig w' = true \/ event_break (w_base w') = true).
Proof.
  intros H Hp Hq. destruct (bv_active _ (proj1 H) _ _ Hq) as [Hnd Hin].
  destruct (proj1 (Hin x)) as (o & Ho & Hpri & Hf); [constructor|]. rewrite Z2Nat.id in Hpri by done.
  unfold process_one. rewrite (em_bind_Ok _ _ _ _ _ (load_ev_ok x o w Ho)).
  destruct (unqueue_ok a w x o pri H Ho Hf Hpri) as (w1 & o1 & Hr1 & H1 & F1 & Ho1 & _ & A1).
  rewrite (em_bind_Ok _ _ _ _ _ Hr1), (em_bind_Ok _ _ _ _ _ (load_ev_ok x o1 w1 Ho1)).
  rewrite (em_bind_Ok (emodify _) _ w1 tt (set_calls <[f := ev_ncalls o1]> w1) eq_refl).
  rewrite (em_bind_Ok _ _ _ _ _ (update_ev_ok x _ (set_calls <[f := ev_ncalls o1]> w1) o1 Ho1)).
  destruct (call_event_ok f w1 x o1 H1 Ho1) as (w' & stop & -> & H' & C' & M' & B' & Q' & S').
  destruct F1 as [Hc1 _ Hm1 _ _ _ _ Hq1].
  assert (exists q', activequeues (w_base w') !! Z.to_nat pri = Some q') as [q' Hq'].
  { apply lookup_lt_is_Some_2. apply lookup_lt_Some in Hq. unfold blen in *. lia. }
  exists w', stop, q'. split; [done|]. split; [done|]. rewrite C', Hc1, M', Hm1. split; [done|]. split; [done|].
  split; [lia|]. split; [done|]. split; [|done].
  destruct (Q' _ _ Hq') as (q1 & Hq1' & Hsub). rewrite A1, list_lookup_alter_eq, Hq in Hq1'. injection Hq1' as <-.
  destruct (bv_active _ (proj1 H') _ _ Hq') as [Hnd' _]. inversion Hnd as [|? ? Hx Hndq]; subst.
  apply submseteq_length, NoDup_submseteq; [done|]. intros y Hy. apply Hsub, list_elem_of_filter in Hy as [Hne Hy].
  apply elem_of_cons in Hy as [->|Hy]; done.
Qed.

Lemma process_loop_ok a f pri : 0 <= pri -> forall fuel w q, loop_inv w ->
  activequeues (w_base w) !! Z.to_nat pri = Some q -> (length q < fuel)%nat ->
  exists w', process_loop cb fuel a f pri w = Ok (tt, w') /\ loop_inv w' /\
    delete f (w_calls w') = delete f (w_calls w) /\ w_monotonic w' = w_monotonic w /\
    blen (activequeues (w_base w')) = blen (activequeues (w_base w)) /\
    (activequeues (w_base w') !! Z.to_nat pri = Some [] \/ w_gotsig w' = true \/ event_break (w_base w') = true).
Proof.
  intros Hp. induction fuel as [|fuel IH]; intros w q H Hq Hl; [lia|].
  cbn [process_loop]. rewrite eget_bind. unfold active_queue.
  replace (0 <=? pri) with true by (by zdecide). rewrite Hq. cbn [require of_option]. rewrite bind_Ok, elift_Ok.
  destruct q as [|x q].
  - exists w. split; [done|]. split; [done|]. repeat (split; [done|]). by left.
  - destruct (process_one_ok a f w x pri q H Hp Hq) as (w1 & stop & q1 & Hr & H1 & C1 & M1 & B1 & Hq1 & Hl1 & S1).
    rewrite (em_bind_Ok _ _ _ _ _ Hr). destruct stop.
    + exists w1. split; [done|]. split; [done|]. rewrite C1, delete_insert_eq. repeat (split; [done|]).
      right. by apply S1.
    + destruct (IH w1 q1 H1 Hq1) as (w' & -> & H' & C' & M' & B' & E'); [cbn in Hl; lia|].
      exists w'. split; [done|]. split; [done|]. rewrite C', C1, delete_insert_eq, M', B'. done.
Qed.

Lemma first_active_ok qs : forall i, 
  match first_active qs i with
  | Some pri => exists k x q, pri = i + Z.of_nat k /\ qs !! k = Some (x :: q) /\
      forall j, (j < k)%nat -> qs !! j = Some []
  | None => forall k q, qs !! k = Some q -> q = []
  end.
Proof.
  induction qs as [|[|x q] qs IH]; intros i; cbn [first_active].
  - intros k q. by rewrite lookup_nil.
  - specialize (IH (i + 1)). destruct (first_active qs (i + 1)) as [pri|].
    + destruct IH as (k & x & q & -> & Hk & Hlt). exists (S k), x, q. split; [lia|]. split; [done|].
      intros [|j] Hj; [done|]. apply Hlt. lia.
    + intros [|k] q; cbn; [by intros [= <-]|]. apply IH.
  - exists 0%nat, x, q. split; [lia|]. split; [done|]. lia.
Qed.

(** A base that counts active events has one on a queue. *)
Lemma active_exists w : base_inv w -> event_count_active (w_base w) <> 0 ->
  exists i x q, activequeues (w_base w) !! i = Some (x :: q).
Proof.
  intros H Hc. pose proof (counts_bounds w H) as [_ Hb]. rewrite (bv_count_active _ H) in *.
  destruct (wsum_pos active_weight (w_mem w)) as (x & o & Ho & Hpos); [|lia|].
  { intros o. pose proof (active_weight_bounds o). lia. }
  unfold active_weight, b2z in Hpos. destruct (has_flag (ev_flags o) EVLIST_ACTIVE) eqn:Hf; [|lia].
  destruct (active_queue_ok w x o H Ho) as (l & Hl & _ & _ & _ & Hin).
  destruct l as [|y l]; [|eauto]. apply Hin in Hf. set_solver.
Qed.

(** The queues of a sound base are shorter than the bound on its events. *)
Lemma queue_bound w i q : base_inv w -> activequeues (w_base w) !! i = Some q -> Z.of_nat (length q) < 2 ^ 29.
Proof.
  intros H Hq. destruct (bv_active _ H i q Hq) as [Hnd Hin]. pose proof (bv_size _ H) as Hs.
  rewrite <- (size_dom (D := gset Z)) in Hs.
  enough (length q <= size (dom (w_mem w)))%nat by lia.
  rewrite <- (size_list_to_set (C := gset Z)) by done. apply subseteq_size. intros x Hx.
  apply elem_of_list_to_set, Hin in Hx as (o & Ho & _). apply elem_of_dom. eauto.
Qed.

Lemma event_process_active_ok fuel a f w : loop_inv w -> event_count_active (w_base w) <> 0 ->
  w_calls w !! f = None -> 2 ^ 29 <= Z.of_nat fuel ->
  exists w' pri, event_process_active cb fuel a f w = Ok (tt, w') /\ loop_inv w' /\ kept w w' /\
    first_active (activequeues (w_base w)) 0 = Some pri /\
    (activequeues (w_base w') !! Z.to_nat pri = Some [] \/ w_gotsig w' = true \/ event_break (w_base w') = true).
Proof.
  intros H Hc Hf Hfuel. unfold event_process_active. rewrite eget_bind.
  pose proof (first_active_ok (activequeues (w_base w)) 0) as Hfirst.
  destruct (first_active (activequeues (w_base w)) 0) as [pri|].
  2:{ destruct (active_exists w (proj1 H) Hc) as (i & x & q & Hq). by apply Hfirst in Hq. }
  destruct Hfirst as (k & x & q & -> & Hq & _). rewrite Z.add_0_l.
  destruct (process_loop_ok a f (Z.of_nat k) ltac:(lia) fuel w (x :: q) H) as (w' & Hr & H' & C' & M' & B' & E').
  - by rewrite Nat2Z.id.
  - pose proof (queue_bound w k (x :: q) (proj1 H) Hq). lia.
  - exists (set_calls (delete f) w'), (Z.of_nat k). split; [by rewrite (em_bind_Ok _ _ _ _ _ Hr)|].
    split; [|split; [|done]].
    + destruct H' as [[] ?]. by split; [split|].
    + split; [|done|done]. cbn. rewrite C'. by apply delete_id.
Qed.

(** * The turns of the loop *)

(** Members of the base that the invariant does not speak of. *)
Lemma loop_inv_base g w : loop_inv w -> cache_ok (g (w_base w)) ->
  event_count (g (w_base w)) = event_count (w_base w) ->
  event_count_active (g (w_base w)) = event_count_active (w_base w) ->
  activequeues (g (w_base w)) = activequeues (w_base w) -> eventqueue (g (w_base w)) = eventqueue (w_base w) ->
  timeheap (g (w_base w)) = timeheap (w_base w) -> loop_inv (set_base g w).
Proof.
  intros [H [_ Ht]] Hc H1 H2 H3 H4 H5. split; [|by split].
  apply (base_inv_pointwise w); try done. cbn. rewrite H5. apply (bv_heap _ H).
Qed.

Lemma expired_times_ok now l w w' : times_ok w -> eframe w w' -> expired now l w w' -> times_ok w'.
Proof.
  intros [Hc Ht] F [_ Hm Hd _]. split; [unfold cache_ok; by rewrite (ef_cache _ _ F)|]. intros x o' Hx Hf.
  destruct (w_mem w !! x) as [o|] eqn:Ho.
  - destruct (Hm x o Ho) as [i Hi]. rewrite Hx in Hi. injection Hi as ->.
    destruct (decide (x ∈ l)); cbn [with_idx ev_flags] in Hf; [by rewrite expire_flag in Hf|]. by apply (Ht x o).
  - assert (x ∈ dom (w_mem w)) as [? ?]%elem_of_dom by (rewrite <- Hd; apply elem_of_dom; eauto). congruence.
Qed.

(** What the loop expects of one turn: the clock answers ordinary times and is
    there when the time-outs are looked at, and the back end keeps the base
    sound. *)
Record turn_ok (t : turn) : Prop := {
  tk_next : forall now, an_clock (t_next t) = Some now -> tv_valid now;
  tk_dispatch : forall wt w, loop_inv w ->
    exists r w', t_dispatch t wt w = Ok (r, w') /\ loop_inv w' /\ kept w w';
  tk_after : forall now, t_after t = Some now -> tv_valid now;
  tk_run : is_Some (an_clock (t_run t))
}.

Lemma gettime_valid a w : loop_inv w -> (forall now, a = Some now -> tv_valid now) ->
  forall now, gettime a (w_base w) = Some now -> tv_valid now.
Proof.
  intros [_ [Hc _]] Ha now. unfold gettime. destruct (Z.eqb_spec (tv_sec (tv_cache (w_base w))) 0); cbn.
  - apply Ha.
  - intros [= <-]. by destruct Hc.
Qed.

Lemma timeout_next_total a w tv : loop_inv w -> (forall now, an_clock a = Some now -> tv_valid now) ->
  exists r z, timeout_next a tv w = Ok (r, z, w).
Proof.
  intros H Ha. pose proof H as [Hb [_ Ht]].
  destruct (gettime (an_clock a) (w_base w)) as [now|] eqn:Hg.
  - destruct (timeout_next_ok a w tv now Hb Hg) as (r & Hr & _); [by eapply gettime_valid|done|eauto].
  - unfold timeout_next. rewrite eget_bind.
    destruct (min_heap_top_ok _ _ _ (bv_heap _ Hb)) as [(-> & _)|(x & o & -> & _)]; rewrite elift_Ok; [eauto|].
    rewrite Hg. eauto.
Qed.

Lemma loop_turn_ok fuel flags t w : loop_inv w -> w_monotonic w = true -> turn_ok t ->
  w_calls w = ∅ -> 2 ^ 29 <= Z.of_nat fuel ->
  exists r w', loop_turn cb fuel flags t w = Ok (r, w') /\ loop_inv w' /\ kept w w'.
Proof.
  intros H Hm Hk Hcalls Hfuel. unfold loop_turn. rewrite eget_bind. pose proof (proj1 (proj2 H)) as Hcache.
  destruct (event_gotterm (w_base w)).
  { eexists _, _. split; [reflexivity|]. split; [by apply loop_inv_base|by split]. }
  destruct (event_break (w_base w)).
  { eexists _, _. split; [reflexivity|]. split; [by apply loop_inv_base|by split]. }
  rewrite (em_bind_Ok (emodify _) _ w tt (set_gotsig false w) eq_refl).
  assert (loop_inv (set_gotsig false w)) as H0 by (destruct H as [[] ?]; by split; [split|]).
  assert (kept w (set_gotsig false w)) as K0 by done. revert K0 H0. generalize (set_gotsig false w).
  intros w0 K0 H0.
  rewrite (em_bind_Ok (timeout_correct (t_correct t)) _ w0 None w0)
    by (unfold timeout_correct; rewrite eget_bind; rewrite (kp_monotonic _ _ K0), Hm; done).
  rewrite eget_bind.
  assert (exists tv_p, (if (event_count_active (w_base w0) =? 0) && negb (has_flag flags EVLOOP_NONBLOCK)
      then r ← timeout_next (t_next t) None; mret (fst r) else mret (For (Some (mkTv 0 0)))) w0 = Ok (tv_p, w0))
    as [tv_p Htv].
  { case_match; [|by eexists]. destruct (timeout_next_total (t_next t) w0 None H0 (tk_next _ Hk)) as (r & z & Hr).
    exists r. by rewrite (em_bind_Ok _ _ _ _ _ Hr). }
  rewrite (em_bind_Ok _ _ _ _ _ Htv), eget_bind. clear Htv.
  destruct (negb (event_haveevents (w_base w0))); [by eexists _, _|].
  set (g1 := fun b => clear_cache (set_times (default (event_tv b) (gettime (t_before t) b)) (tv_cache b) b)).
  rewrite (em_bind_Ok (emodify _) _ w0 tt (set_base g1 w0) eq_refl).
  assert (loop_inv (set_base g1 w0)) as H1 by (apply loop_inv_base; [done|by left|done..]).
  destruct (tk_dispatch _ Hk tv_p _ H1) as (r2 & w2 & Hr2 & H2 & K2). rewrite (em_bind_Ok _ _ _ _ _ Hr2).
  assert (kept w w2) as K02 by (transitivity w0; [done|]; by transitivity (set_base g1 w0)). clear K2.
  destruct (r2 =? -1); [by eexists _, _|].
  set (g3 := fun b => set_cache (default (tv_cache b) (gettime (t_after t) b)) b).
  rewrite (em_bind_Ok (emodify _) _ w2 tt (set_base g3 w2) eq_refl).
  assert (loop_inv (set_base g3 w2)) as H3.
  { apply loop_inv_base; [done| |done..]. unfold cache_ok. cbn.
    destruct (gettime (t_after t) (w_base w2)) as [now|] eqn:Hg; cbn; [|apply (proj2 H2)].
    right. by eapply gettime_valid, Hg; [|apply (tk_after _ Hk)]. }
  assert (exists now, gettime (an_clock (t_run t)) (w_base (set_base g3 w2)) = Some now) as [now Hnow].
  { destruct (tk_run _ Hk) as [now ->]. unfold gettime. case_match; eauto. }
  destruct (timeout_process_ok (t_run t) _ now (proj1 H3) Hnow) as (w4 & l & Hr4 & H4 & F4 & Hex).
  rewrite (em_bind_Ok _ _ _ _ _ Hr4), eget_bind.
  assert (loop_inv w4) as H4' by (split; [done|]; by apply (expired_times_ok now l _ w4 (proj2 H3))).
  assert (kept w w4) as K4.
  { transitivity w2; [done|]. by apply eframe_kept in F4; transitivity (set_base g3 w2). }
  destruct (Z.eqb_spec (event_count_active (w_base w4)) 0) as [Hz|Hz]; cbn [negb]; cbv iota.
  - eexists _, _. split; [reflexivity|]. done.
  - destruct (event_process_active_ok fuel (t_run t) (t_call t) w4 H4' Hz) as (w5 & pri & Hr5 & H5 & K5 & _);
      [by rewrite (kp_calls _ _ K4), Hcalls|done|].
    rewrite (em_bind_Ok _ _ _ _ _ Hr5), eget_bind. eexists _, _. split; [reflexivity|].
    split; [done|]. by transitivity w4.
Qed.

Lemma loop_turns_ok fuel flags ts : Forall turn_ok ts -> 2 ^ 29 <= Z.of_nat fuel -> forall w, loop_inv w ->
  w_monotonic w = true -> w_calls w = ∅ ->
  exists r w', loop_turns cb fuel flags ts w = Ok (r, w') /\ loop_inv w' /\ kept w w'.
Proof.
  intros Hts Hfuel. induction Hts as [|t ts Ht _ IH]; intros w H Hm Hc; cbn [loop_turns].
  - by eexists _, w.
  - destruct (loop_turn_ok fuel flags t w H Hm Ht Hc Hfuel) as (r & w1 & Hr & H1 & K1).
    rewrite (em_bind_Ok _ _ _ _ _ Hr). destruct r as [|z|].
    + destruct (IH w1 H1) as (r & w' & -> & H' & K'); [by rewrite (kp_monotonic _ _ K1)|by rewrite (kp_calls _ _ K1)|].
      exists r, w'. split; [done|]. split; [done|]. by transitivity w1.
    + by eexists _, w1.
    + eexists _, (set_base clear_cache w1). split; [reflexivity|]. split.
      * apply loop_inv_base; [done|by left|done..].
      * by transitivity w1.
Qed.
End Process.
