(* ===== verification/EventProps.v ===== *)
(** Results on the event base. *)
From Stdlib Require Import Sorted.
From S2P Require Import Prelude.
From S2P Require Import BufferEvent MinHeap EventBase EventCorrect EventTimeouts EventLoop.

(** * Storage of events *)

Definition unqueued (o : event) : Prop :=
  flag o EVLIST_INSERTED = false /\ flag o EVLIST_ACTIVE = false /\ flag o EVLIST_TIMEOUT = false.

Lemma unqueued_weight o : unqueued o -> weight o = 0 /\ active_weight o = 0.
Proof. intros (Hi & Ha & Ht). unfold weight, active_weight. rewrite Hi, Ha, Ht. by case_match. Qed.

Section Storage.
Implicit Types w : eworld.

Lemma flagged_delete (E : events) x y k : flagged (delete x E) y k <-> y <> x /\ flagged E y k.
Proof.
  unfold flagged. destruct (decide (y = x)) as [->|Hne].
  - rewrite lookup_delete_eq. naive_solver.
  - rewrite lookup_delete_ne by done. naive_solver.
Qed.

(** An event that is on no queue may be released. *)
Lemma base_inv_delete w x o : base_inv w -> w_mem w !! x = Some o -> unqueued o ->
  base_inv (set_mem (delete x) w).
Proof.
  intros H Ho Hu. pose proof Hu as (Hi & Ha & Ht).
  assert (Hfl : forall y k, k = EVLIST_INSERTED \/ k = EVLIST_TIMEOUT ->
    flagged (delete x (w_mem w)) y k <-> flagged (w_mem w) y k).
  { intros y k Hk. rewrite flagged_delete. split; [tauto|]. intros Hf. split; [|done]. intros ->.
    rewrite (flagged_lookup _ x o) in Hf by done. by destruct Hk as [-> | ->]; congruence. }
  assert (Htm : timers (delete x (w_mem w)) = timers (w_mem w)).
  { apply set_eq. intros y. rewrite !elem_of_timers. auto. }
  destruct (unqueued_weight o Hu) as [Hw Hwa].
  assert (Hsum : forall f, f o = 0 -> wsum f (delete x (w_mem w)) = wsum f (w_mem w)).
  { intros f Hf. rewrite <- (insert_delete_id (w_mem w) x o Ho) at 2.
    rewrite wsum_new by apply lookup_delete_eq. lia. }
  split; cbn [set_mem w_base w_mem].
  - apply (bv_queues _ H).
  - pose proof (bv_size _ H). pose proof (map_size_delete x (w_mem w)) as Hs. rewrite Ho in Hs. lia.
  - rewrite Htm. pose proof (bv_heap _ H) as Hh. split; [|apply (hk_block _ _ _ Hh)|].
    + apply (ordered_frame _ (w_mem w)); [apply (hk_ordered _ _ _ Hh)|]. intros y Hy.
      rewrite lookup_delete_ne; [done|]. intros ->.
      rewrite elem_of_timers, (flagged_lookup _ y o) in Hy by done. congruence.
    + intros y oy [_ Hy]%lookup_delete_Some. by apply (hk_out _ _ _ Hh y).
  - destruct (bv_inserted _ H) as [Hnd Hin]. split; [done|]. intros y. rewrite Hin, Hfl by auto. done.
  - intros i q Hq. destruct (bv_active _ H i q Hq) as [Hnd Hin]. split; [done|]. intros y. rewrite Hin.
    destruct (decide (y = x)) as [->|Hne]; [|by rewrite lookup_delete_ne].
    rewrite lookup_delete_eq, Ho. split; [|by intros (? & ? & _)]. intros (? & [= <-] & _ & ?). congruence.
  - rewrite (bv_count _ H). symmetry. by apply Hsum.
  - rewrite (bv_count_active _ H). symmetry. by apply Hsum.
  - intros y oy [_ Hy]%lookup_delete_Some. by apply (bv_event _ H y).
Qed.

(** A new event that is on no queue. *)
Lemma base_inv_new w x o : base_inv w -> w_mem w !! x = None -> unqueued o -> within_all (ev_flags o) ->
  min_heap_idx o = NO_IDX -> 0 <= ev_pri o < blen (activequeues (w_base w)) -> ev_ncalls o = 0 ->
  Z.of_nat (size (w_mem w)) + 1 < 2 ^ 29 -> base_inv (set_mem <[x := o]> w).
Proof.
  intros H Hx Hu Hwa Hidx Hp Hn Hs. pose proof Hu as (Hi & Ha & Ht).
  assert (Hnf : forall k, ~ flagged (w_mem w) x k) by (intros k (? & ? & _); congruence).
  assert (Hfl : forall y k, k = EVLIST_INSERTED \/ k = EVLIST_TIMEOUT ->
    flagged (<[x := o]> (w_mem w)) y k <-> flagged (w_mem w) y k).
  { intros y k Hk. rewrite flagged_insert. split.
    - intros [[-> Hf]|[_ ?]]; [|done]. by destruct Hk as [-> | ->]; congruence.
    - intros Hf. right. split; [|done]. intros ->. by eapply Hnf. }
  assert (Htm : timers (<[x := o]> (w_mem w)) = timers (w_mem w)).
  { apply set_eq. intros y. rewrite !elem_of_timers. auto. }
  destruct (unqueued_weight o Hu) as [Hw Hwt].
  split; cbn [set_mem w_base w_mem].
  - apply (bv_queues _ H).
  - rewrite map_size_insert_None by done. lia.
  - rewrite Htm. pose proof (bv_heap _ H) as Hh. split; [|apply (hk_block _ _ _ Hh)|].
    + apply (ordered_frame _ (w_mem w)); [apply (hk_ordered _ _ _ Hh)|]. intros y Hy.
      rewrite lookup_insert_ne; [done|]. intros ->. apply elem_of_timers in Hy. by eapply Hnf.
    + intros y oy. destruct (decide (y = x)) as [->|Hne].
      * rewrite lookup_insert_eq. by intros [= <-] _.
      * rewrite lookup_insert_ne by done. apply (hk_out _ _ _ Hh).
  - destruct (bv_inserted _ H) as [Hnd Hin]. split; [done|]. intros y. rewrite Hin, Hfl by auto. done.
  - intros i q Hq. destruct (bv_active _ H i q Hq) as [Hnd Hin]. split; [done|]. intros y. rewrite Hin.
    destruct (decide (y = x)) as [->|Hne]; [|by rewrite lookup_insert_ne].
    rewrite lookup_insert_eq, Hx. split; [by intros (? & ? & _)|]. intros (? & [= <-] & _ & ?). congruence.
  - rewrite wsum_new by done. rewrite (bv_count _ H). lia.
  - rewrite wsum_new by done. rewrite (bv_count_active _ H). lia.
  - intros y oy. destruct (decide (y = x)) as [->|Hne].
    + rewrite lookup_insert_eq. intros [= <-]. auto.
    + rewrite lookup_insert_ne by done. apply (bv_event _ H).
Qed.

Lemma event_set_ok w x fd evs : base_inv w -> (forall o, w_mem w !! x = Some o -> unqueued o) ->
  Z.of_nat (size (w_mem w)) + 1 < 2 ^ 29 ->
  exists w', event_set x fd evs w = Ok (tt, w') /\ base_inv w'.
Proof.
  intros H Hu Hs. eexists. split; [reflexivity|]. cbv zeta. set (o := mkEvent _ _ _ _ _ _ _ _ _).
  pose proof (bv_queues _ H) as Hq.
  assert (Hp : 0 <= ev_pri o < blen (activequeues (w_base w))).
  { subst o. cbn. split; [apply Z.div_pos; lia|apply Z.div_lt_upper_bound; lia]. }
  destruct (w_mem w !! x) as [o0|] eqn:Hx.
  - replace (set_mem <[x := o]> w) with (set_mem <[x := o]> (set_mem (delete x) w)).
    + apply base_inv_new; try done.
      * by apply (base_inv_delete w x o0); [| |apply Hu].
      * apply lookup_delete_eq.
      * cbn. pose proof (map_size_delete x (w_mem w)) as Hd. rewrite Hx in Hd. lia.
    + unfold set_mem. cbn. by rewrite insert_delete_eq.
  - by apply base_inv_new.
Qed.

Lemma event_priority_set_ok w x o pri : base_inv w -> w_mem w !! x = Some o ->
  exists w' r, event_priority_set x pri w = Ok (r, w') /\ base_inv w' /\
    (r = 0 <-> flag o EVLIST_ACTIVE = false /\ 0 <= pri < blen (activequeues (w_base w))).
Proof.
  intros H Ho. unfold event_priority_set. rewrite (em_bind_Ok _ _ _ _ _ (load_ev_ok x o w Ho)), eget_bind.
  destruct (has_flag (ev_flags o) EVLIST_ACTIVE) eqn:Hf.
  { exists w, (-1). split; [done|]. split; [done|]. naive_solver. }
  destruct ((pri <? 0) || (pri >=? blen (activequeues (w_base w)))) eqn:Hp.
  { exists w, (-1). split; [done|]. split; [done|]. split; [done|]. intros [_ Hr].
    rewrite Z.geb_leb, orb_true_iff, Z.ltb_lt, Z.leb_le in Hp. lia. }
  rewrite Z.geb_leb in Hp. bool_props.
  rewrite (em_bind_Ok _ _ _ _ _ (update_ev_ok x _ w o Ho)). eexists _, 0. split; [reflexivity|].
  split; [|split; [auto|done]]. destruct (bv_event _ H x o Ho) as (_ & _ & Hn).
  apply (base_inv_edit w x o); try done. congruence.
Qed.
End Storage.

(** * Reachable states *)

Inductive base_op : Type :=
| OpSet (x fd events : Z)
| OpFree (x : Z)
| OpPriority (x pri : Z)
| OpAdd (a : answers) (x : Z) (tv : option timeval)
| OpDel (a : answers) (x : Z)
| OpActive (x res : Z)
| OpExpire (a : answers).

Definition base_run (op : base_op) : em unit :=
  match op with
  | OpSet x fd events => event_set x fd events
  | OpFree x => emodify (set_mem (delete x))
  | OpPriority x pri => event_priority_set x pri;; mret tt
  | OpAdd a x tv => event_add a x tv;; mret tt
  | OpDel a x => event_del a x;; mret tt
  | OpActive x res => event_active x res 1
  | OpExpire a => timeout_process a
  end.

(** The rules of the interface: an event is initialised or released only while
    it is on no queue, operations name events that exist, the clock answers, and
    a time-out does not leave [time_t]. *)
Definition op_allowed (w : eworld) (op : base_op) : Prop :=
  match op with
  | OpSet x _ _ => (forall o, w_mem w !! x = Some o -> unqueued o) /\ Z.of_nat (size (w_mem w)) + 1 < 2 ^ 29
  | OpFree x => exists o, w_mem w !! x = Some o /\ unqueued o
  | OpPriority x _ | OpDel _ x | OpActive x _ => is_Some (w_mem w !! x)
  | OpAdd a x tv => is_Some (w_mem w !! x) /\ match tv with
      | Some tv => exists now due, gettime (an_clock a) (w_base w) = Some now /\ evutil_timeradd now tv = Ok due
      | None => True
      end
  | OpExpire a => exists now, gettime (an_clock a) (w_base w) = Some now
  end.

Definition event_base_init (n : nat) (now : timeval) (monotonic : bool) : eworld :=
  mkWorld (mkBase 0 0 false false (replicate (S n) []) [] now min_heap_ctor (mkTv 0 0)) ∅ false monotonic ∅.

Inductive base_reach : eworld -> Prop :=
| reach_init n now monotonic : base_reach (event_base_init n now monotonic)
| reach_step w op w' : base_reach w -> op_allowed w op -> base_run op w = Ok (tt, w') -> base_reach w'.

Lemma event_base_init_inv n now monotonic : base_inv (event_base_init n now monotonic).
Proof.
  split; cbn [event_base_init w_base w_mem activequeues eventqueue event_count event_count_active timeheap].
  - unfold blen. rewrite length_replicate. lia.
  - rewrite map_size_empty. lia.
  - replace (timers ∅) with (∅ : gset Z); [by apply heap_ok_ctor|].
    apply set_eq. intros x. rewrite elem_of_timers. split; [set_solver|]. by intros (? & ? & _).
  - split; [constructor|]. intros x. split; [set_solver|]. by intros (? & ? & _).
  - intros i q [-> _]%lookup_replicate. split; [constructor|]. intros x. split; [set_solver|]. by intros (? & ? & _).
  - by rewrite wsum_empty.
  - by rewrite wsum_empty.
  - by intros x o ?.
Qed.

(** Every allowed operation returns and keeps the base sound. *)
Lemma base_run_ok w op : base_inv w -> op_allowed w op -> exists w', base_run op w = Ok (tt, w') /\ base_inv w'.
Proof.
  intros H. destruct op as [x fd evs|x|x pri|a x tv|a x|x res|a]; cbn [op_allowed base_run].
  - intros [Hu Hs]. by apply event_set_ok.
  - intros (o & Ho & Hu). eexists. split; [reflexivity|]. by apply (base_inv_delete w x o).
  - intros [o Ho]. destruct (event_priority_set_ok w x o pri H Ho) as (w' & r & Hr & H' & _).
    exists w'. by rewrite (em_bind_Ok _ _ _ _ _ Hr).
  - intros [[o Ho] Htv]. destruct tv as [tv|].
    + destruct Htv as (now & due & Hg & Hd).
      destruct (event_add_ok a w x o (Some tv) (Some due) H Ho) as (w' & r & Hr & H' & _); [eauto|].
      exists w'. by rewrite (em_bind_Ok _ _ _ _ _ Hr).
    + destruct (event_add_ok a w x o None None H Ho I) as (w' & r & Hr & H' & _).
      exists w'. by rewrite (em_bind_Ok _ _ _ _ _ Hr).
  - intros [o Ho]. destruct (event_del_ok a w x o H Ho) as (w' & Hr & Hd).
    exists w'. rewrite (em_bind_Ok _ _ _ _ _ Hr). split; [done|]. apply Hd.
  - intros [o Ho]. destruct (has_flag (ev_flags o) EVLIST_ACTIVE) eqn:Hf.
    + destruct (event_active_again w x o res H Ho Hf) as (w' & Hr & H' & _). eauto.
    + destruct (event_active_new w x o res H Ho Hf) as (w' & Hr & H' & _). eauto.
  - intros [now Hg]. destruct (timeout_process_ok a w now H Hg) as (w' & l & Hr & H' & _). eauto.
Qed.

Lemma base_reach_inv w : base_reach w -> base_inv w.
Proof.
  induction 1 as [|w op w' _ IH Hop Hr]; [apply event_base_init_inv|].
  destruct (base_run_ok w op IH Hop) as (w2 & Hr2 & H2). congruence.
Qed.

(** * Results *)

(** C11: the event base stays sound. In every state reached by initialising,
    adding, deleting, activating (once each: [ncalls] is 1), re-prioritising and
    releasing events and by expiring time-outs, the queues and the heap hold exactly the events whose
    flags say so, [event_count] and [event_count_active] count them, and every
    operation used by the rules returns: none of the assertions, the
    "not on queue" exits, the queue and heap accesses and the counters can
    fail. *)
Theorem event_base_sound w : base_reach w ->
  base_inv w /\ forall op, op_allowed w op -> exists w', base_run op w = Ok (tt, w').
Proof.
  intros Hr. pose proof (base_reach_inv w Hr) as H. split; [done|]. intros op Hop.
  destruct (base_run_ok w op H Hop) as (w' & Hrun & _). eauto.
Qed.

Definition demo_answers (sec : Z) : answers :=
  mkAnswers (Some (mkTv sec 0)) (mkTv sec 0) (fun _ => true) (fun _ => 0) (fun _ => 0).

(** Four events, two of them with time-outs, one of these also for reading. *)
Definition demo_base_ops : list base_op :=
  [OpSet 100 5 (Z.lor EV_READ EV_PERSIST); OpSet 200 (-1) 0; OpSet 300 6 EV_WRITE; OpSet 400 7 EV_READ;
   OpAdd (demo_answers 10) 100 (Some (mkTv 5 0)); OpAdd (demo_answers 11) 200 (Some (mkTv 2 500000));
   OpAdd (demo_answers 12) 300 None].

Fixpoint run_ops (ops : list base_op) : em unit :=
  match ops with [] => mret tt | op :: ops => base_run op;; run_ops ops end.

Definition demo_world (monotonic : bool) : eworld :=
  match run_ops demo_base_ops (event_base_init 0 (mkTv 10 0) monotonic) with
  | Ok (_, w) => w
  | UB _ => event_base_init 0 (mkTv 0 0) true
  end.

Fixpoint ops_allowed (w : eworld) (ops : list base_op) : Prop :=
  match ops with
  | [] => True
  | op :: ops => op_allowed w op /\
      match base_run op w with Ok (_, w) => ops_allowed w ops | UB _ => False end
  end.

Lemma run_ops_reach ops : forall w w', base_reach w -> ops_allowed w ops -> run_ops ops w = Ok (tt, w') -> base_reach w'.
Proof.
  induction ops as [|op ops IH]; intros w w' Hw Hops; cbn [run_ops]; [by intros [= <-]|].
  destruct Hops as [Hop Hrest]. unfold mbind, em_bind.
  destruct (base_run op w) as [[[] w1]|] eqn:Hr; [|done]. apply IH; [by eapply reach_step|done].
Qed.

(** Evaluates the state an operation leads to. *)
Ltac next_state :=
  match goal with
  | |- match ?m with Ok _ => _ | UB _ => _ end => let r := eval vm_compute in m in replace m with r by (vm_compute; reflexivity); cbv iota beta
  end.

Lemma demo_reach monotonic : base_reach (demo_world monotonic).
Proof.
  apply (run_ops_reach demo_base_ops (event_base_init 0 (mkTv 10 0) monotonic));
    [constructor| |destruct monotonic; vm_compute; reflexivity].
  unfold demo_base_ops. destruct monotonic.
  all: do 4 (cbn [ops_allowed]; split; [split; [by intros o [=]|vm_compute; reflexivity]|next_state]).
  all: do 2 (cbn [ops_allowed]; split;
    [split; [eexists; vm_compute; reflexivity
            |eexists _, _; split; [vm_compute; reflexivity|vm_compute; reflexivity]]|next_state]).
  all: cbn [ops_allowed]; split; [split; [eexists; vm_compute; reflexivity|exact I]|next_state]; exact I.
Qed.

Lemma event_base_sound_witness :
  base_inv (demo_world true) /\ eventqueue (w_base (demo_world true)) = [100; 300] /\
  event_count (w_base (demo_world true)) = 4 /\
  exists w', base_run (OpDel (demo_answers 13) 100) (demo_world true) = Ok (tt, w') /\
    eventqueue (w_base w') = [300] /\ event_count (w_base w') = 2.
Proof.
  destruct (event_base_sound (demo_world true) (demo_reach true)) as [H Hop]. split; [exact H|].
  split; [vm_compute; reflexivity|]. split; [vm_compute; reflexivity|].
  destruct (Hop (OpDel (demo_answers 13) 100)) as [w' Hr]; [eexists; vm_compute; reflexivity|].
  exists w'. split; [exact Hr|]. clear H Hop. vm_compute in Hr. injection Hr as <-. split; vm_compute; reflexivity.
Defined.

(** C33: time-outs fire when they are due and in order. On a sound base
    [timeout_process] ends and makes active exactly the events whose time has
    come, with [EV_TIMEOUT] as the result and off the I/O list, each behind the
    events already on its queue and in the order of their times; every other
    event keeps its state. *)
Theorem timeouts_fire_in_order a w now : base_inv w -> gettime (an_clock a) (w_base w) = Some now ->
  exists w' l, timeout_process a w = Ok (tt, w') /\ base_inv w' /\ expired now l w w'.
Proof.
  intros H Hg. destruct (timeout_process_ok a w now H Hg) as (w' & l & Hr & H' & _ & Hex). eauto.
Qed.

Lemma timeouts_fire_in_order_witness :
  exists w' l, timeout_process (demo_answers 16) (demo_world true) = Ok (tt, w') /\
    expired (mkTv 16 0) l (demo_world true) w' /\
    activequeues (w_base w') = [[200; 100]] /\ eventqueue (w_base w') = [300].
Proof.
  destruct (timeouts_fire_in_order (demo_answers 16) (demo_world true) (mkTv 16 0)) as (w' & l & Hr & _ & Hex).
  - apply base_reach_inv, demo_reach.
  - vm_compute. reflexivity.
  - exists w', l. split; [exact Hr|]. split; [exact Hex|]. clear Hex. vm_compute in Hr. injection Hr as <-.
    split; vm_compute; reflexivity.
Defined.

(** The reservation of [event_add] succeeds. *)
Definition reserved (a : answers) (tv : option timeval) (o : event) (w : eworld) : bool :=
  let '(_, r) := if given tv && negb (has_flag (ev_flags o) EVLIST_TIMEOUT)
                 then min_heap_reserve (an_alloc a) (timeheap (w_base w))
                        (uwrap32 (1 + min_heap_size (timeheap (w_base w))))
                 else (timeheap (w_base w), 0) in
  negb (r =? -1).

(** The result of [event_add]: that of the back end when it is asked. *)
Lemma event_add_result a w x o tv res w' : w_mem w !! x = Some o -> event_add a x tv w = Ok (res, w') ->
  res = if reserved a tv o w then if wants_io o then an_add a x else 0 else -1.
Proof.
  intros Ho. unfold event_add, reserved. rewrite (em_bind_Ok _ _ _ _ _ (load_ev_ok x o w Ho)).
  unfold assert_flags. destruct (Z.land (ev_flags o) (Z.lnot EVLIST_ALL) =? 0); [|intros Hf; discriminate Hf].
  rewrite (em_bind_Ok (mret tt) _ w tt w eq_refl), eget_bind.
  destruct (if given tv && negb (has_flag (ev_flags o) EVLIST_TIMEOUT) then _ else _) as [h r].
  destruct (r =? -1); [by intros [= <- _]|]. cbn [negb].
  rewrite (em_bind_Ok (emodify _) _ w tt (set_base (set_timeheap h) w) eq_refl). set (w1 := set_base _ w).
  assert (forall r1 w2, add_io a x w1 = Ok (r1, w2) -> r1 = if wants_io o then an_add a x else 0) as Hio.
  { intros r1 w2. unfold add_io. rewrite (em_bind_Ok _ _ _ _ _ (load_ev_ok x o w1 Ho)). fold (wants_io o).
    destruct (wants_io o); [|by intros [= <- _]]. destruct (negb _); [|by intros [= <- _]].
    unfold mbind, em_bind. destruct (event_queue_insert _ _ _ w1) as [[? ?]|]; [|done]. by intros [= <- _]. }
  unfold mbind at 1, em_bind at 1. destruct (add_io a x w1) as [[r1 w2]|]; [|done]. rewrite <- (Hio r1 w2 eq_refl).
  destruct tv as [t|]; [|by intros [= <- _]]. destruct (negb (r1 =? -1)); [|by intros [= <- _]].
  unfold mbind, em_bind. destruct (add_timeout a x t w2) as [[? ?]|]; [|done]. by intros [= <- _].
Qed.

(** Only an allocation that fails makes the reservation fail. *)
Lemma reserved_refused a tv o w : reserved a tv o w = false ->
  is_Some tv /\ flag o EVLIST_TIMEOUT = false /\ exists l, an_alloc a l = false.
Proof.
  unfold reserved. destruct tv as [tv|]; cbn [given andb]; [|done].
  destruct (has_flag (ev_flags o) EVLIST_TIMEOUT); cbn [negb]; [done|].
  unfold min_heap_reserve. destruct (_ <? _); [|done].
  destruct (an_alloc a _) eqn:Ha; [done|]. intros _. eauto.
Qed.

(** The time-out asked for, as an absolute time. *)
Definition due_at (a : answers) (w : eworld) (tv due : option timeval) : Prop :=
  match tv, due with
  | Some tv, Some due => exists now, gettime (an_clock a) (w_base w) = Some now /\ evutil_timeradd now tv = Ok due
  | None, None => True
  | _, _ => False
  end.

(** What [event_add] changes of an event. *)
Lemma added_fields due o i (o' := with_idx (added due o) i) :
  flag o' EVLIST_INSERTED = flag o EVLIST_INSERTED || wants_io o /\
  flag o' EVLIST_ACTIVE = flag o EVLIST_ACTIVE && negb (given due && has_flag (ev_res o) EV_TIMEOUT) /\
  flag o' EVLIST_TIMEOUT = given due || flag o EVLIST_TIMEOUT /\ ev_timeout o' = default (ev_timeout o) due /\
  ev_fd o' = ev_fd o /\ ev_events o' = ev_events o /\ ev_res o' = ev_res o /\ ev_pri o' = ev_pri o.
Proof.
  subst o'. assert (forall on q k p, single q -> single k -> flag (qset on q p) k = if q =? k then on else flag p k) as Hq.
  { intros on q k p Hs Hk. by apply has_flag_switch. }
  assert (forall k, single k -> flag (io_added o) k = flag o k || (EVLIST_INSERTED =? k) && wants_io o) as Hio.
  { intros k Hk. unfold io_added. destruct (wants_io o); [|by rewrite andb_false_r, orb_false_r].
    rewrite Hq by (unfold single; auto). destruct (EVLIST_INSERTED =? k); by rewrite ?orb_true_r, ?orb_false_r. }
  assert (single EVLIST_INSERTED /\ single EVLIST_ACTIVE /\ single EVLIST_TIMEOUT) as (Si & Sa & St) by (repeat split; unfold single; auto).
  assert (ev_res (io_added o) = ev_res o /\ ev_timeout (io_added o) = ev_timeout o /\ ev_fd (io_added o) = ev_fd o /\
    ev_events (io_added o) = ev_events o /\ ev_pri (io_added o) = ev_pri o) as (R1 & R2 & R3 & R4 & R5)
    by (unfold io_added; by destruct (wants_io o)).
  assert (forall k e, flag (with_idx e i) k = flag e k) as Hi by done. rewrite !Hi.
  destruct due as [due|]; cbn [added given default].
  - unfold rescheduled, unexpire. set (p := qset false EVLIST_TIMEOUT (io_added o)).
    assert (forall k, single k -> k <> EVLIST_TIMEOUT -> flag p k = flag (io_added o) k) as Hp.
    { intros k Hk Hne. unfold p. rewrite Hq by done. by rewrite (proj2 (Z.eqb_neq EVLIST_TIMEOUT k)). }
    assert (flag p EVLIST_ACTIVE = flag o EVLIST_ACTIVE) as HpA by (by rewrite Hp, Hio, orb_false_r).
    assert (flag p EVLIST_INSERTED = flag o EVLIST_INSERTED || wants_io o) as HpI by (by rewrite Hp, Hio).
    rewrite HpA. change (ev_res p) with (ev_res (io_added o)). rewrite R1.
    change (ev_fd p) with (ev_fd (io_added o)) in *. split; [|split; [|split; [|split; [done|]]]].
    + rewrite Hq by done. cbn [Z.eqb]. destruct (_ && _); [|exact HpI].
      change (flag (qset false EVLIST_ACTIVE p) EVLIST_INSERTED = flag o EVLIST_INSERTED || wants_io o).
      by rewrite Hq.
    + rewrite Hq by done. cbn [Z.eqb]. destruct (flag o EVLIST_ACTIVE) eqn:Ea; cbn [andb]; [|exact HpA].
      destruct (has_flag (ev_res o) EV_TIMEOUT); [|exact HpA].
      change (flag (qset false EVLIST_ACTIVE p) EVLIST_ACTIVE = false). by rewrite Hq.
    + by rewrite Hq.
    + rewrite <- R1, <- R3, <- R4, <- R5. by destruct (_ && _).
  - cbn [with_idx ev_flags ev_timeout ev_fd ev_events ev_res ev_pri]. rewrite !Hio by done. cbn. rewrite !orb_false_r, andb_true_r. done.
Qed.

(** C34: [event_add] is all or nothing. It returns -1 exactly when the heap cannot
    grow for a new time-out (which takes a failed allocation) or the back end is
    asked and refuses, and then no event, queue or counter differs: only the heap
    may have more room. Otherwise the event is on the I/O list when it was there
    or asks for I/O while on neither the I/O list nor the active queue ([wants_io]:
    for an active event that is not inserted the back end is not asked, although
    0 is returned); a time-out given is pending at exactly the current time plus
    it, an event activated by an expired time-out being taken off the active
    queue; without one the time-out stays as it was; and no other event changes. *)
Theorem event_add_all_or_nothing a w x o tv due : base_inv w -> w_mem w !! x = Some o -> due_at a w tv due ->
  exists w' r, event_add a x tv w = Ok (r, w') /\ base_inv w' /\
    r = (if reserved a tv o w then if wants_io o then an_add a x else 0 else -1) /\
    (reserved a tv o w = false -> is_Some tv /\ flag o EVLIST_TIMEOUT = false /\ exists l, an_alloc a l = false) /\
    (if decide (r = -1) then exists h, w' = set_base (set_timeheap h) w /\ hn h = hn (timeheap (w_base w))
     else exists o', w_mem w' !! x = Some o' /\
       (flag o' EVLIST_INSERTED = flag o EVLIST_INSERTED || wants_io o /\
        flag o' EVLIST_ACTIVE = flag o EVLIST_ACTIVE && negb (given due && has_flag (ev_res o) EV_TIMEOUT) /\
        flag o' EVLIST_TIMEOUT = given due || flag o EVLIST_TIMEOUT /\ ev_timeout o' = default (ev_timeout o) due /\
        ev_fd o' = ev_fd o /\ ev_events o' = ev_events o /\ ev_res o' = ev_res o /\ ev_pri o' = ev_pri o) /\
       forall y oy, y <> x -> w_mem w !! y = Some oy -> exists i, w_mem w' !! y = Some (with_idx oy i)).
Proof.
  intros H Ho Hd. destruct (event_add_ok a w x o tv due H Ho Hd) as (w' & r & Hr & H' & _ & Hres).
  exists w', r. split; [done|]. split; [done|]. split; [by apply (event_add_result a w x o tv r w')|].
  split; [apply reserved_refused|]. case_decide; [done|].
  destruct (edited_lookup _ _ _ _ o Hres Ho) as [i Hi]. eexists. split; [exact Hi|]. split; [apply added_fields|].
  intros y oy Hne Hy. by apply (edited_lookup_ne _ _ _ _ y oy Hres).
Qed.

Definition refusing (sec : Z) : answers :=
  mkAnswers (Some (mkTv sec 0)) (mkTv sec 0) (fun _ => true) (fun _ => -1) (fun _ => 0).

Lemma event_add_all_or_nothing_witness :
  (exists w', event_add (refusing 20) 400 (Some (mkTv 1 0)) (demo_world true) = Ok (-1, w') /\
     eventqueue (w_base w') = [100; 300]) /\
  (exists w' o', event_add (demo_answers 20) 400 (Some (mkTv 1 0)) (demo_world true) = Ok (0, w') /\
     w_mem w' !! 400 = Some o' /\ flag o' EVLIST_INSERTED = true /\ ev_timeout o' = mkTv 21 0).
Proof.
  set (o := mkEvent NO_IDX 7 2 0 None (mkTv 0 0) 0 0 128). split.
  - destruct (event_add_all_or_nothing (refusing 20) (demo_world true) 400 o (Some (mkTv 1 0)) (Some (mkTv 21 0)))
      as (w' & r & Hr & _ & Hres & _ & Hw);
      [apply base_reach_inv, demo_reach|vm_compute; reflexivity|exists (mkTv 20 0); split; reflexivity|].
    assert (r = -1) as -> by (rewrite Hres; vm_compute; reflexivity).
    exists w'. split; [exact Hr|]. rewrite decide_True in Hw by reflexivity. destruct Hw as (h & -> & _).
    vm_compute. reflexivity.
  - destruct (event_add_all_or_nothing (demo_answers 20) (demo_world true) 400 o (Some (mkTv 1 0)) (Some (mkTv 21 0)))
      as (w' & r & Hr & _ & Hres & _ & Hw);
      [apply base_reach_inv, demo_reach|vm_compute; reflexivity|exists (mkTv 20 0); split; reflexivity|].
    assert (r = 0) as -> by (rewrite Hres; vm_compute; reflexivity).
    rewrite decide_False in Hw by discriminate. destruct Hw as (o' & Ho' & (Hi & _ & _ & Ht & _) & _).
    exists w', o'. split; [exact Hr|]. split; [exact Ho'|]. split; [rewrite Hi; vm_compute; reflexivity|exact Ht].
Defined.

(** When the clock runs backwards, [timeout_correct] moves every pending
    time-out by exactly the jump, so that each event waits as long as before;
    the heap stays ordered although all its keys change in place, as the
    comment in the code claims. A clock that did not go backwards changes no
    event. *)
Theorem clock_jump_corrected a w tv : base_inv w -> w_monotonic w = false ->
  gettime (an_clock a) (w_base w) = Some tv -> tv_valid tv -> tv_valid (event_tv (w_base w)) ->
  usecs (event_tv (w_base w)) - usecs tv < 2 ^ 60 ->
  (forall x o, w_mem w !! x = Some o -> flag o EVLIST_TIMEOUT = true -> tv_valid (ev_timeout o)) ->
  exists w', timeout_correct a w = Ok (Some tv, w') /\ base_inv w' /\ event_tv (w_base w') = tv /\
    (if decide (tle (event_tv (w_base w)) tv) then w_mem w' = w_mem w else corrected w w' tv).
Proof. apply timeout_correct_ok. Qed.

Lemma demo_times monotonic x o : w_mem (demo_world monotonic) !! x = Some o ->
  flag o EVLIST_TIMEOUT = true -> tv_valid (ev_timeout o).
Proof.
  assert (map_Forall (fun _ o => flag o EVLIST_TIMEOUT = true -> tv_valid (ev_timeout o)) (w_mem (demo_world monotonic))) as Hall.
  { unfold tv_valid. apply (bool_decide_unpack _). destruct monotonic; vm_compute; exact I. }
  intros Hx. by apply (Hall x o).
Qed.

Lemma clock_jump_corrected_witness :
  exists w', timeout_correct (demo_answers 3) (demo_world false) = Ok (Some (mkTv 3 0), w') /\
    (ev_timeout <$> w_mem w' !! 100) = Some (mkTv 8 0) /\
    (ev_timeout <$> w_mem w' !! 200) = Some (mkTv 6 500000).
Proof.
  destruct (clock_jump_corrected (demo_answers 3) (demo_world false) (mkTv 3 0)) as (w' & Hr & _).
  - apply base_reach_inv, demo_reach.
  - vm_compute. reflexivity.
  - vm_compute. reflexivity.
  - unfold tv_valid. cbn. lia.
  - change (event_tv (w_base (demo_world false))) with (mkTv 10 0). unfold tv_valid. cbn. lia.
  - vm_compute. reflexivity.
  - apply demo_times.
  - exists w'. split; [exact Hr|]. vm_compute in Hr. injection Hr as <-. split; vm_compute; reflexivity.
Defined.

(** The loop waits exactly until the first time-out. [timeout_next] answers
    no limit when no time-out is pending and otherwise the time from now to the
    earliest pending one (zero when it is past), so that the loop neither
    sleeps over a time-out nor wakes early; its assertions on the difference
    hold. *)
Theorem wait_until_first_timeout a w tv now : base_inv w ->
  gettime (an_clock a) (w_base w) = Some now -> tv_valid now ->
  (forall x o, w_mem w !! x = Some o -> flag o EVLIST_TIMEOUT = true -> tv_valid (ev_timeout o)) ->
  exists r, timeout_next a tv w = Ok (r, 0, w) /\
    match r with
    | Forever => forall x, ~ flagged (w_mem w) x EVLIST_TIMEOUT
    | For None => False
    | For (Some t) => 0 <= usecs t /\
        (forall x o, w_mem w !! x = Some o -> flag o EVLIST_TIMEOUT = true ->
           usecs now + usecs t <= Z.max (usecs now) (usecs (ev_timeout o))) /\
        exists x o, w_mem w !! x = Some o /\ flag o EVLIST_TIMEOUT = true /\
          usecs now + usecs t = Z.max (usecs now) (usecs (ev_timeout o))
    end.
Proof. apply timeout_next_ok. Qed.

Lemma wait_until_first_timeout_witness :
  timeout_next (demo_answers 12) None (demo_world true) = Ok (For (Some (mkTv 1 500000)), 0, demo_world true).
Proof.
  destruct (wait_until_first_timeout (demo_answers 12) (demo_world true) None (mkTv 12 0)) as (r & Hr & _).
  - apply base_reach_inv, demo_reach.
  - vm_compute. reflexivity.
  - unfold tv_valid. cbn. lia.
  - apply demo_times.
  - rewrite Hr. vm_compute in Hr. injection Hr as <-. reflexivity.
Defined.

(** C12: the loop is safe and its turns end, under these conditions. The clock is
    monotonic and no callback is running when the loop is entered. Every callback
    returns, keeps the base sound and activates no event ([CallbackLaws]; it may
    add, delete and change events): a callback that activates its own event again
    would keep the base sound too, but [event_process_active] would never end.
    The back end's dispatch returns and keeps the base sound, and the clock
    answers with valid times ([turn_ok]). Then any given number of turns of
    [event_base_loop] returns without a fault: the active queue is worked off,
    the counter a running event points at is alive whenever it is used, and the
    base is sound again between the turns. The fuel bounds the active events,
    which are fewer than 2^29. *)
Theorem event_loop_sound cb `{!CallbackLaws cb} fuel flags ts w : loop_inv w -> w_monotonic w = true ->
  w_calls w = ∅ -> Forall turn_ok ts -> 2 ^ 29 <= Z.of_nat fuel ->
  exists r w', event_base_loop cb fuel flags ts w = Ok (r, w') /\ loop_inv w' /\ kept w w'.
Proof.
  intros H Hm Hc Hts Hf. unfold event_base_loop.
  rewrite (em_bind_Ok (emodify _) _ w tt (set_base clear_cache w) eq_refl).
  destruct (loop_turns_ok cb fuel flags ts Hts Hf (set_base clear_cache w)) as (r & w' & Hr & H' & K'); [|done|done|].
  - apply loop_inv_base; [done|by left|done..].
  - exists r, w'. split; [done|]. split; [done|]. by transitivity (set_base clear_cache w).
Qed.

(** A callback that takes its event off the queues. *)
Definition one_shot (x fd res : Z) : em unit :=
  w ← eget;
  match w_mem w !! x with
  | Some _ => event_del (demo_answers 0) x;; mret tt
  | None => mret tt
  end.

#[export] Instance one_shot_laws : CallbackLaws one_shot.
Proof.
  intros x fd res w H. unfold one_shot. rewrite eget_bind. destruct (w_mem w !! x) as [o|] eqn:Ho.
  - destruct (event_del_ok (demo_answers 0) w x o (proj1 H) Ho) as (w' & Hr & [Hi Hfr He _ Ha _]).
    exists w'. split; [by rewrite (em_bind_Ok _ _ _ _ _ Hr)|]. split; [|split].
    + split; [done|]. apply (edited_times_ok _ _ _ _ (proj2 H) (ef_cache _ _ Hfr) He).
      intros o' _ Hf. by rewrite (cleared_flags o' EVLIST_TIMEOUT) in Hf by auto.
    + by apply eframe_kept.
    + by eapply filter_calmer.
  - exists w. split; [done|]. split; [done|]. split; [done|]. reflexivity.
Qed.

(** A turn in which the back end reports nothing, at second [sec]. *)
Definition demo_turn (sec : Z) : turn :=
  mkTurn (demo_answers sec) (demo_answers sec) (Some (mkTv sec 0)) (fun _ => mret 0) (Some (mkTv sec 0))
    (demo_answers sec) 0.

Lemma demo_turn_ok sec : 0 <= sec < 2 ^ 59 -> turn_ok (demo_turn sec).
Proof.
  intros Hs. assert (tv_valid (mkTv sec 0)) by (unfold tv_valid; cbn; lia).
  split; cbn; [by intros ? [= <-]| |by intros ? [= <-]|eauto].
  intros _ w H'. exists 0, w. split; [done|]. split; [done|]. reflexivity.
Qed.

Lemma event_loop_sound_witness :
  exists r w', event_base_loop one_shot (Z.to_nat (2 ^ 29)) 0 [demo_turn 12; demo_turn 14; demo_turn 16]
    (demo_world true) = Ok (r, w') /\ loop_inv w'.
Proof.
  destruct (event_loop_sound one_shot (Z.to_nat (2 ^ 29)) 0 [demo_turn 12; demo_turn 14; demo_turn 16] (demo_world true))
    as (r & w' & Hr & H & _).
  - split; [apply base_reach_inv, demo_reach|]. split; [left; vm_compute; reflexivity|apply demo_times].
  - vm_compute. reflexivity.
  - vm_compute. reflexivity.
  - repeat (constructor; [apply demo_turn_ok; lia|]). constructor.
  - rewrite Z2Nat.id by lia. lia.
  - exists r, w'. split; [exact Hr|exact H].
Defined.

(** An event that is to be called several times and whose callback breaks
    the loop keeps pointing at the counter on the stack of the function that
    has returned: the next [event_del] of this event writes through the
    dangling pointer. *)
Theorem break_leaves_dangling_counter :
  exists w1 w2,
    (event_set 100 5 (Z.lor EV_READ EV_PERSIST);; event_active 100 EV_READ 2)
      (event_base_init 0 (mkTv 10 0) true) = Ok (tt, w1) /\
    event_process_active (fun _ _ _ => event_base_loopbreak;; mret tt) 10 (demo_answers 10) 1 w1 = Ok (tt, w2) /\
    event_del (demo_answers 11) 100 w2 = UB UseAfterFree.
Proof. eexists _, _. split; [vm_compute; reflexivity|]. split; [vm_compute; reflexivity|]. vm_compute. reflexivity. Qed.
