(* ===== verification/EventLife.v ===== *)
(** The life of an event base and of one-time events: [event_base_new],
    [event_base_free], [event_base_once] and [event_once_cb] of [event.c]
    ([socket/3rd/libevent-1.4.12-stable]). *)
From S2P Require Import Prelude.
From S2P Require Import BufferEvent MinHeap EventBase EventCorrect EventTimeouts EventLoop EventProps.

(** * Creation *)

(** [use_monotonic] is set once and for all when the monotonic clock answers. *)
Definition detect_monotonic (answers : bool) (w : eworld) : eworld :=
  mkWorld (w_base w) (w_mem w) (w_gotsig w) (w_monotonic w || answers) (w_calls w).

(** The loop over [eventops]: the first back end whose [init] succeeds. *)
Fixpoint choose_backend (inits : list bool) (i : Z) : option Z :=
  match inits with
  | [] => None
  | ok :: inits => if ok : bool then Some i else choose_backend inits (i + 1)
  end.

(** A new base in the place of the one in the state, with the events and the
    flag [use_monotonic] of the process. The result is the back end. *)
Definition event_base_new (mono : bool) (now : option timeval) (inits : list bool) : em Z :=
  w ← eget;
  let b := mkBase 0 0 false false [] [] (mkTv 0 0) min_heap_ctor (mkTv 0 0) in
  eput (detect_monotonic mono (mkWorld b (w_mem w) false (w_monotonic w) (w_calls w)));;
  emodify (set_base (fun b => set_times (default (event_tv b) (gettime now b)) (tv_cache b) b));;
  i ← elift (of_option AssertFailed (choose_backend inits 0));
  event_base_priority_init 1;;
  mret i.

(** * Release *)

(** The loops over [eventqueue] and over one active queue. The successor is read
    before the event is deleted, and deleting an event takes no other event off
    a queue, so the loop visits the queue as it was. *)
Fixpoint del_listed (a : answers) (q : list Z) : em unit :=
  match q with
  | [] => mret tt
  | x :: q =>
      o ← load_ev x;
      (if has_flag (ev_flags o) EVLIST_INTERNAL then mret tt else event_del a x;; mret tt);;
      del_listed a q
  end.

(** Every turn takes one event off the heap. *)
Fixpoint del_timers (fuel : nat) (a : answers) : em unit :=
  match fuel with
  | O => efail Diverges
  | S fuel =>
      w ← eget;
      top ← elift (min_heap_top (timeheap (w_base w)));
      match top with
      | None => mret tt
      | Some x => event_del a x;; del_timers fuel a
      end
  end.

Fixpoint del_active (a : answers) (n : nat) (i : Z) : em unit :=
  match n with
  | O => mret tt
  | S n =>
      w ← eget;
      q ← elift (active_queue (w_base w) i);
      del_listed a q;;
      del_active a n (i + 1)
  end.

Definition is_nil {A} (l : list A) : bool := match l with [] => true | _ => false end.

(** [dealloc] is the function of the back end, which also takes the internal
    event of the signals off the base. *)
Definition event_base_free (a : answers) (dealloc : em unit) : em unit :=
  w ← eget;
  del_listed a (eventqueue (w_base w));;
  w ← eget;
  del_timers (S (Z.to_nat (hn (timeheap (w_base w))))) a;;
  w ← eget;
  del_active a (length (activequeues (w_base w))) 0;;
  dealloc;;
  w ← eget;
  elift (require (forallb is_nil (activequeues (w_base w)) && min_heap_empty (timeheap (w_base w))
                  && is_nil (eventqueue (w_base w))) AssertFailed).

(** * One-time events *)

(** [x] is the address of the event inside the new [struct event_once], [ok]
    whether [calloc] has the memory. *)
Definition event_base_once (a : answers) (ok : bool) (x fd events : Z) (tv : option timeval) : em Z :=
  if has_flag events EV_SIGNAL then mret (-1)
  else if negb ok then mret (-1)
  else
    let go (fd events : Z) (tv : option timeval) : em Z :=
      event_set x fd events;;
      res ← event_base_set x;
      res ← (if res =? 0 then event_add a x tv else mret res);
      if negb (res =? 0) then emodify (set_mem (delete x));; mret res else mret 0 in
    if events =? EV_TIMEOUT then go (-1) 0 (Some (default (mkTv 0 0) tv))
    else if has_flag events (Z.lor EV_READ EV_WRITE) then go fd (Z.land events (Z.lor EV_READ EV_WRITE)) tv
    else mret (-1).

(** The callback of the event: the user's callback, then the structure is freed. *)
Definition event_once_cb (user : em unit) (x : Z) : em unit :=
  user;; emodify (set_mem (delete x)).

(** * Creation gives a sound base *)

Lemma choose_backend_ok inits : forall i, Is_true (existsb id inits) -> exists j, choose_backend inits i = Some j.
Proof.
  induction inits as [|[|] inits IH]; intros i H; cbn [choose_backend]; [done|eauto|]. by apply IH.
Qed.

Lemma event_base_new_ok mono now inits w : w_mem w = ∅ -> Is_true (existsb id inits) ->
  exists w' i, event_base_new mono now inits w = Ok (i, w') /\ base_inv w' /\
    event_tv (w_base w') = default (mkTv 0 0) now.
Proof.
  intros He Hi. destruct (choose_backend_ok inits 0 Hi) as [i Hc].
  unfold event_base_new. rewrite eget_bind. cbv zeta.
  rewrite (em_bind_Ok (eput _) _ w tt _ eq_refl), (em_bind_Ok (emodify _) _ _ tt _ eq_refl), Hc.
  cbn [of_option]. rewrite elift_Ok. eexists _, i. split; [reflexivity|]. split; [|done].
  rewrite He. by destruct (event_base_init_inv 0 (default (mkTv 0 0) now) true) as []; split.
Qed.

(** * Release takes every event off *)

Definition is_queue (k : Z) : Prop := k = EVLIST_INSERTED \/ k = EVLIST_ACTIVE \/ k = EVLIST_TIMEOUT.

(** The same events, on no more queues than before. *)
Definition quieter (w w' : eworld) : Prop :=
  forall x, match w_mem w !! x, w_mem w' !! x with
    | Some o, Some o' => flag o' EVLIST_INTERNAL = flag o EVLIST_INTERNAL /\ ev_pri o' = ev_pri o /\
        forall k, is_queue k -> flag o' k = true -> flag o k = true
    | None, None => True
    | _, _ => False
    end.

#[export] Instance quieter_refl : Reflexive quieter.
Proof. intros w x. destruct (w_mem w !! x); auto. Qed.

#[export] Instance quieter_trans : Transitive quieter.
Proof.
  intros w1 w2 w3 H1 H2 x. specialize (H1 x). specialize (H2 x).
  destruct (w_mem w1 !! x), (w_mem w2 !! x), (w_mem w3 !! x); try done.
  destruct H1 as (I1 & P1 & Q1), H2 as (I2 & P2 & Q2). split; [congruence|]. split; [congruence|]. auto.
Qed.

Lemma quieter_from w w' x o : quieter w w' -> w_mem w !! x = Some o ->
  exists o', w_mem w' !! x = Some o' /\ flag o' EVLIST_INTERNAL = flag o EVLIST_INTERNAL /\
    forall k, is_queue k -> flag o' k = true -> flag o k = true.
Proof. intros H Hx. specialize (H x). rewrite Hx in H. destruct (w_mem w' !! x); [|done]. naive_solver. Qed.

Lemma quieter_to w w' x o' : quieter w w' -> w_mem w' !! x = Some o' ->
  exists o, w_mem w !! x = Some o /\ flag o' EVLIST_INTERNAL = flag o EVLIST_INTERNAL /\ ev_pri o' = ev_pri o /\
    forall k, is_queue k -> flag o' k = true -> flag o k = true.
Proof. intros H Hx. specialize (H x). rewrite Hx in H. destruct (w_mem w !! x); [|done]. naive_solver. Qed.

Lemma unqueued_iff o : unqueued o <-> forall k, is_queue k -> flag o k = false.
Proof.
  split.
  - intros (Hi & Ha & Ht) k [->|[->| ->]]; done.
  - intros H. split; [|split]; apply H; unfold is_queue; auto.
Qed.

Lemma unqueued_quieter o o' : unqueued o -> (forall k, is_queue k -> flag o' k = true -> flag o k = true) -> unqueued o'.
Proof.
  rewrite !unqueued_iff. intros Hu Hq k Hk. destruct (has_flag (ev_flags o') k) eqn:E; [|done].
  rewrite <- (Hu k Hk). symmetry. by apply Hq.
Qed.

Lemma cleared_unqueued o i : unqueued (with_idx (cleared o) i).
Proof. apply unqueued_iff. intros k Hk. apply (cleared_flags o k Hk). Qed.

Lemma cleared_internal o : flag (cleared o) EVLIST_INTERNAL = flag o EVLIST_INTERNAL.
Proof. unfold cleared, qset. cbn [with_flags ev_flags]. by rewrite !has_flag_switch by (unfold single; auto). Qed.

Lemma deleted_quieter w w' x o : w_mem w !! x = Some o -> deleted x (ev_pri o) w w' -> quieter w w'.
Proof.
  intros Ho [_ _ He _ _ _] y. destruct (decide (y = x)) as [->|Hne].
  - destruct (edited_lookup _ _ _ _ o He Ho) as [i Hi]. rewrite Ho, Hi. split; [apply cleared_internal|].
    split; [done|]. intros k Hk. change (flag (with_idx (cleared o) i) k) with (flag (cleared o) k).
    by rewrite (cleared_flags o k Hk).
  - destruct (w_mem w !! y) as [oy|] eqn:Hy.
    + destruct (edited_lookup_ne _ _ _ _ y oy He Hne Hy) as [i Hi]. rewrite Hi. auto.
    + unfold edited in He. specialize (He y). rewrite lookup_alter_ne, Hy in He by done.
      by destruct (w_mem w' !! y).
Qed.

(** One deletion. *)
Lemma del_one a w x o : base_inv w -> w_mem w !! x = Some o ->
  exists w', (event_del a x;; mret tt) w = Ok (tt, w') /\ base_inv w' /\ eframe w w' /\ quieter w w' /\
    exists o', w_mem w' !! x = Some o' /\ unqueued o'.
Proof.
  intros H Ho. destruct (event_del_ok a w x o H Ho) as (w' & Hr & Hd). exists w'.
  rewrite (em_bind_Ok _ _ _ _ _ Hr). split; [done|]. pose proof (deleted_quieter w w' x o Ho Hd).
  destruct Hd as [Hi Hf He _ _ _]. destruct (edited_lookup _ _ _ _ o He Ho) as [i Hi'].
  repeat (split; [done|]). eexists. split; [exact Hi'|]. apply cleared_unqueued.
Qed.

Lemma del_listed_ok a q : forall w, base_inv w -> (forall x, x ∈ q -> is_Some (w_mem w !! x)) ->
  exists w', del_listed a q w = Ok (tt, w') /\ base_inv w' /\ eframe w w' /\ quieter w w' /\
    forall x o, x ∈ q -> w_mem w' !! x = Some o -> flag o EVLIST_INTERNAL = false -> unqueued o.
Proof.
  induction q as [|x q IH]; intros w H Hq.
  { exists w. repeat (split; [done|]). intros x o Hx. by apply elem_of_nil in Hx. }
  destruct (Hq x ltac:(left)) as [o Ho]. cbn [del_listed]. rewrite (em_bind_Ok _ _ _ _ _ (load_ev_ok x o w Ho)).
  assert (Hone : exists w1, (if has_flag (ev_flags o) EVLIST_INTERNAL then mret tt else event_del a x;; mret tt) w = Ok (tt, w1) /\
    base_inv w1 /\ eframe w w1 /\ quieter w w1 /\
    (flag o EVLIST_INTERNAL = false -> exists o1, w_mem w1 !! x = Some o1 /\ unqueued o1)).
  { destruct (has_flag (ev_flags o) EVLIST_INTERNAL) eqn:Ei.
    - exists w. repeat (split; [done|]). done.
    - destruct (del_one a w x o H Ho) as (w1 & Hr & H1 & F1 & Q1 & Hu). exists w1. auto. }
  destruct Hone as (w1 & Hr & H1 & F1 & Q1 & Hu). rewrite (em_bind_Ok _ _ _ _ _ Hr).
  destruct (IH w1 H1) as (w2 & Hr2 & H2 & F2 & Q2 & Hu2).
  { intros y Hy. destruct (Hq y ltac:(by right)) as [oy Hoy].
    destruct (quieter_from _ _ y oy Q1 Hoy) as (o' & Ho' & _). eauto. }
  exists w2. split; [done|]. split; [done|]. split; [by transitivity w1|]. split; [by transitivity w1|].
  intros y oy [->|Hy]%elem_of_cons Hoy Hint; [|by apply (Hu2 y)].
  destruct (quieter_to _ _ x oy Q2 Hoy) as (o1 & Ho1 & Hi1 & _ & Hk1).
  destruct (quieter_to _ _ x o1 Q1 Ho1) as (o0 & Ho0 & Hi0 & _). rewrite Ho in Ho0. injection Ho0 as <-.
  destruct (Hu ltac:(congruence)) as (o1' & Ho1' & Hu1). rewrite Ho1 in Ho1'. injection Ho1' as <-.
  by apply (unqueued_quieter o1).
Qed.

Lemma del_timers_ok a fuel : forall w, base_inv w -> hn (timeheap (w_base w)) < Z.of_nat fuel ->
  exists w', del_timers fuel a w = Ok (tt, w') /\ base_inv w' /\ eframe w w' /\ quieter w w' /\
    timers (w_mem w') = ∅.
Proof.
  induction fuel as [|fuel IH]; intros w H Hf.
  { pose proof (or_bounds _ _ _ _ (hk_ordered _ _ _ (bv_heap _ H))). lia. }
  cbn [del_timers]. rewrite eget_bind.
  destruct (min_heap_top_ok _ _ _ (bv_heap _ H)) as [(-> & He & _)|(x & o & -> & Hn & Hx & Ho & _)]; rewrite elift_Ok.
  - exists w. repeat (split; [done|]). done.
  - destruct (event_del_ok a w x o H Ho) as (w1 & Hr & Hd). pose proof (deleted_quieter w w1 x o Ho Hd) as Q1.
    rewrite (em_bind_Ok _ _ _ _ _ Hr). destruct Hd as [H1 F1 He _ _ _].
    assert (Hlt : hn (timeheap (w_base w1)) < hn (timeheap (w_base w))).
    { rewrite (ordered_size _ _ _ _ (hk_ordered _ _ _ (bv_heap _ H1))),
        (ordered_size _ _ _ _ (hk_ordered _ _ _ (bv_heap _ H))). apply inj_lt, subset_size.
      split.
      - intros y (oy & Hy & Hfl)%elem_of_timers. apply elem_of_timers.
        destruct (quieter_to _ _ y oy Q1 Hy) as (o0 & Ho0 & _ & _ & Hk). exists o0. split; [done|].
        apply Hk; [unfold is_queue; auto|done].
      - intros Hsub. apply Hsub, elem_of_timers in Hx as (o1 & Ho1 & Hfl).
        destruct (edited_lookup _ _ _ _ o He Ho) as [i Hi]. rewrite Hi in Ho1. injection Ho1 as <-.
        change (flag (cleared o) EVLIST_TIMEOUT = true) in Hfl. rewrite (cleared_flags o) in Hfl by auto. done. }
    destruct (IH w1 H1) as (w2 & Hr2 & H2 & F2 & Q2 & Ht); [lia|]. exists w2.
    split; [done|]. split; [done|]. split; [by transitivity w1|]. split; [by transitivity w1|done].
Qed.

Lemma del_active_ok a n : forall w i, base_inv w -> 0 <= i -> i + Z.of_nat n = blen (activequeues (w_base w)) ->
  exists w', del_active a n i w = Ok (tt, w') /\ base_inv w' /\ eframe w w' /\ quieter w w' /\
    forall x o, w_mem w' !! x = Some o -> flag o EVLIST_INTERNAL = false -> i <= ev_pri o -> flag o EVLIST_ACTIVE = false.
Proof.
  induction n as [|n IH]; intros w i H Hi Hn.
  { exists w. repeat (split; [done|]). intros x o Ho _ Hp. destruct (bv_event _ H x o Ho) as ((_ & Hb) & _). lia. }
  cbn [del_active]. rewrite eget_bind. unfold blen in Hn.
  destruct (lookup_lt_is_Some_2 (activequeues (w_base w)) (Z.to_nat i)) as [q Hq]; [lia|].
  unfold active_queue. zdecide. cbn [require]. rewrite bind_Ok, Hq. cbn [of_option]. rewrite elift_Ok.
  destruct (bv_active _ H _ _ Hq) as [_ Hin].
  destruct (del_listed_ok a q w H) as (w1 & Hr & H1 & F1 & Q1 & Hu).
  { intros x Hx. apply Hin in Hx as (o & Ho & _). eauto. }
  rewrite (em_bind_Ok _ _ _ _ _ Hr).
  destruct (IH w1 (i + 1) H1) as (w2 & Hr2 & H2 & F2 & Q2 & Ha); [lia|rewrite (ef_queues _ _ F1); unfold blen; lia|].
  exists w2. split; [done|]. split; [done|]. split; [by transitivity w1|]. split; [by transitivity w1|].
  intros x o Ho Hint Hp. destruct (decide (ev_pri o = i)) as [He|He]; [|apply (Ha x o Ho Hint); lia].
  destruct (has_flag (ev_flags o) EVLIST_ACTIVE) eqn:Hfl; [|done]. exfalso.
  destruct (quieter_to _ _ x o Q2 Ho) as (o1 & Ho1 & Hi1 & Hp1 & Hk1).
  destruct (quieter_to _ _ x o1 Q1 Ho1) as (o0 & Ho0 & Hi0 & Hp0 & Hk0).
  assert (Ha1 : flag o1 EVLIST_ACTIVE = true) by (apply Hk1; [unfold is_queue; auto|done]).
  assert (Hu1 : unqueued o1).
  { apply (Hu x); [|done|congruence]. apply Hin. exists o0. split; [done|]. split; [lia|].
    apply Hk0; [unfold is_queue; auto|done]. }
  destruct Hu1 as (_ & Hu1 & _). congruence.
Qed.

(** What the base relies on when the back end is shut down: it takes the
    internal events off and adds nothing. *)
Class DeallocLaws (dealloc : em unit) : Prop :=
  dealloc_sound : forall w, base_inv w -> exists w', dealloc w = Ok (tt, w') /\ base_inv w' /\ quieter w w' /\
    forall x o, w_mem w' !! x = Some o -> flag o EVLIST_INTERNAL = true -> unqueued o.

Lemma all_unqueued_empty w : base_inv w -> (forall x o, w_mem w !! x = Some o -> unqueued o) ->
  forallb is_nil (activequeues (w_base w)) && min_heap_empty (timeheap (w_base w)) && is_nil (eventqueue (w_base w)) = true.
Proof.
  intros H Hu. rewrite !andb_true_iff. split; [split|].
  - apply forallb_forall. intros q Hq. apply list_elem_of_In, list_elem_of_lookup in Hq as [i Hq].
    destruct q as [|x q]; [done|]. destruct (bv_active _ H _ _ Hq) as [_ Hin].
    destruct (proj1 (Hin x) ltac:(left)) as (o & Ho & _ & Hf). destruct (Hu x o Ho) as (_ & Ha & _). congruence.
  - unfold min_heap_empty. apply Z.eqb_eq.
    rewrite (ordered_size _ _ _ _ (hk_ordered _ _ _ (bv_heap _ H))).
    replace (timers (w_mem w)) with (∅ : gset Z); [by rewrite size_empty|]. apply set_eq. intros x.
    rewrite elem_of_timers. split; [set_solver|]. intros (o & Ho & Hf). destruct (Hu x o Ho) as (_ & _ & Ht). congruence.
  - destruct (bv_inserted _ H) as [_ Hin]. destruct (eventqueue (w_base w)) as [|x q]; [done|].
    destruct (proj1 (Hin x) ltac:(left)) as (o & Ho & Hf). destruct (Hu x o Ho) as (Hi & _). congruence.
Qed.

(** C27: a sound base can always be released. Whatever events are registered,
    pending or active, [event_base_free] ends, its three final assertions hold,
    and afterwards every event, internal ones included, is on no queue and in no
    heap slot, so that its owner may free or reuse it. The back end's shut-down
    has to take the internal events off. *)
Theorem event_base_free_releases (a : answers) (dealloc : em unit) (w : eworld) :
  DeallocLaws dealloc -> base_inv w ->
  exists w', event_base_free a dealloc w = Ok (tt, w') /\ base_inv w' /\ dom (w_mem w') = dom (w_mem w) /\
    forall x o, w_mem w' !! x = Some o -> unqueued o /\ min_heap_idx o = NO_IDX.
Proof.
  intros Hd H. unfold event_base_free. rewrite eget_bind.
  destruct (del_listed_ok a (eventqueue (w_base w)) w H) as (w1 & Hr1 & H1 & F1 & Q1 & Hu1).
  { intros x Hx. apply (bv_inserted _ H) in Hx as (o & Ho & _). eauto. }
  rewrite (em_bind_Ok _ _ _ _ _ Hr1), eget_bind.
  destruct (del_timers_ok a (S (Z.to_nat (hn (timeheap (w_base w1))))) w1 H1) as (w2 & Hr2 & H2 & F2 & Q2 & Ht2); [lia|].
  rewrite (em_bind_Ok _ _ _ _ _ Hr2), eget_bind.
  destruct (del_active_ok a (length (activequeues (w_base w2))) w2 0 H2) as (w3 & Hr3 & H3 & F3 & Q3 & Ha3); [lia|done|].
  rewrite (em_bind_Ok _ _ _ _ _ Hr3).
  destruct (dealloc_sound w3 H3) as (w4 & Hr4 & H4 & Q4 & Hi4). rewrite (em_bind_Ok _ _ _ _ _ Hr4), eget_bind.
  assert (Hall : forall x o, w_mem w4 !! x = Some o -> unqueued o).
  { intros x o4 Ho4. destruct (has_flag (ev_flags o4) EVLIST_INTERNAL) eqn:Hint; [by apply (Hi4 x)|].
    destruct (quieter_to _ _ x o4 Q4 Ho4) as (o3 & Ho3 & I3 & _ & K3).
    destruct (quieter_to _ _ x o3 Q3 Ho3) as (o2 & Ho2 & I2 & _ & K2).
    destruct (quieter_to _ _ x o2 Q2 Ho2) as (o1 & Ho1 & I1 & _ & K1).
    destruct (quieter_to _ _ x o1 Q1 Ho1) as (o0 & Ho0 & I0 & _ & K0).
    apply (unqueued_quieter o3); [|done]. split; [|split].
    - destruct (has_flag (ev_flags o3) EVLIST_INSERTED) eqn:E; [|done]. exfalso.
      assert (E1 : flag o1 EVLIST_INSERTED = true) by (apply K1, K2; unfold is_queue; auto).
      destruct (Hu1 x o1) as (Hf & _); [|done|congruence|congruence].
      apply (bv_inserted _ H). exists o0. split; [done|]. apply K0; [unfold is_queue; auto|done].
    - apply (Ha3 x o3 Ho3); [congruence|]. apply (bv_event _ H3 x o3 Ho3).
    - destruct (has_flag (ev_flags o3) EVLIST_TIMEOUT) eqn:E; [|done]. exfalso.
      assert (Hx : x ∈ timers (w_mem w2)).
      { apply elem_of_timers. exists o2. split; [done|]. apply K2; [unfold is_queue; auto|done]. }
      rewrite Ht2 in Hx. set_solver. }
  exists w4. rewrite (all_unqueued_empty w4 H4 Hall). split; [done|]. split; [done|]. split.
  - assert (Q : quieter w w4) by (transitivity w3; [transitivity w2; [transitivity w1|]|]; done).
    apply set_eq. intros x. rewrite !elem_of_dom. specialize (Q x).
    destruct (w_mem w !! x), (w_mem w4 !! x); try done; split; eauto; by intros [? ?].
  - intros x o Ho. pose proof (Hall x o Ho) as Hu. split; [done|]. apply (hk_out _ _ _ (bv_heap _ H4) x o Ho).
    rewrite elem_of_timers. intros (o' & Ho' & Hf). destruct Hu as (_ & _ & Ht). congruence.
Qed.

(** A back end that deletes every internal event. *)
Fixpoint del_all (a : answers) (q : list Z) : em unit :=
  match q with [] => mret tt | x :: q => (event_del a x;; mret tt);; del_all a q end.

Definition internals (E : events) : list Z :=
  fst <$> map_to_list (filter (fun xo => flag (snd xo) EVLIST_INTERNAL = true) E).

Definition demo_dealloc (a : answers) : em unit := w ← eget; del_all a (internals (w_mem w)).

Lemma del_all_ok a q : forall w, base_inv w -> (forall x, x ∈ q -> is_Some (w_mem w !! x)) ->
  exists w', del_all a q w = Ok (tt, w') /\ base_inv w' /\ quieter w w' /\
    forall x o, x ∈ q -> w_mem w' !! x = Some o -> unqueued o.
Proof.
  induction q as [|x q IH]; intros w H Hq.
  { exists w. repeat (split; [done|]). intros x o Hx. by apply elem_of_nil in Hx. }
  destruct (Hq x ltac:(left)) as [o Ho]. cbn [del_all].
  destruct (del_one a w x o H Ho) as (w1 & Hr & H1 & _ & Q1 & o1 & Ho1 & Hu1). rewrite (em_bind_Ok _ _ _ _ _ Hr).
  destruct (IH w1 H1) as (w2 & Hr2 & H2 & Q2 & Hu2).
  { intros y Hy. destruct (Hq y ltac:(by right)) as [oy Hoy].
    destruct (quieter_from _ _ y oy Q1 Hoy) as (o' & Ho' & _). eauto. }
  exists w2. split; [done|]. split; [done|]. split; [by transitivity w1|].
  intros y oy [->|Hy]%elem_of_cons Hoy; [|by apply (Hu2 y)].
  destruct (quieter_to _ _ x oy Q2 Hoy) as (o1' & Ho1' & _ & _ & Hk). rewrite Ho1 in Ho1'. injection Ho1' as <-.
  by apply (unqueued_quieter o1).
Qed.

Lemma elem_of_internals E x : x ∈ internals E <-> flagged E x EVLIST_INTERNAL.
Proof.
  unfold internals, flagged. rewrite list_elem_of_fmap. split.
  - intros ([y o] & -> & Ho%elem_of_map_to_list). apply map_lookup_filter_Some in Ho as [Ho Hf]. by exists o.
  - intros (o & Ho & Hf). exists (x, o). split; [done|]. apply elem_of_map_to_list, map_lookup_filter_Some. by split.
Qed.

#[export] Instance demo_dealloc_laws a : DeallocLaws (demo_dealloc a).
Proof.
  intros w H. unfold demo_dealloc. rewrite eget_bind.
  destruct (del_all_ok a (internals (w_mem w)) w H) as (w' & Hr & H' & Q & Hu).
  { intros x (o & Ho & _)%elem_of_internals. eauto. }
  exists w'. repeat (split; [done|]). intros x o' Ho' Hi. apply (Hu x); [|done].
  destruct (quieter_to _ _ x o' Q Ho') as (o & Ho & Hio & _). apply elem_of_internals. exists o. split; [done|congruence].
Qed.

Lemma event_base_free_releases_witness :
  exists w', event_base_free (demo_answers 20) (demo_dealloc (demo_answers 20)) (demo_world true) = Ok (tt, w') /\
    (forall x o, w_mem w' !! x = Some o -> unqueued o /\ min_heap_idx o = NO_IDX) /\ event_count (w_base w') = 0.
Proof.
  destruct (event_base_free_releases (demo_answers 20) (demo_dealloc (demo_answers 20)) (demo_world true))
    as (w' & Hr & _ & _ & Hu).
  - apply demo_dealloc_laws.
  - apply base_reach_inv, demo_reach.
  - exists w'. split; [exact Hr|]. split; [exact Hu|]. clear Hu. vm_compute in Hr. injection Hr as <-. reflexivity.
Defined.

(** * One-time events are registered or leave no trace *)

(** The event of a one-time registration, before it is added. *)
Definition once_event (w : eworld) (fd events : Z) : event :=
  mkEvent NO_IDX fd events 0 None (mkTv 0 0) (blen (activequeues (w_base w)) / 2) 0 EVLIST_INIT.

Lemma once_event_flags w fd events : unqueued (once_event w fd events).
Proof. by repeat split. Qed.

(** The common part of the two kinds. *)
Lemma once_registers a x fd events tv due w : base_inv w -> w_mem w !! x = None ->
  Z.of_nat (size (w_mem w)) + 1 < 2 ^ 29 -> an_add a x = 0 \/ an_add a x = -1 ->
  match tv, due with
  | Some tv, Some due => exists now, gettime (an_clock a) (w_base w) = Some now /\ evutil_timeradd now tv = Ok due
  | None, None => True
  | _, _ => False
  end ->
  exists w' r, (event_set x fd events;;
      res ← event_base_set x;
      res ← (if res =? 0 then event_add a x tv else mret res);
      if negb (res =? 0) then emodify (set_mem (delete x));; mret res else mret 0) w = Ok (r, w') /\
    base_inv w' /\
    (r = -1 /\ w_mem w' = w_mem w /\ eventqueue (w_base w') = eventqueue (w_base w) /\
       event_count (w_base w') = event_count (w_base w) \/
     r = 0 /\ exists i, w_mem w' !! x = Some (with_idx (added due (once_event w fd events)) i)).
Proof.
  intros H Hx Hs Ha Htv. set (o := once_event w fd events).
  destruct (event_set_ok w x fd events H) as (w1 & Hr1 & H1); [by rewrite Hx|done|].
  assert (Hw1 : w1 = set_mem <[x := o]> w).
  { unfold event_set, emodify in Hr1. rewrite Hx in Hr1. by injection Hr1 as <-. }
  rewrite (em_bind_Ok _ _ _ _ _ Hr1).
  assert (Ho : w_mem w1 !! x = Some o) by (rewrite Hw1; apply lookup_insert_eq).
  assert (Hset : event_base_set x w1 = Ok (0, w1)).
  { unfold event_base_set. rewrite (em_bind_Ok _ _ _ _ _ (load_ev_ok x o w1 Ho)). cbn [o once_event ev_flags].
    rewrite Z.eqb_refl. cbn [negb]. rewrite eget_bind, (em_bind_Ok _ _ _ _ _ (update_ev_ok x _ w1 o Ho)).
    unfold mret, em_ret. f_equal. f_equal. rewrite Hw1. unfold set_mem. cbn. f_equal.
    rewrite (alter_insert _ x _ o) by apply lookup_insert_eq. by rewrite insert_insert_eq. }
  rewrite (em_bind_Ok _ _ _ _ _ Hset). cbn [Z.eqb].
  destruct (event_add_ok a w1 x o tv due H1 Ho) as (w2 & r & Hr2 & H2 & F2 & Hres).
  { destruct tv, due; try done. by rewrite Hw1. }
  rewrite (em_bind_Ok _ _ _ _ _ Hr2). destruct (decide (r = -1)) as [->|Hne].
  - cbn [Z.eqb negb]. destruct Hres as (h & -> & Hh). eexists _, (-1). split; [reflexivity|]. split.
    + apply (base_inv_delete _ x o H2 Ho). apply once_event_flags.
    + left. split; [done|]. rewrite Hw1. cbn. split; [by apply delete_insert_id|done].
  - assert (r = 0) as ->.
    { unfold event_add in Hr2. rewrite (em_bind_Ok _ _ _ _ _ (load_ev_ok x o w1 Ho)) in Hr2.
      rewrite (em_bind_Ok _ _ _ _ _ (assert_flags_ok w1 x o H1 Ho)), eget_bind in Hr2.
      destruct (reserve_ok a w1 o tv H1) as (h & r' & Hrs & H3 & _). rewrite Hrs in Hr2.
      destruct (r' =? -1); [by injection Hr2|].
      rewrite (em_bind_Ok (emodify _) _ w1 tt (set_base (set_timeheap h) w1) eq_refl) in Hr2.
      destruct (add_io_ok a _ x o H3 Ho) as (w3 & Hr3 & _). rewrite (em_bind_Ok _ _ _ _ _ Hr3) in Hr2.
      destruct tv as [tv|].
      - destruct ((if wants_io o then an_add a x else 0) =? -1).
        + injection Hr2 as <- _. destruct (wants_io o); [|done]. by destruct Ha.
        + cbn [negb] in Hr2. unfold mbind, em_bind in Hr2. destruct (add_timeout a x tv w3) as [[[] w4]|]; [|done].
          injection Hr2 as <- _. destruct (wants_io o); [|done]. by destruct Ha.
      - injection Hr2 as <- _. destruct (wants_io o); [|done]. by destruct Ha. }
    cbn [Z.eqb negb]. exists w2, 0. split; [done|]. split; [done|]. right. split; [done|].
    exact (edited_lookup _ _ _ _ o Hres Ho).
Qed.

(** The two results of a registration: nothing has changed, or the event waits
    for the time-out when there is one and for I/O unless only for the time. *)
Definition once_result (x events : Z) (tv : option timeval) (w : eworld) (r : Z) (w' : eworld) : Prop :=
  r = -1 /\ w_mem w' = w_mem w /\ eventqueue (w_base w') = eventqueue (w_base w) /\
    event_count (w_base w') = event_count (w_base w) \/
  r = 0 /\ exists o, w_mem w' !! x = Some o /\
    flag o EVLIST_TIMEOUT = (events =? EV_TIMEOUT) || given tv /\
    flag o EVLIST_INSERTED = negb (events =? EV_TIMEOUT).

Lemma once_wants_io w fd events : has_flag events (Z.lor EV_READ EV_WRITE) = true ->
  wants_io (once_event w fd (Z.land events (Z.lor EV_READ EV_WRITE))) = true.
Proof.
  unfold wants_io, has_flag. cbn [once_event ev_events ev_flags]. rewrite <- Z.land_assoc.
  change (Z.land (Z.lor EV_READ EV_WRITE) (Z.lor EV_READ (Z.lor EV_WRITE EV_SIGNAL))) with (Z.lor EV_READ EV_WRITE).
  by intros ->.
Qed.

(** [event_base_once] on every combination of events and outcomes: a signal, a
    combination that waits for nothing, or no memory give -1 and change nothing;
    a refusal of [event_add] gives -1 and the structure is freed again; 0 means
    that the event is registered for exactly what was asked, a time-out without
    a time being one that is due at once. *)
Theorem event_base_once_outcomes a ok x fd events tv now w : base_inv w -> w_mem w !! x = None ->
  Z.of_nat (size (w_mem w)) + 1 < 2 ^ 29 -> an_add a x = 0 \/ an_add a x = -1 ->
  gettime (an_clock a) (w_base w) = Some now -> (exists due, evutil_timeradd now (default (mkTv 0 0) tv) = Ok due) ->
  exists w' r, event_base_once a ok x fd events tv w = Ok (r, w') /\ base_inv w' /\ once_result x events tv w r w'.
Proof.
  intros H Hx Hs Ha Hg [due Hd]. unfold event_base_once.
  assert (Hno : exists w' r, (mret (-1) : em Z) w = Ok (r, w') /\ base_inv w' /\ once_result x events tv w r w').
  { exists w, (-1). split; [done|]. split; [done|]. by left. }
  destruct (has_flag events EV_SIGNAL); [exact Hno|]. destruct ok; [cbn [negb]|exact Hno].
  destruct (Z.eqb_spec events EV_TIMEOUT) as [->|Ht].
  - destruct (once_registers a x (-1) 0 (Some (default (mkTv 0 0) tv)) (Some due) w H Hx Hs Ha) as (w' & r & Hr & H' & Hres);
      [eauto|].
    exists w', r. split; [exact Hr|]. split; [done|]. destruct Hres as [Hres|[-> [i Hi]]]; [by left|]. right. split; [done|].
    eexists. split; [exact Hi|]. split; reflexivity.
  - destruct (has_flag events (Z.lor EV_READ EV_WRITE)) eqn:Erw; [|exact Hno].
    pose proof (once_wants_io w fd events Erw) as Hio. apply Z.eqb_neq in Ht.
    destruct (once_registers a x fd (Z.land events (Z.lor EV_READ EV_WRITE)) tv
      (if given tv then Some due else None) w H Hx Hs Ha) as (w' & r & Hr & H' & Hres).
    { destruct tv; cbn [given]; eauto. }
    exists w', r. split; [exact Hr|]. split; [done|]. destruct Hres as [Hres|[-> [i Hi]]]; [by left|]. right. split; [done|].
    eexists. split; [exact Hi|]. rewrite Ht. unfold added, io_added. rewrite Hio. destruct tv; split; reflexivity.
Qed.
