(* ===== verification/EvSignal.v ===== *)
(** libevent's signal handling: [signal.c] and [evsignal.h] of
    [socket/3rd/libevent-1.4.12-stable]. The handler that a signal runs only
    counts; the loop later turns the counts into activations. The state is the
    [evsignal_info] of the base, the memory of saved handlers, the kernel's
    table of dispositions and the calls made to the event base. *)
From S2P Require Import Prelude.
From S2P Require Import BufferEvent MinHeap EventBase.

(** * Data *)

(** The number of signals on Linux, plus one. *)
Definition NSIG : Z := 65.

(** What a signal does: the handler of a [struct sigaction]. *)
Inductive sigdisp : Type :=
| SigDfl
| SigIgn
| SigUser (f : Z)
| SigLib        (* [evsignal_handler] *).

#[export] Instance sigdisp_eq_dec : EqDecision sigdisp.
Proof. solve_decision. Defined.

(** The kernel's table of dispositions, with [sigaction]: no answer is its error
    result, no new action leaves the table as it is. *)
Class SigKernel : Type := {
  sigtable : Type;
  disposition : sigtable -> Z -> sigdisp;
  accepts : Z -> bool;
  sigaction : Z -> option sigdisp -> sigtable -> option (sigdisp * sigtable)
}.

(** [sigaction(2)]: it refuses signals by number only (those that do not exist or
    cannot be caught), reports the old action and installs the new one. *)
Class SigKernelOk `{K : !SigKernel} : Prop := {
  sigaction_accepts sig act k : is_Some (sigaction sig act k) <-> accepts sig = true;
  sigaction_old sig act k old k' : sigaction sig act k = Some (old, k') -> old = disposition k sig;
  sigaction_set sig act k old k' i : sigaction sig act k = Some (old, k') ->
    disposition k' i = if decide (i = sig) then default (disposition k sig) act else disposition k i
}.

(** [struct evsignal_info]; [sh_old_max] is the length of [sh_old], and the
    internal event is given by its descriptor, events and flags. *)
Record evsignal_info := mkSig {
  ev_signal : Z * Z * Z;
  ev_signal_pair : Z * Z;
  ev_signal_added : bool;
  evsignal_caught : bool;
  evsigevents : list (list Z);
  evsigcaught : list Z;
  sh_old : list (option Z)
}.

(** Calls of the event base's functions. *)
Inductive base_call : Type :=
| AddInternal
| DelInternal
| DelEvent (ev : Z)
| ActiveEvent (ev res ncalls : Z).

#[export] Instance base_call_eq_dec : EqDecision base_call.
Proof. solve_decision. Defined.

(** The outside answers of one [evsignal_add]: the two allocations and the
    result of adding the internal event. *)
Record sig_answers := mkSigAnswers {
  sa_realloc : bool;
  sa_malloc : bool;
  sa_add : Z
}.

Section Signals.
Context {K : SigKernel}.

(** [sw_set] is whether [evsignal_base] points to the base; [sw_sent] counts the
    bytes in the socket pair. A saved handler is unset until [sigaction] fills
    it. *)
Record sigworld := mkSigworld {
  sw_info : evsignal_info;
  sw_saved : gmap Z (option sigdisp);
  sw_next : Z;
  sw_set : bool;
  sw_kernel : sigtable;
  sw_sent : Z;
  sw_calls : list base_call
}.

Definition set_info (f : evsignal_info -> evsignal_info) (w : sigworld) : sigworld :=
  mkSigworld (f (sw_info w)) (sw_saved w) (sw_next w) (sw_set w) (sw_kernel w) (sw_sent w) (sw_calls w).
Definition set_saved (f : gmap Z (option sigdisp) -> gmap Z (option sigdisp)) (w : sigworld) : sigworld :=
  mkSigworld (sw_info w) (f (sw_saved w)) (sw_next w) (sw_set w) (sw_kernel w) (sw_sent w) (sw_calls w).
Definition set_kernel (k : sigtable) (w : sigworld) : sigworld :=
  mkSigworld (sw_info w) (sw_saved w) (sw_next w) (sw_set w) k (sw_sent w) (sw_calls w).
Definition set_sigbase (w : sigworld) : sigworld :=
  mkSigworld (sw_info w) (sw_saved w) (sw_next w) true (sw_kernel w) (sw_sent w) (sw_calls w).
Definition set_sent (n : Z) (w : sigworld) : sigworld :=
  mkSigworld (sw_info w) (sw_saved w) (sw_next w) (sw_set w) (sw_kernel w) n (sw_calls w).
Definition log_call (c : base_call) (w : sigworld) : sigworld :=
  mkSigworld (sw_info w) (sw_saved w) (sw_next w) (sw_set w) (sw_kernel w) (sw_sent w) (sw_calls w ++ [c]).

(** [malloc]: a fresh block, not yet written. *)
Definition malloc_saved (w : sigworld) : sigworld :=
  mkSigworld (sw_info w) (<[sw_next w := None]> (sw_saved w)) (sw_next w + 1) (sw_set w) (sw_kernel w)
    (sw_sent w) (sw_calls w).

Definition with_added (b : bool) (s : evsignal_info) : evsignal_info :=
  mkSig (ev_signal s) (ev_signal_pair s) b (evsignal_caught s) (evsigevents s) (evsigcaught s) (sh_old s).
Definition with_caught (b : bool) (c : list Z) (s : evsignal_info) : evsignal_info :=
  mkSig (ev_signal s) (ev_signal_pair s) (ev_signal_added s) b (evsigevents s) c (sh_old s).
Definition with_sigevents (q : list (list Z)) (s : evsignal_info) : evsignal_info :=
  mkSig (ev_signal s) (ev_signal_pair s) (ev_signal_added s) (evsignal_caught s) q (evsigcaught s) (sh_old s).
Definition with_old (sh : list (option Z)) (s : evsignal_info) : evsignal_info :=
  mkSig (ev_signal s) (ev_signal_pair s) (ev_signal_added s) (evsignal_caught s) (evsigevents s)
    (evsigcaught s) sh.

(** An array access with a C index. *)
Definition at_index {A} (l : list A) (i : Z) : cres A :=
  require (0 <=? i) OutOfBounds;; of_option OutOfBounds (l !! Z.to_nat i).

(** * Setting up *)

(** [evsignal_cb]: the byte that woke the loop is read; an error ends the
    program. *)
Definition evsignal_cb (n : Z) (w : sigworld) : cres sigworld :=
  if n =? -1 then UB AssertFailed else Ok (set_sent (sw_sent w - n) w).

(** [evsignal_init]; without a socket pair the program ends. *)
Definition evsignal_init (pair : option (Z * Z)) (w : sigworld) : cres (Z * sigworld) :=
  match pair with
  | None => UB AssertFailed
  | Some p =>
      Ok (0, set_sent 0 (set_info (fun s =>
        mkSig (snd p, Z.lor EV_READ EV_PERSIST, Z.lor EVLIST_INIT EVLIST_INTERNAL) p (ev_signal_added s) false
          (replicate (Z.to_nat NSIG) []) (replicate (Z.to_nat NSIG) 0) []) w))
  end.

(** * Handlers *)

Definition _evsignal_set_handler (a : sig_answers) (evsignal : Z) (handler : sigdisp) (w : sigworld)
  : cres (Z * sigworld) :=
  let grow := evsignal >=? blen (sh_old (sw_info w)) in
  if grow && negb (sa_realloc a) then Ok (-1, w)
  else
    let w := if grow
             then set_info (fun s => with_old (sh_old s ++ replicate (Z.to_nat (evsignal + 1 - blen (sh_old s))) None) s) w
             else w in
    at_index (sh_old (sw_info w)) evsignal;;
    if negb (sa_malloc a) then
      Ok (-1, set_info (fun s => with_old (<[Z.to_nat evsignal := None]> (sh_old s)) s) w)
    else
      let p := sw_next w in
      let w := set_info (fun s => with_old (<[Z.to_nat evsignal := Some p]> (sh_old s)) s) (malloc_saved w) in
      match sigaction evsignal (Some handler) (sw_kernel w) with
      | None => Ok (-1, set_saved (delete p) w)
      | Some (old, k) => Ok (0, set_kernel k (set_saved <[p := Some old]> w))
      end.

Definition _evsignal_restore_handler (evsignal : Z) (w : sigworld) : cres (Z * sigworld) :=
  sh ← at_index (sh_old (sw_info w)) evsignal;
  let w := set_info (fun s => with_old (<[Z.to_nat evsignal := None]> (sh_old s)) s) w in
  act ← match sh with
        | None => Ok None
        | Some p => c ← of_option UseAfterFree (sw_saved w !! p);
                    d ← of_option Uninitialised c; Ok (Some d)
        end;
  let '(ret, k) := match sigaction evsignal act (sw_kernel w) with
                   | None => (-1, sw_kernel w)
                   | Some (_, k) => (0, k)
                   end in
  Ok (ret, set_kernel k (set_saved (match sh with Some p => delete p | None => id end) w)).

(** * Adding and deleting *)

Definition evsignal_add (a : sig_answers) (E : events) (ev : Z) (w : sigworld) : cres (Z * sigworld) :=
  o ← deref E ev;
  if has_flag (ev_events o) (Z.lor EV_READ EV_WRITE) then UB AssertFailed
  else
    let evsignal := ev_fd o in
    require ((0 <=? evsignal) && (evsignal <? NSIG)) AssertFailed;;
    q ← at_index (evsigevents (sw_info w)) evsignal;
    '(r, w) ← (match q with
               | [] =>
                   '(r, w) ← _evsignal_set_handler a evsignal SigLib w;
                   if r =? -1 then Ok (-1, w)
                   else
                     let w := set_sigbase w in
                     if negb (ev_signal_added (sw_info w)) then
                       let w := log_call AddInternal w in
                       if negb (sa_add a =? 0) then Ok (-1, w) else Ok (0, set_info (with_added true) w)
                     else Ok (0, w)
               | _ :: _ => Ok (0, w)
               end);
    if r =? -1 then Ok (-1, w)
    else Ok (0, set_info (fun s => with_sigevents (<[Z.to_nat evsignal := q ++ [ev]]> (evsigevents s)) s) w).

Definition evsignal_del (E : events) (ev : Z) (w : sigworld) : cres (Z * sigworld) :=
  o ← deref E ev;
  let evsignal := ev_fd o in
  require ((0 <=? evsignal) && (evsignal <? NSIG)) AssertFailed;;
  q ← at_index (evsigevents (sw_info w)) evsignal;
  q ← tailq_remove ev q;
  let w := set_info (fun s => with_sigevents (<[Z.to_nat evsignal := q]> (evsigevents s)) s) w in
  match q with
  | _ :: _ => Ok (0, w)
  | [] => _evsignal_restore_handler evsignal w
  end.

(** * Signals *)

(** What a signal does: [evsignal_handler]. *)
Definition evsignal_handler (sig : Z) (w : sigworld) : cres sigworld :=
  if negb (sw_set w) then Ok w
  else
    n ← at_index (evsigcaught (sw_info w)) sig;
    n ← chk_int (n + 1);
    Ok (set_sent (sw_sent w + 1)
          (set_info (fun s => with_caught true (<[Z.to_nat sig := n]> (evsigcaught s)) s) w)).

Fixpoint signals (l : list Z) (w : sigworld) : cres sigworld :=
  match l with
  | [] => Ok w
  | sig :: l => w ← evsignal_handler sig w; signals l w
  end.

(** The loop over the events of one signal. [event_del] of an event on the list
    reaches [evsignal_del] through the back end's [del]; [event_active] takes the
    number of calls as a [short]. *)
Fixpoint deliver (E : events) (ncalls : Z) (q : list Z) (w : sigworld) : cres sigworld :=
  match q with
  | [] => Ok w
  | ev :: q =>
      o ← deref E ev;
      w ← (if negb (has_flag (ev_events o) EV_PERSIST)
           then '(_, w) ← evsignal_del E ev (log_call (DelEvent ev) w); Ok w
           else Ok w);
      deliver E ncalls q (log_call (ActiveEvent ev EV_SIGNAL (wrap16 ncalls)) w)
  end.

(** The turns of [evsignal_process] from signal [i] on. Signals may arrive at any
    time: [fst (arr i)] are those handled before the count of [i] is read,
    [snd (arr i)] those between the reading and the subtraction (the two
    accesses of the subtraction itself are taken as one). *)
Fixpoint process_signals (n : nat) (i : Z) (arr : Z -> list Z * list Z) (E : events) (w : sigworld)
  : cres sigworld :=
  match n with
  | O => Ok w
  | S n =>
      w ← signals (fst (arr i)) w;
      ncalls ← at_index (evsigcaught (sw_info w)) i;
      if ncalls =? 0 then process_signals n (i + 1) arr E w
      else
        w ← signals (snd (arr i)) w;
        c ← at_index (evsigcaught (sw_info w)) i;
        c ← chk_int (c - ncalls);
        let w := set_info (fun s => with_caught (evsignal_caught s) (<[Z.to_nat i := c]> (evsigcaught s)) s) w in
        q ← at_index (evsigevents (sw_info w)) i;
        w ← deliver E ncalls q w;
        process_signals n (i + 1) arr E w
  end.

Definition evsignal_process (arr : Z -> list Z * list Z) (E : events) (w : sigworld) : cres sigworld :=
  process_signals (Z.to_nat (NSIG - 1)) 1 arr E
    (set_info (fun s => with_caught false (evsigcaught s) s) w).

(** * Tearing down *)

Fixpoint restore_all (n : nat) (i : Z) (w : sigworld) : cres sigworld :=
  match n with
  | O => Ok w
  | S n =>
      w ← match sh_old (sw_info w) !! Z.to_nat i with
          | Some (Some _) => '(_, w) ← _evsignal_restore_handler i w; Ok w
          | _ => Ok w
          end;
      restore_all n (i + 1) w
  end.

Definition evsignal_dealloc (w : sigworld) : cres sigworld :=
  let w := if ev_signal_added (sw_info w)
           then set_info (with_added false) (log_call DelInternal w) else w in
  w ← restore_all (Z.to_nat NSIG) 0 w;
  Ok (set_info (fun s => mkSig (ev_signal s) (-1, -1) (ev_signal_added s) (evsignal_caught s) (evsigevents s)
                           (evsigcaught s) []) w).

End Signals.
