(* ===== verification/SignalCorrect.v ===== *)
(** Signals are counted, delivered and restored: the invariant of [EvSignal.v]
    and the behaviour of its operations. *)
From S2P Require Import Prelude.
From S2P Require Import BufferEvent MinHeap EventBase EventCorrect EvSignal.

Section Signals.
Context {K : SigKernel} {KO : SigKernelOk}.
Implicit Types (w : sigworld) (E : events).

(** The block that keeps the old handler of a signal. *)
Definition saved_at w (i : nat) : option Z := mjoin (sh_old (sw_info w) !! i).

Definition caught_at w (i : nat) : Z := default 0 (evsigcaught (sw_info w) !! i).

(** An event that [evsignal_add] takes for signal [i]. *)
Definition listens (E : events) (i : nat) (x : Z) : Prop :=
  exists o, E !! x = Some o /\ ev_fd o = Z.of_nat i /\ has_flag (ev_events o) (Z.lor EV_READ EV_WRITE) = false.

(** What holds of a signal with listeners [q]: with none its disposition is the
    original one and nothing is saved; with some the library's handler is
    installed and the original one kept. *)
Definition sig_state (orig : Z -> sigdisp) w (i : nat) (q : list Z) : Prop :=
  if decide (q = [])
  then saved_at w i = None /\ disposition (sw_kernel w) (Z.of_nat i) = orig (Z.of_nat i)
  else is_Some (saved_at w i) /\ disposition (sw_kernel w) (Z.of_nat i) = SigLib /\
       accepts (Z.of_nat i) = true /\ sw_set w = true /\ ev_signal_added (sw_info w) = true.

Record sig_inv (orig : Z -> sigdisp) (E : events) w : Prop := {
  si_lists : blen (evsigevents (sw_info w)) = NSIG;
  si_counts : blen (evsigcaught (sw_info w)) = NSIG /\ forall i, 0 <= caught_at w i;
  si_zero : caught_at w 0 = 0;
  si_old : blen (sh_old (sw_info w)) <= NSIG;
  si_queue : forall i q, evsigevents (sw_info w) !! i = Some q ->
    NoDup q /\ (forall x, x ∈ q -> listens E i x) /\ sig_state orig w i q;
  si_inj : forall i j p, saved_at w i = Some p -> saved_at w j = Some p -> i = j;
  si_saved : forall p v, sw_saved w !! p = Some v <->
    exists i, saved_at w i = Some p /\ v = Some (orig (Z.of_nat i));
  si_next : forall p, is_Some (sw_saved w !! p) -> p < sw_next w;
  si_other : forall i, ~ 0 <= i < NSIG -> disposition (sw_kernel w) i = orig i
}.

(** A signal was caught that no turn of [evsignal_process] has seen: signals
    from [i] on are still to be looked at. *)
Definition pending_known (i : nat) w : Prop :=
  forall j, caught_at w j <> 0 -> evsignal_caught (sw_info w) = true \/ (i <= j)%nat.

(** What the operations on the lists leave alone. *)
Record sig_frame w w' : Prop := {
  sf_caught : evsigcaught (sw_info w') = evsigcaught (sw_info w);
  sf_flag : evsignal_caught (sw_info w') = evsignal_caught (sw_info w);
  sf_set : sw_set w' = sw_set w;
  sf_added : ev_signal_added (sw_info w') = ev_signal_added (sw_info w);
  sf_calls : sw_calls w' = sw_calls w
}.

Lemma at_index_ok {A} (l : list A) (i : nat) a : l !! i = Some a -> at_index l (Z.of_nat i) = Ok a.
Proof. intros Hl. unfold at_index. replace (0 <=? Z.of_nat i) with true by (symmetry; apply Z.leb_le; lia). cbn. by rewrite Nat2Z.id, Hl. Qed.

Lemma blen_lookup {A} (l : list A) (i : nat) : Z.of_nat i < blen l -> is_Some (l !! i).
Proof. intros Hi. apply lookup_lt_is_Some. unfold blen in Hi. lia. Qed.

Lemma saved_at_bound w i p : saved_at w i = Some p -> Z.of_nat i < blen (sh_old (sw_info w)).
Proof.
  unfold saved_at. intros H. destruct (sh_old (sw_info w) !! i) eqn:Hl; [|done].
  apply lookup_lt_Some in Hl. unfold blen. lia.
Qed.

(** The table of saved handlers after one of its slots is written. *)
Lemma saved_at_insert w w' i v : sh_old (sw_info w') = <[i := v]> (sh_old (sw_info w)) ->
  Z.of_nat i < blen (sh_old (sw_info w)) ->
  forall j, saved_at w' j = if decide (j = i) then v else saved_at w j.
Proof.
  intros Hs Hi j. unfold saved_at. rewrite Hs. destruct (decide (j = i)) as [->|Hne].
  - rewrite list_lookup_insert_eq; [done|]. unfold blen in Hi. lia.
  - by rewrite list_lookup_insert_ne.
Qed.

Lemma sig_state_eq orig w w' i q : sig_state orig w i q -> saved_at w' i = saved_at w i ->
  disposition (sw_kernel w') (Z.of_nat i) = disposition (sw_kernel w) (Z.of_nat i) ->
  sw_set w' = sw_set w -> ev_signal_added (sw_info w') = ev_signal_added (sw_info w) -> sig_state orig w' i q.
Proof. unfold sig_state. intros H -> -> -> ->. done. Qed.

(** * The lists *)

(** Replacing a list that is not empty by another one that is not. *)
Lemma relist_ok orig E w i q q' : sig_inv orig E w -> evsigevents (sw_info w) !! i = Some q ->
  q <> [] -> q' <> [] -> NoDup q' -> (forall x, x ∈ q' -> listens E i x) ->
  sig_inv orig E (set_info (fun s => with_sigevents (<[i := q']> (evsigevents s)) s) w).
Proof.
  intros H Hq Hne Hne' Hnd Hx. destruct H as [Hl Hc Hz Ho Hqs Hi Hs Hn Hot]. split; try done.
  - cbn. unfold blen in *. by rewrite length_insert.
  - cbn. intros j qj Hj. destruct (decide (j = i)) as [->|Hji].
    + rewrite list_lookup_insert_eq in Hj by (by eapply lookup_lt_Some). injection Hj as <-.
      split; [done|]. split; [done|]. destruct (Hqs i q Hq) as (_ & _ & Hst). unfold sig_state in *.
      rewrite decide_False in Hst by done. by rewrite decide_False.
    + rewrite list_lookup_insert_ne in Hj by done. destruct (Hqs j qj Hj) as (? & ? & ?). done.
Qed.

(** * Putting handlers back *)

(** Every saved handler can be put back, and everything else is as it was. *)
Record restoring (orig : Z -> sigdisp) w : Prop := {
  rs_old : blen (sh_old (sw_info w)) <= NSIG;
  rs_inj : forall i j p, saved_at w i = Some p -> saved_at w j = Some p -> i = j;
  rs_saved : forall p v, sw_saved w !! p = Some v <->
    exists i, saved_at w i = Some p /\ v = Some (orig (Z.of_nat i));
  rs_accepts : forall i p, saved_at w i = Some p -> accepts (Z.of_nat i) = true;
  rs_disposition : forall s, (forall i, s = Z.of_nat i -> saved_at w i = None) ->
    disposition (sw_kernel w) s = orig s
}.

Lemma sig_inv_restoring orig E w : sig_inv orig E w -> restoring orig w.
Proof.
  intros [Hl Hc Hz Ho Hqs Hi Hs Hn Hot]. split; try done.
  - intros i p Hp. pose proof (saved_at_bound _ _ _ Hp). destruct (blen_lookup (evsigevents (sw_info w)) i) as [q Hq]; [lia|].
    destruct (Hqs i q Hq) as (_ & _ & Hst). unfold sig_state in Hst. case_decide; [|by destruct Hst as (_ & _ & ? & _)].
    destruct Hst. congruence.
  - intros s Hnone. destruct (decide (0 <= s < NSIG)) as [Hr|Hr]; [|by apply Hot].
    destruct (blen_lookup (evsigevents (sw_info w)) (Z.to_nat s)) as [q Hq]; [lia|].
    destruct (Hqs _ q Hq) as (_ & _ & Hst). unfold sig_state in Hst. rewrite Z2Nat.id in Hst by lia.
    case_decide; [by destruct Hst|]. destruct Hst as ([p Hp] & _). rewrite Hnone in Hp by lia. done.
Qed.

Lemma restore_step orig w i p : restoring orig w -> saved_at w i = Some p ->
  exists w', _evsignal_restore_handler (Z.of_nat i) w = Ok (0, w') /\ restoring orig w' /\ sig_frame w w' /\
    evsigevents (sw_info w') = evsigevents (sw_info w) /\ sw_next w' = sw_next w /\
    (forall j, saved_at w' j = if decide (j = i) then None else saved_at w j) /\
    (forall s, disposition (sw_kernel w') s = if decide (s = Z.of_nat i) then orig s else disposition (sw_kernel w) s).
Proof.
  intros [Ho Hi Hs Ha Hd] Hp. pose proof (saved_at_bound _ _ _ Hp) as Hb.
  assert (sw_saved w !! p = Some (Some (orig (Z.of_nat i)))) as Hsv by (apply Hs; eauto).
  assert (sh_old (sw_info w) !! i = Some (Some p)) as Hsh.
  { unfold saved_at in Hp. by destruct (sh_old (sw_info w) !! i) as [[?|]|]; cbn in Hp; simplify_eq. }
  unfold _evsignal_restore_handler. rewrite (at_index_ok _ i _ Hsh), bind_Ok. cbn [set_info with_old sw_saved sw_kernel].
  rewrite Hsv. cbn.
  destruct (proj2 (sigaction_accepts (Z.of_nat i) (Some (orig (Z.of_nat i))) (sw_kernel w)) (Ha i p Hp)) as [[old k] Hk].
  rewrite Hk, Nat2Z.id. eexists. split; [reflexivity|]. set (w' := set_kernel _ _).
  assert (forall j, saved_at w' j = if decide (j = i) then None else saved_at w j) as Hsa by (by apply saved_at_insert).
  assert (forall s, disposition k s = if decide (s = Z.of_nat i) then orig s else disposition (sw_kernel w) s) as Hdk.
  { intros s. rewrite (sigaction_set _ _ _ _ _ s Hk). destruct (decide (s = _)) as [->|]; done. }
  split; [|done]. split.
  - cbn. unfold blen in *. by rewrite length_insert.
  - intros a b p'. rewrite !Hsa. repeat case_decide; try done. apply Hi.
  - intros p' v. cbn. rewrite lookup_delete_Some, Hs. split.
    + intros (Hne & j & Hj & ->). exists j. rewrite Hsa, decide_False; [done|]. intros ->. congruence.
    + intros (j & Hj & ->). rewrite Hsa in Hj. case_decide; [done|]. split; [|by exists j].
      intros <-. by apply (Hi i j) in Hp.
  - intros j p'. rewrite Hsa. case_decide; [done|]. apply Ha.
  - cbn. intros s Hnone. rewrite Hdk. case_decide as Hsi; [done|].
    apply Hd. intros j ->. specialize (Hnone j eq_refl). rewrite Hsa in Hnone. rewrite decide_False in Hnone; [done|].
    intros ->. done.
Qed.

(** The last listener went: the handler is put back. *)
Lemma restore_ok orig E w i x : sig_inv orig E w -> evsigevents (sw_info w) !! i = Some [x] ->
  exists w', _evsignal_restore_handler (Z.of_nat i)
      (set_info (fun s => with_sigevents (<[i := []]> (evsigevents s)) s) w) = Ok (0, w') /\
    sig_inv orig E w' /\ sig_frame w w' /\ evsigevents (sw_info w') = <[i := []]> (evsigevents (sw_info w)).
Proof.
  intros H Hq. set (w0 := set_info _ w). pose proof (sig_inv_restoring _ _ _ H) as Hrs.
  assert (restoring orig w0) as Hrs0 by (destruct Hrs; by split).
  pose proof H as [Hl Hc Hz Ho Hqs Hi Hs Hn Hot]. destruct (Hqs i [x] Hq) as (_ & _ & Hst).
  unfold sig_state in Hst. rewrite decide_False in Hst by done. destruct Hst as ([p Hp] & _).
  destruct (restore_step orig w0 i p Hrs0 Hp) as (w' & Hr & [R1 R2 R3 R4 R5] & F & Hev & Hnx & Hsa & Hd).
  exists w'. split; [done|]. pose proof F as [F1 F2 F3 F4 F5]. split; [|by split].
  assert (forall j, caught_at w' j = caught_at w j) as Hca by (intros j; unfold caught_at; by rewrite F1).
  split.
  - rewrite Hev. cbn. unfold blen in *. by rewrite length_insert.
  - rewrite F1. split; [apply Hc|]. intros j. rewrite Hca. apply Hc.
  - by rewrite Hca.
  - done.
  - rewrite Hev. cbn. intros j qj Hj. destruct (decide (j = i)) as [->|Hji].
    + rewrite list_lookup_insert_eq in Hj by (by eapply lookup_lt_Some). injection Hj as <-.
      split; [constructor|]. split; [set_solver|]. unfold sig_state. rewrite decide_True by done.
      by rewrite Hsa, Hd, !decide_True.
    + rewrite list_lookup_insert_ne in Hj by done. destruct (Hqs j qj Hj) as (? & ? & Hst). split; [done|]. split; [done|].
      apply (sig_state_eq _ _ _ _ _ Hst); [by rewrite Hsa, decide_False| |done|done].
      rewrite Hd, decide_False; [done|lia].
  - done.
  - done.
  - intros p' [v Hv]. rewrite Hnx. apply Hn. apply R3 in Hv as (j & Hj & ->). rewrite Hsa in Hj.
    case_decide; [done|]. eexists. apply Hs. eauto.
  - intros s Hs'. rewrite Hd. case_decide; [done|]. by apply Hot.
Qed.

Lemma evsignal_del_ok orig E w i q x : sig_inv orig E w -> evsigevents (sw_info w) !! i = Some q -> x ∈ q ->
  exists w', evsignal_del E x w = Ok (0, w') /\ sig_inv orig E w' /\ sig_frame w w' /\
    evsigevents (sw_info w') = <[i := filter (fun y => y <> x) q]> (evsigevents (sw_info w)).
Proof.
  intros H Hq Hx. destruct (si_queue _ _ _ H i q Hq) as (Hnd & Hls & _).
  destruct (Hls x Hx) as (o & Ho & Hfd & _). unfold evsignal_del, deref. rewrite Ho. cbn. rewrite Hfd.
  pose proof (lookup_lt_Some _ _ _ Hq) as Hlt. pose proof (si_lists _ _ _ H) as Hlen. unfold blen, NSIG in Hlen.
  replace ((0 <=? Z.of_nat i) && (Z.of_nat i <? NSIG)) with true
    by (symmetry; apply andb_true_iff; unfold NSIG; lia).
  cbn. rewrite (at_index_ok _ i q Hq). cbn. unfold tailq_remove. rewrite decide_True by done. cbn.
  rewrite Nat2Z.id. destruct (filter (fun y => y <> x) q) as [|y q'] eqn:Hf.
  - assert (q = [x]) as ->.
    { destruct q as [|a [|b q]]; [set_solver|apply list_elem_of_singleton in Hx; by subst|]. exfalso.
      assert (exists z, z ∈ a :: b :: q /\ z <> x) as (z & Hz & Hzx).
      { apply NoDup_cons in Hnd as [Hab _]. destruct (decide (a = x)) as [->|]; [exists b|exists a]; set_solver. }
      assert (z ∈ filter (fun y => y <> x) (a :: b :: q)) as Hin by (by apply list_elem_of_filter).
      rewrite Hf in Hin. set_solver. }
    by apply (restore_ok orig E w i x).
  - eexists. split; [reflexivity|]. split; [|done]. apply (relist_ok _ _ _ _ q); [done|done|set_solver|done| |].
    + rewrite <- Hf. by apply NoDup_filter.
    + intros z Hz. apply Hls. rewrite <- Hf in Hz. by apply list_elem_of_filter in Hz as [].
Qed.

(** * Adding *)

(** The array of saved handlers grows by empty slots. *)
Lemma grow_ok orig E w i : sig_inv orig E w -> Z.of_nat i < NSIG ->
  let w1 := if Z.of_nat i >=? blen (sh_old (sw_info w))
            then set_info (fun s => with_old (sh_old s ++
                   replicate (Z.to_nat (Z.of_nat i + 1 - blen (sh_old s))) None) s) w
            else w in
  sig_inv orig E w1 /\ sig_frame w w1 /\ evsigevents (sw_info w1) = evsigevents (sw_info w) /\
  Z.of_nat i < blen (sh_old (sw_info w1)).
Proof.
  intros H Hi. cbv zeta. rewrite Z.geb_leb. destruct (Z.leb_spec (blen (sh_old (sw_info w))) (Z.of_nat i)); [|done].
  set (w1 := set_info _ w).
  assert (blen (sh_old (sw_info w1)) = Z.of_nat i + 1) as Hlen.
  { cbn. rewrite blen_app. unfold blen in *. rewrite length_replicate. lia. }
  assert (forall j, saved_at w1 j = saved_at w j) as Hsa.
  { intros j. unfold saved_at. cbn. rewrite lookup_app. destruct (sh_old (sw_info w) !! j) as [v|]; [done|].
    destruct (replicate _ _ !! _) eqn:Hr; [|done]. by apply lookup_replicate_1 in Hr as [-> _]. }
  split; [|split; [done|split; [done|lia]]]. destruct H as [Hl Hc Hz Ho Hqs Hinj Hs Hn Hot]. split; try done.
  - lia.
  - intros j q Hj. destruct (Hqs j q Hj) as (? & ? & Hst). split; [done|]. split; [done|].
    by apply (sig_state_eq _ _ _ _ _ Hst).
  - intros a b p. rewrite !Hsa. apply Hinj.
  - intros p v. setoid_rewrite Hsa. apply Hs.
Qed.

(** The state once the library's handler is installed for a first listener. *)
Definition installed (i : nat) (old : sigdisp) (k : sigtable) (x : Z) w : sigworld :=
  set_info (fun s => with_sigevents (<[i := [x]]> (evsigevents s)) (with_added true s))
    (set_sigbase (set_kernel k (set_saved <[sw_next w := Some old]>
      (set_info (fun s => with_old (<[i := Some (sw_next w)]> (sh_old s)) s) (malloc_saved w))))).

Lemma installed_ok orig E w i x old k : sig_inv orig E w -> evsigevents (sw_info w) !! i = Some [] ->
  Z.of_nat i < blen (sh_old (sw_info w)) -> listens E i x -> accepts (Z.of_nat i) = true ->
  sigaction (Z.of_nat i) (Some SigLib) (sw_kernel w) = Some (old, k) -> sig_inv orig E (installed i old k x w).
Proof.
  intros H Hq Hb Hx Hacc Hk. pose proof H as [Hl Hc Hz Ho Hqs Hinj Hs Hn Hot].
  destruct (Hqs i [] Hq) as (_ & _ & Hst). unfold sig_state in Hst. rewrite decide_True in Hst by done.
  destruct Hst as [Hnone Hd]. pose proof (sigaction_old _ _ _ _ _ Hk) as ->.
  set (w' := installed _ _ _ _ _).
  assert (forall j, saved_at w' j = if decide (j = i) then Some (sw_next w) else saved_at w j) as Hsa
    by (by apply saved_at_insert).
  assert (forall j, saved_at w j <> Some (sw_next w)) as Hfresh.
  { intros j Hj. assert (is_Some (sw_saved w !! sw_next w)) as Hp by (eexists; apply Hs; eauto).
    apply Hn in Hp. lia. }
  split; try done.
  - cbn. unfold blen in *. by rewrite length_insert.
  - cbn. unfold blen in *. by rewrite length_insert.
  - cbn. intros j qj Hj. destruct (decide (j = i)) as [->|Hji].
    + rewrite list_lookup_insert_eq in Hj by (by eapply lookup_lt_Some). injection Hj as <-.
      split; [apply NoDup_singleton|]. split; [by intros y ->%list_elem_of_singleton|].
      unfold sig_state. rewrite decide_False by done. rewrite Hsa, decide_True by done. split; [done|]. cbn.
      by rewrite (sigaction_set _ _ _ _ _ _ Hk), decide_True.
    + rewrite list_lookup_insert_ne in Hj by done. destruct (Hqs j qj Hj) as (? & ? & Hst). split; [done|]. split; [done|].
      unfold sig_state in *. rewrite Hsa, (decide_False (P := j = i)) by done. cbn.
      rewrite (sigaction_set _ _ _ _ _ _ Hk), (decide_False (P := _ = Z.of_nat i)) by lia. case_decide; [done|]. naive_solver.
  - intros a b p. rewrite !Hsa. repeat case_decide; intros; subst; simplify_eq; try done; try by (exfalso; eapply Hfresh).
    by eapply Hinj.
  - intros p v. cbn. rewrite insert_insert_eq. destruct (decide (p = sw_next w)) as [->|Hne].
    + rewrite lookup_insert_eq. split.
      * intros [= <-]. exists i. rewrite Hsa, decide_True by done. split; [done|]. by rewrite Hd.
      * intros (j & Hj & ->). rewrite Hsa in Hj. case_decide; [subst; by rewrite Hd|]. by apply Hfresh in Hj.
    + rewrite lookup_insert_ne, Hs by done. split; intros (j & Hj & ->); exists j; rewrite Hsa in *;
        case_decide; try done; congruence.
  - cbn. intros p Hp. rewrite insert_insert_eq in Hp. destruct (decide (p = sw_next w)) as [->|Hne]; [lia|].
    rewrite lookup_insert_ne in Hp by done. apply Hn in Hp. lia.
  - cbn. intros s Hr. rewrite (sigaction_set _ _ _ _ _ _ Hk), decide_False; [by apply Hot|].
    unfold NSIG in *. lia.
Qed.

Lemma unsaved_ok orig E w i : sig_inv orig E w -> evsigevents (sw_info w) !! i = Some [] ->
  Z.of_nat i < blen (sh_old (sw_info w)) ->
  set_info (fun s => with_old (<[i := None]> (sh_old s)) s) w = w.
Proof.
  intros H Hq Hb. destruct (si_queue _ _ _ H i [] Hq) as (_ & _ & [Hn _]). unfold saved_at in Hn.
  destruct (blen_lookup _ _ Hb) as [v Hv]. rewrite Hv in Hn. cbn in Hn. subst v.
  destruct w as [s]. unfold set_info. cbn in *. f_equal. destruct s. unfold with_old. cbn in *. f_equal.
  by apply list_insert_id.
Qed.

(** What [evsignal_add] does to the lists: it adds the event, or memory ran out
    for a first listener and nothing is changed. *)
Lemma evsignal_add_ok orig E a w i q x : sig_inv orig E w -> evsigevents (sw_info w) !! i = Some q ->
  listens E i x -> x ∉ q -> accepts (Z.of_nat i) = true -> sa_add a = 0 ->
  exists r w', evsignal_add a E x w = Ok (r, w') /\ sig_inv orig E w' /\
    evsigcaught (sw_info w') = evsigcaught (sw_info w) /\
    evsignal_caught (sw_info w') = evsignal_caught (sw_info w) /\
    (r = 0 /\ evsigevents (sw_info w') = <[i := q ++ [x]]> (evsigevents (sw_info w)) \/
     r = -1 /\ q = [] /\ sa_realloc a && sa_malloc a = false /\ evsigevents (sw_info w') = evsigevents (sw_info w)).
Proof.
  intros H Hq Hx Hni Hacc Hadd. pose proof Hx as (o & Ho & Hfd & Hrw). unfold evsignal_add, deref. rewrite Ho. cbn.
  rewrite Hrw, Hfd. pose proof (lookup_lt_Some _ _ _ Hq) as Hlt. pose proof (si_lists _ _ _ H) as Hlen.
  assert (Z.of_nat i < NSIG) as Hi by (unfold blen in Hlen; lia).
  replace ((0 <=? Z.of_nat i) && (Z.of_nat i <? NSIG)) with true by (symmetry; apply andb_true_iff; lia).
  cbn. rewrite (at_index_ok _ i q Hq). cbn. rewrite Nat2Z.id. destruct q as [|y q].
  2:{ cbn. eexists _, _. split; [reflexivity|]. split; [|split; [done|split; [done|by left]]].
      destruct (si_queue _ _ _ H i _ Hq) as (Hnd & Hls & _).
      apply (relist_ok _ _ _ _ (y :: q)); [done|done|done|done| |].
      - apply (NoDup_app (y :: q) [x]). split; [done|]. split; [|apply NoDup_singleton]. set_solver.
      - intros z Hz. apply (elem_of_app (y :: q) [x]) in Hz as [Hz|Hz]; [by apply Hls|].
        apply list_elem_of_singleton in Hz as ->. done. }
  destruct (grow_ok orig E w i H Hi) as (H1 & F1 & Hev & Hb). unfold _evsignal_set_handler.
  destruct (_ && negb (sa_realloc a)) eqn:Hre.
  { cbn. eexists _, _. split; [reflexivity|]. do 3 (split; [done|]). right.
    apply andb_true_iff in Hre as [_ Hre%negb_true_iff]. by rewrite Hre. }
  revert H1 F1 Hev Hb. generalize (if Z.of_nat i >=? blen (sh_old (sw_info w))
    then set_info (fun s => with_old (sh_old s ++
           replicate (Z.to_nat (Z.of_nat i + 1 - blen (sh_old s))) None) s) w else w).
  intros w1 H1 F1 Hev Hb. destruct (blen_lookup _ _ Hb) as [v Hv]. rewrite (at_index_ok _ i v Hv). cbn.
  rewrite Nat2Z.id. assert (evsigevents (sw_info w1) !! i = Some []) as Hq1 by (by rewrite Hev).
  destruct F1 as [F1 F2 F3 F4 F5]. destruct (sa_malloc a) eqn:Hma; cbn.
  2:{ rewrite (unsaved_ok orig E w1 i) by done. eexists _, _. split; [reflexivity|]. do 3 (split; [done|]). right.
      by rewrite andb_false_r. }
  destruct (proj2 (sigaction_accepts (Z.of_nat i) (Some SigLib) (sw_kernel w1)) Hacc) as [[old k] Hk]. rewrite Hk. cbn.
  pose proof (installed_ok orig E w1 i x old k H1 Hq1 Hb Hx Hacc Hk) as Hin.
  assert (forall l, sig_inv orig E (installed i old k x w1) ->
    sig_inv orig E (mkSigworld (sw_info (installed i old k x w1)) (sw_saved (installed i old k x w1))
      (sw_next (installed i old k x w1)) true k (sw_sent w1) l)) as Hlog by (intros l []; by split).
  destruct (ev_signal_added (sw_info w1)) eqn:Had; cbn.
  - eexists _, _. split; [reflexivity|]. split; [|split; [done|split; [done|left; cbn; by rewrite Hev]]].
    specialize (Hlog (sw_calls w1) Hin). unfold installed, set_info, set_kernel, set_saved, set_sigbase, malloc_saved in *.
    cbn in *. unfold with_added, with_sigevents, with_old in *. cbn in *. by rewrite Had.
  - rewrite Hadd. cbn. eexists _, _. split; [reflexivity|]. split; [|split; [done|split; [done|left; cbn; by rewrite Hev]]].
    apply (Hlog (sw_calls w1 ++ [AddInternal]) Hin).
Qed.

(** * Counting *)

(** The counts, the flag and the bytes in the pair replaced. *)
Definition recount (n : Z) (b : bool) (c : list Z) w : sigworld := set_sent n (set_info (with_caught b c) w).

(** How often the handler counts signal [i] in a sequence. *)
Definition heard w (i : nat) (l : list Z) : Z :=
  if sw_set w then Z.of_nat (length (filter (eq (Z.of_nat i)) l)) else 0.

Definition real_signal (sig : Z) : Prop := 1 <= sig < NSIG.

Lemma heard_bounds w i l : 0 <= heard w i l <= Z.of_nat (length l).
Proof. unfold heard. pose proof (length_filter (eq (Z.of_nat i)) l). destruct (sw_set w); lia. Qed.

Lemma heard_some w i l : heard w i l <> 0 -> sw_set w = true /\ l <> [].
Proof. unfold heard. destruct (sw_set w); [|done]. by destruct l. Qed.

Lemma heard_app w i l k : heard w i (l ++ k) = heard w i l + heard w i k.
Proof. unfold heard. rewrite filter_app, length_app. destruct (sw_set w); lia. Qed.

Lemma heard_one w i sig : sw_set w = true -> heard w i [sig] = if decide (Z.of_nat i = sig) then 1 else 0.
Proof.
  intros Hs. unfold heard. rewrite Hs.
  case_decide; [rewrite filter_cons_True by done|rewrite filter_cons_False by done]; done.
Qed.

Lemma heard_zero w l : Forall real_signal l -> heard w 0 l = 0.
Proof.
  intros Hl. unfold heard. destruct (sw_set w); [|done].
  induction Hl as [|s l [Hs _] _ IH]; [done|]. rewrite filter_cons_False; [done|]. cbn. lia.
Qed.

Lemma recount_id w : recount (sw_sent w) (evsignal_caught (sw_info w)) (evsigcaught (sw_info w)) w = w.
Proof. by destruct w as [[]]. Qed.

Lemma recount_inv orig E w n b c : sig_inv orig E w -> blen c = NSIG -> (forall i, 0 <= default 0 (c !! i)) ->
  default 0 (c !! 0%nat) = 0 -> sig_inv orig E (recount n b c w).
Proof. by intros [] Hc Hp Hz. Qed.

Lemma signals_ok orig E l : forall w, Forall real_signal l -> sig_inv orig E w ->
  (forall i, caught_at w i + Z.of_nat (length l) <= INT_MAX) ->
  exists n b c, signals l w = Ok (recount n b c w) /\ sig_inv orig E (recount n b c w) /\
    (forall i, default 0 (c !! i) = caught_at w i + heard w i l) /\
    b = evsignal_caught (sw_info w) || (sw_set w && negb (bool_decide (l = []))).
Proof.
  induction l as [|sig l IH]; intros w Hl H Hroom.
  - exists (sw_sent w), (evsignal_caught (sw_info w)), (evsigcaught (sw_info w)). rewrite recount_id. split; [done|].
    split; [done|]. split; [|by rewrite andb_false_r, orb_false_r].
    intros i. unfold heard. cbn. destruct (sw_set w); unfold caught_at; lia.
  - apply Forall_cons in Hl as [Hs Hl]. cbn [signals]. unfold evsignal_handler.
    destruct (sw_set w) eqn:Hset; cbn [negb].
    2:{ cbn. destruct (IH w Hl H) as (n & b & c & -> & Hi & Hc & Hb); [intros i; specialize (Hroom i); cbn in Hroom; lia|].
        rewrite Hset in Hb. exists n, b, c. split; [done|]. split; [done|]. split; [|done].
        intros i. rewrite Hc. unfold heard. by rewrite Hset. }
    unfold real_signal in Hs. destruct (si_counts _ _ _ H) as [Hlen Hpos].
    destruct (blen_lookup (evsigcaught (sw_info w)) (Z.to_nat sig)) as [m Hm]; [lia|].
    assert (caught_at w (Z.to_nat sig) = m) as Hat by (unfold caught_at; by rewrite Hm).
    pose proof (Hroom (Z.to_nat sig)) as Hr. pose proof (Hpos (Z.to_nat sig)) as Hp. cbn in Hr.
    replace (at_index (evsigcaught (sw_info w)) sig) with (@Ok Z m)
      by (rewrite <- (Z2Nat.id sig) by lia; by rewrite (at_index_ok _ _ m)).
    cbn. rewrite chk_int_ok by (unfold INT_MIN; lia). cbn.
    set (c1 := <[Z.to_nat sig := m + 1]> (evsigcaught (sw_info w))).
    assert (forall i, default 0 (c1 !! i) = caught_at w i + heard w i [sig]) as Hc1.
    { intros i. rewrite heard_one by done. unfold caught_at, c1. destruct (decide (i = Z.to_nat sig)) as [->|Hne].
      - rewrite list_lookup_insert_eq, Hm, decide_True by (lia || by eapply lookup_lt_Some). done.
      - rewrite list_lookup_insert_ne, decide_False by lia. lia. }
    change (set_sent _ _) with (recount (sw_sent w + 1) true c1 w). set (w1 := recount _ _ _ _).
    assert (sig_inv orig E w1) as H1.
    { apply recount_inv; [done|unfold blen, c1 in *; by rewrite length_insert| |].
      - intros i. rewrite Hc1. pose proof (Hpos i). pose proof (heard_bounds w i [sig]). lia.
      - rewrite Hc1, heard_zero by (by constructor). rewrite (si_zero _ _ _ H). done. }
    destruct (IH w1 Hl H1) as (n & b & c & Hr1 & Hi & Hc & Hb).
    { intros i. change (caught_at w1 i) with (default 0 (c1 !! i)). rewrite Hc1. specialize (Hroom i). cbn in Hroom.
      pose proof (heard_bounds w i [sig]). cbn in *. lia. }
    exists n, b, c. split; [done|]. split; [done|].
    split; [|rewrite Hb; cbn; by rewrite orb_true_r].
    intros i. rewrite Hc. change (caught_at w1 i) with (default 0 (c1 !! i)).
    change (heard w1 i l) with (heard w i l). rewrite Hc1. change (sig :: l) with ([sig] ++ l). rewrite heard_app. lia.
Qed.

(** * Delivering *)

Definition persistent (E : events) (x : Z) : Prop :=
  exists o, E !! x = Some o /\ has_flag (ev_events o) EV_PERSIST = true.

#[export] Instance persistent_dec E x : Decision (persistent E x).
Proof.
  refine (match E !! x as m return E !! x = m -> _ with
          | Some o => fun Hx => cast_if (decide (has_flag (ev_events o) EV_PERSIST = true))
          | None => fun Hx => right _ end eq_refl); unfold persistent; naive_solver.
Defined.

(** The calls that a signal with listeners [q] makes. *)
Definition delivered (E : events) (ncalls : Z) (q : list Z) : list base_call :=
  x ← q; (if decide (persistent E x) then [] else [DelEvent x]) ++ [ActiveEvent x EV_SIGNAL (wrap16 ncalls)].

Lemma deliver_ok orig E ncalls i q : forall pre w, sig_inv orig E w ->
  evsigevents (sw_info w) !! i = Some (pre ++ q) ->
  exists w', deliver E ncalls q w = Ok w' /\ sig_inv orig E w' /\
    evsigcaught (sw_info w') = evsigcaught (sw_info w) /\
    evsignal_caught (sw_info w') = evsignal_caught (sw_info w) /\ sw_set w' = sw_set w /\
    evsigevents (sw_info w') = <[i := pre ++ filter (persistent E) q]> (evsigevents (sw_info w)) /\
    sw_calls w' = sw_calls w ++ delivered E ncalls q.
Proof.
  assert (forall c w, sig_inv orig E w -> sig_inv orig E (log_call c w)) as Hlog by (by intros c w []).
  induction q as [|x q IH]; intros pre w H Hq.
  - exists w. split; [done|]. do 4 (split; [done|]). split; [by rewrite list_insert_id|]. cbn. by rewrite app_nil_r.
  - destruct (si_queue _ _ _ H i _ Hq) as (Hnd & Hls & _). destruct (Hls x) as (o & Ho & _ & _); [set_solver|].
    cbn [deliver]. unfold deref. rewrite Ho. cbn [of_option]. rewrite bind_Ok.
    destruct (decide (persistent E x)) as [Hp|Hp].
    + assert (has_flag (ev_events o) EV_PERSIST = true) as -> by (destruct Hp as (o' & Ho' & Hp); congruence).
      cbn [negb]. rewrite bind_Ok.
      set (w1 := log_call _ w). destruct (IH (pre ++ [x]) w1) as (w' & -> & H' & C' & G' & S' & E' & L').
      { by apply Hlog. } { cbn. by rewrite <- app_assoc. }
      exists w'. split; [done|]. do 4 (split; [done|]). split.
      * rewrite E', filter_cons_True by done. cbn [w1 log_call sw_info]. by rewrite <- app_assoc.
      * rewrite L'. unfold w1. cbn. rewrite <- app_assoc. f_equal. by rewrite decide_True.
    + assert (has_flag (ev_events o) EV_PERSIST = false) as ->
        by (apply not_true_is_false; intros Ht; apply Hp; by exists o).
      cbn [negb].
      destruct (evsignal_del_ok orig E (log_call (DelEvent x) w) i (pre ++ x :: q) x) as (w1 & -> & H1 & [F1 F2 F3 F4 F5] & E1);
        [by apply Hlog|done|set_solver|]. rewrite !bind_Ok.
      apply NoDup_app in Hnd as (Hnd1 & Hdis & Hnd2). apply NoDup_cons in Hnd2 as [Hx Hnd2].
      rewrite filter_app, filter_cons_False in E1 by tauto.
      rewrite !filter_not_in in E1 by (done || (intros Hpre; apply (Hdis x Hpre); by left)).
      set (w2 := log_call _ w1). destruct (IH pre w2) as (w' & -> & H' & C' & G' & S' & E' & L'); [by apply Hlog| |].
      { unfold w2. cbn. rewrite E1. apply list_lookup_insert_eq. by eapply lookup_lt_Some. }
      exists w'. split; [done|]. split; [done|]. split; [by rewrite C'|]. split; [by rewrite G'|]. split; [by rewrite S'|].
      split.
      * rewrite E'. unfold w2. cbn [log_call sw_info]. rewrite E1, filter_cons_False by done. by rewrite list_insert_insert_eq.
      * rewrite L'. unfold w2. cbn. rewrite F5. cbn. rewrite <- !app_assoc. do 2 f_equal. by rewrite decide_False.
Qed.

(** * Processing *)

(** The signals that arrive while [n] signals from [i] on are looked at; those
    of the second kind only when the signal had been caught. *)
Definition arrivals (taken : nat -> Z) (arr : Z -> list Z * list Z) (js : list nat) : list Z :=
  j ← js; fst (arr (Z.of_nat j)) ++ (if taken j =? 0 then [] else snd (arr (Z.of_nat j))).

(** All that could arrive. *)
Definition all_arrivals (arr : Z -> list Z * list Z) (js : list nat) : list Z :=
  j ← js; fst (arr (Z.of_nat j)) ++ snd (arr (Z.of_nat j)).

(** The calls for the counts [taken] of the signals [js]. *)
Definition deliveries (E : events) (taken : nat -> Z) (qs : list (list Z)) (js : list nat) : list base_call :=
  j ← js; if taken j =? 0 then [] else delivered E (taken j) (default [] (qs !! j)).

(** One turn: the count read, the signals that arrive, the delivery. *)
Record sig_turn (E : events) (i : nat) (arr : list Z * list Z) (ncalls : Z) w w' : Prop := {
  st_caught : forall j, caught_at w' j + (if decide (j = i) then ncalls else 0)
    = caught_at w j + heard w j (fst arr ++ (if ncalls =? 0 then [] else snd arr));
  st_taken : ncalls = caught_at w i + heard w i (fst arr);
  st_known : pending_known i w -> pending_known (S i) w';
  st_set : sw_set w' = sw_set w;
  st_lists : evsigevents (sw_info w') =
    if ncalls =? 0 then evsigevents (sw_info w) else alter (filter (persistent E)) i (evsigevents (sw_info w));
  st_calls : sw_calls w' = sw_calls w ++
    (if ncalls =? 0 then [] else delivered E ncalls (default [] (evsigevents (sw_info w) !! i)))
}.

Lemma pending_more i w n b c l : pending_known i w ->
  (forall j, default 0 (c !! j) = caught_at w j + heard w j l) ->
  b = evsignal_caught (sw_info w) || (sw_set w && negb (bool_decide (l = []))) ->
  pending_known i (recount n b c w).
Proof.
  intros Hp Hc -> j Hj. change (default 0 (c !! j) <> 0) in Hj. rewrite Hc in Hj. cbn.
  destruct (decide (caught_at w j = 0)) as [Hz|Hz].
  - left. assert (heard w j l <> 0) as [-> Hl]%heard_some by lia. rewrite bool_decide_eq_false_2 by done.
    by rewrite orb_true_r.
  - destruct (Hp j Hz) as [->|?]; [by left|by right].
Qed.

(** Taking the count of signal [i] once it was read: what arrives meanwhile stays,
    and is announced. *)
Lemma take_count_ok orig E i l w : sig_inv orig E w -> (0 < i)%nat -> Z.of_nat i < NSIG -> Forall real_signal l ->
  (forall j, caught_at w j + Z.of_nat (length l) <= INT_MAX) ->
  exists n b c m, signals l w = Ok (recount n b c w) /\ c !! i = Some m /\
    chk_int (m - caught_at w i) = Ok (m - caught_at w i) /\
    let w' := recount n b (<[i := m - caught_at w i]> c) w in
    sig_inv orig E w' /\ (pending_known i w -> pending_known (S i) w') /\
    forall j, caught_at w' j + (if decide (j = i) then caught_at w i else 0) = caught_at w j + heard w j l.
Proof.
  intros H Hi0 Hi Hl Hroom. destruct (signals_ok orig E l w Hl H Hroom) as (n & b & c & Hr & H1 & Hc & Hb).
  destruct (si_counts _ _ _ H1) as [Hlen Hpos]. cbn in Hlen. destruct (blen_lookup c i) as [m Hm]; [lia|].
  exists n, b, c, m. split; [done|]. split; [done|]. pose proof (Hc i) as Hci. rewrite Hm in Hci. cbn in Hci.
  pose proof (heard_bounds w i l) as Hh. pose proof (proj2 (si_counts _ _ _ H) i) as Hpi. specialize (Hroom i).
  split; [apply chk_int_ok; unfold INT_MIN; lia|]. set (c' := <[i := m - caught_at w i]> c).
  assert (forall j, default 0 (c' !! j) = if decide (j = i) then heard w i l else caught_at w j + heard w j l) as Hc'.
  { intros j. unfold c'. case_decide as Hd; [subst j|].
    - rewrite list_lookup_insert_eq by (by eapply lookup_lt_Some). cbn. lia.
    - by rewrite list_lookup_insert_ne. }
  split; [|split].
  - apply recount_inv; [done|unfold blen, c' in *; by rewrite length_insert| |].
    + intros j. rewrite Hc'. pose proof (proj2 (si_counts _ _ _ H) j). pose proof (heard_bounds w j l). case_decide; lia.
    + rewrite Hc', decide_False, heard_zero, (si_zero _ _ _ H) by (done || lia). done.
  - intros Hp j Hj. change (default 0 (c' !! j) <> 0) in Hj. rewrite Hc' in Hj. cbn. case_decide as Hd; [subst j|].
    + apply heard_some in Hj as [Hset Hne]. left. rewrite Hb, Hset, bool_decide_eq_false_2 by done. by rewrite orb_true_r.
    + destruct (pending_more i w n b c l Hp Hc Hb j) as [|Hij]; [|by left|right; lia].
      change (default 0 (c !! j) <> 0). by rewrite Hc.
  - intros j. change (caught_at _ j) with (default 0 (c' !! j)) at 1. rewrite Hc'. case_decide; subst; lia.
Qed.

Lemma process_turn_ok orig E i arr w n : sig_inv orig E w -> (0 < i)%nat -> Z.of_nat i < NSIG ->
  Forall real_signal (fst (arr (Z.of_nat i)) ++ snd (arr (Z.of_nat i))) ->
  (forall j, caught_at w j + Z.of_nat (length (fst (arr (Z.of_nat i)) ++ snd (arr (Z.of_nat i)))) <= INT_MAX) ->
  exists ncalls w', process_signals (S n) (Z.of_nat i) arr E w = process_signals n (Z.of_nat (S i)) arr E w' /\
    sig_inv orig E w' /\ sig_turn E i (arr (Z.of_nat i)) ncalls w w'.
Proof.
  intros H Hi0 Hi [Ha1 Ha2]%Forall_app Hroom. cbn [process_signals]. rewrite Nat2Z.inj_succ. unfold Z.succ.
  destruct (arr (Z.of_nat i)) as [l1 l2]. cbn [fst snd] in *. rewrite length_app in Hroom.
  destruct (signals_ok orig E l1 w Ha1 H) as (n1 & b1 & c1 & -> & H1 & Hc1 & Hb1);
    [intros j; specialize (Hroom j); lia|]. rewrite bind_Ok.
  pose proof (fun Hp => pending_more i w n1 b1 c1 l1 Hp Hc1 Hb1) as Hp1. set (w1 := recount n1 b1 c1 w) in *.
  assert (forall j, caught_at w1 j = caught_at w j + heard w j l1) as Hca1 by done.
  destruct (blen_lookup (evsigcaught (sw_info w1)) i) as [m Hm]; [rewrite (proj1 (si_counts _ _ _ H1)); lia|].
  assert (caught_at w1 i = m) as Hmi by (unfold caught_at; by rewrite Hm).
  rewrite (at_index_ok _ i m) by done. rewrite bind_Ok. destruct (Z.eqb_spec m 0) as [->|Hne].
  { exists 0, w1. split; [done|]. split; [done|]. split; cbn [fst snd Z.eqb]; rewrite ?app_nil_r; try done.
    - intros j. rewrite Hca1. case_decide; lia.
    - by rewrite <- Hca1.
    - intros Hp j Hj. destruct (Hp1 Hp j Hj) as [|Hij]; [by left|]. right.
      destruct (decide (j = i)) as [->|]; [done|lia]. }
  destruct (take_count_ok orig E i l2 w1 H1 Hi0 Hi Ha2) as (n2 & b2 & c2 & m2 & -> & Hm2 & Hchk & H3 & Hp3 & Hc3).
  { intros j. rewrite Hca1. specialize (Hroom j). pose proof (heard_bounds w j l1). lia. }
  rewrite Hmi in Hchk, H3, Hp3, Hc3. rewrite bind_Ok, (at_index_ok _ i m2), bind_Ok, Hchk, bind_Ok, Nat2Z.id by done.
  change (set_info _ (recount n2 b2 c2 w1)) with (recount n2 b2 (<[i := m2 - m]> c2) w1).
  destruct (blen_lookup (evsigevents (sw_info w)) i) as [q Hq]; [rewrite (si_lists _ _ _ H); lia|].
  rewrite (at_index_ok _ i q) by done. rewrite bind_Ok.
  destruct (deliver_ok orig E m i q [] _ H3 Hq) as (w' & -> & H' & C' & G' & S' & E' & L'). rewrite bind_Ok.
  exists m, w'. split; [done|]. split; [done|]. apply Z.eqb_neq in Hne as Hneb. split; rewrite ?Hneb; try done.
  - intros j. cbn [fst snd]. rewrite heard_app. specialize (Hc3 j). rewrite Hca1 in Hc3.
    change (heard w1 j l2) with (heard w j l2) in Hc3. unfold caught_at at 1. rewrite C'. rewrite Z.add_assoc. exact Hc3.
  - by rewrite <- Hca1.
  - intros Hp j Hj. unfold caught_at in Hj. rewrite C' in Hj. rewrite G'. by apply (Hp3 (Hp1 Hp)).
  - rewrite E'. cbn. rewrite list_insert_alter. apply list_alter_ext; [|done]. intros q' Hq'. congruence.
  - rewrite L'. cbn. by rewrite Hq.
Qed.

(** What [evsignal_process] does from signal [i] on, for the counts it takes. *)
Record sig_processed (E : events) (js : list nat) (arr : Z -> list Z * list Z) (taken : nat -> Z) w w' : Prop := {
  sp_caught : forall j, caught_at w' j + (if decide (j ∈ js) then taken j else 0)
    = caught_at w j + heard w j (arrivals taken arr js);
  sp_taken : forall j, j ∈ js -> caught_at w j <= taken j;
  sp_set : sw_set w' = sw_set w;
  sp_calls : sw_calls w' = sw_calls w ++ deliveries E taken (evsigevents (sw_info w)) js
}.

Lemma deliveries_ext E taken taken' qs qs' js :
  (forall j, j ∈ js -> taken j = taken' j /\ qs !! j = qs' !! j) ->
  deliveries E taken qs js = deliveries E taken' qs' js.
Proof.
  unfold deliveries. induction js as [|j js IH]; intros Hj; [done|]. cbn.
  destruct (Hj j) as [-> ->]; [left|]. f_equal. apply IH. intros k Hk. apply Hj. by right.
Qed.

Lemma arrivals_ext taken taken' arr js : (forall j, j ∈ js -> taken j = taken' j) ->
  arrivals taken arr js = arrivals taken' arr js.
Proof.
  unfold arrivals. induction js as [|j js IH]; intros Hj; [done|]. cbn.
  rewrite (Hj j) by left. f_equal. apply IH. intros k Hk. apply Hj. by right.
Qed.

Lemma process_signals_ok orig E arr n : forall i w, sig_inv orig E w -> (0 < i)%nat -> Z.of_nat (i + n) = NSIG ->
  Forall real_signal (all_arrivals arr (seq i n)) ->
  (forall j, caught_at w j + Z.of_nat (length (all_arrivals arr (seq i n))) <= INT_MAX) -> pending_known i w ->
  exists taken w', process_signals n (Z.of_nat i) arr E w = Ok w' /\ sig_inv orig E w' /\
    pending_known (i + n) w' /\ sig_processed E (seq i n) arr taken w w'.
Proof.
  induction n as [|n IH]; intros i w H Hi Hn Hreal Hroom Hp.
  { exists (fun _ => 0), w. split; [done|]. split; [done|]. split; [by rewrite Nat.add_0_r|]. split; try done.
    - intros j. change (arrivals _ arr (seq i 0)) with (@nil Z). unfold heard.
      case_decide; destruct (sw_set w); cbn; lia.
    - intros j Hj. by apply elem_of_nil in Hj.
    - cbn. by rewrite app_nil_r. }
  change (seq i (S n)) with (i :: seq (S i) n) in *.
  change (all_arrivals arr (i :: seq (S i) n)) with
    ((fst (arr (Z.of_nat i)) ++ snd (arr (Z.of_nat i))) ++ all_arrivals arr (seq (S i) n)) in *.
  apply Forall_app in Hreal as [Hr1 Hr2].
  destruct (process_turn_ok orig E i arr w n H Hi ltac:(lia) Hr1) as (m & w1 & -> & H1 & [T1 T2 T3 T4 T5 T6]).
  { intros j. specialize (Hroom j). rewrite length_app in Hroom. lia. }
  assert (0 <= m) as Hm.
  { rewrite T2. pose proof (proj2 (si_counts _ _ _ H) i). pose proof (heard_bounds w i (fst (arr (Z.of_nat i)))). lia. }
  destruct (IH (S i) w1 H1 ltac:(lia) ltac:(lia) Hr2) as (taken & w' & -> & H' & P' & [S1 S2 S3 S4]).
  { intros j. specialize (Hroom j). rewrite length_app in Hroom. specialize (T1 j).
    pose proof (heard_bounds w j (fst (arr (Z.of_nat i)) ++ (if m =? 0 then [] else snd (arr (Z.of_nat i))))) as Hh.
    rewrite length_app in Hh. rewrite length_app in Hroom. destruct (m =? 0), (decide (j = i)); cbn in *; lia. }
  { by apply T3. }
  set (taken' := fun j => if decide (j = i) then m else taken j).
  assert (forall j, j ∈ seq (S i) n -> taken' j = taken j) as Htk.
  { intros j Hj. apply elem_of_seq in Hj. unfold taken'. by rewrite decide_False by lia. }
  assert (taken' i = m) as Hti by (unfold taken'; by rewrite decide_True).
  exists taken', w'. split; [done|]. split; [done|]. split; [by rewrite Nat.add_succ_r|]. split.
  - intros j. specialize (S1 j). specialize (T1 j).
    change (arrivals taken' arr (i :: seq (S i) n)) with
      ((fst (arr (Z.of_nat i)) ++ (if taken' i =? 0 then [] else snd (arr (Z.of_nat i)))) ++ arrivals taken' arr (seq (S i) n)).
    rewrite heard_app, Hti, (arrivals_ext taken' taken) by done.
    replace (heard w1 j (arrivals taken arr (seq (S i) n))) with (heard w j (arrivals taken arr (seq (S i) n))) in S1
      by (unfold heard; by rewrite T4).
    destruct (decide (j = i)) as [->|Hji].
    + rewrite decide_True, Hti by left. rewrite decide_False in S1 by (rewrite elem_of_seq; lia). lia.
    + rewrite (decide_ext _ (j ∈ seq (S i) n)) by set_solver. case_decide as Hd; [rewrite Htk by done|]; lia.
  - intros j [->|Hj]%elem_of_cons.
    + rewrite Hti, T2. pose proof (heard_bounds w i (fst (arr (Z.of_nat i)))). lia.
    + rewrite Htk by done. specialize (S2 j Hj). specialize (T1 j). rewrite elem_of_seq in Hj.
      rewrite decide_False in T1 by lia. pose proof (heard_bounds w j (fst (arr (Z.of_nat i)) ++
        (if m =? 0 then [] else snd (arr (Z.of_nat i))))). lia.
  - by rewrite S3.
  - rewrite S4, T6, <- app_assoc. f_equal. change (deliveries E taken' (evsigevents (sw_info w)) (i :: seq (S i) n)) with
      ((if taken' i =? 0 then [] else delivered E (taken' i) (default [] (evsigevents (sw_info w) !! i))) ++
       deliveries E taken' (evsigevents (sw_info w)) (seq (S i) n)).
    rewrite Hti. f_equal. apply deliveries_ext. intros j Hj. split; [by rewrite Htk|]. rewrite T5.
    apply elem_of_seq in Hj. case_match; [done|]. by rewrite list_lookup_alter_ne by lia.
Qed.

(** * Tearing down *)

Lemma restore_all_ok orig n : forall i w, restoring orig w -> Z.of_nat (i + n) = NSIG ->
  (forall j, (j < i)%nat -> saved_at w j = None) ->
  exists w', restore_all n (Z.of_nat i) w = Ok w' /\ restoring orig w' /\ forall j, saved_at w' j = None.
Proof.
  induction n as [|n IH]; intros i w H Hn Hlt; cbn [restore_all].
  - exists w. split; [done|]. split; [done|]. intros j. destruct (decide (j < i)%nat) as [|Hge]; [by apply Hlt|].
    destruct (saved_at w j) as [p|] eqn:Hp; [|done]. apply saved_at_bound in Hp. pose proof (rs_old _ _ H). lia.
  - rewrite Nat2Z.id. replace (Z.of_nat i + 1) with (Z.of_nat (S i)) by lia.
    destruct (saved_at w i) as [p|] eqn:Hp.
    + destruct (restore_step orig w i p H Hp) as (w1 & Hr & H1 & _ & _ & _ & Hsa & _).
      unfold saved_at in Hp. destruct (sh_old (sw_info w) !! i) as [[?|]|]; [|done|done]. rewrite Hr. cbn.
      apply IH; [done|lia|]. intros j Hj. rewrite Hsa. case_decide; [done|]. apply Hlt. lia.
    + replace (match sh_old (sw_info w) !! i with
               | Some (Some _) => '(_, w) ← _evsignal_restore_handler (Z.of_nat i) w; Ok w
               | _ => Ok w end) with (Ok w)
        by (unfold saved_at in Hp; by destruct (sh_old (sw_info w) !! i) as [[?|]|]).
      cbn. apply IH; [done|lia|]. intros j Hj. destruct (decide (j = i)) as [->|]; [done|]. apply Hlt. lia.
Qed.

Lemma evsignal_dealloc_ok orig E w : sig_inv orig E w ->
  exists w', evsignal_dealloc w = Ok w' /\ sw_saved w' = ∅ /\ sh_old (sw_info w') = [] /\
    forall s, disposition (sw_kernel w') s = orig s.
Proof.
  intros H%sig_inv_restoring. unfold evsignal_dealloc.
  set (w0 := if ev_signal_added (sw_info w) then _ else w).
  assert (restoring orig w0) as H0 by (unfold w0; destruct (ev_signal_added (sw_info w)); [destruct H; by split|done]).
  destruct (restore_all_ok orig (Z.to_nat NSIG) 0 w0 H0) as (w' & Hr & H' & Hnone); [done|lia|].
  change (Z.of_nat 0) with 0 in Hr. rewrite Hr. cbn. eexists. split; [reflexivity|]. split.
  - apply map_empty. intros p. destruct (sw_saved w' !! p) as [v|] eqn:Hp; [|exact Hp].
    apply (rs_saved _ _ H') in Hp as (i & Hi & _). by rewrite Hnone in Hi.
  - split; [done|]. intros s. apply (rs_disposition _ _ H'). intros i _. apply Hnone.
Qed.
End Signals.
