(* ===== verification/SignalProps.v ===== *)
(** Signals as the program sees them: what a run of [signal.c] guarantees, the
    failures it does not recover from, and a concrete kernel. *)
From stdpp Require Import relations.
From S2P Require Import Prelude.
From S2P Require Import BufferEvent MinHeap EventBase EventCorrect EvSignal SignalCorrect.

Section Runs.
Context {K : SigKernel}.
Implicit Types (w : sigworld) (E : events).

(** The signal state of a base that was just allocated. *)
Definition fresh_signals (k : sigtable) : sigworld :=
  mkSigworld (mkSig (0, 0, 0) (-1, -1) false false [] [] []) ∅ 0 false k 0 [].

(** What may happen to a base: the calls of the back end, the callback of the
    internal event, and signals at any time. *)
Inductive sig_op : Type :=
| OpAdd (a : sig_answers) (ev : Z)
| OpDel (ev : Z)
| OpSignal (sig : Z)
| OpWake (n : Z)
| OpProcess (arr : Z -> list Z * list Z).

Definition run_sig_op E (op : sig_op) w : cres sigworld :=
  match op with
  | OpAdd a ev => '(_, w) ← evsignal_add a E ev w; Ok w
  | OpDel ev => '(_, w) ← evsignal_del E ev w; Ok w
  | OpSignal sig => evsignal_handler sig w
  | OpWake n => evsignal_cb n w
  | OpProcess arr => evsignal_process arr E w
  end.

(** The signals that [evsignal_process] looks at. *)
Definition scanned : list nat := seq 1 (Z.to_nat (NSIG - 1)).

(** The counts can take up to [n] more signals. *)
Definition roomy w (l : list Z) : Prop :=
  Forall real_signal l /\ forall i, caught_at w i + Z.of_nat (length l) <= INT_MAX.

(** When the operations are called: events are added for a signal that can be
    caught and are not on its list, events on a list are deleted, the internal
    event can be added, and the counts do not overflow. *)
Definition enabled_sig E (op : sig_op) w : Prop :=
  match op with
  | OpAdd a ev => exists i q, evsigevents (sw_info w) !! i = Some q /\ listens E i ev /\ ev ∉ q /\
      accepts (Z.of_nat i) = true /\ sa_add a = 0
  | OpDel ev => exists i q, evsigevents (sw_info w) !! i = Some q /\ ev ∈ q
  | OpSignal sig => roomy w [sig]
  | OpWake n => n <> -1
  | OpProcess arr => roomy w (all_arrivals arr scanned)
  end.

Definition sig_step E w w' : Prop := exists op, enabled_sig E op w /\ run_sig_op E op w = Ok w'.

Context {KO : SigKernelOk}.

(** Between operations every caught signal is announced. *)
Definition sig_ok (orig : Z -> sigdisp) E w : Prop :=
  sig_inv orig E w /\ forall i, caught_at w i <> 0 -> evsignal_caught (sw_info w) = true.

Lemma sig_ok_frame orig E w w' : sig_ok orig E w -> sig_inv orig E w' ->
  evsigcaught (sw_info w') = evsigcaught (sw_info w) ->
  evsignal_caught (sw_info w') = evsignal_caught (sw_info w) -> sig_ok orig E w'.
Proof. intros [_ Hk] H' Hc Hf. split; [done|]. intros i. unfold caught_at. rewrite Hc, Hf. apply Hk. Qed.

Lemma process_ok orig E arr w : sig_ok orig E w -> roomy w (all_arrivals arr scanned) ->
  exists taken w', evsignal_process arr E w = Ok w' /\ sig_ok orig E w' /\
    sig_processed E scanned arr taken w w'.
Proof.
  intros [H Hk] [Hreal Hroom]. unfold evsignal_process.
  set (w0 := set_info _ w).
  assert (sig_inv orig E w0) as H0 by (destruct H; by split).
  destruct (process_signals_ok orig E arr (Z.to_nat (NSIG - 1)) 1 w0 H0) as (taken & w' & Hr & H' & P' & [S1 S2 S3 S4]);
    [lia|done|done|done| |].
  { intros j Hj. right. destruct j; [by rewrite (si_zero _ _ _ H0) in Hj|lia]. }
  exists taken, w'. split; [done|]. split; [|by split]. split; [done|]. intros i Hi.
  destruct (P' i Hi) as [|Hge]; [done|]. exfalso. apply Hi. unfold caught_at.
  rewrite lookup_ge_None_2; [done|]. pose proof (proj1 (si_counts _ _ _ H')) as Hl. unfold blen in Hl.
  unfold NSIG in *. lia.
Qed.

Lemma run_sig_op_ok orig E op w : sig_ok orig E w -> enabled_sig E op w ->
  exists w', run_sig_op E op w = Ok w' /\ sig_ok orig E w'.
Proof.
  intros Hw He. pose proof Hw as [H Hk]. destruct op as [a ev|ev|sig|n|arr]; cbn in He |- *.
  - destruct He as (i & q & Hq & Hl & Hni & Ha & H0).
    destruct (evsignal_add_ok orig E a w i q ev H Hq Hl Hni Ha H0) as (r & w' & -> & H' & Hc & Hf & _).
    exists w'. split; [done|]. by apply (sig_ok_frame orig E w).
  - destruct He as (i & q & Hq & Hin).
    destruct (evsignal_del_ok orig E w i q ev H Hq Hin) as (w' & -> & H' & [Hc Hf _ _ _] & _).
    exists w'. split; [done|]. by apply (sig_ok_frame orig E w).
  - destruct He as [Hr Hroom].
    destruct (signals_ok orig E [sig] w Hr H Hroom) as (n & b & c & Hs & H' & Hc & Hb).
    exists (recount n b c w). split; [cbn in Hs; destruct (evsignal_handler sig w); cbn in Hs; congruence|].
    split; [done|]. intros i Hi. destruct (pending_more (Z.to_nat NSIG) w n b c [sig]) with i as [|Hge]; try done.
    { intros j Hj. left. by apply (Hk j). }
    exfalso. apply Hi. unfold caught_at. rewrite lookup_ge_None_2; [done|].
    pose proof (proj1 (si_counts _ _ _ H')) as Hl. unfold blen in Hl. lia.
  - unfold evsignal_cb. rewrite (proj2 (Z.eqb_neq n (-1)) He). eexists. split; [reflexivity|].
    apply (sig_ok_frame orig E w); [done| |done|done]. destruct H. by split.
  - destruct (process_ok orig E arr w Hw He) as (taken & w' & Hr & H' & _). eauto.
Qed.

Lemma lookup_replicate_default {A} (d : A) n i v : replicate n v !! i = Some d -> d = v.
Proof. by intros [? _]%lookup_replicate_1. Qed.

Lemma evsignal_init_ok E k pair : exists w, evsignal_init (Some pair) (fresh_signals k) = Ok (0, w) /\
  sig_ok (disposition k) E w.
Proof.
  eexists. split; [reflexivity|]. set (w := set_sent _ _).
  assert (forall i, saved_at w i = None) as Hsa by (intros []; done).
  assert (forall i, caught_at w i = 0) as Hca.
  { intros i. unfold caught_at, w. cbn [set_sent set_info sw_info evsigcaught].
    destruct (replicate _ _ !! _) as [v|] eqn:Hv; [|done]. by apply lookup_replicate_default in Hv. }
  split; [split|].
  - done.
  - split; [done|]. intros i. rewrite Hca. lia.
  - apply Hca.
  - done.
  - intros i q Hq. cbn [w set_sent set_info sw_info evsigevents] in Hq. apply lookup_replicate_default in Hq as ->.
    split; [constructor|]. split; [set_solver|]. unfold sig_state. by rewrite decide_True.
  - intros i j p. by rewrite Hsa.
  - intros p v. cbn. rewrite lookup_empty. split; [done|]. intros (i & Hi & _). by rewrite Hsa in Hi.
  - intros p [v Hv]. done.
  - done.
  - intros i. by rewrite Hca.
Qed.

Lemma reachable_sig_ok E k pair w1 w : evsignal_init (Some pair) (fresh_signals k) = Ok (0, w1) ->
  rtc (sig_step E) w1 w -> sig_ok (disposition k) E w.
Proof.
  intros Hinit Hrun. destruct (evsignal_init_ok E k pair) as (w1' & Hi & H1).
  rewrite Hi in Hinit. injection Hinit as ->. clear Hi.
  induction Hrun as [|w1 w2 w3 (op & He & Hr) _ IH]; [done|]. apply IH.
  destruct (run_sig_op_ok _ _ _ _ H1 He) as (w2' & Hr' & H2). congruence.
Qed.

(** C21: From a new base on, in whatever order events are added and deleted and
    signals arrive, at any moment, within the following use ([enabled_sig]): an
    event is added for a signal whose handler the kernel lets a program set, and
    the internal event of the base can be added; it is added while it is not
    listening and deleted while it is; the counts do not overflow; the wake-up
    byte can be read. Then no operation of [signal.c] faults, every signal with a
    listener has the library's handler installed and its original one saved,
    every other signal its original one, and [evsignal_dealloc] puts back every
    original handler and frees every saved one. Outside that use both fail: a
    refused signal leaves a freed handler in the table
    ([refused_signal_dangles]), and after a failed addition of the internal event
    the original handler is lost ([lost_handler]). *)
Theorem signal_handlers_restored E k pair w1 w : evsignal_init (Some pair) (fresh_signals k) = Ok (0, w1) ->
  rtc (sig_step E) w1 w ->
  sig_ok (disposition k) E w /\ (forall op, enabled_sig E op w -> is_ok (run_sig_op E op w) = true) /\
  exists w', evsignal_dealloc w = Ok w' /\ sw_saved w' = ∅ /\ sh_old (sw_info w') = [] /\
    forall s, disposition (sw_kernel w') s = disposition k s.
Proof.
  intros Hinit Hrun. pose proof (reachable_sig_ok E k pair w1 w Hinit Hrun) as H.
  split; [done|]. split.
  - intros op He. by destruct (run_sig_op_ok _ _ _ _ H He) as (w' & -> & _).
  - by apply (evsignal_dealloc_ok _ E), H.
Qed.

(** C20: No signal is lost or delivered twice. [evsignal_process] takes at least
    what had been caught before it, for every signal the count that is left plus
    the count taken is the count before plus the signals that arrived meanwhile,
    what is left is announced for the next turn, and every listener of a signal
    that was taken is activated once with that count (narrowed to the [short]
    that [event_active] takes, so counts of 2^15 and more change), its events
    being deleted first when they are not persistent. The calls of [event_active]
    are recorded here, not run: on an event that is active already the base
    ignores the count. *)
Theorem signals_delivered orig E arr w : sig_ok orig E w -> roomy w (all_arrivals arr scanned) ->
  exists taken w', evsignal_process arr E w = Ok w' /\
    (forall i, i ∈ scanned -> caught_at w i <= taken i /\
      caught_at w' i + taken i = caught_at w i + heard w i (arrivals taken arr scanned)) /\
    (forall i, caught_at w' i <> 0 -> evsignal_caught (sw_info w') = true) /\
    sw_calls w' = sw_calls w ++ deliveries E taken (evsigevents (sw_info w)) scanned.
Proof.
  intros H Hr. destruct (process_ok orig E arr w H Hr) as (taken & w' & Hp & [_ Hk] & [S1 S2 S3 S4]).
  exists taken, w'. split; [done|]. split; [|by split]. intros i Hi. split; [by apply S2|].
  specialize (S1 i). by rewrite decide_True in S1.
Qed.

(** * Failures that are not recovered from *)

Lemma restore_all_skip n : forall i w, (forall j, (i <= j < i + n)%nat -> saved_at w j = None) ->
  forall m, restore_all (n + m) (Z.of_nat i) w = restore_all m (Z.of_nat (i + n)) w.
Proof.
  induction n as [|n IH]; intros i w Hn m; [by rewrite Nat.add_0_r|]. cbn [restore_all Nat.add]. rewrite Nat2Z.id.
  specialize (Hn i ltac:(lia)) as Hi. unfold saved_at in Hi.
  replace (match sh_old (sw_info w) !! i with
           | Some (Some _) => '(_, w) ← _evsignal_restore_handler (Z.of_nat i) w; Ok w
           | _ => Ok w end) with (Ok w) by (by destruct (sh_old (sw_info w) !! i) as [[?|]|]).
  cbn. replace (Z.of_nat i + 1) with (Z.of_nat (S i)) by lia. rewrite IH by (intros j Hj; apply Hn; lia).
  by rewrite Nat.add_succ_r.
Qed.

Lemma evsignal_init_facts k pair w : evsignal_init (Some pair) (fresh_signals k) = Ok (0, w) ->
  evsigevents (sw_info w) = replicate (Z.to_nat NSIG) [] /\ sh_old (sw_info w) = [] /\ sw_kernel w = k /\
  ev_signal_added (sw_info w) = false.
Proof. by intros [= <-]. Qed.

(** A signal that cannot be caught is refused with -1, but the pointer to the
    block that was to keep its old handler stays in the table after the block is
    freed: freeing the base then uses the block after its release. *)
Theorem refused_signal_dangles E a k pair w i x : evsignal_init (Some pair) (fresh_signals k) = Ok (0, w) ->
  Z.of_nat i < NSIG -> listens E i x -> accepts (Z.of_nat i) = false -> sa_realloc a = true -> sa_malloc a = true ->
  exists w', evsignal_add a E x w = Ok (-1, w') /\ evsigevents (sw_info w') = evsigevents (sw_info w) /\
    evsignal_dealloc w' = UB UseAfterFree.
Proof.
  intros Hinit Hi (o & Ho & Hfd & Hrw) Hacc Hre Hma. apply evsignal_init_facts in Hinit as (Hev & Hold & Hk & Hadd).
  unfold evsignal_add, deref. rewrite Ho. cbn [of_option].
  rewrite bind_Ok, Hrw, Hfd. replace ((0 <=? Z.of_nat i) && (Z.of_nat i <? NSIG)) with true
    by (symmetry; apply andb_true_iff; lia).
  cbn [require]. rewrite bind_Ok, Hev.
  rewrite (at_index_ok _ i []) by (apply lookup_replicate_2; unfold NSIG in *; lia). rewrite bind_Ok.
  unfold _evsignal_set_handler. rewrite Hre, Hma. cbn [negb]. rewrite andb_false_r, Hold, (blen_nil (A := option Z)).
  replace (Z.of_nat i >=? 0) with true by (symmetry; apply Z.geb_le; lia).
  cbn [set_info with_old sh_old sw_info]. rewrite Hold, (blen_nil (A := option Z)), Z.sub_0_r. cbn [app].
  rewrite (at_index_ok _ i None) by (apply lookup_replicate_2; lia). rewrite bind_Ok.
  cbn [malloc_saved set_info sw_kernel sw_next]. rewrite Hk. destruct (sigaction _ _ k) as [r|] eqn:Hs.
  { assert (accepts (Z.of_nat i) = true) by (apply (sigaction_accepts _ (Some SigLib) k); eauto). congruence. }
  rewrite !bind_Ok. eexists. split; [reflexivity|]. split; [done|].
  set (w' := set_saved _ _). unfold evsignal_dealloc. change (ev_signal_added (sw_info w')) with (ev_signal_added (sw_info w)).
  rewrite Hadd.
  assert (forall j, saved_at w' j = if decide (j = i) then Some (sw_next w) else None) as Hsa.
  { intros j. unfold saved_at, w'. cbn [set_saved set_info sw_info with_old sh_old malloc_saved]. rewrite Hold, Nat2Z.id.
    case_decide as Hj; [subst j|].
    - rewrite list_lookup_insert_eq; [done|]. cbn [app]. rewrite length_replicate, blen_nil. lia.
    - rewrite list_lookup_insert_ne by done. cbn [app]. destruct (replicate _ _ !! _) as [v|] eqn:Hv; [|done].
      by apply lookup_replicate_default in Hv as ->. }
  replace (Z.to_nat NSIG) with (i + S (Z.to_nat NSIG - i - 1))%nat by (unfold NSIG in *; lia).
  change 0 with (Z.of_nat 0). rewrite restore_all_skip.
  2:{ intros j Hj. rewrite Hsa, decide_False; [done|lia]. }
  cbn [restore_all Nat.add]. rewrite Nat2Z.id. specialize (Hsa i) as Hsi. rewrite decide_True in Hsi by done.
  unfold saved_at in Hsi. destruct (sh_old (sw_info w') !! i) as [[p|]|] eqn:Hp; [|done|done].
  cbn in Hsi. injection Hsi as ->. unfold _evsignal_restore_handler. rewrite (at_index_ok _ i _ Hp), bind_Ok.
  cbn [set_info sw_saved w' set_saved]. by rewrite lookup_delete_eq.
Qed.
End Runs.

(** * A kernel *)

Module SignalDemo.

(** Linux: signals 9 and 19 cannot be caught. *)
#[export] Instance linux : SigKernel := {|
  sigtable := gmap Z sigdisp;
  disposition k i := default SigDfl (k !! i);
  accepts sig := (1 <=? sig) && (sig <? NSIG) && negb (sig =? 9) && negb (sig =? 19);
  sigaction sig act k :=
    if (1 <=? sig) && (sig <? NSIG) && negb (sig =? 9) && negb (sig =? 19)
    then Some (default SigDfl (k !! sig), match act with Some d => <[sig := d]> k | None => k end)
    else None
|}.

#[export] Instance linux_ok : SigKernelOk.
Proof.
  split; cbn.
  - intros sig act k. destruct (_ && _ && _ && _); [done|]. split; [by intros [? ?]|done].
  - intros sig act k old k'. by destruct (_ && _ && _ && _); intros [= <- _].
  - intros sig act k old k' i. destruct (_ && _ && _ && _); [|done]. intros [= _ <-].
    destruct act as [d|]; case_decide as Hd; subst; cbn; [by rewrite lookup_insert_eq|by rewrite lookup_insert_ne|done|done].
Qed.

Definition sig_event (sig events : Z) : event := mkEvent NO_IDX sig events 0 None (mkTv 0 0) 0 0 EVLIST_INIT.

(** Two listeners of signal 2, one of them for one signal only, and one of 15. *)
Definition demo_events : events :=
  <[100 := sig_event 2 (Z.lor EV_SIGNAL EV_PERSIST)]> (<[101 := sig_event 2 EV_SIGNAL]>
    (<[102 := sig_event 15 EV_SIGNAL]> (<[103 := sig_event 9 EV_SIGNAL]> ∅))).

Definition yes : sig_answers := mkSigAnswers true true 0.

(** The program ignored signal 15. *)
Definition demo_kernel : sigtable (SigKernel := linux) := (<[15 := SigIgn]> ∅ : gmap Z sigdisp).

Definition of_ok {A} (d : A) (r : cres A) : A := match r with Ok a => a | UB _ => d end.

Definition demo_start : sigworld := snd (of_ok (0, fresh_signals demo_kernel)
  (evsignal_init (Some (7, 8)) (fresh_signals demo_kernel))).

Definition demo_ops : list sig_op := [OpAdd yes 100; OpAdd yes 101; OpAdd yes 102; OpSignal 2; OpSignal 2].

Definition run_demo (ops : list sig_op) : sigworld :=
  fold_left (fun w op => of_ok w (run_sig_op demo_events op w)) ops demo_start.

(** Signal 2 arrives once more after its count was read. *)
Definition demo_arrivals (i : Z) : list Z * list Z := if i =? 2 then ([], [2]) else ([], []).

Lemma roomy_by_count w l : Forall real_signal l ->
  forallb (fun c => c + Z.of_nat (length l) <=? INT_MAX) (0 :: evsigcaught (sw_info w)) = true -> roomy w l.
Proof.
  cbn. intros Hl [H0%Z.leb_le Hc]%andb_true_iff. split; [done|]. intros i. unfold caught_at.
  destruct (evsigcaught (sw_info w) !! i) as [c|] eqn:Hi; [|done]. rewrite forallb_forall in Hc.
  apply Z.leb_le, Hc. apply list_elem_of_In. by eapply list_elem_of_lookup_2.
Qed.

Lemma demo_step ops op : rtc (sig_step demo_events) demo_start (run_demo ops) ->
  enabled_sig demo_events op (run_demo ops) -> is_ok (run_sig_op demo_events op (run_demo ops)) = true ->
  rtc (sig_step demo_events) demo_start (run_demo (ops ++ [op])).
Proof.
  intros Hr He Hok. eapply rtc_r; [exact Hr|]. exists op. split; [done|]. unfold run_demo at 2.
  rewrite fold_left_app. cbn [fold_left]. change (fold_left _ ops demo_start) with (run_demo ops).
  by destruct (run_sig_op demo_events op (run_demo ops)).
Qed.

Lemma demo_add i q x w : evsigevents (sw_info w) !! i = Some q -> bool_decide (x ∉ q) = true ->
  listens demo_events i x -> accepts (Z.of_nat i) = true -> enabled_sig demo_events (OpAdd yes x) w.
Proof. intros Hq Hx%bool_decide_eq_true Hl Ha. by exists i, q. Qed.

Lemma demo_reached : rtc (sig_step demo_events) demo_start (run_demo demo_ops).
Proof.
  change demo_ops with (((([] ++ [OpAdd yes 100]) ++ [OpAdd yes 101]) ++ [OpAdd yes 102]) ++ [OpSignal 2] ++ [OpSignal 2]).
  rewrite (app_assoc _ [OpSignal 2]). repeat (apply demo_step; [| |vm_compute; reflexivity]).
  - reflexivity.
  - apply (demo_add 2 []); [vm_compute; reflexivity|done|by eexists|done].
  - apply (demo_add 2 [100]); [vm_compute; reflexivity|done|by eexists|done].
  - apply (demo_add 15 []); [vm_compute; reflexivity|done|by eexists|done].
  - apply roomy_by_count; [by repeat constructor|vm_compute; reflexivity].
  - apply roomy_by_count; [by repeat constructor|vm_compute; reflexivity].
Qed.

Lemma signal_handlers_restored_witness :
  exists w', evsignal_dealloc (run_demo demo_ops) = Ok w' /\ sw_saved w' = ∅ /\ disposition (sw_kernel w') 15 = SigIgn.
Proof.
  destruct (signal_handlers_restored demo_events demo_kernel (7, 8) demo_start (run_demo demo_ops))
    as (_ & _ & w' & Hr & Hs & _ & Hd); [vm_compute; reflexivity|exact demo_reached|].
  exists w'. split; [exact Hr|]. split; [exact Hs|]. rewrite Hd. reflexivity.
Defined.

Lemma signals_delivered_witness : exists taken w',
  evsignal_process demo_arrivals demo_events (run_demo demo_ops) = Ok w' /\ 2 <= taken 2%nat /\
  evsignal_caught (sw_info w') = true /\ caught_at w' 2 = 1 /\
  sw_calls w' = [AddInternal; ActiveEvent 100 EV_SIGNAL 2; DelEvent 101; ActiveEvent 101 EV_SIGNAL 2].
Proof.
  destruct (signals_delivered (disposition demo_kernel) demo_events demo_arrivals (run_demo demo_ops))
    as (taken & w' & Hr & Ht & Hk & Hc).
  - apply (reachable_sig_ok demo_events demo_kernel (7, 8) demo_start); [vm_compute; reflexivity|exact demo_reached].
  - apply roomy_by_count; [by repeat constructor|vm_compute; reflexivity].
  - exists taken, w'. split; [exact Hr|]. split; [apply (Ht 2%nat); by right; left|].
    assert (Hv : match evsignal_process demo_arrivals demo_events (run_demo demo_ops) with
      | Ok w => (caught_at w 2, sw_calls w) | UB _ => (0, []) end =
      (1, [AddInternal; ActiveEvent 100 EV_SIGNAL 2; DelEvent 101; ActiveEvent 101 EV_SIGNAL 2])) by (vm_compute; reflexivity).
    rewrite Hr in Hv. injection Hv as H1 H2. split; [apply (Hk 2%nat); by rewrite H1|]. by split.
Defined.

Lemma refused_signal_dangles_witness :
  exists w', evsignal_add yes demo_events 103 demo_start = Ok (-1, w') /\ evsignal_dealloc w' = UB UseAfterFree.
Proof.
  destruct (refused_signal_dangles demo_events yes demo_kernel (7, 8) demo_start 9 103) as (w' & Ha & _ & Hd);
    [vm_compute; reflexivity|done|by eexists|done|done|done|]. by exists w'.
Defined.

(** When the internal event cannot be added, the first call leaves the library's
    handler installed; the next one saves that one over the original, which is
    lost. *)
Example lost_handler :
  let w1 := snd (of_ok (0, demo_start) (evsignal_add (mkSigAnswers true true (-1)) demo_events 102 demo_start)) in
  let w2 := snd (of_ok (0, demo_start) (evsignal_add yes demo_events 102 w1)) in
  let w3 := snd (of_ok (0, demo_start) (evsignal_del demo_events 102 w2)) in
  disposition (sw_kernel demo_start) 15 = SigIgn /\ disposition (sw_kernel w1) 15 = SigLib /\
  evsigevents (sw_info w1) = evsigevents (sw_info demo_start) /\ disposition (sw_kernel w3) 15 = SigLib.
Proof. vm_compute. done. Qed.

End SignalDemo.
