(* ===== verification/Epoll.v ===== *)
(** The polling back end the program runs on: [epoll.c] of
    [socket/3rd/libevent-1.4.12-stable]. It keeps, per descriptor, the event that
    reads and the event that writes, mirrors them in the kernel's interest list,
    and turns what the kernel reports into activations. *)
From S2P Require Import Prelude.
From S2P Require Import BufferEvent MinHeap EventBase EvSignal.

(** * Data *)

Definition EPOLLIN : Z := 1.
Definition EPOLLOUT : Z := 4.
Definition EPOLLERR : Z := 8.
Definition EPOLLHUP : Z := 16.

Definition NEVENT : Z := 32000.
Definition MAX_EPOLL_TIMEOUT_MSEC : Z := 35 * 60 * 1000.

Record evepoll := mkEvepoll {
  evread : option Z;
  evwrite : option Z
}.

#[export] Instance evepoll_eq_dec : EqDecision evepoll.
Proof. solve_decision. Defined.

(** [struct epollop]; [nfds] is the length of [fds], and the array of reports is
    given by its length. *)
Record epollop := mkEpollop {
  fds : list evepoll;
  nevents : Z;
  epfd : Z
}.

Inductive epoll_op : Type :=
| EPOLL_CTL_ADD
| EPOLL_CTL_MOD
| EPOLL_CTL_DEL.

(** The kernel's interest list, with [epoll_ctl]; no answer is its error
    result. *)
Class EpollKernel : Type := {
  epoll_set : Type;
  interest : epoll_set -> Z -> option Z;
  epoll_ctl : epoll_op -> Z -> Z -> epoll_set -> option epoll_set
}.

(** [epoll_ctl(2)]: adding fails for a descriptor that is registered, modifying
    and deleting for one that is not; otherwise the mask is replaced or
    removed. *)
Class EpollKernelOk `{P : !EpollKernel} : Prop := {
  ctl_add fd m k k' : epoll_ctl EPOLL_CTL_ADD fd m k = Some k' ->
    interest k fd = None /\ forall i, interest k' i = if decide (i = fd) then Some m else interest k i;
  ctl_mod fd m k k' : epoll_ctl EPOLL_CTL_MOD fd m k = Some k' ->
    is_Some (interest k fd) /\ forall i, interest k' i = if decide (i = fd) then Some m else interest k i;
  ctl_del fd m k k' : epoll_ctl EPOLL_CTL_DEL fd m k = Some k' ->
    is_Some (interest k fd) /\ forall i, interest k' i = if decide (i = fd) then None else interest k i
}.

(** The answer of [epoll_wait]: an error, with whether it is [EINTR], or the
    reports. *)
Inductive wait_answer : Type :=
| WaitError (eintr : bool)
| WaitReady (reports : list (Z * Z)).

(** * Opening *)

(** The outside answers of [epoll_init]: the environment variable, the limit on
    descriptors ([None] when it is unlimited or unknown), the new descriptor, the
    three allocations, and the socket pair of the signals. *)
Record epoll_init_answers := mkEpollInit {
  ei_noepoll : bool;
  ei_limit : option Z;
  ei_create : option Z;
  ei_calloc : bool;
  ei_events : bool;
  ei_fds : bool;
  ei_pair : option (Z * Z)
}.

(** The result, the descriptor that stays open, and the signal state. The limit is
    converted to [int]. *)
Definition epoll_init `{K : !SigKernel} (a : epoll_init_answers) (sg : sigworld)
  : cres (option epollop * option Z * sigworld) :=
  if ei_noepoll a then Ok (None, None, sg)
  else
    let nfiles := match ei_limit a with Some l => wrap32 (l - 1) | None => NEVENT end in
    match ei_create a with
    | None => Ok (None, None, sg)
    | Some fd =>
        if negb (ei_calloc a) then Ok (None, Some fd, sg)
        else if negb (ei_events a) then Ok (None, Some fd, sg)
        else if negb (ei_fds a) then Ok (None, Some fd, sg)
        else
          '(_, sg) ← evsignal_init (ei_pair a) sg;
          Ok (Some (mkEpollop (replicate (Z.to_nat nfiles) (mkEvepoll None None)) nfiles fd), Some fd, sg)
    end.

(** [while (nfds <= max) nfds <<= 1]; from 1 on an [int] can be doubled 30 times. *)
Fixpoint double_until (fuel : nat) (nfds max : Z) : cres Z :=
  match fuel with
  | O => UB Diverges
  | S fuel => if nfds <=? max then n ← chk_int (2 * nfds); double_until fuel n max else Ok nfds
  end.

Definition epoll_recalc (alloc : bool) (max : Z) (op : epollop) : cres (Z * epollop) :=
  if max >=? blen (fds op) then
    nfds ← double_until 32 (blen (fds op)) max;
    if negb alloc then Ok (-1, op)
    else Ok (0, mkEpollop (fds op ++ replicate (Z.to_nat (nfds - blen (fds op))) (mkEvepoll None None))
                  (nevents op) (epfd op))
  else Ok (0, op).

Section Backend.
Context {P : EpollKernel} {K : SigKernel}.

(** The back end, the kernel's list and the signal state of the base. *)
Record backend := mkBackend {
  bk_op : epollop;
  bk_set : epoll_set;
  bk_sig : sigworld
}.

(** The outside answers of one call. *)
Record backend_answers := mkBackendAnswers {
  ba_realloc : bool;
  ba_sig : sig_answers
}.

Definition put_slot (fd : Z) (e : evepoll) (op : epollop) : epollop :=
  mkEpollop (<[Z.to_nat fd := e]> (fds op)) (nevents op) (epfd op).

(** * Adding and deleting *)

Definition epoll_add (a : backend_answers) (E : events) (ev : Z) (b : backend) : cres (Z * backend) :=
  o ← deref E ev;
  if has_flag (ev_events o) EV_SIGNAL then
    '(r, sg) ← evsignal_add (ba_sig a) E ev (bk_sig b);
    Ok (r, mkBackend (bk_op b) (bk_set b) sg)
  else
    let fd := ev_fd o in
    '(r, op) ← (if fd >=? blen (fds (bk_op b)) then epoll_recalc (ba_realloc a) fd (bk_op b)
                else Ok (0, bk_op b));
    if r =? -1 then Ok (-1, mkBackend op (bk_set b) (bk_sig b))
    else
      e ← at_index (fds op) fd;
      let ctl := match evread e, evwrite e with None, None => EPOLL_CTL_ADD | _, _ => EPOLL_CTL_MOD end in
      let m := match evread e with Some _ => EPOLLIN | None => 0 end in
      let m := match evwrite e with Some _ => Z.lor m EPOLLOUT | None => m end in
      let m := if has_flag (ev_events o) EV_READ then Z.lor m EPOLLIN else m in
      let m := if has_flag (ev_events o) EV_WRITE then Z.lor m EPOLLOUT else m in
      match epoll_ctl ctl fd m (bk_set b) with
      | None => Ok (-1, mkBackend op (bk_set b) (bk_sig b))
      | Some k =>
          let e := mkEvepoll (if has_flag (ev_events o) EV_READ then Some ev else evread e)
                             (if has_flag (ev_events o) EV_WRITE then Some ev else evwrite e) in
          Ok (0, mkBackend (put_slot fd e op) k (bk_sig b))
      end.

Definition epoll_del (E : events) (ev : Z) (b : backend) : cres (Z * backend) :=
  o ← deref E ev;
  if has_flag (ev_events o) EV_SIGNAL then
    '(r, sg) ← evsignal_del E ev (bk_sig b);
    Ok (r, mkBackend (bk_op b) (bk_set b) sg)
  else
    let fd := ev_fd o in
    if fd >=? blen (fds (bk_op b)) then Ok (0, b)
    else
      e ← at_index (fds (bk_op b)) fd;
      let m := if has_flag (ev_events o) EV_READ then EPOLLIN else 0 in
      let m := if has_flag (ev_events o) EV_WRITE then Z.lor m EPOLLOUT else m in
      let both := Z.lor EPOLLIN EPOLLOUT in
      let '(ctl, m, needread, needwrite) :=
        if negb (Z.land m both =? both) then
          if has_flag m EPOLLIN && given (evwrite e) then (EPOLL_CTL_MOD, EPOLLOUT, true, false)
          else if has_flag m EPOLLOUT && given (evread e) then (EPOLL_CTL_MOD, EPOLLIN, false, true)
          else (EPOLL_CTL_DEL, m, true, true)
        else (EPOLL_CTL_DEL, m, true, true) in
      let e := mkEvepoll (if needread : bool then None else evread e) (if needwrite : bool then None else evwrite e) in
      let op := put_slot fd e (bk_op b) in
      match epoll_ctl ctl fd m (bk_set b) with
      | None => Ok (-1, mkBackend op (bk_set b) (bk_sig b))
      | Some k => Ok (0, mkBackend op k (bk_sig b))
      end.

(** * Waiting *)

(** The time-out handed to [epoll_wait], in milliseconds; a negative one means no
    limit. The value is computed as a [long] and converted to [int]. *)
Definition epoll_timeout (wt : wait) : cres Z :=
  timeout ← match wt with
            | Forever => Ok (-1)
            | For tv =>
                tv ← of_option Uninitialised tv;
                ms ← chk_long (tv_sec tv * 1000);
                u ← chk_long (tv_usec tv + 999);
                ms ← chk_long (ms + Z.quot u 1000);
                Ok (wrap32 ms)
            end;
  Ok (if timeout >? MAX_EPOLL_TIMEOUT_MSEC then MAX_EPOLL_TIMEOUT_MSEC else timeout).

(** The events that a report activates, with what each is told. *)
Definition report_calls (op : epollop) (report : Z * Z) : list (Z * Z) :=
  let '(what, fd) := report in
  if (fd <? 0) || (fd >=? blen (fds op)) then []
  else
    match fds op !! Z.to_nat fd with
    | None => []
    | Some e =>
        let all := has_flag what (Z.lor EPOLLHUP EPOLLERR) in
        let r := if all || has_flag what EPOLLIN then evread e else None in
        let wr := if all || has_flag what EPOLLOUT then evwrite e else None in
        match r with Some x => [(x, EV_READ)] | None => [] end ++
        match wr with Some x => [(x, EV_WRITE)] | None => [] end
    end.

Fixpoint activate_all (l : list (Z * Z)) : em unit :=
  match l with
  | [] => mret tt
  | (x, res) :: l => event_active x res 1;; activate_all l
  end.

Fixpoint report_loop (op : epollop) (reports : list (Z * Z)) : em unit :=
  match reports with
  | [] => mret tt
  | r :: reports => activate_all (report_calls op r);; report_loop op reports
  end.

(** [epoll_dispatch]; [answer] is what [epoll_wait] returns for a time-out,
    [caught] is [evsignal_caught], and [process] is [evsignal_process]. *)
Definition epoll_dispatch (op : epollop) (answer : Z -> wait_answer) (caught : bool) (process : em unit)
  (wt : wait) : em Z :=
  timeout ← elift (epoll_timeout wt);
  match answer timeout with
  | WaitError false => mret (-1)
  | WaitError true => process;; mret 0
  | WaitReady reports =>
      elift (require (blen reports <=? nevents op) OutOfBounds);;
      (if caught then process else mret tt);;
      report_loop op reports;;
      mret 0
  end.

(** * Closing *)

(** The signals are put back; the descriptor to close is the result. *)
Definition epoll_dealloc (b : backend) : cres (option Z * sigworld) :=
  sg ← evsignal_dealloc (bk_sig b);
  Ok (if epfd (bk_op b) >=? 0 then Some (epfd (bk_op b)) else None, sg).

(** * After a fork *)

(** The calls of [evsel->add] for the events of the queue; any failure is
    reported, and the others are still made. *)
Fixpoint readd_all (ba : Z -> backend_answers) (E : events) (q : list Z) (b : backend) : cres (Z * backend) :=
  match q with
  | [] => Ok (0, b)
  | ev :: q =>
      '(r, b) ← epoll_add (ba ev) E ev b;
      '(res, b) ← readd_all ba E q b;
      Ok (if r =? -1 then -1 else res, b)
  end.

(** [event_reinit] of a base that runs on epoll; [sx] is the address of the
    internal event, [k] the kernel's list of the new descriptor. The walk is over
    the inserted events as they are when it starts: the internal event, which
    [evsignal_add] inserts during the walk of a base with signals, is not seen. *)
Definition event_reinit (a : epoll_init_answers) (ba : Z -> backend_answers) (k : epoll_set) (sx : Z)
  (s : eworld * backend) : cres (Z * (eworld * backend)) :=
  let '(w, b) := s in
  '(w, sg) ← (if ev_signal_added (sw_info (bk_sig b)) then
                '(_, w) ← event_queue_remove sx EVLIST_INSERTED w;
                o ← deref (w_mem w) sx;
                '(_, w) ← (if has_flag (ev_flags o) EVLIST_ACTIVE then event_queue_remove sx EVLIST_ACTIVE else mret tt) w;
                Ok (w, set_info (with_added false) (bk_sig b))
              else Ok (w, bk_sig b));
  '(_, sg) ← epoll_dealloc (mkBackend (bk_op b) (bk_set b) sg);
  '(op, _, sg) ← epoll_init a sg;
  match op with
  | None => UB AssertFailed
  | Some op =>
      '(res, b) ← readd_all ba (w_mem w) (eventqueue (w_base w)) (mkBackend op k sg);
      Ok (res, (w, b))
  end.

End Backend.
