(* ===== verification/EpollCorrect.v ===== *)
(** The table of [epoll.c] and the kernel's interest list agree, and the events
    that are reported are the ones activated. *)
From S2P Require Import Prelude.
From S2P Require Import BufferEvent MinHeap EventBase EventCorrect EventLoop EvSignal SignalCorrect Epoll.

(** The event registered for a descriptor, to read ([true]) or to write. *)
Definition slot (op : epollop) (fd : Z) (rd : bool) : option Z :=
  if 0 <=? fd then
    match fds op !! Z.to_nat fd with
    | Some e => if rd then evread e else evwrite e
    | None => None
    end
  else None.

(** The event asks for the direction. *)
Definition asks (o : event) (rd : bool) : bool := has_flag (ev_events o) (if rd then EV_READ else EV_WRITE).

Definition dir_mask (rd : bool) : Z := if rd then EPOLLIN else EPOLLOUT.

(** The mask that two slots call for. *)
Definition slots_mask (r w : option Z) : option Z :=
  match r, w with
  | None, None => None
  | Some _, None => Some EPOLLIN
  | None, Some _ => Some EPOLLOUT
  | Some _, Some _ => Some (Z.lor EPOLLIN EPOLLOUT)
  end.

Lemma slot_at op (i : nat) e rd : fds op !! i = Some e ->
  slot op (Z.of_nat i) rd = if rd then evread e else evwrite e.
Proof. intros He. unfold slot. replace (0 <=? Z.of_nat i) with true by (by zdecide). by rewrite Nat2Z.id, He. Qed.

Lemma slot_beyond op fd rd : blen (fds op) <= fd -> slot op fd rd = None.
Proof.
  intros Hf. unfold slot. destruct (0 <=? fd); [|done]. rewrite lookup_ge_None_2; [done|]. unfold blen in Hf. lia.
Qed.

Lemma slot_put op (i : nat) e fd rd : Z.of_nat i < blen (fds op) ->
  slot (put_slot (Z.of_nat i) e op) fd rd =
    if decide (fd = Z.of_nat i) then (if rd then evread e else evwrite e) else slot op fd rd.
Proof.
  intros Hi. unfold slot, put_slot. cbn [fds]. rewrite Nat2Z.id. case_decide as Hd; [subst fd|].
  - replace (0 <=? Z.of_nat i) with true by (by zdecide). rewrite Nat2Z.id, list_lookup_insert_eq; [done|].
    unfold blen in Hi. lia.
  - destruct (Z.leb_spec 0 fd); [|done]. by rewrite list_lookup_insert_ne by lia.
Qed.

Lemma chosen {A} (c : bool) (Q : Prop) `{!Decision Q} (u v : A) : Q ->
  (if c then u else v) = if decide (Q /\ c = true) then u else v.
Proof. intros HQ. destruct c; [by rewrite decide_True|by rewrite decide_False by (by intros [])]. Qed.

(** * Growing *)

Lemma double_until_ok fuel : forall n max, 0 < n -> 0 <= max < 2 ^ 30 -> max < n * 2 ^ Z.of_nat fuel ->
  n <= INT_MAX -> exists r, double_until (S fuel) n max = Ok r /\ max < r /\ n <= r <= INT_MAX.
Proof.
  induction fuel as [|fuel IH]; intros n max Hn Hm Hp Hi; cbn [double_until].
  - change (2 ^ Z.of_nat 0) with 1 in Hp. rewrite (proj2 (Z.leb_gt n max)) by lia. exists n. split; [done|lia].
  - destruct (Z.leb_spec n max); [|exists n; split; [done|lia]].
    rewrite chk_int_ok, bind_Ok by (unfold INT_MIN, INT_MAX in *; lia).
    destruct (IH (2 * n) max) as (r & Hr & H1 & H2); [lia|done| |unfold INT_MAX; lia|].
    + rewrite Nat2Z.inj_succ, Z.pow_succ_r in Hp by lia. lia.
    + exists r. split; [exact Hr|lia].
Qed.

Lemma epoll_recalc_ok alloc max op : 0 < blen (fds op) <= INT_MAX -> blen (fds op) <= max < 2 ^ 30 ->
  exists r op', epoll_recalc alloc max op = Ok (r, op') /\ (forall fd rd, slot op' fd rd = slot op fd rd) /\
    blen (fds op) <= blen (fds op') <= INT_MAX /\ (r = 0 /\ max < blen (fds op') \/ r = -1 /\ alloc = false).
Proof.
  intros Hb Hm. unfold epoll_recalc. rewrite Z.geb_leb, (proj2 (Z.leb_le _ _)) by lia.
  destruct (double_until_ok 31 (blen (fds op)) max) as (n & Hn & Hlt & Hle); [lia|lia| |lia|].
  { change (2 ^ Z.of_nat 31) with (2 ^ 31). change (2 ^ 30) with 1073741824 in Hm. change (2 ^ 31) with 2147483648. lia. }
  rewrite Hn, bind_Ok. destruct alloc; cbn [negb].
  - eexists _, _. split; [reflexivity|]. cbn [fds]. split.
    + intros fd rd. unfold slot. cbn [fds]. destruct (0 <=? fd); [|done]. rewrite lookup_app.
      destruct (fds op !! Z.to_nat fd) as [e|]; [done|].
      destruct (replicate _ _ !! _) as [e|] eqn:Hr; [|done]. apply lookup_replicate_1 in Hr as [-> _]. by destruct rd.
    + rewrite blen_app. assert (blen (replicate (Z.to_nat (n - blen (fds op))) (mkEvepoll None None)) = n - blen (fds op))
        as -> by (unfold blen at 1; rewrite length_replicate; lia). lia.
  - eexists _, _. split; [reflexivity|]. split; [done|]. split; [lia|]. by right.
Qed.

Section Backend.
Context {P : EpollKernel} {PO : EpollKernelOk} {K : SigKernel}.
Implicit Types (b : backend) (E : events).

(** The table can grow, and the kernel watches at least what is registered. *)
Record epoll_inv b : Prop := {
  ep_size : 0 < blen (fds (bk_op b)) <= INT_MAX;
  ep_watched : forall fd rd, is_Some (slot (bk_op b) fd rd) ->
    exists m, interest (bk_set b) fd = Some m /\ has_flag m (dir_mask rd) = true
}.

(** The kernel watches exactly what is registered. *)
Definition epoll_exact b : Prop :=
  forall fd, interest (bk_set b) fd = slots_mask (slot (bk_op b) fd true) (slot (bk_op b) fd false).

(** An event on a descriptor: it asks for something, and the table can be grown
    to hold it. *)
Definition io_event (o : event) : Prop :=
  has_flag (ev_events o) EV_SIGNAL = false /\ 0 <= ev_fd o < 2 ^ 30 /\ asks o true || asks o false = true.

(** The slots of an event set to [v]. *)
Definition slots_set (o : event) (v : option Z) b b' : Prop :=
  forall fd rd, slot (bk_op b') fd rd =
    if decide (fd = ev_fd o /\ asks o rd = true) then v else slot (bk_op b) fd rd.

(** The kernel's list after one entry of the table and one mask changed. *)
Lemma watched_put b (i : nat) e k : epoll_inv b -> Z.of_nat i < blen (fds (bk_op b)) ->
  (forall j, j <> Z.of_nat i -> interest k j = interest (bk_set b) j) ->
  (forall rd, is_Some (if rd : bool then evread e else evwrite e) ->
    exists m, interest k (Z.of_nat i) = Some m /\ has_flag m (dir_mask rd) = true) ->
  epoll_inv (mkBackend (put_slot (Z.of_nat i) e (bk_op b)) k (bk_sig b)).
Proof.
  intros [Hs Hw] Hi Hk He. split.
  - cbn. unfold put_slot. cbn [fds]. unfold blen in *. by rewrite length_insert.
  - intros fd rd. cbn [bk_op bk_set]. rewrite slot_put by done. case_decide as Hd; [subst fd; apply He|].
    rewrite Hk by done. apply Hw.
Qed.

Lemma exact_put b (i : nat) e k : epoll_exact b -> Z.of_nat i < blen (fds (bk_op b)) ->
  (forall j, j <> Z.of_nat i -> interest k j = interest (bk_set b) j) ->
  interest k (Z.of_nat i) = slots_mask (evread e) (evwrite e) ->
  epoll_exact (mkBackend (put_slot (Z.of_nat i) e (bk_op b)) k (bk_sig b)).
Proof.
  intros Hx Hi Hk He fd. cbn [bk_op bk_set]. rewrite !slot_put by done. case_decide as Hd; [by subst fd|].
  rewrite Hk by done. apply Hx.
Qed.

(** What the kernel holds after [epoll_add]'s call for an entry of the table. *)
Lemma add_ctl_ok e o x k k' fd :
  let r := has_flag (ev_events o) EV_READ in
  let wr := has_flag (ev_events o) EV_WRITE in
  let m := match evread e with Some _ => EPOLLIN | None => 0 end in
  let m := match evwrite e with Some _ => Z.lor m EPOLLOUT | None => m end in
  let m := if r then Z.lor m EPOLLIN else m in
  let m := if wr then Z.lor m EPOLLOUT else m in
  r || wr = true ->
  epoll_ctl (match evread e, evwrite e with None, None => EPOLL_CTL_ADD | _, _ => EPOLL_CTL_MOD end) fd m k = Some k' ->
  (forall j, j <> fd -> interest k' j = interest k j) /\
  interest k' fd = slots_mask (if r then Some x else evread e) (if wr then Some x else evwrite e).
Proof.
  intros r wr m0 m1 m2 m Hdir Hc.
  assert (Some m = slots_mask (if r then Some x else evread e) (if wr then Some x else evwrite e)) as <-.
  { unfold m, m2, m1, m0. by destruct (evread e), (evwrite e), r, wr. }
  destruct (evread e), (evwrite e); (apply ctl_mod in Hc as [_ Hc] || apply ctl_add in Hc as [_ Hc]);
    (split; [intros j Hj|]; rewrite Hc; [by rewrite decide_False|by rewrite decide_True]).
Qed.

Lemma mask_watches r w rd : is_Some (if rd : bool then r else w) ->
  exists m, slots_mask r w = Some m /\ has_flag m (dir_mask rd) = true.
Proof. intros [x Hx]. destruct rd, r, w; try done; by eexists. Qed.

Lemma epoll_add_ok a E x o b : epoll_inv b -> E !! x = Some o -> io_event o ->
  exists r b', epoll_add a E x b = Ok (r, b') /\ epoll_inv b' /\ bk_sig b' = bk_sig b /\
    nevents (bk_op b') = nevents (bk_op b) /\ (epoll_exact b -> epoll_exact b') /\
    (r = 0 /\ slots_set o (Some x) b b' \/
     r = -1 /\ forall fd rd, slot (bk_op b') fd rd = slot (bk_op b) fd rd).
Proof.
  intros H Ho (Hns & Hfd & Hdir). unfold epoll_add, deref. rewrite Ho. cbn [of_option]. rewrite bind_Ok, Hns.
  assert (exists r op, (if ev_fd o >=? blen (fds (bk_op b)) then epoll_recalc (ba_realloc a) (ev_fd o) (bk_op b)
      else Ok (0, bk_op b)) = Ok (r, op) /\ (forall fd rd, slot op fd rd = slot (bk_op b) fd rd) /\
      0 < blen (fds op) <= INT_MAX /\ nevents op = nevents (bk_op b) /\ (r = 0 /\ ev_fd o < blen (fds op) \/ r = -1))
    as (r & op & -> & Hsl & Hb & Hnev & Hr).
  { rewrite Z.geb_leb. destruct (Z.leb_spec (blen (fds (bk_op b))) (ev_fd o)) as [Hle|Hlt].
    - destruct (epoll_recalc_ok (ba_realloc a) (ev_fd o) (bk_op b) (ep_size _ H) ltac:(lia))
        as (r & op & Hre & Hsl & Hb & Hr).
      exists r, op. pose proof (ep_size _ H). split; [done|]. split; [done|]. split; [lia|]. split; [|naive_solver].
      revert Hre. unfold epoll_recalc. case_match; [|by intros [= _ <-]].
      destruct (double_until _ _ _); [|done]. cbn. by case_match; intros [= _ <-].
    - exists 0, (bk_op b). pose proof (ep_size _ H). do 2 (split; [done|]). split; [lia|]. split; [done|]. by left. }
  set (b1 := mkBackend op (bk_set b) (bk_sig b)).
  assert (epoll_inv b1) as H1 by (split; [done|]; intros fd rd; cbn [b1 bk_op bk_set]; rewrite Hsl; apply (ep_watched _ H)).
  assert (epoll_exact b -> epoll_exact b1) as Hx1 by (intros Hx fd; cbn [b1 bk_op bk_set]; rewrite !Hsl; apply Hx).
  rewrite bind_Ok. destruct Hr as [[-> Hlt]| ->]; cbn [Z.eqb].
  2:{ exists (-1), b1. do 5 (split; [done|]). by right. }
  destruct (blen_lookup (fds op) (Z.to_nat (ev_fd o))) as [e He]; [lia|].
  assert (ev_fd o = Z.of_nat (Z.to_nat (ev_fd o))) as Hfn by lia. set (i := Z.to_nat (ev_fd o)) in *.
  replace (at_index (fds op) (ev_fd o)) with (@Ok evepoll e) by (rewrite Hfn; symmetry; by apply at_index_ok).
  rewrite bind_Ok.
  destruct (epoll_ctl _ (ev_fd o) _ (bk_set b)) as [k|] eqn:Hc.
  2:{ exists (-1), b1. do 5 (split; [done|]). by right. }
  destruct (add_ctl_ok e o x _ _ _ Hdir Hc) as [Hoth Hme]. rewrite Hfn in Hoth, Hme |- *.
  assert (Z.of_nat i < blen (fds (bk_op b1))) as Hib by (cbn; lia).
  set (e' := mkEvepoll _ _). eexists 0, _. split; [reflexivity|].
  split; [|split; [done|split; [done|split; [intros Hx; by apply (exact_put b1); [apply Hx1|..]|left; split; [done|]]]]].
  - apply (watched_put b1); [done|done|done|]. intros rd Hrd. rewrite Hme. by apply mask_watches.
  - intros fd rd. cbn [bk_op]. rewrite slot_put by done. rewrite Hsl, <- Hfn.
    destruct (decide (fd = ev_fd o)) as [->|Hne]; [|by rewrite decide_False by tauto].
    rewrite Hfn, <- Hsl, (slot_at op i e rd He). unfold asks. cbn [evread evwrite e'].
    destruct rd; by apply chosen.
Qed.

(** What [epoll_del] decides for an entry of the table: the remaining direction is
    kept with its mask, or the descriptor is dropped. *)
Lemma del_choice e (r wr : bool) : r || wr = true ->
  let m := if r then EPOLLIN else 0 in
  let m := if wr then Z.lor m EPOLLOUT else m in
  let both := Z.lor EPOLLIN EPOLLOUT in
  exists ctl m' nr nw,
    (if negb (Z.land m both =? both) then
       if has_flag m EPOLLIN && given (evwrite e) then (EPOLL_CTL_MOD, EPOLLOUT, true, false)
       else if has_flag m EPOLLOUT && given (evread e) then (EPOLL_CTL_MOD, EPOLLIN, false, true)
       else (EPOLL_CTL_DEL, m, true, true)
     else (EPOLL_CTL_DEL, m, true, true)) = (ctl, m', nr, nw) /\
    (if nr : bool then None else evread e) = (if r then None else evread e) /\
    (if nw : bool then None else evwrite e) = (if wr then None else evwrite e) /\
    match slots_mask (if r then None else evread e) (if wr then None else evwrite e) with
    | None => ctl = EPOLL_CTL_DEL
    | Some k => ctl = EPOLL_CTL_MOD /\ k = m'
    end.
Proof.
  intros Hd. destruct e as [[|] [|]], r, wr; try done; (eexists _, _, _, _; split; [reflexivity|done]).
Qed.

Lemma epoll_del_ok E x o b : epoll_inv b -> E !! x = Some o -> io_event o ->
  exists r b', epoll_del E x b = Ok (r, b') /\ epoll_inv b' /\ bk_sig b' = bk_sig b /\
    nevents (bk_op b') = nevents (bk_op b) /\ (r = 0 -> epoll_exact b -> epoll_exact b') /\
    (r = 0 \/ r = -1) /\ slots_set o None b b'.
Proof.
  intros H Ho (Hns & Hfd & Hdir). unfold epoll_del, deref. rewrite Ho. cbn [of_option]. rewrite bind_Ok, Hns, Z.geb_leb.
  destruct (Z.leb_spec (blen (fds (bk_op b))) (ev_fd o)) as [Hle|Hlt].
  { exists 0, b. do 5 (split; [done|]). split; [by left|]. intros fd rd. case_decide as Hd; [|done].
    destruct Hd as [-> _]. by apply slot_beyond. }
  destruct (blen_lookup (fds (bk_op b)) (Z.to_nat (ev_fd o))) as [e He]; [lia|].
  assert (ev_fd o = Z.of_nat (Z.to_nat (ev_fd o))) as Hfn by lia. set (i := Z.to_nat (ev_fd o)) in *.
  replace (at_index (fds (bk_op b)) (ev_fd o)) with (@Ok evepoll e) by (rewrite Hfn; symmetry; by apply at_index_ok).
  rewrite bind_Ok. destruct (del_choice e (has_flag (ev_events o) EV_READ) (has_flag (ev_events o) EV_WRITE) Hdir)
    as (ctl & m & nr & nw & -> & -> & -> & Hctl).
  assert (Z.of_nat i < blen (fds (bk_op b))) as Hib by lia. set (e' := mkEvepoll _ _).
  set (b' := fun k => mkBackend (put_slot (ev_fd o) e' (bk_op b)) k (bk_sig b)).
  assert (forall k, slots_set o None b (b' k)) as Hss.
  { intros k fd rd. cbn [b' bk_op]. rewrite Hfn, slot_put by done.
    destruct (decide (fd = Z.of_nat i)) as [->|Hne]; [|by rewrite decide_False by tauto].
    rewrite (slot_at _ i e rd He). unfold asks. cbn [e' evread evwrite].
    destruct rd; by apply chosen. }
  destruct (epoll_ctl ctl (ev_fd o) m (bk_set b)) as [k|] eqn:Hc.
  - assert ((forall j, j <> Z.of_nat i -> interest k j = interest (bk_set b) j) /\
      interest k (Z.of_nat i) = slots_mask (evread e') (evwrite e')) as [Hoth Hme].
    { rewrite Hfn in Hc. cbn [e' evread evwrite]. destruct (slots_mask _ _).
      - destruct Hctl as [-> ->]. apply ctl_mod in Hc as [_ Hc].
        split; [intros j Hj|]; rewrite Hc; [by rewrite decide_False|by rewrite decide_True].
      - subst ctl. apply ctl_del in Hc as [_ Hc].
        split; [intros j Hj|]; rewrite Hc; [by rewrite decide_False|by rewrite decide_True]. }
    exists 0, (b' k). split; [done|]. split; [|split; [done|split; [done|split; [|split; [by left|apply Hss]]]]].
    + unfold b'. rewrite Hfn. apply watched_put; [done|done|done|]. intros rd Hrd. rewrite Hme. by apply mask_watches.
    + intros _ Hx. unfold b'. rewrite Hfn. by apply exact_put.
  - exists (-1), (b' (bk_set b)). split; [done|].
    split; [|split; [done|split; [done|split; [done|split; [by right|apply Hss]]]]].
    unfold b'. rewrite Hfn. apply watched_put; [done|done|done|]. intros rd Hrd.
    apply (ep_watched _ H). rewrite (slot_at _ i e rd He). cbn [e' evread evwrite] in Hrd.
    destruct rd; case_match; try done; by destruct Hrd.
Qed.
End Backend.

(** * Activating *)

(** What [event_active] does to an event. *)
Definition hit (r : Z) (o : event) : event :=
  if flag o EVLIST_ACTIVE then with_res (Z.lor (ev_res o) r) o else activated r o.

(** All that the calls [l] tell event [x]; nothing when it is not called. *)
Definition told (l : list (Z * Z)) (x : Z) : option Z :=
  foldr (fun c acc => if decide (fst c = x) then Some (Z.lor (snd c) (default 0 acc)) else acc) None l.

Definition hits (l : list (Z * Z)) (x : Z) (o : event) : event :=
  match told l x with Some r => hit r o | None => o end.

Lemma hit_active r o : flag (hit r o) EVLIST_ACTIVE = true.
Proof.
  unfold hit. destruct (has_flag (ev_flags o) EVLIST_ACTIVE) eqn:Hf; [done|].
  unfold activated, qset. cbn [with_flags ev_flags]. by rewrite has_flag_switch by (unfold single; auto).
Qed.

Lemma hit_idx_free r : idx_free (hit r).
Proof. intros o i. unfold hit. cbn [with_idx ev_flags]. by destruct (has_flag (ev_flags o) EVLIST_ACTIVE). Qed.

Lemma hit_hit r r' o : hit r' (hit r o) = hit (Z.lor r r') o.
Proof.
  unfold hit at 1. rewrite hit_active. unfold hit. destruct (has_flag (ev_flags o) EVLIST_ACTIVE); cbn.
  - by rewrite Z.lor_assoc.
  - done.
Qed.

Lemma hit_other r o k : single k -> k <> EVLIST_ACTIVE -> flag (hit r o) k = flag o k.
Proof.
  intros Hs Hk. unfold hit. case_match; [done|]. unfold activated, qset. cbn [with_flags ev_flags].
  rewrite has_flag_switch by (done || unfold single; auto).
  rewrite (proj2 (Z.eqb_neq EVLIST_ACTIVE k)) by done. done.
Qed.

Lemma hit_keeps r o : ev_fd (hit r o) = ev_fd o /\ ev_events (hit r o) = ev_events o /\ ev_timeout (hit r o) = ev_timeout o.
Proof. unfold hit. by case_match. Qed.

Lemma event_active_hit w x o r : base_inv w -> w_mem w !! x = Some o ->
  exists w', event_active x r 1 w = Ok (tt, w') /\ base_inv w' /\ eframe w w' /\ edited (hit r) x w w' /\
    eventqueue (w_base w') = eventqueue (w_base w).
Proof.
  intros H Ho. destruct (has_flag (ev_flags o) EVLIST_ACTIVE) eqn:Hf.
  - destruct (event_active_again w x o r H Ho Hf) as (w' & Hr & H' & F & HE & Hb).
    exists w'. split; [done|]. split; [done|]. split; [done|]. split; [|by rewrite Hb].
    unfold edited in *. rewrite !(alter_insert _ x _ o) in * by done. unfold hit. by rewrite Hf.
  - destruct (event_active_new w x o r H Ho Hf) as (w' & Hr & H' & F & HE & Hq & _).
    exists w'. do 3 (split; [done|]). split; [|done].
    unfold edited in *. rewrite !(alter_insert _ x _ o) in * by done. unfold hit. by rewrite Hf.
Qed.

(** Every event as it was before, but for what [f] does to it and its slot in the
    heap. *)
Definition reworked (f : Z -> event -> event) (w w' : eworld) : Prop :=
  forall x, match w_mem w !! x with
  | Some o => exists i, w_mem w' !! x = Some (with_idx (f x o) i)
  | None => w_mem w' !! x = None
  end.

Lemma edited_reworked f x w w' : edited f x w w' -> is_Some (w_mem w !! x) ->
  reworked (fun y o => if decide (y = x) then f o else o) w w'.
Proof.
  intros HE [o Ho] y. destruct (w_mem w !! y) as [oy|] eqn:Hy.
  - case_decide as Hd; [subst y; by apply (edited_lookup f x w w')|by apply (edited_lookup_ne f x w w')].
  - unfold edited in HE. destruct (w_mem w' !! y) as [o'|] eqn:Hy'; [|done]. symmetry in HE.
    destruct (same_lookup _ _ _ _ HE Hy') as (o2 & Ho2 & _). rewrite lookup_alter_ne, Hy in Ho2; [done|congruence].
Qed.

Lemma activate_all_ok l : forall w, base_inv w -> (forall x r, (x, r) ∈ l -> is_Some (w_mem w !! x)) ->
  exists w', activate_all l w = Ok (tt, w') /\ base_inv w' /\ (times_ok w -> times_ok w') /\ eframe w w' /\
    eventqueue (w_base w') = eventqueue (w_base w) /\ reworked (hits l) w w'.
Proof.
  induction l as [|[x r] l IH]; intros w H Hl; cbn [activate_all].
  - exists w. do 5 (split; [done|]). intros x. destruct (w_mem w !! x) as [o|]; [|done].
    exists (min_heap_idx o). by destruct o.
  - destruct (Hl x r) as [o Ho]; [left|]. destruct (event_active_hit w x o r H Ho) as (w1 & Hr1 & H1 & F1 & E1 & Q1).
    rewrite (em_bind_Ok _ _ _ _ _ Hr1). pose proof (edited_reworked _ _ _ _ E1 ltac:(eauto)) as R1.
    assert (times_ok w -> times_ok w1) as L1.
    { intros Ht. apply (edited_times_ok _ _ _ _ Ht (ef_cache _ _ F1) E1). intros o' Ho' Hf.
      rewrite hit_other in Hf by (done || unfold single; auto). rewrite (proj2 (proj2 (hit_keeps r o'))).
      by apply (proj2 Ht x o'). }
    destruct (IH w1 H1) as (w' & Hr' & H' & L' & F' & Q' & R').
    { intros y ry Hy. destruct (Hl y ry) as [oy Hoy]; [by right|]. specialize (R1 y). rewrite Hoy in R1.
      destruct R1 as [i ->]. eauto. }
    exists w'. split; [done|]. split; [done|]. split; [tauto|]. split; [by transitivity w1|]. split; [by rewrite Q'|].
    intros y. specialize (R1 y). specialize (R' y). destruct (w_mem w !! y) as [oy|].
    + destruct R1 as [i1 Hi1]. rewrite Hi1 in R'. destruct R' as [i' ->]. exists i'. f_equal.
      unfold hits. cbn [told foldr fst snd]. fold (told l y). rewrite (decide_ext (y = x) (x = y)) by done.
      destruct (decide (x = y)), (told l y) as [r'|]; cbn [default id]; rewrite ?hit_idx_free, ?hit_hit, ?Z.lor_0_r; done.
    + by rewrite R1 in R'.
Qed.

Lemma activate_all_app l k w : activate_all (l ++ k) w = (activate_all l;; activate_all k) w.
Proof.
  revert w. induction l as [|[x r] l IH]; intros w; [done|]. cbn [app activate_all]. rewrite <- em_assoc.
  unfold mbind, em_bind. destruct (event_active x r 1 w) as [[[] w1]|]; [|done]. exact (IH w1).
Qed.

Lemma report_loop_calls op reports w : report_loop op reports w = activate_all (reports ≫= report_calls op) w.
Proof.
  revert w. induction reports as [|r reports IH]; intros w; [done|]. cbn [report_loop mbind list_bind].
  rewrite activate_all_app. unfold mbind, em_bind. destruct (activate_all (report_calls op r) w) as [[[] w1]|]; [|done].
  exact (IH w1).
Qed.

(** A report concerns the event registered for a direction: the descriptor is
    ready for it, or it was hung up or has an error. *)
Definition reported (op : epollop) (reports : list (Z * Z)) (x : Z) (rd : bool) : Prop :=
  exists what fd, (what, fd) ∈ reports /\ slot op fd rd = Some x /\
    has_flag what (Z.lor EPOLLHUP EPOLLERR) || has_flag what (dir_mask rd) = true.

Definition dir_event (rd : bool) : Z := if rd then EV_READ else EV_WRITE.

Lemma report_calls_spec op what fd x r : (x, r) ∈ report_calls op (what, fd) <->
  exists rd, r = dir_event rd /\ slot op fd rd = Some x /\
    has_flag what (Z.lor EPOLLHUP EPOLLERR) || has_flag what (dir_mask rd) = true.
Proof.
  unfold report_calls, slot. destruct (Z.ltb_spec fd 0) as [Hlt|Hge]; cbn [orb].
  { rewrite (proj2 (Z.leb_gt 0 fd)) by done. split; [by intros ?%elem_of_nil|]. by intros (? & _ & [=] & _). }
  rewrite (proj2 (Z.leb_le 0 fd)) by done. rewrite Z.geb_leb. destruct (Z.leb_spec (blen (fds op)) fd) as [Hle|Hlt].
  { rewrite lookup_ge_None_2 by (unfold blen in Hle; lia).
    split; [by intros ?%elem_of_nil|]. by intros (? & _ & [=] & _). }
  destruct (fds op !! Z.to_nat fd) as [e|]; [|split; [by intros ?%elem_of_nil|by intros (? & _ & [=] & _)]].
  rewrite elem_of_app. set (all := has_flag what (Z.lor EPOLLHUP EPOLLERR)). split.
  - intros [Hr|Hw].
    + destruct (all || has_flag what EPOLLIN) eqn:Hc; [|by apply elem_of_nil in Hr].
      destruct (evread e); [|by apply elem_of_nil in Hr]. apply list_elem_of_singleton in Hr as [= -> ->]. by exists true.
    + destruct (all || has_flag what EPOLLOUT) eqn:Hc; [|by apply elem_of_nil in Hw].
      destruct (evwrite e); [|by apply elem_of_nil in Hw]. apply list_elem_of_singleton in Hw as [= -> ->]. by exists false.
  - intros (rd & -> & Hs & Hc). destruct rd; cbn [dir_mask dir_event] in *; rewrite Hc, Hs; [left|right]; left.
Qed.

Lemma calls_reported op reports x r : (x, r) ∈ (reports ≫= report_calls op) <->
  exists rd, r = dir_event rd /\ reported op reports x rd.
Proof.
  rewrite list_elem_of_bind. split.
  - intros ([what fd] & (rd & -> & Hs & Hc)%report_calls_spec & Hin). exists rd. split; [done|]. by exists what, fd.
  - intros (rd & -> & what & fd & Hin & Hs & Hc). exists (what, fd). split; [|done]. apply report_calls_spec. eauto.
Qed.

Lemma has_flag_union a b k : has_flag (Z.lor a b) k = has_flag a k || has_flag b k.
Proof. unfold has_flag. rewrite (Z.land_comm (Z.lor a b)), (Z.land_comm a), (Z.land_comm b). apply has_flag_or. Qed.

(** What an event is told is the union of its calls. *)
Lemma told_spec l x : match told l x with
  | Some r => (exists r', (x, r') ∈ l) /\ forall k, has_flag r k = true <-> exists r', (x, r') ∈ l /\ has_flag r' k = true
  | None => forall r', (x, r') ∉ l
  end.
Proof.
  induction l as [|[y r] l IH]; [intros r' Hr'; by apply elem_of_nil in Hr'|]. cbn [told foldr fst snd]. fold (told l x).
  case_decide as Hd; [subst y|].
  - split; [exists r; left|]. intros k. rewrite has_flag_union, orb_true_iff. destruct (told l x) as [s|]; cbn [default id].
    + destruct IH as [_ IH]. rewrite IH. setoid_rewrite elem_of_cons. naive_solver.
    + split.
      * intros [Hk|Hk]; [exists r; split; [left|done]|done].
      * intros (r' & [[= ->]|Hin]%elem_of_cons & Hk); [by left|by apply IH in Hin].
  - destruct (told l x) as [s|].
    + destruct IH as [(r0 & Hr0) IH]. split; [exists r0; by right|]. intros k. rewrite IH.
      setoid_rewrite elem_of_cons. naive_solver.
    + intros r' [[= ->]|Hin]%elem_of_cons; [done|]. by apply (IH r').
Qed.

(** An event after a dispatch. *)
Record dispatched (op : epollop) (reports : list (Z * Z)) (x : Z) (o o' : event) : Prop := {
  dp_active : flag o' EVLIST_ACTIVE = true <-> flag o EVLIST_ACTIVE = true \/ exists rd, reported op reports x rd;
  dp_res : forall rd, flag o' EVLIST_ACTIVE = true -> has_flag (ev_res o') (dir_event rd) = true <->
    reported op reports x rd \/ flag o EVLIST_ACTIVE = true /\ has_flag (ev_res o) (dir_event rd) = true;
  dp_same : ev_fd o' = ev_fd o /\ ev_events o' = ev_events o /\ ev_timeout o' = ev_timeout o;
  dp_other : forall k, single k -> k <> EVLIST_ACTIVE -> flag o' k = flag o k;
  dp_miss : (forall rd, ~ reported op reports x rd) -> exists i, o' = with_idx o i;
  dp_hit : (exists rd, reported op reports x rd) -> exists i r,
    o' = with_idx (if flag o EVLIST_ACTIVE then with_res r o else activated r o) i /\
    forall k, has_flag r k = true <-> flag o EVLIST_ACTIVE = true /\ has_flag (ev_res o) k = true \/
      exists rd, reported op reports x rd /\ has_flag (dir_event rd) k = true
}.

Lemma hits_dispatched op reports x o i :
  dispatched op reports x o (with_idx (hits (reports ≫= report_calls op) x o) i).
Proof.
  pose proof (told_spec (reports ≫= report_calls op) x) as Ht. unfold hits. destruct (told _ x) as [r|].
  - destruct Ht as [(r0 & Hr0) Ht]. apply calls_reported in Hr0 as (rd0 & -> & Hr0).
    assert (forall rd, has_flag r (dir_event rd) = true <-> reported op reports x rd) as Hrd.
    { intros rd. rewrite Ht. split.
      - intros (r' & (rd' & -> & Hrep)%calls_reported & Hk). by destruct rd, rd'.
      - intros Hrep. exists (dir_event rd). split; [apply calls_reported; eauto|by destruct rd]. }
    split; cbn [with_idx ev_flags ev_res ev_fd ev_events ev_timeout].
    + rewrite hit_active. naive_solver.
    + intros rd _. rewrite <- Hrd. unfold hit. destruct (has_flag (ev_flags o) EVLIST_ACTIVE) eqn:Hf.
      * cbn [with_res ev_res]. rewrite has_flag_union, orb_true_iff. tauto.
      * cbn. rewrite Hrd. naive_solver.
    + apply hit_keeps.
    + intros k. apply hit_other.
    + intros Hno. by destruct (Hno rd0).
    + intros _. assert (forall k, has_flag r k = true <-> exists rd, reported op reports x rd /\ has_flag (dir_event rd) k = true)
        as Hk by (intros k; rewrite Ht; setoid_rewrite calls_reported; naive_solver).
      unfold hit. exists i. destruct (has_flag (ev_flags o) EVLIST_ACTIVE); eexists; (split; [reflexivity|]); intros k.
      * rewrite has_flag_union, orb_true_iff, Hk. naive_solver.
      * rewrite Hk. naive_solver.
  - assert (forall rd, ~ reported op reports x rd) as Hno.
    { intros rd Hrep. apply (Ht (dir_event rd)), calls_reported. eauto. }
    split; cbn [with_idx ev_flags ev_res]; [| |done|done|by exists i|]; intros; [split; naive_solver..|naive_solver].
Qed.

Lemma report_loop_ok op reports w : base_inv w ->
  (forall fd rd x, slot op fd rd = Some x -> is_Some (w_mem w !! x)) ->
  exists w', report_loop op reports w = Ok (tt, w') /\ base_inv w' /\ (times_ok w -> times_ok w') /\ eframe w w' /\
    eventqueue (w_base w') = eventqueue (w_base w) /\
    forall x, match w_mem w !! x with
    | Some o => exists o', w_mem w' !! x = Some o' /\ dispatched op reports x o o'
    | None => w_mem w' !! x = None
    end.
Proof.
  intros H Hreg. rewrite report_loop_calls.
  destruct (activate_all_ok (reports ≫= report_calls op) w H) as (w' & -> & H' & T & F & Q & R).
  { intros x r (rd & _ & what & fd & _ & Hs & _)%calls_reported. by apply (Hreg fd rd). }
  exists w'. do 5 (split; [done|]). intros x. specialize (R x). destruct (w_mem w !! x) as [o|]; [|done].
  destruct R as [i ->]. eexists. split; [reflexivity|]. apply hits_dispatched.
Qed.
