(* ===== verification/EpollProps.v ===== *)
(** The event base and the epoll back end together: adding, deleting and waiting
    keep the table, the kernel's list and the base's queue in step. *)
From stdpp Require Import relations.
From S2P Require Import Prelude.
From S2P Require Import BufferEvent MinHeap EventBase EventCorrect EventTimeouts EventLoop EventProps EvSignal SignalCorrect SignalProps Epoll EpollCorrect.

(** * Putting the parts together *)

Definition with_add (r : Z) (a : answers) : answers :=
  mkAnswers (an_clock a) (an_day a) (an_alloc a) (fun _ => r) (an_del a).
Definition with_del (r : Z) (a : answers) : answers :=
  mkAnswers (an_clock a) (an_day a) (an_alloc a) (an_add a) (fun _ => r).

Section Wired.
Context {P : EpollKernel} {K : SigKernel}.

Definition wired : Type := eworld * backend.

(** [event_add] with [evsel->add = epoll_add], which it calls when the event is to
    be inserted. *)
Definition event_add_epoll (ba : backend_answers) (a : answers) (x : Z) (tv : option timeval) (s : wired)
  : cres (Z * wired) :=
  let '(w, b) := s in
  o ← deref (w_mem w) x;
  if reserved a tv o w && wants_io o then
    '(r, b) ← epoll_add ba (w_mem w) x b;
    '(res, w) ← event_add (with_add r a) x tv w;
    Ok (res, (w, b))
  else
    '(res, w) ← event_add a x tv w;
    Ok (res, (w, b)).

(** [event_del] with [evsel->del = epoll_del], which it calls for an inserted
    event. *)
Definition event_del_epoll (a : answers) (x : Z) (s : wired) : cres (Z * wired) :=
  let '(w, b) := s in
  o ← deref (w_mem w) x;
  if flag o EVLIST_INSERTED then
    '(r, b) ← epoll_del (w_mem w) x b;
    '(res, w) ← event_del (with_del r a) x w;
    Ok (res, (w, b))
  else
    '(res, w) ← event_del a x w;
    Ok (res, (w, b)).

(** The dispatch of a base with no signal events. *)
Definition dispatch_epoll (wt : wait) (answer : Z -> wait_answer) (s : wired) : cres (Z * wired) :=
  let '(w, b) := s in
  '(res, w) ← epoll_dispatch (bk_op b) answer false (mret tt) wt w;
  Ok (res, (w, b)).

Inductive wired_op : Type :=
| WAdd (ba : backend_answers) (a : answers) (x : Z) (tv : option timeval)
| WDel (a : answers) (x : Z)
| WSet (x fd events : Z)
| WWait (wt : wait) (answer : Z -> wait_answer).

Definition run_wired (op : wired_op) : wired -> cres (Z * wired) :=
  match op with
  | WAdd ba a x tv => event_add_epoll ba a x tv
  | WDel a x => event_del_epoll a x
  | WSet x fd events => fun '(w, b) => '(_, w) ← event_set x fd events w; Ok (0, (w, b))
  | WWait wt answer => dispatch_epoll wt answer
  end.

(** When the operations are called: on events of the base, with a clock for a
    time-out, with at most one event for a descriptor and a direction, and with
    as many reports as were asked for; an event is initialised while it is on no
    queue, for a descriptor that the table can hold. *)
Definition enabled_wired (op : wired_op) (s : wired) : Prop :=
  let '(w, b) := s in
  match op with
  | WAdd ba a x tv => exists o, w_mem w !! x = Some o /\
      (forall t, tv = Some t -> exists now due, gettime (an_clock a) (w_base w) = Some now /\ evutil_timeradd now t = Ok due) /\
      (wants_io o = true -> forall rd, asks o rd = true -> slot (bk_op b) (ev_fd o) rd = None)
  | WDel a x => is_Some (w_mem w !! x)
  | WSet x fd events => op_allowed w (EventProps.OpSet x fd events) /\ has_flag events EV_SIGNAL = false /\
      (has_flag events EV_READ || has_flag events EV_WRITE = true -> 0 <= fd < 2 ^ 30)
  | WWait wt answer => exists t, epoll_timeout wt = Ok t /\
      match answer t with WaitReady l => blen l <= nevents (bk_op b) | WaitError _ => True end
  end.

Definition wired_step (s s' : wired) : Prop := exists op r, enabled_wired op s /\ run_wired op s = Ok (r, s').

(** The events of the base are on descriptors, or for time-outs only. *)
Definition plain_events (w : eworld) : Prop := forall x o, w_mem w !! x = Some o ->
  has_flag (ev_events o) EV_SIGNAL = false /\ (asks o true || asks o false = true -> 0 <= ev_fd o < 2 ^ 30).

(** Event [x] is inserted and asks for a direction of a descriptor. *)
Definition inserted (w : eworld) (fd : Z) (rd : bool) (x : Z) : Prop :=
  exists o, w_mem w !! x = Some o /\ flag o EVLIST_INSERTED = true /\ ev_fd o = fd /\ asks o rd = true.

(** The table holds exactly the inserted events, by descriptor and direction. *)
Definition registered (w : eworld) (b : backend) : Prop := forall fd rd x,
  slot (bk_op b) fd rd = Some x <-> inserted w fd rd x.

(** Inserted events ask for something. *)
Definition inserted_ask (w : eworld) : Prop := forall x o, w_mem w !! x = Some o -> flag o EVLIST_INSERTED = true ->
  asks o true || asks o false = true.

Record wired_inv (s : wired) : Prop := {
  wi_base : base_inv (fst s);
  wi_plain : plain_events (fst s);
  wi_ask : inserted_ask (fst s);
  wi_epoll : epoll_inv (snd s);
  wi_registered : registered (fst s) (snd s)
}.

Context {PO : EpollKernelOk}.
Implicit Types (w : eworld) (b : backend).

(** What the back end knows of an event. *)
Definition view (o : event) : Z * Z * bool := (ev_fd o, ev_events o, flag o EVLIST_INSERTED).

Lemma view_idx o i : view (with_idx o i) = view o.
Proof. done. Qed.

(** The events seen by the back end are those of [w], but for [x]. *)
Definition same_views (x : option Z) w w' : Prop := forall y, Some y <> x -> view <$> w_mem w' !! y = view <$> w_mem w !! y.

Lemma reworked_views f w w' x : reworked f w w' -> (forall y o, Some y <> x -> view (f y o) = view o) -> same_views x w w'.
Proof.
  intros R Hf y Hy. specialize (R y). destruct (w_mem w !! y) as [o|]; [|by rewrite R].
  destruct R as [i ->]. cbn. by rewrite view_idx, Hf.
Qed.

Lemma inserted_view w w' fd rd x : view <$> w_mem w' !! x = view <$> w_mem w !! x ->
  inserted w' fd rd x <-> inserted w fd rd x.
Proof.
  unfold inserted, asks. intros Hv. destruct (w_mem w' !! x) as [o'|], (w_mem w !! x) as [o|]; try done; cbn in Hv.
  injection Hv as Hf He Hi. split; intros (o2 & [= <-] & Hr); eexists; (split; [reflexivity|]); congruence.
Qed.

Lemma registered_views w w' b b' : registered w b -> same_views None w w' ->
  (forall fd rd, slot (bk_op b') fd rd = slot (bk_op b) fd rd) -> registered w' b'.
Proof.
  intros H Hv Hs fd rd x. unfold registered in H. rewrite Hs, (H fd rd x). symmetry. by apply inserted_view, Hv.
Qed.

Lemma plain_views w w' : plain_events w -> (forall x, (fun o => (ev_fd o, ev_events o)) <$> w_mem w' !! x =
  (fun o => (ev_fd o, ev_events o)) <$> w_mem w !! x) -> plain_events w'.
Proof.
  intros Hp Hv x o' Ho'. specialize (Hv x). rewrite Ho' in Hv. symmetry in Hv. apply fmap_Some in Hv as (o & Ho & [= Hf He]).
  unfold asks. rewrite Hf, He. by apply (Hp x o).
Qed.

(** * Adding *)

Lemma rescheduled_view due o : view (rescheduled due o) = view o.
Proof.
  unfold view, rescheduled, unexpire. destruct (_ && _); unfold qset; cbn [with_flags with_timeout ev_fd ev_events ev_flags];
    rewrite !has_flag_switch by (unfold single; auto); done.
Qed.

Lemma added_view due o : view (added due o) = view (io_added o).
Proof. destruct due; [apply rescheduled_view|done]. Qed.

Lemma io_added_view o : view (io_added o) = (ev_fd o, ev_events o, wants_io o || flag o EVLIST_INSERTED).
Proof.
  unfold io_added. destruct (wants_io o); [|done]. unfold view, qset. cbn [with_flags ev_fd ev_events ev_flags].
  by rewrite has_flag_switch by (unfold single; auto).
Qed.

Lemma wants_io_new o : wants_io o = true -> flag o EVLIST_INSERTED = false.
Proof. unfold wants_io. intros Hw. bool_props. rewrite has_flag_or in *. by bool_props. Qed.

(** [event_add] as the back end sees it. *)
Lemma event_add_view a w x o tv : base_inv w -> w_mem w !! x = Some o ->
  (forall t, tv = Some t -> exists now due, gettime (an_clock a) (w_base w) = Some now /\ evutil_timeradd now t = Ok due) ->
  exists w' res, event_add a x tv w = Ok (res, w') /\ base_inv w' /\
    res = (if reserved a tv o w then if wants_io o then an_add a x else 0 else -1) /\
    same_views (Some x) w w' /\
    exists o', w_mem w' !! x = Some o' /\
      view o' = (ev_fd o, ev_events o, (wants_io o && negb (bool_decide (res = -1))) || flag o EVLIST_INSERTED).
Proof.
  intros H Ho Htv.
  assert (exists due, match tv, due with
    | Some tv, Some due => exists now, gettime (an_clock a) (w_base w) = Some now /\ evutil_timeradd now tv = Ok due
    | None, None => True | _, _ => False end) as [due Hdue].
  { destruct tv as [t|]; [destruct (Htv t eq_refl) as (now & due & ? & ?); exists (Some due); eauto|by exists None]. }
  destruct (event_add_ok a w x o tv due H Ho Hdue) as (w' & res & Hr & H' & _ & Hcase).
  exists w', res. split; [done|]. split; [done|]. split; [by apply (event_add_result a w x o tv res w')|].
  case_decide as Hres.
  - destruct Hcase as (h & -> & _). split; [done|]. exists o. split; [done|].
    rewrite bool_decide_eq_true_2 by done. by rewrite andb_false_r.
  - pose proof (edited_reworked _ _ _ _ Hcase ltac:(eauto)) as R. split.
    + apply (reworked_views _ _ _ _ R). intros y oy Hy. by rewrite decide_False by congruence.
    + specialize (R x). rewrite Ho, decide_True in R by done. destruct R as [i Hx]. eexists. split; [exact Hx|].
      rewrite view_idx, added_view, io_added_view, bool_decide_eq_false_2 by done. by rewrite andb_true_r.
Qed.

(** Two events that the back end sees alike, but for the flag of one. *)
Lemma views_same w w' x o o' : same_views (Some x) w w' -> w_mem w !! x = Some o -> w_mem w' !! x = Some o' ->
  view o' = view o -> same_views None w w'.
Proof.
  intros Hv Ho Ho' Hx y _. destruct (decide (y = x)) as [->|Hne]; [rewrite Ho, Ho'; cbn; by rewrite Hx|].
  apply Hv. congruence.
Qed.

Lemma views_plain w w' x o o' : plain_events w -> same_views (Some x) w w' -> w_mem w !! x = Some o ->
  w_mem w' !! x = Some o' -> ev_fd o' = ev_fd o -> ev_events o' = ev_events o -> plain_events w'.
Proof.
  intros Hp Hv Ho Ho' Hf He. apply (plain_views w); [done|]. intros y. destruct (decide (y = x)) as [->|Hne].
  - rewrite Ho, Ho'. cbn. congruence.
  - specialize (Hv y ltac:(congruence)). destruct (w_mem w' !! y), (w_mem w !! y); cbn in *; try done.
    injection Hv as -> -> _. done.
Qed.

Lemma views_ask w w' x o' : inserted_ask w -> same_views (Some x) w w' -> w_mem w' !! x = Some o' ->
  (flag o' EVLIST_INSERTED = true -> asks o' true || asks o' false = true) -> inserted_ask w'.
Proof.
  intros Hp Hv Ho' Hx y oy Hy. destruct (decide (y = x)) as [->|Hne]; [by simplify_eq|].
  specialize (Hv y ltac:(congruence)). rewrite Hy in Hv. symmetry in Hv. apply fmap_Some in Hv as (o2 & Ho2 & [= Hf He Hi]).
  unfold asks. rewrite He, Hi. by apply (Hp y o2).
Qed.

Lemma io_of_plain w x o : plain_events w -> w_mem w !! x = Some o -> asks o true || asks o false = true -> io_event o.
Proof. intros Hp Ho Hw. destruct (Hp x o Ho) as [Hns Hfd]. split; [done|]. split; [by apply Hfd|done]. Qed.

Lemma wants_io_asks w x o : plain_events w -> w_mem w !! x = Some o -> wants_io o = true ->
  asks o true || asks o false = true.
Proof.
  intros Hp Ho Hw. destruct (Hp x o Ho) as [Hns _]. unfold wants_io in Hw. bool_props.
  rewrite !has_flag_or, Hns, orb_false_r in *. done.
Qed.

(** The table after event [x] was inserted with nobody in its slots. *)
Lemma registered_add w w' b b' x o o' : registered w b -> w_mem w !! x = Some o -> w_mem w' !! x = Some o' ->
  same_views (Some x) w w' -> ev_fd o' = ev_fd o -> ev_events o' = ev_events o ->
  flag o EVLIST_INSERTED = false -> flag o' EVLIST_INSERTED = true -> slots_set o (Some x) b b' ->
  (forall rd, asks o rd = true -> slot (bk_op b) (ev_fd o) rd = None) -> registered w' b'.
Proof.
  intros H Ho Ho' Hv Hf He Hi Hi' Hss Hfree fd rd y. unfold registered in H. rewrite Hss.
  destruct (decide (y = x)) as [->|Hne].
  - case_decide as Hd; [|]; (split; [intros Heq|intros (o2 & Ho2 & _ & Hfd & Hask)]).
    + exists o'. unfold asks in *. rewrite Hf, He. naive_solver.
    + done.
    + apply H in Heq as (o2 & Ho2 & Hin & _). congruence.
    + exfalso. apply Hd. unfold asks in *. naive_solver congruence.
  - specialize (Hv y ltac:(congruence)).
    assert (slot (bk_op b) fd rd = Some y <->
      (if decide (fd = ev_fd o /\ asks o rd = true) then Some x else slot (bk_op b) fd rd) = Some y) as <-.
    { case_decide as Hd; [|done]. destruct Hd as [-> Hd]. rewrite (Hfree rd Hd). naive_solver. }
    rewrite (H fd rd y). symmetry. by apply inserted_view.
Qed.

(** The table after event [x] was taken out. *)
Lemma registered_del w w' b b' x o o' : registered w b -> w_mem w !! x = Some o -> w_mem w' !! x = Some o' ->
  same_views (Some x) w w' -> flag o EVLIST_INSERTED = true -> flag o' EVLIST_INSERTED = false ->
  slots_set o None b b' -> registered w' b'.
Proof.
  intros H Ho Ho' Hv Hi Hi' Hss fd rd y. unfold registered in H. rewrite Hss. destruct (decide (y = x)) as [->|Hne].
  - split; [|intros (o2 & Ho2 & Hin & _); congruence]. case_decide as Hd; [done|]. intros Heq. exfalso. apply Hd.
    apply H in Heq as (o2 & Ho2 & _ & Hfd & Hask). simplify_eq. done.
  - specialize (Hv y ltac:(congruence)).
    assert (slot (bk_op b) fd rd = Some y <->
      (if decide (fd = ev_fd o /\ asks o rd = true) then None else slot (bk_op b) fd rd) = Some y) as <-.
    { case_decide as Hd; [|done]. destruct Hd as [-> Hd]. rewrite (proj2 (H (ev_fd o) rd x)) by (by exists o). naive_solver. }
    rewrite (H fd rd y). symmetry. by apply inserted_view.
Qed.

(** * The operations together *)

Lemma event_add_epoll_ok ba a x tv w b : wired_inv (w, b) -> enabled_wired (WAdd ba a x tv) (w, b) ->
  exists r s', event_add_epoll ba a x tv (w, b) = Ok (r, s') /\ wired_inv s' /\
    (epoll_exact b -> epoll_exact (snd s')).
Proof.
  intros [Hb Hp Ha He Hr] (o & Ho & Htv & Hfree). cbn [fst snd] in *. unfold event_add_epoll, deref. rewrite Ho. cbn [of_option].
  rewrite bind_Ok. destruct (reserved a tv o w && wants_io o) eqn:Hc.
  - apply andb_true_iff in Hc as [Hres Hw].
    pose proof (wants_io_asks w x o Hp Ho Hw) as Hask. pose proof (io_of_plain w x o Hp Ho Hask) as Hio.
    destruct (epoll_add_ok ba (w_mem w) x o b He Ho Hio) as (r & b' & -> & He' & _ & _ & Hx & Hslots). rewrite bind_Ok.
    destruct (event_add_view (with_add r a) w x o tv Hb Ho Htv) as (w' & res & -> & Hb' & Hre & Hv & o' & Ho' & [= Ef Ee Ei]).
    change (reserved (with_add r a) tv o w) with (reserved a tv o w) in Hre. rewrite Hres, Hw in Hre. cbn in Hre. subst res.
    rewrite bind_Ok. eexists _, _. split; [reflexivity|]. split; [|done].
    split; cbn [fst snd]; [done|by apply (views_plain w w' x o o')| |done|].
    { apply (views_ask w w' x o'); [done|done|done|]. intros _. unfold asks in *. by rewrite Ee. }
    destruct Hslots as [[-> Hss]|[-> Hsame]].
    + apply (registered_add w w' b b' x o o'); [done|done|done|done|done|done|by apply wants_io_new| |done|].
      * rewrite Ei, Hw. done.
      * by apply Hfree.
    + apply (registered_views w w' b b'); [done| |done]. apply (views_same w w' x o o'); [done|done|done|].
      unfold view. rewrite Ef, Ee, Ei. by rewrite andb_false_r.
  - destruct (event_add_view a w x o tv Hb Ho Htv) as (w' & res & -> & Hb' & Hre & Hv & o' & Ho' & [= Ef Ee Ei]).
    rewrite bind_Ok. eexists _, _. split; [reflexivity|]. split; [|done].
    assert (view o' = view o) as Hview.
    { unfold view. rewrite Ef, Ee, Ei. replace (wants_io o && negb (bool_decide (res = -1))) with false; [done|].
      rewrite Hre. by destruct (reserved a tv o w), (wants_io o). }
    split; cbn [fst snd]; [done|by apply (views_plain w w' x o o')| |done|].
    { apply (views_ask w w' x o'); [done|done|done|]. injection Hview as _ _ Hi. rewrite Hi. unfold asks. rewrite Ee.
      by apply (Ha x o). }
    apply (registered_views w w' b b); [done| |done]. by apply (views_same w w' x o o').
Qed.

Lemma event_del_epoll_ok a x w b : wired_inv (w, b) -> is_Some (w_mem w !! x) ->
  exists r s', event_del_epoll a x (w, b) = Ok (r, s') /\ wired_inv s' /\
    (r = 0 -> epoll_exact b -> epoll_exact (snd s')).
Proof.
  intros [Hb Hp Ha He Hr] [o Ho]. cbn [fst snd] in *. unfold event_del_epoll, deref. rewrite Ho. cbn [of_option]. rewrite bind_Ok.
  assert (forall a', exists w' o', event_del a' x w = Ok (if flag o EVLIST_INSERTED then an_del a' x else 0, w') /\
    base_inv w' /\ same_views (Some x) w w' /\ w_mem w' !! x = Some o' /\ ev_fd o' = ev_fd o /\ ev_events o' = ev_events o /\
    flag o' EVLIST_INSERTED = false) as Hdel.
  { intros a'. destruct (event_del_ok a' w x o Hb Ho) as (w' & Hrun & [Hi _ HE _ _ _]).
    pose proof (edited_reworked _ _ _ _ HE ltac:(eauto)) as R. exists w', (with_idx (cleared o) (default 0 (min_heap_idx <$> w_mem w' !! x))).
    split; [done|]. split; [done|]. split; [|split].
    - apply (reworked_views _ _ _ _ R). intros y oy Hy. by rewrite decide_False by congruence.
    - specialize (R x). rewrite Ho, decide_True in R by done. by destruct R as [i ->].
    - do 2 (split; [done|]). by apply (cleared_flags o EVLIST_INSERTED); auto. }
  destruct (has_flag (ev_flags o) EVLIST_INSERTED) eqn:Hf.
  - pose proof (io_of_plain w x o Hp Ho (Ha x o Ho Hf)) as Hio.
    destruct (epoll_del_ok (w_mem w) x o b He Ho Hio) as (r & b' & -> & He' & _ & _ & Hx & _ & Hss). rewrite bind_Ok.
    destruct (Hdel (with_del r a)) as (w' & o' & -> & Hb' & Hv & Ho' & Ef & Ee & Ei). rewrite bind_Ok.
    eexists _, _. split; [reflexivity|]. split; [|done].
    split; cbn [fst snd]; [done|by apply (views_plain w w' x o o')| |done|].
    { apply (views_ask w w' x o'); [done|done|done|]. congruence. }
    by apply (registered_del w w' b b' x o o').
  - destruct (Hdel a) as (w' & o' & -> & Hb' & Hv & Ho' & Ef & Ee & Ei). rewrite bind_Ok.
    eexists _, _. split; [reflexivity|]. split; [|done].
    split; cbn [fst snd]; [done|by apply (views_plain w w' x o o')| |done|].
    { apply (views_ask w w' x o'); [done|done|done|]. congruence. }
    apply (registered_views w w' b b); [done| |done]. apply (views_same w w' x o o'); [done|done|done|].
    unfold view. by rewrite Ef, Ee, Ei, Hf.
Qed.

Lemma dispatch_epoll_ok wt answer w b t reports : wired_inv (w, b) -> epoll_timeout wt = Ok t ->
  answer t = WaitReady reports -> blen reports <= nevents (bk_op b) ->
  exists w', dispatch_epoll wt answer (w, b) = Ok (0, (w', b)) /\ wired_inv (w', b) /\
    (times_ok w -> times_ok w') /\ eframe w w' /\
    forall x o, w_mem w !! x = Some o -> exists o', w_mem w' !! x = Some o' /\ dispatched (bk_op b) reports x o o'.
Proof.
  intros [Hb Hp Ha He Hr] Ht Hans Hlen. cbn [fst snd] in *. unfold dispatch_epoll, epoll_dispatch.
  rewrite Ht, elift_Ok, Hans. rewrite (proj2 (Z.leb_le _ _) Hlen). cbn [require]. rewrite elift_Ok.
  rewrite (em_bind_Ok (mret tt) _ w tt w eq_refl).
  destruct (report_loop_ok (bk_op b) reports w Hb) as (w' & Hrun & Hb' & Ht' & F & _ & Hm).
  { intros fd rd x Hx. apply Hr in Hx as (o & Ho & _). eauto. }
  rewrite (em_bind_Ok _ _ _ _ _ Hrun). exists w'. split; [done|].
  assert (forall x, view <$> w_mem w' !! x = view <$> w_mem w !! x) as Hv.
  { intros x. specialize (Hm x). destruct (w_mem w !! x) as [o|]; [|by rewrite Hm].
    destruct Hm as (o' & -> & [_ _ (Hf & Hev & _) Hot]). cbn. unfold view.
    rewrite Hf, Hev, (Hot EVLIST_INSERTED) by (done || unfold single; auto). done. }
  split; [|split; [done|split; [done|]]].
  - split; cbn [fst snd]; [done| | |done|].
    + apply (plain_views w); [done|]. intros x. specialize (Hv x).
      destruct (w_mem w' !! x), (w_mem w !! x); cbn in *; try done. by injection Hv as -> -> _.
    + intros x o' Ho'. specialize (Hv x). rewrite Ho' in Hv. symmetry in Hv.
      apply fmap_Some in Hv as (o & Ho & [= Hf Hev Hi]). unfold asks. rewrite Hev, Hi. by apply (Ha x o).
    + apply (registered_views w w' b b); [done| |done]. intros x _. apply Hv.
  - intros x o Ho. specialize (Hm x). by rewrite Ho in Hm.
Qed.

Lemma event_set_epoll_ok x fd evs w b : wired_inv (w, b) -> enabled_wired (WSet x fd evs) (w, b) ->
  exists w', event_set x fd evs w = Ok (tt, w') /\ wired_inv (w', b).
Proof.
  intros [Hb Hp Ha He Hr] ([Hu Hsz] & Hns & Hfd). cbn [fst snd] in *.
  destruct (event_set_ok w x fd evs Hb Hu Hsz) as (w' & Hrun & Hb'). exists w'. split; [done|].
  assert (exists o', w_mem w' = <[x := o']> (w_mem w) /\ ev_fd o' = fd /\ ev_events o' = evs /\
    flag o' EVLIST_INSERTED = false) as (o' & Hm & Ef & Ee & Ei) by (injection Hrun as <-; eexists; split; [reflexivity|done]).
  assert (forall y, y <> x -> w_mem w' !! y = w_mem w !! y) as Hne by (intros y Hy; by rewrite Hm, lookup_insert_ne).
  assert (w_mem w' !! x = Some o') as Hx by (by rewrite Hm, lookup_insert_eq).
  split; cbn [fst snd]; [done| | |done|].
  - intros y o Ho. destruct (decide (y = x)) as [->|Hy]; [|rewrite Hne in Ho by done; by apply (Hp y)].
    simplify_eq. done.
  - intros y o Ho. destruct (decide (y = x)) as [->|Hy]; [|rewrite Hne in Ho by done; by apply (Ha y)].
    simplify_eq. congruence.
  - intros f rd y. unfold registered in Hr. rewrite Hr. destruct (decide (y = x)) as [->|Hy].
    + split; intros (o & Ho & Hi & _); [|congruence]. apply Hu in Ho as (Ho & _). congruence.
    + apply inserted_view. by rewrite Hne.
Qed.

Lemma run_wired_ok op w b : wired_inv (w, b) -> enabled_wired op (w, b) ->
  exists r s', run_wired op (w, b) = Ok (r, s') /\ wired_inv s' /\
    ((forall a x, op = WDel a x -> r = 0) -> epoll_exact b -> epoll_exact (snd s')).
Proof.
  intros H He. destruct op as [ba a x tv|a x|x fd evs|wt answer]; cbn [run_wired].
  - destruct (event_add_epoll_ok ba a x tv w b H He) as (r & s' & Hr & H' & Hx). exists r, s'. eauto.
  - destruct (event_del_epoll_ok a x w b H He) as (r & s' & Hr & H' & Hx). exists r, s'. split; [done|]. split; [done|].
    intros H0. apply Hx. by apply (H0 a x).
  - destruct (event_set_epoll_ok x fd evs w b H He) as (w' & Hr & H'). rewrite Hr, bind_Ok. eexists _, _.
    split; [reflexivity|]. split; [done|]. by intros _ ?.
  - destruct He as (t & Ht & Hans). destruct (answer t) as [eintr|reports] eqn:Heq.
    + exists (if eintr : bool then 0 else -1), (w, b). split; [|split; [done|by intros _ ?]]. unfold dispatch_epoll, epoll_dispatch.
      rewrite Ht, elift_Ok, Heq. by destruct eintr.
    + destruct (dispatch_epoll_ok wt answer w b t reports H Ht Heq Hans) as (w' & Hr & H' & _).
      exists 0, (w', b). split; [done|]. split; [done|]. by intros _ ?.
Qed.

Lemma slot_inserted w b fd rd x : wired_inv (w, b) -> slot (bk_op b) fd rd = Some x -> inserted w fd rd x.
Proof. intros H. apply (wi_registered _ H). Qed.

(** A base with nothing inserted and a back end that was just opened. *)
Definition wired_start (a : epoll_init_answers) (s : wired) : Prop :=
  let '(w, b) := s in
  base_inv w /\ plain_events w /\ eventqueue (w_base w) = [] /\
  (exists sg fd, epoll_init a sg = Ok (Some (bk_op b), fd, bk_sig b)) /\
  0 < nevents (bk_op b) /\ forall fd, interest (bk_set b) fd = None.

Lemma epoll_init_slots a sg op fd sg' : epoll_init a sg = Ok (Some op, fd, sg') ->
  blen (fds op) = Z.max 0 (nevents op) /\ nevents op <= INT_MAX /\ (forall fd rd, slot op fd rd = None).
Proof.
  unfold epoll_init. destruct (ei_noepoll a); [done|]. destruct (ei_create a) as [d|]; [|done].
  destruct (ei_calloc a), (ei_events a), (ei_fds a); try done. cbn [negb].
  destruct (evsignal_init (ei_pair a) sg) as [[r sg1]|]; [|done]. rewrite bind_Ok. intros [= <- _ _]. cbn [fds nevents].
  set (n := match ei_limit a with Some l => _ | None => NEVENT end). split; [|split].
  - unfold blen. rewrite length_replicate. lia.
  - subst n. destruct (ei_limit a) as [l|]; [apply wrap32_range|done].
  - intros f rd. unfold slot. cbn [fds]. destruct (0 <=? f); [|done]. destruct (replicate _ _ !! _) as [e|] eqn:He; [|done].
    apply lookup_replicate_1 in He as [-> _]. by destruct rd.
Qed.

Lemma wired_start_ok a w b : wired_start a (w, b) -> wired_inv (w, b) /\ epoll_exact b.
Proof.
  intros (Hb & Hp & Hq & (sg & d & Hi) & Hn & Hk). destruct (epoll_init_slots _ _ _ _ _ Hi) as (Hlen & Hmax & Hs).
  assert (forall x o, w_mem w !! x = Some o -> flag o EVLIST_INSERTED = true -> False) as Hno.
  { intros x o Ho Hf. assert (x ∈ eventqueue (w_base w)) as Hin by (apply (bv_inserted _ Hb); by exists o).
    rewrite Hq in Hin. by apply elem_of_nil in Hin. }
  split; [split; cbn [fst snd]|].
  - done.
  - done.
  - intros x o Ho Hf. by destruct (Hno x o).
  - split; [lia|]. intros fd rd [x Hx]. by rewrite Hs in Hx.
  - intros fd rd x. rewrite Hs. split; [done|]. intros (o & Ho & Hf & _). by destruct (Hno x o).
  - intros fd. by rewrite !Hs, Hk.
Qed.

Lemma reachable_wired_inv a s0 s : wired_start a s0 -> rtc wired_step s0 s -> wired_inv s.
Proof.
  intros H0 Hrun. assert (wired_inv s0) as H1 by (destruct s0; by apply (wired_start_ok a)). clear H0.
  induction Hrun as [|[w1 b1] s2 s3 (op & r & He & Hr) _ IH]; [done|]. apply IH.
  destruct (run_wired_ok op w1 b1 H1 He) as (r' & s' & Hr' & H' & _). congruence.
Qed.

(** C13: The base, the table of [epoll.c] and the kernel stay in step, from a base
    in which nothing is inserted, in whatever order [event_set], [event_add],
    [event_del] and waits are called within the following use ([enabled_wired]):
    an event is added only when no other event is inserted for the same
    descriptor and direction ([second_reader_replaces] shows what happens
    otherwise), there are no signal events, descriptors are below 2^30, an event
    is set only while it is on no queue, absolute time-outs can be computed, and
    the kernel reports at most as many events as it was given room for. Then no
    call faults, the table holds for a descriptor and a direction exactly the
    inserted event that asks for it, the kernel watches at least that, and as
    long as it refuses no deletion it watches exactly that. *)
Theorem epoll_in_step a s0 w b : wired_start a s0 -> rtc wired_step s0 (w, b) ->
  registered w b /\
  (forall fd rd x, inserted w fd rd x -> exists m, interest (bk_set b) fd = Some m /\ has_flag m (dir_mask rd) = true) /\
  forall op, enabled_wired op (w, b) -> exists r s', run_wired op (w, b) = Ok (r, s') /\
    ((forall a x, op = WDel a x -> r = 0) -> epoll_exact b -> epoll_exact (snd s')).
Proof.
  intros H0 Hrun. pose proof (reachable_wired_inv a s0 (w, b) H0 Hrun) as H.
  split; [apply (wi_registered _ H)|]. split.
  - intros fd rd x Hx. apply (ep_watched _ (wi_epoll _ H)). exists x. by apply (wi_registered _ H).
  - intros op He. destruct (run_wired_ok op w b H He) as (r & s' & Hr & _ & Hx). eauto.
Qed.

(** C22: A wait of a base without signal events activates exactly the inserted
    events that the kernel's reports concern (ready for a direction they ask for,
    hung up or in error). An event they do not concern is as before (up to its
    place in the heap of time-outs, which the base's invariant pins); one they do is told exactly the
    directions reported, besides what it was told when it was active already, is
    active, to be called once, and has every other member as before. The base
    stays sound. *)
Theorem epoll_wait_activates wt answer w b t reports : wired_inv (w, b) -> times_ok w -> epoll_timeout wt = Ok t ->
  answer t = WaitReady reports -> blen reports <= nevents (bk_op b) ->
  exists w', dispatch_epoll wt answer (w, b) = Ok (0, (w', b)) /\ loop_inv w' /\ kept w w' /\
    forall x o, w_mem w !! x = Some o -> exists o', w_mem w' !! x = Some o' /\
      ev_fd o' = ev_fd o /\ ev_events o' = ev_events o /\ ev_timeout o' = ev_timeout o /\
      let concerns rd := exists what fd, (what, fd) ∈ reports /\ inserted w fd rd x /\
        has_flag what (Z.lor EPOLLHUP EPOLLERR) || has_flag what (dir_mask rd) = true in
      (flag o' EVLIST_ACTIVE = true <-> flag o EVLIST_ACTIVE = true \/ exists rd, concerns rd) /\
      (flag o EVLIST_ACTIVE = false -> flag o' EVLIST_ACTIVE = true ->
        forall rd, has_flag (ev_res o') (dir_event rd) = true <-> concerns rd) /\
      ((forall rd, ~ concerns rd) -> exists i, o' = with_idx o i) /\
      ((exists rd, concerns rd) -> exists i r,
        o' = with_idx (if flag o EVLIST_ACTIVE then with_res r o
                       else with_flags (Z.lor (ev_flags o) EVLIST_ACTIVE) (with_calls 1 None (with_res r o))) i /\
        forall k, has_flag r k = true <-> flag o EVLIST_ACTIVE = true /\ has_flag (ev_res o) k = true \/
          exists rd, concerns rd /\ has_flag (dir_event rd) k = true).
Proof.
  intros H Hti Ht Hans Hlen.
  destruct (dispatch_epoll_ok wt answer w b t reports H Ht Hans Hlen) as (w' & Hr & H' & Ht' & F & Hm).
  exists w'. split; [done|]. split; [split; [apply (wi_base _ H')|by apply Ht']|]. split; [by apply eframe_kept|].
  intros x o Ho. destruct (Hm x o Ho) as (o' & Ho' & [Hact Hres (E1 & E2 & E3) _ Hmiss Hhit]). exists o'.
  do 4 (split; [done|]).
  assert (forall rd, reported (bk_op b) reports x rd <-> exists what fd, (what, fd) ∈ reports /\ inserted w fd rd x /\
    has_flag what (Z.lor EPOLLHUP EPOLLERR) || has_flag what (dir_mask rd) = true) as Hrep.
  { intros rd. unfold reported. do 2 (apply exist_proper; intros ?). by rewrite (wi_registered _ H _ _ _). }
  cbv zeta. setoid_rewrite <- Hrep. split; [done|]. split; [|done].
  intros Hf Hf' rd. rewrite (Hres rd Hf'), Hf. naive_solver.
Qed.

(** * After a fork *)

(** The table holds the events of [acc]. *)
Definition registered_of (w : eworld) (acc : gset Z) (b : backend) : Prop := forall fd rd x,
  slot (bk_op b) fd rd = Some x <-> x ∈ acc /\ inserted w fd rd x.

Lemma registered_of_add w acc b b' x o : registered_of w acc b -> w_mem w !! x = Some o ->
  flag o EVLIST_INSERTED = true -> (forall fd rd y z, inserted w fd rd y -> inserted w fd rd z -> y = z) ->
  slots_set o (Some x) b b' -> registered_of w ({[x]} ∪ acc) b'.
Proof.
  intros H Ho Hi Huniq Hss fd rd y. rewrite Hss, elem_of_union, elem_of_singleton.
  assert (fd = ev_fd o /\ asks o rd = true <-> inserted w fd rd x) as Hx.
  { split; [intros [-> Ha]; by exists o|]. intros (o2 & Ho2 & _ & Hf & Ha). simplify_eq. done. }
  unfold registered_of in H. case_decide as Hd.
  - split; [intros [= <-]; naive_solver|]. intros [_ Hy]. f_equal. apply (Huniq fd rd); [by apply Hx|done].
  - rewrite (H fd rd y). split; [naive_solver|]. intros [[->|Hy] Hin]; [|done]. by destruct Hd; apply Hx.
Qed.

Lemma readd_all_ok w ba : plain_events w -> inserted_ask w ->
  (forall fd rd y z, inserted w fd rd y -> inserted w fd rd z -> y = z) ->
  forall q b acc, (forall x, x ∈ q -> flagged (w_mem w) x EVLIST_INSERTED) ->
  epoll_inv b -> epoll_exact b -> registered_of w acc b ->
  exists r b' acc', readd_all ba (w_mem w) q b = Ok (r, b') /\ epoll_inv b' /\ epoll_exact b' /\
    registered_of w acc' b' /\ (r = 0 /\ acc' = list_to_set q ∪ acc \/ r = -1).
Proof.
  intros Hp Ha Huniq. induction q as [|x q IH]; intros b acc Hq Hb Hx Hr; cbn [readd_all].
  - exists 0, b, acc. do 4 (split; [done|]). left. split; [done|]. set_solver.
  - destruct (Hq x) as (o & Ho & Hi); [left|].
    destruct (epoll_add_ok (ba x) (w_mem w) x o b Hb Ho (io_of_plain w x o Hp Ho (Ha x o Ho Hi)))
      as (r1 & b1 & -> & Hb1 & _ & _ & Hx1 & Hs). rewrite bind_Ok.
    assert (exists acc1, registered_of w acc1 b1 /\ (r1 = 0 /\ acc1 = {[x]} ∪ acc \/ r1 = -1)) as (acc1 & Hr1 & Hc).
    { destruct Hs as [[-> Hss]|[-> Hsame]].
      - exists ({[x]} ∪ acc). split; [by apply (registered_of_add w acc b b1 x o)|by left].
      - exists acc. split; [|by right]. intros fd rd y. rewrite Hsame. apply Hr. }
    destruct (IH b1 acc1) as (r & b' & acc' & -> & Hb' & Hx' & Hr' & Hc'); [set_solver|done|by apply Hx1|done|].
    rewrite bind_Ok. exists (if r1 =? -1 then -1 else r), b', acc'. do 4 (split; [done|]).
    destruct Hc as [[-> ->]| ->]; cbn [Z.eqb]; [|by right].
    destruct Hc' as [[-> ->]| ->]; [left; split; [done|]|by right]. cbn. set_solver.
Qed.

(** After a fork [event_reinit] of a base without signals closes the old
    descriptor, opens a new one and registers the inserted events again: when it
    returns 0 the base and the back end are in step as before, and whatever it
    returns the kernel watches exactly what the table holds. *)
Theorem event_reinit_registers `{KO : !SigKernelOk} a ba k sx w b orig E pair fd : wired_inv (w, b) -> sig_inv orig E (bk_sig b) ->
  ev_signal_added (sw_info (bk_sig b)) = false -> ei_noepoll a = false -> ei_create a = Some fd ->
  ei_calloc a && ei_events a && ei_fds a = true -> ei_pair a = Some pair ->
  (forall l, ei_limit a = Some l -> 2 <= l <= INT_MAX) -> (forall i, interest k i = None) ->
  exists r b', event_reinit a ba k sx (w, b) = Ok (r, (w, b')) /\ epoll_exact b' /\
    (forall f rd x, slot (bk_op b') f rd = Some x -> inserted w f rd x) /\
    (r = 0 /\ wired_inv (w, b') \/ r = -1).
Proof.
  intros [Hb Hp Ha He Hr] Hsig Hadd Hno Hfd [[Hc1 Hc2]%andb_true_iff Hc3]%andb_true_iff Hpair Hlim Hk. cbn [fst snd] in *.
  unfold event_reinit. rewrite Hadd, bind_Ok. unfold epoll_dealloc. cbn [bk_sig bk_op].
  destruct (evsignal_dealloc_ok orig E _ Hsig) as (sg1 & -> & _). rewrite bind_Ok, bind_Ok.
  destruct (epoll_init a sg1) as [[[op d] sg2]|] eqn:Hinit.
  2:{ unfold epoll_init in Hinit. rewrite Hno, Hfd, Hc1, Hc2, Hc3, Hpair in Hinit. discriminate Hinit. }
  assert (exists op', op = Some op' /\ 0 < nevents op') as (op' & -> & Hn).
  { unfold epoll_init in Hinit. rewrite Hno, Hfd, Hc1, Hc2, Hc3, Hpair in Hinit. injection Hinit as <- _ _.
    eexists. split; [reflexivity|]. cbn [nevents]. destruct (ei_limit a) as [l|]; [|done].
    specialize (Hlim l eq_refl). rewrite wrap32_small; unfold INT_MIN in *; lia. }
  destruct (epoll_init_slots _ _ _ _ _ Hinit) as (Hlen & Hmax & Hs). rewrite bind_Ok.
  destruct (readd_all_ok w ba Hp Ha) with (eventqueue (w_base w)) (mkBackend op' k sg2) (∅ : gset Z)
    as (r & b' & acc & -> & He' & Hx' & Hr' & Hres).
  - intros f rd y z Hy%Hr Hz%Hr. congruence.
  - intros x Hx. by apply (bv_inserted _ Hb).
  - split; cbn [bk_op]; [lia|]. intros f rd [x Hx]. by rewrite Hs in Hx.
  - intros f. cbn [bk_op bk_set]. by rewrite !Hs, Hk.
  - intros f rd x. cbn [bk_op]. rewrite Hs. set_solver.
  - rewrite bind_Ok. exists r, b'. split; [done|]. split; [done|]. split; [intros f rd x Hx; by apply Hr' in Hx as []|].
    destruct Hres as [[-> ->]| ->]; [left|by right]. split; [done|]. split; cbn [fst snd]; [done|done|done|done|].
    intros f rd x. unfold registered_of in Hr'. rewrite (Hr' f rd x), elem_of_union, elem_of_list_to_set.
    split; [by intros [_ ?]|]. intros Hin. split; [|done]. left. apply (bv_inserted _ Hb).
    destruct Hin as (o & Ho & Hi & _). by exists o.
Qed.
End Wired.

(** * The time-out *)

(** The milliseconds of a time, rounded up. *)
Definition tv_millis (tv : timeval) : Z := tv_sec tv * 1000 + (tv_usec tv + 999) / 1000.

(** C40: For waits of up to 2147482 seconds [epoll_dispatch] asks the kernel to wait
    until the time has passed, rounded up to a millisecond, and at most 35 minutes;
    between 2147484 and 4294966 seconds the conversion to [int] makes the time-out
    negative before it is bounded, and the kernel waits without limit. *)
Theorem epoll_wait_time tv : 0 <= tv_sec tv -> 0 <= tv_usec tv < 1000000 ->
  (tv_sec tv <= 2147482 -> epoll_timeout (For (Some tv)) = Ok (Z.min (tv_millis tv) MAX_EPOLL_TIMEOUT_MSEC) /\
    tv_sec tv * 1000000 + tv_usec tv <= tv_millis tv * 1000 < tv_sec tv * 1000000 + tv_usec tv + 1000) /\
  (2147484 <= tv_sec tv <= 4294966 -> exists t, epoll_timeout (For (Some tv)) = Ok t /\ t < 0).
Proof.
  intros Hs Hu. destruct tv as [sec usec]. cbn [tv_sec tv_usec] in *.
  assert (sec <= 4294966 -> epoll_timeout (For (Some (mkTv sec usec))) =
    let t := wrap32 (tv_millis (mkTv sec usec)) in Ok (if t >? MAX_EPOLL_TIMEOUT_MSEC then MAX_EPOLL_TIMEOUT_MSEC else t)) as Heq.
  { intros Hle. unfold epoll_timeout, tv_millis. cbn [of_option tv_sec tv_usec]. rewrite bind_Ok. cbn [tv_sec tv_usec].
    assert (0 <= (usec + 999) / 1000 <= 1001) by (split; [apply Z.div_pos; lia|apply Z.div_le_upper_bound; lia]).
    rewrite (chk_long_ok (sec * 1000)) by lia. rewrite bind_Ok.
    rewrite (chk_long_ok (usec + 999)) by lia. rewrite bind_Ok.
    rewrite Z.quot_div_nonneg by lia. rewrite chk_long_ok by lia. done. }
  pose proof (Z.div_mod (usec + 999) 1000 ltac:(lia)) as Hdm. pose proof (Z.mod_pos_bound (usec + 999) 1000 ltac:(lia)) as Hmb.
  split.
  - intros Hle. rewrite Heq by lia. cbv zeta. unfold tv_millis. cbn [tv_sec tv_usec].
    rewrite wrap32_small by (unfold INT_MIN, INT_MAX; lia). split; [|lia].
    f_equal. rewrite Z.gtb_ltb. destruct (Z.ltb_spec MAX_EPOLL_TIMEOUT_MSEC (sec * 1000 + (usec + 999) / 1000)); lia.
  - intros Hle. rewrite Heq by lia. eexists. split; [reflexivity|]. unfold tv_millis. cbn [tv_sec tv_usec].
    assert (wrap32 (sec * 1000 + (usec + 999) / 1000) = sec * 1000 + (usec + 999) / 1000 - 2 ^ 32) as ->.
    { unfold wrap32. replace (sec * 1000 + (usec + 999) / 1000 + 2 ^ 31)
        with (sec * 1000 + (usec + 999) / 1000 - 2 ^ 31 + 1 * 2 ^ 32) by lia.
      rewrite Z.mod_add, Z.mod_small by lia. lia. }
    rewrite Z.gtb_ltb. destruct (Z.ltb_spec MAX_EPOLL_TIMEOUT_MSEC (sec * 1000 + (usec + 999) / 1000 - 2 ^ 32));
      unfold MAX_EPOLL_TIMEOUT_MSEC in *; lia.
Qed.

(** * A kernel *)

Module EpollDemo.
Import SignalDemo.

#[export] Instance linux_epoll : EpollKernel := {|
  epoll_set := gmap Z Z;
  interest k fd := k !! fd;
  epoll_ctl op fd m k :=
    match op, k !! fd with
    | EPOLL_CTL_ADD, None | EPOLL_CTL_MOD, Some _ => Some (<[fd := m]> k)
    | EPOLL_CTL_DEL, Some _ => Some (delete fd k)
    | _, _ => None
    end
|}.

#[export] Instance linux_epoll_ok : EpollKernelOk.
Proof.
  split; cbn; intros fd m k k'; destruct (k !! fd) eqn:Hk; intros [= <-]; (split; [done|]); intros i;
    destruct (decide (i = fd)) as [->|Hne];
    by rewrite ?lookup_insert_eq, ?lookup_delete_eq, ?lookup_insert_ne, ?lookup_delete_ne.
Qed.

Definition demo_init : epoll_init_answers := mkEpollInit false (Some 5) (Some 3) true true true (Some (7, 8)).

Definition demo_back : backend :=
  mkBackend (mkEpollop (replicate 4 (mkEvepoll None None)) 4 3) (∅ : gmap Z Z) demo_start.

Definition demo_wired : wired := (event_base_init 0 (mkTv 10 0) true, demo_back).

Definition grant : backend_answers := mkBackendAnswers true yes.

(** Descriptor 6, for which the table has to grow, is read by event 1 and written
    by event 2. *)
Definition demo_wired_ops : list wired_op :=
  [WSet 1 6 (Z.lor EV_READ EV_PERSIST); WSet 2 6 EV_WRITE; WAdd grant (demo_answers 10) 1 None;
   WAdd grant (demo_answers 10) 2 (Some (mkTv 5 0))].

Definition run_wired_demo (ops : list wired_op) : wired :=
  fold_left (fun s op => snd (of_ok (0, s) (run_wired op s))) ops demo_wired.

Lemma demo_wired_start : wired_start demo_init demo_wired.
Proof.
  split; [apply event_base_init_inv|]. split; [by intros x o [=]|]. split; [done|].
  split; [exists (fresh_signals demo_kernel), (Some 3); reflexivity|]. split; [done|].
  intros fd. apply lookup_empty.
Qed.

Lemma demo_wired_step ops op : rtc wired_step demo_wired (run_wired_demo ops) -> enabled_wired op (run_wired_demo ops) ->
  is_ok (run_wired op (run_wired_demo ops)) = true -> rtc wired_step demo_wired (run_wired_demo (ops ++ [op])).
Proof.
  intros Hr He Hok. eapply rtc_r; [exact Hr|]. unfold run_wired_demo at 2. rewrite fold_left_app. cbn [fold_left].
  change (fold_left _ ops demo_wired) with (run_wired_demo ops).
  destruct (run_wired op (run_wired_demo ops)) as [[r s]|] eqn:Hrun; [|done]. by exists op, r.
Qed.

Lemma demo_wired_reached : rtc wired_step demo_wired (run_wired_demo demo_wired_ops).
Proof.
  change demo_wired_ops with (((([] ++ [WSet 1 6 (Z.lor EV_READ EV_PERSIST)]) ++ [WSet 2 6 EV_WRITE]) ++
    [WAdd grant (demo_answers 10) 1 None]) ++ [WAdd grant (demo_answers 10) 2 (Some (mkTv 5 0))]).
  repeat (apply demo_wired_step; [| |vm_compute; reflexivity]).
  - reflexivity.
  - split; [split; [by intros o [=]|done]|done].
  - split; [split; [by intros o [=]|done]|done].
  - eexists. split; [vm_compute; reflexivity|]. split; [done|]. intros _ [] _; vm_compute; reflexivity.
  - eexists. split; [vm_compute; reflexivity|]. split; [|intros _ [] Hd; [discriminate Hd|vm_compute; reflexivity]].
    intros t [= <-]. eexists _, _. split; [vm_compute; reflexivity|vm_compute; reflexivity].
Qed.

Definition demo_base : eworld := fst (run_wired_demo demo_wired_ops).
Definition demo_table : backend := snd (run_wired_demo demo_wired_ops).

Lemma demo_wired_pair : rtc wired_step demo_wired (demo_base, demo_table).
Proof. unfold demo_base, demo_table. rewrite <- surjective_pairing. exact demo_wired_reached. Qed.

Lemma demo_wired_inv : wired_inv (demo_base, demo_table).
Proof. exact (reachable_wired_inv demo_init demo_wired _ demo_wired_start demo_wired_pair). Qed.

Lemma demo_inserted : inserted demo_base 6 false 2.
Proof. apply (slot_inserted demo_base demo_table 6 false 2 demo_wired_inv). vm_compute. reflexivity. Qed.

Lemma epoll_in_step_witness :
  inserted demo_base 6 true 1 /\ interest (bk_set demo_table) 6 = Some (Z.lor EPOLLIN EPOLLOUT) /\
  exists s', run_wired (WDel (demo_answers 11) 1) (demo_base, demo_table) = Ok (0, s') /\
    interest (bk_set (snd s')) 6 = Some EPOLLOUT.
Proof.
  destruct (epoll_in_step demo_init demo_wired demo_base demo_table) as (Hreg & _ & Hop);
    [exact demo_wired_start|exact demo_wired_pair|].
  destruct (Hop (WDel (demo_answers 11) 1)) as (r & s' & Hr & _); [eexists; vm_compute; reflexivity|].
  split; [apply (proj1 (Hreg 6 true 1)); vm_compute; reflexivity|]. split; [vm_compute; reflexivity|]. exists s'.
  assert (Hv : match run_wired (WDel (demo_answers 11) 1) (demo_base, demo_table) with
    | Ok (r, s) => (r, interest (bk_set (snd s)) 6) | UB _ => (1, None) end = (0, Some EPOLLOUT)) by (vm_compute; reflexivity).
  rewrite Hr in Hv. injection Hv as -> Hv. split; [exact Hr|exact Hv].
Defined.

(** Descriptor 6 is ready for reading and was hung up; a report for a descriptor
    nobody registered is passed over. *)
Definition demo_answer (t : Z) : wait_answer := WaitReady [(EPOLLIN, 6); (EPOLLHUP, 6); (EPOLLIN, 40)].

Lemma epoll_wait_activates_witness :
  exists w' b, dispatch_epoll (For (Some (mkTv 1 0))) demo_answer (demo_base, demo_table) = Ok (0, (w', b)) /\
    loop_inv w' /\ exists o', w_mem w' !! 2 = Some o' /\ flag o' EVLIST_ACTIVE = true /\ ev_res o' = EV_WRITE.
Proof.
  destruct (epoll_wait_activates (For (Some (mkTv 1 0))) demo_answer demo_base demo_table 1000
    [(EPOLLIN, 6); (EPOLLHUP, 6); (EPOLLIN, 40)]) as (w' & Hr & Hl & _ & Hm).
  - exact demo_wired_inv.
  - split; [by left|].
    assert (map_Forall (fun _ o => flag o EVLIST_TIMEOUT = true -> tv_valid (ev_timeout o))
      (w_mem demo_base)) as Hall by (unfold tv_valid; apply (bool_decide_unpack _); vm_compute; exact I).
    intros x o Hx. by apply (Hall x o).
  - vm_compute. reflexivity.
  - reflexivity.
  - vm_compute. discriminate.
  - eexists w', _. split; [exact Hr|]. split; [exact Hl|].
    edestruct (Hm 2) as (o' & Ho' & _ & _ & _ & Ha & _); [vm_compute; reflexivity|]. exists o'. split; [exact Ho'|].
    split; [apply Ha; right; exists false, EPOLLHUP, 6|].
    + split; [right; left|]. split; [exact demo_inserted|reflexivity].
    + assert (Hv : match dispatch_epoll (For (Some (mkTv 1 0))) demo_answer (demo_base, demo_table) with
        | Ok (_, s) => ev_res <$> w_mem (fst s) !! 2 | UB _ => None end = Some EV_WRITE) by (vm_compute; reflexivity).
      rewrite Hr in Hv. cbn [fst] in Hv. rewrite Ho' in Hv. injection Hv as Hv. exact Hv.
Defined.

Lemma epoll_wait_time_witness :
  epoll_timeout (For (Some (mkTv 2 500))) = Ok 2001 /\ exists t, epoll_timeout (For (Some (mkTv 2592000 0))) = Ok t /\ t < 0.
Proof.
  split.
  - apply (epoll_wait_time (mkTv 2 500)); cbn; lia.
  - apply (epoll_wait_time (mkTv 2592000 0)); cbn; lia.
Defined.

Definition no_interest : epoll_set (EpollKernel := linux_epoll) := (∅ : gmap Z Z).

Lemma event_reinit_registers_witness : exists b',
  event_reinit demo_init (fun _ => grant) no_interest 0 (demo_base, demo_table) = Ok (0, (demo_base, b')) /\
  epoll_exact b' /\ interest (bk_set b') 6 = Some (Z.lor EPOLLIN EPOLLOUT).
Proof.
  destruct (event_reinit_registers demo_init (fun _ => grant) no_interest 0 demo_base demo_table (disposition demo_kernel) ∅
    (7, 8) 3) as (r & b' & Hr & Hx & _); [exact demo_wired_inv| |done|done|done|done|done| |done|].
  - destruct (evsignal_init_ok ∅ demo_kernel (7, 8)) as (w & Hw & [H _]). injection Hw as <-. exact H.
  - intros l [= <-]. unfold INT_MAX. lia.
  - assert (Hv : match event_reinit demo_init (fun _ => grant) no_interest 0 (demo_base, demo_table) with
      | Ok (r, s) => (r, interest (bk_set (snd s)) 6) | UB _ => (1, None) end = (0, Some (Z.lor EPOLLIN EPOLLOUT)))
      by (vm_compute; reflexivity).
    rewrite Hr in Hv. injection Hv as -> Hv. exists b'. split; [exact Hr|]. split; [exact Hx|exact Hv].
Defined.

(** A second reader of the same descriptor takes the first one's place: the first
    stays inserted and is never activated. *)
Example second_reader_replaces :
  let '(w, b) := run_wired_demo [WSet 1 4 EV_READ; WSet 2 4 EV_READ; WAdd grant (demo_answers 10) 1 None;
                                 WAdd grant (demo_answers 10) 2 None] in
  eventqueue (w_base w) = [1; 2] /\ slot (bk_op b) 4 true = Some 2.
Proof. vm_compute. done. Qed.

(** A failure after [epoll_create] leaves its descriptor open. *)
Example init_leaks_descriptor sg :
  epoll_init (mkEpollInit false (Some 1024) (Some 3) true false true (Some (7, 8))) sg = Ok (None, Some 3, sg).
Proof. reflexivity. Qed.

End EpollDemo.
