(* ===== verification/EvTag.v ===== *)
(** Tagged data: [event_tagging.c] of [socket/3rd/libevent-1.4.12-stable], the
    encoding of tags, integers, strings and times into event buffers. The
    static scratch buffer [_buf] is an argument and a result. The change
    callbacks of the buffers are not followed. *)
From S2P Require Import Prelude.
From S2P Require Import MinHeap EvBuffer.

(** * Encoding *)

(** Nibble [off] of the array: the high half of byte [off / 2] for even [off],
    the low half for odd [off]. *)
Definition set_nibble (data : list Z) (off v : Z) : cres (list Z) :=
  d ← of_option OutOfBounds (data !! Z.to_nat (off / 2));
  Ok (<[Z.to_nat (off / 2) :=
         if Z.odd off then Z.lor (Z.land d 240) (Z.land v 15)
         else Z.lor (Z.land d 15) (Z.shiftl (Z.land v 15) 4)]> data).

(** A 32-bit number has at most eight nibbles. *)
Definition nibble_fuel : nat := 9.

Fixpoint encode_loop (fuel : nat) (data : list Z) (off number : Z) : cres (list Z * Z) :=
  match fuel with
  | O => UB Diverges
  | S fuel =>
      if number =? 0 then Ok (data, off)
      else
        data ← set_nibble data off number;
        encode_loop fuel data (off + 1) (Z.shiftr number 4)
  end.

(** The bytes [encode_int] adds. *)
Definition int_data (number : Z) : cres (list byte) :=
  '(data, off) ← encode_loop nibble_fuel (replicate 5 0) 1 number;
  let nibbles := if off >? 2 then off - 2 else 0 in
  data ← set_nibble data 0 nibbles;
  Ok (zbytes (take (Z.to_nat ((off + 1) / 2)) data)).

Definition encode_int (alloc : Z -> bool) (b : evbuffer) (number : Z) : cres evbuffer :=
  data ← int_data number;
  '(b, _, _) ← evbuffer_add alloc b data (blen data);
  Ok b.

(** Seven bits per byte; the array has five bytes. *)
Fixpoint tag_loop (fuel : nat) (data : list Z) (tag : Z) : cres (list Z) :=
  match fuel with
  | O => UB OutOfBounds
  | S fuel =>
      let lower := Z.land tag 127 in
      let tag := Z.shiftr tag 7 in
      let data := data ++ [if tag =? 0 then lower else Z.lor lower 128] in
      if tag =? 0 then Ok data else tag_loop fuel data tag
  end.

Definition tag_data (tag : Z) : cres (list byte) :=
  data ← tag_loop 5 [] tag; Ok (zbytes data).

Definition evtag_encode_tag (alloc : Z -> bool) (b : option evbuffer) (tag : Z) : cres (option evbuffer * Z) :=
  data ← tag_data tag;
  match b with
  | Some b => '(b, _, _) ← evbuffer_add alloc b data (blen data); Ok (Some b, blen data)
  | None => Ok (None, blen data)
  end.

Definition encode_tag (alloc : Z -> bool) (b : evbuffer) (tag : Z) : cres evbuffer :=
  '(b, _) ← evtag_encode_tag alloc (Some b) tag; of_option NullDeref b.

Definition evtag_marshal (alloc : Z -> bool) (b : evbuffer) (tag : Z) (data : list byte) (len : Z) : cres evbuffer :=
  b ← encode_tag alloc b tag;
  b ← encode_int alloc b len;
  '(b, _, _) ← evbuffer_add alloc b data len;
  Ok b.

(** [evbuffer_drain(_buf, EVBUFFER_LENGTH(_buf))]. *)
Definition reset_buf (buf : evbuffer) : evbuffer := (evbuffer_drain buf (off buf)).1.

Definition evtag_marshal_int (alloc : Z -> bool) (buf b : evbuffer) (tag integer : Z) : cres (evbuffer * evbuffer) :=
  buf ← encode_int alloc (reset_buf buf) integer;
  b ← encode_tag alloc b tag;
  b ← encode_int alloc b (uwrap32 (off buf));
  '(b, buf, _, _) ← evbuffer_add_buffer alloc b buf;
  Ok (buf, b).

(** [string] without its terminating zero. *)
Definition evtag_marshal_string (alloc : Z -> bool) (b : evbuffer) (tag : Z) (string : list byte) : cres evbuffer :=
  evtag_marshal alloc b tag string (uwrap32 (blen string)).

Definition evtag_marshal_timeval (alloc : Z -> bool) (buf b : evbuffer) (tag : Z) (tv : timeval)
  : cres (evbuffer * evbuffer) :=
  buf ← encode_int alloc (reset_buf buf) (uwrap32 (tv_sec tv));
  buf ← encode_int alloc buf (uwrap32 (tv_usec tv));
  data ← get_bytes buf (buffer buf) (off buf);
  b ← evtag_marshal alloc b tag data (uwrap32 (off buf));
  Ok (buf, b).

(** * Decoding *)

Definition byte_at (b : evbuffer) (i : Z) : cres Z :=
  bs ← get_bytes b (buffer b + i) 1;
  c ← of_option OutOfBounds (head bs);
  Ok (byte.unsigned c).

(** [number |= (lower & 0x7f) << shift], in 32 bits; a shift by 32 or more is
    undefined. *)
Fixpoint decode_tag_loop (fuel : nat) (b : evbuffer) (len count shift number : Z) : cres (option (Z * Z)) :=
  match fuel with
  | O => UB Diverges
  | S fuel =>
      if count <? len then
        lower ← byte_at b count;
        require (shift <? 32) SignedOverflow;;
        let number := Z.lor number (uwrap32 (Z.shiftl (Z.land lower 127) shift)) in
        if Z.land lower 128 =? 0 then Ok (Some (number, count + 1))
        else decode_tag_loop fuel b len (count + 1) (shift + 7) number
      else Ok None
  end.

(** The tag (when found), the buffer and the number of bytes or -1. *)
Definition decode_tag_internal (b : evbuffer) (dodrain : bool) : cres (option Z * evbuffer * Z) :=
  r ← decode_tag_loop (S (Z.to_nat (off b))) b (wrap32 (off b)) 0 0 0;
  match r with
  | None => Ok (None, b, -1)
  | Some (number, count) => Ok (Some number, if dodrain then (evbuffer_drain b count).1 else b, count)
  end.

Definition evtag_decode_tag (b : evbuffer) : cres (option Z * evbuffer * Z) := decode_tag_internal b true.
Definition evtag_peek (b : evbuffer) : cres (option Z * evbuffer * Z) := decode_tag_internal b false.

Fixpoint decode_int_loop (nibbles : nat) (b : evbuffer) (number : Z) : cres Z :=
  match nibbles with
  | O => Ok number
  | S k =>
      d ← byte_at b (Z.shiftr (Z.of_nat nibbles) 1);
      let nib := if Nat.odd nibbles then Z.land d 15 else Z.shiftr (Z.land d 240) 4 in
      decode_int_loop k b (Z.lor (uwrap32 (Z.shiftl number 4)) nib)
  end.

Definition decode_int_internal (b : evbuffer) (dodrain : bool) : cres (option Z * evbuffer * Z) :=
  let len := wrap32 (off b) in
  if len =? 0 then Ok (None, b, -1)
  else
    d ← byte_at b 0;
    let nibbles := Z.shiftr (Z.land d 240) 4 + 1 in
    if (nibbles >? 8) || (Z.shiftr nibbles 1 + 1 >? len) then Ok (None, b, -1)
    else
      let len := Z.shiftr nibbles 1 + 1 in
      number ← decode_int_loop (Z.to_nat nibbles) b 0;
      Ok (Some number, if dodrain then (evbuffer_drain b len).1 else b, len).

Definition evtag_decode_int (b : evbuffer) : cres (option Z * evbuffer * Z) :=
  '(n, b, r) ← decode_int_internal b true; Ok (n, b, if r =? -1 then -1 else 0).

(** The copy [tmp] of the buffer behind the tag. *)
Definition behind (b : evbuffer) (len : Z) : evbuffer :=
  mkEvbuffer (orig_buffer b) (buffer b + len) (misalign b) (totallen b) (off b - len) (cb b).

Definition evtag_peek_length (b : evbuffer) : cres (option Z * Z) :=
  '(_, _, len) ← decode_tag_internal b false;
  if len =? -1 then Ok (None, -1)
  else
    '(n, _, res) ← decode_int_internal (behind b len) false;
    if res =? -1 then Ok (n, -1) else Ok (option_map (fun n => uwrap32 (n + (res + len))) n, 0).

Definition evtag_payload_length (b : evbuffer) : cres (option Z * Z) :=
  '(_, _, len) ← decode_tag_internal b false;
  if len =? -1 then Ok (None, -1)
  else
    '(n, _, res) ← decode_int_internal (behind b len) false;
    if res =? -1 then Ok (n, -1) else Ok (n, 0).

Definition evtag_consume (b : evbuffer) : cres (evbuffer * Z) :=
  '(_, b, r) ← decode_tag_internal b true;
  if r =? -1 then Ok (b, -1)
  else
    '(n, b, r) ← evtag_decode_int b;
    if r =? -1 then Ok (b, -1)
    else len ← of_option Uninitialised n; Ok ((evbuffer_drain b len).1, 0).

(** The tag, the two buffers and the result. *)
Definition evtag_unmarshal (alloc : Z -> bool) (src dst : evbuffer) : cres (option Z * evbuffer * evbuffer * Z) :=
  '(tag, src, r) ← decode_tag_internal src true;
  if r =? -1 then Ok (tag, src, dst, -1)
  else
    '(n, src, r) ← evtag_decode_int src;
    if r =? -1 then Ok (tag, src, dst, -1)
    else
      len ← of_option Uninitialised n;
      if off src <? len then Ok (tag, src, dst, -1)
      else
        data ← get_bytes src (buffer src) len;
        '(dst, r, _) ← evbuffer_add alloc dst data len;
        if r =? -1 then Ok (tag, src, dst, -1)
        else Ok (tag, (evbuffer_drain src len).1, dst, wrap32 len).

(** The integer, the scratch buffer, the buffer and the result. *)
Definition evtag_unmarshal_int (alloc : Z -> bool) (buf b : evbuffer) (need_tag : Z)
  : cres (option Z * evbuffer * evbuffer * Z) :=
  '(tag, b, r) ← decode_tag_internal b true;
  if r =? -1 then Ok (None, buf, b, -1)
  else if negb (bool_decide (tag = Some need_tag)) then Ok (None, buf, b, -1)
  else
    '(n, b, r) ← evtag_decode_int b;
    if r =? -1 then Ok (None, buf, b, -1)
    else
      len ← of_option Uninitialised n;
      if off b <? len then Ok (None, buf, b, -1)
      else
        data ← get_bytes b (buffer b) len;
        '(buf, r, _) ← evbuffer_add alloc (reset_buf buf) data len;
        if r =? -1 then Ok (None, buf, b, -1)
        else
          let b := (evbuffer_drain b len).1 in
          '(n, buf, r) ← evtag_decode_int buf;
          Ok (n, buf, b, r).

(** [evtag_unmarshal] into the scratch buffer, and the test of the tag; [false]
    stands for the result -1. *)
Definition unmarshal_tagged (alloc : Z -> bool) (buf src : evbuffer) (need_tag : Z)
  : cres (evbuffer * evbuffer * bool) :=
  '(tag, src, buf, r) ← evtag_unmarshal alloc src (reset_buf buf);
  Ok (buf, src, negb (r =? -1) && bool_decide (tag = Some need_tag)).

Definition evtag_unmarshal_fixed (alloc : Z -> bool) (buf src : evbuffer) (need_tag len : Z)
  : cres (option (list byte) * evbuffer * evbuffer * Z) :=
  '(buf, src, ok) ← unmarshal_tagged alloc buf src need_tag;
  if negb ok then Ok (None, buf, src, -1)
  else if negb (off buf =? len) then Ok (None, buf, src, -1)
  else data ← get_bytes buf (buffer buf) len; Ok (Some data, buf, src, 0).

(** The string copied, with the zero [calloc] leaves behind it; a failed
    [calloc] ends the program. *)
Definition evtag_unmarshal_string (alloc : Z -> bool) (ok : bool) (buf b : evbuffer) (need_tag : Z)
  : cres (option (list byte) * evbuffer * evbuffer * Z) :=
  '(buf, b, found) ← unmarshal_tagged alloc buf b need_tag;
  if negb found then Ok (None, buf, b, -1)
  else
    require ok AssertFailed;;
    '(buf, data, _, _) ← evbuffer_remove buf (off buf);
    Ok (Some (data ++ [byte.of_Z 0]), buf, b, 0).

Definition evtag_unmarshal_timeval (alloc : Z -> bool) (buf b : evbuffer) (need_tag : Z)
  : cres (option timeval * evbuffer * evbuffer * Z) :=
  '(buf, b, found) ← unmarshal_tagged alloc buf b need_tag;
  if negb found then Ok (None, buf, b, -1)
  else
    '(sec, buf, r) ← evtag_decode_int buf;
    if r =? -1 then Ok (None, buf, b, -1)
    else
      '(usec, buf, r) ← evtag_decode_int buf;
      if r =? -1 then Ok (None, buf, b, -1)
      else
        sec ← of_option Uninitialised sec;
        usec ← of_option Uninitialised usec;
        Ok (Some (mkTv sec usec), buf, b, 0).

(** * Nibbles *)

Definition nibble (data : list Z) (j : Z) : Z :=
  let d := data !!! Z.to_nat (j / 2) in
  if Z.odd j then Z.land d 15 else Z.shiftr (Z.land d 240) 4.

Definition is_byte (d : Z) : Prop := 0 <= d < 256.

(** Replacing one half of a byte, for all bytes and nibbles. *)
Definition halves_ok (d v : Z) : bool :=
  let lo := Z.lor (Z.land d 240) v in
  let hi := Z.lor (Z.land d 15) (Z.shiftl v 4) in
  (Z.land lo 15 =? v) && (Z.shiftr (Z.land lo 240) 4 =? Z.shiftr (Z.land d 240) 4) && (0 <=? lo) && (lo <? 256) &&
  (Z.land hi 15 =? Z.land d 15) && (Z.shiftr (Z.land hi 240) 4 =? v) && (0 <=? hi) && (hi <? 256).

Lemma halves_all : forallb (fun d => forallb (halves_ok d) (seqZ 0 16)) (seqZ 0 256) = true.
Proof. vm_compute. reflexivity. Qed.

Lemma halves d v : is_byte d -> 0 <= v < 16 -> halves_ok d v = true.
Proof.
  intros Hd Hv. pose proof halves_all as H. rewrite forallb_forall in H.
  specialize (H d ltac:(apply list_elem_of_In, elem_of_seqZ; unfold is_byte in Hd; lia)).
  rewrite forallb_forall in H. apply H. apply list_elem_of_In, elem_of_seqZ. lia.
Qed.

Lemma land_15 v : Z.land v 15 = v mod 16.
Proof. exact (Z.land_ones v 4 ltac:(lia)). Qed.

Lemma land_15_range v : 0 <= Z.land v 15 < 16.
Proof. rewrite land_15. apply Z.mod_pos_bound. lia. Qed.

Lemma set_nibble_ok data off v : Forall is_byte data -> 0 <= off / 2 < blen data -> 0 <= off ->
  exists data', set_nibble data off v = Ok data' /\ length data' = length data /\ Forall is_byte data' /\
    forall j, 0 <= j -> nibble data' j = if j =? off then Z.land v 15 else nibble data j.
Proof.
  intros Hb Ho Hp. unfold blen in Ho.
  destruct (lookup_lt_is_Some_2 data (Z.to_nat (off / 2))) as [d Hd]; [lia|].
  assert (is_byte d) as Hbd by (by eapply Forall_lookup_1). unfold set_nibble. rewrite Hd. cbn [of_option].
  rewrite bind_Ok. pose proof (halves d (Z.land v 15) Hbd (land_15_range v)) as Hh. unfold halves_ok in Hh. bool_props.
  eexists. split; [done|]. split; [apply length_insert|]. split.
  - apply Forall_insert; [done|]. unfold is_byte. destruct (Z.odd off); lia.
  - intros j Hj. unfold nibble. destruct (decide (j / 2 = off / 2)) as [He|He].
    + rewrite He, list_lookup_total_insert_eq by (by eapply lookup_lt_Some).
      rewrite (list_lookup_total_correct _ _ _ Hd).
      pose proof (Z.div_mod j 2 ltac:(lia)) as Hj2. pose proof (Z.div_mod off 2 ltac:(lia)) as Ho2.
      rewrite !Zmod_odd in *. destruct (Z.eqb_spec j off) as [->|Hne].
      * destruct (Z.odd off); congruence.
      * destruct (Z.odd off), (Z.odd j); try lia; congruence.
    + rewrite list_lookup_total_insert_ne by (pose proof (Z.div_pos j 2); lia).
      by destruct (Z.eqb_spec j off) as [->|].
Qed.

Lemma shiftr_4 m : Z.shiftr m 4 = m / 16.
Proof. exact (Z.shiftr_div_pow2 m 4 ltac:(lia)). Qed.

Lemma pow16_succ k : 0 <= k -> 16 ^ (k + 1) = 16 * 16 ^ k.
Proof. intros. rewrite Z.pow_add_r by lia. lia. Qed.

(** The loop writes the nibbles of the number, lowest first. *)
Lemma encode_loop_ok fuel : forall data off m, Forall is_byte data -> length data = 5%nat ->
  1 <= off <= 9 -> 0 <= m < 16 ^ (9 - off) -> 9 - off < Z.of_nat fuel ->
  exists data' off', encode_loop fuel data off m = Ok (data', off') /\ length data' = 5%nat /\
    Forall is_byte data' /\ off <= off' <= 9 /\ m < 16 ^ (off' - off) /\
    forall j, 0 <= j -> nibble data' j =
      if (off <=? j) && (j <? off') then (m / 16 ^ (j - off)) mod 16 else nibble data j.
Proof.
  induction fuel as [|fuel IH]; intros data off m Hb Hl Ho Hm Hf; [lia|].
  cbn [encode_loop]. destruct (Z.eqb_spec m 0) as [->|Hm0].
  - exists data, off. split; [done|]. split; [done|]. split; [done|]. split; [lia|].
    rewrite Z.sub_diag. split; [done|]. intros j Hj.
    by destruct (Z.leb_spec off j), (Z.ltb_spec j off); cbn; try lia.
  - assert (off < 9).
    { destruct (decide (off = 9)) as [->|]; [|lia]. cbn in Hm. lia. }
    assert (0 <= off / 2 < blen data).
    { unfold blen. rewrite Hl. split; [apply Z.div_pos; lia|apply Z.div_lt_upper_bound; lia]. }
    destruct (set_nibble_ok data off m Hb ltac:(done) ltac:(lia)) as (d1 & -> & Hl1 & Hb1 & Hn1). rewrite bind_Ok.
    rewrite shiftr_4.
    destruct (IH d1 (off + 1) (m / 16)) as (d2 & o2 & -> & Hl2 & Hb2 & Ho2 & Hm2 & Hn2); [done|lia|lia| |lia|].
    { replace (9 - off) with (9 - (off + 1) + 1) in Hm by lia. rewrite pow16_succ in Hm by lia.
      split; [apply Z.div_pos; lia|apply Z.div_lt_upper_bound; lia]. }
    exists d2, o2. split; [done|]. split; [done|]. split; [done|]. split; [lia|]. split.
    + replace (o2 - off) with (o2 - (off + 1) + 1) by lia. rewrite pow16_succ by lia.
      pose proof (Z.div_mod m 16 ltac:(lia)). pose proof (Z.mod_pos_bound m 16 ltac:(lia)). lia.
    + intros j Hj. rewrite Hn2, Hn1 by done.
      destruct (Z.leb_spec (off + 1) j), (Z.ltb_spec j o2), (Z.leb_spec off j), (Z.eqb_spec j off);
        cbn [andb]; try lia; try done.
      * replace (j - off) with (1 + (j - (off + 1))) by lia. rewrite Z.pow_add_r, Z.div_div by (try lia; apply Z.pow_nonneg; lia).
        done.
      * subst j. rewrite Z.sub_diag, Z.div_1_r. apply land_15.
Qed.

(** The number of nibbles decoded for [number]. *)
Lemma int_data_ok number : 0 <= number < 2 ^ 32 ->
  exists data m, int_data number = Ok (zbytes data) /\ Forall is_byte data /\ 1 <= m <= 8 /\
    blen data = m / 2 + 1 /\ number < 16 ^ m /\ nibble data 0 = m - 1 /\
    forall j, 1 <= j <= m -> nibble data j = (number / 16 ^ (j - 1)) mod 16.
Proof.
  intros Hn. unfold int_data.
  destruct (encode_loop_ok nibble_fuel (replicate 5 0) 1 number) as (d1 & o1 & -> & Hl1 & Hb1 & Ho1 & Hm1 & Hn1);
    [by repeat constructor|done|lia|change (16 ^ (9 - 1)) with (2 ^ 32); lia|unfold nibble_fuel; lia|].
  rewrite bind_Ok. cbv beta iota. rewrite Z.gtb_ltb.
  destruct (set_nibble_ok d1 0 (if 2 <? o1 then o1 - 2 else 0)) as (d2 & -> & Hl2 & Hb2 & Hn2);
    [done|unfold blen; rewrite Hl1; change (0 / 2) with 0; lia|lia|]. rewrite bind_Ok.
  set (m := Z.max 1 (o1 - 1)). set (L := Z.to_nat ((o1 + 1) / 2)).
  assert (HL : Z.of_nat L = m / 2 + 1 /\ (L <= 5)%nat).
  { subst L m. assert (o1 = 1 \/ o1 = 2 \/ o1 = 3 \/ o1 = 4 \/ o1 = 5 \/ o1 = 6 \/ o1 = 7 \/ o1 = 8 \/ o1 = 9) as Hc by lia.
    destruct Hc as [->|[->|[->|[->|[->|[->|[->|[->| ->]]]]]]]]; vm_compute; split; (reflexivity || lia || (repeat constructor)). }
  destruct HL as [HL HL5].
  assert (Hnib : forall j, 0 <= j <= m -> nibble (take L d2) j = nibble d2 j).
  { intros j Hj. unfold nibble. rewrite lookup_total_take_lt; [done|].
    apply Nat2Z.inj_lt. rewrite Z2Nat.id by (apply Z.div_pos; lia). rewrite HL.
    pose proof (Z.div_le_mono j m 2 ltac:(lia) ltac:(lia)). lia. }
  exists (take L d2), m. split; [done|]. split; [by apply Forall_take|]. split; [lia|]. split.
  { unfold blen. rewrite length_take, Hl2, Hl1. lia. }
  split; [|split].
  - eapply Z.lt_le_trans; [exact Hm1|]. apply Z.pow_le_mono_r; lia.
  - rewrite Hnib, Hn2 by lia. cbn [Z.eqb]. rewrite land_15, Z.mod_small; destruct (Z.ltb_spec 2 o1); lia.
  - intros j Hj. rewrite Hnib, Hn2, Hn1 by lia.
    destruct (Z.eqb_spec j 0); [lia|]. rewrite (proj2 (Z.leb_le 1 j)) by lia. cbn [andb].
    destruct (Z.ltb_spec j o1); [done|].
    assert (o1 = 1 /\ j = 1) as [-> ->] by lia. cbn in Hm1. assert (number = 0) as -> by lia. done.
Qed.
