(* ===== verification/TagCorrect.v ===== *)
(** What [event_tagging.c] (EvTag.v) does: integers, tags and whole streams of
    tagged values are read back as they were written, an item can be measured
    and skipped, the readers are safe on any bytes but a tag of more than five
    bytes. *)
From S2P Require Import Prelude.
From S2P Require Import MinHeap EvBuffer EvTag.

(** * Reading bytes *)

(** The bytes the decoders can see. *)
Definition readable (b : evbuffer) (q : list byte) : Prop :=
  off b = blen q /\ forall i c, q !! i = Some c -> byte_at b (Z.of_nat i) = Ok (byte.unsigned c).

Lemma evrep_readable b q : evrep b q -> readable b q.
Proof.
  intros (pre & post & Hm & Hb & _ & Ho & _). split; [done|]. intros i c Hc.
  assert (Hq : q = take i q ++ [c] ++ drop (S i) q) by (symmetry; by apply take_drop_middle).
  assert (Hi : (i < length q)%nat) by (by eapply lookup_lt_Some).
  unfold byte_at, get_bytes. cbn [Z.eqb].
  assert (Hblk : default [] (orig_buffer b) = (pre ++ (Some <$> take i q)) ++ (Some <$> [c]) ++ ((Some <$> drop (S i) q) ++ post)).
  { rewrite Hm. rewrite Hq at 1. rewrite !fmap_app, <- !app_assoc. done. }
  destruct (orig_buffer b) as [m|]; [change (default [] (Some m)) with m in Hblk|by destruct pre, (take i q)].
  pose proof (load_mid (pre ++ (Some <$> take i q)) [c] ((Some <$> drop (S i) q) ++ post)) as HL.
  rewrite blen_app, blen_fmap, <- Hblk in HL.
  assert (blen (take i q) = Z.of_nat i) as Hl by (unfold blen; rewrite length_take; lia).
  rewrite Hl in HL. rewrite Hb. change (blen [c]) with 1 in HL. rewrite HL. done.
Qed.

Lemma readable_behind b p q : readable b (p ++ q) -> readable (behind b (blen p)) q.
Proof.
  intros [Ho Hr]. rewrite blen_app in Ho. split; [cbn [behind off]; lia|].
  intros i c Hc. rewrite <- (Hr (length p + i)%nat c).
  - unfold byte_at, get_bytes, behind. cbn [orig_buffer buffer].
    replace (buffer b + blen p + Z.of_nat i) with (buffer b + Z.of_nat (length p + i)) by (unfold blen; lia). done.
  - by rewrite lookup_app_r, Nat.add_comm, Nat.add_sub by lia.
Qed.

Lemma readable_at b q i : readable b q -> (i < length q)%nat ->
  exists c, q !! i = Some c /\ byte_at b (Z.of_nat i) = Ok (byte.unsigned c).
Proof.
  intros [_ Hr] Hi. destruct (lookup_lt_is_Some_2 q i Hi) as [c Hc]. exists c. split; [done|by apply Hr].
Qed.

Lemma is_byte_unsigned c : is_byte (byte.unsigned c).
Proof. pose proof (byte.unsigned_range c). unfold is_byte. lia. Qed.

Lemma unsigned_of_byte d : is_byte d -> byte.unsigned (byte.of_Z d) = d.
Proof. intros Hd. rewrite byte.unsigned_of_Z. apply Z.mod_small. exact Hd. Qed.

(** * Integers *)

Lemma lor_shift a b k : 0 <= k -> 0 <= b < 2 ^ k -> Z.lor (Z.shiftl a k) b = a * 2 ^ k + b.
Proof.
  intros Hk Hb. rewrite <- Z.add_nocarry_lor; [by rewrite Z.shiftl_mul_pow2|].
  apply Z.bits_inj'. intros n Hn. rewrite Z.land_spec, Z.bits_0. destruct (Z.lt_ge_cases n k).
  - by rewrite Z.shiftl_spec_low.
  - destruct (decide (b = 0)) as [->|]; [by rewrite Z.bits_0, andb_false_r|].
    rewrite (Z.bits_above_log2 b n), andb_false_r; [done|lia|].
    assert (Z.log2 b < k) by (apply Z.log2_lt_pow2; lia). lia.
Qed.

(** The nibbles from [k] down to one give the number's low [4 * k] bits. *)
Lemma decode_int_loop_ok b data number k : forall acc,
  Forall is_byte data -> (forall i, (i < length data)%nat -> byte_at b (Z.of_nat i) = Ok (data !!! i)) ->
  (k < 9)%nat -> Z.of_nat k / 2 < blen data ->
  (forall j, 1 <= j <= Z.of_nat k -> nibble data j = (number / 16 ^ (j - 1)) mod 16) ->
  0 <= acc -> (acc + 1) * 16 ^ Z.of_nat k <= 2 ^ 32 ->
  decode_int_loop k b acc = Ok (acc * 16 ^ Z.of_nat k + number mod 16 ^ Z.of_nat k).
Proof.
  induction k as [|k IH]; intros acc Hb Hat Hk Hlen Hnib Ha Hmax.
  { cbn [decode_int_loop]. rewrite Z.mod_1_r. f_equal. lia. }
  cbn [decode_int_loop]. set (j := Z.of_nat (S k)) in *.
  assert (Hj : 1 <= j < 10) by lia. assert (0 <= j / 2) by (apply Z.div_pos; lia).
  unfold blen in Hlen.
  change (Z.shiftr j 1) with (Z.shiftr j 1). rewrite (Z.shiftr_div_pow2 j 1) by lia. change (2 ^ 1) with 2.
  rewrite <- (Z2Nat.id (j / 2)) by lia. rewrite Hat by lia. rewrite bind_Ok.
  assert (Hodd : Nat.odd (S k) = Z.odd j).
  { subst j. rewrite <- Z.negb_even, <- Nat.negb_even. f_equal.
    rewrite (Bool.eq_iff_eq_true (Nat.even (S k)) (Z.even (Z.of_nat (S k)))), Nat.even_spec, Z.even_spec. split.
    - intros [x ->]. exists (Z.of_nat x). lia.
    - intros [x Hx]. exists (Z.to_nat x). lia. }
  assert (Hpow : 16 ^ j = 16 * 16 ^ Z.of_nat k).
  { subst j. rewrite Nat2Z.inj_succ, <- Z.add_1_r. apply pow16_succ. lia. }
  assert (Hp : 0 < 16 ^ Z.of_nat k) by (apply Z.pow_pos_nonneg; lia).
  set (v := (number / 16 ^ Z.of_nat k) mod 16).
  assert (Hv : 0 <= v < 16) by (apply Z.mod_pos_bound; lia).
  replace (if Nat.odd (S k) then Z.land (data !!! Z.to_nat (j / 2)) 15
           else Z.shiftr (Z.land (data !!! Z.to_nat (j / 2)) 240) 4) with v.
  2:{ rewrite Hodd. symmetry. pose proof (Hnib j ltac:(lia)) as Hn. unfold nibble in Hn. rewrite Hn.
      subst v j. do 3 f_equal. lia. }
  rewrite uwrap32_small by (rewrite Z.shiftl_mul_pow2 by lia; change (2 ^ 4) with 16; nia).
  rewrite lor_shift by (change (2 ^ 4) with 16; lia). change (2 ^ 4) with 16.
  rewrite IH; try done; try lia.
  - f_equal. rewrite Hpow, (Z.mul_comm 16). rewrite Z.rem_mul_r by lia. subst v. ring.
  - eapply Z.le_lt_trans; [|exact Hlen]. apply Z.div_le_mono; lia.
  - intros i Hi. apply Hnib. lia.
  - rewrite Hpow in Hmax. nia.
Qed.

(** The encoded number in front of any bytes is decoded, and its length is the
    number of bytes written. *)
Lemma decode_int_ok b n r : 0 <= n < 2 ^ 32 ->
  exists e, int_data n = Ok e /\ 1 <= blen e <= 5 /\
    (readable b (e ++ r) -> blen (e ++ r) <= INT_MAX -> forall dodrain,
     decode_int_internal b dodrain =
       Ok (Some n, if dodrain then (evbuffer_drain b (blen e)).1 else b, blen e)).
Proof.
  intros Hn. destruct (int_data_ok n Hn) as (data & m & He & Hb & Hm & Hl & Hnm & H0 & Hj).
  assert (Hlz : blen (zbytes data) = m / 2 + 1) by (unfold zbytes; rewrite blen_fmap; exact Hl).
  assert (1 <= m / 2 + 1 <= 5).
  { assert (m = 1 \/ m = 2 \/ m = 3 \/ m = 4 \/ m = 5 \/ m = 6 \/ m = 7 \/ m = 8) as Hc by lia.
    destruct Hc as [->|[->|[->|[->|[->|[->|[->| ->]]]]]]]; vm_compute; split; discriminate. }
  exists (zbytes data). split; [done|]. split; [lia|]. intros [Ho Hr] Hmax dodrain.
  rewrite blen_app in *. pose proof (blen_nonneg r).
  assert (Hat : forall i, (i < length data)%nat -> byte_at b (Z.of_nat i) = Ok (data !!! i)).
  { intros i Hi. destruct (lookup_lt_is_Some_2 data i Hi) as [d Hd].
    rewrite (Hr i (byte.of_Z d)).
    - rewrite (list_lookup_total_correct _ _ _ Hd), unsigned_of_byte; [done|by eapply Forall_lookup_1].
    - rewrite lookup_app_l by (unfold zbytes; by rewrite length_fmap). unfold zbytes. by rewrite list_lookup_fmap, Hd. }
  unfold decode_int_internal. rewrite wrap32_small by (unfold INT_MIN, INT_MAX in *; lia). rewrite Ho.
  zdecide. unfold blen in Hl. pose proof (Hat 0%nat ltac:(lia)) as Hat0. change (Z.of_nat 0) with 0 in Hat0.
  rewrite Hat0, bind_Ok. change (nibble data 0) with (Z.shiftr (Z.land (data !!! 0%nat) 240) 4) in H0. rewrite H0.
  replace (m - 1 + 1) with m by lia. rewrite (Z.shiftr_div_pow2 m 1) by lia. change (2 ^ 1) with 2.
  rewrite !Z.gtb_ltb. rewrite (proj2 (Z.ltb_ge 8 m)) by lia. rewrite (proj2 (Z.ltb_ge _ (m / 2 + 1))) by lia. cbn [orb].
  rewrite (decode_int_loop_ok b data n (Z.to_nat m) 0); try done; try lia.
  - rewrite bind_Ok, Z2Nat.id by lia. rewrite Z.mod_small by lia. rewrite <- Hlz. do 3 f_equal. 
  - rewrite Z2Nat.id by lia. unfold blen. lia.
  - intros j Hjk. apply Hj. lia.
  - rewrite Z2Nat.id by lia. change (2 ^ 32) with (16 ^ 8). rewrite Z.mul_1_l. apply Z.pow_le_mono_r; lia.
Qed.

(** * Tags *)

(** The bytes of a tag: seven bits in each, the lowest first, the high bit on
    all but the last. *)
Inductive tag_enc : Z -> list Z -> Prop :=
  | te_last t : 0 <= t < 128 -> tag_enc t [t]
  | te_more t l e : 0 <= l < 128 -> 0 < t -> tag_enc t e -> tag_enc (t * 128 + l) ((l + 128) :: e).

Definition seven_bits (d : Z) : bool :=
  (Z.land d 127 =? d mod 128) && (Z.land d 128 =? (if d <? 128 then 0 else 128)) &&
  (Z.lor (d mod 128) 128 =? d mod 128 + 128).

Lemma seven_bits_all : forallb seven_bits (seqZ 0 256) = true.
Proof. vm_compute. reflexivity. Qed.

Lemma seven_bits_ok d : is_byte d -> seven_bits d = true.
Proof.
  intros Hd. pose proof seven_bits_all as H. rewrite forallb_forall in H.
  apply H, list_elem_of_In, elem_of_seqZ. unfold is_byte in Hd. lia.
Qed.

Lemma tag_loop_ok fuel : forall data t, (0 < fuel)%nat -> 0 <= t < 128 ^ Z.of_nat fuel ->
  exists e, tag_loop fuel data t = Ok (data ++ e) /\ tag_enc t e /\ (1 <= length e <= fuel)%nat.
Proof.
  induction fuel as [|fuel IH]; intros data t Hf Ht; [lia|]. cbn [tag_loop].
  change 127 with (Z.ones 7). rewrite (Z.land_ones t 7) by lia. rewrite (Z.shiftr_div_pow2 t 7) by lia. change (2 ^ 7) with 128.
  pose proof (Z.mod_pos_bound t 128 ltac:(lia)) as Hlo. pose proof (Z.div_mod t 128 ltac:(lia)) as Hdm.
  pose proof (Z.div_pos t 128 ltac:(lia) ltac:(lia)).
  destruct (Z.eqb_spec (t / 128) 0) as [Hz|Hnz].
  - exists [t mod 128]. split; [done|]. split; [|simpl; lia]. replace t with (t mod 128) at 1 by lia. by constructor.
  - pose proof (seven_bits_ok (t mod 128) ltac:(unfold is_byte; lia)) as Hs. unfold seven_bits in Hs. bool_props.
    rewrite Z.mod_mod in * by lia.
    replace (Z.lor (t mod 128) 128) with (t mod 128 + 128) by congruence.
    rewrite Nat2Z.inj_succ, Z.pow_succ_r in Ht by lia.
    assert (t / 128 < 128 ^ Z.of_nat fuel) by (apply Z.div_lt_upper_bound; lia).
    destruct fuel as [|fuel]; [change (128 ^ Z.of_nat 0) with 1 in *; lia|].
    destruct (IH (data ++ [t mod 128 + 128]) (t / 128)) as (e & -> & He & Hlen); [lia|lia|].
    exists ((t mod 128 + 128) :: e). split; [by rewrite <- app_assoc|]. split; [|simpl; lia].
    replace t with (t / 128 * 128 + t mod 128) at 1 by lia. constructor; [lia|lia|done].
Qed.

Lemma tag_enc_bytes t e : tag_enc t e -> Forall is_byte e.
Proof. induction 1; constructor; try done; unfold is_byte; lia. Qed.

Lemma byte_at_head b p d e r : is_byte d -> readable b (p ++ zbytes (d :: e) ++ r) ->
  byte_at b (blen p) = Ok d.
Proof.
  intros Hd [_ Hr]. unfold blen. rewrite (Hr (length p) (byte.of_Z d)); [by rewrite unsigned_of_byte|].
  by rewrite lookup_app_r, Nat.sub_diag.
Qed.

Lemma decode_tag_loop_ok t e : tag_enc t e -> forall fuel b p r shift number,
  readable b (p ++ zbytes e ++ r) -> (length e <= fuel)%nat ->
  0 <= shift < 32 -> 0 <= number < 2 ^ shift -> t * 2 ^ shift < 2 ^ 32 ->
  decode_tag_loop fuel b (blen (p ++ zbytes e ++ r)) (blen p) shift number =
    Ok (Some (t * 2 ^ shift + number, blen p + blen e)).
Proof.
  induction 1 as [t Ht|t l e Hl Hpos He IH]; intros fuel b p r shift number Hr Hf Hs Hn Hmax;
    (destruct fuel as [|fuel]; [simpl in Hf; lia|]); cbn [decode_tag_loop];
    pose proof (blen_nonneg p); pose proof (blen_nonneg r).
  - rewrite !blen_app. change (blen (zbytes [t])) with 1. zdecide.
    rewrite (byte_at_head b p t [] r) by (done || (unfold is_byte; lia)). rewrite bind_Ok.
    pose proof (seven_bits_ok t ltac:(unfold is_byte; lia)) as Hb. unfold seven_bits in Hb. bool_props.
    zdecide. cbn [require]. rewrite bind_Ok.
    replace (Z.land t 128) with 0 by (destruct (Z.ltb_spec t 128); lia). cbn [Z.eqb].
    replace (Z.land t 127) with t by (rewrite Z.mod_small in * by lia; congruence).
    rewrite uwrap32_small by (rewrite Z.shiftl_mul_pow2 by lia; lia).
    rewrite Z.lor_comm, lor_shift by lia. done.
  - rewrite !blen_app. replace (blen (zbytes ((l + 128) :: e))) with (1 + blen (zbytes e)) by (symmetry; apply blen_cons).
    pose proof (blen_nonneg (zbytes e)). zdecide.
    rewrite (byte_at_head b p (l + 128) e r) by (done || (unfold is_byte; lia)). rewrite bind_Ok.
    pose proof (seven_bits_ok (l + 128) ltac:(unfold is_byte; lia)) as Hb. unfold seven_bits in Hb. bool_props.
    zdecide. cbn [require]. rewrite bind_Ok.
    replace (Z.land (l + 128) 128) with 128 by (destruct (Z.ltb_spec (l + 128) 128); lia). cbn [Z.eqb].
    replace (Z.land (l + 128) 127) with l.
    2:{ replace ((l + 128) mod 128) with l in * by (apply (Z.mod_unique_pos _ _ 1); lia). congruence. }
    assert (0 < 2 ^ shift) by (apply Z.pow_pos_nonneg; lia).
    rewrite uwrap32_small by (rewrite Z.shiftl_mul_pow2 by lia; nia).
    rewrite Z.lor_comm, lor_shift by lia.
    assert (Hp7 : 2 ^ (shift + 7) = 128 * 2 ^ shift) by (rewrite Z.pow_add_r by lia; lia).
    specialize (IH fuel b (p ++ [byte.of_Z (l + 128)]) r (shift + 7) (l * 2 ^ shift + number)).
    rewrite !blen_app in IH. change (blen [byte.of_Z (l + 128)]) with 1 in IH.
    assert (shift + 7 < 32).
    { apply (Z.pow_lt_mono_r_iff 2); [lia|lia|]. nia. }
    replace (blen p + (1 + blen (zbytes e) + blen r)) with (blen p + 1 + (blen (zbytes e) + blen r)) by lia.
    rewrite IH; [|by rewrite <- app_assoc|simpl in Hf; lia|lia|nia|nia].
    rewrite blen_cons, Hp7. do 3 f_equal; lia.
Qed.

Lemma decode_tag_ok b t r : 0 <= t < 2 ^ 32 ->
  exists e, tag_data t = Ok e /\ 1 <= blen e <= 5 /\
    (readable b (e ++ r) -> blen (e ++ r) <= INT_MAX -> forall dodrain,
     decode_tag_internal b dodrain =
       Ok (Some t, if dodrain then (evbuffer_drain b (blen e)).1 else b, blen e)).
Proof.
  intros Ht. destruct (tag_loop_ok 5 [] t) as (e & Hl & He & Hlen); [lia| |].
  { change (128 ^ Z.of_nat 5) with (2 ^ 35). lia. }
  exists (zbytes e). unfold tag_data. rewrite Hl. split; [done|].
  assert (Hze : blen (zbytes e) = blen e) by (unfold zbytes; apply blen_fmap).
  split; [unfold blen in *; lia|]. intros Hr Hmax dodrain. unfold decode_tag_internal.
  pose proof Hr as [Ho _]. rewrite wrap32_small by (rewrite Ho; pose proof (blen_nonneg (zbytes e ++ r)); unfold INT_MIN in *; lia).
  pose proof (decode_tag_loop_ok t e He (S (Z.to_nat (off b))) b [] r 0 0 Hr) as HL.
  cbn [app] in HL. rewrite <- Ho in HL. change (blen (@nil byte)) with 0 in HL. rewrite HL; [|rewrite Ho, blen_app; pose proof (blen_nonneg r); unfold blen in *; lia|lia|lia|lia].
  rewrite bind_Ok. rewrite Hze. change (2 ^ 0) with 1.
  rewrite Z.mul_1_r, Z.add_0_r, Z.add_0_l. done.
Qed.

(** * The bytes of an item *)

Definition ok_or {A} (d : A) (x : cres A) : A := match x with Ok a => a | UB _ => d end.
Definition int_wire (n : Z) : list byte := ok_or [] (int_data n).
Definition tag_wire (t : Z) : list byte := ok_or [] (tag_data t).

Definition no_buffer : evbuffer := mkEvbuffer None 0 0 0 0 None.

Definition uint32 (n : Z) : Prop := 0 <= n < 2 ^ 32.

Lemma int_wire_ok n : uint32 n -> int_data n = Ok (int_wire n) /\ 1 <= blen (int_wire n) <= 5.
Proof. intros Hn. destruct (decode_int_ok no_buffer n [] Hn) as (e & He & Hl & _). unfold int_wire. by rewrite He. Qed.

Lemma tag_wire_ok t : uint32 t -> tag_data t = Ok (tag_wire t) /\ 1 <= blen (tag_wire t) <= 5.
Proof. intros Ht. destruct (decode_tag_ok no_buffer t [] Ht) as (e & He & Hl & _). unfold tag_wire. by rewrite He. Qed.

Lemma decode_int_wire b n r dodrain : uint32 n -> readable b (int_wire n ++ r) -> blen (int_wire n ++ r) <= INT_MAX ->
  decode_int_internal b dodrain =
    Ok (Some n, if dodrain then (evbuffer_drain b (blen (int_wire n))).1 else b, blen (int_wire n)).
Proof.
  intros Hn. destruct (decode_int_ok b n r Hn) as (e & He & _ & Hd). unfold int_wire. rewrite He.
  intros. by apply Hd.
Qed.

Lemma decode_tag_wire b t r dodrain : uint32 t -> readable b (tag_wire t ++ r) -> blen (tag_wire t ++ r) <= INT_MAX ->
  decode_tag_internal b dodrain =
    Ok (Some t, if dodrain then (evbuffer_drain b (blen (tag_wire t))).1 else b, blen (tag_wire t)).
Proof.
  intros Ht. destruct (decode_tag_ok b t r Ht) as (e & He & _ & Hd). unfold tag_wire. rewrite He.
  intros. by apply Hd.
Qed.

Lemma drained b p r : evrep b (p ++ r) -> evrep (evbuffer_drain b (blen p)).1 r.
Proof.
  intros Hr. pose proof (evbuffer_drain_rep b _ (blen p) Hr (blen_nonneg p)) as H. by rewrite drop_blen_app in H.
Qed.

Lemma reset_buf_rep b q : evrep b q -> evrep (reset_buf b) [].
Proof.
  intros Hr. unfold reset_buf. rewrite (evrep_off _ _ Hr). apply drained. by rewrite app_nil_r.
Qed.

Lemma evtag_decode_int_rep b n r : uint32 n -> evrep b (int_wire n ++ r) -> blen (int_wire n ++ r) <= INT_MAX ->
  exists b', evtag_decode_int b = Ok (Some n, b', 0) /\ evrep b' r.
Proof.
  intros Hn Hr Hl. unfold evtag_decode_int. rewrite (decode_int_wire b n r true Hn (evrep_readable _ _ Hr) Hl), bind_Ok.
  destruct (int_wire_ok n Hn) as [_ Hw]. rewrite (proj2 (Z.eqb_neq (blen (int_wire n)) (-1))) by lia.
  eexists. split; [done|]. by apply drained.
Qed.

Lemma decode_tag_rep b t r : uint32 t -> evrep b (tag_wire t ++ r) -> blen (tag_wire t ++ r) <= INT_MAX ->
  exists b', decode_tag_internal b true = Ok (Some t, b', blen (tag_wire t)) /\ evrep b' r.
Proof.
  intros Ht Hr Hl. rewrite (decode_tag_wire b t r true Ht (evrep_readable _ _ Hr) Hl).
  eexists. split; [done|]. by apply drained.
Qed.

(** What travels under a tag. *)
Inductive payload : Type :=
  | PData (d : list byte)
  | PInt (n : Z)
  | PStr (s : list byte)
  | PTime (tv : timeval).

Definition item : Type := Z * payload.

Definition body (p : payload) : list byte :=
  match p with
  | PData d => d
  | PInt n => int_wire n
  | PStr s => s
  | PTime tv => int_wire (tv_sec tv) ++ int_wire (tv_usec tv)
  end.

Definition enclose (t : Z) (d : list byte) : list byte := tag_wire t ++ int_wire (blen d) ++ d.
Definition wire (it : item) : list byte := enclose it.1 (body it.2).
Definition wires (its : list item) : list byte := mjoin (wire <$> its).

Definition valid_payload (p : payload) : Prop :=
  match p with
  | PInt n => uint32 n
  | PTime tv => uint32 (tv_sec tv) /\ uint32 (tv_usec tv)
  | _ => True
  end.

Definition valid (it : item) : Prop := uint32 it.1 /\ valid_payload it.2.

(** [marshal] writes an item with the function for its kind; [unmarshal] reads
    one with the function for the kind and the tag expected. A string comes
    back with its terminating zero. *)
Definition marshal_item (alloc : Z -> bool) (buf b : evbuffer) (it : item) : cres (evbuffer * evbuffer) :=
  match it.2 with
  | PData d => b ← evtag_marshal alloc b it.1 d (blen d); Ok (buf, b)
  | PInt n => evtag_marshal_int alloc buf b it.1 n
  | PStr s => b ← evtag_marshal_string alloc b it.1 s; Ok (buf, b)
  | PTime tv => evtag_marshal_timeval alloc buf b it.1 tv
  end.

Fixpoint marshal_all (alloc : Z -> bool) (buf b : evbuffer) (its : list item) : cres (evbuffer * evbuffer) :=
  match its with
  | [] => Ok (buf, b)
  | it :: its => '(buf, b) ← marshal_item alloc buf b it; marshal_all alloc buf b its
  end.

Definition unmarshal_item (alloc : Z -> bool) (buf b : evbuffer) (it : item)
  : cres (option payload * evbuffer * evbuffer) :=
  match it.2 with
  | PData d => '(r, buf, b, _) ← evtag_unmarshal_fixed alloc buf b it.1 (blen d); Ok (option_map PData r, buf, b)
  | PInt _ => '(r, buf, b, _) ← evtag_unmarshal_int alloc buf b it.1; Ok (option_map PInt r, buf, b)
  | PStr _ => '(r, buf, b, _) ← evtag_unmarshal_string alloc true buf b it.1; Ok (option_map PStr r, buf, b)
  | PTime _ => '(r, buf, b, _) ← evtag_unmarshal_timeval alloc buf b it.1; Ok (option_map PTime r, buf, b)
  end.

Fixpoint unmarshal_all (alloc : Z -> bool) (buf b : evbuffer) (its : list item)
  : cres (list (option payload) * evbuffer * evbuffer) :=
  match its with
  | [] => Ok ([], buf, b)
  | it :: its =>
      '(r, buf, b) ← unmarshal_item alloc buf b it;
      '(rs, buf, b) ← unmarshal_all alloc buf b its;
      Ok (r :: rs, buf, b)
  end.

Definition as_read (p : payload) : payload :=
  match p with PStr s => PStr (s ++ [byte.of_Z 0]) | _ => p end.

(** * Writing *)

(** The allocator serves every request up to 16 GB, more than any buffer of
    [INT_MAX] bytes asks for. *)
Definition serves (alloc : Z -> bool) : Prop := forall l, l <= 2 ^ 34 -> alloc l = true.

Section tagged.
Context (alloc : Z -> bool) (Hsane : alloc_sane alloc) (Hserves : serves alloc).

Lemma add_served b q data : evrep b q -> blen q <= INT_MAX -> blen data <= INT_MAX ->
  exists b' nt, evbuffer_add alloc b data (blen data) = Ok (b', 0, nt) /\ evrep b' (q ++ data).
Proof.
  intros Hr Hq Hd. pose proof (evrep_off _ _ Hr) as Ho. unfold INT_MAX in *.
  destruct (evbuffer_add_rep alloc b q data Hsane Hr) as (b' & res & nt & -> & _ & Hres); [lia|].
  destruct Hres as [[-> Hr']|(_ & _ & _ & l & [_ Hl] & Hno)]; [eauto|].
  rewrite Hserves in Hno by lia. discriminate.
Qed.

Lemma encode_int_rep b q n : uint32 n -> evrep b q -> blen q <= INT_MAX ->
  exists b', encode_int alloc b n = Ok b' /\ evrep b' (q ++ int_wire n).
Proof.
  intros Hn Hr Hq. destruct (int_wire_ok n Hn) as [He Hl]. unfold encode_int. rewrite He, bind_Ok.
  destruct (add_served b q (int_wire n) Hr Hq) as (b' & nt & -> & Hr'); [unfold INT_MAX; lia|]. rewrite bind_Ok. eauto.
Qed.

Lemma encode_tag_rep b q t : uint32 t -> evrep b q -> blen q <= INT_MAX ->
  exists b', encode_tag alloc b t = Ok b' /\ evrep b' (q ++ tag_wire t).
Proof.
  intros Ht Hr Hq. destruct (tag_wire_ok t Ht) as [He Hl]. unfold encode_tag, evtag_encode_tag. rewrite He, bind_Ok.
  destruct (add_served b q (tag_wire t) Hr Hq) as (b' & nt & -> & Hr'); [unfold INT_MAX; lia|]. rewrite !bind_Ok. eauto.
Qed.

Lemma evtag_marshal_rep b q t d : uint32 t -> evrep b q -> blen (q ++ enclose t d) <= INT_MAX ->
  exists b', evtag_marshal alloc b t d (blen d) = Ok b' /\ evrep b' (q ++ enclose t d).
Proof.
  unfold enclose. rewrite !blen_app. intros Ht Hr Hmax. pose proof (blen_nonneg q). pose proof (blen_nonneg d).
  pose proof (blen_nonneg (tag_wire t)). pose proof (blen_nonneg (int_wire (blen d))).
  unfold evtag_marshal. destruct (encode_tag_rep b q t Ht Hr) as (b1 & -> & R1); [lia|]. rewrite bind_Ok.
  destruct (encode_int_rep b1 _ (blen d) ltac:(unfold uint32, INT_MAX in *; lia) R1) as (b2 & -> & R2);
    [rewrite !blen_app; lia|]. rewrite bind_Ok.
  destruct (add_served b2 _ d R2) as (b3 & nt & -> & R3); [rewrite !blen_app; lia|lia|]. rewrite bind_Ok.
  exists b3. split; [done|]. by rewrite <- !app_assoc in R3.
Qed.

Lemma evtag_marshal_int_rep buf qb b q t n : uint32 t -> uint32 n -> evrep buf qb -> evrep b q ->
  blen (q ++ enclose t (int_wire n)) <= INT_MAX ->
  exists buf' b', evtag_marshal_int alloc buf b t n = Ok (buf', b') /\ evrep buf' [] /\
    evrep b' (q ++ enclose t (int_wire n)).
Proof.
  unfold enclose. rewrite !blen_app. intros Ht Hn Hb Hr Hmax. pose proof (blen_nonneg q).
  destruct (tag_wire_ok t Ht) as [_ Htw]. destruct (int_wire_ok n Hn) as [_ Hnw].
  assert (Hlw : uint32 (blen (int_wire n))) by (unfold uint32; lia). destruct (int_wire_ok _ Hlw) as [_ Hiw].
  unfold evtag_marshal_int.
  destruct (encode_int_rep _ [] n Hn (reset_buf_rep _ _ Hb)) as (b1 & -> & R1); [unfold blen, INT_MAX; simpl; lia|].
  rewrite bind_Ok. cbn [app] in R1. rewrite (evrep_off _ _ R1), uwrap32_small by done.
  destruct (encode_tag_rep b q t Ht Hr) as (b2 & -> & R2); [lia|]. rewrite bind_Ok.
  destruct (encode_int_rep b2 _ _ Hlw R2) as (b3 & -> & R3); [rewrite !blen_app; lia|]. rewrite bind_Ok.
  unfold evbuffer_add_buffer. rewrite (evrep_off _ _ R3), !blen_app.
  rewrite (proj2 (Z.eqb_neq _ 0)) by lia. rewrite (evrep_get_all _ _ R1), bind_Ok, (evrep_off _ _ R1).
  destruct (add_served b3 _ (int_wire n) R3) as (b4 & nt & -> & R4); [rewrite !blen_app; lia|lia|].
  rewrite bind_Ok. cbn [Z.eqb].
  destruct (evbuffer_drain b1 (blen (int_wire n))) as [b5 n2] eqn:E5. cbn [fst].
  rewrite bind_Ok. exists b5, b4. split; [done|]. rewrite <- !app_assoc in R4. split; [|done].
  pose proof (drained b1 (int_wire n) []) as Hd. rewrite app_nil_r, E5 in Hd. by apply Hd.
Qed.

Lemma evtag_marshal_timeval_rep buf qb b q t tv : uint32 t -> uint32 (tv_sec tv) -> uint32 (tv_usec tv) ->
  evrep buf qb -> evrep b q -> blen (q ++ wire (t, PTime tv)) <= INT_MAX ->
  exists buf' b' qb', evtag_marshal_timeval alloc buf b t tv = Ok (buf', b') /\ evrep buf' qb' /\
    evrep b' (q ++ wire (t, PTime tv)).
Proof.
  intros Ht Hs Hu Hb Hr Hmax. unfold evtag_marshal_timeval. rewrite !uwrap32_small by done.
  destruct (int_wire_ok _ Hs) as [_ Hsw]. destruct (int_wire_ok _ Hu) as [_ Huw].
  destruct (encode_int_rep _ [] _ Hs (reset_buf_rep _ _ Hb)) as (b1 & -> & R1); [unfold blen, INT_MAX; simpl; lia|].
  rewrite bind_Ok. cbn [app] in R1.
  destruct (encode_int_rep b1 _ _ Hu R1) as (b2 & -> & R2); [unfold INT_MAX; lia|]. rewrite bind_Ok.
  rewrite (evrep_get_all _ _ R2), bind_Ok, (evrep_off _ _ R2), uwrap32_small by (rewrite blen_app; lia).
  destruct (evtag_marshal_rep b q t _ Ht Hr Hmax) as (b3 & Hm & R3). cbn [snd body] in Hm. rewrite Hm, bind_Ok. eauto 7.
Qed.

Lemma marshal_item_rep buf qb b q it : valid it -> evrep buf qb -> evrep b q -> blen (q ++ wire it) <= INT_MAX ->
  exists buf' b' qb', marshal_item alloc buf b it = Ok (buf', b') /\ evrep buf' qb' /\ evrep b' (q ++ wire it).
Proof.
  destruct it as [t [d|n|s|tv]]; intros [Ht Hp] Hb Hr Hmax; cbn [marshal_item fst snd] in *.
  - destruct (evtag_marshal_rep b q t d Ht Hr Hmax) as (b' & -> & H'). rewrite bind_Ok. eauto 7.
  - destruct (evtag_marshal_int_rep buf qb b q t n Ht Hp Hb Hr Hmax) as (buf' & b' & -> & Hb' & H'). eauto 7.
  - unfold evtag_marshal_string. rewrite uwrap32_small.
    2:{ unfold wire, enclose in Hmax. cbn [fst snd body] in Hmax. rewrite !blen_app in Hmax.
        pose proof (blen_nonneg q). pose proof (blen_nonneg s). pose proof (blen_nonneg (tag_wire t)).
        pose proof (blen_nonneg (int_wire (blen s))). unfold INT_MAX in *. lia. }
    destruct (evtag_marshal_rep b q t s Ht Hr Hmax) as (b' & -> & H'). rewrite bind_Ok. eauto 7.
  - destruct Hp as [Hs Hu]. apply (evtag_marshal_timeval_rep buf qb b q t tv); done.
Qed.

Lemma wires_cons it its : wires (it :: its) = wire it ++ wires its.
Proof. done. Qed.

Lemma marshal_all_rep its : forall buf qb b q, Forall valid its -> evrep buf qb -> evrep b q ->
  blen (q ++ wires its) <= INT_MAX ->
  exists buf' b' qb', marshal_all alloc buf b its = Ok (buf', b') /\ evrep buf' qb' /\ evrep b' (q ++ wires its).
Proof.
  induction its as [|it its IH]; intros buf qb b q Hv Hb Hr Hmax.
  - exists buf, b, qb. split; [done|]. split; [done|]. change (wires []) with (@nil byte). by rewrite app_nil_r.
  - inversion_clear Hv as [|? ? Hi Hv']. rewrite wires_cons, app_assoc in *. cbn [marshal_all].
    destruct (marshal_item_rep buf qb b q it Hi Hb Hr) as (buf1 & b1 & qb1 & -> & Hb1 & R1).
    { rewrite blen_app in Hmax. pose proof (blen_nonneg (wires its)). lia. }
    rewrite bind_Ok. by apply (IH buf1 qb1 b1).
Qed.

(** * Reading *)

Lemma evtag_unmarshal_rep src dst q t d r : uint32 t -> evrep src (enclose t d ++ r) -> evrep dst q ->
  blen (enclose t d ++ r) <= INT_MAX -> blen q <= INT_MAX ->
  exists src' dst', evtag_unmarshal alloc src dst = Ok (Some t, src', dst', blen d) /\
    evrep src' r /\ evrep dst' (q ++ d).
Proof.
  unfold enclose. rewrite <- !app_assoc. intros Ht Hs Hd Hmax Hq.
  pose proof Hmax as Hmax'. rewrite !blen_app in Hmax'. destruct (tag_wire_ok t Ht) as [_ Htw].
  pose proof (blen_nonneg d). pose proof (blen_nonneg r). pose proof (blen_nonneg (int_wire (blen d))).
  unfold evtag_unmarshal. destruct (decode_tag_rep src t _ Ht Hs Hmax) as (s1 & -> & R1). rewrite bind_Ok.
  rewrite (proj2 (Z.eqb_neq (blen (tag_wire t)) (-1))) by lia.
  destruct (evtag_decode_int_rep s1 (blen d) _ ltac:(unfold uint32, INT_MAX in *; lia) R1) as (s2 & -> & R2);
    [rewrite !blen_app; lia|]. rewrite bind_Ok. cbn [Z.eqb of_option]. rewrite bind_Ok.
  rewrite (evrep_off _ _ R2), blen_app, (proj2 (Z.ltb_ge _ (blen d))) by lia.
  rewrite (evrep_get s2 _ (blen d) R2) by (rewrite (evrep_off _ _ R2), blen_app; lia). rewrite bind_Ok, take_blen_app.
  destruct (add_served dst q d Hd) as (d1 & nt & -> & R3); [lia|lia|]. rewrite bind_Ok. cbn [Z.eqb].
  rewrite wrap32_small by (unfold INT_MIN; lia). do 2 eexists. split; [done|]. split; [by apply drained|done].
Qed.

Lemma unmarshal_tagged_rep buf qb src t d r : uint32 t -> evrep buf qb -> evrep src (enclose t d ++ r) ->
  blen (enclose t d ++ r) <= INT_MAX ->
  exists buf' src', unmarshal_tagged alloc buf src t = Ok (buf', src', true) /\ evrep buf' d /\ evrep src' r.
Proof.
  intros Ht Hb Hs Hmax. unfold unmarshal_tagged.
  destruct (evtag_unmarshal_rep src (reset_buf buf) [] t d r Ht Hs (reset_buf_rep _ _ Hb) Hmax)
    as (s1 & b1 & -> & R1 & R2); [unfold INT_MAX; unfold blen; simpl; lia|].
  rewrite bind_Ok, bool_decide_true by done. pose proof (blen_nonneg d).
  rewrite (proj2 (Z.eqb_neq (blen d) (-1))) by lia. eauto.
Qed.

Lemma evtag_unmarshal_int_rep buf qb b t n r : uint32 t -> uint32 n -> evrep buf qb ->
  evrep b (enclose t (int_wire n) ++ r) -> blen (enclose t (int_wire n) ++ r) <= INT_MAX ->
  exists buf' b', evtag_unmarshal_int alloc buf b t = Ok (Some n, buf', b', 0) /\ evrep buf' [] /\ evrep b' r.
Proof.
  intros Ht Hp Hb Hr Hmax. unfold evtag_unmarshal_int, enclose in *. rewrite <- !app_assoc in *.
  destruct (tag_wire_ok t Ht) as [_ Htw]. destruct (int_wire_ok n Hp) as [_ Hnw]. pose proof (blen_nonneg r).
  destruct (decode_tag_rep b t _ Ht Hr Hmax) as (b1 & -> & R1). rewrite !bind_Ok.
  rewrite (proj2 (Z.eqb_neq (blen (tag_wire t)) (-1))), bool_decide_true by (done || lia). cbn [negb].
  rewrite !blen_app in Hmax.
  destruct (evtag_decode_int_rep b1 (blen (int_wire n)) _ ltac:(unfold uint32; lia) R1) as (b2 & -> & R2);
    [rewrite !blen_app; lia|]. rewrite !bind_Ok. cbn [Z.eqb of_option]. rewrite !bind_Ok.
  pose proof (blen_nonneg (int_wire (blen (int_wire n)))).
  rewrite (evrep_off _ _ R2), blen_app, (proj2 (Z.ltb_ge _ (blen (int_wire n)))) by lia.
  rewrite (evrep_get b2 _ (blen (int_wire n)) R2) by (rewrite (evrep_off _ _ R2), blen_app; lia).
  rewrite !bind_Ok, take_blen_app.
  destruct (add_served _ [] (int_wire n) (reset_buf_rep _ _ Hb)) as (b3 & nt & -> & R3);
    [unfold blen, INT_MAX; simpl; lia|lia|]. rewrite !bind_Ok. cbn [Z.eqb app] in *.
  destruct (evtag_decode_int_rep b3 n [] Hp) as (b4 & -> & R4); [by rewrite app_nil_r|rewrite app_nil_r; lia|].
  rewrite !bind_Ok. do 2 eexists. split; [done|]. split; [exact R4|]. by apply drained.
Qed.

Lemma unmarshal_item_rep buf qb b it r : valid it -> evrep buf qb -> evrep b (wire it ++ r) ->
  blen (wire it ++ r) <= INT_MAX ->
  exists buf' b' qb', unmarshal_item alloc buf b it = Ok (Some (as_read it.2), buf', b') /\
    evrep buf' qb' /\ evrep b' r.
Proof.
  destruct it as [t p]. intros [Ht Hp] Hb Hr Hmax. cbn [fst snd] in *.
  assert (Hbody : blen (body p) <= INT_MAX).
  { unfold wire, enclose in Hmax. cbn [fst snd] in Hmax. rewrite !blen_app in Hmax. pose proof (blen_nonneg r).
    pose proof (blen_nonneg (tag_wire t)). pose proof (blen_nonneg (int_wire (blen (body p)))). lia. }
  assert (Hx := unmarshal_tagged_rep buf qb b t (body p) r Ht Hb Hr Hmax).
  destruct p as [d|n|s|tv]; unfold unmarshal_item; cbn [fst snd as_read body] in *.
  - destruct Hx as (buf1 & b1 & Hu & R1 & R2). unfold evtag_unmarshal_fixed. rewrite Hu, bind_Ok. cbn [negb].
    rewrite (evrep_off _ _ R1), Z.eqb_refl. cbn [negb]. rewrite <- (evrep_off _ _ R1), (evrep_get_all _ _ R1), !bind_Ok. eauto 7.
  - destruct (evtag_unmarshal_int_rep buf qb b t n r Ht Hp Hb Hr Hmax) as (buf1 & b1 & -> & R1 & R2).
    rewrite bind_Ok. eauto 7.
  - destruct Hx as (buf1 & b1 & Hu & R1 & R2). unfold evtag_unmarshal_string. rewrite Hu, bind_Ok. cbn [negb require].
    rewrite !bind_Ok, (evrep_off _ _ R1).
    destruct (evbuffer_remove_rep buf1 s (blen s) R1 (blen_nonneg s)) as (b2 & nt & -> & R3 & _); [lia|].
    rewrite !bind_Ok. unfold blen at 1. rewrite Nat2Z.id, take_ge by lia. eauto 7.
  - destruct Hp as [Hs Hu]. destruct Hx as (buf1 & b1 & Hx & R1 & R2). unfold evtag_unmarshal_timeval.
    rewrite Hx, bind_Ok. cbn [negb]. rewrite blen_app in Hbody. pose proof (blen_nonneg (int_wire (tv_sec tv))).
    destruct (evtag_decode_int_rep buf1 (tv_sec tv) _ Hs R1) as (b2 & -> & R3); [rewrite blen_app; lia|].
    rewrite !bind_Ok. cbn [Z.eqb].
    destruct (evtag_decode_int_rep b2 (tv_usec tv) [] Hu) as (b3 & -> & R4); [by rewrite app_nil_r|rewrite app_nil_r; lia|].
    rewrite !bind_Ok. cbn [Z.eqb of_option]. rewrite !bind_Ok. destruct tv as [sec usec]. eauto 7.
Qed.

Lemma unmarshal_all_rep its : forall buf qb b r, Forall valid its -> evrep buf qb -> evrep b (wires its ++ r) ->
  blen (wires its ++ r) <= INT_MAX ->
  exists buf' b' qb', unmarshal_all alloc buf b its = Ok (Some ∘ as_read ∘ snd <$> its, buf', b') /\
    evrep buf' qb' /\ evrep b' r.
Proof.
  induction its as [|it its IH]; intros buf qb b r Hv Hb Hr Hmax; [by exists buf, b, qb|].
  inversion_clear Hv as [|? ? Hi Hv']. rewrite wires_cons, <- app_assoc in *. cbn [unmarshal_all].
  destruct (unmarshal_item_rep buf qb b it _ Hi Hb Hr Hmax) as (buf1 & b1 & qb1 & -> & Hb1 & R1). rewrite bind_Ok.
  destruct (IH buf1 qb1 b1 r Hv' Hb1 R1) as (buf2 & b2 & qb2 & -> & Hb2 & R2).
  { rewrite blen_app in Hmax. pose proof (blen_nonneg (wire it)). lia. }
  rewrite bind_Ok. eauto 7.
Qed.
End tagged.

(** * Any bytes *)

Definition last_of_tag (c : byte) : bool := byte.unsigned c <? 128.

(** The tag that begins the bytes ends, or the bytes do, within five bytes. *)
Definition short_tag (q : list byte) : bool :=
  match scan last_of_tag q with Some i => i <? 5 | None => blen q <=? 5 end.

(** What the loop makes of the bytes [r] behind the bytes [p] it has read. *)
Definition tag_outcome (p r : list byte) (res : cres (option (Z * Z))) : Prop :=
  match scan last_of_tag r with
  | Some i => if blen p + i <? 5 then exists n, res = Ok (Some (n, blen p + i + 1)) else res = UB SignedOverflow
  | None => res = if blen p + blen r <=? 5 then Ok None else UB SignedOverflow
  end.

Lemma scan_nonneg P q i : scan P q = Some i -> 0 <= i < blen q.
Proof.
  intros (l & c & r & -> & <- & _)%scan_Some. rewrite blen_app, blen_cons.
  pose proof (blen_nonneg l). pose proof (blen_nonneg r). lia.
Qed.

Lemma decode_tag_any r : forall p b fuel number, readable b (p ++ r) -> blen p <= 5 -> (length r < fuel)%nat ->
  tag_outcome p r (decode_tag_loop fuel b (blen (p ++ r)) (blen p) (7 * blen p) number).
Proof.
  induction r as [|c r IH]; intros p b fuel number Hr Hp Hf; (destruct fuel as [|fuel]; [simpl in Hf; lia|]);
    unfold tag_outcome; cbn [scan decode_tag_loop].
  { rewrite blen_app, blen_nil, Z.add_0_r, Z.ltb_irrefl. by zdecide. }
  rewrite !blen_app, !blen_cons. pose proof (blen_nonneg r). pose proof (blen_nonneg p).
  rewrite (proj2 (Z.ltb_lt (blen p) _)) by lia.
  assert (Hc : byte_at b (blen p) = Ok (byte.unsigned c)).
  { destruct Hr as [_ Hr]. apply Hr. by rewrite lookup_app_r, Nat.sub_diag. }
  rewrite Hc, bind_Ok. pose proof (seven_bits_ok _ (is_byte_unsigned c)) as Hs. unfold seven_bits in Hs. bool_props.
  destruct (decide (blen p = 5)) as [H5|H5].
  { rewrite H5. change (7 * 5 <? 32) with false. cbn [require]. rewrite bind_UB. unfold last_of_tag at 1.
    destruct (byte.unsigned c <? 128); [done|]. destruct (scan last_of_tag r) as [i|] eqn:Es.
    - pose proof (scan_nonneg _ _ _ Es). cbn [fmap option_fmap option_map].
      by rewrite (proj2 (Z.ltb_ge (5 + Z.succ i) 5)) by lia.
    - cbn [fmap option_fmap option_map]. by rewrite (proj2 (Z.leb_gt (5 + (1 + blen r)) 5)) by lia. }
  rewrite (proj2 (Z.ltb_lt (7 * blen p) 32)) by lia. cbn [require]. rewrite bind_Ok.
  unfold last_of_tag at 1. destruct (byte.unsigned c <? 128).
  - replace (Z.land (byte.unsigned c) 128) with 0 by congruence. cbn [Z.eqb].
    rewrite Z.add_0_r, (proj2 (Z.ltb_lt (blen p) 5)) by lia. eauto.
  - replace (Z.land (byte.unsigned c) 128) with 128 by congruence. cbn [Z.eqb].
    set (n' := Z.lor number _). specialize (IH (p ++ [c]) b fuel n').
    rewrite <- app_assoc in IH. cbn [app] in IH. unfold tag_outcome in IH.
    rewrite !blen_app in IH. change (blen [c]) with 1 in IH. rewrite ?blen_cons in IH.
    replace (7 * blen p + 7) with (7 * (blen p + 1)) by lia.
    specialize (IH Hr ltac:(lia) ltac:(simpl in Hf; lia)).
    destruct (scan last_of_tag r) as [i|]; cbn [fmap option_fmap option_map].
    + by replace (blen p + Z.succ i) with (blen p + 1 + i) by lia.
    + rewrite IH. by replace (blen p + (1 + blen r)) with (blen p + 1 + blen r) by lia.
Qed.

Lemma decode_tag_internal_any b q dodrain : readable b q -> blen q <= INT_MAX ->
  if short_tag q then
    decode_tag_internal b dodrain = Ok (None, b, -1) \/
    exists n l, decode_tag_internal b dodrain = Ok (Some n, if dodrain then (evbuffer_drain b l).1 else b, l) /\
      1 <= l <= blen q
  else decode_tag_internal b dodrain = UB SignedOverflow.
Proof.
  intros Hr Hq. pose proof (blen_nonneg q). pose proof (proj1 Hr) as Ho.
  pose proof (decode_tag_any q [] b (S (Z.to_nat (off b))) 0 Hr) as HL. unfold tag_outcome in HL.
  change (blen (@nil byte)) with 0 in HL. rewrite Z.mul_0_r in HL. cbn [app] in HL.
  unfold short_tag, decode_tag_internal. rewrite Ho in *.
  rewrite wrap32_small by (unfold INT_MIN; lia).
  specialize (HL ltac:(lia) ltac:(unfold blen; lia)). destruct (scan last_of_tag q) as [i|] eqn:Es.
  - pose proof (scan_nonneg _ _ _ Es). rewrite Z.add_0_l in HL.
    destruct (i <? 5); [|by rewrite HL]. destruct HL as [n ->]. rewrite bind_Ok. right. eexists _, _. split; [done|lia].
  - rewrite HL. rewrite Z.add_0_l. destruct (blen q <=? 5); [by left|done].
Qed.

Lemma decode_int_loop_any b q k : forall acc, readable b q -> Z.of_nat k / 2 < blen q -> 0 <= acc ->
  exists n, decode_int_loop k b acc = Ok n /\ 0 <= n.
Proof.
  induction k as [|k IH]; intros acc Hr Hk Ha; [eexists; split; [done|lia]|]. cbn [decode_int_loop].
  assert (0 <= Z.of_nat (S k) / 2) by (apply Z.div_pos; lia).
  rewrite (Z.shiftr_div_pow2 _ 1) by lia. change (2 ^ 1) with 2. unfold blen in Hk.
  destruct (readable_at b q (Z.to_nat (Z.of_nat (S k) / 2)) Hr ltac:(lia)) as (c & _ & Hc).
  rewrite Z2Nat.id in Hc by lia. rewrite Hc, bind_Ok. pose proof (byte.unsigned_range c).
  apply (IH _ Hr).
  - eapply Z.le_lt_trans; [|exact Hk]. apply Z.div_le_mono; lia.
  - apply Z.lor_nonneg. split; [apply uwrap32_range|].
    destruct (Nat.odd (S k)); [|apply Z.shiftr_nonneg]; apply Z.land_nonneg; lia.
Qed.

Lemma decode_int_internal_any b q dodrain : readable b q -> blen q <= INT_MAX ->
  decode_int_internal b dodrain = Ok (None, b, -1) \/
  exists n l, decode_int_internal b dodrain = Ok (Some n, if dodrain then (evbuffer_drain b l).1 else b, l) /\
    1 <= l <= blen q /\ 0 <= n.
Proof.
  intros Hr Hq. pose proof (blen_nonneg q). pose proof (proj1 Hr) as Ho. unfold decode_int_internal.
  rewrite Ho, wrap32_small by (unfold INT_MIN; lia). destruct (Z.eqb_spec (blen q) 0); [by left|].
  destruct (readable_at b q 0 Hr ltac:(unfold blen in *; lia)) as (c & _ & Hc). change (Z.of_nat 0) with 0 in Hc.
  rewrite Hc, bind_Ok. set (m := Z.shiftr (Z.land (byte.unsigned c) 240) 4 + 1).
  assert (Hm : 1 <= m).
  { assert (0 <= Z.shiftr (Z.land (byte.unsigned c) 240) 4); [|lia].
    apply Z.shiftr_nonneg, Z.land_nonneg. lia. }
  rewrite (Z.shiftr_div_pow2 m 1) by lia. change (2 ^ 1) with 2. rewrite !Z.gtb_ltb.
  destruct (Z.ltb_spec 8 m); [by left|]. destruct (Z.ltb_spec (blen q) (m / 2 + 1)); [by left|]. cbn [orb].
  assert (0 <= m / 2) by (apply Z.div_pos; lia).
  destruct (decode_int_loop_any b q (Z.to_nat m) 0 Hr) as (n' & -> & Hn); [rewrite Z2Nat.id by lia; lia|lia|].
  rewrite bind_Ok. right. eexists _, _. split; [done|]. split; [lia|done].
Qed.

(** * Properties *)

(** C32: items of every kind ([evtag_marshal], [evtag_marshal_int],
    [evtag_marshal_string], [evtag_marshal_timeval]) written one after the
    other to an empty buffer are all stored, as the concatenation of their
    encodings, and the matching calls ([evtag_unmarshal_fixed],
    [evtag_unmarshal_int], [evtag_unmarshal_string], [evtag_unmarshal_timeval])
    read every one of them back, in order, and leave the buffer empty. Tags,
    integers and both fields of a time are 32-bit numbers, the whole stream
    fits an [int] and the allocator does not refuse. The fifth byte of a tag of
    2^31 or more is shifted into the sign bit of an [int], which is taken as the
    32-bit result. *)
Theorem tagged_stream_roundtrip (alloc : Z -> bool) (buf b : evbuffer) (qb : list byte) (its : list item) :
  alloc_sane alloc -> serves alloc -> evrep buf qb -> evrep b [] -> Forall valid its -> blen (wires its) <= INT_MAX ->
  exists buf1 b1 buf2 b2,
    marshal_all alloc buf b its = Ok (buf1, b1) /\ evrep b1 (wires its) /\
    unmarshal_all alloc buf1 b1 its = Ok (Some ∘ as_read ∘ snd <$> its, buf2, b2) /\ evrep b2 [].
Proof.
  intros Hs Ha Hb Hr Hv Hmax.
  destruct (marshal_all_rep alloc Hs Ha its buf qb b [] Hv Hb Hr Hmax) as (buf1 & b1 & qb1 & Hm & Hb1 & R1).
  destruct (unmarshal_all_rep alloc Hs Ha its buf1 qb1 b1 [] Hv Hb1) as (buf2 & b2 & qb2 & Hu & _ & R2);
    [by rewrite app_nil_r|by rewrite app_nil_r|].
  by exists buf1, b1, buf2, b2.
Qed.

Definition demo_serves (l : Z) : bool := l <=? 2 ^ 40.

Lemma demo_serves_ok : alloc_sane demo_serves /\ serves demo_serves.
Proof.
  split; intros n Hn; unfold demo_serves, PTRDIFF_MAX in *; [apply Z.leb_le in Hn|apply Z.leb_le]; lia.
Qed.

Definition demo_items : list item :=
  [(1, PInt 0); (300, PInt 4294967295); (4294967295, PStr (zbytes [104; 105]));
   (0, PTime (mkTv 1700000000 999999)); (7, PData [])].

Lemma demo_items_valid : Forall valid demo_items.
Proof. repeat constructor; cbn; lia. Qed.

Lemma no_buffer_rep : evrep no_buffer [].
Proof. by apply evrep_new. Qed.

Lemma tagged_stream_roundtrip_witness :
  exists buf1 b1 buf2 b2,
    marshal_all demo_serves no_buffer no_buffer demo_items = Ok (buf1, b1) /\ evrep b1 (wires demo_items) /\
    unmarshal_all demo_serves buf1 b1 demo_items = Ok (Some ∘ as_read ∘ snd <$> demo_items, buf2, b2) /\ evrep b2 [].
Proof.
  apply (tagged_stream_roundtrip demo_serves no_buffer no_buffer [] demo_items).
  - apply demo_serves_ok.
  - apply demo_serves_ok.
  - apply no_buffer_rep.
  - apply no_buffer_rep.
  - apply demo_items_valid.
  - vm_compute. discriminate.
Defined.

(** With an item at the front of a buffer, [evtag_peek] gives its tag,
    [evtag_payload_length] the length of its payload, [evtag_peek_length] the
    length of the whole item, none of which changes the buffer, and
    [evtag_consume] removes exactly the item. *)
Theorem tagged_item_measured (b : evbuffer) (it : item) (r : list byte) :
  valid it -> evrep b (wire it ++ r) -> blen (wire it ++ r) <= INT_MAX ->
  evtag_peek b = Ok (Some it.1, b, blen (tag_wire it.1)) /\
  evtag_payload_length b = Ok (Some (blen (body it.2)), 0) /\
  evtag_peek_length b = Ok (Some (blen (wire it)), 0) /\
  exists b', evtag_consume b = Ok (b', 0) /\ evrep b' r.
Proof.
  destruct it as [t p]. intros [Ht _] Hr Hmax. unfold wire, enclose in *. cbn [fst snd] in *.
  rewrite <- !app_assoc in *. set (d := body p) in *. destruct (tag_wire_ok t Ht) as [_ Htw].
  pose proof (evrep_readable _ _ Hr) as Hrd. pose proof Hmax as Hmax'. rewrite !blen_app in Hmax'.
  pose proof (blen_nonneg d). pose proof (blen_nonneg r). pose proof (blen_nonneg (int_wire (blen d))).
  assert (Hn : uint32 (blen d)) by (unfold uint32, INT_MAX in *; lia). destruct (int_wire_ok _ Hn) as [_ Hiw].
  assert (Hl2 : blen (int_wire (blen d) ++ d ++ r) <= INT_MAX) by (rewrite !blen_app; lia).
  pose proof (decode_tag_wire b t _ false Ht Hrd Hmax) as Htag.
  pose proof (decode_int_wire _ (blen d) _ false Hn (readable_behind _ _ _ Hrd) Hl2) as Hint.
  assert (Hne : forall z, 1 <= z -> (z =? -1) = false) by (intros; apply Z.eqb_neq; lia).
  split; [exact Htag|]. unfold evtag_payload_length, evtag_peek_length, evtag_consume.
  rewrite Htag, !bind_Ok, (Hne (blen (tag_wire t))) by lia. rewrite Hint, !bind_Ok, (Hne (blen (int_wire (blen d)))) by lia.
  split; [done|]. split.
  { cbn [option_map]. rewrite uwrap32_small by (unfold INT_MAX in *; lia). rewrite !blen_app. do 3 f_equal. lia. }
  destruct (decode_tag_rep b t _ Ht Hr Hmax) as (b1 & -> & R1). rewrite bind_Ok, (Hne (blen (tag_wire t))) by lia.
  destruct (evtag_decode_int_rep b1 _ _ Hn R1 Hl2) as (b2 & -> & R2). rewrite bind_Ok. cbn [Z.eqb of_option].
  rewrite bind_Ok. eexists. split; [done|]. by apply drained.
Qed.

Definition demo_item : item := (300, PInt 4294967295).

Lemma tagged_item_measured_witness :
  exists b, evrep b (wire demo_item ++ zbytes [9; 9]) /\
    evtag_peek_length b = Ok (Some 8, 0) /\ exists b', evtag_consume b = Ok (b', 0) /\ evrep b' (zbytes [9; 9]).
Proof.
  destruct demo_serves_ok as [Hs Ha].
  destruct (add_served demo_serves Hs Ha no_buffer [] (wire demo_item ++ zbytes [9; 9]) no_buffer_rep) as (b & nt & _ & Hb);
    [vm_compute; discriminate|vm_compute; discriminate|].
  exists b. split; [exact Hb|].
  destruct (tagged_item_measured b demo_item (zbytes [9; 9])) as (_ & _ & Hl & Hc).
  - split; cbn; unfold uint32; lia.
  - exact Hb.
  - vm_compute. discriminate.
  - split; [|exact Hc]. rewrite Hl. vm_compute. reflexivity.
Defined.

(** What [evtag_unmarshal] does with the bytes [q] of the source and a
    destination that holds [p]: it fails without touching the destination, or
    takes a payload from behind some header bytes to the destination. *)
Definition unmarshal_outcome (q p : list byte) (res : cres (option Z * evbuffer * evbuffer * Z)) : Prop :=
  exists tag src dst n, res = Ok (tag, src, dst, n) /\
    (n = -1 /\ evrep dst p /\ (exists hdr rest, q = hdr ++ rest /\ evrep src rest) \/
     exists hdr d rest, q = hdr ++ d ++ rest /\ n = blen d /\ tag <> None /\ evrep src rest /\ evrep dst (p ++ d)).

Lemma split_drain b q l : evrep b q -> 0 <= l <= blen q ->
  exists hdr rest, q = hdr ++ rest /\ evrep (evbuffer_drain b l).1 rest.
Proof.
  intros Hr Hl. exists (take (Z.to_nat l) q), (drop (Z.to_nat l) q). split; [by rewrite take_drop|].
  apply evbuffer_drain_rep; [done|lia].
Qed.

Lemma evtag_unmarshal_any alloc src dst q p : alloc_sane alloc -> evrep src q -> evrep dst p -> blen q <= INT_MAX ->
  if short_tag q then unmarshal_outcome q p (evtag_unmarshal alloc src dst)
  else evtag_unmarshal alloc src dst = UB SignedOverflow.
Proof.
  intros Hs Hr Hd Hq. pose proof (decode_tag_internal_any src q true (evrep_readable _ _ Hr) Hq) as Ht.
  unfold evtag_unmarshal. destruct (short_tag q); [|by rewrite Ht].
  destruct Ht as [->|(t & l & -> & Hl)]; rewrite bind_Ok.
  { cbn [Z.eqb]. unfold unmarshal_outcome. do 4 eexists. split; [done|]. left. split; [done|]. split; [done|]. by exists [], q. }
  rewrite (proj2 (Z.eqb_neq l (-1))) by lia. destruct (split_drain src q l Hr) as (h1 & q1 & -> & R1); [lia|].
  rewrite blen_app in Hq. pose proof (blen_nonneg h1). unfold evtag_decode_int.
  assert (Hfail : forall tag s h rest, q1 = h ++ rest -> evrep s rest ->
    unmarshal_outcome (h1 ++ q1) p (Ok (tag, s, dst, -1))).
  { intros tag s h rest -> Hrest. do 4 eexists. split; [done|]. left. split; [done|]. split; [done|].
    exists (h1 ++ h), rest. by rewrite app_assoc. }
  destruct (decode_int_internal_any _ q1 true (evrep_readable _ _ R1)) as [->|(n & k & -> & Hk & Hn)]; [lia| |];
    rewrite !bind_Ok.
  { cbn [Z.eqb]. by apply (Hfail _ _ [] q1). }
  rewrite (proj2 (Z.eqb_neq k (-1))) by lia. cbn [Z.eqb of_option]. rewrite bind_Ok.
  destruct (split_drain _ q1 k R1) as (h2 & q2 & -> & R2); [lia|].
  rewrite (evrep_off _ _ R2). destruct (Z.ltb_spec (blen q2) n); [by apply (Hfail _ _ h2 q2)|].
  rewrite (evrep_get _ _ n R2) by (rewrite (evrep_off _ _ R2); lia). rewrite bind_Ok. rewrite blen_app in Hq.
  pose proof (blen_nonneg h2). assert (Hbt : blen (take (Z.to_nat n) q2) = n) by (apply blen_take; lia).
  destruct (evbuffer_add_rep alloc dst p (take (Z.to_nat n) q2) Hs Hd) as (d' & res & nt & Hadd & _ & Hres);
    [unfold INT_MAX in *; lia|]. rewrite Hbt in Hadd. rewrite Hadd, bind_Ok.
  destruct Hres as [[-> Hd']|(-> & Hd' & _)].
  - cbn [Z.eqb]. rewrite wrap32_small by (unfold INT_MIN in *; lia). do 4 eexists. split; [done|]. right.
    exists (h1 ++ h2), (take (Z.to_nat n) q2), (drop (Z.to_nat n) q2).
    split; [by rewrite take_drop, <- app_assoc|]. split; [by rewrite Hbt|]. split; [done|]. split; [|done].
    apply evbuffer_drain_rep; [done|lia].
  - cbn [Z.eqb]. do 4 eexists. split; [done|]. left. split; [done|]. split; [done|].
    exists (h1 ++ h2), q2. by rewrite <- app_assoc.
Qed.

(** On any bytes, whatever the allocator answers, [evtag_unmarshal] returns:
    it either fails and leaves the destination as it was, or moves exactly a
    payload of the length announced; it reads nothing beyond the buffer. The
    one exception is a tag that goes on past its fifth byte, where the code
    shifts a 32-bit integer by 35 bits, which is undefined. *)
Theorem evtag_unmarshal_on_any_bytes (alloc : Z -> bool) (src dst : evbuffer) (q p : list byte) :
  alloc_sane alloc -> evrep src q -> evrep dst p -> blen q <= INT_MAX ->
  if short_tag q then unmarshal_outcome q p (evtag_unmarshal alloc src dst)
  else evtag_unmarshal alloc src dst = UB SignedOverflow.
Proof. apply evtag_unmarshal_any. Qed.

Lemma evtag_unmarshal_on_any_bytes_witness :
  exists src, evrep src (zbytes [128; 128; 128; 128; 128; 128]) /\
    evtag_unmarshal demo_serves src no_buffer = UB SignedOverflow.
Proof.
  destruct demo_serves_ok as [Hs Ha].
  destruct (add_served demo_serves Hs Ha no_buffer [] (zbytes [128; 128; 128; 128; 128; 128]) no_buffer_rep) as (b & nt & _ & Hb);
    [vm_compute; discriminate|vm_compute; discriminate|].
  exists b. split; [exact Hb|].
  apply (evtag_unmarshal_on_any_bytes demo_serves b no_buffer (zbytes [128; 128; 128; 128; 128; 128]) []).
  - exact Hs.
  - exact Hb.
  - exact no_buffer_rep.
  - vm_compute. discriminate.
Defined.
