(* ===== verification/Dns.v ===== *)
(** DNS messages: the part of libevent's [evdns.c] that reads and writes them.
    A client's question is written by [evdns_request_data_build] and read by a
    server's [request_parse]; the server collects resource records and writes
    them with [evdns_server_request_format_response]; the client reads them with
    [reply_parse]. Names are compressed with a table of the labels written so
    far. *)
From S2P Require Import Prelude.

(** * Bytes of a message *)

(** [htons], [htonl] and their inverses, with the copy from or to the message. *)
Definition be_bytes (n : nat) (x : Z) : list byte := rev (le_split n x).
Definition be_value (bs : list byte) : Z := le_combine (rev bs).

Definition HOST_NAME_LEN : Z := 256.
Definition MAX_ADDRS : Z := 32.
Definition TYPE_A : Z := 1.
Definition TYPE_CNAME : Z := 5.
Definition TYPE_PTR : Z := 12.
Definition TYPE_AAAA : Z := 28.
Definition CLASS_INET : Z := 1.

Definition dot : byte := Byte.x2e.

(** The string up to its terminator. *)
Fixpoint c_string (s : list byte) : list byte :=
  match s with
  | [] => []
  | b :: s => if decide (b = Byte.x00) then [] else b :: c_string s
  end.

(** Leaving a statement: to the next one, [goto err], or a [return] with a
    negative result. *)
Inductive exit (A : Type) : Type :=
| Next (a : A)
| GotoErr
| Return (r : Z).
Arguments Next {A} a.
Arguments GotoErr {A}.
Arguments Return {A} r.

Definition pm (A : Type) : Type := cres (exit A).

#[export] Instance pm_ret : MRet pm := fun A a => Ok (Next a).
#[export] Instance pm_bind : MBind pm := fun A B k m =>
  match m with
  | UB f => UB f
  | Ok (Next a) => k a
  | Ok GotoErr => Ok GotoErr
  | Ok (Return r) => Ok (Return r)
  end.

Definition goto_err {A} : pm A := Ok GotoErr.
Definition return_fail {A} : pm A := Ok (Return (-1)).
Definition plift {A} (m : cres A) : pm A := match m with Ok a => Ok (Next a) | UB f => UB f end.

(** [GET8], [GET16] and [GET32]. *)
Definition get_field (n : nat) (packet : list cell) (length j : Z) : pm (Z * Z) :=
  if j + Z.of_nat n >? length then goto_err
  else bs ← plift (load packet j (Z.of_nat n)); mret (be_value bs, j + Z.of_nat n).

(** * Reading names *)

(** [name_parse]. Its output is the characters written to [name_out] before the
    terminator and the new index; the loop ends within [name_out_len] labels and
    [length] jumps. *)
Fixpoint name_loop (fuel : nat) (packet : list cell) (length name_out_len j name_end ptr_count : Z) (cp : list cell)
  : pm (list cell * Z) :=
  match fuel with
  | O => UB Diverges
  | S fuel =>
      '(label_len, j) ← get_field 1 packet length j;
      if label_len =? 0 then
        if blen cp >=? name_out_len then return_fail
        else mret (cp, if name_end <? 0 then j else name_end)
      else if negb (Z.land label_len 0xc0 =? 0) then
        '(ptr_low, j) ← get_field 1 packet length j;
        let name_end := if name_end <? 0 then j else name_end in
        let j := Z.shiftl (Z.land label_len 0x3f) 8 + ptr_low in
        if (j <? 0) || (j >=? length) then return_fail
        else if ptr_count + 1 >? length then return_fail
        else name_loop fuel packet length name_out_len j name_end (ptr_count + 1) cp
      else if label_len >? 63 then return_fail
      else
        cp ← (if negb (blen cp =? 0) then
                if blen cp + 1 >=? name_out_len then return_fail else mret (cp ++ [Some dot])
              else mret cp);
        if blen cp + label_len >=? name_out_len then return_fail
        else
          bs ← plift (read_cells packet j label_len);
          name_loop fuel packet length name_out_len (j + label_len) name_end ptr_count (cp ++ bs)
  end.

Definition name_fuel (length name_out_len : Z) : nat := Z.to_nat length + Z.to_nat name_out_len + 4.

Definition name_parse (packet : list cell) (length idx name_out_len : Z) : cres (option (list byte * Z)) :=
  match name_loop (name_fuel length name_out_len) packet length name_out_len idx (-1) 0 [] with
  | UB f => UB f
  | Ok (Next (cp, idx)) => name ← of_option Uninitialised (mapM id cp); Ok (Some (name, idx))
  | Ok _ => Ok None
  end.

(** * Writing names *)

Definition MAX_LABELS : Z := 128.

(** [struct dnslabel_table]: names with their positions. *)
Definition dnslabel_table : Type := list (list byte * Z).

Fixpoint dnslabel_table_get_pos (table : dnslabel_table) (label : list byte) : Z :=
  match table with
  | [] => -1
  | (v, pos) :: table => if bool_decide (label = v) then pos else dnslabel_table_get_pos table label
  end.

(** [dup] tells whether [strdup] has the memory; the caller ignores the result. *)
Definition dnslabel_table_add (dup : bool) (table : dnslabel_table) (label : list byte) (pos : Z) : dnslabel_table :=
  if (blen table =? MAX_LABELS) || negb dup then table else table ++ [(label, pos)].

(** [strchr(name, '.')]: what is before the first dot, and what is after it. *)
Fixpoint cut_dot (name : list byte) : list byte * option (list byte) :=
  match name with
  | [] => ([], None)
  | b :: rest =>
      if decide (b = dot) then ([], Some rest)
      else let '(label, r) := cut_dot rest in (b :: label, r)
  end.

Definition put (buf : list cell) (j : Z) (bs : list byte) : cres (list cell) := write_cells buf j (Some <$> bs).

(** Writing: as above, with the buffer, which keeps what was written when the
    code jumps away. *)
Definition wm (A : Type) : Type := list cell -> cres (exit A * list cell).

#[export] Instance wm_ret : MRet wm := fun A a buf => Ok (Next a, buf).
#[export] Instance wm_bind : MBind wm := fun A B k m buf =>
  match m buf with
  | UB f => UB f
  | Ok (Next a, buf) => k a buf
  | Ok (GotoErr, buf) => Ok (GotoErr, buf)
  | Ok (Return r, buf) => Ok (Return r, buf)
  end.

Definition wgoto {A} : wm A := fun buf => Ok (GotoErr, buf).
Definition wreturn {A} (r : Z) : wm A := fun buf => Ok (Return r, buf).
Definition wlift {A} (m : cres A) : wm A := fun buf => match m with Ok a => Ok (Next a, buf) | UB f => UB f end.
Definition wput (j : Z) (bs : list byte) : wm unit := fun buf =>
  match put buf j bs with Ok buf => Ok (Next tt, buf) | UB f => UB f end.
Definition buf_len : wm Z := fun buf => Ok (Next (blen buf), buf).

(** [APPEND16] and [APPEND32]. *)
Definition append (n : nat) (j x : Z) : wm Z :=
  len ← buf_len;
  if j + Z.of_nat n >? len then wgoto else wput j (be_bytes n x);; mret (j + Z.of_nat n).

(** The end of the name: a zero, unless the name ended in a dot. *)
Definition end_labels (buf : list cell) (j : Z) : cres (list cell * Z) :=
  zero ← (if j =? 0 then Ok false else b ← load buf (j - 1) 1; Ok (be_value b =? 0));
  if zero : bool then Ok (buf, j) else buf ← put buf j [Byte.x00]; Ok (buf, j + 1).

(** Result: the buffer, the table and the index after the name, or a negative
    number. *)
Fixpoint labels_loop (fuel : nat) (dup : list byte -> Z -> bool) (buf : list cell) (j : Z) (name : list byte)
    (table : option dnslabel_table) : cres (list cell * option dnslabel_table * Z) :=
  match fuel with
  | O => UB Diverges
  | S fuel =>
      let ref := match table with Some t => dnslabel_table_get_pos t name | None => -1 end in
      if ref >=? 0 then
        '(r, buf) ← append 2 j (Z.lor ref 0xc000) buf;
        Ok (buf, table, match r with Next j => j | _ => -2 end)
      else
        let '(label, rest) := cut_dot name in
        if blen label >? 63 then Ok (buf, table, -1)
        else if j + blen label + 1 >? blen buf then Ok (buf, table, -2)
        else
          let table := option_map (fun t => dnslabel_table_add (dup name j) t name j) table in
          buf ← put buf j [byte.of_Z (blen label)];
          buf ← put buf (j + 1) label;
          let j := j + 1 + blen label in
          match rest with
          | None => '(buf, j) ← end_labels buf j; Ok (buf, table, j)
          | Some rest => labels_loop fuel dup buf j rest table
          end
  end.

Definition dnsname_to_labels (dup : list byte -> Z -> bool) (buf : list cell) (j : Z) (name : list byte)
    (table : option dnslabel_table) : cres (list cell * option dnslabel_table * Z) :=
  if blen name >? 255 then Ok (buf, table, -2)
  else labels_loop (S (length name)) dup buf j name table.

(** * Questions *)

Definition evdns_request_len (name_len : Z) : Z := 96 + name_len + 2 + 4.

Definition header (j trans_id flags nq na nau nad : Z) : wm Z :=
  j ← append 2 j trans_id;
  j ← append 2 j flags;
  j ← append 2 j nq;
  j ← append 2 j na;
  j ← append 2 j nau;
  append 2 j nad.

(** A name: the table and the index after it, or a negative number. *)
Definition write_name (dup : list byte -> Z -> bool) (j : Z) (name : list byte) (table : option dnslabel_table)
  : wm (option dnslabel_table * Z) := fun buf =>
  '(buf, table, r) ← dnsname_to_labels dup buf j name table; Ok (Next (table, r), buf).

(** The amount of space used, or a negative number. *)
Definition evdns_request_data_build (name : list byte) (trans_id type class : Z) (buf : list cell)
  : cres (Z * list cell) :=
  '(r, buf) ← (j ← header 0 trans_id 0x0100 1 0 0 0;
    '(_, j) ← write_name (fun _ _ => true) j name None;
    if j <? 0 then wreturn j
    else j ← append 2 j type; append 2 j class) buf;
  Ok (match r with Next j => j | GotoErr => -1 | Return j => j end, buf).

(** [struct evdns_server_question]. *)
Record question := mkQuestion {
  q_name : list byte;
  q_type : Z;
  q_class : Z
}.

(** [struct server_reply_item]; the list is the order of the records. *)
Record reply_item := mkItem {
  ri_name : list byte;
  ri_type : Z;
  ri_class : Z;
  ri_ttl : Z;
  ri_is_name : bool;
  ri_datalen : Z;
  ri_data : option (list byte)
}.

(** [struct server_request], without the port and the list of pending replies. *)
Record server_request := mkSReq {
  sr_trans_id : Z;
  sr_flags : Z;
  sr_questions : list question;
  n_answer : Z;
  n_authority : Z;
  n_additional : Z;
  sr_answer : list reply_item;
  sr_authority : list reply_item;
  sr_additional : list reply_item;
  sr_response : option (list cell)
}.

Definition read_header (packet : list cell) (length : Z) : pm (Z * Z * Z * Z * Z) :=
  '(trans_id, j) ← get_field 2 packet length 0;
  '(flags, j) ← get_field 2 packet length j;
  '(questions, j) ← get_field 2 packet length j;
  '(answers, j) ← get_field 2 packet length j;
  '(_, j) ← get_field 2 packet length j;
  '(_, j) ← get_field 2 packet length j;
  mret (trans_id, flags, questions, answers, j).

(** A name, or [goto err]. *)
Definition parse_name (packet : list cell) (length j name_out_len : Z) : pm (list byte * Z) :=
  r ← plift (name_parse packet length j name_out_len);
  match r with Some r => mret r | None => goto_err end.

(** The questions of a request; [alloc i] is the [malloc] of the [i]th. *)
Fixpoint questions_loop (n : nat) (alloc : nat -> bool) (packet : list cell) (length j : Z) (qs : list question)
  : pm (list question * Z) :=
  match n with
  | O => mret (qs, j)
  | S n =>
      '(tmp_name, j) ← parse_name packet length j HOST_NAME_LEN;
      '(type, j) ← get_field 2 packet length j;
      '(class, j) ← get_field 2 packet length j;
      if negb (alloc (List.length qs)) then goto_err
      else questions_loop n alloc packet length j (qs ++ [mkQuestion (c_string tmp_name) type class])
  end.

(** [request_parse]: the request the callback of the port gets, or [None] for
    [-1]. The test for other kinds of queries comes after their bits were
    masked out of the flags, so it never holds. *)
Definition request_parse (alloc_req alloc_qs : bool) (alloc : nat -> bool) (packet : list cell) (length : Z)
  : cres (option server_request) :=
  r ← (('(trans_id, flags, questions, _, j) ← read_header packet length;
        if negb (Z.land flags 0x8000 =? 0) then return_fail
        else
          let flags := Z.land flags 0x0110 in
          if negb alloc_req then return_fail
          else if negb alloc_qs then goto_err
          else
            '(qs, _) ← questions_loop (Z.to_nat questions) alloc packet length j [];
            if negb (Z.land flags 0x7800 =? 0) then return_fail
            else mret (mkSReq trans_id flags qs 0 0 0 [] [] [] None)) : pm server_request);
  match r with Next req => Ok (Some req) | _ => Ok None end.

(** * Answers *)

Inductive section : Type :=
| EVDNS_ANSWER_SECTION
| EVDNS_AUTHORITY_SECTION
| EVDNS_ADDITIONAL_SECTION.

Definition u16 (x : Z) : Z := x mod 2 ^ 16.

(** The record made of the arguments; [data] has [datalen] bytes, or is a string
    when [is_name] is set. *)
Definition new_item (name : list byte) (type class ttl datalen : Z) (is_name : bool) (data : option (list byte))
  : reply_item :=
  mkItem name (u16 type) (u16 class) (uwrap32 ttl) is_name
    (match data with None => 0 | Some _ => if is_name then u16 (-1) else u16 datalen end) data.

(** [evdns_server_request_add_reply]; [alloc] is false if one of its
    allocations fails, each of which undoes the others. *)
Definition evdns_server_request_add_reply (alloc : bool) (req : server_request) (s : section) (name : list byte)
    (type class ttl datalen : Z) (is_name : bool) (data : option (list byte)) : server_request * Z :=
  let '(mkSReq id fl qs na nu nd an au ad resp) := req in
  match resp with
  | Some _ => (req, -1)
  | None =>
      if negb alloc then (req, -1)
      else
        let item := new_item name type class ttl datalen is_name data in
        (match s with
         | EVDNS_ANSWER_SECTION => mkSReq id fl qs (na + 1) nu nd (an ++ [item]) au ad resp
         | EVDNS_AUTHORITY_SECTION => mkSReq id fl qs na (nu + 1) nd an (au ++ [item]) ad resp
         | EVDNS_ADDITIONAL_SECTION => mkSReq id fl qs na nu (nd + 1) an au (ad ++ [item]) resp
         end, 0)
  end.

Definition evdns_server_request_add_a_reply (alloc : bool) (req : server_request) (name : list byte) (n : Z)
    (addrs : option (list byte)) (ttl : Z) : server_request * Z :=
  evdns_server_request_add_reply alloc req EVDNS_ANSWER_SECTION name TYPE_A CLASS_INET ttl (n * 4) false addrs.

Definition evdns_server_request_add_aaaa_reply (alloc : bool) (req : server_request) (name : list byte) (n : Z)
    (addrs : option (list byte)) (ttl : Z) : server_request * Z :=
  evdns_server_request_add_reply alloc req EVDNS_ANSWER_SECTION name TYPE_AAAA CLASS_INET ttl (n * 16) false addrs.

Definition evdns_server_request_add_cname_reply (alloc : bool) (req : server_request) (name : list byte)
    (cname : list byte) (ttl : Z) : server_request * Z :=
  evdns_server_request_add_reply alloc req EVDNS_ANSWER_SECTION name TYPE_CNAME CLASS_INET ttl (-1) true (Some cname).

(** [%d] of a byte. *)
Definition dec_byte (n : Z) : list byte :=
  let digit d := byte.of_Z (48 + d) in
  if n <? 10 then [digit n]
  else if n <? 100 then [digit (n / 10); digit (n mod 10)]
  else [digit (n / 100); digit (n / 10 mod 10); digit (n mod 10)].

Definition in_addr_arpa : list byte := zbytes [46; 105; 110; 45; 97; 100; 100; 114; 46; 97; 114; 112; 97].

(** The name under which an address, in host order, is looked up. *)
Definition reverse_name (a : Z) : list byte :=
  dec_byte (Z.land a 255) ++ [dot] ++ dec_byte (Z.land (Z.shiftr a 8) 255) ++ [dot] ++
  dec_byte (Z.land (Z.shiftr a 16) 255) ++ [dot] ++ dec_byte (Z.land (Z.shiftr a 24) 255) ++ in_addr_arpa.

Definition evdns_server_request_add_ptr_reply (alloc : bool) (req : server_request) (addr : Z + list byte)
    (hostname : list byte) (ttl : Z) : server_request * Z :=
  let inaddr_name := match addr with inl a => reverse_name a | inr name => name end in
  evdns_server_request_add_reply alloc req EVDNS_ANSWER_SECTION inaddr_name TYPE_PTR CLASS_INET ttl (-1) true (Some hostname).

Fixpoint write_questions (dup : list byte -> Z -> bool) (j : Z) (qs : list question) (table : option dnslabel_table)
  : wm (option dnslabel_table * Z) :=
  match qs with
  | [] => mret (table, j)
  | q :: qs =>
      '(table, j) ← write_name dup j (q_name q) table;
      if j <? 0 then wreturn j
      else
        j ← append 2 j (q_type q);
        j ← append 2 j (q_class q);
        write_questions dup j qs table
  end.

(** One resource record. *)
Definition write_item (dup : list byte -> Z -> bool) (j : Z) (item : reply_item) (table : option dnslabel_table)
  : wm (option dnslabel_table * Z) :=
  '(table, r) ← write_name dup j (ri_name item) table;
  if r <? 0 then wgoto
  else
    j ← append 2 r (ri_type item);
    j ← append 2 j (ri_class item);
    j ← append 4 j (ri_ttl item);
    if ri_is_name item then
      let len_idx := j in
      let name_start := j + 2 in
      data ← wlift (of_option NullDeref (ri_data item));
      '(table, r) ← write_name dup name_start data table;
      if r <? 0 then wgoto
      else wput len_idx (be_bytes 2 (r - name_start));; mret (table, r)
    else
      j ← append 2 j (ri_datalen item);
      len ← buf_len;
      if j + ri_datalen item >? len then wgoto
      else wput j (take (Z.to_nat (ri_datalen item)) (default [] (ri_data item)));; mret (table, j + ri_datalen item).

Fixpoint write_items (dup : list byte -> Z -> bool) (j : Z) (items : list reply_item) (table : option dnslabel_table)
  : wm (option dnslabel_table * Z) :=
  match items with
  | [] => mret (table, j)
  | item :: items => '(table, j) ← write_item dup j item table; write_items dup j items table
  end.

(** [server_request_free_answers] with the new response. *)
Definition with_response (resp : option (list cell)) (req : server_request) : server_request :=
  mkSReq (sr_trans_id req) (sr_flags req) (sr_questions req) (n_answer req) (n_authority req) (n_additional req)
    [] [] [] resp.

(** The message up to the truncation. *)
Definition format_body (dup : list byte -> Z -> bool) (req : server_request) (err : Z) : wm Z :=
  let flags := u16 (Z.lor (u16 (sr_flags req)) (Z.lor 0x8000 err)) in
  j ← header 0 (sr_trans_id req) flags (blen (sr_questions req)) (n_answer req) (n_authority req) (n_additional req);
  '(table, j) ← write_questions dup j (sr_questions req) (Some []);
  '(table, j) ← write_items dup j (sr_answer req) table;
  '(table, j) ← write_items dup j (sr_authority req) table;
  '(_, j) ← write_items dup j (sr_additional req) table;
  if j >? 512 then wgoto else mret j.

(** The [overflow] label: 512 bytes, with the truncated bit. *)
Definition truncated (buf : list cell) : cres (list cell) :=
  b ← load buf 2 1;
  put buf 2 (be_bytes 1 (Z.lor (be_value b) 0x02)).

Definition evdns_server_request_format_response (dup : list byte -> Z -> bool) (alloc : bool) (req : server_request) (err : Z)
  : cres (server_request * Z) :=
  if (err <? 0) || (err >? 15) then Ok (req, -1)
  else
    '(r, buf) ← format_body dup req err (replicate 1500 None);
    match r with
    | Return r => Ok (req, r)
    | _ =>
        '(buf, j) ← match r with Next j => Ok (buf, j) | _ => buf ← truncated buf; Ok (buf, 512) end;
        if negb alloc then Ok (with_response None req, -1)
        else response ← read_cells buf 0 j; Ok (with_response (Some response) req, 0)
    end.

(** * Replies *)

(** The members of [struct request] that [reply_parse] reads. *)
Record request := mkReq {
  rq_trans_id : Z;
  rq_packet : list cell;
  rq_len : Z;
  rq_type : Z
}.

(** [struct reply]: the addresses one after the other, or the name. *)
Record reply := mkReply {
  rp_type : Z;
  rp_have_answer : bool;
  rp_addrcount : Z;
  rp_addresses : list byte;
  rp_name : list byte
}.

Definition request_find_from_trans_id (reqs : list request) (trans_id : Z) : option request :=
  List.find (fun r => rq_trans_id r =? trans_id) reqs.

(** [TEST_NAME] on every question of the reply: [memcmp] compares as much as the
    name of the reply is long. *)
Fixpoint test_questions (n : nat) (req : request) (packet : list cell) (length j : Z) : pm Z :=
  match n with
  | O => mret j
  | S n =>
      let k := j in
      '(tmp_name, j) ← parse_name packet length j HOST_NAME_LEN;
      '(cmp_name, _) ← parse_name (rq_packet req) (rq_len req) k HOST_NAME_LEN;
      if negb (bool_decide (c_string tmp_name `prefix_of` cmp_name)) then return_fail
      else
        let j := j + 4 in
        if j >? length then goto_err else test_questions n req packet length j
  end.

(** The addresses of one record of [size] bytes each: the reply and whether
    there is room for more. *)
Definition take_addresses (size : Z) (packet : list cell) (length j datalength : Z) (rp : reply) : pm (reply * Z * bool) :=
  if negb (Z.land datalength (size - 1) =? 0) then goto_err
  else
    let addrcount := datalength / size in
    let addrtocopy := Z.min (MAX_ADDRS - rp_addrcount rp) addrcount in
    if j + size * addrtocopy >? length then goto_err
    else
      bs ← plift (load packet j (size * addrtocopy));
      plift (require (rp_addrcount rp + addrtocopy <=? MAX_ADDRS) OutOfBounds);;
      let rp := mkReply (rp_type rp) true (rp_addrcount rp + addrtocopy) (rp_addresses rp ++ bs) (rp_name rp) in
      mret (rp, j + size * addrtocopy, negb (rp_addrcount rp =? MAX_ADDRS)).

(** The resource records of the answer section; [host_name_max] is the system's
    [HOST_NAME_MAX]. *)
Fixpoint answers_loop (host_name_max : Z) (n : nat) (req : request) (packet : list cell) (length j ttl_r : Z) (rp : reply)
  : pm (Z * reply) :=
  match n with
  | O => mret (ttl_r, rp)
  | S n =>
      '(_, j) ← parse_name packet length j HOST_NAME_LEN;
      '(type, j) ← get_field 2 packet length j;
      '(class, j) ← get_field 2 packet length j;
      '(ttl, j) ← get_field 4 packet length j;
      '(datalength, j) ← get_field 2 packet length j;
      let skip := answers_loop host_name_max n req packet length (j + datalength) ttl_r rp in
      let addresses size :=
        '(rp, j, more) ← take_addresses size packet length j datalength rp;
        if more : bool then answers_loop host_name_max n req packet length j (Z.min ttl_r ttl) rp
        else mret (Z.min ttl_r ttl, rp) in
      if (type =? TYPE_A) && (class =? CLASS_INET) then
        if negb (rq_type req =? TYPE_A) then skip else addresses 4
      else if (type =? TYPE_PTR) && (class =? CLASS_INET) then
        if negb (rq_type req =? TYPE_PTR) then skip
        else
          '(name, _) ← parse_name packet length j host_name_max;
          mret (Z.min ttl_r ttl, mkReply (rp_type rp) true (rp_addrcount rp) (rp_addresses rp) (c_string name))
      else if (type =? TYPE_AAAA) && (class =? CLASS_INET) then
        if negb (rq_type req =? TYPE_AAAA) then skip else addresses 16
      else skip
  end.

(** What [reply_parse] does: it ignores the packet, or calls [reply_handle] with
    the request, the flags, the time to live and the reply, if there is one. *)
Inductive reply_action : Type :=
| Ignored
| Handle (req : request) (flags ttl : Z) (rp : option reply).

Definition reply_parse (host_name_max : Z) (reqs : list request) (packet : list cell) (length : Z) : cres reply_action :=
  h ← read_header packet length;
  match h with
  | Next (trans_id, flags, questions, answers, j) =>
      match request_find_from_trans_id reqs trans_id with
      | None => Ok Ignored
      | Some req =>
          if Z.land flags 0x8000 =? 0 then Ok Ignored
          else if negb (Z.land flags 0x020f =? 0) then Ok (Handle req flags 0 None)
          else
            r ← ((j ← test_questions (Z.to_nat questions) req packet length j;
                  answers_loop host_name_max (Z.to_nat answers) req packet length j 0xffffffff
                    (mkReply (rq_type req) false 0 [] [])) : pm (Z * reply));
            match r with
            | Next (ttl, rp) => Ok (Handle req flags ttl (Some rp))
            | GotoErr => Ok (Handle req flags 0 None)
            | Return _ => Ok Ignored
            end
      end
  | _ => Ok Ignored
  end.
