(* ===== verification/DnsName.v ===== *)
(** DNS names: what a name looks like in a message, that [name_parse] reads it
    and [dnsname_to_labels] writes it, and what [name_parse] does on any bytes. *)
From S2P Require Import Prelude.
From S2P Require Import Dns.

Implicit Types (m buf : list cell) (name label : list byte).

Lemma pm_next {A B} (x : pm A) (k : A -> pm B) a : x = Ok (Next a) -> (x ≫= k) = k a.
Proof. by intros ->. Qed.

Lemma wm_next {A B} (x : wm A) (k : A -> wm B) a m m' : x m = Ok (Next a, m') -> (x ≫= k) m = k a m'.
Proof. intros H. unfold mbind, wm_bind. by rewrite H. Qed.

(** * Memory that fills up *)

(** The bytes from [pos] on. *)
Definition holds m (pos : Z) (bs : list byte) : Prop := 0 <= pos /\ (Some <$> bs) `prefix_of` drop (Z.to_nat pos) m.

(** Nothing was written from [j] on. *)
Definition fresh_from m (j : Z) : Prop := 0 <= j <= blen m /\ drop (Z.to_nat j) m = replicate (Z.to_nat (blen m - j)) None.

(** What was written stays. *)
Definition defines m m' : Prop := forall i b, m !! i = Some (Some b) -> m' !! i = Some (Some b).

(** Nothing was written before [j]. *)
Definition same_below m m' (j : Z) : Prop := forall i, (i < Z.to_nat j)%nat -> m' !! i = m !! i.

Lemma same_below_trans m m1 m2 j j1 : same_below m m1 j -> same_below m1 m2 j1 -> j <= j1 -> same_below m m2 j.
Proof. intros H1 H2 Hle i Hi. rewrite H2 by lia. by apply H1. Qed.

#[export] Instance defines_refl : Reflexive defines.
Proof. by intros m i b. Qed.

#[export] Instance defines_trans : Transitive defines.
Proof. intros m1 m2 m3 H1 H2 i b H. by apply H2, H1. Qed.

Lemma holds_lookup m pos bs : holds m pos bs <-> 0 <= pos /\ forall i b, bs !! i = Some b -> m !! (Z.to_nat pos + i)%nat = Some (Some b).
Proof.
  unfold holds. split; intros [Hp H]; (split; [done|]).
  - intros i b Hi. rewrite <- lookup_drop. destruct H as [k ->]. rewrite lookup_app_l.
    + by rewrite list_lookup_fmap, Hi.
    + rewrite length_fmap. by eapply lookup_lt_Some.
  - revert H. generalize (Z.to_nat pos) as p. clear Hp pos. induction bs as [|b bs IH]; intros p H; [apply prefix_nil|]. cbn.
    pose proof (H 0%nat b eq_refl) as H0. rewrite Nat.add_0_r in H0. rewrite (drop_S _ _ _ H0). apply prefix_cons.
    apply (IH (S p)). intros i c Hi. specialize (H (S i) c Hi). by rewrite Nat.add_succ_r in H.
Qed.

Lemma holds_mono m m' pos bs : defines m m' -> holds m pos bs -> holds m' pos bs.
Proof. rewrite !holds_lookup. intros Hd [Hp H]. split; [done|]. intros i b Hi. by apply Hd, H. Qed.

Lemma holds_app m pos bs cs : holds m pos (bs ++ cs) <-> holds m pos bs /\ holds m (pos + blen bs) cs.
Proof.
  rewrite !holds_lookup. pose proof (blen_nonneg bs) as Hb. split.
  - intros [Hp H]. split; (split; [lia|]).
    + intros i b Hi. apply H. by apply lookup_app_l_Some.
    + intros i b Hi. specialize (H (length bs + i)%nat b). unfold blen in *.
      replace (Z.to_nat (pos + Z.of_nat (length bs)) + i)%nat with (Z.to_nat pos + (length bs + i))%nat by lia.
      apply H. rewrite lookup_app_r by lia. by replace (length bs + i - length bs)%nat with i by lia.
  - intros [[Hp H1] [_ H2]]. split; [done|]. intros i b Hi. apply lookup_app_Some in Hi as [Hi|[Hl Hi]]; [by apply H1|].
    specialize (H2 _ b Hi). unfold blen in *. by replace (Z.to_nat pos + i)%nat with
      (Z.to_nat (pos + Z.of_nat (length bs)) + (i - length bs))%nat by lia.
Qed.

Lemma holds_bound m pos bs : holds m pos bs -> bs <> [] -> pos + blen bs <= blen m.
Proof.
  intros H Hne. apply holds_lookup in H as [Hp H]. destruct bs as [|b bs _] using rev_ind; [done|].
  specialize (H (length bs) b). rewrite lookup_app_r, Nat.sub_diag in H by lia. specialize (H eq_refl).
  apply lookup_lt_Some in H. autorewrite with blen. unfold blen. lia.
Qed.

Lemma holds_load m pos bs : holds m pos bs -> bs <> [] -> load m pos (blen bs) = Ok bs.
Proof.
  intros H Hne. pose proof (holds_bound m pos bs H Hne) as Hb. destruct H as [Hp [k Hk]]. unfold load.
  rewrite read_cells_ok by (pose proof (blen_nonneg bs); lia). rewrite bind_Ok, Hk.
  rewrite <- (blen_fmap Some bs), take_blen_app, mapM_id_Some. done.
Qed.

Lemma holds_read m pos bs : holds m pos bs -> pos <= blen m -> read_cells m pos (blen bs) = Ok (Some <$> bs).
Proof.
  intros H Hle. assert (pos + blen bs <= blen m) as Hb.
  { destruct bs as [|b bs]; [rewrite blen_nil; lia|]. by apply holds_bound. }
  destruct H as [Hp [k Hk]]. rewrite read_cells_ok by (pose proof (blen_nonneg bs); lia). rewrite Hk.
  by rewrite <- (blen_fmap Some bs), take_blen_app.
Qed.

(** Everything written lies before the place where nothing was written. *)
Lemma holds_before m pos bs j : holds m pos bs -> fresh_from m j -> bs <> [] -> pos + blen bs <= j.
Proof.
  intros H [Hj Hf] Hne. destruct (decide (pos + blen bs <= j)) as [|Hgt]; [done|]. exfalso.
  apply holds_lookup in H as [Hp H]. destruct bs as [|b bs _] using rev_ind; [done|].
  specialize (H (length bs) b). rewrite lookup_app_r, Nat.sub_diag in H by lia. specialize (H eq_refl).
  autorewrite with blen in Hgt. unfold blen in Hgt.
  replace (Z.to_nat pos + length bs)%nat with (Z.to_nat j + (Z.to_nat pos + length bs - Z.to_nat j))%nat in H by lia.
  rewrite <- lookup_drop, Hf in H. apply lookup_replicate_1 in H as [H _]. done.
Qed.

(** Writing where nothing was written. *)
Lemma put_ok m j bs : fresh_from m j -> j + blen bs <= blen m ->
  exists m', put m j bs = Ok m' /\ blen m' = blen m /\ defines m m' /\ holds m' j bs /\ fresh_from m' (j + blen bs) /\
    same_below m m' j.
Proof.
  intros [Hj Hf] Hfit. unfold put. pose proof (blen_nonneg bs) as Hb.
  rewrite write_cells_ok by (rewrite ?blen_fmap; lia). eexists. split; [reflexivity|].
  rewrite length_fmap. set (m' := _ ++ _). assert (blen m' = blen m) as Hlen.
  { unfold m', blen in *. rewrite !length_app, length_take, length_drop, length_fmap. lia. }
  assert (length (take (Z.to_nat j) m) = Z.to_nat j) as Hlt by (rewrite length_take; unfold blen in *; lia).
  split; [done|]. split; [|split; [|split]].
  - intros i b Hi. unfold m'. destruct (decide (i < Z.to_nat j)%nat) as [Hlt'|Hge].
    + rewrite lookup_app_l by lia. by rewrite lookup_take_lt.
    + exfalso. replace i with (Z.to_nat j + (i - Z.to_nat j))%nat in Hi by lia. rewrite <- lookup_drop, Hf in Hi.
      by apply lookup_replicate_1 in Hi as [? _].
  - split; [lia|]. unfold m'. rewrite drop_app_length' by done. by apply prefix_app_r.
  - split; [lia|]. rewrite Hlen. unfold m'. rewrite app_assoc, drop_app_length'.
    + replace (Z.to_nat j + length bs)%nat with (Z.to_nat j + length bs)%nat by lia. rewrite <- drop_drop, Hf, drop_replicate.
      f_equal. unfold blen in *. lia.
    + rewrite length_app, Hlt, length_fmap. unfold blen. lia.
  - intros i Hi. unfold m'. rewrite lookup_app_l by lia. by rewrite lookup_take_lt.
Qed.

(** Filling a gap that was left open. *)
Lemma put_gap m pos bs j : fresh_from m j -> 0 <= pos -> pos + blen bs <= j ->
  (forall i, (i < length bs)%nat -> m !! (Z.to_nat pos + i)%nat = Some None) ->
  exists m', put m pos bs = Ok m' /\ blen m' = blen m /\ defines m m' /\ holds m' pos bs /\ fresh_from m' j.
Proof.
  intros [Hj Hf] Hpos Hfit Hgap. unfold put. pose proof (blen_nonneg bs) as Hb.
  rewrite write_cells_ok by (rewrite ?blen_fmap; lia). eexists. split; [reflexivity|]. rewrite length_fmap. set (m' := _ ++ _).
  assert (length (take (Z.to_nat pos) m) = Z.to_nat pos) as Hlt by (rewrite length_take; unfold blen in *; lia).
  assert (blen m' = blen m) as Hlen.
  { unfold m', blen in *. rewrite !length_app, length_take, length_drop, length_fmap. lia. }
  split; [done|]. split; [|split].
  - intros i b Hi. unfold m'. destruct (decide (i < Z.to_nat pos)%nat) as [Hlt'|Hge].
    + rewrite lookup_app_l by lia. by rewrite lookup_take_lt.
    + rewrite lookup_app_r, Hlt by lia. destruct (decide (i < Z.to_nat pos + length bs)%nat) as [Hin|Hout].
      * specialize (Hgap (i - Z.to_nat pos)%nat ltac:(lia)). replace (Z.to_nat pos + (i - Z.to_nat pos))%nat with i in Hgap by lia. congruence.
      * rewrite lookup_app_r by (rewrite length_fmap; lia). rewrite lookup_drop, length_fmap.
        by replace (Z.to_nat pos + length bs + (i - Z.to_nat pos - length bs))%nat with i by lia.
  - split; [lia|]. unfold m'. rewrite drop_app_length' by done. by apply prefix_app_r.
  - split; [lia|]. rewrite Hlen, <- Hf. unfold m'. rewrite app_assoc, drop_app_ge by (rewrite length_app, Hlt, length_fmap; unfold blen in *; lia).
    rewrite drop_drop. f_equal. rewrite length_app, Hlt, length_fmap. unfold blen in *. lia.
Qed.

Lemma append_ok k m j x : fresh_from m j -> j + Z.of_nat k <= blen m ->
  exists m', append k j x m = Ok (Next (j + Z.of_nat k), m') /\ blen m' = blen m /\ defines m m' /\
    holds m' j (be_bytes k x) /\ fresh_from m' (j + Z.of_nat k) /\ same_below m m' j.
Proof.
  intros Hf Hfit. assert (blen (be_bytes k x) = Z.of_nat k) as Hl.
  { unfold be_bytes, blen. by rewrite length_rev, length_le_split. }
  destruct (put_ok m j (be_bytes k x) Hf) as (m' & Hput & Hlen & Hd & Hh & Hf' & Hsb); [lia|].
  exists m'. rewrite Hl in Hf'. split; [|done]. unfold append. erewrite wm_next by reflexivity. zdecide.
  erewrite wm_next; [reflexivity|]. unfold wput. by rewrite Hput.
Qed.

(** * Names in a message *)

Lemma be_value_one b : be_value [b] = byte.unsigned b.
Proof. change (Z.lor (byte.unsigned b) (Z.shiftl 0 8) = byte.unsigned b). by rewrite Z.shiftl_0_l, Z.lor_0_r. Qed.

Lemma be_value_bytes n x : be_value (be_bytes n x) = x mod 2 ^ (Z.of_nat n * 8).
Proof. unfold be_value, be_bytes. by rewrite rev_involutive, le_combine_split. Qed.

Lemma blen_be_bytes n x : blen (be_bytes n x) = Z.of_nat n.
Proof. unfold be_bytes, blen. by rewrite length_rev, length_le_split. Qed.

Lemma be_bytes_nonempty n x : be_bytes (S n) x <> [].
Proof. intros H. apply (f_equal blen) in H. rewrite blen_be_bytes, blen_nil in H. lia. Qed.

(** The labels of a name and the text of labels. *)
Fixpoint labels_of' (fuel : nat) name : list (list byte) :=
  match fuel with
  | O => []
  | S fuel =>
      match name with
      | [] => []
      | _ => let '(label, rest) := cut_dot name in label :: match rest with None => [] | Some rest => labels_of' fuel rest end
      end
  end.

Definition labels_of name : list (list byte) := labels_of' (S (length name)) name.

Fixpoint text (started : bool) (ls : list (list byte)) : list byte :=
  match ls with
  | [] => []
  | l :: ls => (if started then [dot] else []) ++ l ++ text true ls
  end.

Definition label_ok (l : list byte) : Prop := 1 <= blen l <= 63 /\ Byte.x00 ∉ l.

(** Names as they are meant to be: not empty labels, none longer than 63 bytes,
    at most 255 bytes, a dot at the end or not. *)
Definition name_ok name : Prop := Forall label_ok (labels_of name) /\ blen name <= 255.

(** The labels [ls] stand at [pos], through [k] pointers; the name takes the
    message up to [e]. *)
Inductive encodes m : Z -> list (list byte) -> Z -> Z -> Prop :=
| enc_end pos : holds m pos [Byte.x00] -> encodes m pos [] 0 (pos + 1)
| enc_label pos l ls k e : 1 <= blen l <= 63 -> holds m pos (byte.of_Z (blen l) :: l) ->
    encodes m (pos + 1 + blen l) ls k e -> encodes m pos (l :: ls) k e
| enc_pointer pos t ls k e : 0 <= t < 2 ^ 14 -> holds m pos (be_bytes 2 (Z.lor t 0xc000)) ->
    encodes m t ls k e -> encodes m pos ls (k + 1) (pos + 2).

Lemma encodes_mono m m' pos ls k e : defines m m' -> encodes m pos ls k e -> encodes m' pos ls k e.
Proof.
  intros Hd. induction 1 as [pos Hh|pos l ls k e Hl Hh _ IH|pos t ls k e Ht Hh _ IH].
  - apply enc_end. by apply (holds_mono m).
  - apply enc_label; [done| |done]. by apply (holds_mono m).
  - by apply (enc_pointer _ _ t _ _ e); [|apply (holds_mono m)|].
Qed.

Lemma encodes_pos m pos ls k e : encodes m pos ls k e -> 0 <= pos /\ pos + 1 <= e /\ e <= blen m /\ 0 <= k.
Proof.
  assert (forall pos bs, holds m pos bs -> bs <> [] -> 0 <= pos /\ pos + blen bs <= blen m) as Hb.
  { intros p bs H Hne. split; [by destruct H|by apply holds_bound]. }
  induction 1 as [pos Hh|pos l ls k e Hl Hh _ IH|pos t ls k e Ht Hh _ IH].
  - destruct (Hb pos _ Hh) as [? Hx]; [done|]. change (blen [Byte.x00]) with 1 in Hx. lia.
  - destruct (Hb pos _ Hh) as [? Hx]; [done|]. lia.
  - destruct (Hb pos _ Hh) as [? Hx]; [apply be_bytes_nonempty|]. rewrite blen_be_bytes in Hx. lia.
Qed.

(** Every cell from [a] to [b] is written. *)
Definition filled m (a b : Z) : Prop := forall i, a <= Z.of_nat i < b -> exists c, m !! i = Some (Some c).

Lemma filled_app m a b c : filled m a b -> filled m b c -> filled m a c.
Proof. intros H1 H2 i Hi. destruct (decide (Z.of_nat i < b)); [apply H1|apply H2]; lia. Qed.

Lemma holds_filled m pos bs : holds m pos bs -> filled m pos (pos + blen bs).
Proof.
  intros [Hp H]%holds_lookup i Hi. unfold blen in Hi. destruct (lookup_lt_is_Some_2 bs (i - Z.to_nat pos)) as [c Hc]; [lia|].
  exists c. specialize (H _ _ Hc). by replace (Z.to_nat pos + (i - Z.to_nat pos))%nat with i in H by lia.
Qed.

Lemma encodes_filled m pos ls k e : encodes m pos ls k e -> filled m pos e.
Proof.
  induction 1 as [pos Hh|pos l ls k e Hl Hh _ IH|pos t ls k e Ht Hh _ IH].
  - exact (holds_filled _ _ _ Hh).
  - apply (filled_app _ _ (pos + 1 + blen l)); [|done]. apply holds_filled in Hh. rewrite blen_cons in Hh. by rewrite <- Z.add_assoc.
  - apply holds_filled in Hh. by rewrite blen_be_bytes in Hh.
Qed.

(** * Reading a name *)

Definition text_len (started : bool) (ls : list (list byte)) : Z := blen (text started ls).

Lemma pointer_bytes t : 0 <= t < 2 ^ 14 -> exists hi lo, be_bytes 2 (Z.lor t 0xc000) = [hi; lo] /\
  byte.unsigned hi <> 0 /\ Z.land (byte.unsigned hi) 0xc0 <> 0 /\
  Z.shiftl (Z.land (byte.unsigned hi) 0x3f) 8 + byte.unsigned lo = t.
Proof.
  intros Ht. eexists _, _. split; [reflexivity|].
  set (P t := let hi := byte.unsigned (byte.of_Z (Z.shiftr (Z.lor t 0xc000) 8)) in
    let lo := byte.unsigned (byte.of_Z (Z.lor t 0xc000)) in
    negb (hi =? 0) && negb (Z.land hi 0xc0 =? 0) && (Z.shiftl (Z.land hi 0x3f) 8 + lo =? t)).
  assert (forallb P (seqZ 0 (2 ^ 14)) = true) as Hall by (vm_compute; reflexivity).
  rewrite forallb_forall in Hall. specialize (Hall t). assert (In t (seqZ 0 (2 ^ 14))) as Hin by (apply list_elem_of_In, elem_of_seqZ; lia).
  specialize (Hall Hin). unfold P in Hall. bool_props. by split.
Qed.

Lemma get_ok n m length pos x bs : holds m pos bs -> blen bs = Z.of_nat (S n) -> be_value bs = x ->
  pos + Z.of_nat (S n) <= length -> get_field (S n) m length pos = Ok (Next (x, pos + Z.of_nat (S n))).
Proof.
  intros Hh Hl <- Hle. unfold get_field. zdecide. assert (bs <> []) as Hne by (intros ->; rewrite blen_nil in Hl; lia).
  pose proof (holds_load m pos bs Hh Hne) as Hload. rewrite Hl in Hload. rewrite Hload. done.
Qed.

Lemma get_byte m rest pos b bs : holds m pos (b :: bs) -> get_field 1 (m ++ rest) (blen m) pos = Ok (Next (byte.unsigned b, pos + 1)).
Proof.
  intros H. apply (holds_app m pos [b] bs) in H as [H _]. rewrite <- be_value_one. apply (get_ok 0 _ _ _ _ [b]); [|done|done|].
  - apply (holds_mono m); [|done]. intros i c Hi. by apply lookup_app_l_Some.
  - apply (holds_bound m pos [b]); [done|done].
Qed.

(** A name in the message is read, from wherever it starts. *)
Lemma name_loop_reads m rest nol : forall pos ls k e, encodes m pos ls k e ->
  forall fuel name_end pc cp, pc + k <= blen m -> (length ls + Z.to_nat k < fuel)%nat ->
  blen cp + text_len (negb (blen cp =? 0)) ls < nol ->
  name_loop fuel (m ++ rest) (blen m) nol pos name_end pc cp =
    Ok (Next (cp ++ (Some <$> text (negb (blen cp =? 0)) ls), if name_end <? 0 then e else name_end)).
Proof.
  intros pos ls k e H. induction H as [pos Hh|pos l ls k e Hl Hh Henc IH|pos t ls k e Ht Hh Henc IH];
    intros fuel name_end pc cp Hpc Hfuel Hroom; (destruct fuel as [|fuel]; [cbn in Hfuel; lia|]); cbn [name_loop].
  - erewrite pm_next by (by eapply get_byte). cbv beta iota. change (byte.unsigned Byte.x00) with 0. cbn [text length fmap list_fmap] in *.
    unfold text_len in Hroom. cbn [text] in Hroom. rewrite blen_nil in Hroom. zdecide. by rewrite app_nil_r.
  - erewrite pm_next by (by eapply get_byte). cbv beta iota. rewrite byte.unsigned_of_Z. unfold byte.wrap. rewrite Z.mod_small by lia.
    assert (Z.land (blen l) 192 = 0) as Hland.
    { assert (forallb (fun x => Z.land x 192 =? 0) (seqZ 1 63) = true) as Hall by reflexivity.
      rewrite forallb_forall in Hall. apply Z.eqb_eq, Hall, list_elem_of_In, elem_of_seqZ. lia. }
    rewrite Hland. change (0 =? 0) with true. cbn [negb]. zdecide. unfold text_len in Hroom. cbn [text] in Hroom |- *.
    rewrite !blen_app in Hroom. pose proof (blen_nonneg (text true ls)) as Htl. pose proof (blen_nonneg cp) as Hcp.
    apply (holds_app m pos [_] l) in Hh as [_ Hlab]. change (blen [_]) with 1 in Hlab.
    assert (read_cells (m ++ rest) (pos + 1) (blen l) = Ok (Some <$> l)) as Hread.
    { apply holds_read; [apply (holds_mono m); [|done]; intros i c Hi; by apply lookup_app_l_Some|].
      assert (l <> []) as Hne by (intros ->; rewrite blen_nil in Hl; lia).
      pose proof (holds_bound m _ l Hlab Hne). rewrite blen_app. pose proof (blen_nonneg rest). lia. }
    set (sep := if negb (blen cp =? 0) then [dot] else []) in *.
    assert (name_loop fuel (m ++ rest) (blen m) nol (pos + 1 + blen l) name_end pc ((cp ++ (Some <$> sep)) ++ (Some <$> l)) =
      Ok (Next (cp ++ (Some <$> (sep ++ l ++ text true ls)), if name_end <? 0 then e else name_end))) as Hrec.
    { assert (negb (blen ((cp ++ (Some <$> sep)) ++ (Some <$> l)) =? 0) = true) as Hst.
      { rewrite !blen_app, !blen_fmap. pose proof (blen_nonneg sep). zdecide. done. }
      rewrite IH; rewrite ?Hst.
      - by rewrite !fmap_app, !app_assoc.
      - done.
      - cbn in Hfuel. lia.
      - unfold text_len. rewrite !blen_app, !blen_fmap. lia. }
    unfold sep in *. destruct (decide (blen cp = 0)) as [H0|H0].
    + rewrite (proj2 (Z.eqb_eq _ _) H0) in *. cbn [negb] in *. rewrite blen_nil in Hroom. cbn [fmap list_fmap] in Hrec. rewrite app_nil_r in Hrec.
      erewrite pm_next by reflexivity. zdecide. erewrite pm_next by (by rewrite Hread). exact Hrec.
    + rewrite (proj2 (Z.eqb_neq _ _) H0) in *. cbn [negb] in *. change (blen [dot]) with 1 in Hroom. zdecide.
      erewrite pm_next by reflexivity. rewrite blen_app. change (blen [Some dot]) with 1. zdecide.
      erewrite pm_next by (by rewrite Hread). exact Hrec.
  - pose proof (encodes_pos _ _ _ _ _ Henc) as (Ht0 & Ht1 & Ht2 & Hk). destruct (pointer_bytes t Ht) as (hi & lo & Hb & Hh0 & Hhc & Hval).
    rewrite Hb in Hh. erewrite pm_next by (by eapply get_byte). cbv beta iota.
    rewrite (proj2 (Z.eqb_neq _ _) Hh0), (proj2 (Z.eqb_neq _ _) Hhc). cbn [negb].
    apply (holds_app m pos [hi] [lo]) in Hh as [_ Hlo]. change (blen [hi]) with 1 in Hlo.
    erewrite pm_next by (by eapply get_byte). cbv beta iota. rewrite Hval. zdecide. rewrite IH.
    + destruct (Z.ltb_spec name_end 0); [|by rewrite (proj2 (Z.ltb_ge name_end 0))]. destruct Hlo as [Hp _].
      rewrite (proj2 (Z.ltb_ge (pos + 1 + 1) 0)) by lia. do 3 f_equal. lia.
    + lia.
    + lia.
    + done.
Qed.

Lemma encodes_labels m pos ls k e : encodes m pos ls k e -> Forall (fun l => 1 <= blen l) ls.
Proof. induction 1; [constructor|constructor; [lia|done]|done]. Qed.

Lemma labels_count started ls : Forall (fun l => 1 <= blen l) ls -> Z.of_nat (length ls) <= text_len started ls.
Proof.
  unfold text_len. intros H. revert started. induction H as [|l ls Hl _ IH]; intros started; cbn [text]; [cbn; unfold blen; cbn; lia|].
  rewrite !blen_app. specialize (IH true). cbn [length]. pose proof (blen_nonneg (if started then [dot] else [])). lia.
Qed.

(** [name_parse] on a name in the message. *)
Lemma name_parse_reads m rest pos ls k e nol : encodes m pos ls k e -> k <= blen m -> text_len false ls < nol ->
  name_parse (m ++ rest) (blen m) pos nol = Ok (Some (text false ls, e)).
Proof.
  intros H Hk Hroom. pose proof (labels_count false ls (encodes_labels _ _ _ _ _ H)) as Hc.
  pose proof (encodes_pos _ _ _ _ _ H) as (_ & _ & _ & Hk0). unfold name_parse, name_fuel.
  rewrite (name_loop_reads m rest nol pos ls k e H); [|lia|lia|done]. cbn [negb]. change (blen [] =? 0) with true. cbn [negb].
  rewrite app_nil_l, mapM_id_Some. done.
Qed.

(** * Any bytes *)

Definition received m : Prop := Forall is_Some m.

Lemma filled_received m n : filled m 0 n -> received (take (Z.to_nat n) m).
Proof.
  intros Hfill. apply Forall_lookup. intros i c Hi. apply lookup_take_Some in Hi as [Hi Hlt]. destruct (Hfill i ltac:(lia)) as [b Hc].
  rewrite Hc in Hi. injection Hi as <-. by eexists.
Qed.

Lemma received_read m rest pos n : received m -> 0 <= pos -> 0 <= n -> pos + n <= blen m ->
  exists bs, read_cells (m ++ rest) pos n = Ok (Some <$> bs) /\ blen bs = n.
Proof.
  intros Hm Hp Hn Hle. rewrite read_cells_ok by (rewrite ?blen_app; pose proof (blen_nonneg rest); lia).
  set (c := take _ _). assert (Forall is_Some c /\ blen c = n) as [Hc Hlen].
  { unfold c. rewrite drop_app_le, take_app_le by (rewrite ?length_drop; unfold blen in Hle; lia). split.
    - by apply Forall_take, Forall_drop.
    - rewrite blen_take; [done|]. rewrite blen_drop; lia. }
  clearbody c. assert (exists bs, c = Some <$> bs) as [bs ->].
  { clear Hlen. induction Hc as [|x c [b ->] _ [bs ->]]; [by exists []|by exists (b :: bs)]. }
  exists bs. split; [done|]. by rewrite blen_fmap in Hlen.
Qed.

Lemma received_get n m rest pos : received m -> 0 <= pos ->
  get_field n (m ++ rest) (blen m) pos = Ok GotoErr /\ blen m < pos + Z.of_nat n \/
  pos + Z.of_nat n <= blen m /\ exists bs, blen bs = Z.of_nat n /\ get_field n (m ++ rest) (blen m) pos = Ok (Next (be_value bs, pos + Z.of_nat n)).
Proof.
  intros Hm Hp. unfold get_field. destruct (Z.gtb_spec (pos + Z.of_nat n) (blen m)) as [Hgt|Hle]; [by left|right]. split; [done|].
  destruct (received_read m rest pos (Z.of_nat n) Hm Hp) as (bs & Hr & Hl); [lia|done|]. exists bs. split; [done|].
  unfold load. by rewrite Hr, bind_Ok, mapM_id_Some.
Qed.

(** What a call of [name_parse] can end in. *)
Definition name_result (nol len pos name_end : Z) (cp : list cell) (r : exit (list cell * Z)) : Prop :=
  match r with
  | Next (cp', e) => blen cp' < nol /\ (Forall is_Some cp -> Forall is_Some cp') /\
                     (if name_end <? 0 then pos < e <= len else e = name_end)
  | _ => True
  end.

Lemma name_loop_total m rest nol : received m -> forall fuel pos name_end pc cp,
  0 <= pos -> 0 <= pc <= blen m -> (cp = [] \/ blen cp < nol) ->
  (Z.to_nat (nol - blen cp) + Z.to_nat (blen m - pc) + 2 < fuel)%nat ->
  (exists r, name_loop fuel (m ++ rest) (blen m) nol pos name_end pc cp = Ok r /\ name_result nol (blen m) pos name_end cp r) \/
  (name_loop fuel (m ++ rest) (blen m) nol pos name_end pc cp = UB OutOfBounds /\ blen rest < 63).
Proof.
  intros Hm. induction fuel as [|fuel IH]; intros pos name_end pc cp Hpos Hpc Hcp Hf; [lia|]. cbn [name_loop].
  destruct (received_get 1 m rest pos Hm Hpos) as [[-> _]|(Hle & [|b [|]] & Hl & ->)]; [by left; eexists|done| |by rewrite !blen_cons in Hl; pose proof (blen_nonneg l); lia].
  rewrite be_value_one. erewrite pm_next by reflexivity. cbv beta iota. pose proof (byte.unsigned_range b) as Hb.
  set (n := byte.unsigned b) in *. destruct (Z.eqb_spec n 0) as [H0|H0].
  { left. destruct (Z.geb_spec (blen cp) nol); [by eexists|]. eexists. split; [reflexivity|]. cbn. split; [lia|]. split; [done|].
    destruct (name_end <? 0); [|done]. change (Z.of_nat 1) with 1 in *. lia. }
  destruct (Z.eqb_spec (Z.land n 192) 0) as [Hl0|Hl0]; cbn [negb].
  - destruct (Z.gtb_spec n 63) as [|H63]; [by left; eexists|].
    set (sep := if negb (blen cp =? 0) then _ else _).
    assert (sep = return_fail \/ exists cp1, sep = Ok (Next cp1) /\ (Forall is_Some cp -> Forall is_Some cp1) /\ blen cp <= blen cp1)
      as [->|(cp1 & -> & Hs1 & Hb1)]; [|by left; eexists|].
    { unfold sep. destruct (negb _); [|right; by eexists]. destruct (_ >=? _); [by left|right]. eexists. split; [reflexivity|].
      rewrite blen_app. change (blen [Some dot]) with 1. split; [|lia]. intros Hc. apply Forall_app. split; [done|]. by repeat constructor. }
    erewrite pm_next by reflexivity. destruct (Z.geb_spec (blen cp1 + n) nol) as [|Hfit]; [by left; eexists|].
    change (Z.of_nat 1) with 1 in *.
    destruct (decide (pos + 1 + n <= blen m)) as [Hin|Hout].
    + destruct (received_read m rest (pos + 1) n Hm) as (bs & Hr & Hlb); [lia|lia|lia|]. rewrite Hr. erewrite pm_next by reflexivity.
      assert (blen (cp1 ++ (Some <$> bs)) = blen cp1 + n) as Hlen by (rewrite blen_app, blen_fmap; lia).
      destruct (IH (pos + 1 + n) name_end pc (cp1 ++ (Some <$> bs))) as [(r & -> & Hr')|[-> Hshort]]; [lia|done|right; lia|lia| |by right].
      left. exists r. split; [done|]. destruct r as [[cp' e]| |]; try done. destruct Hr' as (H1 & H2 & H3). split; [done|]. split.
      * intros Hc. apply H2, Forall_app. split; [by apply Hs1|]. apply Forall_fmap, Forall_true. by eexists.
      * destruct (name_end <? 0); [lia|done].
    + destruct (decide (pos + 1 + n <= blen m + blen rest)) as [Hin|Hout'].
      * rewrite read_cells_ok by (rewrite ?blen_app; lia). erewrite pm_next by reflexivity. destruct fuel as [|fuel]; [lia|]. cbn [name_loop].
        destruct (received_get 1 m rest (pos + 1 + n) Hm) as [[-> _]|[Hbad _]]; [lia|by left; eexists|]. change (Z.of_nat 1) with 1 in *. lia.
      * right. unfold read_cells. rewrite blen_app. zdecide. split; [done|lia].
  - change (Z.of_nat 1) with 1 in *.
    destruct (received_get 1 m rest (pos + 1) Hm) as [[-> _]|(Hle2 & bs & Hl2 & ->)]; [lia|by left; eexists|].
    erewrite pm_next by reflexivity. cbv beta iota. change (Z.of_nat 1) with 1 in *. set (t := Z.shiftl _ 8 + _).
    destruct ((t <? 0) || (t >=? blen m)) eqn:Ht; [by left; eexists|]. bool_props.
    destruct (Z.gtb_spec (pc + 1) (blen m)); [by left; eexists|].
    destruct (IH t (if name_end <? 0 then pos + 1 + 1 else name_end) (pc + 1) cp) as [(r & -> & Hr')|[-> Hshort]]; [done|lia|done|lia| |by right].
    left. exists r. split; [done|]. destruct r as [[cp' e]| |]; try done. destruct Hr' as (Hc1 & Hc2 & Hc3). split; [done|]. split; [done|].
    destruct (Z.ltb_spec name_end 0); [|by rewrite (proj2 (Z.ltb_ge name_end 0)) in Hc3].
    rewrite (proj2 (Z.ltb_ge (pos + 1 + 1) 0)) in Hc3 by lia. lia.
Qed.

(** [name_parse] on any message: it returns, and reads outside the packet's
    buffer only if fewer than 63 bytes of it follow the message. *)
Lemma name_parse_total m rest pos nol : received m -> 0 <= pos -> 0 < nol ->
  (exists r, name_parse (m ++ rest) (blen m) pos nol = Ok r /\
    match r with Some (name, e) => blen name < nol /\ pos < e <= blen m | None => True end) \/
  (name_parse (m ++ rest) (blen m) pos nol = UB OutOfBounds /\ blen rest < 63).
Proof.
  intros Hm Hpos Hnol. unfold name_parse. pose proof (blen_nonneg m).
  destruct (name_loop_total m rest nol Hm (name_fuel (blen m) nol) pos (-1) 0 []) as [(r & -> & Hr)|[-> Hs]];
    [done|lia|by left|unfold name_fuel; rewrite blen_nil; lia| |by right].
  left. destruct r as [[cp e]| |]; [|by exists None..]. destruct Hr as (H1 & H2 & H3). cbn in H3.
  destruct (mapM_is_Some_2 id cp) as [name Hname]; [by apply H2|]. rewrite Hname. exists (Some (name, e)). split; [done|].
  split; [|done]. apply length_mapM in Hname. unfold blen in *. lia.
Qed.
