(* ===== verification/DnsWrite.v ===== *)
(** Writing DNS names with compression. *)
From S2P Require Import Prelude.
From S2P Require Import Dns DnsName.

Implicit Types (m buf : list cell) (name label : list byte).

(** * Labels *)

Lemma cut_dot_eq name l r : cut_dot name = (l, r) -> name = l ++ match r with None => [] | Some r => dot :: r end.
Proof.
  revert l r. induction name as [|b name IH]; intros l r; cbn; [by intros [= <- <-]|]. case_decide as Hd; [by intros [= <- <-]; subst|].
  destruct (cut_dot name) as [l' r'] eqn:Hc. intros [= <- <-]. cbn. f_equal. by apply IH.
Qed.

Lemma labels_of_fuel name : forall n1 n2, (length name < n1)%nat -> (length name < n2)%nat -> labels_of' n1 name = labels_of' n2 name.
Proof.
  intros n1. revert name. induction n1 as [|n1 IH]; intros name n2 H1 H2; [lia|]. destruct n2 as [|n2]; [lia|]. cbn [labels_of'].
  destruct name as [|b name]; [done|]. destruct (cut_dot (b :: name)) as [l [r|]] eqn:Hc; [|done]. f_equal.
  apply cut_dot_eq in Hc. apply (f_equal length) in Hc. rewrite length_app in Hc. cbn in *. apply IH; lia.
Qed.

Lemma labels_of_cut name l r : name <> [] -> cut_dot name = (l, r) ->
  labels_of name = l :: match r with None => [] | Some r => labels_of r end.
Proof.
  intros Hne Hc. unfold labels_of at 1. cbn [labels_of']. destruct name as [|b name]; [done|]. rewrite Hc. f_equal.
  destruct r as [r|]; [|done]. apply cut_dot_eq in Hc. apply (f_equal length) in Hc. rewrite length_app in Hc. cbn in Hc.
  unfold labels_of. apply labels_of_fuel; cbn; lia.
Qed.

(** The text of a name's labels is the name, but for a dot at its end. *)
Lemma text_labels name : text false (labels_of name) = name \/ text false (labels_of name) ++ [dot] = name \/ [] ∈ labels_of name.
Proof.
  remember (length name) as n eqn:Hn. revert name Hn. induction n as [n IH] using lt_wf_ind; intros name Hn.
  destruct (decide (name = [])) as [->|Hne]; [by left|]. destruct (cut_dot name) as [l r] eqn:Hc.
  rewrite (labels_of_cut name l r Hne Hc). pose proof (cut_dot_eq _ _ _ Hc) as Heq. destruct r as [r|].
  - destruct (IH (length r)) with (name := r) as [Hr|[Hr|Hr]]; [rewrite Hn, Heq, length_app; cbn; lia|done| | |right; right; by right].
    + destruct (labels_of r) as [|l1 ls] eqn:Hl.
      * cbn in *. subst r. destruct l; [right; right; left|right; left]. by rewrite app_nil_r.
      * left. cbn in *. rewrite Heq. do 2 f_equal. exact Hr.
    + destruct (labels_of r) as [|l1 ls] eqn:Hl.
      * cbn in Hr. subst r. cbv in Hl. discriminate.
      * right. left. cbn in *. rewrite Heq, <- app_assoc. do 2 f_equal. cbn. f_equal. exact Hr.
  - left. cbn. by rewrite app_nil_r, Heq, app_nil_r.
Qed.

Lemma text_len_name name : Forall (fun l => 1 <= blen l) (labels_of name) -> text_len false (labels_of name) <= blen name.
Proof.
  intros H. unfold text_len. destruct (text_labels name) as [Ht|[Ht|Hin]].
  - by rewrite Ht.
  - rewrite <- Ht at 2. rewrite blen_app. change (blen [dot]) with 1. lia.
  - rewrite Forall_forall in H. specialize (H [] Hin). rewrite blen_nil in H. lia.
Qed.

(** * Writing a name *)

Definition entry_ok m (x : list byte * Z) : Prop :=
  exists k e, encodes m (snd x) (labels_of (fst x)) k e /\ 0 <= k <= snd x /\ snd x < 2 ^ 14.

Lemma entry_ok_mono m m' x : defines m m' -> entry_ok m x -> entry_ok m' x.
Proof. intros Hd (k & e & He & Hk). exists k, e. split; [by apply (encodes_mono m)|done]. Qed.

Lemma get_pos_found m t name (P : list byte * Z -> Prop) : Forall P t ->
  match dnslabel_table_get_pos t name with
  | pos => pos = -1 \/ P (name, pos)
  end.
Proof.
  induction 1 as [|[v pos] t Hx _ IH]; cbn; [by left|]. case_bool_decide as Hd; [subst; by right|done].
Qed.

(** The entries of the table: names that were in the message before [j0], and
    longer ones that are being written. *)
Definition table_ok m (j0 : Z) name (t : option dnslabel_table) : Prop :=
  match t with None => True | Some t => Forall (fun x => entry_ok m x /\ snd x < j0 \/ blen name < blen (fst x)) t end.

(** What was added to the table is in the message. *)
Definition table_grown m (t t' : option dnslabel_table) : Prop :=
  match t, t' with
  | None, None => True
  | Some t, Some t' => exists new, t' = t ++ new /\ Forall (entry_ok m) new
  | _, _ => False
  end.

Lemma load_byte m pos b : holds m pos [b] -> load m pos 1 = Ok [b].
Proof. intros H. by apply (holds_load m pos [b] H). Qed.

Lemma end_labels_zero m j : fresh_from m j -> holds m (j - 1) [Byte.x00] -> end_labels m j = Ok (m, j).
Proof.
  intros Hf Hh. unfold end_labels. assert (0 < j) as Hj by (destruct Hh; lia). zdecide.
  rewrite (load_byte m (j - 1) _ Hh). by rewrite bind_Ok.
Qed.

Lemma end_labels_char m j b : fresh_from m j -> holds m (j - 1) [b] -> b <> Byte.x00 -> j + 1 <= blen m ->
  exists m', end_labels m j = Ok (m', j + 1) /\ blen m' = blen m /\ defines m m' /\ holds m' j [Byte.x00] /\ fresh_from m' (j + 1) /\ same_below m m' j.
Proof.
  intros Hf Hh Hb Hroom. destruct (put_ok m j [Byte.x00] Hf) as (m' & Hput & Hlen & Hd & Hz & Hf' & Hsb); [done|].
  exists m'. split; [|done]. unfold end_labels. assert (0 < j) as Hj by (destruct Hh; lia). zdecide.
  rewrite (load_byte m (j - 1) _ Hh). rewrite bind_Ok, be_value_one.
  assert (byte.unsigned b <> 0) as Hnz. { intros H0. apply Hb. by destruct b. }
  rewrite (proj2 (Z.eqb_neq _ _) Hnz), bind_Ok, Hput. done.
Qed.

(** One label. *)
Lemma write_label m j label : fresh_from m j -> blen label <= 63 -> j + 1 + blen label <= blen m ->
  exists m1 m', put m j [byte.of_Z (blen label)] = Ok m1 /\ put m1 (j + 1) label = Ok m' /\ blen m' = blen m /\ defines m m' /\
    holds m' j (byte.of_Z (blen label) :: label) /\ fresh_from m' (j + 1 + blen label) /\ same_below m m' j.
Proof.
  intros Hf Hl Hroom. pose proof (blen_nonneg label). destruct (put_ok m j [byte.of_Z (blen label)] Hf) as (m1 & H1 & L1 & D1 & A1 & F1 & S1); [change (blen [_]) with 1; lia|].
  change (blen [_]) with 1 in F1.
  destruct (put_ok m1 (j + 1) label F1) as (m' & H2 & L2 & D2 & A2 & F2 & S2); [lia|]. exists m1, m'. split; [done|]. split; [done|].
  split; [lia|]. split; [by transitivity m1|]. split; [|split; [done|apply (same_below_trans m m1 m' j (j + 1)); [done|done|lia]]].
  apply (holds_app m' j [_] label). split; [by apply (holds_mono m1)|done].
Qed.

(** A name was written from [j] to [j'], with references to what was there before
    [j0]. *)
Record name_written m m' (j0 j j' : Z) name : Prop := {
  nw_len : blen m' = blen m;
  nw_defines : defines m m';
  nw_fresh : fresh_from m' j';
  nw_bound : j' <= j + blen name + 2;
  nw_below : same_below m m' j;
  nw_encodes : exists k, encodes m' j (labels_of name) k j' /\ 0 <= k <= j0
}.

Lemma table_add_cases (d : bool) t name j : dnslabel_table_add d t name j = t \/ dnslabel_table_add d t name j = t ++ [(name, j)].
Proof. unfold dnslabel_table_add. case_match; [by left|by right]. Qed.

(** A reference to a name that is in the message. *)
Lemma write_reference m j0 j t pos name : fresh_from m j -> entry_ok m (name, pos) -> j + 2 <= blen m -> pos < j0 ->
  exists m', append 2 j (Z.lor pos 0xc000) m = Ok (Next (j + 2), m') /\ name_written m m' j0 j (j + 2) name /\
    table_grown m' (Some t) (Some t).
Proof.
  intros Hf (k & e & He & Hk & Hp) Hroom Hlt. cbn [fst snd] in *.
  destruct (append_ok 2 m j (Z.lor pos 0xc000) Hf) as (m' & Ha & Hl & Hd & Hh & Hf' & Hsb); [lia|]. change (Z.of_nat 2) with 2 in *.
  exists m'. split; [done|]. split; [|exists []; by rewrite app_nil_r]. split; try done.
  - pose proof (blen_nonneg name). lia.
  - exists (k + 1). split; [|lia]. apply (enc_pointer m' j pos (labels_of name) k e); [lia|done|by apply (encodes_mono m)].
Qed.

(** The last label, which may be empty. *)
Lemma write_last m j0 j label : fresh_from m j -> 0 <= j0 -> (label <> [] -> label_ok label) -> j + blen label + 2 <= blen m ->
  cut_dot label = (label, None) ->
  exists m1 m2 m' j', put m j [byte.of_Z (blen label)] = Ok m1 /\ put m1 (j + 1) label = Ok m2 /\
    end_labels m2 (j + 1 + blen label) = Ok (m', j') /\ name_written m m' j0 j j' label.
Proof.
  intros Hf Hj0 Hok Hroom Hcut. pose proof (blen_nonneg label) as Hb0.
  assert (blen label <= 63) as H63. { destruct (decide (label = [])) as [->|Hne]; [rewrite blen_nil; lia|]. destruct (Hok Hne); lia. }
  destruct (write_label m j label Hf H63) as (m1 & m2 & H1 & H2 & L2 & D2 & A2 & F2 & S2); [lia|]. exists m1, m2.
  destruct (decide (label = [])) as [->|Hne].
  - rewrite blen_nil in *. exists m2, (j + 1). split; [done|]. split; [done|]. replace (j + 1 + 0) with (j + 1) in * by lia.
    change (byte.of_Z 0) with Byte.x00 in A2. split.
    + apply end_labels_zero; [done|]. by replace (j + 1 - 1) with j by lia.
    + split; try done; [rewrite blen_nil; lia|]. exists 0. split; [by apply enc_end|]. lia.
  - destruct (Hok Hne) as [Hlen Hnul]. pose proof A2 as A2'. apply (holds_app m2 j [_] label) in A2 as [_ A3]. change (blen [_]) with 1 in A3.
    destruct label as [|b0 lab _] using rev_ind; [done|]. apply holds_app in A3 as [_ A4]. rewrite blen_app in *. change (blen [b0]) with 1 in *.
    destruct (end_labels_char m2 (j + 1 + (blen lab + 1)) b0) as (m' & He & L' & D' & Hz & F' & S').
    + done.
    + by replace (j + 1 + (blen lab + 1) - 1) with (j + 1 + blen lab) by lia.
    + intros ->. apply Hnul. apply elem_of_app. right. left.
    + lia.
    + exists m', (j + 1 + (blen lab + 1) + 1). split; [done|]. split; [done|]. split; [done|].
      split; [lia|by transitivity m2|done|rewrite blen_app; change (blen [b0]) with 1; lia| |].
      { by apply (same_below_trans m m2 m' j _ S2 S'); pose proof (blen_nonneg lab); lia. }
      exists 0. split; [|lia].
      rewrite (labels_of_cut _ _ _ Hne Hcut). apply enc_label.
      * rewrite blen_app. by change (blen [b0]) with 1.
      * rewrite blen_app. change (blen [b0]) with 1. by apply (holds_mono m2).
      * rewrite blen_app. change (blen [b0]) with 1. by apply enc_end.
Qed.

(** The table after the name that starts at [j] is written. *)
Lemma table_grown_add (d : bool) m name j k e t t' : encodes m j (labels_of name) k e -> 0 <= k <= j -> j < 2 ^ 14 ->
  table_grown m (option_map (fun t => dnslabel_table_add d t name j) t) t' -> table_grown m t t'.
Proof.
  intros He Hk Hj Hg. destruct t as [t|], t' as [t'|]; try done. cbn in Hg |- *.
  destruct (table_add_cases d t name j) as [Ha|Ha]; rewrite Ha in Hg; [done|]. destruct Hg as (new & -> & Hnew).
  exists ((name, j) :: new). split; [by rewrite <- app_assoc|]. constructor; [|done]. by exists k, e.
Qed.

Lemma encodes_before m pos ls k e j : encodes m pos ls k e -> fresh_from m j -> pos < j.
Proof.
  intros Henc Hf. assert (exists b, holds m pos [b]) as [b Hb].
  { inversion Henc as [? Hh|? l ? ? ? _ Hh _|? x ? ? ? Hx Hh _]; subst; [eauto| |].
    - apply (holds_app m pos [_] l) in Hh as [Hh _]. eauto.
    - destruct (pointer_bytes x Hx) as (hi & lo & Hb & _). rewrite Hb in Hh. apply (holds_app m pos [hi] [lo]) in Hh as [Hh _]. eauto. }
  pose proof (holds_before m pos [b] j Hb Hf) as Hbef. change (blen [b]) with 1 in Hbef. assert (pos + 1 <= j) by (by apply Hbef). lia.
Qed.

Lemma labels_loop_ok dup fuel : forall name m j0 j t, (length name < fuel)%nat -> fresh_from m j -> 0 <= j0 <= j ->
  Forall label_ok (labels_of name) -> table_ok m j0 name t -> j + blen name + 2 <= blen m -> blen m <= 2 ^ 14 ->
  exists m' t' j', labels_loop fuel dup m j name t = Ok (m', t', j') /\ name_written m m' j0 j j' name /\ table_grown m' t t'.
Proof.
  induction fuel as [|fuel IH]; intros name m j0 j t Hfuel Hf Hj0 Hok Ht Hroom Hbig; [lia|]. cbn [labels_loop].
  set (ref := match t with Some _ => _ | None => _ end). pose proof (blen_nonneg name) as Hn0.
  assert (ref = -1 \/ exists t0, t = Some t0 /\ entry_ok m (name, ref) /\ ref < j0) as Href.
  { unfold ref. destruct t as [t|]; [|by left]. destruct (get_pos_found m t name _ Ht) as [|[He|Hbad]]; [by left|right; eauto|]. cbn in Hbad. lia. }
  destruct Href as [->|(t0 & -> & He & Hlt)].
  { change (-1 >=? 0) with false. cbv iota. destruct (cut_dot name) as [label rest] eqn:Hcut.
    pose proof (cut_dot_eq _ _ _ Hcut) as Heq.
    assert (label <> [] -> label_ok label) as Hlab.
    { intros Hne. assert (name <> []) as Hnn by (intros ->; by destruct label). rewrite (labels_of_cut _ _ _ Hnn Hcut) in Hok.
      by apply Forall_cons in Hok as [? _]. }
    assert (blen label <= 63) as H63. { destruct (decide (label = [])) as [->|Hne]; [rewrite blen_nil; lia|]. destruct (Hlab Hne); lia. }
    assert (blen label <= blen name) as Hln by (rewrite Heq, blen_app; pose proof (blen_nonneg (match rest with None => [] | Some r => dot :: r end)); lia).
    zdecide. set (t1 := option_map _ t). destruct rest as [rest|].
    - assert (name <> []) as Hnn by (intros ->; by destruct label). pose proof (labels_of_cut _ _ _ Hnn Hcut) as Hls. rewrite Hls in Hok.
      apply Forall_cons in Hok as [Hl1 Hok]. assert (blen name = blen label + 1 + blen rest) as Hlen by (rewrite Heq, blen_app, blen_cons; lia).
      destruct (write_label m j label Hf H63) as (m1 & m2 & Hp1 & Hp2 & L2 & D2 & A2 & F2 & S2); [lia|]. rewrite Hp1, bind_Ok, Hp2, bind_Ok.
      pose proof (blen_nonneg label).
      destruct (IH rest m2 j0 (j + 1 + blen label) t1) as (m' & t' & j' & Hrun & [L' D' F' B' S' (k & Henc & Hk)] & Hg); [|done|lia|done| |lia|lia|].
      + apply (f_equal length) in Heq. rewrite length_app in Heq. cbn in Heq. lia.
      + unfold t1. destruct t as [t|]; [|done]. cbn in Ht |- *.
        assert (Forall (fun x => entry_ok m2 x /\ snd x < j0 \/ blen rest < blen (fst x)) t) as Ht2.
        { eapply Forall_impl; [exact Ht|]. intros x [[Hx Hx']|Hx]; [left; split; [by apply (entry_ok_mono m)|done]|right; lia]. }
        destruct (table_add_cases (dup name j) t name j) as [->| ->]; [done|]. apply Forall_app. split; [done|]. apply Forall_singleton. right. cbn. lia.
      + exists m', t', j'. split; [done|]. assert (encodes m' j (labels_of name) k j') as Hname.
        { rewrite Hls. apply enc_label; [by destruct Hl1|by apply (holds_mono m2)|done]. }
        split; [|apply (table_grown_add (dup name j) m' name j k j'); [done|lia|lia|done]].
        split; [lia|by transitivity m2|done|lia|apply (same_below_trans m m2 m' j _ S2 S'); lia|by exists k].
    - rewrite app_nil_r in Heq. subst label. destruct (write_last m j0 j name Hf) as (m1 & m2 & m' & j' & Hp1 & Hp2 & He & Hw); [lia|done|lia|done|].
      rewrite Hp1, bind_Ok, Hp2, bind_Ok, He, bind_Ok. exists m', t1, j'. split; [done|]. split; [done|].
      pose proof Hw as [_ _ _ _ _ (k & Henc & Hk)]. apply (table_grown_add (dup name j) m' name j k j'); [done|lia|lia|].
      fold t1. destruct t1; [|done]. exists []. by rewrite app_nil_r. }
  assert (0 <= ref) as Hr0 by (destruct He as (k & e & Henc & _); by pose proof (encodes_pos _ _ _ _ _ Henc) as (? & _)).
  zdecide. destruct (write_reference m j0 j t0 ref name Hf He) as (m' & Hrun & Hw & Hg); [lia|done|]. rewrite Hrun, bind_Ok.
  by exists m', (Some t0), (j + 2).
Qed.

(** A whole name, with a table of names that are in the message. *)
Lemma dnsname_to_labels_ok dup m j name t : fresh_from m j -> name_ok name -> j + blen name + 2 <= blen m -> blen m <= 2 ^ 14 ->
  match t with None => True | Some t => Forall (entry_ok m) t end ->
  exists m' t' j', dnsname_to_labels dup m j name t = Ok (m', t', j') /\ name_written m m' j j j' name /\
    match t, t' with None, None => True | Some t, Some t' => Forall (entry_ok m') t' | _, _ => False end.
Proof.
  intros Hf [Hok Hlen] Hroom Hbig Ht. unfold dnsname_to_labels. zdecide.
  destruct (labels_loop_ok dup (S (length name)) name m j j t) as (m' & t' & j' & Hrun & Hw & Hg); try done; [lia|destruct Hf; lia| |].
  - destruct t as [t|]; [|done]. eapply Forall_impl; [exact Ht|]. intros [v pos] He. left. split; [done|]. cbn.
    destruct He as (k & e & Henc & _). cbn [fst snd] in Henc. by apply (encodes_before m pos (labels_of v) k e).
  - exists m', t', j'. split; [done|]. split; [done|]. destruct t as [t|], t' as [t'|]; try done. destruct Hg as (new & -> & Hnew).
    apply Forall_app. split; [|done]. eapply Forall_impl; [exact Ht|]. intros x. by apply entry_ok_mono, (nw_defines _ _ _ _ _ _ Hw).
Qed.
