(* ===== verification/DnsMessage.v ===== *)
(** DNS messages: what the server writes is where the client looks for it. *)
From S2P Require Import Prelude.
From S2P Require Import Dns DnsName DnsWrite.

Implicit Types (m buf : list cell) (name : list byte).

(** * The parts of a message *)

Definition name_at m (pos : Z) name (e : Z) : Prop := exists k, encodes m pos (labels_of name) k e /\ 0 <= k <= pos.

Lemma name_at_mono m m' pos name e : defines m m' -> name_at m pos name e -> name_at m' pos name e.
Proof. intros Hd (k & He & Hk). exists k. split; [by apply (encodes_mono m)|done]. Qed.

Definition question_at m (pos : Z) (q : question) (e : Z) : Prop :=
  exists e0, name_at m pos (q_name q) e0 /\ holds m e0 (be_bytes 2 (q_type q) ++ be_bytes 2 (q_class q)) /\ e = e0 + 4.

Lemma question_at_mono m m' pos q e : defines m m' -> question_at m pos q e -> question_at m' pos q e.
Proof. intros Hd (e0 & Hn & Hh & He). exists e0. split; [by apply (name_at_mono m)|]. split; [by apply (holds_mono m)|done]. Qed.

(** The data of a record, of [len] bytes. *)
Definition data_at m (pos : Z) (item : reply_item) (e : Z) : Prop :=
  if ri_is_name item then exists d, ri_data item = Some d /\ name_at m pos d e
  else holds m pos (default [] (ri_data item)) /\ e = pos + ri_datalen item.

Definition item_at m (pos : Z) (item : reply_item) (e : Z) : Prop :=
  exists e0, name_at m pos (ri_name item) e0 /\
    holds m e0 (be_bytes 2 (ri_type item) ++ be_bytes 2 (ri_class item) ++ be_bytes 4 (ri_ttl item) ++ be_bytes 2 (e - (e0 + 10))) /\
    data_at m (e0 + 10) item e.

Lemma item_at_mono m m' pos item e : defines m m' -> item_at m pos item e -> item_at m' pos item e.
Proof.
  intros Hd (e0 & Hn & Hh & Hda). exists e0. split; [by apply (name_at_mono m)|]. split; [by apply (holds_mono m)|].
  unfold data_at in *. destruct (ri_is_name item).
  - destruct Hda as (d & Hd' & Hn'). exists d. split; [done|by apply (name_at_mono m)].
  - destruct Hda as [Hh' ->]. split; [by apply (holds_mono m)|done].
Qed.

(** Parts one after the other. *)
Inductive parts_at {A} (part : list cell -> Z -> A -> Z -> Prop) m : Z -> list A -> Z -> Prop :=
| parts_nil pos : parts_at part m pos [] pos
| parts_cons pos x pos1 xs e : part m pos x pos1 -> parts_at part m pos1 xs e -> parts_at part m pos (x :: xs) e.

Lemma parts_at_mono {A} (part : list cell -> Z -> A -> Z -> Prop) m m' pos xs e :
  (forall pos x e, part m pos x e -> part m' pos x e) -> parts_at part m pos xs e -> parts_at part m' pos xs e.
Proof. intros Hm. induction 1; [constructor|econstructor; eauto]. Qed.

Lemma parts_at_app {A} (part : list cell -> Z -> A -> Z -> Prop) m pos xs e ys e' :
  parts_at part m pos xs e -> parts_at part m e ys e' -> parts_at part m pos (xs ++ ys) e'.
Proof. induction 1; intros Hy; [done|econstructor; eauto]. Qed.

Lemma name_at_filled m pos name e : name_at m pos name e -> filled m pos e.
Proof. intros (k & He & _). exact (encodes_filled _ _ _ _ _ He). Qed.

Lemma question_at_filled m pos q e : question_at m pos q e -> filled m pos e.
Proof.
  intros (e0 & Hn & Hh & ->). apply (filled_app _ _ e0); [by eapply name_at_filled|]. exact (holds_filled _ _ _ Hh).
Qed.

Lemma parts_at_filled {A} (part : list cell -> Z -> A -> Z -> Prop) m pos xs e : (forall pos x e, x ∈ xs -> part m pos x e -> filled m pos e) ->
  parts_at part m pos xs e -> filled m pos e.
Proof.
  intros Hpart Hp. induction Hp as [pos|pos x pos1 xs e Hx Hxs IH]; [intros i Hi; lia|].
  apply (filled_app _ _ pos1); [apply (Hpart _ x); [left|done]|]. apply IH. intros p y e' Hy. apply Hpart. by right.
Qed.

(** * What can be written *)

Definition item_ok (item : reply_item) : Prop :=
  name_ok (ri_name item) /\ 0 <= ri_type item < 2 ^ 16 /\ 0 <= ri_class item < 2 ^ 16 /\ 0 <= ri_ttl item < 2 ^ 32 /\
  if ri_is_name item then exists d, ri_data item = Some d /\ name_ok d
  else ri_datalen item = blen (default [] (ri_data item)) /\ ri_datalen item < 2 ^ 16.

Definition question_ok (q : question) : Prop := name_ok (q_name q) /\ 0 <= q_type q < 2 ^ 16 /\ 0 <= q_class q < 2 ^ 16.

Lemma item_at_filled m pos item e : item_ok item -> item_at m pos item e -> filled m pos e.
Proof.
  intros (_ & _ & _ & _ & Hl) (e0 & Hn & Hh & Hd). apply (filled_app _ _ e0); [by eapply name_at_filled|].
  apply (filled_app _ _ (e0 + 10)); [exact (holds_filled _ _ _ Hh)|]. unfold data_at in Hd. destruct (ri_is_name item).
  - destruct Hd as (d & _ & Hd). by eapply name_at_filled.
  - destruct Hd as [Hd ->]. destruct Hl as [-> _]. exact (holds_filled _ _ _ Hd).
Qed.

(** The room a part takes at most. *)
Definition item_size (item : reply_item) : Z :=
  blen (ri_name item) + 12 + if ri_is_name item then blen (default [] (ri_data item)) + 2 else ri_datalen item.

Definition question_size (q : question) : Z := blen (q_name q) + 6.

Fixpoint total {A} (f : A -> Z) (xs : list A) : Z := match xs with [] => 0 | x :: xs => f x + total f xs end.

(** * Writing the parts *)

Record wstate m (j : Z) (t : dnslabel_table) : Prop := {
  ws_fresh : fresh_from m j;
  ws_table : Forall (entry_ok m) t;
  ws_big : blen m <= 2 ^ 14
}.

Definition grown m m' : Prop := blen m' = blen m /\ defines m m'.

#[export] Instance grown_refl : Reflexive grown.
Proof. by split. Qed.

#[export] Instance grown_trans : Transitive grown.
Proof. intros m1 m2 m3 [L1 D1] [L2 D2]. split; [congruence|by transitivity m2]. Qed.

Lemma table_mono m m' t : defines m m' -> Forall (entry_ok m) t -> Forall (entry_ok m') t.
Proof. intros Hd Ht. eapply Forall_impl; [exact Ht|]. intros x. by apply entry_ok_mono. Qed.

Lemma append_step k m j t x : wstate m j t -> j + Z.of_nat k <= blen m ->
  exists m', append k j x m = Ok (Next (j + Z.of_nat k), m') /\ wstate m' (j + Z.of_nat k) t /\ grown m m' /\ holds m' j (be_bytes k x).
Proof.
  intros [Hf Ht Hb] Hroom. destruct (append_ok k m j x Hf Hroom) as (m' & Ha & Hl & Hd & Hh & Hf' & _).
  exists m'. split; [done|]. split; [split; [done|by apply (table_mono m)|lia]|]. by split.
Qed.

Lemma write_name_step dup m j t name : wstate m j t -> name_ok name -> j + blen name + 2 <= blen m ->
  exists m' t' j', write_name dup j name (Some t) m = Ok (Next (Some t', j'), m') /\ wstate m' j' t' /\ grown m m' /\
    name_at m' j name j' /\ (0 <= j < j' /\ j' <= j + blen name + 2) /\ same_below m m' j.
Proof.
  intros [Hf Ht Hb] Hn Hroom.
  destruct (dnsname_to_labels_ok dup m j name (Some t) Hf Hn Hroom Hb Ht) as (m' & t' & j' & Hrun & [L D F B S (k & He & Hk)] & Ht').
  destruct t' as [t'|]; [|done]. exists m', t', j'. unfold write_name. rewrite Hrun, bind_Ok. split; [done|].
  split; [split; [done|done|lia]|]. split; [by split|]. split; [by exists k|]. split; [|done].
  pose proof (encodes_pos _ _ _ _ _ He). lia.
Qed.

(** Four bytes of type and class. *)
Lemma question_step dup m j t q : wstate m j t -> question_ok q -> j + question_size q <= blen m ->
  exists m' t' j', (forall qs, write_questions dup j (q :: qs) (Some t) m = write_questions dup j' qs (Some t') m') /\
    wstate m' j' t' /\ grown m m' /\ question_at m' j q j' /\ (0 <= j < j' /\ j' <= j + question_size q).
Proof.
  intros H (Hn & Hty & Hcl) Hroom. unfold question_size in *.
  destruct (write_name_step dup m j t (q_name q) H Hn) as (m1 & t1 & j1 & R1 & W1 & [L1 D1] & N1 & B1 & _); [lia|].
  destruct (append_step 2 m1 j1 t1 (q_type q) W1) as (m2 & R2 & W2 & [L2 D2] & H2); [lia|].
  destruct (append_step 2 m2 (j1 + Z.of_nat 2) t1 (q_class q) W2) as (m3 & R3 & W3 & [L3 D3] & H3); [lia|].
  change (Z.of_nat 2) with 2 in *. exists m3, t1, (j1 + 2 + 2). split; [|split; [done|split; [|split]]].
  - intros qs. cbn [write_questions]. erewrite wm_next by exact R1. cbv beta iota. zdecide.
    erewrite wm_next by exact R2. erewrite wm_next by exact R3. done.
  - split; [lia|]. transitivity m1; [done|]. by transitivity m2.
  - exists j1. split; [|split; [|lia]].
    + apply (name_at_mono m1); [by transitivity m2|done].
    + apply holds_app. rewrite blen_be_bytes. split; [by apply (holds_mono m2)|done].
  - lia.
Qed.

Lemma write_questions_ok dup qs : forall m j t, wstate m j t -> Forall question_ok qs -> j + total question_size qs <= blen m ->
  exists m' t' j', write_questions dup j qs (Some t) m = Ok (Next (Some t', j'), m') /\ wstate m' j' t' /\ grown m m' /\
    parts_at question_at m' j qs j' /\ j <= j' <= j + total question_size qs.
Proof.
  induction qs as [|q qs IH]; intros m j t H Hok Hroom; cbn [total] in *.
  - exists m, t, j. split; [done|]. split; [done|]. split; [done|]. split; [constructor|lia].
  - apply Forall_cons in Hok as [Hq Hok].
    assert (0 <= total question_size qs) as Ht0.
    { clear. induction qs as [|q qs IH]; cbn; [lia|]. unfold question_size at 1. pose proof (blen_nonneg (q_name q)). lia. }
    destruct (question_step dup m j t q H Hq) as (m1 & t1 & j1 & R1 & W1 & G1 & Q1 & B1); [lia|].
    destruct (IH m1 j1 t1 W1 Hok) as (m' & t' & j' & R' & W' & G' & Q' & B'); [destruct G1; lia|].
    exists m', t', j'. rewrite R1. split; [done|]. split; [done|]. split; [by transitivity m1|]. split; [|lia].
    econstructor; [|done]. apply (question_at_mono m1); [apply G'|done].
Qed.

(** The fixed part of a record: name, type, class and time to live. *)
Lemma item_head_step dup m j t item : wstate m j t -> item_ok item -> j + blen (ri_name item) + 10 <= blen m ->
  exists m' t' e0, wstate m' (e0 + 8) t' /\ grown m m' /\ name_at m' j (ri_name item) e0 /\
    holds m' e0 (be_bytes 2 (ri_type item) ++ be_bytes 2 (ri_class item) ++ be_bytes 4 (ri_ttl item)) /\
    (0 <= j < e0 /\ e0 <= j + blen (ri_name item) + 2) /\
    forall (B : Type) (k : option dnslabel_table -> Z -> wm B),
      ('(table, r) ← write_name dup j (ri_name item) (Some t);
       if r <? 0 then wgoto
       else j ← append 2 r (ri_type item); j ← append 2 j (ri_class item); j ← append 4 j (ri_ttl item); k table j) m =
      k (Some t') (e0 + 8) m'.
Proof.
  intros H (Hn & _) Hroom.
  destruct (write_name_step dup m j t (ri_name item) H Hn) as (m1 & t1 & j1 & R1 & W1 & [L1 D1] & N1 & B1 & _); [lia|].
  destruct (append_step 2 m1 j1 t1 (ri_type item) W1) as (m2 & R2 & W2 & [L2 D2] & H2); [lia|].
  destruct (append_step 2 m2 (j1 + Z.of_nat 2) t1 (ri_class item) W2) as (m3 & R3 & W3 & [L3 D3] & H3); [lia|].
  destruct (append_step 4 m3 (j1 + Z.of_nat 2 + Z.of_nat 2) t1 (ri_ttl item) W3) as (m4 & R4 & W4 & [L4 D4] & H4); [lia|].
  change (Z.of_nat 2) with 2 in *. change (Z.of_nat 4) with 4 in *. replace (j1 + 2 + 2 + 4) with (j1 + 8) in * by lia.
  exists m4, t1, j1. split; [done|]. split; [split; [lia|]; transitivity m1; [done|]; transitivity m2; [done|]; by transitivity m3|].
  split; [apply (name_at_mono m1); [|done]; transitivity m2; [done|]; by transitivity m3|].
  split; [|split; [done|]].
  - rewrite !holds_app, !blen_be_bytes. split; [apply (holds_mono m2); [by transitivity m3|done]|].
    split; [by apply (holds_mono m3)|done].
  - intros B k. erewrite wm_next by exact R1. cbv beta iota. zdecide. erewrite wm_next by exact R2.
    erewrite wm_next by exact R3. erewrite wm_next by exact R4. done.
Qed.

(** Data that is a name: its length is written after it. *)
Lemma name_data_step dup m j t d : wstate m j t -> name_ok d -> j + 4 + blen d <= blen m ->
  exists m' t' j', (('(table, r) ← write_name dup (j + 2) d (Some t);
      if r <? 0 then wgoto else wput j (be_bytes 2 (r - (j + 2)));; mret (table, r)) : wm (option dnslabel_table * Z)) m = Ok (Next (Some t', j'), m') /\
    wstate m' j' t' /\ grown m m' /\ name_at m' (j + 2) d j' /\ holds m' j (be_bytes 2 (j' - (j + 2))) /\ (j + 2 < j' /\ j' <= j + 4 + blen d).
Proof.
  intros [Hf Ht Hb] Hd Hroom. pose proof (blen_nonneg d) as Hd0. assert (0 <= j) as Hj by (by destruct Hf as [[? _] _]).
  assert (forall i, (i < 2)%nat -> m !! (Z.to_nat j + i)%nat = Some None) as Hgap.
  { intros i Hi. destruct Hf as [Hj' Hf]. rewrite <- lookup_drop, Hf. apply lookup_replicate. split; [done|]. unfold blen in *. lia. }
  assert (wstate m (j + 2) t) as H2.
  { split; [|done|done]. destruct Hf as [Hj' Hf]. split; [lia|]. replace (Z.to_nat (j + 2)) with (Z.to_nat j + 2)%nat by lia.
    rewrite <- drop_drop, Hf, drop_replicate. f_equal. lia. }
  destruct (write_name_step dup m (j + 2) t d H2 Hd) as (m1 & t1 & j1 & R1 & [F1 T1 B1] & [L1 D1] & N1 & J1 & S1); [lia|].
  destruct (put_gap m1 j (be_bytes 2 (j1 - (j + 2))) j1 F1) as (m2 & R2 & L2 & D2 & A2 & F2); [lia|rewrite blen_be_bytes; lia| |].
  { intros i Hi. unfold be_bytes in Hi. rewrite length_rev, length_le_split in Hi. rewrite S1 by lia. by apply Hgap. }
  exists m2, t1, j1. split; [|split; [split; [done|by apply (table_mono m1)|lia]|split; [split; [lia|by transitivity m1]|]]].
  - erewrite wm_next by exact R1. cbv beta iota. zdecide. erewrite wm_next; [reflexivity|]. unfold wput. by rewrite R2.
  - split; [by apply (name_at_mono m1)|]. split; [done|lia].
Qed.

(** Data that is copied. *)
Lemma raw_data_step m j t bs : wstate m j t -> j + 2 + blen bs <= blen m ->
  exists m', ((j ← append 2 j (blen bs); len ← buf_len; if j + blen bs >? len then wgoto
      else wput j (take (Z.to_nat (blen bs)) bs);; mret (Some t, j + blen bs)) : wm (option dnslabel_table * Z)) m = Ok (Next (Some t, j + 2 + blen bs), m') /\
    wstate m' (j + 2 + blen bs) t /\ grown m m' /\ holds m' j (be_bytes 2 (blen bs)) /\ holds m' (j + 2) bs.
Proof.
  intros H Hroom. pose proof (blen_nonneg bs). destruct (append_step 2 m j t (blen bs) H) as (m1 & R1 & [F1 T1 B1] & [L1 D1] & A1); [lia|].
  change (Z.of_nat 2) with 2 in *. destruct (put_ok m1 (j + 2) bs F1) as (m2 & R2 & L2 & D2 & A2 & F2 & _); [lia|].
  exists m2. split; [|split; [split; [done|by apply (table_mono m1)|lia]|split; [split; [lia|by transitivity m1]|]]].
  - erewrite wm_next by exact R1. erewrite wm_next by reflexivity. zdecide.
    assert (take (Z.to_nat (blen bs)) bs = bs) as -> by (apply take_ge; unfold blen; lia).
    erewrite wm_next; [reflexivity|]. unfold wput. by rewrite R2.
  - split; [by apply (holds_mono m1)|done].
Qed.

Lemma write_item_ok dup m j t item : wstate m j t -> item_ok item -> j + item_size item <= blen m ->
  exists m' t' j', write_item dup j item (Some t) m = Ok (Next (Some t', j'), m') /\ wstate m' j' t' /\ grown m m' /\
    item_at m' j item j' /\ j <= j' <= j + item_size item.
Proof.
  intros H Hok Hroom. pose proof Hok as (Hn & _ & _ & _ & Hdata). unfold item_size in *.
  assert (0 <= if ri_is_name item then blen (default [] (ri_data item)) + 2 else ri_datalen item) as Hd0.
  { destruct (ri_is_name item); [pose proof (blen_nonneg (default [] (ri_data item))); lia|]. destruct Hdata as [-> _]. apply blen_nonneg. }
  destruct (item_head_step dup m j t item H Hok) as (m1 & t1 & e0 & W1 & [L1 D1] & N1 & A1 & J1 & R1); [lia|].
  unfold write_item. rewrite R1. destruct (ri_is_name item) eqn:Hin.
  - destruct Hdata as (d & Hd & Hdok). rewrite Hd in *. change (default [] (Some d)) with d in *.
    destruct (name_data_step dup m1 (e0 + 8) t1 d W1 Hdok) as (m' & t' & j' & R' & W' & [L' D'] & N' & A' & J'); [lia|].
    exists m', t', j'. erewrite wm_next by reflexivity. split; [exact R'|]. split; [done|].
    split; [split; [lia|by transitivity m1]|]. split; [|lia]. exists e0. split; [by apply (name_at_mono m1)|].
    replace (e0 + 8 + 2) with (e0 + 10) in * by lia. split.
    + rewrite !app_assoc. apply holds_app. rewrite <- app_assoc. rewrite !blen_app, !blen_be_bytes. split; [by apply (holds_mono m1)|].
      change (e0 + (Z.of_nat 2 + (Z.of_nat 2 + Z.of_nat 4))) with (e0 + 8). done.
    + unfold data_at. rewrite Hin. by exists d.
  - destruct Hdata as [Hlen H16]. rewrite Hlen in *.
    destruct (raw_data_step m1 (e0 + 8) t1 (default [] (ri_data item)) W1) as (m' & R' & W' & [L' D'] & A' & A''); [lia|].
    eexists m', t1, _. split; [exact R'|]. split; [done|]. split; [split; [lia|by transitivity m1]|]. split; [|lia].
    exists e0. split; [by apply (name_at_mono m1)|]. replace (e0 + 8 + 2) with (e0 + 10) in * by lia. split.
    + rewrite !app_assoc. apply holds_app. rewrite <- app_assoc. rewrite !blen_app, !blen_be_bytes. split; [by apply (holds_mono m1)|].
      change (e0 + (Z.of_nat 2 + (Z.of_nat 2 + Z.of_nat 4))) with (e0 + 8). by replace (e0 + 10 + _ - (e0 + 10)) with (blen (default [] (ri_data item))) by lia.
    + unfold data_at. rewrite Hin, Hlen. done.
Qed.

Lemma item_size_nonneg item : item_ok item -> 0 <= item_size item.
Proof.
  intros (_ & _ & _ & _ & H). unfold item_size. pose proof (blen_nonneg (ri_name item)). destruct (ri_is_name item).
  - pose proof (blen_nonneg (default [] (ri_data item))). lia.
  - destruct H as [-> _]. pose proof (blen_nonneg (default [] (ri_data item))). lia.
Qed.

Lemma write_items_ok dup items : forall m j t, wstate m j t -> Forall item_ok items -> j + total item_size items <= blen m ->
  exists m' t' j', write_items dup j items (Some t) m = Ok (Next (Some t', j'), m') /\ wstate m' j' t' /\ grown m m' /\
    parts_at item_at m' j items j' /\ j <= j' <= j + total item_size items.
Proof.
  induction items as [|item items IH]; intros m j t H Hok Hroom; cbn [total write_items] in *.
  - exists m, t, j. split; [done|]. split; [done|]. split; [done|]. split; [constructor|lia].
  - apply Forall_cons in Hok as [Hi Hok].
    assert (0 <= total item_size items) as Ht0.
    { clear -Hok. induction Hok as [|x xs Hx _ IH]; cbn; [lia|]. pose proof (item_size_nonneg x Hx). lia. }
    destruct (write_item_ok dup m j t item H Hi) as (m1 & t1 & j1 & R1 & W1 & G1 & Q1 & B1); [lia|].
    destruct (IH m1 j1 t1 W1 Hok) as (m' & t' & j' & R' & W' & G' & Q' & B'); [destruct G1; lia|].
    exists m', t', j'. erewrite wm_next by exact R1. split; [done|]. split; [done|]. split; [by transitivity m1|]. split; [|lia].
    econstructor; [|done]. apply (item_at_mono m1); [apply G'|done].
Qed.

(** * Headers *)

Definition header_bytes (trans_id flags nq na nau nad : Z) : list byte :=
  be_bytes 2 trans_id ++ be_bytes 2 flags ++ be_bytes 2 nq ++ be_bytes 2 na ++ be_bytes 2 nau ++ be_bytes 2 nad.

Lemma header_ok m trans_id flags nq na nau nad : wstate m 0 [] -> 12 <= blen m ->
  exists m', header 0 trans_id flags nq na nau nad m = Ok (Next 12, m') /\ wstate m' 12 [] /\ grown m m' /\
    holds m' 0 (header_bytes trans_id flags nq na nau nad).
Proof.
  intros H Hroom. unfold header.
  destruct (append_step 2 m 0 [] trans_id H) as (m1 & R1 & W1 & [L1 D1] & A1); [lia|].
  destruct (append_step 2 m1 (0 + Z.of_nat 2) [] flags W1) as (m2 & R2 & W2 & [L2 D2] & A2); [lia|].
  destruct (append_step 2 m2 (0 + Z.of_nat 2 + Z.of_nat 2) [] nq W2) as (m3 & R3 & W3 & [L3 D3] & A3); [lia|].
  destruct (append_step 2 m3 (0 + Z.of_nat 2 + Z.of_nat 2 + Z.of_nat 2) [] na W3) as (m4 & R4 & W4 & [L4 D4] & A4); [lia|].
  destruct (append_step 2 m4 (0 + Z.of_nat 2 + Z.of_nat 2 + Z.of_nat 2 + Z.of_nat 2) [] nau W4) as (m5 & R5 & W5 & [L5 D5] & A5); [lia|].
  destruct (append_step 2 m5 (0 + Z.of_nat 2 + Z.of_nat 2 + Z.of_nat 2 + Z.of_nat 2 + Z.of_nat 2) [] nad W5) as (m6 & R6 & W6 & [L6 D6] & A6); [lia|].
  exists m6. erewrite wm_next by exact R1. erewrite wm_next by exact R2. erewrite wm_next by exact R3. erewrite wm_next by exact R4.
  erewrite wm_next by exact R5. split; [exact R6|]. split; [done|].
  assert (defines m5 m6 /\ defines m4 m6 /\ defines m3 m6 /\ defines m2 m6 /\ defines m1 m6) as (E5 & E4 & E3 & E2 & E1).
  { repeat split; [done|by transitivity m5|transitivity m4; [done|by transitivity m5]|transitivity m3; [done|]; transitivity m4; [done|by transitivity m5]|].
    transitivity m2; [done|]. transitivity m3; [done|]. transitivity m4; [done|]. by transitivity m5. }
  split; [split; [lia|by transitivity m1]|]. unfold header_bytes. rewrite !holds_app, !blen_be_bytes.
  split; [by apply (holds_mono m1)|]. split; [by apply (holds_mono m2)|]. split; [by apply (holds_mono m3)|].
  split; [by apply (holds_mono m4)|]. by split; [apply (holds_mono m5)|].
Qed.

(** * Reading the parts *)

(** The next number of a message. *)
Lemma next_int n m rest pos x bs : holds m pos (be_bytes (S n) x ++ bs) -> 0 <= x < 2 ^ (Z.of_nat (S n) * 8) ->
  get_field (S n) (m ++ rest) (blen m) pos = Ok (Next (x, pos + Z.of_nat (S n))) /\ holds m (pos + Z.of_nat (S n)) bs.
Proof.
  intros [H1 H2]%holds_app Hx. rewrite blen_be_bytes in H2. split; [|done]. apply (get_ok n _ _ _ _ (be_bytes (S n) x)).
  - apply (holds_mono m); [|done]. intros i c Hi. by apply lookup_app_l_Some.
  - by rewrite blen_be_bytes.
  - rewrite be_value_bytes. by apply Z.mod_small.
  - pose proof (holds_bound m pos _ H1 (be_bytes_nonempty n x)) as Hb. by rewrite blen_be_bytes in Hb.
Qed.

Lemma read_header_ok m rest a b c d e f : holds m 0 (header_bytes a b c d e f) ->
  0 <= a < 2 ^ 16 -> 0 <= b < 2 ^ 16 -> 0 <= c < 2 ^ 16 -> 0 <= d < 2 ^ 16 -> 0 <= e < 2 ^ 16 -> 0 <= f < 2 ^ 16 ->
  read_header (m ++ rest) (blen m) = Ok (Next (a, b, c, d, 12)).
Proof.
  intros H Ha Hb Hc Hd He Hf. unfold read_header, header_bytes in *. rewrite <- (app_nil_r (be_bytes 2 f)) in H.
  destruct (next_int 1 m rest _ _ _ H Ha) as [R1 H1]. erewrite pm_next by exact R1. cbv beta iota.
  destruct (next_int 1 m rest _ _ _ H1 Hb) as [R2 H2]. erewrite pm_next by exact R2. cbv beta iota.
  destruct (next_int 1 m rest _ _ _ H2 Hc) as [R3 H3]. erewrite pm_next by exact R3. cbv beta iota.
  destruct (next_int 1 m rest _ _ _ H3 Hd) as [R4 H4]. erewrite pm_next by exact R4. cbv beta iota.
  destruct (next_int 1 m rest _ _ _ H4 He) as [R5 H5]. erewrite pm_next by exact R5. cbv beta iota.
  destruct (next_int 1 m rest _ _ _ H5 Hf) as [R6 H6]. erewrite pm_next by exact R6. done.
Qed.

(** The name as it is read: without a dot at its end. *)
Definition canon name : list byte := text false (labels_of name).

Lemma name_ok_text name : name_ok name -> text_len false (labels_of name) <= 255.
Proof.
  intros [Hok Hlen]. transitivity (blen name); [|done]. apply text_len_name. eapply Forall_impl; [exact Hok|]. by intros l [[? _] _].
Qed.

Lemma parse_name_ok m rest pos name e nol : name_at m pos name e -> text_len false (labels_of name) < nol ->
  parse_name (m ++ rest) (blen m) pos nol = Ok (Next (canon name, e)).
Proof.
  intros (k & He & Hk) Hlen. pose proof (encodes_pos _ _ _ _ _ He) as (Hp & Hpe & Heb & _).
  unfold parse_name. rewrite (name_parse_reads m rest pos (labels_of name) k e nol He); [done|lia|done].
Qed.

Lemma c_string_id s : Byte.x00 ∉ s -> c_string s = s.
Proof.
  induction s as [|b s IH]; [done|]. intros H. apply not_elem_of_cons in H as [Hb Hs]. cbn. rewrite decide_False by done. by rewrite IH.
Qed.

Lemma text_no_nul started ls : Forall label_ok ls -> Byte.x00 ∉ text started ls.
Proof.
  intros H. revert started. induction H as [|l ls [_ Hl] _ IH]; intros started; cbn; [apply not_elem_of_nil|].
  rewrite !not_elem_of_app. split; [|split; [done|apply IH]]. destruct started; [|apply not_elem_of_nil].
  by apply not_elem_of_cons; split; [|apply not_elem_of_nil].
Qed.

Lemma c_string_canon name : name_ok name -> c_string (canon name) = canon name.
Proof. intros [H _]. by apply c_string_id, text_no_nul. Qed.
