(* ===== verification/DnsReply.v ===== *)
(** DNS messages read: a client's question by a server, and the server's records
    by the client. *)
From S2P Require Import Prelude.
From S2P Require Import Dns DnsName DnsWrite DnsMessage.

Implicit Types (m buf : list cell) (name : list byte).

(** * Names as they are read *)

Lemma cut_dot_none l : dot ∉ l -> cut_dot l = (l, None).
Proof.
  induction l as [|b l IH]; [done|]. intros H. apply not_elem_of_cons in H as [Hb Hl]. cbn. rewrite decide_False by done. by rewrite (IH Hl).
Qed.

Lemma cut_dot_some l r : dot ∉ l -> cut_dot (l ++ dot :: r) = (l, Some r).
Proof.
  induction l as [|b l IH]; intros H; [done|]. apply not_elem_of_cons in H as [Hb Hl]. cbn. rewrite decide_False by done. by rewrite (IH Hl).
Qed.

Lemma cut_dot_no_dot name l r : cut_dot name = (l, r) -> dot ∉ l.
Proof.
  revert l r. induction name as [|b name IH]; intros l r; cbn; [intros [= <- <-]; apply not_elem_of_nil|].
  case_decide as Hd; [intros [= <- <-]; apply not_elem_of_nil|]. destruct (cut_dot name) as [l' r'] eqn:Hc. intros [= <- <-].
  apply not_elem_of_cons. split; [done|]. by eapply IH.
Qed.

Lemma labels_no_dot name : Forall (fun l => dot ∉ l) (labels_of name).
Proof.
  remember (length name) as n eqn:Hn. revert name Hn. induction n as [n IH] using lt_wf_ind; intros name Hn.
  destruct (decide (name = [])) as [->|Hne]; [constructor|]. destruct (cut_dot name) as [l r] eqn:Hc.
  rewrite (labels_of_cut name l r Hne Hc). constructor; [by eapply cut_dot_no_dot|]. destruct r as [r|]; [|constructor].
  apply (IH (length r)); [|done]. apply cut_dot_eq in Hc. rewrite Hn, Hc, length_app. cbn. lia.
Qed.

Lemma labels_of_text ls : Forall (fun l => 1 <= blen l) ls -> Forall (fun l => dot ∉ l) ls -> labels_of (text false ls) = ls.
Proof.
  induction ls as [|l ls IH]; [done|]. intros [Hl Hls]%Forall_cons [Hd Hds]%Forall_cons. destruct ls as [|l2 ls].
  - cbn [text app]. rewrite app_nil_r. assert (l <> []) as Hne by (intros ->; rewrite blen_nil in Hl; lia).
    by rewrite (labels_of_cut l l None Hne (cut_dot_none l Hd)).
  - change (text false (l :: l2 :: ls)) with (l ++ dot :: text false (l2 :: ls)).
    rewrite (labels_of_cut _ l (Some (text false (l2 :: ls)))); [by rewrite IH|by destruct l|by apply cut_dot_some].
Qed.

Lemma name_ok_lengths name : name_ok name -> Forall (fun l => 1 <= blen l) (labels_of name).
Proof. intros [H _]. eapply Forall_impl; [exact H|]. by intros l [[? _] _]. Qed.

Lemma labels_canon name : name_ok name -> labels_of (canon name) = labels_of name.
Proof. intros H. apply labels_of_text; [by apply name_ok_lengths|apply labels_no_dot]. Qed.

Lemma canon_ok name : name_ok name -> name_ok (canon name) /\ canon (canon name) = canon name /\ blen (canon name) <= blen name.
Proof.
  intros H. pose proof (text_len_name name (name_ok_lengths name H)) as Hl. pose proof H as [H1 H2]. unfold canon at 2.
  unfold name_ok. rewrite !labels_canon by done. split; [split; [done|unfold text_len in Hl; unfold canon; lia]|]. by split.
Qed.

(** * Messages cut where they end *)

Lemma defines_take m j : fresh_from m j -> defines m (take (Z.to_nat j) m).
Proof.
  intros [Hj Hf] i b Hi. destruct (decide (i < Z.to_nat j)%nat); [by rewrite lookup_take_lt|]. exfalso.
  replace i with (Z.to_nat j + (i - Z.to_nat j))%nat in Hi by lia. rewrite <- lookup_drop, Hf in Hi. by apply lookup_replicate_1 in Hi as [? _].
Qed.

Lemma new_buffer n : 0 <= n <= 2 ^ 14 -> wstate (replicate (Z.to_nat n) None) 0 [].
Proof.
  intros Hn. assert (blen (replicate (Z.to_nat n) (@None byte)) = n) as Hl by (unfold blen; rewrite length_replicate; lia).
  split; [|done|lia]. split; [lia|]. rewrite Hl, Z.sub_0_r. by rewrite drop_0.
Qed.

(** * The question *)

Lemma request_built name trans_id type class : name_ok name ->
  exists buf len, evdns_request_data_build name trans_id type class (replicate (Z.to_nat (evdns_request_len (blen name))) None) = Ok (len, buf) /\
    holds buf 0 (header_bytes trans_id 0x0100 1 0 0 0) /\ question_at buf 12 (mkQuestion name type class) len /\ 0 < len /\ fresh_from buf len /\ len + 63 <= blen buf.
Proof.
  intros Hn. pose proof (blen_nonneg name) as H0. pose proof Hn as [_ H255]. unfold evdns_request_data_build, evdns_request_len.
  set (n := 96 + blen name + 2 + 4). pose proof (new_buffer n ltac:(lia)) as W0.
  assert (blen (replicate (Z.to_nat n) (@None byte)) = n) as Hl by (unfold blen; rewrite length_replicate; lia).
  destruct (header_ok _ trans_id 0x0100 1 0 0 0 W0) as (m1 & R1 & W1 & [L1 D1] & A1); [lia|].
  destruct (dnsname_to_labels_ok (fun _ _ => true) m1 12 name (@None dnslabel_table) (ws_fresh _ _ _ W1) Hn) as (m2 & t2 & j2 & R2 & [L2 D2 F2 B2 S2 (k & E2 & K2)] & Ht2);
    [lia|lia|done|]. destruct t2; [done|]. pose proof (encodes_pos _ _ _ _ _ E2) as (_ & P2 & _).
  assert (write_name (fun _ _ => true) 12 name None m1 = Ok (Next (None, j2), m2)) as R2'.
  { unfold write_name. by rewrite R2. }
  assert (wstate m2 j2 []) as W2 by (split; [done|done|lia]).
  destruct (append_step 2 m2 j2 [] type W2) as (m3 & R3 & W3 & [L3 D3] & A3); [lia|].
  destruct (append_step 2 m3 (j2 + Z.of_nat 2) [] class W3) as (m4 & R4 & W4 & [L4 D4] & A4); [lia|]. change (Z.of_nat 2) with 2 in *.
  exists m4, (j2 + 2 + 2). split; [|split; [|split; [|split; [lia|split; [apply W4|lia]]]]].
  - erewrite wm_next by exact R1. erewrite wm_next by exact R2'. cbv beta iota. zdecide.
    erewrite wm_next by exact R3. rewrite R4. done.
  - apply (holds_mono m1); [|done]. transitivity m2; [done|]. by transitivity m3.
  - exists j2. split; [exists k; split; [apply (encodes_mono m2); [by transitivity m3|done]|done]|]. split; [|cbn; lia].
    apply holds_app. rewrite blen_be_bytes. split; [by apply (holds_mono m3)|done].
Qed.

Lemma questions_loop_ok alloc m rest qs : forall pos e acc, parts_at question_at m pos qs e -> Forall question_ok qs -> (forall i, alloc i = true) ->
  questions_loop (length qs) alloc (m ++ rest) (blen m) pos acc =
    Ok (Next (acc ++ ((fun q => mkQuestion (canon (q_name q)) (q_type q) (q_class q)) <$> qs), e)).
Proof.
  induction qs as [|q qs IH]; intros pos e acc Hp Hok Ha; inversion Hp as [|? ? pos1 ? ? Hq Hqs]; subst; cbn [length questions_loop].
  { by rewrite app_nil_r. }
  apply Forall_cons in Hok as [(Hn & Hty & Hcl) Hok]. destruct Hq as (e0 & Hname & Hh & ->).
  erewrite pm_next by (apply (parse_name_ok m rest pos _ e0 HOST_NAME_LEN Hname); pose proof (name_ok_text _ Hn); unfold HOST_NAME_LEN; lia).
  cbv beta iota. destruct (next_int 1 m rest _ _ _ Hh Hty) as [R1 H1]. erewrite pm_next by exact R1. cbv beta iota.
  rewrite <- (app_nil_r (be_bytes 2 (q_class q))) in H1. destruct (next_int 1 m rest _ _ _ H1 Hcl) as [R2 _]. erewrite pm_next by exact R2. cbv beta iota.
  rewrite Ha. cbn [negb]. rewrite c_string_canon by done. change (Z.of_nat 2) with 2 in *. replace (e0 + 2 + 2) with (e0 + 4) by lia.
  rewrite (IH (e0 + 4) e) by done. cbn. by rewrite <- app_assoc.
Qed.

Lemma request_parsed m rest trans_id name type class e : holds m 0 (header_bytes trans_id 0x0100 1 0 0 0) ->
  0 <= trans_id < 2 ^ 16 -> question_ok (mkQuestion name type class) -> question_at m 12 (mkQuestion name type class) e ->
  request_parse true true (fun _ => true) (m ++ rest) (blen m) =
    Ok (Some (mkSReq trans_id 0x0100 [mkQuestion (canon name) type class] 0 0 0 [] [] [] None)).
Proof.
  intros Hh Hid Hq Hat. unfold request_parse.
  pose proof (read_header_ok m rest trans_id 0x0100 1 0 0 0 Hh Hid ltac:(lia) ltac:(lia) ltac:(lia) ltac:(lia) ltac:(lia)) as R1.
  erewrite pm_next by exact R1. cbv beta iota.
  change (Z.land 256 0x8000 =? 0) with true. cbn [negb]. change (Z.land 256 0x0110) with 0x0100.
  pose proof (questions_loop_ok (fun _ => true) m rest [mkQuestion name type class] 12 e []) as Hqs. cbn [length] in Hqs.
  assert (parts_at question_at m 12 [mkQuestion name type class] e) as Hp by (econstructor; [exact Hat|constructor]).
  specialize (Hqs Hp ltac:(by apply Forall_singleton) (fun _ => eq_refl)). erewrite pm_next by exact Hqs. done.
Qed.

(** Every byte of the question was written, and its block has room behind it. *)
Lemma request_received name trans_id type class buf len : name_ok name ->
  evdns_request_data_build name trans_id type class (replicate (Z.to_nat (evdns_request_len (blen name))) None) = Ok (len, buf) ->
  Forall is_Some (take (Z.to_nat len) buf) /\ 63 <= blen (drop (Z.to_nat len) buf) /\ blen (take (Z.to_nat len) buf) = len.
Proof.
  intros Hn Hrun. destruct (request_built name trans_id type class Hn) as (buf' & len' & Hrun' & Hh & (e0 & (k & He & _) & Hq & Hlen) & Hpos & Hf & Hslack).
  rewrite Hrun in Hrun'. injection Hrun' as <- <-. assert (filled buf 0 len) as Hfill.
  { apply (filled_app _ _ 12); [exact (holds_filled _ _ _ Hh)|]. apply (filled_app _ _ e0); [exact (encodes_filled _ _ _ _ _ He)|].
    rewrite Hlen. exact (holds_filled _ _ _ Hq). }
  assert (0 <= len <= blen buf) as Hb by (by destruct Hf). split; [|split; [|by apply blen_take]].
  - by apply filled_received.
  - rewrite blen_drop by lia. lia.
Qed.

(** * The response *)

(** The counts are those of the lists, and everything fits. *)
Record response_ok (req : server_request) : Prop := {
  ro_id : 0 <= sr_trans_id req < 2 ^ 16;
  ro_flags : sr_flags req = 0x0100;
  ro_questions : Forall question_ok (sr_questions req);
  ro_items : Forall item_ok (sr_answer req) /\ Forall item_ok (sr_authority req) /\ Forall item_ok (sr_additional req);
  ro_counts : n_answer req = blen (sr_answer req) /\ n_authority req = blen (sr_authority req) /\ n_additional req = blen (sr_additional req);
  ro_size : 12 + total question_size (sr_questions req) + total item_size (sr_answer req) + total item_size (sr_authority req) +
    total item_size (sr_additional req) <= 512
}.

Lemma total_size_nonneg {A} (f : A -> Z) xs : Forall (fun x => 0 <= f x) xs -> 0 <= total f xs.
Proof. induction 1; cbn; lia. Qed.

Lemma question_size_nonneg q : 0 <= question_size q.
Proof. unfold question_size. pose proof (blen_nonneg (q_name q)). lia. Qed.

Lemma items_nonneg items : Forall item_ok items -> 0 <= total item_size items.
Proof. intros H. apply total_size_nonneg. eapply Forall_impl; [exact H|]. apply item_size_nonneg. Qed.

Lemma items_filled m m' pos items e : defines m m' -> Forall item_ok items -> parts_at item_at m pos items e -> filled m' pos e.
Proof.
  intros Hd Hok Hp. apply (parts_at_filled item_at _ _ items).
  - intros p it e' Hit. apply item_at_filled. rewrite Forall_forall in Hok. by apply Hok.
  - apply (parts_at_mono _ m); [|done]. intros. by apply (item_at_mono m).
Qed.

(** The flags of a response without an error, or with one. *)
Definition response_flags (err : Z) : Z := u16 (Z.lor (u16 0x0100) (Z.lor 0x8000 err)).

Lemma format_response_ok dup req err : response_ok req -> 0 <= err <= 15 ->
  exists resp e, evdns_server_request_format_response dup true req err = Ok (with_response (Some resp) req, 0) /\
    holds resp 0 (header_bytes (sr_trans_id req) (response_flags err) (blen (sr_questions req)) (n_answer req) (n_authority req) (n_additional req)) /\
    parts_at question_at resp 12 (sr_questions req) e /\ (exists e', parts_at item_at resp e (sr_answer req) e') /\ blen resp <= 512 /\
    received resp.
Proof.
  intros [Hid Hfl Hq (Hi1 & Hi2 & Hi3) Hc Hsize] He. unfold evdns_server_request_format_response, format_body.
  rewrite Hfl. fold (response_flags err). set (buf := replicate 1500 None).
  assert (blen buf = 1500) as Hlen by reflexivity. pose proof (new_buffer 1500 ltac:(lia)) as W0. change (wstate buf 0 []) in W0.
  assert (0 <= total question_size (sr_questions req)) as Hq0.
  { apply total_size_nonneg, Forall_true. intros q. apply question_size_nonneg. }
  pose proof (items_nonneg _ Hi1). pose proof (items_nonneg _ Hi2). pose proof (items_nonneg _ Hi3).
  destruct (header_ok buf (sr_trans_id req) (response_flags err) (blen (sr_questions req)) (n_answer req) (n_authority req) (n_additional req) W0)
    as (m1 & R1 & W1 & [L1 D1] & A1); [lia|].
  destruct (write_questions_ok dup (sr_questions req) m1 12 [] W1 Hq) as (m2 & t2 & j2 & R2 & W2 & [L2 D2] & A2 & B2); [lia|].
  destruct (write_items_ok dup (sr_answer req) m2 j2 t2 W2 Hi1) as (m3 & t3 & j3 & R3 & W3 & [L3 D3] & A3 & B3); [lia|].
  destruct (write_items_ok dup (sr_authority req) m3 j3 t3 W3 Hi2) as (m4 & t4 & j4 & R4 & W4 & [L4 D4] & A4 & B4); [lia|].
  destruct (write_items_ok dup (sr_additional req) m4 j4 t4 W4 Hi3) as (m5 & t5 & j5 & R5 & W5 & [L5 D5] & A5 & B5); [lia|].
  assert (defines m3 m5) as E3 by (by transitivity m4). assert (defines m2 m5) as E2 by (by transitivity m3).
  assert (defines m1 m5) as E1 by (by transitivity m2).
  pose proof (defines_take m5 j5 (ws_fresh _ _ _ W5)) as Dt. set (resp := take (Z.to_nat j5) m5) in *.
  exists resp, j2. split; [|split; [|split; [|split; [|split]]]].
  - zdecide. erewrite wm_next by exact R1. erewrite wm_next by exact R2. cbv beta iota. erewrite wm_next by exact R3. cbv beta iota.
    erewrite wm_next by exact R4. cbv beta iota. erewrite wm_next by exact R5. cbv beta iota. zdecide. unfold mret, wm_ret. rewrite !bind_Ok.
    rewrite read_cells_ok by lia. by rewrite bind_Ok, drop_0.
  - apply (holds_mono m1); [by transitivity m5|done].
  - apply (parts_at_mono _ m2); [|done]. intros. apply (question_at_mono m2); [by transitivity m5|done].
  - exists j3. apply (parts_at_mono _ m3); [|done]. intros. apply (item_at_mono m3); [by transitivity m5|done].
  - unfold resp. rewrite blen_take by (destruct (ws_fresh _ _ _ W5); lia). lia.
  - apply filled_received. apply (filled_app _ _ 12); [exact (holds_filled _ _ _ (holds_mono m1 m5 0 _ E1 A1))|].
    apply (filled_app _ _ j2); [apply (parts_at_filled question_at _ _ (sr_questions req)); [intros; by eapply question_at_filled|]|].
    { apply (parts_at_mono _ m2); [|done]. intros. by apply (question_at_mono m2). }
    apply (filled_app _ _ j3); [apply (items_filled m3 m5 j2 (sr_answer req) j3); done|].
    apply (filled_app _ _ j4); [apply (items_filled m4 m5 j3 (sr_authority req) j4); done|]. by apply (items_filled m5 m5 j4 (sr_additional req) j5).
Qed.

(** * The reply *)

(** The fields of a record as [reply_parse] reads them. *)
Record item_read (p : list cell) (len pos : Z) (item : reply_item) (e0 e : Z) : Prop := {
  ir_name : parse_name p len pos HOST_NAME_LEN = Ok (Next (canon (ri_name item), e0));
  ir_type : get_field 2 p len e0 = Ok (Next (ri_type item, e0 + 2));
  ir_class : get_field 2 p len (e0 + 2) = Ok (Next (ri_class item, e0 + 4));
  ir_ttl : get_field 4 p len (e0 + 4) = Ok (Next (ri_ttl item, e0 + 8));
  ir_length : get_field 2 p len (e0 + 8) = Ok (Next (e - (e0 + 10), e0 + 10))
}.

Lemma data_bound m pos item e : data_at m pos item e -> item_ok item -> pos <= blen m -> pos <= e <= blen m.
Proof.
  unfold data_at. intros H (_ & _ & _ & _ & Hok) Hp. destruct (ri_is_name item).
  - destruct H as (d & _ & k & He & Hk). pose proof (encodes_pos _ _ _ _ _ He). lia.
  - destruct H as [Hh ->]. destruct Hok as [Hl _]. rewrite Hl. pose proof (blen_nonneg (default [] (ri_data item))).
    destruct (default [] (ri_data item)) as [|b bs]; [rewrite blen_nil; lia|]. pose proof (holds_bound m pos (b :: bs) Hh ltac:(done)). lia.
Qed.

Lemma read_item m rest pos item e : item_at m pos item e -> item_ok item -> blen m <= 2 ^ 14 ->
  exists e0, item_read (m ++ rest) (blen m) pos item e0 e /\ data_at m (e0 + 10) item e /\ 0 <= e0 /\ e0 + 10 <= e <= blen m.
Proof.
  intros (e0 & Hn & Hh & Hd) Hok Hbig. pose proof Hok as (Hname & Hty & Hcl & Httl & _). exists e0.
  assert (0 <= e0) as He0 by (by destruct Hh). assert (e0 + 10 <= blen m) as Hle.
  { pose proof (holds_bound m e0 _ Hh) as Hb. rewrite !blen_app, !blen_be_bytes in Hb.
    assert (e0 + (Z.of_nat 2 + (Z.of_nat 2 + (Z.of_nat 4 + Z.of_nat 2))) <= blen m); [apply Hb|lia].
    intros Hnil. by apply app_eq_nil in Hnil as [Hbad%be_bytes_nonempty _]. }
  pose proof (data_bound m _ item e Hd Hok Hle) as Heb. split; [|split; [done|lia]].
  pose proof (parse_name_ok m rest pos _ e0 HOST_NAME_LEN Hn) as Rn. pose proof (name_ok_text _ Hname).
  destruct (next_int 1 m rest _ _ _ Hh Hty) as [R1 H1]. destruct (next_int 1 m rest _ _ _ H1 Hcl) as [R2 H2].
  destruct (next_int 3 m rest _ _ _ H2 Httl) as [R3 H3]. rewrite <- (app_nil_r (be_bytes 2 _)) in H3.
  destruct (next_int 1 m rest _ _ _ H3) as [R4 _]; [lia|].
  change (Z.of_nat 2) with 2 in *. change (Z.of_nat 4) with 4 in *. replace (e0 + 2 + 2) with (e0 + 4) in * by lia.
  replace (e0 + 4 + 4) with (e0 + 8) in * by lia. replace (e0 + 8 + 2) with (e0 + 10) in * by lia.
  split; try done. apply Rn. unfold HOST_NAME_LEN. lia.
Qed.

(** The records that answer a request. *)
Definition wanted_item (rt : Z) (item : reply_item) : bool := (ri_type item =? rt) && (ri_class item =? CLASS_INET).

(** What a request of addresses of [size] bytes collects. *)
Fixpoint gather (rt size ttl_r : Z) (rp : reply) (items : list reply_item) : Z * reply :=
  match items with
  | [] => (ttl_r, rp)
  | item :: items =>
      if wanted_item rt item then
        let n := Z.min (MAX_ADDRS - rp_addrcount rp) (ri_datalen item / size) in
        let rp := mkReply (rp_type rp) true (rp_addrcount rp + n)
          (rp_addresses rp ++ take (Z.to_nat (size * n)) (default [] (ri_data item))) (rp_name rp) in
        if rp_addrcount rp =? MAX_ADDRS then (Z.min ttl_r (ri_ttl item), rp)
        else gather rt size (Z.min ttl_r (ri_ttl item)) rp items
      else gather rt size ttl_r rp items
  end.

(** A request for a name takes the first. *)
Fixpoint first_name (ttl_r : Z) (rp : reply) (items : list reply_item) : Z * reply :=
  match items with
  | [] => (ttl_r, rp)
  | item :: items =>
      if wanted_item TYPE_PTR item
      then (Z.min ttl_r (ri_ttl item),
            mkReply (rp_type rp) true (rp_addrcount rp) (rp_addresses rp) (canon (default [] (ri_data item))))
      else first_name ttl_r rp items
  end.

Definition addresses_item (rt size : Z) (item : reply_item) : Prop :=
  wanted_item rt item = true -> ri_is_name item = false /\ ri_datalen item mod size = 0.

Definition name_item (host_name_max : Z) (item : reply_item) : Prop :=
  wanted_item TYPE_PTR item = true -> ri_is_name item = true /\ text_len false (labels_of (default [] (ri_data item))) < host_name_max.

(** The addresses of one record. *)
Lemma take_addresses_ok k m rest pos bs rp : holds m pos bs -> pos <= blen m -> 0 <= k <= 4 -> blen bs mod 2 ^ k = 0 ->
  0 <= rp_addrcount rp <= MAX_ADDRS ->
  let n := Z.min (MAX_ADDRS - rp_addrcount rp) (blen bs / 2 ^ k) in
  let rp' := mkReply (rp_type rp) true (rp_addrcount rp + n) (rp_addresses rp ++ take (Z.to_nat (2 ^ k * n)) bs) (rp_name rp) in
  take_addresses (2 ^ k) (m ++ rest) (blen m) pos (blen bs) rp = Ok (Next (rp', pos + 2 ^ k * n, negb (rp_addrcount rp' =? MAX_ADDRS))).
Proof.
  intros Hh Hp Hk Hmod Hc n rp'. unfold take_addresses. pose proof (Z.pow_pos_nonneg 2 k ltac:(lia) ltac:(lia)) as Hpow.
  pose proof (blen_nonneg bs) as Hb.
  assert (Z.land (blen bs) (2 ^ k - 1) = 0) as ->.
  { rewrite Z.sub_1_r, <- Z.ones_equiv, Z.land_ones by lia. done. }
  change (0 =? 0) with true. cbn [negb]. fold n.
  assert (0 <= blen bs / 2 ^ k) as Hdiv by (apply Z.div_pos; lia).
  assert (2 ^ k * (blen bs / 2 ^ k) = blen bs) as Hexact by (rewrite (Z.div_mod (blen bs) (2 ^ k)) at 2 by lia; lia).
  assert (0 <= n /\ 2 ^ k * n <= blen bs) as [Hn0 Hnb] by (unfold n; nia).
  assert (pos + blen bs <= blen m) as Hin.
  { destruct bs as [|b bs]; [rewrite blen_nil; lia|]. by apply holds_bound. }
  zdecide. set (tk := take (Z.to_nat (2 ^ k * n)) bs). assert (blen tk = 2 ^ k * n) as Htk by (unfold tk; rewrite blen_take; nia).
  assert (load (m ++ rest) pos (2 ^ k * n) = Ok tk) as Hload.
  { assert (holds (m ++ rest) pos tk) as Ht.
    { apply (holds_mono m); [intros i c Hi; by apply lookup_app_l_Some|]. rewrite <- (take_drop (Z.to_nat (2 ^ k * n)) bs) in Hh.
      by apply holds_app in Hh as [Hh _]. }
    rewrite <- Htk. unfold load. rewrite holds_read; [|done|rewrite blen_app; pose proof (blen_nonneg rest); lia].
    by rewrite bind_Ok, mapM_id_Some. }
  rewrite Hload. erewrite pm_next by reflexivity. done.
Qed.

Definition known_type (rt : Z) : Prop := rt = TYPE_A \/ rt = TYPE_PTR \/ rt = TYPE_AAAA.

Lemma switch_cases {B} rt item (skip name : B) (adr : Z -> B) : known_type rt ->
  (if (ri_type item =? TYPE_A) && (ri_class item =? CLASS_INET) then if negb (rt =? TYPE_A) then skip else adr 4
   else if (ri_type item =? TYPE_PTR) && (ri_class item =? CLASS_INET) then if negb (rt =? TYPE_PTR) then skip else name
   else if (ri_type item =? TYPE_AAAA) && (ri_class item =? CLASS_INET) then if negb (rt =? TYPE_AAAA) then skip else adr 16
   else skip) =
  if wanted_item rt item then if rt =? TYPE_A then adr 4 else if rt =? TYPE_PTR then name else adr 16 else skip.
Proof.
  unfold wanted_item. intros H. destruct (ri_class item =? CLASS_INET); [|by rewrite !andb_false_r]. rewrite !andb_true_r.
  destruct (Z.eqb_spec (ri_type item) TYPE_A) as [->|HA].
  { destruct H as [-> | [-> | ->]]; reflexivity. }
  destruct (Z.eqb_spec (ri_type item) TYPE_PTR) as [->|HP].
  { destruct H as [-> | [-> | ->]]; reflexivity. }
  destruct (Z.eqb_spec (ri_type item) TYPE_AAAA) as [->|H6].
  { destruct H as [-> | [-> | ->]]; reflexivity. }
  destruct H as [-> | [-> | ->]]; by rewrite (proj2 (Z.eqb_neq _ _)).
Qed.

(** One record of the answer section. *)
Lemma answers_step host n req m rest pos ttl_r rp item e : known_type (rq_type req) -> item_at m pos item e -> item_ok item -> blen m <= 2 ^ 14 ->
  exists e0, data_at m (e0 + 10) item e /\ 0 <= e0 /\ e0 + 10 <= e <= blen m /\
    answers_loop host (S n) req (m ++ rest) (blen m) pos ttl_r rp =
    if wanted_item (rq_type req) item then
      let addresses size :=
        '(rp, j, more) ← take_addresses size (m ++ rest) (blen m) (e0 + 10) (e - (e0 + 10)) rp;
        if more : bool then answers_loop host n req (m ++ rest) (blen m) j (Z.min ttl_r (ri_ttl item)) rp
        else mret (Z.min ttl_r (ri_ttl item), rp) in
      if rq_type req =? TYPE_A then addresses 4
      else if rq_type req =? TYPE_PTR then
        '(name, _) ← parse_name (m ++ rest) (blen m) (e0 + 10) host;
        mret (Z.min ttl_r (ri_ttl item), mkReply (rp_type rp) true (rp_addrcount rp) (rp_addresses rp) (c_string name))
      else addresses 16
    else answers_loop host n req (m ++ rest) (blen m) e ttl_r rp.
Proof.
  intros Hrt Hat Hok Hbig. destruct (read_item m rest pos item e Hat Hok Hbig) as (e0 & [R1 R2 R3 R4 R5] & Hd & He0 & He).
  exists e0. split; [done|]. split; [done|]. split; [done|]. cbn [answers_loop].
  erewrite pm_next by exact R1. cbv beta iota. erewrite pm_next by exact R2. cbv beta iota. erewrite pm_next by exact R3. cbv beta iota.
  erewrite pm_next by exact R4. cbv beta iota. erewrite pm_next by exact R5. cbv beta iota. cbv zeta.
  set (adr := fun size : Z => ('(rp, j, more) ← take_addresses size (m ++ rest) (blen m) (e0 + 10) (e - (e0 + 10)) rp;
    if more : bool then answers_loop host n req (m ++ rest) (blen m) j (Z.min ttl_r (ri_ttl item)) rp
    else mret (Z.min ttl_r (ri_ttl item), rp)) : pm (Z * reply)).
  etransitivity; [exact (switch_cases (rq_type req) item _ _ adr Hrt)|]. by replace (e0 + 10 + (e - (e0 + 10))) with e by lia.
Qed.

Lemma answers_addresses host rt k req m rest items : (rt = TYPE_A /\ k = 2) \/ (rt = TYPE_AAAA /\ k = 4) -> rq_type req = rt -> blen m <= 2 ^ 14 ->
  forall pos e ttl_r rp, parts_at item_at m pos items e -> Forall item_ok items -> Forall (addresses_item rt (2 ^ k)) items ->
  0 <= rp_addrcount rp < MAX_ADDRS ->
  answers_loop host (length items) req (m ++ rest) (blen m) pos ttl_r rp = Ok (Next (gather rt (2 ^ k) ttl_r rp items)).
Proof.
  intros Hrt Hreq Hbig. assert (known_type (rq_type req)) as Hkn by (rewrite Hreq; unfold known_type; tauto).
  induction items as [|item items IH]; intros pos e ttl_r rp Hp Hok Had Hc; inversion Hp as [|? ? pos1 ? ? Hat Hrest]; subst; cbn [length]; [done|].
  apply Forall_cons in Hok as [Hi Hok]. apply Forall_cons in Had as [Ha Had].
  destruct (answers_step host (length items) req m rest pos ttl_r rp item pos1 Hkn Hat Hi Hbig) as (e0 & Hd & He0 & He & ->).
  cbn [gather]. destruct (wanted_item (rq_type req) item) eqn:Hw; [|by apply (IH pos1 e)].
  destruct (Ha Hw) as [Hraw Hmod]. unfold data_at in Hd. rewrite Hraw in Hd. destruct Hd as [Hh ->].
  destruct Hi as (_ & _ & _ & _ & Hdata). rewrite Hraw in Hdata. destruct Hdata as [Hlen H16].
  replace (e0 + 10 + ri_datalen item - (e0 + 10)) with (ri_datalen item) by lia. rewrite Hlen in *.
  assert (0 <= k <= 4) as Hk by (destruct Hrt as [[_ ->] | [_ ->]]; lia).
  pose proof (take_addresses_ok k m rest (e0 + 10) (default [] (ri_data item)) rp Hh ltac:(lia) Hk Hmod ltac:(lia)) as Htake. cbv zeta in Htake.
  set (n := Z.min _ _) in *. set (rp' := mkReply _ _ _ _ _) in *.
  assert (forall X : pm (Z * reply), (if rq_type req =? TYPE_A then
      ('(rp, j, more) ← take_addresses 4 (m ++ rest) (blen m) (e0 + 10) (blen (default [] (ri_data item))) rp;
        if more : bool then answers_loop host (length items) req (m ++ rest) (blen m) j (Z.min ttl_r (ri_ttl item)) rp
        else mret (Z.min ttl_r (ri_ttl item), rp)) else if rq_type req =? TYPE_PTR then X else
      ('(rp, j, more) ← take_addresses 16 (m ++ rest) (blen m) (e0 + 10) (blen (default [] (ri_data item))) rp;
        if more : bool then answers_loop host (length items) req (m ++ rest) (blen m) j (Z.min ttl_r (ri_ttl item)) rp
        else mret (Z.min ttl_r (ri_ttl item), rp))) =
      ('(rp, j, more) ← take_addresses (2 ^ k) (m ++ rest) (blen m) (e0 + 10) (blen (default [] (ri_data item))) rp;
        if more : bool then answers_loop host (length items) req (m ++ rest) (blen m) j (Z.min ttl_r (ri_ttl item)) rp
        else mret (Z.min ttl_r (ri_ttl item), rp))) as Hsel.
  { intros X. destruct Hrt as [[-> ->] | [-> ->]]; reflexivity. }
  cbv zeta. rewrite Hsel. erewrite pm_next by exact Htake. cbv beta iota.
  destruct (Z.eqb_spec (rp_addrcount rp') MAX_ADDRS) as [Hfull|Hmore]; cbn [negb]; [done|].
  pose proof (Z.div_pos (blen (default [] (ri_data item))) (2 ^ k) (blen_nonneg _) ltac:(apply Z.pow_pos_nonneg; lia)) as Hdiv.
  assert (2 ^ k * n = blen (default [] (ri_data item))) as Hall.
  { unfold rp' in Hmore. cbn in Hmore. pose proof (Z.pow_pos_nonneg 2 k ltac:(lia) ltac:(lia)).
    assert (n = blen (default [] (ri_data item)) / 2 ^ k) as -> by (unfold n in *; lia).
    rewrite (Z.div_mod (blen (default [] (ri_data item))) (2 ^ k)) at 2 by lia. lia. }
  rewrite Hall. apply (IH _ e); [done|done|done|]. unfold rp' in *. cbn in *. unfold n in *. lia.
Qed.

Lemma answers_name host req m rest items : rq_type req = TYPE_PTR -> blen m <= 2 ^ 14 ->
  forall pos e ttl_r rp, parts_at item_at m pos items e -> Forall item_ok items -> Forall (name_item host) items ->
  answers_loop host (length items) req (m ++ rest) (blen m) pos ttl_r rp = Ok (Next (first_name ttl_r rp items)).
Proof.
  intros Hreq Hbig. assert (known_type (rq_type req)) as Hkn by (rewrite Hreq; unfold known_type; tauto).
  induction items as [|item items IH]; intros pos e ttl_r rp Hp Hok Had; inversion Hp as [|? ? pos1 ? ? Hat Hrest]; subst; cbn [length]; [done|].
  apply Forall_cons in Hok as [Hi Hok]. apply Forall_cons in Had as [Ha Had].
  destruct (answers_step host (length items) req m rest pos ttl_r rp item pos1 Hkn Hat Hi Hbig) as (e0 & Hd & He0 & He & ->).
  cbn [first_name]. rewrite Hreq. destruct (wanted_item TYPE_PTR item) eqn:Hw; [|by apply (IH pos1 e)].
  change (TYPE_PTR =? TYPE_A) with false. change (TYPE_PTR =? TYPE_PTR) with true. cbv zeta. cbv iota.
  destruct (Ha Hw) as [Hname Hlen]. unfold data_at in Hd. rewrite Hname in Hd. destruct Hd as (d & Hd & Hat').
  destruct Hi as (_ & _ & _ & _ & Hdata). rewrite Hname in Hdata. destruct Hdata as (d' & Hd' & Hdok). rewrite Hd in *.
  injection Hd' as <-. change (default [] (Some d)) with d in *.
  pose proof (parse_name_ok m rest (e0 + 10) d pos1 host Hat' Hlen) as R. erewrite pm_next by exact R. cbv beta iota.
  by rewrite c_string_canon.
Qed.

Lemma take_two {A} (a b c : list A) n k : blen a + k = n -> 0 <= k <= blen b ->
  take (Z.to_nat n) (a ++ b ++ c) = a ++ take (Z.to_nat k) b.
Proof.
  intros Hn Hk. rewrite take_app, take_ge by (unfold blen in *; lia). f_equal. unfold blen in *.
  replace (Z.to_nat n - length a)%nat with (Z.to_nat k) by lia. apply take_app_le. lia.
Qed.

(** What is gathered: the addresses in order, the first 32 of them. *)
Definition addresses_of (rt : Z) (items : list reply_item) : list byte :=
  concat ((fun item => default [] (ri_data item)) <$> filter (fun item => wanted_item rt item = true) items).

Lemma gather_addresses rt size items : 0 < size -> Forall item_ok items -> Forall (addresses_item rt size) items ->
  forall ttl_r rp, 0 <= rp_addrcount rp <= MAX_ADDRS -> blen (rp_addresses rp) = size * rp_addrcount rp ->
  let rp' := snd (gather rt size ttl_r rp items) in
  rp_addresses rp' = take (Z.to_nat (size * MAX_ADDRS)) (rp_addresses rp ++ addresses_of rt items) /\
  blen (rp_addresses rp') = size * rp_addrcount rp' /\ rp_type rp' = rp_type rp /\
  rp_have_answer rp' = rp_have_answer rp || existsb (wanted_item rt) items.
Proof.
  intros Hs. induction items as [|item items IH]; intros Hok Had ttl_r rp Hc Hlen; cbn [gather].
  - cbn. unfold addresses_of. cbn. rewrite app_nil_r, orb_false_r, take_ge; [done|]. unfold blen in Hlen. nia.
  - apply Forall_cons in Hok as [Hi Hok]. apply Forall_cons in Had as [Ha Had]. unfold addresses_of. rewrite filter_cons. cbn [existsb].
    destruct (wanted_item rt item) eqn:Hw; [rewrite decide_True by done|rewrite decide_False by done; by apply IH].
    destruct (Ha Hw) as [Hraw Hmod]. destruct Hi as (_ & _ & _ & _ & Hdata). rewrite Hraw in Hdata. destruct Hdata as [Hdl _].
    cbn [fmap list_fmap concat]. fold (addresses_of rt items). rewrite Hdl in *. set (data := default [] (ri_data item)) in *.
    pose proof (blen_nonneg data) as Hd0. assert (size * (blen data / size) = blen data) as Hexact.
    { rewrite (Z.div_mod (blen data) size) at 2 by lia. lia. }
    assert (0 <= blen data / size) as Hdiv by (apply Z.div_pos; lia). set (n := Z.min _ _).
    assert (0 <= n /\ size * n <= blen data) as [Hn0 Hn] by (unfold n; nia).
    assert (blen (take (Z.to_nat (size * n)) data) = size * n) as Htk by (rewrite blen_take; nia).
    set (rp1 := mkReply _ _ _ _ _). assert (blen (rp_addresses rp1) = size * rp_addrcount rp1) as Hl1.
    { unfold rp1. cbn [rp_addresses rp_addrcount]. rewrite blen_app, Htk. lia. }
    destruct (Z.eqb_spec (rp_addrcount rp1) MAX_ADDRS) as [Hfull|Hmore]; cbn [snd].
    + unfold rp1 in Hfull |- *. cbn [rp_addresses rp_addrcount rp_have_answer rp_type] in *.
      split; [symmetry; apply take_two; nia|]. split; [exact Hl1|]. split; [done|by rewrite orb_true_r].
    + assert (n = blen data / size) as Hnd by (unfold rp1 in Hmore; cbn in Hmore; unfold n in *; lia).
      assert (take (Z.to_nat (size * n)) data = data) as Htake by (apply take_ge; unfold blen in Hexact, Hd0 |- *; rewrite Hnd; unfold blen; lia).
      destruct (IH Hok Had (Z.min ttl_r (ri_ttl item)) rp1) as (H1 & H2 & H3 & H4).
      { unfold rp1 in *. cbn in *. unfold n in *. lia. }
      { exact Hl1. }
      cbv zeta. split; [|split; [exact H2|split; [exact H3|]]].
      * rewrite H1. unfold rp1 at 1. cbn [rp_addresses]. by rewrite Htake, <- app_assoc.
      * rewrite H4. unfold rp1. cbn. by rewrite orb_true_r.
Qed.

Lemma first_name_spec items : forall ttl_r rp,
  match List.find (wanted_item TYPE_PTR) items with
  | Some item => first_name ttl_r rp items = (Z.min ttl_r (ri_ttl item),
      mkReply (rp_type rp) true (rp_addrcount rp) (rp_addresses rp) (canon (default [] (ri_data item))))
  | None => first_name ttl_r rp items = (ttl_r, rp)
  end.
Proof. induction items as [|item items IH]; intros ttl_r rp; cbn; [done|]. destruct (wanted_item TYPE_PTR item); [done|apply IH]. Qed.

(** The whole of [reply_parse] on a message with the question of the request. *)
Lemma reply_parsed host reqs req m rest name ty flags na nau nad items e q e' :
  request_find_from_trans_id reqs (rq_trans_id req) = Some req -> 0 <= rq_trans_id req < 2 ^ 16 ->
  0 <= flags < 2 ^ 16 -> Z.land flags 0x8000 <> 0 -> Z.land flags 0x020f = 0 -> name_ok name ->
  parse_name (rq_packet req) (rq_len req) 12 HOST_NAME_LEN = Ok (Next (canon name, q)) ->
  holds m 0 (header_bytes (rq_trans_id req) flags 1 na nau nad) -> na = blen items -> 0 <= na < 2 ^ 16 -> 0 <= nau < 2 ^ 16 -> 0 <= nad < 2 ^ 16 ->
  question_at m 12 (mkQuestion (canon name) ty CLASS_INET) e -> parts_at item_at m e items e' -> blen m <= 2 ^ 14 ->
  reply_parse host reqs (m ++ rest) (blen m) =
    r ← answers_loop host (length items) req (m ++ rest) (blen m) e 0xffffffff (mkReply (rq_type req) false 0 [] []);
    match r with
    | Next (ttl, rp) => Ok (Handle req flags ttl (Some rp))
    | GotoErr => Ok (Handle req flags 0 None)
    | Return _ => Ok Ignored
    end.
Proof.
  intros Hfind Hid Hfl Hans Herr Hn Hreq Hh Hna Hnar Hnaur Hnadr Hq Hitems Hbig. unfold reply_parse.
  pose proof (read_header_ok m rest _ _ _ _ _ _ Hh Hid Hfl ltac:(lia) Hnar Hnaur Hnadr) as R. rewrite R, bind_Ok, Hfind.
  rewrite (proj2 (Z.eqb_neq _ _) Hans), Herr. change (0 =? 0) with true. cbn [negb]. change (Z.to_nat 1) with 1%nat. cbn [test_questions].
  destruct (canon_ok name Hn) as (Hcn & Hcc & _). destruct Hq as (e0 & Hname & Hqh & ->). cbn [q_name] in Hname.
  pose proof (parse_name_ok m rest 12 _ e0 HOST_NAME_LEN Hname) as Rn. rewrite Hcc in Rn.
  assert (text_len false (labels_of (canon name)) < HOST_NAME_LEN) as Hl by (pose proof (name_ok_text _ Hcn); unfold HOST_NAME_LEN; lia).
  specialize (Rn Hl). rewrite Hna. replace (Z.to_nat (blen items)) with (length items) by (unfold blen; lia).
  assert (forall B (k : Z -> pm B), (j ← ('(tmp_name, j) ← parse_name (m ++ rest) (blen m) 12 HOST_NAME_LEN;
      '(cmp_name, _) ← parse_name (rq_packet req) (rq_len req) 12 HOST_NAME_LEN;
      if negb (bool_decide (c_string tmp_name `prefix_of` cmp_name)) then return_fail
      else let j := j + 4 in if j >? blen m then goto_err else mret j); k j) = k (e0 + 4)) as Htest.
  { intros B k. rewrite (pm_next _ _ (e0 + 4)); [done|]. erewrite pm_next by exact Rn. cbv beta iota. erewrite pm_next by exact Hreq. cbv beta iota.
    rewrite c_string_canon by done. rewrite bool_decide_true by done. cbn [negb]. cbv zeta.
    pose proof (holds_bound m e0 _ Hqh) as Hb. rewrite blen_app, !blen_be_bytes in Hb. cbn [q_type q_class] in Hb.
    assert (e0 + (Z.of_nat 2 + Z.of_nat 2) <= blen m) as Hb'. { apply Hb. intros Hnil. by apply app_eq_nil in Hnil as [Hbad%be_bytes_nonempty _]. }
    zdecide. done. }
  cbv zeta in Htest |- *. by rewrite Htest.
Qed.

