(* ===== verification/DnsProps.v ===== *)
(** DNS exchanges between a client and a server, and what the parsers do on any
    datagram. *)
From S2P Require Import Prelude.
From S2P Require Import Dns DnsName DnsWrite DnsMessage DnsReply.

Implicit Types (m buf : list cell) (name : list byte).

(** * Whole exchanges *)

Lemma parts_at_one {A} (part : list cell -> Z -> A -> Z -> Prop) m pos x e : parts_at part m pos [x] e -> part m pos x e.
Proof. inversion 1 as [|? ? pos1 ? ? Hx Hnil]; subst. by inversion Hnil; subst. Qed.

#[export] Instance section_eq_dec : EqDecision section.
Proof. solve_decision. Defined.

(** The server adds records. *)
Definition serve (req : server_request) (rs : list (section * reply_item)) : server_request :=
  fold_left (fun req '(s, it) => fst (evdns_server_request_add_reply true req s (ri_name it) (ri_type it) (ri_class it)
    (ri_ttl it) (ri_datalen it) (ri_is_name it) (ri_data it))) rs req.

Definition of_section (s : section) (rs : list (section * reply_item)) : list reply_item :=
  snd <$> filter (fun r => fst r = s) rs.

(** A record as [evdns_server_request_add_reply] makes them. *)
Definition proper (it : reply_item) : Prop :=
  item_ok it /\ new_item (ri_name it) (ri_type it) (ri_class it) (ri_ttl it) (ri_datalen it) (ri_is_name it) (ri_data it) = it.

Lemma of_section_cons s s' it rs :
  of_section s ((s', it) :: rs) = if decide (s' = s) then it :: of_section s rs else of_section s rs.
Proof. unfold of_section. rewrite filter_cons. cbn [fst]. by case_decide. Qed.

Lemma serve_lists rs : forall req, sr_response req = None -> Forall (fun r => proper (snd r)) rs ->
  serve req rs = mkSReq (sr_trans_id req) (sr_flags req) (sr_questions req)
    (n_answer req + blen (of_section EVDNS_ANSWER_SECTION rs)) (n_authority req + blen (of_section EVDNS_AUTHORITY_SECTION rs))
    (n_additional req + blen (of_section EVDNS_ADDITIONAL_SECTION rs))
    (sr_answer req ++ of_section EVDNS_ANSWER_SECTION rs) (sr_authority req ++ of_section EVDNS_AUTHORITY_SECTION rs)
    (sr_additional req ++ of_section EVDNS_ADDITIONAL_SECTION rs) None.
Proof.
  induction rs as [|[s it] rs IH]; intros [id fl qs na nu nd an au ad resp] Hr Hok; cbn in Hr; subst resp.
  - unfold of_section. cbn. by rewrite !app_nil_r, !Z.add_0_r.
  - apply Forall_cons in Hok as [[_ Hmade] Hok]. cbn [snd] in Hmade. cbn [serve fold_left]. unfold evdns_server_request_add_reply. cbn [negb].
    rewrite Hmade. destruct s; (etransitivity; [by apply IH|]); rewrite !of_section_cons; repeat case_decide; try done; cbn;
      by rewrite <- ?app_assoc, ?blen_cons, ?Z.add_assoc.
Qed.

(** The answers the client can use: addresses of the right size, names that fit. *)
Definition usable (host_name_max ty : Z) (items : list reply_item) : Prop :=
  (ty = TYPE_A -> Forall (addresses_item TYPE_A 4) items) /\
  (ty = TYPE_AAAA -> Forall (addresses_item TYPE_AAAA 16) items) /\
  (ty = TYPE_PTR -> Forall (name_item host_name_max) items).

(** What the client's callback is given. *)
Definition answered (ty : Z) (items : list reply_item) (rp : reply) : Prop :=
  rp_have_answer rp = existsb (wanted_item ty) items /\
  (ty = TYPE_A -> rp_addresses rp = take (Z.to_nat (4 * MAX_ADDRS)) (addresses_of TYPE_A items) /\ blen (rp_addresses rp) = 4 * rp_addrcount rp) /\
  (ty = TYPE_AAAA -> rp_addresses rp = take (Z.to_nat (16 * MAX_ADDRS)) (addresses_of TYPE_AAAA items) /\ blen (rp_addresses rp) = 16 * rp_addrcount rp) /\
  (ty = TYPE_PTR -> forall item, List.find (wanted_item TYPE_PTR) items = Some item -> rp_name rp = canon (default [] (ri_data item))).

Lemma answers_read host ty req m rest items e e' : known_type ty -> rq_type req = ty -> blen m <= 2 ^ 14 -> parts_at item_at m e items e' ->
  Forall item_ok items -> usable host ty items ->
  exists ttl rp, answers_loop host (length items) req (m ++ rest) (blen m) e 0xffffffff (mkReply (rq_type req) false 0 [] []) = Ok (Next (ttl, rp)) /\
    answered ty items rp.
Proof.
  intros Hkn Hty Hbig Hp Hok (H4 & H16 & Hn). set (rp0 := mkReply _ _ _ _ _).
  assert (forall k, (ty = TYPE_A /\ k = 2) \/ (ty = TYPE_AAAA /\ k = 4) -> Forall (addresses_item ty (2 ^ k)) items ->
    exists ttl rp, answers_loop host (length items) req (m ++ rest) (blen m) e 0xffffffff rp0 = Ok (Next (ttl, rp)) /\
      rp_have_answer rp = existsb (wanted_item ty) items /\
      rp_addresses rp = take (Z.to_nat (2 ^ k * MAX_ADDRS)) (addresses_of ty items) /\ blen (rp_addresses rp) = 2 ^ k * rp_addrcount rp) as Hadr.
  { intros k Hk Had. pose proof (answers_addresses host ty k req m rest items Hk Hty Hbig e e' 0xffffffff rp0 Hp Hok Had ltac:(done)) as Hrun.
    destruct (gather_addresses ty (2 ^ k) items) with (ttl_r := 0xffffffff) (rp := rp0) as (G1 & G2 & _ & G4); try done.
    { apply Z.pow_pos_nonneg; [lia|]. destruct Hk as [[_ ->] | [_ ->]]; lia. }
    { cbn. by rewrite Z.mul_0_r. }
    destruct (gather ty (2 ^ k) 0xffffffff rp0 items) as [ttl rp]. exists ttl, rp. done. }
  destruct Hkn as [-> | [-> | ->]].
  - destruct (Hadr 2) as (ttl & rp & Hrun & Hh & Ha); [by left|by apply H4|]. exists ttl, rp. split; [exact Hrun|].
    split; [exact Hh|]. split; [intros _; exact Ha|by split].
  - pose proof (answers_name host req m rest items Hty Hbig e e' 0xffffffff rp0 Hp Hok (Hn eq_refl)) as Hrun.
    pose proof (first_name_spec items 0xffffffff rp0) as Hspec. destruct (List.find (wanted_item TYPE_PTR) items) as [item|] eqn:Hfind; rewrite Hspec in Hrun.
    + eexists _, _. split; [exact Hrun|]. split; [|split; [done|split; [done|]]].
      * cbn. symmetry. apply existsb_exists. exists item. by apply find_some in Hfind.
      * intros _ it Hit. simpl in Hit. rewrite Hfind in Hit. by injection Hit as <-.
    + eexists _, _. split; [exact Hrun|]. split; [|split; [done|split; [done|intros _ it Hit; simpl in Hit; congruence]]]. cbn. symmetry. apply not_true_is_false. intros Hex.
      apply existsb_exists in Hex as (it & Hin & Hw). by rewrite (find_none _ _ Hfind it Hin) in Hw.
  - destruct (Hadr 4) as (ttl & rp & Hrun & Hh & Ha); [by right|by apply H16|]. exists ttl, rp. split; [exact Hrun|].
    split; [exact Hh|]. split; [done|]. split; [intros _; exact Ha|done].
Qed.

(** A response with an error code. *)
Lemma error_replied host reqs req m rest trans_id err nq na nau nad :
  request_find_from_trans_id reqs trans_id = Some req -> holds m 0 (header_bytes trans_id (response_flags err) nq na nau nad) ->
  1 <= err <= 15 -> 0 <= trans_id < 2 ^ 16 -> 0 <= nq < 2 ^ 16 -> 0 <= na < 2 ^ 16 -> 0 <= nau < 2 ^ 16 -> 0 <= nad < 2 ^ 16 ->
  reply_parse host reqs (m ++ rest) (blen m) = Ok (Handle req (response_flags err) 0 None) /\ Z.land (response_flags err) 15 = err.
Proof.
  intros Hfind Hh Herr Hid Hnq Hna Hnau Hnad. unfold reply_parse.
  assert (0 <= response_flags err < 2 ^ 16) as Hfl by (unfold response_flags, u16; apply Z.mod_pos_bound; lia).
  pose proof (read_header_ok m rest _ _ _ _ _ _ Hh Hid Hfl Hnq Hna Hnau Hnad) as R. rewrite R, bind_Ok, Hfind.
  assert (forallb (fun err => negb (Z.land (response_flags err) 0x8000 =? 0) && negb (Z.land (response_flags err) 0x020f =? 0) &&
    (Z.land (response_flags err) 15 =? err)) (seqZ 1 15) = true) as Hall by reflexivity.
  rewrite forallb_forall in Hall. assert (In err (seqZ 1 15)) as Hin by (apply list_elem_of_In, elem_of_seqZ; lia). specialize (Hall err Hin).
  bool_props. rewrite (proj2 (Z.eqb_neq _ _)) by done. by rewrite (proj2 (Z.eqb_neq _ _)) by done.
Qed.

(** The client reads its own question. *)
Lemma own_question name ty buf len : name_ok name -> question_at buf 12 (mkQuestion name ty CLASS_INET) len -> fresh_from buf len ->
  parse_name buf len 12 HOST_NAME_LEN = Ok (Next (canon name, len - 4)).
Proof.
  intros Hn (e0 & Hname & _ & ->) Hf. cbn [q_name] in Hname. pose proof (defines_take _ _ Hf) as Dt.
  assert (blen (take (Z.to_nat (e0 + 4)) buf) = e0 + 4) as Hq by (apply blen_take; destruct Hf; lia).
  set (q := take _ buf) in *. rewrite <- (take_drop (Z.to_nat (e0 + 4)) buf). fold q. rewrite <- Hq.
  replace (blen q - 4) with e0 by lia. apply parse_name_ok; [by apply (name_at_mono buf)|]. pose proof (name_ok_text name Hn). unfold HOST_NAME_LEN. lia.
Qed.

(** What the server makes of the question, and the client of the response. *)
Lemma exchange_ok (host name_ty trans_id err : Z) (dup : list byte -> Z -> bool) name (rs : list (section * reply_item)) (rest1 rest2 : list cell) :
  name_ok name -> known_type name_ty -> 0 <= trans_id < 2 ^ 16 -> 0 <= err <= 15 -> Forall (fun r => proper (snd r)) rs ->
  18 + blen name + total item_size (of_section EVDNS_ANSWER_SECTION rs) + total item_size (of_section EVDNS_AUTHORITY_SECTION rs) +
    total item_size (of_section EVDNS_ADDITIONAL_SECTION rs) <= 512 ->
  Forall (fun s => blen (of_section s rs) < 2 ^ 16) [EVDNS_ANSWER_SECTION; EVDNS_AUTHORITY_SECTION; EVDNS_ADDITIONAL_SECTION] ->
  usable host name_ty (of_section EVDNS_ANSWER_SECTION rs) ->
  exists buf len sreq resp,
    evdns_request_data_build name trans_id name_ty CLASS_INET (replicate (Z.to_nat (evdns_request_len (blen name))) None) = Ok (len, buf) /\
    0 < len <= blen buf /\
    request_parse true true (fun _ => true) (take (Z.to_nat len) buf ++ rest1) len = Ok (Some sreq) /\
    sr_questions sreq = [mkQuestion (canon name) name_ty CLASS_INET] /\
    evdns_server_request_format_response dup true (serve sreq rs) err = Ok (with_response (Some resp) (serve sreq rs), 0) /\
    blen resp <= 512 /\ received resp /\
    forall reqs req, request_find_from_trans_id reqs trans_id = Some req ->
      rq_trans_id req = trans_id -> rq_packet req = buf -> rq_len req = len -> rq_type req = name_ty ->
      if err =? 0 then
        exists ttl rp, reply_parse host reqs (resp ++ rest2) (blen resp) = Ok (Handle req (response_flags 0) ttl (Some rp)) /\
          answered name_ty (of_section EVDNS_ANSWER_SECTION rs) rp
      else reply_parse host reqs (resp ++ rest2) (blen resp) = Ok (Handle req (response_flags err) 0 None) /\
           Z.land (response_flags err) 15 = err.
Proof.
  intros Hn Hkn Hid Herr Hrs Hsize Hcounts Huse.
  assert (0 <= name_ty < 2 ^ 16) as Hty by (destruct Hkn as [-> | [-> | ->]]; by vm_compute).
  destruct (request_built name trans_id name_ty CLASS_INET Hn) as (buf & len & Rb & Ah & Aq & Hlen & Hf & _).
  destruct (canon_ok name Hn) as (Hcn & Hcc & Hcl). pose proof (defines_take buf len Hf) as Dt. set (q := take (Z.to_nat len) buf) in *.
  assert (blen q = len) as Hq by (unfold q; apply blen_take; destruct Hf; lia).
  set (sreq := mkSReq trans_id 0x0100 [mkQuestion (canon name) name_ty CLASS_INET] 0 0 0 [] [] [] None).
  assert (serve sreq rs = _) as Hserve by exact (serve_lists rs sreq eq_refl Hrs).
  set (an := of_section EVDNS_ANSWER_SECTION rs) in *. set (au := of_section EVDNS_AUTHORITY_SECTION rs) in *.
  set (ad := of_section EVDNS_ADDITIONAL_SECTION rs) in *. cbn [sr_trans_id sr_flags sr_questions n_answer n_authority n_additional sr_answer sr_authority sr_additional sr_response app sreq] in Hserve. rewrite !Z.add_0_l in Hserve.
  assert (forall s, Forall item_ok (of_section s rs)) as Hitems.
  { intros s. unfold of_section. apply Forall_fmap, Forall_forall. intros r [_ Hr]%list_elem_of_filter. rewrite Forall_forall in Hrs. by apply (Hrs r). }
  assert (response_ok (serve sreq rs)) as Hro.
  { rewrite Hserve. split; cbn [sr_trans_id sr_flags sr_questions n_answer n_authority n_additional sr_answer sr_authority sr_additional sr_response app sreq]; try done.
    - apply Forall_singleton. split; [done|]. split; [done|by vm_compute].
    - split; [apply Hitems|split; apply Hitems].
    - unfold question_size. cbn [total q_name]. lia. }
  destruct (format_response_ok dup (serve sreq rs) err Hro Herr) as (resp & e & Rf & Bh & Bq & (e' & Bi) & Hresp & Hrec).
  rewrite Hserve in Bh, Bq, Bi.
  cbn [sr_trans_id sr_flags sr_questions n_answer n_authority n_additional sr_answer sr_authority sr_additional sr_response app sreq] in Bh, Bq, Bi.
  change (blen [mkQuestion (canon name) name_ty CLASS_INET]) with 1 in Bh. exists buf, len, sreq, resp. split; [done|]. split; [destruct Hf; lia|]. split.
  { fold q. rewrite <- Hq. by apply (request_parsed q rest1 trans_id name name_ty CLASS_INET len);
      [apply (holds_mono buf)|..|apply (question_at_mono buf)]. }
  split; [done|]. split; [done|]. split; [done|]. split; [done|]. intros reqs req Hfind Hrid Hpk Hrl Hrty.
  apply Forall_cons in Hcounts as [Hc1 Hcounts]. apply Forall_cons in Hcounts as [Hc2 Hcounts]. apply Forall_cons in Hcounts as [Hc3 _].
  change (blen an < 2 ^ 16) in Hc1. change (blen au < 2 ^ 16) in Hc2. change (blen ad < 2 ^ 16) in Hc3.
  pose proof (blen_nonneg an). pose proof (blen_nonneg au). pose proof (blen_nonneg ad).
  assert (parse_name (rq_packet req) (rq_len req) 12 HOST_NAME_LEN = Ok (Next (canon name, len - 4))) as Hreq.
  { rewrite Hpk, Hrl. by apply (own_question name name_ty). }
  apply parts_at_one in Bq as Hq1.
  destruct (Z.eqb_spec err 0) as [->|Hne].
  - assert (blen resp <= 2 ^ 14) as Hbig by lia.
    destruct (answers_read host name_ty req resp rest2 an e e' Hkn Hrty Hbig Bi (Hitems _) Huse) as (ttl & rp & Hrun & Hans).
    exists ttl, rp. split; [|done].
    rewrite (reply_parsed host reqs req resp rest2 name name_ty (response_flags 0) (blen an) (blen au) (blen ad) an e (len - 4) e'); rewrite ?Hrid; try done; try lia.
    by rewrite Hrun, bind_Ok.
  - by apply (error_replied host reqs req resp rest2 trans_id err 1 (blen an) (blen au) (blen ad)); try lia.
Qed.

(** C30: A DNS exchange between two programs that use this code. The client's
    question for a name is read by the server as it was asked (without the dot a
    name may end in). Whatever records the server then adds, in whatever sections
    and with whatever names, compressed against each other as
    [dnsname_to_labels] does, if they take at most 512 bytes uncompressed, the
    response is built, is at most 512 bytes long, and read by the client: with an
    error code, the client's request is told about the error; without one, it is
    given exactly the addresses of the answer section, in order and at most 32,
    or the name of the first pointer record, and whether there was an answer at
    all. The answers of the type asked for hold whole addresses, or names that,
    written out, are shorter than the client's [HOST_NAME_MAX] ([usable]). It does
    not matter what lies behind the messages in the packet buffers. *)
Theorem dns_exchange (host name_ty trans_id err : Z) (dup : list byte -> Z -> bool) name (rs : list (section * reply_item)) (rest1 rest2 : list cell) :
  name_ok name -> known_type name_ty -> 0 <= trans_id < 2 ^ 16 -> 0 <= err <= 15 -> Forall (fun r => proper (snd r)) rs ->
  18 + blen name + total item_size (of_section EVDNS_ANSWER_SECTION rs) + total item_size (of_section EVDNS_AUTHORITY_SECTION rs) +
    total item_size (of_section EVDNS_ADDITIONAL_SECTION rs) <= 512 ->
  Forall (fun s => blen (of_section s rs) < 2 ^ 16) [EVDNS_ANSWER_SECTION; EVDNS_AUTHORITY_SECTION; EVDNS_ADDITIONAL_SECTION] ->
  usable host name_ty (of_section EVDNS_ANSWER_SECTION rs) ->
  exists buf len sreq resp,
    evdns_request_data_build name trans_id name_ty CLASS_INET (replicate (Z.to_nat (evdns_request_len (blen name))) None) = Ok (len, buf) /\
    0 < len <= blen buf /\
    request_parse true true (fun _ => true) (take (Z.to_nat len) buf ++ rest1) len = Ok (Some sreq) /\
    sr_questions sreq = [mkQuestion (canon name) name_ty CLASS_INET] /\
    evdns_server_request_format_response dup true (serve sreq rs) err = Ok (with_response (Some resp) (serve sreq rs), 0) /\
    blen resp <= 512 /\
    forall reqs req, request_find_from_trans_id reqs trans_id = Some req ->
      rq_trans_id req = trans_id -> rq_packet req = buf -> rq_len req = len -> rq_type req = name_ty ->
      if err =? 0 then
        exists ttl rp, reply_parse host reqs (resp ++ rest2) (blen resp) = Ok (Handle req (response_flags 0) ttl (Some rp)) /\
          answered name_ty (of_section EVDNS_ANSWER_SECTION rs) rp
      else reply_parse host reqs (resp ++ rest2) (blen resp) = Ok (Handle req (response_flags err) 0 None) /\
           Z.land (response_flags err) 15 = err.
Proof.
  intros Hn Hkn Hid Herr Hrs Hsize Hcounts Huse.
  destruct (exchange_ok host name_ty trans_id err dup name rs rest1 rest2 Hn Hkn Hid Herr Hrs Hsize Hcounts Huse)
    as (buf & len & sreq & resp & H1 & H2 & H3 & H4 & H5 & H6 & _ & H7). by exists buf, len, sreq, resp.
Qed.

(** * Any datagram *)

(** The run returns, or it read beyond a packet buffer that ends less than 63
    bytes after its message. *)
Definition overread (slack : Z) {A} (x : cres A) : Prop := (exists a, x = Ok a) \/ (x = UB OutOfBounds /\ slack < 63).

Lemma overread_ok {A} slack (a : A) : overread slack (Ok a).
Proof. left. by exists a. Qed.

Lemma overread_bind {A B} slack (x : pm A) (k : A -> pm B) (P : A -> Prop) :
  overread slack x -> (forall a, x = Ok (Next a) -> P a) -> (forall a, P a -> overread slack (k a)) -> overread slack (x ≫= k).
Proof.
  intros [[[a| |r] ->]|[-> Hs]] HP Hk; cbn; [apply Hk, HP; done|left; eauto|left; eauto|by right].
Qed.

Section any_datagram.
Context (m rest : list cell) (Hm : received m).

Lemma get_any n pos : 0 <= pos -> overread (blen rest) (get_field n (m ++ rest) (blen m) pos) /\
  forall x j, get_field n (m ++ rest) (blen m) pos = Ok (Next (x, j)) -> j = pos + Z.of_nat n /\ j <= blen m /\ 0 <= x.
Proof.
  intros Hp. destruct (received_get n m rest pos Hm Hp) as [[-> _]|(Hle & bs & Hl & ->)]; [split; [apply overread_ok|done]|].
  split; [apply overread_ok|]. intros x j [= <- <-]. split; [done|]. split; [done|]. unfold be_value. apply le_combine_bound.
Qed.

Lemma name_any pos nol : 0 <= pos -> 0 < nol -> overread (blen rest) (parse_name (m ++ rest) (blen m) pos nol) /\
  forall x j, parse_name (m ++ rest) (blen m) pos nol = Ok (Next (x, j)) -> 0 <= j <= blen m.
Proof.
  intros Hp Hn. unfold parse_name. destruct (name_parse_total m rest pos nol Hm Hp Hn) as [([[name e]|] & -> & Hr)|[-> Hs]].
  - split; [apply overread_ok|]. intros x j [= <- <-]. lia.
  - split; [apply overread_ok|done].
  - split; [by right|done].
Qed.

Lemma take_addresses_any size pos n rp : 0 <= pos -> 0 < size -> 0 <= n -> 0 <= rp_addrcount rp <= MAX_ADDRS ->
  overread (blen rest) (take_addresses size (m ++ rest) (blen m) pos n rp) /\
  forall rp' j more, take_addresses size (m ++ rest) (blen m) pos n rp = Ok (Next (rp', j, more)) ->
    0 <= j /\ 0 <= rp_addrcount rp' <= MAX_ADDRS.
Proof.
  intros Hp Hs Hn Hc. unfold take_addresses. destruct (negb _); [split; [apply overread_ok|done]|].
  pose proof (Z.div_pos n size Hn Hs) as Hd. set (k := Z.min _ _). destruct (Z.gtb_spec (pos + size * k) (blen m)) as [|Hle];
    [split; [apply overread_ok|done]|]. assert (0 <= size * k) as Hk by (unfold k; nia).
  destruct (received_read m rest pos (size * k) Hm Hp Hk Hle) as (bs & Hr & Hl). unfold load. rewrite Hr, bind_Ok, mapM_id_Some.
  assert (rp_addrcount rp + k <= MAX_ADDRS) as Hcap by (unfold k; lia). erewrite pm_next by reflexivity. rewrite (proj2 (Z.leb_le _ _) Hcap).
  split; [apply overread_ok|]. cbn. intros rp' j more [= <- <- _]. cbn. unfold k. split; [lia|]. unfold k in *. lia.
Qed.

(** The next step of a parser that has come to [pos]. *)
Ltac next_get :=
  match goal with |- overread _ (get_field ?k _ _ ?pos ≫= _) =>
    let H1 := fresh in let H2 := fresh in
    destruct (get_any k pos) as [H1 H2]; [lia|];
    eapply (overread_bind _ _ _ (fun '(x, j) => j = pos + Z.of_nat k /\ j <= blen m /\ 0 <= x)); [exact H1|intros [? ?] ?; by apply H2|clear H1 H2; intros [? ?] (-> & ? & ?)]
  end.

Lemma answers_loop_any host req : 0 < host -> forall n pos ttl_r rp, 0 <= pos -> 0 <= rp_addrcount rp <= MAX_ADDRS ->
  overread (blen rest) (answers_loop host n req (m ++ rest) (blen m) pos ttl_r rp).
Proof.
  intros Hh. induction n as [|n IH]; intros pos ttl_r rp Hp Hc; cbn [answers_loop]; [apply overread_ok|].
  destruct (name_any pos HOST_NAME_LEN Hp) as [N1 N2]; [done|].
  eapply (overread_bind _ _ _ (fun '(x, j) => 0 <= j <= blen m)); [exact N1|intros [? ?] ?; by eapply N2|intros [? j] Hj].
  next_get. next_get. next_get. next_get.
  cbv zeta.
  match goal with |- overread _ (if _ then _ else _) => idtac end.
  assert (forall size pos n' tr, 0 <= pos -> 0 < size -> 0 <= n' -> overread (blen rest) ('(rp, j, more) ← take_addresses size (m ++ rest) (blen m) pos n' rp;
    if more : bool then answers_loop host n req (m ++ rest) (blen m) j tr rp else mret (tr, rp))) as Hadr.
  { intros size pos' n' tr Hp' Hs Hn'. destruct (take_addresses_any size pos' n' rp Hp' Hs Hn' Hc) as [T1 T2].
    eapply (overread_bind _ _ _ (fun '(rp', j, more) => 0 <= j /\ 0 <= rp_addrcount rp' <= MAX_ADDRS)); [exact T1|intros [[? ?] ?] ?; by eapply T2|].
    intros [[rp' j'] more] [Hj' Hc']. destruct more; [by apply IH|apply overread_ok]. }
  repeat match goal with |- overread _ (if ?b then _ else _) => destruct b end; try (apply IH; [lia|done]); try (apply Hadr; lia).
  destruct (name_any (j + Z.of_nat 2 + Z.of_nat 2 + Z.of_nat 4 + Z.of_nat 2) host) as [M1 M2]; [lia|done|].
  eapply (overread_bind _ _ _ (fun _ => True)); [exact M1|done|]. intros [? ?] _. apply overread_ok.
Qed.

Lemma read_header_any : overread (blen rest) (read_header (m ++ rest) (blen m)) /\
  forall a b c d j, read_header (m ++ rest) (blen m) = Ok (Next (a, b, c, d, j)) -> 0 <= j.
Proof.
  split.
  - unfold read_header. do 6 next_get. apply overread_ok.
  - unfold read_header. intros a b c d j.
    assert (forall pos, 0 <= pos -> forall B (k : Z * Z -> pm B) (r : B), (get_field 2 (m ++ rest) (blen m) pos ≫= k) = Ok (Next r) ->
      exists x, k (x, pos + 2) = Ok (Next r)) as Hnext.
    { intros pos Hp B k r. destruct (received_get 2 m rest pos Hm Hp) as [[-> _]|(_ & bs & _ & ->)]; [done|]. cbn. eauto. }
    intros H. do 6 (apply Hnext in H as [? H]; [|lia]). injection H as _ _ _ _ <-. lia.
Qed.

Lemma questions_loop_any alloc n : forall pos qs, 0 <= pos -> overread (blen rest) (questions_loop n alloc (m ++ rest) (blen m) pos qs).
Proof.
  induction n as [|n IH]; intros pos qs Hp; cbn [questions_loop]; [apply overread_ok|].
  destruct (name_any pos HOST_NAME_LEN Hp) as [N1 N2]; [done|].
  eapply (overread_bind _ _ _ (fun '(x, j) => 0 <= j <= blen m)); [exact N1|intros [? ?] ?; by eapply N2|intros [? j] Hj].
  next_get. next_get. destruct (negb _); [apply overread_ok|]. apply IH. lia.
Qed.

Lemma test_questions_any req q r n : rq_packet req = q ++ r -> rq_len req = blen q -> received q -> 63 <= blen r ->
  forall pos, 0 <= pos -> overread (blen rest) (test_questions n req (m ++ rest) (blen m) pos) /\
    forall j, test_questions n req (m ++ rest) (blen m) pos = Ok (Next j) -> 0 <= j.
Proof.
  intros Hq Hl Hrq Hslack. induction n as [|n IH]; intros pos Hp; cbn [test_questions]; [split; [apply overread_ok|by intros j [= <-]]|].
  destruct (name_any pos HOST_NAME_LEN Hp) as [N1 N2]; [done|]. cbv zeta.
  assert (exists x, parse_name (rq_packet req) (rq_len req) pos HOST_NAME_LEN = Ok x) as [x Hx].
  { unfold parse_name. rewrite Hq, Hl. destruct (name_parse_total q r pos HOST_NAME_LEN Hrq Hp ltac:(done)) as [([?|] & -> & _)|[_ ?]]; [eexists; reflexivity..|lia]. }
  rewrite Hx. destruct (parse_name (m ++ rest) (blen m) pos HOST_NAME_LEN) as [[[tmp j]| |]|f] eqn:Hn; cbn.
  2,3: by split; [apply overread_ok|]. 2:{ destruct N1 as [[? ?]|[[= ->] ?]]; [done|]. by split; [right|]. }
  pose proof (N2 tmp j eq_refl) as Hj. destruct x as [[cmp k]| |]; cbn; [|by split; [apply overread_ok|]..].
  destruct (negb _); [by split; [apply overread_ok|]|]. destruct (Z.gtb_spec (j + 4) (blen m)); [by split; [apply overread_ok|]|].
  apply IH. lia.
Qed.
End any_datagram.

(** The requests in flight, as [evdns_request_data_build] leaves them in their
    blocks. *)
Definition built (req : request) : Prop :=
  exists q r, rq_packet req = q ++ r /\ rq_len req = blen q /\ received q /\ 63 <= blen r.

Lemma request_parse_any alloc_req alloc_qs alloc m rest : received m ->
  overread (blen rest) (request_parse alloc_req alloc_qs alloc (m ++ rest) (blen m)).
Proof.
  intros Hm. destruct (read_header_any m rest Hm) as [R1 R2].
  unfold request_parse. assert (forall x : pm server_request, overread (blen rest) x -> overread (blen rest) (r ← x; match r with Next req => Ok (Some req) | _ => Ok None end)) as Hout.
  { intros x [[[?| |?] ->]|[-> Hs]]; [apply overread_ok..|by right]. }
  apply Hout. eapply (overread_bind _ _ _ (fun '(a, b, c, d, j) => 0 <= j)); [exact R1|intros [[[[? ?] ?] ?] ?] ?; by eapply R2|].
  intros [[[[? ?] ?] ?] j] Hj. destruct (negb _); [apply overread_ok|]. cbv zeta. destruct (negb _); [apply overread_ok|]. destruct (negb _); [apply overread_ok|].
  eapply (overread_bind _ _ _ (fun _ => True)); [by apply questions_loop_any|done|]. intros [? ?] _. destruct (negb _); apply overread_ok.
Qed.

Lemma reply_parse_any host reqs m rest : received m -> 0 < host -> Forall built reqs ->
  overread (blen rest) (reply_parse host reqs (m ++ rest) (blen m)).
Proof.
  intros Hm Hh Hreqs. destruct (read_header_any m rest Hm) as [R1 R2].
  unfold reply_parse. destruct R1 as [[h Hhd]|[-> Hs]]; [rewrite Hhd in *|by right]. rewrite bind_Ok. destruct h as [[[[[id fl] nq] na] j]| |]; [|apply overread_ok..].
  pose proof (R2 _ _ _ _ _ eq_refl) as Hj. destruct (request_find_from_trans_id reqs id) as [req|] eqn:Hfind; [|apply overread_ok].
  destruct (_ =? 0); [apply overread_ok|]. destruct (negb _); [apply overread_ok|].
  apply find_some in Hfind as [Hin _]. rewrite Forall_forall in Hreqs. destruct (Hreqs req) as (q & r & Hq & Hl & Hrq & Hslack); [by apply list_elem_of_In|].
  destruct (test_questions_any m rest Hm req q r (Z.to_nat nq) Hq Hl Hrq Hslack j Hj) as [T1 T2].
  assert (overread (blen rest) ((j ← test_questions (Z.to_nat nq) req (m ++ rest) (blen m) j;
    answers_loop host (Z.to_nat na) req (m ++ rest) (blen m) j 0xffffffff (mkReply (rq_type req) false 0 [] [])) : pm (Z * reply))) as Hall.
  { eapply (overread_bind _ _ _ (fun j => 0 <= j)); [exact T1|exact T2|]. intros j' Hj'. by apply answers_loop_any. }
  destruct Hall as [[x Hx]|[Hx Hs]]; rewrite Hx; [|by right]. rewrite bind_Ok. destruct x as [[? ?]| |]; apply overread_ok.
Qed.

(** C31: Nothing that arrives can break the parsers, but for one thing: on any
    datagram [request_parse] and [reply_parse] end, for any number of questions
    and records it announces, whatever its compression pointers are; they never
    write more than 32 addresses or a name longer than its array, and never use a
    byte that was not received. The one thing is the copy of a label: it is not
    compared with the length of the message, so a label at the end of a datagram
    is copied from beyond it. This stays inside the packet buffer whenever 63
    bytes of it are left. *)
Theorem dns_any_datagram (host : Z) (alloc_req alloc_qs : bool) (alloc : nat -> bool) (reqs : list request) m rest :
  received m -> 0 < host -> Forall built reqs ->
  overread (blen rest) (request_parse alloc_req alloc_qs alloc (m ++ rest) (blen m)) /\
  overread (blen rest) (reply_parse host reqs (m ++ rest) (blen m)).
Proof. intros Hm Hh Hreqs. split; [by apply request_parse_any|by apply reply_parse_any]. Qed.

(** * Examples *)

Module DnsDemo.

#[local] Instance label_ok_dec l : Decision (label_ok l).
Proof. unfold label_ok. apply _. Defined.

#[local] Instance name_ok_dec name : Decision (name_ok name).
Proof. unfold name_ok. apply _. Defined.

Definition www : list byte := zbytes [119; 119; 119; 46; 97; 46; 111; 114; 103; 46].
Definition host_a : list byte := zbytes [97; 46; 111; 114; 103].

(** An alias and two addresses, with a name server: [www.a.org.] is [a.org]. *)
Definition records : list (section * reply_item) :=
  [(EVDNS_ANSWER_SECTION, new_item www TYPE_CNAME CLASS_INET 60 (-1) true (Some host_a));
   (EVDNS_AUTHORITY_SECTION, new_item host_a 2 CLASS_INET 60 (-1) true (Some www));
   (EVDNS_ANSWER_SECTION, new_item host_a TYPE_A CLASS_INET 300 8 false (Some (zbytes [10; 0; 0; 1; 10; 0; 0; 2])))].

Lemma records_proper : Forall (fun r => proper (snd r)) records.
Proof.
  assert (name_ok www /\ name_ok host_a) as [Hw Ha] by (split; apply (bool_decide_unpack _); vm_compute; exact I).
  unfold records. rewrite !Forall_cons. cbn [snd]. repeat match goal with |- _ /\ _ => split end; try constructor; try done; split; try done;
    repeat match goal with |- _ /\ _ => split end; try done; by eexists.
Qed.

Lemma dns_exchange_witness : exists buf len sreq resp,
  request_parse true true (fun _ => true) (take (Z.to_nat len) buf ++ []) len = Ok (Some sreq) /\
  evdns_server_request_format_response (fun _ _ => true) true (serve sreq records) 0 = Ok (with_response (Some resp) (serve sreq records), 0) /\
  exists ttl rp, reply_parse 64 [mkReq 77 buf len TYPE_A] (resp ++ []) (blen resp) = Ok (Handle (mkReq 77 buf len TYPE_A) 0x8100 ttl (Some rp)) /\
    rp_addresses rp = zbytes [10; 0; 0; 1; 10; 0; 0; 2].
Proof.
  destruct (dns_exchange 64 TYPE_A 77 0 (fun _ _ => true) www records [] []) as (buf & len & sreq & resp & _ & _ & Hq & _ & Hf & _ & Hall).
  - apply (bool_decide_unpack _). vm_compute. exact I.
  - by left.
  - lia.
  - lia.
  - exact records_proper.
  - vm_compute. discriminate.
  - repeat constructor.
  - split; [intros _; repeat constructor; try done; intros [=]|split; [discriminate|discriminate]].
  - exists buf, len, sreq, resp. split; [exact Hq|]. split; [exact Hf|].
    destruct (Hall [mkReq 77 buf len TYPE_A] (mkReq 77 buf len TYPE_A)) as (ttl & rp & Hr & _ & Ha & _); try reflexivity.
    exists ttl, rp. split; [exact Hr|]. rewrite (proj1 (Ha eq_refl)). vm_compute. reflexivity.
Defined.

(** The message of a question, as it is received. *)
Definition query (flags : list byte) (name : list byte) : list byte :=
  zbytes [0; 77] ++ flags ++ zbytes [0; 1; 0; 0; 0; 0; 0; 0] ++ name.

Lemma dns_any_datagram_witness : exists r, request_parse true true (fun _ => true)
  ((Some <$> query (zbytes [0; 0]) (zbytes [192; 12])) ++ replicate 63 None) 14 = Ok r.
Proof.
  destruct (dns_any_datagram 64 true true (fun _ => true) [] (Some <$> query (zbytes [0; 0]) (zbytes [192; 12])) (replicate 63 None))
    as [[H|[_ Hbad]] _].
  - apply Forall_fmap, Forall_true. by eexists.
  - lia.
  - constructor.
  - exact H.
  - by vm_compute in Hbad.
Defined.

(** A label that starts in the last byte of a datagram as long as the packet
    buffer: 63 bytes of the stack behind it are read. *)
Example label_overread :
  request_parse true true (fun _ => true) (Some <$> query (zbytes [0; 0]) (zbytes [197; 219]) ++ replicate 1485 Byte.x00 ++ zbytes [63]) 1500
  = UB OutOfBounds.
Proof. vm_compute. reflexivity. Qed.

(** The zero after a name is written without a look at the end of the buffer. *)
Example terminator_overruns :
  dnsname_to_labels (fun _ _ => true) (replicate 4 None) 0 (zbytes [97; 98; 99]) None = UB OutOfBounds.
Proof. vm_compute. reflexivity. Qed.

(** The root's name takes two bytes, which are not the encoding of a name. *)
Example root_name : dnsname_to_labels (fun _ _ => true) (replicate 4 None) 0 [dot] None =
  Ok ([Some Byte.x00; Some Byte.x00; None; None], None, 2).
Proof. vm_compute. reflexivity. Qed.

(** Addresses that do not fit: the response is 512 bytes, but 29 were written. *)
Example truncated_leaks :
  (r ← evdns_server_request_format_response (fun _ _ => true) true
     (fst (evdns_server_request_add_a_reply true (mkSReq 77 0x0100 [] 0 0 0 [] [] [] None) host_a 400
        (Some (replicate 1600 Byte.x01)) 60)) 0;
   Ok (match sr_response (fst r) with Some resp => (blen resp, blen (filter (fun c => c <> None) resp)) | None => (0, 0) end))
  = Ok (512, 29).
Proof. vm_compute. reflexivity. Qed.

(** A status request (opcode 2) is handed on as a standard query. *)
Example other_opcode_accepted :
  (r ← request_parse true true (fun _ => true) (Some <$> query (zbytes [16; 0]) (zbytes [1; 97; 0; 0; 1; 0; 1])) 19;
   Ok (option_map (fun req => (sr_flags req, sr_questions req)) r)) = Ok (Some (0, [mkQuestion (zbytes [97]) 1 1])).
Proof. vm_compute. reflexivity. Qed.

End DnsDemo.
