(* ===== verification/DnsClient.v ===== *)
(** The DNS client of libevent's [evdns.c]: requests in flight and waiting, name
    servers with their probes, searches, and the callbacks of the program. A
    request is created by [request_new], goes out to a server at once or waits
    for its turn, and ends in [request_finished], when a reply was handled, when
    it was not answered often enough, or when a search goes on with another
    name. *)
From S2P Require Import Prelude.
From S2P Require Import Dns.

(** * Data *)

Definition DNS_ERR_NONE : Z := 0.
Definition DNS_ERR_SERVERFAILED : Z := 2.
Definition DNS_ERR_NOTEXIST : Z := 3.
Definition DNS_ERR_NOTIMPL : Z := 4.
Definition DNS_ERR_REFUSED : Z := 5.
Definition DNS_ERR_TRUNCATED : Z := 65.
Definition DNS_ERR_UNKNOWN : Z := 66.
Definition DNS_ERR_TIMEOUT : Z := 67.
Definition DNS_ERR_SHUTDOWN : Z := 68.
Definition DNS_IPv4_A : Z := 1.
Definition DNS_PTR : Z := 2.
Definition DNS_IPv6_AAAA : Z := 3.
Definition DNS_QUERY_NO_SEARCH : Z := 1.
Definition DNS_EV_READ : Z := 2.
Definition DNS_EV_WRITE : Z := 4.
Definition DNS_EV_PERSIST : Z := 16.

(** [user_callback] with its [user_pointer]: the program's, or the callback of a
    probe with the server it asks. *)
Inductive callback : Type :=
| User (arg : Z)
| nameserver_probe_callback (ns : Z).

#[export] Instance callback_eq_dec : EqDecision callback.
Proof. solve_decision. Defined.

(** The arguments of a callback. *)
Record answer := mkAnswer {
  a_result : Z;
  a_type : Z;
  a_count : Z;
  a_ttl : Z;
  a_addresses : option (list byte)
}.

(** [struct request]: objects are named by addresses; [cr_msg] holds the members
    that name the message, and [cr_timer] the time, in seconds, for which
    [timeout_event] was added, if it is pending. *)
Record client_request := mkCReq {
  cr_msg : request;
  reissue_count : Z;
  tx_count : Z;
  user_callback : callback;
  cr_ns : option Z;
  search_index : Z;
  cr_search : option Z;
  search_origname : option (list byte);
  search_flags : Z;
  transmit_me : bool;
  cr_timer : option Z
}.

(** [struct nameserver]; [ns_port] is in host order, and [ns_event] is what the
    event of its socket was added for, 0 if it is not added. *)
Record nameserver := mkNs {
  ns_address : Z;
  ns_port : Z;
  failed_times : Z;
  timedout : Z;
  ns_state : bool;
  ns_choked : bool;
  write_waiting : bool;
  ns_event : Z;
  ns_timer : option Z
}.

Record search_state := mkSearch {
  ss_refcount : Z;
  ndots : Z;
  num_domains : Z;
  ss_domains : list (list byte)
}.

(** What the program sees and does: its calls with their results, the calls of
    its callbacks, and the messages that were sent. *)
Inductive event : Type :=
| Resolving (arg : Z) (r : Z)
| Calling (arg : Z) (a : answer)
| Sending (ns : Z) (message : list cell).

(** The options of [evdns_set_option] and the constants beside them. *)
Record dns_options := mkOpts {
  global_max_requests_inflight : Z;
  global_max_reissues : Z;
  global_max_retransmits : Z;
  global_max_nameserver_timeout : Z;
  global_timeout : Z
}.

(** The static variables, the memory, and the log. Circular lists are lists that
    begin with their head. [d_tick] counts the questions put to the outside, and
    addresses from [d_fresh] on are not in use. *)
Record dns := mkDns {
  d_tick : nat;
  d_fresh : Z;
  d_log : list event;
  d_reqs : gmap Z client_request;
  d_servers : gmap Z nameserver;
  d_searches : gmap Z search_state;
  req_head : list Z;
  req_waiting_head : list Z;
  server_head : list Z;
  global_good_nameservers : Z;
  global_requests_inflight : Z;
  global_requests_waiting : Z;
  d_opts : dns_options;
  global_search_state : option Z
}.

Definition dns_init : dns := mkDns 0 1 [] ∅ ∅ ∅ [] [] [] 0 0 0 (mkOpts 64 1 3 3 5) None.

(** A call of the program: [evdns_resolve_ipv4], [evdns_resolve_ipv6],
    [evdns_resolve_reverse] (an address in host order) and
    [evdns_resolve_reverse_ipv6], with the argument of the callback. *)
Inductive ask : Type :=
| ResolveIpv4 (name : list byte) (flags arg : Z)
| ResolveIpv6 (name : list byte) (flags arg : Z)
| ResolveReverse (a : Z) (flags arg : Z)
| ResolveReverseIpv6 (s6_addr : list byte) (flags arg : Z).

Inductive sendto_result : Type :=
| SentAll
| SentShort
| SendAgain
| SendError.

(** The outside: its answer to the [n]th question. [e_malloc] is for objects,
    [e_text] for the copies of names and domains, [e_user] the calls the
    program's callbacks make, and [e_draws] how often transaction ids are drawn
    in a row. *)
Record denv := mkEnv {
  e_malloc : nat -> bool;
  e_text : nat -> bool;
  e_event_add : nat -> bool;
  e_socket : nat -> bool;
  e_sendto : nat -> sendto_result;
  e_trans_id : nat -> Z;
  e_draws : nat;
  e_user : Z -> answer -> list ask;
  e_host_name_max : Z
}.

(** * Access *)

Definition dm (A : Type) : Type := dns -> cres (A * dns).

#[export] Instance dm_ret : MRet dm := fun A a d => Ok (a, d).
#[export] Instance dm_bind : MBind dm := fun A B k m d =>
  match m d with
  | Ok (a, d) => k a d
  | UB f => UB f
  end.

Definition dlift {A} (r : cres A) : dm A := fun d =>
  match r with Ok a => Ok (a, d) | UB f => UB f end.
Definition dget : dm dns := fun d => Ok (d, d).
Definition dset (f : dns -> dns) : dm unit := fun d => Ok (tt, f d).

Definition set_log (f : list event -> list event) (d : dns) : dns :=
  mkDns (d_tick d) (d_fresh d) (f (d_log d)) (d_reqs d) (d_servers d) (d_searches d) (req_head d) (req_waiting_head d) (server_head d)
    (global_good_nameservers d) (global_requests_inflight d) (global_requests_waiting d) (d_opts d) (global_search_state d).
Definition set_reqs (f : gmap Z client_request -> gmap Z client_request) (d : dns) : dns :=
  mkDns (d_tick d) (d_fresh d) (d_log d) (f (d_reqs d)) (d_servers d) (d_searches d) (req_head d) (req_waiting_head d) (server_head d)
    (global_good_nameservers d) (global_requests_inflight d) (global_requests_waiting d) (d_opts d) (global_search_state d).
Definition set_servers (f : gmap Z nameserver -> gmap Z nameserver) (d : dns) : dns :=
  mkDns (d_tick d) (d_fresh d) (d_log d) (d_reqs d) (f (d_servers d)) (d_searches d) (req_head d) (req_waiting_head d) (server_head d)
    (global_good_nameservers d) (global_requests_inflight d) (global_requests_waiting d) (d_opts d) (global_search_state d).
Definition set_searches (f : gmap Z search_state -> gmap Z search_state) (d : dns) : dns :=
  mkDns (d_tick d) (d_fresh d) (d_log d) (d_reqs d) (d_servers d) (f (d_searches d)) (req_head d) (req_waiting_head d) (server_head d)
    (global_good_nameservers d) (global_requests_inflight d) (global_requests_waiting d) (d_opts d) (global_search_state d).
Definition set_req_head (q : list Z) (n' : Z) (d : dns) : dns :=
  mkDns (d_tick d) (d_fresh d) (d_log d) (d_reqs d) (d_servers d) (d_searches d) q (req_waiting_head d) (server_head d)
    (global_good_nameservers d) n' (global_requests_waiting d) (d_opts d) (global_search_state d).
Definition set_waiting (q : list Z) (n' : Z) (d : dns) : dns :=
  mkDns (d_tick d) (d_fresh d) (d_log d) (d_reqs d) (d_servers d) (d_searches d) (req_head d) q (server_head d)
    (global_good_nameservers d) (global_requests_inflight d) n' (d_opts d) (global_search_state d).
Definition set_server_head (q : list Z) (d : dns) : dns :=
  mkDns (d_tick d) (d_fresh d) (d_log d) (d_reqs d) (d_servers d) (d_searches d) (req_head d) (req_waiting_head d) q
    (global_good_nameservers d) (global_requests_inflight d) (global_requests_waiting d) (d_opts d) (global_search_state d).
Definition set_good (g' : Z) (d : dns) : dns :=
  mkDns (d_tick d) (d_fresh d) (d_log d) (d_reqs d) (d_servers d) (d_searches d) (req_head d) (req_waiting_head d) (server_head d) g'
    (global_requests_inflight d) (global_requests_waiting d) (d_opts d) (global_search_state d).
Definition set_opts (f : dns_options -> dns_options) (d : dns) : dns :=
  mkDns (d_tick d) (d_fresh d) (d_log d) (d_reqs d) (d_servers d) (d_searches d) (req_head d) (req_waiting_head d) (server_head d)
    (global_good_nameservers d) (global_requests_inflight d) (global_requests_waiting d) (f (d_opts d)) (global_search_state d).
Definition set_global_search (x : option Z) (d : dns) : dns :=
  mkDns (d_tick d) (d_fresh d) (d_log d) (d_reqs d) (d_servers d) (d_searches d) (req_head d) (req_waiting_head d) (server_head d)
    (global_good_nameservers d) (global_requests_inflight d) (global_requests_waiting d) (d_opts d) x.
Definition set_tick (t' : nat) (d : dns) : dns :=
  mkDns t' (d_fresh d) (d_log d) (d_reqs d) (d_servers d) (d_searches d) (req_head d) (req_waiting_head d) (server_head d)
    (global_good_nameservers d) (global_requests_inflight d) (global_requests_waiting d) (d_opts d) (global_search_state d).
Definition set_fresh (n' : Z) (d : dns) : dns :=
  mkDns (d_tick d) n' (d_log d) (d_reqs d) (d_servers d) (d_searches d) (req_head d) (req_waiting_head d) (server_head d)
    (global_good_nameservers d) (global_requests_inflight d) (global_requests_waiting d) (d_opts d) (global_search_state d).

Definition with_msg (m : request) (r : client_request) : client_request :=
  mkCReq m (reissue_count r) (tx_count r) (user_callback r) (cr_ns r) (search_index r) (cr_search r) (search_origname r)
    (search_flags r) (transmit_me r) (cr_timer r).
Definition with_counts (reissues tx : Z) (r : client_request) : client_request :=
  mkCReq (cr_msg r) reissues tx (user_callback r) (cr_ns r) (search_index r) (cr_search r) (search_origname r)
    (search_flags r) (transmit_me r) (cr_timer r).
Definition with_ns (ns : option Z) (r : client_request) : client_request :=
  mkCReq (cr_msg r) (reissue_count r) (tx_count r) (user_callback r) ns (search_index r) (cr_search r) (search_origname r)
    (search_flags r) (transmit_me r) (cr_timer r).
Definition with_search (i : Z) (s : option Z) (orig : option (list byte)) (flags : Z) (r : client_request) : client_request :=
  mkCReq (cr_msg r) (reissue_count r) (tx_count r) (user_callback r) (cr_ns r) i s orig flags (transmit_me r) (cr_timer r).
Definition with_transmit (b : bool) (r : client_request) : client_request :=
  mkCReq (cr_msg r) (reissue_count r) (tx_count r) (user_callback r) (cr_ns r) (search_index r) (cr_search r) (search_origname r)
    (search_flags r) b (cr_timer r).
Definition with_timer (t : option Z) (r : client_request) : client_request :=
  mkCReq (cr_msg r) (reissue_count r) (tx_count r) (user_callback r) (cr_ns r) (search_index r) (cr_search r) (search_origname r)
    (search_flags r) (transmit_me r) t.

Definition with_state (b : bool) (failed timed : Z) (s : nameserver) : nameserver :=
  mkNs (ns_address s) (ns_port s) failed timed b (ns_choked s) (write_waiting s) (ns_event s) (ns_timer s).
Definition with_choked (b : bool) (s : nameserver) : nameserver :=
  mkNs (ns_address s) (ns_port s) (failed_times s) (timedout s) (ns_state s) b (write_waiting s) (ns_event s) (ns_timer s).
Definition with_waiting (b : bool) (ev : Z) (s : nameserver) : nameserver :=
  mkNs (ns_address s) (ns_port s) (failed_times s) (timedout s) (ns_state s) (ns_choked s) b ev (ns_timer s).
Definition with_ns_timer (t : option Z) (s : nameserver) : nameserver :=
  mkNs (ns_address s) (ns_port s) (failed_times s) (timedout s) (ns_state s) (ns_choked s) (write_waiting s) (ns_event s) t.

(** [req->...] and [ns->...]. *)
Definition load_req (x : Z) : dm client_request := fun d =>
  match d_reqs d !! x with Some r => Ok (r, d) | None => UB UseAfterFree end.
Definition update_req (x : Z) (f : client_request -> client_request) : dm unit :=
  load_req x ≫= fun _ => dset (set_reqs (alter f x)).
Definition load_ns (n : Z) : dm nameserver := fun d =>
  match d_servers d !! n with Some s => Ok (s, d) | None => UB UseAfterFree end.
Definition update_ns (n : Z) (f : nameserver -> nameserver) : dm unit :=
  load_ns n ≫= fun _ => dset (set_servers (alter f n)).
Definition load_search (s : Z) : dm search_state := fun d =>
  match d_searches d !! s with Some st => Ok (st, d) | None => UB UseAfterFree end.
Definition update_search (s : Z) (f : search_state -> search_state) : dm unit :=
  load_search s ≫= fun _ => dset (set_searches (alter f s)).

(** The server of a request. *)
Definition server_of (r : client_request) : dm Z := dlift (of_option NullDeref (cr_ns r)).

Definition draw {A} (f : nat -> A) : dm A := fun d => Ok (f (d_tick d), set_tick (S (d_tick d)) d).
Definition fresh : dm Z := fun d => Ok (d_fresh d, set_fresh (d_fresh d + 1) d).

Definition rotate (l : list Z) : list Z := match l with [] => [] | x :: l => l ++ [x] end.
Definition without (x : Z) (l : list Z) : list Z := filter (fun y => y <> x) l.

(** * Servers and transmission *)

Section Client.
Context (env : denv).

(** [event_add] with a time-out, whose failure is only logged: what is pending
    afterwards. *)
Definition timer_add (t : Z) (old : option Z) : dm (option Z) :=
  ok ← draw (e_event_add env); mret (if ok : bool then Some t else old).

(** The first request with this transaction id. *)
Fixpoint find_id (l : list Z) (trans_id : Z) : dm (option Z) :=
  match l with
  | [] => mret None
  | x :: l => r ← load_req x; if rq_trans_id (cr_msg r) =? trans_id then mret (Some x) else find_id l trans_id
  end.

(** [transaction_id_pick]. Leaving the inner loop at the request it started with
    counts as not having found the id. *)
Fixpoint transaction_id_loop (fuel : nat) : dm Z :=
  match fuel with
  | O => dlift (UB Diverges)
  | S fuel =>
      trans_id ← draw (e_trans_id env);
      if trans_id =? 0xffff then transaction_id_loop fuel
      else
        d ← dget;
        req ← find_id (req_head d) trans_id;
        if bool_decide (req = None \/ req = head (req_head d)) then mret trans_id else transaction_id_loop fuel
  end.

Definition transaction_id_pick : dm Z := transaction_id_loop (e_draws env).

(** The search for a server that is up, from the head on. *)
Fixpoint nameserver_loop (fuel : nat) (started_at : option Z) : dm (option Z) :=
  match fuel with
  | O => dlift (UB Diverges)
  | S fuel =>
      d ← dget;
      n ← dlift (of_option NullDeref (head (server_head d)));
      s ← load_ns n;
      dset (set_server_head (rotate (server_head d)));;
      if ns_state s then mret (Some n)
      else
        d ← dget;
        if bool_decide (head (server_head d) = started_at) then
          dlift (require (global_good_nameservers d =? 0) AssertFailed);;
          dset (set_server_head (rotate (server_head d)));;
          mret started_at
        else nameserver_loop fuel started_at
  end.

Definition nameserver_pick : dm (option Z) :=
  d ← dget;
  match server_head d with
  | [] => mret None
  | n :: _ =>
      if global_good_nameservers d =? 0 then
        dset (set_server_head (rotate (server_head d)));; d ← dget; mret (head (server_head d))
      else nameserver_loop (S (length (server_head d))) (Some n)
  end.

Fixpoint reassign (l : list Z) (ns : Z) : dm unit :=
  match l with
  | [] => mret tt
  | x :: l =>
      r ← load_req x;
      (if (tx_count r =? 0) && bool_decide (cr_ns r = Some ns) then
         n ← nameserver_pick; update_req x (with_ns n)
       else mret tt);;
      reassign l ns
  end.

Definition nameserver_failed (ns : Z) : dm unit :=
  s ← load_ns ns;
  if negb (ns_state s) then mret tt
  else
    d ← dget;
    dset (set_good (global_good_nameservers d - 1));;
    dlift (require (0 <=? global_good_nameservers d - 1) AssertFailed);;
    t ← timer_add 10 (ns_timer s);
    update_ns ns (with_ns_timer t ∘ with_state false 1 (timedout s));;
    if global_good_nameservers d - 1 =? 0 then mret tt else reassign (req_head d) ns.

Definition nameserver_up (ns : Z) : dm unit :=
  s ← load_ns ns;
  if ns_state s then mret tt
  else
    update_ns ns (with_state true 0 0 ∘ with_ns_timer None);;
    d ← dget; dset (set_good (global_good_nameservers d + 1)).

Definition global_nameserver_timeouts : list Z := [10; 60; 300; 900; 3600].

Definition nameserver_probe_failed (ns : Z) : dm unit :=
  s ← load_ns ns;
  update_ns ns (with_ns_timer None);;
  if ns_state s then mret tt
  else
    timeout ← dlift (of_option OutOfBounds (global_nameserver_timeouts !! Z.to_nat (Z.min (failed_times s) 4)));
    t ← timer_add timeout None;
    update_ns ns (with_ns_timer t ∘ with_state false (failed_times s + 1) (timedout s)).

Definition nameserver_write_waiting (ns : Z) (waiting : bool) : dm unit :=
  s ← load_ns ns;
  if Bool.eqb (write_waiting s) waiting then mret tt
  else
    ok ← draw (e_event_add env);
    update_ns ns (with_waiting waiting
      (if ok : bool then Z.lor (Z.lor DNS_EV_READ (if waiting then DNS_EV_WRITE else 0)) DNS_EV_PERSIST else 0)).

(** 0 if the message was sent, 1 on a temporary failure, 2 on another one. *)
Definition evdns_request_transmit_to (x : Z) (server : Z) : dm Z :=
  r ← load_req x;
  ns ← server_of r;
  s ← load_ns ns;
  res ← draw (e_sendto env);
  match res with
  | SendAgain | SentShort => mret 1
  | SendError => nameserver_failed ns;; mret 2
  | SentAll => dset (set_log (fun l => l ++ [Sending server (take (Z.to_nat (rq_len (cr_msg r))) (rq_packet (cr_msg r)))]));; mret 0
  end.

Definition evdns_request_transmit (x : Z) : dm Z :=
  update_req x (with_transmit true);;
  r ← load_req x;
  dlift (require (negb (rq_trans_id (cr_msg r) =? 0xffff)) AssertFailed);;
  ns ← server_of r;
  s ← load_ns ns;
  if ns_choked s then mret 1
  else
    code ← evdns_request_transmit_to x ns;
    if code =? 1 then
      r ← load_req x;
      ns ← server_of r;
      update_ns ns (with_choked true);;
      nameserver_write_waiting ns true;;
      mret 1
    else
      d ← dget;
      r ← load_req x;
      t ← timer_add (global_timeout (d_opts d)) (cr_timer r);
      update_req x (with_transmit false ∘ with_counts (reissue_count r) (tx_count r + 1) ∘ with_timer t);;
      mret (if code =? 2 then 1 else 0).

Fixpoint transmit_loop (l : list Z) (did : bool) : dm bool :=
  match l with
  | [] => mret did
  | x :: l =>
      r ← load_req x;
      if transmit_me r then evdns_request_transmit x;; transmit_loop l true else transmit_loop l did
  end.

Definition evdns_transmit : dm bool := d ← dget; transmit_loop (req_head d) false.

(** * Requests *)

Inductive queue : Type :=
| Inflight
| Waiting.

(** [evdns_request_insert] with the count that goes with it. *)
Definition evdns_request_insert (x : Z) (q : queue) : dm unit :=
  dset (fun d => match q with
    | Inflight => set_req_head (req_head d ++ [x]) (global_requests_inflight d) d
    | Waiting => set_waiting (req_waiting_head d ++ [x]) (global_requests_waiting d) d
    end).

Definition request_trans_id_set (x trans_id : Z) : dm unit :=
  r ← load_req x;
  let m := cr_msg r in
  packet ← dlift (put (rq_packet m) 0 (be_bytes 2 trans_id));
  update_req x (with_msg (mkReq trans_id packet (rq_len m) (rq_type m))).

(** [evdns_requests_pump_waiting_queue]; every round takes a request off the
    waiting list. *)
Fixpoint pump_loop (fuel : nat) : dm unit :=
  match fuel with
  | O => dlift (UB Diverges)
  | S fuel =>
      d ← dget;
      if (global_requests_inflight d <? global_max_requests_inflight (d_opts d)) && negb (global_requests_waiting d =? 0) then
        match req_waiting_head d with
        | [] => dlift (UB AssertFailed)
        | x :: l =>
            dset (set_waiting l (global_requests_waiting d - 1));;
            dset (set_req_head (req_head d) (global_requests_inflight d + 1));;
            n ← nameserver_pick;
            update_req x (with_ns n);;
            trans_id ← transaction_id_pick;
            request_trans_id_set x trans_id;;
            evdns_request_insert x Inflight;;
            evdns_request_transmit x;;
            evdns_transmit;;
            pump_loop fuel
        end
      else mret tt
  end.

Definition evdns_requests_pump_waiting_queue : dm unit :=
  d ← dget; pump_loop (S (length (req_waiting_head d))).

(** [request_new]: [None] if there is no memory or the name does not fit. *)
Definition request_new (type : Z) (name : list byte) (cb : callback) : dm (option Z) :=
  d ← dget;
  let issuing_now := global_requests_inflight d <? global_max_requests_inflight (d_opts d) in
  let request_max_len := evdns_request_len (blen name) in
  trans_id ← (if issuing_now then transaction_id_pick else mret 0xffff);
  ok ← draw (e_malloc env);
  if negb ok then mret None
  else
    '(rlen, packet) ← dlift (evdns_request_data_build name trans_id type CLASS_INET (replicate (Z.to_nat request_max_len) None));
    if rlen <? 0 then mret None
    else
      ns ← (if issuing_now then nameserver_pick else mret None);
      x ← fresh;
      dset (set_reqs (insert x (mkCReq (mkReq trans_id packet rlen type) 0 0 cb ns 0 None None 0 false None)));;
      mret (Some x).

Definition request_submit (x : Z) : dm unit :=
  r ← load_req x;
  match cr_ns r with
  | Some _ =>
      evdns_request_insert x Inflight;;
      dset (fun d => set_req_head (req_head d) (global_requests_inflight d + 1) d);;
      evdns_request_transmit x;; mret tt
  | None =>
      evdns_request_insert x Waiting;;
      dset (fun d => set_waiting (req_waiting_head d) (global_requests_waiting d + 1) d)
  end.

Definition nameserver_send_probe (ns : Z) : dm unit :=
  req ← request_new TYPE_A (zbytes [119; 119; 119; 46; 103; 111; 111; 103; 108; 101; 46; 99; 111; 109]) (nameserver_probe_callback ns);
  match req with
  | None => mret tt
  | Some x =>
      trans_id ← transaction_id_pick;
      request_trans_id_set x trans_id;;
      update_req x (with_ns (Some ns));;
      request_submit x
  end.

(** * Searches *)

Definition search_state_decref (s : Z) : dm unit :=
  st ← load_search s;
  if ss_refcount st - 1 =? 0 then dset (set_searches (delete s))
  else update_search s (fun st => mkSearch (ss_refcount st - 1) (ndots st) (num_domains st) (ss_domains st)).

Definition search_state_new : dm (option Z) :=
  ok ← draw (e_malloc env);
  if negb ok then mret None
  else s ← fresh; dset (set_searches (insert s (mkSearch 1 1 0 [])));; mret (Some s).

Definition search_postfix_clear : dm unit :=
  d ← dget;
  match global_search_state d with Some s => search_state_decref s | None => mret tt end;;
  s ← search_state_new;
  dset (set_global_search s).

(** The global state, made if there is none. *)
Definition some_search_state : dm (option Z) :=
  d ← dget;
  match global_search_state d with
  | Some s => mret (Some s)
  | None => s ← search_state_new; dset (set_global_search s);; mret s
  end.

Fixpoint skip_dots (domain : list byte) : list byte :=
  match domain with
  | [] => []
  | b :: rest => if decide (b = dot) then skip_dots rest else domain
  end.

Definition search_postfix_add (domain : list byte) : dm unit :=
  let domain := skip_dots domain in
  s ← some_search_state;
  match s with
  | None => mret tt
  | Some s =>
      update_search s (fun st => mkSearch (ss_refcount st) (ndots st) (num_domains st + 1) (ss_domains st));;
      ok ← draw (e_text env);
      if negb ok then mret tt
      else update_search s (fun st => mkSearch (ss_refcount st) (ndots st) (num_domains st) (domain :: ss_domains st))
  end.

Definition search_reverse : dm unit :=
  d ← dget;
  s ← dlift (of_option NullDeref (global_search_state d));
  update_search s (fun st => mkSearch (ss_refcount st) (ndots st) (num_domains st) (rev (ss_domains st))).

Definition evdns_search_ndots_set (n : Z) : dm unit :=
  s ← some_search_state;
  match s with
  | None => mret tt
  | Some s => update_search s (fun st => mkSearch (ss_refcount st) n (num_domains st) (ss_domains st))
  end.

Definition string_num_dots (name : list byte) : Z := blen (filter (fun b => b = dot) name).

(** The name with the [n]th domain; the last character of the name is read first. *)
Definition search_make_new (st : search_state) (n : Z) (base_name : list byte) : dm (option (list byte)) :=
  b ← dlift (of_option OutOfBounds (last base_name));
  let need_to_append_dot := negb (bool_decide (b = dot)) in
  postfix ← dlift (of_option AssertFailed (if n <? 0 then None else ss_domains st !! Z.to_nat n));
  ok ← draw (e_malloc env);
  if ok : bool then mret (Some (base_name ++ (if need_to_append_dot then [dot] else []) ++ postfix)) else mret None.

(** The part of a search a request keeps; the number of references goes up. *)
Definition attach_search (x i s : Z) (orig : option (list byte)) (flags : Z) : dm unit :=
  update_req x (with_search i (Some s) orig flags);;
  update_search s (fun st => mkSearch (ss_refcount st + 1) (ndots st) (num_domains st) (ss_domains st)).

Definition search_request_new (type : Z) (name : list byte) (flags : Z) (cb : callback) : dm Z :=
  d ← dget;
  st ← match global_search_state d with
       | Some s => st ← load_search s; mret (Some (s, st))
       | None => mret None
       end;
  match (if Z.land flags DNS_QUERY_NO_SEARCH =? 0 then st else None) with
  | Some (s, st) =>
      if num_domains st =? 0 then
        req ← request_new type name cb;
        match req with None => mret 1 | Some x => request_submit x;; mret 0 end
      else
        made ← (if string_num_dots name >=? ndots st then
                  req ← request_new type name cb; mret (option_map (fun x => (x, -1)) req)
                else
                  new_name ← search_make_new st 0 name;
                  match new_name with
                  | None => mret None
                  | Some new_name => req ← request_new type new_name cb; mret (option_map (fun x => (x, 0)) req)
                  end);
        match made with
        | None => mret 1
        | Some (x, i) =>
            ok ← draw (e_text env);
            attach_search x i s (if ok : bool then Some name else None) flags;;
            request_submit x;;
            mret 0
        end
  | None =>
      req ← request_new type name cb;
      match req with None => mret 1 | Some x => request_submit x;; mret 0 end
  end.

(** 0 if another request was submitted. *)
Definition search_try_next (x : Z) : dm Z :=
  r ← load_req x;
  match cr_search r with
  | None => mret 1
  | Some s =>
      let i := search_index r + 1 in
      update_req x (with_search i (cr_search r) (search_origname r) (search_flags r));;
      st ← load_search s;
      orig ← dlift (of_option NullDeref (search_origname r));
      if i >=? num_domains st then
        if string_num_dots orig <? ndots st then
          newreq ← request_new (rq_type (cr_msg r)) orig (user_callback r);
          match newreq with None => mret 1 | Some y => request_submit y;; mret 0 end
        else mret 1
      else
        new_name ← search_make_new st i orig;
        match new_name with
        | None => mret 1
        | Some new_name =>
            newreq ← request_new (rq_type (cr_msg r)) new_name (user_callback r);
            match newreq with
            | None => mret 1
            | Some y =>
                update_req x (with_search i (cr_search r) None (search_flags r));;
                attach_search y i s (Some orig) (search_flags r);;
                request_submit y;;
                mret 0
            end
        end
  end.

Definition search_request_finished (x : Z) : dm unit :=
  r ← load_req x;
  match cr_search r with
  | Some s => search_state_decref s
  | None => mret tt
  end;;
  update_req x (with_search (search_index r) None None (search_flags r)).

(** * Resolving *)

Definition plain_request (type : Z) (name : list byte) (arg : Z) : dm Z :=
  req ← request_new type name (User arg);
  match req with None => mret 1 | Some x => request_submit x;; mret 0 end.

Definition resolve_name (type : Z) (name : list byte) (flags arg : Z) : dm Z :=
  if negb (Z.land flags DNS_QUERY_NO_SEARCH =? 0) then plain_request type name arg
  else search_request_new type name flags (User arg).

Definition hex_digit (n : Z) : byte := byte.of_Z (if n <? 10 then 48 + n else 87 + n).

(** The name under which 16 bytes are looked up. *)
Definition reverse_name6 (s6_addr : list byte) : list byte :=
  concat ((fun b => [hex_digit (Z.land (byte.unsigned b) 15); dot; hex_digit (Z.shiftr (byte.unsigned b) 4); dot]) <$> rev s6_addr) ++
  zbytes [105; 112; 54; 46; 97; 114; 112; 97].

Definition resolve_call (a : ask) : dm Z :=
  match a with
  | ResolveIpv4 name flags arg => resolve_name TYPE_A name flags arg
  | ResolveIpv6 name flags arg => resolve_name TYPE_AAAA name flags arg
  | ResolveReverse a _ arg => plain_request TYPE_PTR (reverse_name a) arg
  | ResolveReverseIpv6 s6_addr _ arg => plain_request TYPE_PTR (reverse_name6 s6_addr) arg
  end.

Definition ask_arg (a : ask) : Z :=
  match a with
  | ResolveIpv4 _ _ arg | ResolveIpv6 _ _ arg | ResolveReverse _ _ arg | ResolveReverseIpv6 _ _ arg => arg
  end.

(** A call by the program, with its result in the log. *)
Definition resolve (a : ask) : dm unit :=
  r ← resolve_call a;
  dset (set_log (fun l => l ++ [Resolving (ask_arg a) r])).

Fixpoint resolve_all (l : list ask) : dm unit :=
  match l with
  | [] => mret tt
  | a :: l => resolve a;; resolve_all l
  end.

(** * Replies *)

(** A call of [user_callback]: the program's may resolve more names. *)
Definition call_back (cb : callback) (a : answer) : dm unit :=
  match cb with
  | User arg =>
      dset (set_log (fun l => l ++ [Calling arg a]));;
      resolve_all (e_user env arg a)
  | nameserver_probe_callback ns =>
      if (a_result a =? DNS_ERR_NONE) || (a_result a =? DNS_ERR_NOTEXIST) then nameserver_up ns
      else nameserver_probe_failed ns
  end.

Definition reply_answer (type ttl err : Z) (rp : option reply) : cres answer :=
  if type =? TYPE_A then
    Ok (match rp with
        | Some rp => mkAnswer DNS_ERR_NONE DNS_IPv4_A (rp_addrcount rp) ttl (Some (rp_addresses rp))
        | None => mkAnswer err 0 0 0 None
        end)
  else if type =? TYPE_PTR then
    Ok (match rp with
        | Some rp => mkAnswer DNS_ERR_NONE DNS_PTR 1 ttl (Some (rp_name rp))
        | None => mkAnswer err 0 0 0 None
        end)
  else if type =? TYPE_AAAA then
    Ok (match rp with
        | Some rp => mkAnswer DNS_ERR_NONE DNS_IPv6_AAAA (rp_addrcount rp) ttl (Some (rp_addresses rp))
        | None => mkAnswer err 0 0 0 None
        end)
  else UB AssertFailed.

Definition reply_callback (x ttl err : Z) (rp : option reply) : dm unit :=
  r ← load_req x;
  a ← dlift (reply_answer (rq_type (cr_msg r)) ttl err rp);
  call_back (user_callback r) a.

Definition queue_remove (x : Z) (l : list Z) : cres (list Z) :=
  if decide (x ∈ l) then Ok (without x l) else UB WildPointer.

(** [request_finished]: whatever list it is taken from, it counts as one less in
    flight. *)
Definition request_finished (x : Z) (q : queue) : dm unit :=
  load_req x;;
  d ← dget;
  match q with
  | Inflight => l ← dlift (queue_remove x (req_head d)); dset (set_req_head l (global_requests_inflight d))
  | Waiting => l ← dlift (queue_remove x (req_waiting_head d)); dset (set_waiting l (global_requests_waiting d))
  end;;
  update_req x (with_timer None);;
  search_request_finished x;;
  dset (fun d => set_req_head (req_head d) (global_requests_inflight d - 1) d);;
  dset (set_reqs (delete x));;
  evdns_requests_pump_waiting_queue.

(** 0 if the request goes to another server. *)
Definition request_reissue (x : Z) : dm Z :=
  r ← load_req x;
  n ← nameserver_pick;
  update_req x (with_ns n);;
  if bool_decide (n = cr_ns r) then mret 1
  else
    update_req x (with_transmit true ∘ with_counts (reissue_count r + 1) 0);;
    mret 0.

Definition reply_error (flags : Z) : Z :=
  if negb (Z.land flags 0x0200 =? 0) then DNS_ERR_TRUNCATED
  else
    let error_code := u16 (Z.land flags 0x000f - 1) in
    if error_code >? 4 then DNS_ERR_UNKNOWN else error_code + 1.

(** The next name of a search, or the error to the callback. *)
Definition pass_failure (x error : Z) : dm unit :=
  r ← load_req x;
  next ← (if bool_decide (is_Some (cr_search r)) && negb (rq_type (cr_msg r) =? TYPE_PTR) then search_try_next x else mret 1);
  if next =? 0 then request_finished x Inflight
  else reply_callback x 0 error None;; request_finished x Inflight.

Definition reply_handle (x flags ttl : Z) (rp : option reply) : dm unit :=
  if negb (Z.land flags 0x020f =? 0) || negb (from_option rp_have_answer false rp) then
    let error := reply_error flags in
    r ← load_req x;
    done ← (if (error =? DNS_ERR_NOTIMPL) || (error =? DNS_ERR_REFUSED) then
              d ← dget;
              if reissue_count r <? global_max_reissues (d_opts d) then
                ns ← server_of r;
                nameserver_failed ns;;
                code ← request_reissue x;
                mret (code =? 0)
              else mret false
            else if error =? DNS_ERR_SERVERFAILED then mret false
            else ns ← server_of r; nameserver_up ns;; mret false);
    if done : bool then mret tt else pass_failure x error
  else
    reply_callback x ttl 0 rp;;
    r ← load_req x;
    ns ← server_of r;
    nameserver_up ns;;
    request_finished x Inflight.

(** The messages of the requests in flight. *)
Fixpoint messages (l : list Z) : dm (list request) :=
  match l with
  | [] => mret []
  | x :: l => r ← load_req x; ms ← messages l; mret (cr_msg r :: ms)
  end.

(** A message from a server, through [reply_parse]. *)
Definition receive_reply (packet : list cell) (len : Z) : dm unit :=
  d ← dget;
  ms ← messages (req_head d);
  act ← dlift (reply_parse (e_host_name_max env) ms packet len);
  match act with
  | Ignored => mret tt
  | Handle m flags ttl rp =>
      req ← find_id (req_head d) (rq_trans_id m);
      x ← dlift (of_option NullDeref req);
      reply_handle x flags ttl rp
  end.

(** * Events *)

(** What [recvfrom] gives: a datagram with its sender, if that is an IPv4
    address, or an error; after these, it would block. *)
Inductive received_from : Type :=
| Datagram (sender : option Z) (bytes : list byte)
| ReadError.

(** [nameserver_read]; [packet] is the array the datagrams are read into. *)
Fixpoint read_loop (ns : Z) (packet : list cell) (rs : list received_from) : dm unit :=
  match rs with
  | [] => mret tt
  | ReadError :: _ => nameserver_failed ns
  | Datagram sender bytes :: rs =>
      packet ← dlift (put packet 0 bytes);
      s ← load_ns ns;
      if negb (bool_decide (sender = Some (ns_address s))) then mret tt
      else
        update_ns ns (with_state (ns_state s) (failed_times s) 0);;
        receive_reply packet (blen bytes);;
        read_loop ns packet rs
  end.

Definition nameserver_read (ns : Z) (rs : list received_from) : dm unit :=
  read_loop ns (replicate 1500 None) rs.

Definition nameserver_ready_callback (ns : Z) (readable writable : bool) (rs : list received_from) : dm unit :=
  (if writable then
     update_ns ns (with_choked false);;
     did ← evdns_transmit;
     if did : bool then mret tt else nameserver_write_waiting ns false
   else mret tt);;
  if readable then nameserver_read ns rs else mret tt.

Definition evdns_request_timeout_callback (x : Z) : dm unit :=
  r ← load_req x;
  ns ← server_of r;
  s ← load_ns ns;
  d ← dget;
  update_ns ns (with_state (ns_state s) (failed_times s) (timedout s + 1));;
  (if timedout s + 1 >? global_max_nameserver_timeout (d_opts d) then
     update_ns ns (with_state (ns_state s) (failed_times s) 0);;
     nameserver_failed ns
   else mret tt);;
  update_req x (with_timer None);;
  if tx_count r >=? global_max_retransmits (d_opts d) then
    reply_callback x 0 DNS_ERR_TIMEOUT None;;
    request_finished x Inflight
  else evdns_request_transmit x;; mret tt.

Definition nameserver_prod_callback (ns : Z) : dm unit := nameserver_send_probe ns.

(** * Servers added and cleared *)

Fixpoint known_address (l : list Z) (address : Z) : dm bool :=
  match l with
  | [] => mret false
  | n :: l => s ← load_ns n; if ns_address s =? address then mret true else known_address l address
  end.

Definition evdns_nameserver_add_impl (address port : Z) : dm Z :=
  d ← dget;
  known ← known_address (server_head d) address;
  if known : bool then mret 3
  else
    ok ← draw (e_malloc env);
    if negb ok then mret (-1)
    else
      sock ← draw (e_socket env);
      if negb sock then mret 1
      else
        added ← draw (e_event_add env);
        if negb added then mret 2
        else
          n ← fresh;
          dset (set_servers (insert n (mkNs address port 0 0 true false false (Z.lor DNS_EV_READ DNS_EV_PERSIST) None)));;
          dset (fun d => set_server_head (match server_head d with [] => [n] | x :: l => x :: n :: l end) d);;
          dset (fun d => set_good (global_good_nameservers d + 1) d);;
          mret 0.

Definition evdns_nameserver_add (address : Z) : dm Z := evdns_nameserver_add_impl address 53.

Definition evdns_count_nameservers : dm Z := d ← dget; mret (blen (server_head d)).

Fixpoint free_servers (l : list Z) : dm unit :=
  match l with
  | [] => mret tt
  | n :: l => load_ns n;; dset (set_servers (delete n));; free_servers l
  end.

(** The requests in flight, one after the other put in front of those that wait. *)
Fixpoint suspend_loop (l : list Z) : dm unit :=
  match l with
  | [] => mret tt
  | x :: l =>
      r ← load_req x;
      let m := cr_msg r in
      update_req x (with_counts 0 0 ∘ with_ns None ∘ with_timer None ∘ with_msg (mkReq 0 (rq_packet m) (rq_len m) (rq_type m)) ∘ with_transmit false);;
      dset (fun d => set_waiting (x :: req_waiting_head d) (global_requests_waiting d + 1) d);;
      suspend_loop l
  end.

Definition evdns_clear_nameservers_and_suspend : dm unit :=
  d ← dget;
  match server_head d with
  | [] => mret tt
  | _ =>
      free_servers (server_head d);;
      dset (set_server_head []);;
      dset (set_good 0);;
      suspend_loop (req_head d);;
      dset (set_req_head [] 0)
  end.

Definition evdns_resume : dm unit := evdns_requests_pump_waiting_queue.

(** [evdns_set_option]: what it does with a value that was parsed. *)
Inductive dns_option : Type :=
| OptNdots (n : Z)
| OptTimeout (n : Z)
| OptMaxTimeouts (n : Z)
| OptMaxInflight (n : Z)
| OptAttempts (n : Z).

Definition clipped (r min max : Z) : Z := if r =? -1 then r else if r <? min then min else if r >? max then max else r.

Definition evdns_set_option (o : dns_option) : dm Z :=
  let opts (f : dns_options -> dns_options) := dset (set_opts f);; mret 0 in
  match o with
  | OptNdots n =>
      if n =? -1 then mret (-1)
      else
        s ← some_search_state;
        match s with
        | None => mret (-1)
        | Some s => update_search s (fun st => mkSearch (ss_refcount st) n (num_domains st) (ss_domains st));; mret 0
        end
  | OptTimeout n =>
      if n =? -1 then mret (-1)
      else opts (fun o => mkOpts (global_max_requests_inflight o) (global_max_reissues o) (global_max_retransmits o) (global_max_nameserver_timeout o) n)
  | OptMaxTimeouts n =>
      let n := clipped n 1 255 in
      if n =? -1 then mret (-1)
      else opts (fun o => mkOpts (global_max_requests_inflight o) (global_max_reissues o) (global_max_retransmits o) n (global_timeout o))
  | OptMaxInflight n =>
      let n := clipped n 1 65000 in
      if n =? -1 then mret (-1)
      else opts (fun o => mkOpts n (global_max_reissues o) (global_max_retransmits o) (global_max_nameserver_timeout o) (global_timeout o))
  | OptAttempts n =>
      if n =? -1 then mret (-1)
      else opts (fun o => mkOpts (global_max_requests_inflight o) (global_max_reissues o) (Z.min n 255) (global_max_nameserver_timeout o) (global_timeout o))
  end.

(** * Shutdown *)

Fixpoint finish_loop (fuel : nat) (fail_requests : bool) (q : queue) : dm unit :=
  match fuel with
  | O => dlift (UB Diverges)
  | S fuel =>
      d ← dget;
      match (match q with Inflight => req_head d | Waiting => req_waiting_head d end) with
      | [] => mret tt
      | x :: _ =>
          (if fail_requests then reply_callback x 0 DNS_ERR_SHUTDOWN None else mret tt);;
          request_finished x q;;
          finish_loop fuel fail_requests q
      end
  end.

Definition evdns_shutdown (fail_requests : bool) : dm unit :=
  d ← dget;
  let fuel := S (length (req_head d) + length (req_waiting_head d)) in
  finish_loop fuel fail_requests Inflight;;
  finish_loop fuel fail_requests Waiting;;
  dset (fun d => set_req_head (req_head d) 0 d);;
  dset (fun d => set_waiting (req_waiting_head d) 0 d);;
  d ← dget;
  free_servers (server_head d);;
  dset (set_server_head []);;
  dset (set_good 0);;
  match global_search_state d with
  | Some s => load_search s;; dset (set_searches (delete s));; dset (set_global_search None)
  | None => mret tt
  end.

(** * Runs *)

(** What happens to the client: calls of the program, and events. *)
Inductive dns_op : Type :=
| Resolve (a : ask)
| RequestTimeout (x : Z)
| ProbeTimeout (ns : Z)
| ServerReady (ns : Z) (readable writable : bool) (rs : list received_from)
| AddServer (address port : Z)
| ClearServers
| Resume
| SearchClear
| SearchAdd (domain : list byte)
| SearchNdots (n : Z)
| SetOption (o : dns_option).

(** An event that fires is not pending any more. *)
Definition run_dns_op (op : dns_op) : dm unit :=
  match op with
  | Resolve a => resolve a
  | RequestTimeout x => update_req x (with_timer None);; evdns_request_timeout_callback x
  | ProbeTimeout ns => update_ns ns (with_ns_timer None);; nameserver_prod_callback ns
  | ServerReady ns readable writable rs => nameserver_ready_callback ns readable writable rs
  | AddServer address port => evdns_nameserver_add_impl address port;; mret tt
  | ClearServers => evdns_clear_nameservers_and_suspend
  | Resume => evdns_resume
  | SearchClear => search_postfix_clear
  | SearchAdd domain => search_postfix_add domain
  | SearchNdots n => evdns_search_ndots_set n
  | SetOption o => evdns_set_option o;; mret tt
  end.

Fixpoint run_dns (ops : list dns_op) : dm unit :=
  match ops with
  | [] => mret tt
  | op :: ops => run_dns_op op;; run_dns ops
  end.
End Client.
