(* ===== verification/DnsQueue.v ===== *)
(** The invariant of the DNS client and the operations that choose servers, mark
    them and transmit requests. *)
From S2P Require Import Prelude.
From S2P Require Import Dns DnsName DnsWrite DnsMessage DnsReply DnsProps DnsClient.

Implicit Types (m : list cell) (name : list byte) (d : dns).

(** * Messages for any name *)

(** The message up to [j] was written, and nothing after it. *)
Definition written m (j : Z) : Prop := fresh_from m j /\ filled m 0 j.

Lemma written_put m j bs : written m j -> j + blen bs <= blen m ->
  exists m', put m j bs = Ok m' /\ blen m' = blen m /\ written m' (j + blen bs).
Proof.
  intros [Hf Hfill] Hroom. destruct (put_ok m j bs Hf Hroom) as (m' & Hp & Hl & Hd & Hh & Hf' & Hs). exists m'. split; [done|]. split; [done|].
  split; [done|]. apply (filled_app _ _ j); [|by apply holds_filled]. intros i Hi. destruct (Hfill i Hi) as [c Hc]. exists c. by apply Hd.
Qed.

Lemma written_append k m j x : written m j -> j + Z.of_nat k <= blen m ->
  exists m', append k j x m = Ok (Next (j + Z.of_nat k), m') /\ blen m' = blen m /\ written m' (j + Z.of_nat k).
Proof.
  intros Hw Hroom. assert (blen (be_bytes k x) = Z.of_nat k) as Hl by apply blen_be_bytes.
  destruct (written_put m j (be_bytes k x) Hw) as (m' & Hp & Hb & Hw'); [lia|]. rewrite Hl in Hw'. exists m'. split; [|done].
  unfold append. erewrite wm_next by reflexivity. zdecide.
  erewrite wm_next; [reflexivity|]. unfold wput. by rewrite Hp.
Qed.

Lemma labels_loop_any fuel : forall name m j, (length name < fuel)%nat -> written m j -> 0 <= j -> j + blen name + 2 <= blen m ->
  exists m' r, labels_loop fuel (fun _ _ => true) m j name None = Ok (m', None, r) /\ blen m' = blen m /\
    (r < 0 \/ j <= r <= j + blen name + 2 /\ written m' r).
Proof.
  induction fuel as [|fuel IH]; intros name m j Hfuel Hw Hj Hroom; [lia|]. cbn [labels_loop]. change (-1 >=? 0) with false. cbv iota.
  destruct (cut_dot name) as [label rest] eqn:Hcut. pose proof (cut_dot_eq _ _ _ Hcut) as Heq. pose proof (blen_nonneg label) as Hl0.
  assert (blen label + (match rest with None => 0 | Some rest => 1 + blen rest end) = blen name) as Hlen.
  { rewrite Heq, blen_app. destruct rest; [rewrite blen_cons|change (@blen byte []) with 0]; lia. }
  destruct (Z.gtb_spec (blen label) 63); [exists m, (-1); split; [done|split; [done|by left]]|].
  assert (0 <= match rest with None => 0 | Some rest => 1 + blen rest end) as Hr0 by (destruct rest as [r|]; [pose proof (blen_nonneg r)|]; lia).
  zdecide. cbn [option_map]. change (blen [byte.of_Z (blen label)]) with 1 in *.
  destruct (written_put m j [byte.of_Z (blen label)] Hw) as (m1 & H1 & L1 & W1); [change (blen [_]) with 1; lia|]. change (blen [_]) with 1 in W1.
  destruct (written_put m1 (j + 1) label W1) as (m2 & H2 & L2 & W2); [lia|]. rewrite H1, bind_Ok, H2, bind_Ok. cbv zeta.
  destruct rest as [rest|].
  - destruct (IH rest m2 (j + 1 + blen label)) as (m' & r & Hrun & Hl' & Hr); [|done|lia|lia|].
    { apply (f_equal length) in Heq. rewrite length_app in Heq. cbn in Heq. lia. }
    exists m', r. split; [done|]. split; [lia|]. destruct Hr as [|[Hr Hwr]]; [by left|right]. split; [lia|done].
  - unfold end_labels. destruct W2 as [F2 A2]. destruct (A2 (Z.to_nat (j + blen label))) as [c Hc]; [lia|].
    rewrite (proj2 (Z.eqb_neq _ _)) by lia. assert (holds m2 (j + 1 + blen label - 1) [c]) as Hh.
    { apply holds_lookup. split; [lia|]. intros [|i] b [= <-]. replace (Z.to_nat _ + 0)%nat with (Z.to_nat (j + blen label)) by lia. done. }
    rewrite (load_byte m2 _ _ Hh), !bind_Ok. destruct (be_value [c] =? 0).
    + exists m2, (j + 1 + blen label). split; [done|]. split; [lia|]. right. split; [lia|by split].
    + destruct (written_put m2 (j + 1 + blen label) [Byte.x00]) as (m3 & H3 & L3 & W3); [by split|change (blen [_]) with 1; lia|].
      rewrite H3. exists m3, (j + 1 + blen label + 1). split; [done|]. split; [lia|]. right. split; [lia|done].
Qed.

(** A message for any name: it is refused, or it was written, with room behind it. *)
Lemma build_any name trans_id type class :
  exists r buf, evdns_request_data_build name trans_id type class (replicate (Z.to_nat (evdns_request_len (blen name))) None) = Ok (r, buf) /\
    (r < 0 \/ 12 <= r /\ exists q rest, buf = q ++ rest /\ r = blen q /\ received q /\ 63 <= blen rest).
Proof.
  unfold evdns_request_data_build, header. set (n := evdns_request_len (blen name)). pose proof (blen_nonneg name) as Hn0.
  assert (written (replicate (Z.to_nat n) None) 0) as W0.
  { split; [split; [unfold blen; lia|]|intros i Hi; lia]. unfold blen. rewrite length_replicate, drop_0. f_equal. unfold n, evdns_request_len. lia. }
  assert (blen (replicate (Z.to_nat n) (@None byte)) = n) as L0 by (unfold blen; rewrite length_replicate; unfold n, evdns_request_len; lia).
  revert W0 L0. generalize (replicate (Z.to_nat n) (@None byte)). intros m0 W0 L0. assert (n = 102 + blen name) as Hn by (unfold n, evdns_request_len; lia). clearbody n.
  destruct (written_append 2 m0 0 trans_id W0) as (m1 & R1 & L1 & W1); [lia|].
  destruct (written_append 2 m1 _ 0x0100 W1) as (m2 & R2 & L2 & W2); [lia|].
  destruct (written_append 2 m2 _ 1 W2) as (m3 & R3 & L3 & W3); [lia|].
  destruct (written_append 2 m3 _ 0 W3) as (m4 & R4 & L4 & W4); [lia|].
  destruct (written_append 2 m4 _ 0 W4) as (m5 & R5 & L5 & W5); [lia|].
  destruct (written_append 2 m5 _ 0 W5) as (m6 & R6 & L6 & W6); [lia|].
  cbn [Z.of_nat Pos.of_succ_nat Pos.succ Z.add Pos.add] in *. erewrite (wm_next _ _ 12).
  2:{ erewrite wm_next by exact R1. erewrite wm_next by exact R2. erewrite wm_next by exact R3. erewrite wm_next by exact R4. erewrite wm_next by exact R5. exact R6. }
  assert (exists m7 r, write_name (fun _ _ => true) 12 name None m6 = Ok (Next (None, r), m7) /\ blen m7 = blen m6 /\
    (r < 0 \/ 12 <= r <= 12 + blen name + 2 /\ written m7 r)) as (m7 & r & R7 & L7 & Hr).
  { unfold write_name, dnsname_to_labels. destruct (Z.gtb_spec (blen name) 255); [exists m6, (-2); split; [done|split; [done|by left]]|].
    destruct (labels_loop_any (S (length name)) name m6 12) as (m' & r & -> & Hl & Hr); [lia|done|lia|lia|]. exists m', r. by split. }
  erewrite wm_next by exact R7. cbv beta iota.
  destruct (Z.ltb_spec r 0) as [Hneg|Hpos]; [exists r, m7; split; [done|by left]|].
  destruct Hr as [|[Hr W7]]; [lia|].
  destruct (written_append 2 m7 r type W7) as (m8 & R8 & L8 & W8); [lia|].
  destruct (written_append 2 m8 _ class W8) as (m9 & R9 & L9 & W9); [lia|].
  erewrite wm_next by exact R8. rewrite R9, bind_Ok. change (Z.of_nat 2) with 2 in *. exists (r + 2 + 2), m9. split; [done|]. right. split; [lia|].
  destruct W9 as [[Hb _] Hfill]. exists (take (Z.to_nat (r + 2 + 2)) m9), (drop (Z.to_nat (r + 2 + 2)) m9). split; [by rewrite take_drop|].
  split; [by rewrite blen_take by lia|]. split; [|rewrite blen_drop by lia; lia].
  apply Forall_lookup. intros i c Hi. apply lookup_take_Some in Hi as [Hi Hlt]. destruct (Hfill i ltac:(lia)) as [b Hc]. rewrite Hc in Hi. injection Hi as <-. by eexists.
Qed.

(** * Runs *)

(** The run ends, in a state with [Q]. *)
Definition runs {A} (c : dm A) d (Q : A -> dns -> Prop) : Prop := exists a d', c d = Ok (a, d') /\ Q a d'.

Lemma runs_ret {A} (a : A) d (Q : A -> dns -> Prop) : Q a d -> runs (mret a) d Q.
Proof. intros H. by exists a, d. Qed.

Lemma runs_bind {A B} (c : dm A) (k : A -> dm B) d (Q : B -> dns -> Prop) :
  runs c d (fun a d' => runs (k a) d' Q) -> runs (c ≫= k) d Q.
Proof. intros (a & d1 & Hc & b & d2 & Hk & HQ). exists b, d2. split; [|done]. unfold mbind, dm_bind. by rewrite Hc. Qed.

Lemma runs_mono {A} (c : dm A) d (P Q : A -> dns -> Prop) : runs c d P -> (forall a d', P a d' -> Q a d') -> runs c d Q.
Proof. intros (a & d1 & Hc & HP) HPQ. exists a, d1. split; [done|by apply HPQ]. Qed.

Lemma runs_eq {A} (c : dm A) d a d' (Q : A -> dns -> Prop) : c d = Ok (a, d') -> Q a d' -> runs c d Q.
Proof. intros. by exists a, d'. Qed.

Lemma load_req_ok d x r : d_reqs d !! x = Some r -> load_req x d = Ok (r, d).
Proof. intros H. unfold load_req. by rewrite H. Qed.

Lemma load_ns_ok d n s : d_servers d !! n = Some s -> load_ns n d = Ok (s, d).
Proof. intros H. unfold load_ns. by rewrite H. Qed.

Lemma load_search_ok d s st : d_searches d !! s = Some st -> load_search s d = Ok (st, d).
Proof. intros H. unfold load_search. by rewrite H. Qed.

Lemma update_req_ok d x r f : d_reqs d !! x = Some r -> update_req x f d = Ok (tt, set_reqs (insert x (f r)) d).
Proof.
  intros H. unfold update_req, mbind, dm_bind. rewrite (load_req_ok d x r H). unfold dset, set_reqs. by rewrite (alter_insert f x _ r H).
Qed.

Lemma update_ns_ok d n s f : d_servers d !! n = Some s -> update_ns n f d = Ok (tt, set_servers (insert n (f s)) d).
Proof.
  intros H. unfold update_ns, mbind, dm_bind. rewrite (load_ns_ok d n s H). unfold dset, set_servers. by rewrite (alter_insert f n _ s H).
Qed.

Lemma update_search_ok d s st f : d_searches d !! s = Some st -> update_search s f d = Ok (tt, set_searches (insert s (f st)) d).
Proof.
  intros H. unfold update_search, mbind, dm_bind. rewrite (load_search_ok d s st H). unfold dset, set_searches. by rewrite (alter_insert f s _ st H).
Qed.

Lemma runs_dlift {A} (a : A) d (Q : A -> dns -> Prop) : Q a d -> runs (dlift (Ok a)) d Q.
Proof. intros H. by exists a, d. Qed.

Lemma runs_load_req x r d (Q : client_request -> dns -> Prop) : d_reqs d !! x = Some r -> Q r d -> runs (load_req x) d Q.
Proof. intros H. by apply runs_eq, load_req_ok. Qed.

Lemma runs_load_ns n s d (Q : nameserver -> dns -> Prop) : d_servers d !! n = Some s -> Q s d -> runs (load_ns n) d Q.
Proof. intros H. by apply runs_eq, load_ns_ok. Qed.

Lemma runs_update_req x r f d (Q : unit -> dns -> Prop) :
  d_reqs d !! x = Some r -> Q tt (set_reqs (insert x (f r)) d) -> runs (update_req x f) d Q.
Proof. intros H. by apply runs_eq, update_req_ok. Qed.

Lemma runs_update_ns n s f d (Q : unit -> dns -> Prop) :
  d_servers d !! n = Some s -> Q tt (set_servers (insert n (f s)) d) -> runs (update_ns n f) d Q.
Proof. intros H. by apply runs_eq, update_ns_ok. Qed.

Lemma runs_draw {A} (f : nat -> A) d (Q : A -> dns -> Prop) : Q (f (d_tick d)) (set_tick (S (d_tick d)) d) -> runs (draw f) d Q.
Proof. intros H. by eapply runs_eq. Qed.

(** The next statement of a run, when it cannot fail. *)
Ltac run_step :=
  lazymatch goal with
  | |- runs (_ ≫= _) _ _ => apply runs_bind
  | |- runs (mret _) _ _ => apply runs_ret
  | |- runs dget _ _ => eapply runs_eq; [reflexivity|]
  | |- runs (dset _) _ _ => eapply runs_eq; [reflexivity|]
  | |- runs (draw _) _ _ => apply runs_draw
  | |- runs fresh _ _ => eapply runs_eq; [reflexivity|]
  | |- runs (dlift _) _ _ => apply runs_dlift
  end.

Ltac run_steps := repeat run_step.

(** * The invariant *)

Definition tally {A} (f : A -> bool) (l : list A) : Z := blen (List.filter f l).

Lemma tally_app {A} (f : A -> bool) l1 l2 : tally f (l1 ++ l2) = tally f l1 + tally f l2.
Proof. unfold tally. by rewrite List.filter_app, blen_app. Qed.

Lemma tally_cons {A} (f : A -> bool) x l : tally f (x :: l) = Z.b2z (f x) + tally f l.
Proof. unfold tally. cbn. destruct (f x); [by rewrite blen_cons|done]. Qed.

(** A call of the program that was accepted, and a call of its callback. *)
Definition accepted (arg : Z) (e : event) : bool :=
  match e with Resolving a r => (a =? arg) && (r =? 0) | _ => false end.
Definition called (arg : Z) (e : event) : bool :=
  match e with Calling a _ => a =? arg | _ => false end.
Definition owes (arg : Z) (r : client_request) : Z := Z.b2z (bool_decide (user_callback r = User arg)).
Definition refers (s : Z) (r : client_request) : Z := Z.b2z (bool_decide (cr_search r = Some s)).
Definition up (s : nameserver) : Z := Z.b2z (ns_state s).

Definition works (f : nat -> bool) : Prop := forall k, f k = true.

(** A request is being waited for: some server is to tell when it can be written. *)
Definition watched d : Prop := exists n s, d_servers d !! n = Some s /\ write_waiting s = true.

Definition probed d (n : Z) : Prop := exists x r, d_reqs d !! x = Some r /\ user_callback r = nameserver_probe_callback n.

Definition flying d (r : client_request) : Prop :=
  rq_trans_id (cr_msg r) <> 0xffff /\ exists n, cr_ns r = Some n /\ is_Some (d_servers d !! n).

Section Invariant.
Context (env : denv).

Definition server_ok (s : nameserver) : Prop :=
  (ns_choked s = true -> write_waiting s = true) /\ (ns_state s = true -> ns_timer s = None) /\ 0 <= failed_times s /\
  (works (e_event_add env) -> ns_event s = Z.lor (Z.lor DNS_EV_READ (if write_waiting s then DNS_EV_WRITE else 0)) DNS_EV_PERSIST).

(** A request as it stays; [loose] if its search was passed on. *)
Definition req_ok d (loose : bool) (r : client_request) : Prop :=
  known_type (rq_type (cr_msg r)) /\ built (cr_msg r) /\ 2 <= rq_len (cr_msg r) /\
  (forall n, user_callback r = nameserver_probe_callback n -> is_Some (d_servers d !! n)) /\
  (is_Some (cr_search r) -> -1 <= search_index r /\ (exists a, user_callback r = User a) /\ (loose = false -> exists orig, search_origname r = Some orig /\ orig <> [])).

(** A search that is referred to [n] times. *)
Definition search_val (n : Z) (o : option search_state) : Prop :=
  match o with
  | Some st => ss_refcount st = n /\ 0 < n /\ num_domains st = blen (ss_domains st)
  | None => n = 0
  end.

Definition refs d (s : Z) : Z := msum (refers s) (d_reqs d) + Z.b2z (bool_decide (global_search_state d = Some s)).

(** The state of the client. [nw] are requests that are in no list yet; [ex] are
    requests that need not be waited for, because the code is about to send or
    finish them; [exs] servers whose probe is about to be sent; [extra] the
    arguments of callbacks made for requests that are not finished yet, or of
    requests not yet reported as accepted. *)
Record dns_inv (nw ex exs extra : list Z) d : Prop := {
  di_lists : NoDup (nw ++ req_head d ++ req_waiting_head d);
  di_reqs : forall x, is_Some (d_reqs d !! x) <-> x ∈ nw ++ req_head d ++ req_waiting_head d;
  di_inflight : global_requests_inflight d = blen (req_head d);
  di_waiting : global_requests_waiting d = blen (req_waiting_head d);
  di_max : 1 <= global_max_requests_inflight (d_opts d) <= 65000;
  di_servers : NoDup (server_head d) /\ forall n, is_Some (d_servers d !! n) <-> n ∈ server_head d;
  di_good : global_good_nameservers d = msum up (d_servers d);
  di_server : forall n s, d_servers d !! n = Some s -> server_ok s;
  di_req : forall x r, d_reqs d !! x = Some r -> req_ok d (bool_decide (x ∈ ex)) r;
  di_fly : forall x r, x ∈ req_head d -> d_reqs d !! x = Some r -> flying d r;
  di_timer : forall x r, d_reqs d !! x = Some r -> is_Some (cr_timer r) -> x ∈ req_head d;
  di_alive : works (e_event_add env) -> forall x r, x ∈ req_head d -> x ∉ ex -> d_reqs d !! x = Some r ->
    is_Some (cr_timer r) \/ transmit_me r = true /\ watched d;
  di_down : works (e_event_add env) -> works (e_malloc env) -> forall n s, n ∉ exs -> d_servers d !! n = Some s ->
    ns_state s = false -> is_Some (ns_timer s) \/ probed d n;
  di_search : forall s, search_val (refs d s) (d_searches d !! s);
  di_fresh : (forall x, is_Some (d_reqs d !! x) -> x < d_fresh d) /\ (forall n, is_Some (d_servers d !! n) -> n < d_fresh d) /\
    (forall s, is_Some (d_searches d !! s) -> s < d_fresh d);
  di_tally : forall a, tally (accepted a) (d_log d) + tally (Z.eqb a) extra = tally (called a) (d_log d) + msum (owes a) (d_reqs d)
}.

(** What is assumed of the outside: names can be copied, some usable transaction
    id is among those drawn, and the program resolves names that are not empty. *)
Definition ask_ok (a : ask) : Prop :=
  match a with ResolveIpv4 name _ _ | ResolveIpv6 name _ _ => name <> [] | _ => True end.

Class DnsEnvOk : Prop := {
  eo_text : works (e_text env);
  eo_ids : forall k used, Z.of_nat (length used) < 65535 ->
    exists i, (i < e_draws env)%nat /\ e_trans_id env (k + i) ∉ used /\ e_trans_id env (k + i) <> 0xffff;
  eo_user : forall arg a, Forall ask_ok (e_user env arg a);
  eo_host : 0 < e_host_name_max env
}.
End Invariant.

(** What other operations leave of the requests in flight and of the servers. *)
Definition alike (r r' : client_request) : Prop :=
  rq_type (cr_msg r') = rq_type (cr_msg r) /\ user_callback r' = user_callback r /\ search_index r' = search_index r /\
  cr_search r' = cr_search r /\ search_origname r' = search_origname r /\ search_flags r' = search_flags r.

Record keeps d d' : Prop := {
  kp_head : req_head d' = req_head d;
  kp_wait : req_waiting_head d' = req_waiting_head d;
  kp_reqs : forall x r, d_reqs d !! x = Some r -> exists r', d_reqs d' !! x = Some r' /\ alike r r';
  kp_servers : forall n, is_Some (d_servers d !! n) -> is_Some (d_servers d' !! n);
  kp_opts : d_opts d' = d_opts d;
  kp_global : global_search_state d' = global_search_state d
}.

(** The same when requests may be added or promoted. *)
Record lasts d d' : Prop := {
  la_reqs : forall x r, x ∈ req_head d -> d_reqs d !! x = Some r -> x ∈ req_head d' /\ exists r', d_reqs d' !! x = Some r' /\ alike r r';
  la_servers : forall n, is_Some (d_servers d !! n) -> is_Some (d_servers d' !! n);
  la_opts : d_opts d' = d_opts d
}.

Lemma alike_trans r1 r2 r3 : alike r1 r2 -> alike r2 r3 -> alike r1 r3.
Proof. intros (? & ? & ? & ? & ? & ?) (? & ? & ? & ? & ? & ?). repeat split; congruence. Qed.

#[export] Instance keeps_refl : Reflexive keeps.
Proof. intros d. split; [done|done| |done|done|done]. intros x r Hr. by exists r. Qed.

#[export] Instance keeps_trans : Transitive keeps.
Proof.
  intros d1 d2 d3 [A1 B1 K1 S1 O1 G1] [A2 B2 K2 S2 O2 G2]. split; [congruence|congruence| |auto|congruence|congruence]. intros x r Hr. destruct (K1 x r Hr) as (r2 & Hr2 & E1).
  destruct (K2 x r2 Hr2) as (r3 & Hr3 & E2). exists r3. split; [done|]. by apply (alike_trans r r2).
Qed.

#[export] Instance lasts_refl : Reflexive lasts.
Proof. intros d. split; [|done|done]. intros x r Hx Hr. split; [done|]. by exists r. Qed.

#[export] Instance lasts_trans : Transitive lasts.
Proof.
  intros d1 d2 d3 [K1 S1 O1] [K2 S2 O2]. split; [|auto|congruence]. intros x r Hx Hr. destruct (K1 x r Hx Hr) as [Hx2 (r2 & Hr2 & E1)].
  destruct (K2 x r2 Hx2 Hr2) as [Hx3 (r3 & Hr3 & E2)]. split; [done|]. exists r3. split; [done|]. by apply (alike_trans r r2).
Qed.

Lemma keeps_lasts d d' : keeps d d' -> lasts d d'.
Proof. intros [Hh _ Hr Hs Ho _]. split; [|done|done]. intros x r Hx Hx'. rewrite Hh. split; [done|by apply Hr]. Qed.
