(* ===== verification/DnsServers.v ===== *)
(** The DNS client's choice of servers, what happens when they fail and come
    back, and transmission. *)
From S2P Require Import Prelude.
From S2P Require Import Dns DnsProps DnsClient DnsQueue.

Implicit Types (d : dns) (nw ex exs extra : list Z).

Section Servers.
Context (env : denv) `{Henv : !DnsEnvOk env}.

Abbreviation inv := (dns_inv env).

(** * Changes that leave most of the state *)

Lemma keeps_same d d' : req_head d' = req_head d -> req_waiting_head d' = req_waiting_head d -> d_reqs d' = d_reqs d -> d_opts d' = d_opts d ->
  global_search_state d' = global_search_state d -> (forall n, is_Some (d_servers d !! n) -> is_Some (d_servers d' !! n)) -> keeps d d'.
Proof. intros Hh Hw Hr Ho Hg Hs. split; [done|done| |done|done|done]. intros x r. rewrite Hr. intros Hx. by exists r. Qed.

Lemma inv_tick nw ex exs extra d t : inv nw ex exs extra d -> inv nw ex exs extra (set_tick t d).
Proof. intros []. by split. Qed.

Lemma inv_server_head nw ex exs extra d l : inv nw ex exs extra d -> l ≡ₚ server_head d ->
  inv nw ex exs extra (set_server_head l d).
Proof.
  intros H Hl. destruct (di_servers env nw ex exs extra d H) as [Hnd Hdom]. destruct H. split; try assumption.
  split; [by rewrite <- Hl in Hnd|]. intros n. change (is_Some (d_servers d !! n) <-> n ∈ l). by rewrite Hl.
Qed.

Lemma inv_send nw ex exs extra d n m : inv nw ex exs extra d ->
  inv nw ex exs extra (set_log (fun l => l ++ [Sending n m]) d).
Proof.
  intros H. pose proof (di_tally env nw ex exs extra d H) as Ht. destruct H. split; try assumption. intros a. specialize (Ht a). cbn.
  rewrite !tally_app. unfold tally at 2 5. cbn. lia.
Qed.

Lemma watched_insert d n s s' : d_servers d !! n = Some s -> (write_waiting s = true -> write_waiting s' = true) ->
  watched d -> watched (set_servers (insert n s') d).
Proof.
  intros Hs Hw (y & t & Hy & Ht). destruct (decide (y = n)) as [->|Hne].
  - exists n, s'. split; [apply lookup_insert_eq|]. apply Hw. congruence.
  - exists y, t. split; [|done]. change (<[n := s']> (d_servers d) !! y = Some t). by rewrite lookup_insert_ne.
Qed.

(** A server changes; it is still watched if it was, or nothing waits for it. *)
Lemma inv_server_any nw ex exs exs' extra d n s s' g : inv nw ex exs extra d -> d_servers d !! n = Some s ->
  server_ok env s' ->
  ((write_waiting s = true -> write_waiting s' = true) \/ forall x r, x ∈ req_head d -> d_reqs d !! x = Some r -> transmit_me r = false) -> exs ⊆ n :: exs' ->
  g = global_good_nameservers d - up s + up s' ->
  (works (e_event_add env) -> works (e_malloc env) -> n ∉ exs' -> ns_state s' = false -> is_Some (ns_timer s') \/ probed d n) ->
  inv nw ex exs' extra (set_good g (set_servers (insert n s') d)).
Proof.
  intros H Hs Hok Hw Hexs Hg Hdown. pose proof H as H0. assert (is_Some (d_servers d !! n)) as Hn by by exists s.
  assert (forall y, is_Some (<[n := s']> (d_servers d) !! y) <-> is_Some (d_servers d !! y)) as Hdom.
  { intros y. destruct (decide (y = n)) as [->|Hne]; [by rewrite lookup_insert_eq|by rewrite lookup_insert_ne]. }
  destruct H. split; try assumption.
  - destruct di_servers as [Hnd Hd]. split; [done|]. intros y. cbn. by rewrite Hdom.
  - cbn. rewrite (msum_insert up (d_servers d) n s s' Hs). lia.
  - intros y t. cbn. destruct (decide (y = n)) as [->|Hne]; [rewrite lookup_insert_eq; by intros [= <-]|rewrite lookup_insert_ne by done; apply di_server].
  - intros x r Hr. destruct (di_req x r Hr) as (? & ? & ? & Hp & ?). split; [done|]. split; [done|]. split; [done|]. split; [|done].
    intros y Hy. cbn. rewrite Hdom. by apply Hp.
  - intros x r Hx Hr. destruct (di_fly x r Hx Hr) as (? & y & Hy & ?). split; [done|]. exists y. split; [done|]. cbn. by rewrite Hdom.
  - intros Ha x r Hx Hex Hr. destruct (di_alive Ha x r Hx Hex Hr) as [?|[Htm ?]]; [by left|right]. split; [done|].
    destruct Hw as [Hw|Hw]; [by apply (watched_insert d n s s')|by rewrite (Hw x r Hx Hr) in Htm].
  - intros Ha Hm y t Hy. cbn. destruct (decide (y = n)) as [->|Hne].
    + rewrite lookup_insert_eq. intros [= <-] Ht. by apply Hdown.
    + rewrite lookup_insert_ne by done. intros Ht Hst. apply (di_down Ha Hm y t); [|done|done]. intros Hin. apply Hexs in Hin.
      apply elem_of_cons in Hin as [?|?]; contradiction.
  - destruct di_fresh as (? & Hf & ?). split; [done|]. split; [|done]. intros y. cbn. rewrite Hdom. apply Hf.
Qed.

Lemma inv_server nw ex exs exs' extra d n s s' g : inv nw ex exs extra d -> d_servers d !! n = Some s ->
  server_ok env s' -> (write_waiting s = true -> write_waiting s' = true) -> exs ⊆ n :: exs' ->
  g = global_good_nameservers d - up s + up s' ->
  (works (e_event_add env) -> works (e_malloc env) -> n ∉ exs' -> ns_state s' = false -> is_Some (ns_timer s') \/ probed d n) ->
  inv nw ex exs' extra (set_good g (set_servers (insert n s') d)).
Proof. intros H Hs Hok Hw. apply (inv_server_any nw ex exs exs' extra d n s s' g H Hs Hok). by left. Qed.

Lemma keeps_tick d t : keeps d (set_tick t d).
Proof. by apply keeps_same. Qed.

Lemma keeps_server d d' n s' : req_head d' = req_head d -> req_waiting_head d' = req_waiting_head d -> d_reqs d' = d_reqs d -> d_opts d' = d_opts d ->
  global_search_state d' = global_search_state d -> d_servers d' = <[n := s']> (d_servers d) -> keeps d d'.
Proof.
  intros ? ? ? ? ? Hs. apply keeps_same; try done. intros y Hy. rewrite Hs.
  destruct (decide (y = n)) as [->|Hne]; [by rewrite lookup_insert_eq|by rewrite lookup_insert_ne].
Qed.

Lemma set_good_id d : set_good (global_good_nameservers d) d = d.
Proof. by destruct d. Qed.

(** The same without a change of the count of good servers. *)
Lemma inv_server_same nw ex exs extra d n s s' : inv nw ex exs extra d -> d_servers d !! n = Some s ->
  server_ok env s' -> (write_waiting s = true -> write_waiting s' = true) -> ns_state s' = ns_state s ->
  (ns_state s' = false -> is_Some (ns_timer s) -> is_Some (ns_timer s')) ->
  inv nw ex exs extra (set_servers (insert n s') d) /\ keeps d (set_servers (insert n s') d).
Proof.
  intros H Hs Hok Hw Hst Ht.
  assert (set_servers (insert n s') d = set_good (global_good_nameservers d) (set_servers (insert n s') d)) as Heq by (by destruct d).
  rewrite Heq. split; [|by apply (keeps_server _ _ n s')]. apply (inv_server nw ex exs exs extra d n s s'); try done.
  - intros y Hy. by right.
  - unfold up. rewrite Hst. lia.
  - intros Ha Hm Hn Hs'. destruct (di_down env _ _ _ _ _ H Ha Hm n s Hn Hs) as [?|?]; [congruence|left; auto|by right].
Qed.

(** A request in flight changes its server, its counters or its timer. *)
Lemma inv_request nw ex ex' exs extra d x r r' : inv nw ex exs extra d -> d_reqs d !! x = Some r -> alike r r' ->
  built (cr_msg r') -> 2 <= rq_len (cr_msg r') ->
  (x ∈ req_head d -> flying d r') -> (is_Some (cr_timer r') -> x ∈ req_head d) ->
  (forall y, y <> x -> y ∈ ex <-> y ∈ ex') -> (x ∈ ex -> x ∈ ex' \/ cr_search r = None \/ exists orig, search_origname r = Some orig /\ orig <> []) ->
  (works (e_event_add env) -> x ∈ req_head d -> x ∉ ex' -> is_Some (cr_timer r') \/ transmit_me r' = true /\ watched d) ->
  inv nw ex' exs extra (set_reqs (insert x r') d).
Proof.
  intros H Hr (Ety & Ecb & Eix & Es & Eo & Efl) Hb Hlen Hfly Htm Hex Hloose Hal.
  assert (forall y, is_Some (<[x := r']> (d_reqs d) !! y) <-> is_Some (d_reqs d !! y)) as Hdom.
  { intros y. destruct (decide (y = x)) as [->|Hne]; [rewrite lookup_insert_eq, Hr; split; by eexists|by rewrite lookup_insert_ne]. }
  destruct H. split; try assumption.
  - intros y. cbn. rewrite Hdom. apply di_reqs.
  - intros y t. cbn. destruct (decide (y = x)) as [->|Hne].
    + rewrite lookup_insert_eq. intros [= <-]. destruct (di_req x r Hr) as (? & ? & ? & Hp & Hsr). split; [by rewrite Ety|]. split; [done|]. split; [done|].
      split; [intros n; rewrite Ecb; apply Hp|]. rewrite Es, Eix, Eo, Ecb. intros Hsome. destruct (Hsr Hsome) as (Hix & Hu & Hor). split; [done|]. split; [done|].
      intros Hx%bool_decide_eq_false. destruct (decide (x ∈ ex)) as [Hin|Hnin]; [|apply Hor; by apply bool_decide_eq_false].
      destruct (Hloose Hin) as [?|[Hnone|?]]; [contradiction|rewrite Hnone in Hsome; by destruct Hsome|done].
    + rewrite lookup_insert_ne by done. intros Ht. destruct (di_req y t Ht) as (? & ? & ? & ? & Hsr). split; [done|]. split; [done|]. split; [done|]. split; [done|].
      intros Hsome. destruct (Hsr Hsome) as (? & ? & Hor). split; [done|]. split; [done|]. intros Hy%bool_decide_eq_false. apply Hor, bool_decide_eq_false. by rewrite Hex.
  - intros y t Hy. cbn. destruct (decide (y = x)) as [->|Hne]; [rewrite lookup_insert_eq; intros [= <-]; by apply Hfly|].
    rewrite lookup_insert_ne by done. by apply di_fly.
  - intros y t. cbn. destruct (decide (y = x)) as [->|Hne]; [rewrite lookup_insert_eq; intros [= <-]; apply Htm|].
    rewrite lookup_insert_ne by done. apply di_timer.
  - intros Ha y t Hy Hny. cbn. destruct (decide (y = x)) as [->|Hne]; [rewrite lookup_insert_eq; intros [= <-]; by apply Hal|].
    rewrite lookup_insert_ne by done. apply (di_alive Ha); [done|]. by rewrite Hex.
  - intros Ha Hm n s Hn Hs Hst. destruct (di_down Ha Hm n s Hn Hs Hst) as [?|(y & t & Hy & Ht)]; [by left|right].
    destruct (decide (y = x)) as [->|Hne].
    + exists x, r'. split; [apply lookup_insert_eq|]. congruence.
    + exists y, t. split; [|done]. cbn. by rewrite lookup_insert_ne.
  - intros s. specialize (di_search s). revert di_search. unfold refs. cbn.
    assert (msum (refers s) (<[x := r']> (d_reqs d)) = msum (refers s) (d_reqs d)) as ->; [|done].
    rewrite (msum_insert (refers s) (d_reqs d) x r r' Hr). unfold refers at 2 3. rewrite Es. lia.
  - destruct di_fresh as (Hf & ?). split; [|done]. intros y. cbn. rewrite Hdom. apply Hf.
  - intros a. cbn. rewrite (msum_insert (owes a) (d_reqs d) x r r' Hr). unfold owes at 2 3. rewrite Ecb. specialize (di_tally a). lia.
Qed.

Lemma keeps_request d x r r' : d_reqs d !! x = Some r -> alike r r' -> keeps d (set_reqs (insert x r') d).
Proof.
  intros Hr Ha. split; [done|done| |done|done|done]. intros y t Ht. cbn. destruct (decide (y = x)) as [->|Hne].
  - exists r'. rewrite lookup_insert_eq. split; [done|]. congruence.
  - exists t. rewrite lookup_insert_ne by done. by split.
Qed.

(** * Choosing a server *)

Lemma up_nonneg s : 0 <= up s.
Proof. unfold up. by destruct (ns_state s). Qed.

Definition servers_wf d : Prop :=
  NoDup (server_head d) /\ (forall n, is_Some (d_servers d !! n) <-> n ∈ server_head d) /\
  global_good_nameservers d = msum up (d_servers d).

Lemma inv_servers_wf nw ex exs extra d : inv nw ex exs extra d -> servers_wf d.
Proof. intros []. by split; [|split]; destruct di_servers. Qed.

(** Servers that were looked at and are down come after the others. *)
Lemma nameserver_loop_ok rest : forall fuel d behind n0, (length rest < fuel)%nat -> servers_wf d -> rest <> [] ->
  server_head d = rest ++ behind -> head (behind ++ rest) = Some n0 -> (forall y s, y ∈ behind -> d_servers d !! y = Some s -> ns_state s = false) ->
  runs (nameserver_loop fuel (Some n0)) d (fun o d' => exists n l, o = Some n /\ d' = set_server_head l d /\ l ≡ₚ server_head d /\ n ∈ server_head d).
Proof.
  induction rest as [|n rest IH]; intros fuel d behind n0 Hfuel Hwf Hne Hl Hn0 Hdown; [done|]. destruct fuel as [|fuel]; [cbn in Hfuel; lia|].
  destruct Hwf as (Hnd & Hdom & Hgood). cbn [nameserver_loop]. do 3 run_step. rewrite Hl. cbn [head app of_option]. run_step. run_step.
  destruct (proj2 (Hdom n)) as [s Hs]; [rewrite Hl; left|]. eapply runs_load_ns; [done|]. do 2 run_step. cbn [rotate app].
  assert (rest ++ behind ++ [n] ≡ₚ n :: rest ++ behind) as Hperm by solve_Permutation.
  destruct (ns_state s) eqn:Hst.
  { run_step. exists n, ((rest ++ behind) ++ [n]). split; [done|]. split; [done|]. cbn [app]. rewrite <- app_assoc. split; [done|left]. }
  do 2 run_step. cbn. destruct rest as [|n1 rest].
  - cbn [app]. assert (head (behind ++ [n]) = Some n0) as Hh by done. rewrite bool_decide_true by done. run_step.
    assert (global_good_nameservers d = 0) as Hz.
    { rewrite Hgood. apply msum_zero; [exact up_nonneg|]. intros y t Hy. unfold up. assert (y ∈ server_head d) as Hin by (apply Hdom; by exists t).
      rewrite Hl in Hin. apply elem_of_cons in Hin as [->|Hin]; [|by rewrite (Hdown y t Hin Hy)]. assert (t = s) as -> by congruence. by rewrite Hst. }
    eapply runs_eq; [by rewrite Hz|]. do 3 run_step. exists n0, (rotate (behind ++ [n])). split; [done|]. split; [done|]. cbn [app].
    destruct behind as [|x behind]; cbn in Hn0; injection Hn0 as <-; cbn [rotate app]; (split; [solve_Permutation|]); [left|right; left].
  - rewrite bool_decide_false.
    2:{ cbn. intros [= ->]. rewrite Hl in Hnd. destruct behind as [|x behind]; cbn in Hn0; injection Hn0 as ->.
        - apply NoDup_cons in Hnd as [Hnin _]. apply Hnin. left.
        - apply NoDup_cons in Hnd as [_ Hnd]. apply NoDup_cons in Hnd as [Hnin _]. apply Hnin. apply elem_of_app. right. left. }
    rewrite <- (app_assoc (n1 :: rest)). eapply runs_mono; [apply (IH fuel (set_server_head ((n1 :: rest) ++ behind ++ [n]) d) (behind ++ [n]) n0)|].
    + cbn in *. lia.
    + rewrite Hl in Hnd. split; [change (NoDup ((n1 :: rest) ++ behind ++ [n])); by rewrite Hperm|]. split; [|done]. intros y.
      change (is_Some (d_servers d !! y) <-> y ∈ (n1 :: rest) ++ behind ++ [n]). by rewrite Hdom, Hl, Hperm.
    + done.
    + done.
    + by rewrite <- app_assoc.
    + intros y t [Hy|Hy%list_elem_of_singleton]%elem_of_app Ht; [by apply (Hdown y)|subst y]. cbn in Ht. congruence.
    + intros o d' (n' & l & -> & -> & Hlp & Hin). exists n', l. split; [done|]. split; [done|]. cbn in Hlp, Hin, Hperm |- *. rewrite Hperm in Hlp. split; [done|]. by rewrite <- Hperm.
Qed.

Lemma nameserver_pick_ok d : servers_wf d ->
  runs nameserver_pick d (fun o d' => exists l, d' = set_server_head l d /\ l ≡ₚ server_head d /\
    match o with Some n => n ∈ server_head d | None => server_head d = [] end).
Proof.
  intros Hwf. unfold nameserver_pick. do 2 run_step. destruct (server_head d) as [|n l] eqn:Hl.
  { run_step. exists []. split; [|done]. rewrite <- Hl. by destruct d. }
  destruct (_ =? 0).
  - do 5 run_step. exists (l ++ [n]). split; [done|]. split; [solve_Permutation|]. cbn. destruct l as [|n2 l]; cbn; [left|right; left].
  - rewrite <- Hl. eapply runs_mono; [apply (nameserver_loop_ok (server_head d) _ d [] n); try done|].
    + lia.
    + by rewrite Hl.
    + by rewrite app_nil_r.
    + by rewrite Hl.
    + intros y s Hy. by apply not_elem_of_nil in Hy.
    + intros o d' (n' & l' & -> & -> & Hp & Hin). exists l'. rewrite Hl in *. by split.
Qed.

Lemma inv_flight nw ex exs extra d x : inv nw ex exs extra d -> x ∈ req_head d -> exists r, d_reqs d !! x = Some r /\ flying d r.
Proof.
  intros H Hx. destruct (proj2 (di_reqs env _ _ _ _ _ H x)) as [r Hr]; [set_solver|]. exists r. split; [done|]. by apply (di_fly env _ _ _ _ _ H x).
Qed.

Lemma alike_refl r r' : rq_type (cr_msg r') = rq_type (cr_msg r) -> user_callback r' = user_callback r -> search_index r' = search_index r ->
  cr_search r' = cr_search r -> search_origname r' = search_origname r -> search_flags r' = search_flags r -> alike r r'.
Proof. by repeat split. Qed.

(** A request stays as it is but for its server. *)
Lemma inv_with_ns nw ex exs extra d x r n : inv nw ex exs extra d -> x ∈ req_head d -> d_reqs d !! x = Some r -> is_Some (d_servers d !! n) ->
  inv nw ex exs extra (set_reqs (insert x (with_ns (Some n) r)) d) /\ keeps d (set_reqs (insert x (with_ns (Some n) r)) d).
Proof.
  intros H Hx Hr Hn. destruct (di_req env _ _ _ _ _ H x r Hr) as (_ & Hb & Hlen & _). destruct (di_fly env _ _ _ _ _ H x r Hx Hr) as [Hid _].
  split; [|apply (keeps_request d x r); [done|by apply alike_refl]].
  apply (inv_request nw ex ex exs extra d x r); try done.
  - intros _. split; [done|]. by exists n.
  - auto.
  - intros Ha _ Hex. by apply (di_alive env _ _ _ _ _ H Ha x r).
Qed.

Lemma pick_inv nw ex exs extra d : inv nw ex exs extra d ->
  runs nameserver_pick d (fun o d' => inv nw ex exs extra d' /\ keeps d d' /\ (exists l, d' = set_server_head l d) /\
    match o with Some n => is_Some (d_servers d !! n) | None => server_head d = [] end).
Proof.
  intros H. eapply runs_mono; [by eapply nameserver_pick_ok, inv_servers_wf|]. intros o d' (l & -> & Hl & Ho). split; [by apply inv_server_head|].
  split; [by apply keeps_same|]. split; [by exists l|]. destruct o as [n|]; [|done]. by apply (di_servers env _ _ _ _ _ H).
Qed.

(** * Servers that fail and come back *)

Lemma reassign_ok l ns : forall nw ex exs extra d, inv nw ex exs extra d -> Forall (fun x => x ∈ req_head d) l ->
  runs (reassign l ns) d (fun _ d' => inv nw ex exs extra d' /\ keeps d d' /\ req_head d' = req_head d).
Proof.
  induction l as [|x l IH]; intros nw ex exs extra d H Hl; cbn [reassign]; [by run_step|]. apply Forall_cons in Hl as [Hx Hl].
  destruct (inv_flight _ _ _ _ _ x H Hx) as (r & Hr & _). run_step. eapply runs_load_req; [done|]. run_step.
  apply (runs_mono _ _ (fun _ d' => inv nw ex exs extra d' /\ keeps d d' /\ req_head d' = req_head d)).
  - destruct (_ && _); [|by run_step]. run_step. eapply runs_mono; [by apply pick_inv|]. intros o d1 (H1 & K1 & (l1 & ->) & Ho).
    eapply runs_update_req; [done|]. destruct o as [n|].
    + destruct (inv_with_ns nw ex exs extra (set_server_head l1 d) x r n H1 Hx Hr Ho) as [H2 K2]. split; [done|]. split; [by etransitivity|done].
    + exfalso. destruct (di_fly env _ _ _ _ _ H x r Hx Hr) as (_ & n & _ & Hn). apply (di_servers env _ _ _ _ _ H) in Hn. rewrite Ho in Hn. by apply not_elem_of_nil in Hn.
  - intros _ d1 (H1 & K1 & E1). eapply runs_mono; [apply (IH nw ex exs extra d1 H1); by rewrite E1|]. intros _ d2 (H2 & K2 & E2).
    split; [done|]. split; [by etransitivity|congruence].
Qed.

Lemma nameserver_failed_ok nw ex exs extra d n : inv nw ex exs extra d -> is_Some (d_servers d !! n) ->
  runs (nameserver_failed env n) d (fun _ d' => inv nw ex exs extra d' /\ keeps d d' /\ req_head d' = req_head d).
Proof.
  intros H [s Hs]. unfold nameserver_failed, timer_add. run_steps. eapply runs_load_ns; [done|]. destruct (ns_state s) eqn:Hst; cbn [negb]; [|by run_step].
  destruct (di_server env _ _ _ _ _ H n s Hs) as (Hw & Ht & _ & Hev). run_steps.
  assert (1 <= global_good_nameservers d) as Hg.
  { rewrite (di_good env _ _ _ _ _ H). pose proof (msum_ge up (d_servers d) n s up_nonneg Hs) as Hge. unfold up in Hge at 1. rewrite Hst in Hge. cbn in Hge. lia. }
  eapply runs_eq; [zdecide; reflexivity|]. run_steps. eapply runs_update_ns; [done|].
  set (ok := e_event_add env _). set (t := if ok : bool then Some 10 else ns_timer s).
  set (s' := (with_ns_timer t ∘ with_state false 1 (timedout s)) s). set (d1 := set_servers _ _).
  assert (inv nw ex exs extra d1 /\ keeps d d1) as [H1 K1].
  { split; [|by apply (keeps_server d _ n s')].
    apply (inv_server nw ex exs exs extra (set_tick (S (d_tick d)) d) n s s' (global_good_nameservers d - 1)); try done.
    - by apply inv_tick.
    - intros y Hy. by right.
    - unfold up. rewrite Hst. cbn. lia.
    - intros Ha _ _ _. left. cbn. unfold t, ok. rewrite Ha. by eexists. }
  destruct (_ =? 0); [by run_step|]. eapply runs_mono; [apply (reassign_ok _ n nw ex exs extra d1 H1)|].
  - by apply Forall_forall.
  - intros _ d2 (H2 & K2 & E2). split; [done|]. split; [by etransitivity|done].
Qed.

(** A probe was answered or given up: the server is up, or asked again later. *)
Definition settled d n : Prop := works (e_event_add env) -> forall s, d_servers d !! n = Some s -> ns_state s = false -> is_Some (ns_timer s).

Lemma nameserver_up_ok nw ex exs extra d n : inv nw ex exs extra d -> is_Some (d_servers d !! n) ->
  runs (nameserver_up n) d (fun _ d' => inv nw ex exs extra d' /\ keeps d d' /\ (exists s, d_servers d' !! n = Some s /\ ns_state s = true) /\
    d_reqs d' = d_reqs d /\ forall y, settled d y -> settled d' y).
Proof.
  intros H [s Hs]. unfold nameserver_up. run_steps. eapply runs_load_ns; [done|]. destruct (ns_state s) eqn:Hst.
  { run_step. split; [done|]. split; [done|]. split; [by exists s|done]. }
  destruct (di_server env _ _ _ _ _ H n s Hs) as (Hw & Ht & Hf & Hev). run_steps. eapply runs_update_ns; [done|]. run_steps.
  set (s' := (with_state true 0 0 ∘ with_ns_timer None) s). split; [|split; [|split; [|split; [done|]]]].
  - apply (inv_server nw ex exs exs extra d n s s' (global_good_nameservers d + 1)); try done.
    + intros y Hy. by right.
    + unfold up. rewrite Hst. cbn. lia.
  - by apply (keeps_server d _ n s').
  - exists s'. split; [apply lookup_insert_eq|done].
  - intros y Hy Ha t Ht' Hst'. cbn in Ht'. destruct (decide (y = n)) as [->|Hne]; [rewrite lookup_insert_eq in Ht'; by injection Ht' as <-|].
    rewrite lookup_insert_ne in Ht' by done. by apply (Hy Ha t).
Qed.

Lemma nameserver_probe_failed_ok nw ex exs extra d n : inv nw ex exs extra d -> is_Some (d_servers d !! n) ->
  runs (nameserver_probe_failed env n) d (fun _ d' => inv nw ex exs extra d' /\ keeps d d' /\ settled d' n /\ d_reqs d' = d_reqs d).
Proof.
  intros H [s Hs]. unfold nameserver_probe_failed, timer_add. destruct (di_server env _ _ _ _ _ H n s Hs) as (Hw & Ht & Hf & Hev).
  run_steps. eapply runs_load_ns; [done|]. run_steps. eapply runs_update_ns; [done|]. destruct (ns_state s) eqn:Hst.
  { run_step. destruct (inv_server_same nw ex exs extra d n s (with_ns_timer None s) H Hs) as [H1 K1]; try done; [cbn; congruence|].
    split; [done|]. split; [done|]. split; [|done]. intros _ s' Hs'. cbn in Hs'. rewrite lookup_insert_eq in Hs'. injection Hs' as <-. cbn. congruence. }
  run_step. assert (exists t, global_nameserver_timeouts !! Z.to_nat (Z.min (failed_times s) 4) = Some t) as [t Ht'].
  { apply lookup_lt_is_Some_2. change (length global_nameserver_timeouts) with 5%nat. lia. }
  rewrite Ht'. cbn [of_option]. run_steps. eapply runs_update_ns; [apply lookup_insert_eq|].
  set (o := if e_event_add env _ then _ else _).
  set (s' := (with_ns_timer o ∘ with_state false (failed_times s + 1) (timedout s)) (with_ns_timer None s)).
  assert (set_servers (insert n s') (set_tick (S (d_tick d)) (set_servers (insert n (with_ns_timer None s)) d)) =
          set_servers (insert n s') (set_tick (S (d_tick d)) d)) as Heq.
  { unfold set_servers, set_tick. cbn. f_equal. by rewrite insert_insert_eq. }
  change (d_tick (set_servers _ d)) with (d_tick d). rewrite Heq. assert (works (e_event_add env) -> o = Some t) as Ho by (intros Ha; unfold o; by rewrite Ha).
  assert (set_servers (insert n s') (set_tick (S (d_tick d)) d) = set_good (global_good_nameservers d) (set_servers (insert n s') (set_tick (S (d_tick d)) d))) as Heq2 by done.
  split; [|split; [|split; [|done]]].
  - rewrite Heq2. apply (inv_server nw ex exs exs extra (set_tick (S (d_tick d)) d) n s s'); try done.
    + by apply inv_tick.
    + split; [done|]. split; [done|]. cbn. split; [lia|done].
    + intros y Hy. by right.
    + unfold up. rewrite Hst. cbn. lia.
    + intros Ha _ _ _. left. cbn. rewrite (Ho Ha). by eexists.
  - rewrite Heq2. by apply (keeps_server d _ n s').
  - intros Ha s1. cbn. rewrite lookup_insert_eq. intros [= <-] _. cbn. rewrite (Ho Ha). by eexists.
Qed.

(** * Transmission *)

Lemma inv_weaken nw ex ex' exs extra d : inv nw ex exs extra d -> ex ⊆ ex' -> inv nw ex' exs extra d.
Proof.
  intros H Hex. pose proof (di_req env _ _ _ _ _ H) as Hq. pose proof (di_alive env _ _ _ _ _ H) as Ha. destruct H. split; try assumption.
  - intros x r Hr. destruct (Hq x r Hr) as (? & ? & ? & ? & Hs). split; [done|]. split; [done|]. split; [done|]. split; [done|].
    intros Hsome. destruct (Hs Hsome) as (? & ? & Hl). split; [done|]. split; [done|]. intros Hx%bool_decide_eq_false. apply Hl, bool_decide_eq_false. set_solver.
  - intros Hw x r Hx Hnin. apply (Ha Hw); [done|set_solver].
Qed.

(** The search of a request is complete. *)
Definition tight (r : client_request) : Prop := is_Some (cr_search r) -> exists orig, search_origname r = Some orig /\ orig <> [].

Lemma inv_tight nw ex exs extra d x r : inv nw ex exs extra d -> x ∉ ex -> d_reqs d !! x = Some r -> tight r.
Proof.
  intros H Hx Hr. destruct (di_req env _ _ _ _ _ H x r Hr) as (_ & _ & _ & _ & Hs). intros Hsome. destruct (Hs Hsome) as (_ & _ & Ho).
  by apply Ho, bool_decide_eq_false.
Qed.

Lemma tight_alike r r' : alike r r' -> tight r -> tight r'.
Proof. intros (_ & _ & _ & Es & Eo & _). unfold tight. by rewrite Es, Eo. Qed.

(** A request the code was about to send will be waited for. *)
Lemma inv_alive nw ex exs extra d x r r' : inv nw (x :: ex) exs extra d -> x ∈ req_head d -> d_reqs d !! x = Some r -> tight r ->
  alike r r' -> cr_msg r' = cr_msg r -> cr_ns r' = cr_ns r ->
  (works (e_event_add env) -> is_Some (cr_timer r') \/ transmit_me r' = true /\ watched d) ->
  inv nw ex exs extra (set_reqs (insert x r') d) /\ keeps d (set_reqs (insert x r') d).
Proof.
  intros H Hx Hr Ht Ha Em En Hal. destruct (di_req env _ _ _ _ _ H x r Hr) as (_ & Hb & Hlen & _). pose proof (di_fly env _ _ _ _ _ H x r Hx Hr) as Hfly.
  split; [|by apply (keeps_request d x r)]. apply (inv_request nw (x :: ex) ex exs extra d x r); try done; rewrite ?Em; try done.
  - intros _. unfold flying. by rewrite Em, En.
  - intros y Hy. set_solver.
  - intros _. right. destruct (cr_search r) eqn:Hs; [right|by left]. apply Ht. rewrite Hs. by eexists.
  - intros Hw _ _. by apply Hal.
Qed.

Lemma set_reqs_id d x r : d_reqs d !! x = Some r -> set_reqs (insert x r) d = d.
Proof. intros H. destruct d. unfold set_reqs. cbn in *. by rewrite insert_id. Qed.

(** The socket of the server cannot be written: the server is watched. *)
Lemma choke_ok {A} (k : dm A) Q nw ex exs extra d n : inv nw ex exs extra d -> is_Some (d_servers d !! n) ->
  (forall d', inv nw ex exs extra d' -> keeps d d' -> watched d' -> d_reqs d' = d_reqs d -> runs k d' Q) ->
  runs (update_ns n (with_choked true);; nameserver_write_waiting env n true;; k) d Q.
Proof.
  intros H [s Hs] Hk. destruct (di_server env _ _ _ _ _ H n s Hs) as (Hw & Ht & Hf & Hev). run_step. eapply runs_update_ns; [done|].
  unfold nameserver_write_waiting. run_steps. eapply runs_load_ns; [apply lookup_insert_eq|]. cbn [write_waiting with_choked].
  destruct (write_waiting s) eqn:Hww; cbn [Bool.eqb].
  - run_steps. destruct (inv_server_same nw ex exs extra d n s (with_choked true s) H Hs) as [H1 K1]; try done.
    { split; [done|]. split; [done|]. split; [done|]. intros Ha. cbn. rewrite Hww. by apply Hev. }
    apply Hk; [done..| |done]. exists n, (with_choked true s). split; [apply lookup_insert_eq|done].
  - run_steps. eapply runs_update_ns; [apply lookup_insert_eq|]. set (mask := if e_event_add env _ then _ else _).
    set (s' := with_waiting true mask (with_choked true s)).
    assert (set_servers (insert n s') (set_tick (S (d_tick d)) (set_servers (insert n (with_choked true s)) d)) =
            set_servers (insert n s') (set_tick (S (d_tick d)) d)) as Heq.
    { unfold set_servers, set_tick. cbn. f_equal. by rewrite insert_insert_eq. }
    change (d_tick (set_servers _ d)) with (d_tick d). rewrite Heq.
    assert (server_ok env s') as Hok'.
    { split; [done|]. split; [done|]. split; [done|]. intros Ha. cbn. unfold mask. by rewrite Ha. }
    destruct (inv_server_same nw ex exs extra (set_tick (S (d_tick d)) d) n s s') as [H1 K1]; try done; [by apply inv_tick|].
    apply Hk; [done|by apply (keeps_server d _ n s')| |done]. exists n, s'. split; [apply lookup_insert_eq|done].
Qed.

Lemma keeps_lookup d d' x r : keeps d d' -> x ∈ req_head d -> d_reqs d !! x = Some r ->
  x ∈ req_head d' /\ exists r', d_reqs d' !! x = Some r' /\ alike r r'.
Proof. intros K Hx Hr. rewrite (kp_head d d' K). split; [done|]. by apply (kp_reqs d d' K). Qed.

Lemma transmit_to_ok nw ex exs extra d x n : inv nw ex exs extra d -> x ∈ req_head d ->
  runs (evdns_request_transmit_to env x n) d (fun code d' => inv nw ex exs extra d' /\ keeps d d' /\
    (code = 1 -> d_reqs d' = d_reqs d)).
Proof.
  intros H Hx. destruct (inv_flight _ _ _ _ _ x H Hx) as (r & Hr & _ & y & Hy & Hs). unfold evdns_request_transmit_to, server_of.
  run_step. eapply runs_load_req; [done|]. rewrite Hy. cbn [of_option]. run_steps. destruct Hs as [s Hs]. eapply runs_load_ns; [done|]. run_steps.
  pose proof (inv_tick _ _ _ _ _ (S (d_tick d)) H) as H1. destruct (e_sendto env (d_tick d)).
  - run_steps. split; [by apply inv_send|]. split; [by apply keeps_same|done].
  - run_steps. split; [done|]. split; [by apply keeps_same|done].
  - run_steps. split; [done|]. split; [by apply keeps_same|done].
  - run_step. eapply runs_mono; [apply (nameserver_failed_ok _ _ _ _ _ y H1); by exists s|]. intros _ d2 (H2 & K2 & _). run_steps.
    split; [done|]. split; [|done]. etransitivity; [|done]. by apply keeps_same.
Qed.

Lemma transmit_ok nw ex exs extra d x r : inv nw (x :: ex) exs extra d -> x ∈ req_head d -> d_reqs d !! x = Some r -> tight r ->
  runs (evdns_request_transmit env x) d (fun _ d' => inv nw ex exs extra d' /\ keeps d d').
Proof.
  intros H Hx Hr Ht. destruct (di_fly env _ _ _ _ _ H x r Hx Hr) as (Hid & n & Hn & [s Hs]). unfold evdns_request_transmit, timer_add, server_of.
  set (r1 := with_transmit true r). set (d1 := set_reqs (insert x r1) d).
  assert (d_reqs d1 !! x = Some r1) as Hr1 by apply lookup_insert_eq. assert (alike r r1) as Hal by by repeat split.
  pose proof (keeps_request d x r r1 Hr Hal) as K1. assert (tight r1) as Ht1 by done.
  assert (inv nw (x :: ex) exs extra d1) as H1.
  { destruct (di_req env _ _ _ _ _ H x r Hr) as (_ & Hb & Hlen & _). apply (inv_request nw (x :: ex) (x :: ex) exs extra d x r); try done; [|by left|set_solver].
    intros _. exact (di_fly env _ _ _ _ _ H x r Hx Hr). }
  run_step. eapply runs_update_req; [done|]. run_steps. eapply runs_load_req; [done|]. cbn [cr_msg r1 with_transmit].
  rewrite (proj2 (Z.eqb_neq _ _)) by done. cbn [negb require]. run_steps. cbn [cr_ns r1 with_transmit of_option]. rewrite Hn. run_steps.
  eapply runs_load_ns; [done|]. destruct (ns_choked s) eqn:Hch.
  { run_steps. destruct (di_server env _ _ _ _ _ H n s Hs) as (Hw & _).
    destruct (inv_alive nw ex exs extra d1 x r1 r1) as [H2 _]; try done; [|by rewrite set_reqs_id in H2].
    intros _. right. split; [done|]. exists n, s. split; [done|]. by apply Hw. }
  run_step. eapply runs_mono; [by apply (transmit_to_ok nw (x :: ex) exs extra d1 x n)|]. intros code d2 (H2 & K2 & E2).
  destruct (keeps_lookup _ _ _ _ K2 Hx Hr1) as [Hx2 (r2 & Hr2 & A2)]. pose proof (tight_alike _ _ A2 Ht1) as Ht2.
  destruct (di_fly env _ _ _ _ _ H2 x r2 Hx2 Hr2) as (Hid2 & n2 & Hn2 & Hs2).
  destruct (Z.eqb_spec code 1) as [->|Hne].
  - assert (r2 = r1) as -> by (rewrite E2 in Hr2 by done; congruence). run_step. eapply runs_load_req; [done|]. rewrite Hn2. cbn [of_option]. run_step. run_step.
    apply (choke_ok _ _ nw (x :: ex) exs extra d2 n2); [done|done|]. intros d3 H3 K3 W3 E3. run_step.
    assert (d_reqs d3 !! x = Some r1) as Hr3 by by rewrite E3. destruct (keeps_lookup _ _ _ _ K3 Hx2 Hr2) as [Hx3 _].
    split; [|by transitivity d1; [|transitivity d2]]. destruct (inv_alive nw ex exs extra d3 x r1 r1) as [H4 _]; try done; [|by rewrite set_reqs_id in H4].
    intros _. by right.
  - run_steps. eapply runs_load_req; [done|]. run_steps. eapply runs_update_req; [done|]. run_step. set (t := if e_event_add env _ then _ else _).
    set (r3 := (with_transmit false ∘ with_counts (reissue_count r2) (tx_count r2 + 1) ∘ with_timer t) r2). assert (alike r2 r3) as A3 by by repeat split.
    destruct (inv_alive nw ex exs extra (set_tick (S (d_tick d2)) d2) x r2 r3) as [H3 K3]; try done; [by apply inv_tick| |].
    + intros Ha. left. cbn. unfold t. rewrite Ha. by eexists.
    + split; [done|]. transitivity d1; [exact K1|]. transitivity d2; [exact K2|]. etransitivity; [by apply (keeps_tick d2 (S (d_tick d2)))|done].
Qed.

Lemma transmit_loop_ok l : forall b nw exs extra d, inv nw [] exs extra d -> Forall (fun x => x ∈ req_head d) l ->
  runs (transmit_loop env l b) d (fun did d' => inv nw [] exs extra d' /\ keeps d d' /\
    (b = true -> did = true) /\ (did = false -> d' = d /\ forall x r, x ∈ l -> d_reqs d !! x = Some r -> transmit_me r = false)).
Proof.
  induction l as [|x l IH]; intros b nw exs extra d H Hl; cbn [transmit_loop].
  { run_step. split; [done|]. split; [done|]. split; [done|]. intros _. split; [done|]. intros x r Hx. by apply not_elem_of_nil in Hx. }
  apply Forall_cons in Hl as [Hx Hl]. destruct (inv_flight _ _ _ _ _ x H Hx) as (r & Hr & _). run_step. eapply runs_load_req; [done|].
  destruct (transmit_me r) eqn:Htm.
  - run_step. eapply runs_mono; [apply (transmit_ok nw [] exs extra d x r); [|done|done|]|].
    + apply (inv_weaken nw []); [done|set_solver].
    + apply (inv_tight nw [] exs extra d x r); [done|apply not_elem_of_nil|done].
    + intros _ d1 [H1 K1]. eapply runs_mono; [apply (IH true nw exs extra d1 H1)|].
      * rewrite Forall_forall in Hl |- *. intros y Hy. destruct (inv_flight _ _ _ _ _ y H (Hl y Hy)) as (t & Ht & _).
        by destruct (keeps_lookup _ _ _ _ K1 (Hl y Hy) Ht).
      * intros did d2 (H2 & K2 & B2 & _). split; [done|]. split; [by etransitivity|]. split; [intros _; by apply B2|]. by rewrite B2.
  - eapply runs_mono; [by apply (IH b nw exs extra d H)|]. intros did d1 (H1 & K1 & B1 & E1). split; [done|]. split; [done|]. split; [done|].
    intros Hf. destruct (E1 Hf) as [-> Hall]. split; [done|]. intros y t [->|Hy]%elem_of_cons Ht; [congruence|by apply (Hall y)].
Qed.
Lemma evdns_transmit_ok nw exs extra d : inv nw [] exs extra d ->
  runs (evdns_transmit env) d (fun did d' => inv nw [] exs extra d' /\ keeps d d' /\
    (did = false -> d' = d /\ forall x r, x ∈ req_head d -> d_reqs d !! x = Some r -> transmit_me r = false)).
Proof.
  intros H. unfold evdns_transmit. run_steps. eapply runs_mono; [apply (transmit_loop_ok _ false nw exs extra d H)|].
  - by apply Forall_forall.
  - intros did d' (H1 & K1 & _ & E1). done.
Qed.
End Servers.
