(* ===== verification/DnsLife.v ===== *)
(** The life of a DNS request: created, sent or queued, promoted, searched for
    under other names, and finished. *)
From S2P Require Import Prelude.
From S2P Require Import Dns DnsName DnsReply DnsProps DnsClient DnsQueue DnsServers.

Implicit Types (d : dns) (nw ex exs extra : list Z) (name : list byte).

Section Life.
Context (env : denv) `{Henv : !DnsEnvOk env}.

Abbreviation inv := (dns_inv env).

(** * Transaction ids *)

Lemma find_id_ok l id : forall d, (forall x, x ∈ l -> is_Some (d_reqs d !! x)) ->
  runs (find_id l id) d (fun o d' => d' = d /\
    match o with
    | Some x => x ∈ l /\ exists r, d_reqs d !! x = Some r /\ rq_trans_id (cr_msg r) = id
    | None => forall x r, x ∈ l -> d_reqs d !! x = Some r -> rq_trans_id (cr_msg r) <> id
    end).
Proof.
  induction l as [|x l IH]; intros d Hl; cbn [find_id].
  { run_step. split; [done|]. intros x r Hx. by apply not_elem_of_nil in Hx. }
  destruct (Hl x) as [r Hr]; [left|]. run_step. eapply runs_load_req; [done|]. destruct (Z.eqb_spec (rq_trans_id (cr_msg r)) id) as [Hid|Hid].
  - run_step. split; [done|]. split; [left|]. by exists r.
  - eapply runs_mono; [apply IH; intros y Hy; apply Hl; by right|]. intros o d' [-> Ho]. split; [done|]. destruct o as [y|].
    + destruct Ho as [Hy Ho]. split; [by right|done].
    + intros y t [->|Hy]%elem_of_cons Ht; [congruence|by apply (Ho y)].
Qed.

Lemma id_loop_ok i : forall fuel d (used : list Z), (i < fuel)%nat -> (forall x, x ∈ req_head d -> exists r, d_reqs d !! x = Some r /\ rq_trans_id (cr_msg r) ∈ used) ->
  e_trans_id env (d_tick d + i) ∉ used -> e_trans_id env (d_tick d + i) <> 0xffff ->
  runs (transaction_id_loop env fuel) d (fun id d' => id <> 0xffff /\ exists t, d' = set_tick t d).
Proof.
  induction i as [|i IH]; intros fuel d used Hfuel Hused Hnin Hne; (destruct fuel as [|fuel]; [lia|]); cbn [transaction_id_loop]; run_steps.
  - rewrite Nat.add_0_r in *. rewrite (proj2 (Z.eqb_neq _ _)) by done. run_steps.
    eapply runs_mono; [apply find_id_ok; intros x Hx; destruct (Hused x Hx) as (r & ? & _); by exists r|]. intros o d' [-> Ho]. destruct o as [x|].
    + exfalso. destruct Ho as (Hx & r & Hr & Hid). destruct (Hused x Hx) as (r' & Hr' & Hu). cbn in Hr. rewrite Hr in Hr'. injection Hr' as <-. by rewrite Hid in Hu.
    + rewrite bool_decide_true by (by left). run_steps. split; [done|]. by exists (S (d_tick d)).
  - assert (runs (transaction_id_loop env fuel) (set_tick (S (d_tick d)) d) (fun id d' => id <> 0xffff /\ exists t, d' = set_tick t d)) as Hrec.
    { eapply runs_mono; [apply (IH fuel (set_tick (S (d_tick d)) d) used); [lia|done|..]; cbn; by replace (S (d_tick d + i)) with (d_tick d + S i)%nat by lia|].
      intros id d' (Hid & t & ->). split; [done|]. by exists t. }
    destruct (_ =? 0xffff) eqn:Hffff; [done|]. run_steps.
    eapply runs_mono; [apply find_id_ok; intros x Hx; destruct (Hused x Hx) as (r & ? & _); by exists r|]. intros o d' [-> Ho].
    case_bool_decide; [|done]. run_step. split; [by apply Z.eqb_neq|]. by exists (S (d_tick d)).
Qed.

Lemma transaction_id_pick_ok d : (forall x, x ∈ req_head d -> is_Some (d_reqs d !! x)) -> blen (req_head d) < 65535 ->
  runs (transaction_id_pick env) d (fun id d' => id <> 0xffff /\ exists t, d' = set_tick t d).
Proof.
  intros Hl Hb. set (id_of x := default 0 ((fun r => rq_trans_id (cr_msg r)) <$> d_reqs d !! x)).
  destruct (eo_ids env (d_tick d) (id_of <$> req_head d)) as (i & Hi & Hnin & Hne); [rewrite length_fmap; exact Hb|].
  apply (id_loop_ok i _ d (id_of <$> req_head d)); [done| |done|done]. intros x Hx. destruct (Hl x Hx) as [r Hr]. exists r. split; [done|].
  apply list_elem_of_fmap. exists x. split; [|done]. unfold id_of. by rewrite Hr.
Qed.

Lemma put_front q rest bs : received q -> blen bs <= blen q -> exists q', put (q ++ rest) 0 bs = Ok (q' ++ rest) /\ received q' /\ blen q' = blen q.
Proof.
  intros Hq Hl. pose proof (blen_nonneg rest). unfold put. rewrite write_cells_ok by (rewrite ?blen_fmap, ?blen_app; lia).
  exists ((Some <$> bs) ++ drop (length bs) q). rewrite length_fmap. change (Z.to_nat 0) with 0%nat. cbn [take Nat.add app]. split; [|split].
  - rewrite drop_app_le by (unfold blen in Hl; lia). by rewrite take_0, <- app_assoc.
  - apply Forall_app. split; [apply Forall_fmap, Forall_true; by eexists|by apply Forall_drop].
  - rewrite blen_app, blen_fmap. unfold blen in *. rewrite length_drop. lia.
Qed.

Lemma request_trans_id_set_ok d x r id : d_reqs d !! x = Some r -> built (cr_msg r) -> 2 <= rq_len (cr_msg r) ->
  runs (request_trans_id_set x id) d (fun _ d' => exists m, d' = set_reqs (insert x (with_msg m r)) d /\ built m /\
    rq_len m = rq_len (cr_msg r) /\ rq_type m = rq_type (cr_msg r) /\ rq_trans_id m = id).
Proof.
  intros Hr (q & rest & Hp & Hl & Hq & Hs) Hlen. unfold request_trans_id_set. run_step. eapply runs_load_req; [done|]. run_step. rewrite Hp.
  destruct (put_front q rest (be_bytes 2 id) Hq) as (q' & Hput & Hq' & Hl'); [rewrite blen_be_bytes; lia|]. rewrite Hput. run_step.
  eapply runs_update_req; [done|]. eexists. split; [done|]. split; [|done]. exists q', rest. cbn. split; [done|]. split; [lia|done].
Qed.

(** * New requests *)

(** The arguments of the callbacks a request will call. *)
Definition args (cb : callback) : list Z := match cb with User a => [a] | _ => [] end.

Lemma owes_args a r : owes a r = tally (Z.eqb a) (args (user_callback r)).
Proof.
  unfold owes, args, tally. destruct (user_callback r) as [b|n]; [|done]. cbn. destruct (Z.eqb_spec a b) as [->|Hne].
  - by rewrite bool_decide_true.
  - rewrite bool_decide_false; [done|]. congruence.
Qed.

(** A request that is in no list yet. *)
Record new_req type cb d r : Prop := {
  nr_type : rq_type (cr_msg r) = type;
  nr_callback : user_callback r = cb;
  nr_flying : forall n, cr_ns r = Some n -> flying d r;
  nr_search : cr_search r = None
}.

Lemma inv_new nw ex exs extra d r type cb : inv nw ex exs extra d -> known_type type -> new_req type cb d r ->
  built (cr_msg r) -> 2 <= rq_len (cr_msg r) -> cr_timer r = None ->
  (forall n, cb = nameserver_probe_callback n -> is_Some (d_servers d !! n)) ->
  inv (d_fresh d :: nw) ex exs (args cb ++ extra) (set_reqs (insert (d_fresh d) r) (set_fresh (d_fresh d + 1) d)) /\
  keeps d (set_reqs (insert (d_fresh d) r) (set_fresh (d_fresh d + 1) d)).
Proof.
  intros H Hty [Nt Nc Nf Ns] Hb Hl Htm Hcb. pose proof (di_fresh env _ _ _ _ _ H) as (F1 & F2 & F3). set (y := d_fresh d) in *.
  assert (d_reqs d !! y = None) as Hy. { apply eq_None_not_Some. intros Hs. apply F1 in Hs. lia. }
  assert (forall x, <[y := r]> (d_reqs d) !! x = if decide (x = y) then Some r else d_reqs d !! x) as Hlk.
  { intros x. case_decide as Hd; [subst x; apply lookup_insert_eq|by rewrite lookup_insert_ne]. }
  assert (y ∉ nw ++ req_head d ++ req_waiting_head d) as Hnin. { intros Hin%(di_reqs env _ _ _ _ _ H). rewrite Hy in Hin. by destruct Hin. }
  split.
  2:{ split; try done. intros x t Ht. cbn. rewrite lookup_insert_ne by (intros ->; congruence). by exists t. }
  destruct H. split; try assumption.
  - cbn. apply NoDup_cons. by split.
  - intros x. cbn. rewrite Hlk, elem_of_cons. case_decide as Hd; [subst x; split; [by left|by eexists]|]. rewrite di_reqs. tauto.
  - intros x t. cbn. rewrite Hlk. case_decide as Hd; [|apply di_req]. intros [= <-]. split; [by rewrite Nt|]. split; [done|]. split; [done|].
    split; [rewrite Nc; apply Hcb|]. rewrite Ns. intros Hs. by destruct Hs.
  - intros x t Hx. cbn. rewrite Hlk. case_decide as Hd; [|by apply di_fly]. subst x. exfalso. apply Hnin. cbn in Hx. set_solver.
  - intros x t. cbn. rewrite Hlk. case_decide as Hd; [|apply di_timer]. intros [= <-]. rewrite Htm. intros Hs. by destruct Hs.
  - intros Ha x t Hx Hex. cbn. rewrite Hlk. case_decide as Hd; [|by apply di_alive]. subst x. exfalso. apply Hnin. cbn in Hx. set_solver.
  - intros Ha Hm n s Hn Hs Hst. destruct (di_down Ha Hm n s Hn Hs Hst) as [?|(x & t & Hx & Ht)]; [by left|right]. exists x, t. split; [|done].
    cbn. rewrite Hlk. rewrite decide_False; [done|]. intros ->. congruence.
  - intros s. specialize (di_search s). revert di_search. unfold refs. cbn. 
    assert (msum (refers s) (<[y := r]> (d_reqs d)) = msum (refers s) (d_reqs d)) as ->; [|done].
    rewrite (msum_new (refers s) _ _ r Hy). unfold refers at 1. by rewrite Ns.
  - cbn. split; [|split; [intros n Hn; apply F2 in Hn; lia|intros s Hs; apply F3 in Hs; lia]]. intros x. rewrite Hlk. case_decide; [lia|]. intros Hx%F1. lia.
  - intros a. cbn. rewrite (msum_new (owes a) _ _ r Hy), tally_app, owes_args, Nc. specialize (di_tally a). lia.
Qed.

(** What a call that makes a request leaves. *)
Definition made nw ex exs extra d type cb (o : option Z) d' : Prop :=
  match o with
  | None => inv nw ex exs extra d' /\ keeps d d'
  | Some y => inv (y :: nw) ex exs (args cb ++ extra) d' /\ keeps d d' /\ exists r, d_reqs d' !! y = Some r /\ new_req type cb d' r
  end.

Lemma request_new_made nw ex exs extra d type name cb : inv nw ex exs extra d -> known_type type ->
  (forall n, cb = nameserver_probe_callback n -> is_Some (d_servers d !! n)) ->
  runs (request_new env type name cb) d (fun o d' => made nw ex exs extra d type cb o d' /\
    (o = None -> works (e_malloc env) -> ~ name_ok name)).
Proof.
  intros H Hty Hcb. unfold request_new. run_steps. set (now := global_requests_inflight d <? _).
  apply (runs_mono _ _ (fun id d1 => (now = true -> id <> 0xffff) /\ exists t, d1 = set_tick t d)).
  { destruct now eqn:Hnow; [|run_step; split; [done|]; exists (d_tick d); by destruct d]. unfold now in Hnow. apply Z.ltb_lt in Hnow.
    eapply runs_mono; [apply transaction_id_pick_ok|].
    - intros x Hx. destruct (inv_flight env _ _ _ _ _ x H Hx) as (r & Hr & _). by exists r.
    - rewrite (di_inflight env _ _ _ _ _ H) in Hnow. pose proof (di_max env _ _ _ _ _ H). lia.
    - intros id d1 [Hid Ht]. by split. }
  intros id d1 (Hid & t & ->). run_steps. pose proof (inv_tick env _ _ _ _ _ (S t) H) as H2. set (d2 := set_tick (S (d_tick (set_tick t d))) (set_tick t d)).
  change (inv nw ex exs extra d2) in H2. assert (keeps d d2) as K2 by by apply keeps_same.
  destruct (e_malloc env _) eqn:Hmal; cbn [negb]; [|run_step; split; [done|]; intros _ Hm; by rewrite Hm in Hmal].
  destruct (build_any name id type CLASS_INET) as (r & buf & Hrun & Hr). rewrite Hrun. run_steps.
  destruct (Z.ltb_spec r 0) as [Hneg|Hpos].
  { run_step. split; [done|]. intros _ _ Hn. destruct (request_built name id type CLASS_INET Hn) as (buf' & len & Hb & _ & _ & Hl & _).
    rewrite Hrun in Hb. injection Hb as <- <-. lia. }
  destruct Hr as [|(Hr12 & q & rest & Hbuf & Hlen & Hq & Hslack)]; [lia|]. run_step.
  apply (runs_mono _ _ (fun o d3 => inv nw ex exs extra d3 /\ keeps d d3 /\ (forall n, o = Some n -> now = true /\ is_Some (d_servers d3 !! n)))).
  { destruct now; [|by run_step]. eapply runs_mono; [by apply (pick_inv env nw ex exs extra d2)|]. intros o d3 (H3 & K3 & _ & Ho).
    split; [done|]. split; [by transitivity d2|]. intros n ->. split; [done|]. by apply (kp_servers _ _ K3). }
  intros o d3 (H3 & K3 & Ho). run_steps. set (req := mkCReq _ _ _ _ _ _ _ _ _ _ _).
  assert (new_req type cb d3 req) as Hnew.
  { split; try done. intros n Hn. cbn in Hn. destruct (Ho n Hn) as [Hnow Hs]. split; [by apply Hid|]. by exists n. }
  destruct (inv_new nw ex exs extra d3 req type cb H3 Hty Hnew) as [H4 K4]; try done.
  - by exists q, rest.
  - cbn. lia.
  - intros n Hn. apply (kp_servers _ _ K3). by apply Hcb.
  - split; [|done]. split; [done|]. split; [by transitivity d3|]. exists req. split; [apply lookup_insert_eq|]. destruct Hnew. by split.
Qed.

Lemma request_new_ok nw ex exs extra d type name cb : inv nw ex exs extra d -> known_type type ->
  (forall n, cb = nameserver_probe_callback n -> is_Some (d_servers d !! n)) ->
  runs (request_new env type name cb) d (made nw ex exs extra d type cb).
Proof. intros H Hty Hcb. eapply runs_mono; [by apply request_new_made|]. by intros o d' [Hm _]. Qed.

(** * Into the lists *)

(** A request goes to the end of those in flight; it is about to be sent. *)
Lemma inv_launch nw ex exs extra d y r : inv (y :: nw) ex exs extra d -> d_reqs d !! y = Some r -> flying d r ->
  inv nw (y :: ex) exs extra (set_req_head (req_head d ++ [y]) (global_requests_inflight d + 1) d) /\
  lasts d (set_req_head (req_head d ++ [y]) (global_requests_inflight d + 1) d).
Proof.
  intros H Hr Hfly. assert (nw ++ (req_head d ++ [y]) ++ req_waiting_head d ≡ₚ (y :: nw) ++ req_head d ++ req_waiting_head d) as Hperm by solve_Permutation.
  assert (forall b1 b2 t, (b2 = true \/ b1 = false) -> req_ok d b1 t -> req_ok d b2 t) as Hweak.
  { intros b1 b2 t Hb (? & ? & ? & ? & Hs). split; [done|]. split; [done|]. split; [done|]. split; [done|]. intros Hsome. destruct (Hs Hsome) as (? & ? & Hl).
    split; [done|]. split; [done|]. intros ->. destruct Hb; [done|auto]. }
  split.
  2:{ split; [|done|done]. intros x t Hx Ht. split; [cbn; set_solver|]. by exists t. }
  destruct H. split; try assumption.
  - cbn. by rewrite Hperm.
  - intros x. cbn. by rewrite di_reqs, Hperm.
  - cbn. rewrite blen_app. change (blen [y]) with 1. lia.
  - intros x t Ht. apply (Hweak (bool_decide (x ∈ ex))); [|by apply di_req]. destruct (decide (x ∈ ex)); [left|right]; [apply bool_decide_eq_true; by right|by apply bool_decide_eq_false].
  - intros x t [Hx|Hx%list_elem_of_singleton]%elem_of_app Ht; [by apply (di_fly x)|subst x]. cbn in Ht. by assert (t = r) as -> by congruence.
  - intros x t Ht Htm. cbn. apply elem_of_app. left. by apply (di_timer x t).
  - intros Ha x t [Hx|Hx%list_elem_of_singleton]%elem_of_app Hnin Ht; [|subst x; exfalso; apply Hnin; left]. apply (di_alive Ha x); [done|set_solver|done].
Qed.

(** A request goes to the end of those that wait, or leaves their head. *)
Lemma inv_wait nw ex exs extra d y : inv (y :: nw) ex exs extra d ->
  inv nw ex exs extra (set_waiting (req_waiting_head d ++ [y]) (global_requests_waiting d + 1) d).
Proof.
  intros H. assert (nw ++ req_head d ++ req_waiting_head d ++ [y] ≡ₚ (y :: nw) ++ req_head d ++ req_waiting_head d) as Hperm by solve_Permutation.
  destruct H. split; try assumption.
  - cbn. by rewrite Hperm.
  - intros x. cbn. by rewrite di_reqs, Hperm.
  - cbn. rewrite blen_app. change (blen [y]) with 1. lia.
Qed.

Lemma inv_unwait nw ex exs extra d x l : inv nw ex exs extra d -> req_waiting_head d = x :: l ->
  inv (x :: nw) ex exs extra (set_waiting l (global_requests_waiting d - 1) d).
Proof.
  intros H Hl. assert ((x :: nw) ++ req_head d ++ l ≡ₚ nw ++ req_head d ++ req_waiting_head d) as Hperm by (rewrite Hl; solve_Permutation).
  destruct H. split; try assumption.
  - change (NoDup ((x :: nw) ++ req_head d ++ l)). by rewrite Hperm.
  - intros y. change (is_Some (d_reqs d !! y) <-> y ∈ (x :: nw) ++ req_head d ++ l). by rewrite di_reqs, Hperm.
  - cbn. rewrite di_waiting, Hl, blen_cons. lia.
Qed.

Lemma inv_new_lookup nw ex exs extra d y : inv (y :: nw) ex exs extra d -> y ∉ req_head d.
Proof. intros H. pose proof (di_lists env _ _ _ _ _ H) as Hnd. cbn in Hnd. apply NoDup_cons in Hnd as [Hnin _]. set_solver. Qed.

Lemma request_submit_ok nw ex exs extra d y r : inv (y :: nw) ex exs extra d -> d_reqs d !! y = Some r -> tight r ->
  (forall n, cr_ns r = Some n -> flying d r) ->
  runs (request_submit env y) d (fun _ d' => inv nw ex exs extra d' /\ lasts d d').
Proof.
  intros H Hr Ht Hfly. unfold request_submit, evdns_request_insert. run_step. eapply runs_load_req; [done|]. destruct (cr_ns r) as [n|] eqn:Hn.
  - run_steps. destruct (inv_launch nw ex exs extra d y r H Hr (Hfly n eq_refl)) as [H1 L1].
    set (d1 := set_req_head (req_head d ++ [y]) (global_requests_inflight d + 1) d) in *.
    eapply runs_mono; [apply (transmit_ok env nw ex exs extra d1 y r); try done|].
    + cbn. apply elem_of_app. right. left.
    + intros _ d2 [H2 K2]. run_step. split; [done|]. transitivity d1; [done|]. by apply keeps_lasts.
  - run_steps. split; [exact (inv_wait nw ex exs extra d y H)|]. split; [|done|done]. intros x t Hx Hxt. split; [done|]. by exists t.
Qed.

(** * The waiting queue *)

(** The state after the head of the waiting queue was given a server and an id,
    and put in flight. *)
Definition promoted d x (l sv : list Z) (t : nat) (r : client_request) : dns :=
  mkDns t (d_fresh d) (d_log d) (<[x := r]> (d_reqs d)) (d_servers d) (d_searches d) (req_head d ++ [x]) l sv
    (global_good_nameservers d) (global_requests_inflight d + 1) (global_requests_waiting d - 1) (d_opts d) (global_search_state d).

Lemma promoted_ok exs extra d x l sv t r n m : inv [] [] exs extra d -> req_waiting_head d = x :: l -> d_reqs d !! x = Some r ->
  sv ≡ₚ server_head d -> n ∈ server_head d -> built m -> rq_len m = rq_len (cr_msg r) -> rq_type m = rq_type (cr_msg r) -> rq_trans_id m <> 0xffff ->
  let d' := promoted d x l sv t (with_msg m (with_ns (Some n) r)) in
  inv [] [x] exs extra d' /\ lasts d d' /\ x ∈ req_head d' /\ d_reqs d' !! x = Some (with_msg m (with_ns (Some n) r)) /\
  req_waiting_head d' = l /\ is_Some (d_servers d' !! n) /\ tight r.
Proof.
  intros H Hw Hr Hsv Hn Hmb Hml Hmt Hmi d'. set (r2 := with_msg m _) in *.
  pose proof (inv_unwait [] [] exs extra d x l H Hw) as H1. pose proof (inv_new_lookup _ _ _ _ _ _ H1) as Hxf.
  destruct (di_req env _ _ _ _ _ H x r Hr) as (_ & Hb & Hlen & _).
  set (d7 := set_tick t (set_server_head sv (set_waiting l (global_requests_waiting d - 1) d))) in *.
  assert (inv [x] [] exs extra d7) as H7 by by apply inv_tick, inv_server_head.
  assert (inv [x] [] exs extra (set_reqs (insert x r2) d7)) as H8.
  { apply (inv_request env [x] [] [] exs extra d7 x r r2); try done.
    - change (2 <= rq_len m). by rewrite Hml.
    - apply (di_timer env _ _ _ _ _ H7 x r Hr).
    - intros Hin. by apply not_elem_of_nil in Hin. }
  assert (flying (set_reqs (insert x r2) d7) r2) as Hfly.
  { split; [done|]. exists n. split; [done|]. by apply (di_servers env _ _ _ _ _ H). }
  destruct (inv_launch [] [] exs extra (set_reqs (insert x r2) d7) x r2 H8 (lookup_insert_eq _ _ _) Hfly) as [H9 L9].
  split; [exact H9|]. split; [|split; [|split; [|split; [done|split]]]].
  - split; [|done|done]. intros y ty Hy Hty. split; [cbn; set_solver|]. exists ty. split; [|by repeat split]. cbn. rewrite lookup_insert_ne; [done|]. by intros ->.
  - cbn. apply elem_of_app. right. left.
  - apply lookup_insert_eq.
  - by apply (di_servers env _ _ _ _ _ H).
  - by apply (inv_tight env _ _ _ _ _ _ _ H (not_elem_of_nil x)).
Qed.

Lemma pump_loop_ok fuel : forall exs extra d, (length (req_waiting_head d) < fuel)%nat -> inv [] [] exs extra d ->
  (server_head d <> [] \/ req_waiting_head d = []) ->
  runs (pump_loop env fuel) d (fun _ d' => inv [] [] exs extra d' /\ lasts d d').
Proof.
  induction fuel as [|fuel IH]; intros exs extra d Hfuel H Hsv; [lia|]. cbn [pump_loop]. run_steps.
  destruct (_ && _) eqn:Hgo; [|by run_step]. apply andb_true_iff in Hgo as [Hlt%Z.ltb_lt Hw0%negb_true_iff%Z.eqb_neq].
  assert (req_waiting_head d <> []) as Hne.
  { intros He. apply Hw0. by rewrite (di_waiting env _ _ _ _ _ H), He. }
  destruct Hsv as [Hsv|]; [|contradiction]. destruct (req_waiting_head d) as [|x l] eqn:Hw; [done|]. clear Hne.
  destruct (proj2 (di_reqs env _ _ _ _ _ H x)) as [r Hr]; [rewrite Hw; set_solver|].
  destruct (di_req env _ _ _ _ _ H x r Hr) as (_ & Hb & Hlen & _). run_steps.
  set (d2 := set_req_head (req_head d) (global_requests_inflight d + 1) _).
  eapply runs_mono; [apply (nameserver_pick_ok d2); by destruct (inv_servers_wf env _ _ _ _ _ H) as (? & ? & ?)|].
  intros o d3 (sv & -> & Hl3 & Ho). destruct o as [n|]; [|done]. run_step. eapply runs_update_req; [exact Hr|].
  set (d4 := set_reqs _ (set_server_head sv d2)). run_step. eapply runs_mono; [apply (transaction_id_pick_ok d4)|].
  { intros y Hy. assert (y ∈ req_head d) as Hy' by exact Hy. destruct (inv_flight env _ _ _ _ _ y H Hy') as (t & Hyt & _). cbn. destruct (decide (y = x)) as [->|]; [by rewrite lookup_insert_eq|].
    rewrite lookup_insert_ne by done. by exists t. }
  { change (blen (req_head d) < 65535). pose proof (di_inflight env _ _ _ _ _ H). pose proof (di_max env _ _ _ _ _ H). lia. }
  intros id d5 (Hid & t & ->). run_step. eapply runs_mono; [apply (request_trans_id_set_ok _ x (with_ns (Some n) r) id); [apply lookup_insert_eq|done|done]|].
  intros _ d6 (m & -> & Hmb & Hml & Hmt & Hmi). unfold evdns_request_insert. run_steps.
  match goal with |- runs _ ?D _ => assert (D = promoted d x l sv t (with_msg m (with_ns (Some n) r))) as -> end.
  { unfold promoted. rewrite <- (insert_insert_eq (d_reqs d) x (with_msg m (with_ns (Some n) r)) (with_ns (Some n) r)). reflexivity. }
  destruct (promoted_ok exs extra d x l sv t r n m H Hw Hr Hl3 Ho Hmb Hml Hmt) as (H9 & L9 & Hx9 & Hr9 & Hw9 & Hn9 & Ht); [congruence|].
  revert H9 L9 Hx9 Hr9 Hw9 Hn9. generalize (promoted d x l sv t (with_msg m (with_ns (Some n) r))). intros d9 H9 L9 Hx9 Hr9 Hw9 Hn9.
  eapply runs_mono; [by apply (transmit_ok env [] [] exs extra d9 x _ H9 Hx9 Hr9)|].
  intros _ d10 [H10 K10]. run_step. eapply runs_mono; [by apply (evdns_transmit_ok env [] exs extra d10)|]. intros _ d11 (H11 & K11 & _).
  assert (keeps d9 d11) as K by by transitivity d10. eapply runs_mono; [apply (IH exs extra d11); [|done|left]|].
  - rewrite (kp_wait _ _ K), Hw9. cbn in Hfuel. lia.
  - intros He. assert (n ∈ server_head d11) as Hin; [|rewrite He in Hin; by apply not_elem_of_nil in Hin].
    apply (di_servers env _ _ _ _ _ H11). by apply (kp_servers _ _ K).
  - intros _ d12 [H12 L12]. split; [done|]. transitivity d9; [done|]. transitivity d11; [by apply keeps_lasts|done].
Qed.
End Life.
