(* ===== verification/DnsSearch.v ===== *)
(** Searches of the DNS client, the calls of the program, and how requests end. *)
From S2P Require Import Prelude.
From S2P Require Import Dns DnsName DnsReply DnsProps DnsClient DnsQueue DnsServers DnsLife.

Implicit Types (d : dns) (nw ex exs extra : list Z) (name : list byte).

Section Search.
Context (env : denv) `{Henv : !DnsEnvOk env}.

Abbreviation inv := (dns_inv env).

(** * References to searches *)

Lemma b2z_pos (b : bool) : b = true -> Z.b2z b = 1.
Proof. by intros ->. Qed.

Lemma refers_nonneg s r : 0 <= refers s r.
Proof. unfold refers. by case_bool_decide. Qed.

Lemma refs_of_request d x r s : d_reqs d !! x = Some r -> cr_search r = Some s -> 1 <= refs d s.
Proof.
  intros Hr Hs. unfold refs. pose proof (msum_ge (refers s) (d_reqs d) x r (refers_nonneg s) Hr) as Hge. unfold refers at 1 in Hge.
  rewrite bool_decide_true in Hge by done. cbn in Hge. assert (0 <= Z.b2z (bool_decide (global_search_state d = Some s))) by (by case_bool_decide). lia.
Qed.

Lemma refs_global d s : global_search_state d = Some s -> 1 <= refs d s.
Proof.
  intros Hs. unfold refs. rewrite (b2z_pos _ (bool_decide_eq_true_2 _ Hs)). pose proof (msum_nonneg (refers s) (d_reqs d) (refers_nonneg s)). lia.
Qed.

Lemma search_exists nw ex exs extra d s : inv nw ex exs extra d -> 1 <= refs d s ->
  exists st, d_searches d !! s = Some st /\ ss_refcount st = refs d s /\ num_domains st = blen (ss_domains st).
Proof.
  intros H Hr. pose proof (di_search env _ _ _ _ _ H s) as Hs. destruct (d_searches d !! s) as [st|]; [|cbn in Hs; lia].
  exists st. by destruct Hs as (? & ? & ?).
Qed.

(** A reference goes. *)
Definition decref (s : Z) (e : gmap Z search_state) : gmap Z search_state :=
  match e !! s with
  | Some st => if ss_refcount st - 1 =? 0 then delete s e
               else <[s := mkSearch (ss_refcount st - 1) (ndots st) (num_domains st) (ss_domains st)]> e
  | None => e
  end.

Lemma decref_runs d s st : d_searches d !! s = Some st ->
  runs (search_state_decref s) d (fun _ d' => d' = set_searches (decref s) d).
Proof.
  intros Hs. unfold search_state_decref, decref. run_step. eapply runs_eq; [by apply load_search_ok|]. unfold set_searches. rewrite Hs.
  destruct (_ =? 0); [by run_step|]. eapply runs_eq; [by apply update_search_ok|]. done.
Qed.

Lemma decref_val (R R' : Z -> Z) e s0 : (forall s, search_val (R s) (e !! s)) -> R' s0 = R s0 - 1 -> (forall s, s <> s0 -> R' s = R s) ->
  0 < R s0 -> (forall s, search_val (R' s) (decref s0 e !! s)) /\ (forall s, is_Some (decref s0 e !! s) -> is_Some (e !! s)).
Proof.
  intros HR H0 Hne Hpos. unfold decref. pose proof (HR s0) as Hs0. destruct (e !! s0) as [st|] eqn:He; [|cbn in Hs0; lia].
  destruct Hs0 as (Hrc & _ & Hnum). split; intros s.
  - destruct (decide (s = s0)) as [->|Hs].
    + destruct (Z.eqb_spec (ss_refcount st - 1) 0); [rewrite lookup_delete_eq; cbn; lia|rewrite lookup_insert_eq; cbn; lia].
    + rewrite Hne by done. destruct (_ =? 0); [by rewrite lookup_delete_ne|by rewrite lookup_insert_ne].
  - destruct (decide (s = s0)) as [->|Hs]; [by rewrite He|]. destruct (_ =? 0); [by rewrite lookup_delete_ne|by rewrite lookup_insert_ne].
Qed.

(** * Changes of searches *)

(** A request changes its search, and the searches their references. *)
Lemma inv_research nw ex ex' exs extra d x r i s orig flags e' : inv nw ex exs extra d -> d_reqs d !! x = Some r ->
  (is_Some s -> -1 <= i /\ (exists a, user_callback r = User a) /\ (x ∉ ex' -> exists o, orig = Some o /\ o <> [])) -> ex ⊆ ex' -> ex' ⊆ x :: ex ->
  let d' := set_searches (fun _ => e') (set_reqs (insert x (with_search i s orig flags r)) d) in
  (forall s, search_val (refs d' s) (e' !! s)) -> (forall s, is_Some (e' !! s) -> s < d_fresh d) ->
  inv nw ex' exs extra d'.
Proof.
  intros H Hr Hs Hex Hex' d' He Hf. set (r' := with_search i s orig flags r) in *. destruct (di_req env _ _ _ _ _ H x r Hr) as (Hty & Hb & Hlen & Hp & _).
  assert (forall y, <[x := r']> (d_reqs d) !! y = if decide (y = x) then Some r' else d_reqs d !! y) as Hlk.
  { intros y. case_decide as Hd; [subst y; apply lookup_insert_eq|by rewrite lookup_insert_ne]. }
  destruct H. split; try assumption.
  - intros y. cbn. rewrite Hlk, <- di_reqs. case_decide as Hd; [subst y; rewrite Hr; split; by eexists|done].
  - intros y t. cbn. rewrite Hlk. case_decide as Hd.
    + subst y. intros [= <-]. split; [done|]. split; [done|]. split; [done|]. split; [done|]. intros Hsome. destruct (Hs Hsome) as (? & ? & Ho). split; [done|]. split; [done|].
      intros Hx%bool_decide_eq_false. by apply Ho.
    + intros Ht. destruct (di_req y t Ht) as (? & ? & ? & ? & Hsr). split; [done|]. split; [done|]. split; [done|]. split; [done|].
      intros Hsome. destruct (Hsr Hsome) as (? & ? & Ho). split; [done|]. split; [done|]. intros Hy%bool_decide_eq_false. apply Ho, bool_decide_eq_false. set_solver.
  - intros y t Hy. cbn. rewrite Hlk. case_decide as Hd; [|by apply di_fly]. subst y. intros [= <-]. exact (di_fly x r Hy Hr).
  - intros y t. cbn. rewrite Hlk. case_decide as Hd; [|apply di_timer]. subst y. intros [= <-]. exact (di_timer x r Hr).
  - intros Ha y t Hy Hnin. cbn. rewrite Hlk. case_decide as Hd; [|apply (di_alive Ha); [done|set_solver]]. subst y. intros [= <-].
    apply (di_alive Ha x r); [done|set_solver|done].
  - intros Ha Hm n sv Hn Hsv Hst. destruct (di_down Ha Hm n sv Hn Hsv Hst) as [?|(y & t & Hy & Ht)]; [by left|right].
    destruct (decide (y = x)) as [->|Hne]; [exists x, r'|exists y, t]; cbn; rewrite Hlk, ?decide_True, ?decide_False by done; (split; [done|]); [|done].
    change (user_callback r = nameserver_probe_callback n). congruence.
  - destruct di_fresh as (F1 & F2 & F3). split; [|by split]. intros y. cbn. rewrite Hlk. case_decide as Hd; [subst y; intros _; apply F1; by exists r|apply F1].
  - intros a. cbn. rewrite (msum_insert (owes a) _ x r r' Hr). unfold owes at 2 3. change (user_callback r') with (user_callback r). specialize (di_tally a). lia.
Qed.

Lemma refs_research d x r r' s e' : d_reqs d !! x = Some r ->
  refs (set_searches (fun _ => e') (set_reqs (insert x r') d)) s = refs d s - refers s r + refers s r'.
Proof. intros Hr. unfold refs. cbn. rewrite (msum_insert (refers s) _ x r r' Hr). lia. Qed.

(** A new request joins a search. *)
Lemma attach_ok nw ex exs extra d y r s i orig flags a : inv (y :: nw) ex exs extra d -> d_reqs d !! y = Some r -> cr_search r = None ->
  user_callback r = User a ->
  1 <= refs d s -> -1 <= i -> orig <> [] ->
  runs (attach_search y i s (Some orig) flags) d (fun _ d' => inv (y :: nw) ex exs extra d' /\ lasts d d' /\
    d_reqs d' = <[y := with_search i (Some s) (Some orig) flags r]> (d_reqs d) /\ d_servers d' = d_servers d).
Proof.
  intros H Hr Hnone Hcb Hs Hi Ho. destruct (search_exists _ _ _ _ _ _ H Hs) as (st & Hst & Hrc & Hnum). pose proof (inv_new_lookup env _ _ _ _ _ _ H) as Hy.
  unfold attach_search. run_step. eapply runs_update_req; [done|]. eapply runs_eq; [by apply update_search_ok|].
  set (st' := mkSearch (ss_refcount st + 1) (ndots st) (num_domains st) (ss_domains st)). set (r' := with_search i (Some s) (Some orig) flags r).
  split; [|split; [|by split]].
  - apply (inv_research (y :: nw) ex ex exs extra d y r i (Some s) (Some orig) flags (<[s := st']> (d_searches d)) H Hr); [..|].
    + intros _. split; [done|]. split; [by exists a|]. intros _. by exists orig.
    + done.
    + set_solver.
    + intros s2. rewrite (refs_research d y r _ s2 _ Hr). pose proof (di_search env _ _ _ _ _ H s2) as Hv. unfold refers. rewrite Hnone. cbn [cr_search with_search].
      rewrite (bool_decide_false (None = _)) by done. destruct (decide (s2 = s)) as [->|Hne].
      * rewrite lookup_insert_eq, bool_decide_true by done. cbn. rewrite Hrc. split; [lia|]. split; [lia|done].
      * rewrite lookup_insert_ne, bool_decide_false by congruence. cbn. by rewrite Z.sub_0_r, Z.add_0_r.
    + intros s2 Hs2. apply (di_fresh env _ _ _ _ _ H). destruct (decide (s2 = s)) as [->|Hne]; [by exists st|by rewrite lookup_insert_ne in Hs2].
  - split; [|done|done]. intros x t Hx Ht. split; [done|]. exists t. split; [|by repeat split]. cbn. rewrite lookup_insert_ne; [done|]. intros ->. contradiction.
Qed.

(** * Searches started and carried on *)

Lemma search_make_new_ok d st n name : name <> [] -> 0 <= n < num_domains st -> num_domains st = blen (ss_domains st) ->
  runs (search_make_new env st n name) d (fun _ d' => exists t, d' = set_tick t d).
Proof.
  intros Hne Hn Hnum. unfold search_make_new. destruct name as [|b name _] using rev_ind; [done|]. rewrite last_snoc. run_steps. zdecide.
  destruct (lookup_lt_is_Some_2 (ss_domains st) (Z.to_nat n)) as [dom Hdom]; [unfold blen in Hnum; lia|]. rewrite Hdom. run_steps.
  destruct (e_malloc env _); run_step; by exists (S (d_tick d)).
Qed.

(** What is owed when a call of the program returned [r]. *)
Definition owed (arg r : Z) : list Z := if r =? 0 then [arg] else [].

Lemma submit_plain nw ex exs extra d type cb y : made env nw ex exs extra d type cb (Some y) d ->
  runs (request_submit env y) d (fun _ d' => inv nw ex exs (args cb ++ extra) d' /\ lasts d d').
Proof.
  intros (H & _ & r & Hr & [_ _ Hf Hs]). apply (request_submit_ok env nw ex exs _ d y r); [done|done| |done].
  intros Hsome. rewrite Hs in Hsome. by destruct Hsome.
Qed.

(** The result of making and submitting a request. *)
Definition resolved ex exs extra d arg r d' : Prop := inv [] ex exs (owed arg r ++ extra) d' /\ lasts d d'.

Lemma submit_or_fail ex exs extra d0 d type arg o : lasts d0 d -> made env [] ex exs extra d0 type (User arg) o d ->
  runs (match o with None => mret 1 | Some x => request_submit env x;; mret 0 end) d (resolved ex exs extra d0 arg).
Proof.
  intros L Hm. destruct o as [y|].
  - destruct Hm as (H & K & Hr). run_step. eapply runs_mono; [apply (submit_plain [] ex exs extra d type (User arg) y); by split|].
    intros _ d2 [H2 L2]. run_step. split; [done|]. by transitivity d.
  - destruct Hm as [H K]. by run_step.
Qed.

Lemma plain_request_ok ex exs extra d type name arg : inv [] ex exs extra d -> known_type type ->
  runs (plain_request env type name arg) d (resolved ex exs extra d arg).
Proof.
  intros H Hty. unfold plain_request. run_step. eapply runs_mono; [by apply (request_new_ok env [] ex exs extra d type name (User arg))|].
  intros o d1 Hm. apply (submit_or_fail ex exs extra d d1 type arg o); [|done]. destruct o as [y|]; [destruct Hm as (_ & K & _)|destruct Hm as [_ K]]; by apply keeps_lasts.
Qed.

Lemma made_lasts ex exs extra d type cb o d' : made env [] ex exs extra d type cb o d' -> lasts d d'.
Proof. destruct o as [y|]; [intros (_ & K & _)|intros [_ K]]; by apply keeps_lasts. Qed.

(** The new request joins the search and is submitted. *)
Lemma attach_submit ex exs extra d0 d type arg y s i orig flags : lasts d0 d -> made env [] ex exs extra d type (User arg) (Some y) d ->
  1 <= refs d s -> -1 <= i -> orig <> [] ->
  runs (attach_search y i s (Some orig) flags;; request_submit env y;; mret 0) d (fun code d' => code = 0 /\ resolved ex exs extra d0 arg code d').
Proof.
  intros L (H & _ & r & Hr & [_ Hcb Hf Hs]) Hrefs Hi Ho. run_step. eapply runs_mono; [by apply (attach_ok [] ex exs (args (User arg) ++ extra) d y r s i orig flags arg)|].
  intros _ d2 (H2 & L2 & R2 & S2). run_step. eapply runs_mono; [eapply (request_submit_ok env [] ex exs (args (User arg) ++ extra) d2 y)|].
  - done.
  - rewrite R2. apply lookup_insert_eq.
  - intros _. by exists orig.
  - intros n Hn. destruct (Hf n Hn) as [Hid (n' & Hn' & Hsv)]. split; [done|]. exists n'. split; [done|]. by rewrite S2.
  - intros _ d3 [H3 L3]. run_step. split; [done|]. split; [done|]. transitivity d; [done|]. by transitivity d2.
Qed.

Lemma made_refl nw ex exs extra d type cb y d' : made env nw ex exs extra d type cb (Some y) d' -> made env nw ex exs extra d' type cb (Some y) d'.
Proof. intros (H & K & Hr). by split. Qed.

Lemma made_tick nw ex exs extra d type cb y t : made env nw ex exs extra d type cb (Some y) d ->
  made env nw ex exs extra (set_tick t d) type cb (Some y) (set_tick t d).
Proof. intros (H & K & r & Hr & []). split; [by apply inv_tick|]. split; [done|]. exists r. by split. Qed.

(** A request for the name a search begins with, to be attached to it. *)
Definition chosen ex exs extra d type arg s (m : option (Z * Z)) d' : Prop :=
  match m with
  | None => inv [] ex exs extra d' /\ lasts d d'
  | Some (y, i) => made env [] ex exs extra d' type (User arg) (Some y) d' /\ lasts d d' /\ -1 <= i /\ global_search_state d' = Some s
  end.

Lemma chosen_ok ex exs extra d d1 type name arg i s : inv [] ex exs extra d1 -> lasts d d1 -> known_type type -> -1 <= i ->
  global_search_state d1 = Some s ->
  runs (req ← request_new env type name (User arg); mret (option_map (fun x => (x, i)) req)) d1 (chosen ex exs extra d type arg s).
Proof.
  intros H L Hty Hi Hg. run_step. eapply runs_mono; [by apply (request_new_ok env [] ex exs extra d1 type name (User arg))|].
  intros o d2 Hm. run_step. destruct o as [y|]; cbn [option_map chosen].
  - pose proof Hm as (_ & K & _). split; [by eapply made_refl|]. split; [transitivity d1; [done|by apply keeps_lasts]|]. split; [done|].
    by rewrite (kp_global _ _ K).
  - destruct Hm as [? K]. split; [done|]. transitivity d1; [done|by apply keeps_lasts].
Qed.

Lemma search_request_new_ok ex exs extra d type name flags arg : inv [] ex exs extra d -> known_type type -> name <> [] ->
  runs (search_request_new env type name flags (User arg)) d (resolved ex exs extra d arg).
Proof.
  intros H Hty Hne. unfold search_request_new. run_steps.
  assert (runs (req ← request_new env type name (User arg); match req with None => mret 1 | Some x => request_submit env x;; mret 0 end) d
    (resolved ex exs extra d arg)) as Hplain.
  { by apply (plain_request_ok ex exs extra d type name arg). }
  apply (runs_mono _ _ (fun o d1 => d1 = d /\ (forall s st, o = Some (s, st) -> global_search_state d = Some s /\ d_searches d !! s = Some st /\ num_domains st = blen (ss_domains st)))).
  { destruct (global_search_state d) as [s|] eqn:Hg; [|by run_step]. destruct (search_exists _ _ _ _ _ _ H (refs_global d s Hg)) as (st & Hst & _ & Hnum).
    run_step. eapply runs_eq; [by apply load_search_ok|]. run_step. split; [done|]. by intros ? ? [= <- <-]. }
  intros o d1 [-> Ho]. destruct (_ =? 0); [|exact Hplain]. destruct o as [[s st]|]; [|exact Hplain]. destruct (Ho s st eq_refl) as (Hg & Hst & Hnum).
  destruct (Z.eqb_spec (num_domains st) 0) as [_|Hn0]; [exact Hplain|]. pose proof (refs_global d s Hg) as Hrefs.
  assert (0 < num_domains st) as Hpos by (pose proof (blen_nonneg (ss_domains st)); lia). run_step.
  eapply runs_mono.
  { destruct (_ >=? _); [by apply (chosen_ok ex exs extra d d type name arg (-1) s)|]. run_step.
    eapply runs_mono; [by apply (search_make_new_ok d st 0 name)|]. intros o d1 (t & ->). destruct o as [new_name|].
    - apply (chosen_ok ex exs extra d (set_tick t d) type new_name arg 0 s); try done; [by apply inv_tick|by apply keeps_lasts, keeps_tick].
    - run_step. split; [by apply inv_tick|by apply keeps_lasts, keeps_tick]. }
  intros m d2 Hm. destruct m as [[y i]|]; [|by run_step]. destruct Hm as (Hm & L & Hi & Hg2). do 2 run_step. rewrite (eo_text env).
  pose proof (made_tick _ _ _ _ _ _ _ _ (S (d_tick d2)) Hm) as Hm3. set (d3 := set_tick (S (d_tick d2)) d2) in *.
  eapply runs_mono; [apply (attach_submit ex exs extra d d3 type arg y s i name flags); [|done| |done|done]|].
  - transitivity d2; [done|by apply keeps_lasts, keeps_tick].
  - by apply refs_global.
  - by intros code d4 [_ Hres].
Qed.

(** * Calls of the program and of its callbacks *)

Lemma resolve_call_ok ex exs extra d a : inv [] ex exs extra d -> ask_ok a ->
  runs (resolve_call env a) d (resolved ex exs extra d (ask_arg a)).
Proof.
  intros H Ha.
  assert (forall type name flags arg, known_type type -> name <> [] -> runs (resolve_name env type name flags arg) d (resolved ex exs extra d arg)) as Hname.
  { intros type name flags arg Hty Hne. unfold resolve_name. destruct (negb _); [by apply plain_request_ok|by apply search_request_new_ok]. }
  destruct a; cbn in Ha |- *; [apply Hname|apply Hname|apply plain_request_ok|apply plain_request_ok]; unfold known_type; tauto.
Qed.

Lemma inv_log nw ex exs extra extra' d e : inv nw ex exs extra d ->
  (forall a, Z.b2z (accepted a e) + tally (Z.eqb a) extra' = Z.b2z (called a e) + tally (Z.eqb a) extra) ->
  inv nw ex exs extra' (set_log (fun l => l ++ [e]) d).
Proof.
  intros H He. pose proof (di_tally env _ _ _ _ _ H) as Ht. destruct H. split; try assumption. intros a. specialize (He a). specialize (Ht a). cbn.
  rewrite !tally_app, !tally_cons. unfold tally at 2 5. cbn. lia.
Qed.

Lemma lasts_log d f : lasts d (set_log f d).
Proof. split; [|done|done]. intros x r Hx Hr. split; [done|]. by exists r. Qed.

Lemma resolve_ok ex exs extra d a : inv [] ex exs extra d -> ask_ok a ->
  runs (resolve env a) d (fun _ d' => inv [] ex exs extra d' /\ lasts d d').
Proof.
  intros H Ha. unfold resolve. run_step. eapply runs_mono; [by apply (resolve_call_ok ex exs extra)|]. intros r d1 [H1 L1]. run_step.
  split; [|transitivity d1; [done|apply lasts_log]]. apply (inv_log _ _ _ _ _ _ _ H1). intros b. unfold owed. cbn.
  destruct (r =? 0); [|by rewrite andb_false_r]. cbn. rewrite tally_cons, andb_true_r, (Z.eqb_sym b). lia.
Qed.

Lemma resolve_all_ok l : forall ex exs extra d, inv [] ex exs extra d -> Forall ask_ok l ->
  runs (resolve_all env l) d (fun _ d' => inv [] ex exs extra d' /\ lasts d d').
Proof.
  induction l as [|a l IH]; intros ex exs extra d H Hl; cbn [resolve_all]; [by run_step|]. apply Forall_cons in Hl as [Ha Hl]. run_step.
  eapply runs_mono; [by apply (resolve_ok ex exs extra d a)|]. intros _ d1 [H1 L1]. eapply runs_mono; [by apply (IH ex exs extra d1)|].
  intros _ d2 [H2 L2]. split; [done|]. by transitivity d1.
Qed.

(** The callback of a request was called: an argument is owed a request, a probed
    server is settled. *)
Lemma call_back_ok ex exs extra d cb a : inv [] ex exs extra d -> (forall n, cb = nameserver_probe_callback n -> is_Some (d_servers d !! n)) ->
  runs (call_back env cb a) d (fun _ d' => inv [] ex exs (args cb ++ extra) d' /\ lasts d d' /\
    forall n, cb = nameserver_probe_callback n -> settled env d' n).
Proof.
  intros H Hcb. destruct cb as [arg|n]; cbn [call_back args app].
  - run_steps. eapply runs_mono; [apply (resolve_all_ok _ ex exs (arg :: extra) _ (inv_log _ _ _ _ (arg :: extra) _ (Calling arg a) H ltac:(intros b; cbn; rewrite tally_cons, (Z.eqb_sym b); lia)) (eo_user env arg a))|].
    intros _ d1 [H1 L1]. split; [done|]. split; [|done]. etransitivity; [apply lasts_log|done].
  - specialize (Hcb n eq_refl). destruct (_ || _).
    + eapply runs_mono; [by apply (nameserver_up_ok env [] ex exs extra d n)|]. intros _ d1 (H1 & K1 & (s & Hs & Hst) & _ & _). split; [done|].
      split; [by apply keeps_lasts|]. intros ? [= <-] _ s' Hs' Hdown. congruence.
    + eapply runs_mono; [by apply (nameserver_probe_failed_ok env [] ex exs extra d n)|]. intros _ d1 (H1 & K1 & Hset & _). split; [done|].
      split; [by apply keeps_lasts|]. by intros ? [= <-].
Qed.

Lemma reply_callback_ok ex exs extra d x r ttl err rp : inv [] ex exs extra d -> d_reqs d !! x = Some r ->
  runs (reply_callback env x ttl err rp) d (fun _ d' => inv [] ex exs (args (user_callback r) ++ extra) d' /\ lasts d d' /\
    forall n, user_callback r = nameserver_probe_callback n -> settled env d' n).
Proof.
  intros H Hr. destruct (di_req env _ _ _ _ _ H x r Hr) as (Hty & _ & _ & Hp & _). unfold reply_callback. run_step. eapply runs_load_req; [done|].
  run_step. assert (exists a, reply_answer (rq_type (cr_msg r)) ttl err rp = Ok a) as [a Ha].
  { unfold reply_answer. destruct Hty as [-> | [-> | ->]]; cbn; by eexists. }
  rewrite Ha. run_step. by apply call_back_ok.
Qed.

(** * The next name of a search *)

(** After an attempt to go on with a search: with code 0 another request owes the
    callback, and this one is to be finished. *)
Definition tried exs extra d x (r : client_request) (code : Z) d' : Prop :=
  exists ex' r', ex' ⊆ [x] /\ inv [] ex' exs ((if code =? 0 then args (user_callback r) else []) ++ extra) d' /\
    x ∈ req_head d' /\ d_reqs d' !! x = Some r' /\ user_callback r' = user_callback r /\ (code <> 0 -> ex' = []) /\
    (forall n, is_Some (d_servers d !! n) -> is_Some (d_servers d' !! n)).

Lemma tried_lasts ex' exs extra d d1 x r r1 code d2 : ex' ⊆ [x] -> (code <> 0 -> ex' = []) ->
  inv [] ex' exs ((if code =? 0 then args (user_callback r) else []) ++ extra) d2 -> lasts d1 d2 -> x ∈ req_head d1 ->
  d_reqs d1 !! x = Some r1 -> user_callback r1 = user_callback r -> d_servers d1 = d_servers d -> tried exs extra d x r code d2.
Proof.
  intros Hex Hcode H L Hx Hr Hc Hs. destruct (la_reqs _ _ L x r1 Hx Hr) as [Hx2 (r2 & Hr2 & (_ & Ec & _))]. exists ex', r2.
  split; [done|]. split; [done|]. split; [done|]. split; [done|]. split; [congruence|]. split; [done|]. intros n Hn. apply (la_servers _ _ L). by rewrite Hs.
Qed.

(** What a request keeps of its search while the next name is tried. *)
Lemma inv_search_index nw exs extra d x r s i orig flags ex' : inv nw [] exs extra d -> d_reqs d !! x = Some r -> cr_search r = Some s ->
  -1 <= i -> ex' ⊆ [x] -> (x ∉ ex' -> exists o, orig = Some o /\ o <> []) ->
  inv nw ex' exs extra (set_reqs (insert x (with_search i (Some s) orig flags r)) d).
Proof.
  intros H Hr Hs Hi Hex Ho. destruct (di_req env _ _ _ _ _ H x r Hr) as (_ & _ & _ & _ & Hsr). destruct Hsr as (_ & Hu & _); [by rewrite Hs|].
  apply (inv_research nw [] ex' exs extra d x r i (Some s) orig flags (d_searches d)); [done|done|done|set_solver|done| |].
  - intros s2. rewrite (refs_research d x r _ s2 _ Hr). replace (refs d s2 - refers s2 r + _) with (refs d s2); [apply (di_search env _ _ _ _ _ H)|].
    unfold refers. cbn [cr_search with_search]. rewrite Hs. lia.
  - apply (di_fresh env _ _ _ _ _ H).
Qed.

Lemma search_try_next_ok exs extra d x r s : inv [] [] exs extra d -> x ∈ req_head d -> d_reqs d !! x = Some r -> cr_search r = Some s ->
  runs (search_try_next env x) d (tried exs extra d x r).
Proof.
  intros H Hx Hr Hs. unfold search_try_next. run_step. eapply runs_load_req; [done|]. rewrite Hs. run_step. eapply runs_update_req; [done|].
  destruct (di_req env _ _ _ _ _ H x r Hr) as (Hty & _ & _ & _ & Hsr). destruct Hsr as (Hi & (arg & Hcb) & Ho); [by rewrite Hs|].
  destruct (Ho (bool_decide_eq_false_2 _ (not_elem_of_nil x))) as (orig & Horig & Hne). clear Ho.
  set (i := search_index r + 1). set (r1 := with_search i (Some s) (search_origname r) (search_flags r) r). set (d1 := set_reqs (insert x r1) d).
  assert (d_reqs d1 !! x = Some r1) as Hr1 by apply lookup_insert_eq.
  assert (inv [] [] exs extra d1) as H1 by (apply (inv_search_index [] exs extra d x r s); [done|done|done|lia|set_solver|intros _; by exists orig]).
  pose proof (refs_of_request d1 x r1 s Hr1 eq_refl) as Hrefs. destruct (search_exists _ _ _ _ _ s H1 Hrefs) as (st & Hst & _ & Hnum).
  run_step. eapply runs_eq; [by apply load_search_ok|]. rewrite Horig. do 2 run_step.
  assert (forall d2, inv [] [] exs extra d2 -> lasts d1 d2 -> tried exs extra d x r 1 d2) as Hstop.
  { intros d2 H2 L2. apply (tried_lasts [] exs extra d d1 x r r1); try done. set_solver. }
  rewrite Hcb. destruct (_ >=? _) eqn:Hge.
  { destruct (_ <? _); [|run_step; by apply Hstop]. run_step. eapply runs_mono; [by apply (request_new_ok env [] [] exs extra d1 _ orig (User arg))|].
    intros o d2 Hm. destruct o as [y|]; [|run_step; destruct Hm as [H2 K2]; by apply Hstop, keeps_lasts].
    pose proof (made_lasts _ _ _ _ _ _ _ _ Hm) as L2. run_step. eapply runs_mono; [eapply (submit_plain [] [] exs extra d2 (rq_type (cr_msg r)) (User arg) y), made_refl, Hm|].
    intros _ d3 [H3 L3]. run_step. apply (tried_lasts [] exs extra d d1 x r r1); try done; [set_solver|by rewrite Hcb|by transitivity d2]. }
  rewrite Z.geb_leb in Hge. apply Z.leb_gt in Hge.
  run_step. eapply runs_mono; [apply (search_make_new_ok d1 st i orig); [done|lia|done]|]. intros o d2 (t & ->).
  pose proof (inv_tick env _ _ _ _ _ t H1) as H2. set (d2 := set_tick t d1) in *. assert (lasts d1 d2) as L2 by by apply keeps_lasts, keeps_tick.
  destruct o as [new_name|]; [|run_step; by apply Hstop]. run_step. eapply runs_mono; [by apply (request_new_ok env [] [] exs extra d2 _ new_name (User arg))|].
  intros o d3 Hm. destruct o as [y|]; [|run_step; destruct Hm as [H3 K3]; apply Hstop; [done|transitivity d2; [done|by apply keeps_lasts]]].
  pose proof Hm as (H3 & K3 & ry & Hry & [Nt Nc Nf Ns]). assert (lasts d1 d3) as L3 by (transitivity d2; [done|by apply keeps_lasts]).
  destruct (kp_reqs _ _ K3 x r1 Hr1) as (r3 & Hr3 & A3). pose proof A3 as (_ & Ec3 & Ei3 & Es3 & Eo3 & Ef3). run_step. eapply runs_update_req; [done|].
  set (r4 := with_search i (Some s) None (search_flags r) r3). set (d4 := set_reqs (insert x r4) d3). assert (y <> x) as Hyx.
  { intros ->. apply (inv_new_lookup env _ _ _ _ _ _ H3). by rewrite (kp_head _ _ K3). }
  assert (inv [y] [x] exs (args (User arg) ++ extra) d4) as H4.
  { apply (inv_search_index [y] exs _ d3 x r3 s); [done|done|by rewrite Es3|lia|done|intros Hnin; exfalso; apply Hnin; left]. }
  assert (d_reqs d4 !! x = Some r4) as Hr4 by apply lookup_insert_eq.
  assert (made env [] [x] exs extra d4 (rq_type (cr_msg r)) (User arg) (Some y) d4) as Hm4.
  { split; [done|]. split; [done|]. exists ry. split; [cbn; by rewrite lookup_insert_ne|]. by split. }
  assert (x ∈ req_head d3) as Hx3 by (by rewrite (kp_head _ _ K3)).
  eapply runs_mono; [apply (attach_submit [x] exs extra d4 d4 (rq_type (cr_msg r)) arg y s i orig (search_flags r)); [done|done| |lia|done]|].
  - by apply (refs_of_request d4 x r4).
  - intros code d5 (-> & H5 & L5). destruct (la_reqs _ _ L5 x r4 Hx3 Hr4) as [Hx5 (r5 & Hr5 & (_ & Ec5 & _))]. exists [x], r5.
    split; [done|]. split; [by rewrite Hcb|]. split; [done|]. split; [done|]. split; [|split; [done|]].
    + rewrite Ec5. change (user_callback r3 = user_callback r). exact Ec3.
    + intros n Hn. apply (la_servers _ _ L5). change (is_Some (d_servers d3 !! n)). by apply (la_servers _ _ L3).
Qed.
End Search.
