(* ===== verification/DnsFinish.v ===== *)
(** How DNS requests end: replies, errors, time-outs, and the events that bring
    them. *)
From S2P Require Import Prelude.
From S2P Require Import Dns DnsName DnsReply DnsProps DnsClient DnsQueue DnsServers DnsLife DnsSearch.

Implicit Types (d : dns) (nw ex exs extra : list Z) (name : list byte).

(** Servers that existed still do. *)
Definition serves d d' : Prop := forall n, is_Some (d_servers d !! n) -> is_Some (d_servers d' !! n).

#[export] Instance serves_refl : Reflexive serves.
Proof. by intros d n. Qed.

#[export] Instance serves_trans : Transitive serves.
Proof. intros d1 d2 d3 H1 H2 n Hn. by apply H2, H1. Qed.

Lemma lasts_serves d d' : lasts d d' -> serves d d'.
Proof. by intros []. Qed.

Lemma keeps_serves d d' : keeps d d' -> serves d d'.
Proof. by intros []. Qed.

Section Finish.
Context (env : denv) `{Henv : !DnsEnvOk env}.

Abbreviation inv := (dns_inv env).

(** * A request leaves *)

Lemma without_id x l : x ∉ l -> without x l = l.
Proof.
  induction l as [|y l IH]; [done|]. intros [Hne Hl]%not_elem_of_cons. unfold without. rewrite filter_cons, decide_True by congruence.
  f_equal. by apply IH.
Qed.

Lemma without_perm x l : NoDup l -> x ∈ l -> l ≡ₚ x :: without x l.
Proof.
  induction l as [|y l IH]; intros Hnd Hx; [by apply not_elem_of_nil in Hx|]. apply NoDup_cons in Hnd as [Hnin Hnd]. unfold without. rewrite filter_cons.
  destruct (decide (y = x)) as [->|Hne].
  - rewrite decide_False by tauto. change (filter _ l) with (without x l). by rewrite without_id.
  - rewrite decide_True by done. apply elem_of_cons in Hx as [Hx|Hx]; [congruence|]. change (filter _ l) with (without x l).
    rewrite (IH Hnd Hx) at 1. apply perm_swap.
Qed.

(** The state after a request was taken from those in flight and released. *)
Definition finished d x (r : client_request) : dns :=
  mkDns (d_tick d) (d_fresh d) (d_log d) (delete x (d_reqs d)) (d_servers d)
    (match cr_search r with Some s => decref s (d_searches d) | None => d_searches d end)
    (without x (req_head d)) (req_waiting_head d) (server_head d) (global_good_nameservers d) (global_requests_inflight d - 1)
    (global_requests_waiting d) (d_opts d) (global_search_state d).

Lemma inv_finished ex exs extra d x r : inv [] ex exs (args (user_callback r) ++ extra) d -> x ∈ req_head d -> d_reqs d !! x = Some r ->
  ex ⊆ [x] -> (forall n, user_callback r = nameserver_probe_callback n -> settled env d n) ->
  inv [] [] exs extra (finished d x r).
Proof.
  intros H Hx Hr Hex Hset. pose proof H as H0. pose proof (di_lists env _ _ _ _ _ H) as Hnd. cbn [app] in Hnd.
  assert (NoDup (req_head d)) as Hndh by (apply NoDup_app in Hnd; tauto). pose proof (without_perm x (req_head d) Hndh Hx) as Hperm.
  assert (forall y, y ∈ without x (req_head d) <-> y ∈ req_head d /\ y <> x) as Hwo.
  { intros y. unfold without. rewrite list_elem_of_filter. tauto. }
  assert (x ∉ req_waiting_head d) as Hxw. { intros Hin. apply NoDup_app in Hnd as (_ & Hdis & _). exact (Hdis x Hx Hin). }
  assert (forall y t, delete x (d_reqs d) !! y = Some t -> y <> x /\ d_reqs d !! y = Some t) as Hlk by (intros y t Ht; apply lookup_delete_Some in Ht as [? ?]; by split).
  destruct H. split; cbn [finished d_tick d_fresh d_log d_reqs d_servers d_searches req_head req_waiting_head server_head global_good_nameservers global_requests_inflight global_requests_waiting d_opts global_search_state].
  - rewrite Hperm in Hnd. cbn in Hnd. by apply NoDup_cons in Hnd as [_ Hnd].
  - intros y. destruct (decide (y = x)) as [->|Hne].
    + rewrite lookup_delete_eq. split; [intros Hs; by destruct Hs|]. cbn. rewrite elem_of_app, Hwo. tauto.
    + rewrite lookup_delete_ne, di_reqs by done. cbn. rewrite !elem_of_app, Hwo. tauto.
  - rewrite di_inflight. apply Permutation_length in Hperm. unfold blen. rewrite Hperm. cbn. lia.
  - done.
  - done.
  - done.
  - done.
  - done.
  - intros y t [Hne Ht]%Hlk. destruct (di_req y t Ht) as (? & ? & ? & ? & Hs). split; [done|]. split; [done|]. split; [done|]. split; [done|].
    intros Hsome. destruct (Hs Hsome) as (? & ? & Ho). split; [done|]. split; [done|]. intros _. apply Ho, bool_decide_eq_false. set_solver.
  - intros y t [Hy _]%Hwo [_ Ht]%Hlk. by apply (di_fly y t).
  - intros y t [Hne Ht]%Hlk Htm. apply Hwo. split; [by apply (di_timer y t)|done].
  - intros Ha y t [Hy _]%Hwo _ [Hne Ht]%Hlk. apply (di_alive Ha y t); [done|set_solver|done].
  - intros Ha Hm n s Hn Hs Hst. destruct (di_down Ha Hm n s Hn Hs Hst) as [?|(y & t & Hy & Ht)]; [by left|]. destruct (decide (y = x)) as [->|Hne].
    + left. assert (user_callback r = nameserver_probe_callback n) as Hcb by congruence. exact (Hset n Hcb Ha s Hs Hst).
    + right. exists y, t. split; [|done]. cbn. by rewrite lookup_delete_ne.
  - assert (forall s, refs (finished d x r) s = refs d s - refers s r) as Href.
    { intros s. unfold refs. cbn. rewrite (msum_delete (refers s) _ x r Hr). lia. }
    destruct (cr_search r) as [s0|] eqn:Hs0.
    + apply (decref_val (refs d)); [done| | |].
      * rewrite Href. unfold refers. rewrite Hs0, bool_decide_true by done. done.
      * intros s Hne. rewrite Href. unfold refers. rewrite Hs0, bool_decide_false by congruence. cbn. lia.
      * pose proof (refs_of_request d x r s0 Hr Hs0). lia.
    + intros s. rewrite Href. unfold refers. rewrite Hs0, bool_decide_false by done. rewrite Z.sub_0_r. apply di_search.
  - destruct di_fresh as (F1 & F2 & F3). split; [|split; [done|]].
    + intros y [t [_ Ht]%Hlk]. apply F1. by exists t.
    + intros s Hs. apply F3. destruct (cr_search r) as [s0|] eqn:Hs0; [|done].
      apply (decref_val (refs d) (fun s => refs d s - refers s r) (d_searches d) s0); try done.
      * unfold refers. rewrite Hs0, bool_decide_true by done. done.
      * intros s' Hne. unfold refers. rewrite Hs0, bool_decide_false by congruence. cbn. lia.
      * pose proof (refs_of_request d x r s0 Hr Hs0). lia.
  - intros a. rewrite (msum_delete (owes a) _ x r Hr). specialize (di_tally a). rewrite tally_app, <- owes_args in di_tally. lia.
Qed.

Lemma request_finished_ok ex exs extra d x r : inv [] ex exs (args (user_callback r) ++ extra) d -> x ∈ req_head d -> d_reqs d !! x = Some r ->
  ex ⊆ [x] -> (forall n, user_callback r = nameserver_probe_callback n -> settled env d n) ->
  runs (request_finished env x Inflight) d (fun _ d' => inv [] [] exs extra d' /\ lasts (finished d x r) d').
Proof.
  intros H Hx Hr Hex Hset. pose proof (inv_finished ex exs extra d x r H Hx Hr Hex Hset) as H1.
  unfold request_finished, queue_remove, search_request_finished. run_step. eapply runs_load_req; [done|]. do 3 run_step. rewrite decide_True by done.
  do 3 run_step. run_step. eapply runs_update_req; [exact Hr|]. set (d1 := set_reqs _ (set_req_head _ _ d)). do 2 run_step. eapply runs_load_req; [apply lookup_insert_eq|]. cbn [cr_search with_timer].
  run_step. apply (runs_mono _ _ (fun _ d2 => d2 = set_searches (fun e => match cr_search r with Some s => decref s e | None => e end) d1)).
  { destruct (cr_search r) as [s|] eqn:Hs; [|by run_step].
    destruct (search_exists env _ _ _ _ d s H (refs_of_request d x r s Hr Hs)) as (st & Hst & _). by apply (decref_runs d1 s st). }
  intros _ d2 ->. eapply runs_update_req; [apply lookup_insert_eq|]. run_steps. unfold evdns_requests_pump_waiting_queue. run_steps.
  match goal with |- runs _ ?D _ => assert (D = finished d x r) as -> end.
  { unfold finished. rewrite <- (delete_insert_eq (d_reqs d) x (with_timer None r)).
    rewrite <- (delete_insert_eq (<[x := with_timer None r]> (d_reqs d)) x (with_search (search_index r) None None (search_flags r) (with_timer None r))). reflexivity. }
  apply (pump_loop_ok env _ exs extra (finished d x r)); [apply Nat.lt_succ_diag_r|done|]. left. destruct (di_fly env _ _ _ _ _ H x r Hx Hr) as (_ & n & _ & Hn). apply (di_servers env _ _ _ _ _ H) in Hn.
  change (server_head d <> []). intros He. rewrite He in Hn. by apply not_elem_of_nil in Hn.
Qed.

(** The callback of a request is called, and the request finished. *)
Lemma callback_finish ex exs extra d x r ttl err rp : inv [] ex exs extra d -> x ∈ req_head d -> d_reqs d !! x = Some r -> ex ⊆ [x] ->
  runs (reply_callback env x ttl err rp;; request_finished env x Inflight) d (fun _ d' => inv [] [] exs extra d' /\ serves d d').
Proof.
  intros H Hx Hr Hex. run_step. eapply runs_mono; [by apply (reply_callback_ok env ex exs extra d x r)|]. intros _ d1 (H1 & L1 & Hset).
  destruct (la_reqs _ _ L1 x r Hx Hr) as [Hx1 (r1 & Hr1 & (_ & Ec & _))]. eapply runs_mono.
  - apply (request_finished_ok ex exs extra d1 x r1); [by rewrite Ec|done|done|done|]. intros n. rewrite Ec. apply Hset.
  - intros _ d2 [H2 L2]. split; [done|]. intros n Hn. apply (la_servers _ _ L2). change (is_Some (d_servers d1 !! n)). by apply (la_servers _ _ L1).
Qed.

(** * Replies *)

Lemma pass_failure_ok exs extra d x r err : inv [] [] exs extra d -> x ∈ req_head d -> d_reqs d !! x = Some r ->
  runs (pass_failure env x err) d (fun _ d' => inv [] [] exs extra d' /\ serves d d').
Proof.
  intros H Hx Hr. unfold pass_failure. run_step. eapply runs_load_req; [done|]. run_step.
  apply (runs_mono _ _ (fun code d1 => tried env exs extra d x r code d1 /\ (code = 0 -> is_Some (cr_search r)))).
  - destruct (_ && _) eqn:Hs.
    + apply andb_true_iff in Hs as [[s Hs]%bool_decide_eq_true _]. eapply runs_mono; [by apply (search_try_next_ok env exs extra d x r s)|].
      intros code d1 Ht. split; [done|]. intros _. by exists s.
    + run_step. split; [|done]. exists [], r. split; [set_solver|]. split; [exact H|]. split; [done|]. split; [done|]. split; [done|]. split; [done|by intros n].
  - intros code d1 [(ex' & r1 & Hex & H1 & Hx1 & Hr1 & Ec & Hz & Hs) Hsr]. destruct (Z.eqb_spec code 0) as [->|Hne].
    + destruct (di_req env _ _ _ _ _ H x r Hr) as (_ & _ & _ & _ & Hu). destruct (Hu (Hsr eq_refl)) as (_ & (a & Ha) & _).
      eapply runs_mono; [apply (request_finished_ok ex' exs extra d1 x r1); [by rewrite Ec|done|done|done|congruence]|].
      intros _ d2 [H2 L2]. split; [done|]. intros n Hn. apply (la_servers _ _ L2). change (is_Some (d_servers d1 !! n)). by apply Hs.
    + eapply runs_mono; [apply (callback_finish ex' exs extra d1 x r1); [done|done|done|]|].
      * exact Hex.
      * intros _ d2 [H2 S2]. split; [done|]. intros n Hn. by apply S2, Hs.
Qed.

Lemma request_reissue_ok exs extra d x : inv [] [] exs extra d -> x ∈ req_head d ->
  runs (request_reissue x) d (fun _ d' => inv [] [] exs extra d' /\ keeps d d').
Proof.
  intros H Hx. destruct (inv_flight env _ _ _ _ _ x H Hx) as (r & Hr & _ & n0 & _ & Hn0). unfold request_reissue.
  run_step. eapply runs_load_req; [done|]. run_step. eapply runs_mono; [by apply pick_inv|]. intros o d1 (H1 & K1 & (l & ->) & Ho).
  destruct o as [n|].
  2:{ exfalso. apply (di_servers env _ _ _ _ _ H) in Hn0. rewrite Ho in Hn0. by apply not_elem_of_nil in Hn0. }
  run_step. eapply runs_update_req; [done|]. set (d1 := set_server_head l d) in *.
  destruct (inv_with_ns env [] [] exs extra d1 x r n H1 Hx Hr Ho) as [H2 K2]. set (d2 := set_reqs (insert x (with_ns (Some n) r)) d1) in *.
  case_bool_decide as Hsame; [run_step; split; [done|by transitivity d1]|]. run_step. eapply runs_update_req; [apply lookup_insert_eq|]. run_step.
  set (r2 := with_ns (Some n) r). set (r3 := (with_transmit true ∘ with_counts (reissue_count r + 1) 0) r2).
  assert (d_reqs d2 !! x = Some r2) as Hr2 by apply lookup_insert_eq. assert (alike r2 r3) as A3 by by repeat split.
  destruct (inv_alive env [] [] exs extra d2 x r2 r3) as [H3 K3]; try done.
  - apply (inv_weaken env [] []); [done|set_solver].
  - by apply (inv_tight env [] [] exs extra d2 x r2 H2 (not_elem_of_nil x)).
  - intros Ha. destruct (di_alive env _ _ _ _ _ H2 Ha x r2 Hx (not_elem_of_nil x) Hr2) as [?|[_ ?]]; [by left|by right].
  - split; [done|]. transitivity d1; [done|]. by transitivity d2.
Qed.

Lemma reply_handle_ok exs extra d x flags ttl rp : inv [] [] exs extra d -> x ∈ req_head d ->
  runs (reply_handle env x flags ttl rp) d (fun _ d' => inv [] [] exs extra d' /\ serves d d').
Proof.
  intros H Hx. destruct (inv_flight env _ _ _ _ _ x H Hx) as (r & Hr & _ & n & Hn & Hs). unfold reply_handle, server_of. destruct (_ || _).
  - run_step. eapply runs_load_req; [done|]. run_step. rewrite Hn. cbn [of_option].
    apply (runs_mono _ _ (fun done d1 => inv [] [] exs extra d1 /\ keeps d d1)).
    + destruct (_ || _); [|destruct (_ =? _); [by run_step|]].
      * do 2 run_step. destruct (_ <? _); [|by run_step]. do 2 run_step. run_step. eapply runs_mono; [by apply (nameserver_failed_ok env [] [] exs extra d n)|].
        intros _ d1 (H1 & K1 & E1). run_step. eapply runs_mono; [apply (request_reissue_ok exs extra d1 x H1); by rewrite E1|]. intros code d2 [H2 K2].
        run_step. split; [done|by transitivity d1].
      * do 3 run_step. eapply runs_mono; [by apply (nameserver_up_ok env [] [] exs extra d n)|]. intros _ d1 (H1 & K1 & _). by run_step.
    + intros b d1 [H1 K1]. destruct b; [run_step; split; [done|]; by apply keeps_serves|].
      destruct (kp_reqs _ _ K1 x r Hr) as (r1 & Hr1 & _). eapply runs_mono; [apply (pass_failure_ok exs extra d1 x r1 _ H1); [by rewrite (kp_head _ _ K1)|done]|].
      intros _ d2 [H2 S2]. split; [done|]. intros y Hy. apply S2. by apply (kp_servers _ _ K1).
  - run_step. eapply runs_mono; [by apply (reply_callback_ok env [] exs extra d x r)|]. intros _ d1 (H1 & L1 & Hset).
    destruct (la_reqs _ _ L1 x r Hx Hr) as [Hx1 (r1 & Hr1 & (_ & Ec & _))]. destruct (di_fly env _ _ _ _ _ H1 x r1 Hx1 Hr1) as (_ & n1 & Hn1 & Hs1).
    run_step. eapply runs_load_req; [done|]. rewrite Hn1. cbn [of_option]. do 2 run_step. run_step.
    eapply runs_mono; [by apply (nameserver_up_ok env [] [] exs (args (user_callback r) ++ extra) d1 n1)|]. intros _ d2 (H2 & K2 & _ & R2 & S2). eapply runs_mono.
    + apply (request_finished_ok [] exs extra d2 x r1); [by rewrite Ec|by rewrite (kp_head _ _ K2)|by rewrite R2|set_solver|]. intros y. rewrite Ec. intros Hy. by apply S2, Hset.
    + intros _ d3 [H3 L3]. split; [done|]. intros y Hy. apply (la_servers _ _ L3). change (is_Some (d_servers d2 !! y)). apply (kp_servers _ _ K2). by apply (la_servers _ _ L1).
Qed.
End Finish.
