(* ===== verification/DnsEvents.v ===== *)
(** The events of the DNS client: datagrams, time-outs, probes, and the calls
    that change servers and searches. *)
From S2P Require Import Prelude.
From S2P Require Import Dns DnsName DnsReply DnsProps DnsClient DnsQueue DnsServers DnsLife DnsSearch DnsFinish.

Implicit Types (d : dns) (nw ex exs extra : list Z) (name : list byte) (m : list cell).

Section Events.
Context (env : denv) `{Henv : !DnsEnvOk env}.

Abbreviation inv := (dns_inv env).

(** * Datagrams *)

Lemma reply_parse_handled host reqs packet len req flags ttl rp :
  reply_parse host reqs packet len = Ok (Handle req flags ttl rp) -> req ∈ reqs.
Proof.
  unfold reply_parse. destruct (read_header packet len) as [h|]; [|done]. rewrite bind_Ok. destruct h as [[[[[id fl] nq] na] j]| |]; [|done..].
  destruct (request_find_from_trans_id reqs id) as [q|] eqn:Hfind; [|done]. intros H.
  assert (req = q) as ->; [|by apply find_some in Hfind as [Hin _]; apply list_elem_of_In].
  destruct (_ =? 0); [done|]. destruct (negb _); [by injection H|].
  match type of H with (?c ≫= _) = _ => destruct c as [[[? ?]| |]|] end; by inversion H.
Qed.

Lemma messages_ok l : forall d, (forall x, x ∈ l -> exists r, d_reqs d !! x = Some r /\ built (cr_msg r)) ->
  runs (messages l) d (fun ms d' => d' = d /\ Forall built ms /\ forall q, q ∈ ms -> exists x r, x ∈ l /\ d_reqs d !! x = Some r /\ cr_msg r = q).
Proof.
  induction l as [|x l IH]; intros d Hl; cbn [messages].
  { run_step. split; [done|]. split; [constructor|]. intros q Hq. by apply not_elem_of_nil in Hq. }
  destruct (Hl x) as (r & Hr & Hb); [left|]. run_step. eapply runs_load_req; [done|]. run_step. eapply runs_mono; [apply IH; intros y Hy; apply Hl; by right|].
  intros ms d' (-> & Hms & Hin). run_step. split; [done|]. split; [by constructor|]. intros q [->|Hq]%elem_of_cons.
  - exists x, r. split; [left|done].
  - destruct (Hin q Hq) as (y & t & Hy & Ht). exists y, t. split; [by right|done].
Qed.

Lemma receive_reply_ok exs extra d m rest : inv [] [] exs extra d -> received m -> 63 <= blen rest ->
  runs (receive_reply env (m ++ rest) (blen m)) d (fun _ d' => inv [] [] exs extra d' /\ serves d d').
Proof.
  intros H Hm Hrest. unfold receive_reply. do 3 run_step. eapply runs_mono; [apply messages_ok|].
  { intros x Hx. destruct (inv_flight env _ _ _ _ _ x H Hx) as (r & Hr & _). exists r. split; [done|]. by destruct (di_req env _ _ _ _ _ H x r Hr) as (_ & ? & _). }
  intros ms d' (-> & Hms & Hin). run_step. destruct (reply_parse_any (e_host_name_max env) ms m rest Hm (eo_host env) Hms) as [[act Hact]|[_ ?]]; [|lia].
  rewrite Hact. run_step. destruct act as [|q flags ttl rp]; [by run_step|]. apply reply_parse_handled in Hact. destruct (Hin q Hact) as (x & r & Hx & Hr & Hq).
  run_step. eapply runs_mono; [apply find_id_ok; intros y Hy; destruct (inv_flight env _ _ _ _ _ y H Hy) as (t & Ht & _); by exists t|].
  intros o d' [-> Ho]. destruct o as [y|]; [|exfalso; apply (Ho x r Hx Hr); by rewrite Hq]. do 2 run_step. destruct Ho as [Hy _]. by apply reply_handle_ok.
Qed.

(** A datagram that fits before the last 63 bytes of the packet buffer. *)
Definition recv_ok (r : received_from) : Prop := match r with Datagram _ bytes => blen bytes <= 1437 | ReadError => True end.

Lemma with_state_ok s failed timed : server_ok env s -> 0 <= failed -> server_ok env (with_state (ns_state s) failed timed s).
Proof. intros (? & ? & ? & ?) ?. by split. Qed.

Lemma read_loop_ok rs : forall exs extra d n packet, inv [] [] exs extra d -> is_Some (d_servers d !! n) -> blen packet = 1500 -> Forall recv_ok rs ->
  runs (read_loop env n packet rs) d (fun _ d' => inv [] [] exs extra d' /\ serves d d').
Proof.
  induction rs as [|r rs IH]; intros exs extra d n packet H Hn Hp Hrs; cbn [read_loop]; [by run_step|]. apply Forall_cons in Hrs as [Hr Hrs].
  destruct r as [sender bytes|].
  2:{ eapply runs_mono; [by apply (nameserver_failed_ok env [] [] exs extra d n)|]. intros _ d1 (H1 & K1 & _). split; [done|]. by apply keeps_serves. }
  cbn in Hr. pose proof (blen_nonneg bytes) as Hb0. unfold put. rewrite write_cells_ok by (rewrite ?blen_fmap; lia). rewrite length_fmap.
  change (Z.to_nat 0) with 0%nat. cbn [Nat.add]. rewrite take_0. cbn [app]. do 3 run_step. destruct Hn as [s Hs]. eapply runs_load_ns; [done|].
  case_bool_decide as Hsender; cbn [negb]; [|by run_step]. run_step. eapply runs_update_ns; [done|]. set (s' := with_state _ _ 0 s). set (d1 := set_servers (insert n s') d).
  destruct (inv_server_same env [] [] exs extra d n s s') as [H1 K1]; try done; [apply with_state_ok; by destruct (di_server env _ _ _ _ _ H n s Hs) as (? & ? & ? & ?)|].
  assert (is_Some (d_servers d1 !! n)) as Hn1 by (exists s'; apply lookup_insert_eq). run_step.
  set (rest := drop (length bytes) packet). assert (blen rest = 1500 - blen bytes) as Hrest.
  { unfold rest. unfold blen in *. rewrite length_drop. lia. }
  eapply runs_mono; [rewrite <- (blen_fmap Some bytes); apply (receive_reply_ok exs extra d1 (Some <$> bytes) rest H1)|].
  - apply Forall_fmap, Forall_true. by eexists.
  - lia.
  - intros _ d2 [H2 S2]. eapply runs_mono; [apply (IH exs extra d2 n _ H2); [by apply S2| |done]|].
    + rewrite blen_app, blen_fmap. lia.
    + intros _ d3 [H3 S3]. split; [done|]. intros y Hy. apply S3, S2. by apply (kp_servers _ _ K1).
Qed.

(** Nothing waits for a server to be writable any more. *)
Lemma unwatch_ok exs extra d n s : inv [] [] exs extra d -> d_servers d !! n = Some s -> ns_choked s = false ->
  (forall x r, x ∈ req_head d -> d_reqs d !! x = Some r -> transmit_me r = false) ->
  runs (nameserver_write_waiting env n false) d (fun _ d' => inv [] [] exs extra d' /\ serves d d').
Proof.
  intros H Hs Hch Htm. destruct (di_server env _ _ _ _ _ H n s Hs) as (Hw & Ht & Hf & Hev). unfold nameserver_write_waiting.
  run_step. eapply runs_load_ns; [done|]. destruct (Bool.eqb _ _); [by run_step|]. do 2 run_step. eapply runs_update_ns; [done|].
  set (mask := if e_event_add env _ then _ else _). set (s' := with_waiting false mask s). split.
  - pose proof (inv_tick env _ _ _ _ _ (S (d_tick d)) H) as H1.
    apply (inv_server_any env [] [] exs exs extra (set_tick (S (d_tick d)) d) n s s' (global_good_nameservers d)); try done.
    + split; [cbn; congruence|]. split; [done|]. split; [done|]. intros Ha. cbn. unfold mask. by rewrite Ha.
    + by right.
    + intros y Hy. by right.
    + unfold up. cbn. lia.
    + intros Ha Hm Hn Hst. apply (di_down env _ _ _ _ _ H1 Ha Hm n s Hn Hs Hst).
  - intros y Hy. cbn. destruct (decide (y = n)) as [->|Hne]; [by rewrite lookup_insert_eq|by rewrite lookup_insert_ne].
Qed.

Lemma ready_ok exs extra d n readable writable rs : inv [] [] exs extra d -> is_Some (d_servers d !! n) -> Forall recv_ok rs ->
  runs (nameserver_ready_callback env n readable writable rs) d (fun _ d' => inv [] [] exs extra d' /\ serves d d').
Proof.
  intros H [s Hs] Hrs. unfold nameserver_ready_callback. run_step. apply (runs_mono _ _ (fun _ d1 => inv [] [] exs extra d1 /\ serves d d1)).
  - destruct writable; [|by run_step]. run_step. eapply runs_update_ns; [done|]. set (s' := with_choked false s). set (d1 := set_servers (insert n s') d).
    destruct (di_server env _ _ _ _ _ H n s Hs) as (Hw & Ht & Hf & Hev).
    destruct (inv_server_same env [] [] exs extra d n s s') as [H1 K1]; try done. run_step.
    eapply runs_mono; [by apply (evdns_transmit_ok env [] exs extra d1)|]. intros did d2 (H2 & K2 & Hno). destruct did.
    + run_step. split; [done|]. apply keeps_serves. by transitivity d1.
    + destruct (Hno eq_refl) as [-> Hno']. eapply runs_mono; [apply (unwatch_ok exs extra d1 n s' H1); [apply lookup_insert_eq|done|exact Hno']|].
      intros _ d3 [H3 S3]. split; [done|]. intros y Hy. apply S3. by apply (kp_servers _ _ K1).
  - intros _ d1 [H1 S1]. destruct readable; [|by run_step]. unfold nameserver_read.
    eapply runs_mono; [apply (read_loop_ok rs exs extra d1 n (replicate 1500 None) H1); [apply S1; by exists s|by unfold blen; rewrite length_replicate|done]|].
    intros _ d2 [H2 S2]. split; [done|]. intros y Hy. by apply S2, S1.
Qed.

(** * Time-outs *)

Lemma request_timeout_ok exs extra d x r t : inv [] [] exs extra d -> d_reqs d !! x = Some r -> cr_timer r = Some t ->
  runs (update_req x (with_timer None);; evdns_request_timeout_callback env x) d (fun _ d' => inv [] [] exs extra d').
Proof.
  intros H Hr Htm. assert (x ∈ req_head d) as Hx by (apply (di_timer env _ _ _ _ _ H x r Hr); by exists t).
  destruct (di_req env _ _ _ _ _ H x r Hr) as (_ & Hb & Hlen & _). pose proof (di_fly env _ _ _ _ _ H x r Hx Hr) as Hfly.
  pose proof (inv_tight env _ _ _ _ _ _ _ H (not_elem_of_nil x) Hr) as Hti. pose proof Hfly as (_ & n & Hn & [s Hs]).
  run_step. eapply runs_update_req; [done|]. set (r1 := with_timer None r). set (d1 := set_reqs (insert x r1) d).
  assert (d_reqs d1 !! x = Some r1) as Hr1 by apply lookup_insert_eq.
  assert (inv [] [x] exs extra d1) as H1.
  { apply (inv_request env [] [] [x] exs extra d x r r1); try done.
    - set_solver.
    - intros Hin. by apply not_elem_of_nil in Hin.
    - intros _ _ Hnin. exfalso. apply Hnin. left. }
  unfold evdns_request_timeout_callback, server_of. run_step. eapply runs_load_req; [done|]. change (cr_ns r1) with (cr_ns r). rewrite Hn. do 2 run_step.
  run_step. eapply runs_load_ns; [exact Hs|]. do 3 run_step. eapply runs_update_ns; [exact Hs|]. set (s1 := with_state _ _ (timedout s + 1) s). set (d2 := set_servers (insert n s1) d1).
  destruct (di_server env _ _ _ _ _ H1 n s Hs) as (Hw & Ht & Hf & Hev).
  destruct (inv_server_same env [] [x] exs extra d1 n s s1) as [H2 K2]; try done. assert (d_servers d2 !! n = Some s1) as Hs1 by apply lookup_insert_eq.
  run_step. apply (runs_mono _ _ (fun _ d3 => inv [] [x] exs extra d3 /\ keeps d2 d3)).
  { destruct (_ >? _); [|by run_step]. run_step. eapply runs_update_ns; [exact Hs1|]. set (s2 := with_state _ _ 0 s1). set (d3 := set_servers (insert n s2) d2).
    destruct (inv_server_same env [] [x] exs extra d2 n s1 s2) as [H3 K3]; try done.
    eapply runs_mono; [apply (nameserver_failed_ok env [] [x] exs extra d3 n H3); exists s2; apply lookup_insert_eq|]. intros _ d4 (H4 & K4 & _). split; [done|by transitivity d3]. }
  intros _ d3 [H3 K3]. assert (keeps d1 d3) as K13 by by transitivity d2. destruct (kp_reqs _ _ K13 x r1 Hr1) as (r3 & Hr3 & A3).
  assert (x ∈ req_head d3) as Hx3 by (by rewrite (kp_head _ _ K13)). run_step. eapply runs_update_req; [done|]. set (r4 := with_timer None r3). set (d4 := set_reqs (insert x r4) d3).
  assert (d_reqs d4 !! x = Some r4) as Hr4 by apply lookup_insert_eq. assert (alike r3 r4) as A4 by by repeat split.
  destruct (di_req env _ _ _ _ _ H3 x r3 Hr3) as (_ & Hb3 & Hlen3 & _). pose proof (di_fly env _ _ _ _ _ H3 x r3 Hx3 Hr3) as Hfly3.
  assert (inv [] [x] exs extra d4) as H4.
  { apply (inv_request env [] [x] [x] exs extra d3 x r3 r4); try done; [by left|]. intros _ _ Hnin. exfalso. apply Hnin. left. }
  assert (tight r4) as Ht4 by (apply (tight_alike r1); [by apply (alike_trans r1 r3)|exact Hti]).
  destruct (_ >=? _).
  - eapply runs_mono; [by apply (callback_finish env [x] exs extra d4 x r4)|]. by intros _ d5 [H5 _].
  - run_step. eapply runs_mono; [by apply (transmit_ok env [] [] exs extra d4 x r4)|]. intros _ d5 [H5 _]. by run_step.
Qed.

(** * Probes *)

Definition probe_name : list byte := zbytes [119; 119; 119; 46; 103; 111; 111; 103; 108; 101; 46; 99; 111; 109].

Lemma probe_name_ok : name_ok probe_name.
Proof.
  split; [|by vm_compute]. apply Forall_forall. intros l Hl. assert (forallb (fun l => (1 <=? blen l) && (blen l <=? 63) && negb (existsb (fun b => byte.unsigned b =? 0) l)) (labels_of probe_name) = true) as Hall by by vm_compute.
  rewrite forallb_forall in Hall. specialize (Hall l (proj1 (list_elem_of_In _ _) Hl)). apply andb_true_iff in Hall as [[H1%Z.leb_le H2%Z.leb_le]%andb_true_iff H3%negb_true_iff].
  split; [done|]. intros Hin. assert (existsb (fun b => byte.unsigned b =? 0) l = true) as Hx; [|congruence]. apply existsb_exists. exists Byte.x00.
  split; [by apply list_elem_of_In|done].
Qed.

(** The probe that was owed is there. *)
Lemma inv_probed nw ex extra d n : inv nw ex [n] extra d -> (works (e_malloc env) -> probed d n) -> inv nw ex [] extra d.
Proof.
  intros H Hp. destruct H. split; try assumption. intros Ha Hm y s _ Hs Hst. destruct (decide (y = n)) as [->|Hne]; [right; by apply Hp|].
  apply (di_down Ha Hm y s); [|done|done]. by intros Hin%list_elem_of_singleton.
Qed.

Lemma probe_timeout_ok d extra n s t : inv [] [] [] extra d -> d_servers d !! n = Some s -> ns_timer s = Some t -> blen (req_head d) < 65535 ->
  runs (update_ns n (with_ns_timer None);; nameserver_prod_callback env n) d (fun _ d' => inv [] [] [] extra d').
Proof.
  intros H Hs Htm Hlen. run_step. eapply runs_update_ns; [done|]. set (s1 := with_ns_timer None s). set (d1 := set_servers (insert n s1) d).
  destruct (di_server env _ _ _ _ _ H n s Hs) as (Hw & Ht & Hf & Hev).
  assert (inv [] [] [n] extra d1) as H1.
  { assert (d1 = set_good (global_good_nameservers d) d1) as -> by (by destruct d). apply (inv_server env [] [] [] [n] extra d n s s1); try done.
    - set_solver.
    - unfold up. cbn. lia.
    - intros _ _ Hn. exfalso. apply Hn. left. }
  unfold nameserver_prod_callback, nameserver_send_probe. fold probe_name. run_step.
  eapply runs_mono; [apply (request_new_made env [] [] [n] extra d1 TYPE_A probe_name (nameserver_probe_callback n)); [done|by left|]|].
  { intros ? [= <-]. exists s1. apply lookup_insert_eq. }
  intros o d2 [Hm Hnone]. destruct o as [y|].
  2:{ run_step. apply (inv_probed [] [] extra d2 n); [by destruct Hm|]. intros Hal. exfalso. apply (Hnone eq_refl Hal). exact probe_name_ok. }
  destruct Hm as (H2 & K2 & r & Hr & [Nt Nc Nf Ns]). cbn [args app] in H2. pose proof (inv_new_lookup env _ _ _ _ _ _ H2) as Hy.
  apply (inv_probed [y] [] extra d2 n) in H2; [|by intros _; exists y, r].
  run_step. eapply runs_mono; [apply (transaction_id_pick_ok env d2)|].
  { intros x Hx. destruct (inv_flight env _ _ _ _ _ x H2 Hx) as (t' & Ht' & _). by exists t'. }
  { rewrite (kp_head _ _ K2). exact Hlen. }
  intros id d3 (Hid & tk & ->). apply (inv_tick env _ _ _ _ _ tk) in H2. set (d3 := set_tick tk d2) in *.
  destruct (di_req env _ _ _ _ _ H2 y r Hr) as (_ & Hb & Hl & _). run_step. eapply runs_mono; [by apply (request_trans_id_set_ok d3 y r id)|].
  intros _ d4 (m & -> & Hmb & Hml & Hmt & Hmi). run_step. eapply runs_update_req; [apply lookup_insert_eq|]. set (r2 := with_ns (Some n) (with_msg m r)).
  assert (set_reqs (insert y r2) (set_reqs (insert y (with_msg m r)) d3) = set_reqs (insert y r2) d3) as ->.
  { unfold set_reqs. cbn. by rewrite insert_insert_eq. }
  set (d5 := set_reqs (insert y r2) d3). assert (d_reqs d5 !! y = Some r2) as Hr5 by apply lookup_insert_eq.
  assert (inv [y] [] [] extra d5) as H5.
  { apply (inv_request env [y] [] [] [] extra d3 y r r2); try done.
    - change (2 <= rq_len m). by rewrite Hml.
    - exact (di_timer env _ _ _ _ _ H2 y r Hr).
    - intros Hin. by apply not_elem_of_nil in Hin. }
  eapply runs_mono; [apply (request_submit_ok env [] [] [] extra d5 y r2); [done|done| |]|].
  - intros Hsome. change (is_Some (cr_search r)) in Hsome. rewrite Ns in Hsome. by destruct Hsome.
  - intros y' [= <-]. split; [change (rq_trans_id m <> 0xffff); congruence|]. exists n. split; [done|]. apply (kp_servers _ _ K2). exists s1. apply lookup_insert_eq.
  - by intros _ d6 [H6 _].
Qed.

End Events.
