(* ===== verification/DnsSettings.v ===== *)
(** The calls of the program that change servers, search lists and options. *)
From S2P Require Import Prelude.
From S2P Require Import Dns DnsProps DnsClient DnsQueue DnsServers DnsLife DnsSearch DnsFinish.

Implicit Types (d : dns) (nw ex exs extra : list Z).

Section Settings.
Context (env : denv) `{Henv : !DnsEnvOk env}.

Abbreviation inv := (dns_inv env).

(** * Servers added *)

Lemma known_address_ok l address : forall d, (forall n, n ∈ l -> is_Some (d_servers d !! n)) -> runs (known_address l address) d (fun _ d' => d' = d).
Proof.
  induction l as [|n l IH]; intros d Hl; cbn [known_address]; [by run_step|]. destruct (Hl n) as [s Hs]; [left|]. run_step. eapply runs_load_ns; [done|].
  destruct (_ =? _); [by run_step|]. apply IH. intros y Hy. apply Hl. by right.
Qed.

Lemma inv_new_server extra d s l : inv [] [] [] extra d -> server_ok env s -> ns_state s = true -> l ≡ₚ d_fresh d :: server_head d ->
  inv [] [] [] extra (mkDns (d_tick d) (d_fresh d + 1) (d_log d) (d_reqs d) (<[d_fresh d := s]> (d_servers d)) (d_searches d) (req_head d)
    (req_waiting_head d) l (global_good_nameservers d + 1) (global_requests_inflight d) (global_requests_waiting d) (d_opts d) (global_search_state d)).
Proof.
  intros H Hok Hst Hl. set (n := d_fresh d) in *. destruct (di_fresh env _ _ _ _ _ H) as (F1 & F2 & F3).
  assert (d_servers d !! n = None) as Hn. { apply eq_None_not_Some. intros Hs. apply F2 in Hs. unfold n in Hs. lia. }
  assert (forall y, <[n := s]> (d_servers d) !! y = if decide (y = n) then Some s else d_servers d !! y) as Hlk.
  { intros y. case_decide as Hd; [subst y; apply lookup_insert_eq|by rewrite lookup_insert_ne]. }
  assert (forall y, is_Some (d_servers d !! y) -> is_Some (<[n := s]> (d_servers d) !! y)) as Hmono.
  { intros y Hy. rewrite Hlk. case_decide; [by eexists|done]. }
  destruct H. split; cbn; try assumption.
  - destruct di_servers as [Hnd Hdom]. split.
    + rewrite Hl. apply NoDup_cons. split; [|done]. intros Hin%Hdom. rewrite Hn in Hin. by destruct Hin.
    + intros y. rewrite Hl, elem_of_cons, Hlk, <- Hdom. case_decide as Hd; [|tauto]. split; [by left|by eexists].
  - rewrite (msum_new up _ _ s Hn). unfold up at 1. rewrite Hst. cbn. lia.
  - intros y t. rewrite Hlk. case_decide; [by intros [= <-]|apply di_server].
  - intros x r Hr. destruct (di_req x r Hr) as (? & ? & ? & Hp & ?). split; [done|]. split; [done|]. split; [done|]. split; [|done].
    intros y Hy. cbn. by apply Hmono, Hp.
  - intros x r Hx Hr. destruct (di_fly x r Hx Hr) as (? & y & Hy & ?). split; [done|]. exists y. split; [done|]. cbn. by apply Hmono.
  - intros Ha x r Hx Hex Hr. destruct (di_alive Ha x r Hx Hex Hr) as [?|(? & y & t & Hy & Ht)]; [by left|right]. split; [done|]. exists y, t. split; [|done].
    cbn. rewrite Hlk. rewrite decide_False; [done|]. intros ->. congruence.
  - intros Ha Hm y t Hy. rewrite Hlk. case_decide; [intros [= <-]; congruence|]. intros Ht Htst. exact (di_down Ha Hm y t Hy Ht Htst).
  - split; [intros x Hx; apply F1 in Hx; unfold n; lia|]. split; [|intros x Hx; apply F3 in Hx; unfold n; lia].
    intros y. rewrite Hlk. case_decide; [unfold n in *; lia|]. intros Hy%F2. unfold n. lia.
Qed.

Lemma add_server_ok extra d address port : inv [] [] [] extra d ->
  runs (evdns_nameserver_add_impl env address port) d (fun _ d' => inv [] [] [] extra d').
Proof.
  intros H. unfold evdns_nameserver_add_impl. do 3 run_step. eapply runs_mono; [apply known_address_ok|].
  { intros n. by apply (di_servers env _ _ _ _ _ H). }
  intros known d' ->. destruct known; [by run_step|]. do 2 run_step. pose proof (inv_tick env _ _ _ _ _ (S (d_tick d)) H) as H1.
  destruct (e_malloc env _); cbn [negb]; [|by run_step]. do 2 run_step. set (d1 := set_tick _ d) in *. pose proof (inv_tick env _ _ _ _ _ (S (d_tick d1)) H1) as H2.
  destruct (e_socket env _); cbn [negb]; [|by run_step]. do 2 run_step. set (d2 := set_tick _ d1) in *. pose proof (inv_tick env _ _ _ _ _ (S (d_tick d2)) H2) as H3.
  destruct (e_event_add env _); cbn [negb]; [|by run_step]. set (d3 := set_tick _ d2) in *. run_steps.
  set (s := mkNs address port 0 0 true false false (Z.lor DNS_EV_READ DNS_EV_PERSIST) None).
  apply (inv_new_server extra d3 s (match server_head d with [] => [d_fresh d3] | x :: l => x :: d_fresh d3 :: l end) H3).
  - by split.
  - done.
  - change (server_head d3) with (server_head d). destruct (server_head d) as [|x l]; [done|]. solve_Permutation.
Qed.

(** * Servers cleared *)

Lemma free_servers_ok l : forall d, NoDup l -> (forall n, n ∈ l -> is_Some (d_servers d !! n)) ->
  runs (free_servers l) d (fun _ d' => exists sv, d' = set_servers (fun _ => sv) d /\ forall n, sv !! n = if decide (n ∈ l) then None else d_servers d !! n).
Proof.
  induction l as [|n l IH]; intros d Hnd Hl; cbn [free_servers].
  { run_step. exists (d_servers d). split; [by destruct d|]. intros n. by rewrite decide_False by apply not_elem_of_nil. }
  apply NoDup_cons in Hnd as [Hnin Hnd]. destruct (Hl n) as [s Hs]; [left|]. run_step. eapply runs_load_ns; [done|]. do 2 run_step.
  eapply runs_mono; [apply (IH (set_servers (delete n) d) Hnd)|].
  - intros y Hy. cbn. rewrite lookup_delete_ne by (intros ->; contradiction). apply Hl. by right.
  - intros _ d' (sv & -> & Hsv). exists sv. split; [done|]. intros y. rewrite Hsv. cbn. destruct (decide (y = n)) as [->|Hne].
    + rewrite lookup_delete_eq, (decide_True _ _ (list_elem_of_here n l)). by case_decide.
    + rewrite lookup_delete_ne by done. case_decide as H1; [rewrite decide_True; [done|by right]|]. rewrite decide_False; [done|]. by intros [?|?]%elem_of_cons.
Qed.

Definition suspended (r : client_request) : client_request :=
  (with_counts 0 0 ∘ with_ns None ∘ with_timer None ∘ with_msg (mkReq 0 (rq_packet (cr_msg r)) (rq_len (cr_msg r)) (rq_type (cr_msg r))) ∘ with_transmit false) r.

Lemma suspend_loop_ok l : forall d, NoDup l -> (forall x, x ∈ l -> is_Some (d_reqs d !! x)) ->
  runs (suspend_loop l) d (fun _ d' => exists R, d' = set_waiting (rev l ++ req_waiting_head d) (global_requests_waiting d + blen l) (set_reqs (fun _ => R) d) /\
    forall x, R !! x = if decide (x ∈ l) then suspended <$> d_reqs d !! x else d_reqs d !! x).
Proof.
  induction l as [|x l IH]; intros d Hnd Hl; cbn [suspend_loop].
  { run_step. exists (d_reqs d). split; [rewrite blen_nil, Z.add_0_r; by destruct d|]. intros x. by rewrite decide_False by apply not_elem_of_nil. }
  apply NoDup_cons in Hnd as [Hnin Hnd]. destruct (Hl x) as [r Hr]; [left|]. run_step. eapply runs_load_req; [done|]. run_step. eapply runs_update_req; [done|]. do 2 run_step.
  change ((with_counts 0 0 ∘ _) r) with (suspended r). set (d1 := set_waiting _ _ _).
  eapply runs_mono; [apply (IH d1 Hnd)|].
  - intros y Hy. cbn. rewrite lookup_insert_ne by (intros ->; contradiction). apply Hl. by right.
  - intros _ d' (R & -> & HR). exists R. split.
    + unfold d1, set_waiting, set_reqs. cbn. rewrite <- app_assoc, blen_cons. cbn. f_equal. lia.
    + intros y. rewrite HR. cbn. destruct (decide (y = x)) as [->|Hne].
      * rewrite lookup_insert_eq, Hr, (decide_True _ _ (list_elem_of_here x l)), decide_False by done. done.
      * rewrite lookup_insert_ne by done. case_decide as H1; [rewrite decide_True; [done|by right]|]. rewrite decide_False; [done|]. by intros [?|?]%elem_of_cons.
Qed.

Lemma clear_servers_ok extra d : inv [] [] [] extra d -> (forall n, ~ probed d n) ->
  runs evdns_clear_nameservers_and_suspend d (fun _ d' => inv [] [] [] extra d' /\
    (server_head d <> [] -> req_head d' = [] /\ req_waiting_head d' = rev (req_head d) ++ req_waiting_head d)).
Proof.
  intros H Hnp. unfold evdns_clear_nameservers_and_suspend. do 2 run_step. destruct (server_head d) as [|n0 l0] eqn:Hsh; [by run_step|]. rewrite <- Hsh.
  destruct (di_servers env _ _ _ _ _ H) as [Hnds Hdom]. pose proof (di_lists env _ _ _ _ _ H) as Hnd. cbn [app] in Hnd. pose proof Hnd as (Hndh & Hdis & Hndw)%NoDup_app.
  run_step. eapply runs_mono; [apply free_servers_ok; [done|by intros n Hn%Hdom]|]. intros _ d1 (sv & -> & Hsv).
  assert (sv = ∅) as ->.
  { apply map_empty. intros n. rewrite Hsv. case_decide as Hn; [done|]. apply eq_None_not_Some. by rewrite Hdom. }
  do 4 run_step. run_step. set (d2 := set_good 0 _). eapply runs_mono; [apply (suspend_loop_ok (req_head d) d2 Hndh)|].
  { intros x Hx. destruct (inv_flight env _ _ _ _ _ x H Hx) as (r & Hr & _). by exists r. }
  intros _ d3 (R & -> & HR). change (d_reqs d2) with (d_reqs d) in HR. run_step. split; [|done]. set (d4 := set_req_head [] 0 _).
  assert (forall x, is_Some (R !! x) <-> is_Some (d_reqs d !! x)) as HRdom by (intros x; rewrite HR; case_decide; [by rewrite fmap_is_Some|done]).
  assert (forall x r, R !! x = Some r -> exists r0, d_reqs d !! x = Some r0 /\ (r = suspended r0 \/ x ∉ req_head d /\ r = r0)) as Hinv.
  { intros x r. rewrite HR. case_decide as Hx; [intros (r0 & -> & Hr0)%fmap_Some; exists r0; auto|]. intros Hr. exists r. auto. }
  assert (rev (req_head d) ++ req_waiting_head d ≡ₚ req_head d ++ req_waiting_head d) as Hperm by (by rewrite <- Permutation_rev).
  assert (forall {B} (g : client_request -> B) x, (forall r, g (suspended r) = g r) -> g <$> R !! x = g <$> d_reqs d !! x) as Hg.
  { intros B g x Hgs. rewrite HR. case_decide; [|done]. destruct (d_reqs d !! x) as [r|]; [|done]. cbn. by rewrite Hgs. }
  destruct H. split; try assumption.
  - change (NoDup (rev (req_head d) ++ req_waiting_head d)). by rewrite Hperm.
  - intros x. change (is_Some (R !! x) <-> x ∈ rev (req_head d) ++ req_waiting_head d). by rewrite HRdom, Hperm, di_reqs.
  - done.
  - change (global_requests_waiting d + blen (req_head d) = blen (rev (req_head d) ++ req_waiting_head d)).
    rewrite di_waiting, blen_app. unfold blen. rewrite length_rev. lia.
  - split; [apply NoDup_nil_2|]. intros n. cbn. rewrite lookup_empty. split; [intros Hs; by destruct Hs|intros Hn; by apply not_elem_of_nil in Hn].
  - cbn. by rewrite msum_empty.
  - intros n s. cbn. by rewrite lookup_empty.
  - intros x r Hr. destruct (Hinv x r Hr) as (r0 & Hr0 & Hcase). destruct (di_req x r0 Hr0) as (? & (q & rest & ?) & ? & Hp & ?).
    assert (req_ok d4 (bool_decide (x ∈ [])) r0) as Hok.
    { split; [done|]. split; [by exists q, rest|]. split; [done|]. split; [|done]. intros n Hn. exfalso. apply (Hnp n). by exists x, r0. }
    destruct Hcase as [->|[_ ->]]; [|done]. destruct Hok as (? & _ & ? & ? & ?). split; [done|]. split; [by exists q, rest|done].
  - intros x r Hx. by apply not_elem_of_nil in Hx.
  - intros x r Hr Htm. destruct (Hinv x r Hr) as (r0 & Hr0 & [->|[Hx ->]]); [by destruct Htm|]. exfalso. apply Hx. by apply (di_timer x r0).
  - intros Ha x r Hx. by apply not_elem_of_nil in Hx.
  - intros Ha Hm n s _. cbn. by rewrite lookup_empty.
  - intros s. change (search_val (msum (refers s) R + Z.b2z (bool_decide (global_search_state d = Some s))) (d_searches d !! s)).
    rewrite (msum_ext (refers s) R (d_reqs d)); [apply di_search|]. intros x. by apply Hg.
  - destruct di_fresh as (F1 & F2 & F3). split; [intros x Hx%HRdom; by apply F1|]. split; [|done]. intros n. cbn. rewrite lookup_empty. intros Hs. by destruct Hs.
  - intros a. change (tally (accepted a) (d_log d) + tally (Z.eqb a) extra = tally (called a) (d_log d) + msum (owes a) R).
    rewrite (msum_ext (owes a) R (d_reqs d)); [apply di_tally|]. intros x. by apply Hg.
Qed.

Lemma resume_ok extra d : inv [] [] [] extra d -> server_head d <> [] \/ req_waiting_head d = [] ->
  runs (evdns_resume env) d (fun _ d' => inv [] [] [] extra d').
Proof.
  intros H Hsv. unfold evdns_resume, evdns_requests_pump_waiting_queue. run_steps.
  eapply runs_mono; [apply (pump_loop_ok env _ [] extra d); [lia|done|done]|]. by intros _ d' [H' _].
Qed.

(** * Search lists *)

(** The searches change, and the global one. *)
Lemma inv_searches extra d e g : inv [] [] [] extra d ->
  let d' := set_global_search g (set_searches (fun _ => e) d) in
  (forall s, search_val (refs d' s) (e !! s)) -> (forall s, is_Some (e !! s) -> s < d_fresh d) -> inv [] [] [] extra d'.
Proof.
  intros H d' He Hf. destruct H. split; try assumption. destruct di_fresh as (F1 & F2 & _). split; [done|]. by split.
Qed.

Lemma inv_search_same extra d s st st' : inv [] [] [] extra d -> d_searches d !! s = Some st -> ss_refcount st' = ss_refcount st ->
  num_domains st' = blen (ss_domains st') -> inv [] [] [] extra (set_searches (insert s st') d).
Proof.
  intros H Hs Hrc Hnum. assert (set_searches (insert s st') d = set_global_search (global_search_state d) (set_searches (fun _ => <[s := st']> (d_searches d)) d)) as -> by (by destruct d).
  apply inv_searches; [done| |].
  - intros y. destruct (decide (y = s)) as [->|Hne]; [|rewrite lookup_insert_ne by done; exact (di_search env _ _ _ _ _ H y)].
    pose proof (di_search env _ _ _ _ _ H s) as Hv. rewrite Hs in Hv. rewrite lookup_insert_eq. destruct Hv as (? & ? & ?).
    change (search_val (refs d s) (Some st')). cbn. by rewrite Hrc.
  - intros y. destruct (decide (y = s)) as [->|Hne]; [intros _; apply (di_fresh env _ _ _ _ _ H); by rewrite Hs|].
    rewrite lookup_insert_ne by done. apply (di_fresh env _ _ _ _ _ H).
Qed.

(** A new state, to which [global_search_state] points from now on. *)
Lemma search_state_new_ok extra d : inv [] [] [] extra d -> global_search_state d = None ->
  runs (s ← search_state_new env; dset (set_global_search s);; mret s) d (fun s d' => inv [] [] [] extra d' /\ global_search_state d' = s).
Proof.
  intros H Hg. unfold search_state_new. do 3 run_step. pose proof (inv_tick env _ _ _ _ _ (S (d_tick d)) H) as H1. set (d1 := set_tick _ d) in *.
  destruct (e_malloc env _); cbn [negb]; run_steps.
  2:{ split; [|done]. assert (set_global_search None d1 = d1) as -> by (unfold d1, set_global_search, set_tick; cbn; by rewrite <- Hg). done. }
  split; [|done]. destruct (di_fresh env _ _ _ _ _ H1) as (F1 & F2 & F3).
  assert (d_searches d1 !! d_fresh d1 = None) as Hn. { apply eq_None_not_Some. intros Hs%F3. lia. }
  assert (forall y, refs d1 y = msum (refers y) (d_reqs d1)) as Href.
  { intros y. unfold refs. change (global_search_state d1) with (global_search_state d). rewrite Hg, bool_decide_false by done. cbn. lia. }
  pose proof (di_search env _ _ _ _ _ H1) as Hv. destruct H1. split; try assumption.
  - intros y. unfold refs. cbn. specialize (Hv y). rewrite Href in Hv. destruct (decide (y = d_fresh d)) as [->|Hne].
    + change (d_fresh d1) with (d_fresh d) in Hn. rewrite Hn in Hv. cbn in Hv. rewrite lookup_insert_eq, bool_decide_true by done. rewrite Hv. by split_and!.
    + rewrite lookup_insert_ne by done. rewrite bool_decide_false by congruence. cbn in Hv |- *. by rewrite Z.add_0_r.
  - split; [intros x Hx; apply F1 in Hx; cbn in *; lia|]. split; [intros x Hx; apply F2 in Hx; cbn in *; lia|]. intros y. cbn.
    destruct (decide (y = d_fresh d)) as [->|Hne]; [lia|]. rewrite lookup_insert_ne by done. intros Hy%F3. cbn in *. lia.
Qed.

Lemma some_search_state_ok extra d : inv [] [] [] extra d ->
  runs (some_search_state env) d (fun s d' => inv [] [] [] extra d' /\ global_search_state d' = s).
Proof.
  intros H. unfold some_search_state. do 2 run_step. destruct (global_search_state d) as [s|] eqn:Hg; [by run_step|]. by apply search_state_new_ok.
Qed.

(** A change of the global state, if it is there or can be made. *)
Lemma some_search_ok {A} extra d (k : Z -> dm A) (n : A) : inv [] [] [] extra d ->
  (forall d1 s st, inv [] [] [] extra d1 -> d_searches d1 !! s = Some st -> num_domains st = blen (ss_domains st) ->
    runs (k s) d1 (fun _ d' => inv [] [] [] extra d')) ->
  runs (s ← some_search_state env; match s with None => mret n | Some s => k s end) d (fun _ d' => inv [] [] [] extra d').
Proof.
  intros H Hk. run_step. eapply runs_mono; [by apply (some_search_state_ok extra)|]. intros o d1 [H1 Hg]. destruct o as [s|]; [|by run_step].
  destruct (search_exists env _ _ _ _ _ s H1 (refs_global d1 s Hg)) as (st & Hst & _ & Hnum). by apply (Hk d1 s st).
Qed.

Lemma ndots_ok extra d n : inv [] [] [] extra d -> runs (evdns_search_ndots_set env n) d (fun _ d' => inv [] [] [] extra d').
Proof.
  intros H. apply some_search_ok; [done|]. intros d1 s st H1 Hst Hnum. eapply runs_eq; [by apply update_search_ok|]. by eapply inv_search_same.
Qed.

Lemma search_add_ok extra d domain : inv [] [] [] extra d -> runs (search_postfix_add env domain) d (fun _ d' => inv [] [] [] extra d').
Proof.
  intros H. apply some_search_ok; [done|]. intros d1 s st H1 Hst Hnum. run_step. eapply runs_eq; [by apply update_search_ok|]. do 2 run_step.
  rewrite (eo_text env). cbn [negb]. eapply runs_eq; [by apply update_search_ok, lookup_insert_eq|]. cbn [ss_refcount ndots num_domains ss_domains].
  set (st' := mkSearch _ _ _ (skip_dots domain :: _)).
  match goal with |- dns_inv _ _ _ _ _ ?d2 => assert (d2 = set_tick (S (d_tick d1)) (set_searches (insert s st') d1)) as -> end.
  { unfold set_searches, set_tick. cbn. by rewrite insert_insert_eq. }
  apply inv_tick. apply (inv_search_same extra d1 s st); [done|done|done|]. cbn. rewrite blen_cons. lia.
Qed.

Lemma search_clear_ok extra d : inv [] [] [] extra d -> runs (search_postfix_clear env) d (fun _ d' => inv [] [] [] extra d').
Proof.
  intros H. unfold search_postfix_clear. do 3 run_step.
  apply (runs_mono _ _ (fun _ d1 => inv [] [] [] extra (set_global_search None d1))).
  - destruct (global_search_state d) as [s|] eqn:Hg.
    + destruct (search_exists env _ _ _ _ _ s H (refs_global d s Hg)) as (st & Hst & _). eapply runs_mono; [by apply (decref_runs d s st)|]. intros _ d1 ->.
      destruct (decref_val (refs d) (refs (set_global_search None d)) (d_searches d) s) as [Hv Hd].
      * apply (di_search env _ _ _ _ _ H).
      * unfold refs. cbn. rewrite Hg, (bool_decide_false (None = Some s)), (bool_decide_true (Some s = Some s)) by done. cbn. lia.
      * intros y Hy. unfold refs. cbn. rewrite Hg, !bool_decide_false by congruence. done.
      * pose proof (refs_global d s Hg). lia.
      * apply (inv_searches extra d (decref s (d_searches d)) None H); [exact Hv|]. intros y Hy%Hd. by apply (di_fresh env _ _ _ _ _ H).
    + run_step. assert (set_global_search None d = d) as -> by (rewrite <- Hg; by destruct d). done.
  - intros _ d1 H1. destruct (search_state_new_ok extra _ H1 eq_refl) as (s & d2 & Hrun & H2 & _). revert Hrun. unfold runs, search_state_new, mbind, dm_bind, draw, dset, fresh, mret, dm_ret. cbn.
    destruct (e_malloc env (d_tick d1)); cbn; intros [= <- <-]; eexists _, _; (split; [reflexivity|exact H2]).
Qed.

Lemma clipped_range r min max : min <= max -> clipped r min max = -1 \/ min <= clipped r min max <= max.
Proof.
  intros Hm. unfold clipped. destruct (Z.eqb_spec r (-1)); [by left|right]. destruct (Z.ltb_spec r min); [lia|]. rewrite Z.gtb_ltb. destruct (Z.ltb_spec max r); lia.
Qed.

Lemma inv_opts extra d f : inv [] [] [] extra d -> 1 <= global_max_requests_inflight (f (d_opts d)) <= 65000 -> inv [] [] [] extra (set_opts f d).
Proof. intros [] Hf. by split. Qed.

Lemma set_option_ok extra d o : inv [] [] [] extra d -> runs (evdns_set_option env o) d (fun _ d' => inv [] [] [] extra d').
Proof.
  intros H. pose proof (di_max env _ _ _ _ _ H) as Hmax. destruct o as [n|n|n|n|n]; cbn [evdns_set_option].
  - destruct (n =? -1); [by run_step|]. apply some_search_ok; [done|]. intros d1 s st H1 Hst Hnum. run_step. eapply runs_eq; [by apply update_search_ok|].
    run_step. by eapply inv_search_same.
  - destruct (n =? -1); run_steps; [done|by apply inv_opts].
  - destruct (clipped n 1 255 =? -1); run_steps; [done|by apply inv_opts].
  - destruct (Z.eqb_spec (clipped n 1 65000) (-1)); run_steps; [done|]. apply inv_opts; [done|]. cbn. destruct (clipped_range n 1 65000); lia.
  - destruct (n =? -1); run_steps; [done|by apply inv_opts].
Qed.
End Settings.
