(* ===== verification/DnsClientProps.v ===== *)
(** The DNS client as its program sees it: what every state it can reach has, and
    what its calls and events do. The program uses it as [op_ok] and [DnsEnvOk]
    say; examples at the end show what happens otherwise. *)
From S2P Require Import Prelude.
From S2P Require Import Dns DnsName DnsReply DnsProps DnsClient DnsQueue DnsServers DnsLife DnsSearch DnsFinish DnsEvents DnsSettings.

Implicit Types (d : dns) (name : list byte).

(** * What may happen *)

(** The calls and events for which the client is ready. Time-outs are those that
    are pending, datagrams leave room for the longest label behind them, servers
    are not cleared while one of them is probed, and requests that wait are not
    resumed before there is a server. *)
Definition op_ok d (op : dns_op) : Prop :=
  match op with
  | Resolve a => ask_ok a
  | RequestTimeout x => exists r, d_reqs d !! x = Some r /\ is_Some (cr_timer r)
  | ProbeTimeout n => (exists s, d_servers d !! n = Some s /\ is_Some (ns_timer s)) /\ blen (req_head d) < 65535
  | ServerReady n _ _ rs => is_Some (d_servers d !! n) /\ Forall recv_ok rs
  | ClearServers => forall n, ~ probed d n
  | Resume => server_head d <> [] \/ req_waiting_head d = []
  | AddServer _ _ | SearchClear | SearchAdd _ | SearchNdots _ | SetOption _ => True
  end.

Section Reach.
Context (env : denv).

Inductive dns_reachable : dns -> Prop :=
| reach_init : dns_reachable dns_init
| reach_step d op d' : dns_reachable d -> op_ok d op -> run_dns_op env op d = Ok (tt, d') -> dns_reachable d'.

Context `{Henv : !DnsEnvOk env}.

Lemma inv_init : dns_inv env [] [] [] [] dns_init.
Proof.
  assert (forall {V} x, ~ is_Some ((∅ : gmap Z V) !! x)) as He by (intros V x [v Hv]; by rewrite lookup_empty in Hv).
  split; cbn; try done.
  - apply NoDup_nil_2.
  - intros x. split; [intros Hx; by apply He in Hx|intros Hx; by apply not_elem_of_nil in Hx].
  - split; [apply NoDup_nil_2|]. intros x. split; [intros Hx; by apply He in Hx|intros Hx; by apply not_elem_of_nil in Hx].
  - split; [intros x Hx; by apply He in Hx|]. split; intros x Hx; by apply He in Hx.
Qed.

Lemma run_dns_op_ok d op : dns_inv env [] [] [] [] d -> op_ok d op ->
  runs (run_dns_op env op) d (fun _ d' => dns_inv env [] [] [] [] d').
Proof.
  intros H Hop. destruct op as [a|x|n|n rd wr rs|address port| | | |domain|n|o]; cbn [run_dns_op op_ok] in *.
  - eapply runs_mono; [by apply (resolve_ok env [] [] [] d a)|]. by intros _ d' [H' _].
  - destruct Hop as (r & Hr & [t Ht]). by apply (request_timeout_ok env [] [] d x r t).
  - destruct Hop as [(s & Hs & [t Ht]) Hl]. by apply (probe_timeout_ok env d [] n s t).
  - destruct Hop as [Hn Hrs]. eapply runs_mono; [by apply (ready_ok env [] [] d n rd wr rs)|]. by intros _ d' [H' _].
  - run_step. eapply runs_mono; [by apply (add_server_ok env [] d)|]. intros c d' H'. by run_step.
  - eapply runs_mono; [by apply (clear_servers_ok env [] d)|]. by intros _ d' [H' _].
  - by apply resume_ok.
  - by apply search_clear_ok.
  - by apply search_add_ok.
  - by apply ndots_ok.
  - run_step. eapply runs_mono; [by apply (set_option_ok env [] d)|]. intros c d' H'. by run_step.
Qed.

Lemma dns_reachable_inv d : dns_reachable d -> dns_inv env [] [] [] [] d.
Proof.
  intros Hd. induction Hd as [|d op d' Hd IH Hop Hrun]; [apply inv_init|]. destruct (run_dns_op_ok d op IH Hop) as ([] & d2 & Hrun2 & H2). congruence.
Qed.
End Reach.

(** * What the program can rely on *)

(** C9: Within the use that [op_ok] and [DnsEnvOk] describe, no call of the
    program and no event breaks the DNS client, whatever the calls and events were
    before, whatever servers send, and whether memory for requests and servers,
    sockets and time-outs can be had and messages be sent: it returns, so that no
    loop runs for ever, no assertion fails, no request, server or search is used
    after it was freed and no null pointer is followed. The state is then again
    one the client can be in: no request is in two lists, every request in a list
    is in memory and no other is, the counts of requests are the lengths of the
    lists, as many servers are counted as good as are up, and every search has as
    many references as it says. And every callback is called once: a callback
    argument of the program was passed in as many accepted calls (calls that
    returned 0) as callbacks were called with it and requests are still there for
    it, through searches that try one name after the other, requests that move to
    another server, time-outs, and calls made from callbacks. The use: names and
    domains can be copied, names looked up are not empty, a callback only resolves
    more names, an unused transaction id comes up among those drawn, a time-out
    fires only while it is pending, datagrams leave room for the longest label
    behind them in the packet buffer (they are shorter than it by 63 bytes),
    servers are not cleared while one of them is probed, requests that wait are resumed only
    when there is a server, and [evdns_shutdown] is not called. *)
Theorem resolver_safe (env : denv) `{Henv : !DnsEnvOk env} d op : dns_reachable env d -> op_ok d op ->
  exists d', run_dns_op env op d = Ok (tt, d') /\ dns_reachable env d' /\
    NoDup (req_head d' ++ req_waiting_head d') /\ (forall x, is_Some (d_reqs d' !! x) <-> x ∈ req_head d' ++ req_waiting_head d') /\
    global_requests_inflight d' = blen (req_head d') /\ global_requests_waiting d' = blen (req_waiting_head d') /\
    NoDup (server_head d') /\ (forall n, is_Some (d_servers d' !! n) <-> n ∈ server_head d') /\
    global_good_nameservers d' = msum up (d_servers d') /\ (forall s, search_val (refs d' s) (d_searches d' !! s)) /\
    forall arg, tally (accepted arg) (d_log d') = tally (called arg) (d_log d') + msum (owes arg) (d_reqs d').
Proof.
  intros Hd Hop. destruct (run_dns_op_ok env d op (dns_reachable_inv env d Hd) Hop) as ([] & d' & Hrun & H).
  exists d'. split; [done|]. split; [by apply (reach_step env d op)|].
  pose proof (di_tally env _ _ _ _ _ H) as Ht. destruct H. destruct di_servers. repeat (split; [done|]).
  intros arg. specialize (Ht arg). change (tally (Z.eqb arg) []) with 0 in Ht. lia.
Qed.

(** C10: Nothing in flight is waited for in vain, within the same use. As long as
    events can be added, every request in flight is assigned to a server that
    exists and has its time-out pending, or it is marked to be sent and the event
    of some server is added for writing. And as long as there is memory as well,
    every server that is down has the time-out for its next probe pending, or a
    probe in flight or waiting. *)
Theorem no_request_forgotten (env : denv) `{Henv : !DnsEnvOk env} d : dns_reachable env d -> works (e_event_add env) ->
  (forall x, x ∈ req_head d -> exists r n, d_reqs d !! x = Some r /\ cr_ns r = Some n /\ is_Some (d_servers d !! n) /\
    (is_Some (cr_timer r) \/ transmit_me r = true /\
      exists w s, d_servers d !! w = Some s /\ ns_event s = Z.lor (Z.lor DNS_EV_READ DNS_EV_WRITE) DNS_EV_PERSIST)) /\
  (works (e_malloc env) -> forall n s, d_servers d !! n = Some s -> ns_state s = false -> is_Some (ns_timer s) \/ probed d n).
Proof.
  intros Hd Ha. pose proof (dns_reachable_inv env d Hd) as H. split.
  - intros x Hx. destruct (inv_flight env _ _ _ _ _ x H Hx) as (r & Hr & _ & n & Hn & Hs). exists r, n. split; [done|]. split; [done|]. split; [done|].
    destruct (di_alive env _ _ _ _ _ H Ha x r Hx (not_elem_of_nil x) Hr) as [Ht|(Hm & w & s & Hw & Hws)]; [by left|right]. split; [done|]. exists w, s. split; [done|].
    destruct (di_server env _ _ _ _ _ H w s Hw) as (_ & _ & _ & He). rewrite (He Ha), Hws. done.
  - intros Hm n s Hs Hst. exact (di_down env _ _ _ _ _ H Ha Hm n s (not_elem_of_nil n) Hs Hst).
Qed.

(** * Examples *)

Module ClientDemo.

Definition yes (k : nat) : bool := true.
Definition count_id (k : nat) : Z := Z.of_nat k mod 65536.

(** Everything works; ids are counted up. *)
Definition calm : denv := mkEnv yes yes yes yes (fun _ => SentAll) count_id (Z.to_nat 65536) (fun _ _ => []) 64.

Lemma fresh_id (l : list Z) : Z.of_nat (length l) < 65536 -> exists v, 0 <= v < 65536 /\ v ∉ l.
Proof.
  intros Hl. destruct (decide (Exists (fun v => v ∉ l) (seqZ 0 65536))) as [Hex|Hno].
  - apply Exists_exists in Hex as (v & Hv%elem_of_seqZ & Hn). exists v. split; [lia|done].
  - exfalso. apply not_Exists_Forall in Hno; [|apply _]. assert (length (seqZ 0 65536) <= length l)%nat as Hle; [|rewrite length_seqZ in Hle; lia].
    apply submseteq_length, NoDup_submseteq; [apply NoDup_seqZ|]. intros v Hv. rewrite Forall_forall in Hno. destruct (decide (v ∈ l)) as [|Hn]; [done|].
    by destruct (Hno v Hv).
Qed.

Lemma count_ids k used : Z.of_nat (length used) < 65535 ->
  exists i, (i < Z.to_nat 65536)%nat /\ count_id (k + i) ∉ used /\ count_id (k + i) <> 0xffff.
Proof.
  intros Hl. destruct (fresh_id (0xffff :: used)) as (v & Hv & [Hne Hn]%not_elem_of_cons); [cbn [length]; lia|].
  exists (Z.to_nat ((v - Z.of_nat k) mod 65536)). pose proof (Z.mod_pos_bound (v - Z.of_nat k) 65536 ltac:(lia)) as Hb. split; [lia|].
  unfold count_id. rewrite Nat2Z.inj_add, Z2Nat.id by lia. rewrite Zplus_mod_idemp_r. replace (Z.of_nat k + (v - Z.of_nat k)) with v by lia.
  by rewrite Z.mod_small by lia.
Qed.

#[export] Instance calm_ok : DnsEnvOk calm.
Proof. split; [done|exact count_ids|constructor|done]. Qed.

Definition name_a : list byte := zbytes [97].
Definition ask_a : dns_op := Resolve (ResolveIpv4 name_a 0 7).

Definition state_after (env : denv) (ops : list dns_op) : dns :=
  match run_dns env ops dns_init with Ok (_, d) => d | UB _ => dns_init end.

Definition one_server : dns := state_after calm [AddServer 1 53].

Lemma one_server_reachable : dns_reachable calm one_server.
Proof. apply (reach_step calm dns_init (AddServer 1 53)); [apply reach_init|exact I|vm_compute; reflexivity]. Qed.

Definition asked : dns := state_after calm [AddServer 1 53; ask_a].

Lemma asked_reachable : dns_reachable calm asked.
Proof. apply (reach_step calm one_server ask_a); [apply one_server_reachable|discriminate|vm_compute; reflexivity]. Qed.

Lemma resolver_safe_witness : exists d', run_dns_op calm (RequestTimeout 2) asked = Ok (tt, d') /\
  global_requests_inflight d' = 1 /\ tally (accepted 7) (d_log d') = tally (called 7) (d_log d') + msum (owes 7) (d_reqs d').
Proof.
  destruct (resolver_safe calm asked (RequestTimeout 2)) as (d' & Hrun & _ & _ & _ & Hc & _ & _ & _ & _ & _ & Ht).
  - exact asked_reachable.
  - eexists. split; [vm_compute; reflexivity|by eexists].
  - exists d'. split; [exact Hrun|]. split; [|exact (Ht 7)]. rewrite Hc. revert Hrun. vm_compute. intros [= <-]. reflexivity.
Defined.

Lemma no_request_forgotten_witness : exists r n, d_reqs asked !! 2 = Some r /\ cr_ns r = Some n /\ is_Some (d_servers asked !! n).
Proof.
  destruct (no_request_forgotten calm asked asked_reachable (fun _ => eq_refl)) as [Hfly _].
  destruct (Hfly 2) as (r & n & Hr & Hn & Hs & _); [vm_compute; left|]. exists r, n. split; [exact Hr|]. split; [exact Hn|exact Hs].
Defined.

(** ** Outside the use of [resolver_safe] *)

Definition faults {A} (c : cres A) : option fault := match c with UB f => Some f | Ok _ => None end.

(** An id that the first request in flight has is taken to be unused: it is where
    the walk of [transaction_id_pick] both starts and ends. *)
Example id_of_head_reused : let env := mkEnv yes yes yes yes (fun _ => SentAll) (fun _ => 5) 9 (fun _ _ => []) 64 in
  let d := state_after env [AddServer 1 53; ask_a; ask_a] in
  (fun r => rq_trans_id (cr_msg r)) <$> d_reqs d = ({[2 := 5; 3 := 5]} : gmap Z Z).
Proof. vm_compute. reflexivity. Qed.

(** Without a server, a request that waits is resumed with a null server. *)
Example resume_without_server : faults (run_dns calm [ask_a; Resume] dns_init) = Some NullDeref.
Proof. vm_compute. reflexivity. Qed.

(** A request that waits is counted as one less in flight, and stays counted as
    waiting. *)
Example shutdown_of_waiting :
  faults ((run_dns calm [ask_a];; evdns_shutdown calm true) dns_init) = Some AssertFailed.
Proof. vm_compute. reflexivity. Qed.

(** A probe keeps its server, although the server is freed. *)
Example probe_outlives_server :
  faults (run_dns calm [AddServer 1 53; ServerReady 1 true false [ReadError]; ProbeTimeout 1; ClearServers; AddServer 2 53; Resume;
    RequestTimeout 2; RequestTimeout 2; RequestTimeout 2] dns_init) = Some UseAfterFree.
Proof. vm_compute. reflexivity. Qed.

(** The last character of an empty name. *)
Example empty_name_searched :
  faults (run_dns calm [SearchAdd name_a; Resolve (ResolveIpv4 [] 0 7)] dns_init) = Some OutOfBounds.
Proof. vm_compute. reflexivity. Qed.

(** A domain that could not be copied is counted all the same. *)
Example uncopied_domain : let env := mkEnv yes (fun k => false) yes yes (fun _ => SentAll) count_id (Z.to_nat 65536) (fun _ _ => []) 64 in
  faults (run_dns env [AddServer 1 53; SearchAdd name_a; ask_a] dns_init) = Some AssertFailed.
Proof. vm_compute. reflexivity. Qed.

(** The name a search began with could not be copied. *)
Example uncopied_name : let env := mkEnv yes (fun k => Nat.ltb k 5) yes yes (fun _ => SentAll) count_id (Z.to_nat 65536) (fun _ _ => []) 64 in
  faults ((run_dns env [AddServer 1 53; SearchAdd name_a; ask_a];; reply_handle env 3 0x8183 0 None) dns_init) = Some NullDeref.
Proof. vm_compute. reflexivity. Qed.

(** A server failure is passed to the callback at once. *)
Example server_failure_not_timed_out :
  match (run_dns calm [AddServer 1 53; ask_a];; reply_handle calm 2 0x8182 0 None) dns_init with
  | Ok (_, d) => (d_log d !! 2%nat, global_requests_inflight d)
  | UB _ => (None, 0)
  end = (Some (Calling 7 (mkAnswer DNS_ERR_SERVERFAILED 0 0 0 None)), 0).
Proof. vm_compute. reflexivity. Qed.
End ClientDemo.
